(* ===== verification/_CoqProject ===== *)
-Q . S2P
Prelude.v
Api.v
GoHeap.v
Heap.v
NodeInfo.v
NodeTree.v
CacheList.v
Cache.v
CacheSpec.v
Snapshot.v
StaticSnapshot.v
Nominator.v
PriorityQueue.v
QueueSpec.v
QueueTheorems.v
Framework.v
GenericScheduler.v
SchedulerSpec.v
ScheduleTheorems.v
Float64.v
Float64Facts.v
PluginData.v
NodeResources.v
NodeResourcesSpec.v
Goroutine.v
WaitingPods.v
Binding.v
Scheduler.v
EventHandlers.v
Simulator.v
SchedulerSafety.v
CycleTheorems.v
AdmissionTheorems.v
PodChanges.v
PodTopologySpread.v
TopologySpreadSpec.v
InterPodAffinity.v
InterPodAffinitySpec.v
NodePlugins.v
SelectorSpread.v
TopologySpreadScore.v
InterPodAffinityScore.v
InterPodAffinityScoreSpec.v
ScoreContracts.v
Configuration.v
LegacyRegistry.v
Setup.v
InTree.v
Factory.v
SetupSpec.v
ConfigurationTheorems.v
DefaultScheduler.v
Preemption.v
PreemptionSpec.v
PreemptionChoice.v
PreemptionSafety.v
HTTPExtender.v
Histogram.v
HistogramSpec.v
HistogramTheorems.v
ContainerUsage.v
ContainerSpec.v
AggregateState.v
ClusterState.v
ClusterSpec.v
ClusterTheorems.v
Estimator.v
EstimatorTheorems.v
ClusterFeeder.v
ControllerFetcher.v
RecommenderInputs.v
Recommender.v
FeederSpec.v
RecommenderSpec.v
RecommenderTheorems.v
TargetTheorems.v
Autopilot.v
QLearning.v
QLearningTheorems.v
Neural.v
