(* ===== verification/Prelude.v ===== *)
(** * cloud-prophet: a verification library for the scheduler, the recommender and the agents

    cloud-prophet is a scheduler for pods (src/scheduler, derived from kube-scheduler), a
    recommender of resources for their containers (src/recommender, derived from the
    vertical pod autoscaler) and two small agents that learn when to scale (src/learn).  The
    programs share no code and no state.  This library translates their core into
    definitions and proves what they promise.

    ** The scheduler and its files

    Pods that wait to be scheduled are in the scheduling queue; pods that run, or that the
    scheduler assumes to run, are in the cache; informers feed both.  The scheduling loop
    takes a pod from the queue, copies the cache to a snapshot, asks the plugins of the
    framework which nodes fit and which is best, assumes the pod on that node in the cache
    and starts a goroutine that binds it.  When no node fits, a plugin looks for pods of
    lower priority to evict.

    - Prelude.v: results of functions that fail or panic, the state and error monad, 32 and
      64 bit integers, lemmas and tactics.  Api.v: the objects of the API, with the
      fields that the code reads.  Goroutine.v: goroutines as trees of calls, several of
      them as a step relation.  Float64.v, Float64Facts.v: Go's [float64].
    - GoHeap.v: container/heap of Go's library, against a class of operations with laws.
      Heap.v: internal/heap, the keyed heap of the queue.
    - NodeInfo.v: framework/v1alpha1/types.go, the accounts of the pods on a node.
      NodeTree.v: internal/cache/node_tree.go.
    - CacheList.v, Cache.v: internal/cache/cache.go, one definition per exported method.
      CacheSpec.v: the state machine of a pod that interface.go promises, and the
      refinement.  Snapshot.v: internal/cache/snapshot.go and UpdateSnapshot;
      StaticSnapshot.v: the snapshot that is built from lists.
    - Nominator.v, PriorityQueue.v: internal/queue.  QueueSpec.v: the queue as one table
      of pending pods, QueueTheorems.v: its properties.
    - Framework.v: framework/v1alpha1/interface.go and cycle_state.go, and the filter and
      score extension points of framework/runtime/framework.go; Binding.v: the other
      extension points; WaitingPods.v: runtime/waiting_pods_map.go.
    - GenericScheduler.v: core/generic_scheduler.go.  SchedulerSpec.v, ScheduleTheorems.v:
      the parallel search, and what one call of Schedule guarantees.
    - PluginData.v: what the plugins below keep in a cycle state.
      NodeResources.v, NodeResourcesSpec.v: plugins/noderesources with the validation of its
      arguments.  PodChanges.v: the contract of plugins that follow pods which come and go;
      PodTopologySpread.v, TopologySpreadSpec.v: plugins/podtopologyspread;
      InterPodAffinity.v, InterPodAffinitySpec.v: plugins/interpodaffinity.
      InterPodAffinityScore.v and InterPodAffinityScoreSpec.v, TopologySpreadScore.v: the
      scores of the two.  NodePlugins.v: the plugins that look at one node (nodename,
      nodeunschedulable, nodeports, tainttoleration, nodelabel, nodeaffinity, imagelocality,
      volumerestrictions, volumezone) and helper/normalize_score.go.  SelectorSpread.v:
      plugins/selectorspread and plugins/serviceaffinity.  ScoreContracts.v: the range of
      scores that the framework demands, as a class that the plugins instantiate.
    - Configuration.v: apis/config with its validation.  LegacyRegistry.v:
      plugins/legacy_registry.go and algorithmprovider/registry.go.  Setup.v: the
      construction of frameworks (runtime/framework.go, runtime/registry.go) and profiles
      (profile/profile.go).  InTree.v: the registry of the plugins of the tree with their
      factories, and plugins/defaultbinder.  Factory.v: factory.go and New of scheduler.go.  SetupSpec.v,
      ConfigurationTheorems.v, DefaultScheduler.v: what a configuration is turned into.
    - HTTPExtender.v: core/extender.go.
    - Preemption.v: plugins/defaultpreemption.  PreemptionSpec.v, PreemptionChoice.v,
      PreemptionSafety.v: the victims, the node that is picked, the pods that are deleted.
    - Scheduler.v: scheduler.go, the error function of factory.go and the state of the
      program; EventHandlers.v: eventhandlers.go, and the steps of the whole program.
      Simulator.v: these steps as a function of a list of choices, for examples.
      SchedulerSafety.v, CycleTheorems.v, AdmissionTheorems.v: theorems on the composition.

    ** The recommender and its files

    A pass lists the VPA objects, the pods and the usage of their containers, brings the
    model of the cluster in line with them, computes a recommendation for every VPA object
    from the histograms of the containers that it matches, writes checkpoints and drops
    aggregations that are obsolete.

    - Histogram.v: recommender/util/histogram.go, histogram_options.go and
      decaying_histogram.go.  HistogramSpec.v, HistogramTheorems.v: its invariant, the
      percentile, checkpoints.
    - ContainerUsage.v: model/types.go and model/container.go; ContainerSpec.v: the memory
      peaks as an abstract machine.  AggregateState.v: model/aggregate_container_state.go.
    - ClusterState.v: model/vpa.go and model/cluster.go.  Aggregated states are shared by
      pointer between the cluster, the VPA objects and the containers, so that they live in
      a store.  ClusterSpec.v: the links between them as an invariant.  ClusterTheorems.v.
    - Estimator.v, EstimatorTheorems.v: logic/estimator.go and logic/recommender.go.
    - ClusterFeeder.v: input/cluster_feeder.go; FeederSpec.v: what it makes of the model.
      ControllerFetcher.v: input/controller_fetcher.  RecommenderInputs.v: input/spec,
      input/oom, input/history, input/metrics and the watch of evictions.
    - Recommender.v: routines/, checkpoint/checkpoint_writer.go and util/vpa_api_util.go;
      RecommenderSpec.v, RecommenderTheorems.v: what every pass keeps, and the properties.
      TargetTheorems.v: the feeder on the fetcher of controllers.
    - Autopilot.v: auto/autopilot.go, recommendations for a recorded usage.

    ** The agents and their files

    - QLearning.v: learn/qlearning.go, what profil/profil.go reads of the database, and the
      control loop of app/ctl/mainQl.go; QLearningTheorems.v: its table, its choices and the
      bound of its values.
    - Neural.v: learn/neural.go and one round of app/ctl/mainNeural.go.

    ** The theorems

    - Data structures: the heap refines a map from keys to objects whose pop is a minimum;
      the node tree enumerates every node once; the accounts of a node are those of its
      pods; the nominator is a map; a snapshot is the cache that it was taken from.
    - State machines: the cache refines the machine of interface.go, the queue a table of
      pending pods; a waiting pod is released once; no pending pod is lost or asleep while
      there is a pod to schedule.
    - Scheduling: the parallel search ends up with enough nodes, for every interleaving;
      the host is chosen uniformly among the best ones; the host of Schedule passes every
      filter, also with the nominated pods; a pod that is
      admitted by the resource filter never overcommits its node; an assumed pod is bound
      or everything done for it is undone, whatever plugins, extenders and the API server answer.
    - Configuration: a framework runs exactly the plugins that are enabled, in their order,
      with totals weighted as configured; a policy keeps the filters of the mandatory
      predicates; the default scheduler needs arguments for its plugins.
    - Extenders: those of a validated configuration keep the contract that the scheduling
      cycle relies on; victims that are sent to one and sent back are the same.
    - Plugins: the incremental counts of the spread and affinity filters are those of the
      cluster, their verdicts those of the definition by counting; the victims of a
      preemption are minimal and no others are evicted.
    - Scores: the node resources scorers give weighted averages between 0 and 100 for valid
      arguments; the
      score of InterPodAffinity, gathered in parallel, is the sum of the weights of the
      terms that match.
    - Recommender: VPA objects use exactly the aggregations that match, in every reachable
      state; the model mirrors the lists that are fed; histograms keep their bounds, with
      the percentile at the end of the right bucket and checkpoints that keep the shares of the
      buckets in the heaviest one and are read back;
      recommended amounts are bounded; one memory peak is counted per interval.  The search
      for the topmost controller terminates with the last of the chain of owners; as the
      feeder calls it, no target of a VPA object is ever valid.
    - Agents: the values of a discounted Q-learning agent stay bounded in every run of the
      control loop, so that they are exact and no sum overflows; each round learns the reward
      of the state in which the last action was chosen; the chosen action has the greatest value.

    ** How the code is modelled

    - Integers of Go are [Z] with the wrap-around of their width written out ([+₆₄],
      [wrap32]); floats are binary64 numbers with their rounding.  A call that fails is [Err] or
      [inl]; one that panics (nil dereference, index out of range, division by
      zero) is [Panic] or [None].
    - A method that holds the lock of its object is one atomic step; Schedule, which runs in
      the scheduling loop only, is one step too.  Goroutines interleave between their calls;
      the pieces of [parallelize.Until] run in any order, an argument or a step
      relation.  The order in which Go iterates over a map is an argument where the result may
      depend on it, and that of [map_to_list] where it does not.
    - Plugins that are not of the tree, the API server, informers, clients, the network and
      its JSON, databases and random numbers are arguments: functions where the result of one call is used, and otherwise arbitrary
      answers to the calls of a goroutine.  A cycle state that goes from one plugin of the
      binding phase to the next is not followed.  The calls of an extender during a preemption or
      a binding take any answer; HTTPExtender.v says which ones there are.
    - The time is read once per method.  Copies made only to avoid sharing are the
      identity; where sharing can be seen (the node infos of the snapshot, aggregated
      states, waiting pods) there is a store with locations.
    - Third-party code is a class: [LabelsLib] and [SelectorLib] (label selectors),
      [MathLib] (logarithms and powers; conversions that Go leaves open), [LabelsString] and [LabelsText]
      (the text of a set of labels), [Fetchers] (what the clients of the recommender
      answer), [ExtenderJSON] (the encoding of requests and answers), [Fann] (the neural
      network).  The hypotheses on them: a power is a float64, the conversion of NaN is not
      positive, the text of a set of labels is its key=value items in some order, joined by
      commas (so that sets of labels in the syntax of Kubernetes, without these two
      characters, have different texts), no informer and no
      resource of the API server has an empty kind, [labels.Nothing()] matches nothing.
    - Fuel: the loops of container/heap take the length of the heap, the scan of the node
      tree the number of nodes, the search for the topmost controller twice the number of
      controllers; that this is enough is part of their theorems.  Every other recursion
      is structural.

    ** Not modelled

    Logging, events, metrics and traces; the text of some errors; the construction of
    clients, informers and timers; reading and decoding a policy; generated code (deep copies, the
    scheme); the queries of the database but for what is read of them; command lines whose
    actions are empty.  PROJECT.json has a component for each with the reason. *)
From Stdlib Require Export ZArith Lia.
From stdpp Require Export base gmap strings list fin_maps numbers sorting.

(** ** Results of Go functions

    A Go function of the program either returns a value, returns a non-nil
    [error], or does not return because it panics (nil dereference, index out of
    range, [klog.Fatalf]).  [E] is the error type of the component. *)
Inductive result (E A : Type) : Type :=
  | Ok (a : A)
  | Err (e : E)
  | Panic.
Arguments Ok {E A} a.
Arguments Err {E A} e.
Arguments Panic {E A}.

#[export] Instance result_eq {E A} `{EqDecision E, EqDecision A} : EqDecision (result E A).
Proof. solve_decision. Defined.

(** ** Stateful methods: the result, and the state left also when the method fails *)
Definition stateM (S E A : Type) : Type := S -> result E A * S.

Section StateError.
Context {S E : Type}.

#[export] Instance stateM_ret : MRet (stateM S E) := fun A a s => (Ok a, s).
#[export] Instance stateM_bind : MBind (stateM S E) := fun A B k m s =>
  match m s with
  | (Ok a, s') => k a s'
  | (Err e, s') => (Err e, s')
  | (Panic, s') => (Panic, s')
  end.
Definition fail {A} (e : E) : stateM S E A := fun s => (Err e, s).
Definition panic {A} : stateM S E A := fun s => (Panic, s).
Definition get : stateM S E S := fun s => (Ok s, s).
Definition modify (f : S -> S) : stateM S E unit := fun s => (Ok tt, f s).
(** The caller logs an error and goes on. *)
Definition logged (m : stateM S E unit) : stateM S E unit := fun s =>
  match m s with (Err _, s') => (Ok tt, s') | r => r end.

Definition ofResult {A} (r : result E A) : stateM S E A := fun s => (r, s).
(** [err := m; if err != nil { ... }]: the error as a value. *)
Definition caught (m : stateM S E unit) : stateM S E (option E) := fun s =>
  match m s with
  | (Ok _, s') => (Ok None, s')
  | (Err e, s') => (Ok (Some e), s')
  | (Panic, s') => (Panic, s')
  end.

Lemma bind_Ok {A B} (m : stateM S E A) (k : A -> stateM S E B) s a s' :
  m s = (Ok a, s') -> (m ≫= k) s = k a s'.
Proof. intros Hm. unfold mbind, stateM_bind. by rewrite Hm. Qed.

Lemma bind_Err {A B} (m : stateM S E A) (k : A -> stateM S E B) s e s' :
  m s = (Err e, s') -> (m ≫= k) s = (Err e, s').
Proof. intros Hm. unfold mbind, stateM_bind. by rewrite Hm. Qed.

Lemma bind_assoc {A B C} (m : stateM S E A) (k : A -> stateM S E B) (k' : B -> stateM S E C) s :
  ((m ≫= k) ≫= k') s = (m ≫= fun a => k a ≫= k') s.
Proof. unfold mbind, stateM_bind. by destruct (m s) as [[]]. Qed.

Lemma bind_regroup {A B C D} (m : stateM S E A) (n : stateM S E B) (f : B -> stateM S E C)
    (k : C -> stateM S E D) s :
  (m ≫= fun _ => n ≫= fun b => f b ≫= k) s = ((m ≫= fun _ => n ≫= f) ≫= k) s.
Proof. unfold mbind, stateM_bind. destruct (m s) as [[a| |] t]; try done. by destruct (n t) as [[]]. Qed.

(** [runs m s Φ]: the method returns without an error, and [Φ] holds of its value
    and the state it leaves.  The rules below execute a method step by step. *)
Definition runs {A} (m : stateM S E A) (s : S) (Φ : A -> S -> Prop) : Prop :=
  exists a s', m s = (Ok a, s') /\ Φ a s'.

Lemma runs_ret {A} (a : A) s (Φ : A -> S -> Prop) : Φ a s -> runs (mret a) s Φ.
Proof. intros H. by exists a, s. Qed.

Lemma runs_get s (Φ : S -> S -> Prop) : Φ s s -> runs get s Φ.
Proof. intros H. by exists s, s. Qed.

Lemma runs_modify f s (Φ : unit -> S -> Prop) : Φ tt (f s) -> runs (modify f) s Φ.
Proof. intros H. by exists tt, (f s). Qed.

Lemma runs_bind {A B} (m : stateM S E A) (k : A -> stateM S E B) s Φ :
  runs m s (fun a s' => runs (k a) s' Φ) -> runs (m ≫= k) s Φ.
Proof. intros (a&s'&Hm&b&s''&Hk&HΦ). exists b, s''. split; [|done]. by erewrite bind_Ok by done. Qed.

Lemma runs_caught (m : stateM S E unit) s Φ : runs m s (fun _ => Φ None) -> runs (caught m) s Φ.
Proof. intros ([]&s'&Hm&HΦ). exists None, s'. split; [|done]. unfold caught. by rewrite Hm. Qed.

Lemma runs_mono {A} (m : stateM S E A) s (Φ Ψ : A -> S -> Prop) :
  runs m s Φ -> (forall a s', Φ a s' -> Ψ a s') -> runs m s Ψ.
Proof. intros (a&s'&Hm&HΦ) HΨ. exists a, s'. auto. Qed.
End StateError.

(** Runs the next step of a method when its rule is one of the above. *)
Ltac run_step :=
  first [ apply runs_bind | apply runs_ret | apply runs_get | apply runs_modify ]; cbv beta.

Declare Scope go_scope.
Delimit Scope go_scope with go.

(** ** Machine integers *)
Section Int64.
Local Open Scope Z_scope.

Definition min_int64 : Z := - 2 ^ 63.
Definition max_int64 : Z := 2 ^ 63 - 1.

Definition in_int64 (x : Z) : Prop := min_int64 <= x <= max_int64.

(** Two's complement wrap-around of a 64-bit signed integer. *)
Definition wrap64 (x : Z) : Z := (x + 2 ^ 63) mod 2 ^ 64 - 2 ^ 63.

Lemma wrap64_range x : in_int64 (wrap64 x).
Proof.
  unfold in_int64, min_int64, max_int64, wrap64.
  pose proof (Z.mod_pos_bound (x + 2 ^ 63) (2 ^ 64)). lia.
Qed.

Lemma wrap64_id x : in_int64 x -> wrap64 x = x.
Proof.
  unfold in_int64, min_int64, max_int64, wrap64. intros H.
  rewrite Z.mod_small; lia.
Qed.

Lemma wrap64_cong x y : x mod 2 ^ 64 = y mod 2 ^ 64 -> wrap64 x = wrap64 y.
Proof.
  unfold wrap64. intros H.
  rewrite (Z.add_mod x), (Z.add_mod y), H by lia. done.
Qed.

Lemma wrap64_mod x : wrap64 x mod 2 ^ 64 = x mod 2 ^ 64.
Proof.
  unfold wrap64.
  rewrite Zminus_mod, Z.mod_mod, <- Zminus_mod by lia. f_equal. lia.
Qed.

Lemma wrap64_add_l x y : wrap64 (wrap64 x + y) = wrap64 (x + y).
Proof.
  apply wrap64_cong. rewrite Z.add_mod, wrap64_mod, <- Z.add_mod by lia. done.
Qed.

Lemma wrap64_add_r x y : wrap64 (x + wrap64 y) = wrap64 (x + y).
Proof. rewrite Z.add_comm, wrap64_add_l, Z.add_comm. done. Qed.

Lemma wrap64_sub_l x y : wrap64 (wrap64 x - y) = wrap64 (x - y).
Proof. unfold Z.sub. apply wrap64_add_l. Qed.

(** Adding and then subtracting the same amount is the identity on a
    machine integer, whether or not the addition overflowed. *)
Lemma wrap64_add_sub x y : in_int64 x -> wrap64 (wrap64 (x + y) - y) = x.
Proof.
  intros H. rewrite wrap64_sub_l.
  replace (x + y - y) with x by lia. by apply wrap64_id.
Qed.

(** The same for a 32-bit signed integer. *)
Definition wrap32 (x : Z) : Z := (x + 2 ^ 31) mod 2 ^ 32 - 2 ^ 31.

Lemma wrap32_id x : - 2 ^ 31 <= x < 2 ^ 31 -> wrap32 x = x.
Proof. unfold wrap32. intros H. rewrite Z.mod_small; lia. Qed.

(** Integers with the same low 64 bits: the wrap-around of sums can be moved out. *)
Definition eq64 (x y : Z) : Prop := wrap64 x = wrap64 y.

#[export] Instance eq64_equivalence : Equivalence eq64.
Proof. split; unfold eq64; congruence. Qed.

#[export] Instance eq64_add : Proper (eq64 ==> eq64 ==> eq64) Z.add.
Proof.
  intros x x' Hx y y' Hy. unfold eq64 in *.
  by rewrite <- wrap64_add_l, Hx, wrap64_add_l, <- wrap64_add_r, Hy, wrap64_add_r.
Qed.

#[export] Instance wrap64_proper : Proper (eq64 ==> eq) wrap64.
Proof. by intros x y. Qed.

Lemma wrap64_eq64 x : eq64 (wrap64 x) x.
Proof. apply wrap64_id, wrap64_range. Qed.
End Int64.

Notation "x +₆₄ y" := (wrap64 (x + y)%Z) (at level 50, left associativity) : go_scope.
Notation "x -₆₄ y" := (wrap64 (x - y)%Z) (at level 50, left associativity) : go_scope.
Notation "x *₆₄ y" := (wrap64 (x * y)%Z) (at level 40, left associativity) : go_scope.

(** ** Lists *)

(** Mapping a lookup over keys that are all present. *)
Lemma lookup_omap_total {K A} (f : K -> option A) (l : list K) i :
  (forall k, k ∈ l -> is_Some (f k)) -> omap f l !! i = l !! i ≫= f.
Proof.
  revert i. induction l as [|k l IH]; intros i Hf; [done|].
  destruct (Hf k) as [a Ha]; [set_solver|]. simpl. rewrite Ha.
  destruct i as [|i]; simpl; [done|]. apply IH. set_solver.
Qed.

Lemma length_omap_total {K A} (f : K -> option A) (l : list K) :
  (forall k, k ∈ l -> is_Some (f k)) -> length (omap f l) = length l.
Proof.
  induction l as [|k l IH]; intros Hf; [done|].
  destruct (Hf k) as [a Ha]; [set_solver|]. simpl. rewrite Ha. simpl.
  f_equal. apply IH. set_solver.
Qed.

(** ** Strings joined by a separator *)
Definition lacks (c : Ascii.ascii) (s : string) : Prop := c ∉ String.list_ascii_of_string s.

#[export] Instance lacks_dec c s : Decision (lacks c s).
Proof. unfold lacks. apply _. Defined.

Lemma join_inj c a b a' b' :
  lacks c a -> lacks c a' ->
  String.append a (String c b) = String.append a' (String c b') -> a = a' /\ b = b'.
Proof.
  unfold lacks. revert a'. induction a as [|x a IH]; intros [|y a'] Ha Ha' E; simpl in *; simplify_eq.
  - done.
  - set_solver.
  - set_solver.
  - destruct (IH a') as [-> ->]; [set_solver..|done|done].
Qed.

Lemma join_lacks c a b : ~ lacks c (String.append a (String c b)).
Proof. unfold lacks. induction a; cbn; set_solver. Qed.

Lemma lacks_append c a b : lacks c a -> lacks c b -> lacks c (String.append a b).
Proof. unfold lacks. induction a; cbn; set_solver. Qed.

(** Texts that are not empty are recovered from their concatenation. *)
Lemma concat_inj c l l' : Forall (fun s => s <> "" /\ lacks c s)%string l -> Forall (fun s => s <> "" /\ lacks c s)%string l' ->
  String.concat (String c "") l = String.concat (String c "") l' -> l = l'.
Proof.
  intros Hl. revert l'. induction Hl as [|x l [Hx Cx] Hl IH]; intros l' Hl' E.
  - destruct Hl' as [|y [|z l'] [Hy _] _]; [done|by cbn in E; subst y|by destruct y].
  - destruct Hl' as [|y l' [Hy Cy] Hl']; [by destruct l; [|destruct x]|].
    destruct l as [|x2 l], l' as [|y2 l']; cbn [String.concat] in E.
    + by subst y.
    + subst x. by apply join_lacks in Cx.
    + subst y. by apply join_lacks in Cy.
    + apply join_inj in E as [-> E]; [|done..]. f_equal. by apply IH.
Qed.

(** ** Maps *)
Lemma exists_Some {A} (m : A) (P : A -> Prop) : (exists m', Some m = Some m' /\ P m') <-> P m.
Proof. naive_solver. Qed.

Lemma exists_None {A} (P : A -> Prop) : (exists m', None = Some m' /\ P m') <-> False.
Proof. naive_solver. Qed.

(** A loop over a Go map that updates one entry of [m] per key. *)
Lemma lookup_map_fold_insert {A B} (f : option B -> A -> B) (m0 : gmap string B)
    (sc : gmap string A) k :
  map_fold (fun k v m => <[k := f (m !! k) v]> m) m0 sc !! k =
  match sc !! k with None => m0 !! k | Some v => Some (f (m0 !! k) v) end.
Proof.
  revert k. apply (map_fold_weak_ind (fun m sc => forall k,
    m !! k = match sc !! k with None => m0 !! k | Some v => Some (f (m0 !! k) v) end)).
  - intros k. by rewrite lookup_empty.
  - intros i v sc' m Hi IH k. destruct (decide (k = i)) as [->|Hne].
    + rewrite !lookup_insert_eq, IH, Hi. done.
    + by rewrite !lookup_insert_ne by done.
Qed.

Lemma map_fold_insert_id {A} (m : gmap string A) :
  map_fold (fun k v res => <[k := v]> res) ∅ m = m.
Proof.
  apply map_eq. intros k.
  rewrite (lookup_map_fold_insert (fun _ v => v)), lookup_empty. by destruct (m !! k).
Qed.

(** A loop over a map in which only the key [k] affects what [get] reads. *)
Lemma map_fold_one {A R V} (f : string -> A -> R -> R) (get : R -> V) (k : string)
    (upd : A -> V -> V) (r0 : R) (m : gmap string A) :
  (forall v r, get (f k v r) = upd v (get r)) ->
  (forall k' v r, k' <> k -> get (f k' v r) = get r) ->
  get (map_fold f r0 m) = match m !! k with None => get r0 | Some v => upd v (get r0) end.
Proof.
  intros Hk Hne. apply (map_fold_weak_ind (fun r m =>
    get r = match m !! k with None => get r0 | Some v => upd v (get r0) end)).
  - by rewrite lookup_empty.
  - intros i v m' r Hi IH. destruct (decide (i = k)) as [->|Hik].
    + by rewrite lookup_insert_eq, Hk, IH, Hi.
    + by rewrite lookup_insert_ne, Hne by done.
Qed.

(** ** Sums *)
Definition sumOver {A} (f : A -> Z) (l : list A) : Z := foldr (fun a acc => (f a + acc)%Z) 0%Z l.

Lemma sumOver_app {A} (f : A -> Z) l k : sumOver f (l ++ k) = (sumOver f l + sumOver f k)%Z.
Proof. induction l; simpl; lia. Qed.

#[export] Instance sumOver_Permutation {A} (f : A -> Z) : Proper ((≡ₚ) ==> (=)) (sumOver f).
Proof. induction 1; simpl; lia. Qed.

Lemma sumOver_ext {A} (f g : A -> Z) l : (forall a, a ∈ l -> f a = g a) -> sumOver f l = sumOver g l.
Proof.
  induction l as [|a l IH]; intros Hfg; simpl; [done|].
  rewrite Hfg, IH; [done| |]; set_solver.
Qed.

Lemma sumOver_fmap {A B} (f : B -> Z) (h : A -> B) (l : list A) : sumOver f (h <$> l) = sumOver (f ∘ h) l.
Proof. induction l as [|a l IH]; [done|]. cbn. by f_equal. Qed.

Lemma filter_fmap_comm {A B} (P : B -> Prop) `{forall b, Decision (P b)} (h : A -> B) (l : list A) :
  filter P (h <$> l) = h <$> filter (fun a => P (h a)) l.
Proof.
  induction l as [|a l IH]; [done|]. cbn [fmap list_fmap]. rewrite !filter_cons.
  repeat case_decide; try done. simpl. by f_equal.
Qed.

Lemma filter_keeps_all {A} (P : A -> Prop) `{forall a, Decision (P a)} (l : list A) :
  (forall a, a ∈ l -> P a) -> filter P l = l.
Proof.
  induction l as [|a l IH]; intros HP; [done|].
  rewrite filter_cons_True by (apply HP; set_solver). f_equal. apply IH. set_solver.
Qed.

Lemma filter_drops_all {A} (P : A -> Prop) `{forall a, Decision (P a)} (l : list A) :
  (forall a, a ∈ l -> ~ P a) -> filter P l = [].
Proof.
  induction l as [|a l IH]; intros HP; [done|].
  rewrite filter_cons_False by (apply HP; set_solver). apply IH. set_solver.
Qed.

Lemma filter_ext_elem {A} (P Q : A -> Prop) `{forall a, Decision (P a), forall a, Decision (Q a)} (l : list A) :
  (forall a, a ∈ l -> P a <-> Q a) -> filter P l = filter Q l.
Proof.
  induction l as [|a l IH]; intros HPQ; [done|]. rewrite !filter_cons, IH by (intros b Hb; apply HPQ; by right).
  pose proof (HPQ a ltac:(left)). repeat case_decide; tauto || done.
Qed.

(** A list without duplicate keys holds one element per key. *)
Lemma NoDup_fmap_inj_on {A B} (f : A -> B) (l : list A) a b :
  NoDup (f <$> l) -> a ∈ l -> b ∈ l -> f a = f b -> a = b.
Proof.
  induction l as [|c l IH]; intros Hnd Ha Hb Hf; [by apply elem_of_nil in Ha|].
  apply NoDup_cons in Hnd as [Hc Hnd].
  apply elem_of_cons in Ha as [->|Ha], Hb as [->|Hb]; [done| | |by apply IH].
  - destruct Hc. rewrite Hf. by apply list_elem_of_fmap_2.
  - destruct Hc. rewrite <- Hf. by apply list_elem_of_fmap_2.
Qed.

(** Taking the element with a given key out of a list without duplicate keys. *)
Lemma take_out_key {A B} `{EqDecision B} (f : A -> B) (l : list A) a :
  NoDup (f <$> l) -> a ∈ l -> l ≡ₚ a :: filter (fun b => f b <> f a) l.
Proof.
  induction l as [|b l IH]; intros Hnd Ha; [by apply elem_of_nil in Ha|].
  apply NoDup_cons in Hnd as [Hb Hnd]. rewrite filter_cons.
  destruct (decide (f b = f a)) as [E|E].
  - rewrite decide_False by tauto. apply elem_of_cons in Ha as [->|Ha].
    + by rewrite filter_keeps_all by (intros c Hc E'; apply Hb; rewrite <- E'; by apply list_elem_of_fmap_2).
    + destruct Hb. rewrite E. by apply list_elem_of_fmap_2.
  - rewrite decide_True by done. apply elem_of_cons in Ha as [->|Ha]; [done|].
    rewrite (IH Hnd Ha) at 1. apply Permutation_swap.
Qed.

(** The greatest value of [f] on [l] and [x]. *)
Definition maxOver {A} (f : A -> Z) (x : Z) (l : list A) : Z := foldr (fun a acc => Z.max (f a) acc) x l.

Lemma sumOver_nonneg {A} (f : A -> Z) l : Forall (fun a => 0 <= f a)%Z l -> (0 <= sumOver f l)%Z.
Proof. induction 1; simpl; lia. Qed.

Lemma maxOver_foldl {A} (f : A -> Z) (l : list A) : forall x,
  foldl (fun acc a => Z.max acc (f a)) x l = maxOver f x l.
Proof.
  induction l as [|a l IH]; intros x; simpl; [done|]. rewrite IH. clear IH.
  induction l; simpl; lia.
Qed.

Lemma maxOver_bounds {A} (f : A -> Z) x l lo hi :
  (lo <= x <= hi)%Z -> Forall (fun a => f a <= hi)%Z l -> (lo <= maxOver f x l <= hi)%Z.
Proof. induction 2; simpl; lia. Qed.

(** *** Sums of integers *)
Section Sums.
Local Open Scope Z_scope.

Lemma sumOver_cons {A} (f : A -> Z) a l : sumOver f (a :: l) = f a + sumOver f l.
Proof. done. Qed.

Lemma sumOver_insert {A} (f : A -> Z) (l : list A) i x y :
  l !! i = Some x -> sumOver f (<[i := y]> l) = sumOver f l - f x + f y.
Proof.
  intros Hi. rewrite insert_take_drop by (by eapply lookup_lt_Some). rewrite <- (take_drop_middle l i x Hi) at 3.
  rewrite !sumOver_app, !sumOver_cons. lia.
Qed.

Lemma sumOver_pos {A} (f : A -> Z) (l : list A) : (forall a, 0 <= f a) -> 0 < sumOver f l <-> exists a, a ∈ l /\ 0 < f a.
Proof.
  intros Hf. assert (Hnn : forall l, 0 <= sumOver f l) by (intros; by apply sumOver_nonneg, list.Forall_forall).
  induction l as [|a l IH]; [split; [done|by intros (a&Ha%elem_of_nil&_)]|]. rewrite sumOver_cons. split.
  - intros Hpos. destruct (decide (0 < f a)) as [Ha|Ha]; [exists a; split; [left|done]|].
    destruct (proj1 IH ltac:(lia)) as (b&Hb&?). exists b. split; [by right|done].
  - intros (b&[->|Hb]%elem_of_cons&Hpos); [specialize (Hnn l)|specialize (Hf a)]; [lia|].
    assert (0 < sumOver f l) by (apply IH; by exists b). lia.
Qed.

Lemma sumOver_filter {A} (P : A -> Prop) `{forall a, Decision (P a)} (f : A -> Z) (l : list A) :
  (forall a, a ∈ l -> ~ P a -> f a = 0) -> sumOver f (filter P l) = sumOver f l.
Proof.
  intros Hf.
  induction l as [|a l IH]; [done|]. assert (IH' : sumOver f (filter P l) = sumOver f l) by (apply IH; intros; apply Hf; [by right|done]).
  rewrite filter_cons. case_decide as Ha; rewrite !sumOver_cons; [lia|]. rewrite (Hf a ltac:(left) Ha). lia.
Qed.

Lemma sumOver_bind {A B} (f : B -> Z) (g : A -> list B) (l : list A) : sumOver f (l ≫= g) = sumOver (fun a => sumOver f (g a)) l.
Proof.
  induction l as [|a l IH]; [done|]. change ((a :: l) ≫= g) with (g a ++ (l ≫= g)). rewrite sumOver_app, IH. done.
Qed.

Lemma sumOver_single {A} (f : A -> Z) a : sumOver f [a] = f a.
Proof. cbn. lia. Qed.

Lemma sumOver_scale {A} (f : A -> Z) c l : sumOver (fun a => f a * c) l = sumOver f l * c.
Proof. unfold sumOver. induction l; cbn [foldr]; lia. Qed.

Lemma sumOver_le {A} (f g : A -> Z) l : (forall a, a ∈ l -> f a <= g a) -> sumOver f l <= sumOver g l.
Proof.
  unfold sumOver. induction l as [|a l IH]; intros Hle; cbn [foldr]; [lia|].
  specialize (Hle a ltac:(set_solver)) as Ha. specialize (IH ltac:(set_solver)). lia.
Qed.
End Sums.

(** Computes the bind of an [option] whose head is known. *)
Ltac bind_simpl := cbn [mbind option_bind].
