(* ===== verification/Api.v ===== *)
(** * The API objects the scheduler works on

    Pods and nodes are types of [k8s.io/api]; the records below have the fields
    that the modelled code reads.  The fields it only copies or compares as a
    whole are one opaque component ([pod_Rest], [status_Rest], [ManagedFields]).  A [Quantity] is
    seen only through [MilliValue] and [Value], a label selector only through
    [Matches]. *)
From S2P Require Import Prelude.

(** ** Resources *)
Record Quantity := { MilliValue : Z; Value : Z }.
#[export] Instance Quantity_eq : EqDecision Quantity.
Proof. solve_decision. Defined.

Abbreviation ResourceList := (gmap string Quantity).

Definition ResourceCPU : string := "cpu".
Definition ResourceMemory : string := "memory".
Definition ResourcePods : string := "pods".
Definition ResourceEphemeralStorage : string := "ephemeral-storage".

(** [rl.Cpu().MilliValue()] is 0 when the resource is not listed. *)
Definition zeroQuantity : Quantity := {| MilliValue := 0; Value := 0 |}.

(** ** Labels *)
Abbreviation LabelSet := (gmap string string).

Record LabelSelectorRequirement := { req_Key : string; req_Operator : string; req_Values : list string }.
#[export] Instance LabelSelectorRequirement_eq : EqDecision LabelSelectorRequirement.
Proof. solve_decision. Defined.

Record LabelSelector := {
  MatchLabels : LabelSet;
  MatchExpressions : list LabelSelectorRequirement
}.
#[export] Instance LabelSelector_eq : EqDecision LabelSelector.
Proof. solve_decision. Defined.

(** A [labels.Selector]: an interface value is known by its methods. *)
Record Selector := { Matches : LabelSet -> bool; SelectorEmpty : bool }.

(** [metav1.LabelSelectorAsSelector] of k8s.io/apimachinery ([None] is an error). *)
Class LabelsLib : Type := LabelSelectorAsSelector : option LabelSelector -> option Selector.

(** ** Affinity *)
Record PodAffinityTerm := {
  term_LabelSelector : option LabelSelector;
  term_Namespaces : list string;
  term_TopologyKey : string
}.
#[export] Instance PodAffinityTerm_eq : EqDecision PodAffinityTerm.
Proof. solve_decision. Defined.

Record WeightedPodAffinityTerm := { wterm_Weight : Z; wterm_Term : PodAffinityTerm }.
#[export] Instance WeightedPodAffinityTerm_eq : EqDecision WeightedPodAffinityTerm.
Proof. solve_decision. Defined.

(** [v1.PodAffinity] and [v1.PodAntiAffinity] have the same shape. *)
Record PodAffinity := {
  aff_Required : list PodAffinityTerm;
  aff_Preferred : list WeightedPodAffinityTerm
}.
#[export] Instance PodAffinity_eq : EqDecision PodAffinity.
Proof. solve_decision. Defined.

Record PreferredSchedulingTerm := { pst_Weight : Z; pst_Preference : string }.
#[export] Instance PreferredSchedulingTerm_eq : EqDecision PreferredSchedulingTerm.
Proof. solve_decision. Defined.

(** The required node selector terms are opaque to the code. *)
Record NodeAffinity := {
  na_Required : option (list string);
  na_Preferred : list PreferredSchedulingTerm
}.
#[export] Instance NodeAffinity_eq : EqDecision NodeAffinity.
Proof. solve_decision. Defined.

Record Affinity := {
  af_NodeAffinity : option NodeAffinity;
  af_PodAffinity : option PodAffinity;
  af_PodAntiAffinity : option PodAffinity
}.
#[export] Instance Affinity_eq : EqDecision Affinity.
Proof. solve_decision. Defined.

(** ** Pods *)
Record ContainerPort := { cp_HostIP : string; cp_Protocol : string; cp_HostPort : Z }.
#[export] Instance ContainerPort_eq : EqDecision ContainerPort.
Proof. solve_decision. Defined.

Record Container := {
  c_Image : string;
  c_Requests : ResourceList;
  c_Limits : ResourceList;
  c_Ports : list ContainerPort
}.
#[export] Instance Container_eq : EqDecision Container.
Proof. solve_decision. Defined.

Record Toleration := { tol_Key : string; tol_Value : string; tol_Effect : string }.
#[export] Instance Toleration_eq : EqDecision Toleration.
Proof. solve_decision. Defined.

Record GCEDisk := { PDName : string; gce_ReadOnly : bool }.
#[export] Instance GCEDisk_eq : EqDecision GCEDisk.
Proof. solve_decision. Defined.

Record ISCSIDisk := { IQN : string; iscsi_ReadOnly : bool }.
#[export] Instance ISCSIDisk_eq : EqDecision ISCSIDisk.
Proof. solve_decision. Defined.

Record RBDDisk := { CephMonitors : list string; RBDPool : string; RBDImage : string; rbd_ReadOnly : bool }.
#[export] Instance RBDDisk_eq : EqDecision RBDDisk.
Proof. solve_decision. Defined.

(** A volume that uses a claim by name, an ephemeral claim of its own, or a disk. *)
Record Volume := {
  vol_Name : string;
  PersistentVolumeClaim : option string;
  Ephemeral : bool;
  GCEPersistentDisk : option GCEDisk;
  AWSElasticBlockStore : option string;  (* its volume id *)
  ISCSI : option ISCSIDisk;
  RBD : option RBDDisk
}.
#[export] Instance Volume_eq : EqDecision Volume.
Proof. solve_decision. Defined.

(** A constraint on the spread of pods over the values of a node label. *)
Record TopologySpreadConstraint := {
  tsc_MaxSkew : Z;
  tsc_TopologyKey : string;
  tsc_WhenUnsatisfiable : string;
  tsc_LabelSelector : option LabelSelector
}.
#[export] Instance TopologySpreadConstraint_eq : EqDecision TopologySpreadConstraint.
Proof. solve_decision. Defined.

Record PodSpec := {
  NodeName : string;
  SchedulerName : string;
  Containers : list Container;
  InitContainers : list Container;
  Overhead : option ResourceList;
  PodAffinitySpec : option Affinity;
  NodeSelector : LabelSet;
  Tolerations : list Toleration;
  Volumes : list Volume;
  TopologySpreadConstraints : list TopologySpreadConstraint;
  PreemptionPolicy : option string;
  pod_Rest : string
}.
#[export] Instance PodSpec_eq : EqDecision PodSpec.
Proof. solve_decision. Defined.

Record PodCondition := { pc_Type : string; pc_Status : string; pc_Reason : string; pc_Message : string }.
#[export] Instance PodCondition_eq : EqDecision PodCondition.
Proof. solve_decision. Defined.

(** Times are nanoseconds. *)
Record PodStatus := {
  NominatedNodeName_field : string;
  Conditions : list PodCondition;
  StartTime : option Z;
  status_Rest : string
}.
#[export] Instance PodStatus_eq : EqDecision PodStatus.
Proof. solve_decision. Defined.

Record Pod := {
  pod_Name : string;
  pod_Namespace : string;
  pod_UID : string;
  pod_Labels : LabelSet;
  pod_Annotations : LabelSet;
  ManagedFields : string;
  Finalizers : list string;
  DeletionTimestamp : option Z;
  pod_ResourceVersion : string;
  pod_Generation : Z;
  pod_Spec : PodSpec;
  pod_Status : PodStatus
}.
#[export] Instance Pod_eq : EqDecision Pod.
Proof. solve_decision. Defined.

(** ** Nodes *)
Record ContainerImage := { img_Names : list string; img_SizeBytes : Z }.
Record Taint := { taint_Key : string; taint_Value : string; taint_Effect : string }.
#[export] Instance Taint_eq : EqDecision Taint.
Proof. solve_decision. Defined.

Record Node := {
  node_Name : string;
  node_Labels : LabelSet;
  node_Unschedulable : bool;
  node_Taints : list Taint;
  node_Allocatable : ResourceList;
  node_Images : list ContainerImage;
  node_Conditions : list (string * string)
}.

(** ** Objects for examples *)
Definition noStatus : PodStatus :=
  {| NominatedNodeName_field := ""; Conditions := []; StartTime := None; status_Rest := "" |}.

Definition simplePod (name ns uid node : string) (cs : list Container) : Pod :=
  {| pod_Name := name; pod_Namespace := ns; pod_UID := uid; pod_Labels := ∅;
     pod_Annotations := ∅; ManagedFields := ""; Finalizers := []; DeletionTimestamp := None;
     pod_ResourceVersion := ""; pod_Generation := 0;
     pod_Spec := {| NodeName := node; SchedulerName := "default-scheduler"; Containers := cs;
       InitContainers := []; Overhead := None; PodAffinitySpec := None; NodeSelector := ∅;
       Tolerations := []; Volumes := []; TopologySpreadConstraints := [];
       PreemptionPolicy := None; pod_Rest := "" |};
     pod_Status := noStatus |}.

Definition simpleContainer (cpu mem : Z) : Container :=
  {| c_Image := "img"; c_Ports := []; c_Limits := ∅;
     c_Requests := {[ ResourceCPU := {| MilliValue := cpu; Value := (cpu + 999) / 1000 |};
                      ResourceMemory := {| MilliValue := mem * 1000; Value := mem |} ]} |}%Z.

Definition simpleNode (name : string) (cpu mem pods : Z) : Node :=
  {| node_Name := name; node_Labels := ∅; node_Unschedulable := false; node_Taints := [];
     node_Allocatable := {[ ResourceCPU := {| MilliValue := cpu; Value := (cpu + 999) / 1000 |};
       ResourceMemory := {| MilliValue := mem * 1000; Value := mem |};
       ResourcePods := {| MilliValue := pods * 1000; Value := pods |} ]};
     node_Images := []; node_Conditions := [] |}%Z.

(** A selector library for examples: match labels only; a nil selector selects
    nothing, as in k8s.io/apimachinery. *)
Definition exampleLabels : LabelsLib := fun s =>
  match s with
  | None => Some {| Matches := fun _ => false; SelectorEmpty := false |}
  | Some ls =>
      match MatchExpressions ls with
      | [] => Some {| Matches := fun l => bool_decide (map_Forall (fun k v => l !! k = Some v) (MatchLabels ls));
                      SelectorEmpty := bool_decide (MatchLabels ls = ∅) |}
      | _ => None
      end
  end.
