(* ===== verification/GoHeap.v ===== *)
(** * The heap algorithm of Go's standard library

    [container/heap] works on any type with [Len], [Less] and [Swap].  The
    class [Interface] holds the three operations (an operation that can panic
    returns [None]) and [InterfaceLaws] is what an implementation promises to
    the algorithm: a state satisfying [hInv] can be viewed as a list on which
    [Less] compares and [Swap] exchanges.  The scheduler's keyed heap
    ([Heap.v]) discharges the laws. *)
From S2P Require Import Prelude.

Class Interface (H : Type) : Type := {
  hLen : H -> nat;
  hLess : H -> nat -> nat -> option bool;
  hSwap : H -> nat -> nat -> option H
}.

(** ** The algorithm (standard library, executable) *)
Section Algorithm.
Context {H : Type} `{Interface H}.

Definition parent (j : nat) : nat := (j - 1) / 2.

(** [up]: [None] is a panic or missing fuel. *)
Fixpoint up_loop (fuel : nat) (h : H) (j : nat) : option H :=
  match fuel with
  | O => None
  | S fuel =>
      let i := parent j in
      if decide (i = j) then Some h
      else b ← hLess h j i;
           if (b : bool)
           then h' ← hSwap h i j; up_loop fuel h' i
           else Some h
  end.
Definition up (h : H) (j : nat) : option H := up_loop (S j) h j.

(** [down] returns the final position along with the state. *)
Fixpoint down_loop (fuel : nat) (h : H) (i n : nat) : option (H * nat) :=
  match fuel with
  | O => None
  | S fuel =>
      let j1 := 2 * i + 1 in
      if decide (n <= j1) then Some (h, i)
      else
        j ← (if decide (j1 + 1 < n)
             then b ← hLess h (j1 + 1) j1; Some (if (b : bool) then j1 + 1 else j1)
             else Some j1);
        b ← hLess h j i;
        if (b : bool)
        then h' ← hSwap h i j; down_loop fuel h' j n
        else Some (h, i)
  end.
Definition down (h : H) (i0 n : nat) : option (H * bool) :=
  '(h', i) ← down_loop (S n) h i0 n; Some (h', bool_decide (i0 < i)).

(** [Fix] re-establishes the order after the element at [i] changed. *)
Definition Fix (h : H) (i : nat) : option H :=
  '(h', moved) ← down h i (hLen h);
  if (moved : bool) then Some h' else up h' i.

(** The part of [Pop] and of [Remove] before the final [h.Pop()]. *)
Definition beforePop (h : H) : option H :=
  match hLen h with
  | O => None (* Swap(0, -1) is out of range *)
  | S n => h' ← hSwap h 0 n; '(h'', _) ← down h' 0 n; Some h''
  end.
Definition beforeRemove (h : H) (i : nat) : option H :=
  match hLen h with
  | O => None
  | S n =>
      if decide (n = i) then Some h
      else
        h' ← hSwap h i n;
        '(h'', moved) ← down h' i n;
        if (moved : bool) then Some h'' else up h'' i
  end.
End Algorithm.

(** ** Exchanging two elements of a list *)
Section ListSwap.
Context {X : Type}.
Implicit Types (l : list X) (i j k : nat).

Definition lswap l i j : list X :=
  match l !! i, l !! j with
  | Some a, Some b => <[j := a]> (<[i := b]> l)
  | _, _ => l
  end.

Lemma length_lswap l i j : length (lswap l i j) = length l.
Proof.
  unfold lswap. destruct (l !! i); [|done]. destruct (l !! j); [|done].
  by rewrite !length_insert.
Qed.

Lemma lookup_lswap l i j k :
  i < length l -> j < length l ->
  lswap l i j !! k =
    if decide (k = j) then l !! i else if decide (k = i) then l !! j else l !! k.
Proof.
  intros Hi Hj. unfold lswap.
  apply lookup_lt_is_Some in Hi as [a Ha], Hj as [b Hb]. rewrite Ha, Hb.
  pose proof (lookup_lt_Some _ _ _ Ha). pose proof (lookup_lt_Some _ _ _ Hb).
  repeat case_decide; subst; try congruence.
  - apply list_lookup_insert_eq. by rewrite length_insert.
  - rewrite list_lookup_insert_ne by done. by rewrite list_lookup_insert_eq.
  - by rewrite !list_lookup_insert_ne by done.
Qed.

Lemma lswap_Permutation l i j : lswap l i j ≡ₚ l.
Proof.
  unfold lswap. destruct (l !! i) eqn:Ha; [|done]. destruct (l !! j) eqn:Hb; [|done].
  by apply Permutation_insert_swap.
Qed.
End ListSwap.

(** ** What an implementation promises *)
Class InterfaceLaws (H X : Type) `{Interface H} (lt : X -> X -> bool) : Type := {
  hInv : H -> Prop;
  hView : H -> list X;
  hLen_view h : hInv h -> hLen h = length (hView h);
  hLess_view h i j a b :
    hInv h -> hView h !! i = Some a -> hView h !! j = Some b -> hLess h i j = Some (lt a b);
  hSwap_view h i j :
    hInv h -> i < length (hView h) -> j < length (hView h) ->
    exists h', hSwap h i j = Some h' /\ hInv h' /\ hView h' = lswap (hView h) i j
}.

(** ** Heap order on lists *)
Section HeapOrder.
Context {X : Type} (lt : X -> X -> bool).

(** [le a b]: [b] does not have to come before [a]. *)
Definition le (a b : X) : Prop := lt b a = false.

Implicit Types (l : list X) (i j k n : nat).

Definition leAt l i j : Prop :=
  forall a b, l !! i = Some a -> l !! j = Some b -> le a b.

(** No element of the first [n] precedes its parent. *)
Definition heapN l n : Prop := forall k, 0 < k < n -> leAt l (parent k) k.
Definition heap l : Prop := heapN l (length l).

(** Every pair is in order except possibly [j] and its parent; the children
    of [j] are in order with the parent of [j]. *)
Definition heapExceptUp l j n : Prop :=
  (forall k, 0 < k < n -> k <> j -> leAt l (parent k) k) /\
  (forall c, 0 < c < n -> parent c = j -> 0 < j -> leAt l (parent j) c).

(** Every pair is in order except possibly those that involve [i]. *)
Definition heapExceptDown l i n : Prop :=
  (forall k, 0 < k < n -> k <> i -> parent k <> i -> leAt l (parent k) k) /\
  (forall c, 0 < c < n -> parent c = i -> 0 < i -> leAt l (parent i) c).

Lemma parent_lt k : 0 < k -> parent k < k.
Proof. intros. unfold parent. apply Nat.Div0.div_lt_upper_bound; lia. Qed.

Lemma parent_spec k i : 0 < k -> parent k = i <-> k = 2 * i + 1 \/ k = 2 * i + 2.
Proof.
  intros Hk. unfold parent. pose proof (Nat.div_mod_eq (k - 1) 2).
  pose proof (Nat.mod_upper_bound (k - 1) 2). lia.
Qed.

Lemma heapN_le l n m : m <= n -> heapN l n -> heapN l m.
Proof. intros ? Hh k ?. apply Hh. lia. Qed.

Lemma heapN_except l i n : heapN l n -> (forall a b c, le a b -> le b c -> le a c) ->
  i < length l -> heapExceptUp l i n.
Proof.
  intros Hh Htr Hi. split; [intros; by apply Hh|].
  intros c Hc Hp Hi0 a b Ha Hb. apply lookup_lt_is_Some in Hi as [x Hx].
  apply (Htr _ x); [apply (Hh i); [split; [done|]|done..]|].
  - pose proof (parent_lt c). lia.
  - apply (Hh c); [lia|by rewrite Hp|done].
Qed.

Lemma heap_snoc l x : heap l -> heapExceptUp (l ++ [x]) (length l) (S (length l)).
Proof.
  intros Hh. split.
  - intros k Hk Hkl a b. pose proof (parent_lt k).
    rewrite !lookup_app_l by lia. apply Hh. lia.
  - intros c Hc Hp. pose proof (parent_lt c). lia.
Qed.

Lemma heap_insert l i x :
  (forall a b c, le a b -> le b c -> le a c) -> i < length l -> heap l ->
  heapExceptDown (<[i := x]> l) i (length l).
Proof.
  intros Htr Hi Hh. split.
  - intros k Hk Hki Hpk a b. rewrite !list_lookup_insert_ne by done. by apply Hh.
  - intros c Hc Hp Hpos a b. pose proof (parent_lt i). pose proof (parent_lt c).
    rewrite !list_lookup_insert_ne by lia.
    destruct (heapN_except l i (length l)) as [_ Hgr]; try done. by apply Hgr.
Qed.

Lemma heap_nil : heap [].
Proof. intros k. simpl. lia. Qed.

(** The root of a heap precedes every element. *)
Lemma heapN_root l n a k b :
  (forall x, le x x) -> (forall x y z, le x y -> le y z -> le x z) ->
  heapN l n -> l !! 0 = Some a -> k < n -> l !! k = Some b -> le a b.
Proof.
  intros Hrefl Htr Hh Ha. revert b.
  induction k as [k IH] using lt_wf_ind. intros b Hk Hb.
  destruct (decide (k = 0)) as [->|Hk0]; [simplify_eq; apply Hrefl|].
  pose proof (parent_lt k ltac:(lia)) as Hp.
  destruct (lookup_lt_is_Some_2 l (parent k)) as [c Hc].
  { apply lookup_lt_Some in Hb. lia. }
  apply (Htr _ c); [apply (IH (parent k)); [lia|lia|done]|].
  apply (Hh k); [lia|done..].
Qed.
End HeapOrder.

(** The comparison of a heap: a strict weak order. *)
Class StrictWeak {X : Type} (lt : X -> X -> bool) : Prop := {
  lt_asym a b : lt a b = true -> lt b a = false;
  le_trans a b c : le lt a b -> le lt b c -> le lt a c
}.

Lemma le_refl {X} (lt : X -> X -> bool) `{!StrictWeak lt} a : le lt a a.
Proof. unfold le. destruct (lt a a) eqn:E; [|done]. pose proof (lt_asym _ _ E). congruence. Qed.

Lemma lt_le {X} (lt : X -> X -> bool) `{!StrictWeak lt} a b : lt a b = true -> le lt a b.
Proof. unfold le. apply lt_asym. Qed.

(** Looks up a [lswap] in the goal and in the hypotheses. *)
Ltac lswap_lookup :=
  repeat match goal with
  | H : context [lswap _ _ _ !! _] |- _ => rewrite lookup_lswap in H by lia
  end;
  repeat case_decide; try (exfalso; first [lia | congruence]);
  repeat match goal with
  | H1 : ?l !! ?i = Some ?a, H2 : ?l !! ?i = Some ?b |- _ =>
      rewrite H2 in H1; injection H1 as H1; (subst a || subst b)
  end.

Section Steps.
Context {X : Type} (lt : X -> X -> bool) `{!StrictWeak lt}.
Implicit Types (l : list X) (i j k n : nat).

Lemma up_step l j n x y :
  0 < j -> j < n -> n <= length l -> heapExceptUp lt l j n ->
  l !! j = Some x -> l !! parent j = Some y -> lt x y = true ->
  heapExceptUp lt (lswap l (parent j) j) (parent j) n.
Proof.
  intros Hj Hjn Hn [Hok Hgr] Hx Hy Hlt. pose proof (parent_lt j Hj) as Hpj.
  assert (Hxy : le lt x y) by by apply lt_le.
  split.
  - intros k Hk Hki a b Ha Hb.
    pose proof (parent_lt k ltac:(lia)).
    lswap_lookup; try done.
    + by eapply (Hgr k).
    + eapply le_trans; [exact Hxy|]. eapply (Hok k); [lia|done| |done]. congruence.
    + by eapply (Hok k).
  - intros c Hc Hp Hi a b Ha Hb. pose proof (parent_lt (parent j) Hi).
    lswap_lookup; try congruence.
    + by eapply (Hok (parent j)); [lia|lia|done|].
    + eapply le_trans; [eapply (Hok (parent j)); [lia|lia|done|done]|].
      eapply (Hok c); [lia|done|by rewrite Hp|done].
Qed.

Lemma up_done l j n x y :
  heapExceptUp lt l j n -> l !! j = Some x -> l !! parent j = Some y -> lt x y = false ->
  heapN lt l n.
Proof.
  intros [Hok _] Hx Hy Hlt k Hk. destruct (decide (k = j)) as [->|]; [|by apply Hok].
  intros a b Ha Hb. by simplify_eq.
Qed.

Lemma down_step l i j n x y :
  0 < j -> j < n -> n <= length l -> parent j = i -> heapExceptDown lt l i n ->
  l !! j = Some x -> l !! i = Some y -> lt x y = true ->
  (forall k z, 0 < k < n -> parent k = i -> l !! k = Some z -> le lt x z) ->
  heapExceptDown lt (lswap l i j) j n /\ leAt lt (lswap l i j) (parent j) j.
Proof.
  intros Hj Hjn Hn Hp [Hok Hgr] Hx Hy Hlt Hmin. pose proof (parent_lt j Hj) as Hpj.
  assert (Hxy : le lt x y) by by apply lt_le.
  split; [split|].
  - intros k Hk Hkj Hpk a b Ha Hb. pose proof (parent_lt k ltac:(lia)).
    lswap_lookup; try done.
    + subst k. eapply (Hgr j); try done; lia.
    + by eapply (Hmin k).
    + by eapply (Hok k).
  - intros c Hc Hpc Hj0 a b Ha Hb. pose proof (parent_lt c ltac:(lia)).
    rewrite Hp in Ha. lswap_lookup.
    eapply (Hok c); [lia|lia|lia|by rewrite Hpc|done].
  - intros a b Ha Hb. lswap_lookup. done.
Qed.

Lemma down_done l i n y :
  heapExceptDown lt l i n -> l !! i = Some y ->
  (forall k z, 0 < k < n -> parent k = i -> l !! k = Some z -> le lt y z) ->
  forall k, 0 < k < n -> k <> i -> leAt lt l (parent k) k.
Proof.
  intros [Hok _] Hy Hmin k Hk Hki.
  destruct (decide (parent k = i)) as [Hp|]; [|by apply Hok].
  intros a b Ha Hb. rewrite Hp in Ha. simplify_eq. by eapply Hmin.
Qed.
End Steps.

(** ** Correctness of the algorithm against the interface *)
Section Correctness.
Context {H X : Type} `{Interface H} (lt : X -> X -> bool).
Context `{!InterfaceLaws H X lt, !StrictWeak lt}.
Implicit Types (h : H) (i j k n : nat).

(** [h'] is [h] with its elements before [n] rearranged. *)
Definition rearranged n h h' : Prop :=
  hInv h' /\ hView h' ≡ₚ hView h /\ (forall k, n <= k -> hView h' !! k = hView h !! k).

Lemma rearranged_refl n h : hInv h -> rearranged n h h.
Proof. by split. Qed.

Lemma rearranged_trans n h1 h2 h3 :
  rearranged n h1 h2 -> rearranged n h2 h3 -> rearranged n h1 h3.
Proof.
  intros (?&Hp&Hk) (?&Hp'&Hk'). split; [done|]. split; [by rewrite Hp', Hp|].
  intros k ?. by rewrite Hk', Hk.
Qed.

Lemma rearranged_le n m h h' : n <= m -> rearranged n h h' -> rearranged m h h'.
Proof. intros ? (?&?&Hk). repeat split; auto. intros k ?. apply Hk. lia. Qed.

Lemma rearranged_length n h h' :
  rearranged n h h' -> length (hView h') = length (hView h).
Proof. intros (_&Hp&_). by apply Permutation_length. Qed.

Lemma hSwap_rearranged h i j n :
  hInv h -> i < n -> j < n -> n <= length (hView h) ->
  exists h', hSwap h i j = Some h' /\ rearranged n h h' /\ hView h' = lswap (hView h) i j.
Proof.
  intros Hi ???. destruct (hSwap_view h i j Hi) as (h'&Hs&Hi'&Hv); [lia..|].
  exists h'. repeat split; auto; rewrite Hv.
  - apply lswap_Permutation.
  - intros k ?. rewrite lookup_lswap by lia. repeat case_decide; try lia. done.
Qed.

Lemma up_loop_spec fuel : forall h j n,
  j < fuel -> hInv h -> j < n -> n <= length (hView h) ->
  heapExceptUp lt (hView h) j n ->
  exists h', up_loop fuel h j = Some h' /\ rearranged n h h' /\ heapN lt (hView h') n.
Proof.
  induction fuel as [|fuel IH]; intros h j n Hf Hi Hj Hn Hex; [lia|]. cbn [up_loop].
  destruct (lookup_lt_is_Some_2 (hView h) j) as [x Hx]; [lia|].
  destruct (decide (parent j = j)) as [Hp|Hp].
  - assert (j = 0) as -> by (pose proof (parent_lt j); lia).
    exists h. split; [done|]. split; [by apply rearranged_refl|].
    intros k Hk. apply Hex; lia.
  - assert (Hj0 : 0 < j) by (destruct j; [done|lia]). pose proof (parent_lt j Hj0).
    destruct (lookup_lt_is_Some_2 (hView h) (parent j)) as [y Hy]; [lia|].
    rewrite (hLess_view _ _ _ _ _ Hi Hx Hy). bind_simpl. destruct (lt x y) eqn:Hlt.
    + destruct (hSwap_rearranged h (parent j) j n) as (h'&->&Hr&Hv); [done|lia..|]. bind_simpl.
      destruct (IH h' (parent j) n) as (h''&Hu&Hr'&Hh); try lia.
      * apply Hr.
      * by rewrite (rearranged_length _ _ _ Hr).
      * rewrite Hv. by eapply up_step.
      * exists h''. eauto using rearranged_trans.
    + exists h. split; [done|]. split; [by apply rearranged_refl|]. by eapply up_done.
Qed.

Lemma up_spec h j n :
  hInv h -> j < n -> n <= length (hView h) -> heapExceptUp lt (hView h) j n ->
  exists h', up h j = Some h' /\ rearranged n h h' /\ heapN lt (hView h') n.
Proof. apply up_loop_spec. lia. Qed.

(** The child that [down] compares with its parent is the smaller one. *)
Lemma smaller_child h i n :
  hInv h -> n <= length (hView h) -> 2 * i + 1 < n ->
  exists j x,
    (if decide (2 * i + 1 + 1 < n)
     then b ← hLess h (2 * i + 1 + 1) (2 * i + 1);
          Some (if (b : bool) then 2 * i + 1 + 1 else 2 * i + 1)
     else Some (2 * i + 1)) = Some j /\
    0 < j < n /\ parent j = i /\ hView h !! j = Some x /\
    (forall k z, 0 < k < n -> parent k = i -> hView h !! k = Some z -> le lt x z).
Proof.
  intros Hi Hn H1.
  assert (Hpar : forall k, 0 < k -> parent k = i -> k = 2 * i + 1 \/ k = 2 * i + 2).
  { intros k Hk. by apply parent_spec. }
  destruct (lookup_lt_is_Some_2 (hView h) (2 * i + 1)) as [x1 Hx1]; [lia|].
  case_decide as H2; cycle 1.
  - exists (2 * i + 1), x1. repeat split; try done; try lia.
    + by apply parent_spec; [lia|left].
    + intros k z Hk Hp Hz. destruct (Hpar k) as [->| ->]; try lia.
      simplify_eq. by apply le_refl.
  - destruct (lookup_lt_is_Some_2 (hView h) (2 * i + 1 + 1)) as [x2 Hx2]; [lia|].
    rewrite (hLess_view _ _ _ _ _ Hi Hx2 Hx1). bind_simpl. destruct (lt x2 x1) eqn:Hlt.
    + exists (2 * i + 1 + 1), x2. repeat split; try done; try lia.
      * apply parent_spec; lia.
      * intros k z Hk Hp Hz. destruct (Hpar k) as [->| ->]; try lia.
        -- simplify_eq. by apply lt_le.
        -- replace (2 * i + 2) with (2 * i + 1 + 1) in Hz by lia. simplify_eq. by apply le_refl.
    + exists (2 * i + 1), x1. repeat split; try done; try lia.
      * by apply parent_spec; [lia|left].
      * intros k z Hk Hp Hz. destruct (Hpar k) as [->| ->]; try lia.
        -- simplify_eq. by apply le_refl.
        -- replace (2 * i + 2) with (2 * i + 1 + 1) in Hz by lia. by simplify_eq.
Qed.

(** [down_loop] leaves at most the pair of its final position and the parent
    of that position out of order, and only if it did not move. *)
Lemma down_loop_spec fuel : forall h i n,
  n < fuel + i -> hInv h -> i < n -> n <= length (hView h) ->
  heapExceptDown lt (hView h) i n ->
  exists h' i',
    down_loop fuel h i n = Some (h', i') /\ rearranged n h h' /\ i <= i' < n /\
    (forall k, 0 < k < n -> k <> i' -> leAt lt (hView h') (parent k) k) /\
    (if decide (i < i') then leAt lt (hView h') (parent i') i' else h' = h).
Proof.
  induction fuel as [|fuel IH]; intros h i n Hf Hi Hin Hn Hex; [lia|]. cbn [down_loop].
  destruct (lookup_lt_is_Some_2 (hView h) i) as [y Hy]; [lia|].
  case_decide as Hleaf.
  - exists h, i. rewrite decide_False by lia.
    repeat split; try done; try lia. eapply down_done; [done..|].
    intros k z Hk Hp. apply parent_spec in Hp; lia.
  - destruct (smaller_child h i n Hi Hn) as (j&x&->&Hj&Hp&Hx&Hmin); [lia|]. bind_simpl.
    pose proof (parent_lt j). rewrite (hLess_view _ _ _ _ _ Hi Hx Hy). bind_simpl.
    destruct (lt x y) eqn:Hlt.
    + destruct (hSwap_rearranged h i j n) as (h'&->&Hr&Hv); [done|lia..|]. bind_simpl.
      destruct (down_step lt (hView h) i j n x y) as [Hex' Hat]; try done; try lia.
      rewrite <- Hv in Hex', Hat.
      destruct (IH h' j n) as (h''&i'&Hd&Hr'&Hb&Hok&Hend); try done; try lia.
      * apply Hr.
      * by rewrite (rearranged_length _ _ _ Hr).
      * exists h'', i'. rewrite Hd. rewrite (decide_True (P := i < i')) by lia.
        split; [done|]. split; [by eapply rearranged_trans|]. split; [lia|].
        split; [done|]. case_decide; [done|]. subst h''. by replace i' with j by lia.
    + exists h, i. rewrite decide_False by lia.
      repeat split; try done; try lia. eapply down_done; [done..|].
      intros k z Hk Hpk Hz. eapply le_trans; [exact Hlt|by eapply Hmin].
Qed.

(** [down] followed, when it did not move, by [up]. *)
Lemma down_up_spec h i n :
  hInv h -> i < n -> n <= length (hView h) -> heapExceptDown lt (hView h) i n ->
  exists h' h'' moved,
    down h i n = Some (h', moved) /\
    (if (moved : bool) then Some h' else up h' i) = Some h'' /\
    rearranged n h h'' /\ heapN lt (hView h'') n.
Proof.
  intros Hi Hin Hn Hex. unfold down.
  destruct (down_loop_spec (S n) h i n) as (h'&i'&->&Hr&Hb&Hok&Hend); try done; [lia|].
  bind_simpl. destruct (decide (i < i')) as [Hlt|Hge].
  - rewrite bool_decide_true by done. exists h', h', true. repeat split; try apply Hr.
    intros k Hk. destruct (decide (k = i')) as [->|]; auto.
  - rewrite bool_decide_false by done. subst h'. assert (i' = i) as -> by lia.
    destruct (up_spec h i n) as (h''&?&?&?); try done; [|by exists h, h'', false].
    split; [done|]. apply Hex.
Qed.

Theorem Fix_spec h i :
  hInv h -> i < length (hView h) -> heapExceptDown lt (hView h) i (length (hView h)) ->
  exists h', Fix h i = Some h' /\ hInv h' /\ hView h' ≡ₚ hView h /\ heap lt (hView h').
Proof.
  intros Hi Hlen Hex. unfold Fix. rewrite hLen_view by done.
  destruct (down_up_spec h i _ Hi Hlen (le_n _) Hex) as (h1&h2&m&->&Hu&Hr&Hh). bind_simpl.
  exists h2. split; [done|]. unfold heap. rewrite (rearranged_length _ _ _ Hr).
  repeat split; [apply Hr..|done].
Qed.

(** After [beforeRemove h i] the element that was at [i] is last and the
    others form a heap. *)
Theorem beforeRemove_spec h i a :
  hInv h -> heap lt (hView h) -> hView h !! i = Some a ->
  exists h' l, beforeRemove h i = Some h' /\ hInv h' /\ hView h' = l ++ [a] /\
    l ++ [a] ≡ₚ hView h /\ heap lt l.
Proof.
  intros Hi Hh Ha. unfold beforeRemove. rewrite hLen_view by done.
  pose proof (lookup_lt_Some _ _ _ Ha) as Hlt.
  destruct (length (hView h)) as [|n] eqn:Hlen; [lia|].
  assert (Hsplit : forall h', rearranged (S n) h h' -> hView h' !! n = Some a ->
    heapN lt (hView h') n -> exists l, hView h' = l ++ [a] /\ l ++ [a] ≡ₚ hView h /\ heap lt l).
  { intros h' Hr Hn Hhn. exists (take n (hView h')).
    assert (hView h' = take n (hView h') ++ [a]) as Heq.
    { rewrite <- (take_S_r _ _ _ Hn), take_ge; [done|].
      rewrite (rearranged_length _ _ _ Hr). lia. }
    split; [done|]. split; [rewrite <- Heq; apply Hr|].
    intros k. rewrite length_take, (rearranged_length _ _ _ Hr), Hlen, Nat.min_l by lia.
    intros Hk x y. pose proof (parent_lt k). rewrite !lookup_take_lt by lia. by apply Hhn. }
  case_decide as Hni.
  - subst i. exists h. destruct (Hsplit h) as (l&?&?&?); [by apply rearranged_refl|done| |by eauto 10].
    apply (heapN_le _ _ (S n)); [lia|]. by rewrite <- Hlen.
  - destruct (hSwap_rearranged h i n (S n)) as (h1&->&Hr1&Hv1); [done|lia..|]. bind_simpl.
    assert (Hpre : heapExceptDown lt (hView h1) i n).
    { rewrite Hv1. assert (HhN : heapN lt (hView h) (S n)) by by rewrite <- Hlen.
      split.
      - intros k Hk Hki Hpk x y. pose proof (parent_lt k).
        rewrite !lookup_lswap by lia. repeat case_decide; try lia. apply HhN. lia.
      - intros c Hc Hp Hpos x y. pose proof (parent_lt i). pose proof (parent_lt c).
        rewrite !lookup_lswap by lia. repeat case_decide; try lia.
        destruct (heapN_except lt (hView h) i (S n)) as [_ Hgr]; try done; [|lia|].
        + intros ???. apply le_trans.
        + apply Hgr; lia. }
    destruct (down_up_spec h1 i n) as (h2&h3&m&->&Hu&Hr&Hh3); try done; [apply Hr1|lia| |].
    { rewrite (rearranged_length _ _ _ Hr1). lia. }
    bind_simpl. exists h3. destruct (Hsplit h3) as (l&?&?&?).
    + eapply rearranged_trans; [done|]. by apply (rearranged_le n); [lia|].
    + rewrite (proj2 (proj2 Hr)) by lia. rewrite Hv1, lookup_lswap by lia.
      by rewrite decide_True.
    + done.
    + exists l. repeat split; try done. apply Hr.
Qed.

(** [beforePop] is [beforeRemove] at the root. *)
Theorem beforePop_spec h a :
  hInv h -> heap lt (hView h) -> hView h !! 0 = Some a ->
  exists h' l, beforePop h = Some h' /\ hInv h' /\ hView h' = l ++ [a] /\
    l ++ [a] ≡ₚ hView h /\ heap lt l.
Proof.
  intros Hi Hh Ha. unfold beforePop. rewrite hLen_view by done.
  pose proof (lookup_lt_Some _ _ _ Ha) as Hlt.
  destruct (length (hView h)) as [|[|n]] eqn:Hlen; [lia| |].
  - destruct (hView h) as [|? [|]] eqn:Hv; simplify_eq/=.
    destruct (hSwap_view h 0 0 Hi) as (h'&->&Hi'&Hv'); [rewrite Hv; simpl; lia..|].
    rewrite Hv in Hv'. bind_simpl. exists h', []. repeat split; done.
  - destruct (beforeRemove_spec h 0 a Hi Hh Ha) as (h'&l&Hr&Hrest).
    exists h', l. split; [|done]. revert Hr. unfold beforeRemove.
    rewrite hLen_view, Hlen by done. rewrite decide_False by lia.
    destruct (hSwap h 0 (S n)) as [h1|]; [|done]. bind_simpl. unfold down.
    destruct (down_loop _ h1 0 (S n)) as [[h2 i]|]; [|done]. bind_simpl.
    case_bool_decide; [done|]. unfold up. cbn [up_loop].
    by rewrite decide_True.
Qed.
End Correctness.
