(* ===== verification/Heap.v ===== *)
(** * The keyed heap of the scheduling queue (scheduler/internal/heap/heap.go)

    A heap whose elements are addressed by a key.  [data] implements Go's
    [heap.Interface]; the promise of [GoHeap.InterfaceLaws] is discharged for
    it here, and [Heap] is shown to refine a finite map from keys to objects
    whose [Pop] returns an object that no other one precedes. *)
From S2P Require Import Prelude GoHeap.

(** The calls a heap makes to its [metrics.MetricRecorder]. *)
Inductive recorderCall := Inc | Dec | Clear.

(** The effect of a call on the gauge behind a recorder. *)
Definition recorderEffect (n : Z) (c : recorderCall) : Z :=
  match c with Inc => n + 1 | Dec => n - 1 | Clear => 0 end%Z.

Definition gauge (calls : list recorderCall) : Z := foldl recorderEffect 0%Z calls.

(** Errors of the heap: [cache.KeyError] (the key function failed) and the two
    [fmt.Errorf] of the file. *)
Inductive heapError := KeyError | ObjectNotFound | ObjectRemoved.

Section Data.
Context {Obj : Type}.

Record heapItem := { obj : Obj; index : nat }.

Record data := { items : gmap string heapItem; queue : list string }.

(** [keyFunc] returns [None] when the Go function returns an error. *)
Context (keyFunc : Obj -> option string) (lessFunc : Obj -> Obj -> bool).

Definition Less (h : data) (i j : nat) : option bool :=
  if decide (length (queue h) < i \/ length (queue h) < j) then Some false
  else
    ki ← queue h !! i;
    match items h !! ki with
    | None => Some false
    | Some itemi =>
        kj ← queue h !! j;
        match items h !! kj with
        | None => Some false
        | Some itemj => Some (lessFunc (obj itemi) (obj itemj))
        end
    end.

Definition Len (h : data) : nat := length (queue h).

Definition setIndex (its : gmap string heapItem) (key : string) (i : nat)
    : option (gmap string heapItem) :=
  item ← its !! key; Some (<[key := {| obj := obj item; index := i |}]> its).

Definition Swap (h : data) (i j : nat) : option data :=
  ki ← queue h !! i;
  kj ← queue h !! j;
  its ← setIndex (items h) kj i;
  its' ← setIndex its ki j;
  Some {| items := its'; queue := <[j := ki]> (<[i := kj]> (queue h)) |}.

Definition Push (h : data) (key : string) (o : Obj) : data :=
  {| items := <[key := {| obj := o; index := length (queue h) |}]> (items h);
     queue := queue h ++ [key] |}.

(** [Pop] of [data]: removes the last element; the inner option is the [nil]
    that the Go code returns for a key that is not in [items]. *)
Definition PopLast (h : data) : option (option Obj * data) :=
  match list.last (queue h) with
  | None => None
  | Some key =>
      let q := take (length (queue h) - 1) (queue h) in
      match items h !! key with
      | None => Some (None, {| items := items h; queue := q |})
      | Some item => Some (Some (obj item), {| items := delete key (items h); queue := q |})
      end
  end.

Definition PeekData (h : data) : option (option Obj) :=
  match queue h with
  | [] => Some None
  | key :: _ => item ← items h !! key; Some (Some (obj item))
  end.

#[export] Instance data_Interface : Interface data :=
  {| hLen := Len; hLess := Less; hSwap := Swap |}.

(** ** The heap *)
Record Heap := { hdata : data; metricRecorder : option (list recorderCall) }.

Definition record (c : recorderCall) (h : Heap) : option (list recorderCall) :=
  match metricRecorder h with None => None | Some calls => Some (calls ++ [c]) end.

Definition NewWithRecorder (rec : option (list recorderCall)) : Heap :=
  {| hdata := {| items := ∅; queue := [] |}; metricRecorder := rec |}.
Definition New : Heap := NewWithRecorder None.

Definition HeapLen (h : Heap) : nat := length (queue (hdata h)).

(** [heap.Push] of the standard library: [h.Push(x)] and then [up]. *)
Definition heapPush (h : data) (key : string) (o : Obj) : option data :=
  let h' := Push h key o in up h' (Len h' - 1).

(** [heap.Remove] and [heap.Pop] of the standard library. *)
Definition heapRemove (h : data) (i : nat) : option (option Obj * data) :=
  h' ← beforeRemove h i; PopLast h'.
Definition heapPop (h : data) : option (option Obj * data) :=
  h' ← beforePop h; PopLast h'.

(** [obj] of an item is assigned in place before [heap.Fix]. *)
Definition setObj (h : data) (key : string) (item : heapItem) (o : Obj) : data :=
  {| items := <[key := {| obj := o; index := index item |}]> (items h); queue := queue h |}.

Definition heapFix (h : data) (key : string) (item : heapItem) (o : Obj) : option data :=
  Fix (setObj h key item o) (index item).

Definition Add (h : Heap) (o : Obj) : result heapError Heap :=
  match keyFunc o with
  | None => Err KeyError
  | Some key =>
      match items (hdata h) !! key with
      | Some item =>
          match heapFix (hdata h) key item o with
          | None => Panic
          | Some d => Ok {| hdata := d; metricRecorder := metricRecorder h |}
          end
      | None =>
          match heapPush (hdata h) key o with
          | None => Panic
          | Some d => Ok {| hdata := d; metricRecorder := record Inc h |}
          end
      end
  end.

Definition AddIfNotPresent (h : Heap) (o : Obj) : result heapError Heap :=
  match keyFunc o with
  | None => Err KeyError
  | Some key =>
      match items (hdata h) !! key with
      | Some _ => Ok h
      | None =>
          match heapPush (hdata h) key o with
          | None => Panic
          | Some d => Ok {| hdata := d; metricRecorder := record Inc h |}
          end
      end
  end.

Definition Update (h : Heap) (o : Obj) : result heapError Heap := Add h o.

Definition Delete (h : Heap) (o : Obj) : result heapError Heap :=
  match keyFunc o with
  | None => Err KeyError
  | Some key =>
      match items (hdata h) !! key with
      | Some item =>
          match heapRemove (hdata h) (index item) with
          | None => Panic
          | Some (_, d) => Ok {| hdata := d; metricRecorder := record Dec h |}
          end
      | None => Err ObjectNotFound
      end
  end.

Definition Peek (h : Heap) : option (option Obj) := PeekData (hdata h).

(** [Pop] also returns the state it leaves when it fails. *)
Definition Pop (h : Heap) : result heapError Obj * Heap :=
  match heapPop (hdata h) with
  | None => (Panic, h)
  | Some (Some o, d) => (Ok o, {| hdata := d; metricRecorder := record Dec h |})
  | Some (None, d) => (Err ObjectRemoved, {| hdata := d; metricRecorder := metricRecorder h |})
  end.

Definition GetByKey (h : Heap) (key : string) : option Obj :=
  match items (hdata h) !! key with None => None | Some item => Some (obj item) end.

Definition Get (h : Heap) (o : Obj) : result heapError (option Obj) :=
  match keyFunc o with None => Err KeyError | Some key => Ok (GetByKey h key) end.

(** [List]: the objects in the iteration order of the Go map, some
    permutation of this list. *)
Definition List (h : Heap) : list Obj := obj <$> (map_to_list (items (hdata h))).*2.
End Data.
Arguments heapItem : clear implicits.
Arguments data : clear implicits.
Arguments Heap : clear implicits.

(** ** Well-formed data: the map and the queue index each other *)
Section WellFormed.
Context {Obj : Type} (keyFunc : Obj -> option string) (lessFunc : Obj -> Obj -> bool).
Implicit Types (h : data Obj) (o : Obj).
#[local] Existing Instance data_Interface.

Definition objs h : gmap string Obj := obj <$> items h.

Definition view h : list Obj := omap (fun k => objs h !! k) (queue h).

Record wf h : Prop := {
  wf_index k it : items h !! k = Some it -> queue h !! index it = Some k;
  wf_queue i k : queue h !! i = Some k -> exists it, items h !! k = Some it /\ index it = i;
  wf_key k it : items h !! k = Some it -> keyFunc (obj it) = Some k
}.

Lemma wf_present h k : wf h -> k ∈ queue h -> is_Some (objs h !! k).
Proof.
  intros Hwf [i Hi]%list_elem_of_lookup. destruct (wf_queue _ Hwf _ _ Hi) as (it&Hit&_).
  unfold objs. rewrite lookup_fmap, Hit. by eexists.
Qed.

Lemma lookup_view h i : wf h -> view h !! i = queue h !! i ≫= fun k => objs h !! k.
Proof. intros Hwf. apply lookup_omap_total. intros. by apply wf_present. Qed.

Lemma length_view h : wf h -> length (view h) = length (queue h).
Proof. intros Hwf. apply length_omap_total. intros. by apply wf_present. Qed.

Lemma lookup_view_Some h i o :
  wf h -> view h !! i = Some o <->
  exists k it, queue h !! i = Some k /\ items h !! k = Some it /\ obj it = o /\ index it = i.
Proof.
  intros Hwf. rewrite lookup_view by done. unfold objs. split.
  - intros (k&Hk&Ho)%bind_Some. rewrite lookup_fmap in Ho.
    destruct (wf_queue _ Hwf _ _ Hk) as (it&Hit&Hix). rewrite Hit in Ho. simplify_eq/=.
    by exists k, it.
  - intros (k&it&->&Hit&<-&_). simpl. by rewrite lookup_fmap, Hit.
Qed.

(** The map is determined by the view: an object is stored under its key. *)
Lemma objs_view h k o :
  wf h -> objs h !! k = Some o <-> o ∈ view h /\ keyFunc o = Some k.
Proof.
  intros Hwf. unfold objs. rewrite lookup_fmap, fmap_Some. split.
  - intros (it&Hit&->). split; [|by eapply wf_key].
    apply list_elem_of_lookup. exists (index it). apply lookup_view_Some; [done|].
    exists k, it. split; [by eapply wf_index|done].
  - intros ([i Hi]%list_elem_of_lookup & Hk).
    apply lookup_view_Some in Hi as (k'&it&Hq&Hit&<-&_); [|done].
    pose proof (wf_key _ Hwf _ _ Hit). exists it. by simplify_eq.
Qed.

Lemma objs_Permutation h h' : wf h -> wf h' -> view h' ≡ₚ view h -> objs h' = objs h.
Proof.
  intros Hwf Hwf' Hp. apply map_eq. intros k. apply option_eq. intros o.
  by rewrite !objs_view, Hp.
Qed.

Lemma view_swap h h' i j :
  wf h -> wf h' -> i < length (queue h) -> j < length (queue h) ->
  objs h' = objs h -> queue h' = lswap (queue h) i j -> view h' = lswap (view h) i j.
Proof.
  intros Hwf Hwf' Hi Hj Ho Hq. apply list_eq. intros k.
  rewrite lookup_view, Ho, Hq by done.
  rewrite !lookup_lswap by (rewrite ?length_view; done).
  rewrite !lookup_view by done. by repeat case_decide.
Qed.

Lemma setIndex_objs its k i its' :
  setIndex its k i = Some its' -> obj <$> its' = (obj <$> its : gmap string Obj).
Proof.
  unfold setIndex. intros (it&Hit&?)%bind_Some. simplify_eq.
  rewrite fmap_insert. simpl. apply insert_id. by rewrite lookup_fmap, Hit.
Qed.

Lemma Swap_wf h i j :
  wf h -> i < length (queue h) -> j < length (queue h) ->
  exists h', Swap h i j = Some h' /\ wf h' /\ view h' = lswap (view h) i j.
Proof.
  intros Hwf Hi Hj.
  apply lookup_lt_is_Some in Hi as Hi', Hj as Hj'. destruct Hi' as [ki Hki], Hj' as [kj Hkj].
  destruct (wf_queue _ Hwf _ _ Hki) as (iti&Hiti&Hixi).
  destruct (wf_queue _ Hwf _ _ Hkj) as (itj&Hitj&Hixj).
  assert (exists its its', setIndex (items h) kj i = Some its /\ setIndex its ki j = Some its' /\
    forall k it, its' !! k = Some it -> exists it0, items h !! k = Some it0 /\ obj it = obj it0 /\
      index it = if decide (k = ki) then j else if decide (k = kj) then i else index it0)
    as (its&its'&Hs&Hs'&Hix).
  { unfold setIndex. rewrite Hitj. bind_simpl.
    destruct (decide (ki = kj)) as [->|Hne].
    - do 2 eexists. split; [done|].
      split; [rewrite lookup_insert_eq; bind_simpl; done|]. intros k it. rewrite insert_insert_eq.
      repeat case_decide; subst; intros; simplify_map_eq; eauto.
    - do 2 eexists. split; [done|].
      split; [rewrite lookup_insert_ne, Hiti by done; bind_simpl; done|]. intros k it.
      repeat case_decide; subst; intros; simplify_map_eq; eauto. }
  assert (Hdom : forall k, is_Some (its' !! k) <-> is_Some (items h !! k)).
  { intros k. pose proof (setIndex_objs _ _ _ _ Hs) as E1.
    pose proof (setIndex_objs _ _ _ _ Hs') as E2.
    assert (E : obj <$> its' !! k = obj <$> items h !! k)
      by by rewrite <- !lookup_fmap, E2, E1.
    destruct (its' !! k), (items h !! k); simplify_eq/=; split; intros [? ?]; done. }
  unfold Swap. rewrite Hki, Hkj. bind_simpl. rewrite Hs. bind_simpl. rewrite Hs'. bind_simpl.
  set (h' := {| items := its'; queue := _ |}).
  assert (Hq : queue h' = lswap (queue h) i j) by (unfold lswap; by rewrite Hki, Hkj).
  assert (Hlk : forall k, queue h' !! k =
    if decide (k = j) then Some ki else if decide (k = i) then Some kj else queue h !! k).
  { intros k. rewrite Hq, lookup_lswap, Hki, Hkj by done. done. }
  assert (Hwf' : wf h').
  { split.
    - intros k it Hit. destruct (Hix _ _ Hit) as (it0&Hit0&_&->).
      pose proof (wf_index _ Hwf _ _ Hit0). rewrite Hlk.
      repeat case_decide; simplify_eq; try done; congruence.
    - intros p k Hp. rewrite Hlk in Hp.
      assert (is_Some (its' !! k)) as [it Hit].
      { apply Hdom. repeat case_decide; simplify_eq; try by eexists.
        destruct (wf_queue _ Hwf _ _ Hp) as (?&?&_). by eexists. }
      exists it. split; [done|]. destruct (Hix _ _ Hit) as (it0&Hit0&_&->).
      pose proof (wf_index _ Hwf _ _ Hit0).
      repeat case_decide; simplify_eq; try done; try congruence.
      all: by destruct (wf_queue _ Hwf _ _ Hp) as (?&?&?); simplify_eq.
    - intros k it Hit. destruct (Hix _ _ Hit) as (it0&Hit0&->&_). by eapply wf_key. }
  exists h'. split; [done|]. split; [done|]. apply view_swap; try done.
  unfold objs. simpl. by rewrite (setIndex_objs _ _ _ _ Hs'), (setIndex_objs _ _ _ _ Hs).
Qed.

Lemma Less_view h i j a b :
  wf h -> view h !! i = Some a -> view h !! j = Some b ->
  Less lessFunc h i j = Some (lessFunc a b).
Proof.
  intros Hwf (ki&iti&Hki&Hiti&<-&_)%lookup_view_Some (kj&itj&Hkj&Hitj&<-&_)%lookup_view_Some;
    [|done..].
  pose proof (lookup_lt_Some _ _ _ Hki). pose proof (lookup_lt_Some _ _ _ Hkj).
  unfold Less. rewrite decide_False by lia. rewrite Hki. bind_simpl.
  rewrite Hiti, Hkj. bind_simpl. by rewrite Hitj.
Qed.

(** [data] keeps the promise that the standard library's algorithm needs. *)
#[export, program] Instance data_Laws :
    @InterfaceLaws (data Obj) Obj (data_Interface lessFunc) lessFunc :=
  {| hInv := wf; hView := view |}.
Next Obligation. intros h Hwf. symmetry. by apply length_view. Qed.
Next Obligation. intros. by apply Less_view. Qed.
Next Obligation.
  intros h i j Hwf. rewrite length_view by done. by apply Swap_wf.
Qed.

Lemma Push_wf h k o :
  wf h -> keyFunc o = Some k -> items h !! k = None ->
  wf (Push h k o) /\ view (Push h k o) = view h ++ [o] /\ objs (Push h k o) = <[k := o]> (objs h).
Proof.
  intros Hwf Hk Hnone.
  assert (Hobjs : objs (Push h k o) = <[k := o]> (objs h)) by (unfold objs; simpl; by rewrite fmap_insert).
  assert (Hnot : k ∉ queue h).
  { intros Hin. destruct (wf_present _ _ Hwf Hin) as [? Ho].
    unfold objs in Ho. by rewrite lookup_fmap, Hnone in Ho. }
  split; [|split; [|done]].
  - split; simpl.
    + intros k' it Hit. destruct (decide (k' = k)) as [->|]; simplify_map_eq.
      * apply list_lookup_middle. done.
      * apply lookup_app_l_Some. by eapply wf_index.
    + intros i k' Hq. apply lookup_snoc_Some in Hq as [[Hi Hq]|[-> <-]]; simplify_map_eq; [|by eexists].
      rewrite lookup_insert_ne; [by apply (wf_queue _ Hwf)|].
      intros ->. apply Hnot. by eapply list_elem_of_lookup_2.
    + intros k' it Hit. destruct (decide (k' = k)) as [->|]; simplify_map_eq; [done|by eapply wf_key].
  - unfold view. rewrite Hobjs. simpl. rewrite omap_app. simpl.
    rewrite lookup_insert_eq. f_equal. apply list_omap_ext.
    apply Forall_Forall2_diag, list.Forall_forall. intros k' Hin.
    by rewrite lookup_insert_ne by (intros ->; done).
Qed.

Lemma setObj_wf h k it o :
  wf h -> keyFunc o = Some k -> items h !! k = Some it ->
  wf (setObj h k it o) /\ view (setObj h k it o) = <[index it := o]> (view h) /\
  objs (setObj h k it o) = <[k := o]> (objs h).
Proof.
  intros Hwf Hk Hit.
  assert (Hobjs : objs (setObj h k it o) = <[k := o]> (objs h)) by (unfold objs; simpl; by rewrite fmap_insert).
  assert (Hwf' : wf (setObj h k it o)).
  { split; simpl.
    - intros k' it' Hit'. destruct (decide (k' = k)) as [->|]; simplify_map_eq; by eapply wf_index.
    - intros i k' Hq. destruct (wf_queue _ Hwf _ _ Hq) as (it'&Hit'&<-).
      destruct (decide (k' = k)) as [->|]; simplify_map_eq; eauto.
    - intros k' it' Hit'. destruct (decide (k' = k)) as [->|]; simplify_map_eq; [done|by eapply wf_key]. }
  split; [done|]. split; [|done]. pose proof (wf_index _ Hwf _ _ Hit) as Hq.
  apply list_eq. intros i. rewrite lookup_view by done. simpl. rewrite Hobjs.
  destruct (decide (i = index it)) as [->|Hne].
  - rewrite Hq. simpl. rewrite lookup_insert_eq, list_lookup_insert_eq; [done|].
    rewrite length_view by done. by eapply lookup_lt_Some.
  - rewrite list_lookup_insert_ne, lookup_view by done.
    destruct (queue h !! i) as [k'|] eqn:Hi; [|done]. simpl.
    rewrite lookup_insert_ne; [done|]. intros <-.
    destruct (wf_queue _ Hwf _ _ Hi) as (?&?&?). by simplify_eq.
Qed.

Lemma PopLast_wf h l a :
  wf h -> view h = l ++ [a] ->
  exists h' k, PopLast h = Some (Some a, h') /\ wf h' /\ view h' = l /\
    keyFunc a = Some k /\ objs h !! k = Some a /\ objs h' = delete k (objs h).
Proof.
  intros Hwf Hv.
  assert (Hlen : length (queue h) = S (length l)).
  { rewrite <- length_view, Hv, length_app by done. simpl. lia. }
  assert (Ha : view h !! length l = Some a) by (rewrite Hv; by apply list_lookup_middle).
  apply lookup_view_Some in Ha as (k&it&Hq&Hit&<-&Hix); [|done].
  assert (Hlast : list.last (queue h) = Some k) by (rewrite last_lookup, Hlen; done).
  unfold PopLast. rewrite Hlast, Hit, Hlen. replace (S (length l) - 1) with (length l) by lia.
  set (h' := {| items := _; queue := _ |}). exists h', k.
  assert (Hobjs : objs h' = delete k (objs h)) by (unfold objs; simpl; by rewrite fmap_delete).
  assert (Hwf' : wf h').
  { split; simpl.
    - intros k' it' [Hne Hit']%lookup_delete_Some. pose proof (wf_index _ Hwf _ _ Hit') as Hq'.
      rewrite lookup_take_lt; [done|]. apply lookup_lt_Some in Hq' as Hlt.
      assert (index it' <> length l) by congruence. lia.
    - intros i k' (Hq'&Hi)%lookup_take_Some. destruct (wf_queue _ Hwf _ _ Hq') as (it'&Hit'&<-).
      exists it'. split; [|done]. rewrite lookup_delete_ne; [done|]. intros <-.
      assert (it' = it) as -> by congruence. lia.
    - intros k' it' [_ Hit']%lookup_delete_Some. by eapply wf_key. }
  split_and!; try done.
  - apply list_eq. intros i. rewrite lookup_view, Hobjs by done. simpl.
    destruct (decide (i < length l)) as [Hi|Hi].
    + rewrite lookup_take_lt by done.
      rewrite <- (lookup_app_l l [obj it]), <- Hv, lookup_view by done.
      destruct (queue h !! i) as [k'|] eqn:Hi'; [|done]. simpl.
      rewrite lookup_delete_ne; [done|]. intros <-.
      destruct (wf_queue _ Hwf _ _ Hi') as (?&?&?). simplify_eq. lia.
    + rewrite lookup_take_ge by lia. symmetry. apply lookup_ge_None. lia.
  - by eapply (wf_key h).
  - unfold objs. by rewrite lookup_fmap, Hit.
Qed.
End WellFormed.

(** ** The heap as a priority map *)
Section Spec.
Context {Obj : Type} (keyFunc : Obj -> option string) (lessFunc : Obj -> Obj -> bool).
Context `{!StrictWeak lessFunc}.
Implicit Types (h : Heap Obj) (o : Obj).

(** The invariant of a heap: the data is well formed and heap-ordered. *)
Definition heapInv h : Prop :=
  wf keyFunc (hdata h) /\ heap lessFunc (view (hdata h)).

(** The abstract state: which object is stored under each key. *)
Definition contents h : gmap string Obj := objs (hdata h).

(** The contents as a list. *)
Lemma List_contents h : List h = (map_to_list (contents h)).*2.
Proof. unfold List, contents, objs. by rewrite map_to_list_fmap, <- !list_fmap_compose. Qed.

Lemma contents_key h k o : heapInv h -> contents h !! k = Some o -> keyFunc o = Some k.
Proof.
  intros [Hwf _] Hk. unfold contents, objs in Hk. rewrite lookup_fmap in Hk.
  apply fmap_Some in Hk as (it&Hit&->). by eapply wf_key.
Qed.

Lemma contents_lookup h k : contents h !! k = GetByKey h k.
Proof.
  unfold contents, objs, GetByKey. rewrite lookup_fmap. by destruct (items (hdata h) !! k).
Qed.

Lemma contents_New rec : contents (NewWithRecorder rec) = ∅.
Proof. apply fmap_empty. Qed.

Lemma heapInv_New rec : heapInv (NewWithRecorder rec).
Proof. split; [split; intros; simplify_map_eq|]. done. Qed.

(** The length of the queue is the number of keys. *)
Lemma HeapLen_contents h : heapInv h -> HeapLen h = size (contents h).
Proof.
  intros [Hwf _]. unfold HeapLen, contents.
  assert (Hnd : NoDup (queue (hdata h))).
  { apply NoDup_alt. intros i j k Hi Hj.
    destruct (wf_queue _ _ Hwf _ _ Hi) as (?&?&?), (wf_queue _ _ Hwf _ _ Hj) as (?&?&?). by simplify_eq. }
  rewrite <- size_dom, <- (size_list_to_set (C := gset string)) by done. f_equal.
  apply set_eq. intros k. rewrite elem_of_list_to_set, elem_of_dom. split.
  - intros. by eapply wf_present.
  - unfold objs. intros [o Ho]. rewrite lookup_fmap in Ho.
    apply fmap_Some in Ho as (it&Hit&_). apply list_elem_of_lookup.
    exists (index it). by apply (wf_index _ _ Hwf).
Qed.

Lemma heapPush_spec (d : data Obj) k o :
  wf keyFunc d -> heap lessFunc (view d) -> keyFunc o = Some k -> items d !! k = None ->
  exists d', heapPush lessFunc d k o = Some d' /\ wf keyFunc d' /\ heap lessFunc (view d') /\
    objs d' = <[k := o]> (objs d).
Proof.
  intros Hwf Hh Hk Hnone. destruct (Push_wf keyFunc d k o Hwf Hk Hnone) as (Hwf'&Hv&Ho).
  unfold heapPush. set (h' := Push d k o) in *.
  assert (Hlen : length (view h') = S (length (view d))) by (rewrite Hv, length_app; simpl; lia).
  replace (Len h' - 1) with (length (view d))
    by (unfold Len; rewrite <- (length_view keyFunc) by done; lia).
  destruct (up_spec (H0 := data_Interface lessFunc) lessFunc (InterfaceLaws0 := data_Laws keyFunc lessFunc)
    h' (length (view d)) (length (view h'))) as (d'&->&(Hwf''&Hp&_)&Hh'); simpl in *; try done; [lia| |].
  { rewrite Hlen, Hv. by apply heap_snoc. }
  exists d'. split_and!; try done.
  - intros j. rewrite (Permutation_length Hp). apply Hh'.
  - rewrite <- Ho. by eapply objs_Permutation.
Qed.

Lemma heapFix_spec (d : data Obj) k it o :
  wf keyFunc d -> heap lessFunc (view d) -> keyFunc o = Some k -> items d !! k = Some it ->
  exists d', heapFix lessFunc d k it o = Some d' /\ wf keyFunc d' /\
    heap lessFunc (view d') /\ objs d' = <[k := o]> (objs d).
Proof.
  intros Hwf Hh Hk Hit. destruct (setObj_wf keyFunc d k it o Hwf Hk Hit) as (Hwf'&Hv&Ho).
  assert (Hlt : index it < length (view d)).
  { rewrite (length_view keyFunc) by done. by eapply lookup_lt_Some, wf_index. }
  unfold heapFix. destruct (Fix_spec (H0 := data_Interface lessFunc) lessFunc (InterfaceLaws0 := data_Laws keyFunc lessFunc)
    (setObj d k it o) (index it)) as (d'&->&Hwf''&Hp&Hh'); simpl in *; try done.
  - by rewrite Hv, length_insert.
  - rewrite Hv, length_insert. apply heap_insert; [|done|done]. intros ???. apply le_trans.
  - exists d'. split_and!; try done. rewrite <- Ho. by eapply objs_Permutation.
Qed.

Lemma heapRemove_spec (d : data Obj) k it :
  wf keyFunc d -> heap lessFunc (view d) -> items d !! k = Some it ->
  exists d', heapRemove lessFunc d (index it) = Some (Some (obj it), d') /\ wf keyFunc d' /\
    heap lessFunc (view d') /\ objs d' = delete k (objs d).
Proof.
  intros Hwf Hh Hit. unfold heapRemove.
  assert (Ha : view d !! index it = Some (obj it)).
  { apply (lookup_view_Some keyFunc); [done|]. exists k, it. split; [|done]. by eapply wf_index. }
  destruct (beforeRemove_spec (H0 := data_Interface lessFunc) lessFunc
    (InterfaceLaws0 := data_Laws keyFunc lessFunc) d _ _ Hwf Hh Ha) as (d1&l&->&Hwf1&Hv1&Hp&Hl).
  bind_simpl. simpl in *.
  destruct (PopLast_wf keyFunc d1 l _ Hwf1 Hv1) as (d2&k'&->&Hwf2&Hv2&Hk'&_&Ho2).
  exists d2. pose proof (wf_key _ _ Hwf _ _ Hit). simplify_eq.
  split_and!; try done. rewrite Ho2. f_equal. eapply objs_Permutation; [done..|]. by rewrite Hv1.
Qed.

Lemma heapPop_spec (d : data Obj) :
  wf keyFunc d -> heap lessFunc (view d) -> queue d <> [] ->
  exists o k d', heapPop lessFunc d = Some (Some o, d') /\ wf keyFunc d' /\
    heap lessFunc (view d') /\ view d !! 0 = Some o /\ objs d !! k = Some o /\
    objs d' = delete k (objs d) /\
    (forall k' o', objs d !! k' = Some o' -> lessFunc o' o = false).
Proof.
  intros Hwf Hh Hne. unfold heapPop.
  destruct (lookup_lt_is_Some_2 (view d) 0) as [o Ho].
  { rewrite (length_view keyFunc) by done. destruct (queue d); [done|simpl; lia]. }
  destruct (beforePop_spec (H0 := data_Interface lessFunc) lessFunc
    (InterfaceLaws0 := data_Laws keyFunc lessFunc) d _ Hwf Hh Ho) as (d1&l&->&Hwf1&Hv1&Hp&Hl).
  bind_simpl. simpl in *.
  destruct (PopLast_wf keyFunc d1 l _ Hwf1 Hv1) as (d2&k&->&Hwf2&Hv2&Hk&Hko&Ho2).
  assert (Hobjs : objs d1 = objs d) by (eapply objs_Permutation; [done..|]; by rewrite Hv1).
  rewrite Hobjs in *. exists o, k, d2. split_and!; try done; [by rewrite Hv2|].
  intros k' o' Ho'. apply (objs_view keyFunc) in Ho' as [[i Hi]%list_elem_of_lookup _]; [|done].
  eapply (heapN_root lessFunc (view d)); [intros; apply le_refl; exact _|intros ???; apply le_trans|done..| |done].
  by eapply lookup_lt_Some.
Qed.

(** *** Specifications of the operations *)
Lemma Add_spec h o k :
  heapInv h -> keyFunc o = Some k ->
  exists h', Add keyFunc lessFunc h o = Ok h' /\ heapInv h' /\ contents h' = <[k := o]> (contents h) /\
    metricRecorder h' = match contents h !! k with Some _ => metricRecorder h | None => record Inc h end.
Proof.
  intros [Hwf Hh] Hk. unfold Add. rewrite Hk, contents_lookup. unfold GetByKey.
  destruct (items (hdata h) !! k) as [it|] eqn:Hit.
  - destruct (heapFix_spec (hdata h) k it o) as (d&->&?&?&?); try done. by eexists.
  - destruct (heapPush_spec (hdata h) k o) as (d&->&?&?&?); try done. by eexists.
Qed.

Lemma AddIfNotPresent_spec h o k :
  heapInv h -> keyFunc o = Some k ->
  exists h', AddIfNotPresent keyFunc lessFunc h o = Ok h' /\ heapInv h' /\
    contents h' = match contents h !! k with Some _ => contents h | None => <[k := o]> (contents h) end /\
    metricRecorder h' = match contents h !! k with Some _ => metricRecorder h | None => record Inc h end.
Proof.
  intros [Hwf Hh] Hk. unfold AddIfNotPresent. rewrite Hk, contents_lookup. unfold GetByKey.
  destruct (items (hdata h) !! k) as [it|] eqn:Hit; [by eexists|].
  destruct (heapPush_spec (hdata h) k o) as (d&->&?&?&?); try done. by eexists.
Qed.

Lemma Delete_spec h o k :
  heapInv h -> keyFunc o = Some k ->
  match contents h !! k with
  | None => Delete keyFunc lessFunc h o = Err ObjectNotFound
  | Some _ =>
      exists h', Delete keyFunc lessFunc h o = Ok h' /\ heapInv h' /\
        contents h' = delete k (contents h) /\ metricRecorder h' = record Dec h
  end.
Proof.
  intros [Hwf Hh] Hk. unfold Delete. rewrite Hk, contents_lookup. unfold GetByKey.
  destruct (items (hdata h) !! k) as [it|] eqn:Hit; [|done].
  destruct (heapRemove_spec (hdata h) k it) as (d&->&?&?&?); try done. by eexists.
Qed.

Lemma Pop_spec h :
  heapInv h -> 0 < HeapLen h ->
  exists o k h', Pop lessFunc h = (Ok o, h') /\ heapInv h' /\ contents h !! k = Some o /\
    keyFunc o = Some k /\ contents h' = delete k (contents h) /\
    (forall k' o', contents h !! k' = Some o' -> lessFunc o' o = false) /\
    metricRecorder h' = record Dec h.
Proof.
  intros [Hwf Hh] Hlen. unfold Pop.
  destruct (heapPop_spec (hdata h)) as (o&k&d&->&?&?&_&Ho&?&?); try done.
  { unfold HeapLen in Hlen. by destruct (queue (hdata h)); [simpl in Hlen; lia|]. }
  exists o, k. eexists. split_and!; try done. by apply (objs_view keyFunc) in Ho as [_ ?].
Qed.

Lemma Pop_empty h : heapInv h -> HeapLen h = 0 -> Pop lessFunc h = (Panic, h).
Proof.
  intros _ Hlen. unfold Pop, heapPop, beforePop, HeapLen in *. simpl. unfold Len. by rewrite Hlen.
Qed.

(** [Peek] shows what [Pop] would return: an object that none precedes. *)
Lemma Peek_spec h :
  heapInv h ->
  match HeapLen h with
  | O => Peek h = Some None
  | S _ => exists o k, Peek h = Some (Some o) /\ contents h !! k = Some o /\ keyFunc o = Some k /\
      forall k' o', contents h !! k' = Some o' -> lessFunc o' o = false
  end.
Proof.
  intros [Hwf Hh]. unfold HeapLen, Peek, PeekData.
  destruct (queue (hdata h)) as [|k q] eqn:Hq; [done|]. simpl.
  destruct (wf_queue _ _ Hwf 0 k) as (it&Hit&Hix); [by rewrite Hq|]. rewrite Hit. bind_simpl.
  exists (obj it), k. split_and!; try done.
  - unfold contents, objs. by rewrite lookup_fmap, Hit.
  - by eapply (wf_key _ (hdata h)).
  - intros k' o' Ho'. apply (objs_view keyFunc) in Ho' as [[i Hi]%list_elem_of_lookup _]; [|done].
    eapply (heapN_root lessFunc (view (hdata h)));
      [intros; apply le_refl; exact _|intros ???; apply le_trans|done| | |done].
    + apply (lookup_view_Some keyFunc); [done|]. exists k, it. by rewrite Hq.
    + by eapply lookup_lt_Some.
Qed.

(** [Pop] returns the object that [Peek] shows. *)
Lemma Pop_Peek h o h' : heapInv h -> Pop lessFunc h = (Ok o, h') -> Peek h = Some (Some o).
Proof.
  intros [Hwf Hh]. unfold Pop. destruct (queue (hdata h)) as [|k0 q] eqn:Hq.
  { unfold heapPop, beforePop. simpl. unfold Len. by rewrite Hq. }
  destruct (heapPop_spec (hdata h)) as (o'&k&d&->&_&_&Hv&_); try done; [by rewrite Hq|].
  intros [= <- _]. apply (lookup_view_Some keyFunc) in Hv as (k'&it&Hk'&Hit&<-&_); [|done].
  rewrite Hq in Hk'. simplify_eq/=. unfold Peek, PeekData. rewrite Hq, Hit. by bind_simpl.
Qed.
End Spec.

(** ** Refinement: sequences of operations

    [runHeap] runs a list of operations from any heap; [absRun] is the
    specification over a finite map.  A [Pop] of the specification may return
    any object that none precedes; a [Pop] of an empty heap panics and ends the
    run (the scheduling queue never calls it). *)
Section Refinement.
Context {Obj : Type} (keyFunc : Obj -> option string) (lessFunc : Obj -> Obj -> bool).
Context `{!StrictWeak lessFunc}.

Inductive heapOp := OpAdd (o : Obj) | OpAddIfNotPresent (o : Obj) | OpUpdate (o : Obj)
  | OpDelete (o : Obj) | OpPop.

Inductive heapReply := Done | Failed (e : heapError) | Popped (o : Obj) | Crashed.

Definition reply (h : Heap Obj) (r : result heapError (Heap Obj)) : heapReply * Heap Obj :=
  match r with Ok h' => (Done, h') | Err e => (Failed e, h) | Panic => (Crashed, h) end.

Definition runOp (h : Heap Obj) (op : heapOp) : heapReply * Heap Obj :=
  match op with
  | OpAdd o => reply h (Add keyFunc lessFunc h o)
  | OpAddIfNotPresent o => reply h (AddIfNotPresent keyFunc lessFunc h o)
  | OpUpdate o => reply h (Update keyFunc lessFunc h o)
  | OpDelete o => reply h (Delete keyFunc lessFunc h o)
  | OpPop =>
      match Pop lessFunc h with
      | (Ok o, h') => (Popped o, h') | (Err e, h') => (Failed e, h') | (Panic, h') => (Crashed, h')
      end
  end.

Fixpoint runHeap (h : Heap Obj) (ops : list heapOp) : list heapReply * Heap Obj :=
  match ops with
  | [] => ([], h)
  | op :: ops => let '(r, h') := runOp h op in let '(rs, h'') := runHeap h' ops in (r :: rs, h'')
  end.

Definition insertIfNew (m : gmap string Obj) (k : string) (o : Obj) : gmap string Obj :=
  match m !! k with Some _ => m | None => <[k := o]> m end.

Inductive absOp (m : gmap string Obj) : heapOp -> heapReply -> gmap string Obj -> Prop :=
  | AbsAdd o k : keyFunc o = Some k -> absOp m (OpAdd o) Done (<[k := o]> m)
  | AbsUpdate o k : keyFunc o = Some k -> absOp m (OpUpdate o) Done (<[k := o]> m)
  | AbsAddIfNotPresent o k :
      keyFunc o = Some k -> absOp m (OpAddIfNotPresent o) Done (insertIfNew m k o)
  | AbsDelete o k : keyFunc o = Some k -> is_Some (m !! k) -> absOp m (OpDelete o) Done (delete k m)
  | AbsDeleteMissing o k :
      keyFunc o = Some k -> m !! k = None -> absOp m (OpDelete o) (Failed ObjectNotFound) m
  | AbsKeyError op o :
      keyFunc o = None -> op ∈ [OpAdd o; OpUpdate o; OpAddIfNotPresent o; OpDelete o] ->
      absOp m op (Failed KeyError) m
  | AbsPop o k :
      m !! k = Some o -> keyFunc o = Some k ->
      (forall k' o', m !! k' = Some o' -> lessFunc o' o = false) ->
      absOp m OpPop (Popped o) (delete k m)
  | AbsPopEmpty : m = ∅ -> absOp m OpPop Crashed m.

Inductive absRun : gmap string Obj -> list heapOp -> list heapReply -> gmap string Obj -> Prop :=
  | AbsNil m : absRun m [] [] m
  | AbsCons m op r m' ops rs m'' :
      absOp m op r m' -> absRun m' ops rs m'' -> absRun m (op :: ops) (r :: rs) m''.

(** The gauge behind the recorder shows the number of objects. *)
Definition gaugeOk (h : Heap Obj) : Prop :=
  match metricRecorder h with
  | None => True
  | Some calls => gauge calls = Z.of_nat (size (contents h))
  end.

Lemma gauge_snoc calls c : gauge (calls ++ [c]) = recorderEffect (gauge calls) c.
Proof. unfold gauge. by rewrite foldl_snoc. Qed.

Lemma gaugeOk_insert h h' k o :
  gaugeOk h -> contents h' = <[k := o]> (contents h) ->
  metricRecorder h' = match contents h !! k with Some _ => metricRecorder h | None => record Inc h end ->
  gaugeOk h'.
Proof.
  intros Hg Hc Hr. unfold gaugeOk in *. rewrite Hr, Hc. destruct (contents h !! k) eqn:Hm.
  - destruct (metricRecorder h); [|done]. by rewrite map_size_insert_Some.
  - unfold record. destruct (metricRecorder h); [|done].
    rewrite gauge_snoc, map_size_insert_None by done. simpl. lia.
Qed.

Lemma gaugeOk_delete h h' k :
  gaugeOk h -> is_Some (contents h !! k) -> contents h' = delete k (contents h) ->
  metricRecorder h' = record Dec h -> gaugeOk h'.
Proof.
  intros Hg [o Hm] Hc Hr. unfold gaugeOk in *. rewrite Hr, Hc. unfold record.
  destruct (metricRecorder h); [|done]. rewrite gauge_snoc, map_size_delete_Some by by eexists.
  assert (size (contents h) <> 0) by (intros E; apply map_size_empty_inv in E; rewrite E in Hm; done).
  simpl. lia.
Qed.

Lemma runOp_spec h op :
  heapInv keyFunc lessFunc h -> gaugeOk h ->
  let '(r, h') := runOp h op in
  absOp (contents h) op r (contents h') /\ heapInv keyFunc lessFunc h' /\ gaugeOk h'.
Proof.
  intros Hinv Hg.
  destruct op as [o|o|o|o|]; simpl.
  - destruct (keyFunc o) as [k|] eqn:Hk.
    + destruct (Add_spec keyFunc lessFunc h o k Hinv Hk) as (h'&->&?&Hc&?). simpl.
      split_and!; [rewrite Hc; by constructor|done|by eapply gaugeOk_insert].
    + unfold Add. rewrite Hk. split_and!; [|done|done]. eapply AbsKeyError; [done|set_solver].
  - destruct (keyFunc o) as [k|] eqn:Hk.
    + destruct (AddIfNotPresent_spec keyFunc lessFunc h o k Hinv Hk) as (h'&->&?&Hc&Hr). simpl.
      split_and!; [rewrite Hc; by eapply AbsAddIfNotPresent|done|].
      destruct (contents h !! k) eqn:Hm; [|eapply gaugeOk_insert; [done|done|by rewrite Hm]].
      unfold gaugeOk in *. by rewrite Hr, Hc.
    + unfold AddIfNotPresent. rewrite Hk. split_and!; [|done|done]. eapply AbsKeyError; [done|set_solver].
  - unfold Update. destruct (keyFunc o) as [k|] eqn:Hk.
    + destruct (Add_spec keyFunc lessFunc h o k Hinv Hk) as (h'&->&?&Hc&?). simpl.
      split_and!; [rewrite Hc; by constructor|done|by eapply gaugeOk_insert].
    + unfold Add. rewrite Hk. split_and!; [|done|done]. eapply AbsKeyError; [done|set_solver].
  - destruct (keyFunc o) as [k|] eqn:Hk.
    + pose proof (Delete_spec keyFunc lessFunc h o k Hinv Hk) as HD.
      destruct (contents h !! k) eqn:Hm.
      * destruct HD as (h'&->&?&Hc&?). simpl.
        split_and!; [rewrite Hc; apply AbsDelete; [done|by eexists]|done|eapply gaugeOk_delete; [done|by eexists|done..]].
      * rewrite HD. split_and!; [by eapply AbsDeleteMissing|done|done].
    + unfold Delete. rewrite Hk. split_and!; [|done|done]. eapply AbsKeyError; [done|set_solver].
  - destruct (HeapLen h) eqn:Hlen.
    + rewrite (Pop_empty keyFunc) by done. split_and!; [|done|done].
      apply AbsPopEmpty, map_size_empty_inv. by rewrite <- (HeapLen_contents keyFunc lessFunc).
    + destruct (Pop_spec keyFunc lessFunc h Hinv) as (o&k&h'&->&?&?&?&Hc&?&?); [lia|].
      split_and!; [rewrite Hc; by eapply AbsPop|done|eapply gaugeOk_delete; [done|by eexists|done..]].
Qed.

Lemma runHeap_spec ops : forall h,
  heapInv keyFunc lessFunc h -> gaugeOk h ->
  absRun (contents h) ops (runHeap h ops).1 (contents (runHeap h ops).2) /\
  heapInv keyFunc lessFunc (runHeap h ops).2 /\ gaugeOk (runHeap h ops).2.
Proof.
  induction ops as [|op ops IH]; intros h Hinv Hg; simpl; [by split_and!; [constructor|..]|].
  pose proof (runOp_spec h op Hinv Hg) as Hstep.
  destruct (runOp h op) as [r h1]. destruct Hstep as (Habs&Hinv1&Hg1).
  specialize (IH h1 Hinv1 Hg1). destruct (runHeap h1 ops) as [rs h2]. simpl in *.
  destruct IH as (?&?&?). split_and!; [by econstructor|done|done].
Qed.

(** Pops [n] objects. *)
Fixpoint drain (n : nat) (h : Heap Obj) : list Obj * Heap Obj :=
  match n with
  | O => ([], h)
  | S n =>
      match Pop lessFunc h with
      | (Ok o, h') => let '(l, h'') := drain n h' in (o :: l, h'')
      | (_, h') => ([], h')
      end
  end.

Lemma drain_spec n : forall h,
  heapInv keyFunc lessFunc h -> HeapLen h = n ->
  exists l h', drain n h = (l, h') /\ StronglySorted (le lessFunc) l /\
    l ≡ₚ (map_to_list (contents h)).*2 /\ HeapLen h' = 0.
Proof.
  induction n as [|n IH]; intros h Hinv Hlen.
  - exists [], h. split_and!; [done|constructor| |done].
    rewrite (HeapLen_contents keyFunc lessFunc) in Hlen by done.
    apply map_size_empty_inv in Hlen. by rewrite Hlen, map_to_list_empty.
  - destruct (Pop_spec keyFunc lessFunc h Hinv) as (o&k&h1&Hp&Hinv1&Hk&Hkey&Hc&Hmin&_); [lia|].
    destruct (IH h1) as (l&h2&Hd&Hs&Hl&H0); [done| |].
    { rewrite (HeapLen_contents keyFunc lessFunc) in Hlen |- * by done.
      rewrite Hc, map_size_delete_Some by by eexists. lia. }
    exists (o :: l), h2. cbn [drain]. rewrite Hp, Hd. split_and!; [done| | |done].
    + constructor; [done|]. apply list.Forall_forall. intros o' Ho'.
      rewrite Hl, Hc in Ho'. apply list_elem_of_fmap in Ho' as ([k' o'']&->&Ho').
      apply elem_of_map_to_list, lookup_delete_Some in Ho' as [_ Ho']. by eapply Hmin.
    + rewrite Hl, Hc. by rewrite <- (map_to_list_delete (contents h) k o).
Qed.
End Refinement.

(** ** Properties *)

(** C1. The keyed heap implements a priority map: for every sequence of [Add],
    [AddIfNotPresent], [Update], [Delete] and [Pop] calls on a new heap, the
    replies and the final contents are those of a finite map from keys to objects
    in which [Pop] removes an object that no other one precedes; errors are exactly
    the failed key function and the missing key, nothing panics except a [Pop] of
    an empty heap, and the metric gauge always shows the number of objects. *)
Theorem heap_implements_priority_map {Obj} (keyFunc : Obj -> option string)
    (lessFunc : Obj -> Obj -> bool) `{!StrictWeak lessFunc} (ops : list heapOp) :
  let run := runHeap keyFunc lessFunc (NewWithRecorder (Some [])) ops in
  absRun keyFunc lessFunc ∅ ops run.1 (contents run.2) /\
  heapInv keyFunc lessFunc run.2 /\ gaugeOk run.2.
Proof.
  rewrite <- (contents_New (Some [])).
  apply runHeap_spec; [done|by apply heapInv_New|done].
Qed.

(** Popping a heap until it is empty returns every stored object exactly once,
    in an order in which no object precedes an earlier one. *)
Theorem heap_pops_in_order {Obj} (keyFunc : Obj -> option string)
    (lessFunc : Obj -> Obj -> bool) `{!StrictWeak lessFunc} (h : Heap Obj) :
  heapInv keyFunc lessFunc h ->
  exists l h', drain lessFunc (HeapLen h) h = (l, h') /\
    StronglySorted (le lessFunc) l /\ l ≡ₚ List h /\ HeapLen h' = 0.
Proof.
  intros Hinv. destruct (drain_spec keyFunc lessFunc (HeapLen h) h Hinv) as (l&h'&?&?&Hl&?); [done|].
  exists l, h'. split_and!; try done. by rewrite Hl, List_contents.
Qed.

(** *** Witnesses: objects are pairs of a key and a priority. *)
Definition byPriority (a b : string * Z) : bool := (a.2 <? b.2)%Z.

#[export] Instance byPriority_StrictWeak : StrictWeak byPriority.
Proof. split; unfold le, byPriority; intros; lia. Qed.

Definition exampleOps : list (@heapOp (string * Z)) :=
  [OpAdd ("a", 5); OpAdd ("b", 3); OpAdd ("c", 7); OpUpdate ("a", 1); OpPop;
   OpAddIfNotPresent ("b", 9); OpDelete ("b", 0); OpDelete ("x", 0); OpPop; OpPop]%Z.

Example exampleOps_replies :
  (runHeap (fun o => Some o.1) byPriority (NewWithRecorder (Some [])) exampleOps).1 =
  [Done; Done; Done; Done; Popped ("a", 1%Z); Done; Done; Failed ObjectNotFound;
   Popped ("c", 7%Z); Crashed].
Proof. vm_compute. reflexivity. Qed.

Lemma heap_implements_priority_map_witness :
  absRun (fun o => Some o.1) byPriority ∅ exampleOps
    [Done; Done; Done; Done; Popped ("a", 1%Z); Done; Done; Failed ObjectNotFound;
     Popped ("c", 7%Z); Crashed]
    (contents (runHeap (fun o => Some o.1) byPriority (NewWithRecorder (Some [])) exampleOps).2).
Proof.
  rewrite <- exampleOps_replies.
  exact (proj1 (heap_implements_priority_map (fun o => Some o.1) byPriority exampleOps)).
Defined.

Definition exampleHeap : Heap (string * Z) :=
  (runHeap (fun o => Some o.1) byPriority New (take 3 exampleOps)).2.

Lemma heap_pops_in_order_witness :
  exists l h', drain byPriority 3 exampleHeap = (l, h') /\ StronglySorted (le byPriority) l.
Proof.
  destruct (heap_pops_in_order (fun o : string * Z => Some o.1) byPriority exampleHeap)
    as (l&h'&Hd&Hs&_).
  - apply runHeap_spec; [exact byPriority_StrictWeak|apply heapInv_New|exact I].
  - exists l, h'. split; [exact Hd|exact Hs].
Defined.
