(* ===== verification/NodeInfo.v ===== *)
(** * Aggregated node information (scheduler/framework/v1alpha1/types.go)

    [Resource], [HostPortInfo], [PodInfo] and [NodeInfo] with every operation
    that changes them, and the request arithmetic of scheduler/util.  The global
    generation counter is threaded explicitly: an operation takes its value and
    returns the new one. *)
From S2P Require Import Prelude Api.
Local Open Scope Z_scope.
Local Open Scope go_scope.

(** ** Non-zero requests (scheduler/util/non_zero.go) *)
Definition DefaultMilliCPURequest : Z := 100.
Definition DefaultMemoryRequest : Z := 200 * 1024 * 1024.

Definition GetNonzeroRequestForResource (resource : string) (requests : ResourceList) : Z :=
  if decide (resource = ResourceCPU) then
    match requests !! ResourceCPU with
    | None => DefaultMilliCPURequest
    | Some q => MilliValue q
    end
  else if decide (resource = ResourceMemory) then
    match requests !! ResourceMemory with
    | None => DefaultMemoryRequest
    | Some q => Value q
    end
  else if decide (resource = ResourceEphemeralStorage) then
    match requests !! ResourceEphemeralStorage with None => 0 | Some q => Value q end
  else
    match requests !! resource with None => 0 | Some q => Value q end.

Definition GetNonzeroRequests (requests : ResourceList) : Z * Z :=
  (GetNonzeroRequestForResource ResourceCPU requests,
   GetNonzeroRequestForResource ResourceMemory requests).

(** ** Resource: a collection of compute resources *)
Record Resource := {
  MilliCPU : Z;
  Memory : Z;
  EphemeralStorage : Z;
  AllowedPodNumber : Z;
  ScalarResources : option (gmap string Z)  (* a nil map is [None] *)
}.

Definition emptyResource : Resource :=
  {| MilliCPU := 0; Memory := 0; EphemeralStorage := 0; AllowedPodNumber := 0;
     ScalarResources := None |}.

(** [m[k]] of a possibly nil map: 0 when absent. *)
Definition scalarOf (m : option (gmap string Z)) (name : string) : Z :=
  default 0 (m ≫= fun m => m !! name).

Definition SetScalar (r : Resource) (name : string) (quantity : Z) : Resource :=
  {| MilliCPU := MilliCPU r; Memory := Memory r; EphemeralStorage := EphemeralStorage r;
     AllowedPodNumber := AllowedPodNumber r;
     ScalarResources := Some (<[name := quantity]> (default ∅ (ScalarResources r))) |}.

Definition AddScalar (r : Resource) (name : string) (quantity : Z) : Resource :=
  SetScalar r name (scalarOf (ScalarResources r) name +₆₄ quantity).

Definition setMilliCPU (r : Resource) (v : Z) : Resource :=
  {| MilliCPU := v; Memory := Memory r; EphemeralStorage := EphemeralStorage r;
     AllowedPodNumber := AllowedPodNumber r; ScalarResources := ScalarResources r |}.
Definition setMemory (r : Resource) (v : Z) : Resource :=
  {| MilliCPU := MilliCPU r; Memory := v; EphemeralStorage := EphemeralStorage r;
     AllowedPodNumber := AllowedPodNumber r; ScalarResources := ScalarResources r |}.
Definition setEphemeralStorage (r : Resource) (v : Z) : Resource :=
  {| MilliCPU := MilliCPU r; Memory := Memory r; EphemeralStorage := v;
     AllowedPodNumber := AllowedPodNumber r; ScalarResources := ScalarResources r |}.
Definition setAllowedPodNumber (r : Resource) (v : Z) : Resource :=
  {| MilliCPU := MilliCPU r; Memory := Memory r; EphemeralStorage := EphemeralStorage r;
     AllowedPodNumber := v; ScalarResources := ScalarResources r |}.

(** One iteration of the loop of [Add]. *)
Definition addQuantity (rName : string) (rQuant : Quantity) (r : Resource) : Resource :=
  if decide (rName = ResourceCPU) then setMilliCPU r (MilliCPU r +₆₄ MilliValue rQuant)
  else if decide (rName = ResourceMemory) then setMemory r (Memory r +₆₄ Value rQuant)
  else if decide (rName = ResourcePods) then
    setAllowedPodNumber r (AllowedPodNumber r +₆₄ Value rQuant)
  else if decide (rName = ResourceEphemeralStorage) then
    setEphemeralStorage r (EphemeralStorage r +₆₄ Value rQuant)
  else AddScalar r rName (Value rQuant).

Definition Resource_Add (r : Resource) (rl : ResourceList) : Resource := map_fold addQuantity r rl.

Definition NewResource (rl : ResourceList) : Resource := Resource_Add emptyResource rl.

(** One iteration of the loop of [SetMaxResource]. *)
Definition maxQuantity (rName : string) (rQuantity : Quantity) (r : Resource) : Resource :=
  if decide (rName = ResourceMemory) then
    if Memory r <? Value rQuantity then setMemory r (Value rQuantity) else r
  else if decide (rName = ResourceCPU) then
    if MilliCPU r <? MilliValue rQuantity then setMilliCPU r (MilliValue rQuantity) else r
  else if decide (rName = ResourceEphemeralStorage) then
    if EphemeralStorage r <? Value rQuantity then setEphemeralStorage r (Value rQuantity) else r
  else
    if scalarOf (ScalarResources r) rName <? Value rQuantity
    then SetScalar r rName (Value rQuantity) else r.

Definition SetMaxResource (r : Resource) (rl : ResourceList) : Resource := map_fold maxQuantity r rl.

(** A copy with its own scalar map. *)
Definition Resource_Clone (r : Resource) : Resource :=
  {| MilliCPU := MilliCPU r; Memory := Memory r; AllowedPodNumber := AllowedPodNumber r;
     EphemeralStorage := EphemeralStorage r;
     ScalarResources := match ScalarResources r with
       | None => None
       | Some m => Some (map_fold (fun k v res => <[k := v]> res) ∅ m)
       end |}.

(** [res] is the sum of the containers, raised to each init container, plus the
    overhead; [non0CPU] and [non0Mem] use the defaults for missing requests. *)
Definition calculateResource (pod : Pod) : Resource * Z * Z :=
  let step1 := fun '(res, non0CPU, non0Mem) c =>
    let '(cpu, mem) := GetNonzeroRequests (c_Requests c) in
    (Resource_Add res (c_Requests c), non0CPU +₆₄ cpu, non0Mem +₆₄ mem) in
  let step2 := fun '(res, non0CPU, non0Mem) ic =>
    let '(cpu, mem) := GetNonzeroRequests (c_Requests ic) in
    (SetMaxResource res (c_Requests ic),
     if non0CPU <? cpu then cpu else non0CPU, if non0Mem <? mem then mem else non0Mem) in
  let '(res, non0CPU, non0Mem) :=
    foldl step2 (foldl step1 (emptyResource, 0, 0) (Containers (pod_Spec pod)))
      (InitContainers (pod_Spec pod)) in
  match Overhead (pod_Spec pod) with
  | None => (res, non0CPU, non0Mem)
  | Some oh =>
      (Resource_Add res oh,
       match oh !! ResourceCPU with None => non0CPU | Some q => non0CPU +₆₄ MilliValue q end,
       match oh !! ResourceMemory with None => non0Mem | Some q => non0Mem +₆₄ Value q end)
  end.

(** ** Host ports *)
Definition DefaultBindAllHostIP : string := "0.0.0.0".
Definition ProtocolTCP : string := "TCP".

Record ProtocolPort := { Protocol : string; Port : Z }.
#[export] Instance ProtocolPort_eq : EqDecision ProtocolPort.
Proof. solve_decision. Defined.
#[export] Instance ProtocolPort_countable : Countable ProtocolPort.
Proof.
  refine (inj_countable' (fun p => (Protocol p, Port p))
    (fun '(a, b) => {| Protocol := a; Port := b |}) _). by intros [].
Defined.

Definition NewProtocolPort (protocol : string) (port : Z) : ProtocolPort :=
  {| Protocol := if decide (protocol = "") then ProtocolTCP else protocol; Port := port |}.

Abbreviation HostPortInfo := (gmap string (gset ProtocolPort)).

Definition sanitize (ip protocol : string) : string * string :=
  (if decide (ip = "") then DefaultBindAllHostIP else ip,
   if decide (protocol = "") then ProtocolTCP else protocol).

Definition HostPortInfo_Add (h : HostPortInfo) (ip protocol : string) (port : Z) : HostPortInfo :=
  if port <=? 0 then h
  else
    let '(ip, protocol) := sanitize ip protocol in
    let pp := NewProtocolPort protocol port in
    match h !! ip with
    | None => <[ip := {[pp]}]> h
    | Some m => <[ip := {[pp]} ∪ m]> h
    end.

Definition HostPortInfo_Remove (h : HostPortInfo) (ip protocol : string) (port : Z) : HostPortInfo :=
  if port <=? 0 then h
  else
    let '(ip, protocol) := sanitize ip protocol in
    let pp := NewProtocolPort protocol port in
    match h !! ip with
    | None => h
    | Some m => if decide (m ∖ {[pp]} = ∅) then delete ip h else <[ip := m ∖ {[pp]}]> h
    end.

Definition HostPortInfo_Len (h : HostPortInfo) : nat :=
  map_fold (fun _ m len => (len + size m)%nat) 0%nat h.

Definition CheckConflict (h : HostPortInfo) (ip protocol : string) (port : Z) : bool :=
  if port <=? 0 then false
  else
    let '(ip, protocol) := sanitize ip protocol in
    let pp := NewProtocolPort protocol port in
    if decide (ip = DefaultBindAllHostIP)
    then existsb (fun '(_, m) => bool_decide (pp ∈ m)) (map_to_list h)
    else existsb (fun key => match h !! key with
                             | None => false
                             | Some m => bool_decide (pp ∈ m)
                             end) [DefaultBindAllHostIP; ip].

(** ** Affinity terms (types.go, scheduler/util/topologies.go, scheduler/util/utils.go) *)
Definition GetPodAffinityTerms (affinity : option Affinity) : list PodAffinityTerm :=
  match affinity with
  | Some a => match af_PodAffinity a with Some pa => aff_Required pa | None => [] end
  | None => []
  end.

Definition GetPodAntiAffinityTerms (affinity : option Affinity) : list PodAffinityTerm :=
  match affinity with
  | Some a => match af_PodAntiAffinity a with Some pa => aff_Required pa | None => [] end
  | None => []
  end.

Definition GetNamespacesFromPodAffinityTerm (pod : Pod) (term : PodAffinityTerm) : gset string :=
  match term_Namespaces term with
  | [] => {[pod_Namespace pod]}
  | ns => list_to_set ns
  end.

Definition PodMatchesTermsNamespaceAndSelector (pod : Pod) (namespaces : gset string)
    (selector : Selector) : bool :=
  if decide (pod_Namespace pod ∈ namespaces) then Matches selector (pod_Labels pod) else false.

Definition NodesHaveSameTopologyKey (nodeA nodeB : Node) (topologyKey : string) : bool :=
  if decide (topologyKey = "") then false
  else match node_Labels nodeA !! topologyKey, node_Labels nodeB !! topologyKey with
       | Some a, Some b => bool_decide (a = b)
       | _, _ => false
       end.

Record AffinityTerm := {
  Namespaces : gset string;
  TermSelector : Selector;
  TopologyKey : string
}.

Record WeightedAffinityTerm := { WTerm : AffinityTerm; Weight : Z }.

(** Which of the four conversions of a pod's affinity failed last. *)
Inductive ParseErrorKind :=
  | requiredAffinityTermsError | requiredAntiAffinityTermsError
  | preferredAffinityTermsError | preferredAntiAffinityTermsError.

Record PodInfo := {
  pi_Pod : Pod;
  RequiredAffinityTerms : list AffinityTerm;
  RequiredAntiAffinityTerms : list AffinityTerm;
  PreferredAffinityTerms : list WeightedAffinityTerm;
  PreferredAntiAffinityTerms : list WeightedAffinityTerm;
  ParseError : option ParseErrorKind
}.

Section PodInfo.
Context `{LabelsLib}.

Definition newAffinityTerm (pod : Pod) (term : PodAffinityTerm) : option AffinityTerm :=
  selector ← LabelSelectorAsSelector (term_LabelSelector term);
  Some {| Namespaces := GetNamespacesFromPodAffinityTerm pod term; TermSelector := selector;
          TopologyKey := term_TopologyKey term |}.

(** [None] when a label selector fails to convert. *)
Fixpoint getAffinityTerms (pod : Pod) (v1Terms : list PodAffinityTerm) : option (list AffinityTerm) :=
  match v1Terms with
  | [] => Some []
  | term :: rest =>
      t ← newAffinityTerm pod term; ts ← getAffinityTerms pod rest; Some (t :: ts)
  end.

Fixpoint getWeightedAffinityTerms (pod : Pod) (v1Terms : list WeightedPodAffinityTerm)
    : option (list WeightedAffinityTerm) :=
  match v1Terms with
  | [] => Some []
  | term :: rest =>
      t ← newAffinityTerm pod (wterm_Term term);
      ts ← getWeightedAffinityTerms pod rest;
      Some ({| WTerm := t; Weight := wterm_Weight term |} :: ts)
  end.

Definition preferredTerms (pa : option PodAffinity) : list WeightedPodAffinityTerm :=
  match pa with Some a => aff_Preferred a | None => [] end.

(** A failed conversion leaves no terms and is remembered in [ParseError]. *)
Definition NewPodInfo (pod : Pod) : PodInfo :=
  let affinity := PodAffinitySpec (pod_Spec pod) in
  let preferredAffinityTerms := preferredTerms (affinity ≫= af_PodAffinity) in
  let preferredAntiAffinityTerms := preferredTerms (affinity ≫= af_PodAntiAffinity) in
  let required := getAffinityTerms pod (GetPodAffinityTerms affinity) in
  let parseErr := match required with None => Some requiredAffinityTermsError | Some _ => None end in
  let requiredAnti := getAffinityTerms pod (GetPodAntiAffinityTerms affinity) in
  let parseErr := match requiredAnti with None => Some requiredAntiAffinityTermsError | Some _ => parseErr end in
  let weighted := getWeightedAffinityTerms pod preferredAffinityTerms in
  let parseErr := match weighted with None => Some preferredAffinityTermsError | Some _ => parseErr end in
  let weightedAnti := getWeightedAffinityTerms pod preferredAntiAffinityTerms in
  let parseErr := match weightedAnti with None => Some preferredAntiAffinityTermsError | Some _ => parseErr end in
  {| pi_Pod := pod;
     RequiredAffinityTerms := default [] required;
     RequiredAntiAffinityTerms := default [] requiredAnti;
     PreferredAffinityTerms := default [] weighted;
     PreferredAntiAffinityTerms := default [] weightedAnti;
     ParseError := parseErr |}.
End PodInfo.

(** ** NodeInfo *)
Record ImageStateSummary := { Size : Z; NumNodes : Z }.

Record TransientSchedulerInfo := { AllocatableVolumesCount : Z; RequestedVolumes : Z }.
Definition NewTransientSchedulerInfo : TransientSchedulerInfo :=
  {| AllocatableVolumesCount := 0; RequestedVolumes := 0 |}.

Record NodeInfo := {
  node : option Node;
  Pods : list PodInfo;
  PodsWithAffinity : list PodInfo;
  UsedPorts : HostPortInfo;
  Requested : Resource;
  NonZeroRequested : Resource;
  Allocatable : Resource;
  ImageStates : gmap string ImageStateSummary;
  TransientInfo : TransientSchedulerInfo;
  Generation : Z
}.

(** Errors of [GetPodKey] and of [RemovePod]. *)
Inductive nodeInfoError := EmptyUID | NoCorrespondingPod (pod node : string).

#[export] Instance nodeInfoError_eq : EqDecision nodeInfoError.
Proof. solve_decision. Defined.

Definition GetPodKey (pod : Pod) : result nodeInfoError string :=
  if decide (pod_UID pod = "") then Err EmptyUID else Ok (pod_UID pod).

Definition nextGeneration (generation : Z) : Z := generation +₆₄ 1.

(** [NodeInfo.Node] of a non-nil receiver. *)
Definition NodeOf (n : NodeInfo) : option Node := node n.

(** [updateUsedPorts]: every host port of every container, in order. *)
Definition updateUsedPorts (ports : HostPortInfo) (pod : Pod) (add : bool) : HostPortInfo :=
  foldl (fun h c =>
    foldl (fun h p =>
      if add then HostPortInfo_Add h (cp_HostIP p) (cp_Protocol p) (cp_HostPort p)
      else HostPortInfo_Remove h (cp_HostIP p) (cp_Protocol p) (cp_HostPort p)) h (c_Ports c))
    ports (Containers (pod_Spec pod)).

(** Adds ([sign = 1]) or subtracts ([sign = -1]) the request of a pod.  The scalar
    map is allocated when the request has a scalar resource. *)
Definition accumulate (sign : Z) (r res : Resource) : Resource :=
  let scalars := default ∅ (ScalarResources res) in
  {| MilliCPU := wrap64 (MilliCPU r + sign * MilliCPU res);
     Memory := wrap64 (Memory r + sign * Memory res);
     EphemeralStorage := wrap64 (EphemeralStorage r + sign * EphemeralStorage res);
     AllowedPodNumber := AllowedPodNumber r;
     ScalarResources :=
       if decide (scalars = ∅) then ScalarResources r
       else Some (map_fold (fun rName rQuant m =>
              <[rName := wrap64 (default 0 (m !! rName) + sign * rQuant)]> m)
              (default ∅ (ScalarResources r)) scalars) |}.

Arguments accumulate : simpl never.

Definition accumulateNonZero (sign : Z) (r : Resource) (cpu mem : Z) : Resource :=
  setMemory (setMilliCPU r (wrap64 (MilliCPU r + sign * cpu))) (wrap64 (Memory r + sign * mem)).

Definition hasPodAffinity (pod : Pod) : bool :=
  match PodAffinitySpec (pod_Spec pod) with
  | None => false
  | Some a => match af_PodAffinity a, af_PodAntiAffinity a with None, None => false | _, _ => true end
  end.

Section NodeInfoOps.
Context `{LabelsLib}.

Definition AddPod (generation : Z) (n : NodeInfo) (pod : Pod) : Z * NodeInfo :=
  let podInfo := NewPodInfo pod in
  let '(res, non0CPU, non0Mem) := calculateResource pod in
  let generation' := nextGeneration generation in
  (generation',
   {| node := node n;
      Pods := Pods n ++ [podInfo];
      PodsWithAffinity :=
        if hasPodAffinity pod then PodsWithAffinity n ++ [podInfo] else PodsWithAffinity n;
      UsedPorts := updateUsedPorts (UsedPorts n) (pi_Pod podInfo) true;
      Requested := accumulate 1 (Requested n) res;
      NonZeroRequested := accumulateNonZero 1 (NonZeroRequested n) non0CPU non0Mem;
      Allocatable := Allocatable n;
      ImageStates := ImageStates n;
      TransientInfo := TransientInfo n;
      Generation := generation' |}).

Definition NewNodeInfo (generation : Z) (pods : list Pod) : Z * NodeInfo :=
  let generation' := nextGeneration generation in
  foldl (fun '(g, n) pod => AddPod g n pod)
    (generation',
     {| node := None; Pods := []; PodsWithAffinity := []; UsedPorts := ∅;
        Requested := emptyResource; NonZeroRequested := emptyResource;
        Allocatable := emptyResource; ImageStates := ∅;
        TransientInfo := NewTransientSchedulerInfo; Generation := generation' |}) pods.
End NodeInfoOps.

(** Deletes the element at [i] by moving the last one into its place. *)
Definition swapRemove {A} (l : list A) (i : nat) : list A :=
  match l !! (length l - 1)%nat with
  | None => l
  | Some x => take (length l - 1) (<[i := x]> l)
  end.

(** The index of the first pod whose key is [k1]; pods without a key are skipped. *)
Definition findPodKey (k1 : string) (l : list PodInfo) : option nat :=
  fst <$> list_find (fun p => GetPodKey (pi_Pod p) = Ok k1) l.

Definition removeWithKey (k1 : string) (l : list PodInfo) : list PodInfo :=
  match findPodKey k1 l with None => l | Some i => swapRemove l i end.

(** [RemovePod] returns the new generation counter and the node info it leaves,
    also when it fails: a pod that is missing from [Pods] may already have been
    taken out of [PodsWithAffinity].  The error message dereferences [n.node]. *)
Definition RemovePod (generation : Z) (n : NodeInfo) (pod : Pod)
    : result nodeInfoError unit * (Z * NodeInfo) :=
  match GetPodKey pod with
  | Err e => (Err e, (generation, n))
  | Panic => (Panic, (generation, n))
  | Ok k1 =>
      let affinityPods := removeWithKey k1 (PodsWithAffinity n) in
      match findPodKey k1 (Pods n) with
      | Some i =>
          let '(res, non0CPU, non0Mem) := calculateResource pod in
          let generation' := nextGeneration generation in
          (Ok tt,
           (generation',
            {| node := node n;
               Pods := swapRemove (Pods n) i;
               PodsWithAffinity := affinityPods;
               UsedPorts := updateUsedPorts (UsedPorts n) pod false;
               Requested := accumulate (-1) (Requested n) res;
               NonZeroRequested := accumulateNonZero (-1) (NonZeroRequested n) non0CPU non0Mem;
               Allocatable := Allocatable n;
               ImageStates := ImageStates n;
               TransientInfo := TransientInfo n;
               Generation := generation' |}))
      | None =>
          let n' :=
            {| node := node n; Pods := Pods n; PodsWithAffinity := affinityPods;
               UsedPorts := UsedPorts n; Requested := Requested n;
               NonZeroRequested := NonZeroRequested n; Allocatable := Allocatable n;
               ImageStates := ImageStates n; TransientInfo := TransientInfo n;
               Generation := Generation n |} in
          match node n with
          | None => (Panic, (generation, n'))
          | Some nd => (Err (NoCorrespondingPod (pod_Name pod) (node_Name nd)), (generation, n'))
          end
      end
  end.

Definition SetNode (generation : Z) (n : NodeInfo) (nd : Node) : Z * NodeInfo :=
  let generation' := nextGeneration generation in
  (generation',
   {| node := Some nd; Pods := Pods n; PodsWithAffinity := PodsWithAffinity n;
      UsedPorts := UsedPorts n; Requested := Requested n; NonZeroRequested := NonZeroRequested n;
      Allocatable := NewResource (node_Allocatable nd);
      ImageStates := ImageStates n; TransientInfo := NewTransientSchedulerInfo;
      Generation := generation' |}).

Definition RemoveNode (generation : Z) (n : NodeInfo) : Z * NodeInfo :=
  let generation' := nextGeneration generation in
  (generation',
   {| node := None; Pods := Pods n; PodsWithAffinity := PodsWithAffinity n;
      UsedPorts := UsedPorts n; Requested := Requested n; NonZeroRequested := NonZeroRequested n;
      Allocatable := Allocatable n; ImageStates := ImageStates n; TransientInfo := TransientInfo n;
      Generation := generation' |}).

(** [nodeInfo.ImageStates = m] (scheduler/internal/cache). *)
Definition setImageStates (n : NodeInfo) (m : gmap string ImageStateSummary) : NodeInfo :=
  {| node := node n; Pods := Pods n; PodsWithAffinity := PodsWithAffinity n;
     UsedPorts := UsedPorts n; Requested := Requested n; NonZeroRequested := NonZeroRequested n;
     Allocatable := Allocatable n; ImageStates := m; TransientInfo := TransientInfo n;
     Generation := Generation n |}.

(** A copy whose slices, resources and port sets are its own. *)
Definition Clone (n : NodeInfo) : NodeInfo :=
  {| node := node n;
     Pods := Pods n;
     PodsWithAffinity := PodsWithAffinity n;
     UsedPorts := map_fold (fun ip portMap h => <[ip := portMap]> h) ∅ (UsedPorts n);
     Requested := Resource_Clone (Requested n);
     NonZeroRequested := Resource_Clone (NonZeroRequested n);
     Allocatable := Resource_Clone (Allocatable n);
     ImageStates := ImageStates n;
     TransientInfo := TransientInfo n;
     Generation := Generation n |}.

Definition keepsPod (n : NodeInfo) (nd : Node) (p : Pod) : bool :=
  if decide (NodeName (pod_Spec p) <> node_Name nd) then true
  else match GetPodKey p with
       | Ok podKey => existsb (fun np => bool_decide (GetPodKey (pi_Pod np) = Ok podKey)) (Pods n)
       | _ => false
       end.

Definition FilterOutPods (n : NodeInfo) (pods : list Pod) : list Pod :=
  match node n with
  | None => pods
  | Some nd => filter (fun p => keepsPod n nd p = true) pods
  end.

(** ** Host ports as a set *)
Section HostPorts.
Implicit Types (h : HostPortInfo) (x : string * ProtocolPort).

(** The address and the protocol port of [x] are taken. *)
Definition usedPort h x : Prop := exists m, h !! x.1 = Some m /\ x.2 ∈ m.

(** No address has an empty set. *)
Definition portsWf h : Prop := forall ip m, h !! ip = Some m -> m <> ∅.

Definition portKey (ip protocol : string) (port : Z) : string * ProtocolPort :=
  let '(ip, protocol) := sanitize ip protocol in (ip, NewProtocolPort protocol port).

Lemma portKey_sanitize ip protocol port :
  portKey ip protocol port =
  ((sanitize ip protocol).1, NewProtocolPort (sanitize ip protocol).2 port).
Proof. done. Qed.

Lemma portsWf_empty : portsWf ∅.
Proof. intros ip m. by rewrite lookup_empty. Qed.

Lemma usedPort_ext h1 h2 :
  portsWf h1 -> portsWf h2 -> (forall x, usedPort h1 x <-> usedPort h2 x) -> h1 = h2.
Proof.
  assert (Hsub : forall h1 h2 ip m, portsWf h1 -> (forall x, usedPort h1 x <-> usedPort h2 x) ->
    h1 !! ip = Some m -> exists m', h2 !! ip = Some m' /\ m' = m).
  { intros g1 g2 ip m Hwf Hx Hm. destruct (set_choose_L _ (Hwf _ _ Hm)) as [pp Hpp].
    destruct (proj1 (Hx (ip, pp))) as (m'&Hm'&_); [by exists m|]. exists m'. split; [done|].
    apply set_eq. intros pp'. split; intros Hin.
    - destruct (proj2 (Hx (ip, pp'))) as (m1&Hm1&Hin1); [by exists m'|]. by simplify_eq/=.
    - destruct (proj1 (Hx (ip, pp'))) as (m1&Hm1&Hin1); [by exists m|]. by simplify_eq/=. }
  intros H1 H2 Hx. apply map_eq. intros ip. apply option_eq. intros m. split; intros Hm.
  - by destruct (Hsub h1 h2 ip m) as (?&?&->).
  - by destruct (Hsub h2 h1 ip m) as (?&?&->).
Qed.

Lemma usedPort_Add h ip protocol port x :
  usedPort (HostPortInfo_Add h ip protocol port) x <->
  usedPort h x \/ (0 < port /\ x = portKey ip protocol port).
Proof.
  unfold HostPortInfo_Add. destruct (Z.leb_spec port 0) as [Hp|Hp]; [naive_solver lia|].
  rewrite portKey_sanitize. destruct (sanitize ip protocol) as [ip' proto']. simpl.
  set (pp := NewProtocolPort proto' port). unfold usedPort. destruct x as [i q]. simpl.
  destruct (h !! ip') as [m|] eqn:Hm; (destruct (decide (i = ip')) as [->|];
    [rewrite lookup_insert_eq, ?Hm|rewrite lookup_insert_ne by done]);
    rewrite ?exists_Some, ?exists_None, ?elem_of_union, ?elem_of_singleton; naive_solver.
Qed.

Lemma portsWf_Add h ip protocol port :
  portsWf h -> portsWf (HostPortInfo_Add h ip protocol port).
Proof.
  unfold HostPortInfo_Add, portsWf. intros Hwf. destruct (Z.leb_spec port 0); [done|].
  destruct (sanitize ip protocol) as [ip' proto']. intros i m.
  destruct (h !! ip') eqn:Hm; (destruct (decide (i = ip')) as [->|];
    [rewrite lookup_insert_eq; intros [= <-];
       apply (non_empty_inhabited_L (NewProtocolPort proto' port)); set_solver
    |rewrite lookup_insert_ne by done; apply Hwf]).
Qed.

Lemma usedPort_Remove h ip protocol port x :
  usedPort (HostPortInfo_Remove h ip protocol port) x <->
  usedPort h x /\ ~ (0 < port /\ x = portKey ip protocol port).
Proof.
  unfold HostPortInfo_Remove. destruct (Z.leb_spec port 0) as [Hp|Hp]; [naive_solver lia|].
  rewrite portKey_sanitize. destruct (sanitize ip protocol) as [ip' proto']. simpl.
  set (pp := NewProtocolPort proto' port). unfold usedPort. destruct x as [i q]. simpl.
  destruct (h !! ip') as [m|] eqn:Hm; cycle 1.
  { split; [|tauto]. intros Hu. split; [done|]. intros [_ [= -> ->]].
    destruct Hu as (m&Hm'&_). congruence. }
  assert (Heq : i = ip' -> (0 < port /\ (i, q) = (ip', pp)) <-> q = pp).
  { intros ->. split; [by intros [_ [= ->]]|by intros ->]. }
  assert (Hne : i <> ip' -> ~ (0 < port /\ (i, q) = (ip', pp))) by (intros ? [_ [= ]]; done).
  case_decide as He; (destruct (decide (i = ip')) as [->|Hi];
    [rewrite ?lookup_delete_eq, ?lookup_insert_eq, Hm, (Heq eq_refl), ?exists_Some, ?exists_None
    |rewrite ?lookup_delete_ne, ?lookup_insert_ne by done; specialize (Hne Hi); tauto]).
  - clear - He. set_solver.
  - clear. set_solver.
Qed.

Lemma portsWf_Remove h ip protocol port :
  portsWf h -> portsWf (HostPortInfo_Remove h ip protocol port).
Proof.
  unfold HostPortInfo_Remove, portsWf. intros Hwf. destruct (Z.leb_spec port 0); [done|].
  destruct (sanitize ip protocol) as [ip' proto']. destruct (h !! ip') eqn:Hm; [|done].
  intros i m. case_decide.
  - intros [_ ?]%lookup_delete_Some. by eapply Hwf.
  - destruct (decide (i = ip')) as [->|];
      [rewrite lookup_insert_eq; intros; by simplify_eq|rewrite lookup_insert_ne by done; apply Hwf].
Qed.

Lemma CheckConflict_spec h ip protocol port :
  CheckConflict h ip protocol port = true <->
  0 < port /\ exists ip', usedPort h (ip', (portKey ip protocol port).2) /\
    ((portKey ip protocol port).1 = DefaultBindAllHostIP \/
     ip' = DefaultBindAllHostIP \/ ip' = (portKey ip protocol port).1).
Proof.
  unfold CheckConflict. destruct (Z.leb_spec port 0) as [Hp|Hp]; [naive_solver lia|].
  rewrite portKey_sanitize. destruct (sanitize ip protocol) as [ip' proto']. simpl.
  set (pp := NewProtocolPort proto' port). unfold usedPort. simpl. case_decide as Hip.
  - rewrite existsb_exists. split.
    + intros ([i m]&Hin&Hpp%bool_decide_eq_true). split; [done|]. exists i.
      apply list_elem_of_In, elem_of_map_to_list in Hin. eauto.
    + intros (_&i&(m&Hm&Hpp)&_). exists (i, m). split; [|by apply bool_decide_eq_true].
      by apply list_elem_of_In, elem_of_map_to_list.
  - assert (Hk : forall key, (match h !! key with None => false | Some m => bool_decide (pp ∈ m) end) = true
      <-> exists m, h !! key = Some m /\ pp ∈ m).
    { intros key. destruct (h !! key); [rewrite bool_decide_eq_true|]; naive_solver. }
    rewrite orb_false_r, orb_true_iff, !Hk. naive_solver.
Qed.
End HostPorts.

(** ** Resources up to the value of their scalars

    A nil scalar map, an empty one and one that maps a name to 0 cannot be told
    apart by the code that reads them. *)
Definition ResourceEquiv (r1 r2 : Resource) : Prop :=
  MilliCPU r1 = MilliCPU r2 /\ Memory r1 = Memory r2 /\ EphemeralStorage r1 = EphemeralStorage r2 /\
  AllowedPodNumber r1 = AllowedPodNumber r2 /\
  forall name, scalarOf (ScalarResources r1) name = scalarOf (ScalarResources r2) name.

#[export] Instance Resource_equiv : Equiv Resource := ResourceEquiv.
#[export] Instance ResourceEquiv_equivalence : Equivalence (≡@{Resource}).
Proof.
  split.
  - by intros r.
  - intros r1 r2 (?&?&?&?&?). by split_and!.
  - intros r1 r2 r3 (?&?&?&?&Hs) (?&?&?&?&Hs'). split_and!; try congruence.
Qed.

Definition resourceInRange (r : Resource) : Prop :=
  in_int64 (MilliCPU r) /\ in_int64 (Memory r) /\ in_int64 (EphemeralStorage r) /\
  forall name, in_int64 (scalarOf (ScalarResources r) name).

Section Accumulate.
Implicit Types (r res : Resource).

Lemma accumulate_lookup sign r res name :
  scalarOf (ScalarResources (accumulate sign r res)) name =
  match default ∅ (ScalarResources res) !! name with
  | None => scalarOf (ScalarResources r) name
  | Some q => wrap64 (scalarOf (ScalarResources r) name + sign * q)
  end.
Proof.
  unfold accumulate. simpl. case_decide as He; [by rewrite He, lookup_empty|].
  unfold scalarOf at 1. simpl.
  rewrite (lookup_map_fold_insert (fun o q => wrap64 (default 0 o + sign * q))).
  unfold scalarOf.
  replace (default ∅ (ScalarResources r) !! name) with (ScalarResources r ≫= (fun m => m !! name))
    by by destruct (ScalarResources r).
  by destruct (default ∅ (ScalarResources res) !! name).
Qed.

Lemma accumulate_scalar sign r res name :
  in_int64 (scalarOf (ScalarResources r) name) ->
  scalarOf (ScalarResources (accumulate sign r res)) name =
  wrap64 (scalarOf (ScalarResources r) name + sign * scalarOf (ScalarResources res) name).
Proof.
  intros Hr. rewrite accumulate_lookup. unfold scalarOf at 4.
  destruct (ScalarResources res) as [m|]; simpl.
  - destruct (m !! name); simpl; [done|]. by rewrite Z.mul_0_r, Z.add_0_r, wrap64_id.
  - by rewrite Z.mul_0_r, Z.add_0_r, wrap64_id.
Qed.

Lemma accumulate_range sign r res : resourceInRange r -> resourceInRange (accumulate sign r res).
Proof.
  intros (?&?&?&Hs). split_and!; try apply wrap64_range.
  intros name. rewrite accumulate_scalar by done. apply wrap64_range.
Qed.

#[export] Instance accumulate_Proper sign :
  Proper ((≡) ==> (=) ==> (≡)) (accumulate sign).
Proof.
  intros r r' (Hc&Hm&He&Ha&Hs) res res' <-.
  unfold accumulate; split_and!; [simpl; congruence..|].
  intros name. fold (accumulate sign r res). fold (accumulate sign r' res).
  by rewrite !accumulate_lookup, Hs.
Qed.

Lemma wrap64_add_opp x y : in_int64 x -> wrap64 (wrap64 (x + 1 * y) + -1 * y) = x.
Proof.
  intros. rewrite wrap64_add_l. replace (x + 1 * y + -1 * y) with x by lia. by apply wrap64_id.
Qed.

(** Adding a request and subtracting it again changes nothing that can be read,
    even when the additions overflow. *)
Lemma accumulate_inverse r res :
  resourceInRange r -> accumulate (-1) (accumulate 1 r res) res ≡ r.
Proof.
  intros Hr. pose proof (accumulate_range 1 r res Hr) as (_&_&_&Hs1).
  destruct Hr as (Hc&Hm&He&Hs). split_and!; [by apply wrap64_add_opp..|done|].
  intros name. by rewrite !accumulate_scalar, wrap64_add_opp.
Qed.
End Accumulate.

(** ** Removing from a slice by swapping with the last element *)
Lemma swapRemove_Permutation {A} (l : list A) i x :
  l !! i = Some x -> l ≡ₚ x :: swapRemove l i.
Proof.
  intros Hi. apply lookup_lt_Some in Hi as Hlt. unfold swapRemove.
  destruct (lookup_lt_is_Some_2 l (length l - 1)%nat) as [y Hy]; [lia|]. rewrite Hy.
  assert (Hl : l = take (length l - 1) l ++ [y]).
  { rewrite <- (take_S_r _ _ _ Hy), take_ge; [done|lia]. }
  destruct (decide (i = length l - 1)%nat) as [->|Hne].
  - simplify_eq. rewrite list_insert_id by done. rewrite Hl at 1. by rewrite Permutation_app_comm.
  - rewrite take_insert_lt by lia. rewrite Hl at 1. set (k := take (length l - 1) l).
    assert (Hk : k !! i = Some x) by (unfold k; rewrite lookup_take_lt by lia; done).
    rewrite (insert_take_drop k i y) by by eapply lookup_lt_Some.
    rewrite <- (take_drop_middle k i x Hk) at 1.
    rewrite Permutation_app_comm. simpl. rewrite <- !Permutation_middle. apply perm_swap.
Qed.

Lemma swapRemove_snoc {A} (l : list A) x : swapRemove (l ++ [x]) (length l) = l.
Proof.
  unfold swapRemove. rewrite length_app. simpl.
  replace (length l + 1 - 1)%nat with (length l) by lia.
  rewrite list_lookup_middle by done.
  rewrite list_insert_id by by apply list_lookup_middle.
  by rewrite take_app_length.
Qed.

(** ** The invariant of a node info: its totals account for its pods *)
Section Accounting.
Context `{LabelsLib}.
Implicit Types (n : NodeInfo) (p : Pod) (g : Z).

Definition podRequest p : Resource := (calculateResource p).1.1.
Definition podNonZeroCPU p : Z := (calculateResource p).1.2.
Definition podNonZeroMem p : Z := (calculateResource p).2.

Lemma calculateResource_eta p :
  calculateResource p = (podRequest p, podNonZeroCPU p, podNonZeroMem p).
Proof. unfold podRequest, podNonZeroCPU, podNonZeroMem. by destruct (calculateResource p) as [[??]?]. Qed.

Definition podUIDs n : list string := pod_UID ∘ pi_Pod <$> Pods n.

(** The total of a quantity over the pods of a node, as a machine integer. *)
Definition total (f : Pod -> Z) n : Z := wrap64 (sumOver (f ∘ pi_Pod) (Pods n)).

Record accounted n : Prop := {
  acc_uids : NoDup (podUIDs n);
  acc_nonempty : "" ∉ podUIDs n;
  acc_cpu : MilliCPU (Requested n) = total (MilliCPU ∘ podRequest) n;
  acc_mem : Memory (Requested n) = total (Memory ∘ podRequest) n;
  acc_eph : EphemeralStorage (Requested n) = total (EphemeralStorage ∘ podRequest) n;
  acc_scalar name : scalarOf (ScalarResources (Requested n)) name =
    total (fun p => scalarOf (ScalarResources (podRequest p)) name) n;
  acc_nzcpu : MilliCPU (NonZeroRequested n) = total podNonZeroCPU n;
  acc_nzmem : Memory (NonZeroRequested n) = total podNonZeroMem n;
  acc_affinity : PodsWithAffinity n ≡ₚ filter (fun i => hasPodAffinity (pi_Pod i) = true) (Pods n)
}.

Lemma total_range f n : in_int64 (total f n).
Proof. apply wrap64_range. Qed.

Lemma accounted_scalar_range n name :
  accounted n -> in_int64 (scalarOf (ScalarResources (Requested n)) name).
Proof. intros Ha. rewrite (acc_scalar _ Ha). apply total_range. Qed.

Lemma accounted_NewNodeInfo g : accounted (NewNodeInfo g []).2.
Proof. split; try done; [constructor|]. simpl. set_solver. Qed.

Lemma AddPod_accounted g n p :
  accounted n -> pod_UID p <> "" -> pod_UID p ∉ podUIDs n -> accounted (AddPod g n p).2.
Proof.
  intros Ha Hne Hnew. pose proof (accounted_scalar_range n) as Hrange.
  unfold AddPod. rewrite calculateResource_eta.
  assert (Htot : forall f, total f n +₆₄ 1 * f p =
    wrap64 (sumOver (f ∘ pi_Pod) (Pods n ++ [NewPodInfo p]))).
  { intros f. unfold total. rewrite wrap64_add_l, sumOver_app. simpl. f_equal. lia. }
  destruct Ha.
  split; unfold podUIDs in *; cbn [fst snd Pods PodsWithAffinity Requested NonZeroRequested].
  - rewrite fmap_app, NoDup_app. split_and!; [done| |apply NoDup_singleton].
    intros uid Hin Hin'. simpl in Hin'. by apply list_elem_of_singleton in Hin' as ->.
  - rewrite fmap_app, elem_of_app. simpl. rewrite list_elem_of_singleton. by intros [?|?].
  - unfold accumulate. simpl. by rewrite acc_cpu0, Htot.
  - unfold accumulate. simpl. by rewrite acc_mem0, Htot.
  - unfold accumulate. simpl. by rewrite acc_eph0, Htot.
  - intros name. rewrite (accumulate_scalar 1 (Requested n) (podRequest p)) by by apply Hrange.
    by rewrite acc_scalar0, (Htot (fun p => scalarOf (ScalarResources (podRequest p)) name)).
  - simpl. by rewrite acc_nzcpu0, Htot.
  - simpl. by rewrite acc_nzmem0, Htot.
  - rewrite filter_app. simpl. destruct (hasPodAffinity p) eqn:Haff.
    + rewrite filter_cons_True by done. by rewrite acc_affinity0.
    + rewrite filter_cons_False by (simpl; congruence). by rewrite app_nil_r.
Qed.

Lemma findPodKey_Some k (l : list PodInfo) i :
  findPodKey k l = Some i ->
  exists x, l !! i = Some x /\ pod_UID (pi_Pod x) = k /\ k <> "".
Proof.
  unfold findPodKey. intros ([j x]&Hf&->)%fmap_Some.
  apply list_find_Some in Hf as (Hi&Hk&_). exists x. split; [done|].
  unfold GetPodKey in Hk. case_decide; naive_solver.
Qed.

Lemma findPodKey_None k (l : list PodInfo) x :
  k <> "" -> findPodKey k l = None -> x ∈ l -> pod_UID (pi_Pod x) <> k.
Proof.
  unfold findPodKey. intros Hk Hf%fmap_None Hx. apply list_find_None in Hf.
  rewrite list.Forall_forall in Hf. specialize (Hf x Hx). unfold GetPodKey in Hf.
  case_decide; congruence.
Qed.

(** [removeWithKey] takes out the only element with that key. *)
Lemma removeWithKey_Permutation (l k : list PodInfo) x :
  NoDup (pod_UID ∘ pi_Pod <$> l) -> pod_UID (pi_Pod x) <> "" ->
  l ≡ₚ x :: k -> removeWithKey (pod_UID (pi_Pod x)) l ≡ₚ k.
Proof.
  intros Hnd Hne Hp. unfold removeWithKey.
  assert (Hx : x ∈ l) by (rewrite Hp; set_solver).
  destruct (findPodKey _ l) as [i|] eqn:Hf; cycle 1.
  { by apply (findPodKey_None _ _ x) in Hf. }
  apply findPodKey_Some in Hf as (y&Hy&Hxy&_).
  apply list_elem_of_lookup in Hx as [j Hj].
  assert (i = j) as ->.
  { eapply (NoDup_lookup _ i j); [done| |].
    - by rewrite list_lookup_fmap, Hy.
    - rewrite list_lookup_fmap, Hj. simpl. by rewrite Hxy. }
  simplify_eq. pose proof (swapRemove_Permutation _ _ _ Hj) as Hs.
  apply (Permutation_cons_inv (a := x)). by rewrite <- Hs.
Qed.

Lemma removeWithKey_absent (l : list PodInfo) k :
  k ∉ (pod_UID ∘ pi_Pod <$> l) -> removeWithKey k l = l.
Proof.
  intros Hk. unfold removeWithKey. destruct (findPodKey k l) as [i|] eqn:Hf; [|done].
  apply findPodKey_Some in Hf as (y&Hy&<-&_). exfalso. apply Hk.
  apply list_elem_of_fmap. exists y. split; [done|]. by eapply list_elem_of_lookup_2.
Qed.

Lemma findPodKey_snoc (l : list PodInfo) x :
  pod_UID (pi_Pod x) <> "" -> pod_UID (pi_Pod x) ∉ (pod_UID ∘ pi_Pod <$> l) ->
  findPodKey (pod_UID (pi_Pod x)) (l ++ [x]) = Some (length l).
Proof.
  intros Hne Hnot. destruct (findPodKey _ _) as [i|] eqn:Hf.
  - apply findPodKey_Some in Hf as (y&Hy&Hk&_). f_equal.
    apply lookup_snoc_Some in Hy as [[_ Hy]|[-> _]]; [|done]. exfalso. apply Hnot. rewrite <- Hk.
    by eapply (list_elem_of_fmap_2 (pod_UID ∘ pi_Pod)), list_elem_of_lookup_2.
  - by apply (findPodKey_None _ _ x) in Hf; [|done|set_solver].
Qed.

Lemma removeWithKey_snoc (l : list PodInfo) x :
  pod_UID (pi_Pod x) <> "" -> pod_UID (pi_Pod x) ∉ (pod_UID ∘ pi_Pod <$> l) ->
  removeWithKey (pod_UID (pi_Pod x)) (l ++ [x]) = l.
Proof. intros. unfold removeWithKey. by rewrite findPodKey_snoc, swapRemove_snoc. Qed.

Lemma affinity_uids n k : accounted n -> k ∉ podUIDs n -> k ∉ (pod_UID ∘ pi_Pod <$> PodsWithAffinity n).
Proof.
  intros Ha Hk (y&->&Hin)%list_elem_of_fmap. rewrite (acc_affinity _ Ha) in Hin.
  apply list_elem_of_filter in Hin as [_ Hin]. apply Hk.
  by apply (list_elem_of_fmap_2 (pod_UID ∘ pi_Pod)).
Qed.

(** The code reads only the UID and the spec of the pod it removes. *)
Lemma RemovePod_same g n p q :
  pod_UID p = pod_UID q -> pod_Spec p = pod_Spec q -> findPodKey (pod_UID p) (Pods n) <> None ->
  RemovePod g n q = RemovePod g n p.
Proof.
  intros Hu Hs Hf. unfold RemovePod, GetPodKey, calculateResource, updateUsedPorts.
  rewrite <- Hu, <- Hs. case_decide; [done|]. by destruct (findPodKey (pod_UID p) (Pods n)).
Qed.

Lemma findPodKey_present n x :
  accounted n -> x ∈ Pods n -> findPodKey (pod_UID (pi_Pod x)) (Pods n) <> None.
Proof.
  intros Ha Hx Hf. eapply findPodKey_None in Hf; [by apply Hf| |done].
  intros He. apply (acc_nonempty _ Ha). rewrite <- He.
  by apply (list_elem_of_fmap_2 (pod_UID ∘ pi_Pod)).
Qed.

Lemma accounted_range n : accounted n -> resourceInRange (Requested n).
Proof.
  intros Ha. pose proof (accounted_scalar_range n) as Hs. destruct Ha.
  split_and!; [rewrite acc_cpu0|rewrite acc_mem0|rewrite acc_eph0|intros; by apply Hs];
    apply total_range.
Qed.

(** Removing a pod of the node succeeds, keeps the accounting, and takes exactly
    that pod out. *)
Lemma RemovePod_accounted g n x :
  accounted n -> x ∈ Pods n ->
  exists n', RemovePod g n (pi_Pod x) = (Ok tt, (nextGeneration g, n')) /\ accounted n' /\
    Pods n ≡ₚ x :: Pods n' /\ node n' = node n /\ Generation n' = nextGeneration g.
Proof.
  intros Ha Hx. pose proof (accounted_scalar_range n) as Hrange.
  assert (Hne : pod_UID (pi_Pod x) <> "").
  { intros He. apply (acc_nonempty _ Ha). rewrite <- He. by apply (list_elem_of_fmap_2 (pod_UID ∘ pi_Pod)). }
  pose proof (removeWithKey_Permutation (Pods n)) as Hrem. unfold removeWithKey in Hrem.
  unfold RemovePod, GetPodKey. rewrite decide_False by done. rewrite calculateResource_eta.
  destruct (findPodKey (pod_UID (pi_Pod x)) (Pods n)) as [i|] eqn:Hf; cycle 1.
  { by apply (findPodKey_None _ _ x) in Hf. }
  destruct (proj1 (elem_of_Permutation (Pods n) x) Hx) as [k Hk].
  specialize (Hrem k x (acc_uids _ Ha) Hne Hk). rewrite Hf in Hrem.
  eexists. split; [done|]. simpl. split_and!; [|by rewrite Hrem|done|done].
  assert (Htot : forall f, total f n +₆₄ -1 * f (pi_Pod x) =
    wrap64 (sumOver (f ∘ pi_Pod) (swapRemove (Pods n) i))).
  { intros f. unfold total. rewrite wrap64_add_l, Hrem, Hk. simpl. f_equal. lia. }
  destruct Ha.
  split; unfold podUIDs in *; cbn [fst snd Pods PodsWithAffinity Requested NonZeroRequested].
  - rewrite Hrem. rewrite Hk in acc_uids0. simpl in *. by apply NoDup_cons_1_2 in acc_uids0.
  - rewrite Hrem. rewrite Hk in acc_nonempty0. simpl in *. set_solver.
  - unfold accumulate. simpl. by rewrite acc_cpu0, Htot.
  - unfold accumulate. simpl. by rewrite acc_mem0, Htot.
  - unfold accumulate. simpl. by rewrite acc_eph0, Htot.
  - intros name. rewrite (accumulate_scalar (-1) (Requested n)) by by apply Hrange.
    by rewrite acc_scalar0, (Htot (fun p => scalarOf (ScalarResources (podRequest p)) name)).
  - simpl. by rewrite acc_nzcpu0, Htot.
  - simpl. by rewrite acc_nzmem0, Htot.
  - rewrite Hrem.
    assert (Hsub : NoDup (pod_UID ∘ pi_Pod <$> PodsWithAffinity n)).
    { rewrite acc_affinity0. eapply sublist_NoDup; [done|].
      apply fmap_sublist, sublist_filter. }
    rewrite Hk in acc_affinity0, acc_uids0. destruct (hasPodAffinity (pi_Pod x)) eqn:Haff.
    + rewrite filter_cons_True in acc_affinity0 by done. by apply removeWithKey_Permutation.
    + rewrite filter_cons_False in acc_affinity0 by congruence.
      rewrite removeWithKey_absent; [done|]. rewrite acc_affinity0.
      intros (y&Hy&Hin)%list_elem_of_fmap. apply list_elem_of_filter in Hin as [_ Hin].
      apply NoDup_cons_1_1 in acc_uids0 as Hnot. apply Hnot.
      change (pod_UID (pi_Pod x) ∈ (pod_UID ∘ pi_Pod <$> k)). rewrite Hy.
      by apply (list_elem_of_fmap_2 (pod_UID ∘ pi_Pod)).
Qed.
End Accounting.

(** ** The ports of a pod *)
Section PodPorts.
Implicit Types (h : HostPortInfo) (p : Pod).

Definition hostPorts (cps : list ContainerPort) : list (string * ProtocolPort) :=
  (fun c => portKey (cp_HostIP c) (cp_Protocol c) (cp_HostPort c)) <$>
    filter (fun c => 0 < cp_HostPort c) cps.

Definition podPorts p : list (string * ProtocolPort) :=
  hostPorts (Containers (pod_Spec p) ≫= c_Ports).

Lemma updateUsedPorts_flat h p add :
  updateUsedPorts h p add =
  foldl (fun h c =>
    if add then HostPortInfo_Add h (cp_HostIP c) (cp_Protocol c) (cp_HostPort c)
    else HostPortInfo_Remove h (cp_HostIP c) (cp_Protocol c) (cp_HostPort c))
    h (Containers (pod_Spec p) ≫= c_Ports).
Proof.
  unfold updateUsedPorts. revert h. induction (Containers (pod_Spec p)) as [|c cs IH]; intros h; [done|].
  simpl. by rewrite IH, foldl_app.
Qed.

Lemma elem_of_hostPorts cps c x :
  x ∈ hostPorts (c :: cps) <->
  (0 < cp_HostPort c /\ x = portKey (cp_HostIP c) (cp_Protocol c) (cp_HostPort c)) \/ x ∈ hostPorts cps.
Proof.
  unfold hostPorts. rewrite filter_cons. case_decide as Hp; simpl; [|naive_solver].
  rewrite elem_of_cons. naive_solver.
Qed.

Lemma usedPort_update h p add x :
  usedPort (updateUsedPorts h p add) x <->
  if add then usedPort h x \/ x ∈ podPorts p else usedPort h x /\ x ∉ podPorts p.
Proof.
  rewrite updateUsedPorts_flat. unfold podPorts. revert h.
  induction (Containers (pod_Spec p) ≫= c_Ports) as [|c cps IH]; intros h; simpl.
  - destruct add; set_solver.
  - destruct add; rewrite IH, elem_of_hostPorts; [rewrite usedPort_Add|rewrite usedPort_Remove];
      clear; naive_solver.
Qed.

Lemma portsWf_update h p add : portsWf h -> portsWf (updateUsedPorts h p add).
Proof.
  rewrite updateUsedPorts_flat. revert h.
  induction (Containers (pod_Spec p) ≫= c_Ports) as [|c cps IH]; intros h Hwf; simpl; [done|].
  apply IH. destruct add; [by apply portsWf_Add|by apply portsWf_Remove].
Qed.

(** Releasing the ports of a pod undoes taking them, provided they were free. *)
Lemma updateUsedPorts_inverse h p :
  portsWf h -> (forall x, x ∈ podPorts p -> ~ usedPort h x) ->
  updateUsedPorts (updateUsedPorts h p true) p false = h.
Proof.
  intros Hwf Hfree. apply usedPort_ext; [by do 2 apply portsWf_update|done|].
  intros x. rewrite (usedPort_update _ p false), (usedPort_update h p true). naive_solver.
Qed.
End PodPorts.

(** ** Sequences of pod events on one node *)
Section NodeInfoRun.
Context `{LabelsLib}.

Inductive podEvent := PodAdded (p : Pod) | PodRemoved (p : Pod).

(** [None] when an operation returns an error or panics. *)
Fixpoint runPodEvents (g : Z) (n : NodeInfo) (events : list podEvent) : option (Z * NodeInfo) :=
  match events with
  | [] => Some (g, n)
  | PodAdded p :: rest => let '(g', n') := AddPod g n p in runPodEvents g' n' rest
  | PodRemoved p :: rest =>
      match RemovePod g n p with
      | (Ok _, (g', n')) => runPodEvents g' n' rest
      | _ => None
      end
  end.

(** The specification: the pods that are on the node.  A pod is added once, under
    a UID of its own, and only a pod that is there is removed. *)
Fixpoint podsAfter (pods : list Pod) (events : list podEvent) : option (list Pod) :=
  match events with
  | [] => Some pods
  | PodAdded p :: rest =>
      if decide (pod_UID p = "" \/ pod_UID p ∈ pod_UID <$> pods) then None
      else podsAfter (p :: pods) rest
  | PodRemoved p :: rest =>
      match list_find (fun q => q = p) pods with
      | None => None
      | Some (i, _) => podsAfter (delete i pods) rest
      end
  end.

Lemma runPodEvents_spec events : forall g n pods pods',
  accounted n -> pi_Pod <$> Pods n ≡ₚ pods -> podsAfter pods events = Some pods' ->
  exists g' n', runPodEvents g n events = Some (g', n') /\ accounted n' /\ pi_Pod <$> Pods n' ≡ₚ pods'.
Proof.
  induction events as [|[p|p] events IH]; intros g n pods pods' Ha Hp Hev; simpl in *.
  - simplify_eq. by eexists _, _.
  - case_decide as Hc; [done|]. apply Decidable.not_or in Hc as [Hne Hnew].
    assert (Hn : pod_UID p ∉ podUIDs n).
    { unfold podUIDs. by rewrite list_fmap_compose, Hp. }
    pose proof (AddPod_accounted g n p Ha Hne Hn) as Ha'.
    assert (Hpods : pi_Pod <$> Pods (AddPod g n p).2 ≡ₚ p :: pods).
    { unfold AddPod. rewrite calculateResource_eta. cbn [snd Pods].
      rewrite fmap_app, Hp. simpl. by rewrite <- Permutation_cons_append. }
    destruct (AddPod g n p) as [g1 n1]. by eapply IH.
  - destruct (list_find _ pods) as [[i q]|] eqn:Hf; [|done].
    apply list_find_Some in Hf as (Hi&->&_).
    assert (Hin : p ∈ pi_Pod <$> Pods n) by (rewrite Hp; by eapply list_elem_of_lookup_2).
    apply list_elem_of_fmap in Hin as (x&->&Hx).
    destruct (RemovePod_accounted g n x Ha Hx) as (n1&->&Ha1&Hperm&_).
    eapply IH; [done| |done]. apply delete_Permutation in Hi.
    apply (Permutation_cons_inv (a := pi_Pod x)). rewrite <- Hi, <- Hp, Hperm. done.
Qed.
End NodeInfoRun.

(** ** One dimension of a resource vector *)
Inductive dimension := DimCPU | DimMemory | DimEphemeral | DimScalar (name : string).

Definition specialName (name : string) : bool :=
  bool_decide (name ∈ [ResourceCPU; ResourceMemory; ResourcePods; ResourceEphemeralStorage]).

(** A scalar dimension has none of the four reserved names. *)
Definition dimOk (d : dimension) : Prop :=
  match d with DimScalar name => specialName name = false | _ => True end.

Definition dimOf (d : dimension) (r : Resource) : Z :=
  match d with
  | DimCPU => MilliCPU r
  | DimMemory => Memory r
  | DimEphemeral => EphemeralStorage r
  | DimScalar name => scalarOf (ScalarResources r) name
  end.

(** The quantity of the dimension in a resource list: milli units for CPU. *)
Definition dimName (d : dimension) : string :=
  match d with
  | DimCPU => ResourceCPU | DimMemory => ResourceMemory
  | DimEphemeral => ResourceEphemeralStorage | DimScalar name => name
  end.
Definition dimUnits (d : dimension) (q : Quantity) : Z :=
  match d with DimCPU => MilliValue q | _ => Value q end.
Definition dimQuantity (d : dimension) (rl : ResourceList) : Z :=
  match rl !! dimName d with None => 0 | Some q => dimUnits d q end.

Lemma scalarOf_SetScalar r name v name' :
  scalarOf (ScalarResources (SetScalar r name v)) name' =
  if decide (name = name') then v else scalarOf (ScalarResources r) name'.
Proof.
  unfold scalarOf, SetScalar. simpl. rewrite lookup_insert. case_decide; [done|].
  by destruct (ScalarResources r).
Qed.

Ltac dim_cases :=
  repeat (case_decide || case_match); subst; rewrite ?scalarOf_SetScalar; simpl in *;
  repeat case_decide; simplify_eq; try done.

Lemma Resource_Add_dim d r rl :
  dimOk d -> in_int64 (dimOf d r) ->
  dimOf d (Resource_Add r rl) = dimOf d r +₆₄ dimQuantity d rl.
Proof.
  intros Hok Hr. unfold Resource_Add.
  rewrite (map_fold_one addQuantity (dimOf d) (dimName d) (fun q x => x +₆₄ dimUnits d q)).
  - unfold dimQuantity. destruct (rl !! dimName d); [done|]. by rewrite Z.add_0_r, wrap64_id.
  - intros q r'. unfold addQuantity, AddScalar. destruct d; simpl in *; dim_cases.
  - intros k q r' Hne. unfold addQuantity, AddScalar. destruct d; simpl in *; dim_cases.
Qed.

Lemma SetMaxResource_dim d r rl :
  dimOk d -> 0 <= dimOf d r ->
  dimOf d (SetMaxResource r rl) = Z.max (dimOf d r) (dimQuantity d rl).
Proof.
  intros Hok Hr. unfold SetMaxResource.
  rewrite (map_fold_one maxQuantity (dimOf d) (dimName d) (fun q x => Z.max x (dimUnits d q))).
  - unfold dimQuantity. destruct (rl !! dimName d); [done|]. lia.
  - intros q r'. unfold maxQuantity. destruct d; simpl in *; dim_cases; lia.
  - intros k q r' Hne. unfold maxQuantity. destruct d; simpl in *; dim_cases.
Qed.

(** The request of a pod as three folds over resource lists. *)
Lemma podRequest_folds p :
  podRequest p =
  let r1 := foldl (fun r c => Resource_Add r (c_Requests c)) emptyResource (Containers (pod_Spec p)) in
  let r2 := foldl (fun r c => SetMaxResource r (c_Requests c)) r1 (InitContainers (pod_Spec p)) in
  match Overhead (pod_Spec p) with None => r2 | Some oh => Resource_Add r2 oh end.
Proof.
  unfold podRequest, calculateResource, GetNonzeroRequests.
  assert (H1 : forall cs r a b, exists a' b',
    foldl (fun '(res, non0CPU, non0Mem) c =>
      (Resource_Add res (c_Requests c),
       non0CPU +₆₄ GetNonzeroRequestForResource ResourceCPU (c_Requests c),
       non0Mem +₆₄ GetNonzeroRequestForResource ResourceMemory (c_Requests c))) (r, a, b) cs =
    (foldl (fun r c => Resource_Add r (c_Requests c)) r cs, a', b')).
  { induction cs as [|c cs IH]; intros r a b; simpl; [by eauto|apply IH]. }
  assert (H2 : forall cs r a b, exists a' b',
    foldl (fun '(res, non0CPU, non0Mem) ic =>
      (SetMaxResource res (c_Requests ic),
       if non0CPU <? GetNonzeroRequestForResource ResourceCPU (c_Requests ic)
       then GetNonzeroRequestForResource ResourceCPU (c_Requests ic) else non0CPU,
       if non0Mem <? GetNonzeroRequestForResource ResourceMemory (c_Requests ic)
       then GetNonzeroRequestForResource ResourceMemory (c_Requests ic) else non0Mem)) (r, a, b) cs =
    (foldl (fun r c => SetMaxResource r (c_Requests c)) r cs, a', b')).
  { induction cs as [|c cs IH]; intros r a b; simpl; [by eauto|apply IH]. }
  destruct (H1 (Containers (pod_Spec p)) emptyResource 0 0) as (a&b&->).
  destruct (H2 (InitContainers (pod_Spec p))
    (foldl (fun r c => Resource_Add r (c_Requests c)) emptyResource (Containers (pod_Spec p))) a b)
    as (a'&b'&->).
  by destruct (Overhead (pod_Spec p)).
Qed.

Section PodDimension.
Context (d : dimension) (Hd : dimOk d).
Let q (c : Container) : Z := dimQuantity d (c_Requests c).

Lemma add_containers_dim cs r :
  Forall (fun c => 0 <= q c) cs -> 0 <= dimOf d r -> dimOf d r + sumOver q cs <= max_int64 ->
  dimOf d (foldl (fun r c => Resource_Add r (c_Requests c)) r cs) = dimOf d r + sumOver q cs.
Proof.
  revert r. induction cs as [|c cs IH]; intros r Hnn Hr Hmax; simpl; [lia|].
  inversion_clear Hnn as [|? ? Hc Hcs]. simpl in Hmax. pose proof (sumOver_nonneg q cs Hcs).
  assert (Heq : dimOf d (Resource_Add r (c_Requests c)) = dimOf d r + q c).
  { rewrite Resource_Add_dim; [apply wrap64_id| |]; try done;
      unfold in_int64, min_int64, max_int64, q in *; lia. }
  rewrite IH; rewrite ?Heq; try done; lia.
Qed.

Lemma max_containers_dim cs r :
  0 <= dimOf d r ->
  dimOf d (foldl (fun r c => SetMaxResource r (c_Requests c)) r cs) = maxOver q (dimOf d r) cs.
Proof.
  rewrite <- maxOver_foldl. revert r. induction cs as [|c cs IH]; intros r Hr; simpl; [done|].
  rewrite IH; rewrite SetMaxResource_dim by done; [done|lia].
Qed.
End PodDimension.

(** ** Properties *)

(** C2. For every sequence of pod additions and removals on a new node info (each
    UID non-empty and on the node at most once, only present pods removed), no
    operation fails, the pods are exactly those that were added and not removed,
    and the requested and non-zero-requested totals are the sums of their requests
    as 64-bit integers, whatever the order and even if a partial sum overflowed. *)
Theorem nodeinfo_accounts_for_its_pods `{LabelsLib} (g : Z) (events : list podEvent) (pods : list Pod) :
  podsAfter [] events = Some pods ->
  exists g' n, runPodEvents (NewNodeInfo g []).1 (NewNodeInfo g []).2 events = Some (g', n) /\
    pi_Pod <$> Pods n ≡ₚ pods /\
    MilliCPU (Requested n) = wrap64 (sumOver (MilliCPU ∘ podRequest) pods) /\
    Memory (Requested n) = wrap64 (sumOver (Memory ∘ podRequest) pods) /\
    EphemeralStorage (Requested n) = wrap64 (sumOver (EphemeralStorage ∘ podRequest) pods) /\
    (forall name, scalarOf (ScalarResources (Requested n)) name =
       wrap64 (sumOver (fun p => scalarOf (ScalarResources (podRequest p)) name) pods)) /\
    MilliCPU (NonZeroRequested n) = wrap64 (sumOver podNonZeroCPU pods) /\
    Memory (NonZeroRequested n) = wrap64 (sumOver podNonZeroMem pods) /\
    pi_Pod <$> PodsWithAffinity n ≡ₚ filter (fun p => hasPodAffinity p = true) pods.
Proof.
  intros Hev.
  destruct (runPodEvents_spec events (NewNodeInfo g []).1 (NewNodeInfo g []).2 [] pods)
    as (g'&n&Hrun&Ha&Hp); [apply accounted_NewNodeInfo|done|done|].
  assert (Hsum : forall f, total f n = wrap64 (sumOver f pods)).
  { intros f. unfold total. rewrite <- Hp, sumOver_fmap. done. }
  exists g', n. split; [done|]. split; [done|]. destruct Ha.
  split_and!; try (etransitivity; [eassumption|apply Hsum]).
  - intros name. rewrite acc_scalar0. apply Hsum.
  - rewrite acc_affinity0, <- Hp. by rewrite filter_fmap_comm.
Qed.

(** Adding a pod and removing it again restores the node info: the same pods in
    the same order, the same host ports when the pod's ports were free, and the same
    resource totals up to scalars that are absent or 0, even when the additions
    overflow; only the generation moves on. *)
Theorem add_then_remove_pod `{LabelsLib} (g : Z) (n : NodeInfo) (p : Pod) :
  accounted n -> pod_UID p <> "" -> pod_UID p ∉ podUIDs n ->
  portsWf (UsedPorts n) -> (forall x, x ∈ podPorts p -> ~ usedPort (UsedPorts n) x) ->
  resourceInRange (NonZeroRequested n) ->
  exists n', RemovePod (AddPod g n p).1 (AddPod g n p).2 p =
      (Ok tt, (nextGeneration (nextGeneration g), n')) /\
    Pods n' = Pods n /\ PodsWithAffinity n' = PodsWithAffinity n /\ UsedPorts n' = UsedPorts n /\
    Requested n' ≡ Requested n /\ NonZeroRequested n' ≡ NonZeroRequested n /\
    Allocatable n' = Allocatable n /\ node n' = node n.
Proof.
  intros Ha Hne Hnew Hwf Hfree (Hc&Hm&_).
  pose proof (affinity_uids n _ Ha Hnew) as Haff.
  unfold AddPod, RemovePod, GetPodKey. rewrite decide_False, calculateResource_eta by done.
  cbn [fst snd Pods PodsWithAffinity UsedPorts Requested NonZeroRequested Allocatable node].
  change (pod_UID p) with (pod_UID (pi_Pod (NewPodInfo p))) in *.
  rewrite findPodKey_snoc by done. eexists. split; [done|].
  cbn [fst snd Pods PodsWithAffinity UsedPorts Requested NonZeroRequested Allocatable node].
  split_and!; try done.
  - by apply swapRemove_snoc.
  - destruct (hasPodAffinity p); [by apply removeWithKey_snoc|by apply removeWithKey_absent].
  - by apply updateUsedPorts_inverse.
  - by apply accumulate_inverse, accounted_range.
  - split_and!; simpl; try done; by apply wrap64_add_opp.
Qed.

(** Removing a pod whose UID is not on the node changes nothing: it returns the
    error that names the pod and the node, or dereferences a nil node and panics when
    the node info has no node; a pod with an empty UID is refused first. *)
Theorem remove_missing_pod `{LabelsLib} (g : Z) (n : NodeInfo) (p : Pod) :
  accounted n -> pod_UID p ∉ podUIDs n ->
  RemovePod g n p =
    (if decide (pod_UID p = "") then Err EmptyUID
     else match node n with
          | None => Panic
          | Some nd => Err (NoCorrespondingPod (pod_Name p) (node_Name nd))
          end, (g, n)).
Proof.
  intros Ha Hnot. unfold RemovePod, GetPodKey. case_decide as Hne; [done|].
  rewrite (removeWithKey_absent (PodsWithAffinity n)) by by apply affinity_uids.
  destruct (findPodKey (pod_UID p) (Pods n)) as [i|] eqn:Hf.
  - apply findPodKey_Some in Hf as (y&Hy&Hk&_). exfalso. apply Hnot. rewrite <- Hk.
    by eapply (list_elem_of_fmap_2 (pod_UID ∘ pi_Pod)), list_elem_of_lookup_2.
  - by destruct n, node0.
Qed.

(** The request of a pod, in every dimension, is the sum over its containers
    raised to the largest init container, plus the overhead, whenever the quantities
    are not negative and the result fits 64 bits. *)
Theorem pod_request_value (d : dimension) (p : Pod) :
  let q c := dimQuantity d (c_Requests c) in
  let containers := sumOver q (Containers (pod_Spec p)) in
  let overhead := from_option (dimQuantity d) 0 (Overhead (pod_Spec p)) in
  dimOk d ->
  Forall (fun c => 0 <= q c) (Containers (pod_Spec p)) -> 0 <= overhead ->
  maxOver q containers (InitContainers (pod_Spec p)) + overhead <= max_int64 ->
  dimOf d (podRequest p) = maxOver q containers (InitContainers (pod_Spec p)) + overhead.
Proof.
  intros q containers overhead Hd Hnn Hoh Hmax. rewrite podRequest_folds. cbn zeta.
  assert (Hge : forall cs x, x <= maxOver q x cs) by (induction cs; intros; simpl; [lia|]; specialize (IHcs x); lia).
  pose proof (Hge (InitContainers (pod_Spec p)) containers) as Hge'.
  assert (Hc0 : 0 <= containers) by by apply sumOver_nonneg.
  assert (Hz : dimOf d emptyResource = 0) by by destruct d.
  assert (Hs1 : dimOf d (foldl (fun r c => Resource_Add r (c_Requests c)) emptyResource
    (Containers (pod_Spec p))) = containers).
  { rewrite add_containers_dim; rewrite ?Hz; try done; unfold containers, q in *; lia. }
  pose proof (max_containers_dim d Hd (InitContainers (pod_Spec p))
    (foldl (fun r c => Resource_Add r (c_Requests c)) emptyResource (Containers (pod_Spec p)))) as Hs2.
  rewrite Hs1 in Hs2. specialize (Hs2 Hc0).
  unfold overhead in *. destruct (Overhead (pod_Spec p)) as [oh|]; simpl in *; [|rewrite Hs2; unfold q; lia].
  rewrite Resource_Add_dim; rewrite ?Hs2; try done;
    [apply wrap64_id|]; unfold in_int64, min_int64, q, containers in *; lia.
Qed.

(** *** Witnesses *)
Definition examplePod1 : Pod := simplePod "p1" "ns" "uid1" "n1" [simpleContainer 250 1000].
Definition examplePod2 : Pod :=
  simplePod "p2" "ns" "uid2" "n1" [simpleContainer 500 2000; simpleContainer 100 3000].

Lemma nodeinfo_accounts_for_its_pods_witness :
  exists g n, @runPodEvents exampleLabels (@NewNodeInfo exampleLabels 0 []).1 (@NewNodeInfo exampleLabels 0 []).2
    [PodAdded examplePod1; PodAdded examplePod2; PodRemoved examplePod1] = Some (g, n) /\
  pi_Pod <$> Pods n ≡ₚ [examplePod2].
Proof.
  destruct (@nodeinfo_accounts_for_its_pods exampleLabels 0
    [PodAdded examplePod1; PodAdded examplePod2; PodRemoved examplePod1] [examplePod2])
    as (g&n&Hr&Hp&_); [vm_compute; reflexivity|].
  exists g, n. split; [exact Hr|exact Hp].
Defined.

Definition exampleInfo : NodeInfo := (@NewNodeInfo exampleLabels 0 []).2.

Lemma add_then_remove_pod_witness :
  exists n', RemovePod (@AddPod exampleLabels 1 exampleInfo examplePod1).1
    (@AddPod exampleLabels 1 exampleInfo examplePod1).2 examplePod1 = (Ok tt, (3, n')) /\
  Requested n' ≡ emptyResource.
Proof.
  destruct (@add_then_remove_pod exampleLabels 1 exampleInfo examplePod1) as (n'&Hr&_&_&_&Hq&_).
  - apply accounted_NewNodeInfo.
  - discriminate.
  - apply not_elem_of_nil.
  - apply portsWf_empty.
  - intros x Hx _. by apply not_elem_of_nil in Hx.
  - split_and!; [vm_compute; split; discriminate..|]. intros name. vm_compute. split; discriminate.
  - exists n'. split; [exact Hr|exact Hq].
Defined.

Lemma remove_missing_pod_witness :
  RemovePod 1 exampleInfo examplePod1 = (Panic, (1, exampleInfo)).
Proof.
  apply (@remove_missing_pod exampleLabels 1 exampleInfo examplePod1).
  - apply accounted_NewNodeInfo.
  - apply not_elem_of_nil.
Defined.

Lemma pod_request_value_witness : dimOf DimCPU (podRequest examplePod2) = 600.
Proof.
  apply (pod_request_value DimCPU examplePod2).
  - exact I.
  - repeat constructor; vm_compute; discriminate.
  - vm_compute. discriminate.
  - vm_compute. discriminate.
Defined.
