(* ===== verification/NodeTree.v ===== *)
(** * The node tree

    [scheduler/internal/cache/node_tree.go]: the names of the nodes grouped by zone,
    and the round robin iterator over the zones.  The zone of a node is
    [GetZoneKey] of [scheduler/helper/node.go], a class here: the theorems hold for
    every zone function, and [codeZoneKey] is the one of the code. *)
From S2P Require Import Prelude Api.

Class ZoneKey : Type := GetZoneKey : option Node -> string.

(** [GetZoneKey] of the program: every node is in the zone with the empty name. *)
#[export] Instance codeZoneKey : ZoneKey := fun _ => "".

Record nodeArray := { na_nodes : list string; lastIndex : nat }.

Record nodeTree := {
  tree : gmap string nodeArray;
  zones : list string;
  zoneIndex : nat;
  numNodes : Z
}.

Definition emptyTree : nodeTree :=
  {| tree := ∅; zones := []; zoneIndex := 0; numNodes := 0 |}.

(** [nodeArray.next]: the name, whether the array is exhausted, the array after. *)
Definition arrayNext (na : nodeArray) : string * bool * nodeArray :=
  match na_nodes na with
  | [] => ("", false, na)
  | _ =>
      match na_nodes na !! lastIndex na with
      | None => ("", true, na)
      | Some nodeName => (nodeName, false, {| na_nodes := na_nodes na; lastIndex := S (lastIndex na) |})
      end
  end.

Definition setArray (nt : nodeTree) (zone : string) (na : nodeArray) : nodeTree :=
  {| tree := <[zone := na]> (tree nt); zones := zones nt; zoneIndex := zoneIndex nt; numNodes := numNodes nt |}.

Definition setZoneIndex (nt : nodeTree) (i : nat) : nodeTree :=
  {| tree := tree nt; zones := zones nt; zoneIndex := i; numNodes := numNodes nt |}.

(** The slice without the first element equal to [x]. *)
Definition removeFirst (x : string) (l : list string) : list string :=
  match list_find (eq x) l with
  | Some (i, _) => take i l ++ drop (S i) l
  | None => l
  end.

Inductive treeError := NodeNotFound (node zone : string).
#[export] Instance treeError_eq : EqDecision treeError.
Proof. solve_decision. Defined.

Section NodeTree.
Context `{ZoneKey}.

Definition addNode (nt : nodeTree) (n : Node) : nodeTree :=
  let zone := GetZoneKey (Some n) in
  match tree nt !! zone with
  | Some na =>
      if decide (node_Name n ∈ na_nodes na) then nt
      else
        {| tree := <[zone := {| na_nodes := na_nodes na ++ [node_Name n]; lastIndex := lastIndex na |}]> (tree nt);
           zones := zones nt; zoneIndex := zoneIndex nt; numNodes := numNodes nt + 1 |}
  | None =>
      {| tree := <[zone := {| na_nodes := [node_Name n]; lastIndex := 0 |}]> (tree nt);
         zones := zones nt ++ [zone]; zoneIndex := zoneIndex nt; numNodes := numNodes nt + 1 |}
  end.

Definition newNodeTree (nodes : list Node) : nodeTree := foldl addNode emptyTree nodes.

Definition removeZone (nt : nodeTree) (zone : string) : nodeTree :=
  {| tree := delete zone (tree nt); zones := removeFirst zone (zones nt);
     zoneIndex := zoneIndex nt; numNodes := numNodes nt |}.

(** [removeNode]; a nil node is dereferenced on every path. *)
Definition removeNode (nt : nodeTree) (n : option Node) : result treeError unit * nodeTree :=
  let zone := GetZoneKey n in
  match n with
  | None => (Panic, nt)
  | Some n =>
      match tree nt !! zone with
      | Some na =>
          if decide (node_Name n ∈ na_nodes na) then
            let na' := {| na_nodes := removeFirst (node_Name n) (na_nodes na); lastIndex := lastIndex na |} in
            let nt1 := setArray nt zone na' in
            let nt2 := if decide (na_nodes na' = []) then removeZone nt1 zone else nt1 in
            (Ok tt, {| tree := tree nt2; zones := zones nt2; zoneIndex := zoneIndex nt2;
                       numNodes := numNodes nt2 - 1 |})
          else (Err (NodeNotFound (node_Name n) zone), nt)
      | None => (Err (NodeNotFound (node_Name n) zone), nt)
      end
  end.

Definition updateNode (nt : nodeTree) (old : option Node) (new : Node) : result treeError unit * nodeTree :=
  let oldZone := match old with None => "" | Some _ => GetZoneKey old end in
  let newZone := GetZoneKey (Some new) in
  if decide (oldZone = newZone) then (Ok tt, nt)
  else
    match removeNode nt old with
    | (Panic, nt') => (Panic, nt')
    | (_, nt') => (Ok tt, addNode nt' new)
    end.
End NodeTree.

Definition resetExhausted (nt : nodeTree) : nodeTree :=
  {| tree := (fun na => {| na_nodes := na_nodes na; lastIndex := 0 |}) <$> tree nt;
     zones := zones nt; zoneIndex := 0; numNodes := numNodes nt |}.

(** The [for] loop of [next]: [None] when [fuel] iterations are not enough. *)
Fixpoint nextLoop (fuel : nat) (numExhaustedZones : nat) (nt : nodeTree)
    : option (result Empty_set string * nodeTree) :=
  match fuel with
  | 0 => None
  | S fuel =>
      let i := if (length (zones nt) <=? zoneIndex nt)%nat then 0 else zoneIndex nt in
      match zones nt !! i with
      | None => Some (Panic, nt)
      | Some zone =>
          let nt1 := setZoneIndex nt (S i) in
          match tree nt1 !! zone with
          | None => Some (Panic, nt1)
          | Some na =>
              let '(nodeName, exhausted, na') := arrayNext na in
              if exhausted : bool then
                let nt2 := setArray nt1 zone na' in
                let numExhaustedZones := S numExhaustedZones in
                if (length (zones nt2) <=? numExhaustedZones)%nat
                then nextLoop fuel numExhaustedZones (resetExhausted nt2)
                else nextLoop fuel numExhaustedZones nt2
              else Some (Ok nodeName, setArray nt1 zone na')
          end
      end
  end.

(** One iteration per zone and one more are enough, see [nextLoop_total]. *)
Definition next (nt : nodeTree) : option (result Empty_set string * nodeTree) :=
  match zones nt with
  | [] => Some (Ok "", nt)
  | _ => nextLoop (S (length (zones nt))) 0 nt
  end.

(** [n] calls of [next]; [None] when one of them does not return a name. *)
Fixpoint nextN (n : nat) (nt : nodeTree) : option (list string * nodeTree) :=
  match n with
  | 0 => Some ([], nt)
  | S n =>
      match next nt with
      | Some (Ok name, nt') => '(names, nt'') ← nextN n nt'; Some (name :: names, nt'')
      | _ => None
      end
  end.

(** ** The invariant and the abstract contents *)
Record treeInv (nt : nodeTree) : Prop := {
  inv_zones : NoDup (zones nt);
  inv_dom z : z ∈ zones nt <-> is_Some (tree nt !! z);
  inv_nonempty z na : tree nt !! z = Some na -> na_nodes na <> [];
  inv_names z na : tree nt !! z = Some na -> NoDup (na_nodes na);
  inv_count : numNodes nt = sumOver (fun z => Z.of_nat (length (from_option na_nodes [] (tree nt !! z)))) (zones nt)
}.

Definition namesIn (nt : nodeTree) (z : string) : list string := from_option na_nodes [] (tree nt !! z).
Definition leftIn (nt : nodeTree) (z : string) : list string :=
  from_option (fun na => drop (lastIndex na) (na_nodes na)) [] (tree nt !! z).

(** All names with their zone, and those the iterator has still to return. *)
Definition tagged (f : string -> list string) (zs : list string) : list (string * string) :=
  zs ≫= fun z => (z,.) <$> f z.
Definition allNodes (nt : nodeTree) : list (string * string) := tagged (namesIn nt) (zones nt).
Definition remaining (nt : nodeTree) : list (string * string) := tagged (leftIn nt) (zones nt).

Lemma tagged_cons f z zs : tagged f (z :: zs) = ((z,.) <$> f z) ++ tagged f zs.
Proof. done. Qed.

Lemma tagged_ext f g zs : (forall z, z ∈ zs -> f z = g z) -> tagged f zs = tagged g zs.
Proof.
  induction zs as [|z zs IH]; intros Hfg; [done|]. rewrite !tagged_cons.
  rewrite Hfg by set_solver. f_equal. apply IH. set_solver.
Qed.

Lemma elem_of_tagged f zs z x : (z, x) ∈ tagged f zs <-> z ∈ zs /\ x ∈ f z.
Proof.
  unfold tagged. rewrite list_elem_of_bind. split.
  - intros (z'&(x'&[= -> ->]&Hx)%list_elem_of_fmap&Hz). done.
  - intros [Hz Hx]. exists z. split; [|done]. by apply list_elem_of_fmap_2.
Qed.

#[export] Instance tagged_Permutation f : Proper ((≡ₚ) ==> (≡ₚ)) (tagged f).
Proof. intros l k Hlk. unfold tagged. by rewrite Hlk. Qed.

(** Changing the names of one zone. *)
Lemma tagged_update f g zs z x :
  NoDup zs -> z ∈ zs -> f z ≡ₚ x :: g z -> (forall z', z' <> z -> f z' = g z') ->
  tagged f zs ≡ₚ (z, x) :: tagged g zs.
Proof.
  intros Hnd Hz Hfz Hfg. apply elem_of_Permutation in Hz as [k Hk]. rewrite Hk in Hnd |- *.
  apply NoDup_cons in Hnd as [Hz Hnd]. rewrite !tagged_cons, Hfz, (tagged_ext f g k) by (intros z' ?; apply Hfg; set_solver). done.
Qed.

Lemma tagged_length f zs :
  Z.of_nat (length (tagged f zs)) = sumOver (fun z => Z.of_nat (length (f z))) zs.
Proof.
  induction zs as [|z zs IH]; [done|]. rewrite tagged_cons. simpl. rewrite length_app, length_fmap. lia.
Qed.

Lemma NoDup_tagged f zs : NoDup zs -> (forall z, z ∈ zs -> NoDup (f z)) -> NoDup (tagged f zs).
Proof.
  induction 1 as [|z zs Hz Hzs IH]; intros Hf; [constructor|].
  rewrite tagged_cons. apply NoDup_app. split_and!.
  - apply (NoDup_fmap_2 _). apply Hf. set_solver.
  - intros [z' x] (x'&[= -> ->]&_)%list_elem_of_fmap. rewrite elem_of_tagged. by intros [? _].
  - apply IH. intros z' ?. apply Hf. set_solver.
Qed.

Lemma removeFirst_Permutation x l : x ∈ l -> l ≡ₚ x :: removeFirst x l.
Proof.
  intros Hx. unfold removeFirst. destruct (list_find (eq x) l) as [[i y]|] eqn:Hf.
  - apply list_find_Some in Hf as (Hi&<-&_). rewrite <- (take_drop_middle l i x Hi) at 1.
    by rewrite Permutation_middle.
  - apply list_find_None in Hf. rewrite list.Forall_forall in Hf. by destruct (Hf x).
Qed.

Section TreeInvariant.
Implicit Types nt : nodeTree.

Lemma numNodes_length nt : treeInv nt -> numNodes nt = Z.of_nat (length (allNodes nt)).
Proof. intros Hi. unfold allNodes. by rewrite tagged_length, (inv_count _ Hi). Qed.

Lemma allNodes_NoDup nt : treeInv nt -> NoDup (allNodes nt).
Proof.
  intros Hi. apply NoDup_tagged; [apply Hi|]. intros z [na Hna]%(inv_dom _ Hi).
  unfold namesIn. rewrite Hna. by eapply inv_names.
Qed.

Lemma treeInv_intro nt :
  NoDup (zones nt) -> (forall z, z ∈ zones nt <-> is_Some (tree nt !! z)) ->
  (forall z na, tree nt !! z = Some na -> na_nodes na <> [] /\ NoDup (na_nodes na)) ->
  numNodes nt = Z.of_nat (length (allNodes nt)) -> treeInv nt.
Proof.
  intros Hz Hd Hn Hc. split; try done.
  - intros z na Hna. by apply (Hn z).
  - intros z na Hna. by apply (Hn z).
  - rewrite Hc. apply tagged_length.
Qed.

Lemma treeInv_empty : treeInv emptyTree.
Proof.
  split; simpl; try done; try apply NoDup_nil_2.
  intros z. rewrite lookup_empty. split; [set_solver|by intros []].
Qed.

Lemma namesIn_None nt z : tree nt !! z = None -> namesIn nt z = [].
Proof. intros Hz. unfold namesIn. by rewrite Hz. Qed.

(** Only the shape matters: the positions of the iterator are free. *)
Definition sameShape nt nt' : Prop :=
  zones nt' = zones nt /\ numNodes nt' = numNodes nt /\ forall z, na_nodes <$> tree nt' !! z = na_nodes <$> tree nt !! z.

#[export] Instance sameShape_preorder : PreOrder sameShape.
Proof.
  split; [done|].
  intros n1 n2 n3 (?&?&Hs) (?&?&Hs'). split_and!; try congruence.
Qed.

Lemma sameShape_names nt nt' z : sameShape nt nt' -> namesIn nt' z = namesIn nt z.
Proof.
  intros (_&_&Hs). specialize (Hs z). unfold namesIn.
  destruct (tree nt' !! z), (tree nt !! z); simplify_eq/=; done.
Qed.

Lemma sameShape_all nt nt' : sameShape nt nt' -> allNodes nt' = allNodes nt.
Proof.
  intros Hs. unfold allNodes. rewrite (proj1 Hs).
  apply tagged_ext. intros z _. by apply sameShape_names.
Qed.

Lemma sameShape_inv nt nt' : sameShape nt nt' -> treeInv nt -> treeInv nt'.
Proof.
  intros Hsame [Hz Hd He Hn Hc]. pose proof Hsame as (Hzs&Hnum&Hs).
  assert (Hfrom : forall z na', tree nt' !! z = Some na' -> exists na, tree nt !! z = Some na /\ na_nodes na = na_nodes na').
  { intros z na' Hna. specialize (Hs z). rewrite Hna in Hs. simpl in Hs. symmetry in Hs.
    apply fmap_Some in Hs as (na&?&?). by exists na. }
  split.
  - by rewrite Hzs.
  - intros z. rewrite Hzs, Hd. specialize (Hs z).
    destruct (tree nt !! z), (tree nt' !! z); simplify_eq/=; split; intros []; eauto; done.
  - intros z na' (na&Hna&<-)%Hfrom. by eapply He.
  - intros z na' (na&Hna&<-)%Hfrom. by eapply Hn.
  - rewrite Hnum, Hc, Hzs. apply sumOver_ext. intros z _.
    fold (namesIn nt z) (namesIn nt' z). by rewrite (sameShape_names _ _ _ Hsame).
Qed.
End TreeInvariant.

(** ** Adding and removing names *)
Section TreeOps.
Context `{ZoneKey}.
Implicit Types (nt : nodeTree) (n : Node).

Definition nodeTag n : string * string := (GetZoneKey (Some n), node_Name n).

Lemma tree_lookup_namesIn nt z na : tree nt !! z = Some na -> namesIn nt z = na_nodes na.
Proof. intros Hz. unfold namesIn. by rewrite Hz. Qed.

Lemma elem_of_allNodes nt z x : treeInv nt -> (z, x) ∈ allNodes nt <-> x ∈ namesIn nt z.
Proof.
  intros Hi. unfold allNodes. rewrite elem_of_tagged. split; [by intros [_ ?]|].
  intros Hx. split; [|done]. apply (inv_dom _ Hi). unfold namesIn in Hx.
  destruct (tree nt !! z); [by eexists|]. by apply not_elem_of_nil in Hx.
Qed.

Lemma addNode_present nt n : treeInv nt -> nodeTag n ∈ allNodes nt -> addNode nt n = nt.
Proof.
  intros Hi Hin. apply elem_of_allNodes in Hin; [|done]. unfold addNode, namesIn in *.
  destruct (tree nt !! GetZoneKey (Some n)); [by rewrite decide_True|].
  by apply not_elem_of_nil in Hin.
Qed.

Lemma addNode_new nt n :
  treeInv nt -> nodeTag n ∉ allNodes nt ->
  treeInv (addNode nt n) /\ allNodes (addNode nt n) ≡ₚ nodeTag n :: allNodes nt.
Proof.
  intros Hi Hnot. unfold nodeTag in *. rewrite elem_of_allNodes in Hnot by done.
  set (z := GetZoneKey (Some n)) in *.
  assert (Hall : allNodes (addNode nt n) ≡ₚ (z, node_Name n) :: allNodes nt).
  { unfold addNode. fold z. destruct (tree nt !! z) as [na|] eqn:Hz.
    - rewrite (tree_lookup_namesIn _ _ _ Hz) in Hnot. rewrite decide_False by done.
      unfold allNodes. cbn [zones]. apply tagged_update; [apply Hi|apply Hi; by eexists| |].
      + unfold namesIn. cbn [tree]. rewrite lookup_insert_eq, Hz. simpl.
        by rewrite <- Permutation_cons_append.
      + intros z' Hne. unfold namesIn. cbn [tree]. by rewrite lookup_insert_ne.
    - assert (Hzn : z ∉ zones nt) by (rewrite (inv_dom _ Hi), Hz; by intros []).
      unfold allNodes. cbn [zones].
      etransitivity; [apply tagged_Permutation; symmetry; apply Permutation_cons_append|].
      rewrite tagged_cons. unfold namesIn at 1. cbn [tree]. rewrite lookup_insert_eq. simpl.
      erewrite (tagged_ext _ _ (zones nt)); [done|].
      intros z' Hz'. unfold namesIn. simpl. rewrite lookup_insert_ne; [done|]. set_solver. }
  split; [|done]. assert (Hlen := Permutation_length Hall). revert Hlen. clear Hall.
  pose proof (numNodes_length _ Hi) as Hnum.
  unfold addNode. fold z. destruct (tree nt !! z) as [na|] eqn:Hz.
  - rewrite (tree_lookup_namesIn _ _ _ Hz) in Hnot. rewrite decide_False by done.
    intros Hlen. apply treeInv_intro; [apply Hi| | |rewrite Hlen; simpl; lia]; cbn [zones tree].
    + intros z'. rewrite (inv_dom _ Hi), lookup_insert_is_Some'.
      split; [tauto|]. intros [->|?]; [by eexists|done].
    + intros z' na'. rewrite lookup_insert_Some. intros [[_ <-]|[_ ?]]; [|split; by eapply Hi].
      simpl. split; [by destruct (na_nodes na)|].
      rewrite <- Permutation_cons_append. constructor; [done|by eapply Hi].
  - assert (Hzn : z ∉ zones nt) by (rewrite (inv_dom _ Hi), Hz; by intros []).
    intros Hlen. apply treeInv_intro; [| | |rewrite Hlen; simpl; lia]; cbn [zones tree].
    + rewrite <- Permutation_cons_append. constructor; [done|apply Hi].
    + intros z'. rewrite elem_of_app, (inv_dom _ Hi), lookup_insert_is_Some', list_elem_of_singleton.
      split; intros [?|?]; auto.
    + intros z' na'. rewrite lookup_insert_Some. intros [[_ <-]|[_ ?]]; [|split; by eapply Hi].
      split; [done|apply NoDup_singleton].
Qed.

Lemma removeNode_absent nt n :
  treeInv nt -> nodeTag n ∉ allNodes nt ->
  removeNode nt (Some n) = (Err (NodeNotFound (node_Name n) (GetZoneKey (Some n))), nt).
Proof.
  intros Hi Hnot. unfold nodeTag in Hnot. rewrite elem_of_allNodes in Hnot by done.
  unfold removeNode. destruct (tree nt !! _) as [na|] eqn:Hz; [|done].
  rewrite (tree_lookup_namesIn _ _ _ Hz) in Hnot. by rewrite decide_False.
Qed.

Lemma removeNode_present nt n :
  treeInv nt -> nodeTag n ∈ allNodes nt ->
  exists nt', removeNode nt (Some n) = (Ok tt, nt') /\ treeInv nt' /\
    allNodes nt ≡ₚ nodeTag n :: allNodes nt'.
Proof.
  intros Hi Hin. unfold nodeTag in *. apply elem_of_allNodes in Hin; [|done].
  unfold removeNode. set (z := GetZoneKey (Some n)) in *.
  unfold namesIn in Hin. destruct (tree nt !! z) as [na|] eqn:Hz; [|by apply not_elem_of_nil in Hin].
  simpl in Hin. rewrite decide_True by done. eexists. split; [done|].
  assert (Hzin : z ∈ zones nt) by (apply Hi; by eexists).
  pose proof (removeFirst_Permutation _ _ Hin) as Hrem.
  cbn [na_nodes]. set (rest := removeFirst (node_Name n) (na_nodes na)) in *.
  assert (Hrest : NoDup rest).
  { pose proof (inv_names _ Hi _ _ Hz) as Hnd. rewrite Hrem in Hnd. by apply NoDup_cons in Hnd as [_ ?]. }
  pose proof (numNodes_length _ Hi) as Hnum.
  case_decide as Hempty.
  - pose proof (removeFirst_Permutation _ _ Hzin) as Hzs.
    assert (Hnd : NoDup (z :: removeFirst z (zones nt))) by (rewrite <- Hzs; apply Hi).
    apply NoDup_cons in Hnd as [Hznot Hnd].
    match goal with |- treeInv ?t /\ _ => set (t' := t) end.
    assert (Hall : allNodes nt ≡ₚ (z, node_Name n) :: allNodes t').
    { unfold allNodes. rewrite Hzs, tagged_cons.
      unfold namesIn at 1. rewrite Hz. simpl. rewrite Hrem, Hempty. simpl.
      unfold t'. cbn [zones removeZone setArray]. constructor.
      erewrite tagged_ext; [done|]. intros z' Hz'. unfold namesIn. cbn [tree removeZone setArray].
      rewrite lookup_delete_ne, lookup_insert_ne by (intros ->; done). done. }
    split; [|done].
    apply treeInv_intro; [done|unfold t'; cbn [zones tree removeZone setArray]..|].
    + intros z'. rewrite lookup_delete_is_Some, lookup_insert_is_Some'.
      assert (Hz' : z' ∈ zones nt <-> z' = z \/ z' ∈ removeFirst z (zones nt))
        by by rewrite <- elem_of_cons, <- Hzs.
      rewrite (inv_dom _ Hi) in Hz'. split.
      * intros Hin'. assert (z <> z') by (intros ->; done). tauto.
      * intros [? [?|?%Hz']]; [done|]. destruct_or!; congruence.
    + intros z' na'. rewrite lookup_delete_Some, lookup_insert_Some.
      intros [? [[? _]|[_ ?]]]; [done|]. split; by eapply Hi.
    + apply Permutation_length in Hall. simpl in Hall. change (numNodes t') with (numNodes nt - 1)%Z. lia.
  - match goal with |- treeInv ?t /\ _ => set (t' := t) end.
    assert (Hall : allNodes nt ≡ₚ (z, node_Name n) :: allNodes t').
    { unfold allNodes. unfold t' at 2. cbn [zones setArray]. apply tagged_update; [apply Hi|done| |].
      - unfold namesIn, t'. cbn [tree setArray]. by rewrite lookup_insert_eq, Hz.
      - intros z' Hne. unfold namesIn, t'. cbn [tree setArray]. by rewrite lookup_insert_ne. }
    split; [|done].
    apply treeInv_intro; [apply Hi|unfold t'; cbn [zones tree setArray]..|].
    + intros z'. rewrite (inv_dom _ Hi), lookup_insert_is_Some'.
      split; [tauto|]. intros [->|?]; [by eexists|done].
    + intros z' na'. rewrite lookup_insert_Some. intros [[_ <-]|[_ ?]]; [done|]. split; by eapply Hi.
    + apply Permutation_length in Hall. simpl in Hall. change (numNodes t') with (numNodes nt - 1)%Z. lia.
Qed.
End TreeOps.

(** ** The iterator *)
Section Iterator.
Implicit Types nt : nodeTree.

(** The zone the next iteration looks at. *)
Definition start nt : nat := if (length (zones nt) <=? zoneIndex nt)%nat then 0 else zoneIndex nt.

Lemma start_lt nt : zones nt <> [] -> start nt < length (zones nt).
Proof.
  intros Hne. unfold start. destruct (Nat.leb_spec (length (zones nt)) (zoneIndex nt)); [|done].
  destruct (zones nt); simpl; [done|lia].
Qed.

Lemma arrayNext_cases na :
  na_nodes na <> [] ->
  match drop (lastIndex na) (na_nodes na) with
  | [] => arrayNext na = ("", true, na)
  | x :: l => arrayNext na = (x, false, {| na_nodes := na_nodes na; lastIndex := S (lastIndex na) |}) /\
              drop (S (lastIndex na)) (na_nodes na) = l
  end.
Proof.
  intros Hne. unfold arrayNext. destruct (na_nodes na !! lastIndex na) as [x|] eqn:Hx.
  - rewrite (drop_S _ _ _ Hx). by destruct (na_nodes na).
  - rewrite drop_ge by by apply lookup_ge_None_1. by destruct (na_nodes na).
Qed.

Lemma sameShape_setZoneIndex nt i : sameShape nt (setZoneIndex nt i).
Proof. done. Qed.

Lemma sameShape_reset nt : sameShape nt (resetExhausted nt).
Proof.
  split_and!; [done..|]. intros z. cbn [tree resetExhausted]. rewrite lookup_fmap.
  by destruct (tree nt !! z).
Qed.

Lemma remaining_reset nt : remaining (resetExhausted nt) = allNodes nt.
Proof.
  apply tagged_ext. intros z _. unfold leftIn, namesIn. cbn [tree resetExhausted].
  rewrite lookup_fmap. by destruct (tree nt !! z).
Qed.

Lemma remaining_setZoneIndex nt i : remaining (setZoneIndex nt i) = remaining nt.
Proof. done. Qed.

Section Step.
Context (nt : nodeTree) (Hi : treeInv nt) (z : string) (Hz : zones nt !! start nt = Some z).

Lemma zone_array : exists na, tree nt !! z = Some na /\ na_nodes na <> [].
Proof using Hi Hz.
  destruct (proj1 (inv_dom _ Hi z)) as [na Hna]; [by eapply list_elem_of_lookup_2|].
  exists na. split; [done|]. by eapply inv_nonempty.
Qed.

Lemma step_exhausted fuel c :
  leftIn nt z = [] ->
  nextLoop (S fuel) c nt =
  if (length (zones nt) <=? S c)%nat
  then nextLoop fuel (S c) (resetExhausted (setZoneIndex nt (S (start nt))))
  else nextLoop fuel (S c) (setZoneIndex nt (S (start nt))).
Proof using Hi Hz.
  intros Hl. destruct zone_array as (na&Hna&Hne). cbn [nextLoop]. fold (start nt).
  rewrite Hz. cbn [tree setZoneIndex]. rewrite Hna.
  unfold leftIn in Hl. rewrite Hna in Hl. simpl in Hl.
  pose proof (arrayNext_cases na Hne) as Hc. rewrite Hl in Hc. rewrite Hc.
  assert (Hset : setArray (setZoneIndex nt (S (start nt))) z na = setZoneIndex nt (S (start nt))).
  { unfold setArray, setZoneIndex. cbn. by rewrite insert_id. }
  by rewrite Hset.
Qed.

Lemma step_found fuel c :
  leftIn nt z <> [] ->
  exists x nt', nextLoop (S fuel) c nt = Some (Ok x, nt') /\ sameShape nt nt' /\
    remaining nt ≡ₚ (z, x) :: remaining nt' /\ x ∈ namesIn nt z.
Proof using Hi Hz.
  intros Hl. destruct zone_array as (na&Hna&Hne). cbn [nextLoop]. fold (start nt).
  rewrite Hz. cbn [tree setZoneIndex]. rewrite Hna.
  unfold leftIn in Hl. rewrite Hna in Hl. simpl in Hl.
  pose proof (arrayNext_cases na Hne) as Hc.
  destruct (drop (lastIndex na) (na_nodes na)) as [|x l] eqn:Hd; [done|]. destruct Hc as [-> Hl'].
  eexists x, _. split; [done|]. split_and!.
  - split_and!; [done..|]. intros z'. cbn [tree setArray setZoneIndex].
    destruct (decide (z = z')) as [<-|]; [by rewrite lookup_insert_eq, Hna|by rewrite lookup_insert_ne].
  - apply tagged_update; [apply Hi|by eapply list_elem_of_lookup_2| |].
    + unfold leftIn. cbn [tree setArray setZoneIndex]. rewrite lookup_insert_eq, Hna. simpl.
      by rewrite Hd, Hl'.
    + intros z' Hne'. unfold leftIn. cbn [tree setArray setZoneIndex]. by rewrite lookup_insert_ne.
  - unfold namesIn. rewrite Hna. simpl. rewrite <- (take_drop (lastIndex na) (na_nodes na)), Hd. set_solver.
Qed.
End Step.

Lemma start_setZoneIndex nt :
  zones nt <> [] -> start (setZoneIndex nt (S (start nt))) = S (start nt) mod length (zones nt).
Proof.
  intros Hne. apply start_lt in Hne. unfold start at 1. cbn [zones zoneIndex setZoneIndex].
  destruct (Nat.leb_spec (length (zones nt)) (S (start nt))).
  - replace (S (start nt)) with (length (zones nt)) by lia. by rewrite Nat.Div0.mod_same.
  - by rewrite Nat.mod_small.
Qed.

(** With [d] exhausted zones before the next one that is not, [d + 1] iterations
    return a name of that zone. *)
Lemma nextLoop_finds d : forall nt c fuel z,
  treeInv nt -> zones nt <> [] ->
  zones nt !! ((start nt + d) mod length (zones nt)) = Some z -> leftIn nt z <> [] ->
  (forall d' z', d' < d -> zones nt !! ((start nt + d') mod length (zones nt)) = Some z' -> leftIn nt z' = []) ->
  c + d < length (zones nt) -> d < fuel ->
  exists x nt', nextLoop fuel c nt = Some (Ok x, nt') /\ sameShape nt nt' /\
    remaining nt ≡ₚ (z, x) :: remaining nt' /\ x ∈ namesIn nt z.
Proof.
  induction d as [|d IH]; intros nt c fuel z Hi Hne Hz Hl Hbefore Hc Hfuel;
    (destruct fuel as [|fuel]; [lia|]); pose proof (start_lt nt Hne) as Hs.
  - rewrite Nat.add_0_r, Nat.mod_small in Hz by done. by apply step_found.
  - destruct (lookup_lt_is_Some_2 (zones nt) (start nt) Hs) as [z0 Hz0].
    rewrite (step_exhausted nt Hi z0 Hz0); cycle 1.
    { apply (Hbefore 0 z0); [lia|]. by rewrite Nat.add_0_r, Nat.mod_small. }
    destruct (Nat.leb_spec (length (zones nt)) (S c)); [lia|].
    set (nt1 := setZoneIndex nt (S (start nt))).
    assert (Hmod : forall e, (start nt1 + e) mod length (zones nt) = (start nt + S e) mod length (zones nt)).
    { intros e. unfold nt1. rewrite start_setZoneIndex, Nat.Div0.add_mod_idemp_l by done.
      f_equal. lia. }
    assert (Hi1 : treeInv nt1) by (eapply sameShape_inv; [apply sameShape_setZoneIndex|done]).
    destruct (IH nt1 (S c) fuel z) as (x&nt'&->&Hsame&Hrem); try done; change (zones nt1) with (zones nt).
    + by rewrite Hmod.
    + intros d' z' Hd'. rewrite Hmod. apply Hbefore. lia.
    + lia.
    + lia.
    + by exists x, nt'.
Qed.

Lemma elem_of_remaining_zone nt z :
  treeInv nt -> leftIn nt z <> [] ->
  exists d, d < length (zones nt) /\ zones nt !! ((start nt + d) mod length (zones nt)) = Some z.
Proof.
  intros Hi Hl. assert (Hz : z ∈ zones nt).
  { apply Hi. unfold leftIn in Hl. destruct (tree nt !! z); [by eexists|done]. }
  apply list_elem_of_lookup in Hz as [i Hz]. pose proof (lookup_lt_Some _ _ _ Hz) as Hlt.
  assert (Hs : start nt < length (zones nt)) by (apply start_lt; by destruct (zones nt)).
  exists ((i + (length (zones nt) - start nt)) mod length (zones nt)).
  split; [apply Nat.mod_upper_bound; lia|].
  rewrite Nat.Div0.add_mod_idemp_r.
  replace (start nt + (i + (length (zones nt) - start nt))) with (i + 1 * length (zones nt)) by lia.
  by rewrite Nat.Div0.mod_add, Nat.mod_small.
Qed.

Lemma zones_nonempty nt : remaining nt <> [] -> zones nt <> [].
Proof. intros Hr Hz. apply Hr. unfold remaining. by rewrite Hz. Qed.

Lemma next_remaining nt :
  treeInv nt -> remaining nt <> [] ->
  exists z x nt', next nt = Some (Ok x, nt') /\ sameShape nt nt' /\
    remaining nt ≡ₚ (z, x) :: remaining nt'.
Proof.
  intros Hi Hr. pose proof (zones_nonempty nt Hr) as Hne.
  assert (Hex : exists z, leftIn nt z <> []).
  { destruct (remaining nt) as [|[z x] l] eqn:Heq; [done|]. exists z. intros Hl.
    assert (Hin : (z, x) ∈ remaining nt) by (rewrite Heq; set_solver).
    apply elem_of_tagged in Hin as [_ Hin]. rewrite Hl in Hin. by apply not_elem_of_nil in Hin. }
  destruct Hex as [z Hl]. destruct (elem_of_remaining_zone nt z Hi Hl) as (d&Hd&Hz).
  revert z Hl Hz. induction (lt_wf d) as [d _ IH]. intros z Hl Hz.
  (* a smaller distance with a zone that is not exhausted, or none *)
  set (leftAt d' := from_option (leftIn nt) [] (zones nt !! ((start nt + d') mod length (zones nt)))).
  destruct (decide (Forall (fun d' => leftAt d' = []) (seq 0 d))) as [Hall|Hnall].
  - rewrite list.Forall_forall in Hall.
    destruct (nextLoop_finds d nt 0 (S (length (zones nt))) z) as (x&nt'&Hn&Hs&Hrem&_); try done; try lia.
    + intros d' z' Hd' Hz'. specialize (Hall d'). unfold leftAt in Hall. rewrite Hz' in Hall.
      apply Hall, elem_of_seq. lia.
    + exists z, x, nt'. split_and!; [|done..]. unfold next. by destruct (zones nt).
  - apply not_Forall_Exists in Hnall; [|apply _]. apply list.Exists_exists in Hnall as (d'&Hd'&Hnot).
    apply elem_of_seq in Hd'. unfold compose, leftAt in Hnot.
    destruct (zones nt !! ((start nt + d') mod length (zones nt))) as [z'|] eqn:Hz'; simpl in Hnot; [|done].
    by apply (IH d' ltac:(lia) ltac:(lia) z').
Qed.

(** The iterator returns every remaining name once. *)
Lemma nextN_remaining k : forall nt,
  treeInv nt -> k = length (remaining nt) ->
  exists names nt', nextN k nt = Some (names, nt') /\ sameShape nt nt' /\
    names ≡ₚ (remaining nt).*2 /\ remaining nt' = [].
Proof.
  induction k as [|k IH]; intros nt Hi Hk; simpl.
  - symmetry in Hk. apply nil_length_inv in Hk as Hr. exists [], nt. by rewrite Hr.
  - destruct (next_remaining nt Hi) as (z&x&nt1&->&Hs&Hr); [by intros Hr; rewrite Hr in Hk|].
    destruct (IH nt1) as (names&nt'&->&Hs'&Hp&Hr').
    + by eapply sameShape_inv.
    + apply Permutation_length in Hr. simpl in Hr. lia.
    + exists (x :: names), nt'. split_and!; try done.
      * by etransitivity.
      * by rewrite Hr, Hp.
Qed.

Lemma remaining_nil nt z : remaining nt = [] -> z ∈ zones nt -> leftIn nt z = [].
Proof.
  intros Hr Hz. destruct (leftIn nt z) as [|x l] eqn:Hl; [done|].
  assert (Hin : (z, x) ∈ remaining nt) by (apply elem_of_tagged; rewrite Hl; set_solver).
  rewrite Hr in Hin. by apply not_elem_of_nil in Hin.
Qed.

(** Even when all names were returned the loop ends: the iterator starts again. *)
Lemma nextLoop_restarts d : forall nt c fuel,
  treeInv nt -> zones nt <> [] -> remaining nt = [] -> c + S d = length (zones nt) -> S d < fuel ->
  exists x nt', nextLoop fuel c nt = Some (Ok x, nt') /\ sameShape nt nt'.
Proof.
  induction d as [|d IH]; intros nt c fuel Hi Hne Hr Hc Hfuel;
    (destruct fuel as [|fuel]; [lia|]); pose proof (start_lt nt Hne) as Hs;
    destruct (lookup_lt_is_Some_2 (zones nt) (start nt) Hs) as [z0 Hz0];
    pose proof (remaining_nil nt z0 Hr (list_elem_of_lookup_2 _ _ _ Hz0)) as Hl;
    rewrite (step_exhausted nt Hi z0 Hz0 _ _ Hl);
    destruct (Nat.leb_spec (length (zones nt)) (S c)); try lia.
  - set (nt1 := resetExhausted _). destruct fuel as [|fuel]; [lia|].
    assert (Hs1 : sameShape nt nt1) by apply sameShape_reset.
    pose proof (sameShape_inv _ _ Hs1 Hi) as Hi1.
    destruct (lookup_lt_is_Some_2 (zones nt1) (start nt1)) as [z1 Hz1]; [by apply start_lt|].
    destruct (step_found nt1 Hi1 z1 Hz1 fuel (S c)) as (x&nt'&Hn&Hs'&_).
    + assert (Hz : z1 ∈ zones nt1) by by eapply list_elem_of_lookup_2.
      apply (inv_dom _ Hi1) in Hz as [na1 Hna1]. pose proof (inv_nonempty _ Hi1 _ _ Hna1) as Hne1.
      unfold leftIn. rewrite Hna1. simpl. unfold nt1 in Hna1. cbn [tree resetExhausted] in Hna1.
      rewrite lookup_fmap in Hna1. apply fmap_Some in Hna1 as (na&_&->). done.
    + exists x, nt'. split; [done|]. by etransitivity.
  - set (nt1 := setZoneIndex nt (S (start nt))).
    assert (Hi1 : treeInv nt1) by (eapply sameShape_inv; [apply sameShape_setZoneIndex|done]).
    destruct (IH nt1 (S c) fuel) as (x&nt'&Hn&Hs'); try done; change (zones nt1) with (zones nt) in *; try lia.
    by exists x, nt'.
Qed.

Lemma next_total nt :
  treeInv nt -> exists x nt', next nt = Some (Ok x, nt') /\ sameShape nt nt'.
Proof.
  intros Hi. destruct (decide (remaining nt = [])) as [Hr|Hr].
  - unfold next. destruct (zones nt) as [|z zs] eqn:Hz; [by exists "", nt|].
    rewrite <- Hz. apply (nextLoop_restarts (length zs)); try done; rewrite Hz; simpl; done || lia.
  - destruct (next_remaining nt Hi Hr) as (z&x&nt'&Hn&Hs&_). by exists x, nt'.
Qed.
End Iterator.

(** ** Runs of the tree, and the set they compute *)
Inductive treeEvent :=
  | TreeAdd (n : Node)
  | TreeRemove (n : Node)
  | TreeUpdate (old new : Node)
  | TreeReset
  | TreeNext.

Section Runs.
Context `{ZoneKey}.

(** [None] when an operation panics or does not return. *)
Definition treeStep (nt : nodeTree) (e : treeEvent) : option nodeTree :=
  match e with
  | TreeAdd n => Some (addNode nt n)
  | TreeRemove n => match removeNode nt (Some n) with (Panic, _) => None | (_, nt') => Some nt' end
  | TreeUpdate old new => match updateNode nt (Some old) new with (Panic, _) => None | (_, nt') => Some nt' end
  | TreeReset => Some (resetExhausted nt)
  | TreeNext => match next nt with Some (Ok _, nt') => Some nt' | _ => None end
  end.

Definition tagsStep (tags : gset (string * string)) (e : treeEvent) : gset (string * string) :=
  match e with
  | TreeAdd n => {[ nodeTag n ]} ∪ tags
  | TreeRemove n => tags ∖ {[ nodeTag n ]}
  | TreeUpdate old new =>
      if decide (GetZoneKey (Some old) = GetZoneKey (Some new)) then tags
      else {[ nodeTag new ]} ∪ (tags ∖ {[ nodeTag old ]})
  | _ => tags
  end.

Definition runTree (nt : nodeTree) (es : list treeEvent) : option nodeTree :=
  foldl (fun o e => o ≫= fun nt => treeStep nt e) (Some nt) es.

Definition holds (nt : nodeTree) (tags : gset (string * string)) : Prop :=
  treeInv nt /\ forall t, t ∈ allNodes nt <-> t ∈ tags.

Lemma holds_sameShape nt nt' tags : sameShape nt nt' -> holds nt tags -> holds nt' tags.
Proof.
  intros Hs [Hi Ht]. split; [by eapply sameShape_inv|]. intros t. by rewrite (sameShape_all _ _ Hs).
Qed.

Lemma holds_add nt tags n : holds nt tags -> holds (addNode nt n) ({[ nodeTag n ]} ∪ tags).
Proof.
  intros [Hi Ht]. destruct (decide (nodeTag n ∈ allNodes nt)) as [Hin|Hin].
  - rewrite addNode_present by done. split; [done|]. apply Ht in Hin as Hin'.
    intros t. rewrite Ht. clear - Hin'. set_solver.
  - destruct (addNode_new nt n Hi Hin) as [Hi' Hp]. split; [done|].
    intros t. rewrite Hp, elem_of_cons, Ht. clear. set_solver.
Qed.

Lemma holds_remove nt tags n :
  holds nt tags ->
  exists r nt', removeNode nt (Some n) = (r, nt') /\ r <> Panic /\ holds nt' (tags ∖ {[ nodeTag n ]}).
Proof.
  intros [Hi Ht]. destruct (decide (nodeTag n ∈ allNodes nt)) as [Hin|Hin].
  - destruct (removeNode_present nt n Hi Hin) as (nt'&Hr&Hi'&Hp).
    exists (Ok tt), nt'. split; [done|]. split; [done|]. split; [done|].
    pose proof (allNodes_NoDup nt Hi) as Hnd. rewrite Hp in Hnd. apply NoDup_cons in Hnd as [Hnot _].
    intros t. rewrite elem_of_difference, elem_of_singleton, <- Ht, Hp, elem_of_cons.
    split; [|tauto]. intros Hin'. split; [by right|]. by intros ->.
  - eexists _, nt. split; [by apply removeNode_absent|]. split; [done|]. split; [done|].
    rewrite Ht in Hin. intros t. rewrite Ht. clear - Hin. set_solver.
Qed.

Lemma treeStep_holds nt tags e :
  holds nt tags -> exists nt', treeStep nt e = Some nt' /\ holds nt' (tagsStep tags e).
Proof.
  intros Hh. destruct e as [n|n|old new| |]; cbn [treeStep tagsStep].
  - eexists. split; [done|]. by apply holds_add.
  - destruct (holds_remove nt tags n Hh) as ([]&nt'&->&?&?); naive_solver.
  - unfold updateNode. case_decide as Hz; [by exists nt|].
    destruct (holds_remove nt tags old Hh) as ([]&nt'&->&?&?); try done;
      eexists; (split; [done|]); by apply holds_add.
  - eexists. split; [done|]. eapply holds_sameShape; [apply sameShape_reset|done].
  - destruct (next_total nt (proj1 Hh)) as (x&nt'&->&Hs). exists nt'. split; [done|].
    by eapply holds_sameShape.
Qed.

Lemma runTree_holds es : forall nt tags,
  holds nt tags -> exists nt', runTree nt es = Some nt' /\ holds nt' (foldl tagsStep tags es).
Proof.
  induction es as [|e es IH]; intros nt tags Hh; [by exists nt|].
  destruct (treeStep_holds nt tags e Hh) as (nt1&He&Hh1).
  unfold runTree. cbn [foldl]. bind_simpl. rewrite He. by apply IH.
Qed.

Lemma holds_empty : holds emptyTree ∅.
Proof. split; [apply treeInv_empty|]. intros t. split; [by intros ?%not_elem_of_nil|set_solver]. Qed.

Lemma holds_elements nt tags : holds nt tags -> allNodes nt ≡ₚ elements tags.
Proof.
  intros [Hi Ht]. apply NoDup_Permutation; [by apply allNodes_NoDup|apply NoDup_elements|].
  intros t. by rewrite elem_of_elements.
Qed.
End Runs.

(** ** Properties *)

(** After any sequence of additions, removals, updates and iterations the tree
    counts exactly the nodes that were added and not removed, and [numNodes] calls of
    [next] after [resetExhausted] return the name of each of them once, whatever the
    zones and the position of the iterator were: this is the loop of
    [UpdateSnapshot]. *)
Theorem node_tree_enumerates `{ZoneKey} (es : list treeEvent) :
  let tags := foldl tagsStep ∅ es in
  exists nt names nt',
    runTree emptyTree es = Some nt /\
    numNodes nt = Z.of_nat (size tags) /\
    nextN (Z.to_nat (numNodes nt)) (resetExhausted nt) = Some (names, nt') /\
    names ≡ₚ (elements tags).*2.
Proof.
  intros tags. destruct (runTree_holds es emptyTree ∅ holds_empty) as (nt&Hrun&Hh).
  pose proof (holds_elements nt _ Hh) as Hp. pose proof (numNodes_length nt (proj1 Hh)) as Hn.
  destruct (nextN_remaining (Z.to_nat (numNodes nt)) (resetExhausted nt)) as (names&nt'&Hnext&_&Hnames&_).
  - eapply sameShape_inv; [apply sameShape_reset|apply Hh].
  - rewrite remaining_reset. lia.
  - exists nt, names, nt'. split_and!; try done.
    + rewrite Hn, Hp. done.
    + by rewrite Hnames, remaining_reset, Hp.
Qed.

(** Every operation of the tree ends: after any sequence of operations the loop of
    [next] returns a name within one iteration per zone and one more, without a panic,
    and the names and the count are unchanged. *)
Theorem node_tree_next_terminates `{ZoneKey} (es : list treeEvent) :
  exists nt x nt', runTree emptyTree es = Some nt /\
    next nt = Some (Ok x, nt') /\ allNodes nt' = allNodes nt /\ numNodes nt' = numNodes nt /\
    (zones nt <> [] -> nextLoop (S (length (zones nt))) 0 nt = Some (Ok x, nt')).
Proof.
  destruct (runTree_holds es emptyTree ∅ holds_empty) as (nt&Hrun&Hh).
  destruct (next_total nt (proj1 Hh)) as (x&nt'&Hn&Hs).
  exists nt, x, nt'. split_and!; try done.
  - by apply sameShape_all.
  - by apply Hs.
  - intros Hz. unfold next in Hn. by destruct (zones nt).
Qed.
