(* ===== verification/CacheList.v ===== *)
(** * The list of node infos of the cache

    The doubly linked list of [scheduler/internal/cache/cache.go] and the map
    [nodes] into it.  The items live in a store addressed by locations, so that the
    pointers of the code are the pointers of the model; an unlinked item stays in
    the store, as garbage does. *)
From S2P Require Import Prelude Api NodeInfo.
Local Open Scope Z_scope.

Definition loc := positive.

Record nodeInfoListItem := { info : NodeInfo; next : option loc; prev : option loc }.

(** The fields [nodes] and [headNode] of the cache, with the store of the items. *)
Record nodeList := {
  items : gmap loc nodeInfoListItem;
  nodes : gmap string loc;
  headNode : option loc
}.

(** ** The linked list *)
Definition setInfoOf (i : NodeInfo) (it : nodeInfoListItem) : nodeInfoListItem :=
  {| info := i; next := next it; prev := prev it |}.
Definition setNext (n : option loc) (it : nodeInfoListItem) : nodeInfoListItem :=
  {| info := info it; next := n; prev := prev it |}.
Definition setPrev (p : option loc) (it : nodeInfoListItem) : nodeInfoListItem :=
  {| info := info it; next := next it; prev := p |}.

Definition nextOf (m : gmap loc nodeInfoListItem) (l : loc) : option loc := m !! l ≫= next.
Definition prevOf (m : gmap loc nodeInfoListItem) (l : loc) : option loc := m !! l ≫= prev.

Definition newNodeInfoListItem (ni : NodeInfo) : nodeInfoListItem :=
  {| info := ni; next := None; prev := None |}.

(** The two assignments that take an item out of its list. *)
Definition unlink (m : gmap loc nodeInfoListItem) (ni : loc) : gmap loc nodeInfoListItem :=
  let m1 := match prevOf m ni with None => m | Some p => alter (setNext (nextOf m ni)) p m end in
  match nextOf m1 ni with None => m1 | Some n => alter (setPrev (prevOf m1 ni)) n m1 end.

Definition moveNodeInfoToHead (name : string) (nl : nodeList) : nodeList :=
  match nodes nl !! name with
  | None => nl
  | Some ni =>
      if decide (headNode nl = Some ni) then nl
      else
        let m2 := unlink (items nl) ni in
        let m3 := match headNode nl with None => m2 | Some h => alter (setPrev (Some ni)) h m2 end in
        let m4 := alter (setNext (headNode nl)) ni m3 in
        {| items := alter (setPrev None) ni m4; nodes := nodes nl; headNode := Some ni |}
  end.

Definition removeNodeInfoFromList (name : string) (nl : nodeList) : nodeList :=
  match nodes nl !! name with
  | None => nl
  | Some ni =>
      let m2 := unlink (items nl) ni in
      {| items := m2;
         nodes := delete name (nodes nl);
         headNode := if decide (headNode nl = Some ni) then nextOf m2 ni else headNode nl |}
  end.

(** Allocates an item under [name]. *)
Definition insertItem (name : string) (ni : NodeInfo) (nl : nodeList) : nodeList :=
  let l := fresh (dom (items nl)) in
  {| items := <[l := newNodeInfoListItem ni]> (items nl);
     nodes := <[name := l]> (nodes nl); headNode := headNode nl |}.

Definition infoOf (nl : nodeList) (name : string) : option NodeInfo :=
  l ← nodes nl !! name; info <$> items nl !! l.

Definition setInfo (name : string) (i : NodeInfo) (nl : nodeList) : nodeList :=
  match nodes nl !! name with
  | None => nl
  | Some l => {| items := alter (setInfoOf i) l (items nl); nodes := nodes nl; headNode := headNode nl |}
  end.

(** ** Doubly linked lists

    A chain is the list of the locations from the head; [nextIn] and [prevIn] are the
    pointers that its items must hold. *)
Section Chain.
Implicit Types (l x y : loc) (ls : list loc) (m : gmap loc nodeInfoListItem).

Fixpoint nextIn ls y : option loc :=
  match ls with
  | [] => None
  | x :: ls => if decide (x = y) then head ls else nextIn ls y
  end.

Fixpoint prevAfter (p : option loc) ls y : option loc :=
  match ls with
  | [] => None
  | x :: ls => if decide (x = y) then p else prevAfter (Some x) ls y
  end.
Definition prevIn ls y : option loc := prevAfter None ls y.

Lemma nextIn_absent ls y : y ∉ ls -> nextIn ls y = None.
Proof. induction ls; simpl; [done|]. intros Hy. rewrite decide_False; set_solver. Qed.

Lemma prevAfter_absent p ls y : y ∉ ls -> prevAfter p ls y = None.
Proof. revert p. induction ls; intros p; simpl; [done|]. intros Hy. rewrite decide_False; set_solver. Qed.

Lemma nextIn_elem ls y x : nextIn ls y = Some x -> x ∈ ls.
Proof.
  induction ls as [|z ls IH]; simpl; [done|]. case_decide; [|set_solver].
  destruct ls; simpl; [done|]. intros [= ->]. set_solver.
Qed.

Lemma prevAfter_elem p ls y x : prevAfter p ls y = Some x -> Some x = p \/ x ∈ ls.
Proof.
  revert p. induction ls as [|z ls IH]; intros p; simpl; [done|].
  case_decide; [by left|]. intros [[= ->]|?]%IH; right; set_solver.
Qed.

(** The two pointers agree. *)
Lemma next_prev ls p x y :
  NoDup ls -> p <> Some x -> nextIn ls x = Some y <-> prevAfter p ls y = Some x.
Proof.
  revert p. induction ls as [|z ls IH]; intros p Hnd Hp; simpl; [done|].
  apply NoDup_cons in Hnd as [Hz Hnd]. repeat case_decide; subst.
  - split; [|congruence]. intros Hh. destruct ls as [|w ls]; [done|]. simplify_eq/=. set_solver.
  - destruct ls as [|w ls]; simpl; [done|]. case_decide; split; try congruence.
    intros [[= ->]|Hx]%prevAfter_elem; set_solver.
  - split; [|congruence]. intros Hy%nextIn_elem. done.
  - apply IH; congruence.
Qed.

Definition without x ls : list loc := filter (fun y => y <> x) ls.

Lemma without_absent x ls : x ∉ ls -> without x ls = ls.
Proof.
  intros Hx. unfold without. induction ls as [|z ls IH]; [done|].
  rewrite filter_cons_True, IH; set_solver.
Qed.

Lemma without_cons_eq x ls : x ∉ ls -> without x (x :: ls) = ls.
Proof. intros Hx. unfold without. rewrite filter_cons_False by (by intros []). by apply without_absent. Qed.

Lemma without_cons_ne x z ls : z <> x -> without x (z :: ls) = z :: without x ls.
Proof. intros Hz. unfold without. by rewrite filter_cons_True. Qed.

Lemma elem_of_without x y ls : y ∈ without x ls <-> y <> x /\ y ∈ ls.
Proof. unfold without. by rewrite list_elem_of_filter. Qed.

Lemma NoDup_without x ls : NoDup ls -> NoDup (without x ls).
Proof. apply NoDup_filter. Qed.

(** What taking [x] out does to the pointers. *)
Lemma head_without x ls :
  NoDup ls -> head (without x ls) = if decide (head ls = Some x) then nextIn ls x else head ls.
Proof.
  intros Hnd. destruct ls as [|z ls]; [done|]. apply NoDup_cons in Hnd as [Hz Hnd]. simpl.
  destruct (decide (z = x)) as [->|Hne].
  - rewrite decide_True by done. by rewrite without_cons_eq.
  - rewrite without_cons_ne by done. simpl. rewrite decide_False; congruence.
Qed.

Lemma nextIn_without x y ls :
  NoDup ls -> y <> x ->
  nextIn (without x ls) y = if decide (nextIn ls y = Some x) then nextIn ls x else nextIn ls y.
Proof.
  induction ls as [|z ls IH]; intros Hnd Hne; [by rewrite decide_False|].
  apply NoDup_cons in Hnd as [Hz Hnd].
  destruct (decide (z = x)) as [->|Hzx].
  - rewrite without_cons_eq by done. simpl. rewrite (decide_False (P := x = y)) by done.
    rewrite (decide_False (P := nextIn ls y = Some x)); [done|]. by intros ?%nextIn_elem.
  - rewrite without_cons_ne by done. simpl. rewrite (decide_False (P := z = x)) by done.
    destruct (decide (z = y)) as [->|Hzy]; [by apply head_without|by apply IH].
Qed.

Lemma prevAfter_without p x y ls :
  NoDup ls -> y <> x -> p <> Some x ->
  prevAfter p (without x ls) y = if decide (prevAfter p ls y = Some x) then prevAfter p ls x else prevAfter p ls y.
Proof.
  revert p. induction ls as [|z ls IH]; intros p Hnd Hne Hp; [by rewrite decide_False|].
  apply NoDup_cons in Hnd as [Hz Hnd].
  destruct (decide (z = x)) as [->|Hzx].
  - rewrite without_cons_eq by done. simpl. rewrite (decide_False (P := x = y)) by done.
    rewrite (decide_True (P := x = x)) by done.
    destruct ls as [|w ls]; simpl; [done|].
    destruct (decide (w = y)) as [->|Hwy]; [by rewrite decide_True|].
    rewrite (decide_False (P := prevAfter _ _ _ = _)); [done|].
    intros [[= ->]|?]%prevAfter_elem; set_solver.
  - rewrite without_cons_ne by done. simpl. rewrite (decide_False (P := z = x)) by done.
    destruct (decide (z = y)) as [->|Hzy]; [by rewrite decide_False|].
    apply IH; congruence.
Qed.

Lemma prevIn_without x y ls :
  NoDup ls -> y <> x ->
  prevIn (without x ls) y = if decide (prevIn ls y = Some x) then prevIn ls x else prevIn ls y.
Proof. intros. by apply prevAfter_without. Qed.

Lemma prevAfter_cons_front x y ls :
  NoDup ls -> y <> x ->
  prevAfter (Some x) ls y = if decide (head ls = Some y) then Some x else prevIn ls y.
Proof.
  intros Hnd Hne. unfold prevIn. destruct ls as [|z ls]; [done|]. simpl.
  repeat case_decide; congruence.
Qed.

(** The items of a chain hold the right pointers. *)
Definition linked m ls : Prop :=
  forall l, l ∈ ls -> exists i, m !! l = Some {| info := i; next := nextIn ls l; prev := prevIn ls l |}.

(** An item that is not in the list has no neighbours yet. *)
Definition linkedAt m ls x : Prop :=
  exists i, m !! x = Some {| info := i; next := nextIn ls x; prev := prevIn ls x |}.

Lemma linked_at m ls x : linked m ls -> x ∈ ls -> linkedAt m ls x.
Proof. intros Hl Hx. by apply Hl. Qed.

Lemma linkedAt_nextOf m ls x : linkedAt m ls x -> nextOf m x = nextIn ls x.
Proof. intros [i Hi]. unfold nextOf. by rewrite Hi. Qed.
Lemma linkedAt_prevOf m ls x : linkedAt m ls x -> prevOf m x = prevIn ls x.
Proof. intros [i Hi]. unfold prevOf. by rewrite Hi. Qed.

Lemma nextIn_irrefl ls x : NoDup ls -> nextIn ls x <> Some x.
Proof.
  induction ls as [|z ls IH]; simpl; [done|]. intros [Hz Hnd]%NoDup_cons.
  case_decide; subst; [|by apply IH]. destruct ls; simpl; [done|]. intros [= ->]. set_solver.
Qed.

Lemma prevIn_irrefl ls x : NoDup ls -> prevIn ls x <> Some x.
Proof. intros Hnd Hp. apply (nextIn_irrefl ls x Hnd). by apply (next_prev ls None). Qed.

(** [unlink] at one location. *)
Lemma lookup_unlink m ls x y :
  NoDup ls -> linkedAt m ls x ->
  unlink m x !! y =
  (fun it => {| info := info it;
                next := if decide (prevIn ls x = Some y) then nextIn ls x else next it;
                prev := if decide (nextIn ls x = Some y) then prevIn ls x else prev it |}) <$> m !! y.
Proof.
  intros Hnd Hx. unfold unlink. rewrite (linkedAt_nextOf _ _ _ Hx), (linkedAt_prevOf _ _ _ Hx).
  pose proof (prevIn_irrefl ls x Hnd) as Hp. pose proof (nextIn_irrefl ls x Hnd) as Hn.
  set (m1 := match prevIn ls x with None => m | Some p => alter (setNext (nextIn ls x)) p m end).
  assert (Hx1 : m1 !! x = m !! x).
  { unfold m1. destruct (prevIn ls x); [|done]. rewrite lookup_alter_ne; [done|congruence]. }
  assert (Hm1 : m1 !! y = (fun it => {| info := info it;
      next := if decide (prevIn ls x = Some y) then nextIn ls x else next it; prev := prev it |}) <$> m !! y).
  { unfold m1. destruct (prevIn ls x) as [p|]; cycle 1.
    - by destruct (m !! y) as [[]|].
    - rewrite lookup_alter. destruct (decide (p = y)) as [->|Hpy]; destruct (m !! y) as [[]|]; simpl; try done;
        unfold setNext; simpl; repeat case_decide; congruence. }
  unfold nextOf, prevOf. rewrite Hx1. fold (nextOf m x) (prevOf m x).
  rewrite (linkedAt_nextOf _ _ _ Hx), (linkedAt_prevOf _ _ _ Hx).
  destruct (nextIn ls x) as [n|]; cycle 1.
  - rewrite Hm1. by destruct (m !! y).
  - rewrite lookup_alter. destruct (decide (n = y)) as [->|Hny]; rewrite Hm1; destruct (m !! y); simpl; try done;
      unfold setPrev; simpl; repeat case_decide; congruence.
Qed.

Lemma unlink_info m ls x y :
  NoDup ls -> linkedAt m ls x -> info <$> unlink m x !! y = info <$> m !! y.
Proof. intros. rewrite (lookup_unlink m ls) by done. by destruct (m !! y). Qed.

(** Taking an item out leaves a chain of the others. *)
Lemma lookup_unlink_other m ls x y :
  NoDup ls -> linked m ls -> linkedAt m ls x -> y ∈ without x ls ->
  exists i, unlink m x !! y =
    Some {| info := i; next := nextIn (without x ls) y; prev := prevIn (without x ls) y |}.
Proof.
  intros Hnd Hl Hx [Hne Hy]%elem_of_without. destruct (Hl y Hy) as [i Hi]. exists i.
  rewrite (lookup_unlink m ls), Hi by done. simpl.
  rewrite nextIn_without, prevIn_without by done.
  pose proof (next_prev ls None y x Hnd ltac:(done)) as H1.
  pose proof (next_prev ls None x y Hnd ltac:(done)) as H2.
  fold (prevIn ls x) in H1. fold (prevIn ls y) in H2.
  do 2 f_equal; repeat case_decide; tauto || done.
Qed.

Lemma linked_unlink m ls x :
  NoDup ls -> linked m ls -> linkedAt m ls x -> linked (unlink m x) (without x ls).
Proof. intros Hnd Hl Hx y Hy. by apply (lookup_unlink_other m ls). Qed.
End Chain.

(** ** The list operations on a well-formed list

    [pend] is the item that was just allocated and is not linked yet. *)
Record listInv (nl : nodeList) (ls : list loc) (pend : option loc) : Prop := {
  li_nodup : NoDup ls;
  li_head : headNode nl = head ls;
  li_linked : linked (items nl) ls;
  li_pend l : pend = Some l -> (l ∉ ls) /\ linkedAt (items nl) ls l;
  li_dom l : (l ∈ ls \/ pend = Some l) <-> (exists name, nodes nl !! name = Some l);
  li_inj n1 n2 l : nodes nl !! n1 = Some l -> nodes nl !! n2 = Some l -> n1 = n2
}.

(** The node infos by name. *)
Definition infoMap (nl : nodeList) : gmap string NodeInfo :=
  omap (fun l => info <$> items nl !! l) (nodes nl).

Section ListOps.
Implicit Types (nl : nodeList) (ls : list loc).

Lemma infoOf_infoMap nl name : infoOf nl name = infoMap nl !! name.
Proof. unfold infoOf, infoMap. by rewrite lookup_omap. Qed.

Lemma listInv_linkedAt nl ls pend name x :
  listInv nl ls pend -> nodes nl !! name = Some x -> linkedAt (items nl) ls x.
Proof.
  intros Hi Hx. destruct (proj2 (li_dom _ _ _ Hi x)) as [Hin|Hp]; [by exists name| |].
  - by apply (li_linked _ _ _ Hi).
  - by apply (li_pend _ _ _ Hi).
Qed.

Lemma infoMap_is_Some nl ls pend name :
  listInv nl ls pend -> is_Some (infoMap nl !! name) <-> is_Some (nodes nl !! name).
Proof.
  intros Hi. unfold infoMap. rewrite lookup_omap. split.
  - intros [i (l&Hl&_)%bind_Some]. by exists l.
  - intros [l Hl]. destruct (listInv_linkedAt _ _ _ _ _ Hi Hl) as [i Hli]. exists i.
    rewrite Hl. simpl. by rewrite Hli.
Qed.

Lemma infoMap_ext nl nl' :
  nodes nl' = nodes nl -> (forall y, info <$> items nl' !! y = info <$> items nl !! y) ->
  infoMap nl' = infoMap nl.
Proof.
  intros Hn Hi. unfold infoMap. rewrite Hn. apply map_eq. intros n. rewrite !lookup_omap.
  destruct (nodes nl !! n); simpl; [apply Hi|done].
Qed.

Lemma moveNodeInfoToHead_spec nl ls pend name x :
  listInv nl ls pend -> nodes nl !! name = Some x -> pend = None \/ pend = Some x ->
  listInv (moveNodeInfoToHead name nl) (x :: without x ls) None /\
  nodes (moveNodeInfoToHead name nl) = nodes nl /\
  (forall y, info <$> items (moveNodeInfoToHead name nl) !! y = info <$> items nl !! y).
Proof.
  intros Hinv Hx Hpend. pose proof (listInv_linkedAt _ _ _ _ _ Hinv Hx) as Hxat.
  assert (Hdom : forall l, l ∈ x :: without x ls \/ None = Some l <-> (exists name, nodes nl !! name = Some l)).
  { intros l. rewrite <- (li_dom _ _ _ Hinv), elem_of_cons, elem_of_without.
    assert (x ∈ ls \/ pend = Some x) by (apply (li_dom _ _ _ Hinv); by exists name).
    destruct (decide (l = x)) as [->|]; [tauto|].
    assert (pend <> Some l) by (intros ->; naive_solver). naive_solver. }
  destruct Hinv as [Hnd Hh Hl _ _ Hi]. unfold moveNodeInfoToHead. rewrite Hx.
  assert (Hnd' : NoDup (x :: without x ls)).
  { constructor; [by intros [? _]%elem_of_without|by apply NoDup_without]. }
  case_decide as Hhead.
  - split_and!; [|done..]. rewrite Hh in Hhead.
    assert (Hls : x :: without x ls = ls).
    { destruct ls as [|z ls]; [done|]. simplify_eq/=.
      apply NoDup_cons in Hnd as [Hz _]. by rewrite without_cons_eq. }
    rewrite Hls in *. by split.
  - rewrite Hh in Hhead |- *.
    set (m2 := unlink (items nl) x).
    set (m3 := match head ls with None => m2 | Some h => alter (setPrev (Some x)) h m2 end).
    assert (Hm3 : forall y, m3 !! y = (fun it => {| info := info it; next := next it;
        prev := if decide (head ls = Some y) then Some x else prev it |}) <$> m2 !! y).
    { intros y. unfold m3. destruct (head ls) as [h|]; cycle 1.
      - by destruct (m2 !! y) as [[]|].
      - rewrite lookup_alter. destruct (decide (h = y)) as [->|Hhy]; destruct (m2 !! y) as [[]|]; simpl; try done;
          unfold setPrev; simpl; repeat case_decide; congruence. }
    assert (Hm5 : forall y, y <> x ->
      alter (setPrev None) x (alter (setNext (head ls)) x m3) !! y = m3 !! y).
    { intros y Hne. by rewrite !lookup_alter_ne by done. }
    assert (Hmx : alter (setPrev None) x (alter (setNext (head ls)) x m3) !! x =
      (fun it => {| info := info it; next := head ls; prev := None |}) <$> m2 !! x).
    { rewrite !lookup_alter_eq, Hm3. by destruct (m2 !! x). }
    split; [split|split]; simpl.
    + done.
    + done.
    + intros y Hy. destruct (decide (y = x)) as [->|Hne].
      * rewrite Hmx. unfold m2. rewrite (lookup_unlink _ ls) by done. destruct Hxat as [i ->].
        exists i. unfold prevIn. simpl. rewrite !(decide_True (P := x = x)) by done. f_equal.
        rewrite head_without by done. by rewrite decide_False.
      * rewrite Hm5, Hm3 by done. destruct (lookup_unlink_other (items nl) ls x y) as [i Hu]; try done.
        { clear - Hy Hne. set_solver. }
        unfold m2. rewrite Hu. exists i. simpl. unfold prevIn at 2. simpl.
        rewrite !(decide_False (P := x = y)) by done.
        rewrite prevAfter_cons_front by (try apply NoDup_without; done).
        rewrite head_without by done. by rewrite (decide_False (P := head ls = Some x)).
    + done.
    + done.
    + done.
    + done.
    + intros y. destruct (decide (y = x)) as [->|Hne].
      * rewrite Hmx, <- (unlink_info _ ls x x) by done. fold m2. by destruct (m2 !! x).
      * rewrite Hm5, Hm3, <- (unlink_info _ ls x y) by done. fold m2. by destruct (m2 !! y).
Qed.

Lemma removeNodeInfoFromList_spec nl ls name x :
  listInv nl ls None -> nodes nl !! name = Some x ->
  listInv (removeNodeInfoFromList name nl) (without x ls) None /\
  nodes (removeNodeInfoFromList name nl) = delete name (nodes nl) /\
  (forall y, info <$> items (removeNodeInfoFromList name nl) !! y = info <$> items nl !! y).
Proof.
  intros Hinv Hx. pose proof (listInv_linkedAt _ _ _ _ _ Hinv Hx) as Hxat.
  destruct Hinv as [Hnd Hh Hl _ Hd Hi]. unfold removeNodeInfoFromList. rewrite Hx.
  split; [split|split]; simpl.
  - by apply NoDup_without.
  - rewrite head_without, Hh by done. case_decide; [|done].
    unfold nextOf. rewrite (lookup_unlink _ ls) by done. destruct Hxat as [i ->]. simpl.
    rewrite decide_False by by apply prevIn_irrefl. done.
  - apply linked_unlink; done.
  - done.
  - intros l. rewrite elem_of_without. specialize (Hd l). split.
    + intros [[Hne Hin]|?]; [|done]. destruct Hd as [Hd _]. destruct Hd as [n Hn]; [by left|].
      exists n. rewrite lookup_delete_ne; [done|]. congruence.
    + intros [n [Hne Hn]%lookup_delete_Some]. left. split.
      * intros ->. apply Hne. by eapply Hi.
      * destruct (proj2 Hd) as [?|?]; [by exists n|done|done].
  - intros n1 n2 l [_ ?]%lookup_delete_Some [_ ?]%lookup_delete_Some. by eapply Hi.
  - done.
  - intros y. by apply (unlink_info _ ls).
Qed.

Lemma linked_ext m m' ls :
  (forall y, y ∈ ls -> nextOf m' y = nextOf m y /\ prevOf m' y = prevOf m y /\ (is_Some (m !! y) -> is_Some (m' !! y))) ->
  linked m ls -> linked m' ls.
Proof.
  intros Heq Hl y Hy. destruct (Heq y Hy) as (Hn&Hp&Hs). destruct (Hl y Hy) as [i Hi].
  destruct Hs as [[i' n p] Hi']; [by eexists|]. exists i'. rewrite Hi'.
  unfold nextOf, prevOf in *. rewrite Hi, Hi' in *. simpl in *. by subst.
Qed.

Lemma insertItem_spec nl ls name ni :
  listInv nl ls None -> nodes nl !! name = None ->
  let x := fresh (dom (items nl)) in
  listInv (insertItem name ni nl) ls (Some x) /\ nodes (insertItem name ni nl) !! name = Some x /\
  infoMap (insertItem name ni nl) = <[name := ni]> (infoMap nl) /\
  (x ∉ ls) /\ (forall y, y ∈ ls -> items (insertItem name ni nl) !! y = items nl !! y).
Proof.
  intros Hinv Hx x. assert (Hxn : items nl !! x = None) by apply not_elem_of_dom, is_fresh.
  assert (Hnot : x ∉ ls).
  { intros Hin. destruct (li_linked _ _ _ Hinv x Hin) as [i Hi]. congruence. }
  assert (Hother : forall y, y ∈ ls -> <[x := newNodeInfoListItem ni]> (items nl) !! y = items nl !! y).
  { intros y Hy. rewrite lookup_insert_ne; [done|]. by intros ->. }
  destruct Hinv as [Hnd Hh Hl _ Hd Hi].
  assert (Hrange : forall n, nodes nl !! n <> Some x).
  { intros n Hn. destruct (proj2 (Hd x)) as [?|?]; [by exists n|done|done]. }
  split_and!; [split| | |done|done]; simpl.
  - done.
  - done.
  - intros y Hy. rewrite Hother by done. by apply Hl.
  - intros l [= <-]. split; [done|]. exists ni.
    rewrite lookup_insert_eq, nextIn_absent by done. unfold prevIn. by rewrite prevAfter_absent.
  - intros l. specialize (Hd l). split.
    + intros [Hin|[= <-]].
      * destruct (proj1 Hd) as [n Hn]; [by left|]. exists n.
        rewrite lookup_insert_ne; [done|]. congruence.
      * exists name. apply lookup_insert_eq.
    + intros [n [[_ <-]|[_ Hn]]%lookup_insert_Some]; [by right|].
      left. destruct (proj2 Hd) as [?|?]; [by exists n|done|done].
  - intros n1 n2 l [[? ?]|[? ?]]%lookup_insert_Some [[? ?]|[? ?]]%lookup_insert_Some; subst;
      try done; try (exfalso; by eapply Hrange). by eapply Hi.
  - apply lookup_insert_eq.
  - apply map_eq. intros n. unfold infoMap. simpl. rewrite lookup_omap.
    destruct (decide (n = name)) as [->|Hne].
    + rewrite !lookup_insert_eq. simpl. by rewrite lookup_insert_eq.
    + rewrite !lookup_insert_ne, lookup_omap by done.
      destruct (nodes nl !! n) as [l|] eqn:Hn; simpl; [|done].
      rewrite lookup_insert_ne; [done|]. intros <-. by eapply Hrange.
Qed.

Lemma setInfo_spec nl ls pend name i x :
  listInv nl ls pend -> nodes nl !! name = Some x ->
  listInv (setInfo name i nl) ls pend /\ nodes (setInfo name i nl) = nodes nl /\
  infoMap (setInfo name i nl) = <[name := i]> (infoMap nl) /\
  (forall y, y <> x -> items (setInfo name i nl) !! y = items nl !! y) /\
  info <$> items (setInfo name i nl) !! x = Some i.
Proof.
  intros Hinv Hx. pose proof (listInv_linkedAt _ _ _ _ _ Hinv Hx) as [i0 Hxi].
  unfold setInfo. rewrite Hx. set (m := alter (setInfoOf i) x (items nl)).
  assert (Hm : forall y, y <> x -> m !! y = items nl !! y) by (intros; by apply lookup_alter_ne).
  assert (Hmx : m !! x = setInfoOf i <$> items nl !! x) by apply lookup_alter_eq.
  assert (Hptr : forall y, nextOf m y = nextOf (items nl) y /\ prevOf m y = prevOf (items nl) y /\
    (is_Some (items nl !! y) -> is_Some (m !! y))).
  { intros y. unfold nextOf, prevOf. destruct (decide (y = x)) as [->|Hne].
    - rewrite Hmx, Hxi. done.
    - by rewrite Hm. }
  destruct Hinv as [Hnd Hh Hl Hp Hd Hi].
  split_and!; [split| | | |]; simpl; try done.
  - eapply linked_ext; [|done]. intros y _. apply Hptr.
  - intros l Hpl. destruct (Hp l Hpl) as [Hnot [j Hj]]. split; [done|].
    destruct (decide (l = x)) as [->|Hne]; [|exists j; by rewrite Hm].
    exists i. rewrite Hmx, Hj. done.
  - apply map_eq. intros n. unfold infoMap. simpl. rewrite lookup_omap.
    destruct (decide (n = name)) as [->|Hne].
    + rewrite lookup_insert_eq, Hx. simpl. by rewrite Hmx, Hxi.
    + rewrite lookup_insert_ne, lookup_omap by done.
      destruct (nodes nl !! n) as [l|] eqn:Hn; simpl; [|done].
      rewrite Hm; [done|]. intros ->. by apply Hne, (Hi _ _ x).
  - by rewrite Hmx, Hxi.
Qed.
End ListOps.

(** ** The order of the list: most recently updated first *)
Definition genAt (nl : nodeList) (l : loc) : Z := from_option (Generation ∘ info) 0 (items nl !! l).

(** Generations decrease strictly along the list, from at most [g]. *)
Fixpoint newest (nl : nodeList) (g : Z) (ls : list loc) : Prop :=
  match ls with
  | [] => True
  | l :: ls => genAt nl l <= g /\ newest nl (genAt nl l - 1) ls
  end.

Definition chainOk (nl : nodeList) (g : Z) : Prop := exists ls, listInv nl ls None /\ newest nl g ls.

Lemma newest_weaken nl g g' ls : g <= g' -> newest nl g ls -> newest nl g' ls.
Proof. destruct ls; simpl; [done|]. intros ? [??]. split; [lia|done]. Qed.

Lemma newest_without nl x ls : forall g, newest nl g ls -> newest nl g (without x ls).
Proof.
  induction ls as [|l ls IH]; intros g Hn; [done|]. destruct Hn as [Hg Hn]. unfold without.
  rewrite filter_cons. case_decide; fold (without x ls).
  - split; [done|by apply IH].
  - apply IH. eapply newest_weaken; [|done]. lia.
Qed.

Lemma newest_ext nl nl' ls : forall g,
  (forall l, l ∈ ls -> info <$> items nl' !! l = info <$> items nl !! l) -> newest nl g ls -> newest nl' g ls.
Proof.
  induction ls as [|l ls IH]; intros g Hext Hn; [done|]. destruct Hn as [Hg Hn].
  assert (Hl : genAt nl' l = genAt nl l).
  { unfold genAt. pose proof (Hext l ltac:(set_solver)) as Hl.
    destruct (items nl' !! l), (items nl !! l); cbn in *; congruence. }
  split; rewrite Hl; [done|]. apply IH; [|done]. intros; apply Hext; set_solver.
Qed.

Lemma newest_elem nl ls l : forall g, newest nl g ls -> l ∈ ls -> genAt nl l <= g.
Proof.
  induction ls as [|l' ls IH]; intros g Hn Hin; [by apply not_elem_of_nil in Hin|].
  destruct Hn as [Hg Hn]. apply elem_of_cons in Hin as [->|Hin]; [done|].
  specialize (IH _ Hn Hin). lia.
Qed.

Lemma chainOk_gen nl g name i : chainOk nl g -> infoMap nl !! name = Some i -> Generation i <= g.
Proof.
  intros (ls&Hi&Hn) Hname. unfold infoMap in Hname. rewrite lookup_omap in Hname.
  apply bind_Some in Hname as (l&Hl&Hit). assert (Hin : l ∈ ls).
  { destruct (proj2 (li_dom _ _ _ Hi l)) as [?|?]; [by exists name|done|done]. }
  pose proof (newest_elem _ _ _ _ Hn Hin) as Hg. unfold genAt in Hg.
  destruct (items nl !! l); simplify_eq/=. done.
Qed.

Lemma chainOk_empty g : chainOk {| items := ∅; nodes := ∅; headNode := None |} g.
Proof.
  exists []. split; [|done]. split; simpl; try done.
  - apply NoDup_nil_2.
  - intros l Hl. by apply not_elem_of_nil in Hl.
  - intros l. split; [intros [?%not_elem_of_nil|?]; done|]. intros [n Hn]. by rewrite lookup_empty in Hn.
Qed.

(** *** One item being updated

    While an operation works on the item of [name], that item may be out of order;
    the others are not. *)
Inductive phase := FreshItem | LinkedItem | HeadItem.

Definition touching (nl : nodeList) (name : string) (g : Z) (ph : phase) : Prop :=
  exists ls pend x, nodes nl !! name = Some x /\ listInv nl ls pend /\ newest nl g (without x ls) /\
    match ph with
    | FreshItem => pend = Some x
    | LinkedItem => pend = None
    | HeadItem => pend = None /\ head ls = Some x
    end.

Section Touching.
Implicit Types (nl : nodeList) (name : string).

Lemma touching_existing nl name g :
  chainOk nl g -> is_Some (infoMap nl !! name) -> touching nl name g LinkedItem.
Proof.
  intros (ls&Hi&Hn) [x Hx]%(infoMap_is_Some _ _ _ _ Hi).
  exists ls, None, x. split_and!; try done. by apply newest_without.
Qed.

Lemma touching_new nl name g ni :
  chainOk nl g -> infoMap nl !! name = None ->
  touching (insertItem name ni nl) name g FreshItem /\
  infoMap (insertItem name ni nl) = <[name := ni]> (infoMap nl).
Proof.
  intros (ls&Hi&Hn) Hnone. assert (Hx : nodes nl !! name = None).
  { apply eq_None_not_Some. rewrite <- (infoMap_is_Some _ _ _ _ Hi), Hnone. by intros []. }
  destruct (insertItem_spec nl ls name ni Hi Hx) as (Hi'&Hx'&Hm&Hnot&Hother).
  split; [|done]. eexists ls, _, _. split_and!; [done..| |done].
  rewrite without_absent by done. eapply newest_ext; [|done].
  intros l Hl. by rewrite Hother.
Qed.

Lemma setInfo_touching nl name g ph i :
  touching nl name g ph ->
  touching (setInfo name i nl) name g ph /\ infoMap (setInfo name i nl) = <[name := i]> (infoMap nl).
Proof.
  intros (ls&pend&x&Hx&Hi&Hn&Hph). destruct (setInfo_spec nl ls pend name i x Hi Hx) as (Hi'&Hx'&Hm&Hother&_).
  split; [|done]. exists ls, pend, x. split_and!; [by rewrite Hx'|done| |done].
  eapply newest_ext; [|done]. intros l [Hl _]%elem_of_without. by rewrite Hother.
Qed.

Lemma move_touching nl name g ph :
  touching nl name g ph ->
  touching (moveNodeInfoToHead name nl) name g HeadItem /\
  infoMap (moveNodeInfoToHead name nl) = infoMap nl.
Proof.
  intros (ls&pend&x&Hx&Hi&Hn&Hph).
  destruct (moveNodeInfoToHead_spec nl ls pend name x Hi Hx) as (Hi'&Hx'&Hinfo).
  { destruct ph; naive_solver. }
  split; [|by apply infoMap_ext]. exists (x :: without x ls), None, x.
  split_and!; [by rewrite Hx'|done| |done|done].
  rewrite without_cons_eq by by intros [? _]%elem_of_without.
  eapply newest_ext; [|done]. intros l _. apply Hinfo.
Qed.

Lemma remove_touching nl name g :
  touching nl name g LinkedItem ->
  chainOk (removeNodeInfoFromList name nl) g /\
  infoMap (removeNodeInfoFromList name nl) = delete name (infoMap nl).
Proof.
  intros (ls&pend&x&Hx&Hi&Hn&->).
  destruct (removeNodeInfoFromList_spec nl ls name x Hi Hx) as (Hi'&Hx'&Hinfo).
  split.
  - exists (without x ls). split; [done|]. eapply newest_ext; [|done]. intros l _. apply Hinfo.
  - unfold infoMap. rewrite Hx'. apply map_eq. intros n. rewrite !lookup_omap.
    destruct (decide (n = name)) as [->|Hne]; [by rewrite !lookup_delete_eq|].
    rewrite !lookup_delete_ne, lookup_omap by done. destruct (nodes nl !! n); simpl; [apply Hinfo|done].
Qed.

(** The item is at the head and has the newest generation. *)
Lemma touching_done nl name g g' i :
  touching nl name g HeadItem -> infoMap nl !! name = Some i -> g < Generation i <= g' -> chainOk nl g'.
Proof.
  intros (ls&pend&x&Hx&Hi&Hn&->&Hh) Hname Hg. exists ls. split; [done|].
  assert (Hgx : genAt nl x = Generation i).
  { unfold infoMap in Hname. rewrite lookup_omap, Hx in Hname. simpl in Hname. unfold genAt.
    destruct (items nl !! x); simplify_eq/=. done. }
  destruct ls as [|z ls]; [done|]. simplify_eq/=. rewrite Hgx. split; [lia|].
  pose proof (li_nodup _ _ _ Hi) as [Hz _]%NoDup_cons. rewrite without_cons_eq in Hn by done.
  eapply newest_weaken; [|done]. lia.
Qed.

Lemma touching_weaken nl name g g' ph : g <= g' -> touching nl name g ph -> touching nl name g' ph.
Proof.
  intros Hg (ls&pend&x&Hx&Hi&Hn&Hph). exists ls, pend, x. split_and!; try done.
  by eapply newest_weaken.
Qed.
End Touching.

(** ** Walking the list from the head *)

(** [for node := headNode; node != nil; node = node.next]; [None] when [fuel] items
    are not enough. *)
Fixpoint walk (fuel : nat) (m : gmap loc nodeInfoListItem) (o : option loc) : option (list loc) :=
  match o with
  | None => Some []
  | Some l => match fuel with O => None | S fuel => ls ← walk fuel m (nextOf m l); Some (l :: ls) end
  end.

Lemma nextIn_app ls1 x ls2 : x ∉ ls1 -> nextIn (ls1 ++ x :: ls2) x = head ls2.
Proof.
  induction ls1 as [|y ls1 IH]; intros Hx; simpl; [by rewrite decide_True|].
  rewrite decide_False by set_solver. apply IH. set_solver.
Qed.

Lemma walk_suffix m ls2 : forall ls1 fuel,
  NoDup (ls1 ++ ls2) -> linked m (ls1 ++ ls2) -> (length ls2 <= fuel)%nat ->
  walk fuel m (head ls2) = Some ls2.
Proof.
  induction ls2 as [|x ls2 IH]; intros ls1 fuel Hnd Hl Hf; [by destruct fuel|].
  destruct fuel as [|fuel]; [simpl in Hf; lia|]. cbn [head walk].
  destruct (Hl x) as [i Hi]; [set_solver|].
  assert (Hx : x ∉ ls1).
  { apply NoDup_app in Hnd as (_&Hd&_). intros Hin. apply (Hd x Hin). set_solver. }
  assert (Hn : nextOf m x = head ls2).
  { unfold nextOf. rewrite Hi. cbn. by apply nextIn_app. }
  rewrite Hn, (IH (ls1 ++ [x])); [done| | |simpl in Hf; lia].
  - by rewrite <- app_assoc.
  - by rewrite <- app_assoc.
Qed.

Lemma chain_Permutation nl ls : listInv nl ls None -> ls ≡ₚ (map_to_list (nodes nl)).*2.
Proof.
  intros Hi. apply NoDup_Permutation; [apply Hi| |].
  - apply NoDup_fmap_2_strong; [|apply NoDup_map_to_list].
    intros [n1 l1] [n2 l2] H1%elem_of_map_to_list H2%elem_of_map_to_list Heq. simpl in Heq. subst l2.
    f_equal. by eapply li_inj.
  - intros l. pose proof (li_dom _ _ _ Hi l) as Hd. rewrite list_elem_of_fmap. split.
    + intros Hin. destruct (proj1 Hd (or_introl Hin)) as [n Hn]. exists (n, l).
      split; [done|]. by apply elem_of_map_to_list.
    + intros ([n l']&->&Hn). apply elem_of_map_to_list in Hn.
      destruct (proj2 Hd) as [?|?]; [by exists n|done|done].
Qed.

Lemma walk_chain nl ls fuel :
  listInv nl ls None -> (size (nodes nl) <= fuel)%nat -> walk fuel (items nl) (headNode nl) = Some ls.
Proof.
  intros Hi Hf. rewrite (li_head _ _ _ Hi). apply (walk_suffix _ _ []); [apply Hi|apply Hi|].
  rewrite (chain_Permutation _ _ Hi), length_fmap, length_map_to_list. done.
Qed.
