(* ===== verification/Cache.v ===== *)
(** * The scheduler cache

    [scheduler/internal/cache/cache.go]: node infos in a list ordered by last update
    (CacheList.v), the states of assumed and added pods, the node tree and the image
    states.  Locking and the background goroutine are left out: each exported method
    is one atomic step.  Times are nanoseconds.  [klog.Fatal] and nil dereferences
    are [Panic]. *)
From S2P Require Import Prelude Api NodeInfo NodeTree CacheList.
Local Open Scope Z_scope.

Record podState := { ps_pod : Pod; deadline : option Z; bindingFinished : bool }.
#[export] Instance podState_eq : EqDecision podState.
Proof. solve_decision. Defined.

Record imageState := { imageSize : Z; imageNodes : gset string }.

(** The package variable [generation] of the framework is a field here, as is the
    gauge [metrics.CacheSize] by label. *)
Record schedulerCache := {
  ttl : Z;
  assumedPods : gmap string bool;
  podStates : gmap string podState;
  nodeInfos : nodeList;
  cacheTree : nodeTree;
  imageStates : gmap string imageState;
  generation : Z;
  CacheSize : gmap string Z
}.

Inductive cacheError :=
  | InfoError (e : nodeInfoError)
  | TreeError (e : treeError)
  | PodAlreadyInCache (key : string)
  | AssumedOnOtherNode (key node current : string)
  | NotAssumed (key : string)
  | AlreadyAdded (key : string)
  | NotAdded (key : string)
  | PodNotFound (key : string)
  | PodDoesNotExist (key : string)
  | NodeNotInCache (name : string).
#[export] Instance cacheError_eq : EqDecision cacheError.
Proof. solve_decision. Defined.

Definition newSchedulerCache (ttl generation : Z) : schedulerCache :=
  {| ttl := ttl; assumedPods := ∅; podStates := ∅;
     nodeInfos := {| items := ∅; nodes := ∅; headNode := None |};
     cacheTree := newNodeTree []; imageStates := ∅; generation := generation; CacheSize := ∅ |}.

(** ** Field updates of the cache *)
Definition withList (c : schedulerCache) (g : Z) (nl : nodeList) : schedulerCache :=
  {| ttl := ttl c; assumedPods := assumedPods c; podStates := podStates c; nodeInfos := nl;
     cacheTree := cacheTree c; imageStates := imageStates c; generation := g; CacheSize := CacheSize c |}.
Definition withPods (c : schedulerCache) (assumed : gmap string bool) (states : gmap string podState) : schedulerCache :=
  {| ttl := ttl c; assumedPods := assumed; podStates := states; nodeInfos := nodeInfos c;
     cacheTree := cacheTree c; imageStates := imageStates c; generation := generation c; CacheSize := CacheSize c |}.
Definition withTree (c : schedulerCache) (nt : nodeTree) : schedulerCache :=
  {| ttl := ttl c; assumedPods := assumedPods c; podStates := podStates c; nodeInfos := nodeInfos c;
     cacheTree := nt; imageStates := imageStates c; generation := generation c; CacheSize := CacheSize c |}.
Definition withImages (c : schedulerCache) (m : gmap string imageState) : schedulerCache :=
  {| ttl := ttl c; assumedPods := assumedPods c; podStates := podStates c; nodeInfos := nodeInfos c;
     cacheTree := cacheTree c; imageStates := m; generation := generation c; CacheSize := CacheSize c |}.
Definition withMetrics (c : schedulerCache) (m : gmap string Z) : schedulerCache :=
  {| ttl := ttl c; assumedPods := assumedPods c; podStates := podStates c; nodeInfos := nodeInfos c;
     cacheTree := cacheTree c; imageStates := imageStates c; generation := generation c; CacheSize := m |}.

(** ** A method of the cache: its result, and the cache it leaves also when it fails *)
Abbreviation M := (stateM schedulerCache cacheError).

Definition podKey (pod : Pod) : M string := fun c =>
  match GetPodKey pod with
  | Ok key => (Ok key, c) | Err e => (Err (InfoError e), c) | Panic => (Panic, c)
  end.

(** [n, ok := cache.nodes[name]; if !ok { ... }]: whether the item is new. *)
Definition ensureItem `{LabelsLib} (name : string) : M bool := fun c =>
  match nodes (nodeInfos c) !! name with
  | Some _ => (Ok false, c)
  | None =>
      let '(g, ni) := NewNodeInfo (generation c) [] in
      (Ok true, withList c g (insertItem name ni (nodeInfos c)))
  end.

(** An update of [n.info] that draws generations. *)
Definition updateInfo {A} (name : string) (f : Z -> NodeInfo -> A * (Z * NodeInfo)) : M A := fun c =>
  match infoOf (nodeInfos c) name with
  | None => (Panic, c)
  | Some i =>
      let '(a, (g, i')) := f (generation c) i in
      (Ok a, withList c g (setInfo name i' (nodeInfos c)))
  end.

Definition moveToHead (name : string) : M unit :=
  modify (fun c => withList c (generation c) (moveNodeInfoToHead name (nodeInfos c))).
Definition removeFromList (name : string) : M unit :=
  modify (fun c => withList c (generation c) (removeNodeInfoFromList name (nodeInfos c))).

(** ** Pods *)
Section Pods.
Context `{LabelsLib}.

Definition addPod (pod : Pod) : M unit :=
  let name := NodeName (pod_Spec pod) in
  ensureItem name ≫= fun _ =>
  updateInfo name (fun g i => (tt, NodeInfo.AddPod g i pod)) ≫= fun _ =>
  moveToHead name.

Definition removePod (pod : Pod) : M unit :=
  let name := NodeName (pod_Spec pod) in
  get ≫= fun c =>
  match nodes (nodeInfos c) !! name with
  | None => mret tt
  | Some _ =>
      updateInfo name (fun g i => NodeInfo.RemovePod g i pod) ≫= fun r =>
      match r with
      | Panic => panic
      | Err e => fail (InfoError e)
      | Ok _ =>
          get ≫= fun c =>
          match infoOf (nodeInfos c) name with
          | None => panic
          | Some i =>
              if decide (Pods i = [] /\ node i = None) then removeFromList name else moveToHead name
          end
      end
  end.

Definition updatePod (oldPod newPod : Pod) : M unit :=
  removePod oldPod ≫= fun _ => addPod newPod.

Definition setPods (f : gmap string bool -> gmap string bool)
    (g : gmap string podState -> gmap string podState) : M unit :=
  modify (fun c => withPods c (f (assumedPods c)) (g (podStates c))).

(** [cache.assumedPods[key]]: false when the key is absent. *)
Definition isAssumed (c : schedulerCache) (key : string) : bool := default false (assumedPods c !! key).

Definition AssumePod (pod : Pod) : M unit :=
  key ← podKey pod; c ← get;
  match podStates c !! key with
  | Some _ => fail (PodAlreadyInCache key)
  | None =>
      addPod pod ≫= fun _ =>
      setPods (fun assumed => <[key := true]> assumed)
        (fun states => <[key := {| ps_pod := pod; deadline := None; bindingFinished := false |}]> states)
  end.

(** [FinishBinding] with the current time. *)
Definition finishBinding (pod : Pod) (now : Z) : M unit :=
  key ← podKey pod; c ← get;
  match podStates c !! key with
  | Some currState =>
      if isAssumed c key then
        setPods id (fun states =>
          <[key := {| ps_pod := ps_pod currState; deadline := Some (now + ttl c); bindingFinished := true |}]> states)
      else mret tt
  | None => mret tt
  end.

Definition ForgetPod (pod : Pod) : M unit :=
  key ← podKey pod; c ← get;
  match podStates c !! key with
  | Some currState =>
      if decide (NodeName (pod_Spec (ps_pod currState)) <> NodeName (pod_Spec pod))
      then fail (AssumedOnOtherNode key (NodeName (pod_Spec pod)) (NodeName (pod_Spec (ps_pod currState))))
      else if isAssumed c key then
        removePod pod ≫= fun _ => setPods (delete key) (delete key)
      else fail (NotAssumed key)
  | None => fail (NotAssumed key)
  end.

(** The fields of the state of [key] that [AddPod] assigns. *)
Definition confirmState (key : string) (pod : Pod) (states : gmap string podState) : gmap string podState :=
  alter (fun ps => {| ps_pod := pod; deadline := None; bindingFinished := bindingFinished ps |}) key states.

Definition AddPod (pod : Pod) : M unit :=
  key ← podKey pod; c ← get;
  match podStates c !! key with
  | Some currState =>
      if isAssumed c key then
        (if decide (NodeName (pod_Spec (ps_pod currState)) <> NodeName (pod_Spec pod))
         then logged (removePod (ps_pod currState)) ≫= fun _ => addPod pod
         else mret tt) ≫= fun _ =>
        setPods (delete key) (confirmState key pod)
      else fail (AlreadyAdded key)
  | None =>
      addPod pod ≫= fun _ =>
      setPods id (fun states =>
        <[key := {| ps_pod := pod; deadline := None; bindingFinished := false |}]> states)
  end.

Definition UpdatePod (oldPod newPod : Pod) : M unit :=
  key ← podKey oldPod; c ← get;
  match podStates c !! key with
  | Some currState =>
      if isAssumed c key then fail (NotAdded key)
      else if decide (NodeName (pod_Spec (ps_pod currState)) <> NodeName (pod_Spec newPod)) then panic
      else
        updatePod oldPod newPod ≫= fun _ =>
        setPods id (alter (fun ps =>
          {| ps_pod := newPod; deadline := deadline ps; bindingFinished := bindingFinished ps |}) key)
  | None => fail (NotAdded key)
  end.

Definition RemovePod (pod : Pod) : M unit :=
  key ← podKey pod; c ← get;
  match podStates c !! key with
  | Some currState =>
      if isAssumed c key then fail (PodNotFound key)
      else if decide (NodeName (pod_Spec (ps_pod currState)) <> NodeName (pod_Spec pod)) then panic
      else removePod (ps_pod currState) ≫= fun _ => setPods id (delete key)
  | None => fail (PodNotFound key)
  end.

Definition IsAssumedPod (pod : Pod) : M bool :=
  key ← podKey pod; c ← get;
  match assumedPods c !! key with None => mret false | Some b => mret b end.

Definition GetPod (pod : Pod) : M Pod :=
  key ← podKey pod; c ← get;
  match podStates c !! key with
  | None => fail (PodDoesNotExist key)
  | Some ps => mret (ps_pod ps)
  end.

Definition PodCount : M Z :=
  c ← get;
  mret (map_fold (fun _ l count => match items (nodeInfos c) !! l with
                                   | None => count | Some it => count + Z.of_nat (length (Pods (info it))) end)
          0 (nodes (nodeInfos c))).

Definition expirePod (key : string) (ps : podState) : M unit :=
  removePod (ps_pod ps) ≫= fun _ => setPods (delete key) (delete key).

Definition updateMetrics : M unit :=
  modify (fun c => withMetrics c
    (<["nodes" := Z.of_nat (base.size (nodes (nodeInfos c)))]>
     (<["pods" := Z.of_nat (base.size (podStates c))]>
      (<["assumed_pods" := Z.of_nat (base.size (assumedPods c))]> (CacheSize c))))).

(** One iteration of the loop of [cleanupAssumedPods]. *)
Definition cleanupAssumedPod (now : Z) (key : string) : M unit :=
  c ← get;
  match podStates c !! key with
  | None => panic
  | Some ps =>
      if bindingFinished ps then
        match deadline ps with
        | None => panic
        | Some dl => if decide (dl < now) then logged (expirePod key ps) else mret tt
        end
      else mret tt
  end.

(** [keys] is the order in which Go ranges over [assumedPods]. *)
Definition cleanupAssumedPods (now : Z) (keys : list string) : M unit :=
  foldr (fun key k => cleanupAssumedPod now key ≫= fun _ => k) (mret tt) keys ≫= fun _ => updateMetrics.
End Pods.

(** ** Nodes and images *)
Definition createImageStateSummary (state : imageState) : ImageStateSummary :=
  {| Size := imageSize state; NumNodes := Z.of_nat (base.size (imageNodes state)) |}.

(** The (name, size) pairs of the images of a node, in the order of the loops. *)
Definition imageNames (nd : Node) : list (string * Z) :=
  node_Images nd ≫= fun image => (fun name => (name, img_SizeBytes image)) <$> img_Names image.

Definition addNodeImageState (nodeName : string) (acc : gmap string imageState * gmap string ImageStateSummary)
    (image : string * Z) : gmap string imageState * gmap string ImageStateSummary :=
  let '(states, newSum) := acc in
  let '(name, sizeBytes) := image in
  let state :=
    match states !! name with
    | None => {| imageSize := sizeBytes; imageNodes := {[ nodeName ]} |}
    | Some state => {| imageSize := imageSize state; imageNodes := {[ nodeName ]} ∪ imageNodes state |}
    end in
  (<[name := state]> states,
   match newSum !! name with
   | None => <[name := createImageStateSummary state]> newSum
   | Some _ => newSum
   end).

(** [addNodeImageStates] for the node info of [name]. *)
Definition addNodeImageStates (nd : Node) (name : string) : M unit := fun c =>
  let '(states, newSum) := foldl (addNodeImageState (node_Name nd)) (imageStates c, ∅) (imageNames nd) in
  match infoOf (nodeInfos c) name with
  | None => (Panic, c)
  | Some i =>
      (Ok tt, withImages (withList c (generation c) (setInfo name (NodeInfo.setImageStates i newSum) (nodeInfos c))) states)
  end.

Definition removeNodeImageState (nodeName : string) (states : gmap string imageState)
    (image : string * Z) : gmap string imageState :=
  match states !! image.1 with
  | None => states
  | Some state =>
      let nodes' := imageNodes state ∖ {[ nodeName ]} in
      if decide (nodes' = ∅) then delete image.1 states
      else <[image.1 := {| imageSize := imageSize state; imageNodes := nodes' |}]> states
  end.

Definition removeNodeImageStates (nd : option Node) : M unit :=
  match nd with
  | None => mret tt
  | Some nd =>
      modify (fun c => withImages c (foldl (removeNodeImageState (node_Name nd)) (imageStates c) (imageNames nd)))
  end.

Definition modifyTree (f : nodeTree -> nodeTree) : M unit := modify (fun c => withTree c (f (cacheTree c))).

Section Nodes.
Context `{LabelsLib}.

(** The node of the item of [name], when the item is not new. *)
Definition removeOldImages (isNew : bool) (name : string) : M unit :=
  if isNew then mret tt
  else c ← get;
       match infoOf (nodeInfos c) name with None => panic | Some i => removeNodeImageStates (NodeOf i) end.

Definition AddNode (nd : Node) : M unit :=
  let name := node_Name nd in
  isNew ← ensureItem name;
  removeOldImages isNew name ≫= fun _ =>
  moveToHead name ≫= fun _ =>
  modifyTree (fun nt => addNode nt nd) ≫= fun _ =>
  addNodeImageStates nd name ≫= fun _ =>
  updateInfo name (fun g i => (tt, SetNode g i nd)).

Definition UpdateNode (oldNode : option Node) (newNode : Node) : M unit :=
  let name := node_Name newNode in
  isNew ← ensureItem name;
  (if isNew : bool then modifyTree (fun nt => addNode nt newNode) else removeOldImages isNew name) ≫= fun _ =>
  moveToHead name ≫= fun _ =>
  (c ← get;
   match updateNode (cacheTree c) oldNode newNode with
   | (Panic, _) => panic
   | (_, nt) => modifyTree (fun _ => nt)
   end) ≫= fun _ =>
  addNodeImageStates newNode name ≫= fun _ =>
  updateInfo name (fun g i => (tt, SetNode g i newNode)).

Definition RemoveNode (nd : Node) : M unit :=
  let name := node_Name nd in
  c ← get;
  match nodes (nodeInfos c) !! name with
  | None => fail (NodeNotInCache name)
  | Some _ =>
      updateInfo name (fun g i => (tt, NodeInfo.RemoveNode g i)) ≫= fun _ =>
      c ← get;
      match infoOf (nodeInfos c) name with
      | None => panic
      | Some i => if decide (Pods i = []) then removeFromList name else moveToHead name
      end ≫= fun _ =>
      c ← get;
      match removeNode (cacheTree c) (Some nd) with
      | (Err e, nt) => modifyTree (fun _ => nt) ≫= fun _ => fail (TreeError e)
      | (Panic, _) => panic
      | (Ok _, nt) => modifyTree (fun _ => nt) ≫= fun _ => removeNodeImageStates (Some nd)
      end
  end.
End Nodes.


(** ** Computing with the methods *)
Lemma podKey_Ok pod c : pod_UID pod <> "" -> podKey pod c = (Ok (pod_UID pod), c).
Proof. intros Hu. unfold podKey, GetPodKey. by rewrite decide_False. Qed.

Lemma podKey_empty {A} pod (k : string -> M A) c :
  pod_UID pod = "" -> (podKey pod ≫= k) c = (Err (InfoError EmptyUID), c).
Proof. intros Hu. unfold mbind, stateM_bind, podKey, GetPodKey. by rewrite decide_True. Qed.

Lemma withList_withList c g nl g' nl' : withList (withList c g nl) g' nl' = withList c g' nl'.
Proof. done. Qed.

Lemma withList_same c : c = withList c (generation c) (nodeInfos c).
Proof. by destruct c. Qed.

Lemma nextGeneration_succ g : 0 <= g < max_int64 -> nextGeneration g = g + 1.
Proof. intros Hg. apply wrap64_id. unfold in_int64, min_int64, max_int64 in *. lia. Qed.

(** The node info [framework.NewNodeInfo()] makes. *)
Definition blankInfo (g : Z) : NodeInfo :=
  {| node := None; Pods := []; PodsWithAffinity := []; UsedPorts := ∅;
     Requested := emptyResource; NonZeroRequested := emptyResource;
     Allocatable := emptyResource; ImageStates := ∅;
     TransientInfo := NewTransientSchedulerInfo; Generation := g |}.

(** ** What the helpers do to the node infos *)
Section Helpers.
Context `{LabelsLib}.
Implicit Types (c : schedulerCache) (name : string).

Definition cInfo c : gmap string NodeInfo := infoMap (nodeInfos c).
Definition cOk c : Prop := chainOk (nodeInfos c) (generation c) /\ 0 <= generation c.

Lemma ensureItem_spec name c :
  cOk c -> generation c < max_int64 ->
  exists isNew g nl, ensureItem name c = (Ok isNew, withList c g nl) /\
    touching nl name (generation c) (if isNew then FreshItem else LinkedItem) /\
    g = generation c + (if isNew then 1 else 0) /\
    isNew = bool_decide (cInfo c !! name = None) /\
    infoMap nl = match cInfo c !! name with None => <[name := blankInfo g]> (cInfo c) | Some _ => cInfo c end.
Proof.
  intros [Hok Hg] Hmax. pose proof Hok as (ls&Hi&Hn).
  unfold ensureItem, cInfo. destruct (infoMap (nodeInfos c) !! name) as [i|] eqn:Hname.
  - assert (is_Some (nodes (nodeInfos c) !! name)) as [l ->].
    { apply (infoMap_is_Some _ _ _ _ Hi). by eexists. }
    exists false, (generation c), (nodeInfos c). rewrite <- withList_same.
    split_and!; try done; [|lia]. apply touching_existing; [done|by eexists].
  - assert (nodes (nodeInfos c) !! name = None) as ->.
    { apply eq_None_not_Some. rewrite <- (infoMap_is_Some _ _ _ _ Hi), Hname. by intros []. }
    cbn [NewNodeInfo foldl]. rewrite nextGeneration_succ by lia.
    destruct (touching_new (nodeInfos c) name (generation c) (blankInfo (generation c + 1)) Hok Hname).
    eexists true, _, _. split; [done|]. split_and!; done.
Qed.

Lemma updateInfo_spec {A} name (f : Z -> NodeInfo -> A * (Z * NodeInfo)) c i a g' i' :
  cInfo c !! name = Some i -> f (generation c) i = (a, (g', i')) ->
  updateInfo name f c = (Ok a, withList c g' (setInfo name i' (nodeInfos c))).
Proof.
  intros Hi Hf. unfold updateInfo. rewrite infoOf_infoMap. unfold cInfo in Hi. rewrite Hi.
  by rewrite Hf.
Qed.

Lemma AddPod_generation g i pod :
  0 <= g < max_int64 -> exists i', NodeInfo.AddPod g i pod = (g + 1, i') /\ Generation i' = g + 1.
Proof.
  intros Hg. unfold NodeInfo.AddPod. destruct (calculateResource pod) as [[??]?].
  rewrite nextGeneration_succ by done. by eexists.
Qed.

(** [addPod] updates one node info, in its old or in a new item, and nothing else. *)
Lemma addPod_spec pod c :
  cOk c -> generation c + 2 <= max_int64 ->
  let name := NodeName (pod_Spec pod) in
  exists g nl, addPod pod c = (Ok tt, withList c (g + 1) nl) /\ chainOk nl (g + 1) /\
    generation c <= g <= generation c + 1 /\
    infoMap nl = <[name := (NodeInfo.AddPod g (default (blankInfo g) (cInfo c !! name)) pod).2]> (cInfo c).
Proof.
  intros Hok Hmax name.
  destruct (ensureItem_spec name c) as (isNew&g&nl&He&Ht&Hg&Hnew&Hm); [done|lia|].
  destruct Hok as [Hok Hg0]. set (i := default (blankInfo g) (cInfo c !! name)).
  assert (Hi : infoMap nl !! name = Some i).
  { rewrite Hm. unfold i. destruct (cInfo c !! name) eqn:Hc; [done|]. by rewrite lookup_insert_eq. }
  assert (Hgr : generation c <= g <= generation c + 1) by (destruct isNew; lia).
  destruct (AddPod_generation g i pod) as (i'&Hadd&Hgen); [lia|].
  destruct (setInfo_touching nl name (generation c) _ i' Ht) as [Ht2 Hm2].
  destruct (move_touching _ _ _ _ Ht2) as [Ht3 Hm3].
  exists g, (moveNodeInfoToHead name (setInfo name i' nl)). split_and!; [| |lia..|].
  - unfold addPod. fold name. erewrite bind_Ok by done.
    erewrite bind_Ok; [|eapply (updateInfo_spec _ _ _ i tt (g + 1) i'); [exact Hi|]]; [done|].
    cbv beta. cbn [generation withList]. by rewrite Hadd.
  - eapply touching_done; [exact Ht3|rewrite Hm3, Hm2; apply lookup_insert_eq|]. lia.
  - fold i. rewrite Hm3, Hm2, Hm, Hadd. cbn [snd].
    destruct (cInfo c !! name); [done|]. by rewrite insert_insert_eq.
Qed.

(** [removePod] of a pod that the node info holds: same UID and same spec. *)
Lemma removePod_spec pod c i x :
  cOk c -> generation c + 1 <= max_int64 ->
  let name := NodeName (pod_Spec pod) in
  cInfo c !! name = Some i -> accounted i -> x ∈ Pods i ->
  pod_UID (pi_Pod x) = pod_UID pod -> pod_Spec (pi_Pod x) = pod_Spec pod ->
  exists nl i', removePod pod c = (Ok tt, withList c (generation c + 1) nl) /\
    chainOk nl (generation c + 1) /\ accounted i' /\ Pods i ≡ₚ x :: Pods i' /\ node i' = node i /\
    Generation i' = generation c + 1 /\
    infoMap nl = if decide (Pods i' = [] /\ node i = None) then delete name (cInfo c) else <[name := i']> (cInfo c).
Proof.
  intros [Hok Hg0] Hmax name Hi Ha Hx Hu Hs.
  destruct (RemovePod_accounted (generation c) i x Ha Hx) as (i'&Hrem&Ha'&Hp&Hnd&Hgen).
  rewrite nextGeneration_succ in Hrem, Hgen by lia.
  assert (Hrem' : NodeInfo.RemovePod (generation c) i pod = (Ok tt, (generation c + 1, i'))).
  { rewrite <- Hrem. apply RemovePod_same; [done..|]. by apply findPodKey_present. }
  destruct (setInfo_touching (nodeInfos c) name (generation c) LinkedItem i') as [Ht Hm].
  { apply touching_existing; [done|]. by eexists. }
  assert (Hnodes : exists l, nodes (nodeInfos c) !! name = Some l).
  { destruct Hok as (ls&Hinv&_). apply (infoMap_is_Some _ _ _ _ Hinv). by eexists. }
  set (nl1 := setInfo name i' (nodeInfos c)) in *.
  exists (if decide (Pods i' = [] /\ node i' = None) then removeNodeInfoFromList name nl1
          else moveNodeInfoToHead name nl1), i'.
  split_and!; try done.
  - unfold removePod. fold name. erewrite bind_Ok by done. destruct Hnodes as [l ->].
    erewrite bind_Ok by (eapply updateInfo_spec; [exact Hi|exact Hrem']).
    cbn iota. erewrite bind_Ok by done. rewrite infoOf_infoMap. cbn [nodeInfos withList]. fold nl1.
    rewrite Hm, lookup_insert_eq. case_decide; done.
  - case_decide.
    + destruct (remove_touching _ _ _ Ht) as [Hok' _]. destruct Hok' as (ls&?&?). exists ls.
      split; [done|]. eapply newest_weaken; [|done]. lia.
    + destruct (move_touching _ _ _ _ Ht) as [Ht' Hm'].
      eapply touching_done; [exact Ht'|rewrite Hm', Hm; apply lookup_insert_eq|]. lia.
  - rewrite <- Hnd. case_decide.
    + destruct (remove_touching _ _ _ Ht) as [_ ->]. by rewrite Hm, delete_insert_eq.
    + destruct (move_touching _ _ _ _ Ht) as [_ ->]. done.
Qed.
End Helpers.
