(* ===== verification/CacheSpec.v ===== *)
(** * What the scheduler cache promises

    The state machine of [scheduler/internal/cache/interface.go]: a pod is absent,
    assumed (with a deadline once its binding has finished) or added.  The abstract
    cache is a table of pods and a table of live nodes; it has no lists, no node infos
    and no generations.  The theorems show that the cache of Cache.v implements it and
    that every node info accounts for the pods of the table on that node. *)
From S2P Require Import Prelude Api NodeInfo NodeTree CacheList Cache.
Local Open Scope Z_scope.

Inductive podPhase := Assumed (deadline : option Z) | Added.

Record absCache := { absPods : gmap string (podPhase * Pod); absNodes : gmap string Node }.

Inductive cacheEvent :=
  | EvAssume (p : Pod)
  | EvFinish (p : Pod) (now : Z)
  | EvForget (p : Pod)
  | EvAdd (p : Pod)
  | EvUpdate (old new : Pod)
  | EvRemove (p : Pod)
  | EvCleanup (now : Z) (keys : list string)
  | EvAddNode (nd : Node)
  | EvUpdateNode (old : option Node) (nd : Node)
  | EvRemoveNode (nd : Node).

Definition nodeOfPod (p : Pod) : string := NodeName (pod_Spec p).

Definition setPodTable (a : absCache) (t : gmap string (podPhase * Pod)) : absCache :=
  {| absPods := t; absNodes := absNodes a |}.

(** The pods of the table on a node. *)
Definition podsOn (t : gmap string (podPhase * Pod)) (name : string) : list Pod :=
  filter (fun p => nodeOfPod p = name) ((fun kp => kp.2.2) <$> map_to_list t).

(** An assumed pod whose binding finished and whose deadline has passed. *)
Definition expired (now : Z) (ph : podPhase) : bool :=
  match ph with Assumed (Some dl) => bool_decide (dl < now) | _ => false end.

Definition absStep (ttl : Z) (e : cacheEvent) (a : absCache) : result cacheError unit * absCache :=
  let t := absPods a in
  let keyed p (k : result cacheError unit * absCache) :=
    if decide (pod_UID p = "") then (Err (InfoError EmptyUID), a) else k in
  match e with
  | EvAssume p => keyed p
      match t !! pod_UID p with
      | Some _ => (Err (PodAlreadyInCache (pod_UID p)), a)
      | None => (Ok tt, setPodTable a (<[pod_UID p := (Assumed None, p)]> t))
      end
  | EvFinish p now => keyed p
      match t !! pod_UID p with
      | Some (Assumed _, q) => (Ok tt, setPodTable a (<[pod_UID p := (Assumed (Some (now + ttl)), q)]> t))
      | _ => (Ok tt, a)
      end
  | EvForget p => keyed p
      match t !! pod_UID p with
      | Some (ph, q) =>
          if decide (nodeOfPod q <> nodeOfPod p) then (Err (AssumedOnOtherNode (pod_UID p) (nodeOfPod p) (nodeOfPod q)), a)
          else match ph with
               | Assumed _ => (Ok tt, setPodTable a (delete (pod_UID p) t))
               | Added => (Err (NotAssumed (pod_UID p)), a)
               end
      | None => (Err (NotAssumed (pod_UID p)), a)
      end
  | EvAdd p => keyed p
      match t !! pod_UID p with
      | Some (Added, _) => (Err (AlreadyAdded (pod_UID p)), a)
      | _ => (Ok tt, setPodTable a (<[pod_UID p := (Added, p)]> t))
      end
  | EvUpdate old new => keyed old
      match t !! pod_UID old with
      | Some (Added, q) =>
          if decide (nodeOfPod q <> nodeOfPod new) then (Panic, a)
          else (Ok tt, setPodTable a (<[pod_UID old := (Added, new)]> t))
      | _ => (Err (NotAdded (pod_UID old)), a)
      end
  | EvRemove p => keyed p
      match t !! pod_UID p with
      | Some (Added, q) =>
          if decide (nodeOfPod q <> nodeOfPod p) then (Panic, a)
          else (Ok tt, setPodTable a (delete (pod_UID p) t))
      | _ => (Err (PodNotFound (pod_UID p)), a)
      end
  | EvCleanup now _ =>
      (Ok tt, setPodTable a (filter (fun kp => expired now kp.2.1 = false) t))
  | EvAddNode nd | EvUpdateNode _ nd =>
      (Ok tt, {| absPods := t; absNodes := <[node_Name nd := nd]> (absNodes a) |})
  | EvRemoveNode nd =>
      match absNodes a !! node_Name nd with
      | Some _ => (Ok tt, {| absPods := t; absNodes := delete (node_Name nd) (absNodes a) |})
      | None =>
          (Err (if decide (podsOn t (node_Name nd) = []) then NodeNotInCache (node_Name nd)
                else TreeError (NodeNotFound (node_Name nd) "")), a)
      end
  end.

(** What the informers and the scheduler promise: the spec of a pod changes only by an
    update event, whose old pod is the known one; a node that still has pods but was
    removed comes back with an add event; a node is removed as it was last seen; the
    cleanup ranges over the assumed pods. *)
Definition validEvent (a : absCache) (e : cacheEvent) : Prop :=
  match e with
  | EvForget p | EvAdd p => forall d q, absPods a !! pod_UID p = Some (Assumed d, q) ->
      nodeOfPod p = nodeOfPod q -> pod_Spec p = pod_Spec q
  | EvUpdate old new => forall q, absPods a !! pod_UID old = Some (Added, q) ->
      nodeOfPod new = nodeOfPod q -> pod_Spec old = pod_Spec q /\ pod_UID new = pod_UID old
  | EvCleanup _ keys => NoDup keys /\
      forall k, k ∈ keys <-> exists d q, absPods a !! k = Some (Assumed d, q)
  | EvUpdateNode _ nd => absNodes a !! node_Name nd = None -> podsOn (absPods a) (node_Name nd) = []
  | EvRemoveNode nd => forall nd', absNodes a !! node_Name nd = Some nd' -> nd = nd'
  | _ => True
  end.

(** The generations an event may draw. *)
Definition cost (e : cacheEvent) : Z :=
  match e with EvCleanup _ keys => Z.of_nat (length keys) | _ => 3 end.

Section Run.
Context `{LabelsLib}.

Definition cacheStep (e : cacheEvent) : M unit :=
  match e with
  | EvAssume p => AssumePod p
  | EvFinish p now => finishBinding p now
  | EvForget p => ForgetPod p
  | EvAdd p => AddPod p
  | EvUpdate old new => UpdatePod old new
  | EvRemove p => RemovePod p
  | EvCleanup now keys => cleanupAssumedPods now keys
  | EvAddNode nd => AddNode nd
  | EvUpdateNode old nd => UpdateNode old nd
  | EvRemoveNode nd => RemoveNode nd
  end.

(** The results of a run and its last state; [klog.Fatal] ends the process. *)
Fixpoint runCache (es : list cacheEvent) (c : schedulerCache) : list (result cacheError unit) * schedulerCache :=
  match es with
  | [] => ([], c)
  | e :: es =>
      let '(r, c1) := cacheStep e c in
      if decide (r = Panic) then ([Panic], c1)
      else let '(rs, c2) := runCache es c1 in (r :: rs, c2)
  end.
End Run.

Fixpoint runAbs (ttl : Z) (es : list cacheEvent) (a : absCache) : list (result cacheError unit) * absCache :=
  match es with
  | [] => ([], a)
  | e :: es =>
      let '(r, a1) := absStep ttl e a in
      if decide (r = Panic) then ([Panic], a1)
      else let '(rs, a2) := runAbs ttl es a1 in (r :: rs, a2)
  end.

(** The events of a run are valid where they happen. *)
Fixpoint validRun (ttl : Z) (es : list cacheEvent) (a : absCache) : Prop :=
  match es with
  | [] => True
  | e :: es => validEvent a e /\ validRun ttl es (absStep ttl e a).2
  end.

Definition runCost (es : list cacheEvent) : Z := sumOver cost es.

(** ** The refinement relation *)
Definition podTag (p : Pod) : string * PodSpec := (pod_UID p, pod_Spec p).
Definition infoTags (i : NodeInfo) : list (string * PodSpec) := (podTag ∘ pi_Pod) <$> Pods i.

(** The node infos hold exactly the pods of the table, and the live nodes. *)
Record placed (infos : gmap string NodeInfo) (t : gmap string (podPhase * Pod)) (ns : gmap string Node) : Prop := {
  pl_key k ph p : t !! k = Some (ph, p) -> pod_UID p = k /\ k <> "";
  pl_acc name i : infos !! name = Some i -> accounted i;
  pl_live name : infos !! name ≫= node = ns !! name;
  pl_ghost name i : infos !! name = Some i -> node i = None -> Pods i <> [];
  pl_tags name k s : (k, s) ∈ from_option infoTags [] (infos !! name) <->
    exists ph p, t !! k = Some (ph, p) /\ pod_Spec p = s /\ NodeName s = name
}.

Section Placed.
Context `{LabelsLib}.
Implicit Types (infos : gmap string NodeInfo) (t : gmap string (podPhase * Pod)).

Lemma podUIDs_tags i : podUIDs i = (infoTags i).*1.
Proof. unfold podUIDs, infoTags. by rewrite <- list_fmap_compose. Qed.

Lemma placed_uid infos t ns name i k :
  placed infos t ns -> infos !! name = Some i -> k ∈ podUIDs i -> is_Some (t !! k).
Proof.
  intros Hp Hi Hk. rewrite podUIDs_tags in Hk. apply list_elem_of_fmap in Hk as ([k' s]&->&Hin).
  pose proof (proj1 (pl_tags _ _ _ Hp name k' s)) as Ht. rewrite Hi in Ht.
  destruct (Ht Hin) as (ph&p&Hk&_). by eexists.
Qed.

Lemma infoTags_AddPod g i p : infoTags (NodeInfo.AddPod g i p).2 = infoTags i ++ [podTag p].
Proof.
  unfold NodeInfo.AddPod, infoTags. destruct (calculateResource p) as [[??]?]. cbn [snd Pods].
  by rewrite fmap_app.
Qed.

Lemma node_AddPod g i p : node (NodeInfo.AddPod g i p).2 = node i.
Proof. unfold NodeInfo.AddPod. by destruct (calculateResource p) as [[??]?]. Qed.

Lemma accounted_blank g : accounted (blankInfo g).
Proof. destruct (accounted_NewNodeInfo 0). by split. Qed.

Lemma placed_add infos t ns g ph p :
  placed infos t ns -> t !! pod_UID p = None -> pod_UID p <> "" ->
  placed (<[nodeOfPod p := (NodeInfo.AddPod g (default (blankInfo g) (infos !! nodeOfPod p)) p).2]> infos)
    (<[pod_UID p := (ph, p)]> t) ns.
Proof.
  intros Hp Hk Hne. set (i := default (blankInfo g) (infos !! nodeOfPod p)).
  assert (Hi : accounted i).
  { unfold i. destruct (infos !! nodeOfPod p) eqn:Hi; [by eapply pl_acc|apply accounted_blank]. }
  assert (Hnot : pod_UID p ∉ podUIDs i).
  { unfold i. destruct (infos !! nodeOfPod p) eqn:Hi'; [|apply not_elem_of_nil].
    intros Hin. destruct (placed_uid _ _ _ _ _ _ Hp Hi' Hin). congruence. }
  assert (Hnode : node i = infos !! nodeOfPod p ≫= node) by (unfold i; by destruct (infos !! nodeOfPod p)).
  split.
  - intros k ph' q [[<- [= <- <-]]|[_ Hq]]%lookup_insert_Some; [done|by eapply pl_key].
  - intros name i' [[_ <-]|[_ Hi']]%lookup_insert_Some; [by apply AddPod_accounted|by eapply pl_acc].
  - intros name. rewrite <- (pl_live _ _ _ Hp). destruct (decide (name = nodeOfPod p)) as [->|Hn].
    + rewrite lookup_insert_eq. simpl. by rewrite node_AddPod.
    + by rewrite lookup_insert_ne.
  - intros name i' [[_ <-]|[_ Hi']]%lookup_insert_Some; [|by eapply pl_ghost].
    intros _ Hnil. pose proof (infoTags_AddPod g i p) as Ht. unfold infoTags at 1 in Ht.
    rewrite Hnil in Ht. symmetry in Ht. by apply app_nil in Ht as [_ ?].
  - intros name k s. destruct (decide (name = nodeOfPod p)) as [->|Hn].
    + rewrite lookup_insert_eq. simpl. rewrite infoTags_AddPod, elem_of_app, list_elem_of_singleton.
      assert (Hold : (k, s) ∈ infoTags i <-> (k, s) ∈ from_option infoTags [] (infos !! nodeOfPod p)).
      { unfold i. by destruct (infos !! nodeOfPod p). }
      rewrite Hold, (pl_tags _ _ _ Hp). split.
      * intros [(ph'&q&Hq&?&?)|[= -> ->]].
        -- exists ph', q. rewrite lookup_insert_ne; [done|]. intros <-. congruence.
        -- exists ph, p. by rewrite lookup_insert_eq.
      * intros (ph'&q&[[<- [= <- <-]]|[_ Hq]]%lookup_insert_Some&<-&Hs); [by right|left; by eauto].
    + rewrite lookup_insert_ne by done. rewrite (pl_tags _ _ _ Hp). split.
      * intros (ph'&q&Hq&?&?). exists ph', q. rewrite lookup_insert_ne; [done|]. intros <-. congruence.
      * intros (ph'&q&[[<- [= <- <-]]|[_ Hq]]%lookup_insert_Some&<-&Hs); [by rewrite <- Hs in Hn|by eauto].
Qed.

(** The entry of a pod of the table in its node info. *)
Lemma placed_find infos t ns k ph p :
  placed infos t ns -> t !! k = Some (ph, p) ->
  exists i x, infos !! nodeOfPod p = Some i /\ x ∈ Pods i /\ pod_UID (pi_Pod x) = k /\ pod_Spec (pi_Pod x) = pod_Spec p.
Proof.
  intros Hp Hk. pose proof (proj2 (pl_tags _ _ _ Hp (nodeOfPod p) k (pod_Spec p))) as Ht.
  destruct (infos !! nodeOfPod p) as [i|] eqn:Hi; simpl in Ht.
  - destruct (proj1 (list_elem_of_fmap _ _ _) (Ht ltac:(by exists ph, p))) as (x&[= -> ->]&Hx). by exists i, x.
  - exfalso. eapply not_elem_of_nil, Ht. by exists ph, p.
Qed.

Lemma placed_remove infos t ns k ph p i i' x :
  placed infos t ns -> t !! k = Some (ph, p) -> infos !! nodeOfPod p = Some i ->
  pod_UID (pi_Pod x) = k -> Pods i ≡ₚ x :: Pods i' -> accounted i' -> node i' = node i ->
  placed (if decide (Pods i' = [] /\ node i = None) then delete (nodeOfPod p) infos
          else <[nodeOfPod p := i']> infos) (delete k t) ns.
Proof.
  intros Hp Hk Hi Hx Hperm Ha Hnd.
  set (infos' := if decide _ then _ else _).
  assert (Hother : forall name, name <> nodeOfPod p -> infos' !! name = infos !! name).
  { intros name Hn. unfold infos'. case_decide; [by rewrite lookup_delete_ne|by rewrite lookup_insert_ne]. }
  assert (Hat : from_option infoTags [] (infos' !! nodeOfPod p) = infoTags i' /\
                infos' !! nodeOfPod p ≫= node = node i).
  { unfold infos'. case_decide as Hd.
    - rewrite lookup_delete_eq. destruct Hd as [Hnil Hno]. unfold infoTags. by rewrite Hnil, Hno.
    - by rewrite lookup_insert_eq. }
  assert (Hin : forall name j, infos' !! name = Some j -> infos !! name = Some j \/ (name = nodeOfPod p /\ j = i' /\ ~ (Pods i' = [] /\ node i = None))).
  { intros name j. unfold infos'. case_decide.
    - intros [_ ?]%lookup_delete_Some. by left.
    - intros [[<- <-]|[_ ?]]%lookup_insert_Some; [by right|by left]. }
  assert (Htags : infoTags i ≡ₚ podTag (pi_Pod x) :: infoTags i').
  { unfold infoTags. by rewrite Hperm. }
  assert (Hnotin : k ∉ podUIDs i').
  { pose proof (acc_uids _ (pl_acc _ _ _ Hp _ _ Hi)) as Hnd'. unfold podUIDs in Hnd'. rewrite Hperm in Hnd'.
    cbn [fmap list_fmap] in Hnd'. apply NoDup_cons in Hnd' as [Hnot _]. unfold compose in Hnot at 1. by rewrite Hx in Hnot. }
  split.
  - intros k' ph' q [_ Hq]%lookup_delete_Some. by eapply pl_key.
  - intros name j [Hj|(->&->&_)]%Hin; [by eapply pl_acc|done].
  - intros name. rewrite <- (pl_live _ _ _ Hp). destruct (decide (name = nodeOfPod p)) as [->|Hn].
    + rewrite (proj2 Hat), Hi. done.
    + by rewrite Hother.
  - intros name j [Hj|(->&->&Hnot)]%Hin; [by eapply pl_ghost|]. rewrite Hnd. tauto.
  - intros name k' s. destruct (decide (name = nodeOfPod p)) as [->|Hn].
    + rewrite (proj1 Hat). pose proof (pl_tags _ _ _ Hp (nodeOfPod p) k' s) as Ht.
      rewrite Hi in Ht. simpl in Ht. rewrite Htags, elem_of_cons in Ht. split.
      * intros Hks. destruct (proj1 Ht (or_intror Hks)) as (ph'&q&Hq&?&?).
        exists ph', q. rewrite lookup_delete_ne; [done|]. intros <-. apply Hnotin.
        rewrite podUIDs_tags. by apply (list_elem_of_fmap_2 fst _ (k, s)).
      * intros (ph'&q&[Hne Hq]%lookup_delete_Some&Hs&Hs').
        destruct (proj2 Ht) as [[= Hk' _]|?]; [by exists ph', q| |done]. congruence.
    + rewrite Hother, (pl_tags _ _ _ Hp) by done. split.
      * intros (ph'&q&Hq&Hs&Hs'). exists ph', q. rewrite lookup_delete_ne; [done|].
        intros <-. rewrite Hk in Hq. simplify_eq.
      * intros (ph'&q&[Hne Hq]%lookup_delete_Some&Hs&Hs'). by exists ph', q.
Qed.

Lemma placed_retag infos t ns k ph p ph' p' :
  placed infos t ns -> t !! k = Some (ph, p) -> pod_UID p' = k -> pod_Spec p' = pod_Spec p ->
  placed infos (<[k := (ph', p')]> t) ns.
Proof.
  intros Hp Hk Hu Hs. destruct Hp as [Hkey Hacc Hlive Hghost Htags]. split; try done.
  - intros k2 ph2 p2 [[<- [= <- <-]]|[_ Hq]]%lookup_insert_Some; [|by eapply Hkey].
    split; [done|]. by eapply Hkey.
  - intros name k2 s. rewrite Htags. split; intros (ph2&p2&Hk2&Hs2&Hn2).
    + destruct (decide (k2 = k)) as [->|Hne].
      * exists ph', p'. rewrite lookup_insert_eq. split_and!; congruence.
      * exists ph2, p2. by rewrite lookup_insert_ne.
    + apply lookup_insert_Some in Hk2 as [[<- [= <- <-]]|[_ Hk2]].
      * exists ph, p. split_and!; congruence.
      * by exists ph2, p2.
Qed.
End Placed.

(** The state of one key. *)
Definition entryOk (assumed : option bool) (state : option podState) (abs : option (podPhase * Pod)) : Prop :=
  match abs with
  | None => assumed = None /\ state = None
  | Some (Assumed d, p) => assumed = Some true /\
      state = Some {| ps_pod := p; deadline := d; bindingFinished := bool_decide (d <> None) |}
  | Some (Added, p) => assumed = None /\ exists ps, state = Some ps /\ ps_pod ps = p
  end.

Definition tableOk (assumed : gmap string bool) (states : gmap string podState)
    (t : gmap string (podPhase * Pod)) : Prop :=
  forall k, entryOk (assumed !! k) (states !! k) (t !! k).

(** The image states are the sets of live nodes that have the image. *)
Definition imagesOk (states : gmap string imageState) (ns : gmap string Node) : Prop :=
  forall img n,
    (exists st, states !! img = Some st /\ n ∈ imageNodes st) <->
    (exists nd, ns !! n = Some nd /\ img ∈ (imageNames nd).*1).

Record refines (c : schedulerCache) (a : absCache) : Prop := {
  rf_ok : cOk c;
  rf_table : tableOk (assumedPods c) (podStates c) (absPods a);
  rf_placed : placed (cInfo c) (absPods a) (absNodes a);
  rf_tree : treeInv (cacheTree c);
  rf_names t : t ∈ allNodes (cacheTree c) <-> t.1 = "" /\ is_Some (absNodes a !! t.2);
  rf_named name nd : absNodes a !! name = Some nd -> node_Name nd = name;
  rf_images : imagesOk (imageStates c) (absNodes a);
  rf_used img st : imageStates c !! img = Some st -> imageNodes st <> ∅
}.

Section PodSteps.
Context `{LabelsLib}.
Implicit Types (c : schedulerCache) (a : absCache).

(** Every node info that changed has a generation above the old counter. *)
Definition fresher c (infos : gmap string NodeInfo) : Prop :=
  forall name i, infos !! name = Some i -> cInfo c !! name = Some i \/ generation c < Generation i.

Lemma fresher_same c : fresher c (cInfo c).
Proof. intros name i. by left. Qed.

Lemma fresher_insert c infos name i :
  fresher c infos -> generation c < Generation i -> fresher c (<[name := i]> infos).
Proof. intros Hf Hi n j [[_ <-]|[_ ?]]%lookup_insert_Some; [by right|by apply Hf]. Qed.

Lemma fresher_delete c infos name : fresher c infos -> fresher c (delete name infos).
Proof. intros Hf n j [_ ?]%lookup_delete_Some. by apply Hf. Qed.

Lemma fresher_trans c c1 infos :
  fresher c (cInfo c1) -> generation c <= generation c1 -> fresher c1 infos -> fresher c infos.
Proof. intros H1 Hg H2 n j Hj. destruct (H2 n j Hj) as [?|?]; [by apply H1|right; lia]. Qed.

(** The concrete step refines the abstract one. *)
Definition stepRefines (e : cacheEvent) c a : Prop :=
  (cacheStep e c).1 = (absStep (ttl c) e a).1 /\
  refines (cacheStep e c).2 (absStep (ttl c) e a).2 /\
  fresher c (cInfo (cacheStep e c).2) /\
  ttl (cacheStep e c).2 = ttl c /\
  generation c <= generation (cacheStep e c).2 <= generation c + cost e.

Lemma stepRefines_intro e c a r c' a' :
  cacheStep e c = (r, c') -> absStep (ttl c) e a = (r, a') -> refines c' a' ->
  fresher c (cInfo c') -> ttl c' = ttl c -> generation c <= generation c' <= generation c + cost e -> stepRefines e c a.
Proof. intros Hc Ha. unfold stepRefines. by rewrite Hc, Ha. Qed.

(** A step that changes nothing. *)
Lemma stepRefines_same e c a r :
  refines c a -> cacheStep e c = (r, c) -> absStep (ttl c) e a = (r, a) -> stepRefines e c a.
Proof.
  intros Hr Hc Ha. eapply stepRefines_intro; try done; [apply fresher_same|].
  destruct e; cbn [cost]; lia.
Qed.

Lemma refines_pods c a g nl assumed states t :
  refines c a -> chainOk nl g -> 0 <= g -> tableOk assumed states t ->
  placed (infoMap nl) t (absNodes a) ->
  refines (withPods (withList c g nl) assumed states) (setPodTable a t).
Proof. intros [] ????. by split. Qed.

Lemma tableOk_update assumed states t assumed' states' t' k :
  tableOk assumed states t ->
  (forall k', k' <> k -> assumed' !! k' = assumed !! k' /\ states' !! k' = states !! k' /\ t' !! k' = t !! k') ->
  entryOk (assumed' !! k) (states' !! k) (t' !! k) ->
  tableOk assumed' states' t'.
Proof.
  intros Ht Hother Hk k'. destruct (decide (k' = k)) as [->|Hne]; [done|].
  destruct (Hother k' Hne) as (->&->&->). apply Ht.
Qed.

Ltac lookups := intros; rewrite ?lookup_insert_ne, ?lookup_delete_ne, ?lookup_alter_ne by done; done.

Lemma keyed_empty {A} p (k : string -> M A) c :
  pod_UID p = "" -> (podKey p ≫= k) c = (Err (InfoError EmptyUID), c).
Proof. apply podKey_empty. Qed.

Lemma isAssumed_entry c k d q :
  entryOk (assumedPods c !! k) (podStates c !! k) (Some (Assumed d, q)) -> isAssumed c k = true.
Proof. intros [Ha _]. unfold isAssumed. by rewrite Ha. Qed.

Lemma isAssumed_added c k q :
  entryOk (assumedPods c !! k) (podStates c !! k) (Some (Added, q)) -> isAssumed c k = false.
Proof. intros [Ha _]. unfold isAssumed. by rewrite Ha. Qed.

(** Removing a pod of the table from its node info. *)
Lemma remove_placed c t ns k ph q pod :
  cOk c -> placed (cInfo c) t ns -> generation c + 1 <= max_int64 ->
  t !! k = Some (ph, q) -> pod_UID pod = k -> pod_Spec pod = pod_Spec q ->
  exists nl, removePod pod c = (Ok tt, withList c (generation c + 1) nl) /\
    chainOk nl (generation c + 1) /\ placed (infoMap nl) (delete k t) ns /\ fresher c (infoMap nl).
Proof.
  intros Hok Hp Hmax Hk Hu Hs. destruct (placed_find _ _ _ _ _ _ Hp Hk) as (i&x&Hi&Hx&Hux&Hsx).
  assert (Hname : nodeOfPod q = NodeName (pod_Spec pod)) by by rewrite Hs.
  destruct (removePod_spec pod c i x Hok Hmax) as (nl&i'&Hrem&Hok'&Ha&Hperm&Hnd&Hgen&Hm).
  - by rewrite <- Hname.
  - by eapply pl_acc.
  - done.
  - congruence.
  - congruence.
  - exists nl. split_and!; [done..| |]; rewrite Hm.
    + rewrite <- Hname. by eapply placed_remove.
    + case_decide; [apply fresher_delete, fresher_same|].
      apply fresher_insert; [apply fresher_same|lia].
Qed.

(** Placing a pod whose key is free. *)
Lemma add_placed c t ns ph p :
  cOk c -> placed (cInfo c) t ns -> generation c + 2 <= max_int64 ->
  t !! pod_UID p = None -> pod_UID p <> "" ->
  exists g nl, addPod p c = (Ok tt, withList c g nl) /\ chainOk nl g /\
    generation c < g <= generation c + 2 /\ placed (infoMap nl) (<[pod_UID p := (ph, p)]> t) ns /\
    fresher c (infoMap nl).
Proof.
  intros Hok Hp Hmax Hk Hu. destruct (addPod_spec p c) as (g&nl&Hadd&Hok'&Hg&Hm); [done|lia|].
  exists (g + 1), nl. split_and!; try done; try lia; rewrite Hm; [by apply placed_add|].
  apply fresher_insert; [apply fresher_same|]. destruct Hok as [_ Hg0].
  destruct (AddPod_generation g (default (blankInfo g) (cInfo c !! NodeName (pod_Spec p))) p) as (i'&->&Hgen);
    [lia|cbn [snd]; lia].
Qed.

Lemma assume_refines p c a :
  refines c a -> generation c + cost (EvAssume p) <= max_int64 -> stepRefines (EvAssume p) c a.
Proof.
  intros Hr Hmax. cbn [cost] in Hmax. destruct (decide (pod_UID p = "")) as [Hu|Hu].
  { eapply stepRefines_same; [done|by apply podKey_empty|]. cbn. by rewrite decide_True. }
  pose proof (rf_table _ _ Hr (pod_UID p)) as He.
  destruct (absPods a !! pod_UID p) as [[ph q]|] eqn:Hk.
  - assert (Hs : exists ps, podStates c !! pod_UID p = Some ps) by (destruct ph; naive_solver).
    destruct Hs as [ps Hs]. eapply stepRefines_same; [done| |].
    + unfold cacheStep, AssumePod. erewrite bind_Ok by by apply podKey_Ok.
      erewrite bind_Ok by done. by rewrite Hs.
    + cbn. by rewrite decide_False, Hk.
  - destruct He as [Ha Hs].
    destruct (add_placed c (absPods a) (absNodes a) (Assumed None) p) as (g&nl&Hadd&Hok&Hg&Hm&Hf);
      [apply Hr|apply Hr|lia|done|done|].
    pose proof (rf_ok _ _ Hr) as [_ Hg0].
    eapply stepRefines_intro.
    + unfold cacheStep, AssumePod. erewrite bind_Ok by by apply podKey_Ok.
      erewrite bind_Ok by done. rewrite Hs. by erewrite bind_Ok by done.
    + cbn. by rewrite decide_False, Hk.
    + apply refines_pods; [done|done|lia| |].
      * eapply (tableOk_update _ _ _ _ _ _ (pod_UID p)); [apply Hr|lookups|].
        by rewrite !lookup_insert_eq.
      * done.
    + done.
    + done.
    + cbn [cost withPods withList generation]. lia.
Qed.

Lemma finish_refines p now c a : refines c a -> stepRefines (EvFinish p now) c a.
Proof.
  intros Hr. destruct (decide (pod_UID p = "")) as [Hu|Hu].
  { eapply stepRefines_same; [done|by apply podKey_empty|]. cbn. by rewrite decide_True. }
  pose proof (rf_table _ _ Hr (pod_UID p)) as He.
  assert (Hpre : cacheStep (EvFinish p now) c = match podStates c !! pod_UID p with
    | Some currState => if isAssumed c (pod_UID p) then
        setPods id (fun states => <[pod_UID p := {| ps_pod := ps_pod currState; deadline := Some (now + ttl c); bindingFinished := true |}]> states) c
      else (Ok tt, c)
    | None => (Ok tt, c) end).
  { unfold cacheStep, finishBinding. erewrite bind_Ok by by apply podKey_Ok. erewrite bind_Ok by done.
    destruct (podStates c !! pod_UID p); [|done]. by destruct (isAssumed c (pod_UID p)). }
  destruct (absPods a !! pod_UID p) as [[[d|] q]|] eqn:Hk.
  - pose proof (isAssumed_entry _ _ _ _ He) as Has. destruct He as [Ha Hs]. rewrite Hs, Has in Hpre.
    eapply stepRefines_intro; [exact Hpre| | |exact (fresher_same c)|done|cbn; lia].
    + cbn. by rewrite decide_False, Hk.
    + rewrite (withList_same c) at 1.
      pose proof (rf_ok _ _ Hr) as [Hok Hg0]. apply refines_pods; try done.
      * eapply (tableOk_update _ _ _ _ _ _ (pod_UID p)); [apply Hr|lookups|].
        rewrite !lookup_insert_eq. by split.
      * eapply placed_retag; [apply Hr|done| |done]. by eapply pl_key; [apply Hr|].
  - pose proof (isAssumed_added _ _ _ He) as Has. destruct He as [Ha (ps&Hs&_)]. rewrite Hs, Has in Hpre.
    eapply stepRefines_same; [done|done|]. cbn. by rewrite decide_False, Hk.
  - destruct He as [_ Hs]. rewrite Hs in Hpre.
    eapply stepRefines_same; [done|done|]. cbn. by rewrite decide_False, Hk.
Qed.

Lemma forget_refines p c a :
  refines c a -> validEvent a (EvForget p) -> generation c + cost (EvForget p) <= max_int64 ->
  stepRefines (EvForget p) c a.
Proof.
  intros Hr Hv Hmax. cbn [cost] in Hmax. destruct (decide (pod_UID p = "")) as [Hu|Hu].
  { eapply stepRefines_same; [done|by apply podKey_empty|]. cbn. by rewrite decide_True. }
  pose proof (rf_table _ _ Hr (pod_UID p)) as He.
  assert (Hpre : cacheStep (EvForget p) c = match podStates c !! pod_UID p with
    | Some cs => if decide (nodeOfPod (ps_pod cs) <> nodeOfPod p)
        then (Err (AssumedOnOtherNode (pod_UID p) (nodeOfPod p) (nodeOfPod (ps_pod cs))), c)
        else if isAssumed c (pod_UID p) then (removePod p ≫= fun _ => setPods (delete (pod_UID p)) (delete (pod_UID p))) c
        else (Err (NotAssumed (pod_UID p)), c)
    | None => (Err (NotAssumed (pod_UID p)), c) end).
  { unfold cacheStep, ForgetPod. erewrite bind_Ok by by apply podKey_Ok. erewrite bind_Ok by done.
    destruct (podStates c !! pod_UID p); [|done]. unfold nodeOfPod. case_decide; [done|].
    by destruct (isAssumed c (pod_UID p)). }
  destruct (absPods a !! pod_UID p) as [[[d|] q]|] eqn:Hk.
  - pose proof (isAssumed_entry _ _ _ _ He) as Has. destruct He as [Ha Hs]. rewrite Hs, Has in Hpre.
    cbn [ps_pod] in Hpre. destruct (decide (nodeOfPod q <> nodeOfPod p)) as [Hn|Hn].
    { eapply stepRefines_same; [done|done|]. cbn. by rewrite decide_False, Hk, decide_True. }
    destruct (remove_placed c (absPods a) (absNodes a) (pod_UID p) (Assumed d) q p) as (nl&Hrem&Hok&Hp&Hf);
      [apply Hr|apply Hr|lia|done|done| |].
    { apply (Hv d q Hk). symmetry. by apply dec_stable. }
    eapply stepRefines_intro; [rewrite Hpre; by erewrite bind_Ok by done| | |done || exact (fresher_same c)|done|cbn; lia].
    + cbn. rewrite decide_False, Hk by done. by rewrite decide_False.
    + pose proof (rf_ok _ _ Hr) as [_ Hg0]. apply refines_pods; try done; [lia|].
      eapply (tableOk_update _ _ _ _ _ _ (pod_UID p)); [apply Hr|lookups|]. by rewrite !lookup_delete_eq.
  - pose proof (isAssumed_added _ _ _ He) as Has. destruct He as [Ha (ps&Hs&Hq)]. rewrite Hs, Has, Hq in Hpre.
    destruct (decide (nodeOfPod q <> nodeOfPod p)) as [Hn|Hn];
      (eapply stepRefines_same; [done|exact Hpre|]; cbn; rewrite decide_False, Hk by done);
      [by rewrite decide_True|by rewrite decide_False].
  - destruct He as [_ Hs]. rewrite Hs in Hpre.
    eapply stepRefines_same; [done|done|]. cbn. by rewrite decide_False, Hk.
Qed.

Lemma add_refines p c a :
  refines c a -> validEvent a (EvAdd p) -> generation c + cost (EvAdd p) <= max_int64 ->
  stepRefines (EvAdd p) c a.
Proof.
  intros Hr Hv Hmax. cbn [cost] in Hmax. destruct (decide (pod_UID p = "")) as [Hu|Hu].
  { eapply stepRefines_same; [done|by apply podKey_empty|]. cbn. by rewrite decide_True. }
  pose proof (rf_table _ _ Hr (pod_UID p)) as He. pose proof (rf_ok _ _ Hr) as [Hok Hg0].
  assert (Hpre : cacheStep (EvAdd p) c = match podStates c !! pod_UID p with
    | Some cs => if isAssumed c (pod_UID p) then
        ((if decide (nodeOfPod (ps_pod cs) <> nodeOfPod p)
          then logged (removePod (ps_pod cs)) ≫= fun _ => addPod p else mret tt) ≫= fun _ =>
         setPods (delete (pod_UID p)) (confirmState (pod_UID p) p)) c
        else (Err (AlreadyAdded (pod_UID p)), c)
    | None => (addPod p ≫= fun _ => setPods id (fun states =>
        <[pod_UID p := {| ps_pod := p; deadline := None; bindingFinished := false |}]> states)) c end).
  { unfold cacheStep, AddPod. erewrite bind_Ok by by apply podKey_Ok. erewrite bind_Ok by done.
    destruct (podStates c !! pod_UID p); [|done]. by destruct (isAssumed c (pod_UID p)). }
  destruct (absPods a !! pod_UID p) as [[[d|] q]|] eqn:Hk.
  - pose proof (isAssumed_entry _ _ _ _ He) as Has. destruct He as [Ha Hs]. rewrite Hs, Has in Hpre.
    cbn [ps_pod] in Hpre. pose proof (pl_key _ _ _ (rf_placed _ _ Hr) _ _ _ Hk) as [Huq _].
    assert (Htab : tableOk (delete (pod_UID p) (assumedPods c)) (confirmState (pod_UID p) p (podStates c))
      (<[pod_UID p := (Added, p)]> (absPods a))).
    { eapply (tableOk_update _ _ _ _ _ _ (pod_UID p)); [apply Hr|unfold confirmState; lookups|].
      unfold confirmState. rewrite lookup_delete_eq, lookup_alter_eq, lookup_insert_eq, Hs.
      split; [done|]. by eexists. }
    destruct (decide (nodeOfPod q <> nodeOfPod p)) as [Hn|Hn].
    + destruct (remove_placed c (absPods a) (absNodes a) (pod_UID p) (Assumed d) q q) as (nl&Hrem&Hok1&Hp1&Hf1);
        [apply Hr|apply Hr|lia|done|done|done|].
      set (c1 := withList c (generation c + 1) nl) in *.
      destruct (add_placed c1 (delete (pod_UID p) (absPods a)) (absNodes a) Added p) as (g&nl2&Hadd&Hok2&Hg2&Hp2&Hf2);
        [by split; [|cbn; lia]|done|cbn; lia|by rewrite lookup_delete_eq|done|].
      rewrite insert_delete_eq in Hp2.
      eapply stepRefines_intro.
      * rewrite Hpre, bind_assoc. erewrite bind_Ok by by (unfold logged; rewrite Hrem).
        erewrite bind_Ok by done. reflexivity.
      * cbn. by rewrite decide_False, Hk.
      * apply (refines_pods c); try done. cbn in Hg2. lia.
      * eapply (fresher_trans c c1); [done|cbn; lia|done].
      * done.
      * cbn in *. lia.
    + eapply stepRefines_intro; [rewrite Hpre; by erewrite bind_Ok by done| | |done || exact (fresher_same c)|done|cbn; lia].
      * cbn. by rewrite decide_False, Hk.
      * rewrite (withList_same c) at 1. apply refines_pods; try done.
        eapply placed_retag; [apply Hr|done|done|].
        apply (Hv d q Hk). symmetry. by apply dec_stable.
  - pose proof (isAssumed_added _ _ _ He) as Has. destruct He as [Ha (ps&Hs&Hq)]. rewrite Hs, Has in Hpre.
    eapply stepRefines_same; [done|exact Hpre|]. cbn. by rewrite decide_False, Hk.
  - destruct He as [Ha Hs]. rewrite Hs in Hpre.
    destruct (add_placed c (absPods a) (absNodes a) Added p) as (g&nl&Hadd&Hok2&Hg2&Hp2&Hf2);
      [apply Hr|apply Hr|lia|done|done|].
    eapply stepRefines_intro; [rewrite Hpre; by erewrite bind_Ok by done| | |done || exact (fresher_same c)|done|cbn; lia].
    + cbn. by rewrite decide_False, Hk.
    + apply refines_pods; try done; [lia|].
      eapply (tableOk_update _ _ _ _ _ _ (pod_UID p)); [apply Hr|lookups|].
      rewrite !lookup_insert_eq. split; [done|]. by eexists.
Qed.

Lemma update_refines old new c a :
  refines c a -> validEvent a (EvUpdate old new) -> generation c + cost (EvUpdate old new) <= max_int64 ->
  stepRefines (EvUpdate old new) c a.
Proof.
  intros Hr Hv Hmax. cbn [cost] in Hmax. destruct (decide (pod_UID old = "")) as [Hu|Hu].
  { eapply stepRefines_same; [done|by apply podKey_empty|]. cbn. by rewrite decide_True. }
  pose proof (rf_table _ _ Hr (pod_UID old)) as He. pose proof (rf_ok _ _ Hr) as [Hok Hg0].
  assert (Hpre : cacheStep (EvUpdate old new) c = match podStates c !! pod_UID old with
    | Some cs => if isAssumed c (pod_UID old) then (Err (NotAdded (pod_UID old)), c)
        else if decide (nodeOfPod (ps_pod cs) <> nodeOfPod new) then (Panic, c)
        else (updatePod old new ≫= fun _ => setPods id (alter (fun ps =>
          {| ps_pod := new; deadline := deadline ps; bindingFinished := bindingFinished ps |}) (pod_UID old))) c
    | None => (Err (NotAdded (pod_UID old)), c) end).
  { unfold cacheStep, UpdatePod. erewrite bind_Ok by by apply podKey_Ok. erewrite bind_Ok by done.
    destruct (podStates c !! pod_UID old); [|done]. destruct (isAssumed c (pod_UID old)); [done|].
    unfold nodeOfPod. by case_decide. }
  destruct (absPods a !! pod_UID old) as [[[d|] q]|] eqn:Hk.
  - pose proof (isAssumed_entry _ _ _ _ He) as Has. destruct He as [Ha Hs]. rewrite Hs, Has in Hpre.
    eapply stepRefines_same; [done|exact Hpre|]. cbn. by rewrite decide_False, Hk.
  - pose proof (isAssumed_added _ _ _ He) as Has. destruct He as [Ha (ps&Hs&Hq)]. rewrite Hs, Has, Hq in Hpre.
    destruct (decide (nodeOfPod q <> nodeOfPod new)) as [Hn|Hn].
    { eapply stepRefines_same; [done|exact Hpre|]. cbn. by rewrite decide_False, Hk, decide_True. }
    destruct (Hv q Hk) as [Hspec Huid]; [symmetry; by apply dec_stable|].
    destruct (remove_placed c (absPods a) (absNodes a) (pod_UID old) Added q old) as (nl&Hrem&Hok1&Hp1&Hf1);
      [apply Hr|apply Hr|lia|done|done|done|].
    set (c1 := withList c (generation c + 1) nl) in *.
    destruct (add_placed c1 (delete (pod_UID old) (absPods a)) (absNodes a) Added new) as (g&nl2&Hadd&Hok2&Hg2&Hp2&Hf2);
      [by split; [|cbn; lia]|done|cbn; lia|by rewrite Huid, lookup_delete_eq|congruence|].
    rewrite Huid, insert_delete_eq in Hp2.
    eapply stepRefines_intro.
    + rewrite Hpre. unfold updatePod. rewrite bind_assoc. erewrite bind_Ok by done.
      erewrite bind_Ok by done. reflexivity.
    + cbn. rewrite decide_False, Hk by done. by rewrite decide_False.
    + apply (refines_pods c); try done; [cbn in Hg2; lia|].
      eapply (tableOk_update _ _ _ _ _ _ (pod_UID old)); [apply Hr|lookups|].
      cbn [withList podStates assumedPods]. rewrite lookup_alter_eq, lookup_insert_eq. cbn.
      rewrite Ha, Hs. split; [done|]. by eexists.
    + eapply (fresher_trans c c1); [done|cbn; lia|done].
    + done.
    + cbn in *. lia.
  - destruct He as [_ Hs]. rewrite Hs in Hpre.
    eapply stepRefines_same; [done|done|]. cbn. by rewrite decide_False, Hk.
Qed.

Lemma remove_refines p c a :
  refines c a -> generation c + cost (EvRemove p) <= max_int64 -> stepRefines (EvRemove p) c a.
Proof.
  intros Hr Hmax. cbn [cost] in Hmax. destruct (decide (pod_UID p = "")) as [Hu|Hu].
  { eapply stepRefines_same; [done|by apply podKey_empty|]. cbn. by rewrite decide_True. }
  pose proof (rf_table _ _ Hr (pod_UID p)) as He. pose proof (rf_ok _ _ Hr) as [Hok Hg0].
  assert (Hpre : cacheStep (EvRemove p) c = match podStates c !! pod_UID p with
    | Some cs => if isAssumed c (pod_UID p) then (Err (PodNotFound (pod_UID p)), c)
        else if decide (nodeOfPod (ps_pod cs) <> nodeOfPod p) then (Panic, c)
        else (removePod (ps_pod cs) ≫= fun _ => setPods id (delete (pod_UID p))) c
    | None => (Err (PodNotFound (pod_UID p)), c) end).
  { unfold cacheStep, RemovePod. erewrite bind_Ok by by apply podKey_Ok. erewrite bind_Ok by done.
    destruct (podStates c !! pod_UID p); [|done]. destruct (isAssumed c (pod_UID p)); [done|].
    unfold nodeOfPod. by case_decide. }
  destruct (absPods a !! pod_UID p) as [[[d|] q]|] eqn:Hk.
  - pose proof (isAssumed_entry _ _ _ _ He) as Has. destruct He as [Ha Hs]. rewrite Hs, Has in Hpre.
    eapply stepRefines_same; [done|exact Hpre|]. cbn. by rewrite decide_False, Hk.
  - pose proof (isAssumed_added _ _ _ He) as Has. destruct He as [Ha (ps&Hs&Hq)]. rewrite Hs, Has, Hq in Hpre.
    destruct (decide (nodeOfPod q <> nodeOfPod p)) as [Hn|Hn].
    { eapply stepRefines_same; [done|exact Hpre|]. cbn. by rewrite decide_False, Hk, decide_True. }
    pose proof (pl_key _ _ _ (rf_placed _ _ Hr) _ _ _ Hk) as [Huq _].
    destruct (remove_placed c (absPods a) (absNodes a) (pod_UID p) Added q q) as (nl&Hrem&Hok1&Hp1&Hf1);
      [apply Hr|apply Hr|lia|done|done|done|].
    eapply stepRefines_intro; [rewrite Hpre; by erewrite bind_Ok by done| | |done || exact (fresher_same c)|done|cbn; lia].
    + cbn. rewrite decide_False, Hk by done. by rewrite decide_False.
    + apply refines_pods; try done; [lia|].
      eapply (tableOk_update _ _ _ _ _ _ (pod_UID p)); [apply Hr|lookups|].
      cbn. by rewrite !lookup_delete_eq, Ha.
  - destruct He as [_ Hs]. rewrite Hs in Hpre.
    eapply stepRefines_same; [done|done|]. cbn. by rewrite decide_False, Hk.
Qed.

Definition expiredKey (now : Z) (t : gmap string (podPhase * Pod)) (k : string) : bool :=
  match t !! k with Some (ph, _) => expired now ph | None => false end.

(** One key of the cleanup: expired or left alone. *)
Lemma cleanup_key now k d q c a :
  refines c a -> absPods a !! k = Some (Assumed d, q) -> generation c + 1 <= max_int64 ->
  exists c', cleanupAssumedPod now k c = (Ok tt, c') /\ ttl c' = ttl c /\ fresher c (cInfo c') /\
    refines c' (setPodTable a (if expired now (Assumed d) then delete k (absPods a) else absPods a)) /\
    generation c <= generation c' <= generation c + 1.
Proof.
  intros Hr Hk Hmax. pose proof (rf_table _ _ Hr k) as He. rewrite Hk in He. destruct He as [Ha Hs].
  assert (Hstay : exists c', (Ok tt, c) = (Ok (E := cacheError) tt, c') /\ ttl c' = ttl c /\ fresher c (cInfo c') /\
    refines c' (setPodTable a (absPods a)) /\ generation c <= generation c' <= generation c + 1).
  { exists c. split_and!; try done; [apply fresher_same|by destruct a|lia..]. }
  unfold cleanupAssumedPod. erewrite bind_Ok by done. rewrite Hs. cbn [bindingFinished deadline].
  destruct d as [dl|]; [|exact Hstay]. cbn [expired]. cbn iota.
  rewrite (bool_decide_eq_true_2 (Some dl <> None)) by done.
  destruct (decide (dl < now)) as [Hlt|Hlt]; cycle 1.
  { rewrite (bool_decide_eq_false_2 (dl < now)) by done. exact Hstay. }
  rewrite (bool_decide_eq_true_2 (dl < now)) by done.
  pose proof (rf_ok _ _ Hr) as [Hok Hg0]. pose proof (pl_key _ _ _ (rf_placed _ _ Hr) _ _ _ Hk) as [Huq _].
  destruct (remove_placed c (absPods a) (absNodes a) k (Assumed (Some dl)) q q) as (nl&Hrem&Hok1&Hp1&Hf1);
    [apply Hr|apply Hr|lia|done|done|done|].
  eexists. split; [|split; [|split; [|split]]].
  - unfold logged, expirePod. by erewrite bind_Ok by exact Hrem.
  - done.
  - done.
  - apply refines_pods; try done; [lia|].
    eapply (tableOk_update _ _ _ _ _ _ k); [apply Hr|lookups|]. by rewrite !lookup_delete_eq.
  - cbn. lia.
Qed.

Lemma cleanup_loop now keys : forall c a,
  refines c a -> NoDup keys ->
  (forall k, k ∈ keys -> exists d q, absPods a !! k = Some (Assumed d, q)) ->
  generation c + Z.of_nat (length keys) <= max_int64 ->
  exists c' t', foldr (fun key k => cleanupAssumedPod now key ≫= fun _ => k) (mret tt) keys c = (Ok tt, c') /\
    ttl c' = ttl c /\ fresher c (cInfo c') /\ refines c' (setPodTable a t') /\
    (forall k, t' !! k = if decide (k ∈ keys /\ expiredKey now (absPods a) k = true) then None else absPods a !! k) /\
    generation c <= generation c' <= generation c + Z.of_nat (length keys).
Proof.
  induction keys as [|k keys IH]; intros c a Hr Hnd Hkeys Hmax; cbn [foldr length] in *.
  - exists c, (absPods a). split_and!; try done; [apply fresher_same|by destruct a|lia..].
  - apply NoDup_cons in Hnd as [Hnot Hnd]. simpl in Hmax.
    destruct (Hkeys k ltac:(set_solver)) as (d&q&Hk).
    destruct (cleanup_key now k d q c a) as (c1&Hc1&Httl1&Hf1&Hr1&Hg1); [done|done|lia|].
    set (t1 := if expired now (Assumed d) then _ else _) in *.
    assert (Ht1 : forall k', t1 !! k' = if decide (k' = k /\ expired now (Assumed d) = true) then None else absPods a !! k').
    { intros k'. unfold t1. destruct (expired now (Assumed d)).
      - destruct (decide (k' = k)) as [->|Hne]; [by rewrite lookup_delete_eq, decide_True|].
        rewrite lookup_delete_ne by done. rewrite decide_False; [done|tauto].
      - rewrite decide_False; [done|]. by intros [_ ?]. }
    destruct (IH c1 (setPodTable a t1)) as (c'&t'&Hc'&Httl&Hf&Hr'&Ht'&Hg'); [done|done| |lia|].
    + intros k' Hk'. cbn [absPods setPodTable]. rewrite Ht1, decide_False by (intros [-> _]; done).
      apply Hkeys. set_solver.
    + exists c', t'. split_and!; [by erewrite bind_Ok by done|congruence| |done| |lia..].
      { eapply (fresher_trans c c1); [done|lia|done]. }
      intros k'. rewrite Ht'. unfold expiredKey. cbn [absPods setPodTable]. rewrite Ht1.
      destruct (decide (k' = k)) as [->|Hne].
      * rewrite (decide_False (P := k ∈ keys /\ _)) by tauto. rewrite Hk.
        apply decide_ext. rewrite elem_of_cons. tauto.
      * rewrite (decide_False (P := k' = k /\ _)) by tauto. apply decide_ext. rewrite elem_of_cons. tauto.
Qed.

Lemma cleanup_refines now keys c a :
  refines c a -> validEvent a (EvCleanup now keys) -> generation c + cost (EvCleanup now keys) <= max_int64 ->
  stepRefines (EvCleanup now keys) c a.
Proof.
  intros Hr [Hnd Hkeys] Hmax. cbn [cost] in Hmax.
  destruct (cleanup_loop now keys c a Hr Hnd) as (c'&t'&Hc'&Httl&Hf&Hr'&Ht'&Hg'); [by intros k ?%Hkeys|done|].
  assert (Heq : t' = filter (fun kp => expired now kp.2.1 = false) (absPods a)).
  { apply map_eq. intros k. rewrite Ht'. unfold expiredKey.
    destruct (absPods a !! k) as [[ph q]|] eqn:Hk; cycle 1.
    - rewrite decide_False by (by intros [_ ?]). symmetry. apply map_lookup_filter_None. by left.
    - destruct (expired now ph) eqn:Hex.
      + rewrite decide_True; cycle 1.
        { split; [|done]. apply Hkeys. destruct ph as [d|]; [by exists d, q|done]. }
        symmetry. apply map_lookup_filter_None. right. intros x Hx. simplify_eq/=. by rewrite Hex.
      + rewrite decide_False by (by intros [_ ?]). symmetry. by apply map_lookup_filter_Some. }
  eapply stepRefines_intro.
  - unfold cacheStep, cleanupAssumedPods. erewrite bind_Ok by done. reflexivity.
  - cbn. by rewrite <- Heq.
  - destruct Hr'. by split.
  - done.
  - done.
  - cbn. lia.
Qed.
End PodSteps.

(** ** Image states *)
Section Images.
Implicit Types (states : gmap string imageState) (ns : gmap string Node).

Definition hasImage states (img n : string) : Prop :=
  exists st, states !! img = Some st /\ n ∈ imageNodes st.
Definition usedImages states : Prop := forall img st, states !! img = Some st -> imageNodes st <> ∅.

Lemma addNodeImageState_spec n states sum image :
  usedImages states ->
  usedImages (addNodeImageState n (states, sum) image).1 /\
  forall img m, hasImage (addNodeImageState n (states, sum) image).1 img m <->
    hasImage states img m \/ (m = n /\ img = image.1).
Proof.
  intros Hu. destruct image as [name sz]. cbn [addNodeImageState fst].
  set (st := match states !! name with None => _ | Some _ => _ end).
  assert (Hst : forall m, m ∈ imageNodes st <-> hasImage states name m \/ m = n).
  { intros m. unfold st, hasImage. destruct (states !! name) as [st0|]; cbn [imageNodes].
    - rewrite elem_of_union, elem_of_singleton. naive_solver.
    - rewrite elem_of_singleton. naive_solver. }
  split.
  - intros img st'. intros [[<- <-]|[_ ?]]%lookup_insert_Some; [|by eapply Hu].
    intros He. assert (Hn : n ∈ imageNodes st) by (apply Hst; by right). rewrite He in Hn. set_solver.
  - intros img m. unfold hasImage at 1. destruct (decide (img = name)) as [->|Hne].
    + rewrite lookup_insert_eq, exists_Some, Hst. naive_solver.
    + rewrite lookup_insert_ne by done. fold (hasImage states img m). naive_solver.
Qed.

Lemma addNodeImageStates_spec n images : forall states sum,
  usedImages states ->
  usedImages (foldl (addNodeImageState n) (states, sum) images).1 /\
  forall img m, hasImage (foldl (addNodeImageState n) (states, sum) images).1 img m <->
    hasImage states img m \/ (m = n /\ img ∈ images.*1).
Proof.
  induction images as [|image images IH]; intros states sum Hu; cbn [foldl].
  - split; [done|]. intros img m. split; [by left|]. intros [?|[_ ?%not_elem_of_nil]]; done.
  - destruct (addNodeImageState_spec n states sum image Hu) as [Hu1 Hm1].
    destruct (addNodeImageState n (states, sum) image) as [states1 sum1].
    destruct (IH states1 sum1 Hu1) as [Hu2 Hm2]. split; [done|].
    intros img m. rewrite Hm2, (Hm1 img m), fmap_cons, elem_of_cons. tauto.
Qed.

Lemma removeNodeImageState_spec n states image :
  usedImages states ->
  usedImages (removeNodeImageState n states image) /\
  forall img m, hasImage (removeNodeImageState n states image) img m <->
    hasImage states img m /\ ~ (m = n /\ img = image.1).
Proof.
  intros Hu. destruct image as [name sz]. unfold removeNodeImageState. cbn [fst].
  destruct (states !! name) as [st|] eqn:Hst; cycle 1.
  { split; [done|]. intros img m. split; [|by intros [? _]]. intros (st&Hs&Hm).
    split; [by exists st|]. intros [_ ->]. congruence. }
  assert (Hin : forall m, m ∈ imageNodes st ∖ {[ n ]} <-> hasImage states name m /\ m <> n).
  { intros m. unfold hasImage. rewrite Hst, exists_Some, elem_of_difference, elem_of_singleton. done. }
  case_decide as He.
  - split; [intros img st' [_ ?]%lookup_delete_Some; by eapply Hu|].
    intros img m. unfold hasImage at 1. destruct (decide (img = name)) as [->|Hne].
    + rewrite lookup_delete_eq, exists_None. specialize (Hin m). rewrite He in Hin.
      pose proof (not_elem_of_empty (C := gset string) m). naive_solver.
    + rewrite lookup_delete_ne by done. fold (hasImage states img m). naive_solver.
  - split.
    + intros img st' [[_ <-]|[_ ?]]%lookup_insert_Some; [done|by eapply Hu].
    + intros img m. unfold hasImage at 1. destruct (decide (img = name)) as [->|Hne].
      * rewrite lookup_insert_eq, exists_Some. cbn [imageNodes]. rewrite Hin. naive_solver.
      * rewrite lookup_insert_ne by done. fold (hasImage states img m). naive_solver.
Qed.

Lemma removeNodeImageStates_spec n images : forall states,
  usedImages states ->
  usedImages (foldl (removeNodeImageState n) states images) /\
  forall img m, hasImage (foldl (removeNodeImageState n) states images) img m <->
    hasImage states img m /\ ~ (m = n /\ img ∈ images.*1).
Proof.
  induction images as [|image images IH]; intros states Hu; cbn [foldl].
  - split; [done|]. intros img m. split; [|by intros [? _]]. intros ?. split; [done|].
    by intros [_ ?%not_elem_of_nil].
  - destruct (removeNodeImageState_spec n states image Hu) as [Hu1 Hm1].
    destruct (IH _ Hu1) as [Hu2 Hm2]. split; [done|].
    intros img m. rewrite Hm2, Hm1, fmap_cons, elem_of_cons. tauto.
Qed.

(** The images without those of the node that was stored under [name]. *)
Definition dropImages (name : string) (old : option Node) states : gmap string imageState :=
  match old with None => states | Some nd => foldl (removeNodeImageState (node_Name nd)) states (imageNames nd) end.

Lemma dropImages_ok name states ns :
  (forall nd, ns !! name = Some nd -> node_Name nd = name) -> usedImages states -> imagesOk states ns ->
  usedImages (dropImages name (ns !! name) states) /\
  imagesOk (dropImages name (ns !! name) states) (delete name ns).
Proof.
  intros Hn Hu Hok. unfold dropImages. destruct (ns !! name) as [nd|] eqn:Hnd; cycle 1.
  { split; [done|]. by rewrite delete_id. }
  rewrite (Hn nd eq_refl).
  destruct (removeNodeImageStates_spec name (imageNames nd) states Hu) as [Hu' Hm]. split; [done|].
  intros img m. fold (hasImage (foldl (removeNodeImageState name) states (imageNames nd)) img m).
  rewrite Hm. unfold hasImage. rewrite (Hok img m). destruct (decide (m = name)) as [->|Hne].
  - rewrite lookup_delete_eq, exists_None, Hnd, exists_Some. tauto.
  - rewrite lookup_delete_ne by done. tauto.
Qed.

Lemma addImages_ok name nd states sum ns :
  node_Name nd = name -> usedImages states -> imagesOk states (delete name ns) ->
  usedImages (foldl (addNodeImageState (node_Name nd)) (states, sum) (imageNames nd)).1 /\
  imagesOk (foldl (addNodeImageState (node_Name nd)) (states, sum) (imageNames nd)).1 (<[name := nd]> ns).
Proof.
  intros -> Hu Hok.
  destruct (addNodeImageStates_spec name (imageNames nd) states sum Hu) as [Hu' Hm]. split; [done|].
  intros img m. fold (hasImage (foldl (addNodeImageState name) (states, sum) (imageNames nd)).1 img m).
  rewrite Hm. unfold hasImage. rewrite (Hok img m). destruct (decide (m = name)) as [->|Hne].
  - rewrite lookup_insert_eq, lookup_delete_eq, exists_Some, exists_None. tauto.
  - rewrite lookup_insert_ne, lookup_delete_ne by done. tauto.
Qed.
End Images.

(** ** The node tree of the code: one zone *)
Lemma addNode_names nt nd :
  treeInv nt -> treeInv (addNode nt nd) /\
  forall t, t ∈ allNodes (addNode nt nd) <-> t = ("", node_Name nd) \/ t ∈ allNodes nt.
Proof.
  intros Hi. destruct (decide (nodeTag nd ∈ allNodes nt)) as [Hin|Hin].
  - rewrite addNode_present by done. split; [done|]. intros t. change ("", node_Name nd) with (nodeTag nd).
    split; [by right|]. by intros [->|?].
  - destruct (addNode_new nt nd Hi Hin) as [Hi' Hp]. split; [done|].
    intros t. by rewrite Hp, elem_of_cons.
Qed.

Lemma removeNode_names nt nd :
  treeInv nt -> ("", node_Name nd) ∈ allNodes nt ->
  exists nt', removeNode nt (Some nd) = (Ok tt, nt') /\ treeInv nt' /\
    forall t, t ∈ allNodes nt' <-> t <> ("", node_Name nd) /\ t ∈ allNodes nt.
Proof.
  intros Hi Hin. destruct (removeNode_present nt nd Hi Hin) as (nt'&Hr&Hi'&Hp).
  exists nt'. split_and!; [done..|]. intros t. rewrite Hp, elem_of_cons.
  pose proof (allNodes_NoDup nt Hi) as Hnd. rewrite Hp in Hnd. apply NoDup_cons in Hnd as [Hnot _].
  change ("", node_Name nd) with (nodeTag nd). split; [|tauto].
  intros Ht. split; [|by right]. by intros ->.
Qed.

Section NodeSteps.
Context `{LabelsLib}.
Implicit Types (c : schedulerCache) (a : absCache).

Lemma accounted_same i i' :
  Pods i' = Pods i -> PodsWithAffinity i' = PodsWithAffinity i -> Requested i' = Requested i ->
  NonZeroRequested i' = NonZeroRequested i -> accounted i -> accounted i'.
Proof.
  intros Hp Hpa Hr Hn []. split; unfold podUIDs, total in *; rewrite ?Hp, ?Hpa, ?Hr, ?Hn; try done.
Qed.

Lemma placed_podsOn infos t ns name :
  placed infos t ns -> from_option infoTags [] (infos !! name) = [] <-> podsOn t name = [].
Proof.
  intros Hp. split; intros Hnil.
  - destruct (podsOn t name) as [|p l] eqn:Hl; [done|]. exfalso.
    assert (Hin : p ∈ podsOn t name) by (rewrite Hl; set_solver).
    apply list_elem_of_filter in Hin as [Hn Hin].
    apply list_elem_of_fmap in Hin as ([k [ph q]]&->&Hk). apply elem_of_map_to_list in Hk. cbn in *.
    pose proof (proj2 (pl_tags _ _ _ Hp name k (pod_Spec q))) as Ht. rewrite Hnil in Ht.
    eapply not_elem_of_nil, Ht. by exists ph, q.
  - destruct (from_option infoTags [] (infos !! name)) as [|[k s] l] eqn:Hl; [done|]. exfalso.
    assert (Hin : (k, s) ∈ from_option infoTags [] (infos !! name)) by (rewrite Hl; set_solver).
    apply (pl_tags _ _ _ Hp) in Hin as (ph&p&Hk&<-&Hn).
    eapply (not_elem_of_nil p). rewrite <- Hnil. apply list_elem_of_filter. split; [done|].
    apply (list_elem_of_fmap_2 (fun kp => kp.2.2) _ (k, (ph, p))). by apply elem_of_map_to_list.
Qed.

Lemma placed_setNode infos t ns name i nd :
  placed infos t ns -> accounted i -> infoTags i = from_option infoTags [] (infos !! name) -> node i = Some nd ->
  placed (<[name := i]> infos) t (<[name := nd]> ns).
Proof.
  intros Hp Ha Htags Hnd. split.
  - apply Hp.
  - intros n j [[_ <-]|[_ ?]]%lookup_insert_Some; [done|by eapply pl_acc].
  - intros n. destruct (decide (n = name)) as [->|Hne]; [by rewrite !lookup_insert_eq|].
    rewrite !lookup_insert_ne by done. apply Hp.
  - intros n j [[_ <-]|[_ ?]]%lookup_insert_Some; [congruence|by eapply pl_ghost].
  - intros n k s. rewrite <- (pl_tags _ _ _ Hp). destruct (decide (n = name)) as [->|Hne].
    + rewrite lookup_insert_eq. simpl. by rewrite Htags.
    + by rewrite lookup_insert_ne.
Qed.

(** The node that [SetNode] leaves in a node info whose images were set. *)
Definition installed (g : Z) (i : NodeInfo) (sum : gmap string ImageStateSummary) (nd : Node) : NodeInfo :=
  (SetNode g (NodeInfo.setImageStates i sum) nd).2.

Lemma accounted_installed g i sum nd : accounted i -> accounted (installed g i sum nd).
Proof. by apply accounted_same. Qed.

(** The end of [AddNode] and [UpdateNode]. *)
Lemma install_spec nd c g0 i :
  touching (nodeInfos c) (node_Name nd) g0 HeadItem -> infoMap (nodeInfos c) !! node_Name nd = Some i ->
  g0 <= generation c -> 0 <= generation c < max_int64 ->
  exists nl sum,
    (addNodeImageStates nd (node_Name nd) ≫= fun _ =>
     updateInfo (node_Name nd) (fun g i => (tt, SetNode g i nd))) c =
    (Ok tt, withImages (withList c (generation c + 1) nl)
              (foldl (addNodeImageState (node_Name nd)) (imageStates c, ∅) (imageNames nd)).1) /\
    chainOk nl (generation c + 1) /\
    infoMap nl = <[node_Name nd := installed (generation c) i sum nd]> (infoMap (nodeInfos c)).
Proof.
  intros Ht Hi Hg0 Hg. set (name := node_Name nd) in *.
  destruct (foldl (addNodeImageState name) (imageStates c, ∅) (imageNames nd)) as [states sum] eqn:Hf.
  destruct (setInfo_touching (nodeInfos c) name g0 HeadItem (NodeInfo.setImageStates i sum) Ht) as [Ht1 Hm1].
  set (nl1 := setInfo name (NodeInfo.setImageStates i sum) (nodeInfos c)) in *.
  destruct (setInfo_touching nl1 name g0 HeadItem (installed (generation c) i sum nd) Ht1) as [Ht2 Hm2].
  set (nl2 := setInfo name (installed (generation c) i sum nd) nl1) in *.
  assert (Hsn : SetNode (generation c) (NodeInfo.setImageStates i sum) nd =
    (generation c + 1, installed (generation c) i sum nd)).
  { unfold installed, SetNode. cbn [snd]. by rewrite !(nextGeneration_succ (generation c)). }
  exists nl2, sum. split; [|split].
  - erewrite bind_Ok; cycle 1.
    { unfold addNodeImageStates. fold name. rewrite Hf, infoOf_infoMap, Hi. reflexivity. }
    fold nl1. unfold updateInfo. cbn [nodeInfos withImages withList generation].
    rewrite infoOf_infoMap, Hm1, lookup_insert_eq, Hsn. done.
  - eapply touching_done; [exact Ht2|rewrite Hm2; apply lookup_insert_eq|].
    unfold installed, SetNode. cbn [snd Generation]. rewrite nextGeneration_succ by done. lia.
  - by rewrite Hm2, Hm1, insert_insert_eq.
Qed.

(** [removeOldImages] after [ensureItem]. *)
Lemma removeOldImages_spec name c (infos : gmap string NodeInfo) isNew :
  isNew = bool_decide (infos !! name = None) ->
  (forall i, infos !! name = Some i -> infoMap (nodeInfos c) !! name = Some i) ->
  removeOldImages isNew name c =
    (Ok tt, withImages c (dropImages name (infos !! name ≫= node) (imageStates c))).
Proof.
  intros -> Hi. unfold removeOldImages. destruct (infos !! name) as [i|] eqn:Hn.
  - rewrite bool_decide_eq_false_2 by done. erewrite bind_Ok by done.
    rewrite infoOf_infoMap, (Hi i eq_refl). unfold NodeOf, removeNodeImageStates. cbn.
    destruct (node i); [done|]. cbn. by destruct c.
  - rewrite bool_decide_eq_true_2 by done. cbn. by destruct c.
Qed.

(** Everything [AddNode] and [UpdateNode] establish. *)
Lemma refines_installed c a g nl nt states nd i (infos : gmap string NodeInfo) gi sum :
  refines c a -> chainOk nl g -> 0 <= g ->
  cInfo c = infos -> i = default (blankInfo gi) (infos !! node_Name nd) ->
  (forall g', infoMap nl = <[node_Name nd := installed g' i sum nd]> infos ->
  treeInv nt -> (forall t, t ∈ allNodes nt <-> t = ("", node_Name nd) \/ t ∈ allNodes (cacheTree c)) ->
  usedImages states -> imagesOk states (<[node_Name nd := nd]> (absNodes a)) ->
  refines (withImages (withTree (withList c g nl) nt) states)
    {| absPods := absPods a; absNodes := <[node_Name nd := nd]> (absNodes a) |}).
Proof.
  intros Hr Hok Hg Hinfos Hi g' Hm Hnt Hnames Hu Him.
  assert (Ha : accounted i).
  { subst. destruct (cInfo c !! node_Name nd) eqn:Hc; [by eapply pl_acc; [apply Hr|]|apply accounted_blank]. }
  assert (Htags : infoTags i = from_option infoTags [] (infos !! node_Name nd)).
  { subst. by destruct (cInfo c !! node_Name nd). }
  split; try done.
  - apply Hr.
  - change (placed (infoMap nl) (absPods a) (<[node_Name nd := nd]> (absNodes a))).
    rewrite Hm. apply placed_setNode; [subst; apply Hr|by apply accounted_installed|done|done].
  - intros t. cbn [cacheTree withImages withTree absNodes]. rewrite Hnames, (rf_names _ _ Hr).
    destruct t as [z n]. cbn [fst snd]. rewrite lookup_insert_is_Some'. naive_solver.
  - intros name nd'. cbn [absNodes]. intros [[<- <-]|[_ ?]]%lookup_insert_Some; [done|by eapply rf_named].
Qed.

(** What [AddNode] and [UpdateNode] share: an item for the node, the images of the
    node it held dropped, the tree entry, and the new node installed. *)
Lemma installNode nd c a :
  refines c a -> generation c + 3 <= max_int64 ->
  let name := node_Name nd in
  exists isNew g nl c', ensureItem name c = (Ok isNew, withList c g nl) /\
    isNew = bool_decide (cInfo c !! name = None) /\
    (forall i, cInfo c !! name = Some i -> infoMap nl !! name = Some i) /\
    (addNodeImageStates nd name ≫= fun _ => updateInfo name (fun g i => (tt, SetNode g i nd)))
      (withImages (withTree (withList c g (moveNodeInfoToHead name nl)) (addNode (cacheTree c) nd))
        (dropImages name (cInfo c !! name ≫= node) (imageStates c))) = (Ok tt, c') /\
    refines c' {| absPods := absPods a; absNodes := <[name := nd]> (absNodes a) |} /\
    fresher c (cInfo c') /\ ttl c' = ttl c /\ generation c <= generation c' <= generation c + 3.
Proof.
  intros Hr Hmax name.
  destruct (ensureItem_spec name c) as (isNew&g&nl&He&Ht&Hg&Hnew&Hm); [apply Hr|lia|].
  pose proof (rf_ok _ _ Hr) as [Hok Hg0].
  destruct (move_touching _ _ _ _ Ht) as [Ht1 Hm1].
  set (st1 := dropImages name (cInfo c !! name ≫= node) (imageStates c)).
  set (i := default (blankInfo g) (cInfo c !! name)).
  assert (Hi : infoMap nl !! name = Some i).
  { rewrite Hm. unfold i. destruct (cInfo c !! name) eqn:Hc; [done|]. by rewrite lookup_insert_eq. }
  assert (Hgr : generation c <= g <= generation c + 1) by (destruct isNew; lia).
  destruct (install_spec nd (withImages (withTree (withList c g (moveNodeInfoToHead name nl))
    (addNode (cacheTree c) nd)) st1) (generation c) i) as (nl2&sum&Hinst&Hok2&Hm2);
    [done|cbn [nodeInfos withImages withTree withList]; by rewrite Hm1|cbn; lia|cbn; lia|].
  destruct (addNode_names (cacheTree c) nd (rf_tree _ _ Hr)) as [Htree Hnames].
  destruct (dropImages_ok name (imageStates c) (absNodes a)) as [Hu1 Him1];
    [by intros; eapply rf_named|exact (rf_used _ _ Hr)|apply Hr|].
  rewrite <- (pl_live _ _ _ (rf_placed _ _ Hr)) in Hu1, Him1. fold st1 in Hu1, Him1.
  destruct (addImages_ok name nd st1 ∅ (absNodes a) eq_refl Hu1 Him1) as [Hu2 Him2].
  assert (Hm3 : infoMap nl2 = <[name := installed g i sum nd]> (cInfo c)).
  { rewrite Hm2. cbn [nodeInfos withImages withTree withList generation]. rewrite Hm1, Hm. fold name.
    destruct (cInfo c !! name); [done|]. by rewrite insert_insert_eq. }
  eexists isNew, g, nl, _. split_and!; [done|done| |exact Hinst| | |done|cbn; lia..].
  - intros i' Hi'. rewrite Hi. unfold i. by rewrite Hi'.
  - eapply (refines_installed c a (g + 1) nl2 (addNode (cacheTree c) nd)
      (foldl (addNodeImageState name) (st1, ∅) (imageNames nd)).1 nd i (cInfo c) g sum); try done; lia.
  - change (fresher c (infoMap nl2)). rewrite Hm3. apply fresher_insert; [apply fresher_same|].
    unfold installed, SetNode. cbn [snd Generation]. rewrite nextGeneration_succ by lia. lia.
Qed.

Lemma addNode_refines nd c a :
  refines c a -> generation c + cost (EvAddNode nd) <= max_int64 -> stepRefines (EvAddNode nd) c a.
Proof.
  intros Hr Hmax. destruct (installNode nd c a Hr Hmax) as (isNew&g&nl&c'&He&Hnew&Hm&Hinst&Hr'&Hf&Httl&Hg).
  eapply stepRefines_intro; [|reflexivity|done..].
  unfold cacheStep, AddNode. erewrite bind_Ok by done.
  erewrite bind_Ok by (apply (removeOldImages_spec _ _ (cInfo c)); done).
  do 2 erewrite bind_Ok by reflexivity. exact Hinst.
Qed.

(** A node that has an item and no ghost is in the tree. *)
Lemma item_in_tree c a old nd :
  refines c a -> validEvent a (EvUpdateNode old nd) -> is_Some (cInfo c !! node_Name nd) ->
  addNode (cacheTree c) nd = cacheTree c.
Proof.
  intros Hr Hv [i Hi]. apply addNode_present; [apply Hr|].
  apply (rf_names _ _ Hr). split; [done|]. cbn.
  destruct (absNodes a !! node_Name nd) as [nd'|] eqn:Hlive; [by eexists|]. exfalso.
  pose proof (pl_live _ _ _ (rf_placed _ _ Hr) (node_Name nd)) as Hl. rewrite Hi, Hlive in Hl. cbn in Hl.
  apply (pl_ghost _ _ _ (rf_placed _ _ Hr) _ _ Hi Hl).
  pose proof (proj2 (placed_podsOn _ _ _ (node_Name nd) (rf_placed _ _ Hr)) (Hv Hlive)) as Hnil.
  rewrite Hi in Hnil. cbn in Hnil. by apply fmap_nil_inv in Hnil.
Qed.

Lemma updateNode_refines old nd c a :
  refines c a -> validEvent a (EvUpdateNode old nd) ->
  generation c + cost (EvUpdateNode old nd) <= max_int64 -> stepRefines (EvUpdateNode old nd) c a.
Proof.
  intros Hr Hv Hmax. destruct (installNode nd c a Hr Hmax) as (isNew&g&nl&c'&He&Hnew&Hm&Hinst&Hr'&Hf&Httl&Hg).
  assert (Hpre : (if isNew then modifyTree (fun nt => addNode nt nd) else removeOldImages isNew (node_Name nd)) (withList c g nl) =
    (Ok tt, withImages (withTree (withList c g nl) (addNode (cacheTree c) nd))
      (dropImages (node_Name nd) (cInfo c !! node_Name nd ≫= node) (imageStates c)))).
  { destruct isNew.
    - symmetry in Hnew. apply bool_decide_eq_true in Hnew. rewrite Hnew. by destruct c.
    - rewrite (removeOldImages_spec _ _ (cInfo c) false) by done.
      erewrite item_in_tree; [by destruct c|done|done|].
      symmetry in Hnew. apply bool_decide_eq_false in Hnew. by apply not_eq_None_Some in Hnew. }
  eapply stepRefines_intro; [|reflexivity|done..].
  unfold cacheStep, UpdateNode. erewrite bind_Ok by done. erewrite bind_Ok by exact Hpre.
  erewrite bind_Ok by reflexivity. erewrite bind_Ok; [exact Hinst|].
  erewrite bind_Ok by done. unfold updateNode. rewrite decide_True; [reflexivity|]. by destruct old.
Qed.

(** [RemoveNode] on the item of a ghost or of a live node. *)
Lemma placed_dropNode infos t ns name i i' :
  placed infos t ns -> infos !! name = Some i -> accounted i' -> infoTags i' = infoTags i -> node i' = None ->
  placed (if decide (Pods i' = []) then delete name infos else <[name := i']> infos) t (delete name ns).
Proof.
  intros Hp Hi Ha Htags Hnd. set (infos' := if decide _ then _ else _).
  assert (Hother : forall n, n <> name -> infos' !! n = infos !! n).
  { intros n Hn. unfold infos'. case_decide; [by rewrite lookup_delete_ne|by rewrite lookup_insert_ne]. }
  assert (Hat : infos' !! name ≫= node = None /\ from_option infoTags [] (infos' !! name) = infoTags i).
  { unfold infos'. case_decide as Hnil.
    - rewrite lookup_delete_eq, <- Htags. unfold infoTags. by rewrite Hnil.
    - by rewrite lookup_insert_eq. }
  assert (Hin : forall n j, infos' !! n = Some j -> infos !! n = Some j \/ (j = i' /\ Pods i' <> [])).
  { intros n j. unfold infos'. case_decide.
    - intros [_ ?]%lookup_delete_Some. by left.
    - intros [[<- <-]|[_ ?]]%lookup_insert_Some; [by right|by left]. }
  split.
  - apply Hp.
  - intros n j [?|[-> _]]%Hin; [by eapply pl_acc|done].
  - intros n. destruct (decide (n = name)) as [->|Hne].
    + by rewrite (proj1 Hat), lookup_delete_eq.
    + rewrite Hother, lookup_delete_ne by done. apply Hp.
  - intros n j [?|[-> ?]]%Hin; [by eapply pl_ghost|done].
  - intros n k s. rewrite <- (pl_tags _ _ _ Hp). destruct (decide (n = name)) as [->|Hne].
    + by rewrite (proj2 Hat), Hi.
    + by rewrite Hother.
Qed.

(** The list part of [RemoveNode]. *)
Lemma dropItem_spec c name i :
  cOk c -> generation c < max_int64 -> cInfo c !! name = Some i ->
  exists nl i', Pods i' = Pods i /\ (accounted i -> accounted i') /\ node i' = None /\
    Generation i' = generation c + 1 /\
    (updateInfo name (fun g i => (tt, NodeInfo.RemoveNode g i)) ≫= fun _ =>
     c ← get;
     match infoOf (nodeInfos c) name with
     | None => panic
     | Some i => if decide (Pods i = []) then removeFromList name else moveToHead name
     end) c = (Ok tt, withList c (generation c + 1) nl) /\ chainOk nl (generation c + 1) /\
    infoMap nl = if decide (Pods i' = []) then delete name (cInfo c) else <[name := i']> (cInfo c).
Proof.
  intros [Hok Hg0] Hmax Hi.
  set (i' := (NodeInfo.RemoveNode (generation c) i).2).
  assert (Hrn : NodeInfo.RemoveNode (generation c) i = (generation c + 1, i')).
  { unfold i', NodeInfo.RemoveNode. cbn [snd]. by rewrite !(nextGeneration_succ (generation c)). }
  assert (Hgen : Generation i' = generation c + 1).
  { unfold i', NodeInfo.RemoveNode. cbn [snd Generation]. by rewrite nextGeneration_succ. }
  destruct (setInfo_touching (nodeInfos c) name (generation c) LinkedItem i') as [Ht Hm].
  { apply touching_existing; [done|]. by eexists. }
  set (nl1 := setInfo name i' (nodeInfos c)) in *.
  exists (if decide (Pods i' = []) then removeNodeInfoFromList name nl1 else moveNodeInfoToHead name nl1), i'.
  split_and!; [done|by apply accounted_same|done|done| | |].
  - erewrite bind_Ok by (eapply (updateInfo_spec _ _ _ i tt (generation c + 1) i'); [exact Hi|by rewrite Hrn]).
    erewrite bind_Ok by done. rewrite infoOf_infoMap. cbn [nodeInfos withList]. fold nl1.
    rewrite Hm, lookup_insert_eq. by case_decide.
  - case_decide.
    + destruct (remove_touching _ _ _ Ht) as [(ls&?&?) _]. exists ls.
      split; [done|]. eapply newest_weaken; [|done]. lia.
    + destruct (move_touching _ _ _ _ Ht) as [Ht' Hm'].
      eapply touching_done; [exact Ht'|rewrite Hm', Hm; apply lookup_insert_eq|]. lia.
  - case_decide.
    + destruct (remove_touching _ _ _ Ht) as [_ ->]. by rewrite Hm, delete_insert_eq.
    + destruct (move_touching _ _ _ _ Ht) as [_ ->]. done.
Qed.

Lemma removeNode_refines nd c a :
  refines c a -> validEvent a (EvRemoveNode nd) -> generation c + cost (EvRemoveNode nd) <= max_int64 ->
  stepRefines (EvRemoveNode nd) c a.
Proof.
  intros Hr Hv Hmax. cbn [cost] in Hmax. set (name := node_Name nd).
  pose proof (rf_ok _ _ Hr) as [[ls [Hinv Hnew]] Hg0].
  pose proof (pl_live _ _ _ (rf_placed _ _ Hr) name) as Hlive.
  pose proof (placed_podsOn _ _ _ name (rf_placed _ _ Hr)) as Hpods.
  destruct (cInfo c !! name) as [i|] eqn:Hi; cbn in Hlive, Hpods; cycle 1.
  { assert (nodes (nodeInfos c) !! name = None) as Hnone.
    { apply eq_None_not_Some. rewrite <- (infoMap_is_Some _ _ _ _ Hinv).
      unfold cInfo in Hi. rewrite Hi. by intros []. }
    eapply stepRefines_same; [done| |].
    - unfold cacheStep, RemoveNode. fold name. erewrite bind_Ok by done. by rewrite Hnone.
    - cbn. fold name. rewrite <- Hlive, decide_True by (by apply Hpods). done. }
  assert (is_Some (nodes (nodeInfos c) !! name)) as [l Hl].
  { apply (infoMap_is_Some _ _ _ _ Hinv). by eexists. }
  destruct (dropItem_spec c name i) as (nl&i'&Hpi&Hacc&Hnone&Hgen&Hrun&Hok'&Hm); [apply Hr|lia|done|].
  assert (Hf : fresher c (infoMap nl)).
  { rewrite Hm. case_decide; [apply fresher_delete, fresher_same|].
    apply fresher_insert; [apply fresher_same|lia]. }
  assert (Hpl : placed (infoMap nl) (absPods a) (delete name (absNodes a))).
  { rewrite Hm. eapply placed_dropNode; [apply Hr|done| | |done].
    - apply Hacc. by eapply pl_acc; [apply Hr|].
    - unfold infoTags. by rewrite Hpi. }
  assert (Hstep : cacheStep (EvRemoveNode nd) c =
      match removeNode (cacheTree c) (Some nd) with
      | (Err e, nt) => (Err (TreeError e), withTree (withList c (generation c + 1) nl) nt)
      | (Panic, _) => (Panic, withList c (generation c + 1) nl)
      | (Ok _, nt) => removeNodeImageStates (Some nd) (withTree (withList c (generation c + 1) nl) nt)
      end).
  { unfold cacheStep, RemoveNode. fold name. erewrite bind_Ok by done. rewrite Hl, bind_regroup.
    erewrite bind_Ok by exact Hrun. erewrite bind_Ok by done. cbn [cacheTree withList].
    by destruct (removeNode (cacheTree c) (Some nd)) as [[]]. }
  destruct (absNodes a !! name) as [nd'|] eqn:Hnd.
  - specialize (Hv nd' Hnd). subst nd'.
    destruct (removeNode_names (cacheTree c) nd (rf_tree _ _ Hr)) as (nt&Hrem&Hnt&Hnames).
    { apply (rf_names _ _ Hr). split; [done|]. by eexists. }
    rewrite Hrem in Hstep. destruct (dropImages_ok name (imageStates c) (absNodes a)) as [Hu1 Him1];
      [by intros; eapply rf_named|exact (rf_used _ _ Hr)|apply Hr|].
    rewrite Hnd in Hu1, Him1. eapply stepRefines_intro; [exact Hstep| | |done|done|cbn; lia].
    + cbn. fold name. by rewrite Hnd.
    + split; try done.
      * split; [done|cbn; lia].
      * apply Hr.
      * intros [z n]. cbn. rewrite Hnames, (rf_names _ _ Hr), lookup_delete_is_Some. cbn. fold name.
        split; [intros [Hne [-> ?]]|intros [-> [Hne ?]]]; (split; [try done|try split; try done]); congruence.
      * intros n nd'. cbn. intros [_ ?]%lookup_delete_Some. by eapply rf_named.
  - rewrite (removeNode_absent _ _ (rf_tree _ _ Hr)) in Hstep; cycle 1.
    { rewrite (rf_names _ _ Hr). cbn. fold name. rewrite Hnd. by intros [_ []]. }
    eapply stepRefines_intro; [exact Hstep| | |done|done|cbn; lia].
    + cbn. fold name. rewrite Hnd, decide_False; [done|]. rewrite <- Hpods. unfold infoTags.
      intros Hnil%fmap_nil_inv. by apply (pl_ghost _ _ _ (rf_placed _ _ Hr) _ _ Hi).
    + rewrite delete_id in Hpl by done. destruct Hr. split; try done. split; [done|cbn; lia].
Qed.
End NodeSteps.

(** ** Whole runs *)
Section Runs.
Context `{LabelsLib}.
Implicit Types (c : schedulerCache) (a : absCache).

Lemma step_refines e c a :
  refines c a -> validEvent a e -> generation c + cost e <= max_int64 -> stepRefines e c a.
Proof.
  intros Hr Hv Hmax. destruct e.
  - by apply assume_refines.
  - by apply finish_refines.
  - by apply forget_refines.
  - by apply add_refines.
  - by apply update_refines.
  - by apply remove_refines.
  - by apply cleanup_refines.
  - by apply addNode_refines.
  - by apply updateNode_refines.
  - by apply removeNode_refines.
Qed.

Lemma cost_nonneg e : 0 <= cost e.
Proof. destruct e; cbn; lia. Qed.

Lemma runCost_nonneg es : 0 <= runCost es.
Proof. apply sumOver_nonneg, list.Forall_forall. intros e _. apply cost_nonneg. Qed.

Lemma run_refines es : forall c a,
  refines c a -> validRun (ttl c) es a -> generation c + runCost es <= max_int64 ->
  (runCache es c).1 = (runAbs (ttl c) es a).1 /\ refines (runCache es c).2 (runAbs (ttl c) es a).2 /\
  ttl (runCache es c).2 = ttl c.
Proof.
  induction es as [|e es IH]; intros c a Hr Hv Hmax; [done|].
  destruct Hv as [Hve Hvs]. unfold runCost in Hmax. cbn [sumOver foldr] in Hmax.
  fold (sumOver cost es) (runCost es) in Hmax. pose proof (runCost_nonneg es) as Hnn.
  destruct (step_refines e c a Hr Hve ltac:(lia)) as (Hres&Hr1&_&Httl&Hg).
  cbn [runCache runAbs]. destruct (cacheStep e c) as [r c1], (absStep (ttl c) e a) as [r' a1].
  cbn [fst snd] in *. subst r'. case_decide; [done|].
  specialize (IH c1 a1 Hr1). rewrite Httl in IH. destruct (IH Hvs ltac:(lia)) as (Hrs&Hr2&Httl2).
  destruct (runCache es c1) as [rs c2], (runAbs (ttl c) es a1) as [rs' a2]. cbn in *. by subst rs'.
Qed.

Definition emptyAbs : absCache := {| absPods := ∅; absNodes := ∅ |}.

Lemma refines_empty ttl0 g : 0 <= g -> refines (newSchedulerCache ttl0 g) emptyAbs.
Proof.
  intros Hg. split.
  - split; [apply chainOk_empty|done].
  - intros k. cbn. by rewrite !lookup_empty.
  - split; cbn.
    + intros k ph p. by rewrite lookup_empty.
    + intros name i. unfold cInfo, infoMap. cbn. by rewrite lookup_omap, lookup_empty.
    + intros name. unfold cInfo, infoMap. cbn. by rewrite lookup_omap, !lookup_empty.
    + intros name i. unfold cInfo, infoMap. cbn. by rewrite lookup_omap, lookup_empty.
    + intros name k s. unfold cInfo, infoMap. cbn. rewrite lookup_omap, lookup_empty. cbn. split.
      * by intros ?%not_elem_of_nil.
      * intros (ph&p&Hp&_). by rewrite lookup_empty in Hp.
  - apply treeInv_empty.
  - intros t. cbn. rewrite lookup_empty. split; [by intros ?%not_elem_of_nil|by intros [_ []]].
  - intros name nd. cbn. by rewrite lookup_empty.
  - intros img n. cbn. rewrite !lookup_empty. split; intros (?&?&_); congruence.
  - intros img st. cbn. by rewrite lookup_empty.
Qed.

(** The pods of a node info are those of the table. *)
Lemma placed_tags_perm infos t ns name :
  placed infos t ns -> from_option infoTags [] (infos !! name) ≡ₚ podTag <$> podsOn t name.
Proof.
  intros Hp. apply NoDup_Permutation.
  - destruct (infos !! name) as [i|] eqn:Hi; [|apply NoDup_nil_2]. cbn.
    apply (NoDup_fmap_1 fst). rewrite <- podUIDs_tags. by eapply acc_uids, pl_acc.
  - unfold podsOn. rewrite filter_fmap_comm, <- list_fmap_compose. apply (NoDup_fmap_1 fst).
    rewrite <- list_fmap_compose.
    erewrite (list_fmap_ext _ fst).
    + eapply sublist_NoDup; [exact (NoDup_fst_map_to_list t)|apply fmap_sublist, sublist_filter].
    + intros j [k [ph p]] Hj. apply list_elem_of_lookup_2, list_elem_of_filter in Hj as [_ Hj].
      apply elem_of_map_to_list in Hj. by apply (pl_key _ _ _ Hp) in Hj as [? _].
  - intros [k s]. rewrite (pl_tags _ _ _ Hp), list_elem_of_fmap. split.
    + intros (ph&p&Hk&<-&Hn). exists p. destruct (pl_key _ _ _ Hp _ _ _ Hk) as [Hu _]. subst k.
      split; [done|]. apply list_elem_of_filter. split; [done|].
      apply (list_elem_of_fmap_2 (fun kp => kp.2.2) _ (pod_UID p, (ph, p))). by apply elem_of_map_to_list.
    + intros (p&[= -> ->]&Hin). apply list_elem_of_filter in Hin as [Hn Hin].
      apply list_elem_of_fmap in Hin as ([k [ph q]]&->&Hk). apply elem_of_map_to_list in Hk. cbn in *.
      destruct (pl_key _ _ _ Hp _ _ _ Hk) as [Hu _]. exists ph, q. subst k. done.
Qed.

(** A pod with a given spec; what the accounting reads of a pod is its spec. *)
Definition podOfSpec (s : PodSpec) : Pod :=
  {| pod_Name := ""; pod_Namespace := ""; pod_UID := ""; pod_Labels := ∅; pod_Annotations := ∅; ManagedFields := "";
     Finalizers := []; DeletionTimestamp := None; pod_ResourceVersion := "";
     pod_Generation := 0; pod_Spec := s; pod_Status := noStatus |}.

Lemma placed_total infos t ns name i f :
  placed infos t ns -> infos !! name = Some i -> (forall p, f p = f (podOfSpec (pod_Spec p))) ->
  total f i = wrap64 (sumOver f (podsOn t name)).
Proof.
  intros Hp Hi Hf. unfold total. f_equal. pose proof (placed_tags_perm _ _ _ name Hp) as Hperm.
  rewrite Hi in Hperm. cbn in Hperm.
  assert (Hl : sumOver (f ∘ pi_Pod) (Pods i) = sumOver (fun tag => f (podOfSpec tag.2)) (infoTags i)).
  { unfold infoTags. rewrite sumOver_fmap. apply sumOver_ext. intros x _. apply Hf. }
  rewrite Hl, Hperm, sumOver_fmap. apply sumOver_ext. intros p _. symmetry. apply Hf.
Qed.
End Runs.

Lemma newest_lookup nl ls : forall g i j x y,
  newest nl g ls -> (i < j)%nat -> ls !! i = Some x -> ls !! j = Some y -> genAt nl y < genAt nl x.
Proof.
  induction ls as [|l ls IH]; intros g i j x y Hn Hij Hx Hy; [done|]. destruct Hn as [Hg Hn].
  destruct j as [|j]; [lia|]. destruct i as [|i]; simpl in *.
  - simplify_eq. pose proof (newest_elem _ _ y _ Hn (list_elem_of_lookup_2 _ _ _ Hy)). lia.
  - eapply (IH _ i j); try done. lia.
Qed.

Lemma refines_tree_names c a :
  refines c a -> (allNodes (cacheTree c)).*2 ≡ₚ (map_to_list (absNodes a)).*1.
Proof.
  intros Hr. apply NoDup_Permutation.
  - apply NoDup_fmap_2_strong; [|apply allNodes_NoDup, Hr].
    intros [z1 n1] [z2 n2] H1%(rf_names _ _ Hr) H2%(rf_names _ _ Hr) Heq. cbn in *.
    destruct H1 as [-> _], H2 as [-> _]. by subst.
  - apply NoDup_fst_map_to_list.
  - intros n. rewrite !list_elem_of_fmap. split.
    + intros ([z m]&->&Hin%(rf_names _ _ Hr)). destruct Hin as [_ [nd Hnd]]. exists (m, nd).
      split; [done|]. by apply elem_of_map_to_list.
    + intros ([m nd]&->&Hin%elem_of_map_to_list). exists ("", m). split; [done|].
      apply (rf_names _ _ Hr). split; [done|]. by eexists.
Qed.

(** ** Properties *)

(** C3. For every run of valid events on a new cache whose generation counter does not
    overflow, the cache answers exactly as the pod state machine of its interface: the
    same results (errors and corruption panics included), and afterwards [IsAssumedPod]
    and [GetPod] return what the state machine holds for every pod. *)
Theorem cache_refines_pod_state_machine `{LabelsLib} (ttl0 g0 : Z) (es : list cacheEvent) :
  0 <= g0 -> g0 + runCost es <= max_int64 -> validRun ttl0 es emptyAbs ->
  let c := (runCache es (newSchedulerCache ttl0 g0)).2 in
  let a := (runAbs ttl0 es emptyAbs).2 in
  (runCache es (newSchedulerCache ttl0 g0)).1 = (runAbs ttl0 es emptyAbs).1 /\
  forall p, pod_UID p <> "" ->
    (IsAssumedPod p c).1 = Ok (match absPods a !! pod_UID p with Some (Assumed _, _) => true | _ => false end) /\
    (GetPod p c).1 = match absPods a !! pod_UID p with
                     | Some (_, q) => Ok q | None => Err (PodDoesNotExist (pod_UID p)) end.
Proof.
  intros Hg0 Hmax Hv.
  destruct (run_refines es (newSchedulerCache ttl0 g0) emptyAbs) as (Hres&Hr&_); [by apply refines_empty|done|done|].
  cbn [ttl newSchedulerCache] in *. split; [done|]. set (c := (runCache _ _).2) in *. intros p Hu. pose proof (rf_table _ _ Hr (pod_UID p)) as He.
  unfold IsAssumedPod, GetPod, mbind, stateM_bind, get. rewrite (podKey_Ok p c Hu).
  destruct (absPods (runAbs ttl0 es emptyAbs).2 !! pod_UID p) as [[[d|] q]|].
  - destruct He as [-> ->]. done.
  - destruct He as [-> (ps&->&<-)]. done.
  - destruct He as [-> ->]. done.
Qed.

(** C4. After every such run each node has an item exactly when it is live or still has
    pods; its node info holds the live node, one entry per assumed or added pod of the
    state machine on that node, and requested totals that are the sums of the requests
    of exactly those pods. *)
Theorem cache_accounts_for_pods `{LabelsLib} (ttl0 g0 : Z) (es : list cacheEvent) (name : string) :
  0 <= g0 -> g0 + runCost es <= max_int64 -> validRun ttl0 es emptyAbs ->
  let c := (runCache es (newSchedulerCache ttl0 g0)).2 in
  let a := (runAbs ttl0 es emptyAbs).2 in
  let pods := podsOn (absPods a) name in
  match infoOf (nodeInfos c) name with
  | None => absNodes a !! name = None /\ pods = []
  | Some i =>
      node i = absNodes a !! name /\ (node i = None -> pods <> []) /\
      (podTag ∘ pi_Pod) <$> Pods i ≡ₚ podTag <$> pods /\
      MilliCPU (Requested i) = wrap64 (sumOver (MilliCPU ∘ podRequest) pods) /\
      Memory (Requested i) = wrap64 (sumOver (Memory ∘ podRequest) pods) /\
      EphemeralStorage (Requested i) = wrap64 (sumOver (EphemeralStorage ∘ podRequest) pods) /\
      (forall r, scalarOf (ScalarResources (Requested i)) r =
        wrap64 (sumOver (fun p => scalarOf (ScalarResources (podRequest p)) r) pods)) /\
      MilliCPU (NonZeroRequested i) = wrap64 (sumOver podNonZeroCPU pods) /\
      Memory (NonZeroRequested i) = wrap64 (sumOver podNonZeroMem pods)
  end.
Proof.
  intros Hg0 Hmax Hv c a pods.
  destruct (run_refines es (newSchedulerCache ttl0 g0) emptyAbs) as (_&Hr&_); [by apply refines_empty|done|done|].
  cbn [ttl newSchedulerCache] in Hr. fold c a in Hr. pose proof (rf_placed _ _ Hr) as Hp.
  pose proof (pl_live _ _ _ Hp name) as Hlive. pose proof (placed_podsOn _ _ _ name Hp) as Hnil.
  pose proof (placed_tags_perm _ _ _ name Hp) as Hperm.
  rewrite infoOf_infoMap. fold (cInfo c). destruct (cInfo c !! name) as [i|] eqn:Hi; cbn in Hlive, Hnil, Hperm.
  - pose proof (fun f => placed_total _ _ _ _ _ f Hp Hi) as Htot. fold pods in Htot.
    destruct (pl_acc _ _ _ Hp _ _ Hi) as [_ _ Hc Hm He Hs Hnc Hnm _].
    split_and!; try done; try (etransitivity; [eassumption|by apply Htot]).
    + intros Hno Hpods. apply (pl_ghost _ _ _ Hp _ _ Hi Hno).
      apply Hnil in Hpods. by apply fmap_nil_inv in Hpods.
    + intros r. rewrite Hs. by apply Htot.
  - split; [done|]. by apply Hnil.
Qed.

(** After every such run the linked list is intact: following the next pointers
    from the head visits the item of every node of the map once, the prev pointers are
    the inverse of the next pointers, and the generations decrease strictly along the
    list, so that the most recently updated node infos come first. *)
Theorem cache_list_is_ordered_by_generation `{LabelsLib} (ttl0 g0 : Z) (es : list cacheEvent) :
  0 <= g0 -> g0 + runCost es <= max_int64 -> validRun ttl0 es emptyAbs ->
  let nl := nodeInfos (runCache es (newSchedulerCache ttl0 g0)).2 in
  exists ls, walk (size (nodes nl)) (items nl) (headNode nl) = Some ls /\
    ls ≡ₚ (map_to_list (nodes nl)).*2 /\
    (forall x y, x ∈ ls -> y ∈ ls -> nextOf (items nl) x = Some y <-> prevOf (items nl) y = Some x) /\
    (forall i j x y, (i < j)%nat -> ls !! i = Some x -> ls !! j = Some y -> genAt nl y < genAt nl x).
Proof.
  intros Hg0 Hmax Hv nl.
  destruct (run_refines es (newSchedulerCache ttl0 g0) emptyAbs) as (_&Hr&_); [by apply refines_empty|done|done|].
  destruct (rf_ok _ _ Hr) as [(ls&Hi&Hn) _]. fold nl in Hi, Hn.
  exists ls. split_and!; [by apply walk_chain|by apply chain_Permutation| |].
  - intros x y Hx Hy. rewrite (linkedAt_nextOf _ ls x), (linkedAt_prevOf _ ls y) by by apply (li_linked _ _ _ Hi).
    apply next_prev; [apply Hi|done].
  - intros i j x y Hij Hx Hy. exact (newest_lookup _ _ _ _ _ _ _ Hn Hij Hx Hy).
Qed.

(** After every such run the node tree holds exactly the live nodes, and the image
    states are exactly the images of the live nodes, each with the set of nodes that
    have it; an image that no live node has is absent. *)
Theorem cache_tree_and_images `{LabelsLib} (ttl0 g0 : Z) (es : list cacheEvent) :
  0 <= g0 -> g0 + runCost es <= max_int64 -> validRun ttl0 es emptyAbs ->
  let c := (runCache es (newSchedulerCache ttl0 g0)).2 in
  let a := (runAbs ttl0 es emptyAbs).2 in
  (allNodes (cacheTree c)).*2 ≡ₚ (map_to_list (absNodes a)).*1 /\
  numNodes (cacheTree c) = Z.of_nat (size (absNodes a)) /\
  forall img,
    match imageStates c !! img with
    | None => forall n nd, absNodes a !! n = Some nd -> img ∉ (imageNames nd).*1
    | Some st => imageNodes st <> ∅ /\
        forall n, n ∈ imageNodes st <-> exists nd, absNodes a !! n = Some nd /\ img ∈ (imageNames nd).*1
    end.
Proof.
  intros Hg0 Hmax Hv c a.
  destruct (run_refines es (newSchedulerCache ttl0 g0) emptyAbs) as (_&Hr&_); [by apply refines_empty|done|done|].
  cbn [ttl newSchedulerCache] in Hr. fold c a in Hr.
  pose proof (refines_tree_names c a Hr) as Hperm. split_and!; [done| |].
  - rewrite (numNodes_length _ (rf_tree _ _ Hr)). apply Permutation_length in Hperm.
    rewrite !length_fmap, length_map_to_list in Hperm. by rewrite Hperm.
  - intros img. pose proof (rf_images _ _ Hr img) as Him.
    destruct (imageStates c !! img) as [st|] eqn:Hst.
    + split; [by eapply rf_used|]. intros n. rewrite <- Him. naive_solver.
    + intros n nd Hn Hin. destruct (proj2 (Him n)) as (st&?&_); [by exists nd|done].
Qed.

(** *** Witnesses *)
Definition exampleNode1 : Node := simpleNode "n1" 4000 8000 110.
Definition exampleRun : list cacheEvent :=
  [EvAddNode exampleNode1; EvAssume examplePod1; EvFinish examplePod1 5; EvAssume examplePod2;
   EvRemove examplePod1; EvRemoveNode exampleNode1].

Lemma exampleRun_valid : validRun 30 exampleRun emptyAbs.
Proof.
  unfold exampleRun. cbn [validRun validEvent]. split_and!; try exact I. intros nd Hnd. vm_compute in Hnd. injection Hnd. intros <-. reflexivity.
Qed.

Lemma cache_refines_pod_state_machine_witness :
  (@runCache exampleLabels exampleRun (newSchedulerCache 30 0)).1 =
  [Ok tt; Ok tt; Ok tt; Ok tt; Err (PodNotFound "uid1"); Ok tt].
Proof.
  destruct (@cache_refines_pod_state_machine exampleLabels 30 0 exampleRun) as [Hres _];
    [lia|vm_compute; discriminate|exact exampleRun_valid|].
  rewrite Hres. vm_compute. reflexivity.
Defined.

Lemma cache_accounts_for_pods_witness :
  exists i, infoOf (nodeInfos (@runCache exampleLabels exampleRun (newSchedulerCache 30 0)).2) "n1" = Some i /\
    MilliCPU (Requested i) = 850.
Proof.
  pose proof (@cache_accounts_for_pods exampleLabels 30 0 exampleRun "n1" ltac:(lia)
    ltac:(vm_compute; discriminate) exampleRun_valid) as Hacc.
  cbv zeta in Hacc. destruct (infoOf _ "n1") as [i|] eqn:Hi;
    [|destruct Hacc as [_ Hp]; apply (f_equal length) in Hp; vm_compute in Hp; discriminate].
  exists i. split; [reflexivity|]. destruct Hacc as (_&_&_&Hcpu&_). rewrite Hcpu. vm_compute. reflexivity.
Defined.

Lemma cache_list_is_ordered_by_generation_witness :
  exists ls, walk 1 (items (nodeInfos (@runCache exampleLabels exampleRun (newSchedulerCache 30 0)).2))
    (headNode (nodeInfos (@runCache exampleLabels exampleRun (newSchedulerCache 30 0)).2)) = Some ls /\ length ls = 1%nat.
Proof.
  destruct (@cache_list_is_ordered_by_generation exampleLabels 30 0 exampleRun) as (ls&Hw&Hp&_);
    [lia|vm_compute; discriminate|exact exampleRun_valid|].
  exists ls. split; [exact Hw|]. rewrite Hp. vm_compute. reflexivity.
Defined.

Lemma cache_tree_and_images_witness :
  numNodes (cacheTree (@runCache exampleLabels exampleRun (newSchedulerCache 30 0)).2) = 0.
Proof.
  destruct (@cache_tree_and_images exampleLabels 30 0 exampleRun) as (_&Hn&_);
    [lia|vm_compute; discriminate|exact exampleRun_valid|].
  rewrite Hn. vm_compute. reflexivity.
Defined.
