(* ===== verification/Snapshot.v ===== *)
(** * Snapshots of the cache

    [scheduler/internal/cache/snapshot.go] and [UpdateSnapshot] with its helpers of
    cache.go.  A snapshot keeps pointers to its own node infos: they live in a store of
    locations, [nodeInfoMap] and the two lists hold locations, so that the update of a
    node info through the map is seen through the lists as in the code.  The order in
    which Go ranges over a map is a function of the model that may be any permutation. *)
From S2P Require Import Prelude Api NodeInfo NodeTree CacheList Cache CacheSpec.
Local Open Scope Z_scope.

Record Snapshot := {
  infos : gmap loc NodeInfo;
  nodeInfoMap : gmap string loc;
  nodeInfoList : list loc;
  havePodsWithAffinityNodeInfoList : list loc;
  snapGeneration : Z
}.

Definition NewEmptySnapshot : Snapshot :=
  {| infos := ∅; nodeInfoMap := ∅; nodeInfoList := []; havePodsWithAffinityNodeInfoList := [];
     snapGeneration := 0 |}.

Inductive snapshotError :=
  | Inconsistent (listLen nodesInTree mapLen nodesInCache : Z)
  | NodeInfoNotFound (name : string).
#[export] Instance snapshotError_eq : EqDecision snapshotError.
Proof. solve_decision. Defined.

(** Does the node info at a location have pods with affinity? *)
Definition hasAffinityPods (m : gmap loc NodeInfo) (l : loc) : bool :=
  match m !! l with Some i => bool_decide (PodsWithAffinity i <> []) | None => false end.

Definition withInfos (s : Snapshot) (m : gmap loc NodeInfo) (byName : gmap string loc) : Snapshot :=
  {| infos := m; nodeInfoMap := byName; nodeInfoList := nodeInfoList s;
     havePodsWithAffinityNodeInfoList := havePodsWithAffinityNodeInfoList s; snapGeneration := snapGeneration s |}.
Definition withLists (s : Snapshot) (all have : list loc) : Snapshot :=
  {| infos := infos s; nodeInfoMap := nodeInfoMap s; nodeInfoList := all;
     havePodsWithAffinityNodeInfoList := have; snapGeneration := snapGeneration s |}.
Definition withSnapGeneration (s : Snapshot) (g : Z) : Snapshot :=
  {| infos := infos s; nodeInfoMap := nodeInfoMap s; nodeInfoList := nodeInfoList s;
     havePodsWithAffinityNodeInfoList := havePodsWithAffinityNodeInfoList s; snapGeneration := g |}.

(** The body of the first loop of [UpdateSnapshot]: the snapshot and the flags
    [updateAllLists] and [updateNodesHavePodsWithAffinity]. *)
Definition updateEntry (i : NodeInfo) (st : Snapshot * bool * bool) : Snapshot * bool * bool :=
  let '(s, updateAllLists, updateAffinity) := st in
  match NodeOf i with
  | None => st
  | Some np =>
      let clone := Clone i in
      match nodeInfoMap s !! node_Name np with
      | Some l =>
          (withInfos s (<[l := clone]> (infos s)) (nodeInfoMap s), updateAllLists,
           if bool_decide (hasAffinityPods (infos s) l <> bool_decide (PodsWithAffinity clone <> []))
           then true else updateAffinity)
      | None =>
          (* [existing] is a zero NodeInfo: no pods with affinity *)
          let l := fresh (dom (infos s)) in
          (withInfos s (<[l := clone]> (infos s)) (<[node_Name np := l]> (nodeInfoMap s)), true,
           if bool_decide (PodsWithAffinity clone <> []) then true else updateAffinity)
      end
  end.

(** The loop from the head of the list; [None] when [fuel] items are not enough or a
    pointer dangles. *)
Fixpoint updateEntries (fuel : nat) (m : gmap loc nodeInfoListItem) (o : option loc) (snapshotGeneration : Z)
    (st : Snapshot * bool * bool) : option (Snapshot * bool * bool) :=
  match o with
  | None => Some st
  | Some l =>
      match fuel, m !! l with
      | S fuel, Some it =>
          if Generation (info it) <=? snapshotGeneration then Some st
          else updateEntries fuel m (next it) snapshotGeneration (updateEntry (info it) st)
      | _, _ => None
      end
  end.

Section Snapshot.
Context (mapOrder : list string -> list string).

(** The loop of [removeDeletedNodesFromSnapshot]. *)
Fixpoint removeDeleted (nodes : gmap string loc) (toDelete : Z) (names : list string) (byName : gmap string loc)
    : gmap string loc :=
  match names with
  | [] => byName
  | name :: names =>
      if toDelete <=? 0 then byName
      else match nodes !! name with
           | Some _ => removeDeleted nodes toDelete names byName
           | None => removeDeleted nodes (toDelete - 1) names (delete name byName)
           end
  end.

Definition removeDeletedNodesFromSnapshot (c : schedulerCache) (s : Snapshot) : Snapshot :=
  let toDelete := Z.of_nat (size (nodeInfoMap s)) - Z.of_nat (size (nodes (nodeInfos c))) in
  withInfos s (infos s)
    (removeDeleted (nodes (nodeInfos c)) toDelete (mapOrder (map_to_list (nodeInfoMap s)).*1) (nodeInfoMap s)).

(** The loop over the tree: the two lists, in order. *)
Fixpoint listNodes (n : nat) (nt : nodeTree) (s : Snapshot) (all have : list loc)
    : option (nodeTree * list loc * list loc) :=
  match n with
  | O => Some (nt, all, have)
  | S n =>
      match NodeTree.next nt with
      | Some (Ok nodeName, nt') =>
          match nodeInfoMap s !! nodeName with
          | Some l => listNodes n nt' s (all ++ [l]) (if hasAffinityPods (infos s) l then have ++ [l] else have)
          | None => listNodes n nt' s all have
          end
      | _ => None
      end
  end.

Definition updateNodeInfoSnapshotList (c : schedulerCache) (s : Snapshot) (updateAll : bool)
    : option (schedulerCache * Snapshot) :=
  if updateAll then
    '(nt, all, have) ← listNodes (Z.to_nat (numNodes (cacheTree c))) (resetExhausted (cacheTree c)) s [] [];
    Some (withTree c nt, withLists s all have)
  else Some (c, withLists s (nodeInfoList s) (filter (fun l => hasAffinityPods (infos s) l = true) (nodeInfoList s))).

(** [None] when a loop does not end. *)
Definition UpdateSnapshot (c : schedulerCache) (s : Snapshot)
    : option (result snapshotError unit * (schedulerCache * Snapshot)) :=
  let nl := nodeInfos c in
  '(s1, updateAllLists, updateAffinity) ←
    updateEntries (size (nodes nl)) (items nl) (headNode nl) (snapGeneration s) (s, false, false);
  let s2 := match headNode nl ≫= fun l => items nl !! l with
            | None => s1 | Some it => withSnapGeneration s1 (Generation (info it)) end in
  let deleted := Z.of_nat (size (nodes nl)) <? Z.of_nat (size (nodeInfoMap s2)) in
  let s3 := if deleted then removeDeletedNodesFromSnapshot c s2 else s2 in
  let updateAllLists := if deleted then true else updateAllLists in
  '(c4, s4) ← (if updateAllLists || updateAffinity then updateNodeInfoSnapshotList c s3 updateAllLists
               else Some (c, s3));
  if decide (Z.of_nat (length (nodeInfoList s4)) = numNodes (cacheTree c4)) then Some (Ok tt, (c4, s4))
  else
    '(c5, s5) ← updateNodeInfoSnapshotList c4 s4 true;
    Some (Err (Inconsistent (Z.of_nat (length (nodeInfoList s4))) (numNodes (cacheTree c4))
            (Z.of_nat (size (nodeInfoMap s4))) (Z.of_nat (size (nodes nl)))), (c5, s5)).
End Snapshot.

(** ** The lister interface of a snapshot *)
Definition snapInfo (s : Snapshot) (name : string) : option NodeInfo :=
  l ← nodeInfoMap s !! name; infos s !! l.

Definition SnapshotNumNodes (s : Snapshot) : Z := Z.of_nat (length (nodeInfoList s)).
Definition SnapshotList (s : Snapshot) : list loc := nodeInfoList s.
Definition HavePodsWithAffinityList (s : Snapshot) : list loc := havePodsWithAffinityNodeInfoList s.
Definition SnapshotGet (s : Snapshot) (nodeName : string) : result snapshotError NodeInfo :=
  match snapInfo s nodeName with
  | Some i => match NodeOf i with Some _ => Ok i | None => Err (NodeInfoNotFound nodeName) end
  | None => Err (NodeInfoNotFound nodeName)
  end.

(** ** The first loop *)
Definition flagOf (i : NodeInfo) : bool := bool_decide (PodsWithAffinity i <> []).

Record snapWf (s : Snapshot) : Prop := {
  sw_store n l : nodeInfoMap s !! n = Some l -> is_Some (infos s !! l);
  sw_inj n1 n2 l : nodeInfoMap s !! n1 = Some l -> nodeInfoMap s !! n2 = Some l -> n1 = n2
}.

Lemma snapInfo_is_Some s n : snapWf s -> is_Some (snapInfo s n) <-> is_Some (nodeInfoMap s !! n).
Proof.
  intros Hw. unfold snapInfo. destruct (nodeInfoMap s !! n) as [l|] eqn:Hl; cbn; [|done].
  destruct (sw_store _ Hw _ _ Hl) as [i ->]. split; by eexists.
Qed.

(** What the loop has done: the entries of [upd] were written. *)
Record updated (s0 s1 : Snapshot) (upd : gmap string NodeInfo) (all aff : bool) : Prop := {
  up_wf : snapWf s1;
  up_info n : snapInfo s1 n = match upd !! n with Some i => Some i | None => snapInfo s0 n end;
  up_sub n l : nodeInfoMap s0 !! n = Some l -> nodeInfoMap s1 !! n = Some l;
  up_all : all = false -> nodeInfoMap s1 = nodeInfoMap s0;
  up_flags n : all = false -> aff = false -> flagOf <$> snapInfo s1 n = flagOf <$> snapInfo s0 n;
  up_lists : nodeInfoList s1 = nodeInfoList s0 /\
    havePodsWithAffinityNodeInfoList s1 = havePodsWithAffinityNodeInfoList s0 /\
    snapGeneration s1 = snapGeneration s0
}.

Lemma updated_refl s : snapWf s -> updated s s ∅ false false.
Proof. intros Hw. by split. Qed.

Lemma updated_step s0 s1 upd all aff i nd :
  updated s0 s1 upd all aff -> node i = Some nd ->
  let '(s2, all', aff') := updateEntry i (s1, all, aff) in
  updated s0 s2 (<[node_Name nd := Clone i]> upd) all' aff'.
Proof.
  intros Hup Hnd. unfold updateEntry, NodeOf. rewrite Hnd. set (name := node_Name nd).
  destruct (nodeInfoMap s1 !! name) as [l|] eqn:Hl.
  - destruct (sw_store _ (up_wf _ _ _ _ _ Hup) _ _ Hl) as [e He].
    assert (Hsnap : forall n, snapInfo (withInfos s1 (<[l := Clone i]> (infos s1)) (nodeInfoMap s1)) n =
      if decide (n = name) then Some (Clone i) else snapInfo s1 n).
    { intros n. unfold snapInfo. cbn. destruct (decide (n = name)) as [->|Hn].
      - rewrite Hl. cbn. by rewrite lookup_insert_eq.
      - destruct (nodeInfoMap s1 !! n) as [l'|] eqn:Hn'; cbn; [|done].
        rewrite lookup_insert_ne; [done|]. intros <-. apply Hn. by eapply sw_inj; [apply Hup|..]. }
    split.
    + split; cbn; [|by apply Hup]. intros n l' Hn. destruct (decide (l' = l)) as [->|Hne].
      * rewrite lookup_insert_eq. by eexists.
      * rewrite lookup_insert_ne by done. by eapply sw_store; [apply Hup|].
    + intros n. rewrite Hsnap, lookup_insert. repeat case_decide; try congruence. apply Hup.
    + apply Hup.
    + apply Hup.
    + intros n Hall. case_bool_decide as Hfl; [done|]. intros Haff. rewrite Hsnap.
      rewrite <- (up_flags _ _ _ _ _ Hup n Hall Haff). case_decide as Hn; [|done]. subst n.
      unfold hasAffinityPods in Hfl. rewrite He in Hfl.
      unfold snapInfo. rewrite Hl. cbn. rewrite He. cbn. f_equal. symmetry. exact Hfl.
    + apply Hup.
  - set (l := fresh (dom (infos s1))).
    assert (Hlf : infos s1 !! l = None) by apply not_elem_of_dom, is_fresh.
    assert (Hnl : forall n, nodeInfoMap s1 !! n <> Some l).
    { intros n Hn. destruct (sw_store _ (up_wf _ _ _ _ _ Hup) _ _ Hn) as [e He]. congruence. }
    split.
    + split; cbn.
      * intros n l' [[_ <-]|[_ Hn]]%lookup_insert_Some; [rewrite lookup_insert_eq; by eexists|].
        rewrite lookup_insert_ne by (intros <-; by eapply Hnl). by eapply sw_store; [apply Hup|].
      * intros n1 n2 l' [[? ?]|[? ?]]%lookup_insert_Some [[? ?]|[? ?]]%lookup_insert_Some; subst; try done;
          try (exfalso; by eapply Hnl). by eapply sw_inj; [apply Hup|..].
    + intros n. unfold snapInfo. cbn. rewrite !lookup_insert. case_decide as Hn.
      * subst n. cbn. by rewrite lookup_insert_eq.
      * rewrite <- (up_info _ _ _ _ _ Hup). unfold snapInfo.
        destruct (nodeInfoMap s1 !! n) as [l'|] eqn:Hn'; cbn; [|done].
        rewrite lookup_insert_ne; [done|]. intros <-. by eapply Hnl.
    + intros n l' Hn. apply Hup in Hn as Hn1. cbn. rewrite lookup_insert_ne; [done|]. intros <-.
      congruence.
    + done.
    + done.
    + apply Hup.
Qed.

(** The clones of the node infos of a list of items, by node name. *)
Fixpoint clonesOf (m : gmap loc nodeInfoListItem) (g : Z) (ls : list loc) (upd : gmap string NodeInfo) : gmap string NodeInfo :=
  match ls with
  | [] => upd
  | l :: ls =>
      match m !! l with
      | Some it =>
          if Generation (info it) <=? g then upd
          else clonesOf m g ls (match node (info it) with
                                | Some nd => <[node_Name nd := Clone (info it)]> upd | None => upd end)
      | None => upd
      end
  end.

Lemma updateEntries_spec m g s0 ls2 : forall ls1 fuel s1 upd all aff,
  NoDup (ls1 ++ ls2) -> linked m (ls1 ++ ls2) -> (length ls2 <= fuel)%nat -> updated s0 s1 upd all aff ->
  exists s2 all' aff', updateEntries fuel m (head ls2) g (s1, all, aff) = Some (s2, all', aff') /\
    updated s0 s2 (clonesOf m g ls2 upd) all' aff'.
Proof.
  induction ls2 as [|x ls2 IH]; intros ls1 fuel s1 upd all aff Hnd Hl Hf Hup.
  { exists s1, all, aff. by destruct fuel. }
  destruct fuel as [|fuel]; [simpl in Hf; lia|]. cbn [head updateEntries clonesOf].
  destruct (Hl x) as [i Hi]; [set_solver|]. rewrite Hi. cbn [info next].
  destruct (Generation i <=? g); [by eexists _, _, _|].
  assert (Hx : x ∉ ls1).
  { apply NoDup_app in Hnd as (_&Hd&_). intros Hin. apply (Hd x Hin). set_solver. }
  rewrite nextIn_app by done.
  assert (Hstep : exists s1' all' aff', updateEntry i (s1, all, aff) = (s1', all', aff') /\
    updated s0 s1' (match node i with Some nd => <[node_Name nd := Clone i]> upd | None => upd end) all' aff').
  { destruct (node i) as [nd|] eqn:Hnode.
    - pose proof (updated_step s0 s1 upd all aff i nd Hup Hnode) as Hst.
      destruct (updateEntry i (s1, all, aff)) as [[s1' all'] aff']. by exists s1', all', aff'.
    - exists s1, all, aff. split; [|done]. unfold updateEntry, NodeOf. by rewrite Hnode. }
  destruct Hstep as (s1'&all'&aff'&->&Hup').
  apply (IH (ls1 ++ [x])); [by rewrite <- app_assoc..|simpl in Hf; lia|done].
Qed.

(** The live node of the item at a location. *)
Definition nodeAt (m : gmap loc nodeInfoListItem) (l : loc) (name : string) (i : NodeInfo) : Prop :=
  exists it nd, m !! l = Some it /\ info it = i /\ node i = Some nd /\ node_Name nd = name.

Lemma clonesOf_source m g ls name x : forall upd,
  clonesOf m g ls upd !! name = Some x ->
  upd !! name = Some x \/ exists l i, l ∈ ls /\ nodeAt m l name i /\ x = Clone i.
Proof.
  induction ls as [|l ls IH]; intros upd Hx; [by left|]. cbn [clonesOf] in Hx.
  destruct (m !! l) as [it|] eqn:Hl; [|by left]. destruct (Generation (info it) <=? g); [by left|].
  apply IH in Hx as [Hx|(l'&i&Hin&Hat&->)]; cycle 1.
  { right. exists l', i. split; [set_solver|done]. }
  destruct (node (info it)) as [nd|] eqn:Hnd; [|by left].
  apply lookup_insert_Some in Hx as [[<- <-]|[_ Hx]]; [|by left].
  right. exists l, (info it). split; [set_solver|]. split; [by exists it, nd|done].
Qed.

Lemma clonesOf_other m g ls name : forall upd,
  (forall l i, l ∈ ls -> ~ nodeAt m l name i) -> clonesOf m g ls upd !! name = upd !! name.
Proof.
  induction ls as [|l ls IH]; intros upd Hno; [done|]. cbn [clonesOf].
  destruct (m !! l) as [it|] eqn:Hl; [|done]. destruct (Generation (info it) <=? g); [done|].
  rewrite IH by (intros; apply Hno; set_solver).
  destruct (node (info it)) as [nd|] eqn:Hnd; [|done].
  rewrite lookup_insert_ne; [done|]. intros Hn. apply (Hno l (info it)); [set_solver|by exists it, nd].
Qed.

Lemma clonesOf_written nl g ls l name i : forall g0 upd,
  newest nl g0 ls -> NoDup ls -> l ∈ ls -> nodeAt (items nl) l name i -> g < Generation i ->
  (forall l' i', l' ∈ ls -> nodeAt (items nl) l' name i' -> l' = l) ->
  (forall l', l' ∈ ls -> is_Some (items nl !! l')) ->
  clonesOf (items nl) g ls upd !! name = Some (Clone i).
Proof.
  induction ls as [|x ls IH]; intros g0 upd Hn Hnd Hin Hat Hg Huniq Hsome; [by apply not_elem_of_nil in Hin|].
  destruct Hn as [Hx Hn]. apply NoDup_cons in Hnd as [Hxn Hnd]. cbn [clonesOf].
  destruct (Hsome x) as [it Hit]; [set_solver|]. rewrite Hit.
  destruct (decide (x = l)) as [->|Hne].
  - destruct Hat as (it'&nd&Hl&<-&Hnode&<-). rewrite Hit in Hl. simplify_eq.
    destruct (Z.leb_spec (Generation (info it')) g); [lia|]. rewrite Hnode.
    rewrite clonesOf_other; [apply lookup_insert_eq|]. intros l' i' Hl' Hat'.
    apply Hxn. by rewrite <- (Huniq l' i'); [|set_solver|].
  - assert (Hin' : l ∈ ls) by set_solver.
    pose proof (newest_elem _ _ _ _ Hn Hin') as Hlt. unfold genAt in Hlt.
    destruct Hat as (it'&nd&Hl&<-&Hnode&<-). rewrite Hit, Hl in Hlt. cbn in Hlt.
    destruct (Z.leb_spec (Generation (info it)) g); [lia|].
    eapply (IH _ _ Hn Hnd Hin'); [by exists it', nd|done| |].
    + intros l' i' ? ?. eapply Huniq; [set_solver|done].
    + intros l' ?. apply Hsome. set_solver.
Qed.

(** ** Deleting the stale entries *)
Section Deleting.
Context (ns : gmap string loc).

Definition stale (names : list string) : list string := filter (fun n => ns !! n = None) names.

Lemma removeDeleted_lookup names : forall toDelete m n,
  Z.of_nat (length (stale names)) <= toDelete ->
  removeDeleted ns toDelete names m !! n =
  if decide (n ∈ names /\ ns !! n = None) then None else m !! n.
Proof.
  induction names as [|x names IH]; intros toDelete m n Hlen; cbn [removeDeleted].
  { rewrite decide_False; [done|]. by intros [?%not_elem_of_nil _]. }
  unfold stale in Hlen. rewrite filter_cons in Hlen. fold (stale names) in Hlen.
  destruct (ns !! x) as [l|] eqn:Hx.
  - rewrite decide_False in Hlen by done. destruct (Z.leb_spec toDelete 0).
    + rewrite decide_False; [done|]. intros [Hin Hn].
      assert (Hs : n ∈ stale names).
      { apply list_elem_of_filter. split; [done|]. apply elem_of_cons in Hin as [->|?]; [congruence|done]. }
      destruct (stale names); [by apply not_elem_of_nil in Hs|simpl in Hlen; lia].
    + rewrite IH by done. apply decide_ext. rewrite elem_of_cons. naive_solver.
  - rewrite decide_True in Hlen by done. simpl in Hlen. destruct (Z.leb_spec toDelete 0); [lia|].
    rewrite IH by lia. destruct (decide (n = x)) as [->|Hne].
    + rewrite (decide_True (P := x ∈ x :: names /\ _)) by (split; [set_solver|done]).
      case_decide; [done|]. apply lookup_delete_eq.
    + rewrite lookup_delete_ne by done. apply decide_ext. rewrite elem_of_cons. tauto.
Qed.

(** With every key of [ns] in [m], as many keys are stale as [m] is larger. *)
Lemma stale_count {A} (m : gmap string A) (names : list string) :
  names ≡ₚ (map_to_list m).*1 -> (forall n, is_Some (ns !! n) -> is_Some (m !! n)) ->
  Z.of_nat (length (stale names)) = Z.of_nat (size m) - Z.of_nat (size ns).
Proof.
  intros Hp Hsub. unfold stale. rewrite Hp.
  assert (Hlive : filter (fun n => ~ ns !! n = None) (map_to_list m).*1 ≡ₚ (map_to_list ns).*1).
  { apply NoDup_Permutation; [apply NoDup_filter, NoDup_fst_map_to_list|apply NoDup_fst_map_to_list|].
    intros n. rewrite list_elem_of_filter, !list_elem_of_fmap. split.
    - intros [Hn _]. apply not_eq_None_Some in Hn as [l Hl]. exists (n, l). split; [done|].
      by apply elem_of_map_to_list.
    - intros ([n' l]&->&Hl%elem_of_map_to_list). cbn. split; [congruence|].
      destruct (Hsub n') as [a Ha]; [by eexists|]. exists (n', a). split; [done|]. by apply elem_of_map_to_list. }
  pose proof (Permutation_length (filter_app_complement (fun n => ns !! n = None) (map_to_list m).*1)) as Hc.
  rewrite length_app in Hc. apply Permutation_length in Hlive.
  rewrite !length_fmap, !length_map_to_list in *. lia.
Qed.
End Deleting.

(** ** Re-creating the lists *)
Lemma listNodes_nextN s n : forall nt all have,
  listNodes n nt s all have =
  '(names, nt') ← nextN n nt;
  let ls := omap (fun name => nodeInfoMap s !! name) names in
  Some (nt', all ++ ls, have ++ filter (fun l => hasAffinityPods (infos s) l = true) ls).
Proof.
  induction n as [|n IH]; intros nt all have; cbn [listNodes nextN].
  { bind_simpl. simpl. by rewrite !app_nil_r. }
  destruct (NodeTree.next nt) as [[[name|e|] nt']|]; try done.
  destruct (nodeInfoMap s !! name) as [l|] eqn:Hl; rewrite IH;
    (destruct (nextN n nt') as [[names nt'']|]; bind_simpl; [|done]); simpl; rewrite Hl; [|done].
  f_equal. rewrite filter_cons, <- app_assoc. simpl. f_equal.
  destruct (hasAffinityPods (infos s) l); [rewrite decide_True by done|rewrite decide_False by done]; [|done].
  by rewrite <- app_assoc.
Qed.

Lemma omap_lookup_keys {A} (m : gmap string A) (l : list (string * A)) :
  (forall k v, (k, v) ∈ l -> m !! k = Some v) -> omap (fun k => m !! k) l.*1 = l.*2.
Proof.
  induction l as [|[k v] l IH]; intros Hl; [done|]. simpl.
  rewrite (Hl k v) by set_solver. f_equal. apply IH. intros; apply Hl; set_solver.
Qed.

(** ** The snapshot between two updates *)
Record snapOk (c : schedulerCache) (s : Snapshot) : Prop := {
  so_wf : snapWf s;
  so_list : nodeInfoList s ≡ₚ (map_to_list (nodeInfoMap s)).*2;
  so_have : havePodsWithAffinityNodeInfoList s =
    filter (fun l => hasAffinityPods (infos s) l = true) (nodeInfoList s);
  so_fresh name i nd : cInfo c !! name = Some i -> node i = Some nd -> Generation i <= snapGeneration s ->
    snapInfo s name = Some (Clone i);
  so_gen : snapGeneration s <= generation c
}.

Definition noGhost (c : schedulerCache) : Prop := forall name i, cInfo c !! name = Some i -> is_Some (node i).

Section Update.
Context `{LabelsLib} (mapOrder : list string -> list string) (mapOrder_perm : forall l, mapOrder l ≡ₚ l).
Implicit Types (c : schedulerCache) (a : absCache) (s : Snapshot).

Lemma item_named c a ls l name i :
  refines c a -> listInv (nodeInfos c) ls None -> l ∈ ls -> nodeAt (items (nodeInfos c)) l name i ->
  nodes (nodeInfos c) !! name = Some l /\ cInfo c !! name = Some i.
Proof.
  intros Hr Hi Hl (it&nd&Hit&<-&Hnd&<-).
  destruct (proj1 (li_dom _ _ _ Hi l) (or_introl Hl)) as [n Hn].
  assert (Hc : cInfo c !! n = Some (info it)).
  { unfold cInfo, infoMap. rewrite lookup_omap, Hn. cbn. by rewrite Hit. }
  pose proof (pl_live _ _ _ (rf_placed _ _ Hr) n) as Hlive. rewrite Hc in Hlive. cbn in Hlive. rewrite Hnd in Hlive.
  symmetry in Hlive. apply (rf_named _ _ Hr) in Hlive as ->. done.
Qed.

(** After the first loop every live node info has its clone in the snapshot. *)
Lemma entries_current c a s :
  refines c a -> snapOk c s ->
  exists s1 upd all aff,
    updateEntries (size (nodes (nodeInfos c))) (items (nodeInfos c)) (headNode (nodeInfos c))
      (snapGeneration s) (s, false, false) = Some (s1, all, aff) /\
    updated s s1 upd all aff /\
    forall name i nd, cInfo c !! name = Some i -> node i = Some nd -> snapInfo s1 name = Some (Clone i).
Proof.
  intros Hr Hs. destruct (rf_ok _ _ Hr) as [(ls&Hi&Hn) _].
  destruct (updateEntries_spec (items (nodeInfos c)) (snapGeneration s) s ls [] (size (nodes (nodeInfos c))) s ∅ false false)
    as (s1&all&aff&Hrun&Hup); [apply Hi|apply Hi| |apply updated_refl, Hs|].
  { rewrite (chain_Permutation _ _ Hi), length_fmap, length_map_to_list. done. }
  rewrite (li_head _ _ _ Hi). eexists s1, _, all, aff. split; [exact Hrun|]. split; [exact Hup|].
  intros name i nd Hname Hnd. rewrite (up_info _ _ _ _ _ Hup).
  assert (Hloc : exists l, l ∈ ls /\ nodeAt (items (nodeInfos c)) l name i).
  { unfold cInfo, infoMap in Hname. rewrite lookup_omap in Hname.
    apply bind_Some in Hname as (l&Hl&Hit). exists l. split.
    - destruct (proj2 (li_dom _ _ _ Hi l)) as [?|?]; [by exists name|done|done].
    - apply fmap_Some in Hit as (it&Hit&->). exists it, nd. split_and!; try done.
      apply (rf_named _ _ Hr). rewrite <- (pl_live _ _ _ (rf_placed _ _ Hr)).
      unfold cInfo, infoMap. rewrite lookup_omap, Hl. cbn. by rewrite Hit. }
  destruct Hloc as (l&Hl&Hat). destruct (item_named _ _ _ _ _ _ Hr Hi Hl Hat) as [Hnl _].
  destruct (decide (Generation i <= snapGeneration s)) as [Hg|Hg].
  - destruct (clonesOf _ _ _ _ !! name) as [x|] eqn:Hx; [|by eapply so_fresh].
    apply clonesOf_source in Hx as [Hx|(l'&i'&Hl'&Hat'&->)]; [by rewrite lookup_empty in Hx|].
    destruct (item_named _ _ _ _ _ _ Hr Hi Hl' Hat') as [_ Hc']. congruence.
  - erewrite (clonesOf_written (nodeInfos c) (snapGeneration s) ls l name i); [done|done|apply Hi|done|done|lia| |].
    + intros l' i' Hl' Hat'. destruct (item_named _ _ _ _ _ _ Hr Hi Hl' Hat') as [Hnl' _]. congruence.
    + intros l' Hl'. destruct (li_linked _ _ _ Hi l' Hl') as [j ->]. by eexists.
Qed.

(** Without ghosts the entries that are left are those of the nodes of the cache. *)
Lemma deleted_current c a s1 :
  refines c a -> noGhost c -> snapWf s1 ->
  (forall name i nd, cInfo c !! name = Some i -> node i = Some nd -> snapInfo s1 name = Some (Clone i)) ->
  let deleted := Z.of_nat (size (nodes (nodeInfos c))) <? Z.of_nat (size (nodeInfoMap s1)) in
  let s2 := if deleted then removeDeletedNodesFromSnapshot mapOrder c s1 else s1 in
  snapWf s2 /\ infos s2 = infos s1 /\ (deleted = false -> s2 = s1) /\
  nodeInfoList s2 = nodeInfoList s1 /\ havePodsWithAffinityNodeInfoList s2 = havePodsWithAffinityNodeInfoList s1 /\
  snapGeneration s2 = snapGeneration s1 /\
  forall name, snapInfo s2 name = Clone <$> cInfo c !! name.
Proof.
  intros Hr Hng Hw Hcur deleted s2. destruct (rf_ok _ _ Hr) as [(ls&Hi&_) _].
  assert (Hdom : forall n, is_Some (nodes (nodeInfos c) !! n) <-> is_Some (cInfo c !! n)).
  { intros n. symmetry. by eapply infoMap_is_Some. }
  assert (Hsub : forall n, is_Some (nodes (nodeInfos c) !! n) -> is_Some (nodeInfoMap s1 !! n)).
  { intros n [i Hn]%Hdom. apply (snapInfo_is_Some _ _ Hw). destruct (Hng _ _ Hn) as [nd Hnd].
    rewrite (Hcur _ _ _ Hn Hnd). by eexists. }
  assert (Hmap : forall n, nodeInfoMap s2 !! n =
    match nodes (nodeInfos c) !! n with Some _ => nodeInfoMap s1 !! n | None => None end).
  { intros n. unfold s2, deleted. destruct (Z.ltb_spec (Z.of_nat (size (nodes (nodeInfos c)))) (Z.of_nat (size (nodeInfoMap s1)))) as [Hlt|Hge].
    - unfold removeDeletedNodesFromSnapshot. cbn [nodeInfoMap withInfos].
      rewrite removeDeleted_lookup; cycle 1.
      { rewrite (stale_count _ (nodeInfoMap s1)); [lia|apply mapOrder_perm|done]. }
      destruct (nodes (nodeInfos c) !! n) as [l|] eqn:Hn.
      + rewrite decide_False; [done|]. by intros [_ ?].
      + destruct (nodeInfoMap s1 !! n) as [l|] eqn:Hl; [|by case_decide].
        rewrite decide_True; [done|]. split; [|done]. rewrite mapOrder_perm.
        apply (list_elem_of_fmap_2 fst _ (n, l)). by apply elem_of_map_to_list.
    - pose proof (stale_count (nodes (nodeInfos c)) (nodeInfoMap s1) _ (reflexivity _) Hsub) as Hc.
      destruct (nodes (nodeInfos c) !! n) as [l|] eqn:Hn; [done|].
      destruct (nodeInfoMap s1 !! n) as [l|] eqn:Hl; [|done]. exfalso.
      assert (Hin : n ∈ stale (nodes (nodeInfos c)) (map_to_list (nodeInfoMap s1)).*1).
      { apply list_elem_of_filter. split; [done|].
        apply (list_elem_of_fmap_2 fst _ (n, l)). by apply elem_of_map_to_list. }
      destruct (stale _ _); [by apply not_elem_of_nil in Hin|simpl in Hc; lia]. }
  assert (Hinfos : infos s2 = infos s1) by (unfold s2; by destruct deleted).
  assert (Hle : forall n l, nodeInfoMap s2 !! n = Some l -> nodeInfoMap s1 !! n = Some l).
  { intros n l. rewrite Hmap. by destruct (nodes (nodeInfos c) !! n). }
  split_and!; try (unfold s2; by destruct deleted).
  - split; intros; rewrite ?Hinfos; [eapply sw_store|eapply sw_inj]; eauto.
  - intros n. unfold snapInfo. rewrite Hmap, Hinfos. destruct (cInfo c !! n) as [i|] eqn:Hn.
    + destruct (proj2 (Hdom n)) as [l ->]; [by eexists|]. destruct (Hng _ _ Hn) as [nd Hnd].
      exact (Hcur _ _ _ Hn Hnd).
    + assert (nodes (nodeInfos c) !! n = None) as ->; [|done].
      apply eq_None_not_Some. rewrite Hdom, Hn. by intros [].
Qed.

(** Re-creating the lists from the tree. *)
Lemma relist_all c a s :
  refines c a -> snapWf s -> noGhost c -> (forall name, snapInfo s name = Clone <$> cInfo c !! name) ->
  exists nt ls, updateNodeInfoSnapshotList c s true =
      Some (withTree c nt, withLists s ls (filter (fun l => hasAffinityPods (infos s) l = true) ls)) /\
    sameShape (cacheTree c) nt /\ ls ≡ₚ (map_to_list (nodeInfoMap s)).*2.
Proof.
  intros Hr Hw Hng Hcur. unfold updateNodeInfoSnapshotList. rewrite listNodes_nextN.
  assert (Hi : treeInv (resetExhausted (cacheTree c))).
  { eapply sameShape_inv; [apply sameShape_reset|apply Hr]. }
  destruct (nextN_remaining (Z.to_nat (numNodes (cacheTree c))) (resetExhausted (cacheTree c)) Hi)
    as (names&nt&->&Hs&Hp&_).
  { rewrite remaining_reset. rewrite (numNodes_length _ (rf_tree _ _ Hr)). lia. }
  bind_simpl. eexists nt, _. split; [done|]. split.
  - etransitivity; [apply sameShape_reset|done].
  - simpl. rewrite remaining_reset, (refines_tree_names _ _ Hr) in Hp.
    assert (Hkeys : (map_to_list (absNodes a)).*1 ≡ₚ (map_to_list (nodeInfoMap s)).*1).
    { apply NoDup_Permutation; [apply NoDup_fst_map_to_list..|]. intros n.
      assert (Hdom : is_Some (absNodes a !! n) <-> is_Some (nodeInfoMap s !! n)).
      { rewrite <- (snapInfo_is_Some _ _ Hw), Hcur, <- (pl_live _ _ _ (rf_placed _ _ Hr)).
        destruct (cInfo c !! n) as [i|] eqn:Hn; cbn; [|done].
        split; [by eexists|]. intros _. by eapply Hng. }
      rewrite !list_elem_of_fmap. split; intros ([n' x]&->&Hx%elem_of_map_to_list); cbn in *.
      - destruct (proj1 Hdom) as [l Hl]; [by eexists|]. exists (n', l). split; [done|]. by apply elem_of_map_to_list.
      - destruct (proj2 Hdom) as [l Hl]; [by eexists|]. exists (n', l). split; [done|]. by apply elem_of_map_to_list. }
    rewrite Hp, Hkeys. rewrite omap_lookup_keys; [done|]. intros k v ?. by apply elem_of_map_to_list.
Qed.

Lemma refines_withTree c a nt : refines c a -> sameShape (cacheTree c) nt -> refines (withTree c nt) a.
Proof.
  intros Hr Hs. pose proof (sameShape_inv _ _ Hs (rf_tree _ _ Hr)) as Hi. destruct Hr. split; try done.
  intros t. cbn. by rewrite (sameShape_all _ _ Hs).
Qed.

Lemma live_size c a s :
  refines c a -> noGhost c -> (forall name, snapInfo s name = Clone <$> cInfo c !! name) -> snapWf s ->
  Z.of_nat (length (map_to_list (nodeInfoMap s)).*2) = numNodes (cacheTree c).
Proof.
  intros Hr Hng Hcur Hw. destruct (relist_all c a s Hr Hw Hng Hcur) as (nt&ls&_&_&Hp).
  rewrite (numNodes_length _ (rf_tree _ _ Hr)). f_equal.
  pose proof (Permutation_length (refines_tree_names _ _ Hr)) as Hl.
  rewrite !length_fmap in *. rewrite Hl.
  rewrite !length_map_to_list. rewrite <- !(size_dom (D := gset string)). f_equal. apply set_eq. intros n.
  rewrite !elem_of_dom, <- (snapInfo_is_Some _ _ Hw), Hcur, <- (pl_live _ _ _ (rf_placed _ _ Hr)).
  destruct (cInfo c !! n) as [i|] eqn:Hn; cbn; [|done]. split; [|by eexists]. intros _. by eapply Hng.
Qed.

Lemma head_generation c a :
  refines c a -> forall it, headNode (nodeInfos c) ≫= (fun l => items (nodeInfos c) !! l) = Some it ->
  Generation (info it) <= generation c.
Proof.
  intros Hr it Hit. destruct (rf_ok _ _ Hr) as [(ls&Hi&Hn) _]. rewrite (li_head _ _ _ Hi) in Hit.
  destruct ls as [|l ls]; [done|]. cbn in Hit, Hn. destruct Hn as [Hg _]. unfold genAt in Hg.
  by rewrite Hit in Hg.
Qed.

(** The snapshot the loops leave, before the lists are looked at. *)
Definition faithful c s : Prop := forall name, snapInfo s name = Clone <$> cInfo c !! name.

Lemma faithful_ok c s :
  snapWf s -> faithful c s -> snapGeneration s <= generation c ->
  nodeInfoList s ≡ₚ (map_to_list (nodeInfoMap s)).*2 ->
  havePodsWithAffinityNodeInfoList s = filter (fun l => hasAffinityPods (infos s) l = true) (nodeInfoList s) ->
  snapOk c s.
Proof.
  intros Hw Hf Hg Hl Hh. split; try done. intros name i nd Hn _ _. by rewrite Hf, Hn.
Qed.

(** The lists of the old snapshot are still right when no entry was added or deleted
    and no affinity flag changed. *)
Lemma lists_unchanged c s s1 upd all aff :
  snapOk c s -> updated s s1 upd all aff -> all = false ->
  nodeInfoList s1 ≡ₚ (map_to_list (nodeInfoMap s1)).*2 /\
  (aff = false -> havePodsWithAffinityNodeInfoList s1 =
    filter (fun l => hasAffinityPods (infos s1) l = true) (nodeInfoList s1)).
Proof.
  intros Hs Hup Hall. destruct (up_lists _ _ _ _ _ Hup) as (Hl&Hh&_).
  pose proof (up_all _ _ _ _ _ Hup Hall) as Hmap. split; [by rewrite Hl, Hmap; apply Hs|].
  intros Haff. rewrite Hh, Hl, (so_have _ _ Hs). apply filter_ext_elem. intros l Hin.
  rewrite (so_list _ _ Hs) in Hin. apply list_elem_of_fmap in Hin as ([n l']&->&Hn%elem_of_map_to_list).
  pose proof (up_flags _ _ _ _ _ Hup n Hall Haff) as Hfl. unfold snapInfo in Hfl.
  rewrite Hmap, Hn in Hfl. cbn in Hfl. unfold hasAffinityPods. cbn.
  destruct (infos s1 !! l'), (infos s !! l'); simplify_eq/=; [|done].
  unfold flagOf in Hfl. by rewrite Hfl.
Qed.

Lemma update_spec c a s :
  refines c a -> noGhost c -> snapOk c s ->
  exists nt s', UpdateSnapshot mapOrder c s = Some (Ok tt, (withTree c nt, s')) /\
    refines (withTree c nt) a /\ snapOk (withTree c nt) s' /\ faithful c s' /\
    Z.of_nat (length (nodeInfoList s')) = numNodes (cacheTree c).
Proof.
  intros Hr Hng Hs. destruct (entries_current c a s Hr Hs) as (s1&upd&all&aff&Hrun&Hup&Hcur).
  destruct (up_lists _ _ _ _ _ Hup) as (_&_&Hg1). unfold UpdateSnapshot. rewrite Hrun. bind_simpl.
  set (s2 := match headNode (nodeInfos c) ≫= _ with None => s1 | Some it => _ end).
  assert (H2 : exists g, s2 = withSnapGeneration s1 g /\ g <= generation c).
  { unfold s2. destruct (headNode (nodeInfos c) ≫= fun l => items (nodeInfos c) !! l) as [it|] eqn:Hit.
    - eexists. split; [done|]. by eapply head_generation.
    - exists (snapGeneration s1). split; [by destruct s1|]. rewrite Hg1. apply Hs. }
  destruct H2 as (g&->&Hg). cbn beta iota.
  assert (Hw2 : snapWf (withSnapGeneration s1 g)) by (destruct (up_wf _ _ _ _ _ Hup); by split).
  destruct (deleted_current c a (withSnapGeneration s1 g) Hr Hng Hw2 Hcur) as (Hw3&Hinf&Hsame&Hl3&Hh3&Hg3&Hf3).
  set (deleted := _ <? _) in *.
  set (s3 := if deleted then removeDeletedNodesFromSnapshot mapOrder c (withSnapGeneration s1 g) else _) in *.
  destruct (relist_all c a s3 Hr Hw3 Hng Hf3) as (nt&ls&Hlist&Hshape&Hls).
  pose proof (live_size c a s3 Hr Hng Hf3 Hw3) as Hsize.
  assert (Hsame' : c = withTree c (cacheTree c)) by by destruct c.
  assert (Hfinish : forall nt' s', infos s' = infos s3 -> nodeInfoMap s' = nodeInfoMap s3 ->
    snapGeneration s' = snapGeneration s3 -> sameShape (cacheTree c) nt' ->
    nodeInfoList s' ≡ₚ (map_to_list (nodeInfoMap s3)).*2 ->
    havePodsWithAffinityNodeInfoList s' = filter (fun l => hasAffinityPods (infos s3) l = true) (nodeInfoList s') ->
    refines (withTree c nt') a /\ snapOk (withTree c nt') s' /\ faithful c s' /\
    Z.of_nat (length (nodeInfoList s')) = numNodes (cacheTree c) /\ numNodes nt' = numNodes (cacheTree c)).
  { intros nt' s' Hi' Hm' Hg' Hs' Hl' Hh'.
    assert (Hf' : faithful c s') by (intros n; unfold snapInfo; rewrite Hi', Hm'; apply Hf3).
    split_and!; [by apply refines_withTree| |done|by rewrite Hl'|by apply Hs'].
    apply faithful_ok; [|done|rewrite Hg', Hg3; done|by rewrite Hm'|by rewrite Hi'].
    destruct Hw3. split; rewrite Hm', ?Hi'; eauto. }
  destruct (decide (deleted = false /\ all = false)) as [[Hd Ha]|Hda].
  - specialize (Hsame Hd). clearbody s3. subst s3. rewrite Hd, Ha. cbn [orb].
    destruct (lists_unchanged c s s1 upd all aff Hs Hup Ha) as [Hl1 Hh1].
    destruct aff.
    + change (updateNodeInfoSnapshotList c (withSnapGeneration s1 g) false) with
        (Some (c, withLists (withSnapGeneration s1 g) (nodeInfoList s1)
          (filter (fun l => hasAffinityPods (infos s1) l = true) (nodeInfoList s1)))).
      bind_simpl. cbn beta iota.
      destruct (Hfinish (cacheTree c) (withLists (withSnapGeneration s1 g) (nodeInfoList s1)
        (filter (fun l => hasAffinityPods (infos s1) l = true) (nodeInfoList s1)))) as (?&?&?&Hn&_); try done.
      rewrite decide_True by done. exists (cacheTree c). eexists. split; [by rewrite <- Hsame'|done].
    + bind_simpl. cbn beta iota.
      destruct (Hfinish (cacheTree c) (withSnapGeneration s1 g)) as (?&?&?&Hn&_); try done; [by apply Hh1|].
      rewrite decide_True by done. exists (cacheTree c). eexists. split; [by rewrite <- Hsame'|done].
  - assert (Hup' : (if deleted then true else all) = true).
    { destruct deleted; [done|]. destruct all; [done|]. exfalso. by apply Hda. }
    rewrite Hup'. cbn [orb]. rewrite Hlist. bind_simpl. cbn beta iota.
    destruct (Hfinish nt (withLists s3 ls (filter (fun l => hasAffinityPods (infos s3) l = true) ls)))
      as (?&?&?&Hn&Hnt); try done.
    cbn [cacheTree withTree]. rewrite decide_True by congruence. by eexists _, _.
Qed.
End Update.

Lemma Clone_id i : Clone i = i.
Proof.
  assert (Hr : forall r, Resource_Clone r = r).
  { intros r. unfold Resource_Clone. destruct r as [? ? ? ? [m|]]; cbn; [|done]. by rewrite map_fold_insert_id. }
  unfold Clone. rewrite !Hr. destruct i. cbn. f_equal.
  apply map_eq. intros k. rewrite (lookup_map_fold_insert (fun _ v => v)), lookup_empty. by destruct (_ !! k).
Qed.

(** ** Scheduling cycles: events of the cache and snapshots *)
Inductive cycleEvent := CacheEvent (e : cacheEvent) | TakeSnapshot.

Section Cycles.
Context `{LabelsLib} (mapOrder : list string -> list string).

(** [None] when an event panics or a snapshot fails. *)
Fixpoint runCycles (es : list cycleEvent) (c : schedulerCache) (s : Snapshot) : option (schedulerCache * Snapshot) :=
  match es with
  | [] => Some (c, s)
  | CacheEvent e :: es =>
      match cacheStep e c with (Panic, _) => None | (_, c') => runCycles es c' s end
  | TakeSnapshot :: es =>
      match UpdateSnapshot mapOrder c s with
      | Some (Ok _, (c', s')) => runCycles es c' s' | _ => None end
  end.

(** A node that is removed has no pods left when the next snapshot is taken. *)
Definition noGhostAbs (a : absCache) : Prop :=
  forall k ph p, absPods a !! k = Some (ph, p) -> is_Some (absNodes a !! nodeOfPod p).

Fixpoint validCycles (ttl0 : Z) (es : list cycleEvent) (a : absCache) : Prop :=
  match es with
  | [] => True
  | CacheEvent e :: es =>
      validEvent a e /\ (absStep ttl0 e a).1 <> Panic /\ validCycles ttl0 es (absStep ttl0 e a).2
  | TakeSnapshot :: es => noGhostAbs a /\ validCycles ttl0 es a
  end.

Definition absCycle (ttl0 : Z) (a : absCache) (e : cycleEvent) : absCache :=
  match e with CacheEvent e => (absStep ttl0 e a).2 | TakeSnapshot => a end.

Definition cycleCost (e : cycleEvent) : Z := match e with CacheEvent e => cost e | TakeSnapshot => 0 end.

Lemma noGhost_abs c a : refines c a -> noGhostAbs a -> noGhost c.
Proof.
  intros Hr Hng name i Hi. destruct (node i) as [nd|] eqn:Hnd; [by eexists|]. exfalso.
  pose proof (pl_ghost _ _ _ (rf_placed _ _ Hr) _ _ Hi Hnd) as Hpods.
  destruct (infoTags i) as [|[k s] l] eqn:Htags; [by apply fmap_nil_inv in Htags|].
  destruct (proj1 (pl_tags _ _ _ (rf_placed _ _ Hr) name k s)) as (ph&p&Hk&<-&Hn).
  { rewrite Hi. cbn. rewrite Htags. set_solver. }
  destruct (Hng _ _ _ Hk) as [nd Hlive]. unfold nodeOfPod in Hlive. rewrite Hn in Hlive.
  rewrite <- (pl_live _ _ _ (rf_placed _ _ Hr)), Hi in Hlive. cbn in Hlive. congruence.
Qed.

Lemma snapOk_step e c a s :
  stepRefines e c a -> snapOk c s -> snapOk (cacheStep e c).2 s.
Proof.
  intros (_&_&Hf&_&Hg) Hs. destruct Hs as [Hw Hl Hh Hfr Hgs]. split; try done; [|lia].
  intros name i nd Hn Hnd Hle. destruct (Hf name i Hn) as [Hold|Hnew]; [by eapply Hfr|lia].
Qed.

Lemma snapOk_empty c : 0 <= generation c -> cInfo c = ∅ -> snapOk c NewEmptySnapshot.
Proof.
  intros Hg Hc. split; try done. intros name i nd Hn. by rewrite Hc, lookup_empty in Hn.
Qed.

Lemma runCycles_ok (mapOrder_perm : forall l, mapOrder l ≡ₚ l) es : forall c a s,
  refines c a -> snapOk c s -> validCycles (ttl c) es a -> generation c + sumOver cycleCost es <= max_int64 ->
  exists c' s', runCycles es c s = Some (c', s') /\ refines c' (foldl (absCycle (ttl c)) a es) /\ snapOk c' s' /\
    generation c' <= generation c + sumOver cycleCost es.
Proof.
  assert (Hnn : forall es, 0 <= sumOver cycleCost es).
  { intros es'. apply sumOver_nonneg, list.Forall_forall. intros [e|] _; cbn; [apply cost_nonneg|done]. }
  induction es as [|[e|] es IH]; intros c a s Hr Hs Hv Hmax; cbn [runCycles foldl].
  - exists c, s. split_and!; [done..|cbn; lia].
  - destruct Hv as (Hve&Hnp&Hvs). cbn [sumOver foldr cycleCost] in Hmax. fold (sumOver cycleCost es) in Hmax.
    specialize (Hnn es). assert (Hst : stepRefines e c a) by (apply step_refines; [done..|lia]).
    pose proof (snapOk_step e c a s Hst Hs) as Hs'. destruct Hst as (Hres&Hr'&_&Httl&Hg).
    destruct (cacheStep e c) as [r c1]. cbn [fst snd] in *. rewrite <- Hres in Hnp.
    destruct (IH c1 (absStep (ttl c) e a).2 s) as (c'&s'&Hrun&Hr2&Hs2&Hg2); [done|done|by rewrite Httl|lia|].
    exists c', s'. rewrite Httl in Hr2. cbn [sumOver foldr cycleCost]. fold (sumOver cycleCost es).
    split_and!; [|done..|lia]. by destruct r.
  - destruct Hv as [Hng Hvs]. cbn [sumOver foldr cycleCost] in Hmax. fold (sumOver cycleCost es) in Hmax.
    destruct (update_spec mapOrder mapOrder_perm c a s Hr (noGhost_abs _ _ Hr Hng) Hs)
      as (nt&s1&->&Hr1&Hs1&_). by apply (IH (withTree c nt) a s1).
Qed.
End Cycles.

(** ** Properties *)

(** C5. Whatever cache events happened between the snapshots, as long as no removed
    node still held pods when a snapshot was taken, an incremental [UpdateSnapshot]
    succeeds and leaves exactly the node infos of the cache: every node has its node
    info in the snapshot and no other name has one, the list holds each of them once,
    and the affinity list is the sub-list of those that have pods with affinity.  It
    holds for every order in which Go ranges over the maps. *)
Theorem snapshot_is_faithful `{LabelsLib} (mapOrder : list string -> list string) (ttl0 g0 : Z) (es : list cycleEvent) :
  (forall l, mapOrder l ≡ₚ l) -> 0 <= g0 -> g0 + sumOver cycleCost es <= max_int64 ->
  validCycles ttl0 es emptyAbs -> noGhostAbs (foldl (absCycle ttl0) emptyAbs es) ->
  exists c s c' s',
    runCycles mapOrder es (newSchedulerCache ttl0 g0) NewEmptySnapshot = Some (c, s) /\
    UpdateSnapshot mapOrder c s = Some (Ok tt, (c', s')) /\
    (forall name, SnapshotGet s' name =
       match infoOf (nodeInfos c) name with Some i => Ok i | None => Err (NodeInfoNotFound name) end) /\
    SnapshotList s' ≡ₚ (map_to_list (nodeInfoMap s')).*2 /\
    (map_to_list (nodeInfoMap s')).*1 ≡ₚ (map_to_list (nodes (nodeInfos c))).*1 /\
    SnapshotNumNodes s' = numNodes (cacheTree c) /\
    HavePodsWithAffinityList s' = filter (fun l => hasAffinityPods (infos s') l = true) (SnapshotList s').
Proof.
  intros Hperm Hg0 Hmax Hv Hng.
  destruct (runCycles_ok mapOrder Hperm es (newSchedulerCache ttl0 g0) emptyAbs NewEmptySnapshot)
    as (c&s&Hrun&Hr&Hs&_); [by apply refines_empty|by apply snapOk_empty|done|done|].
  pose proof (noGhost_abs _ _ Hr Hng) as Hngc.
  destruct (update_spec mapOrder Hperm c _ s Hr Hngc Hs) as (nt&s'&Hup&Hr'&Hs'&Hf&Hlen).
  exists c, s, (withTree c nt), s'. split_and!; try done; [|apply Hs'| |apply Hs'].
  - intros name. unfold SnapshotGet. rewrite Hf, infoOf_infoMap. fold (cInfo c).
    destruct (cInfo c !! name) as [i|] eqn:Hi; [|done]. cbn [fmap option_fmap option_map].
    rewrite Clone_id. unfold NodeOf. by destruct (Hngc _ _ Hi) as [nd ->].
  - destruct (rf_ok _ _ Hr) as [(ls&Hi&_) _].
    apply NoDup_Permutation; [apply NoDup_fst_map_to_list..|]. intros n.
    assert (Hdom : is_Some (nodeInfoMap s' !! n) <-> is_Some (nodes (nodeInfos c) !! n)).
    { rewrite <- (snapInfo_is_Some _ _ (so_wf _ _ Hs')), Hf, fmap_is_Some. by eapply infoMap_is_Some. }
    rewrite !list_elem_of_fmap. split; intros ([n' x]&->&Hx%elem_of_map_to_list); cbn in *.
    + destruct (proj1 Hdom) as [l Hl]; [by eexists|]. exists (n', l). split; [done|]. by apply elem_of_map_to_list.
    + destruct (proj2 Hdom) as [l Hl]; [by eexists|]. exists (n', l). split; [done|]. by apply elem_of_map_to_list.
Qed.

(** A node removed before its pods: the run of the example below. *)
Definition ghostRun : list cycleEvent :=
  [CacheEvent (EvAddNode exampleNode1); CacheEvent (EvAddNode (simpleNode "n2" 1000 1000 10));
   CacheEvent (EvAdd examplePod1); TakeSnapshot; CacheEvent (EvRemoveNode exampleNode1)].

(** The snapshot taken while a removed node still holds a pod fails, and it keeps the
    entry of the removed node: [len(nodeInfoMap) > len(cache.nodes)] does not see that
    the node is gone, since the cache keeps a ghost item for it. *)
Theorem ghost_node_stays_in_snapshot :
  exists c s c' s',
    @runCycles exampleLabels id ghostRun (newSchedulerCache 30 0) NewEmptySnapshot = Some (c, s) /\
    UpdateSnapshot id c s = Some (Err (Inconsistent 2 1 2 2), (c', s')) /\
    is_Some (nodeInfoMap s' !! "n1") /\ length (SnapshotList s') = 1%nat.
Proof.
  eexists _, _, _, _. split; [vm_compute; reflexivity|]. split; [vm_compute; reflexivity|].
  split; [vm_compute; eexists; reflexivity|]. vm_compute. reflexivity.
Qed.

(** *** Witness *)
Definition exampleCycles : list cycleEvent :=
  [CacheEvent (EvAddNode exampleNode1); CacheEvent (EvAssume examplePod1); TakeSnapshot;
   CacheEvent (EvFinish examplePod1 3); CacheEvent (EvAssume examplePod2)].

Lemma snapshot_is_faithful_witness :
  exists c s c' s',
    @runCycles exampleLabels id exampleCycles (newSchedulerCache 30 0) NewEmptySnapshot = Some (c, s) /\
    UpdateSnapshot id c s = Some (Ok tt, (c', s')).
Proof.
  assert (Hng : forall t, map_Forall (fun _ (kp : podPhase * Pod) => nodeOfPod kp.2 = "n1") t ->
    noGhostAbs {| absPods := t; absNodes := {[ "n1" := exampleNode1 ]} |}).
  { intros t Ht k ph p Hk. apply (Ht k (ph, p)) in Hk. cbn in Hk. rewrite Hk. by eexists. }
  destruct (@snapshot_is_faithful exampleLabels id 30 0 exampleCycles) as (c&s&c'&s'&Hrun&Hup&_).
  - intros l. reflexivity.
  - lia.
  - vm_compute. discriminate.
  - unfold exampleCycles. cbn [validCycles]. split_and!; try exact I; try (vm_compute; discriminate).
    apply Hng. apply map_Forall_insert_2; [reflexivity|apply map_Forall_empty].
  - apply Hng. apply map_Forall_insert_2; [reflexivity|].
    apply map_Forall_insert_2; [reflexivity|].
    apply map_Forall_insert_2; [reflexivity|apply map_Forall_empty].
  - exists c, s, c', s'. split; [exact Hrun|exact Hup].
Defined.
