(* ===== verification/StaticSnapshot.v ===== *)
(** * A snapshot of given pods and nodes (internal/cache/snapshot.go)

    [NewSnapshot] builds a snapshot without a cache: it pivots the pods into node infos by
    the names of their nodes and adds the nodes with the states of their images. *)
From S2P Require Import Prelude Api NodeInfo NodeTree CacheList Cache Snapshot.
Local Open Scope Z_scope.

(** On which nodes an image is, by its name. *)
Definition createImageExistenceMap (nodes : list Node) : gmap string (gset string) :=
  foldl (fun m nd =>
    foldl (fun m image =>
      foldl (fun m name => <[name := {[node_Name nd]} ∪ default ∅ (m !! name)]> m) m (img_Names image)) m (node_Images nd)) ∅ nodes.

Definition getNodeImageStates (nd : Node) (imageExistenceMap : gmap string (gset string)) : gmap string ImageStateSummary :=
  foldl (fun states image =>
    foldl (fun states name =>
      <[name := {| Size := img_SizeBytes image; NumNodes := Z.of_nat (size (default ∅ (imageExistenceMap !! name))) |}]> states)
      states (img_Names image)) ∅ (node_Images nd).

Definition withImageStates (states : gmap string ImageStateSummary) (i : NodeInfo) : NodeInfo :=
  {| node := node i; Pods := Pods i; PodsWithAffinity := PodsWithAffinity i; UsedPorts := UsedPorts i; Requested := Requested i;
     NonZeroRequested := NonZeroRequested i; Allocatable := Allocatable i; ImageStates := states;
     TransientInfo := TransientInfo i; Generation := Generation i |}.

Section NewSnapshot.
Context `{LabelsLib}.

(** The entry of a name, created if it is missing, and changed. *)
Definition onEntry (name : string) (change : Z -> NodeInfo -> Z * NodeInfo) (s : Z * gmap string NodeInfo) : Z * gmap string NodeInfo :=
  let '(g, m) := s in
  let '(g, i) := match m !! name with Some i => (g, i) | None => NewNodeInfo g [] end in
  let '(g, i) := change g i in
  (g, <[name := i]> m).

Definition addPodEntry (s : Z * gmap string NodeInfo) (pod : Pod) : Z * gmap string NodeInfo :=
  onEntry (NodeName (pod_Spec pod)) (fun g i => NodeInfo.AddPod g i pod) s.

Definition addNodeEntry (imageExistenceMap : gmap string (gset string)) (s : Z * gmap string NodeInfo) (nd : Node)
    : Z * gmap string NodeInfo :=
  onEntry (node_Name nd) (fun g i =>
    let '(g, i) := SetNode g i nd in (g, withImageStates (getNodeImageStates nd imageExistenceMap) i)) s.

(** The generation is threaded as in the other operations. *)
Definition createNodeInfoMap (g : Z) (pods : list Pod) (nodes : list Node) : Z * gmap string NodeInfo :=
  foldl (addNodeEntry (createImageExistenceMap nodes)) (foldl addPodEntry (g, ∅) pods) nodes.

(** A new location for every entry, in the order in which Go goes through the map. *)
Fixpoint place (entries : list (string * NodeInfo)) (s : Snapshot) : Snapshot :=
  match entries with
  | [] => s
  | (name, i) :: entries =>
      let l := fresh (dom (infos s)) in
      let s := withInfos s (<[l := i]> (infos s)) (<[name := l]> (nodeInfoMap s)) in
      place entries (withLists s (nodeInfoList s ++ [l])
        (if bool_decide (PodsWithAffinity i <> []) then havePodsWithAffinityNodeInfoList s ++ [l]
         else havePodsWithAffinityNodeInfoList s))
  end.

Context (order : gmap string NodeInfo -> list (string * NodeInfo)).

Definition NewSnapshot (g : Z) (pods : list Pod) (nodes : list Node) : Z * Snapshot :=
  let '(g, nodeNameToInfo) := createNodeInfoMap g pods nodes in
  (g, place (order nodeNameToInfo) NewEmptySnapshot).

(** ** What the entries hold *)

(** The entry holds the pods and the node, if any. *)
Definition entryOf (m : gmap string NodeInfo) (name : string) (pods : list Pod) (nd : option Node) : Prop :=
  match m !! name with
  | Some i => pi_Pod <$> Pods i = pods /\ node i = nd
  | None => pods = [] /\ nd = None
  end.

Lemma NewNodeInfo_empty g : exists i, NewNodeInfo g [] = (nextGeneration g, i) /\ Pods i = [] /\ node i = None.
Proof. eexists. by split. Qed.

Lemma onEntry_entry name change s n pods nd pods' nd' : (forall g i, pi_Pod <$> Pods i = pods -> node i = nd ->
    pi_Pod <$> Pods (change g i).2 = pods' /\ node (change g i).2 = nd') ->
  entryOf s.2 n pods nd -> n = name -> entryOf (onEntry name change s).2 n pods' nd'.
Proof.
  intros Hchange He ->. destruct s as [g m]. unfold onEntry, entryOf in *. cbn [snd] in *.
  destruct (m !! name) as [i|] eqn:Hm.
  - destruct He as [Hp Hn]. specialize (Hchange g i Hp Hn). destruct (change g i) as [g' i']. cbn [snd] in *.
    by rewrite lookup_insert_eq.
  - destruct He as [-> ->]. destruct (NewNodeInfo_empty g) as (i&->&Hp&Hn).
    specialize (Hchange (nextGeneration g) i). rewrite Hp in Hchange. specialize (Hchange eq_refl Hn).
    destruct (change (nextGeneration g) i) as [g' i']. cbn [snd] in *. by rewrite lookup_insert_eq.
Qed.

Lemma onEntry_other name change s n pods nd : entryOf s.2 n pods nd -> n <> name -> entryOf (onEntry name change s).2 n pods nd.
Proof.
  intros He Hne. destruct s as [g m]. unfold onEntry, entryOf in *. cbn [snd] in *.
  destruct (match m !! name with Some i => (g, i) | None => NewNodeInfo g [] end) as [g' i].
  destruct (change g' i) as [g'' i']. cbn [snd]. by rewrite lookup_insert_ne.
Qed.

Lemma addPodEntries pods : forall s n before, entryOf s.2 n before None ->
  entryOf (foldl addPodEntry s pods).2 n (before ++ filter (fun p => NodeName (pod_Spec p) = n) pods) None.
Proof.
  induction pods as [|p pods IH]; intros s n before He; cbn [foldl]; [by rewrite app_nil_r|]. rewrite filter_cons.
  case_decide as Hn.
  - replace (before ++ p :: _) with ((before ++ [p]) ++ filter (fun p => NodeName (pod_Spec p) = n) pods) by by rewrite <- app_assoc.
    apply IH. eapply (onEntry_entry (NodeName (pod_Spec p))); [|exact He|done].
    intros g i Hp Hnode. unfold NodeInfo.AddPod. destruct (calculateResource p) as [[? ?] ?]. cbn [snd Pods node].
    rewrite fmap_app, Hp. done.
  - apply IH. by apply onEntry_other.
Qed.

(** The last node of a name. *)
Definition lastNode (nodes : list Node) (name : string) (start : option Node) : option Node :=
  foldl (fun o nd => if decide (node_Name nd = name) then Some nd else o) start nodes.

Lemma addNodeEntries existence nodes : forall s n pods nd, entryOf s.2 n pods nd ->
  entryOf (foldl (addNodeEntry existence) s nodes).2 n pods (lastNode nodes n nd).
Proof.
  induction nodes as [|nd' nodes IH]; intros s n pods nd He; cbn [foldl lastNode]; [done|]. apply IH.
  case_decide as Hn.
  - eapply (onEntry_entry (node_Name nd')); [|exact He|done]. intros g i Hp _. done.
  - by apply onEntry_other.
Qed.

Lemma createNodeInfoMap_entry g pods nodes n :
  entryOf (createNodeInfoMap g pods nodes).2 n (filter (fun p => NodeName (pod_Spec p) = n) pods) (lastNode nodes n None).
Proof.
  unfold createNodeInfoMap. apply addNodeEntries. apply (addPodEntries pods (g, ∅) n []). unfold entryOf. cbn [snd].
  by rewrite lookup_empty.
Qed.

(** ** Placing the entries *)
Lemma place_spec entries : forall s, NoDup entries.*1 -> (forall name, name ∈ entries.*1 -> nodeInfoMap s !! name = None) ->
  (forall name l, nodeInfoMap s !! name = Some l -> is_Some (infos s !! l)) ->
  (forall name, snapInfo (place entries s) name = match (list_to_map entries : gmap string NodeInfo) !! name with Some i => Some i | None => snapInfo s name end) /\
  length (nodeInfoList (place entries s)) = (length (nodeInfoList s) + length entries)%nat.
Proof.
  induction entries as [|[name i] entries IH]; intros s Hnd Hfresh Hwf; cbn [place]; [split; [done|cbn; lia]|].
  rewrite fmap_cons in Hnd, Hfresh. apply NoDup_cons in Hnd as [Hname Hnd]. cbn [fst] in *.
  pose proof (is_fresh (dom (infos s))) as Hl. set (l := fresh (dom (infos s))) in *. apply not_elem_of_dom in Hl.
  match goal with |- context [place entries ?s1] => destruct (IH s1) as [Hsnap Hlen] end; [done|..].
  - intros name' Hin. cbn. rewrite lookup_insert_ne; [apply Hfresh, list.elem_of_cons; by right|]. by intros ->.
  - intros name' l' Hl'. cbn in Hl' |- *. destruct (decide (name' = name)) as [->|Hne].
    + rewrite lookup_insert_eq in Hl'. injection Hl' as <-. by rewrite lookup_insert_eq.
    + rewrite lookup_insert_ne in Hl' by done. destruct (Hwf _ _ Hl') as [i' Hi'].
      destruct (decide (l' = l)) as [->|]; [by rewrite lookup_insert_eq|]. rewrite lookup_insert_ne by done. eauto.
  - split.
    + intros name'. rewrite Hsnap. cbn [list_to_map foldr fst snd uncurry]. unfold snapInfo at 1. cbn.
      destruct (decide (name' = name)) as [->|Hne].
      * rewrite lookup_insert_eq. rewrite (not_elem_of_list_to_map_1 entries name) by done.
        rewrite lookup_insert_eq. cbn. by rewrite lookup_insert_eq.
      * rewrite !(lookup_insert_ne _ name name') by done. destruct ((list_to_map entries : gmap string NodeInfo) !! name'); [done|].
        unfold snapInfo. destruct (nodeInfoMap s !! name') as [l'|] eqn:Hl'; [|done]. cbn.
        rewrite lookup_insert_ne; [done|]. intros <-. destruct (Hwf _ _ Hl'). congruence.
    + rewrite Hlen. cbn. rewrite length_app. cbn. lia.
Qed.

(** In every order of the map, a snapshot of pods and nodes holds one node info for every name of
    a node and for every node name of a pod, with the pods of this name in their order and the
    last node of this name; Get finds those with a node. *)
Theorem new_snapshot_holds_pods_and_nodes g pods nodes : (forall m, order m ≡ₚ map_to_list m) ->
  let s := (NewSnapshot g pods nodes).2 in
  (forall name, match snapInfo s name with
     | Some i => pi_Pod <$> Pods i = filter (fun p => NodeName (pod_Spec p) = name) pods /\ node i = lastNode nodes name None
     | None => filter (fun p => NodeName (pod_Spec p) = name) pods = [] /\ lastNode nodes name None = None
     end) /\
  (forall name nd, lastNode nodes name None = Some nd -> exists i, SnapshotGet s name = Ok i /\ NodeOf i = Some nd) /\
  length (SnapshotList s) = size (createNodeInfoMap g pods nodes).2.
Proof.
  intros Horder s. unfold NewSnapshot in s. pose proof (createNodeInfoMap_entry g pods nodes) as Hentry.
  destruct (createNodeInfoMap g pods nodes) as [g' m]. cbn [snd] in *. subst s.
  assert (Hnd : NoDup (order m).*1) by (rewrite Horder; apply NoDup_fst_map_to_list).
  destruct (place_spec (order m) NewEmptySnapshot Hnd) as [Hsnap Hlen]; [by intros; apply lookup_empty|done|].
  assert (Hm : forall name, snapInfo (place (order m) NewEmptySnapshot) name = m !! name).
  { intros name. rewrite Hsnap. rewrite (list_to_map_proper _ _ Hnd (Horder m)), list_to_map_to_list. by destruct (m !! name). }
  split_and!.
  - intros name. rewrite Hm. apply Hentry.
  - intros name nd Hlast. unfold SnapshotGet. rewrite Hm. specialize (Hentry name). unfold entryOf in Hentry. rewrite Hlast in Hentry.
    destruct (m !! name) as [i|]; [|by destruct Hentry]. destruct Hentry as [_ Hn]. unfold NodeOf. rewrite Hn. by exists i.
  - unfold SnapshotList. rewrite Hlen, (Permutation_length (Horder m)), length_map_to_list. done.
Qed.
End NewSnapshot.
