(* ===== verification/Nominator.v ===== *)
(** * The pods nominated to nodes (nominatedPodMap of internal/queue/scheduling_queue.go)

    A pod that waits for the end of its victims is nominated to a node.  The
    structure keeps two Go maps, from nodes to pods and from pod UIDs to nodes;
    they are shown to present one list of nominations in the order in which they
    were made.  The methods lock the structure and are atomic steps here. *)
From S2P Require Import Prelude Api.

(** [NominatedNodeName] is the nominated node that the pod object itself carries. *)
Definition NominatedNodeName (pod : Pod) : string := NominatedNodeName_field (pod_Status pod).

Record nominatedPodMap := {
  nominatedPods : gmap string (list Pod);
  nominatedPodToNode : gmap string string
}.

Definition NewPodNominator : nominatedPodMap :=
  {| nominatedPods := ∅; nominatedPodToNode := ∅ |}.

(** Reading an absent key of a Go map of slices gives the nil slice. *)
Definition NominatedPodsForNode (npm : nominatedPodMap) (nodeName : string) : list Pod :=
  default [] (nominatedPods npm !! nodeName).

Definition npmDelete (npm : nominatedPodMap) (p : Pod) : nominatedPodMap :=
  match nominatedPodToNode npm !! pod_UID p with
  | None => npm
  | Some nnn =>
      let l := NominatedPodsForNode npm nnn in
      {| nominatedPods :=
           match list_find (fun np => pod_UID np = pod_UID p) l with
           | None => nominatedPods npm
           | Some (i, _) =>
               match take i l ++ drop (S i) l with
               | [] => delete nnn (nominatedPods npm)
               | l' => <[nnn := l']> (nominatedPods npm)
               end
           end;
         nominatedPodToNode := delete (pod_UID p) (nominatedPodToNode npm) |}
  end.

Definition npmAdd (npm : nominatedPodMap) (p : Pod) (nodeName : string) : nominatedPodMap :=
  let npm := npmDelete npm p in
  let nnn := if decide (nodeName = "") then NominatedNodeName p else nodeName in
  if decide (nnn = "") then npm
  else
    let toNode := <[pod_UID p := nnn]> (nominatedPodToNode npm) in
    let l := NominatedPodsForNode npm nnn in
    if decide (Exists (fun np => pod_UID np = pod_UID p) l)
    then {| nominatedPods := nominatedPods npm; nominatedPodToNode := toNode |}
    else {| nominatedPods := <[nnn := l ++ [p]]> (nominatedPods npm); nominatedPodToNode := toNode |}.

Definition DeleteNominatedPodIfExists := npmDelete.
Definition AddNominatedPod := npmAdd.

Definition UpdateNominatedPod (npm : nominatedPodMap) (oldPod newPod : Pod) : nominatedPodMap :=
  let nodeName :=
    if decide (NominatedNodeName oldPod = "" /\ NominatedNodeName newPod = "")
    then default "" (nominatedPodToNode npm !! pod_UID oldPod)
    else "" in
  npmAdd (npmDelete npm oldPod) newPod nodeName.

(** ** Abstract specification: a list of nominations, oldest first *)
Abbreviation nominations := (list (Pod * string)).

Definition revoke (p : Pod) (l : nominations) : nominations :=
  filter (fun e => pod_UID e.1 <> pod_UID p) l.

Definition nominate (p : Pod) (node : string) (l : nominations) : nominations :=
  if decide (node = "") then revoke p l else revoke p l ++ [(p, node)].

(** The node that a pod is nominated to, or the empty string. *)
Definition nominatedTo (l : nominations) (uid : string) : string :=
  default "" (snd <$> list.head (filter (fun e => pod_UID e.1 = uid) l)).

Definition nominatedFor (l : nominations) (node : string) : list Pod :=
  (filter (fun e => e.2 = node) l).*1.

Inductive nominatorOp :=
  | OpAddNominated (p : Pod) (node : string)
  | OpDeleteNominated (p : Pod)
  | OpUpdateNominated (old new : Pod).

Definition nominatorStep (m : nominatedPodMap) (op : nominatorOp) : nominatedPodMap :=
  match op with
  | OpAddNominated p node => AddNominatedPod m p node
  | OpDeleteNominated p => DeleteNominatedPodIfExists m p
  | OpUpdateNominated old new => UpdateNominatedPod m old new
  end.

(** What the caller asked for wins over what the pod carries; an update between
    two pods that carry no node keeps the reservation made in memory. *)
Definition nominationStep (l : nominations) (op : nominatorOp) : nominations :=
  match op with
  | OpAddNominated p node => nominate p (if decide (node = "") then NominatedNodeName p else node) l
  | OpDeleteNominated p => revoke p l
  | OpUpdateNominated old new =>
      let kept := if decide (NominatedNodeName old = "") then nominatedTo l (pod_UID old) else "" in
      nominate new (if decide (NominatedNodeName new = "") then kept else NominatedNodeName new) (revoke old l)
  end.

Record nominates (m : nominatedPodMap) (l : nominations) : Prop := {
  nom_once : NoDup (pod_UID ∘ fst <$> l);
  nom_lists node : NominatedPodsForNode m node = nominatedFor l node;
  nom_nonempty node : nominatedPods m !! node <> Some [];
  nom_toNode uid : nominatedPodToNode m !! uid =
    snd <$> list.head (filter (fun e => pod_UID e.1 = uid) l);
  nom_named p node : (p, node) ∈ l -> node <> ""
}.

(** ** Lemmas *)

(** Cutting the first match out of a list without duplicates is a filter. *)
Lemma cut_first_filter {A} (f : A -> string) (u : string) (l : list A) :
  NoDup (f <$> l) ->
  match list_find (fun a => f a = u) l with
  | None => filter (fun a => f a <> u) l = l
  | Some (i, _) => take i l ++ drop (S i) l = filter (fun a => f a <> u) l
  end.
Proof.
  induction l as [|a l IH]; intros Hnd; [done|].
  apply NoDup_cons in Hnd as [Ha Hnd]. specialize (IH Hnd). cbn [list_find].
  rewrite filter_cons. destruct (decide (f a = u)) as [<-|Hne].
  - rewrite decide_False by tauto. simpl. symmetry. apply filter_keeps_all.
    intros b Hb E. apply Ha. rewrite <- E. by apply list_elem_of_fmap_2.
  - rewrite decide_True by done. destruct (list_find _ l) as [[i b]|]; simpl.
    + by rewrite IH.
    + by rewrite IH.
Qed.

Lemma revoke_lists p l node :
  nominatedFor (revoke p l) node = filter (fun np => pod_UID np <> pod_UID p) (nominatedFor l node).
Proof.
  unfold nominatedFor, revoke. rewrite filter_fmap_comm. f_equal.
  induction l as [|e l IH]; [done|]. rewrite !filter_cons.
  repeat (case_decide; rewrite ?filter_cons); try done; try tauto; try (by f_equal).
Qed.

Lemma nominatedFor_once l node : NoDup (pod_UID ∘ fst <$> l) -> NoDup (pod_UID <$> nominatedFor l node).
Proof.
  intros Hnd. unfold nominatedFor. rewrite <- list_fmap_compose.
  eapply sublist_NoDup; [exact Hnd|]. apply fmap_sublist, sublist_filter.
Qed.

Lemma revoke_once p l : NoDup (pod_UID ∘ fst <$> l) -> NoDup (pod_UID ∘ fst <$> revoke p l).
Proof. intros Hnd. eapply sublist_NoDup; [exact Hnd|]. apply fmap_sublist, sublist_filter. Qed.

(** What is left of the nominations of one UID. *)
Lemma of_uid_revoke p l uid :
  filter (fun e => pod_UID e.1 = uid) (revoke p l) =
  if decide (uid = pod_UID p) then [] else filter (fun e => pod_UID e.1 = uid) l.
Proof.
  unfold revoke. induction l as [|e l IH]; [by case_decide|]. rewrite !filter_cons.
  repeat (case_decide; rewrite ?filter_cons in * ); simplify_eq; try done; try congruence; try tauto; by f_equal.
Qed.

Lemma revoke_absent p l :
  list.head (filter (fun e => pod_UID e.1 = pod_UID p) l) = None -> revoke p l = l.
Proof.
  intros Hh. apply filter_keeps_all. intros e He Huid.
  assert (Hin : e ∈ filter (fun e => pod_UID e.1 = pod_UID p) l) by by apply list_elem_of_filter.
  destruct (filter _ l); [by apply elem_of_nil in Hin|done].
Qed.

(** The nomination that the UID map shows is in the list. *)
Lemma toNode_elem m l p node :
  nominates m l -> nominatedPodToNode m !! pod_UID p = Some node ->
  exists q, (q, node) ∈ l /\ pod_UID q = pod_UID p.
Proof.
  intros Hn Hm. rewrite (nom_toNode _ _ Hn) in Hm.
  apply fmap_Some in Hm as ([q n]&Hh&->). apply head_Some_elem_of in Hh.
  apply list_elem_of_filter in Hh as [Hu Hin]. by exists q.
Qed.

Lemma npmDelete_spec m l p : nominates m l -> nominates (npmDelete m p) (revoke p l).
Proof.
  intros Hn. unfold npmDelete.
  destruct (nominatedPodToNode m !! pod_UID p) as [nnn|] eqn:Hp.
  2: { rewrite revoke_absent; [done|]. rewrite (nom_toNode _ _ Hn) in Hp. by apply fmap_None in Hp. }
  destruct (toNode_elem _ _ _ _ Hn Hp) as (q&Hq&Huid).
  pose proof (cut_first_filter pod_UID (pod_UID p) _ (nominatedFor_once l nnn (nom_once _ _ Hn))) as Hcut.
  rewrite (nom_lists _ _ Hn nnn), <- revoke_lists in *.
  assert (Hfind : is_Some (list_find (fun np => pod_UID np = pod_UID p) (nominatedFor l nnn))).
  { eapply list_find_elem_of; [|exact Huid]. apply (list_elem_of_fmap_2 fst _ (q, nnn)).
    by apply list_elem_of_filter. }
  destruct Hfind as [[i x] Hi]. rewrite Hi in *. rewrite Hcut.
  assert (Hother : forall node, node <> nnn -> nominatedFor (revoke p l) node = nominatedFor l node).
  { intros node Hne. rewrite revoke_lists. apply filter_keeps_all. intros b Hb E.
    apply list_elem_of_fmap in Hb as ([b' n]&->&Hb). apply list_elem_of_filter in Hb as [Hb2 Hb]. simpl in *.
    pose proof (nom_toNode _ _ Hn (pod_UID p)) as Ht. rewrite Hp in Ht. subst n.
    assert (E' : (b', node) = (q, nnn)).
    { apply (NoDup_fmap_inj_on (pod_UID ∘ fst) l); [by apply Hn|done|done|]. simpl. congruence. }
    congruence. }
  split; cbn [nominatedPods nominatedPodToNode].
  - apply revoke_once, Hn.
  - intros node. unfold NominatedPodsForNode. cbn [nominatedPods].
    destruct (decide (node = nnn)) as [->|Hne].
    + destruct (nominatedFor (revoke p l) nnn) eqn:E; [by rewrite lookup_delete_eq|by rewrite lookup_insert_eq].
    + rewrite (Hother node Hne), <- (nom_lists _ _ Hn node). unfold NominatedPodsForNode.
      by destruct (nominatedFor (revoke p l) nnn); [rewrite lookup_delete_ne|rewrite lookup_insert_ne].
  - intros node. pose proof (nom_nonempty _ _ Hn node) as Hne0.
    destruct (nominatedFor (revoke p l) nnn) eqn:E; destruct (decide (node = nnn)) as [->|Hne].
    + by rewrite lookup_delete_eq.
    + by rewrite lookup_delete_ne.
    + by rewrite lookup_insert_eq.
    + by rewrite lookup_insert_ne.
  - intros uid. rewrite of_uid_revoke. case_decide as Hu.
    + subst uid. by rewrite lookup_delete_eq.
    + rewrite lookup_delete_ne by done. apply Hn.
  - intros r node Hr. apply list_elem_of_filter in Hr as [_ Hr]. by eapply Hn.
Qed.

Lemma npmAdd_spec m l p node : nominates m l ->
  nominates (npmAdd m p node) (nominate p (if decide (node = "") then NominatedNodeName p else node) l).
Proof.
  intros Hn. pose proof (npmDelete_spec m l p Hn) as Hd. unfold npmAdd, nominate.
  set (nnn := if decide (node = "") then _ else node). case_decide as Hnnn; [done|].
  rewrite (nom_lists _ _ Hd nnn). rewrite decide_False.
  2: { intros Hex. apply list.Exists_exists in Hex as (q&Hq&Hu). rewrite revoke_lists in Hq.
       by apply list_elem_of_filter in Hq as [? _]. }
  set (m' := npmDelete m p) in *. set (l' := revoke p l) in *.
  assert (Hfor : forall n, nominatedFor (l' ++ [(p, nnn)]) n =
    if decide (n = nnn) then nominatedFor l' nnn ++ [p] else nominatedFor l' n).
  { intros n. unfold nominatedFor. rewrite filter_app, filter_cons, filter_nil, fmap_app. simpl.
    repeat case_decide; simplify_eq; try done. by rewrite app_nil_r. }
  assert (Hgone : filter (fun e => pod_UID e.1 = pod_UID p) l' = []).
  { unfold l'. rewrite of_uid_revoke. by rewrite decide_True. }
  split; cbn [nominatedPods nominatedPodToNode].
  - rewrite fmap_app. apply NoDup_app. split_and!; [apply Hd| |by apply NoDup_singleton].
    intros u Hu Hin. apply list_elem_of_singleton in Hin as ->.
    apply list_elem_of_fmap in Hu as (e&Hu&He). simpl in Hu.
    assert (e ∈ filter (fun e => pod_UID e.1 = pod_UID p) l') by by apply list_elem_of_filter.
    rewrite Hgone in *. set_solver.
  - intros n. unfold NominatedPodsForNode. cbn [nominatedPods]. rewrite Hfor. case_decide as E.
    + subst n. by rewrite lookup_insert_eq.
    + rewrite lookup_insert_ne by done. apply (nom_lists _ _ Hd).
  - intros n. destruct (decide (n = nnn)) as [->|E].
    + rewrite lookup_insert_eq. by destruct (nominatedFor l' nnn).
    + rewrite lookup_insert_ne by done. apply Hd.
  - intros uid. rewrite filter_app, filter_cons, filter_nil. cbn [fst]. case_decide as E.
    + subst uid. rewrite lookup_insert_eq, Hgone. done.
    + rewrite lookup_insert_ne by done. rewrite app_nil_r. apply Hd.
  - intros q n Hq. apply elem_of_app in Hq as [Hq|Hq]; [by eapply Hd|]. set_solver.
Qed.

Lemma nominates_New : nominates NewPodNominator [].
Proof. split; intros; try done; [constructor|set_solver]. Qed.

Lemma nominatorStep_spec m l op : nominates m l -> nominates (nominatorStep m op) (nominationStep l op).
Proof.
  intros Hn. destruct op as [p node|p|old new]; cbn [nominatorStep nominationStep].
  - by apply npmAdd_spec.
  - by apply npmDelete_spec.
  - unfold UpdateNominatedPod.
    assert (Hkept : default "" (nominatedPodToNode m !! pod_UID old) = nominatedTo l (pod_UID old)).
    { unfold nominatedTo. by rewrite (nom_toNode _ _ Hn). }
    set (nodeName := if decide (_ /\ _) then _ else "").
    pose proof (npmAdd_spec _ _ new nodeName (npmDelete_spec m l old Hn)) as Hadd.
    enough (E : (if decide (nodeName = "") then NominatedNodeName new else nodeName) =
      if decide (NominatedNodeName new = "")
      then (if decide (NominatedNodeName old = "") then nominatedTo l (pod_UID old) else "")
      else NominatedNodeName new) by by rewrite <- E.
    subst nodeName. rewrite Hkept. repeat case_decide; try tauto; try congruence.
Qed.

Lemma nominator_run ops : forall m l,
  nominates m l -> nominates (foldl nominatorStep m ops) (foldl nominationStep l ops).
Proof.
  induction ops as [|op ops IH]; intros m l Hn; [done|]. apply IH. by apply nominatorStep_spec.
Qed.

(** ** Properties *)

(** The two maps of the nominator present one list of nominations: after any
    calls on a new nominator, the pods of a node are exactly those whose latest
    nomination is to that node, in the order of nomination; no UID is nominated
    twice, the UID map agrees with the lists, and no node keeps an empty list. *)
Theorem nominator_keeps_nominations (ops : list nominatorOp) :
  let m := foldl nominatorStep NewPodNominator ops in
  let l := foldl nominationStep [] ops in
  (forall node, NominatedPodsForNode m node = nominatedFor l node) /\
  NoDup (pod_UID ∘ fst <$> l) /\
  (forall uid, default "" (nominatedPodToNode m !! uid) = nominatedTo l uid) /\
  (forall node, nominatedPods m !! node <> Some []).
Proof.
  cbv zeta. pose proof (nominator_run ops _ _ nominates_New) as Hn.
  split_and!; try apply Hn. intros uid. unfold nominatedTo. by rewrite (nom_toNode _ _ Hn).
Qed.
