(* ===== verification/PriorityQueue.v ===== *)
(** * The scheduling queue (scheduler/internal/queue/scheduling_queue.go)

    Three sub-queues: the heap [activeQ] of the pods to schedule, the heap
    [podBackoffQ] of pods that wait for their backoff to end, and the map
    [unschedulableQ].  Every exported method runs under the lock of the queue and
    is one atomic step here; [cond.Broadcast] is counted and a [Pop] that would
    wait answers [Waiting].  The order of pods is the one of
    framework/plugins/queuesort. *)
From S2P Require Import Prelude GoHeap Api Heap NodeInfo Nominator.
Local Open Scope go_scope.

(** ** Pods in the queue (QueuedPodInfo of framework/v1alpha1/types.go)

    Times are nanoseconds. *)
Record QueuedPodInfo := {
  qp_Pod : Pod;
  Timestamp : Z;
  Attempts : Z;
  InitialAttemptTimestamp : Z
}.

#[export] Instance QueuedPodInfo_eq : EqDecision QueuedPodInfo.
Proof. solve_decision. Defined.

(** [updatePod] and the assignments to a field of a [QueuedPodInfo]; its pointer is
    held by one sub-queue or by the scheduling cycle that popped it. *)
Definition updatePod (pInfo : QueuedPodInfo) (newPod : Pod) : QueuedPodInfo :=
  {| qp_Pod := newPod; Timestamp := Timestamp pInfo; Attempts := Attempts pInfo;
     InitialAttemptTimestamp := InitialAttemptTimestamp pInfo |}.
Definition withTimestamp (pInfo : QueuedPodInfo) (now : Z) : QueuedPodInfo :=
  {| qp_Pod := qp_Pod pInfo; Timestamp := now; Attempts := Attempts pInfo;
     InitialAttemptTimestamp := InitialAttemptTimestamp pInfo |}.
Definition withAttempts (pInfo : QueuedPodInfo) (n : Z) : QueuedPodInfo :=
  {| qp_Pod := qp_Pod pInfo; Timestamp := Timestamp pInfo; Attempts := n;
     InitialAttemptTimestamp := InitialAttemptTimestamp pInfo |}.

(** The zero [time.Time] is the year 1. *)
Definition zeroTime : Z := (- 62135596800 * 1000000000)%Z.

Definition newQueuedPodInfoNoTimestamp (pod : Pod) : QueuedPodInfo :=
  {| qp_Pod := pod; Timestamp := zeroTime; Attempts := 0; InitialAttemptTimestamp := zeroTime |}.

Definition GetPodFullName (pod : Pod) : string := (pod_Name pod +:+ "_" +:+ pod_Namespace pod)%string.

(** [cache.MetaNamespaceKeyFunc] of k8s.io/client-go ([None] is an error). *)
Class KeyLib : Type := MetaNamespaceKeyFunc : Pod -> option string.

Definition podInfoKeyFunc `{KeyLib} (pInfo : QueuedPodInfo) : option string :=
  MetaNamespaceKeyFunc (qp_Pod pInfo).

(** *** The order of activeQ (queuesort/priority_sort.go, helper/pod.go) *)
Class PodPriority : Type := GetPodPriority : Pod -> Z.

(** The helper of this repository gives every pod the priority 0. *)
Definition codePodPriority : PodPriority := fun _ => 0%Z.

Definition PrioritySort_Less `{PodPriority} (pInfo1 pInfo2 : QueuedPodInfo) : bool :=
  let p1 := GetPodPriority (qp_Pod pInfo1) in
  let p2 := GetPodPriority (qp_Pod pInfo2) in
  (p2 <? p1)%Z || ((p1 =? p2)%Z && (Timestamp pInfo1 <? Timestamp pInfo2)%Z).

(** ** Unschedulable pods *)
Record UnschedulablePodsMap := {
  podInfoMap : gmap string QueuedPodInfo;
  us_recorder : option (list recorderCall)
}.

Definition usRecord (c : recorderCall) (u : UnschedulablePodsMap) : option (list recorderCall) :=
  match us_recorder u with None => None | Some calls => Some (calls ++ [c]) end.

Definition usAddOrUpdate (u : UnschedulablePodsMap) (pInfo : QueuedPodInfo) : UnschedulablePodsMap :=
  let podID := GetPodFullName (qp_Pod pInfo) in
  {| podInfoMap := <[podID := pInfo]> (podInfoMap u);
     us_recorder := match podInfoMap u !! podID with Some _ => us_recorder u | None => usRecord Inc u end |}.

Definition usDelete (u : UnschedulablePodsMap) (pod : Pod) : UnschedulablePodsMap :=
  let podID := GetPodFullName pod in
  {| podInfoMap := delete podID (podInfoMap u);
     us_recorder := match podInfoMap u !! podID with Some _ => usRecord Dec u | None => us_recorder u end |}.

Definition usGet (u : UnschedulablePodsMap) (pod : Pod) : option QueuedPodInfo :=
  podInfoMap u !! GetPodFullName pod.

Definition usClear (u : UnschedulablePodsMap) : UnschedulablePodsMap :=
  {| podInfoMap := ∅; us_recorder := usRecord Clear u |}.

Definition newUnschedulablePodsMap (recorder : option (list recorderCall)) : UnschedulablePodsMap :=
  {| podInfoMap := ∅; us_recorder := recorder |}.

(** ** The queue *)

(** [ticks] counts the readings of the clock and of the order in which Go iterates
    over a map; [broadcasts] counts [cond.Broadcast]; [incomingPods] are the
    increments of the metric [SchedulerQueueIncomingPods]. *)
Record PriorityQueue := {
  nominator : nominatedPodMap;
  activeQ : Heap QueuedPodInfo;
  podBackoffQ : Heap QueuedPodInfo;
  unschedulableQ : UnschedulablePodsMap;
  schedulingCycle : Z;
  moveRequestCycle : Z;
  closed : bool;
  ticks : nat;
  broadcasts : nat;
  incomingPods : list (string * string)
}.

Inductive queueError :=
  | HeapError (e : heapError)
  | AlreadyUnschedulable | AlreadyActive | AlreadyBackingOff
  | QueueClosed
  | OutOfFuel.

Abbreviation Q := (stateM PriorityQueue queueError).

Definition setQueue (nom : nominatedPodMap -> nominatedPodMap)
    (act back : Heap QueuedPodInfo -> Heap QueuedPodInfo)
    (uns : UnschedulablePodsMap -> UnschedulablePodsMap) (q : PriorityQueue) : PriorityQueue :=
  {| nominator := nom (nominator q); activeQ := act (activeQ q); podBackoffQ := back (podBackoffQ q);
     unschedulableQ := uns (unschedulableQ q); schedulingCycle := schedulingCycle q;
     moveRequestCycle := moveRequestCycle q; closed := closed q; ticks := ticks q;
     broadcasts := broadcasts q; incomingPods := incomingPods q |}.
Definition setCycles (cycle moveCycle : Z) (cl : bool) (q : PriorityQueue) : PriorityQueue :=
  {| nominator := nominator q; activeQ := activeQ q; podBackoffQ := podBackoffQ q;
     unschedulableQ := unschedulableQ q; schedulingCycle := cycle; moveRequestCycle := moveCycle;
     closed := cl; ticks := ticks q; broadcasts := broadcasts q; incomingPods := incomingPods q |}.
Definition setCounters (t b : nat) (inc : list (string * string)) (q : PriorityQueue) : PriorityQueue :=
  {| nominator := nominator q; activeQ := activeQ q; podBackoffQ := podBackoffQ q;
     unschedulableQ := unschedulableQ q; schedulingCycle := schedulingCycle q;
     moveRequestCycle := moveRequestCycle q; closed := closed q; ticks := t; broadcasts := b;
     incomingPods := inc |}.

(** The events that name the increments of the metric (events.go). *)
Definition PodAdd : string := "PodAdd".
Definition ScheduleAttemptFailure : string := "ScheduleAttemptFailure".
Definition BackoffComplete : string := "BackoffComplete".
Definition UnschedulableTimeout : string := "UnschedulableTimeout".
Definition AssignedPodAdd : string := "AssignedPodAdd".
Definition AssignedPodUpdate : string := "AssignedPodUpdate".

Definition broadcast : Q unit :=
  modify (fun q => setCounters (ticks q) (S (broadcasts q)) (incomingPods q) q).
Definition incoming (sub event : string) : Q unit :=
  modify (fun q => setCounters (ticks q) (broadcasts q) (incomingPods q ++ [(sub, event)]) q).
Definition onNominator (f : nominatedPodMap -> nominatedPodMap) : Q unit :=
  modify (setQueue f id id id).
Definition onUnschedulable (f : UnschedulablePodsMap -> UnschedulablePodsMap) : Q unit :=
  modify (setQueue id id id f).

(** The environment: the clock at its n-th reading, and the order of the n-th
    iteration over a map. *)
Class Environment : Type := {
  clockNow : nat -> Z;
  mapOrder : nat -> list QueuedPodInfo -> list QueuedPodInfo
}.

Definition tick (q : PriorityQueue) : PriorityQueue :=
  setCounters (S (ticks q)) (broadcasts q) (incomingPods q) q.
Definition Now `{Environment} : Q Z := fun q => (Ok (clockNow (ticks q)), tick q).
Definition unschedulableInfos `{Environment} : Q (list QueuedPodInfo) := fun q =>
  (Ok (mapOrder (ticks q) (map_to_list (podInfoMap (unschedulableQ q))).*2), tick q).

(** ** Operations

    [lessFn] is the order that [NewPriorityQueue] is given; the two durations are
    the options that never change. *)
Section Operations.
Context `{KeyLib, Environment, LabelsLib} (lessFn : QueuedPodInfo -> QueuedPodInfo -> bool)
  (podInitialBackoffDuration podMaxBackoffDuration : Z).

Definition DefaultPodInitialBackoffDuration : Z := (1 * 1000000000)%Z.
Definition DefaultPodMaxBackoffDuration : Z := (10 * 1000000000)%Z.
Definition unschedulableQTimeInterval : Z := (60 * 1000000000)%Z.

(** The loop [for i := 1; i < podInfo.Attempts; i++] with [n] iterations left. *)
Fixpoint backoffLoop (n : nat) (duration : Z) : Z :=
  match n with
  | O => duration
  | S n =>
      let duration := duration *₆₄ 2 in
      if (podMaxBackoffDuration <? duration)%Z then podMaxBackoffDuration else backoffLoop n duration
  end.

Definition calculateBackoffDuration (podInfo : QueuedPodInfo) : Z :=
  backoffLoop (Z.to_nat (Attempts podInfo - 1)) podInitialBackoffDuration.

Definition getBackoffTime (podInfo : QueuedPodInfo) : Z :=
  (Timestamp podInfo + calculateBackoffDuration podInfo)%Z.

Definition podsCompareBackoffCompleted (podInfo1 podInfo2 : QueuedPodInfo) : bool :=
  (getBackoffTime podInfo1 <? getBackoffTime podInfo2)%Z.

(** *** Calls on the two heaps *)
Definition heapStep (f : Heap QueuedPodInfo -> result heapError (Heap QueuedPodInfo))
    (proj : PriorityQueue -> Heap QueuedPodInfo)
    (upd : Heap QueuedPodInfo -> PriorityQueue -> PriorityQueue) : Q unit := fun q =>
  match f (proj q) with
  | Ok h => (Ok tt, upd h q)
  | Err e => (Err (HeapError e), q)
  | Panic => (Panic, q)
  end.

Definition onActive (f : Heap QueuedPodInfo -> result heapError (Heap QueuedPodInfo)) : Q unit :=
  heapStep f activeQ (fun h => setQueue id (fun _ => h) id id).
Definition onBackoff (f : Heap QueuedPodInfo -> result heapError (Heap QueuedPodInfo)) : Q unit :=
  heapStep f podBackoffQ (fun h => setQueue id id (fun _ => h) id).

Definition activeAdd (pInfo : QueuedPodInfo) : Q unit :=
  onActive (fun h => Heap.Add podInfoKeyFunc lessFn h pInfo).
Definition activeUpdate (pInfo : QueuedPodInfo) : Q unit :=
  onActive (fun h => Heap.Update podInfoKeyFunc lessFn h pInfo).
Definition activeDelete (pInfo : QueuedPodInfo) : Q unit :=
  onActive (fun h => Heap.Delete podInfoKeyFunc lessFn h pInfo).
Definition backoffAdd (pInfo : QueuedPodInfo) : Q unit :=
  onBackoff (fun h => Heap.Add podInfoKeyFunc podsCompareBackoffCompleted h pInfo).
Definition backoffDelete (pInfo : QueuedPodInfo) : Q unit :=
  onBackoff (fun h => Heap.Delete podInfoKeyFunc podsCompareBackoffCompleted h pInfo).

(** [obj, exists, _ := h.Get(pInfo)] *)
Definition heapGet (h : Heap QueuedPodInfo) (pInfo : QueuedPodInfo) : option QueuedPodInfo :=
  match Heap.Get podInfoKeyFunc h pInfo with Ok r => r | _ => None end.

(** *** Adding pods *)
Definition newQueuedPodInfo (pod : Pod) : Q QueuedPodInfo :=
  Now ≫= fun now =>
  mret {| qp_Pod := pod; Timestamp := now; Attempts := 0; InitialAttemptTimestamp := now |}.

Definition NewPriorityQueue (podNominator : option nominatedPodMap) : PriorityQueue :=
  {| nominator := default NewPodNominator podNominator;
     activeQ := NewWithRecorder (Some []); podBackoffQ := NewWithRecorder (Some []);
     unschedulableQ := newUnschedulablePodsMap (Some []);
     schedulingCycle := 0; moveRequestCycle := -1; closed := false;
     ticks := 0; broadcasts := 0; incomingPods := [] |}.

Definition Add (pod : Pod) : Q unit :=
  newQueuedPodInfo pod ≫= fun pInfo =>
  activeAdd pInfo ≫= fun _ =>
  get ≫= fun q =>
  (match usGet (unschedulableQ q) pod with
   | Some _ => onUnschedulable (fun u => usDelete u pod)
   | None => mret tt
   end) ≫= fun _ =>
  caught (backoffDelete pInfo) ≫= fun _ =>
  incoming "active" PodAdd ≫= fun _ =>
  onNominator (fun npm => AddNominatedPod npm pod "") ≫= fun _ =>
  broadcast.

Definition isPodBackingoff (podInfo : QueuedPodInfo) : Q bool :=
  Now ≫= fun now => mret (now <? getBackoffTime podInfo)%Z.

Definition SchedulingCycle : Q Z := get ≫= fun q => mret (schedulingCycle q).

(** Also returns what the call leaves in [pInfo], which it updates before it can fail. *)
Definition AddUnschedulableIfNotPresent (pInfo : QueuedPodInfo) (podSchedulingCycle : Z)
    : Q (QueuedPodInfo * option queueError) :=
  let pod := qp_Pod pInfo in
  get ≫= fun q =>
  match usGet (unschedulableQ q) pod with
  | Some _ => mret (pInfo, Some AlreadyUnschedulable)
  | None =>
      Now ≫= fun now =>
      let pInfo := withTimestamp pInfo now in
      match heapGet (activeQ q) pInfo with
      | Some _ => mret (pInfo, Some AlreadyActive)
      | None =>
          match heapGet (podBackoffQ q) pInfo with
          | Some _ => mret (pInfo, Some AlreadyBackingOff)
          | None =>
              (if (podSchedulingCycle <=? moveRequestCycle q)%Z then
                 caught (backoffAdd pInfo) ≫= fun err =>
                 match err with
                 | Some e => mret (Some e)
                 | None => incoming "backoff" ScheduleAttemptFailure ≫= fun _ => mret None
                 end
               else
                 onUnschedulable (fun u => usAddOrUpdate u pInfo) ≫= fun _ =>
                 incoming "unschedulable" ScheduleAttemptFailure ≫= fun _ => mret None) ≫= fun err =>
              match err with
              | Some e => mret (pInfo, Some e)
              | None =>
                  onNominator (fun npm => AddNominatedPod npm pod "") ≫= fun _ => mret (pInfo, None)
              end
          end
      end
  end.

(** *** Moving pods *)

(** The loop of [flushBackoffQCompleted]; the deferred broadcasts are one per pod. *)
Fixpoint flushLoop (fuel : nat) : Q unit :=
  match fuel with
  | O => fail OutOfFuel
  | S fuel =>
      get ≫= fun q =>
      match Heap.Peek (podBackoffQ q) with
      | None => panic
      | Some None => mret tt
      | Some (Some pInfo) =>
          Now ≫= fun now =>
          if (now <? getBackoffTime pInfo)%Z then mret tt
          else
            get ≫= fun q =>
            match Heap.Pop podsCompareBackoffCompleted (podBackoffQ q) with
            | (Ok _, h) =>
                modify (setQueue id id (fun _ => h) id) ≫= fun _ =>
                caught (activeAdd pInfo) ≫= fun _ =>
                incoming "active" BackoffComplete ≫= fun _ =>
                broadcast ≫= fun _ => flushLoop fuel
            | (Err _, h) => modify (setQueue id id (fun _ => h) id)
            | (Panic, _) => panic
            end
      end
  end.

Definition flushBackoffQCompleted : Q unit := fun q => flushLoop (S (HeapLen (podBackoffQ q))) q.

Definition movePod (event : string) (pInfo : QueuedPodInfo) : Q unit :=
  let pod := qp_Pod pInfo in
  isPodBackingoff pInfo ≫= fun backingOff =>
  let '(add, sub) := if backingOff : bool then (backoffAdd pInfo, "backoff") else (activeAdd pInfo, "active") in
  caught add ≫= fun err =>
  match err with
  | Some _ => mret tt
  | None => incoming sub event ≫= fun _ => onUnschedulable (fun u => usDelete u pod)
  end.

Fixpoint forEach {A} (f : A -> Q unit) (l : list A) : Q unit :=
  match l with
  | [] => mret tt
  | a :: l => f a ≫= fun _ => forEach f l
  end.

Definition movePodsToActiveOrBackoffQueue (podInfoList : list QueuedPodInfo) (event : string) : Q unit :=
  forEach (movePod event) podInfoList ≫= fun _ =>
  modify (fun q => setCycles (schedulingCycle q) (schedulingCycle q) (closed q) q) ≫= fun _ =>
  broadcast.

(** [Time.Sub] saturates at the bounds of a [Duration]. *)
Definition timeSub (t u : Z) : Z := Z.max min_int64 (Z.min max_int64 (t - u)).

Definition flushUnschedulableQLeftover : Q unit :=
  Now ≫= fun currentTime =>
  unschedulableInfos ≫= fun infos =>
  match filter (fun pInfo => unschedulableQTimeInterval < timeSub currentTime (Timestamp pInfo))%Z infos with
  | [] => mret tt
  | podsToMove => movePodsToActiveOrBackoffQueue podsToMove UnschedulableTimeout
  end.

Definition MoveAllToActiveOrBackoffQueue (event : string) : Q unit :=
  unschedulableInfos ≫= fun unschedulablePods =>
  movePodsToActiveOrBackoffQueue unschedulablePods event.

(** The loop over the affinity terms of an unschedulable pod.  A selector that does
    not parse is logged and stays nil: calling it panics. *)
Fixpoint anyTermMatches (up pod : Pod) (terms : list PodAffinityTerm) : result queueError bool :=
  match terms with
  | [] => Ok false
  | term :: terms =>
      let namespaces := GetNamespacesFromPodAffinityTerm up term in
      match LabelSelectorAsSelector (term_LabelSelector term) with
      | Some selector =>
          if PodMatchesTermsNamespaceAndSelector pod namespaces selector then Ok true
          else anyTermMatches up pod terms
      | None => if decide (pod_Namespace pod ∈ namespaces) then Panic else anyTermMatches up pod terms
      end
  end.

Fixpoint matchingInfos (pod : Pod) (infos : list QueuedPodInfo) : result queueError (list QueuedPodInfo) :=
  match infos with
  | [] => Ok []
  | pInfo :: infos =>
      let up := qp_Pod pInfo in
      match anyTermMatches up pod (GetPodAffinityTerms (PodAffinitySpec (pod_Spec up))) with
      | Ok b =>
          match matchingInfos pod infos with
          | Ok l => Ok (if b : bool then pInfo :: l else l)
          | r => r
          end
      | Err e => Err e
      | Panic => Panic
      end
  end.

Definition getUnschedulablePodsWithMatchingAffinityTerm (pod : Pod) : Q (list QueuedPodInfo) :=
  unschedulableInfos ≫= fun infos => ofResult (matchingInfos pod infos).

Definition AssignedPodAdded (pod : Pod) : Q unit :=
  getUnschedulablePodsWithMatchingAffinityTerm pod ≫= fun infos =>
  movePodsToActiveOrBackoffQueue infos AssignedPodAdd.

Definition AssignedPodUpdated (pod : Pod) : Q unit :=
  getUnschedulablePodsWithMatchingAffinityTerm pod ≫= fun infos =>
  movePodsToActiveOrBackoffQueue infos AssignedPodUpdate.

(** *** Pop *)
Inductive popReply := Popped (pInfo : QueuedPodInfo) | Waiting.

(** One pass through [Pop]: [Waiting] is the call of [cond.Wait], after which the
    loop tests the queue again. *)
Definition Pop : Q popReply :=
  get ≫= fun q =>
  if decide (HeapLen (activeQ q) = 0) then
    if closed q then fail QueueClosed else mret Waiting
  else
    match Heap.Pop lessFn (activeQ q) with
    | (Ok pInfo, h) =>
        modify (setQueue id (fun _ => h) id id) ≫= fun _ =>
        modify (fun q => setCycles (schedulingCycle q +₆₄ 1) (moveRequestCycle q) (closed q) q) ≫= fun _ =>
        mret (Popped (withAttempts pInfo (Attempts pInfo +₆₄ 1)))
    | (Err e, h) => modify (setQueue id (fun _ => h) id id) ≫= fun _ => fail (HeapError e)
    | (Panic, _) => panic
    end.

(** [MakeNextPodFunc]: an error is logged, and the function returns nil. *)
Definition NextPod : Q (option popReply) := fun q =>
  match Pop q with
  | (Ok r, q') => (Ok (Some r), q')
  | (Err _, q') => (Ok None, q')
  | (Panic, q') => (Panic, q')
  end.

(** *** Updates *)
Definition strip (pod : Pod) : Pod :=
  {| pod_Name := pod_Name pod; pod_Namespace := pod_Namespace pod; pod_UID := pod_UID pod;
     pod_Labels := pod_Labels pod; pod_Annotations := pod_Annotations pod;
     ManagedFields := ManagedFields pod; Finalizers := Finalizers pod;
     DeletionTimestamp := DeletionTimestamp pod; pod_ResourceVersion := ""; pod_Generation := 0;
     pod_Spec := pod_Spec pod; pod_Status := noStatus |}.

Definition isPodUpdated (oldPod newPod : Pod) : bool := bool_decide (strip oldPod <> strip newPod).

Definition addAndSignal (pInfo : QueuedPodInfo) : Q unit := activeAdd pInfo ≫= fun _ => broadcast.

(** The last part of [Update], for a pod that is in neither heap. *)
Definition updateUnschedulable (oldPod : option Pod) (newPod : Pod) : Q unit :=
  get ≫= fun q =>
  match usGet (unschedulableQ q) newPod with
  | Some usPodInfo =>
      match oldPod with
      | None => panic
      | Some oldPod =>
          onNominator (fun npm => UpdateNominatedPod npm oldPod newPod) ≫= fun _ =>
          if isPodUpdated oldPod newPod then
            onUnschedulable (fun u => usDelete u (qp_Pod usPodInfo)) ≫= fun _ =>
            addAndSignal (updatePod usPodInfo newPod)
          else onUnschedulable (fun u => usAddOrUpdate u (updatePod usPodInfo newPod))
      end
  | None =>
      newQueuedPodInfo newPod ≫= fun pInfo =>
      activeAdd pInfo ≫= fun _ =>
      onNominator (fun npm => AddNominatedPod npm newPod "") ≫= fun _ => broadcast
  end.

Definition Update (oldPod : option Pod) (newPod : Pod) : Q unit :=
  match oldPod with
  | None => updateUnschedulable None newPod
  | Some old =>
      let oldPodInfo := newQueuedPodInfoNoTimestamp old in
      get ≫= fun q =>
      match heapGet (activeQ q) oldPodInfo with
      | Some oldPodInfo =>
          onNominator (fun npm => UpdateNominatedPod npm old newPod) ≫= fun _ =>
          activeUpdate (updatePod oldPodInfo newPod)
      | None =>
          match heapGet (podBackoffQ q) oldPodInfo with
          | Some oldPodInfo =>
              onNominator (fun npm => UpdateNominatedPod npm old newPod) ≫= fun _ =>
              caught (backoffDelete oldPodInfo) ≫= fun _ =>
              addAndSignal (updatePod oldPodInfo newPod)
          | None => updateUnschedulable oldPod newPod
          end
      end
  end.

Definition Delete (pod : Pod) : Q unit :=
  onNominator (fun npm => DeleteNominatedPodIfExists npm pod) ≫= fun _ =>
  caught (activeDelete (newQueuedPodInfoNoTimestamp pod)) ≫= fun err =>
  match err with
  | None => mret tt
  | Some _ =>
      caught (backoffDelete (newQueuedPodInfoNoTimestamp pod)) ≫= fun _ =>
      onUnschedulable (fun u => usDelete u pod)
  end.

(** *** Reading and closing *)
Definition PendingPods : Q (list Pod) :=
  get ≫= fun q =>
  unschedulableInfos ≫= fun infos =>
  mret ((qp_Pod <$> Heap.List (activeQ q)) ++ (qp_Pod <$> Heap.List (podBackoffQ q)) ++ (qp_Pod <$> infos)).

Definition NumUnschedulablePods : Q nat := get ≫= fun q => mret (size (podInfoMap (unschedulableQ q))).

(** Closing the channel [stop] a second time panics. *)
Definition Close : Q unit :=
  get ≫= fun q =>
  if closed q then panic
  else modify (fun q => setCycles (schedulingCycle q) (moveRequestCycle q) true q) ≫= fun _ => broadcast.
End Operations.

(** ** The backoff grows exponentially *)
Section Backoff.
Context (init max : Z).
Local Open Scope Z_scope.

Lemma backoffLoop_value n : forall d,
  0 < d < 2 ^ 62 -> max < 2 ^ 62 ->
  backoffLoop max (S n) d = Z.min (d * 2 ^ Z.of_nat (S n)) max.
Proof.
  induction n as [|n IH]; intros d Hd Hm.
  all: assert (Hw : d *₆₄ 2 = d * 2) by (apply wrap64_id; unfold in_int64, min_int64, max_int64; lia).
  - cbn [backoffLoop]. rewrite Hw. change (2 ^ Z.of_nat 1) with 2. destruct (Z.ltb_spec max (d * 2)); lia.
  - change (backoffLoop max (S (S n)) d) with
      (if max <? d *₆₄ 2 then max else backoffLoop max (S n) (d *₆₄ 2)).
    rewrite Hw, (Nat2Z.inj_succ (S n)), Z.pow_succ_r by lia.
    assert (1 <= 2 ^ Z.of_nat (S n)) by (pose proof (Z.pow_pos_nonneg 2 (Z.of_nat (S n))); lia).
    destruct (Z.ltb_spec max (d * 2)); [nia|]. rewrite IH by lia. f_equal. lia.
Qed.
End Backoff.

(** The backoff of a pod that has failed [n >= 1] times is the initial duration
    doubled for every further attempt, cut at the maximum (nothing overflows for
    durations below 2^62 ns); it never exceeds the maximum when the initial duration
    does not. *)
Theorem backoff_duration_is_exponential (init max : Z) (pi : QueuedPodInfo) :
  (0 < init < 2 ^ 62)%Z -> (max < 2 ^ 62)%Z ->
  calculateBackoffDuration init max pi =
    (if decide (Attempts pi <= 1)%Z then init else Z.min (init * 2 ^ (Attempts pi - 1)) max)%Z /\
  ((init <= max)%Z -> (calculateBackoffDuration init max pi <= max)%Z).
Proof.
  intros Hi Hm. unfold calculateBackoffDuration. case_decide as Ha.
  - replace (Z.to_nat (Attempts pi - 1)) with 0 by lia. done.
  - replace (Z.to_nat (Attempts pi - 1)) with (S (Z.to_nat (Attempts pi - 2))) by lia.
    rewrite backoffLoop_value by lia. rewrite Nat2Z.inj_succ, Z2Nat.id by lia.
    replace (Z.succ (Attempts pi - 2)) with (Attempts pi - 1)%Z by lia. lia.
Qed.

Lemma backoff_duration_is_exponential_witness :
  calculateBackoffDuration DefaultPodInitialBackoffDuration DefaultPodMaxBackoffDuration
    {| qp_Pod := simplePod "a" "ns" "uid-a" "" []; Timestamp := 0; Attempts := 4; InitialAttemptTimestamp := 0 |} = 8000000000%Z.
Proof.
  rewrite (proj1 (backoff_duration_is_exponential DefaultPodInitialBackoffDuration
    DefaultPodMaxBackoffDuration _ (conj eq_refl eq_refl) eq_refl)).
  reflexivity.
Defined.

