(* ===== verification/QueueSpec.v ===== *)
(** * The scheduling queue refines one table of pending pods

    The three sub-queues of [PriorityQueue] are shown to hold one finite map from
    pods to the sub-queue they are in: no pod is lost or in two sub-queues.  The
    state machine of a pending pod is [absStep]. *)
From Stdlib Require Import Ascii.
From S2P Require Import Prelude GoHeap Api Heap NodeInfo Nominator PriorityQueue.
Local Open Scope go_scope.

(** ** Names and keys *)
Definition podId (p : Pod) : string * string := (pod_Namespace p, pod_Name p).

(** Kubernetes names hold neither of the separators. *)
Definition plain (s : string) : Prop := lacks "_"%char s /\ lacks "/"%char s.
Definition named (p : Pod) : Prop := plain (pod_Name p) /\ plain (pod_Namespace p).

Class KeyLaws `{KeyLib} : Prop := {
  key_total p : named p -> is_Some (MetaNamespaceKeyFunc p);
  key_inj p q : named p -> named q ->
    MetaNamespaceKeyFunc p = MetaNamespaceKeyFunc q <-> podId p = podId q
}.

Class EnvironmentLaws `{Environment} : Prop := {
  clock_mono n m : n <= m -> (clockNow n <= clockNow m)%Z;
  order_perm n l : mapOrder n l ≡ₚ l
}.

Lemma fullName_inj p q :
  named p -> named q -> GetPodFullName p = GetPodFullName q <-> podId p = podId q.
Proof.
  intros [[Hp _] _] [[Hq _] _]. unfold GetPodFullName, podId. split.
  - intros E. by apply join_inj in E as [-> ->].
  - by intros [= -> ->].
Qed.

(** The selectors of the required affinity terms parse, as the API server checks. *)
Definition parsable `{LabelsLib} (p : Pod) : Prop :=
  Forall (fun t => is_Some (LabelSelectorAsSelector (term_LabelSelector t)))
    (GetPodAffinityTerms (PodAffinitySpec (pod_Spec p))).

Definition validPod `{LabelsLib} (p : Pod) : Prop := named p /\ parsable p.

(** ** The abstract queue *)
Inductive place := Active | Backoff | Unschedulable.
#[export] Instance place_eq : EqDecision place.
Proof. solve_decision. Defined.

Abbreviation podTable := (gmap (string * string) (place * QueuedPodInfo)).

Record absQueue := {
  aPods : podTable;
  aNominations : nominations;
  aCycle : Z;
  aMoveCycle : Z;
  aClosed : bool
}.

Inductive queueOp :=
  | OpAdd (p : Pod)
  | OpRequeue (pInfo : QueuedPodInfo) (podSchedulingCycle : Z)
  | OpPop
  | OpUpdate (old new : Pod)
  | OpDelete (p : Pod)
  | OpMoveAll (event : string)
  | OpAssignedAdded (p : Pod)
  | OpAssignedUpdated (p : Pod)
  | OpFlushBackoff
  | OpFlushUnschedulable
  | OpClose.

Inductive queueReply :=
  | Done | Got (pInfo : QueuedPodInfo) | Waits | Refused (e : queueError) | Crashed.

(** ** The state machine of the pending pods *)
Section AbstractSteps.
Context `{LabelsLib} (lessFn : QueuedPodInfo -> QueuedPodInfo -> bool) (init max : Z).

Definition freshInfo (p : Pod) (t : Z) : QueuedPodInfo :=
  {| qp_Pod := p; Timestamp := t; Attempts := 0; InitialAttemptTimestamp := t |}.

Definition become (a : absQueue) (pods : podTable) (op : nominatorOp) : absQueue :=
  {| aPods := pods; aNominations := nominationStep (aNominations a) op; aCycle := aCycle a;
     aMoveCycle := aMoveCycle a; aClosed := aClosed a |}.
Definition becomeMoved (a : absQueue) (pods : podTable) : absQueue :=
  {| aPods := pods; aNominations := aNominations a; aCycle := aCycle a;
     aMoveCycle := aCycle a; aClosed := aClosed a |}.

Definition already (pl : place) : queueError :=
  match pl with
  | Active => AlreadyActive | Backoff => AlreadyBackingOff | Unschedulable => AlreadyUnschedulable
  end.

(** Where an update leaves the pod: an unschedulable pod stays so unless it changed. *)
Definition afterUpdate (pl : place) (old new : Pod) : place :=
  match pl with
  | Unschedulable => if isPodUpdated old new then Active else Unschedulable
  | _ => Active
  end.

Definition backoffEnds (pi : QueuedPodInfo) : Z := getBackoffTime init max pi.

(** The selected unschedulable pods leave to the place that their backoff, read at
    some time of the call, asks for; nothing else moves. *)
Definition moved (sel : QueuedPodInfo -> bool) (t0 t1 : Z) (a a' : podTable) : Prop :=
  forall i, match a !! i with
  | Some (Unschedulable, pi) =>
      if sel pi then
        exists t, (t0 <= t <= t1)%Z /\
          a' !! i = Some (if (t <? backoffEnds pi)%Z then Backoff else Active, pi)
      else a' !! i = a !! i
  | o => a' !! i = o
  end.

(** A required affinity term of the waiting pod selects [p]. *)
Definition affinityWaits (p : Pod) (pi : QueuedPodInfo) : bool :=
  let up := qp_Pod pi in
  existsb (fun term =>
    match LabelSelectorAsSelector (term_LabelSelector term) with
    | Some s => PodMatchesTermsNamespaceAndSelector p (GetNamespacesFromPodAffinityTerm up term) s
    | None => false
    end) (GetPodAffinityTerms (PodAffinitySpec (pod_Spec up))).

(** The pods that a call moves out of the unschedulable ones. *)
Definition moveSelector (op : queueOp) : option (QueuedPodInfo -> bool) :=
  match op with
  | OpMoveAll _ => Some (fun _ => true)
  | OpAssignedAdded p | OpAssignedUpdated p => Some (affinityWaits p)
  | _ => None
  end.

Definition overdue (t : Z) (pi : QueuedPodInfo) : bool :=
  (unschedulableQTimeInterval <? timeSub t (Timestamp pi))%Z.

(** A pod whose backoff is over at [t] becomes active. *)
Definition completeBackoff (t : Z) (e : place * QueuedPodInfo) : place * QueuedPodInfo :=
  match e with
  | (Backoff, pi) => (if (t <? backoffEnds pi)%Z then Backoff else Active, pi)
  | e => e
  end.

Definition activeAt (a : absQueue) (i : string * string) (pi : QueuedPodInfo) : Prop :=
  aPods a !! i = Some (Active, pi).

Inductive absStep (t0 t1 : Z) (a : absQueue) : queueOp -> queueReply -> absQueue -> Prop :=
  | StepAdd p t :
      (t0 <= t <= t1)%Z ->
      absStep t0 t1 a (OpAdd p) Done
        (become a (<[podId p := (Active, freshInfo p t)]> (aPods a)) (OpAddNominated p ""))
  | StepRequeue pi c t :
      (t0 <= t <= t1)%Z -> aPods a !! podId (qp_Pod pi) = None ->
      absStep t0 t1 a (OpRequeue pi c) Done
        (become a (<[podId (qp_Pod pi) := (if (c <=? aMoveCycle a)%Z then Backoff else Unschedulable,
                                           withTimestamp pi t)]> (aPods a))
           (OpAddNominated (qp_Pod pi) ""))
  | StepRequeueTwice pi c pl pi' :
      aPods a !! podId (qp_Pod pi) = Some (pl, pi') ->
      absStep t0 t1 a (OpRequeue pi c) (Refused (already pl)) a
  | StepPop i pi :
      activeAt a i pi -> (forall i' pi', activeAt a i' pi' -> lessFn pi' pi = false) ->
      absStep t0 t1 a OpPop (Got (withAttempts pi (Attempts pi +₆₄ 1)))
        {| aPods := delete i (aPods a); aNominations := aNominations a; aCycle := aCycle a +₆₄ 1;
           aMoveCycle := aMoveCycle a; aClosed := aClosed a |}
  | StepPopEmpty :
      (forall i pi, ~ activeAt a i pi) ->
      absStep t0 t1 a OpPop (if aClosed a then Refused QueueClosed else Waits) a
  | StepUpdate old new pl pi :
      aPods a !! podId new = Some (pl, pi) ->
      absStep t0 t1 a (OpUpdate old new) Done
        (become a (<[podId new := (afterUpdate pl old new, updatePod pi new)]> (aPods a))
           (OpUpdateNominated old new))
  | StepUpdateNew old new t :
      (t0 <= t <= t1)%Z -> aPods a !! podId new = None ->
      absStep t0 t1 a (OpUpdate old new) Done
        (become a (<[podId new := (Active, freshInfo new t)]> (aPods a)) (OpAddNominated new ""))
  | StepDelete p :
      absStep t0 t1 a (OpDelete p) Done (become a (delete (podId p) (aPods a)) (OpDeleteNominated p))
  | StepMove op sel pods :
      moveSelector op = Some sel -> moved sel t0 t1 (aPods a) pods ->
      absStep t0 t1 a op Done (becomeMoved a pods)
  | StepFlushUnschedulable t pods :
      (t0 <= t <= t1)%Z -> moved (overdue t) t0 t1 (aPods a) pods ->
      absStep t0 t1 a OpFlushUnschedulable Done
        (if decide (pods = aPods a) then a else becomeMoved a pods)
  | StepFlushBackoff t :
      (t0 <= t <= t1)%Z ->
      absStep t0 t1 a OpFlushBackoff Done
        {| aPods := completeBackoff t <$> aPods a; aNominations := aNominations a;
           aCycle := aCycle a; aMoveCycle := aMoveCycle a; aClosed := aClosed a |}
  | StepClose :
      aClosed a = false ->
      absStep t0 t1 a OpClose Done
        {| aPods := aPods a; aNominations := aNominations a; aCycle := aCycle a;
           aMoveCycle := aMoveCycle a; aClosed := true |}
  | StepCloseTwice : aClosed a = true -> absStep t0 t1 a OpClose Crashed a.

(** A sequence of steps, each of which starts when the previous one ended. *)
Inductive absRun : Z -> absQueue -> list queueOp -> list queueReply -> absQueue -> Z -> Prop :=
  | RunNil t a : absRun t a [] [] a t
  | RunCons t t1 t2 a a1 a2 op r ops rs :
      (t <= t1)%Z -> absStep t t1 a op r a1 -> absRun t1 a1 ops rs a2 t2 ->
      absRun t a (op :: ops) (r :: rs) a2 t2.

Definition validOp (op : queueOp) : Prop :=
  match op with
  | OpAdd p => validPod p
  | OpRequeue pi _ => validPod (qp_Pod pi)
  | OpUpdate old new => named old /\ validPod new /\ podId old = podId new
  | OpDelete p => named p
  | _ => True
  end.
End AbstractSteps.

Definition emptyQueue : absQueue :=
  {| aPods := ∅; aNominations := []; aCycle := 0; aMoveCycle := -1; aClosed := false |}.

(** ** What the sub-queues show *)
Section View.
Context `{KeyLib, LabelsLib}.

Definition keyed (m : gmap string QueuedPodInfo) (p : Pod) : option QueuedPodInfo :=
  MetaNamespaceKeyFunc p ≫= fun k => m !! k.

Definition look (q : PriorityQueue) (pl : place) (p : Pod) : option QueuedPodInfo :=
  match pl with
  | Active => keyed (contents (activeQ q)) p
  | Backoff => keyed (contents (podBackoffQ q)) p
  | Unschedulable => usGet (unschedulableQ q) p
  end.

(** A table of pods per sub-queue, and one changed entry of it. *)
Definition placeView : Type := place -> string * string -> option QueuedPodInfo.

Definition put (pl : place) (i : string * string) (o : option QueuedPodInfo) (v : placeView) : placeView :=
  fun pl' i' => if decide (pl' = pl /\ i' = i) then o else v pl' i'.

Definition shows (q : PriorityQueue) (v : placeView) : Prop :=
  forall pl p, named p -> look q pl p = v pl (podId p).

Definition tableView (a : podTable) : placeView := fun pl i =>
  match a !! i with
  | Some (pl', pi) => if decide (pl = pl') then Some pi else None
  | None => None
  end.

Lemma shows_ext q v v' : (forall pl i, v pl i = v' pl i) -> shows q v -> shows q v'.
Proof. intros Hv Hs pl p Hp. by rewrite <- Hv, Hs. Qed.
End View.

Section Wf.
Context `{KeyLib, Environment, LabelsLib} (lessFn : QueuedPodInfo -> QueuedPodInfo -> bool) (init max : Z).
Abbreviation backoffLess := (podsCompareBackoffCompleted init max).

Definition usGaugeOk (u : UnschedulablePodsMap) : Prop :=
  match us_recorder u with None => True | Some calls => gauge calls = Z.of_nat (size (podInfoMap u)) end.

Definition allValid (m : gmap string QueuedPodInfo) : Prop :=
  map_Forall (fun _ pi => validPod (qp_Pod pi)) m.

(** The structural invariant of the three sub-queues. *)
Record queueWf (q : PriorityQueue) : Prop := {
  wf_active : heapInv podInfoKeyFunc lessFn (activeQ q);
  wf_backoff : heapInv podInfoKeyFunc backoffLess (podBackoffQ q);
  wf_unschedulable k pi : podInfoMap (unschedulableQ q) !! k = Some pi -> GetPodFullName (qp_Pod pi) = k;
  wf_valid : allValid (contents (activeQ q)) /\ allValid (contents (podBackoffQ q)) /\
    allValid (podInfoMap (unschedulableQ q));
  wf_gauges : gaugeOk (activeQ q) /\ gaugeOk (podBackoffQ q) /\ usGaugeOk (unschedulableQ q)
}.
Lemma valid_key p : KeyLaws -> validPod p -> exists k, MetaNamespaceKeyFunc p = Some k.
Proof. intros ? [Hn _]. by apply key_total. Qed.

Lemma keyed_insert (m : gmap string QueuedPodInfo) pi k p :
  KeyLaws -> named (qp_Pod pi) -> named p -> podInfoKeyFunc pi = Some k ->
  keyed (<[k := pi]> m) p = if decide (podId p = podId (qp_Pod pi)) then Some pi else keyed m p.
Proof.
  intros HK Hpi Hp Hk. unfold keyed, podInfoKeyFunc in *.
  destruct (key_total p Hp) as [k' Hk']. rewrite Hk'. bind_simpl.
  case_decide as E.
  - apply key_inj in E; [|done..]. replace k' with k by congruence. by rewrite lookup_insert_eq.
  - rewrite lookup_insert_ne; [done|]. intros ->. apply E, key_inj; [done..|congruence].
Qed.

Lemma keyed_delete (m : gmap string QueuedPodInfo) r k p :
  KeyLaws -> named r -> named p -> MetaNamespaceKeyFunc r = Some k ->
  keyed (delete k m) p = if decide (podId p = podId r) then None else keyed m p.
Proof.
  intros HK Hr Hp Hk. unfold keyed.
  destruct (key_total p Hp) as [k' Hk']. rewrite Hk'. bind_simpl.
  case_decide as E.
  - apply key_inj in E; [|done..]. replace k' with k by congruence. by rewrite lookup_delete_eq.
  - rewrite lookup_delete_ne; [done|]. intros ->. apply E, key_inj; [done..|congruence].
Qed.

Lemma full_insert (m : gmap string QueuedPodInfo) pi p :
  named (qp_Pod pi) -> named p ->
  <[GetPodFullName (qp_Pod pi) := pi]> m !! GetPodFullName p =
  if decide (podId p = podId (qp_Pod pi)) then Some pi else m !! GetPodFullName p.
Proof.
  intros Hpi Hp. case_decide as E; rewrite <- fullName_inj in E by done.
  - by rewrite E, lookup_insert_eq.
  - by rewrite lookup_insert_ne.
Qed.

Lemma full_delete (m : gmap string QueuedPodInfo) r p :
  named r -> named p ->
  delete (GetPodFullName r) m !! GetPodFullName p =
  if decide (podId p = podId r) then None else m !! GetPodFullName p.
Proof.
  intros Hr Hp. case_decide as E; rewrite <- fullName_inj in E by done.
  - by rewrite E, lookup_delete_eq.
  - by rewrite lookup_delete_ne.
Qed.
End Wf.

(** ** The calls on the sub-queues *)
Section Primitives.
Context `{KeyLib, Environment, LabelsLib} (lessFn : QueuedPodInfo -> QueuedPodInfo -> bool) (init max : Z).
Context `{!KeyLaws, !EnvironmentLaws, !StrictWeak lessFn}.
Abbreviation backoffLess := (podsCompareBackoffCompleted init max).

#[export] Instance backoff_StrictWeak : StrictWeak backoffLess.
Proof. split; unfold GoHeap.le, podsCompareBackoffCompleted; intros *; lia. Qed.

(** The queue [q] is well formed, shows the sub-queues [v] and the nominations [l]. *)
Record tracks (v : placeView) (l : nominations) (c m : Z) (cl : bool) (q : PriorityQueue) : Prop := {
  tr_wf : queueWf lessFn init max q;
  tr_shows : shows q v;
  tr_nom : nominates (nominator q) l;
  tr_cycle : schedulingCycle q = c;
  tr_move : moveRequestCycle q = m;
  tr_closed : closed q = cl
}.

(** The counters that a step leaves alone. *)
Definition quiet (q q' : PriorityQueue) : Prop :=
  ticks q' = ticks q /\ broadcasts q' = broadcasts q.

Lemma tracks_ext v v' l c m cl q :
  (forall pl i, v pl i = v' pl i) -> tracks v l c m cl q -> tracks v' l c m cl q.
Proof. intros Hv [? ? ? ? ? ?]. split; try done. by eapply shows_ext. Qed.

(** Replacing one sub-queue. *)
Lemma tracks_active v l c m cl q h i o :
  tracks v l c m cl q -> heapInv podInfoKeyFunc lessFn h -> gaugeOk h -> allValid (contents h) ->
  (forall p, named p -> keyed (contents h) p = if decide (podId p = i) then o else look q Active p) ->
  tracks (put Active i o v) l c m cl (setQueue id (fun _ => h) id id q).
Proof.
  intros [Hw Hs ? ? ? ?] Hh Hg Hv Hl. split; try done.
  - destruct Hw as [? ? ? (?&?&?) (?&?&?)]. split; try done.
  - intros pl p Hp. unfold put. destruct pl; cbn [look].
    + cbn [activeQ setQueue]. rewrite Hl by done. specialize (Hs Active p Hp).
      rewrite <- Hs. repeat case_decide; naive_solver.
    + rewrite decide_False by naive_solver. by apply (Hs Backoff).
    + rewrite decide_False by naive_solver. by apply (Hs Unschedulable).
Qed.

Lemma tracks_backoff v l c m cl q h i o :
  tracks v l c m cl q -> heapInv podInfoKeyFunc backoffLess h -> gaugeOk h -> allValid (contents h) ->
  (forall p, named p -> keyed (contents h) p = if decide (podId p = i) then o else look q Backoff p) ->
  tracks (put Backoff i o v) l c m cl (setQueue id id (fun _ => h) id q).
Proof.
  intros [Hw Hs ? ? ? ?] Hh Hg Hv Hl. split; try done.
  - destruct Hw as [? ? ? (?&?&?) (?&?&?)]. split; try done.
  - intros pl p Hp. unfold put. destruct pl; cbn [look].
    + rewrite decide_False by naive_solver. by apply (Hs Active).
    + cbn [podBackoffQ setQueue]. rewrite Hl by done. specialize (Hs Backoff p Hp).
      rewrite <- Hs. repeat case_decide; naive_solver.
    + rewrite decide_False by naive_solver. by apply (Hs Unschedulable).
Qed.

Lemma tracks_unschedulable v l c m cl q u i o :
  tracks v l c m cl q -> usGaugeOk u -> allValid (podInfoMap u) ->
  (forall k pi, podInfoMap u !! k = Some pi -> GetPodFullName (qp_Pod pi) = k) ->
  (forall p, named p -> usGet u p = if decide (podId p = i) then o else look q Unschedulable p) ->
  tracks (put Unschedulable i o v) l c m cl (setQueue id id id (fun _ => u) q).
Proof.
  intros [Hw Hs ? ? ? ?] Hg Hv Hk Hl. split; try done.
  - destruct Hw as [? ? ? (?&?&?) (?&?&?)]. split; try done.
  - intros pl p Hp. unfold put. destruct pl; cbn [look].
    + rewrite decide_False by naive_solver. by apply (Hs Active).
    + rewrite decide_False by naive_solver. by apply (Hs Backoff).
    + cbn [unschedulableQ setQueue]. rewrite Hl by done. specialize (Hs Unschedulable p Hp).
      rewrite <- Hs. repeat case_decide; naive_solver.
Qed.

Lemma allValid_insert m k pi : allValid m -> validPod (qp_Pod pi) -> allValid (<[k := pi]> m).
Proof. intros. by apply map_Forall_insert_2. Qed.

Lemma allValid_delete m k : allValid m -> allValid (delete k m).
Proof. intros. by apply map_Forall_delete. Qed.

(** Insertion of a valid pod into a heap. *)
Lemma subqueue_insert less h pi : StrictWeak less ->
  heapInv podInfoKeyFunc less h -> gaugeOk h -> allValid (contents h) -> validPod (qp_Pod pi) ->
  exists h', Heap.Add podInfoKeyFunc less h pi = Ok h' /\ heapInv podInfoKeyFunc less h' /\
    gaugeOk h' /\ allValid (contents h') /\
    (forall p, named p -> keyed (contents h') p =
      if decide (podId p = podId (qp_Pod pi)) then Some pi else keyed (contents h) p) /\
    (keyed (contents h) (qp_Pod pi) <> None -> HeapLen h' = HeapLen h).
Proof.
  intros Hless Hinv Hg Hv Hpi. destruct (valid_key _ _ Hpi) as [k Hk].
  destruct (Add_spec podInfoKeyFunc less h pi k Hinv Hk) as (h'&HA&Hinv'&Hc&Hr).
  exists h'. split_and!; try done.
  - by eapply gaugeOk_insert.
  - rewrite Hc. by apply allValid_insert.
  - intros p Hp. rewrite Hc. apply keyed_insert; [done|apply Hpi|done..].
  - unfold keyed. rewrite Hk. bind_simpl. intros Hm.
    rewrite !(HeapLen_contents podInfoKeyFunc less), Hc by done. apply map_size_insert_Some.
    by apply not_eq_None_Some in Hm.
Qed.

(** Deletion from a heap by the key of a valid pod. *)
Lemma subqueue_delete less h pi : StrictWeak less ->
  heapInv podInfoKeyFunc less h -> gaugeOk h -> allValid (contents h) -> named (qp_Pod pi) ->
  match keyed (contents h) (qp_Pod pi) with
  | None => Heap.Delete podInfoKeyFunc less h pi = Err ObjectNotFound
  | Some _ => exists h', Heap.Delete podInfoKeyFunc less h pi = Ok h' /\ heapInv podInfoKeyFunc less h' /\
      gaugeOk h' /\ allValid (contents h') /\ HeapLen h' <= HeapLen h /\
      (forall p, named p -> keyed (contents h') p =
        if decide (podId p = podId (qp_Pod pi)) then None else keyed (contents h) p)
  end.
Proof.
  intros Hless Hinv Hg Hv Hpi. destruct (key_total _ Hpi) as [k Hk].
  pose proof (Delete_spec podInfoKeyFunc less h pi k Hinv Hk) as HD.
  unfold keyed at 1. rewrite Hk. bind_simpl. destruct (contents h !! k) eqn:Hm; [|done].
  destruct HD as (h'&HA&Hinv'&Hc&Hr). exists h'. split_and!; try done.
  - by eapply gaugeOk_delete.
  - rewrite Hc. by apply allValid_delete.
  - rewrite !(HeapLen_contents podInfoKeyFunc less), Hc by done.
    rewrite map_size_delete, Hm. simpl. lia.
  - intros p Hp. rewrite Hc. by apply keyed_delete.
Qed.

Lemma run_activeAdd v l c m cl q pi (Φ : unit -> PriorityQueue -> Prop) :
  tracks v l c m cl q -> validPod (qp_Pod pi) ->
  (forall q', tracks (put Active (podId (qp_Pod pi)) (Some pi) v) l c m cl q' -> quiet q q' ->
    (v Active (podId (qp_Pod pi)) <> None -> HeapLen (activeQ q') = HeapLen (activeQ q)) /\
      podBackoffQ q' = podBackoffQ q -> Φ tt q') ->
  runs (activeAdd lessFn pi) q Φ.
Proof.
  intros Ht Hpi HΦ. destruct (tr_wf _ _ _ _ _ _ Ht) as [? ? ? (?&_&_) (?&_&_)].
  destruct (subqueue_insert lessFn (activeQ q) pi) as (h&HA&?&?&?&Hl&Hlen); try done.
  eexists tt, _. split; [unfold activeAdd, onActive, heapStep; by rewrite HA|].
  apply HΦ; [by apply tracks_active|done|]. split; [|done].
  intros Hv. apply Hlen. change (look q Active (qp_Pod pi) <> None).
  rewrite (tr_shows _ _ _ _ _ _ Ht); [done|apply Hpi].
Qed.

Lemma run_backoffAdd v l c m cl q pi (Φ : unit -> PriorityQueue -> Prop) :
  tracks v l c m cl q -> validPod (qp_Pod pi) ->
  (forall q', tracks (put Backoff (podId (qp_Pod pi)) (Some pi) v) l c m cl q' -> quiet q q' ->
    HeapLen (activeQ q') = HeapLen (activeQ q) -> Φ tt q') ->
  runs (backoffAdd init max pi) q Φ.
Proof.
  intros Ht Hpi HΦ. destruct (tr_wf _ _ _ _ _ _ Ht) as [? ? ? (_&?&_) (_&?&_)].
  destruct (subqueue_insert backoffLess (podBackoffQ q) pi) as (h&HA&?&?&?&Hl&Hlen); try done; [exact _|].
  eexists tt, _. split; [unfold backoffAdd, onBackoff, heapStep; by rewrite HA|].
  apply HΦ; [by apply tracks_backoff|done..].
Qed.

(** Deleting a pod that is not in the heap changes nothing. *)
Lemma put_absent v l c m cl q pl i :
  tracks v l c m cl q -> v pl i = None -> tracks (put pl i None v) l c m cl q.
Proof.
  intros Ht Hv. eapply tracks_ext; [|exact Ht]. intros pl' i'. unfold put.
  case_decide as E; [|done]. by destruct E as [-> ->].
Qed.

Lemma run_backoffDelete v l c m cl q pi (Φ : option queueError -> PriorityQueue -> Prop) :
  tracks v l c m cl q -> named (qp_Pod pi) ->
  (forall q' e, tracks (put Backoff (podId (qp_Pod pi)) None v) l c m cl q' -> quiet q q' ->
    HeapLen (activeQ q') = HeapLen (activeQ q) -> Φ e q') ->
  runs (caught (backoffDelete init max pi)) q Φ.
Proof.
  intros Ht Hpi HΦ. destruct (tr_wf _ _ _ _ _ _ Ht) as [? ? ? (_&?&_) (_&?&_)].
  pose proof (subqueue_delete backoffLess (podBackoffQ q) pi) as HD.
  pose proof (tr_shows _ _ _ _ _ _ Ht Backoff (qp_Pod pi) Hpi) as Hs. cbn [look] in Hs.
  unfold runs, caught, backoffDelete, onBackoff, heapStep.
  destruct (keyed (contents (podBackoffQ q)) (qp_Pod pi)).
  - destruct HD as (h&->&?&?&?&_&Hl); try done; [exact _|].
    do 2 eexists. split; [done|]. apply HΦ; [by apply tracks_backoff|done..].
  - rewrite HD by (done || exact _). do 2 eexists. split; [done|]. apply HΦ; [by apply put_absent|done..].
Qed.

Lemma run_activeDelete v l c m cl q pi (Φ : option queueError -> PriorityQueue -> Prop) :
  tracks v l c m cl q -> named (qp_Pod pi) ->
  (forall q', tracks (put Active (podId (qp_Pod pi)) None v) l c m cl q' -> quiet q q' ->
    HeapLen (activeQ q') <= HeapLen (activeQ q) ->
    Φ (match v Active (podId (qp_Pod pi)) with
       | Some _ => None | None => Some (HeapError ObjectNotFound) end) q') ->
  runs (caught (activeDelete lessFn pi)) q Φ.
Proof.
  intros Ht Hpi HΦ. destruct (tr_wf _ _ _ _ _ _ Ht) as [? ? ? (?&_&_) (?&_&_)].
  pose proof (subqueue_delete lessFn (activeQ q) pi) as HD.
  pose proof (tr_shows _ _ _ _ _ _ Ht Active (qp_Pod pi) Hpi) as Hs. cbn [look] in Hs.
  rewrite <- Hs in HΦ. unfold runs, caught, activeDelete, onActive, heapStep.
  destruct (keyed (contents (activeQ q)) (qp_Pod pi)).
  - destruct HD as (h&->&?&?&?&?&Hl); try done.
    do 2 eexists. split; [done|]. apply HΦ; [by apply tracks_active|done..].
  - rewrite HD by done. do 2 eexists. split; [done|]. apply HΦ; [by apply put_absent|done..].
Qed.

(** The rest of the state. *)
Lemma tracks_counters v l c m cl q t b inc :
  tracks v l c m cl q -> tracks v l c m cl (setCounters t b inc q).
Proof. intros [[] ? ? ? ? ?]. by split. Qed.

Lemma run_Now v l c m cl q (Φ : Z -> PriorityQueue -> Prop) :
  tracks v l c m cl q ->
  (forall q', tracks v l c m cl q' -> ticks q' = S (ticks q) -> broadcasts q' = broadcasts q ->
    activeQ q' = activeQ q -> podBackoffQ q' = podBackoffQ q -> Φ (clockNow (ticks q)) q') ->
  runs Now q Φ.
Proof.
  intros Ht HΦ. eexists _, (tick q). split; [done|]. apply HΦ; try done.
  destruct Ht as [[] ? ? ? ? ?]. by split.
Qed.

Lemma run_incoming v l c m cl q sub event (Φ : unit -> PriorityQueue -> Prop) :
  tracks v l c m cl q ->
  (forall q', tracks v l c m cl q' -> quiet q q' -> activeQ q' = activeQ q -> Φ tt q') ->
  runs (incoming sub event) q Φ.
Proof.
  intros Ht HΦ. eexists tt, _. split; [done|]. apply HΦ; try done.
  destruct Ht as [[] ? ? ? ? ?]. by split.
Qed.

Lemma run_broadcast v l c m cl q (Φ : unit -> PriorityQueue -> Prop) :
  tracks v l c m cl q ->
  (forall q', tracks v l c m cl q' -> ticks q' = ticks q -> broadcasts q' = S (broadcasts q) -> Φ tt q') ->
  runs broadcast q Φ.
Proof.
  intros Ht HΦ. eexists tt, _. split; [done|]. apply HΦ; try done.
  destruct Ht as [[] ? ? ? ? ?]. by split.
Qed.

Lemma run_nominator op f v l c m cl q (Φ : unit -> PriorityQueue -> Prop) :
  (forall n, f n = nominatorStep n op) -> tracks v l c m cl q ->
  (forall q', tracks v (nominationStep l op) c m cl q' -> quiet q q' -> activeQ q' = activeQ q -> Φ tt q') ->
  runs (onNominator f) q Φ.
Proof.
  intros Hf Ht HΦ. eexists tt, _. split; [done|]. apply HΦ; try done.
  destruct Ht as [[] ? ? ? ? ?]. split; try done. cbn. rewrite Hf. by apply nominatorStep_spec.
Qed.

Lemma run_cycles v l c m cl q c' m' cl' f (Φ : unit -> PriorityQueue -> Prop) :
  tracks v l c m cl q -> f q = setCycles c' m' cl' q ->
  (forall q', tracks v l c' m' cl' q' -> quiet q q' -> activeQ q' = activeQ q -> Φ tt q') ->
  runs (modify f : Q unit) q Φ.
Proof.
  intros Ht Hf HΦ. eexists tt, _. split; [unfold modify; by rewrite Hf|]. apply HΦ; try done.
  destruct Ht as [[] ? ? ? ? ?]. by split.
Qed.

Lemma run_usDelete v l c m cl q p (Φ : unit -> PriorityQueue -> Prop) :
  tracks v l c m cl q -> named p ->
  (forall q', tracks (put Unschedulable (podId p) None v) l c m cl q' -> quiet q q' ->
    activeQ q' = activeQ q -> Φ tt q') ->
  runs (onUnschedulable (fun u => usDelete u p)) q Φ.
Proof.
  intros Ht Hp HΦ. eexists tt, _. split; [done|]. apply HΦ; [|done..].
  destruct (tr_wf _ _ _ _ _ _ Ht) as [? ? Hk (_&_&?) (_&_&Hg)]. apply tracks_unschedulable; try done.
  - unfold usGaugeOk, usDelete, usRecord in *. cbn [us_recorder podInfoMap].
    destruct (podInfoMap (unschedulableQ q) !! GetPodFullName p) as [x|] eqn:E;
      destruct (us_recorder (unschedulableQ q)); try done.
    + rewrite gauge_snoc, map_size_delete, E, Hg. simpl.
      destruct (size (podInfoMap (unschedulableQ q))) eqn:Hsz; [|lia].
      apply map_size_empty_inv in Hsz. rewrite Hsz in E. done.
    + by rewrite map_size_delete, E.
  - by apply allValid_delete.
  - intros k pi Hpi. cbn in Hpi. apply lookup_delete_Some in Hpi as [_ Hpi]. by apply Hk.
  - intros r Hr. by apply full_delete.
Qed.

Lemma run_usAddOrUpdate v l c m cl q pi (Φ : unit -> PriorityQueue -> Prop) :
  tracks v l c m cl q -> validPod (qp_Pod pi) ->
  (forall q', tracks (put Unschedulable (podId (qp_Pod pi)) (Some pi) v) l c m cl q' -> quiet q q' ->
    activeQ q' = activeQ q -> Φ tt q') ->
  runs (onUnschedulable (fun u => usAddOrUpdate u pi)) q Φ.
Proof.
  intros Ht Hp HΦ. eexists tt, _. split; [done|]. apply HΦ; [|done..].
  destruct (tr_wf _ _ _ _ _ _ Ht) as [? ? Hk (_&_&?) (_&_&Hg)]. apply tracks_unschedulable; try done.
  - unfold usGaugeOk, usAddOrUpdate, usRecord in *. cbn [us_recorder podInfoMap].
    destruct (podInfoMap (unschedulableQ q) !! GetPodFullName (qp_Pod pi)) as [x|] eqn:E;
      destruct (us_recorder (unschedulableQ q)); try done.
    + rewrite map_size_insert_Some; [done|by eexists].
    + rewrite gauge_snoc, map_size_insert_None, Hg by done. simpl. lia.
  - by apply allValid_insert.
  - intros k pi' Hpi. cbn in Hpi. apply lookup_insert_Some in Hpi as [[<- <-]|[_ Hpi]]; [done|by apply Hk].
  - intros r Hr. apply full_insert; [apply Hp|done].
Qed.

Lemma heapGet_keyed h pi : heapGet h pi = keyed (contents h) (qp_Pod pi).
Proof.
  unfold heapGet, Heap.Get, keyed, podInfoKeyFunc. destruct (MetaNamespaceKeyFunc (qp_Pod pi)); [|done].
  bind_simpl. by rewrite contents_lookup.
Qed.

Lemma get_active v l c m cl q pi : tracks v l c m cl q -> named (qp_Pod pi) ->
  heapGet (activeQ q) pi = v Active (podId (qp_Pod pi)).
Proof. intros Ht Hp. rewrite heapGet_keyed. by apply (tr_shows _ _ _ _ _ _ Ht Active). Qed.

Lemma get_backoff v l c m cl q pi : tracks v l c m cl q -> named (qp_Pod pi) ->
  heapGet (podBackoffQ q) pi = v Backoff (podId (qp_Pod pi)).
Proof. intros Ht Hp. rewrite heapGet_keyed. by apply (tr_shows _ _ _ _ _ _ Ht Backoff). Qed.

Lemma get_unschedulable v l c m cl q p : tracks v l c m cl q -> named p ->
  usGet (unschedulableQ q) p = v Unschedulable (podId p).
Proof. intros Ht Hp. by apply (tr_shows _ _ _ _ _ _ Ht Unschedulable). Qed.
End Primitives.

(** ** Every operation is a step of the state machine *)
Section Steps.
Context `{KeyLib, Environment, LabelsLib} (lessFn : QueuedPodInfo -> QueuedPodInfo -> bool) (init max : Z).

Definition replyOf {A} (f : A -> queueReply) (x : result queueError A * PriorityQueue)
    : queueReply * PriorityQueue :=
  match x with
  | (Ok a, q) => (f a, q)
  | (Err e, q) => (Refused e, q)
  | (Panic, q) => (Crashed, q)
  end.
Definition asDone (_ : unit) : queueReply := Done.

Definition runOp (q : PriorityQueue) (op : queueOp) : queueReply * PriorityQueue :=
  match op with
  | OpAdd p => replyOf asDone (PriorityQueue.Add lessFn init max p q)
  | OpRequeue pi c =>
      replyOf (fun r => match r.2 with None => Done | Some e => Refused e end)
        (AddUnschedulableIfNotPresent init max pi c q)
  | OpPop =>
      replyOf (fun r => match r with Popped pi => Got pi | Waiting => Waits end)
        (PriorityQueue.Pop lessFn q)
  | OpUpdate old new => replyOf asDone (PriorityQueue.Update lessFn init max (Some old) new q)
  | OpDelete p => replyOf asDone (PriorityQueue.Delete lessFn init max p q)
  | OpMoveAll event => replyOf asDone (MoveAllToActiveOrBackoffQueue lessFn init max event q)
  | OpAssignedAdded p => replyOf asDone (AssignedPodAdded lessFn init max p q)
  | OpAssignedUpdated p => replyOf asDone (AssignedPodUpdated lessFn init max p q)
  | OpFlushBackoff => replyOf asDone (flushBackoffQCompleted lessFn init max q)
  | OpFlushUnschedulable => replyOf asDone (flushUnschedulableQLeftover lessFn init max q)
  | OpClose => replyOf asDone (Close q)
  end.

Definition tableOk (t : podTable) : Prop :=
  forall i pl pi, t !! i = Some (pl, pi) -> podId (qp_Pod pi) = i /\ validPod (qp_Pod pi).

Record refines (q : PriorityQueue) (a : absQueue) : Prop := {
  ref_tracks : tracks lessFn init max (tableView (aPods a)) (aNominations a) (aCycle a)
    (aMoveCycle a) (aClosed a) q;
  ref_table : tableOk (aPods a)
}.

(** A pod that becomes active is signalled to a waiting [Pop]. *)
Definition signals (q q' : PriorityQueue) : Prop :=
  broadcasts q < broadcasts q' \/ HeapLen (activeQ q') <= HeapLen (activeQ q).

Record stepRefines (q : PriorityQueue) (a : absQueue) (op : queueOp) : Prop := {
  step_abs : exists a', absStep lessFn init max (clockNow (ticks q)) (clockNow (ticks (runOp q op).2)) a op
    (runOp q op).1 a' /\ refines (runOp q op).2 a';
  step_ticks : ticks q <= ticks (runOp q op).2;
  step_signals : signals q (runOp q op).2
}.

Context `{!KeyLaws, !EnvironmentLaws, !StrictWeak lessFn}.

(** The obligations of an operation that returns [x] and leaves [q']. *)
Lemma queueStep_intro {A} (f : A -> queueReply) (m : Q A) q a op :
  runOp q op = replyOf f (m q) ->
  runs m q (fun x q' =>
    (exists a', absStep lessFn init max (clockNow (ticks q)) (clockNow (ticks q')) a op (f x) a' /\ refines q' a') /\
    ticks q <= ticks q' /\ signals q q') ->
  stepRefines q a op.
Proof. intros Hop (x&q'&Hm&Habs&?&?). rewrite Hm in Hop. split; rewrite Hop; done. Qed.

Lemma refines_intro q v l c m cl pods :
  tracks lessFn init max v l c m cl q -> (forall pl i, v pl i = tableView pods pl i) -> tableOk pods ->
  refines q {| aPods := pods; aNominations := l; aCycle := c; aMoveCycle := m; aClosed := cl |}.
Proof. intros Ht Hv Hok. split; [|done]. by eapply tracks_ext. Qed.

Lemma tableOk_insert t i pl pi : tableOk t -> podId (qp_Pod pi) = i -> validPod (qp_Pod pi) ->
  tableOk (<[i := (pl, pi)]> t).
Proof. intros Ht Hi Hv j pl' pi' Hj. apply lookup_insert_Some in Hj as [[<- [= <- <-]]|[_ Hj]]; eauto. Qed.

Lemma tableOk_delete t i : tableOk t -> tableOk (delete i t).
Proof. intros Ht j pl pi [_ Hj]%lookup_delete_Some. eauto. Qed.

(** One entry of the table changes: what the sub-queues show of it. *)
Lemma tableView_insert t i pl pi pl' i' :
  tableView (<[i := (pl, pi)]> t) pl' i' =
  if decide (i' = i) then (if decide (pl' = pl) then Some pi else None) else tableView t pl' i'.
Proof. unfold tableView. case_decide; simplify_map_eq; done. Qed.

Lemma tableView_delete t i pl' i' :
  tableView (delete i t) pl' i' = if decide (i' = i) then None else tableView t pl' i'.
Proof. unfold tableView. case_decide; simplify_map_eq; done. Qed.

Lemma tableView_Some t pl i pi : tableView t pl i = Some pi <-> t !! i = Some (pl, pi).
Proof.
  unfold tableView. destruct (t !! i) as [[pl' pi']|]; [|done]. case_decide; naive_solver.
Qed.

Lemma tableView_absent t i : t !! i = None <-> forall pl, tableView t pl i = None.
Proof.
  unfold tableView. destruct (t !! i) as [[pl pi]|]; [|done].
  split; [done|]. intros Hv. specialize (Hv pl). by rewrite decide_True in Hv.
Qed.

Lemma clock_between (n m k : nat) : n <= m <= k -> (clockNow n <= clockNow m <= clockNow k)%Z.
Proof. intros. split; apply clock_mono; lia. Qed.
End Steps.

(** Compares what two sub-queue tables show, entry by entry. *)
Ltac view_solver :=
  intros [] ?i; unfold put; rewrite ?tableView_insert, ?tableView_delete;
  repeat case_decide; destruct_and?; subst;
  first [ done | congruence | exfalso; match goal with H : ~ _ |- _ => by apply H end | idtac ].

Section StepLemmas.
Context `{KeyLib, Environment, LabelsLib} (lessFn : QueuedPodInfo -> QueuedPodInfo -> bool) (init max : Z).
Context `{!KeyLaws, !EnvironmentLaws, !StrictWeak lessFn}.
Abbreviation refinesQ := (refines lessFn init max).
Abbreviation stepOk := (stepRefines lessFn init max).


Lemma run_ensureNotUnschedulable v l c m cl q p (Φ : unit -> PriorityQueue -> Prop) :
  tracks lessFn init max v l c m cl q -> named p ->
  (forall q', tracks lessFn init max (put Unschedulable (podId p) None v) l c m cl q' -> quiet q q' -> Φ tt q') ->
  runs (match usGet (unschedulableQ q) p with
        | Some _ => onUnschedulable (fun u => usDelete u p)
        | None => mret tt
        end) q Φ.
Proof.
  intros Ht Hp HΦ. erewrite get_unschedulable by done.
  destruct (v Unschedulable (podId p)) eqn:E.
  - eapply run_usDelete; [done..|]. intros q' ? ? _. by apply HΦ.
  - apply runs_ret, HΦ; [|done]. by eapply put_absent.
Qed.

Lemma step_Add q a p : refinesQ q a -> validPod p -> stepOk q a (OpAdd p).
Proof.
  intros [Ht Hok] Hp. eapply queueStep_intro; [done|]. unfold PriorityQueue.Add, newQueuedPodInfo.
  do 2 run_step. eapply run_Now; [done|]. intros q1 Ht1 ? ? ? ?. run_step.
  run_step. eapply run_activeAdd; [done..|]. intros q2 Ht2 [] _. do 3 run_step.
  eapply run_ensureNotUnschedulable; [done|exact (proj1 Hp)|]. intros q3 Ht3 [].
  run_step. eapply (run_backoffDelete lessFn); [exact _|done|exact (proj1 Hp)|]. intros q4 e Ht4 [] _.
  run_step. eapply run_incoming; [done|]. intros q5 Ht5 [] _.
  run_step. eapply (run_nominator _ _ _ (OpAddNominated p "")); [done..|]. intros q6 Ht6 [] _.
  eapply run_broadcast; [done|]. intros q7 Ht7 ? ?. split_and!.
  - eexists. split; [eapply (StepAdd _ _ _ _ _ _ _ (clockNow (ticks q))), clock_between; lia|].
    eapply refines_intro; [exact Ht7|view_solver|]. by apply tableOk_insert.
  - lia.
  - left. lia.
Qed.

Lemma step_Requeue q a pi c : refinesQ q a -> validPod (qp_Pod pi) -> stepOk q a (OpRequeue pi c).
Proof.
  intros [Ht Hok] Hp. set (i := podId (qp_Pod pi)).
  eapply queueStep_intro; [done|]. unfold AddUnschedulableIfNotPresent.
  do 2 run_step. erewrite get_unschedulable by (done || exact (proj1 Hp)). fold i.
  assert (Htwice : forall pl pi', tableView (aPods a) pl i = Some pi' -> forall q', tracks lessFn init max
      (tableView (aPods a)) (aNominations a) (aCycle a) (aMoveCycle a) (aClosed a) q' ->
    exists a', absStep lessFn init max (clockNow (ticks q)) (clockNow (ticks q')) a (OpRequeue pi c)
      (Refused (already pl)) a' /\ refinesQ q' a').
  { intros pl pi' Hv q' Ht'. exists a. split; [|by split]. eapply StepRequeueTwice. by apply tableView_Some. }
  destruct (tableView (aPods a) Unschedulable i) as [pi'|] eqn:Hus.
  { run_step. split_and!; [exact (Htwice Unschedulable _ ltac:(eassumption) _ ltac:(eassumption))|lia|by right]. }
  run_step. eapply run_Now; [done|]. intros q1 Ht1 ? ? Hact Hback. rewrite <- Hact, <- Hback.
  erewrite get_active by (done || exact (proj1 Hp)). cbn [qp_Pod withTimestamp]. fold i.
  destruct (tableView (aPods a) Active i) as [pi'|] eqn:Hac.
  { run_step. split_and!; [exact (Htwice Active _ ltac:(eassumption) _ ltac:(eassumption))|lia|right; by rewrite Hact]. }
  erewrite get_backoff by (done || exact (proj1 Hp)). cbn [qp_Pod withTimestamp]. fold i.
  destruct (tableView (aPods a) Backoff i) as [pi'|] eqn:Hba.
  { run_step. split_and!; [exact (Htwice Backoff _ ltac:(eassumption) _ ltac:(eassumption))|lia|right; by rewrite Hact]. }
  assert (Hnone : aPods a !! i = None) by (apply tableView_absent; by intros []).
  rewrite (tr_move _ _ _ _ _ _ _ _ _ Ht). run_step.
  set (pi1 := withTimestamp pi (clockNow (ticks q))).
  set (pl := if (c <=? aMoveCycle a)%Z then Backoff else Unschedulable).
  eapply (runs_mono _ _ (fun err q' => err = None /\
    tracks lessFn init max (put pl i (Some pi1) (tableView (aPods a))) (aNominations a) (aCycle a)
      (aMoveCycle a) (aClosed a) q' /\ quiet q1 q' /\ HeapLen (activeQ q') = HeapLen (activeQ q1))).
  - unfold pl. case_match; run_step.
    + apply runs_caught. eapply (run_backoffAdd lessFn); [exact _|done..|]. intros q2 ? [] ?. run_step.
      eapply run_incoming; [done|]. intros q3 ? [] E3. run_step.
      split_and!; [done|done|unfold quiet; lia|congruence].
    + eapply run_usAddOrUpdate; [done..|]. intros q2 ? [] E2. run_step.
      eapply run_incoming; [done|]. intros q3 ? [] E3. run_step.
      split_and!; [done|done|unfold quiet; lia|congruence].
  - intros err q2 (->&Ht2&[]&?). run_step.
    eapply (run_nominator _ _ _ (OpAddNominated (qp_Pod pi) "")); [done..|]. intros q3 Ht3 [] E3. run_step.
    split_and!; [|lia|right; rewrite E3, <- Hact; lia].
    eexists. split; [eapply (StepRequeue _ _ _ _ _ _ _ _ (clockNow (ticks q))); [apply clock_between; lia|done]|].
    eapply refines_intro; [exact Ht3| |by apply tableOk_insert].
    fold i pl pi1. clearbody pl. destruct pl; view_solver.
Qed.

(** The entries of the table in a heap's sub-queue are the contents of the heap. *)
Lemma place_contents q t l c m cl pl h less i pi :
  tracks lessFn init max (tableView t) l c m cl q -> tableOk t ->
  (forall p, look q pl p = keyed (contents h) p) ->
  heapInv podInfoKeyFunc less h -> allValid (contents h) ->
  t !! i = Some (pl, pi) <-> podId (qp_Pod pi) = i /\ exists k, contents h !! k = Some pi.
Proof.
  intros Ht Hok Hl Hh Hv. split.
  - intros Ha. destruct (Hok _ _ _ Ha) as [Hi Hval]. split; [done|]. apply tableView_Some in Ha.
    rewrite <- Hi, <- (tr_shows _ _ _ _ _ _ _ _ _ Ht), Hl in Ha by exact (proj1 Hval).
    unfold keyed in Ha. destruct (MetaNamespaceKeyFunc (qp_Pod pi)) as [k|]; [by exists k|done].
  - intros [<- [k Hk]]. apply tableView_Some.
    rewrite <- (tr_shows _ _ _ _ _ _ _ _ _ Ht), Hl by exact (proj1 (Hv _ _ Hk)).
    pose proof (contents_key _ _ _ _ _ Hh Hk) as Hkey. unfold podInfoKeyFunc in Hkey.
    unfold keyed. by rewrite Hkey.
Qed.

Lemma active_contents q a i pi : refinesQ q a ->
  activeAt a i pi <-> podId (qp_Pod pi) = i /\ exists k, contents (activeQ q) !! k = Some pi.
Proof.
  intros [Ht Hok]. destruct (tr_wf _ _ _ _ _ _ _ _ _ Ht) as [Hh _ _ (Hv&_&_) _].
  by eapply (place_contents q (aPods a)).
Qed.

(** Taking a pod out of the sub-queue that it is in empties its entry. *)
Lemma delete_active_view t i pi :
  tableView t Active i = Some pi ->
  forall pl j, put Active i None (tableView t) pl j = tableView (delete i t) pl j.
Proof.
  intros Hi%tableView_Some pl j. unfold put. rewrite tableView_delete.
  destruct (decide (j = i)) as [->|]; [|by rewrite decide_False by naive_solver].
  unfold tableView. rewrite Hi. repeat case_decide; naive_solver.
Qed.

Lemma step_Pop q a : refinesQ q a -> stepOk q a OpPop.
Proof.
  intros Hr. pose proof Hr as [Ht Hok].
  destruct (tr_wf _ _ _ _ _ _ _ _ _ Ht) as [Hh _ _ (Hv&_&_) (Hg&_&_)].
  destruct (decide (HeapLen (activeQ q) = 0)) as [Hlen0|Hlen0].
  - assert (Hno : forall i pi, ~ activeAt a i pi).
    { intros i pi [_ [k Hk]]%(active_contents q); [|done].
      rewrite (HeapLen_contents podInfoKeyFunc lessFn) in Hlen0 by done.
      apply map_size_empty_inv in Hlen0. by rewrite Hlen0 in Hk. }
    assert (Hop : runOp lessFn init max q OpPop = (if aClosed a then Refused QueueClosed else Waits, q)).
    { unfold runOp, PriorityQueue.Pop. erewrite bind_Ok by done. rewrite decide_True by done.
      rewrite (tr_closed _ _ _ _ _ _ _ _ _ Ht). by destruct (aClosed a). }
    split; rewrite Hop; [|done|by right]. exists a. split; [|done]. by apply StepPopEmpty.
  - destruct (Pop_spec podInfoKeyFunc lessFn (activeQ q) Hh) as (pi&k&h&Hp&Hh'&Hk&Hkey&Hc&Hmin&Hrec); [lia|].
    pose proof (Hv _ _ Hk) as Hval.
    eapply (queueStep_intro _ _ _ _ (PriorityQueue.Pop lessFn)); [done|]. unfold PriorityQueue.Pop.
    do 2 run_step. rewrite decide_False by done. rewrite Hp. run_step. eapply runs_modify.
    assert (Ht1 : tracks lessFn init max (put Active (podId (qp_Pod pi)) None (tableView (aPods a)))
      (aNominations a) (aCycle a) (aMoveCycle a) (aClosed a) (setQueue id (fun _ => h) id id q)).
    { apply tracks_active; try done; [by eapply gaugeOk_delete|rewrite Hc; by apply allValid_delete|].
      intros p Hp'. rewrite Hc. by apply keyed_delete; [|exact (proj1 Hval)|..]. }
    run_step. eapply run_cycles; [exact Ht1|done|]. intros q2 Ht2 [E2 _] Ea2. run_step. split_and!.
    + eexists. split.
      * eapply (StepPop _ _ _ _ _ _ _ pi); [by apply (active_contents q); eauto|].
        intros i' pi' [_ [k' Hk']]%(active_contents q); [|done]. by eapply Hmin.
      * cbn [schedulingCycle moveRequestCycle closed setQueue] in Ht2.
        rewrite (tr_cycle _ _ _ _ _ _ _ _ _ Ht), (tr_move _ _ _ _ _ _ _ _ _ Ht),
          (tr_closed _ _ _ _ _ _ _ _ _ Ht) in Ht2.
        eapply refines_intro; [exact Ht2| |by apply tableOk_delete].
        apply (delete_active_view _ _ pi), tableView_Some, (active_contents q a _ pi Hr). eauto.
    + rewrite E2. done.
    + right. rewrite Ea2. cbn [activeQ setQueue].
      rewrite !(HeapLen_contents podInfoKeyFunc lessFn), Hc by done.
      rewrite map_size_delete, Hk. simpl. lia.
Qed.

Lemma step_Close q a : refinesQ q a -> stepOk q a OpClose.
Proof.
  intros [Ht Hok]. destruct (aClosed a) eqn:Hcl.
  - assert (Hop : runOp lessFn init max q OpClose = (Crashed, q)).
    { unfold runOp, Close. erewrite bind_Ok by done.
      by rewrite (tr_closed _ _ _ _ _ _ _ _ _ Ht). }
    split; rewrite Hop; [|done|by right]. exists a. rewrite <- Hcl in Ht. split; [by apply StepCloseTwice|by split].
  - eapply queueStep_intro; [done|]. unfold Close. do 2 run_step.
    rewrite (tr_closed _ _ _ _ _ _ _ _ _ Ht). run_step.
    eapply run_cycles; [exact Ht|done|]. intros q1 Ht1 [E1 E1'] ?.
    rewrite (tr_cycle _ _ _ _ _ _ _ _ _ Ht), (tr_move _ _ _ _ _ _ _ _ _ Ht) in Ht1.
    eapply run_broadcast; [exact Ht1|]. intros q2 Ht2 ? ?. split_and!; [|lia|left; lia].
    eexists. split; [by apply StepClose|]. by eapply refines_intro; [exact Ht2|..].
Qed.

Lemma step_Delete q a p : refinesQ q a -> named p -> stepOk q a (OpDelete p).
Proof.
  intros [Ht Hok] Hp. eapply queueStep_intro; [done|]. unfold PriorityQueue.Delete. run_step.
  eapply (run_nominator _ _ _ (OpDeleteNominated p)); [done..|]. intros q1 Ht1 [] E1. run_step.
  eapply run_activeDelete; [done..|]. intros q2 Ht2 [] E2. cbn [qp_Pod newQueuedPodInfoNoTimestamp] in *.
  destruct (tableView (aPods a) Active (podId p)) as [pi|] eqn:Hact.
  - run_step. rewrite E1 in E2. split_and!; [|lia|by right].
    eexists. split; [by apply StepDelete|]. eapply refines_intro; [exact Ht2| |by apply tableOk_delete].
    by eapply delete_active_view.
  - run_step. eapply (run_backoffDelete lessFn); [exact _|done..|]. intros q3 e Ht3 [] E3.
    eapply run_usDelete; [done..|]. intros q4 Ht4 [] E4.
    rewrite E1 in E2. split_and!; [|lia|right; rewrite E4; lia].
    eexists. split; [by apply StepDelete|]. eapply refines_intro; [exact Ht4| |by apply tableOk_delete].
    view_solver.
Qed.

(** What the table shows after a pod went from one sub-queue to another. *)
Lemma move_view t pl i pi pl' pi' :
  t !! i = Some (pl, pi) -> pl <> pl' -> forall pl1 j,
  put pl' i (Some pi') (put pl i None (tableView t)) pl1 j = tableView (<[i := (pl', pi')]> t) pl1 j.
Proof.
  intros Hi Hne pl1 j. unfold put. rewrite tableView_insert. unfold tableView.
  repeat case_decide; destruct_and?; subst; simplify_map_eq; try done; naive_solver.
Qed.

Lemma update_view t pl i pi pi' :
  t !! i = Some (pl, pi) -> forall pl1 j,
  put pl i (Some pi') (tableView t) pl1 j = tableView (<[i := (pl, pi')]> t) pl1 j.
Proof.
  intros Hi pl1 j. unfold put. rewrite tableView_insert. unfold tableView.
  repeat case_decide; destruct_and?; subst; simplify_map_eq; try done; naive_solver.
Qed.

Lemma enter_view t pl i pi :
  t !! i = None -> forall pl1 j,
  put pl i (Some pi) (tableView t) pl1 j = tableView (<[i := (pl, pi)]> t) pl1 j.
Proof.
  intros Hi pl1 j. unfold put. rewrite tableView_insert. unfold tableView.
  repeat case_decide; destruct_and?; subst; simplify_map_eq; try done; naive_solver.
Qed.

Lemma updatePod_table t i pl pl' pi new : tableOk t -> t !! i = Some (pl, pi) -> i = podId new -> validPod new ->
  tableOk (<[i := (pl', updatePod pi new)]> t).
Proof. intros Hok Hi -> Hv. by apply tableOk_insert. Qed.

Lemma step_Update_active q a old new pi :
  refinesQ q a -> named old -> validPod new -> podId old = podId new ->
  aPods a !! podId new = Some (Active, pi) -> stepOk q a (OpUpdate old new).
Proof.
  intros [Ht Hok] Hold Hnew Hid Hpi. eapply queueStep_intro; [done|]. unfold PriorityQueue.Update.
  do 2 run_step. erewrite get_active by done. cbn [qp_Pod newQueuedPodInfoNoTimestamp]. rewrite Hid.
  rewrite (proj2 (tableView_Some _ _ _ _) Hpi). run_step.
  eapply (run_nominator _ _ _ (OpUpdateNominated old new)); [done..|]. intros q1 Ht1 [] E1.
  change (activeUpdate lessFn ?x) with (activeAdd lessFn x).
  eapply run_activeAdd; [done..|]. intros q2 Ht2 [] [E2 _]. cbn [qp_Pod updatePod] in *.
  rewrite E1 in E2. split_and!; [|lia|].
  - eexists. split; [by eapply StepUpdate|].
    eapply refines_intro; [exact Ht2|by eapply update_view|by eapply updatePod_table].
  - right. rewrite E2; [done|]. by rewrite (proj2 (tableView_Some _ _ _ _) Hpi).
Qed.

Lemma step_Update_backoff q a old new pi :
  refinesQ q a -> named old -> validPod new -> podId old = podId new ->
  aPods a !! podId new = Some (Backoff, pi) -> stepOk q a (OpUpdate old new).
Proof.
  intros [Ht Hok] Hold Hnew Hid Hpi. eapply queueStep_intro; [done|]. unfold PriorityQueue.Update.
  destruct (Hok _ _ _ Hpi) as [Hidp Hvp].
  assert (Hno : tableView (aPods a) Active (podId new) = None) by (unfold tableView; by rewrite Hpi).
  do 2 run_step. erewrite get_active by done. cbn [qp_Pod newQueuedPodInfoNoTimestamp]. rewrite Hid, Hno.
  erewrite get_backoff by done. cbn [qp_Pod newQueuedPodInfoNoTimestamp].
  rewrite Hid, (proj2 (tableView_Some _ _ _ _) Hpi). run_step.
  eapply (run_nominator _ _ _ (OpUpdateNominated old new)); [done..|]. intros q1 Ht1 [] E1. run_step.
  eapply (run_backoffDelete lessFn); [exact _|done|exact (proj1 Hvp)|]. intros q2 e Ht2 [] E2.
  unfold addAndSignal. run_step. eapply run_activeAdd; [done..|]. intros q3 Ht3 [] E3.
  eapply run_broadcast; [done|]. intros q4 Ht4 ? ?. cbn [qp_Pod updatePod] in *. rewrite Hidp in Ht4.
  split_and!; [|lia|left; lia]. eexists. split; [by eapply StepUpdate|].
  eapply refines_intro; [exact Ht4|by eapply move_view|by eapply updatePod_table].
Qed.

Lemma step_Update_unschedulable q a old new pi :
  refinesQ q a -> named old -> validPod new -> podId old = podId new ->
  aPods a !! podId new = Some (Unschedulable, pi) -> stepOk q a (OpUpdate old new).
Proof.
  intros [Ht Hok] Hold Hnew Hid Hpi. eapply queueStep_intro; [done|]. unfold PriorityQueue.Update.
  destruct (Hok _ _ _ Hpi) as [Hidp Hvp].
  assert (Hno : forall pl, pl <> Unschedulable -> tableView (aPods a) pl (podId new) = None).
  { intros pl Hpl. unfold tableView. by rewrite Hpi, decide_False. }
  do 2 run_step. erewrite get_active by done. cbn [qp_Pod newQueuedPodInfoNoTimestamp].
  rewrite Hid, Hno by done. erewrite get_backoff by done. cbn [qp_Pod newQueuedPodInfoNoTimestamp].
  rewrite Hid, Hno by done. unfold updateUnschedulable. do 2 run_step.
  erewrite get_unschedulable by (done || exact (proj1 Hnew)).
  rewrite (proj2 (tableView_Some _ _ _ _) Hpi). run_step.
  eapply (run_nominator _ _ _ (OpUpdateNominated old new)); [done..|]. intros q1 Ht1 [] E1.
  destruct (isPodUpdated old new) eqn:Hup.
  - run_step. eapply run_usDelete; [done|exact (proj1 Hvp)|]. intros q2 Ht2 [] _.
    unfold addAndSignal. run_step. eapply run_activeAdd; [done..|]. intros q3 Ht3 [] E3.
    eapply run_broadcast; [done|]. intros q4 Ht4 ? ?. cbn [qp_Pod updatePod] in *. rewrite Hidp in Ht4.
    split_and!; [|lia|left; lia].
    eexists. split; [eapply StepUpdate; exact Hpi|]. cbn [afterUpdate]. rewrite Hup.
    eapply refines_intro; [exact Ht4|by eapply move_view|by eapply updatePod_table].
  - eapply run_usAddOrUpdate; [done..|]. intros q2 Ht2 [] E2. cbn [qp_Pod updatePod] in *.
    split_and!; [|lia|right; by rewrite E2, E1].
    eexists. split; [eapply StepUpdate; exact Hpi|]. cbn [afterUpdate]. rewrite Hup.
    eapply refines_intro; [exact Ht2|by eapply update_view|by eapply updatePod_table].
Qed.

Lemma step_Update_new q a old new :
  refinesQ q a -> named old -> validPod new -> podId old = podId new ->
  aPods a !! podId new = None -> stepOk q a (OpUpdate old new).
Proof.
  intros [Ht Hok] Hold Hnew Hid Hpi. eapply queueStep_intro; [done|]. unfold PriorityQueue.Update.
  pose proof (proj1 (tableView_absent _ _) Hpi) as Hno.
  do 2 run_step. erewrite get_active by done. cbn [qp_Pod newQueuedPodInfoNoTimestamp].
  rewrite Hid, Hno. erewrite get_backoff by done. cbn [qp_Pod newQueuedPodInfoNoTimestamp].
  rewrite Hid, Hno. unfold updateUnschedulable, newQueuedPodInfo. do 2 run_step.
  erewrite get_unschedulable by (done || exact (proj1 Hnew)). rewrite Hno. do 2 run_step.
  eapply run_Now; [done|]. intros q1 Ht1 ? ? ? ?. run_step.
  run_step. eapply run_activeAdd; [done..|]. intros q2 Ht2 [] _. run_step.
  eapply (run_nominator _ _ _ (OpAddNominated new "")); [done..|]. intros q3 Ht3 [] _.
  eapply run_broadcast; [done|]. intros q4 Ht4 ? ?. split_and!; [|lia|left; lia].
  eexists. split.
  - eapply (StepUpdateNew _ _ _ _ _ _ _ _ (clockNow (ticks q))); [apply clock_between; lia|done].
  - eapply refines_intro; [exact Ht4|by apply enter_view|by apply tableOk_insert].
Qed.

Lemma step_Update q a old new :
  refinesQ q a -> named old -> validPod new -> podId old = podId new -> stepOk q a (OpUpdate old new).
Proof.
  intros. destruct (aPods a !! podId new) as [[[] pi]|] eqn:Hpi.
  - by eapply step_Update_active.
  - by eapply step_Update_backoff.
  - by eapply step_Update_unschedulable.
  - by apply step_Update_new.
Qed.

(** *** Moving unschedulable pods *)
Lemma put_comm v pl i o pl' i' o' :
  pl <> pl' -> forall pl1 j, put pl i o (put pl' i' o' v) pl1 j = put pl' i' o' (put pl i o v) pl1 j.
Proof. intros Hne pl1 j. unfold put. repeat case_decide; naive_solver. Qed.

Definition placeAfter (t : Z) (pi : QueuedPodInfo) : place :=
  if (t <? backoffEnds init max pi)%Z then Backoff else Active.

Lemma run_movePod t l c m cl q event pi i (Φ : unit -> PriorityQueue -> Prop) :
  tracks lessFn init max (tableView t) l c m cl q -> tableOk t -> t !! i = Some (Unschedulable, pi) ->
  (forall q', tracks lessFn init max
      (tableView (<[i := (placeAfter (clockNow (ticks q)) pi, pi)]> t)) l c m cl q' ->
    ticks q' = S (ticks q) -> broadcasts q' = broadcasts q -> Φ tt q') ->
  runs (movePod lessFn init max event pi) q Φ.
Proof.
  intros Ht Hok Hi HΦ. destruct (Hok _ _ _ Hi) as [<- Hv]. unfold movePod, isPodBackingoff. do 2 run_step.
  eapply run_Now; [done|]. intros q1 Ht1 E1 E1' _ _. run_step.
  unfold placeAfter, backoffEnds in HΦ.
  assert (Hend : forall sub pl q2, pl <> Unschedulable ->
    tracks lessFn init max (put pl (podId (qp_Pod pi)) (Some pi) (tableView t)) l c m cl q2 -> quiet q1 q2 ->
    (forall q', tracks lessFn init max (tableView (<[podId (qp_Pod pi) := (pl, pi)]> t)) l c m cl q' ->
      ticks q' = S (ticks q) -> broadcasts q' = broadcasts q -> Φ tt q') ->
    runs (incoming sub event ≫= fun _ => onUnschedulable (fun u => usDelete u (qp_Pod pi))) q2 Φ).
  { intros sub pl q2 Hpl Ht2 [E2 E2'] HΦ'. run_step. eapply run_incoming; [done|]. intros q3 Ht3 [E3 E3'] _.
    eapply run_usDelete; [done|exact (proj1 Hv)|]. intros q4 Ht4 [E4 E4'] _. apply HΦ'; [|lia|lia].
    eapply tracks_ext; [|exact Ht4]. intros pl1 j. rewrite put_comm by done.
    by apply (move_view _ Unschedulable _ pi pl). }
  destruct (clockNow (ticks q) <? getBackoffTime init max pi)%Z; run_step; apply runs_caught.
  - eapply (run_backoffAdd lessFn); [exact _|done..|]. intros q2 Ht2 Hq2 _. by apply (Hend _ Backoff).
  - eapply run_activeAdd; [done..|]. intros q2 Ht2 Hq2 _. by apply (Hend _ Active).
Qed.

(** The table after the loop over the pods [infos]. *)
Definition movedList (infos : list QueuedPodInfo) (t0 t1 : Z) (t t' : podTable) : Prop :=
  forall i,
    (exists pi tm, pi ∈ infos /\ podId (qp_Pod pi) = i /\ (t0 <= tm <= t1)%Z /\
       t' !! i = Some (placeAfter tm pi, pi)) \/
    (t' !! i = t !! i /\ forall pi, pi ∈ infos -> podId (qp_Pod pi) <> i).

Lemma run_moveLoop event infos : forall t l c m cl q (Φ : unit -> PriorityQueue -> Prop),
  tracks lessFn init max (tableView t) l c m cl q -> tableOk t ->
  NoDup (podId ∘ qp_Pod <$> infos) ->
  (forall pi, pi ∈ infos -> t !! podId (qp_Pod pi) = Some (Unschedulable, pi)) ->
  (forall t' q', tracks lessFn init max (tableView t') l c m cl q' -> tableOk t' ->
    movedList infos (clockNow (ticks q)) (clockNow (ticks q')) t t' ->
    ticks q <= ticks q' -> broadcasts q' = broadcasts q -> Φ tt q') ->
  runs (forEach (movePod lessFn init max event) infos) q Φ.
Proof.
  induction infos as [|pi infos IH]; intros t l c m cl q Φ Ht Hok Hnd Hin HΦ; cbn [forEach].
  - run_step. eapply HΦ; [done..| |lia|done]. intros i. right. split; [done|]. set_solver.
  - apply NoDup_cons in Hnd as [Hpi Hnd]. set (i := podId (qp_Pod pi)) in *.
    assert (Hi : t !! i = Some (Unschedulable, pi)) by (apply Hin; set_solver).
    destruct (Hok _ _ _ Hi) as [_ Hv]. run_step.
    eapply run_movePod; [done..|]. intros q1 Ht1 E1 E1'. set (tm := clockNow (ticks q)) in *.
    eapply IH; [exact Ht1|by apply tableOk_insert|done| |].
    { intros pi' Hpi'. rewrite lookup_insert_ne; [apply Hin; set_solver|]. intros E. apply Hpi.
      apply list_elem_of_fmap. by exists pi'. }
    intros t' q' Ht' Hok' Hmv E2 E2'. eapply HΦ; [done..| |lia|lia].
    intros j. destruct (Hmv j) as [(pi'&tm'&?&?&?&?)|[Hj Hno]].
    + left. exists pi', tm'. split_and!; try done; [set_solver| |lia].
      pose proof (clock_mono (ticks q) (ticks q1)). lia.
    + destruct (decide (j = i)) as [->|Hne].
      * rewrite lookup_insert_eq in Hj. left. exists pi, tm. split_and!; try done; [set_solver|apply clock_mono; lia..].
      * rewrite lookup_insert_ne in Hj by done. right. split; [done|]. intros pi' [->|Hpi']%elem_of_cons; eauto.
Qed.

(** An iteration over the unschedulable pods visits each of them once. *)
Definition covers (t : podTable) (infos : list QueuedPodInfo) : Prop :=
  NoDup (podId ∘ qp_Pod <$> infos) /\
  forall pi, pi ∈ infos <-> t !! podId (qp_Pod pi) = Some (Unschedulable, pi).

Lemma infos_covers t l c m cl q n :
  tracks lessFn init max (tableView t) l c m cl q ->
  tableOk t ->
  covers t (mapOrder n (map_to_list (podInfoMap (unschedulableQ q))).*2).
Proof.
  intros Ht Hok. destruct (tr_wf _ _ _ _ _ _ _ _ _ Ht) as [_ _ Hkey (_&_&Hv) _]. split.
  - rewrite order_perm, <- list_fmap_compose. apply NoDup_fmap_2_strong; [|apply NoDup_map_to_list].
    intros [k1 p1] [k2 p2] Hm1%elem_of_map_to_list Hm2%elem_of_map_to_list E. cbn in E.
    rewrite <- fullName_inj in E by (eapply proj1, Hv; done).
    rewrite (Hkey _ _ Hm1), (Hkey _ _ Hm2) in E. congruence.
  - intros pi. rewrite order_perm, list_elem_of_fmap. split.
    + intros ([k p]&->&Hk%elem_of_map_to_list). cbn in *. pose proof (Hv _ _ Hk) as Hval.
      apply tableView_Some. rewrite <- (get_unschedulable _ _ _ _ _ _ _ _ _ _ Ht) by exact (proj1 Hval).
      unfold usGet. by rewrite (Hkey _ _ Hk).
    + intros Hi. destruct (Hok _ _ _ Hi) as [_ Hval]. apply tableView_Some in Hi.
      rewrite <- (get_unschedulable _ _ _ _ _ _ _ _ _ _ Ht) in Hi by exact (proj1 Hval).
      exists (GetPodFullName (qp_Pod pi), pi). split; [done|]. by apply elem_of_map_to_list.
Qed.

Lemma run_infos t l c m cl q (Φ : list QueuedPodInfo -> PriorityQueue -> Prop) :
  tracks lessFn init max (tableView t) l c m cl q -> tableOk t ->
  (forall infos q', tracks lessFn init max (tableView t) l c m cl q' -> covers t infos ->
    ticks q' = S (ticks q) -> broadcasts q' = broadcasts q -> activeQ q' = activeQ q -> Φ infos q') ->
  runs unschedulableInfos q Φ.
Proof.
  intros Ht Hok HΦ. eexists _, (tick q). split; [done|].
  apply HΦ; try done; [|by eapply infos_covers]. destruct Ht as [[] ? ? ? ? ?]. by split.
Qed.

Lemma movedList_moved infos sel t0 t1 t t' : tableOk t -> covers t infos ->
  movedList (filter (fun pi => sel pi = true) infos) t0 t1 t t' ->
  moved init max sel t0 t1 t t'.
Proof.
  intros Hok [_ Hc] Hm i. destruct (Hm i) as [(pi&tm&[Hs Hin]%list_elem_of_filter&<-&?&Ht')|[-> Hno]].
  - apply Hc in Hin. rewrite Hin, Hs. by exists tm.
  - destruct (t !! i) as [[[] pi]|] eqn:Hi; try done. destruct (sel pi) eqn:Hs; [|done].
    destruct (Hok _ _ _ Hi) as [<- _]. destruct (Hno pi); [|done].
    apply list_elem_of_filter. split; [done|]. by apply Hc.
Qed.

Lemma moved_mono sel t0 t1 t0' t1' t t' :
  (t0' <= t0)%Z -> (t1 <= t1')%Z -> moved init max sel t0 t1 t t' -> moved init max sel t0' t1' t t'.
Proof.
  intros ? ? Hm i. specialize (Hm i). destruct (t !! i) as [[[] pi]|]; try done.
  destruct (sel pi); [|done]. destruct Hm as (tm&?&?). exists tm. split; [lia|done].
Qed.

(** Moving the selected ones of the unschedulable pods. *)
Lemma run_movePods infos sel event t l c m cl q (Φ : unit -> PriorityQueue -> Prop) :
  tracks lessFn init max (tableView t) l c m cl q -> tableOk t -> covers t infos ->
  (forall t' q', tracks lessFn init max (tableView t') l c c cl q' -> tableOk t' ->
    moved init max sel (clockNow (ticks q)) (clockNow (ticks q')) t t' ->
    ticks q <= ticks q' -> broadcasts q < broadcasts q' -> Φ tt q') ->
  runs (movePodsToActiveOrBackoffQueue lessFn init max (filter (fun pi => sel pi = true) infos) event) q Φ.
Proof.
  intros Ht Hok [Hnd Hc] HΦ. unfold movePodsToActiveOrBackoffQueue. run_step.
  eapply run_moveLoop; [done..| | |].
  - eapply sublist_NoDup; [exact Hnd|]. apply fmap_sublist, sublist_filter.
  - intros pi [_ Hin]%list_elem_of_filter. by apply Hc.
  - intros t' q1 Ht1 Hok1 Hm E1 E1'. run_step.
    eapply run_cycles; [exact Ht1|done|]. intros q2 Ht2 [E2 E2'] _.
    rewrite (tr_cycle _ _ _ _ _ _ _ _ _ Ht1), (tr_closed _ _ _ _ _ _ _ _ _ Ht1) in Ht2.
    eapply run_broadcast; [exact Ht2|]. intros q3 Ht3 E3 E3'. eapply HΦ; [done..| |lia|lia].
    rewrite E3, E2. by eapply movedList_moved.
Qed.

(** The whole of an operation that moves pods after reading them. *)
Lemma step_moves q a op sel event :
  refinesQ q a -> moveSelector op = Some sel ->
  (forall infos q1, covers (aPods a) infos -> unschedulableInfos q = (Ok infos, q1) ->
    runOp lessFn init max q op = replyOf asDone
      (movePodsToActiveOrBackoffQueue lessFn init max (filter (fun pi => sel pi = true) infos) event q1)) ->
  stepOk q a op.
Proof.
  intros [Ht Hok] Hsel Hop.
  destruct (run_infos _ _ _ _ _ q (fun infos q1 => covers (aPods a) infos /\ ticks q1 = S (ticks q) /\
    broadcasts q1 = broadcasts q /\
    tracks lessFn init max (tableView (aPods a)) (aNominations a) (aCycle a) (aMoveCycle a) (aClosed a) q1) Ht Hok)
    as (infos&q1&Hq1&Hcov&E1&E1'&Ht1); [done|].
  eapply (queueStep_intro _ _ _ asDone (fun _ => movePodsToActiveOrBackoffQueue _ _ _ _ _ q1));
    [by eapply Hop|].
  change (runs (movePodsToActiveOrBackoffQueue lessFn init max (filter (fun pi => sel pi = true) infos) event) q1
    (fun (x : unit) q' => (exists a', absStep lessFn init max (clockNow (ticks q)) (clockNow (ticks q')) a op
      (asDone x) a' /\ refinesQ q' a') /\ ticks q <= ticks q' /\ signals q q')).
  eapply run_movePods; [done..|]. intros t' q3 Ht3 Hok3 Hm E3 E3'.
  split_and!; [|lia|left; lia]. eexists. split.
  - eapply StepMove; [done|]. eapply moved_mono; [| |exact Hm]; [apply clock_mono; lia|lia].
  - by eapply refines_intro.
Qed.

(** With selectors that parse, the loop over the terms is the test of [affinityWaits]. *)
Lemma matchingInfos_filter p infos :
  Forall (fun pi => parsable (qp_Pod pi)) infos ->
  matchingInfos p infos = Ok (filter (fun pi => affinityWaits p pi = true) infos).
Proof.
  induction 1 as [|pi infos Hpi _ IH]; [done|]. cbn [matchingInfos].
  assert (Hterms : forall terms,
    Forall (fun t => is_Some (LabelSelectorAsSelector (term_LabelSelector t))) terms ->
    anyTermMatches (qp_Pod pi) p terms = Ok (existsb (fun term =>
      match LabelSelectorAsSelector (term_LabelSelector term) with
      | Some s => PodMatchesTermsNamespaceAndSelector p (GetNamespacesFromPodAffinityTerm (qp_Pod pi) term) s
      | None => false
      end) terms)).
  { induction 1 as [|t ts [s Hs] _ IHt]; [done|]. cbn [anyTermMatches existsb]. rewrite Hs, IHt.
    by destruct (PodMatchesTermsNamespaceAndSelector _ _ s). }
  rewrite Hterms by exact Hpi. fold (affinityWaits p pi). rewrite IH, filter_cons.
  destruct (affinityWaits p pi); by case_decide.
Qed.

Lemma step_MoveAll q a event : refinesQ q a -> stepOk q a (OpMoveAll event).
Proof.
  intros Hr. eapply (step_moves q a _ (fun _ => true) event); [done..|].
  intros infos q1 _ Hq1. cbn [runOp]. unfold MoveAllToActiveOrBackoffQueue.
  erewrite bind_Ok by exact Hq1. by rewrite filter_keeps_all.
Qed.

Lemma assigned_infos a p infos q q1 : tableOk (aPods a) -> covers (aPods a) infos ->
  unschedulableInfos q = (Ok infos, q1) ->
  getUnschedulablePodsWithMatchingAffinityTerm p q = (Ok (filter (fun pi => affinityWaits p pi = true) infos), q1).
Proof.
  intros Hok [_ Hc] Hq1. unfold getUnschedulablePodsWithMatchingAffinityTerm. erewrite bind_Ok by exact Hq1.
  unfold ofResult. rewrite matchingInfos_filter; [done|].
  apply list.Forall_forall. intros pi Hpi%Hc. apply (Hok _ _ _ Hpi).
Qed.

Lemma step_AssignedAdded q a p : refinesQ q a -> stepOk q a (OpAssignedAdded p).
Proof.
  intros Hr. eapply (step_moves q a _ (affinityWaits p) AssignedPodAdd); [done..|].
  intros infos q1 Hcov Hq1. cbn [runOp]. unfold AssignedPodAdded.
  by erewrite bind_Ok by (eapply assigned_infos; [apply Hr|done..]).
Qed.

Lemma step_AssignedUpdated q a p : refinesQ q a -> stepOk q a (OpAssignedUpdated p).
Proof.
  intros Hr. eapply (step_moves q a _ (affinityWaits p) AssignedPodUpdate); [done..|].
  intros infos q1 Hcov Hq1. cbn [runOp]. unfold AssignedPodUpdated.
  by erewrite bind_Ok by (eapply assigned_infos; [apply Hr|done..]).
Qed.

Lemma step_FlushUnschedulable q a : refinesQ q a -> stepOk q a OpFlushUnschedulable.
Proof.
  intros [Ht Hok]. eapply queueStep_intro; [done|]. unfold flushUnschedulableQLeftover. run_step.
  eapply run_Now; [done|]. intros q1 Ht1 E1 E1' A1 _. set (now := clockNow (ticks q)). run_step.
  eapply run_infos; [done..|]. intros infos q2 Ht2 Hcov E2 E2' A2.
  rewrite (list_filter_iff _ (fun pi => overdue now pi = true)) by (intros pi; unfold overdue; by rewrite Z.ltb_lt).
  destruct (filter (fun pi => overdue now pi = true) infos) as [|pi0 ps] eqn:Hsel.
  - run_step. split_and!; [|lia|right; by rewrite A2, A1]. exists a. split; [|by split].
    pose proof (StepFlushUnschedulable lessFn init max (clockNow (ticks q)) (clockNow (ticks q2)) a now (aPods a)) as HS.
    rewrite decide_True in HS by done. apply HS; [apply clock_between; lia|].
    apply (movedList_moved infos); [done..|]. rewrite Hsel. intros i. right. split; [done|set_solver].
  - rewrite <- Hsel. eapply run_movePods; [done..|]. intros t' q3 Ht3 Hok3 Hm E3 E3'.
    split_and!; [|lia|left; lia].
    assert (Hne : t' <> aPods a).
    { intros ->. assert (Hin : pi0 ∈ filter (fun pi => overdue now pi = true) infos) by (rewrite Hsel; set_solver).
      apply list_elem_of_filter in Hin as [Hover Hin]. apply (proj2 Hcov) in Hin.
      specialize (Hm (podId (qp_Pod pi0))). rewrite Hin, Hover in Hm. destruct Hm as (tm&_&Hm).
      by destruct (tm <? backoffEnds init max pi0)%Z. }
    exists (becomeMoved a t'). split; [|by eapply refines_intro].
    pose proof (StepFlushUnschedulable lessFn init max (clockNow (ticks q)) (clockNow (ticks q3)) a now t') as HS.
    rewrite decide_False in HS by done. apply HS; [apply clock_between; lia|].
    eapply moved_mono; [| |exact Hm]; [apply clock_mono; lia|lia].
Qed.

(** *** The end of the backoff *)
Lemma completeBackoff_none (t : podTable) tm :
  (forall i pi, t !! i = Some (Backoff, pi) -> (tm < backoffEnds init max pi)%Z) ->
  completeBackoff init max tm <$> t = t.
Proof.
  intros Hno. apply map_eq. intros i. rewrite lookup_fmap. destruct (t !! i) as [[[] pi]|] eqn:Hi; try done.
  simpl. specialize (Hno _ _ Hi). by rewrite (proj2 (Z.ltb_lt _ _) Hno).
Qed.

Lemma completeBackoff_first (t : podTable) i pi tm now :
  t !! i = Some (Backoff, pi) -> (backoffEnds init max pi <= now <= tm)%Z ->
  completeBackoff init max tm <$> <[i := (Active, pi)]> t = completeBackoff init max tm <$> t.
Proof.
  intros Hi Hb. apply map_eq. intros j. rewrite !lookup_fmap.
  destruct (decide (j = i)) as [->|]; [|by rewrite lookup_insert_ne].
  rewrite lookup_insert_eq, Hi. simpl. by rewrite (proj2 (Z.ltb_ge _ _)) by lia.
Qed.

Lemma run_flushLoop fuel : forall t l c m cl q (Φ : unit -> PriorityQueue -> Prop),
  tracks lessFn init max (tableView t) l c m cl q -> tableOk t -> HeapLen (podBackoffQ q) < fuel ->
  (forall tm t' q', tracks lessFn init max (tableView t') l c m cl q' -> tableOk t' ->
    t' = completeBackoff init max tm <$> t -> (clockNow (ticks q) <= tm <= clockNow (ticks q'))%Z ->
    ticks q <= ticks q' -> broadcasts q <= broadcasts q' -> signals q q' -> Φ tt q') ->
  runs (flushLoop lessFn init max fuel) q Φ.
Proof.
  induction fuel as [|fuel IH]; intros t l c m cl q Φ Ht Hok Hf HΦ; [lia|].
  destruct (tr_wf _ _ _ _ _ _ _ _ _ Ht) as [_ Hh _ (_&Hv&_) (_&Hg&_)].
  assert (Hback : forall i pi, t !! i = Some (Backoff, pi) <->
    podId (qp_Pod pi) = i /\ exists k, contents (podBackoffQ q) !! k = Some pi).
  { intros i pi. by eapply place_contents. }
  cbn [flushLoop]. do 2 run_step. pose proof (Peek_spec _ _ _ Hh) as Hpeek.
  destruct (HeapLen (podBackoffQ q)) as [|n] eqn:Hlen.
  - rewrite Hpeek. run_step. eapply (HΦ (clockNow (ticks q)) t); [done..| | |done|done|by right]; [|lia].
    symmetry. apply completeBackoff_none. intros i pi [_ [k Hk]]%Hback.
    rewrite (HeapLen_contents _ _ _ Hh) in Hlen. apply map_size_empty_inv in Hlen. by rewrite Hlen in Hk.
  - destruct Hpeek as (pi&k&Hpeek&Hk&Hkey&Hmin). rewrite Hpeek. run_step.
    eapply run_Now; [done|]. intros q1 Ht1 E1 E1' A1 B1. set (now := clockNow (ticks q)) in *.
    pose proof (clock_mono (ticks q) (ticks q1)) as Hmono.
    destruct (now <? getBackoffTime init max pi)%Z eqn:Hnow.
    + run_step. eapply (HΦ now t); [done..| |subst now; lia|lia|lia|right; by rewrite A1].
      symmetry. apply completeBackoff_none. intros i pi' [_ [k' Hk']]%Hback.
      apply Hmin in Hk'. unfold podsCompareBackoffCompleted, backoffEnds in *. lia.
    + do 2 run_step. rewrite B1.
      destruct (Pop_spec _ _ _ Hh) as (pi'&k'&h&Hp&Hh'&Hk'&Hkey'&Hc&_&Hrec); [lia|].
      assert (pi' = pi) as -> by (pose proof (Pop_Peek _ _ _ _ _ Hh Hp); congruence).
      assert (k' = k) as -> by congruence.
      pose proof (Hv _ _ Hk) as Hval. set (i := podId (qp_Pod pi)).
      assert (Hi : t !! i = Some (Backoff, pi)) by (apply Hback; eauto).
      rewrite Hp. run_step. eapply runs_modify.
      assert (Ht2 : tracks lessFn init max (put Backoff i None (tableView t)) l c m cl
        (setQueue id id (fun _ => h) id q1)).
      { apply tracks_backoff; [done..|by eapply gaugeOk_delete|rewrite Hc; by apply allValid_delete|].
        intros p Hp'. cbn [look]. rewrite Hc, B1. by apply keyed_delete; [|exact (proj1 Hval)|..]. }
      assert (Hlen' : HeapLen h = n).
      { rewrite (HeapLen_contents _ _ _ Hh') , Hc, map_size_delete, Hk. simpl.
        rewrite <- (HeapLen_contents _ _ _ Hh), Hlen. done. }
      run_step. apply runs_caught. eapply run_activeAdd; [exact _|exact _|exact Ht2|done|].
      intros q3 Ht3 [E3 E3'] [_ B3].
      fold i in Ht3. cbn [ticks broadcasts podBackoffQ setQueue] in E3, E3', B3.
      assert (Ht4 : tracks lessFn init max (tableView (<[i := (Active, pi)]> t)) l c m cl q3).
      { eapply tracks_ext; [|exact Ht3]. by apply (move_view _ Backoff _ pi Active). }
      run_step. eapply runs_modify. run_step. eapply runs_modify.
      eapply IH; [by do 2 apply tracks_counters|by apply tableOk_insert| |].
      { cbn [podBackoffQ setCounters]. rewrite B3, Hlen'. lia. }
      cbn [ticks broadcasts setCounters]. intros tm t' q4 Ht5 Hok' -> Htm Hticks Hb Hsig.
      pose proof (clock_mono (ticks q) (ticks q3)).
      eapply (HΦ tm); [done..| | | | |left; lia]; [|lia..].
      apply completeBackoff_first with (now := now); [done|]. unfold backoffEnds. subst now. lia.
Qed.

Lemma step_FlushBackoff q a : refinesQ q a -> stepOk q a OpFlushBackoff.
Proof.
  intros [Ht Hok].
  eapply (queueStep_intro _ _ _ asDone (flushBackoffQCompleted lessFn init max)); [done|].
  change (runs (flushLoop lessFn init max (S (HeapLen (podBackoffQ q)))) q (fun (x : unit) q' =>
    (exists a', absStep lessFn init max (clockNow (ticks q)) (clockNow (ticks q')) a OpFlushBackoff
      (asDone x) a' /\ refinesQ q' a') /\ ticks q <= ticks q' /\ signals q q')).
  eapply run_flushLoop; [done..|lia|]. intros tm t' q' Ht' Hok' -> Htm ? _ ?. split_and!; [|done..].
  eexists. split; [by eapply (StepFlushBackoff _ _ _ _ _ _ tm)|by eapply refines_intro].
Qed.

Theorem queueStep_refines q a op : refinesQ q a -> validOp op -> stepOk q a op.
Proof.
  intros Hr Hv. destruct op; simpl in Hv.
  - by apply step_Add.
  - by apply step_Requeue.
  - by apply step_Pop.
  - destruct Hv as (?&?&?). by apply step_Update.
  - by apply step_Delete.
  - by apply step_MoveAll.
  - by apply step_AssignedAdded.
  - by apply step_AssignedUpdated.
  - by apply step_FlushBackoff.
  - by apply step_FlushUnschedulable.
  - by apply step_Close.
Qed.

Fixpoint runQueue (q : PriorityQueue) (ops : list queueOp) : list queueReply * PriorityQueue :=
  match ops with
  | [] => ([], q)
  | op :: ops =>
      let '(r, q') := runOp lessFn init max q op in
      let '(rs, q'') := runQueue q' ops in (r :: rs, q'')
  end.

Lemma runQueue_refines ops : forall q a, refinesQ q a -> Forall validOp ops ->
  exists a', absRun lessFn init max (clockNow (ticks q)) a ops (runQueue q ops).1 a'
    (clockNow (ticks (runQueue q ops).2)) /\ refinesQ (runQueue q ops).2 a'.
Proof.
  induction ops as [|op ops IH]; intros q a Hr Hv; [exists a; by split; [constructor|]|].
  apply Forall_cons in Hv as [Hop Hv]. destruct (queueStep_refines q a op Hr Hop) as [(a1&Habs&Hr1) Hticks _].
  cbn [runQueue]. destruct (runOp lessFn init max q op) as [r q1]. cbn [fst snd] in *.
  destruct (IH q1 a1 Hr1 Hv) as (a2&Hrun&Hr2). destruct (runQueue q1 ops) as [rs q2]. cbn [fst snd] in *.
  exists a2. split; [|done]. econstructor; [|done..]. by apply clock_mono.
Qed.

Lemma runQueue_app ops1 ops2 : forall q,
  runQueue q (ops1 ++ ops2) =
  ((runQueue q ops1).1 ++ (runQueue (runQueue q ops1).2 ops2).1, (runQueue (runQueue q ops1).2 ops2).2).
Proof.
  induction ops1 as [|op ops1 IH]; intros q; [by apply surjective_pairing|]. cbn [runQueue app].
  destruct (runOp lessFn init max q op) as [r q1]. rewrite IH. by destruct (runQueue q1 ops1).
Qed.

Lemma refines_New : refinesQ (NewPriorityQueue None) emptyQueue.
Proof.
  split; [|by intros i pl pi ?]. split; [| |apply nominates_New|done..].
  - split.
    + by apply heapInv_New.
    + by apply heapInv_New.
    + by intros k pi ?.
    + cbn [activeQ podBackoffQ NewPriorityQueue]. unfold allValid. rewrite !contents_New.
      split_and!; by apply map_Forall_empty.
    + cbn [activeQ podBackoffQ NewPriorityQueue]. unfold gaugeOk. by rewrite !contents_New.
  - intros pl p _. unfold tableView. cbn [aPods emptyQueue]. rewrite lookup_empty.
    destruct pl; [| |by apply lookup_empty];
      cbn [look activeQ podBackoffQ NewPriorityQueue]; rewrite contents_New; unfold keyed;
      (destruct (MetaNamespaceKeyFunc p); [bind_simpl; by rewrite lookup_empty|done]).
Qed.

(** A state that some calls on a new queue lead to. *)
Lemma reachable_refines ops : Forall validOp ops ->
  exists a, refinesQ (runQueue (NewPriorityQueue None) ops).2 a.
Proof. intros Hv. destruct (runQueue_refines ops _ _ refines_New Hv) as (a&_&?). by exists a. Qed.
End StepLemmas.

(** ** The order of the scheduler *)
#[export] Instance PrioritySort_StrictWeak `{PodPriority} : StrictWeak PrioritySort_Less.
Proof. split; unfold GoHeap.le, PrioritySort_Less; intros *; lia. Qed.
