(* ===== verification/QueueTheorems.v ===== *)
(** * Properties of the scheduling queue

    What a scheduler can rely on, for every sequence of valid calls on a new
    queue: the state machine of the pending pods, the order of [Pop], the wake-up
    of a waiting [Pop], move requests, the end of the backoff and the list of
    pending pods; each with a run on concrete pods. *)
From Stdlib Require Import Ascii.
From S2P Require Import Prelude GoHeap Api Heap NodeInfo Nominator PriorityQueue QueueSpec.
Local Open Scope go_scope.

(** ** Lemmas on runs of the state machine *)
Section Cycles.
Context `{LabelsLib} (lessFn : QueuedPodInfo -> QueuedPodInfo -> bool) (init max : Z).
Local Open Scope Z_scope.

(** One step counts at most one cycle, and a move request records the current one. *)
Lemma absStep_cycles t0 t1 a op r a' :
  absStep lessFn init max t0 t1 a op r a' -> 0 <= aCycle a < max_int64 ->
  aCycle a <= aCycle a' <= aCycle a + 1 /\
  (aMoveCycle a' = aMoveCycle a \/ aMoveCycle a' = aCycle a) /\
  (moveSelector op <> None -> aMoveCycle a' = aCycle a).
Proof.
  intros Hs Hc. destruct Hs; cbn [aCycle aMoveCycle become becomeMoved moveSelector];
    try (split_and!; [lia|lia|tauto|done]).
  - rewrite wrap64_id by (unfold in_int64, min_int64 in *; lia). split_and!; [lia|lia|tauto|done].
  - case_decide; cbn [aCycle aMoveCycle becomeMoved]; (split_and!; [lia|lia|tauto|done]).
Qed.

Lemma absRun_cycles t a ops rs a' t' :
  absRun lessFn init max t a ops rs a' t' -> 0 <= aCycle a -> aCycle a + Z.of_nat (length ops) <= max_int64 ->
  aCycle a <= aCycle a' <= aCycle a + Z.of_nat (length ops) /\
  (forall c, c <= aCycle a -> c <= aMoveCycle a -> c <= aMoveCycle a') /\
  (forall op, op ∈ ops -> moveSelector op <> None -> aCycle a <= aMoveCycle a').
Proof.
  induction 1 as [t a|t t1 t2 a a1 a2 op r ops rs Ht Hs Hrun IH]; intros H0 Hlen.
  - split_and!; try (simpl; lia); try done. set_solver.
  - cbn [length] in *. destruct (absStep_cycles _ _ _ _ _ _ Hs) as (Hc&Hm&Hsel); [lia|].
    destruct IH as (Hc2&Hkeep&Hmove); [lia..|]. split_and!; [lia|lia| |].
    + intros c ? ?. apply Hkeep; lia.
    + intros op' [->|Hin]%elem_of_cons Hop'.
      * apply Hkeep; [lia|]. rewrite Hsel by done. lia.
      * specialize (Hmove _ Hin Hop'). lia.
Qed.
End Cycles.

(** More fuel than needed changes nothing. *)
Lemma flushLoop_more `{KeyLib, Environment} lessFn init max fuel : forall fuel' q q',
  flushLoop lessFn init max fuel q = (Ok tt, q') -> fuel <= fuel' ->
  flushLoop lessFn init max fuel' q = (Ok tt, q').
Proof.
  induction fuel as [|fuel IH]; intros [|fuel'] q q'; [done|done|lia|]. intros Hq Hle.
  cbn [flushLoop] in *. unfold mbind, stateM_bind, get in *.
  destruct (Heap.Peek (podBackoffQ q)) as [[pi|]|]; [|done|done].
  unfold Now in *. destruct (_ <? getBackoffTime init max pi)%Z; [done|].
  destruct (Heap.Pop _ _) as [[o|e|] h]; try done.
  unfold incoming, broadcast, modify in *. cbv beta iota in *.
  destruct (caught (activeAdd lessFn pi) _) as [[e|e|] q2]; try done.
  eapply IH; [exact Hq|lia].
Qed.

(** ** Listing the table *)
Section Listing.
Context `{KeyLib, Environment, LabelsLib, !KeyLaws, !EnvironmentLaws}
  (lessFn : QueuedPodInfo -> QueuedPodInfo -> bool) (init max : Z).

(** [infos] are the pods of one place of the table. *)
Definition lists (pl : place) (t : podTable) (infos : list QueuedPodInfo) : Prop :=
  NoDup (podId ∘ qp_Pod <$> infos) /\
  forall pi, pi ∈ infos <-> t !! podId (qp_Pod pi) = Some (pl, pi).

Lemma heap_lists q t l c m cl pl h less :
  tracks lessFn init max (tableView t) l c m cl q -> tableOk t ->
  (forall p, look q pl p = keyed (contents h) p) ->
  heapInv podInfoKeyFunc less h -> allValid (contents h) -> lists pl t (Heap.List h).
Proof.
  intros Ht Hok Hl Hh Hv. rewrite List_contents. split.
  - rewrite <- list_fmap_compose. apply NoDup_fmap_2_strong; [|apply NoDup_map_to_list].
    intros [k1 p1] [k2 p2] Hm1%elem_of_map_to_list Hm2%elem_of_map_to_list E. cbn in E.
    rewrite <- key_inj in E by (eapply proj1, Hv; done).
    pose proof (contents_key _ _ _ _ _ Hh Hm1) as Hk1. pose proof (contents_key _ _ _ _ _ Hh Hm2) as Hk2.
    unfold podInfoKeyFunc in *. congruence.
  - intros pi. rewrite (place_contents lessFn init max q t l c m cl pl h less _ pi Ht Hok Hl Hh Hv).
    rewrite list_elem_of_fmap. split.
    + intros ([k p]&->&Hk%elem_of_map_to_list). eauto.
    + intros [_ [k Hk]]. exists (k, pi). split; [done|]. by apply elem_of_map_to_list.
Qed.

Lemma lists_disjoint pl pl' t l l' : pl <> pl' -> lists pl t l -> lists pl' t l' ->
  forall i, i ∈ podId ∘ qp_Pod <$> l -> i ∉ podId ∘ qp_Pod <$> l'.
Proof.
  intros Hne [_ Hl] [_ Hl'] i (pi&->&Hpi%Hl)%list_elem_of_fmap (pi'&E&Hpi'%Hl')%list_elem_of_fmap.
  cbn in E. rewrite E, Hpi' in Hpi. congruence.
Qed.

Lemma table_ids t : tableOk t -> podId ∘ qp_Pod <$> (map_to_list t).*2.*2 = (map_to_list t).*1.
Proof.
  intros Hok. rewrite <- !list_fmap_compose. apply list_fmap_ext. intros j [i [pl pi]] Hj.
  apply list_elem_of_lookup_2, elem_of_map_to_list in Hj. cbn. apply (Hok _ _ _ Hj).
Qed.

Lemma lists_all t la lb lu : tableOk t ->
  lists Active t la -> lists Backoff t lb -> lists Unschedulable t lu ->
  la ++ lb ++ lu ≡ₚ (map_to_list t).*2.*2.
Proof.
  intros Hok Ha Hb Hu. apply NoDup_Permutation.
  - apply (NoDup_fmap_1 (podId ∘ qp_Pod)). rewrite !fmap_app.
    repeat (apply NoDup_app; split_and!); try apply Ha; try apply Hb; try apply Hu.
    + intros i Hi [Hi'|Hi']%elem_of_app; [by eapply (lists_disjoint Active Backoff)|by eapply (lists_disjoint Active Unschedulable)].
    + intros i Hi Hi'. by eapply (lists_disjoint Backoff Unschedulable).
  - apply (NoDup_fmap_1 (podId ∘ qp_Pod)). rewrite table_ids by done. apply NoDup_fst_map_to_list.
  - intros pi. rewrite !elem_of_app, (proj2 Ha), (proj2 Hb), (proj2 Hu). split.
    + intros Hpi. assert (exists pl, t !! podId (qp_Pod pi) = Some (pl, pi)) as [pl Hl] by naive_solver.
      apply list_elem_of_fmap. exists (pl, pi). split; [done|]. apply list_elem_of_fmap.
      exists (podId (qp_Pod pi), (pl, pi)). split; [done|]. by apply elem_of_map_to_list.
    + intros ([pl pi']&->&([i e]&->&Hi)%list_elem_of_fmap)%list_elem_of_fmap.
      apply elem_of_map_to_list in Hi. cbn in *. destruct e as [pl' pi]. simplify_eq.
      destruct (Hok _ _ _ Hi) as [<- _]. cbn [snd]. rewrite Hi. destruct pl'; naive_solver.
Qed.
End Listing.

(** ** Properties *)
Section Properties.
Context `{KeyLib, Environment, LabelsLib, !KeyLaws, !EnvironmentLaws}
  (lessFn : QueuedPodInfo -> QueuedPodInfo -> bool) `{!StrictWeak lessFn} (init max : Z).

(** The queue that the calls [ops] on a new one leave. *)
Definition queueAfter (ops : list queueOp) : PriorityQueue :=
  (runQueue lessFn init max (NewPriorityQueue None) ops).2.

(** C6. The queue implements one table of pending pods: for every sequence of valid
    calls and every clock, the replies are those of the state machine in which a pod is
    active, backing off, unschedulable or absent, and the three sub-queues, the
    nominations and the cycle counters show exactly its state - so no pod is lost, and
    none is in two sub-queues.  In the table, as in the code, an update of a pod that is
    backing off makes it active; a comment in [Update] says that it is updated where it is.
    A call is valid when the names and namespaces of its pods have neither of the separators
    of keys, their affinity terms can be parsed, and an update keeps both names.  Every call returns (the loops end), and only a second
    [Close] panics. *)
Theorem queue_refines_pod_table (ops : list queueOp) :
  Forall validOp ops ->
  exists a t, absRun lessFn init max (clockNow 0) emptyQueue ops
      (runQueue lessFn init max (NewPriorityQueue None) ops).1 a t /\
    refines lessFn init max (queueAfter ops) a.
Proof.
  intros Hv. destruct (runQueue_refines lessFn init max ops _ _ (refines_New lessFn init max) Hv)
    as (a&?&?). by exists a, (clockNow (ticks (queueAfter ops))).
Qed.

(** C7. No wake-up is lost: whenever a call makes the active queue non-empty, it has
    signalled the condition variable on which [Pop] waits. *)
Theorem queue_wakes_pop (ops : list queueOp) (op : queueOp) :
  Forall validOp (ops ++ [op]) ->
  let q := queueAfter ops in
  let q' := queueAfter (ops ++ [op]) in
  HeapLen (activeQ q) = 0 -> 0 < HeapLen (activeQ q') -> broadcasts q < broadcasts q'.
Proof.
  intros [Hv [Hop _]%Forall_cons]%Forall_app. cbv zeta. unfold queueAfter. rewrite runQueue_app. cbn [snd].
  destruct (reachable_refines lessFn init max ops Hv) as [a Hr].
  destruct (queueStep_refines lessFn init max _ _ op Hr Hop) as [_ _ Hs].
  cbn [runQueue]. destruct (runOp lessFn init max _ op) as [r q']. cbn [snd] in *.
  intros. destruct Hs; lia.
Qed.

(** A move request is never missed: a pod whose scheduling cycle began before a
    request to move pods goes to the backoff queue when it is put back, however many
    calls came in between, so that it is tried again without waiting for another event. *)
Theorem queue_honours_move_requests (ops1 ops2 : list queueOp) (pi : QueuedPodInfo) (c : Z) (op : queueOp) :
  Forall validOp (ops1 ++ ops2) -> validPod (qp_Pod pi) ->
  (Z.of_nat (length (ops1 ++ ops2)) < max_int64)%Z ->
  (c <= schedulingCycle (queueAfter ops1))%Z ->
  op ∈ ops2 -> moveSelector op <> None ->
  let q := queueAfter (ops1 ++ ops2) in
  let step := runOp lessFn init max q (OpRequeue pi c) in
  step.1 = Done ->
  is_Some (look step.2 Backoff (qp_Pod pi)) /\ look step.2 Unschedulable (qp_Pod pi) = None.
Proof.
  intros [Hv1 Hv2]%Forall_app Hpi Hlen Hc Hin Hop. cbv zeta. unfold queueAfter in *.
  rewrite length_app in Hlen. rewrite runQueue_app. cbn [snd].
  destruct (runQueue_refines lessFn init max ops1 _ _ (refines_New lessFn init max) Hv1) as (a1&Hrun1&Hr1).
  set (q1 := (runQueue lessFn init max (NewPriorityQueue None) ops1).2) in *.
  destruct (runQueue_refines lessFn init max ops2 _ _ Hr1 Hv2) as (a2&Hrun2&Hr2).
  destruct (absRun_cycles _ _ _ _ _ _ _ _ _ Hrun1) as [Hc1 _]; [simpl; lia|simpl; lia|]. cbn [aCycle emptyQueue] in Hc1.
  destruct (absRun_cycles _ _ _ _ _ _ _ _ _ Hrun2) as (Hc2&_&Hmove); [lia..|].
  rewrite (tr_cycle _ _ _ _ _ _ _ _ _ (ref_tracks _ _ _ _ _ Hr1)) in Hc.
  specialize (Hmove _ Hin Hop). set (q2 := (runQueue lessFn init max q1 ops2).2) in *.
  destruct (queueStep_refines lessFn init max _ _ (OpRequeue pi c) Hr2 Hpi) as [(a3&Habs&Hr3) _ _].
  intros Hdone. rewrite Hdone in Habs.
  inversion Habs as [| | | | | | | |? ? ? Hsel| | | |]; subst; [|by inversion Hsel].
  rewrite !(tr_shows _ _ _ _ _ _ _ _ _ (ref_tracks _ _ _ _ _ Hr3)) by exact (proj1 Hpi).
  cbn [aPods become]. rewrite (proj2 (Z.leb_le _ _)) by lia.
  rewrite !tableView_insert, !(decide_True (P := podId _ = _)) by done. split; [by eexists|done].
Qed.

(** [PendingPods] lists every pod of the table exactly once. *)
Theorem queue_pending_pods (ops : list queueOp) :
  Forall validOp ops ->
  exists a t l, absRun lessFn init max (clockNow 0) emptyQueue ops
      (runQueue lessFn init max (NewPriorityQueue None) ops).1 a t /\
    (PendingPods (queueAfter ops)).1 = Ok l /\
    l ≡ₚ qp_Pod <$> (map_to_list (aPods a)).*2.*2 /\ NoDup (podId <$> l).
Proof.
  intros Hv. destruct (runQueue_refines lessFn init max ops _ _ (refines_New lessFn init max) Hv)
    as (a&Hrun&[Ht Hok]). fold (queueAfter ops) in *. set (q := queueAfter ops) in *.
  eexists a, _, _. split_and!; [exact Hrun|reflexivity|..].
  all: destruct (tr_wf _ _ _ _ _ _ _ _ _ Ht) as [Ha Hb _ (Hva&Hvb&_) _].
  all: rewrite <- !fmap_app, (lists_all lessFn (aPods a) (Heap.List (activeQ q)) (Heap.List (podBackoffQ q))); try done.
  all: try (by eapply heap_lists); try (by eapply infos_covers).
  rewrite <- list_fmap_compose, table_ids by done. apply NoDup_fst_map_to_list.
Qed.
End Properties.

Section Flush.
Context `{KeyLib, Environment, LabelsLib, !KeyLaws, !EnvironmentLaws}
  (lessFn : QueuedPodInfo -> QueuedPodInfo -> bool) `{!StrictWeak lessFn} (init max : Z).

(** [flushBackoffQCompleted] terminates: one iteration per waiting pod and one
    more are enough, more change nothing; there is a time of the call at which the pods
    whose backoff had ended are exactly those that it made active. *)
Theorem flush_backoff_terminates (ops : list queueOp) :
  Forall validOp ops ->
  let q := queueAfter lessFn init max ops in
  exists q' tm,
    (forall fuel, HeapLen (podBackoffQ q) < fuel -> flushLoop lessFn init max fuel q = (Ok tt, q')) /\
    (clockNow (ticks q) <= tm <= clockNow (ticks q'))%Z /\
    forall p, named p ->
      look q' Backoff p = (pi ← look q Backoff p;
        if (tm <? getBackoffTime init max pi)%Z then Some pi else None) /\
      look q' Active p = match look q Backoff p with
        | Some pi => if (tm <? getBackoffTime init max pi)%Z then None else Some pi
        | None => look q Active p
        end.
Proof.
  intros Hv. cbv zeta. unfold queueAfter.
  destruct (reachable_refines lessFn init max ops Hv) as [a [Ht Hok]].
  set (q := (runQueue _ _ _ _ _).2) in *.
  destruct (run_flushLoop lessFn init max (S (HeapLen (podBackoffQ q))) _ _ _ _ _ q
    (fun _ q' => exists tm, (clockNow (ticks q) <= tm <= clockNow (ticks q'))%Z /\
      shows q' (tableView (completeBackoff init max tm <$> aPods a))) Ht Hok) as ([]&q'&Hq&tm&Htm&Hs); [lia| |].
  { intros tm t' q' Ht' _ -> Htm _ _ _. exists tm. split; [done|apply Ht']. }
  exists q', tm. split_and!; [|lia|lia|].
  { intros fuel Hf. eapply flushLoop_more; [exact Hq|lia]. }
  intros p Hp. rewrite !Hs, !(tr_shows _ _ _ _ _ _ _ _ _ Ht) by done. unfold tableView. rewrite lookup_fmap.
  destruct (aPods a !! podId p) as [[[] pi]|]; simpl; try done.
  unfold backoffEnds. by destruct (tm <? getBackoffTime init max pi)%Z.
Qed.
End Flush.

(** [Pop] with the scheduler's order returns an active pod of the highest priority,
    and the one waiting longest among those.  With the [GetPodPriority] of this
    repository, which is 0 for every pod, that is the pod waiting longest, whatever its
    priority. *)
Theorem pop_follows_priority_sort `{KeyLib, Environment, LabelsLib, !KeyLaws, !EnvironmentLaws, PP : PodPriority}
    (init max : Z) (ops : list queueOp) (pi : QueuedPodInfo) :
  Forall validOp ops ->
  let q := queueAfter PrioritySort_Less init max ops in
  (runOp PrioritySort_Less init max q OpPop).1 = Got pi ->
  forall p pi', named p -> look q Active p = Some pi' ->
    (GetPodPriority (qp_Pod pi') < GetPodPriority (qp_Pod pi) \/
      GetPodPriority (qp_Pod pi') = GetPodPriority (qp_Pod pi) /\ Timestamp pi <= Timestamp pi')%Z /\
    (PP = codePodPriority -> (Timestamp pi <= Timestamp pi')%Z).
Proof.
  intros Hv. cbv zeta. unfold queueAfter.
  destruct (reachable_refines PrioritySort_Less init max ops Hv) as [a Hr].
  set (q := (runQueue _ _ _ _ _).2) in *. intros Hgot p pi' Hp Hl.
  destruct (queueStep_refines PrioritySort_Less init max q a OpPop Hr I) as [(a'&Habs&_) _ _].
  rewrite (tr_shows _ _ _ _ _ _ _ _ _ (ref_tracks _ _ _ _ _ Hr)), tableView_Some in Hl by done.
  rewrite Hgot in Habs. inversion Habs as [| | |i pi0 Hact Hmin| | | | | | | | |]; subst.
  - specialize (Hmin _ _ Hl). unfold PrioritySort_Less in Hmin. cbn [qp_Pod Timestamp withAttempts].
    split; [lia|]. intros ->. unfold GetPodPriority, codePodPriority in *. lia.
  - destruct (aClosed a'); done.
Qed.

(** ** Witnesses *)

(** Keys as client-go makes them: the namespace, when there is one, and the name. *)
Definition exampleKeys : KeyLib := fun p => Some
  (if decide (pod_Namespace p = "") then pod_Name p
   else String.append (pod_Namespace p) (String "/"%char (pod_Name p))).

(** One second per reading; maps are iterated backwards. *)
Definition exampleEnvironment : Environment :=
  {| clockNow n := (Z.of_nat n * 1000000000)%Z; mapOrder _ l := reverse l |}.

#[local] Existing Instance exampleKeys.
#[local] Existing Instance exampleEnvironment.
#[local] Existing Instance exampleLabels.
#[local] Existing Instance codePodPriority.

Lemma not_lacks_join c a b : ~ lacks c (String.append a (String c b)).
Proof.
  unfold lacks. intros Hl. apply Hl. clear Hl.
  induction a as [|x a IH]; simpl; set_solver.
Qed.

#[export] Instance exampleKeys_laws : KeyLaws.
Proof.
  split; [intros p _; by eexists|]. intros p q [[_ Hp] [_ Hpn]] [[_ Hq] [_ Hqn]].
  unfold MetaNamespaceKeyFunc, exampleKeys, podId.
  split; [|by intros [= -> ->]]. intros [= E]. do 2 case_decide; try congruence.
  - exfalso. rewrite E in Hp. by apply not_lacks_join in Hp.
  - exfalso. rewrite <- E in Hq. by apply not_lacks_join in Hq.
  - by apply join_inj in E as [-> ->].
Qed.

#[export] Instance exampleEnvironment_laws : EnvironmentLaws.
Proof.
  split; [intros n m ?; cbn; lia|]. intros n l. apply reverse_Permutation.
Qed.

Definition podA : Pod := simplePod "a" "ns" "uid-a" "" [].
Definition podB : Pod := simplePod "b" "ns" "uid-b" "" [].

Lemma exampleNamed p : p ∈ [podA; podB] -> named p.
Proof.
  intros [->|[->|[]%elem_of_nil]%elem_of_cons]%elem_of_cons;
    (split; split; apply (bool_decide_unpack _); vm_compute; exact I).
Qed.

Lemma exampleValid p : p ∈ [podA; podB] -> validPod p.
Proof.
  intros Hp. split; [by apply exampleNamed|].
  apply elem_of_cons in Hp as [->|[->|[]%elem_of_nil]%elem_of_cons]; constructor.
Qed.

Definition exampleCalls : list queueOp :=
  [OpAdd podA; OpAdd podB; OpPop; OpMoveAll "NodeAdd";
   OpRequeue {| qp_Pod := podA; Timestamp := 0; Attempts := 1; InitialAttemptTimestamp := 0 |} 1;
   OpFlushBackoff; OpFlushBackoff; OpUpdate podB podB; OpDelete podA; OpPop; OpPop; OpClose; OpClose].

Lemma exampleCalls_valid : Forall validOp exampleCalls.
Proof. repeat constructor; try (apply exampleValid; set_solver); apply exampleNamed; set_solver. Qed.

Abbreviation exampleRun ops :=
  (runQueue PrioritySort_Less DefaultPodInitialBackoffDuration DefaultPodMaxBackoffDuration
     (NewPriorityQueue None) ops).
Abbreviation exampleAfter ops :=
  (queueAfter PrioritySort_Less DefaultPodInitialBackoffDuration DefaultPodMaxBackoffDuration ops).

Definition exampleReplies : list queueReply :=
  [Done; Done;
   Got {| qp_Pod := podA; Timestamp := 0; Attempts := 1; InitialAttemptTimestamp := 0 |};
   Done; Done; Done; Done; Done; Done;
   Got {| qp_Pod := podB; Timestamp := 1000000000; Attempts := 1; InitialAttemptTimestamp := 1000000000 |};
   Waits; Done; Crashed].

Example exampleCalls_replies : (exampleRun exampleCalls).1 = exampleReplies.
Proof. vm_compute. reflexivity. Qed.

Lemma queue_refines_pod_table_witness :
  exists a t, absRun PrioritySort_Less DefaultPodInitialBackoffDuration DefaultPodMaxBackoffDuration
      0 emptyQueue exampleCalls exampleReplies a t /\
    refines PrioritySort_Less DefaultPodInitialBackoffDuration DefaultPodMaxBackoffDuration
      (exampleAfter exampleCalls) a.
Proof.
  rewrite <- exampleCalls_replies.
  exact (queue_refines_pod_table PrioritySort_Less DefaultPodInitialBackoffDuration
    DefaultPodMaxBackoffDuration exampleCalls exampleCalls_valid).
Defined.

Lemma queue_wakes_pop_witness : broadcasts (exampleAfter []) < broadcasts (exampleAfter [OpAdd podA]).
Proof.
  apply (queue_wakes_pop PrioritySort_Less DefaultPodInitialBackoffDuration
    DefaultPodMaxBackoffDuration [] (OpAdd podA)).
  - repeat constructor; apply exampleNamed; set_solver.
  - reflexivity.
  - vm_compute. lia.
Defined.

Lemma queue_honours_move_requests_witness :
  let step := runOp PrioritySort_Less DefaultPodInitialBackoffDuration DefaultPodMaxBackoffDuration
    (exampleAfter (take 3 exampleCalls ++ [OpMoveAll "NodeAdd"]))
    (OpRequeue {| qp_Pod := podA; Timestamp := 0; Attempts := 1; InitialAttemptTimestamp := 0 |} 1) in
  step.1 = Done /\ is_Some (look step.2 Backoff podA) /\ look step.2 Unschedulable podA = None.
Proof.
  cbv zeta. split; [vm_compute; reflexivity|].
  apply (queue_honours_move_requests PrioritySort_Less DefaultPodInitialBackoffDuration
    DefaultPodMaxBackoffDuration (take 3 exampleCalls) [OpMoveAll "NodeAdd"]
    {| qp_Pod := podA; Timestamp := 0; Attempts := 1; InitialAttemptTimestamp := 0 |} 1 (OpMoveAll "NodeAdd")).
  - repeat constructor; apply exampleNamed; set_solver.
  - apply exampleValid; set_solver.
  - vm_compute. reflexivity.
  - vm_compute. discriminate.
  - set_solver.
  - discriminate.
  - vm_compute. reflexivity.
Defined.

Lemma queue_pending_pods_witness :
  exists l, (PendingPods (exampleAfter (take 2 exampleCalls))).1 = Ok l /\ NoDup (podId <$> l).
Proof.
  destruct (queue_pending_pods PrioritySort_Less DefaultPodInitialBackoffDuration
    DefaultPodMaxBackoffDuration (take 2 exampleCalls)) as (a&t&l&_&Hl&_&Hnd).
  - repeat constructor; apply exampleNamed; set_solver.
  - exists l. split; [exact Hl|exact Hnd].
Defined.

Lemma flush_backoff_terminates_witness :
  exists q', flushLoop PrioritySort_Less DefaultPodInitialBackoffDuration DefaultPodMaxBackoffDuration 2
    (exampleAfter (take 5 exampleCalls)) = (Ok tt, q').
Proof.
  destruct (flush_backoff_terminates PrioritySort_Less DefaultPodInitialBackoffDuration
    DefaultPodMaxBackoffDuration (take 5 exampleCalls)) as (q'&tm&Hq&_).
  - repeat constructor; try (apply exampleValid; set_solver); apply exampleNamed; set_solver.
  - exists q'. apply Hq. vm_compute. lia.
Defined.

Definition infoA : QueuedPodInfo :=
  {| qp_Pod := podA; Timestamp := 0; Attempts := 1; InitialAttemptTimestamp := 0 |}.
Definition infoB : QueuedPodInfo :=
  {| qp_Pod := podB; Timestamp := 1000000000; Attempts := 0; InitialAttemptTimestamp := 1000000000 |}.

Lemma pop_follows_priority_sort_witness : (Timestamp infoA <= Timestamp infoB)%Z.
Proof.
  apply (pop_follows_priority_sort DefaultPodInitialBackoffDuration DefaultPodMaxBackoffDuration
    (take 2 exampleCalls) infoA) with (p := podB).
  - repeat constructor; apply exampleNamed; set_solver.
  - vm_compute. reflexivity.
  - apply exampleNamed; set_solver.
  - vm_compute. reflexivity.
  - reflexivity.
Defined.
