(* ===== verification/Framework.v ===== *)
(** * The scheduling framework (framework/v1alpha1/interface.go, cycle_state.go;
    framework/runtime/framework.go)

    The status of a plugin, the state of a scheduling cycle and the functions that
    run the configured plugins of the filter and score extension points.  A plugin
    is known by its methods.  The timers and metrics of the runtime do not change
    what it returns and are left out. *)
From stdpp Require Import pretty.
From S2P Require Import Prelude Api NodeInfo.
Local Open Scope go_scope.

(** ** Status *)
Inductive Code := Success | Error | Unschedulable | UnschedulableAndUnresolvable | Wait | Skip.
#[export] Instance Code_eq : EqDecision Code.
Proof. solve_decision. Defined.

(** The names of the codes, in the order of their values. *)
Definition CodeString (c : Code) : string :=
  match c with
  | Success => "Success" | Error => "Error" | Unschedulable => "Unschedulable"
  | UnschedulableAndUnresolvable => "UnschedulableAndUnresolvable" | Wait => "Wait" | Skip => "Skip"
  end.

Record StatusRecord := { code : Code; reasons : list string }.
#[export] Instance StatusRecord_eq : EqDecision StatusRecord.
Proof. solve_decision. Defined.

(** A [*Status]; nil is [None]. *)
Abbreviation Status := (option StatusRecord).

Definition StatusCode (s : Status) : Code := match s with None => Success | Some s => code s end.

(** [strings.Join] with a comma. *)
Definition Message (s : Status) : string :=
  match s with None => "" | Some s => String.concat ", " (reasons s) end.

(** Reading or changing the reasons of a nil status panics. *)
Definition Reasons (s : Status) : option (list string) := reasons <$> s.
Definition AppendReason (s : Status) (reason : string) : option Status :=
  match s with None => None | Some s => Some (Some {| code := code s; reasons := reasons s ++ [reason] |}) end.

Definition IsSuccess (s : Status) : bool := bool_decide (StatusCode s = Success).
Definition IsUnschedulable (s : Status) : bool :=
  bool_decide (StatusCode s = Unschedulable \/ StatusCode s = UnschedulableAndUnresolvable).
Definition AsError (s : Status) : option string := if IsSuccess s then None else Some (Message s).
Definition NewStatus (c : Code) (rs : list string) : Status := Some {| code := c; reasons := rs |}.

(** *** Merging the statuses of several plugins *)
Record mergeState := {
  finalStatus : StatusRecord;
  hasError : bool;
  hasUnschedulableAndUnresolvable : bool;
  hasUnschedulable : bool
}.

(** One iteration of the loop of [Merge]; the reasons of a nil status panic. *)
Definition mergeOne (m : mergeState) (s : Status) : option mergeState :=
  let c := StatusCode s in
  match s with
  | None => None
  | Some r =>
      Some {| finalStatus := {| code := c; reasons := reasons (finalStatus m) ++ reasons r |};
              hasError := hasError m || bool_decide (c = Error);
              hasUnschedulableAndUnresolvable :=
                hasUnschedulableAndUnresolvable m || bool_decide (c = UnschedulableAndUnresolvable);
              hasUnschedulable := hasUnschedulable m || bool_decide (c = Unschedulable) |}
  end.

Fixpoint mergeLoop (m : mergeState) (statuses : list Status) : option mergeState :=
  match statuses with
  | [] => Some m
  | s :: statuses => m' ← mergeOne m s; mergeLoop m' statuses
  end.

(** [Merge] of the statuses of a [PluginToStatus] in the order in which Go iterates
    over it; [None] is a panic. *)
Definition Merge (statuses : list Status) : option Status :=
  match statuses with
  | [] => Some None
  | _ =>
      m ← mergeLoop {| finalStatus := {| code := Success; reasons := [] |}; hasError := false;
                       hasUnschedulableAndUnresolvable := false; hasUnschedulable := false |} statuses;
      Some (Some {|
        code := if hasError m then Error
                else if hasUnschedulableAndUnresolvable m then UnschedulableAndUnresolvable
                else if hasUnschedulable m then Unschedulable
                else code (finalStatus m);
        reasons := reasons (finalStatus m) |})
  end.

(** ** Scores *)
Definition MaxNodeScore : Z := 100.
Definition MinNodeScore : Z := 0.
Definition MaxTotalScore : Z := max_int64.

Record NodeScore := { score_Name : string; Score : Z }.
#[export] Instance NodeScore_eq : EqDecision NodeScore.
Proof. solve_decision. Defined.
Abbreviation NodeScoreList := (list NodeScore).
Abbreviation PluginToNodeScores := (gmap string NodeScoreList).

(** ** The state of a scheduling cycle

    The data that plugins store is known by its method [Clone]. *)
Class StateData : Type := { dataOf : Type; CloneData : dataOf -> dataOf }.

Abbreviation CycleState := (gmap string dataOf).

Section CycleState.
Context `{StateData}.
Definition NewCycleState : CycleState := ∅.
Definition CloneState (c : CycleState) : CycleState :=
  map_fold (fun k v copy => <[k := CloneData v]> copy) NewCycleState c.
(** A missing key is an error. *)
Definition Read (c : CycleState) (key : string) : option dataOf := c !! key.
Definition Write (c : CycleState) (key : string) (val : dataOf) : CycleState := <[key := val]> c.
Definition DeleteKey (c : CycleState) (key : string) : CycleState := delete key c.
End CycleState.

(** ** Messages

    [%q] puts a name between quotation marks; the names of pods, plugins and nodes
    hold no character that it would escape. *)
Definition quoted (s : string) : string :=
  let mark := String (Ascii.ascii_of_nat 34) EmptyString in
  String.append mark (String.append s mark).

(** ** Plugins, by the methods of their interfaces *)
Section Plugins.
Context `{StateData}.

Record PreFilterExtensions := {
  ext_AddPod : CycleState -> Pod -> Pod -> NodeInfo -> Status * CycleState;
  ext_RemovePod : CycleState -> Pod -> Pod -> NodeInfo -> Status * CycleState
}.
Record PreFilterPlugin := {
  prefilter_Name : string;
  PreFilter : CycleState -> Pod -> Status * CycleState;
  Extensions : option PreFilterExtensions
}.
Record FilterPlugin := {
  filter_Name : string;
  Filter : CycleState -> Pod -> NodeInfo -> Status
}.
Record PreScorePlugin := {
  prescore_Name : string;
  PreScore : CycleState -> Pod -> list Node -> Status * CycleState
}.
(** [NormalizeScore] changes the score list in place. *)
Record ScorePlugin := {
  scoreplugin_Name : string;
  ScoreNode : CycleState -> Pod -> string -> Z * Status;
  NormalizeScore : option (CycleState -> Pod -> NodeScoreList -> Status * NodeScoreList)
}.

(** The configured plugins of the filter and score extension points. *)
Record frameworkImpl := {
  preFilterPlugins : list PreFilterPlugin;
  filterPlugins : list FilterPlugin;
  preScorePlugins : list PreScorePlugin;
  scorePlugins : list ScorePlugin;
  pluginNameToWeightMap : gmap string Z;
  runAllFilters : bool
}.

Definition HasFilterPlugins (f : frameworkImpl) : bool := 0 <? length (filterPlugins f).
Definition HasScorePlugins (f : frameworkImpl) : bool := 0 <? length (scorePlugins f).

(** *** Filtering *)
Fixpoint preFilterLoop (pls : list PreFilterPlugin) (state : CycleState) (pod : Pod) : Status * CycleState :=
  match pls with
  | [] => (None, state)
  | pl :: pls =>
      let '(status, state) := PreFilter pl state pod in
      if IsSuccess status then preFilterLoop pls state pod
      else if IsUnschedulable status then (status, state)
      else (NewStatus Error [String.concat "" ["prefilter plugin "; quoted (prefilter_Name pl);
              " failed for pod "; quoted (pod_Name pod); ": "; Message status]], state)
  end.

Definition RunPreFilterPlugins (f : frameworkImpl) : CycleState -> Pod -> Status * CycleState :=
  preFilterLoop (preFilterPlugins f).

(** The loop of the two functions that run the extensions of the prefilter plugins. *)
Fixpoint extensionLoop (call : PreFilterExtensions -> CycleState -> Pod -> Pod -> NodeInfo -> Status * CycleState)
    (what : string) (pls : list PreFilterPlugin) (state : CycleState)
    (podToSchedule other : Pod) (nodeInfo : NodeInfo) : Status * CycleState :=
  match pls with
  | [] => (None, state)
  | pl :: pls =>
      match Extensions pl with
      | None => extensionLoop call what pls state podToSchedule other nodeInfo
      | Some ext =>
          let '(status, state) := call ext state podToSchedule other nodeInfo in
          if IsSuccess status then extensionLoop call what pls state podToSchedule other nodeInfo
          else (NewStatus Error [String.concat "" ["error while running "; what; " for plugin ";
                  quoted (prefilter_Name pl); " while scheduling pod "; quoted (pod_Name podToSchedule); ": ";
                  Message status]],
                state)
      end
  end.

Definition RunPreFilterExtensionAddPod (f : frameworkImpl) :
    CycleState -> Pod -> Pod -> NodeInfo -> Status * CycleState :=
  extensionLoop ext_AddPod "AddPod" (preFilterPlugins f).
Definition RunPreFilterExtensionRemovePod (f : frameworkImpl) :
    CycleState -> Pod -> Pod -> NodeInfo -> Status * CycleState :=
  extensionLoop ext_RemovePod "RemovePod" (preFilterPlugins f).

(** The loop of [RunFilterPlugins], which returns a map from plugin names. *)
Fixpoint filterLoop (all : bool) (pls : list FilterPlugin) (statuses : gmap string Status)
    (state : CycleState) (pod : Pod) (nodeInfo : NodeInfo) : gmap string Status :=
  match pls with
  | [] => statuses
  | pl :: pls =>
      let pluginStatus := Filter pl state pod nodeInfo in
      if IsSuccess pluginStatus then filterLoop all pls statuses state pod nodeInfo
      else if IsUnschedulable pluginStatus then
        let statuses := <[filter_Name pl := pluginStatus]> statuses in
        if all then filterLoop all pls statuses state pod nodeInfo else statuses
      else {[filter_Name pl := NewStatus Error [String.concat "" ["running "; quoted (filter_Name pl);
              " filter plugin for pod "; quoted (pod_Name pod); ": "; Message pluginStatus]]]}
  end.

Definition RunFilterPlugins (f : frameworkImpl) (state : CycleState) (pod : Pod) (nodeInfo : NodeInfo)
    : gmap string Status :=
  filterLoop (runAllFilters f) (filterPlugins f) ∅ state pod nodeInfo.

(** *** Scoring *)
Fixpoint preScoreLoop (pls : list PreScorePlugin) (state : CycleState) (pod : Pod) (nodes : list Node)
    : Status * CycleState :=
  match pls with
  | [] => (None, state)
  | pl :: pls =>
      let '(status, state) := PreScore pl state pod nodes in
      if IsSuccess status then preScoreLoop pls state pod nodes
      else (NewStatus Error [String.concat "" ["error while running "; quoted (prescore_Name pl);
              " prescore plugin for pod "; quoted (pod_Name pod); ": "; Message status]], state)
  end.

Definition RunPreScorePlugins (f : frameworkImpl) :
    CycleState -> Pod -> list Node -> Status * CycleState :=
  preScoreLoop (preScorePlugins f).

(** [parallelize.Until] over the pieces in the order [order] in which they run, with
    an error channel that keeps the first error and cancels the rest. *)
Fixpoint until {S} (order : list nat) (work : nat -> S -> option string * S) (s : S) : option string * S :=
  match order with
  | [] => (None, s)
  | i :: order =>
      match work i s with
      | (Some err, s) => (Some err, s)
      | (None, s) => until order work s
      end
  end.

(** The [Score] of every plugin for one node. *)
Fixpoint scoreOneNode (pls : list ScorePlugin) (state : CycleState) (pod : Pod) (index : nat)
    (nodeName : string) (scores : PluginToNodeScores) : option string * PluginToNodeScores :=
  match pls with
  | [] => (None, scores)
  | pl :: pls =>
      let '(s, status) := ScoreNode pl state pod nodeName in
      if IsSuccess status then
        scoreOneNode pls state pod index nodeName
          (alter <[index := {| score_Name := nodeName; Score := s |}]> (scoreplugin_Name pl) scores)
      else (Some (Message status), scores)
  end.

Definition normalizeOne (pl : ScorePlugin) (state : CycleState) (pod : Pod)
    (scores : PluginToNodeScores) : option string * PluginToNodeScores :=
  match NormalizeScore pl with
  | None => (None, scores)
  | Some normalize =>
      let '(status, l) := normalize state pod (default [] (scores !! scoreplugin_Name pl)) in
      (if IsSuccess status then None
       else Some (String.concat "" ["normalize score plugin "; quoted (scoreplugin_Name pl);
              " failed with error "; Message status]),
       <[scoreplugin_Name pl := l]> scores)
  end.

(** The weighted scores, or the first score that is out of range. *)
Fixpoint weightScores (weight : Z) (l : NodeScoreList) : Z + NodeScoreList :=
  match l with
  | [] => inr []
  | ns :: l =>
      if ((MaxNodeScore <? Score ns) || (Score ns <? MinNodeScore))%Z then inl (Score ns)
      else
        match weightScores weight l with
        | inl bad => inl bad
        | inr l' => inr ({| score_Name := score_Name ns; Score := Score ns *₆₄ weight |} :: l')
        end
  end.

Definition weightOne (f : frameworkImpl) (pl : ScorePlugin) (scores : PluginToNodeScores)
    : option string * PluginToNodeScores :=
  let weight := default 0%Z (pluginNameToWeightMap f !! scoreplugin_Name pl) in
  match weightScores weight (default [] (scores !! scoreplugin_Name pl)) with
  | inl bad =>
      (Some (String.concat "" ["score plugin "; quoted (scoreplugin_Name pl);
         " returns an invalid score "; pretty bad; ", it should in the range of [";
         pretty MinNodeScore; ", "; pretty MaxNodeScore; "] after normalizing"]), scores)
  | inr l => (None, <[scoreplugin_Name pl := l]> scores)
  end.

(** A piece of work on the plugin or node with the given index. *)
Definition onIndex {A S} (l : list A) (work : A -> S -> option string * S) (i : nat) (s : S)
    : option string * S :=
  match l !! i with None => (None, s) | Some a => work a s end.

Definition zeroScore : NodeScore := {| score_Name := ""; Score := 0 |}.

Definition scoreError (phase : string) (pod : Pod) (err : string) : Status :=
  NewStatus Error [String.concat "" [phase; quoted (pod_Name pod); ": "; err]].

(** The three orders are those in which the workers process the pieces. *)
Definition RunScorePlugins (f : frameworkImpl) (orderNodes orderNormalize orderWeight : list nat)
    (state : CycleState) (pod : Pod) (nodes : list Node) : option PluginToNodeScores * Status :=
  let pls := scorePlugins f in
  let empty := foldr (fun pl m => <[scoreplugin_Name pl := replicate (length nodes) zeroScore]> m) ∅ pls in
  match until orderNodes (fun i => onIndex nodes (fun nd =>
          scoreOneNode pls state pod i (node_Name nd)) i) empty with
  | (Some err, _) => (None, scoreError "error while running score plugin for pod " pod err)
  | (None, scores) =>
      match until orderNormalize (onIndex pls (fun pl => normalizeOne pl state pod)) scores with
      | (Some err, _) => (None, scoreError "error while running normalize score plugin for pod " pod err)
      | (None, scores) =>
          match until orderWeight (onIndex pls (weightOne f)) scores with
          | (Some err, _) => (None, scoreError "error while applying score defaultWeights for pod " pod err)
          | (None, scores) => (Some scores, None)
          end
      end
  end.

(** *** The weights of the configured plugins ([NewFramework])

    [plugins] are the needed plugins with their configured weights, in the order in
    which Go iterates over the registry. *)
Fixpoint configureWeights (plugins : list (string * Z)) (totalPriority : Z) (weights : gmap string Z)
    : option (gmap string Z) :=
  match plugins with
  | [] => Some weights
  | (name, configured) :: plugins =>
      let weight := if decide (configured = 0)%Z then 1%Z else configured in
      let weights := <[name := weight]> weights in
      if (MaxTotalScore -₆₄ totalPriority <? weight *₆₄ MaxNodeScore)%Z then None
      else configureWeights plugins (totalPriority +₆₄ (weight *₆₄ MaxNodeScore)) weights
  end.
End Plugins.

(** ** Lemmas *)

(** The loop of [Merge] over statuses that are not nil. *)
Lemma mergeLoop_spec l : forall m, Forall is_Some l ->
  exists m', mergeLoop m l = Some m' /\
    reasons (finalStatus m') = reasons (finalStatus m) ++ (omap id l ≫= reasons) /\
    hasError m' = hasError m || existsb (fun s => bool_decide (StatusCode s = Error)) l /\
    hasUnschedulableAndUnresolvable m' = hasUnschedulableAndUnresolvable m ||
      existsb (fun s => bool_decide (StatusCode s = UnschedulableAndUnresolvable)) l /\
    hasUnschedulable m' = hasUnschedulable m ||
      existsb (fun s => bool_decide (StatusCode s = Unschedulable)) l /\
    code (finalStatus m') = default (code (finalStatus m)) (StatusCode <$> list.last l).
Proof.
  induction l as [|s l IH]; intros m Hl.
  - exists m. simpl. by rewrite app_nil_r, !orb_false_r.
  - apply Forall_cons in Hl as [[r ->] Hl]. cbn [mergeLoop]. unfold mergeOne. bind_simpl.
    edestruct IH as (m'&->&Hr&He&Hu&Hs&Hc); [done|]. exists m'. split; [done|].
    rewrite Hr, He, Hu, Hs, Hc, last_cons. cbn [hasError hasUnschedulable hasUnschedulableAndUnresolvable
      finalStatus reasons code omap list_omap existsb]. rewrite <- !orb_assoc.
    split_and!; try done; [simpl; by rewrite <- app_assoc|by destruct (list.last l)].
Qed.

(** The code that [Merge] settles on, by precedence. *)
Definition worstCode (l : list Status) : Code :=
  if existsb (fun s => bool_decide (StatusCode s = Error)) l then Error
  else if existsb (fun s => bool_decide (StatusCode s = UnschedulableAndUnresolvable)) l
  then UnschedulableAndUnresolvable
  else if existsb (fun s => bool_decide (StatusCode s = Unschedulable)) l then Unschedulable
  else default Success (StatusCode <$> list.last l).

Lemma Merge_spec l : l <> [] -> Forall is_Some l ->
  Merge l = Some (Some {| code := worstCode l; reasons := omap id l ≫= reasons |}).
Proof.
  intros Hne Hl. unfold Merge. destruct l as [|s l]; [done|].
  edestruct (mergeLoop_spec (s :: l)) as (m'&->&Hr&He&Hu&Hs&Hc); [done|]. bind_simpl.
  rewrite Hr, He, Hu, Hs, Hc. done.
Qed.

Lemma existsb_Permutation {A} (f : A -> bool) l l' : l ≡ₚ l' -> existsb f l = existsb f l'.
Proof.
  induction 1; simpl; [done|by f_equal| |congruence].
  by rewrite !orb_assoc, (orb_comm (f _) (f _)).
Qed.

(** A status that makes a node unfit. *)
Definition failing (s : Status) : Prop := IsUnschedulable s = true \/ StatusCode s = Error.

Lemma existsb_code l s c : s ∈ l -> StatusCode s = c ->
  existsb (fun s => bool_decide (StatusCode s = c)) l = true.
Proof. intros Hin Hc. apply existsb_exists. exists s. split; [by apply list_elem_of_In|by apply bool_decide_eq_true]. Qed.

(** Among failing statuses the worst code does not depend on the order. *)
Lemma worstCode_failing l s : s ∈ l -> failing s ->
  worstCode l <> Success /\ forall l', l ≡ₚ l' -> worstCode l' = worstCode l.
Proof.
  intros Hin Hs. unfold failing, IsUnschedulable in Hs. rewrite bool_decide_eq_true in Hs.
  unfold worstCode. split; [|intros l' Hp; rewrite <- !(existsb_Permutation _ _ _ Hp)].
  all: destruct Hs as [[Hc|Hc]|Hc]; rewrite (existsb_code _ _ _ Hin Hc); by repeat case_match.
Qed.

Lemma merge_spec_failing l : l <> [] -> Forall (fun s => is_Some s /\ failing s) l ->
  exists s, Merge l = Some s /\ IsSuccess s = false /\ failing s.
Proof.
  intros Hne Hf. destruct l as [|s l]; [done|]. eexists. split; [apply Merge_spec; [done|]|].
  { eapply Forall_impl; [exact Hf|]. by intros ? []. }
  apply Forall_cons in Hf as [[_ Hs] _].
  destruct (worstCode_failing (s :: l) s) as [Hw _]; [set_solver|done|].
  unfold IsSuccess, failing, IsUnschedulable. rewrite bool_decide_eq_false, bool_decide_eq_true.
  cbn [StatusCode code]. split; [done|].
  unfold failing, IsUnschedulable in Hs. rewrite bool_decide_eq_true in Hs.
  destruct Hs as [[Hc|Hc]|Hc]; pose proof (existsb_code (s :: l) s _ ltac:(set_solver) Hc) as Hex;
    unfold worstCode in *; rewrite Hex; repeat case_match; tauto.
Qed.

(** An invariant of [until]: what holds of the pieces done so far. *)
Lemma until_inv {S} (P : list nat -> S -> Prop) (E : nat -> Prop) (work : nat -> S -> option string * S) :
  forall order done s, P done s ->
  (forall done i s, P done s -> i ∈ order -> i ∉ done ->
    match work i s with (None, s') => P (done ++ [i]) s' | (Some _, _) => E i end) ->
  NoDup (done ++ order) ->
  match until order work s with
  | (None, s') => P (done ++ order) s'
  | (Some _, _) => exists i, i ∈ order /\ E i
  end.
Proof.
  induction order as [|i order IH]; intros done s HP Hstep Hnd; cbn [until]; [by rewrite app_nil_r|].
  assert (Hi : i ∉ done) by (apply NoDup_app in Hnd; set_solver).
  pose proof (Hstep done i s HP ltac:(set_solver) Hi) as Hw. destruct (work i s) as [[e|] s'].
  - exists i. split; [set_solver|done].
  - replace (done ++ i :: order) with ((done ++ [i]) ++ order) in * by by rewrite <- app_assoc.
    specialize (IH (done ++ [i]) s' Hw). destruct (until order work s') as [[e|] s'']; [|apply IH; [|done]].
    + destruct IH as (j&?&?); [|done|exists j; split; [set_solver|done]].
      intros d j s0 ? ? ?. apply Hstep; [done|set_solver|done].
    + intros d j s0 ? ? ?. apply Hstep; [done|set_solver|done].
Qed.

(** A piece for every element of a list, in any order. *)
Lemma until_all {S A} (l : list A) (P : list nat -> S -> Prop) (E : A -> Prop)
    (work : nat -> S -> option string * S) order s :
  order ≡ₚ seq 0 (length l) -> P [] s ->
  (forall done i a s, P done s -> l !! i = Some a -> i ∉ done ->
    match work i s with (None, s') => P (done ++ [i]) s' | (Some _, _) => E a end) ->
  match until order work s with
  | (None, s') => P order s'
  | (Some _, _) => exists a, a ∈ l /\ E a
  end.
Proof.
  intros Hord HP Hstep.
  pose proof (until_inv P (fun i => exists a, l !! i = Some a /\ E a) work order [] s HP) as Hu.
  rewrite app_nil_l in Hu. destruct (until order work s) as [[e|] s'].
  - destruct Hu as (i&Hi&a&Ha&HE); [|rewrite Hord; apply NoDup_seq|exists a; split; [by eapply list_elem_of_lookup_2|done]].
    intros d i s0 HP0 Hi Hd. rewrite Hord, elem_of_seq in Hi.
    destruct (lookup_lt_is_Some_2 l i) as [a Ha]; [lia|].
    specialize (Hstep d i a s0 HP0 Ha Hd). destruct (work i s0) as [[]]; [by exists a|done].
  - apply Hu; [|rewrite Hord; apply NoDup_seq].
    intros d i s0 HP0 Hi Hd. rewrite Hord, elem_of_seq in Hi.
    destruct (lookup_lt_is_Some_2 l i) as [a Ha]; [lia|].
    specialize (Hstep d i a s0 HP0 Ha Hd). destruct (work i s0) as [[]]; [by exists a|done].
Qed.

(** ** What the score plugins compute, plugin by plugin *)
Section Reference.
Context `{StateData}.
Implicit Types (pl : ScorePlugin) (pls : list ScorePlugin) (nodes : list Node).

Definition rawScore pl (state : CycleState) (pod : Pod) (nd : Node) : NodeScore :=
  {| score_Name := node_Name nd; Score := (ScoreNode pl state pod (node_Name nd)).1 |}.

Definition scoresOk pl (state : CycleState) (pod : Pod) (nd : Node) : bool :=
  IsSuccess (ScoreNode pl state pod (node_Name nd)).2.

Definition normalized pl (state : CycleState) (pod : Pod) (l : NodeScoreList) : Status * NodeScoreList :=
  match NormalizeScore pl with None => (None, l) | Some n => n state pod l end.

(** The scores of one plugin, computed alone: raw, normalized, checked and weighted. *)
Definition pluginScores (f : frameworkImpl) pl (state : CycleState) (pod : Pod) nodes : option NodeScoreList :=
  if forallb (scoresOk pl state pod) nodes then
    let '(status, l) := normalized pl state pod (rawScore pl state pod <$> nodes) in
    if IsSuccess status then
      match weightScores (default 0%Z (pluginNameToWeightMap f !! scoreplugin_Name pl)) l with
      | inl _ => None | inr l => Some l
      end
    else None
  else None.

Lemma scoreOneNode_spec pls state pod i nodeName : forall scores,
  NoDup (scoreplugin_Name <$> pls) ->
  match scoreOneNode pls state pod i nodeName scores with
  | (None, scores') =>
      (forall pl, pl ∈ pls -> IsSuccess (ScoreNode pl state pod nodeName).2 = true /\
        scores' !! scoreplugin_Name pl =
          <[i := {| score_Name := nodeName; Score := (ScoreNode pl state pod nodeName).1 |}]>
            <$> scores !! scoreplugin_Name pl) /\
      (forall k, k ∉ scoreplugin_Name <$> pls -> scores' !! k = scores !! k)
  | (Some _, _) => exists pl, pl ∈ pls /\ IsSuccess (ScoreNode pl state pod nodeName).2 = false
  end.
Proof.
  induction pls as [|pl pls IH]; intros scores Hnd; cbn [scoreOneNode]; [split; [set_solver|done]|].
  apply NoDup_cons in Hnd as [Hpl Hnd].
  destruct (ScoreNode pl state pod nodeName) as [s status] eqn:Hs.
  destruct (IsSuccess status) eqn:Hok.
  2: { exists pl. rewrite Hs. split; [set_solver|done]. }
  set (scores1 := alter _ _ scores). specialize (IH scores1 Hnd).
  destruct (scoreOneNode pls state pod i nodeName scores1) as [[e|] scores'].
  { destruct IH as (pl'&?&?). exists pl'. split; [set_solver|done]. }
  destruct IH as [Hin Hout]. split.
  - intros pl' [->|Hpl']%elem_of_cons.
    + rewrite Hs. split; [done|]. rewrite Hout by done. unfold scores1. by rewrite lookup_alter_eq.
    + destruct (Hin pl' Hpl') as [? ->]. split; [done|]. unfold scores1.
      rewrite lookup_alter_ne; [done|]. intros E. apply Hpl. rewrite E. by apply list_elem_of_fmap_2.
  - intros k Hk. rewrite fmap_cons, not_elem_of_cons in Hk. destruct Hk as [Hne Hk].
    rewrite Hout by done. unfold scores1. by rewrite lookup_alter_ne.
Qed.

(** The scores while some of the nodes have been processed. *)
Definition partialScores pl state pod nodes (done : list nat) : NodeScoreList :=
  imap (fun i nd => if decide (i ∈ done) then rawScore pl state pod nd else zeroScore) nodes.

Lemma partialScores_step pl state pod nodes done i nd :
  nodes !! i = Some nd ->
  <[i := rawScore pl state pod nd]> (partialScores pl state pod nodes done) =
  partialScores pl state pod nodes (done ++ [i]).
Proof.
  intros Hi. apply list_eq. intros j. unfold partialScores.
  destruct (decide (j = i)) as [->|Hne].
  - rewrite list_lookup_insert_eq, list_lookup_imap, Hi.
    + simpl. by rewrite decide_True by set_solver.
    + rewrite length_imap. by eapply lookup_lt_Some.
  - rewrite list_lookup_insert_ne, !list_lookup_imap by done. destruct (nodes !! j); [|done]. simpl.
    f_equal. apply decide_ext. set_solver.
Qed.

Lemma partialScores_all pl state pod nodes order :
  order ≡ₚ seq 0 (length nodes) ->
  partialScores pl state pod nodes order = rawScore pl state pod <$> nodes.
Proof.
  intros Hord. apply list_eq. intros j. unfold partialScores. rewrite list_lookup_imap, list_lookup_fmap.
  destruct (nodes !! j) eqn:Hj; [|done]. simpl. rewrite decide_True; [done|].
  rewrite Hord, elem_of_seq. apply lookup_lt_Some in Hj. lia.
Qed.

Lemma partialScores_none pl state pod nodes :
  partialScores pl state pod nodes [] = replicate (length nodes) zeroScore.
Proof.
  apply list_eq. intros j. unfold partialScores. rewrite list_lookup_imap.
  destruct (nodes !! j) eqn:Hj; simpl.
  - symmetry. apply lookup_replicate. split; [done|]. by eapply lookup_lt_Some.
  - symmetry. apply lookup_ge_None. rewrite length_replicate. by apply lookup_ge_None in Hj.
Qed.

(** Phase 1: the raw scores. *)
Lemma score_phase pls state pod nodes order scores :
  NoDup (scoreplugin_Name <$> pls) -> order ≡ₚ seq 0 (length nodes) ->
  (forall pl, pl ∈ pls -> scores !! scoreplugin_Name pl = Some (replicate (length nodes) zeroScore)) ->
  match until order (fun i => onIndex nodes (fun nd =>
          scoreOneNode pls state pod i (node_Name nd)) i) scores with
  | (None, scores') =>
      (forall pl, pl ∈ pls -> forallb (scoresOk pl state pod) nodes = true /\
        scores' !! scoreplugin_Name pl = Some (rawScore pl state pod <$> nodes)) /\
      (forall k, k ∉ scoreplugin_Name <$> pls -> scores' !! k = scores !! k)
  | (Some _, _) => exists pl, pl ∈ pls /\ forallb (scoresOk pl state pod) nodes = false
  end.
Proof.
  intros Hnd Hord Hz.
  pose proof (until_all nodes (fun done s =>
      (forall pl, pl ∈ pls -> s !! scoreplugin_Name pl = Some (partialScores pl state pod nodes done) /\
        forall i nd, i ∈ done -> nodes !! i = Some nd -> scoresOk pl state pod nd = true) /\
      (forall k, k ∉ scoreplugin_Name <$> pls -> s !! k = scores !! k))
    (fun nd => exists pl, pl ∈ pls /\ scoresOk pl state pod nd = false)
    (fun i => onIndex nodes (fun nd => scoreOneNode pls state pod i (node_Name nd)) i) order scores Hord) as Hu.
  assert (Hstep : forall done i nd s,
    ((forall pl, pl ∈ pls -> s !! scoreplugin_Name pl = Some (partialScores pl state pod nodes done) /\
        forall i nd, i ∈ done -> nodes !! i = Some nd -> scoresOk pl state pod nd = true) /\
      (forall k, k ∉ scoreplugin_Name <$> pls -> s !! k = scores !! k)) ->
    nodes !! i = Some nd -> i ∉ done ->
    match onIndex nodes (fun nd => scoreOneNode pls state pod i (node_Name nd)) i s with
    | (None, s') =>
        (forall pl, pl ∈ pls -> s' !! scoreplugin_Name pl = Some (partialScores pl state pod nodes (done ++ [i])) /\
          forall j nd, j ∈ done ++ [i] -> nodes !! j = Some nd -> scoresOk pl state pod nd = true) /\
        (forall k, k ∉ scoreplugin_Name <$> pls -> s' !! k = scores !! k)
    | (Some _, _) => exists pl, pl ∈ pls /\ scoresOk pl state pod nd = false
    end).
  { intros done i nd s [Hin Hout] Hi _. unfold onIndex. rewrite Hi.
    pose proof (scoreOneNode_spec pls state pod i (node_Name nd) s Hnd) as Hone.
    destruct (scoreOneNode pls state pod i (node_Name nd) s) as [[e|] s']; [done|].
    destruct Hone as [Hone Hsame]. split.
    - intros pl Hpl. destruct (Hone pl Hpl) as [Hok ->]. destruct (Hin pl Hpl) as [-> Hdone]. split.
      + simpl. f_equal. by apply partialScores_step.
      + intros j nd' [Hj|Hj%list_elem_of_singleton]%elem_of_app Hj'; [by eapply Hdone|]. by simplify_eq.
    - intros k Hk. by rewrite Hsame, Hout. }
  assert (H0 : (forall pl, pl ∈ pls -> scores !! scoreplugin_Name pl = Some (partialScores pl state pod nodes []) /\
        forall i nd, i ∈ [] -> nodes !! i = Some nd -> scoresOk pl state pod nd = true) /\
      (forall k, k ∉ scoreplugin_Name <$> pls -> scores !! k = scores !! k)).
  { split; [|done]. intros pl Hpl. rewrite partialScores_none. split; [by apply Hz|set_solver]. }
  specialize (Hu H0). clear H0.
  destruct (until _ _ _) as [[e|] scores'].
  - destruct Hu as (nd&Hin&pl&Hpl&Hbad); [by intros; eapply Hstep|]. exists pl. split; [done|].
    apply not_true_iff_false. rewrite forallb_forall. intros Hall.
    rewrite Hall in Hbad; [done|by apply list_elem_of_In].
  - destruct Hu as [Hin Hout]; [by intros; eapply Hstep|]. split; [|done].
    intros pl Hpl. destruct (Hin pl Hpl) as [-> Hdone]. split; [|by rewrite partialScores_all].
    apply forallb_forall. intros nd Hnd'. apply list_elem_of_In, list_elem_of_lookup in Hnd' as [i Hi].
    apply (Hdone i); [|done]. rewrite Hord, elem_of_seq. apply lookup_lt_Some in Hi. lia.
Qed.

(** Phases 2 and 3: one piece of work per plugin, on its own list. *)
Lemma plugin_phase pls (work : ScorePlugin -> PluginToNodeScores -> option string * PluginToNodeScores)
    (g : ScorePlugin -> option NodeScoreList) (before : ScorePlugin -> NodeScoreList) order scores :
  NoDup (scoreplugin_Name <$> pls) -> order ≡ₚ seq 0 (length pls) ->
  (forall pl, pl ∈ pls -> scores !! scoreplugin_Name pl = Some (before pl)) ->
  (forall pl s, pl ∈ pls -> s !! scoreplugin_Name pl = Some (before pl) ->
    match work pl s with
    | (None, s') => exists l, g pl = Some l /\ s' = <[scoreplugin_Name pl := l]> s
    | (Some _, _) => g pl = None
    end) ->
  match until order (onIndex pls work) scores with
  | (None, scores') =>
      (forall pl, pl ∈ pls -> exists l, g pl = Some l /\ scores' !! scoreplugin_Name pl = Some l) /\
      (forall k, k ∉ scoreplugin_Name <$> pls -> scores' !! k = scores !! k)
  | (Some _, _) => exists pl, pl ∈ pls /\ g pl = None
  end.
Proof.
  intros Hnd Hord Hb Hwork.
  pose proof (until_all pls (fun done s =>
      (forall j pl, pls !! j = Some pl ->
        if decide (j ∈ done) then exists l, g pl = Some l /\ s !! scoreplugin_Name pl = Some l
        else s !! scoreplugin_Name pl = Some (before pl)) /\
      (forall k, k ∉ scoreplugin_Name <$> pls -> s !! k = scores !! k))
    (fun pl => g pl = None) (onIndex pls work) order scores Hord) as Hu.
  assert (Hstep : forall done i pl s,
    ((forall j pl, pls !! j = Some pl ->
        if decide (j ∈ done) then exists l, g pl = Some l /\ s !! scoreplugin_Name pl = Some l
        else s !! scoreplugin_Name pl = Some (before pl)) /\
      (forall k, k ∉ scoreplugin_Name <$> pls -> s !! k = scores !! k)) ->
    pls !! i = Some pl -> i ∉ done ->
    match onIndex pls work i s with
    | (None, s') =>
        (forall j pl, pls !! j = Some pl ->
          if decide (j ∈ done ++ [i]) then exists l, g pl = Some l /\ s' !! scoreplugin_Name pl = Some l
          else s' !! scoreplugin_Name pl = Some (before pl)) /\
        (forall k, k ∉ scoreplugin_Name <$> pls -> s' !! k = scores !! k)
    | (Some _, _) => g pl = None
    end).
  { intros done i pl s [Hin Hout] Hi Hd. unfold onIndex. rewrite Hi.
    pose proof (Hin i pl Hi) as Hs. rewrite decide_False in Hs by done.
    pose proof (list_elem_of_lookup_2 _ _ _ Hi) as Hpl. specialize (Hwork pl s Hpl Hs).
    destruct (work pl s) as [[e|] s']; [done|]. destruct Hwork as (l&Hl&->). split.
    - intros j pl' Hj. destruct (decide (j = i)) as [->|Hne].
      + rewrite decide_True by set_solver. simplify_eq. exists l. by rewrite lookup_insert_eq.
      + assert (Hname : scoreplugin_Name pl <> scoreplugin_Name pl').
        { intros E. apply Hne. eapply (NoDup_lookup _ j i); [exact Hnd|..]; rewrite list_lookup_fmap.
          - by rewrite Hj. - by rewrite Hi, <- E. }
        rewrite lookup_insert_ne by done. specialize (Hin j pl' Hj).
        destruct (decide (j ∈ done)).
        * by rewrite decide_True by set_solver.
        * by rewrite decide_False by set_solver.
    - intros k Hk. rewrite lookup_insert_ne; [by apply Hout|]. intros <-. apply Hk. by apply list_elem_of_fmap_2. }
  destruct (until _ _ _) as [[e|] scores'].
  - apply Hu; [|by intros; eapply Hstep]. split; [|done]. intros j pl Hj. rewrite decide_False by set_solver.
    apply Hb. by eapply list_elem_of_lookup_2.
  - destruct Hu as [Hin Hout].
    { split; [|done]. intros j pl Hj. rewrite decide_False by set_solver.
      apply Hb. by eapply list_elem_of_lookup_2. }
    { by intros; eapply Hstep. }
    split; [|done]. intros pl [j Hj]%list_elem_of_lookup. specialize (Hin j pl Hj).
    rewrite decide_True in Hin; [done|]. rewrite Hord, elem_of_seq. apply lookup_lt_Some in Hj. lia.
Qed.

Lemma lookup_emptyScores pls n pl :
  pl ∈ pls ->
  foldr (fun pl (m : PluginToNodeScores) => <[scoreplugin_Name pl := replicate n zeroScore]> m) ∅ pls
    !! scoreplugin_Name pl = Some (replicate n zeroScore).
Proof.
  induction pls as [|pl' pls IH]; intros Hpl; [by apply elem_of_nil in Hpl|]. simpl.
  destruct (decide (scoreplugin_Name pl' = scoreplugin_Name pl)) as [->|Hne]; [by rewrite lookup_insert_eq|].
  rewrite lookup_insert_ne by done. apply IH. apply elem_of_cons in Hpl as [->|]; done.
Qed.

Lemma lookup_emptyScores_none pls n k :
  k ∉ scoreplugin_Name <$> pls ->
  foldr (fun pl (m : PluginToNodeScores) => <[scoreplugin_Name pl := replicate n zeroScore]> m) ∅ pls
    !! k = None.
Proof.
  induction pls as [|pl' pls IH]; intros Hk; [done|]. rewrite fmap_cons, not_elem_of_cons in Hk. simpl.
  rewrite lookup_insert_ne by naive_solver. apply IH. tauto.
Qed.

(** The work of the last two phases on the list of its plugin. *)
Lemma normalizeOne_spec pl state pod l (scores : PluginToNodeScores) :
  scores !! scoreplugin_Name pl = Some l ->
  match normalizeOne pl state pod scores with
  | (None, scores') => exists l', (if IsSuccess (normalized pl state pod l).1
      then Some (normalized pl state pod l).2 else None) = Some l' /\
      scores' = <[scoreplugin_Name pl := l']> scores
  | (Some _, _) => (if IsSuccess (normalized pl state pod l).1
      then Some (normalized pl state pod l).2 else None) = None
  end.
Proof.
  intros Hl. unfold normalizeOne, normalized. rewrite Hl. cbn [default].
  destruct (NormalizeScore pl) as [n|].
  - cbn. unfold id. destruct (n state pod l) as [st l']. cbn. destruct (IsSuccess st); [by exists l'|done].
  - exists l. cbn. by rewrite insert_id.
Qed.

Lemma weightOne_spec f pl l (scores : PluginToNodeScores) :
  scores !! scoreplugin_Name pl = Some l ->
  match weightOne f pl scores with
  | (None, scores') => exists l',
      match weightScores (default 0%Z (pluginNameToWeightMap f !! scoreplugin_Name pl)) l with
      | inl _ => None | inr l => Some l end = Some l' /\ scores' = <[scoreplugin_Name pl := l']> scores
  | (Some _, _) =>
      match weightScores (default 0%Z (pluginNameToWeightMap f !! scoreplugin_Name pl)) l with
      | inl _ => None | inr l => Some l end = None
  end.
Proof.
  intros Hl. unfold weightOne. rewrite Hl. cbn [default from_option]. unfold id.
  destruct (weightScores _ l) as [|l']; [done|by exists l'].
Qed.
End Reference.

(** ** Filtering *)
Section FilterLemmas.
Context `{StateData}.

Definition allFailing (statuses : gmap string Status) : Prop :=
  map_Forall (fun _ s => is_Some s /\ failing s) statuses.

Lemma failing_status s : IsSuccess s = false -> IsUnschedulable s = true -> is_Some s /\ failing s.
Proof. intros Hs Hu. split; [by destruct s|by left]. Qed.

Lemma filterLoop_spec all pls state pod info : forall statuses,
  allFailing statuses ->
  allFailing (filterLoop all pls statuses state pod info) /\
  (filterLoop all pls statuses state pod info = ∅ <->
    statuses = ∅ /\ forall pl, pl ∈ pls -> IsSuccess (Filter pl state pod info) = true).
Proof.
  induction pls as [|pl pls IH]; intros statuses Hs; cbn [filterLoop].
  { split; [done|]. split; [intros ->; set_solver|tauto]. }
  destruct (IsSuccess (Filter pl state pod info)) eqn:Hok.
  { destruct (IH statuses Hs) as [? Hiff]. split; [done|]. rewrite Hiff.
    split; intros [-> Hall]; (split; [done|]).
    - intros pl' [->|?]%elem_of_cons; [done|by apply Hall].
    - intros pl' Hpl'. apply Hall. set_solver. }
  assert (Hno : forall m : gmap string Status, m <> ∅ ->
    (m = ∅ <-> statuses = ∅ /\ forall pl', pl' ∈ pl :: pls -> IsSuccess (Filter pl' state pod info) = true)).
  { intros m Hm. split; [done|]. intros [_ Hall]. specialize (Hall pl ltac:(set_solver)). congruence. }
  destruct (IsUnschedulable (Filter pl state pod info)) eqn:Hu.
  - assert (Hins : allFailing (<[filter_Name pl := Filter pl state pod info]> statuses)).
    { apply map_Forall_insert_2; [by apply failing_status|done]. }
    destruct all; [|by split; [done|apply Hno, insert_non_empty]].
    destruct (IH _ Hins) as [? Hiff]. split; [done|]. apply Hno. rewrite Hiff.
    intros [Hem _]. by apply insert_non_empty in Hem.
  - split; [|by apply Hno, map_non_empty_singleton].
    apply map_Forall_singleton. split; [by eexists|by right].
Qed.
End FilterLemmas.

(** ** The weights *)
Section Weights.
Local Open Scope Z_scope.

(** The total of the weights of the plugins [names]. *)
Definition totalWeight (weights : gmap string Z) (names : list string) : Z :=
  sumOver (fun name => default 0 (weights !! name)) names.

Lemma weightScores_spec weight l l' :
  0 <= weight -> weight * MaxNodeScore <= max_int64 -> weightScores weight l = inr l' ->
  score_Name <$> l' = score_Name <$> l /\ Score <$> l' = (fun ns => Score ns * weight) <$> l /\
  Forall (fun ns => 0 <= Score ns <= MaxNodeScore) l.
Proof.
  intros Hw Hmax. revert l'. induction l as [|ns l IH]; intros l' Hl; cbn [weightScores] in Hl.
  { injection Hl as <-. by split_and!; [..|constructor]. }
  destruct ((MaxNodeScore <? Score ns) || (Score ns <? MinNodeScore)) eqn:Hr; [done|].
  destruct (weightScores weight l) as [|l1]; [done|]. injection Hl as <-.
  destruct (IH l1 eq_refl) as (Hn&Hs&Hf). apply orb_false_iff in Hr as [Hr1 Hr2].
  unfold MaxNodeScore, MinNodeScore, max_int64 in *.
  rewrite !fmap_cons. cbn [score_Name Score]. split_and!; [by f_equal| |constructor; [lia|done]].
  f_equal; [|done]. apply wrap64_id. unfold in_int64, min_int64, max_int64. nia.
Qed.

Lemma configureWeights_spec plugins : forall total weights weights',
  configureWeights plugins total weights = Some weights' ->
  Forall (fun e => 0 <= e.2 < 2 ^ 31) plugins -> NoDup plugins.*1 ->
  Forall (fun e => weights !! e.1 = None) plugins ->
  0 <= total <= max_int64 ->
  total + totalWeight weights' plugins.*1 * MaxNodeScore <= max_int64 /\
  (forall name, name ∉ plugins.*1 -> weights' !! name = weights !! name) /\
  (forall name, name ∈ plugins.*1 -> 1 <= default 0 (weights' !! name)).
Proof.
  induction plugins as [|[name configured] plugins IH]; intros total weights weights' Hc Hb Hnd Hnew Ht.
  { cbn in *. injection Hc as <-. split_and!; [lia|done|set_solver]. }
  cbn [configureWeights] in Hc. rewrite fmap_cons in Hnd |- *.
  apply Forall_cons in Hb as [Hw Hb]. apply NoDup_cons in Hnd as [Hname Hnd].
  apply Forall_cons in Hnew as [Hnone Hnew]. cbn [fst snd] in *.
  set (weight := if decide (configured = 0) then 1 else configured) in *.
  assert (Hweight : 1 <= weight < 2 ^ 31) by (unfold weight; case_decide; lia).
  unfold MaxTotalScore, MaxNodeScore in *.
  rewrite (wrap64_id (weight * 100)) in Hc by (unfold in_int64, min_int64, max_int64; lia).
  rewrite (wrap64_id (max_int64 - total)) in Hc by (unfold in_int64, min_int64, max_int64 in *; lia).
  destruct (Z.ltb_spec (max_int64 - total) (weight * 100)); [done|].
  rewrite wrap64_id in Hc by (unfold in_int64, min_int64, max_int64 in *; lia).
  destruct (IH _ _ _ Hc) as (Hsum&Hout&Hin); [done|done| |lia|].
  { apply list.Forall_forall. intros e He. rewrite lookup_insert_ne; [exact (proj1 (list.Forall_forall _ _) Hnew e He)|].
    intros ->. apply Hname. by apply list_elem_of_fmap_2. }
  assert (Hthis : weights' !! name = Some weight) by by rewrite Hout, lookup_insert_eq.
  split_and!.
  - change (totalWeight weights' (name :: plugins.*1)) with
      (default 0 (weights' !! name) + totalWeight weights' plugins.*1).
    rewrite Hthis. cbn. unfold id. lia.
  - intros n Hn. rewrite not_elem_of_cons in Hn. rewrite Hout by tauto. apply lookup_insert_ne. naive_solver.
  - intros n [->|Hn]%elem_of_cons; [rewrite Hthis; cbn; lia|by apply Hin].
Qed.
End Weights.

(** ** The runs of all plugins *)
Lemma runFilterPlugins_merge `{StateData} (f : frameworkImpl) (state : CycleState) (pod : Pod)
    (info : NodeInfo) (statuses : list Status) :
  statuses ≡ₚ (map_to_list (RunFilterPlugins f state pod info)).*2 ->
  exists s, Merge statuses = Some s /\
    (IsSuccess s = true <-> forall pl, pl ∈ filterPlugins f -> IsSuccess (Filter pl state pod info) = true) /\
    (IsSuccess s = false -> failing s).
Proof.
  intros Hst. unfold RunFilterPlugins in Hst.
  destruct (filterLoop_spec (runAllFilters f) (filterPlugins f) state pod info ∅) as [Hall Hem];
    [apply map_Forall_empty|].
  set (m := filterLoop _ _ _ _ _ _) in *. destruct (decide (m = ∅)) as [E|E].
  - rewrite E, map_to_list_empty in Hst. apply Permutation_nil_r in Hst. subst statuses.
    exists None. split; [done|]. split; [|done]. split; [|done]. intros _. by apply Hem.
  - assert (Hne : statuses <> []).
    { intros ->. symmetry in Hst. apply Permutation_nil_r, fmap_nil_inv, map_to_list_empty_iff in Hst. done. }
    assert (Hf : Forall (fun s => is_Some s /\ failing s) statuses).
    { rewrite Hst. apply list.Forall_forall. intros s ([k s']&->&Hk%elem_of_map_to_list)%list_elem_of_fmap.
      by apply (Hall k). }
    destruct (merge_spec_failing statuses Hne Hf) as (s&->&Hs&Hfail). exists s. split_and!; [done| |done].
    split; [congruence|]. intros Hacc. destruct E. apply Hem. split; [done|exact Hacc].
Qed.

Lemma RunScorePlugins_spec `{StateData} (f : frameworkImpl)
    (orderNodes orderNormalize orderWeight : list nat) (state : CycleState) (pod : Pod) (nodes : list Node) :
  NoDup (scoreplugin_Name <$> scorePlugins f) ->
  orderNodes ≡ₚ seq 0 (length nodes) ->
  orderNormalize ≡ₚ seq 0 (length (scorePlugins f)) ->
  orderWeight ≡ₚ seq 0 (length (scorePlugins f)) ->
  match RunScorePlugins f orderNodes orderNormalize orderWeight state pod nodes with
  | (Some scores, status) => status = None /\
      (forall pl, pl ∈ scorePlugins f -> exists l, pluginScores f pl state pod nodes = Some l /\
        scores !! scoreplugin_Name pl = Some l) /\
      dom scores = list_to_set (scoreplugin_Name <$> scorePlugins f)
  | (None, status) => IsSuccess status = false /\
      exists pl, pl ∈ scorePlugins f /\ pluginScores f pl state pod nodes = None
  end.
Proof.
  intros Hnd H1 H2 H3. unfold RunScorePlugins.
  pose proof (score_phase (scorePlugins f) state pod nodes orderNodes _ Hnd H1
    (lookup_emptyScores (scorePlugins f) (length nodes))) as P1.
  set (empty := foldr _ _ _) in *. destruct (until orderNodes _ empty) as [[err|] s1].
  { destruct P1 as (pl&Hpl&Hbad). split; [done|]. exists pl. split; [done|].
    unfold pluginScores. by rewrite Hbad. }
  destruct P1 as [P1 Q1].
  pose proof (plugin_phase (scorePlugins f) (fun pl => normalizeOne pl state pod)
    (fun pl => if IsSuccess (normalized pl state pod (rawScore pl state pod <$> nodes)).1
               then Some (normalized pl state pod (rawScore pl state pod <$> nodes)).2 else None)
    (fun pl => rawScore pl state pod <$> nodes) orderNormalize s1 Hnd H2 (fun pl Hpl => proj2 (P1 pl Hpl))) as P2.
  destruct (until orderNormalize _ s1) as [[err|] s2].
  { destruct P2 as (pl&Hpl&Hbad); [by intros; apply normalizeOne_spec|]. split; [done|].
    exists pl. split; [done|]. unfold pluginScores. rewrite (proj1 (P1 pl Hpl)).
    destruct (normalized _ _ _ _) as [st l]. cbn in Hbad. by destruct (IsSuccess st). }
  destruct P2 as [P2 Q2]; [by intros; apply normalizeOne_spec|].
  pose proof (plugin_phase (scorePlugins f) (weightOne f)
    (fun pl => match weightScores (default 0%Z (pluginNameToWeightMap f !! scoreplugin_Name pl))
                 (normalized pl state pod (rawScore pl state pod <$> nodes)).2 with
               | inl _ => None | inr l => Some l end)
    (fun pl => (normalized pl state pod (rawScore pl state pod <$> nodes)).2) orderWeight s2 Hnd H3) as P3.
  assert (Hnorm : forall pl, pl ∈ scorePlugins f ->
    IsSuccess (normalized pl state pod (rawScore pl state pod <$> nodes)).1 = true /\
    s2 !! scoreplugin_Name pl = Some (normalized pl state pod (rawScore pl state pod <$> nodes)).2).
  { intros pl Hpl. destruct (P2 pl Hpl) as (l&Hl&->). by destruct (IsSuccess _); simplify_eq. }
  assert (Hplugin : forall pl, pl ∈ scorePlugins f -> pluginScores f pl state pod nodes =
    match weightScores (default 0%Z (pluginNameToWeightMap f !! scoreplugin_Name pl))
      (normalized pl state pod (rawScore pl state pod <$> nodes)).2 with
    | inl _ => None | inr l => Some l end).
  { intros pl Hpl. unfold pluginScores. rewrite (proj1 (P1 pl Hpl)). destruct (Hnorm pl Hpl) as [Hok _].
    destruct (normalized _ _ _ _) as [st l]. cbn in Hok |- *. by rewrite Hok. }
  specialize (P3 (fun pl Hpl => proj2 (Hnorm pl Hpl))).
  destruct (until orderWeight _ s2) as [[err|] s3].
  { destruct P3 as (pl&Hpl&Hbad); [by intros; apply weightOne_spec|]. split; [done|].
    exists pl. split; [done|]. by rewrite Hplugin. }
  destruct P3 as [P3 Q3]; [by intros; apply weightOne_spec|]. split_and!; [done| |].
  - intros pl Hpl. destruct (P3 pl Hpl) as (l&Hl&Hs). exists l. by rewrite Hplugin.
  - apply set_eq. intros k. rewrite elem_of_dom, elem_of_list_to_set. split.
    + intros [l Hk]. destruct (decide (k ∈ scoreplugin_Name <$> scorePlugins f)) as [|Hno]; [done|].
      rewrite Q3, Q2, Q1 in Hk by done. unfold empty in Hk. by rewrite lookup_emptyScores_none in Hk.
    + intros (pl&->&Hpl)%list_elem_of_fmap. destruct (P3 pl Hpl) as (l&_&Hs). by exists l.
Qed.

(** ** Properties *)

(** Merging the statuses of the plugins that failed a node does not depend on the
    order in which Go iterates over their map: the code is the most severe one (an error,
    then unresolvable, then unschedulable) and the reasons are all of theirs. *)
Theorem merge_follows_precedence (l l' : list Status) :
  l ≡ₚ l' -> l <> [] -> Forall is_Some l ->
  Forall failing l ->
  exists r r', Merge l = Some (Some r) /\ Merge l' = Some (Some r') /\
    code r = worstCode l /\ code r' = code r /\ reasons r' ≡ₚ reasons r /\ IsSuccess (Some r) = false.
Proof.
  intros Hp Hne Hl Hf.
  assert (Hne' : l' <> []) by (intros ->; by apply Permutation_nil_r in Hp).
  assert (Hl' : Forall is_Some l') by by rewrite <- Hp.
  do 2 eexists. split_and!; [by apply Merge_spec|by apply Merge_spec|done|..].
  all: destruct l as [|s l]; [done|].
  all: destruct (worstCode_failing (s :: l) s) as [Hw Hperm]; [set_solver|by apply Forall_cons in Hf as [? _]|].
  - cbn [code]. by apply Hperm.
  - cbn [reasons]. by rewrite Hp.
  - unfold IsSuccess. by apply bool_decide_eq_false.
Qed.

(** A node passes the filters exactly when every filter plugin accepts it, whether
    the framework stops at the first refusal or runs all filters, and in whatever order
    the statuses are merged; a node that does not pass gets a failing status. *)
Theorem run_filters_passes_iff `{StateData} (f : frameworkImpl) (state : CycleState) (pod : Pod)
    (info : NodeInfo) (statuses : list Status) :
  statuses ≡ₚ (map_to_list (RunFilterPlugins f state pod info)).*2 ->
  exists s, Merge statuses = Some s /\
    (IsSuccess s = true <-> forall pl, pl ∈ filterPlugins f -> IsSuccess (Filter pl state pod info) = true) /\
    (IsSuccess s = false -> failing s).
Proof. apply runFilterPlugins_merge. Qed.

(** Whatever order the workers process the nodes and the plugins in,
    [RunScorePlugins] returns for every plugin the list of scores that the plugin gives
    alone - raw, normalized, checked to be in range and weighted - or an error when some
    plugin has none. *)
Theorem run_score_plugins_is_per_plugin `{StateData} (f : frameworkImpl)
    (orderNodes orderNormalize orderWeight : list nat) (state : CycleState) (pod : Pod) (nodes : list Node) :
  NoDup (scoreplugin_Name <$> scorePlugins f) ->
  orderNodes ≡ₚ seq 0 (length nodes) ->
  orderNormalize ≡ₚ seq 0 (length (scorePlugins f)) ->
  orderWeight ≡ₚ seq 0 (length (scorePlugins f)) ->
  match RunScorePlugins f orderNodes orderNormalize orderWeight state pod nodes with
  | (Some scores, status) => status = None /\
      (forall pl, pl ∈ scorePlugins f -> exists l, pluginScores f pl state pod nodes = Some l /\
        scores !! scoreplugin_Name pl = Some l) /\
      dom scores = list_to_set (scoreplugin_Name <$> scorePlugins f)
  | (None, status) => IsSuccess status = false /\
      exists pl, pl ∈ scorePlugins f /\ pluginScores f pl state pod nodes = None
  end.
Proof. apply RunScorePlugins_spec. Qed.

(** ** Witnesses *)
Definition exampleData : StateData := {| dataOf := string; CloneData s := s |}.
#[local] Existing Instance exampleData.

Definition exampleStatuses : list Status :=
  [NewStatus Unschedulable ["too many pods"]; NewStatus UnschedulableAndUnresolvable ["wrong node"]].

Lemma merge_follows_precedence_witness :
  exists r r', Merge exampleStatuses = Some (Some r) /\ Merge (reverse exampleStatuses) = Some (Some r') /\
    code r = UnschedulableAndUnresolvable /\ code r' = code r.
Proof.
  destruct (merge_follows_precedence exampleStatuses (reverse exampleStatuses)) as (r&r'&H1&H2&H3&H4&_).
  - symmetry. apply reverse_Permutation.
  - discriminate.
  - repeat constructor; by eexists.
  - repeat constructor; left; reflexivity.
  - exists r, r'. split; [exact H1|]. split; [exact H2|]. split; [exact H3|exact H4].
Defined.

(** Filters that accept all pods, and pods that are not called [p1]; scores that
    are the length of the node's name, and its weight doubled. *)
Definition exampleFramework : frameworkImpl :=
  {| preFilterPlugins := [];
     filterPlugins :=
       [{| filter_Name := "all"; Filter _ _ _ := None |};
        {| filter_Name := "notP1"; Filter _ p _ :=
             if decide (pod_Name p = "p1") then NewStatus Unschedulable ["it is p1"] else None |}];
     preScorePlugins := [];
     scorePlugins :=
       [{| scoreplugin_Name := "length";
           ScoreNode _ _ name := (Z.of_nat (String.length name), None); NormalizeScore := None |};
        {| scoreplugin_Name := "fifty"; ScoreNode _ _ _ := (5%Z, None);
           NormalizeScore := Some (fun _ _ l =>
             (None, (fun ns => {| score_Name := score_Name ns; Score := Score ns * 10 |}%Z) <$> l)) |}];
     pluginNameToWeightMap := {[ "length" := 1%Z; "fifty" := 2%Z ]};
     runAllFilters := false |}.

Definition exampleNodes : list Node := [simpleNode "n1" 4000 8000 10; simpleNode "node2" 4000 8000 10].

Lemma run_filters_passes_iff_witness :
  exists s, Merge [NewStatus Unschedulable ["it is p1"]] = Some s /\ (IsSuccess s = false -> failing s).
Proof.
  destruct (run_filters_passes_iff exampleFramework ∅ examplePod1 exampleInfo
    [NewStatus Unschedulable ["it is p1"]]) as (s&Hs&_&Hf).
  - vm_compute. reflexivity.
  - exists s. split; [exact Hs|exact Hf].
Defined.

Lemma run_score_plugins_is_per_plugin_witness :
  exists scores l, RunScorePlugins exampleFramework [1; 0] [0; 1] [1; 0] ∅ examplePod1 exampleNodes =
      (Some scores, None) /\ scores !! "fifty" = Some l /\
    pluginScores exampleFramework
      {| scoreplugin_Name := "length";
         ScoreNode _ _ name := (Z.of_nat (String.length name), None); NormalizeScore := None |}
      ∅ examplePod1 exampleNodes = scores !! "length".
Proof.
  pose proof (run_score_plugins_is_per_plugin exampleFramework [1; 0] [0; 1] [1; 0] ∅ examplePod1 exampleNodes) as H.
  destruct (RunScorePlugins exampleFramework [1; 0] [0; 1] [1; 0] ∅ examplePod1 exampleNodes)
    as [[scores|] status] eqn:E.
  - destruct H as (->&Hs&_).
    + apply (bool_decide_unpack _). vm_compute. exact I.
    + apply Permutation_swap.
    + reflexivity.
    + apply Permutation_swap.
    + destruct (Hs _ ltac:(cbn; apply elem_of_cons; left; reflexivity)) as (l1&Hl1&Hs1).
      destruct (Hs _ ltac:(cbn; apply elem_of_cons; right; apply elem_of_cons; left; reflexivity))
        as (l2&_&Hs2).
      exists scores, l2. split; [reflexivity|]. split; [exact Hs2|]. etransitivity; [exact Hl1|symmetry; exact Hs1].
  - exfalso. vm_compute in E. discriminate.
Defined.
