(* ===== verification/GenericScheduler.v ===== *)
(** * The generic scheduler (scheduler/core/generic_scheduler.go)

    One scheduling cycle: the nodes that fit are searched by parallel workers, the
    fitting nodes are scored and a node of the highest score is selected.  The
    interleaving of the workers, the orders of iteration and the random numbers are
    arguments.  The generations that [addNominatedPods] draws for its copies start
    at an argument and are forgotten with the copies; traces and metrics are left
    out. *)
From S2P Require Import Prelude Api NodeInfo Nominator PriorityQueue Cache Snapshot Framework.
Local Open Scope go_scope.

Definition minFeasibleNodesToFind : Z := 100.
Definition minFeasibleNodesPercentageToFind : Z := 5.

(** [int32] arithmetic; Go's division truncates. *)
Definition numFeasibleNodesToFind (percentageOfNodesToScore numAllNodes : Z) : Z :=
  (if (numAllNodes <? minFeasibleNodesToFind) || (100 <=? percentageOfNodesToScore) then numAllNodes
   else
     let adaptivePercentage :=
       if percentageOfNodesToScore <=? 0 then
         let p := wrap32 (50 - Z.quot numAllNodes 125) in
         if p <? minFeasibleNodesPercentageToFind then minFeasibleNodesPercentageToFind else p
       else percentageOfNodesToScore in
     let numNodes := Z.quot (wrap32 (numAllNodes * adaptivePercentage)) 100 in
     if numNodes <? minFeasibleNodesToFind then minFeasibleNodesToFind else numNodes)%Z.

(** ** The selection of a host

    [rnd] are the results of the calls of [rand.Intn] in turn. *)
Definition nextRandom (rnd : list nat) : nat * list nat :=
  match rnd with [] => (0, []) | r :: rnd => (r, rnd) end.

Fixpoint selectLoop (rnd : list nat) (l : NodeScoreList) (maxScore : Z) (selected : string)
    (cntOfMaxScore : nat) : string :=
  match l with
  | [] => selected
  | ns :: l =>
      if (maxScore <? Score ns)%Z then selectLoop rnd l (Score ns) (score_Name ns) 1
      else if (Score ns =? maxScore)%Z then
        let '(r, rnd) := nextRandom rnd in
        selectLoop rnd l maxScore (if decide (r = 0) then score_Name ns else selected) (S cntOfMaxScore)
      else selectLoop rnd l maxScore selected cntOfMaxScore
  end.

(** [None] is the error for an empty list. *)
Definition selectHost (rnd : list nat) (l : NodeScoreList) : option string :=
  match l with
  | [] => None
  | ns :: l => Some (selectLoop rnd l (Score ns) (score_Name ns) 1)
  end.

(** The bounds with which [selectHost] calls [rand.Intn]. *)
Fixpoint intnBounds (l : NodeScoreList) (maxScore : Z) (cntOfMaxScore : nat) : list nat :=
  match l with
  | [] => []
  | ns :: l =>
      if (maxScore <? Score ns)%Z then intnBounds l (Score ns) 1
      else if (Score ns =? maxScore)%Z then S cntOfMaxScore :: intnBounds l maxScore (S cntOfMaxScore)
      else intnBounds l maxScore cntOfMaxScore
  end.

(** ** Extenders, by the methods of their interface; an error is a message *)
Record Extender := {
  IsInterested : Pod -> bool;
  ExtenderFilter : Pod -> list Node -> string + (list Node * gmap string string);
  Prioritize : Pod -> list Node -> string + (list (string * Z) * Z);
  IsIgnorable : bool;
  IsBinder : bool
}.

Definition findNodesThatPassExtenders_statuses (failedMap : gmap string string)
    (statuses : gmap string Status) : gmap string Status :=
  map_fold (fun failedNodeName failedMsg statuses =>
    match statuses !! failedNodeName with
    | None => <[failedNodeName := NewStatus Unschedulable [failedMsg]]> statuses
    | Some s => <[failedNodeName := default s (AppendReason s failedMsg)]> statuses
    end) statuses failedMap.

Fixpoint findNodesThatPassExtenders (extenders : list Extender) (pod : Pod) (feasibleNodes : list Node)
    (statuses : gmap string Status) : string + (list Node * gmap string Status) :=
  match extenders with
  | [] => inr (feasibleNodes, statuses)
  | extender :: extenders =>
      if decide (length feasibleNodes = 0) then inr (feasibleNodes, statuses)
      else if negb (IsInterested extender pod) then
        findNodesThatPassExtenders extenders pod feasibleNodes statuses
      else
        match ExtenderFilter extender pod feasibleNodes with
        | inl err =>
            if IsIgnorable extender then findNodesThatPassExtenders extenders pod feasibleNodes statuses
            else inl err
        | inr (feasibleList, failedMap) =>
            findNodesThatPassExtenders extenders pod feasibleList
              (findNodesThatPassExtenders_statuses failedMap statuses)
        end
  end.

(** ** The filters on one node *)
Section Filters.
Context `{LabelsLib, StateData, PodPriority}.
(** The order in which Go iterates over the statuses of the plugins. *)
Context (statusOrder : gmap string Status -> list Status).

Fixpoint addNominatedLoop (f : frameworkImpl) (pods : list Pod) (pod : Pod) (generation : Z)
    (stateOut : CycleState) (nodeInfoOut : NodeInfo) (podsAdded : bool)
    : string + (bool * CycleState * NodeInfo) :=
  match pods with
  | [] => inr (podsAdded, stateOut, nodeInfoOut)
  | p :: pods =>
      if (GetPodPriority pod <=? GetPodPriority p)%Z && bool_decide (pod_UID p <> pod_UID pod) then
        let '(generation, nodeInfoOut) := NodeInfo.AddPod generation nodeInfoOut p in
        let '(status, stateOut) := RunPreFilterExtensionAddPod f stateOut pod p nodeInfoOut in
        if IsSuccess status then addNominatedLoop f pods pod generation stateOut nodeInfoOut true
        else inl (Message status)
      else addNominatedLoop f pods pod generation stateOut nodeInfoOut podsAdded
  end.

Definition addNominatedPods (f : frameworkImpl) (npm : nominatedPodMap) (generation : Z) (pod : Pod)
    (state : CycleState) (nodeInfo : NodeInfo) : string + (bool * CycleState * NodeInfo) :=
  match NodeOf nodeInfo with
  | None => inr (false, state, nodeInfo)
  | Some nd =>
      match NominatedPodsForNode npm (node_Name nd) with
      | [] => inr (false, state, nodeInfo)
      | nominatedPods =>
          addNominatedLoop f nominatedPods pod generation (CloneState state) (Clone nodeInfo) false
      end
  end.

(** One run of all filters, merged. *)
Definition runFilters (f : frameworkImpl) (state : CycleState) (pod : Pod) (info : NodeInfo)
    : result string Status :=
  match Merge (statusOrder (RunFilterPlugins f state pod info)) with
  | None => Panic
  | Some status =>
      if negb (IsSuccess status) && negb (IsUnschedulable status) then Err (Message status) else Ok status
  end.

Definition PodPassesFiltersOnNode (f : frameworkImpl) (npm : nominatedPodMap) (generation : Z)
    (state : CycleState) (pod : Pod) (info : NodeInfo) : result string (bool * Status) :=
  match addNominatedPods f npm generation pod state info with
  | inl err => Err err
  | inr (podsAdded, stateToUse, nodeInfoToUse) =>
      match runFilters f stateToUse pod nodeInfoToUse with
      | Err e => Err e
      | Panic => Panic
      | Ok status =>
          if podsAdded && IsSuccess status then
            match runFilters f state pod info with
            | Err e => Err e
            | Panic => Panic
            | Ok status => Ok (IsSuccess status, status)
            end
          else Ok (IsSuccess status, status)
      end
  end.
End Filters.

(** ** The parallel search for nodes that fit ([findNodesThatPassFilters])

    A worker starts a piece - it checks the node and, when the node fits, adds one to
    [feasibleNodesLen] atomically - and then finishes it: it stores the node in the slot
    it got, or takes its addition back when there are enough nodes.  [holding] are the
    started pieces of nodes that fit, with the lengths they got.  No piece has to start
    after the search is cancelled, but those that a worker already has may. *)
Inductive nodeOutcome :=
  | Fits (nd : option Node)
  | DoesNotFit (nd : option Node) (status : Status)
  | CheckFailed (err : string)
  | CheckPanics.

Record search := {
  pending : list nat;
  holding : list (nat * nat);
  feasibleNodesLen : nat;
  slots : gmap nat (option Node);
  searchStatuses : gmap string Status;
  errCh : option string;
  cancelled : bool;
  crashed : bool
}.

Inductive searchEvent := StartPiece (i : nat) | FinishPiece (i : nat).

Definition newSearch (n : nat) : search :=
  {| pending := seq 0 n; holding := []; feasibleNodesLen := 0; slots := ∅; searchStatuses := ∅;
     errCh := None; cancelled := false; crashed := false |}.

(** The atomic step of a piece that checks its node. *)
Definition startPiece (outcome : nodeOutcome) (i : nat) (s : search) : search :=
  let pending := filter (fun j => j <> i) (pending s) in
  match outcome with
  | Fits nd =>
      let length := S (feasibleNodesLen s) in
      {| pending := pending; holding := holding s ++ [(i, length)]; feasibleNodesLen := length;
         slots := slots s; searchStatuses := searchStatuses s; errCh := errCh s;
         cancelled := cancelled s; crashed := crashed s |}
  | DoesNotFit nd status =>
      {| pending := pending; holding := holding s; feasibleNodesLen := feasibleNodesLen s;
         slots := slots s;
         searchStatuses := if IsSuccess status then searchStatuses s
                           else match nd with
                                | Some nd => <[node_Name nd := status]> (searchStatuses s)
                                | None => searchStatuses s
                                end;
         errCh := errCh s; cancelled := cancelled s;
         crashed := crashed s || (negb (IsSuccess status) && bool_decide (nd = None)) |}
  | CheckFailed err =>
      {| pending := pending; holding := holding s; feasibleNodesLen := feasibleNodesLen s;
         slots := slots s; searchStatuses := searchStatuses s;
         errCh := match errCh s with None => Some err | Some e => Some e end;
         cancelled := true; crashed := crashed s |}
  | CheckPanics =>
      {| pending := pending; holding := holding s; feasibleNodesLen := feasibleNodesLen s;
         slots := slots s; searchStatuses := searchStatuses s; errCh := errCh s;
         cancelled := cancelled s; crashed := true |}
  end.

(** The second step of a piece whose node fits. *)
Definition finishPiece (numNodesToFind : nat) (nd : option Node) (i length : nat) (s : search) : search :=
  let holding := filter (fun e => e.1 <> i) (holding s) in
  if decide (numNodesToFind < length) then
    {| pending := pending s; holding := holding; feasibleNodesLen := feasibleNodesLen s - 1;
       slots := slots s; searchStatuses := searchStatuses s; errCh := errCh s;
       cancelled := true; crashed := crashed s |}
  else
    {| pending := pending s; holding := holding; feasibleNodesLen := feasibleNodesLen s;
       slots := <[length - 1 := nd]> (slots s); searchStatuses := searchStatuses s; errCh := errCh s;
       cancelled := cancelled s; crashed := crashed s |}.

Section Search.
Context (check : nat -> nodeOutcome) (numNodesToFind : nat).

(** The step of an event; [None] when no worker can take it. *)
Definition searchStep (s : search) (e : searchEvent) : option search :=
  match e with
  | StartPiece i =>
      if decide (i ∈ pending s) then Some (startPiece (check i) i s) else None
  | FinishPiece i =>
      '(_, length) ← list.head (filter (fun e => e.1 = i) (holding s));
      match check i with
      | Fits nd => Some (finishPiece numNodesToFind nd i length s)
      | _ => None
      end
  end.

Fixpoint runSearch (s : search) (events : list searchEvent) : option search :=
  match events with
  | [] => Some s
  | e :: events => s' ← searchStep s e; runSearch s' events
  end.

(** [parallelize.Until] returns when the workers are done. *)
Definition searchDone (s : search) : Prop :=
  holding s = [] /\ (pending s = [] \/ cancelled s = true).
#[export] Instance searchDone_dec s : Decision (searchDone s).
Proof. unfold searchDone. apply _. Defined.
End Search.

(** [feasibleNodes[:feasibleNodesLen]] *)
Definition feasibleNodes (s : search) : list (option Node) :=
  (fun k => default None (slots s !! k)) <$> seq 0 (feasibleNodesLen s).

Section FindNodes.
Context `{LabelsLib, StateData, PodPriority} (statusOrder : gmap string Status -> list Status).

Definition checkNode (f : frameworkImpl) (npm : nominatedPodMap) (generation : Z) (state : CycleState)
    (pod : Pod) (nodeInfo : NodeInfo) : nodeOutcome :=
  match PodPassesFiltersOnNode statusOrder f npm generation state pod nodeInfo with
  | Ok (true, _) => Fits (NodeOf nodeInfo)
  | Ok (false, status) => DoesNotFit (NodeOf nodeInfo) status
  | Err err => CheckFailed err
  | Panic => CheckPanics
  end.

(** Piece [i] examines the nodes starting from where the last cycle left off. *)
Definition nodeAtPiece (allNodes : list NodeInfo) (nextStartNodeIndex i : nat) : option NodeInfo :=
  allNodes !! ((nextStartNodeIndex + i) mod length allNodes).

Definition checkPiece (f : frameworkImpl) (npm : nominatedPodMap) (generation : Z) (state : CycleState)
    (pod : Pod) (allNodes : list NodeInfo) (nextStartNodeIndex i : nat) : nodeOutcome :=
  match nodeAtPiece allNodes nextStartNodeIndex i with
  | None => CheckPanics
  | Some info => checkNode f npm generation state pod info
  end.

(** The nodes that fit, their statuses and the next start index, for the
    interleaving [events]; [None] when [events] is not a complete interleaving. *)
Definition findNodesThatPassFilters (f : frameworkImpl) (npm : nominatedPodMap) (generation : Z)
    (percentageOfNodesToScore : Z) (nextStartNodeIndex : nat) (events : list searchEvent)
    (state : CycleState) (pod : Pod) (allNodes : list NodeInfo)
    : option (result string (list (option Node)) * gmap string Status * nat) :=
  let n := length allNodes in
  let numNodesToFind := Z.to_nat (numFeasibleNodesToFind percentageOfNodesToScore (wrap32 (Z.of_nat n))) in
  if decide (n = 0) then Some (Panic, ∅, nextStartNodeIndex)
  else if negb (HasFilterPlugins f) then
    let nodes := (fun i => nodeAtPiece allNodes nextStartNodeIndex i ≫= NodeOf) <$> seq 0 numNodesToFind in
    Some (Ok nodes, ∅, (nextStartNodeIndex + length nodes) mod n)
  else
    s ← runSearch (checkPiece f npm generation state pod allNodes nextStartNodeIndex) numNodesToFind
          (newSearch n) events;
    if decide (searchDone s) then
      let processedNodes := feasibleNodesLen s + size (searchStatuses s) in
      Some (if crashed s then Panic
            else match errCh s with Some err => Err err | None => Ok (feasibleNodes s) end,
            searchStatuses s, (nextStartNodeIndex + processedNodes) mod n)
    else None.

(** The statuses when the prefilter plugins reject the pod; [None] is a panic. *)
Definition sameStatus (status : Status) (allNodes : list NodeInfo) : option (gmap string Status) :=
  foldl (fun acc info => statuses ← acc; nd ← NodeOf info; Some (<[node_Name nd := status]> statuses))
    (Some ∅) allNodes.

(** The feasible nodes with the statuses of the others, the next start index and the
    cycle state.  A nil node panics at its first use, which every caller makes. *)
Definition findNodesThatFitPod (f : frameworkImpl) (extenders : list Extender) (npm : nominatedPodMap)
    (generation : Z) (percentageOfNodesToScore : Z) (nextStartNodeIndex : nat) (events : list searchEvent)
    (state : CycleState) (pod : Pod) (allNodes : list NodeInfo)
    : option (result string (list Node * gmap string Status) * nat * CycleState) :=
  let '(s, state) := RunPreFilterPlugins f state pod in
  if IsSuccess s then
    '(found, statuses, next) ← findNodesThatPassFilters f npm generation percentageOfNodesToScore
        nextStartNodeIndex events state pod allNodes;
    Some (match found with
          | Ok nodes =>
              match mapM id nodes with
              | None => Panic
              | Some nodes =>
                  match findNodesThatPassExtenders extenders pod nodes statuses with
                  | inl err => Err err
                  | inr (nodes, statuses) => Ok (nodes, statuses)
                  end
              end
          | Err err => Err err
          | Panic => Panic
          end, next, state)
  else if IsUnschedulable s then
    Some (match sameStatus s allNodes with Some statuses => Ok ([], statuses) | None => Panic end,
          nextStartNodeIndex, state)
  else Some (Err (Message s), nextStartNodeIndex, state).
End FindNodes.

(** ** The scores of the feasible nodes *)
Section Prioritize.
(** [extenderv1.MaxExtenderPriority] of k8s.io/kube-scheduler. *)
Context `{StateData} (MaxExtenderPriority : Z).

Definition addScore (i : nat) (l : NodeScoreList) (total : option Z) : option Z :=
  total ← total; ns ← l !! i; Some (total +₆₄ Score ns).

(** The sum over the plugins; [None] when a plugin has no score at the index. *)
Definition summarize (scoresMap : PluginToNodeScores) (i : nat) : option Z :=
  map_fold (fun _ => addScore i) (Some 0%Z) scoresMap.

Definition addHostScore (weight : Z) (combined : gmap string Z) (hs : string * Z) : gmap string Z :=
  <[hs.1 := default 0%Z (combined !! hs.1) +₆₄ (hs.2 *₆₄ weight)]> combined.

(** One goroutine per interested extender: [order] is the order of their critical sections. *)
Definition extenderScores (extenders : list Extender) (order : list nat) (pod : Pod) (nodes : list Node)
    : gmap string Z :=
  foldl (fun combined i =>
    match extenders !! i with
    | None => combined
    | Some extender =>
        if negb (IsInterested extender pod) then combined
        else match Prioritize extender pod nodes with
             | inl _ => combined
             | inr (prioritizedList, weight) => foldl (addHostScore weight) combined prioritizedList
             end
    end) ∅ order.

(** The orders are those of the workers of [RunScorePlugins]. *)
Definition prioritizeNodes (f : frameworkImpl) (extenders : list Extender)
    (orderNodes orderNormalize orderWeight orderExtenders : list nat)
    (state : CycleState) (pod : Pod) (nodes : list Node) : result string NodeScoreList * CycleState :=
  if bool_decide (length extenders = 0) && negb (HasScorePlugins f) then
    (Ok ((fun nd => {| score_Name := node_Name nd; Score := 1 |}) <$> nodes), state)
  else
    let '(preScoreStatus, state) := RunPreScorePlugins f state pod nodes in
    if negb (IsSuccess preScoreStatus) then (Err (Message preScoreStatus), state)
    else
      match RunScorePlugins f orderNodes orderNormalize orderWeight state pod nodes with
      | (None, scoreStatus) => (Err (Message scoreStatus), state)
      | (Some scoresMap, _) =>
          match mapM (summarize scoresMap) (seq 0 (length nodes)) with
          | None => (Panic, state)
          | Some totals =>
              let combined := if decide (length extenders = 0) then ∅
                              else extenderScores extenders orderExtenders pod nodes in
              (Ok (zip_with (fun nd total =>
                     {| score_Name := node_Name nd;
                        Score := if decide (length extenders = 0) then total
                                 else total +₆₄ (default 0%Z (combined !! node_Name nd) *₆₄
                                                 Z.quot MaxNodeScore MaxExtenderPriority) |})
                   nodes totals), state)
          end
      end.
End Prioritize.

(** ** The claims of a pod *)
Record Claim := { claim_Name : string; claim_Deleted : bool }.

Section BasicChecks.
(** [pvcLister.PersistentVolumeClaims(namespace).Get(name)], whose error is a message,
    and [metav1.IsControlledBy]. *)
Context (pvcLister : string -> string -> string + Claim) (IsControlledBy : Claim -> Pod -> bool).

Definition claimOf (pod : Pod) (volume : Volume) : option (string * bool) :=
  match PersistentVolumeClaim volume with
  | Some pvcName => Some (pvcName, false)
  | None =>
      if Ephemeral volume then Some (String.concat "" [pod_Name pod; "-"; vol_Name volume], true) else None
  end.

Fixpoint checkVolumes (pod : Pod) (volumes : list Volume) : option string :=
  match volumes with
  | [] => None
  | volume :: volumes =>
      match claimOf pod volume with
      | None => checkVolumes pod volumes
      | Some (pvcName, ephemeral) =>
          match pvcLister (pod_Namespace pod) pvcName with
          | inl err => Some err
          | inr pvc =>
              if claim_Deleted pvc then
                Some (String.concat "" ["persistentvolumeclaim "; quoted (claim_Name pvc); " is being deleted"])
              else if ephemeral && negb (IsControlledBy pvc pod) then
                Some (String.concat "" ["persistentvolumeclaim "; quoted (claim_Name pvc);
                        " was not created for the pod"])
              else checkVolumes pod volumes
          end
      end
  end.

(** The error, if any. *)
Definition podPassesBasicChecks (pod : Pod) : option string := checkVolumes pod (Volumes (pod_Spec pod)).
End BasicChecks.

(** ** One scheduling cycle *)
Record ScheduleResult := { SuggestedHost : string; EvaluatedNodes : nat; FeasibleNodes : nat }.

Inductive scheduleError :=
  | SnapshotError (err : snapshotError)
  | ErrNoNodesAvailable
  | FitError (NumAllNodes : Z) (FilteredNodesStatuses : gmap string Status)
  | OtherError (err : string).

Record genericScheduler := {
  scheduler_cache : schedulerCache;
  nodeInfoSnapshot : Snapshot;
  scheduler_extenders : list Extender;
  percentageOfNodesToScore : Z;
  nextStartNodeIndex : nat
}.

(** What the run time decides in one cycle. *)
Record schedule := {
  searchEvents : list searchEvent;
  scoreOrders : list nat * list nat * list nat;
  extenderOrder : list nat;
  randoms : list nat
}.

Section Schedule.
Context `{LabelsLib, StateData, PodPriority} (statusOrder : gmap string Status -> list Status)
  (mapOrder : list string -> list string) (MaxExtenderPriority : Z)
  (pvcLister : string -> string -> string + Claim) (IsControlledBy : Claim -> Pod -> bool).

(** The node infos of the list of the snapshot. *)
Definition snapshotNodes (s : Snapshot) : option (list NodeInfo) :=
  mapM (fun l => infos s !! l) (SnapshotList s).

(** The last part of [Schedule], for the feasible nodes. *)
Definition selectNode (f : frameworkImpl) (extenders : list Extender) (run : schedule) (state : CycleState)
    (pod : Pod) (feasibleNodes : list Node) (statuses : gmap string Status)
    : result scheduleError ScheduleResult * CycleState :=
  match feasibleNodes with
  | [nd] =>
      (Ok {| SuggestedHost := node_Name nd; EvaluatedNodes := 1 + size statuses; FeasibleNodes := 1 |}, state)
  | _ =>
      let '(order1, order2, order3) := scoreOrders run in
      let '(scores, state) := prioritizeNodes MaxExtenderPriority f extenders order1 order2 order3
        (extenderOrder run) state pod feasibleNodes in
      (match scores with
       | Ok priorityList =>
           match selectHost (randoms run) priorityList with
           | Some host => Ok {| SuggestedHost := host;
               EvaluatedNodes := length feasibleNodes + size statuses;
               FeasibleNodes := length feasibleNodes |}
           | None => Err (OtherError "empty priorityList")
           end
       | Err err => Err (OtherError err)
       | Panic => Panic
       end, state)
  end.

(** [None] when the given schedule is not one of this cycle. *)
Definition Schedule (f : frameworkImpl) (npm : nominatedPodMap) (run : schedule) (state : CycleState)
    (pod : Pod) (g : genericScheduler)
    : option (result scheduleError ScheduleResult * genericScheduler * CycleState) :=
  match podPassesBasicChecks pvcLister IsControlledBy pod with
  | Some err => Some (Err (OtherError err), g, state)
  | None =>
      '(updated, (c, s)) ← UpdateSnapshot mapOrder (scheduler_cache g) (nodeInfoSnapshot g);
      let g := {| scheduler_cache := c; nodeInfoSnapshot := s; scheduler_extenders := scheduler_extenders g;
                  percentageOfNodesToScore := percentageOfNodesToScore g;
                  nextStartNodeIndex := nextStartNodeIndex g |} in
      match updated with
      | Err err => Some (Err (SnapshotError err), g, state)
      | Panic => Some (Panic, g, state)
      | Ok _ =>
          if (SnapshotNumNodes s =? 0)%Z then Some (Err ErrNoNodesAvailable, g, state)
          else
            allNodes ← snapshotNodes s;
            '(found, next, state) ← findNodesThatFitPod statusOrder f (scheduler_extenders g) npm
                (generation c) (percentageOfNodesToScore g) (nextStartNodeIndex g) (searchEvents run)
                state pod allNodes;
            let g := {| scheduler_cache := c; nodeInfoSnapshot := s;
                        scheduler_extenders := scheduler_extenders g;
                        percentageOfNodesToScore := percentageOfNodesToScore g;
                        nextStartNodeIndex := next |} in
            Some (match found with
                  | Ok ([], statuses) => (Err (FitError (SnapshotNumNodes s) statuses), g, state)
                  | Ok (nodes, statuses) =>
                      let '(res, state) := selectNode f (scheduler_extenders g) run state pod nodes statuses in
                      (res, g, state)
                  | Err err => (Err (OtherError err), g, state)
                  | Panic => (Panic, g, state)
                  end)
      end
  end.
End Schedule.
