(* ===== verification/SchedulerSpec.v ===== *)
(** * What a scheduling cycle guarantees

    The number of nodes that are searched, the parallel search itself as a step
    relation with its invariant, the selection of a host and the whole of
    [Schedule]. *)
From S2P Require Import Prelude Api NodeInfo Nominator PriorityQueue Cache Snapshot Framework GenericScheduler.
Local Open Scope go_scope.

(** ** The parallel search *)
Section Search.
Context (check : nat -> nodeOutcome) (num n : nat).
Implicit Types (s : search) (kept : list (nat * nat)).

Definition fits (i : nat) : bool := match check i with Fits _ => true | _ => false end.

(** The pieces that hold a slot and those that have to give their length back. *)
Definition small (l : list (nat * nat)) : list (nat * nat) := filter (fun e => ~ num < e.2) l.
Definition big (l : list (nat * nat)) : list (nat * nat) := filter (fun e => num < e.2) l.

Definition panics (o : nodeOutcome) : bool :=
  match o with
  | CheckPanics => true
  | DoesNotFit None status => negb (IsSuccess status)
  | _ => false
  end.

(** The invariant: [kept] are the finished pieces with a slot, [unfit] those whose node
    did not fit (or could not be checked) and [dropped] those that came too late. *)
Record searchInv (kept : list (nat * nat)) (unfit dropped : list nat) s : Prop := {
  si_pieces : kept.*1 ++ (holding s).*1 ++ unfit ++ dropped ++ pending s ≡ₚ seq 0 n;
  si_slots : (kept ++ small (holding s)).*2 ≡ₚ seq 1 (length (kept ++ small (holding s)));
  si_bound : length (kept ++ small (holding s)) <= num;
  si_len : feasibleNodesLen s = length (kept ++ small (holding s)) + length (big (holding s));
  si_full : big (holding s) <> [] \/ dropped <> [] -> length (kept ++ small (holding s)) = num;
  si_fits i l : (i, l) ∈ kept ++ holding s -> fits i = true;
  si_dropped i : i ∈ dropped -> fits i = true;
  si_unfit i : i ∈ unfit -> fits i = false;
  si_nodes i l : (i, l) ∈ kept -> exists nd, check i = Fits nd /\ slots s !! (l - 1) = Some nd;
  si_cancelled : cancelled s = true -> is_Some (errCh s) \/ dropped <> [];
  si_statuses name st : searchStatuses s !! name = Some st -> exists i nd, i ∈ unfit /\
    check i = DoesNotFit (Some nd) st /\ node_Name nd = name /\ IsSuccess st = false;
  si_reported i : crashed s = false -> errCh s = None -> i ∈ unfit ->
    exists nd st, check i = DoesNotFit nd st /\
      (IsSuccess st = false -> exists nd', nd = Some nd' /\ is_Some (searchStatuses s !! node_Name nd'));
  si_failed err : errCh s = Some err -> exists i, i ∈ unfit /\ check i = CheckFailed err;
  si_crashed : crashed s = true -> exists i, i ∈ unfit /\ panics (check i) = true
}.

Lemma searchInv_new : searchInv [] [] [] (newSearch n).
Proof. split; cbn; try done; try lia; try set_solver. Qed.

Lemma pieces_NoDup kept unfit dropped s : searchInv kept unfit dropped s ->
  NoDup (holding s).*1 /\ NoDup (pending s) /\ NoDup kept.*1.
Proof.
  intros Hi. assert (Hnd : NoDup (kept.*1 ++ (holding s).*1 ++ unfit ++ dropped ++ pending s)).
  { rewrite (si_pieces _ _ _ _ Hi). apply NoDup_seq. }
  apply NoDup_app in Hnd as (?&_&Hnd). apply NoDup_app in Hnd as (?&_&Hnd).
  apply NoDup_app in Hnd as (_&_&Hnd). by apply NoDup_app in Hnd as (_&_&?).
Qed.

Lemma pending_take_out kept unfit dropped s i : searchInv kept unfit dropped s -> i ∈ pending s ->
  pending s ≡ₚ i :: filter (fun j => j <> i) (pending s).
Proof.
  intros Hi Hin. apply (take_out_key id); [|done]. rewrite list_fmap_id. by eapply pieces_NoDup.
Qed.

Lemma holding_take_out kept unfit dropped s i l : searchInv kept unfit dropped s -> (i, l) ∈ holding s ->
  holding s ≡ₚ (i, l) :: filter (fun e => e.1 <> i) (holding s).
Proof. intros Hi Hin. apply (take_out_key fst (holding s) (i, l)); [exact (proj1 (pieces_NoDup _ _ _ _ Hi))|done]. Qed.

(** Starting a piece whose node does not fit, in whatever way. *)
Lemma start_unfit kept unfit dropped s i (s' : search) :
  searchInv kept unfit dropped s -> i ∈ pending s -> fits i = false ->
  pending s' = filter (fun j => j <> i) (pending s) -> holding s' = holding s ->
  feasibleNodesLen s' = feasibleNodesLen s -> slots s' = slots s ->
  (cancelled s' = true -> cancelled s = true \/ is_Some (errCh s')) ->
  (is_Some (errCh s) -> is_Some (errCh s')) ->
  (crashed s = true -> crashed s' = true) ->
  (forall name st, searchStatuses s' !! name = Some st ->
    searchStatuses s !! name = Some st \/
    exists nd, check i = DoesNotFit (Some nd) st /\ node_Name nd = name /\ IsSuccess st = false) ->
  (forall name, is_Some (searchStatuses s !! name) -> is_Some (searchStatuses s' !! name)) ->
  (crashed s' = false -> errCh s' = None -> exists nd st, check i = DoesNotFit nd st /\
      (IsSuccess st = false -> exists nd', nd = Some nd' /\ is_Some (searchStatuses s' !! node_Name nd'))) ->
  (forall err, errCh s' = Some err -> errCh s = Some err \/ check i = CheckFailed err) ->
  (crashed s' = true -> crashed s = true \/ panics (check i) = true) ->
  searchInv kept (i :: unfit) dropped s'.
Proof.
  intros Hi Hin Hf Hp Hh Hl Hsl Hc He Hcr Hst Hkeep Hrep Herr Hpanic.
  pose proof (pending_take_out _ _ _ _ _ Hi Hin) as Hout. destruct Hi.
  split; rewrite ?Hh, ?Hl, ?Hsl; try done.
  - rewrite <- si_pieces0, Hp. rewrite Hout at 2. do 2 apply Permutation_app_head.
    cbn. rewrite !app_assoc. apply Permutation_middle.
  - set_solver.
  - intros [[?|?]%si_cancelled0|?]%Hc; auto.
  - intros name st [(j & nd & ? & ?)%si_statuses0|(nd & ?)]%Hst; [exists j, nd|exists i, nd]; set_solver.
  - intros j Hcr' He' [->|Hj]%elem_of_cons; [auto|].
    assert (crashed s = false) by (destruct (crashed s); [rewrite Hcr in Hcr'; done|done]).
    assert (errCh s = None) by (destruct (errCh s); [destruct He; [done|congruence]|done]).
    destruct (si_reported0 j) as (nd & st & ? & Hr); [done..|]. exists nd, st. split; [done|].
    intros (nd' & ? & ?)%Hr. eauto.
  - intros err [(j & ? & ?)%si_failed0|?]%Herr; [exists j|exists i]; set_solver.
  - intros [(j & ? & ?)%si_crashed0|?]%Hpanic; [exists j|exists i]; set_solver.
Qed.

Lemma start_fits kept unfit dropped s i nd :
  searchInv kept unfit dropped s -> i ∈ pending s -> check i = Fits nd ->
  searchInv kept unfit dropped (startPiece (Fits nd) i s).
Proof.
  intros Hi Hin Hf.
  pose proof (pending_take_out _ _ _ _ _ Hi Hin) as Hout. destruct Hi.
  assert (Hfit : fits i = true) by (unfold fits; by rewrite Hf).
  set (L := S (feasibleNodesLen s)). assert (HL : L = S (feasibleNodesLen s)) by done.
  assert (Hcase : (L <= num /\ small [(i, L)] = [(i, L)] /\ big [(i, L)] = [] /\ big (holding s) = []) \/
      (num < L /\ small [(i, L)] = [] /\ big [(i, L)] = [(i, L)] /\
       length (kept ++ small (holding s)) = num)).
  { unfold small, big in *. destruct (decide (num < L)).
    - right. rewrite !filter_cons, !(decide_False (P := ~ _)), !(decide_True (P := num < _)) by (cbn; lia).
      split_and!; try done.
      destruct (filter (fun e => num < e.2) (holding s)) eqn:Hb; [cbn in si_len0; lia|].
      apply si_full0. by left.
    - left. rewrite !filter_cons, !(decide_True (P := ~ _)), !(decide_False (P := num < _)) by (cbn; lia).
      split_and!; try done; [lia|].
      destruct (filter (fun e => num < e.2) (holding s)) as [|e b] eqn:Hb; [done|].
      rewrite si_full0 in si_len0 by (by left). lia. }
  split; cbn [startPiece holding pending feasibleNodesLen slots searchStatuses errCh cancelled crashed];
    fold L; unfold small, big in *; rewrite ?filter_app; try done.
  - rewrite <- si_pieces0. rewrite Hout at 2. rewrite fmap_app. cbn.
    rewrite <- (app_assoc _ [i]). do 2 apply Permutation_app_head. cbn.
    rewrite (app_assoc unfit dropped (i :: _)), (app_assoc unfit dropped). apply Permutation_middle.
  - destruct Hcase as [(? & -> & _ & Hb)|(? & -> & _ & _)]; [|by rewrite app_nil_r].
    rewrite app_assoc, fmap_app, si_slots0, (length_app _ [_]). cbn [length fmap list_fmap snd].
    rewrite Nat.add_1_r, seq_S. unfold L. rewrite si_len0, Hb. cbn. by rewrite Nat.add_0_r.
  - destruct Hcase as [(? & -> & _ & Hb)|(? & -> & _ & _)]; [|by rewrite app_nil_r].
    rewrite app_assoc, (length_app _ [_]). cbn [length]. rewrite Hb in si_len0. cbn in *. lia.
  - destruct Hcase as [(? & -> & -> & Hb)|(? & -> & -> & _)];
      rewrite ?app_nil_r, !length_app in *; cbn [length]; unfold L; lia.
  - destruct Hcase as [(? & -> & -> & Hb)|(? & -> & -> & ?)]; rewrite ?app_nil_r; [|done].
    rewrite Hb in *. intros [?|Hd]; [done|]. specialize (si_full0 (or_intror Hd)). cbn in *. lia.
  - set_solver.
Qed.

Lemma finish_inv kept unfit dropped s i l nd :
  searchInv kept unfit dropped s -> (i, l) ∈ holding s -> check i = Fits nd ->
  exists kept' dropped', searchInv kept' unfit dropped' (finishPiece num nd i l s).
Proof.
  intros Hi Hin Hf.
  pose proof (holding_take_out _ _ _ _ _ _ Hi Hin) as Hout. destruct Hi.
  set (h := filter (fun e => e.1 <> i) (holding s)) in *.
  assert (Hfit : fits i = true) by (unfold fits; by rewrite Hf).
  assert (Hsub : forall e, e ∈ h -> e ∈ holding s) by (intros e; rewrite Hout; set_solver).
  unfold finishPiece. destruct (decide (num < l)) as [Hl|Hl].
  - assert (Hs : small (holding s) ≡ₚ small h /\ big (holding s) ≡ₚ (i, l) :: big h).
    { unfold small, big. rewrite Hout, !filter_cons.
      by rewrite !(decide_False (P := ~ _)), !(decide_True (P := num < _)) by (cbn; lia). }
    destruct Hs as [Hs Hb]. exists kept, (dropped ++ [i]).
    assert (Hfull : length (kept ++ small h) = num).
    { rewrite <- Hs. apply si_full0. left. intros Hn. rewrite Hn in Hb. by apply Permutation_nil_cons in Hb. }
    split; cbn [holding pending feasibleNodesLen slots searchStatuses errCh cancelled crashed]; fold h;
      try done.
    + rewrite <- si_pieces0. rewrite Hout. cbn. apply Permutation_app_head.
      rewrite (Permutation_middle _ _ i). apply Permutation_app_head.
      rewrite (Permutation_middle _ _ i). apply Permutation_app_head.
      rewrite <- app_assoc. cbn. by rewrite <- Permutation_middle.
    + by rewrite <- Hs.
    + lia.
    + rewrite si_len0, Hs, Hb. cbn. lia.
    + set_solver.
    + set_solver.
    + right. by destruct dropped.
  - assert (Hs : small (holding s) ≡ₚ (i, l) :: small h /\ big (holding s) ≡ₚ big h).
    { unfold small, big. rewrite Hout, !filter_cons.
      by rewrite !(decide_True (P := ~ _)), !(decide_False (P := num < _)) by (cbn; lia). }
    destruct Hs as [Hs Hb]. exists (kept ++ [(i, l)]), dropped.
    assert (Hk : (kept ++ [(i, l)]) ++ small h ≡ₚ kept ++ small (holding s)) by (by rewrite Hs, <- app_assoc).
    assert (Hl1 : NoDup (kept ++ small (holding s)).*2) by (rewrite si_slots0; apply NoDup_seq).
    assert (Hpos : forall j k, (j, k) ∈ kept ++ small (holding s) -> 1 <= k).
    { intros j k Hjk. apply (list_elem_of_fmap_2 snd) in Hjk. rewrite si_slots0 in Hjk.
      apply elem_of_seq in Hjk. cbn in Hjk. lia. }
    split; cbn [holding pending feasibleNodesLen slots searchStatuses errCh cancelled crashed]; fold h;
      try done.
    + rewrite <- si_pieces0. rewrite Hout. rewrite fmap_app. cbn. by rewrite <- app_assoc.
    + by rewrite Hk.
    + by rewrite Hk.
    + by rewrite Hk, <- Hb.
    + rewrite Hk. intros [Hx|Hx]; apply si_full0; [left|by right].
      intros Hn. rewrite Hn in Hb. by apply Permutation_nil in Hb.
    + set_solver.
    + intros j k [Hj|[= -> ->]%list_elem_of_singleton]%elem_of_app; [|exists nd; by rewrite lookup_insert_eq].
      destruct (si_nodes0 j k Hj) as (nd' & ? & ?). exists nd'. split; [done|].
      rewrite lookup_insert_ne; [done|]. intros Heq.
      rewrite Hs, fmap_app, NoDup_app in Hl1. cbn in Hl1. destruct Hl1 as (_ & Hl1 & _).
      apply (Hl1 k); [by apply (list_elem_of_fmap_2 snd) in Hj|].
      assert (1 <= k) by (apply (Hpos j); set_solver).
      assert (1 <= l) by (apply (Hpos i); rewrite Hs; set_solver).
      replace k with l by lia. set_solver.
Qed.

Lemma head_holding s i j l : list.head (filter (fun e => e.1 = i) (holding s)) = Some (j, l) ->
  (i, l) ∈ holding s.
Proof.
  destruct (filter _ (holding s)) as [|x xs] eqn:Hf; [done|]. intros [= ->].
  assert (Hx : (j, l) ∈ filter (fun e => e.1 = i) (holding s)) by (rewrite Hf; set_solver).
  by apply list_elem_of_filter in Hx as [<- ?].
Qed.

Lemma searchStep_inv kept unfit dropped s e s' :
  searchInv kept unfit dropped s -> searchStep check num s e = Some s' ->
  exists kept' unfit' dropped', searchInv kept' unfit' dropped' s'.
Proof.
  intros Hi. destruct e as [i|i]; cbn.
  - case_decide as Hin; [intros [= <-]|done].
    destruct (check i) as [nd|nd st|err|] eqn:Hc.
    + exists kept, unfit, dropped. by apply start_fits.
    + exists kept, (i :: unfit), dropped.
      apply (start_unfit _ _ _ _ _ _ Hi Hin); cbn; try done; unfold fits; rewrite ?Hc; eauto.
      * intros ->. done.
      * intros name st'. destruct (IsSuccess st) eqn:Hst; [auto|]. destruct nd as [nd|]; [|auto].
        intros [[<- <-]|[? ?]]%lookup_insert_Some; eauto.
      * intros name Hx. destruct (IsSuccess st); [done|]. destruct nd; [|done].
        apply lookup_insert_is_Some'. by right.
      * intros Hcr _. exists nd, st. split; [done|]. intros Hst. rewrite Hst in *.
        destruct nd as [nd|]; [|rewrite bool_decide_true, orb_true_r in Hcr; done].
        exists nd. by rewrite lookup_insert_eq.
      * intros [?|[Hs Hnd]%andb_true_iff]%orb_true_iff; [auto|]. apply bool_decide_eq_true in Hnd as ->. auto.
    + exists kept, (i :: unfit), dropped.
      apply (start_unfit _ _ _ _ _ _ Hi Hin); cbn; try done; unfold fits; rewrite ?Hc; eauto.
      * right. by destruct (errCh s).
      * by intros [? ->].
      * by destruct (errCh s).
      * destruct (errCh s); intros ? [= ->]; auto.
    + exists kept, (i :: unfit), dropped.
      apply (start_unfit _ _ _ _ _ _ Hi Hin); cbn; try done; unfold fits; rewrite ?Hc; eauto.
  - destruct (list.head _) as [[j l]|] eqn:Hh; cbn; [|done].
    apply head_holding in Hh as Hin.
    destruct (check i) as [nd| | |] eqn:Hc; try done. intros [= <-].
    destruct (finish_inv _ _ _ _ _ _ _ Hi Hin Hc) as (kept' & dropped' & ?). eauto.
Qed.

Lemma runSearch_inv events : forall s s' kept unfit dropped,
  searchInv kept unfit dropped s -> runSearch check num s events = Some s' ->
  exists kept' unfit' dropped', searchInv kept' unfit' dropped' s'.
Proof.
  induction events as [|e events IH]; cbn; intros s s' kept unfit dropped Hi; [intros [= <-]; eauto|].
  destruct (searchStep _ _ s e) as [s1|] eqn:Hs; cbn; [|done].
  destruct (searchStep_inv _ _ _ _ _ _ Hi Hs) as (? & ? & ? & ?). eauto.
Qed.

Lemma runSearch_reachable events s : runSearch check num (newSearch n) events = Some s ->
  exists kept unfit dropped, searchInv kept unfit dropped s.
Proof. apply runSearch_inv with [] [] []. apply searchInv_new. Qed.

Lemma pieces_below kept unfit dropped s i : searchInv kept unfit dropped s ->
  i ∈ kept.*1 \/ i ∈ unfit \/ i ∈ dropped -> i < n.
Proof.
  intros Hi Hin. enough (H : i ∈ seq 0 n) by (apply elem_of_seq in H; lia).
  rewrite <- (si_pieces _ _ _ _ Hi). set_solver.
Qed.

(** The pieces in the order of their slots. *)
Lemma slot_order kept unfit dropped s : searchInv kept unfit dropped s -> holding s = [] ->
  exists l, l ≡ₚ kept /\ l.*2 = seq 1 (length kept) /\
    Forall2 (fun i nd => i < n /\ check i = Fits nd) l.*1 (feasibleNodes s).
Proof.
  intros Hi Hh. pose proof (si_slots _ _ _ _ Hi) as Hs. pose proof (si_len _ _ _ _ Hi) as Hlen.
  rewrite Hh in Hs, Hlen. cbn in Hs, Hlen. rewrite app_nil_r in Hs, Hlen. rewrite Nat.add_0_r in Hlen.
  symmetry in Hs. destruct (Permutation_map_inv snd _ Hs) as (l & Hl & Hp). exists l. symmetry in Hp, Hl.
  change (map snd l) with l.*2 in Hl.
  split_and!; [done|done|]. unfold feasibleNodes. rewrite Hlen, <- Hp, Forall2_fmap.
  assert (Hlen' : length l = length kept) by (by rewrite Hp).
  apply Forall2_same_length_lookup_2; [by rewrite length_seq|].
  intros k [i k'] k'' Hlk [-> Hk]%lookup_seq.
  assert (Hk' : (snd <$> l) !! k = Some (1 + k)) by (rewrite Hl, lookup_seq_lt by lia; done).
  rewrite list_lookup_fmap, Hlk in Hk'. injection Hk' as ->. cbn.
  assert (Hin : (i, S k) ∈ kept) by (rewrite <- Hp; by eapply list_elem_of_lookup_2).
  destruct (si_nodes _ _ _ _ Hi _ _ Hin) as (nd & Hnd & Hsl). split.
  - eapply pieces_below; [exact Hi|]. left. by apply (list_elem_of_fmap_2 fst) in Hin.
  - by rewrite Nat.sub_succ, Nat.sub_0_r in Hsl; rewrite Hsl.
Qed.

Definition numFitting : nat := length (filter (fun i => fits i = true) (seq 0 n)).

(** The number of nodes that a complete search keeps. *)
Lemma kept_length kept unfit dropped s : searchInv kept unfit dropped s -> searchDone s -> errCh s = None ->
  length kept = min num numFitting.
Proof.
  intros Hi [Hh Hd] He. pose proof (si_pieces _ _ _ _ Hi) as Hp. rewrite Hh in Hp. cbn in Hp.
  assert (Hsplit : filter (fun i => fits i = true) (kept.*1 ++ unfit ++ dropped ++ pending s) ≡ₚ
    kept.*1 ++ dropped ++ filter (fun i => fits i = true) (pending s)).
  { rewrite !filter_app, (filter_keeps_all _ kept.*1), (filter_drops_all _ unfit), (filter_keeps_all _ dropped);
      [done|..].
    - intros i. apply (si_dropped _ _ _ _ Hi).
    - intros i ->%(si_unfit _ _ _ _ Hi). done.
    - intros i ([? l] & -> & Hin)%list_elem_of_fmap. apply (si_fits _ _ _ _ Hi _ l). set_solver. }
  rewrite Hp in Hsplit. unfold numFitting. rewrite Hsplit, !length_app, length_fmap.
  pose proof (si_bound _ _ _ _ Hi) as Hb. pose proof (si_full _ _ _ _ Hi) as Hf.
  rewrite Hh in Hb, Hf. cbn in Hb, Hf. rewrite app_nil_r in Hb, Hf.
  destruct dropped as [|d dropped]; [|rewrite Hf by (by right); cbn; lia].
  destruct Hd as [->|Hc]; [cbn; lia|].
  destruct (si_cancelled _ _ _ _ Hi Hc) as [[? ?]|?]; congruence.
Qed.
End Search.

(** ** The number of nodes to find *)
Section NumFeasible.
Local Open Scope Z_scope.

(** The percentage of the nodes that are searched. *)
Definition adaptivePercentage (percentageOfNodesToScore n : Z) : Z :=
  if decide (0 < percentageOfNodesToScore) then percentageOfNodesToScore else Z.max 5 (50 - n / 125).

Lemma numFeasible_small percentage n : n < 100 \/ 100 <= percentage ->
  numFeasibleNodesToFind percentage n = n.
Proof.
  intros Hs. unfold numFeasibleNodesToFind, minFeasibleNodesToFind.
  destruct (Z.ltb_spec n 100), (Z.leb_spec 100 percentage); try done; lia.
Qed.

Lemma numFeasible_large percentage n : 100 <= n < 2 ^ 31 -> percentage < 100 ->
  numFeasibleNodesToFind percentage n =
    Z.max 100 (Z.quot (wrap32 (n * adaptivePercentage percentage n)) 100).
Proof.
  intros Hn Hp. unfold numFeasibleNodesToFind, minFeasibleNodesToFind, minFeasibleNodesPercentageToFind.
  destruct (Z.ltb_spec n 100); [lia|]. destruct (Z.leb_spec 100 percentage); [lia|]. cbn [orb].
  replace (if percentage <=? 0 then _ else _) with (adaptivePercentage percentage n).
  - destruct (Z.ltb_spec (Z.quot (wrap32 (n * adaptivePercentage percentage n)) 100) 100); lia.
  - unfold adaptivePercentage. rewrite Z.quot_div_nonneg by lia.
    assert (0 <= n / 125 <= n) by (split; [apply Z.div_pos|apply Z.div_le_upper_bound]; lia).
    rewrite wrap32_id by lia.
    destruct (Z.leb_spec percentage 0), (decide (0 < percentage)); try lia.
    destruct (Z.ltb_spec (50 - n / 125) 5); lia.
Qed.

Lemma adaptivePercentage_bounds percentage n : 0 <= n -> percentage < 100 ->
  1 <= adaptivePercentage percentage n <= 99.
Proof.
  intros Hn Hp. unfold adaptivePercentage. pose proof (Z.div_pos n 125 Hn).
  case_decide; lia.
Qed.
Lemma numFeasible_exact percentage n : 100 <= n -> percentage < 100 -> n * 99 < 2 ^ 31 ->
  numFeasibleNodesToFind percentage n = Z.max 100 (n * adaptivePercentage percentage n / 100).
Proof.
  intros H1 H2 H3. pose proof (adaptivePercentage_bounds percentage n ltac:(lia) H2).
  rewrite numFeasible_large by lia. rewrite wrap32_id by nia. by rewrite Z.quot_div_nonneg by nia.
Qed.

Lemma numFeasible_bounds percentage n : 0 <= n < 2 ^ 31 ->
  Z.min n 100 <= numFeasibleNodesToFind percentage n <= n.
Proof.
  intros Hn. destruct (decide (n < 100 \/ 100 <= percentage)) as [Hs|Hs];
    [rewrite numFeasible_small by done; lia|].
  pose proof (adaptivePercentage_bounds percentage n ltac:(lia) ltac:(lia)) as Ha.
  split; [rewrite numFeasible_large by lia; lia|].
  destruct (decide (n * 99 < 2 ^ 31)) as [Hf|Hf].
  - rewrite numFeasible_exact by lia. apply Z.max_lub; [lia|]. apply Z.div_le_upper_bound; nia.
  - rewrite numFeasible_large by lia. apply Z.max_lub; [lia|].
    transitivity (Z.quot (2 ^ 31 - 1) 100); [|vm_compute Z.quot; lia].
    apply Z.quot_le_mono; [lia|]. unfold wrap32.
    pose proof (Z.mod_pos_bound (n * adaptivePercentage percentage n + 2 ^ 31) (2 ^ 32) ltac:(lia)). lia.
Qed.
End NumFeasible.

(** ** The selection of a host *)

(** All results of calls of [rand.Intn] with the given bounds. *)
Fixpoint draws (bounds : list nat) : list (list nat) :=
  match bounds with
  | [] => [[]]
  | b :: bounds => r ← seq 0 b; cons r <$> draws bounds
  end.

(** The number of entries with the given name and score. *)
Definition entries (l : NodeScoreList) (score : Z) (name : string) : nat :=
  length (filter (fun ns => Score ns = score /\ score_Name ns = name) l).
Definition topEntries (l : NodeScoreList) (score : Z) : nat :=
  length (filter (fun ns => Score ns = score) l).

(** The number of draws for which the loop of [selectHost] selects [name]. *)
Definition selections (l : NodeScoreList) (maxScore : Z) (selected : string) (cnt : nat) (name : string) : nat :=
  length (filter (fun rnd => selectLoop rnd l maxScore selected cnt = name) (draws (intnBounds l maxScore cnt))).

Lemma length_filter_cons {A} (P : A -> Prop) `{forall a, Decision (P a)} a l :
  length (filter P (a :: l)) = (if decide (P a) then 1 else 0) + length (filter P l).
Proof. rewrite filter_cons. by case_decide. Qed.

Lemma filter_draws (P : list nat -> Prop) `{forall r, Decision (P r)} b bounds :
  length (filter P (draws (b :: bounds))) =
  sum_list ((fun r => length (filter (fun rnd => P (r :: rnd)) (draws bounds))) <$> seq 0 b).
Proof.
  cbn [draws]. induction (seq 0 b) as [|r rs IH]; [done|]. cbn [mbind list_bind fmap list_fmap sum_list].
  rewrite filter_app, length_app. f_equal; [|done].
  by rewrite (filter_fmap_comm P), length_fmap.
Qed.

Lemma sum_list_const {A} (f : A -> nat) c l : (forall a, a ∈ l -> f a = c) -> sum_list (f <$> l) = length l * c.
Proof.
  induction l as [|a l IH]; intros Hf; cbn; [done|]. rewrite Hf by set_solver.
  rewrite IH; [done|]. intros. apply Hf. set_solver.
Qed.

Lemma length_draws_cons b bounds : length (draws (b :: bounds)) = b * length (draws bounds).
Proof.
  pose proof (filter_draws (fun _ => True) b bounds) as Hf.
  rewrite (filter_keeps_all _ (draws (b :: bounds))) in Hf by done. rewrite Hf.
  rewrite (sum_list_const _ (length (draws bounds))), length_seq; [done|].
  intros. by rewrite filter_keeps_all by done.
Qed.

(** The best score does not fall below that of the entries seen so far. *)
Definition best (l : NodeScoreList) (maxScore : Z) : Z := maxOver Score maxScore l.

Lemma best_ge l maxScore : (maxScore <= best l maxScore)%Z.
Proof. unfold best. induction l as [|ns l IH]; cbn in *; [done|]. unfold maxOver in IH. lia. Qed.

Lemma best_cons ns l maxScore : best (ns :: l) maxScore = Z.max (Score ns) (best l maxScore).
Proof. done. Qed.

Lemma best_start l m m' : (m <= m')%Z -> best l m' = Z.max m' (best l m).
Proof. intros Hm. unfold best. induction l as [|ns l IH]; cbn; [lia|]. unfold maxOver in IH. lia. Qed.

Lemma best_bounds l : forall maxScore ns, ns ∈ l -> (Score ns <= best l maxScore)%Z.
Proof.
  induction l as [|ns' l IH]; intros m ns; [by intros ?%elem_of_nil|].
  intros [->|Hns]%elem_of_cons; rewrite best_cons; [lia|]. specialize (IH m ns Hns). lia.
Qed.

(** Every draw selects with the right multiplicity: the selected candidate stands for
    the [cnt] entries of the best score seen so far. *)
Lemma selections_uniform name l : forall maxScore selected cnt, 0 < cnt ->
  let top := best l maxScore in
  let seen := if decide (top = maxScore) then cnt else 0 in
  (seen + topEntries l top) * selections l maxScore selected cnt name =
  length (draws (intnBounds l maxScore cnt)) *
    ((if decide (selected = name) then seen else 0) + entries l top name).
Proof.
  induction l as [|ns l IH]; intros maxScore selected cnt Hcnt top seen.
  { unfold selections, seen, top. cbn. repeat case_decide; cbn; try done; lia. }
  unfold selections. cbn [intnBounds selectLoop].
  pose proof (best_ge l maxScore) as Hge. pose proof (best_cons ns l maxScore) as Hcons. fold top in Hcons.
  unfold topEntries, entries. rewrite !length_filter_cons.
  destruct (Z.ltb_spec maxScore (Score ns)) as [Hlt|Hle]; [|destruct (Z.eqb_spec (Score ns) maxScore) as [Heq|Hne]].
  - specialize (IH (Score ns) (score_Name ns) 1 ltac:(lia)). cbv zeta in IH.
    rewrite (best_start l maxScore (Score ns)) in IH by lia. rewrite <- Hcons in IH.
    unfold selections, topEntries, entries in IH.
    assert (Hseen : seen = 0) by (unfold seen; rewrite decide_False by lia; done).
    rewrite Hseen. repeat case_decide; try lia; try tauto; intuition congruence.
  - assert (Htop : top = best l maxScore) by lia.
    rewrite length_draws_cons. rewrite filter_draws. cbn [seq fmap list_fmap sum_list nextRandom].
    rewrite (sum_list_const _ (selections l maxScore selected (S cnt) name)); cycle 1.
    { intros r Hr. apply elem_of_seq in Hr. cbn [nextRandom]. by rewrite decide_False by lia. }
    rewrite length_seq.
    change (id _) with (selections l maxScore (score_Name ns) (S cnt) name).
    pose proof (IH maxScore (score_Name ns) (S cnt) ltac:(lia)) as IH1.
    pose proof (IH maxScore selected (S cnt) ltac:(lia)) as IH2. cbv zeta in IH1, IH2.
    rewrite <- Htop in IH1, IH2. unfold seen.
    change (length (filter (fun ns0 => Score ns0 = top) l)) with (topEntries l top).
    change (length (filter _ l)) with (entries l top name).
    set (D := length (draws _)) in *. set (s1 := selections _ _ (score_Name ns) _ _) in *.
    set (s2 := selections _ _ selected _ _) in *.
    destruct (decide (top = maxScore)) as [Ht|Ht].
    + rewrite (decide_True (P := Score ns = top)) by congruence.
      destruct (decide (score_Name ns = name)) as [Hn|Hn];
        [rewrite (decide_True (P := _ /\ _)) by (split; congruence)
        |rewrite (decide_False (P := _ /\ _)) by tauto];
        destruct (decide (selected = name)); nia.
    + rewrite !(decide_False (P := Score ns = top)), (decide_False (P := _ /\ _)) by (congruence || intros []; congruence).
      destruct (decide (score_Name ns = name)), (decide (selected = name)); nia.
  - assert (Htop : top = best l maxScore) by lia. assert (Hno : Score ns <> top) by lia.
    specialize (IH maxScore selected cnt Hcnt). cbv zeta in IH. rewrite <- Htop in IH.
    rewrite (decide_False (P := Score ns = top)), (decide_False (P := _ /\ _)) by tauto. exact IH.
Qed.

Lemma selectLoop_max rnd l : forall maxScore selected cnt,
  (exists ns, ns ∈ l /\ score_Name ns = selectLoop rnd l maxScore selected cnt /\ Score ns = best l maxScore) \/
  (selectLoop rnd l maxScore selected cnt = selected /\ best l maxScore = maxScore).
Proof.
  revert rnd. induction l as [|ns l IH]; intros rnd m sel cnt; [by right|]. cbn [selectLoop].
  rewrite best_cons. pose proof (best_ge l m).
  destruct (Z.ltb_spec m (Score ns)) as [Hlt|Hle]; [|destruct (Z.eqb_spec (Score ns) m) as [Heq|Hne]].
  - rewrite <- (best_start l m (Score ns)) by lia.
    left. destruct (IH rnd (Score ns) (score_Name ns) 1) as [(x&?&?&?)|[-> Hb]]; [exists x|exists ns]; set_solver.
  - rewrite Z.max_r by lia. destruct (nextRandom rnd) as [r rnd'].
    destruct (IH rnd' m (if decide (r = 0) then score_Name ns else sel) (S cnt)) as [(x&?&?&?)|[-> Hb]];
      [left; exists x; set_solver|]. case_decide; [left; exists ns; split_and!; [set_solver|done|lia]|by right].
  - rewrite Z.max_r by lia. destruct (IH rnd m sel cnt) as [(x&?&?&?)|?]; [left; exists x; set_solver|by right].
Qed.

Lemma selectHost_max rnd l host : selectHost rnd l = Some host ->
  exists ns, ns ∈ l /\ score_Name ns = host /\ forall ns', ns' ∈ l -> (Score ns' <= Score ns)%Z.
Proof.
  destruct l as [|ns l]; [done|]. cbn [selectHost]. intros [= <-].
  pose proof (best_ge l (Score ns)).
  assert (Hall : forall ns', ns' ∈ ns :: l -> (Score ns' <= best l (Score ns))%Z).
  { intros ns' [->|Hns]%elem_of_cons; [done|by apply best_bounds]. }
  destruct (selectLoop_max rnd l (Score ns) (score_Name ns) 1) as [(x&?&?&Hx)|[-> Hb]];
    [exists x; rewrite Hx|exists ns; rewrite <- Hb]; set_solver.
Qed.

Lemma selectHost_some rnd l : l <> [] -> exists host, selectHost rnd l = Some host.
Proof. destruct l; [done|]. cbn. eauto. Qed.

Lemma intnBounds_pos l : forall m cnt, Forall (fun b => 0 < b) (intnBounds l m cnt).
Proof.
  induction l as [|ns l IH]; intros m cnt; cbn; [constructor|].
  repeat case_match; [apply IH|constructor; [lia|apply IH]|apply IH].
Qed.

Lemma draws_pos bounds : Forall (fun b => 0 < b) bounds -> 0 < length (draws bounds).
Proof. induction 1; [cbn; lia|]. rewrite length_draws_cons. nia. Qed.

(** The results of [rand.Intn] that one call of [selectHost] can see, and the best score. *)
Definition hostDraws (l : NodeScoreList) : list (list nat) :=
  match l with [] => [[]] | ns :: l => draws (intnBounds l (Score ns) 1) end.
Definition bestScore (l : NodeScoreList) : Z :=
  match l with [] => 0%Z | ns :: l => best l (Score ns) end.

(** C18.  The parallel search, however its workers interleave: without an error or a
    panic the nodes it keeps are nodes that fit, none of a piece twice, and there are as
    many as wanted or, when fewer fit, all of them.  Only nodes that do not fit get a status,
    and all of them do when the search had to look at every node.  Errors and panics
    come from the check of some node. *)
Theorem search_finds_enough_nodes (check : nat -> nodeOutcome) (num n : nat) (events : list searchEvent)
    (s : search) :
  runSearch check num (newSearch n) events = Some s -> searchDone s ->
  (crashed s = false -> errCh s = None ->
    (exists pieces, NoDup pieces /\
       Forall2 (fun i nd => i < n /\ check i = Fits nd) pieces (feasibleNodes s)) /\
    length (feasibleNodes s) = min num (numFitting check n) /\
    (length (feasibleNodes s) < num -> forall i nd st, i < n -> check i = DoesNotFit (Some nd) st ->
       IsSuccess st = false -> is_Some (searchStatuses s !! node_Name nd))) /\
  (forall name st, searchStatuses s !! name = Some st -> exists i nd, i < n /\
     check i = DoesNotFit (Some nd) st /\ node_Name nd = name /\ IsSuccess st = false) /\
  (forall err, errCh s = Some err -> exists i, i < n /\ check i = CheckFailed err) /\
  (crashed s = true -> exists i, i < n /\ panics (check i) = true).
Proof.
  intros Hr Hd. destruct (runSearch_reachable _ _ _ _ _ Hr) as (kept & unfit & dropped & Hi).
  pose proof (fun i => pieces_below _ _ _ _ _ _ _ i Hi) as Hbelow.
  split; [|split_and!].
  - intros Hc He. destruct (slot_order _ _ _ _ _ _ _ Hi (proj1 Hd)) as (l & Hl & _ & Hf).
    pose proof (kept_length _ _ _ _ _ _ _ Hi Hd He) as Hk.
    assert (Hlen : length (feasibleNodes s) = length kept)
      by (by rewrite <- (Forall2_length _ _ _ Hf), length_fmap, Hl).
    rewrite Hlen. split_and!; [|done|].
    + exists l.*1. split; [|done]. rewrite Hl. by eapply pieces_NoDup.
    + intros Hlt i nd st Hin Hch Hst.
      assert (Hun : i ∈ unfit).
      { assert (Hu : i ∈ seq 0 n) by (apply elem_of_seq; lia).
        rewrite <- (si_pieces _ _ _ _ _ _ _ Hi), (proj1 Hd) in Hu. cbn in Hu.
        assert (Hnf : fits check i = false) by (unfold fits; by rewrite Hch).
        assert (Hpend : pending s = []).
        { destruct (proj2 Hd) as [|Hca]; [done|]. destruct (si_cancelled _ _ _ _ _ _ _ Hi Hca) as [[? ?]|Hdr];
            [congruence|]. pose proof (si_full _ _ _ _ _ _ _ Hi (or_intror Hdr)) as Hfull.
          rewrite (proj1 Hd) in Hfull. cbn in Hfull. rewrite app_nil_r in Hfull. lia. }
        rewrite Hpend in Hu. apply elem_of_app in Hu as [Hu|[|[Hu|[]%elem_of_nil]%elem_of_app]%elem_of_app];
          [|done|].
        - apply list_elem_of_fmap in Hu as ([? k] & -> & Hu).
          rewrite (si_fits _ _ _ _ _ _ _ Hi _ k) in Hnf; [done|set_solver].
        - by rewrite (si_dropped _ _ _ _ _ _ _ Hi _ Hu) in Hnf. }
      destruct (si_reported _ _ _ _ _ _ _ Hi i Hc He Hun) as (nd' & st' & Hch' & Hrep).
      rewrite Hch in Hch'. injection Hch' as <- <-. by destruct (Hrep Hst) as (? & [= <-] & ?).
  - intros name st (i & nd & Hu & ?)%(si_statuses _ _ _ _ _ _ _ Hi). exists i, nd. auto.
  - intros err (i & Hu & ?)%(si_failed _ _ _ _ _ _ _ Hi). exists i. auto.
  - intros (i & Hu & ?)%(si_crashed _ _ _ _ _ _ _ Hi). exists i. auto.
Qed.

(** At least [min n 100] and at most [n] of [n] nodes are searched for, for every
    [int32]; the product of the percentage and [n] may overflow above 21.6 million nodes
    and below that the number is the percentage of the nodes, but at least 100. *)
Theorem num_feasible_nodes_in_bounds (percentage n : Z) :
  (0 <= n < 2 ^ 31)%Z ->
  (Z.min n 100 <= numFeasibleNodesToFind percentage n <= n)%Z /\
  (n < 100 \/ 100 <= percentage -> numFeasibleNodesToFind percentage n = n)%Z /\
  (100 <= n -> percentage < 100 -> n * 99 < 2 ^ 31 ->
    numFeasibleNodesToFind percentage n = Z.max 100 (n * adaptivePercentage percentage n / 100))%Z.
Proof.
  intros Hn. split_and!; [by apply numFeasible_bounds..|apply numFeasible_small|apply numFeasible_exact].
Qed.

(** C19: [selectHost] fails for an empty list only, and otherwise picks an entry of the greatest
    score, and every one of them with the same probability: over all results that its calls of [rand.Intn]
    can have, each within the bound of its call, a name is selected as often as its share of the best entries. *)
Theorem select_host_is_uniform (l : NodeScoreList) (name : string) :
  topEntries l (bestScore l) * length (filter (fun rnd => selectHost rnd l = Some name) (hostDraws l)) =
    length (hostDraws l) * entries l (bestScore l) name /\
  0 < length (hostDraws l) /\
  (forall rnd, selectHost rnd l = None <-> l = []) /\
  (forall rnd host, selectHost rnd l = Some host ->
     exists ns, ns ∈ l /\ score_Name ns = host /\ forall ns', ns' ∈ l -> (Score ns' <= Score ns)%Z) /\
  (forall ns, ns ∈ l -> (Score ns <= bestScore l)%Z).
Proof.
  split_and!; [| |intros rnd; by destruct l|intros rnd host; apply selectHost_max|];
    (destruct l as [|ns l]; [by cbn; (lia || intros ? ?%elem_of_nil)|]); cbn [bestScore hostDraws selectHost].
  - pose proof (selections_uniform name l (Score ns) (score_Name ns) 1 ltac:(lia)) as Hu. cbv zeta in Hu.
    unfold topEntries, entries. rewrite !length_filter_cons.
    unfold selections, topEntries, entries in Hu.
    rewrite (list_filter_iff _ (fun rnd => selectLoop rnd l (Score ns) (score_Name ns) 1 = name))
      by (intros; naive_solver).
    repeat case_decide; try lia; try tauto; intuition congruence.
  - apply draws_pos, intnBounds_pos.
  - intros ns' [->|Hin]%list.elem_of_cons; [apply best_ge|by apply best_bounds].
Qed.

(** ** Witnesses *)

(** Four nodes of which the first does not fit; two are wanted.  All three others get a
    length before one of them is stored, so one has to give its length back. *)
Definition exampleCheck (i : nat) : nodeOutcome :=
  match i with
  | 0 => DoesNotFit (Some (simpleNode "n0" 1 1 1)) (NewStatus Unschedulable ["full"])
  | _ => Fits (Some (simpleNode (String.append "n" (String (Ascii.ascii_of_nat (48 + i)) "")) 4000 8000 10))
  end.
Definition exampleEvents : list searchEvent :=
  [StartPiece 3; StartPiece 0; StartPiece 1; StartPiece 2; FinishPiece 2; FinishPiece 1; FinishPiece 3].
Definition exampleSearch : search :=
  default (newSearch 0) (runSearch exampleCheck 2 (newSearch 4) exampleEvents).

Lemma search_finds_enough_nodes_witness :
  node_Name <$> omap id (feasibleNodes exampleSearch) = ["n3"; "n1"] /\
  length (feasibleNodes exampleSearch) = 2 /\ is_Some (searchStatuses exampleSearch !! "n0").
Proof.
  destruct (search_finds_enough_nodes exampleCheck 2 4 exampleEvents exampleSearch) as [Hok _].
  - vm_compute. reflexivity.
  - split; [vm_compute; reflexivity|left; vm_compute; reflexivity].
  - destruct Hok as (_ & Hlen & _); [vm_compute; reflexivity|vm_compute; reflexivity|].
    split; [vm_compute; reflexivity|]. split; [exact Hlen|]. vm_compute. eexists. reflexivity.
Defined.

Lemma num_feasible_nodes_in_bounds_witness :
  (numFeasibleNodesToFind 0 5000 = 500 /\ 100 <= numFeasibleNodesToFind 99 30000000 <= 30000000)%Z.
Proof.
  split.
  - rewrite (proj2 (proj2 (num_feasible_nodes_in_bounds 0 5000 ltac:(lia)))); [vm_compute; reflexivity|lia..].
  - exact (proj1 (num_feasible_nodes_in_bounds 99 30000000 ltac:(lia))).
Defined.
