(* ===== verification/ScheduleTheorems.v ===== *)
(** * What one call of [Schedule] guarantees

    When a node passes the filters, the total scores of the nodes, and the whole
    cycle: the suggested host is a node of the snapshot that passes the filters, and a pod
    is only refused when no node does. *)
From S2P Require Import Prelude Api NodeInfo NodeTree Nominator PriorityQueue CacheList Cache CacheSpec.
From S2P Require Import Snapshot Framework GenericScheduler SchedulerSpec.
Local Open Scope go_scope.

(** ** The filters on one node *)
Section Filters.
Context `{LabelsLib, StateData, PodPriority} (statusOrder : gmap string Status -> list Status).
Context (statusOrder_perm : forall m, statusOrder m ≡ₚ (map_to_list m).*2).

Definition accepts (f : frameworkImpl) (state : CycleState) (pod : Pod) (info : NodeInfo) : Prop :=
  forall pl, pl ∈ filterPlugins f -> IsSuccess (Filter pl state pod info) = true.

(** The nominated pods that count as running on the node while [pod] is scheduled. *)
Definition nominatedCandidates (npm : nominatedPodMap) (pod : Pod) (nd : Node) : list Pod :=
  filter (fun p => (GetPodPriority pod <= GetPodPriority p)%Z /\ pod_UID p <> pod_UID pod)
    (NominatedPodsForNode npm (node_Name nd)).

Definition addPods (generation : Z) (info : NodeInfo) (pods : list Pod) : NodeInfo :=
  (foldl (fun st p => NodeInfo.AddPod st.1 st.2 p) (generation, info) pods).2.

Lemma addNominatedLoop_spec f pods pod : forall generation state info added,
  match addNominatedLoop f pods pod generation state info added with
  | inl _ => True
  | inr (added', _, info') =>
      let counted := filter (fun p => (GetPodPriority pod <= GetPodPriority p)%Z /\ pod_UID p <> pod_UID pod) pods in
      added' = added || bool_decide (counted <> []) /\ info' = addPods generation info counted
  end.
Proof.
  unfold addPods. induction pods as [|p pods IH]; intros generation state info added; cbn [addNominatedLoop].
  { cbn. by rewrite orb_false_r. }
  rewrite filter_cons. destruct (_ && _) eqn:Hc.
  - apply andb_true_iff in Hc as [Hc1 Hc2%bool_decide_eq_true]. rewrite decide_True by (split; [lia|done]).
    destruct (NodeInfo.AddPod generation info p) as [g1 i1] eqn:Hadd.
    destruct (RunPreFilterExtensionAddPod f state pod p i1) as [st s1]. destruct (IsSuccess st); [|done].
    specialize (IH g1 s1 i1 true). destruct (addNominatedLoop _ _ _ _ _ _ _) as [|[[a ?] ?]]; [done|].
    destruct IH as [-> ->]. cbn [foldl fst snd]. rewrite Hadd. cbn. by rewrite orb_true_r.
  - rewrite decide_False; [apply IH|]. intros [Hp Hu]. apply andb_false_iff in Hc as [Hc|Hc]; [lia|].
    by apply bool_decide_eq_false in Hc.
Qed.

Lemma runFilters_spec f state pod info :
  (exists e, runFilters statusOrder f state pod info = Err e /\ ~ accepts f state pod info) \/
  (exists s, runFilters statusOrder f state pod info = Ok s /\
    (IsSuccess s = true <-> accepts f state pod info) /\ (IsSuccess s = false -> IsUnschedulable s = true)).
Proof.
  destruct (runFilterPlugins_merge f state pod info _ (statusOrder_perm _)) as (s & Hm & Hok & _).
  unfold runFilters. rewrite Hm. destruct (IsSuccess s) eqn:Hs; cbn.
  - right. exists s. by rewrite Hs.
  - destruct (IsUnschedulable s) eqn:Hu; cbn; [right; exists s; by rewrite Hs|left].
    eexists. split; [done|]. intros Ha%Hok. congruence.
Qed.

(** What the two runs of the filters decide. *)
Definition passes (f : frameworkImpl) (npm : nominatedPodMap) (generation : Z) (state : CycleState)
    (pod : Pod) (info : NodeInfo) : Prop :=
  exists added state' info', addNominatedPods f npm generation pod state info = inr (added, state', info') /\
    accepts f state' pod info' /\ (added = true -> accepts f state pod info).

Lemma PodPassesFiltersOnNode_spec f npm generation state pod info :
  match PodPassesFiltersOnNode statusOrder f npm generation state pod info with
  | Ok (true, _) => passes f npm generation state pod info
  | Ok (false, s) => IsUnschedulable s = true /\ ~ passes f npm generation state pod info
  | Err _ => ~ passes f npm generation state pod info
  | Panic => False
  end.
Proof.
  unfold PodPassesFiltersOnNode, passes.
  destruct (addNominatedPods f npm generation pod state info) as [err|[[added s1] i1]].
  { by intros (?&?&?&?&_). }
  destruct (runFilters_spec f s1 pod i1) as [(e&->&Hno)|(st&->&Hok&Hun)].
  { intros (?&?&?&[= <- <- <-]&?&_). done. }
  destruct (IsSuccess st) eqn:Hst; rewrite ?andb_false_r, ?andb_true_r.
  2: { split; [auto|]. intros (?&?&?&[= <- <- <-]&?%Hok&_). congruence. }
  destruct added.
  2: { exists false, s1, i1. split_and!; [done|by apply Hok|done]. }
  destruct (runFilters_spec f state pod info) as [(e&->&Hno)|(st2&->&Hok2&Hun2)].
  { intros (?&?&?&[= <- <- <-]&_&?). auto. }
  destruct (IsSuccess st2) eqn:Hst2.
  - exists true, s1, i1. split_and!; [done|by apply Hok|intros _; by apply Hok2].
  - split; [auto|]. intros (?&?&?&[= <- <- <-]&_&Ha). specialize (Ha eq_refl). apply Hok2 in Ha. congruence.
Qed.
End Filters.

(** C20.  A node passes exactly when all filters accept the pod on it with the
    nominated pods of no lower priority counted in, and, if there are any, also without them:
    a refusal is always an unschedulable status, and only a plugin's error is an error. *)
Theorem pod_passes_filters_iff `{LabelsLib, StateData, PodPriority}
    (statusOrder : gmap string Status -> list Status) (f : frameworkImpl) (npm : nominatedPodMap)
    (generation : Z) (state : CycleState) (pod : Pod) (info : NodeInfo) (nd : Node) :
  (forall m, statusOrder m ≡ₚ (map_to_list m).*2) -> NodeOf info = Some nd ->
  ((exists s, PodPassesFiltersOnNode statusOrder f npm generation state pod info = Ok (true, s)) <->
    passes f npm generation state pod info) /\
  PodPassesFiltersOnNode statusOrder f npm generation state pod info <> Panic /\
  (forall s, PodPassesFiltersOnNode statusOrder f npm generation state pod info = Ok (false, s) ->
    IsUnschedulable s = true) /\
  (forall added state' info', addNominatedPods f npm generation pod state info = inr (added, state', info') ->
    (added = true <-> nominatedCandidates npm pod nd <> []) /\
    (added = true -> info' = addPods generation (Clone info) (nominatedCandidates npm pod nd))).
Proof.
  intros Hperm Hnd.
  pose proof (PodPassesFiltersOnNode_spec statusOrder Hperm f npm generation state pod info) as Hs.
  split_and!.
  - split; [intros [s Hp]; by rewrite Hp in Hs|]. intros Hp.
    destruct (PodPassesFiltersOnNode _ _ _ _ _ _ _) as [[[] s]| |]; [eauto|tauto..].
  - by intros Hp; rewrite Hp in Hs.
  - intros s Hp. rewrite Hp in Hs. tauto.
  - intros added s' i'. unfold addNominatedPods, nominatedCandidates. rewrite Hnd.
    destruct (NominatedPodsForNode npm (node_Name nd)) as [|p ps]; [by intros [= <- <- <-]|].
    intros Ha. pose proof (addNominatedLoop_spec f (p :: ps) pod generation (CloneState state) (Clone info) false) as Hl.
    rewrite Ha in Hl. destruct Hl as [-> ->]. cbn [orb]. by rewrite bool_decide_eq_true.
Qed.

(** ** The total scores *)
Section Totals.
Local Open Scope Z_scope.

(** A list without repetitions sums to no more than one that includes it. *)
Lemma sumOver_incl {A} (f : A -> Z) l k :
  NoDup l -> l ⊆ k -> (forall a, a ∈ k -> 0 <= f a) -> sumOver f l <= sumOver f k.
Proof.
  intros Hnd Hlk Hf. destruct (submseteq_Permutation l k) as [k' Hk]; [by apply NoDup_submseteq|].
  rewrite (sumOver_Permutation f k _ Hk), sumOver_app.
  enough (0 <= sumOver f k') by lia. apply sumOver_nonneg, list.Forall_forall. intros a Ha. apply Hf. rewrite Hk. set_solver.
Qed.

Definition scoreAt (i : nat) (l : NodeScoreList) : Z := default 0 (Score <$> l !! i).

Lemma addScores_sum i (kl : list (string * NodeScoreList)) t :
  foldr (uncurry (fun _ => addScore i)) (Some 0) kl = Some t ->
  (forall e, e ∈ kl -> 0 <= scoreAt i e.2) -> sumOver (fun e => scoreAt i e.2) kl <= max_int64 ->
  t = sumOver (fun e => scoreAt i e.2) kl.
Proof.
  revert t. induction kl as [|[k l] kl IH]; cbn [foldr uncurry]; intros t Ht Hpos Hmax; [by injection Ht|].
  unfold addScore at 1 in Ht. destruct (foldr _ _ kl) as [t'|]; [|done]. cbn in Ht.
  assert (Hpos' : forall e, e ∈ kl -> 0 <= scoreAt i e.2) by (intros; apply Hpos; set_solver).
  pose proof (sumOver_nonneg (fun e : string * NodeScoreList => scoreAt i e.2) kl
    (proj2 (list.Forall_forall _ _) Hpos')) as Hge.
  pose proof (Hpos (k, l) ltac:(set_solver)) as Hl. cbn in Hl.
  change (sumOver _ ((k, l) :: kl)) with (scoreAt i l + sumOver (fun e => scoreAt i e.2) kl) in Hmax |- *.
  specialize (IH t' eq_refl Hpos' ltac:(lia)).
  destruct (l !! i) as [ns|] eqn:Hi; cbn in Ht; [|done]. injection Ht as <-.
  assert (Hx : scoreAt i l = Score ns) by (unfold scoreAt; by rewrite Hi).
  rewrite wrap64_id by (unfold in_int64, min_int64, max_int64 in *; lia). lia.
Qed.

(** The map of the plugins' scores, as a list over the plugins. *)
Lemma scores_list {A} (name : A -> string) (value : A -> NodeScoreList) (pls : list A) (m : PluginToNodeScores) :
  NoDup (name <$> pls) -> (forall a, a ∈ pls -> m !! name a = Some (value a)) ->
  dom m = list_to_set (name <$> pls) -> map_to_list m ≡ₚ (fun a => (name a, value a)) <$> pls.
Proof.
  intros Hnd Hm Hdom. apply NoDup_Permutation.
  - apply NoDup_map_to_list.
  - apply (NoDup_fmap_1 fst). by rewrite <- list_fmap_compose.
  - intros [k l]. rewrite elem_of_map_to_list, list_elem_of_fmap. split.
    + intros Hk. assert (Hd : k ∈ dom m) by (by apply elem_of_dom).
      rewrite Hdom, elem_of_list_to_set, list_elem_of_fmap in Hd. destruct Hd as (a&->&Ha).
      exists a. rewrite Hm in Hk by done. by injection Hk as <-.
    + intros (a&[= -> ->]&Ha). auto.
Qed.
End Totals.

(** ** The scores of [prioritizeNodes] *)
Section Prioritize.
Context `{StateData}.
Local Open Scope Z_scope.
Implicit Types (f : frameworkImpl) (pl : ScorePlugin) (nodes : list Node).

Definition weightOf f pl : Z := default 0 (pluginNameToWeightMap f !! scoreplugin_Name pl).

(** The score of a plugin for the node at an index, between 0 and 100. *)
Definition normalizedScore pl (state : CycleState) (pod : Pod) nodes (i : nat) : Z :=
  scoreAt i (normalized pl state pod (rawScore pl state pod <$> nodes)).2.

Lemma pluginScores_at f pl state pod nodes l i :
  0 <= weightOf f pl -> weightOf f pl * MaxNodeScore <= max_int64 ->
  pluginScores f pl state pod nodes = Some l ->
  scoreAt i l = normalizedScore pl state pod nodes i * weightOf f pl /\
  0 <= normalizedScore pl state pod nodes i <= MaxNodeScore.
Proof.
  intros Hw Hmax. unfold pluginScores, normalizedScore. fold (weightOf f pl).
  destruct (forallb _ _); [|done]. destruct (normalized _ _ _ _) as [st l0]. destruct (IsSuccess st); [|done].
  destruct (weightScores (weightOf f pl) l0) as [|l1] eqn:Hl; [done|]. intros [= <-]. cbn [snd].
  destruct (weightScores_spec _ _ _ Hw Hmax Hl) as (_ & Hs & Hf). unfold scoreAt.
  rewrite <- list_lookup_fmap, Hs, list_lookup_fmap. destruct (l0 !! i) as [ns|] eqn:Hi; cbn; unfold id.
  - split; [lia|]. rewrite list.Forall_lookup in Hf. exact (Hf i ns Hi).
  - unfold MaxNodeScore. lia.
Qed.

(** What [NewFramework] ensures of the weights of the score plugins. *)
Record configured f : Prop := {
  cf_names : NoDup (scoreplugin_Name <$> scorePlugins f);
  cf_pos pl : pl ∈ scorePlugins f -> 1 <= weightOf f pl;
  cf_total : sumOver (fun pl => weightOf f pl * MaxNodeScore) (scorePlugins f) <= max_int64
}.

Lemma configureWeights_configured f plugins :
  configureWeights plugins 0 ∅ = Some (pluginNameToWeightMap f) ->
  Forall (fun e => 0 <= e.2 < 2 ^ 31) plugins -> NoDup plugins.*1 ->
  NoDup (scoreplugin_Name <$> scorePlugins f) ->
  (forall pl, pl ∈ scorePlugins f -> scoreplugin_Name pl ∈ plugins.*1) -> configured f.
Proof.
  intros Hc Hb Hnd Hn Hin.
  destruct (configureWeights_spec plugins 0 ∅ _ Hc Hb Hnd) as (Hsum & _ & Hpos).
  { apply list.Forall_forall. intros. apply lookup_empty. }
  { unfold max_int64. lia. }
  split; [done|intros pl Hpl; by apply Hpos, Hin|].
  rewrite sumOver_scale. unfold totalWeight in Hsum.
  assert (Hle : sumOver (weightOf f) (scorePlugins f) <=
    sumOver (fun name => default 0 (pluginNameToWeightMap f !! name)) plugins.*1).
  { rewrite <- (sumOver_incl _ (scoreplugin_Name <$> scorePlugins f) plugins.*1).
    - rewrite sumOver_fmap. done.
    - done.
    - intros k (pl&->&Hpl)%list_elem_of_fmap. by apply Hin.
    - intros k Hk. specialize (Hpos k Hk). lia. }
  unfold MaxNodeScore in *. lia.
Qed.

Lemma weight_bounded f pl : configured f -> pl ∈ scorePlugins f -> weightOf f pl * MaxNodeScore <= max_int64.
Proof.
  intros Hc Hpl. etransitivity; [|apply (cf_total f Hc)].
  pose proof (sumOver_incl (fun pl => weightOf f pl * MaxNodeScore) [pl] (scorePlugins f)) as Hi.
  cbn in Hi. rewrite Z.add_0_r in Hi. apply Hi.
  - apply NoDup_singleton.
  - set_solver.
  - intros a Ha. pose proof (cf_pos f Hc a Ha). unfold MaxNodeScore. lia.
Qed.

Lemma zip_names (F : Node -> Z -> NodeScore) nodes : (forall nd t, score_Name (F nd t) = node_Name nd) ->
  forall totals, length nodes = length totals ->
  score_Name <$> zip_with F nodes totals = node_Name <$> nodes.
Proof.
  intros HF. induction nodes as [|nd nodes IH]; intros [|t totals] [=]; [done|].
  cbn. rewrite HF. f_equal. by apply IH.
Qed.

(** The total of one node. *)
Definition totalScore f (state : CycleState) (pod : Pod) nodes (i : nat) : Z :=
  sumOver (fun pl => weightOf f pl * normalizedScore pl state pod nodes i) (scorePlugins f).

Lemma summarize_total f state pod nodes (scores : PluginToNodeScores) i t :
  configured f ->
  (forall pl, pl ∈ scorePlugins f -> exists l, pluginScores f pl state pod nodes = Some l /\
    scores !! scoreplugin_Name pl = Some l) ->
  dom scores = list_to_set (scoreplugin_Name <$> scorePlugins f) ->
  summarize scores i = Some t ->
  t = totalScore f state pod nodes i /\ 0 <= t <= max_int64.
Proof.
  intros Hc Hs Hdom Ht. unfold summarize in Ht. rewrite map_fold_foldr in Ht.
  assert (Hat : forall pl, pl ∈ scorePlugins f ->
    scoreAt i (default [] (scores !! scoreplugin_Name pl)) = weightOf f pl * normalizedScore pl state pod nodes i /\
    0 <= weightOf f pl * normalizedScore pl state pod nodes i <= weightOf f pl * MaxNodeScore).
  { intros pl Hpl. destruct (Hs pl Hpl) as (l&Hl&->). pose proof (cf_pos f Hc pl Hpl). cbn. unfold id.
    destruct (pluginScores_at f pl state pod nodes l i) as [-> ?]; [lia|by apply weight_bounded|done|].
    unfold MaxNodeScore in *. split; nia. }
  pose proof (scores_list scoreplugin_Name (fun pl => default [] (scores !! scoreplugin_Name pl))
    (scorePlugins f) scores (cf_names f Hc)) as Hlist.
  assert (Hperm : map_to_list scores ≡ₚ
    (fun pl => (scoreplugin_Name pl, default [] (scores !! scoreplugin_Name pl))) <$> scorePlugins f).
  { apply Hlist; [|done]. intros pl Hpl. by destruct (Hs pl Hpl) as (l&_&->). }
  assert (Hsum : sumOver (fun e : string * NodeScoreList => scoreAt i e.2) (map_to_list scores) =
    totalScore f state pod nodes i).
  { rewrite (sumOver_Permutation _ _ _ Hperm), sumOver_fmap. apply sumOver_ext. intros pl Hpl. cbn. by apply Hat. }
  assert (Hle : 0 <= totalScore f state pod nodes i <= max_int64).
  { split.
    - apply sumOver_nonneg, list.Forall_forall. intros pl Hpl. apply (Hat pl Hpl).
    - etransitivity; [|apply (cf_total f Hc)]. apply sumOver_le. intros pl Hpl. apply (Hat pl Hpl). }
  rewrite <- Hsum in Hle |- *. rewrite <- (addScores_sum i _ t Ht); [|..|lia].
  - split; [done|]. rewrite (addScores_sum i _ t Ht); [lia|..|lia].
    all: intros [k l] He; rewrite Hperm in He; apply list_elem_of_fmap in He as (pl&[= -> ->]&Hpl); cbn;
      destruct (Hat pl Hpl); lia.
  - intros [k l] He; rewrite Hperm in He; apply list_elem_of_fmap in He as (pl&[= -> ->]&Hpl); cbn;
      destruct (Hat pl Hpl); lia.
Qed.
End Prioritize.

(** Without extenders the total of every feasible node is the sum over the score
    plugins of their weight times their normalized score, exactly: with weights
    that [NewFramework] accepts no total overflows. *)
Theorem prioritize_adds_weighted_scores `{StateData} (MaxExtenderPriority : Z) (f : frameworkImpl)
    (plugins : list (string * Z)) (order1 order2 order3 orderExtenders : list nat)
    (state state' : CycleState) (pod : Pod) (nodes : list Node) (l : NodeScoreList) :
  configureWeights plugins 0 ∅ = Some (pluginNameToWeightMap f) ->
  Forall (fun e => 0 <= e.2 < 2 ^ 31)%Z plugins -> NoDup plugins.*1 ->
  NoDup (scoreplugin_Name <$> scorePlugins f) ->
  (forall pl, pl ∈ scorePlugins f -> scoreplugin_Name pl ∈ plugins.*1) ->
  order1 ≡ₚ seq 0 (length nodes) -> order2 ≡ₚ seq 0 (length (scorePlugins f)) ->
  order3 ≡ₚ seq 0 (length (scorePlugins f)) -> HasScorePlugins f = true ->
  prioritizeNodes MaxExtenderPriority f [] order1 order2 order3 orderExtenders state pod nodes = (Ok l, state') ->
  score_Name <$> l = node_Name <$> nodes /\
  forall i ns, l !! i = Some ns -> Score ns = totalScore f state' pod nodes i /\ (0 <= Score ns <= max_int64)%Z.
Proof.
  intros Hc Hb Hnd Hn Hin H1 H2 H3 Hhas Hp.
  pose proof (configureWeights_configured f plugins Hc Hb Hnd Hn Hin) as Hconf.
  unfold prioritizeNodes in Hp. rewrite Hhas, andb_false_r in Hp.
  destruct (RunPreScorePlugins f state pod nodes) as [st s1]. destruct (IsSuccess st); cbn [negb] in Hp; [|done].
  pose proof (RunScorePlugins_spec f order1 order2 order3 s1 pod nodes Hn H1 H2 H3) as Hs.
  destruct (RunScorePlugins _ _ _ _ _ _ _) as [[scores|] status]; [|done]. destruct Hs as (_ & Hpl & Hdom).
  destruct (mapM _ _) as [totals|] eqn:Ht; [|done]. injection Hp as <- <-.
  apply mapM_Some in Ht. pose proof (Forall2_length _ _ _ Ht) as Hlen. rewrite length_seq in Hlen. split.
  - by apply zip_names.
  - intros i ns Hi. apply lookup_zip_with_Some in Hi as (nd & t & -> & Hnd' & Hti).
    cbn.
    destruct (Forall2_lookup_r _ _ _ _ _ Ht Hti) as (j & Hj & Hsum). apply lookup_seq in Hj as [-> _].
    eapply summarize_total; done.
Qed.

(** ** The search over the nodes of the snapshot *)
Section FindNodes.
Context `{LabelsLib, StateData, PodPriority} (statusOrder : gmap string Status -> list Status).
Context (statusOrder_perm : forall m, statusOrder m ≡ₚ (map_to_list m).*2).
Context (f : frameworkImpl) (npm : nominatedPodMap) (generation : Z).
Implicit Types (state : CycleState) (pod : Pod) (info : NodeInfo) (allNodes : list NodeInfo).

(** A node that a framework with filter plugins may select. *)
Definition feasible state pod info : Prop :=
  HasFilterPlugins f = true -> passes f npm generation state pod info.

Lemma nodeAtPiece_some allNodes next i : allNodes <> [] ->
  exists info, nodeAtPiece allNodes next i = Some info /\ info ∈ allNodes.
Proof.
  intros Hne. unfold nodeAtPiece. destruct (lookup_lt_is_Some_2 allNodes ((next + i) mod length allNodes)) as [info Hi].
  - apply Nat.mod_upper_bound. by destruct allNodes.
  - exists info. split; [done|]. by eapply list_elem_of_lookup_2.
Qed.

(** Every node is examined by some piece. *)
Lemma piece_of_node allNodes next info : info ∈ allNodes ->
  exists i, i < length allNodes /\ nodeAtPiece allNodes next i = Some info.
Proof.
  intros (j & Hj)%list_elem_of_lookup. pose proof (lookup_lt_Some _ _ _ Hj) as Hlt.
  set (n := length allNodes) in *. pose proof (Nat.mod_upper_bound next n ltac:(lia)) as Hm.
  exists ((j + (n - next mod n)) mod n). split; [apply Nat.mod_upper_bound; lia|].
  unfold nodeAtPiece. fold n. rewrite <- Hj. f_equal.
  rewrite Nat.Div0.add_mod_idemp_r. rewrite (Nat.div_mod next n) at 1 by lia.
  replace (n * (next / n) + next mod n + (j + (n - next mod n))) with (j + (next / n + 1) * n) by lia.
  rewrite Nat.Div0.mod_add. by apply Nat.mod_small.
Qed.

Lemma checkNode_fits state pod info nd :
  checkNode statusOrder f npm generation state pod info = Fits nd ->
  nd = NodeOf info /\ passes f npm generation state pod info.
Proof.
  unfold checkNode. pose proof (PodPassesFiltersOnNode_spec statusOrder statusOrder_perm f npm generation state pod info) as Hs.
  destruct (PodPassesFiltersOnNode _ _ _ _ _ _ _) as [[[] st]| |]; intros [= <-]; by split.
Qed.

Lemma checkNode_does_not_fit state pod info :
  (forall nd, checkNode statusOrder f npm generation state pod info <> Fits nd) ->
  ~ passes f npm generation state pod info.
Proof.
  unfold checkNode. pose proof (PodPassesFiltersOnNode_spec statusOrder statusOrder_perm f npm generation state pod info) as Hs.
  destruct (PodPassesFiltersOnNode _ _ _ _ _ _ _) as [[[] st]| |]; intros Hno; [by destruct (Hno (NodeOf info))|tauto..].
Qed.

Lemma numNodes_pos percentage allNodes : allNodes <> [] -> (Z.of_nat (length allNodes) < 2 ^ 31)%Z ->
  1 <= Z.to_nat (numFeasibleNodesToFind percentage (wrap32 (Z.of_nat (length allNodes)))).
Proof.
  intros Hne Hlt. assert (1 <= length allNodes) by (destruct allNodes; cbn; [done|lia]).
  rewrite wrap32_id by lia. pose proof (numFeasible_bounds percentage (Z.of_nat (length allNodes)) ltac:(lia)). lia.
Qed.

Lemma findNodes_sound percentage next events state pod allNodes nodes statuses next' o :
  findNodesThatPassFilters statusOrder f npm generation percentage next events state pod allNodes =
    Some (Ok nodes, statuses, next') -> o ∈ nodes ->
  exists info, info ∈ allNodes /\ o = NodeOf info /\ feasible state pod info.
Proof.
  unfold findNodesThatPassFilters. case_decide as Hn; [done|].
  assert (Hne : allNodes <> []) by (by intros ->).
  destruct (HasFilterPlugins f) eqn:Hf; cbn [negb].
  - destruct (runSearch _ _ _ _) as [s|] eqn:Hr; [|done]. bind_simpl. case_decide as Hd; [|done].
    destruct (crashed s) eqn:Hc; [done|]. destruct (errCh s) eqn:He; [done|]. intros [= <- <- <-] Ho.
    destruct (runSearch_reachable _ _ _ _ _ Hr) as (kept & unfit & dropped & Hi).
    destruct (slot_order _ _ _ _ _ _ _ Hi (proj1 Hd)) as (l & _ & _ & Hall).
    apply list_elem_of_lookup in Ho as [k Hk]. destruct (Forall2_lookup_r _ _ _ _ _ Hall Hk) as (i & _ & _ & Hch).
    unfold checkPiece in Hch. destruct (nodeAtPiece_some allNodes next i Hne) as (info & Hinfo & Hin).
    rewrite Hinfo in Hch. apply checkNode_fits in Hch as [-> Hp]. exists info. split_and!; [done..|by intros _].
  - intros [= <- _ _] (i & -> & _)%list_elem_of_fmap.
    destruct (nodeAtPiece_some allNodes next i Hne) as (info & -> & Hin). exists info. split_and!; [done|done|].
    unfold feasible. by rewrite Hf.
Qed.

Lemma findNodes_complete percentage next events state pod allNodes statuses next' info :
  findNodesThatPassFilters statusOrder f npm generation percentage next events state pod allNodes =
    Some (Ok [], statuses, next') -> (Z.of_nat (length allNodes) < 2 ^ 31)%Z ->
  info ∈ allNodes -> ~ feasible state pod info.
Proof.
  unfold findNodesThatPassFilters. case_decide as Hn; [done|]. intros Hr Hlt Hin Hfeas.
  assert (Hne : allNodes <> []) by (by intros ->).
  pose proof (numNodes_pos percentage allNodes Hne Hlt) as Hnum.
  unfold feasible in Hfeas. destruct (HasFilterPlugins f) eqn:Hf; cbn [negb] in Hr.
  - destruct (runSearch _ _ _ _) as [s|] eqn:Hs; [|done]. cbn in Hr. case_decide as Hd; [|done].
    destruct (crashed s) eqn:Hc; [done|]. destruct (errCh s) eqn:He; [done|]. injection Hr as Hnil _ _.
    destruct (runSearch_reachable _ _ _ _ _ Hs) as (kept & unfit & dropped & Hi).
    destruct (slot_order _ _ _ _ _ _ _ Hi (proj1 Hd)) as (l & Hl & _ & Hall).
    pose proof (kept_length _ _ _ _ _ _ _ Hi Hd He) as Hk. rewrite Hnil in Hall.
    apply Forall2_length in Hall. rewrite length_fmap, Hl in Hall. cbn in Hall. rewrite Hall in Hk.
    destruct (piece_of_node allNodes next info Hin) as (i & Hilt & Hpiece).
    assert (Hnofit : fits (checkPiece statusOrder f npm generation state pod allNodes next) i = false).
    { apply not_true_iff_false. intros Hfi.
      assert (Hmem : i ∈ filter (fun i => fits (checkPiece statusOrder f npm generation state pod allNodes next) i = true)
        (seq 0 (length allNodes))) by (apply list_elem_of_filter; split; [done|apply elem_of_seq; lia]).
      unfold numFitting in Hk. destruct (filter _ _); [by apply elem_of_nil in Hmem|cbn in Hk; lia]. }
    revert Hfeas. unfold fits, checkPiece in Hnofit. rewrite Hpiece in Hnofit. intros Hp.
    apply (checkNode_does_not_fit state pod info); [|by apply Hp]. intros nd Hch. by rewrite Hch in Hnofit.
  - injection Hr as Hnil _ _. apply fmap_nil_inv in Hnil.
    apply (f_equal length) in Hnil. rewrite length_seq in Hnil. cbn in Hnil. lia.
Qed.

Lemma findNodesThatPassExtenders_incl extenders pod : forall nodes statuses nodes' statuses',
  Forall (fun e => forall p l l' m, ExtenderFilter e p l = inr (l', m) -> l' ⊆ l) extenders ->
  findNodesThatPassExtenders extenders pod nodes statuses = inr (nodes', statuses') -> nodes' ⊆ nodes.
Proof.
  induction extenders as [|e es IH]; intros nodes statuses nodes' statuses' Hall; cbn [findNodesThatPassExtenders];
    [by intros [= <- _]|].
  apply Forall_cons in Hall as [He Hall]. case_decide; [by intros [= <- _]|].
  destruct (negb (IsInterested e pod)); [by apply IH|].
  destruct (ExtenderFilter e pod nodes) as [err|[l m]] eqn:Hf; [destruct (IsIgnorable e); [by apply IH|done]|].
  intros Hr%IH; [|done]. etransitivity; [exact Hr|by eapply He].
Qed.
End FindNodes.

(** ** The whole cycle *)
Section Cycle.
Context `{StateData} (MaxExtenderPriority : Z) (f : frameworkImpl).
Implicit Types (state : CycleState) (pod : Pod) (extenders : list Extender).

(** Extenders only remove nodes. *)
Definition extendersFilter extenders : Prop :=
  Forall (fun e => forall p l l' m, ExtenderFilter e p l = inr (l', m) -> l' ⊆ l) extenders.

Lemma findNodesThatFitPod_spec `{LabelsLib, PodPriority} (statusOrder : gmap string Status -> list Status)
    npm extenders generation percentage next events state pod allNodes
    nodes statuses next' state' :
  (forall m, statusOrder m ≡ₚ (map_to_list m).*2) -> extendersFilter extenders ->
  findNodesThatFitPod statusOrder f extenders npm generation percentage next events state pod allNodes =
    Some (Ok (nodes, statuses), next', state') ->
  state' = (RunPreFilterPlugins f state pod).2 /\
  (nodes <> [] -> IsSuccess (RunPreFilterPlugins f state pod).1 = true) /\
  (forall nd, nd ∈ nodes -> exists info, info ∈ allNodes /\ NodeOf info = Some nd /\
    feasible f npm generation state' pod info) /\
  (nodes = [] -> extenders = [] -> IsSuccess (RunPreFilterPlugins f state pod).1 = true ->
    (Z.of_nat (length allNodes) < 2 ^ 31)%Z -> forall info, info ∈ allNodes ->
    ~ feasible f npm generation state' pod info).
Proof.
  intros statusOrder_perm Hext. unfold findNodesThatFitPod.
  destruct (RunPreFilterPlugins f state pod) as [st s1]. destruct (IsSuccess st) eqn:Hst.
  - destruct (findNodesThatPassFilters _ _ _ _ _ _ _ _ _ _) as [[[found sts] nx]|] eqn:Hf; bind_simpl; [|done].
    destruct found as [os|e|]; [|done..]. destruct (mapM id os) as [ns|] eqn:Hm; [|done].
    destruct (findNodesThatPassExtenders extenders pod ns sts) as [|[ns' sts']] eqn:He; [done|].
    intros [= <- <- <- <-]. split; [done|]. split; [done|]. apply mapM_Some in Hm. split.
    + intros nd Hnd. apply (findNodesThatPassExtenders_incl _ _ _ _ _ _ Hext He) in Hnd.
      apply list_elem_of_lookup in Hnd as [k Hk]. destruct (Forall2_lookup_r _ _ _ _ _ Hm Hk) as (o & Ho & Hid).
      unfold id in Hid. subst o.
      apply list_elem_of_lookup_2 in Ho.
      destruct (findNodes_sound _ statusOrder_perm _ _ _ _ _ _ _ _ _ _ _ _ _ Hf Ho) as (info & ? & ? & ?).
      exists info. by split_and!.
    + intros -> -> _ Hlt info Hin. cbn in He. injection He as -> _. inversion Hm; subst.
      by eapply findNodes_complete.
  - destruct (IsUnschedulable st); [|done]. destruct (sameStatus st allNodes); [|done].
    intros [= <- _ _ <-]. split; [done|]. split; [done|]. split; [set_solver|]. cbn. by rewrite Hst.
Qed.

Lemma prioritizeNodes_names extenders o1 o2 o3 oe state pod nodes l state' :
  prioritizeNodes MaxExtenderPriority f extenders o1 o2 o3 oe state pod nodes = (Ok l, state') ->
  score_Name <$> l = node_Name <$> nodes.
Proof.
  unfold prioritizeNodes. destruct (_ && _).
  { intros [= <- _]. by rewrite <- list_fmap_compose. }
  destruct (RunPreScorePlugins f state pod nodes) as [st s1]. destruct (negb _); [done|].
  destruct (RunScorePlugins _ _ _ _ _ _ _) as [[scores|] status]; [|done].
  destruct (mapM _ _) as [totals|] eqn:Ht; [|done]. intros [= <- _].
  apply mapM_Some, Forall2_length in Ht. rewrite length_seq in Ht. by apply zip_names.
Qed.

(** The node has the greatest total among [nodes]. *)
Definition greatestTotal extenders (run : schedule) state pod nodes (host : string) : Prop :=
  exists o1 o2 o3 l state' ns, scoreOrders run = (o1, o2, o3) /\
    prioritizeNodes MaxExtenderPriority f extenders o1 o2 o3 (extenderOrder run) state pod nodes = (Ok l, state') /\
    ns ∈ l /\ score_Name ns = host /\ forall ns', ns' ∈ l -> (Score ns' <= Score ns)%Z.

Lemma selectNode_spec extenders run state pod nodes statuses res state' :
  selectNode MaxExtenderPriority f extenders run state pod nodes statuses = (Ok res, state') ->
  (exists nd, nd ∈ nodes /\ node_Name nd = SuggestedHost res) /\
  FeasibleNodes res = length nodes /\ EvaluatedNodes res = length nodes + size statuses /\
  (length nodes = 1 \/ greatestTotal extenders run state pod nodes (SuggestedHost res)).
Proof.
  unfold selectNode. intros Hs. destruct (decide (length nodes = 1)) as [Hone|Hone].
  - destruct nodes as [|nd [|]]; try done. injection Hs as <- _. cbn. split_and!; [|done|done|by left].
    exists nd. set_solver.
  - assert (Hs' : let '(o1, o2, o3) := scoreOrders run in
      let '(scores, state2) := prioritizeNodes MaxExtenderPriority f extenders o1 o2 o3
        (extenderOrder run) state pod nodes in
      exists l host, scores = Ok l /\ selectHost (randoms run) l = Some host /\
       res = {| SuggestedHost := host; EvaluatedNodes := length nodes + size statuses;
                FeasibleNodes := length nodes |}).
    { destruct (scoreOrders run) as [[o1 o2] o3]. destruct nodes as [|nd [|nd2 nodes]]; [|done|];
        destruct (prioritizeNodes _ _ _ _ _ _ _ _ _ _) as [[l| |] s2]; try done;
        destruct (selectHost _ l) as [host|] eqn:Hh; try done; injection Hs as <- _; by exists l, host. }
    destruct (scoreOrders run) as [[o1 o2] o3] eqn:Ho.
    destruct (prioritizeNodes _ _ _ _ _ _ _ _ _ _) as [scores s2] eqn:Hp.
    destruct Hs' as (l & host & -> & Hh & ->). cbn.
    destruct (selectHost_max _ _ _ Hh) as (ns & Hns & Hname & Hmax). split_and!; [|done|done|].
    + pose proof (prioritizeNodes_names _ _ _ _ _ _ _ _ _ _ Hp) as Hn.
      apply (list_elem_of_fmap_2 score_Name) in Hns. rewrite Hn, Hname in Hns.
      apply list_elem_of_fmap in Hns as (nd & ? & ?). by exists nd.
    + right. exists o1, o2, o3, l, s2, ns. by split_and!.
Qed.
End Cycle.

(** What a call of [Schedule] answers. *)
Lemma Schedule_spec `{LabelsLib, StateData, PodPriority}
    (statusOrder : gmap string Status -> list Status) (mapOrder : list string -> list string)
    (MaxExtenderPriority : Z) (pvcLister : string -> string -> string + Claim)
    (IsControlledBy : Claim -> Pod -> bool) (f : frameworkImpl) (npm : nominatedPodMap) (run : schedule)
    (state state' : CycleState) (pod : Pod) (g g' : genericScheduler) (r : result scheduleError ScheduleResult) :
  (forall m, statusOrder m ≡ₚ (map_to_list m).*2) -> extendersFilter (scheduler_extenders g) ->
  Schedule statusOrder mapOrder MaxExtenderPriority pvcLister IsControlledBy f npm run state pod g =
    Some (r, g', state') ->
  let state1 := (RunPreFilterPlugins f state pod).2 in
  let ok := feasible f npm (generation (scheduler_cache g')) state1 pod in
  match r with
  | Ok res => IsSuccess (RunPreFilterPlugins f state pod).1 = true /\
      UpdateSnapshot mapOrder (scheduler_cache g) (nodeInfoSnapshot g) =
        Some (Ok tt, (scheduler_cache g', nodeInfoSnapshot g')) /\
      exists allNodes nodes, snapshotNodes (nodeInfoSnapshot g') = Some allNodes /\
      (forall nd, nd ∈ nodes -> exists info, info ∈ allNodes /\ NodeOf info = Some nd /\ ok info) /\
      (exists nd, nd ∈ nodes /\ node_Name nd = SuggestedHost res) /\ FeasibleNodes res = length nodes /\
      (length nodes = 1 \/
       greatestTotal MaxExtenderPriority f (scheduler_extenders g) run state1 pod nodes (SuggestedHost res))
  | Err (FitError numAllNodes _) => exists allNodes, snapshotNodes (nodeInfoSnapshot g') = Some allNodes /\
      numAllNodes = Z.of_nat (length allNodes) /\
      (scheduler_extenders g = [] -> IsSuccess (RunPreFilterPlugins f state pod).1 = true ->
       (numAllNodes < 2 ^ 31)%Z -> forall info, info ∈ allNodes -> ~ ok info)
  | _ => True
  end.
Proof.
  intros Hperm Hext. unfold Schedule. destruct (podPassesBasicChecks _ _ _); [by intros [= <- _ _]|].
  destruct (UpdateSnapshot _ _ _) as [[up [c s]]|]; bind_simpl; [|done].
  destruct up as [[]|err|]; [|by intros [= <- _ _]..].
  destruct (SnapshotNumNodes s =? 0)%Z; [by intros [= <- _ _]|].
  destruct (snapshotNodes s) as [allNodes|] eqn:Hall; bind_simpl; [|done]. cbn [scheduler_extenders
    percentageOfNodesToScore nextStartNodeIndex].
  destruct (findNodesThatFitPod _ _ _ _ _ _ _ _ _ _ _) as [[[found next] s1]|] eqn:Hf; bind_simpl; [|done].
  destruct found as [[nodes sts]|e|]; [|by intros [= <- _ _]..].
  apply findNodesThatFitPod_spec in Hf as (-> & Hpre & Hsound & Hcomplete); [|done..].
  assert (Hlen : Z.of_nat (length allNodes) = SnapshotNumNodes s).
  { unfold snapshotNodes in Hall. apply mapM_Some, Forall2_length in Hall.
    unfold SnapshotNumNodes. unfold SnapshotList in Hall. by rewrite Hall. }
  destruct nodes as [|nd nodes].
  - intros [= <- <- _]. exists allNodes. cbn [nodeInfoSnapshot]. split_and!; [done|done|].
    intros Hne Hok Hlt. cbn [scheduler_cache]. apply Hcomplete; [done..|lia].
  - destruct (selectNode _ _ _ _ _ _ (nd :: nodes) _) as [res s2] eqn:Hsel. intros [= <- <- <-].
    destruct res as [res|[]|]; try done.
    + apply selectNode_spec in Hsel as (Hhost & Hfe & _ & Hmax).
      split; [by apply Hpre|]. split; [done|]. exists allNodes, (nd :: nodes). by split_and!.
    + exfalso. unfold selectNode in Hsel. clear -Hsel. destruct nodes as [|nd2 nodes]; [done|].
      destruct (scoreOrders run) as [[? ?] ?]. destruct (prioritizeNodes _ _ _ _ _ _ _ _ _ _) as [[pl| |] ?]; try done.
      by destruct (selectHost _ pl).
Qed.

(** C21.  With extenders that only filter, a successful [Schedule] suggests a node of the
    snapshot it has just updated that passes the filters and that has, when several do, the
    greatest total score among the feasible nodes.  When it answers that the pod fits nowhere, it
    counts the nodes of the snapshot, and none of them passes if there are no extenders, the prefilter
    plugins accepted the pod and there are fewer than 2^31 nodes. *)
Theorem schedule_selects_feasible_node `{LabelsLib, StateData, PodPriority}
    (statusOrder : gmap string Status -> list Status) (mapOrder : list string -> list string)
    (MaxExtenderPriority : Z) (pvcLister : string -> string -> string + Claim)
    (IsControlledBy : Claim -> Pod -> bool) (f : frameworkImpl) (npm : nominatedPodMap) (run : schedule)
    (state state' : CycleState) (pod : Pod) (g g' : genericScheduler) (r : result scheduleError ScheduleResult) :
  (forall m, statusOrder m ≡ₚ (map_to_list m).*2) -> extendersFilter (scheduler_extenders g) ->
  Schedule statusOrder mapOrder MaxExtenderPriority pvcLister IsControlledBy f npm run state pod g =
    Some (r, g', state') ->
  let state1 := (RunPreFilterPlugins f state pod).2 in
  let ok := feasible f npm (generation (scheduler_cache g')) state1 pod in
  match r with
  | Ok res => exists allNodes nodes, snapshotNodes (nodeInfoSnapshot g') = Some allNodes /\
      (forall nd, nd ∈ nodes -> exists info, info ∈ allNodes /\ NodeOf info = Some nd /\ ok info) /\
      (exists nd, nd ∈ nodes /\ node_Name nd = SuggestedHost res) /\ FeasibleNodes res = length nodes /\
      (length nodes = 1 \/
       greatestTotal MaxExtenderPriority f (scheduler_extenders g) run state1 pod nodes (SuggestedHost res))
  | Err (FitError numAllNodes _) => exists allNodes, snapshotNodes (nodeInfoSnapshot g') = Some allNodes /\
      numAllNodes = Z.of_nat (length allNodes) /\
      (scheduler_extenders g = [] -> IsSuccess (RunPreFilterPlugins f state pod).1 = true ->
       (numAllNodes < 2 ^ 31)%Z -> forall info, info ∈ allNodes -> ~ ok info)
  | _ => True
  end.
Proof.
  intros Hperm Hext Hs. pose proof (Schedule_spec _ _ _ _ _ _ _ _ _ _ _ _ _ _ Hperm Hext Hs) as Hspec.
  destruct r as [res|err|]; [apply Hspec|exact Hspec|exact I].
Qed.

(** ** The cycle on a live cache *)
Section Live.
Local Open Scope Z_scope.

(** A node info of the cache whose node has not been removed. *)
Definition isLive (c : schedulerCache) (info : NodeInfo) : Prop :=
  exists name nd, infoOf (nodeInfos c) name = Some info /\ NodeOf info = Some nd.

(** The list of a snapshot that is faithful to the cache. *)
Lemma snapshotNodes_faithful (c c' : schedulerCache) (s : Snapshot) :
  snapOk c' s -> faithful c s -> noGhost c ->
  exists allNodes, snapshotNodes s = Some allNodes /\
    forall i, i ∈ allNodes <-> isLive c i.
Proof.
  intros Hs Hf Hng. unfold snapshotNodes, SnapshotList.
  assert (Hin : forall l, l ∈ nodeInfoList s <-> exists name, nodeInfoMap s !! name = Some l).
  { intros l. rewrite (so_list _ _ Hs), list_elem_of_fmap. split.
    - intros ([n x]&->&Hx%elem_of_map_to_list). by exists n.
    - intros (n&Hn). exists (n, l). split; [done|]. by apply elem_of_map_to_list. }
  assert (Hall : forall ls, (forall l, l ∈ ls -> l ∈ nodeInfoList s) ->
    exists il, mapM (fun l => infos s !! l) ls = Some il).
  { intros ls Hls. destruct (mapM _ ls) as [il|] eqn:E; [by exists il|]. apply mapM_None, list.Exists_exists in E.
    destruct E as (l & [n Hn]%Hls%Hin & E). destruct (sw_store _ (so_wf _ _ Hs) n l Hn). congruence. }
  destruct (Hall _ (fun _ H => H)) as [il His]. exists il. split; [done|]. apply mapM_Some in His. intros i. split.
  - intros [k Hk]%list_elem_of_lookup. destruct (Forall2_lookup_r _ _ _ _ _ His Hk) as (l & Hl & Hi).
    apply list_elem_of_lookup_2, Hin in Hl as [n Hn]. specialize (Hf n). unfold snapInfo in Hf.
    rewrite Hn in Hf. cbn in Hf. unfold cInfo in Hf. rewrite Hi, <- infoOf_infoMap in Hf.
    destruct (infoOf (nodeInfos c) n) as [i'|] eqn:Hi'; [|done]. cbn in Hf. rewrite Clone_id in Hf. injection Hf as ->.
    destruct (Hng n i') as [nd Hnd]; [unfold cInfo; by rewrite <- infoOf_infoMap|]. by exists n, nd.
  - intros (n & nd & Hi & _). specialize (Hf n). unfold snapInfo, cInfo in Hf. rewrite <- infoOf_infoMap, Hi in Hf.
    destruct (nodeInfoMap s !! n) as [l|] eqn:Hn; [|done]. cbn in Hf. rewrite Clone_id in Hf.
    destruct (proj1 (list_elem_of_lookup _ _) (proj2 (Hin l) (ex_intro _ n Hn))) as [k Hk].
    destruct (Forall2_lookup_l _ _ _ _ _ His Hk) as (i' & Hk' & Hi'). rewrite Hf in Hi'. injection Hi' as <-.
    by eapply list_elem_of_lookup_2.
Qed.
End Live.

(** C22.  Whatever valid events happened to the cache before, as long as no removed node still held
    pods when a snapshot was taken and the generation does not overflow, the snapshot of a cycle of
    a pod that passes the basic checks never fails, and the nodes it
    chooses from are exactly the live nodes of the cache, with their pods, those of the
    assumed pods included. *)
Theorem schedule_sees_the_live_cache `{LabelsLib, StateData, PodPriority}
    (statusOrder : gmap string Status -> list Status) (mapOrder : list string -> list string)
    (MaxExtenderPriority : Z) (pvcLister : string -> string -> string + Claim)
    (IsControlledBy : Claim -> Pod -> bool) (f : frameworkImpl) (npm : nominatedPodMap) (run : schedule)
    (state state' : CycleState) (pod : Pod) (g g' : genericScheduler) (r : result scheduleError ScheduleResult)
    (ttl0 g0 : Z) (es : list cycleEvent) :
  (forall l, mapOrder l ≡ₚ l) -> (0 <= g0)%Z -> (g0 + sumOver cycleCost es <= max_int64)%Z ->
  validCycles ttl0 es emptyAbs -> noGhostAbs (foldl (absCycle ttl0) emptyAbs es) ->
  runCycles mapOrder es (newSchedulerCache ttl0 g0) NewEmptySnapshot =
    Some (scheduler_cache g, nodeInfoSnapshot g) ->
  podPassesBasicChecks pvcLister IsControlledBy pod = None ->
  Schedule statusOrder mapOrder MaxExtenderPriority pvcLister IsControlledBy f npm run state pod g =
    Some (r, g', state') ->
  (forall e, r <> Err (SnapshotError e)) /\
  (r = Err ErrNoNodesAvailable <-> SnapshotNumNodes (nodeInfoSnapshot g') = 0%Z) /\
  exists allNodes, snapshotNodes (nodeInfoSnapshot g') = Some allNodes /\
    forall info, info ∈ allNodes <-> isLive (scheduler_cache g) info.
Proof.
  intros Hperm Hg0 Hmax Hv Hng Hrun Hbasic.
  destruct (runCycles_ok mapOrder Hperm es (newSchedulerCache ttl0 g0) emptyAbs NewEmptySnapshot)
    as (c&s&Hrun'&Hr&Hs&_); [by apply refines_empty|by apply snapOk_empty|done|done|].
  rewrite Hrun in Hrun'. injection Hrun' as <- <-. pose proof (noGhost_abs _ _ Hr Hng) as Hngc.
  destruct (update_spec mapOrder Hperm _ _ _ Hr Hngc Hs) as (nt&s'&Hup&_&Hs'&Hf&_).
  destruct (snapshotNodes_faithful _ _ _ Hs' Hf Hngc) as (allNodes&Hall&Hiff).
  unfold Schedule. rewrite Hbasic, Hup. bind_simpl.
  destruct (Z.eqb_spec (SnapshotNumNodes s') 0) as [Hz|Hz].
  { intros [= <- <- _]. split_and!; [done|done|]. by exists allNodes. }
  rewrite Hall. bind_simpl.
  destruct (findNodesThatFitPod _ _ _ _ _ _ _ _ _ _ _) as [[[found next] s1]|]; bind_simpl; [|done].
  intros Heq.
  assert (Hr' : (forall e, r <> Err (SnapshotError e)) /\ r <> Err ErrNoNodesAvailable /\ nodeInfoSnapshot g' = s').
  { destruct found as [[[|nd nodes] sts]|e|]; [by injection Heq as <- <- _| |by injection Heq as <- <- _..].
    destruct (selectNode _ _ _ _ _ _ _ _) as [res s2] eqn:Hsel. injection Heq as <- <- _.
    split_and!; [intros e ->|intros ->|done]; unfold selectNode in Hsel; destruct nodes; try done;
      destruct (scoreOrders run) as [[? ?] ?]; destruct (prioritizeNodes _ _ _ _ _ _ _ _ _ _) as [[pl| |] ?]; try done;
      by destruct (selectHost _ pl). }
  destruct Hr' as (He & Hn & ->). split_and!; [done|done|]. by exists allNodes.
Qed.

(** ** Witnesses *)
#[local] Existing Instance exampleLabels.
#[local] Existing Instance exampleData.
#[local] Existing Instance codePodPriority.

Definition anyOrder (m : gmap string Status) : list Status := (map_to_list m).*2.

(** A pod nominated to a node of its own name. *)
Definition nominatedPod : Pod := simplePod "p9" "ns" "uid9" "" [simpleContainer 100 100].
Definition exampleNominations : nominatedPodMap :=
  {| nominatedPods := {[ "n1" := [nominatedPod] ]}; nominatedPodToNode := {[ "uid9" := "n1" ]} |}.
Definition exampleNodeInfo : NodeInfo := (SetNode 1 exampleInfo exampleNode1).2.

Lemma pod_passes_filters_iff_witness :
  PodPassesFiltersOnNode anyOrder exampleFramework exampleNominations 5 ∅ examplePod1 exampleNodeInfo =
    Ok (false, NewStatus Unschedulable ["it is p1"]) /\
  nominatedCandidates exampleNominations examplePod1 exampleNode1 <> [] /\
  ~ passes exampleFramework exampleNominations 5 ∅ examplePod1 exampleNodeInfo.
Proof.
  destruct (pod_passes_filters_iff anyOrder exampleFramework exampleNominations 5 ∅ examplePod1 exampleNodeInfo
    exampleNode1) as (Hiff & _ & _ & Hadd).
  - intros m. reflexivity.
  - vm_compute. reflexivity.
  - split; [vm_compute; reflexivity|]. split; [vm_compute; discriminate|].
    intros Hp. apply Hiff in Hp as [s Hp]. vm_compute in Hp. discriminate.
Defined.

Lemma prioritize_adds_weighted_scores_witness :
  exists l, prioritizeNodes 10 exampleFramework [] [1; 0] [0; 1] [1; 0] [] ∅ examplePod1 exampleNodes = (Ok l, ∅) /\
    score_Name <$> l = ["n1"; "node2"] /\ totalScore exampleFramework ∅ examplePod1 exampleNodes 1 = 105%Z.
Proof.
  destruct (prioritizeNodes 10 exampleFramework [] [1; 0] [0; 1] [1; 0] [] ∅ examplePod1 exampleNodes)
    as [[l|e|] st] eqn:E; [|vm_compute in E; discriminate..].
  assert (st = ∅) as -> by (vm_compute in E; injection E; intros <- _; reflexivity).
  destruct (prioritize_adds_weighted_scores 10 exampleFramework [("length", 0%Z); ("fifty", 2%Z)]
    [1; 0] [0; 1] [1; 0] [] ∅ ∅ examplePod1 exampleNodes l) as [Hn Ht].
  - vm_compute. reflexivity.
  - apply Forall_cons; split; [cbn; lia|]. apply Forall_cons; split; [cbn; lia|apply Forall_nil; exact I].
  - apply (bool_decide_unpack _). vm_compute. exact I.
  - apply (bool_decide_unpack _). vm_compute. exact I.
  - intros pl Hpl. apply (list_elem_of_fmap_2 scoreplugin_Name) in Hpl. exact Hpl.
  - apply Permutation_swap.
  - reflexivity.
  - apply Permutation_swap.
  - reflexivity.
  - exact E.
  - exists l. split; [reflexivity|]. split; [exact Hn|].
    destruct (l !! 1) as [ns|] eqn:Hl; [|vm_compute in E; injection E as <-; discriminate].
    rewrite <- (proj1 (Ht 1 ns Hl)). vm_compute in E. injection E as <-. injection Hl as <-. reflexivity.
Defined.

Definition exampleSetup : list cycleEvent :=
  [CacheEvent (EvAddNode exampleNode1); CacheEvent (EvAddNode (simpleNode "node2" 4000 8000 10))].
Definition exampleScheduler : genericScheduler :=
  match runCycles id exampleSetup (newSchedulerCache 30 0) NewEmptySnapshot with
  | Some (c, s) => {| scheduler_cache := c; nodeInfoSnapshot := s; scheduler_extenders := [];
                      percentageOfNodesToScore := 0; nextStartNodeIndex := 1 |}
  | None => {| scheduler_cache := newSchedulerCache 30 0; nodeInfoSnapshot := NewEmptySnapshot;
               scheduler_extenders := []; percentageOfNodesToScore := 0; nextStartNodeIndex := 1 |}
  end.
Definition exampleSchedule : schedule :=
  {| searchEvents := [StartPiece 0; StartPiece 1; FinishPiece 1; FinishPiece 0];
     scoreOrders := ([1; 0], [0; 1], [0; 1]); extenderOrder := []; randoms := [0] |}.
Definition runExample := Schedule anyOrder id 10 (fun _ _ => inl "no claims") (fun _ _ => false)
  exampleFramework NewPodNominator exampleSchedule ∅ nominatedPod exampleScheduler.

Lemma schedule_selects_feasible_node_witness :
  exists res g' st', runExample = Some (Ok res, g', st') /\ SuggestedHost res = "node2" /\ FeasibleNodes res = 2 /\
    exists nodes, (exists nd, nd ∈ nodes /\ node_Name nd = "node2") /\
      (length nodes = 1 \/ greatestTotal 10 exampleFramework [] exampleSchedule ∅ nominatedPod nodes "node2").
Proof.
  pose proof (fun r g' st' => schedule_selects_feasible_node anyOrder id 10 (fun _ _ => inl "no claims")
    (fun _ _ => false) exampleFramework NewPodNominator exampleSchedule ∅ st' nominatedPod exampleScheduler g' r) as Hs.
  destruct runExample as [[[r g'] st']|] eqn:E; [|vm_compute in E; discriminate].
  specialize (Hs r g' st' ltac:(intros m; reflexivity) ltac:(apply Forall_nil; exact I) E). cbv zeta in Hs.
  assert (Hr : r = Ok {| SuggestedHost := "node2"; EvaluatedNodes := 2; FeasibleNodes := 2 |})
    by (vm_compute in E; injection E; intros _ _ <-; reflexivity).
  subst r. destruct Hs as (allNodes & nodes & _ & _ & Hhost & _ & Hmax).
  eexists _, g', st'. split; [reflexivity|]. split; [reflexivity|]. split; [reflexivity|].
  exists nodes. split; [exact Hhost|exact Hmax].
Defined.

Lemma schedule_sees_the_live_cache_witness :
  exists r g' st', runExample = Some (r, g', st') /\
    exists allNodes, snapshotNodes (nodeInfoSnapshot g') = Some allNodes /\
      forall info, info ∈ allNodes <-> isLive (scheduler_cache exampleScheduler) info.
Proof.
  pose proof (fun r g' st' => schedule_sees_the_live_cache anyOrder id 10 (fun _ _ => inl "no claims")
    (fun _ _ => false) exampleFramework NewPodNominator exampleSchedule ∅ st' nominatedPod exampleScheduler g' r
    30 0 exampleSetup) as Hs.
  destruct runExample as [[[r g'] st']|] eqn:E; [|vm_compute in E; discriminate].
  exists r, g', st'. split; [reflexivity|].
  destruct (Hs r g' st') as (_ & _ & Hl); [..|exact E|exact Hl].
  - intros l. reflexivity.
  - lia.
  - vm_compute. discriminate.
  - unfold exampleSetup. cbn [validCycles validEvent].
    split_and!; lazymatch goal with |- True => exact I | _ => vm_compute; discriminate end.
  - intros k ph p Hk. vm_compute in Hk. discriminate.
  - vm_compute. reflexivity.
  - vm_compute. reflexivity.
Defined.
