(* ===== verification/Float64.v ===== *)
(** * Go's [float64]

    IEEE 754 binary64 numbers with rounding to nearest even, as the executable
    specification of the Standard Library ([SpecFloat]) defines them, with the
    conversions and the functions of package math that the code uses. *)
From Stdlib Require Import SpecFloat.
From S2P Require Import Prelude.
Local Open Scope Z_scope.

Abbreviation float64 := spec_float.

Definition fadd : float64 -> float64 -> float64 := SFadd 53 1024.
Definition fsub : float64 -> float64 -> float64 := SFsub 53 1024.
Definition fmul : float64 -> float64 -> float64 := SFmul 53 1024.
Definition fdiv : float64 -> float64 -> float64 := SFdiv 53 1024.
Definition fabs : float64 -> float64 := SFabs.
Definition fopp : float64 -> float64 := SFopp.
Definition flt : float64 -> float64 -> bool := SFltb.
Definition fle : float64 -> float64 -> bool := SFleb.

(** [float64(z)] *)
Definition ofInt (z : Z) : float64 := binary_normalize 53 1024 z 0 false.
Definition fzero : float64 := S754_zero false.
Definition fone : float64 := ofInt 1.

(** [int64(f)]: the integer part; Go leaves the result open when it does not fit
    ([None]). *)
Definition toInt64 (f : float64) : option Z :=
  match f with
  | S754_zero _ => Some 0
  | S754_finite s m e =>
      let z := (if s then -1 else 1) * (if 0 <=? e then Z.pos m * 2 ^ e else Z.pos m / 2 ^ (- e)) in
      if decide (in_int64 z) then Some z else None
  | _ => None
  end.

(** [math.Floor]: the greatest integer at most [f].  The sign of a zero result is not kept. *)
Definition ffloor (f : float64) : float64 :=
  match f with
  | S754_finite s m e =>
      if 0 <=? e then f else ofInt ((if s then - Z.pos m else Z.pos m) / 2 ^ (- e))
  | _ => f
  end.

(** [math.Ceil] *)
Definition fceil (f : float64) : float64 :=
  match f with
  | S754_finite s m e =>
      if 0 <=? e then f else ofInt (- ((if s then Z.pos m else - Z.pos m) / 2 ^ (- e)))
  | _ => f
  end.

(** [math.Ldexp(f, e)]: [f] times [2^e]. *)
Definition Ldexp (f : float64) (e : Z) : float64 := SFldexp 53 1024 f e.

Definition fnan : float64 := S754_nan.

(** [math.Max] and [math.Min]: a NaN wins. *)
Definition fmax (x y : float64) : float64 :=
  match x, y with
  | S754_infinity false, _ | _, S754_infinity false => S754_infinity false
  | S754_nan, _ | _, S754_nan => S754_nan
  | S754_zero s, S754_zero _ => if s then y else x
  | _, _ => if flt y x then x else y
  end.
Definition fmin (x y : float64) : float64 :=
  match x, y with
  | S754_infinity true, _ | _, S754_infinity true => S754_infinity true
  | S754_nan, _ | _, S754_nan => S754_nan
  | S754_zero s, S754_zero _ => if s then x else y
  | _, _ => if flt x y then x else y
  end.

(** The functions of package math whose last bits depend on the platform, and the
    result of converting to [int] a number that does not fit in one, which Go leaves
    to the implementation. *)
Class MathLib := {
  math_Log : float64 -> float64;
  math_Pow : float64 -> float64 -> float64;
  math_Exp2 : float64 -> float64;
  int_out_of_range : float64 -> Z
}.

(** [int(f)] *)
Definition toInt `{MathLib} (f : float64) : Z :=
  match toInt64 f with Some z => z | None => wrap64 (int_out_of_range f) end.

(** [math.Round]: half away from zero. *)
Definition fround (f : float64) : float64 :=
  match f with
  | S754_finite s m e =>
      if 0 <=? e then f
      else ofInt ((if s then -1 else 1) * ((Z.pos m + 2 ^ (- e - 1)) / 2 ^ (- e)))
  | _ => f
  end.

(** A library for finite examples; no function of it is looked at there. *)
Definition exampleMath : MathLib :=
  {| math_Log _ := fzero; math_Pow _ _ := fone; math_Exp2 _ := fone; int_out_of_range _ := min_int64 |}.

(** ** Finite examples *)
Example half_of_three : toInt64 (fround (fdiv (ofInt 3) (ofInt 2))) = Some 2.
Proof. reflexivity. Qed.
Example third_truncates : toInt64 (fmul (fdiv (ofInt 1) (ofInt 3)) (ofInt 100)) = Some 33.
Proof. reflexivity. Qed.
Example floor_of_negative : toInt64 (ffloor (fdiv (ofInt (-3)) (ofInt 2))) = Some (-2).
Proof. reflexivity. Qed.
Example ceil_of_half : toInt64 (fceil (fdiv (ofInt 1) (ofInt 2))) = Some 1.
Proof. reflexivity. Qed.
Example ldexp_underflows : Ldexp (ofInt 1) (-106751) = fzero.
Proof. vm_compute. reflexivity. Qed.
