(* ===== verification/Float64Facts.v ===== *)
(** * Facts about [float64]

    The order of the numbers, and what the rounding of a sum or of a product keeps:
    the result is a valid number, it is not negative when the operands are not, and a
    sum of numbers that are not negative is at least each of them, overflow included.
    Integers of at most 53 bits are exact. *)
From Stdlib Require Import SpecFloat.
From S2P Require Import Prelude Float64.
Local Open Scope Z_scope.

(** ** Numbers *)
Definition valid (x : float64) : Prop := valid_binary 53 1024 x = true.
Definition isNum (x : float64) : Prop := x <> S754_nan.
Definition nonneg (x : float64) : Prop := fle fzero x = true.

(** A weight: a valid number that is not negative; it may be infinite. *)
Definition isWeight (x : float64) : Prop := valid x /\ nonneg x.

#[export] Instance valid_dec x : Decision (valid x).
Proof. unfold valid. apply _. Defined.
#[export] Instance nonneg_dec x : Decision (nonneg x).
Proof. unfold nonneg. apply _. Defined.
#[export] Instance isWeight_dec x : Decision (isWeight x).
Proof. unfold isWeight. apply _. Defined.

Lemma nonneg_num x : nonneg x -> isNum x.
Proof. by destruct x. Qed.

Lemma weight_num x : isWeight x -> isNum x.
Proof. intros [_ H]. by apply nonneg_num. Qed.

Lemma fzero_weight : isWeight fzero.
Proof. done. Qed.

(** ** The order *)
Lemma flt_negb_fle x y : isNum x -> isNum y -> flt x y = negb (fle y x).
Proof.
  unfold isNum, flt, fle, SFltb, SFleb. destruct x as [s|s| |s m e], y as [s'|s'| |s' m' e'];
    try congruence; intros _ _; destruct s, s'; try done; simpl;
    rewrite (Z.compare_antisym e e'); destruct (e ?= e')%Z; try done; simpl;
    change (Pos.compare_cont Eq) with Pos.compare; rewrite (Pos.compare_antisym m m'); by destruct (m ?= m')%positive.
Qed.

Lemma fle_refl x : isNum x -> fle x x = true.
Proof.
  unfold isNum, fle, SFleb. destruct x as [s|s| |s m e]; try congruence; intros _; destruct s; try done; simpl;
    rewrite Z.compare_refl; change (Pos.compare_cont Eq) with Pos.compare; by rewrite Pos.compare_refl.
Qed.

(** The order of two finite numbers, by their sign, exponent and mantissa. *)
Lemma fle_finite_pos m1 e1 m2 e2 :
  fle (S754_finite false m1 e1) (S754_finite false m2 e2) = true <->
  e1 < e2 \/ (e1 = e2 /\ (m1 <= m2)%positive).
Proof.
  unfold fle, SFleb. simpl. change (Pos.compare_cont Eq) with Pos.compare.
  destruct (Z.compare_spec e1 e2) as [->|?|?].
  - destruct (Pos.compare_spec m1 m2) as [->|?|?]; split; try done; lia.
  - split; [by left|done].
  - split; [done|lia].
Qed.

Lemma fle_trans x y z : fle x y = true -> fle y z = true -> fle x z = true.
Proof.
  unfold fle, SFleb. destruct x as [[]|[]| |[] m1 e1], y as [[]|[]| |[] m2 e2], z as [[]|[]| |[] m3 e3]; try done; simpl;
    change (Pos.compare_cont Eq) with Pos.compare;
    destruct (Z.compare_spec e1 e2), (Z.compare_spec e2 e3), (Z.compare_spec e1 e3); try done; try lia;
    destruct (Pos.compare_spec m1 m2), (Pos.compare_spec m2 m3), (Pos.compare_spec m1 m3); done || lia.
Qed.

(** ** Rounding *)
Lemma digits_log2 m : Zpos (digits2_pos m) = Z.log2 (Zpos m) + 1.
Proof.
  induction m as [m IH|m IH|]; [| |done].
  - cbn [digits2_pos]. rewrite Pos2Z.inj_succ, IH. rewrite Pos2Z.inj_xI, Z.log2_succ_double by lia. lia.
  - cbn [digits2_pos]. rewrite Pos2Z.inj_succ, IH. rewrite Pos2Z.inj_xO, Z.log2_double by lia. lia.
Qed.

(** The bits of a number that is not negative. *)
Lemma Zdigits2_le m k : 0 <= m -> 0 <= k -> Zdigits2 m <= k <-> m < 2 ^ k.
Proof.
  intros Hm Hk. destruct m as [|m|m]; [|simpl; rewrite digits_log2|lia].
  - simpl. split; [intros _; by apply Z.pow_pos_nonneg|lia].
  - rewrite (Z.log2_lt_pow2 (Z.pos m) k) by lia. lia.
Qed.

Lemma Zdigits2_mul_pow m k : 0 < m -> 0 <= k -> Zdigits2 (m * 2 ^ k) = Zdigits2 m + k.
Proof.
  intros Hm Hk. destruct m as [|m|m]; [lia| |lia]. destruct (Z.pos m * 2 ^ k) as [|p|p] eqn:E; [|simpl|].
  - pose proof (Z.pow_pos_nonneg 2 k). nia.
  - rewrite !digits_log2, <- E, Z.log2_mul_pow2 by lia. lia.
  - pose proof (Z.pow_pos_nonneg 2 k). nia.
Qed.

Lemma Zdigits2_mono m n : 0 <= m <= n -> Zdigits2 m <= Zdigits2 n.
Proof.
  intros Hmn. destruct n as [|n|n]; [replace m with 0 by lia; done| |lia].
  assert (0 <= Zdigits2 (Z.pos n)) by (simpl; lia).
  apply Zdigits2_le; [lia|lia|]. assert (Z.pos n < 2 ^ Zdigits2 (Z.pos n)); [|lia]. by apply Zdigits2_le.
Qed.

Lemma shr_1_m r : 0 <= shr_m r -> shr_m (shr_1 r) = shr_m r / 2.
Proof.
  destruct r as [m r s]. simpl. intros Hm. destruct m as [|[p|p|]|]; try done; simpl.
  - rewrite Pos2Z.inj_xI. apply Z.div_unique_pos with 1; lia.
  - rewrite Pos2Z.inj_xO. apply Z.div_unique_pos with 0; lia.
Qed.

Lemma iter_shr_m p : forall r, 0 <= shr_m r -> shr_m (SpecFloat.iter_pos shr_1 p r) = shr_m r / 2 ^ Z.pos p.
Proof.
  assert (Hpos : forall x p, 0 <= x -> 0 <= x / 2 ^ Z.pos p).
  { intros x q Hx. apply Z.div_pos; [done|]. apply Z.pow_pos_nonneg; lia. }
  assert (Hpow : forall q, 0 < 2 ^ Z.pos q) by (intros; apply Z.pow_pos_nonneg; lia).
  induction p as [p IH|p IH|]; intros r Hr; cbn [SpecFloat.iter_pos].
  - assert (Hr1 : 0 <= shr_m (shr_1 r)) by (rewrite shr_1_m by done; apply Z.div_pos; lia).
    rewrite IH by (rewrite IH by done; by apply Hpos). rewrite IH, shr_1_m by done.
    rewrite !Z.div_div by (done || lia). f_equal.
    replace (Z.pos p~1) with (1 + (Z.pos p + Z.pos p)) by lia. rewrite !Z.pow_add_r by lia. ring.
  - rewrite IH by (rewrite IH by done; by apply Hpos). rewrite IH, Z.div_div by (done || lia). f_equal.
    replace (Z.pos p~0) with (Z.pos p + Z.pos p) by lia. by rewrite Z.pow_add_r by lia.
  - rewrite shr_1_m by done. done.
Qed.

(** The exponent of the last bit that a number with [m] at [e] keeps. *)
Definition lastBit (m e : Z) : Z := Z.max e (fexp 53 1024 (Zdigits2 m + e)).

Lemma shr_fexp_spec m e l : 0 <= m ->
  (shr_fexp 53 1024 m e l).2 = lastBit m e /\
  shr_m (shr_fexp 53 1024 m e l).1 = m / 2 ^ (lastBit m e - e).
Proof.
  intros Hm. unfold shr_fexp, lastBit. set (f := fexp 53 1024 (Zdigits2 m + e)).
  assert (Hrec : shr_m (shr_record_of_loc m l) = m) by (by destruct l as [|[]]).
  destruct (f - e) as [|p|p] eqn:E; simpl.
  - replace (Z.max e f) with e by lia. rewrite Z.sub_diag, Hrec. split; [done|]. by rewrite Z.div_1_r.
  - replace (Z.max e f) with (e + Z.pos p) by lia. split; [done|].
    rewrite iter_shr_m, Hrec by lia. do 2 f_equal. lia.
  - replace (Z.max e f) with e by lia. rewrite Z.sub_diag, Hrec. split; [done|]. by rewrite Z.div_1_r.
Qed.

(** The number with the mantissa [m] at the exponent [e], or infinity. *)
Definition pack (s : bool) (m e : Z) : float64 :=
  match m with
  | Z0 => S754_zero s
  | Zpos p => if e <=? 971 then S754_finite s p e else S754_infinity s
  | Zneg _ => S754_nan
  end.

Lemma lastBit_bounds m e : 0 <= m ->
  e <= lastBit m e /\ -1074 <= lastBit m e /\ 0 <= m / 2 ^ (lastBit m e - e) < 2 ^ 53.
Proof.
  intros Hm. assert (He : e <= lastBit m e) by (unfold lastBit; lia).
  assert (Hb : -1074 <= lastBit m e) by (unfold lastBit, fexp, emin; lia).
  assert (Hd : Zdigits2 m <= 53 + (lastBit m e - e)) by (unfold lastBit, fexp; lia).
  split_and!; [done..| |].
  - apply Z.div_pos; [done|]. apply Z.pow_pos_nonneg; lia.
  - apply Z.div_lt_upper_bound; [apply Z.pow_pos_nonneg; lia|].
    rewrite <- Z.pow_add_r by lia. apply Zdigits2_le; lia.
Qed.

Lemma lastBit_small q e : 0 <= q < 2 ^ 53 -> -1074 <= e -> lastBit q e = e.
Proof.
  intros Hq He. assert (Zdigits2 q <= 53) by (apply Zdigits2_le; lia).
  unfold lastBit, fexp, emin. lia.
Qed.

Lemma round_nearest_step m l : m <= round_nearest_even m l <= m + 1.
Proof. destruct l as [|[]]; simpl; try lia. destruct (Z.even m); lia. Qed.

(** What rounding leaves of [m] at [e]: the bits from [lastBit] on, rounded down or up. *)
Lemma round_result s m e l : 0 <= m ->
  let e' := lastBit m e in
  exists q, m / 2 ^ (e' - e) <= q <= m / 2 ^ (e' - e) + 1 /\
    ((q < 2 ^ 53 /\ binary_round_aux 53 1024 s m e l = pack s q e') \/
     (q = 2 ^ 53 /\ binary_round_aux 53 1024 s m e l = pack s (2 ^ 52) (e' + 1))).
Proof.
  intros Hm e'. subst e'. destruct (lastBit_bounds m e Hm) as (He&Hb&Hq). unfold binary_round_aux.
  destruct (shr_fexp_spec m e l Hm) as [Ee Em]. destruct (shr_fexp 53 1024 m e l) as [r e']. simpl in Ee, Em.
  subst e'. rewrite Em. set (q0 := m / 2 ^ (lastBit m e - e)) in *. set (e' := lastBit m e) in *.
  pose proof (round_nearest_step q0 (loc_of_shr_record r)) as Hstep.
  set (q := round_nearest_even q0 (loc_of_shr_record r)) in *. exists q. split; [done|].
  destruct (shr_fexp_spec q e' loc_Exact ltac:(lia)) as [Ee Em']. destruct (shr_fexp 53 1024 q e' loc_Exact) as [r' e'']. simpl in Ee, Em'.
  rewrite Em', Ee. change (1024 - 53) with 971. destruct (decide (q < 2 ^ 53)) as [Hlt|Hge].
  - left. split; [done|]. rewrite lastBit_small, Z.sub_diag, Z.div_1_r by lia. done.
  - right. assert (Eq : q = 2 ^ 53) by lia. split; [done|].
    replace (lastBit q e') with (e' + 1) by (rewrite Eq; unfold lastBit, fexp, emin; change (Zdigits2 (2 ^ 53)) with 54; lia).
    replace (e' + 1 - e') with 1 by lia. rewrite Eq. done.
Qed.

(** Rounding a number that is not negative gives a number that is not negative, and at
    least every number [x] of the format below it. *)
Lemma pack_nonneg m e : 0 <= m -> nonneg (pack false m e).
Proof. intros Hm. destruct m as [|p|p]; [done| |lia]. simpl. by destruct (e <=? 971). Qed.

Lemma round_nonneg m e l : 0 <= m -> nonneg (binary_round_aux 53 1024 false m e l).
Proof.
  intros Hm. destruct (lastBit_bounds m e Hm) as (_&_&Hq).
  destruct (round_result false m e l Hm) as (q&Hqb&[[_ ->]|[_ ->]]); apply pack_nonneg; lia.
Qed.

Lemma round_ge mx ex m e l :
  valid (S754_finite false mx ex) -> e <= ex -> Z.pos mx * 2 ^ (ex - e) <= m ->
  fle (S754_finite false mx ex) (binary_round_aux 53 1024 false m e l) = true.
Proof.
  intros Hv He Hm. unfold valid, valid_binary, bounded, canonical_mantissa in Hv. apply andb_prop in Hv as [Hv _]. apply Z.eqb_eq in Hv.
  assert (Hp : 0 < 2 ^ (ex - e)) by (apply Z.pow_pos_nonneg; lia).
  assert (Hm0 : 0 < m) by nia.
  assert (Hdig : Zdigits2 (Z.pos mx) + (ex - e) <= Zdigits2 m).
  { rewrite <- Zdigits2_mul_pow by lia. apply Zdigits2_mono. lia. }
  change (Zdigits2 (Z.pos mx)) with (Z.pos (digits2_pos mx)) in Hdig.
  assert (Hex : ex <= lastBit m e) by (unfold lastBit, fexp, emin in *; lia).
  assert (Hle : forall (p : positive) e', e' <= 971 -> ex < e' \/ (ex = e' /\ Z.pos mx <= Z.pos p) ->
    fle (S754_finite false mx ex) (pack false (Z.pos p) e') = true).
  { intros p e' He' H. simpl. rewrite (proj2 (Z.leb_le e' 971) He'). apply fle_finite_pos. lia. }
  assert (Hle' : forall z e', 0 < z -> ex < e' \/ (ex = e' /\ Z.pos mx <= z) ->
    fle (S754_finite false mx ex) (pack false z e') = true).
  { intros z e' Hz H. destruct z as [|p|p]; [lia| |lia]. destruct (decide (e' <= 971)) as [He'|He']; [by apply Hle|].
    simpl. destruct (Z.leb_spec e' 971); [lia|done]. }
  assert (Hq0 : ex = lastBit m e -> Z.pos mx <= m / 2 ^ (lastBit m e - e)).
  { intros <-. apply Z.div_le_lower_bound; lia. }
  assert (Hq1 : ex < lastBit m e -> 0 < m / 2 ^ (lastBit m e - e)).
  { intros Hlt. apply Z.div_str_pos. split; [apply Z.pow_pos_nonneg; lia|].
    assert (0 < Zdigits2 m) by lia. destruct m as [|p|p]; [done| |lia].
    apply Z.le_trans with (2 ^ Z.log2 (Z.pos p)); [|by apply Z.log2_spec]. apply Z.pow_le_mono_r; [lia|].
    unfold lastBit, fexp, emin in *. cbn [Zdigits2] in *. pose proof (digits_log2 p) as H0. clear - Hv Hlt H0 He Hdig. lia. }
  destruct (round_result false m e l ltac:(lia)) as (q&Hq&[[Hlt ->]|[-> ->]]).
  - apply Hle'; [|]. all: destruct (decide (ex = lastBit m e)) as [E|E]; [specialize (Hq0 E)|specialize (Hq1 ltac:(lia))]; lia.
  - apply Hle'; [done|]. left. lia.
Qed.

Lemma pack_valid s m e : 0 <= m < 2 ^ 53 -> -1074 <= e -> (e = -1074 \/ 2 ^ 52 <= m) -> valid (pack s m e).
Proof.
  intros Hm He Hor. destruct m as [|p|p]; [done| |lia]. unfold pack. destruct (Z.leb_spec e 971) as [Hle|]; [|done].
  unfold valid, valid_binary, bounded, canonical_mantissa. apply andb_true_intro. split; [|by apply Z.leb_le].
  apply Z.eqb_eq. change (Z.pos (digits2_pos p)) with (Zdigits2 (Z.pos p)).
  assert (Hd : Zdigits2 (Z.pos p) <= 53) by (apply Zdigits2_le; lia). unfold fexp, emin.
  destruct Hor as [->|Hbig]; [lia|]. assert (Hb : Zdigits2 (2 ^ 52) <= Zdigits2 (Z.pos p)) by (apply Zdigits2_mono; lia). change (Zdigits2 (2 ^ 52)) with 53 in Hb. lia.
Qed.

Lemma round_valid s m e l : 0 <= m -> e <= fexp 53 1024 (Zdigits2 m + e) -> valid (binary_round_aux 53 1024 s m e l).
Proof.
  intros Hm Hal. destruct (lastBit_bounds m e Hm) as (He&Hb&Hq0). destruct (round_result s m e l Hm) as (q&Hq&[[Hlt ->]|[_ ->]]).
  - apply pack_valid; [lia|done|]. destruct (decide (lastBit m e = -1074)) as [|Hne]; [by left|right].
    assert (El : lastBit m e - e = Zdigits2 m - 53) by (unfold lastBit, fexp, emin in *; lia).
    assert (Hd : 53 <= Zdigits2 m) by lia. destruct m as [|p|p]; [done| |lia].
    apply Z.le_trans with (Z.pos p / 2 ^ (lastBit (Z.pos p) e - e)); [|lia]. rewrite El.
    apply Z.div_le_lower_bound; [apply Z.pow_pos_nonneg; lia|]. cbn [Zdigits2] in *. rewrite digits_log2 in *.
    rewrite <- Z.pow_add_r by lia. replace (Z.log2 (Z.pos p) + 1 - 53 + 52) with (Z.log2 (Z.pos p)) by lia. by apply Z.log2_spec.
  - apply pack_valid; [done|lia|by right].
Qed.

(** *** [binary_round]: the mantissa is first moved to the exponent it is rounded at *)
Lemma shl_align_spec m e e' :
  let '(m', f) := shl_align m e e' in
  f = Z.min e e' /\ Z.pos m' = Z.pos m * 2 ^ (e - f).
Proof.
  unfold shl_align. destruct (e' - e) as [|d|d] eqn:E.
  - split; [lia|]. rewrite Z.sub_diag. lia.
  - split; [lia|]. rewrite Z.sub_diag. lia.
  - split; [lia|]. replace (e - e') with (Z.pos d) by lia.
    clear. induction d as [|d IH] using Pos.peano_ind; [simpl; lia|].
    rewrite Pos.iter_succ, Pos2Z.inj_xO, IH, Pos2Z.inj_succ, Z.pow_succ_r by lia. lia.
Qed.

Lemma binary_round_spec s m e : exists m' e',
  binary_round 53 1024 s m e = binary_round_aux 53 1024 s (Z.pos m') e' loc_Exact /\
  e' <= e /\ Z.pos m' = Z.pos m * 2 ^ (e - e') /\ e' <= fexp 53 1024 (Zdigits2 (Z.pos m') + e').
Proof.
  unfold binary_round. set (f := fexp 53 1024 (Z.pos (digits2_pos m) + e)).
  pose proof (shl_align_spec m e f) as Hal. destruct (shl_align m e f) as [m' e']. destruct Hal as [-> Hm'].
  exists m', (Z.min e f). split_and!; [done|lia|done|].
  rewrite Hm', Zdigits2_mul_pow by lia. change (Zdigits2 (Z.pos m)) with (Z.pos (digits2_pos m)).
  replace (Z.pos (digits2_pos m) + (e - e `min` f) + e `min` f) with (Z.pos (digits2_pos m) + e) by lia. fold f. lia.
Qed.

Lemma binary_round_valid s m e : valid (binary_round 53 1024 s m e).
Proof. destruct (binary_round_spec s m e) as (m'&e'&->&_&_&Hal). by apply round_valid. Qed.

Lemma normalize_valid m e s : valid (binary_normalize 53 1024 m e s).
Proof. destruct m; [done|apply binary_round_valid..]. Qed.

Lemma normalize_weight m e : 0 <= m -> isWeight (binary_normalize 53 1024 m e false).
Proof.
  intros Hm. split; [apply normalize_valid|]. destruct m as [|m|m]; [done| |lia]. simpl.
  destruct (binary_round_spec false m e) as (m'&e'&->&_). by apply round_nonneg.
Qed.

(** ** The operations on weights *)
Lemma ofInt_weight z : 0 <= z -> isWeight (ofInt z).
Proof. apply normalize_weight. Qed.

Lemma fadd_finite_nonneg mx ex my ey :
  let ez := Z.min ex ey in
  exists m, fadd (S754_finite false mx ex) (S754_finite false my ey) = binary_normalize 53 1024 (Z.pos m) ez false /\
    Z.pos m = Z.pos mx * 2 ^ (ex - ez) + Z.pos my * 2 ^ (ey - ez).
Proof.
  intros ez. pose proof (shl_align_spec mx ex ez) as Hx. pose proof (shl_align_spec my ey ez) as Hy.
  unfold fadd, SFadd. fold ez. destruct (shl_align mx ex ez) as [mx' fx], (shl_align my ey ez) as [my' fy]. simpl.
  destruct Hx as [-> Hx], Hy as [-> Hy]. exists (mx' + my')%positive. split; [done|]. rewrite Pos2Z.inj_add, Hx, Hy.
  do 2 f_equal; f_equal; f_equal; lia.
Qed.

Lemma fadd_valid x y : valid x -> valid y -> valid (fadd x y).
Proof. intros Hx Hy. destruct x as [[]|[]| |], y as [[]|[]| |]; try done; apply normalize_valid. Qed.

Lemma fsub_valid x y : valid x -> valid y -> valid (fsub x y).
Proof. intros Hx Hy. destruct x as [[]|[]| |], y as [[]|[]| |]; try done; apply normalize_valid. Qed.

Lemma fadd_weight x y : isWeight x -> isWeight y -> isWeight (fadd x y).
Proof.
  intros [Hvx Hx] [Hvy Hy]. split; [by apply fadd_valid|].
  destruct x as [[]|[]| |[] mx ex], y as [[]|[]| |[] my ey]; try done.
  destruct (fadd_finite_nonneg mx ex my ey) as (m&->&_). by apply normalize_weight.
Qed.

(** A sum of weights is at least each of them. *)
Lemma normalize_ge mx ex m e : valid (S754_finite false mx ex) -> e <= ex -> Z.pos mx * 2 ^ (ex - e) <= Z.pos m ->
  fle (S754_finite false mx ex) (binary_normalize 53 1024 (Z.pos m) e false) = true.
Proof.
  intros Hv He Hm. simpl. destruct (binary_round_spec false m e) as (m'&e'&->&He'&Hm'&_).
  apply round_ge; [done|lia|]. rewrite Hm'. replace (ex - e') with ((ex - e) + (e - e')) by lia.
  rewrite Z.pow_add_r by lia. pose proof (Z.pow_pos_nonneg 2 (e - e')). nia.
Qed.

Lemma fadd_ge_l x y : isWeight x -> isWeight y -> fle x (fadd x y) = true.
Proof.
  intros [Hvx Hx] [Hvy Hy]. destruct x as [[]|[]| |[] mx ex], y as [[]|[]| |[] my ey]; try done; try (by apply fle_refl).
  destruct (fadd_finite_nonneg mx ex my ey) as (m&->&Hm). apply normalize_ge; [done|lia|]. rewrite Hm.
  pose proof (Z.pow_pos_nonneg 2 (ey - ex `min` ey)). nia.
Qed.

Lemma fadd_ge_r x y : isWeight x -> isWeight y -> fle y (fadd x y) = true.
Proof.
  intros [Hvx Hx] [Hvy Hy]. destruct x as [[]|[]| |[] mx ex], y as [[]|[]| |[] my ey]; try done; try (by apply fle_refl).
  destruct (fadd_finite_nonneg mx ex my ey) as (m&->&Hm). apply normalize_ge; [done|lia|]. rewrite Hm.
  pose proof (Z.pow_pos_nonneg 2 (ex - ex `min` ey)). nia.
Qed.

(** A product of weights is a weight, unless it is zero times infinity. *)
Lemma fmul_weight x y : isWeight x -> isWeight y -> isNum (fmul x y) -> isWeight (fmul x y).
Proof.
  intros [Hvx Hx] [Hvy Hy] Hn. destruct x as [[]|[]| |[] mx ex], y as [[]|[]| |[] my ey]; try done.
  unfold fmul, SFmul. simpl xorb. split; [|by apply round_nonneg]. apply round_valid; [done|].
  unfold valid, valid_binary, bounded, canonical_mantissa in Hvx, Hvy. apply andb_prop in Hvx as [Hvx _], Hvy as [Hvy _].
  apply Z.eqb_eq in Hvx, Hvy. change (Zdigits2 (Z.pos (mx * my))) with (Z.pos (digits2_pos (mx * my))).
  rewrite !digits_log2 in *. rewrite Pos2Z.inj_mul. unfold fexp, emin in *.
  pose proof (Z.log2_mul_below (Z.pos mx) (Z.pos my) eq_refl eq_refl). pose proof (Z.log2_nonneg (Z.pos mx)). pose proof (Z.log2_nonneg (Z.pos my)).
  lia.
Qed.

(** ** Differences *)
Definition finiteFloat (x : float64) : Prop := match x with S754_zero _ | S754_finite _ _ _ => True | _ => False end.

Lemma pack_num s m e : 0 <= m -> isNum (pack s m e).
Proof. intros Hm. destruct m as [|p|p]; [done| |lia]. simpl. by destruct (e <=? 971). Qed.

Lemma normalize_num m e s : isNum (binary_normalize 53 1024 m e s).
Proof.
  assert (Hr : forall b p, isNum (binary_round 53 1024 b p e)).
  { intros b p. destruct (binary_round_spec b p e) as (m'&e'&->&_). destruct (lastBit_bounds (Z.pos m') e' ltac:(lia)) as (_&_&Hq).
    destruct (round_result b (Z.pos m') e' loc_Exact ltac:(lia)) as (q&Hqb&[[_ ->]|[_ ->]]); apply pack_num; lia. }
  destruct m; [done|apply Hr..].
Qed.

Lemma ofInt_valid z : valid (ofInt z).
Proof. apply normalize_valid. Qed.

Lemma ofInt_num z : isNum (ofInt z).
Proof. apply normalize_num. Qed.

Lemma fsub_num x y : isNum x -> finiteFloat y -> isNum (fsub x y).
Proof. intros Hx Hy. destruct x as [[]|[]| |], y as [[]|[]| |]; try done; apply normalize_num. Qed.

(** Rounding a number below [x] of the format gives at most [x]. *)
Lemma round_le mx ex m e l :
  valid (S754_finite false mx ex) -> 0 <= m -> e <= ex -> m < Z.pos mx * 2 ^ (ex - e) ->
  e <= fexp 53 1024 (Zdigits2 m + e) ->
  fle (binary_round_aux 53 1024 false m e l) (S754_finite false mx ex) = true.
Proof.
  intros Hv Hm0 He Hm Hal. pose proof Hv as Hvb. unfold valid, valid_binary, bounded, canonical_mantissa in Hv.
  apply andb_prop in Hv as [Hv Hmax]. apply Z.eqb_eq in Hv. apply Z.leb_le in Hmax. change (1024 - 53) with 971 in Hmax.
  assert (Hp : 0 < 2 ^ (ex - e)) by (apply Z.pow_pos_nonneg; lia).
  assert (Hdig : Zdigits2 m <= Zdigits2 (Z.pos mx) + (ex - e)) by (rewrite <- Zdigits2_mul_pow by lia; apply Zdigits2_mono; lia).
  cbn [Zdigits2] in Hdig.
  assert (Hex : lastBit m e <= ex) by (unfold lastBit, fexp, emin in *; lia).
  assert (Hq0 : ex = lastBit m e -> m / 2 ^ (lastBit m e - e) < Z.pos mx).
  { intros <-. apply Z.div_lt_upper_bound; lia. }
  assert (Hbig : lastBit m e < ex -> 2 ^ 52 <= Z.pos mx).
  { intros Hlt. assert (Hd : Z.pos (digits2_pos mx) = 53) by (unfold lastBit, fexp, emin in *; lia).
    rewrite digits_log2 in Hd. replace 52 with (Z.log2 (Z.pos mx)) by lia. by apply Z.log2_spec. }
  assert (Hle : forall z e', 0 <= z -> e' <= ex -> (e' = ex -> z <= Z.pos mx) ->
    fle (pack false z e') (S754_finite false mx ex) = true).
  { intros z e' Hz Hee' Hzz. destruct z as [|p|p]; [done| |lia]. simpl. rewrite (proj2 (Z.leb_le e' 971)) by lia.
    apply fle_finite_pos. lia. }
  assert (Hmx : Z.pos mx < 2 ^ 53) by (apply Zdigits2_le; cbn [Zdigits2]; unfold fexp, emin in *; lia).
  pose proof (lastBit_bounds m e Hm0) as (_&_&Hqb).
  destruct (round_result false m e l Hm0) as (q&Hq&[[Hlt ->]|[-> ->]]); apply Hle; try lia.
Qed.

Lemma normalize_le mx ex z e : valid (S754_finite false mx ex) -> e <= ex -> z < Z.pos mx * 2 ^ (ex - e) ->
  fle (binary_normalize 53 1024 z e false) (S754_finite false mx ex) = true.
Proof.
  intros Hv He Hz. destruct z as [|m|m]; [done| |]; simpl.
  - destruct (binary_round_spec false m e) as (m'&e'&->&He'&Hm'&Hal). apply round_le; [done..|lia| |done].
    rewrite Hm'. replace (ex - e') with ((ex - e) + (e - e')) by lia.
    rewrite Z.pow_add_r by lia. pose proof (Z.pow_pos_nonneg 2 (e - e')). nia.
  - destruct (binary_round_spec true m e) as (m'&e'&->&_). destruct (lastBit_bounds (Z.pos m') e' ltac:(lia)) as (_&_&Hq).
    assert (Hpack : forall z f, 0 <= z -> fle (pack true z f) (S754_finite false mx ex) = true).
    { intros z f Hz'. destruct z as [|p|p]; [done| |lia]. simpl. by destruct (f <=? 971). }
    destruct (round_result true (Z.pos m') e' loc_Exact ltac:(lia)) as (q&Hqb&[[_ ->]|[_ ->]]); apply Hpack; lia.
Qed.

(** Subtracting a finite weight does not increase a weight. *)
Lemma fsub_le x y : isWeight x -> isWeight y -> finiteFloat y -> fle (fsub x y) x = true.
Proof.
  intros [Hvx Hx] [Hvy Hy] Hf. destruct x as [[]|[]| |[] mx ex], y as [[]|[]| |[] my ey]; try done; try (by apply fle_refl).
  unfold fsub, SFsub. set (ez := Z.min ex ey).
  pose proof (shl_align_spec mx ex ez) as Hax. pose proof (shl_align_spec my ey ez) as Hay.
  destruct (shl_align mx ex ez) as [mx' fx], (shl_align my ey ez) as [my' fy].
  destruct Hax as [-> Hax], Hay as [_ Hay]. cbn [fst cond_Zopp]. apply normalize_le; [done|lia|].
  replace (ex `min` ez) with ez in Hax by lia. rewrite Hax. lia.
Qed.

(** ** Powers of two *)
Lemma Ldexp_one_spec e : e < 1024 -> isWeight (Ldexp fone e) /\ finiteFloat (Ldexp fone e).
Proof.
  intros He. change (Ldexp fone e) with (binary_round 53 1024 false (2 ^ 52)%positive (-52 + e)). split; [split|].
  - apply binary_round_valid.
  - destruct (binary_round_spec false (2 ^ 52)%positive (-52 + e)) as (m'&e'&->&_). by apply round_nonneg.
  - destruct (binary_round_spec false (2 ^ 52)%positive (-52 + e)) as (m'&e'&->&He'&Hm'&Hal).
    assert (Hd : Zdigits2 (Z.pos m') = 53 + (-52 + e - e')).
    { rewrite Hm', Zdigits2_mul_pow by lia. done. }
    assert (Hlast : lastBit (Z.pos m') e' = Z.max (e - 52) (-1074)) by (unfold lastBit, fexp, emin; rewrite Hd; unfold fexp, emin in Hal; lia).
    assert (Hq : Z.pos m' / 2 ^ (lastBit (Z.pos m') e' - e') <= 2 ^ 52).
    { assert (e' <= lastBit (Z.pos m') e') by (unfold lastBit; lia).
      apply Z.div_le_upper_bound; [apply Z.pow_pos_nonneg; lia|]. rewrite Hm' at 1. change (Z.pos (2 ^ 52)) with (2 ^ 52).
      assert (2 ^ (-52 + e - e') <= 2 ^ (lastBit (Z.pos m') e' - e')) by (apply Z.pow_le_mono_r; lia). lia. }
    assert (Hpack : forall z f, 0 <= z -> f <= 971 -> finiteFloat (pack false z f)).
    { intros z f Hz Hf. destruct z as [|p|p]; [done| |lia]. simpl. by rewrite (proj2 (Z.leb_le f 971)). }
    pose proof (lastBit_bounds (Z.pos m') e' ltac:(lia)) as (_&_&Hqb).
    destruct (round_result false (Z.pos m') e' loc_Exact ltac:(lia)) as (q&Hqq&[[_ ->]|[-> ->]]); [apply Hpack; lia|lia].
Qed.

Lemma fmul_finite_num x y : finiteFloat x -> finiteFloat y -> isNum (fmul x y).
Proof.
  intros Hx Hy. destruct x as [|[]| |sx mx ex], y as [|[]| |sy my ey]; try done. unfold fmul, SFmul.
  destruct (lastBit_bounds (Z.pos (mx * my)) (ex + ey) ltac:(lia)) as (_&_&Hq).
  destruct (round_result (xorb sx sy) (Z.pos (mx * my)) (ex + ey) loc_Exact ltac:(lia)) as (q&Hqb&[[_ ->]|[_ ->]]); apply pack_num; lia.
Qed.

(** ** Products and quotients *)
Lemma canonical_digits s m e : valid (S754_finite s m e) -> fexp 53 1024 (Zdigits2 (Z.pos m) + e) = e.
Proof.
  unfold valid, valid_binary, bounded, canonical_mantissa. intros [Hv _]%andb_prop. apply Z.eqb_eq in Hv. exact Hv.
Qed.

Lemma Zdigits2_mul_ge m n : Zdigits2 (Z.pos m) + Zdigits2 (Z.pos n) - 1 <= Zdigits2 (Z.pos (m * n)).
Proof. cbn [Zdigits2]. rewrite !digits_log2, Pos2Z.inj_mul. pose proof (Z.log2_mul_below (Z.pos m) (Z.pos n)). lia. Qed.

Lemma fmul_valid x y : valid x -> valid y -> valid (fmul x y).
Proof.
  intros Hvx Hvy. destruct x as [[]|[]| |sx mx ex], y as [[]|[]| |sy my ey]; try done. unfold fmul, SFmul. apply round_valid; [done|].
  pose proof (canonical_digits _ _ _ Hvx) as Hx. pose proof (canonical_digits _ _ _ Hvy) as Hy. unfold fexp, emin in *.
  pose proof (Zdigits2_mul_ge mx my) as Hd.
  assert (0 < Zdigits2 (Z.pos mx) /\ 0 < Zdigits2 (Z.pos my)) by (cbn; lia). lia.
Qed.

(** A number times a number that is neither zero nor infinite is a number. *)
Lemma fmul_num x s m e : isNum x -> isNum (fmul x (S754_finite s m e)).
Proof. intros Hx. destruct x as [|[]| |sx mx ex]; try done. by apply fmul_finite_num. Qed.

Lemma Zdigits2_div m d : 0 <= m -> 0 < d -> Zdigits2 d <= Zdigits2 m -> Zdigits2 m - Zdigits2 d <= Zdigits2 (m / d).
Proof.
  intros Hm Hd Hle. assert (Hpos : forall z, 0 <= z -> 0 <= Zdigits2 z) by (intros [] ?; cbn; lia).
  destruct (decide (Zdigits2 m = Zdigits2 d)) as [->|Hne]; [pose proof (Hpos (m / d) ltac:(apply Z.div_pos; lia)); lia|].
  pose proof (Hpos d ltac:(lia)) as Hpd. apply Z.nlt_ge. intros Hlt.
  assert (Hq : m / d < 2 ^ (Zdigits2 m - Zdigits2 d - 1)) by (apply Zdigits2_le; [apply Z.div_pos; lia|lia|lia]).
  assert (Hd2 : d < 2 ^ Zdigits2 d) by (apply Zdigits2_le; lia).
  assert (Hm2 : m < 2 ^ (Zdigits2 m - 1)); [|apply Zdigits2_le in Hm2; lia].
  replace (Zdigits2 m - 1) with (Zdigits2 m - Zdigits2 d - 1 + Zdigits2 d) by lia. rewrite Z.pow_add_r by lia.
  pose proof (Z.mod_pos_bound m d Hd). rewrite (Z.div_mod m d) at 1 by lia. set (a := 2 ^ (Zdigits2 m - Zdigits2 d - 1)) in *.
  assert (d * (m / d) <= d * (a - 1)) by (apply Z.mul_le_mono_nonneg_l; lia). nia.
Qed.

(** What is rounded: a quotient of the mantissas, at an exponent that leaves it digits enough. *)
Lemma fdiv_spec sx mx ex sy my ey : exists e l,
  fdiv (S754_finite sx mx ex) (S754_finite sy my ey) =
    binary_round_aux 53 1024 (xorb sx sy) (Z.pos mx * 2 ^ (ex - ey - e) / Z.pos my) e l /\
  e = Z.min (fexp 53 1024 (Zdigits2 (Z.pos mx) + ex - (Zdigits2 (Z.pos my) + ey))) (ex - ey).
Proof.
  unfold fdiv, SFdiv, SFdiv_core_binary. set (e := Z.min _ _). cbv zeta.
  assert (Em : (match ex - ey - e with 0 => Z.pos mx | Z.pos _ => Z.shiftl (Z.pos mx) (ex - ey - e) | Z.neg _ => 0 end) = Z.pos mx * 2 ^ (ex - ey - e)).
  { destruct (ex - ey - e) as [|p|p] eqn:E; [by rewrite Z.mul_1_r|by apply Z.shiftl_mul_pow2; lia|lia]. }
  rewrite Em. pose proof (Z_div_mod (Z.pos mx * 2 ^ (ex - ey - e)) (Z.pos my) ltac:(lia)) as Hdm.
  destruct (Z.div_eucl _ _) as [q r]. destruct Hdm as [Eq Hr]. rewrite (Z.div_unique_pos _ (Z.pos my) q r Hr Eq).
  eexists e, _. split; [reflexivity|done].
Qed.

Lemma fdiv_valid x y : valid x -> valid y -> valid (fdiv x y).
Proof.
  intros Hvx Hvy. destruct x as [[]|[]| |sx mx ex], y as [[]|[]| |sy my ey]; try done.
  destruct (fdiv_spec sx mx ex sy my ey) as (e&l&->&He). set (s := ex - ey - e) in *.
  assert (Hs : 0 <= s) by lia. assert (Hp : 0 < 2 ^ s) by (apply Z.pow_pos_nonneg; lia).
  apply round_valid; [apply Z.div_pos; lia|]. unfold fexp, emin in *.
  destruct (decide (e <= -1074)) as [Hlow|Hhigh]; [lia|].
  assert (Hd : Zdigits2 (Z.pos mx * 2 ^ s) = Zdigits2 (Z.pos mx) + s) by (apply Zdigits2_mul_pow; lia).
  pose proof (Zdigits2_div (Z.pos mx * 2 ^ s) (Z.pos my) ltac:(lia) ltac:(lia) ltac:(lia)). lia.
Qed.

(** One over a number that is not too small is finite. *)
Lemma fdiv_one_finite my ey : -900 <= ey -> finiteFloat (fdiv fone (S754_finite false my ey)).
Proof.
  intros Hey. change fone with (S754_finite false (2 ^ 52) (-52)).
  destruct (fdiv_spec false (2 ^ 52) (-52) false my ey) as (e&l&->&He). set (s := -52 - ey - e) in *.
  assert (Hs : 0 <= s) by lia. assert (Hp : 0 < 2 ^ s) by (apply Z.pow_pos_nonneg; lia).
  set (m := Z.pos (2 ^ 52) * 2 ^ s / Z.pos my). assert (Hm : 0 <= m) by (apply Z.div_pos; lia).
  assert (Hdm : Zdigits2 m <= 53 + s).
  { replace (53 + s) with (Zdigits2 (Z.pos (2 ^ 52) * 2 ^ s)) by (rewrite Zdigits2_mul_pow by lia; done).
    apply Zdigits2_mono. split; [done|]. apply Z.div_le_upper_bound; [lia|]. nia. }
  assert (Hlast : lastBit m e <= 900) by (unfold lastBit, fexp, emin; lia).
  assert (Hpack : forall z f, 0 <= z -> f <= 971 -> finiteFloat (pack (xorb false false) z f)).
  { intros z f Hz Hf. destruct z as [|p|p]; [done| |lia]. simpl. by rewrite (proj2 (Z.leb_le f 971)). }
  pose proof (lastBit_bounds m e Hm) as (_&_&Hqb).
  destruct (round_result (xorb false false) m e l Hm) as (q&Hqq&[[_ ->]|[-> ->]]); [apply Hpack; lia|apply Hpack; [by apply Z.pow_nonneg|lia]].
Qed.

Lemma ofInt_pos p : ofInt (Z.pos p) = S754_infinity false \/ exists m e, ofInt (Z.pos p) = S754_finite false m e /\ -52 <= e.
Proof.
  change (ofInt (Z.pos p)) with (binary_round 53 1024 false p 0). destruct (binary_round_spec false p 0) as (m&e&->&He&Hm&_).
  assert (Hd : Zdigits2 (Z.pos m) + e = Zdigits2 (Z.pos p)) by (rewrite Hm, Zdigits2_mul_pow by lia; lia).
  assert (Hp : 1 <= Zdigits2 (Z.pos p)) by (cbn; lia). set (f := lastBit (Z.pos m) e).
  assert (Hf : -52 <= f /\ e <= f /\ f - e <= Zdigits2 (Z.pos m) - 1).
  { unfold f, lastBit, fexp, emin. assert (1 <= Zdigits2 (Z.pos m)) by (cbn; lia). lia. }
  assert (Hq : 1 <= Z.pos m / 2 ^ (f - e)).
  { apply Z.div_le_lower_bound; [apply Z.pow_pos_nonneg; lia|]. rewrite Z.mul_1_r. apply Z.nlt_ge. intros Hlt.
    apply Zdigits2_le in Hlt; lia. }
  assert (Hpack : forall z g, 0 < z -> -52 <= g -> pack false z g = S754_infinity false \/ exists m e, pack false z g = S754_finite false m e /\ -52 <= e).
  { intros z g Hz Hg. destruct z as [|z|z]; [lia| |lia]. unfold pack. destruct (g <=? 971); [right; eauto|by left]. }
  destruct (round_result false (Z.pos m) e loc_Exact ltac:(lia)) as (q&Hqq&[[_ ->]|[_ ->]]); fold f in Hqq |- *; apply Hpack; lia.
Qed.

(** ** Percentages *)

(** A number of the format needs no rounding. *)
Lemma round_exact s p e : valid (S754_finite s p e) -> binary_round_aux 53 1024 s (Z.pos p) e loc_Exact = S754_finite s p e.
Proof.
  intros Hv. pose proof (canonical_digits _ _ _ Hv) as Hd. unfold binary_round_aux, shr_fexp.
  rewrite Hd, Z.sub_diag. cbn [shr shr_record_of_loc shr_m loc_of_shr_record round_nearest_even]. rewrite Hd, Z.sub_diag. cbn.
  unfold valid, valid_binary, bounded in Hv. apply andb_prop in Hv as [_ Hv]. change (1024 - 53) with 971 in *. by rewrite Hv.
Qed.

(** Integers of at most 53 bits are exact. *)
Lemma ofInt_exact p : Z.pos p < 2 ^ 53 ->
  exists m e, ofInt (Z.pos p) = S754_finite false m e /\ valid (S754_finite false m e) /\
    -52 <= e <= 0 /\ Z.pos m = Z.pos p * 2 ^ (- e).
Proof.
  intros Hp. change (ofInt (Z.pos p)) with (binary_round 53 1024 false p 0). unfold binary_round.
  assert (Hd : 1 <= Zdigits2 (Z.pos p) <= 53) by (split; [cbn; lia|by apply Zdigits2_le]).
  set (f := fexp 53 1024 (Z.pos (digits2_pos p) + 0)).
  assert (Hf : f = Zdigits2 (Z.pos p) - 53) by (unfold f, fexp, emin; cbn [Zdigits2]; cbn [Zdigits2] in Hd; lia).
  pose proof (shl_align_spec p 0 f) as Hal. destruct (shl_align p 0 f) as [m e]. destruct Hal as [-> Hm].
  replace (0 `min` f) with f in * by lia. rewrite Z.sub_0_l in Hm.
  assert (Hv : valid (S754_finite false m f)).
  { unfold valid, valid_binary, bounded, canonical_mantissa. apply andb_true_intro. split; [apply Z.eqb_eq|apply Z.leb_le; lia].
    change (Z.pos (digits2_pos m)) with (Zdigits2 (Z.pos m)). rewrite Hm, Zdigits2_mul_pow by lia. unfold fexp, emin. lia. }
  exists m, f. split_and!; [by apply round_exact|done|lia|lia|done].
Qed.

(** A quotient of weights that is at most one is at most the number after one. *)
Lemma fdiv_at_most_one mx ex my ey : valid (S754_finite false mx ex) -> valid (S754_finite false my ey) ->
  -900 <= ex -> -900 <= ey -> Z.pos mx * 2 ^ (ex - Z.min ex ey) <= Z.pos my * 2 ^ (ey - Z.min ex ey) ->
  let q := fdiv (S754_finite false mx ex) (S754_finite false my ey) in
  isWeight q /\ fle q (S754_finite false (2 ^ 52 + 1) (-52)) = true.
Proof.
  intros Hvx Hvy Hex Hey Hle q. assert (Hvq : valid q) by by apply fdiv_valid. unfold q in *.
  destruct (fdiv_spec false mx ex false my ey) as (e&l&Eq&He). rewrite Eq in *. set (s := ex - ey - e) in *.
  assert (Hs : 0 <= s) by lia. assert (Hp : 0 < 2 ^ s) by (apply Z.pow_pos_nonneg; lia).
  set (m := Z.pos mx * 2 ^ s / Z.pos my) in *. assert (Hm : 0 <= m) by (apply Z.div_pos; lia).
  split; [split; [done|by apply round_nonneg]|].
  assert (Hdx : Zdigits2 (Z.pos mx) + ex <= Zdigits2 (Z.pos my) + ey).
  { assert (Hd : Zdigits2 (Z.pos mx * 2 ^ (ex - Z.min ex ey)) <= Zdigits2 (Z.pos my * 2 ^ (ey - Z.min ex ey))).
    { apply Zdigits2_mono. split; [|done]. apply Z.mul_nonneg_nonneg; [lia|apply Z.pow_nonneg; lia]. }
    rewrite !Zdigits2_mul_pow in Hd by lia. lia. }
  assert (He52 : e <= -53) by (unfold fexp, emin in He; lia).
  assert (Hm1 : m <= 2 ^ (- e)).
  { apply Z.div_le_upper_bound; [lia|]. set (c := Z.min ex ey) in *.
    apply (Z.mul_le_mono_pos_r _ _ (2 ^ (ey - c))); [apply Z.pow_pos_nonneg; lia|].
    rewrite <- Z.mul_assoc, <- Z.pow_add_r by lia. replace (s + (ey - c)) with ((ex - c) + - e) by lia.
    rewrite Z.pow_add_r by lia. assert (0 < 2 ^ (- e)) by (apply Z.pow_pos_nonneg; lia). nia. }
  apply round_le; [done|done|lia| |].
  - assert (H2 : 2 ^ (- e) = 2 ^ 52 * 2 ^ (-52 - e)) by (rewrite <- Z.pow_add_r by lia; f_equal; lia).
    assert (0 < 2 ^ (-52 - e)) by (apply Z.pow_pos_nonneg; lia). rewrite Pos2Z.inj_add. change (Z.pos (2 ^ 52)) with (2 ^ 52). lia.
  - destruct (decide (e <= -1074)) as [Hlow|Hhigh]; [unfold fexp, emin in *; lia|].
    assert (Hd : Zdigits2 (Z.pos mx * 2 ^ s) = Zdigits2 (Z.pos mx) + s) by (apply Zdigits2_mul_pow; lia).
    unfold fexp, emin in *. pose proof (Zdigits2_div (Z.pos mx * 2 ^ s) (Z.pos my) ltac:(lia) ltac:(lia) ltac:(lia)). fold m in H. lia.
Qed.

(** What a float64 between 0 and 100.5 is as an integer. *)
Lemma toInt64_at_most_100 x : isWeight x -> fle x (S754_finite false (201 * 2 ^ 45) (-46)) = true ->
  exists z, toInt64 x = Some z /\ 0 <= z <= 100.
Proof.
  intros [Hv Hn] Hle. destruct x as [s|[]| |[] m e]; try done; [by exists 0|].
  apply fle_finite_pos in Hle. assert (Hm : Z.pos m < 2 ^ 53).
  { apply Zdigits2_le; [lia..|]. pose proof (canonical_digits _ _ _ Hv). unfold fexp, emin in *. lia. }
  unfold toInt64. rewrite Z.mul_1_l. destruct (Z.leb_spec 0 e) as [|He]; [lia|].
  assert (Hz : 0 <= Z.pos m / 2 ^ (- e) <= 100).
  { split; [apply Z.div_pos; [lia|apply Z.pow_pos_nonneg; lia]|]. apply Z.lt_succ_r, Z.div_lt_upper_bound; [apply Z.pow_pos_nonneg; lia|].
    destruct Hle as [Hlt|[-> Hle]]; [|change (Z.pos (201 * 2 ^ 45)) with (201 * 2 ^ 45) in Hle; lia].
    assert (H47 : 2 ^ 47 <= 2 ^ (- e)) by (apply Z.pow_le_mono_r; lia). lia. }
  rewrite decide_True by (unfold in_int64, min_int64, max_int64; lia). eauto.
Qed.

Lemma hundred_times q : isWeight q -> fle q (S754_finite false (2 ^ 52 + 1) (-52)) = true ->
  isWeight (fmul (ofInt 100) q) /\ fle (fmul (ofInt 100) q) (S754_finite false (201 * 2 ^ 45) (-46)) = true.
Proof.
  intros [Hv Hn] Hle. change (ofInt 100) with (S754_finite false (100 * 2 ^ 46) (-46)).
  destruct q as [[]|[]| |[] m e]; try done. apply fle_finite_pos in Hle.
  assert (Hw : isWeight (fmul (S754_finite false (100 * 2 ^ 46) (-46)) (S754_finite false m e))).
  { apply fmul_weight; [by split|by split|by apply fmul_finite_num]. }
  split; [done|]. unfold fmul, SFmul. cbn [xorb].
  assert (Hd : fexp 53 1024 (Zdigits2 (Z.pos m) + e) = e) by by eapply canonical_digits.
  assert (Hm : Z.pos m < 2 ^ 53) by (apply Zdigits2_le; [lia..|unfold fexp, emin in *; lia]).
  change (Pos.mul (100 * 2 ^ 46) m) with (100 * 2 ^ 46 * m)%positive. rewrite Pos2Z.inj_mul.
  change (Z.pos (100 * 2 ^ 46)) with (100 * 2 ^ 46). apply round_le; [done|lia|lia| |].
  - change (Z.pos (201 * 2 ^ 45)) with (201 * 2 ^ 45). change (Z.pos (2 ^ 52 + 1)) with (2 ^ 52 + 1) in Hle.
    replace (-46 - (-46 + e)) with (- e) by lia.
    assert (H52 : 2 ^ 52 <= 2 ^ (- e)) by (apply Z.pow_le_mono_r; lia). destruct Hle as [Hlt|[-> Hle]]; [|lia].
    assert (H53 : 2 ^ 53 <= 2 ^ (- e)) by (apply Z.pow_le_mono_r; lia). lia.
  - assert (Hdm : 53 + Zdigits2 (Z.pos m) - 1 <= Zdigits2 (100 * 2 ^ 46 * Z.pos m)) by exact (Zdigits2_mul_ge (100 * 2 ^ 46) m).
    unfold fexp, emin in *. assert (0 < Zdigits2 (Z.pos m)) by (cbn; lia). lia.
Qed.

Lemma percent_range a b : 0 <= a <= b -> 0 < b < 2 ^ 53 ->
  exists z, toInt64 (fmul (ofInt 100) (fdiv (ofInt a) (ofInt b))) = Some z /\ 0 <= z <= 100.
Proof.
  intros Ha Hb. destruct b as [|b|]; [lia| |lia]. destruct (ofInt_exact b) as (mb&eb&->&Hvb&Heb&Hmb); [lia|].
  destruct a as [|a|]; [by exists 0| |lia]. destruct (ofInt_exact a) as (ma&ea&->&Hva&Hea&Hma); [lia|].
  destruct (fdiv_at_most_one ma ea mb eb) as [Hw Hle]; [done|done|lia|lia| |].
  - rewrite Hma, Hmb, <- !Z.mul_assoc, <- !Z.pow_add_r by lia.
    replace (- ea + (ea - ea `min` eb)) with (- (ea `min` eb)) by lia.
    replace (- eb + (eb - ea `min` eb)) with (- (ea `min` eb)) by lia. apply Z.mul_le_mono_nonneg_r; [apply Z.pow_nonneg; lia|lia].
  - destruct (hundred_times _ Hw Hle) as [Hw' Hle']. by apply toInt64_at_most_100.
Qed.

(** ** Integers as [float64]

    Integers of at most 53 bits are converted, compared and converted back exactly, and
    their product with a number below one half is at most half of them. *)
Definition exactInt (z : Z) : Prop := Z.abs z < 2 ^ 53.

#[export] Instance exactInt_dec z : Decision (exactInt z).
Proof. unfold exactInt. apply _. Defined.

(** The mantissa of an integer has 53 bits. *)
Lemma ofInt_normal p : Z.pos p < 2 ^ 53 -> exists m e, ofInt (Z.pos p) = S754_finite false m e /\ valid (S754_finite false m e) /\
  -52 <= e <= 0 /\ Z.pos m = Z.pos p * 2 ^ (- e) /\ 2 ^ 52 <= Z.pos m < 2 ^ 53.
Proof.
  intros Hp. destruct (ofInt_exact p Hp) as (m&e&E&Hv&He&Hm). exists m, e. split_and!; [done..|lia|lia|done| |].
  - pose proof (canonical_digits _ _ _ Hv) as Hd. unfold fexp, emin in Hd. cbn [Zdigits2] in Hd. rewrite digits_log2 in Hd.
    replace 52 with (Z.log2 (Z.pos m)) by lia. by apply Z.log2_spec.
  - pose proof (canonical_digits _ _ _ Hv) as Hd. unfold fexp, emin in Hd. apply Zdigits2_le; lia.
Qed.

(** Rounding does not depend on the sign. *)
Lemma round_opp m e l : binary_round_aux 53 1024 true m e l = fopp (binary_round_aux 53 1024 false m e l).
Proof.
  unfold binary_round_aux. destruct (shr_fexp 53 1024 m e l) as [r e'].
  destruct (shr_fexp 53 1024 _ e' loc_Exact) as [r' e'']. destruct (shr_m r') as [|p|p]; [done| |done]. by destruct (e'' <=? 1024 - 53).
Qed.

Lemma ofInt_opp z : z <> 0 -> ofInt (- z) = fopp (ofInt z).
Proof.
  assert (Hneg : forall p, ofInt (Z.neg p) = fopp (ofInt (Z.pos p))).
  { intros p. change (ofInt (Z.neg p)) with (binary_round 53 1024 true p 0). change (ofInt (Z.pos p)) with (binary_round 53 1024 false p 0).
    unfold binary_round. destruct (shl_align p 0 _) as [m e]. apply round_opp. }
  destruct z as [|p|p]; intros Hz; [done|apply Hneg|]. change (- Z.neg p) with (Z.pos p). rewrite Hneg. by destruct (ofInt (Z.pos p)) as [[]|[]| |[]].
Qed.

Lemma toInt64_opp x z : toInt64 x = Some z -> in_int64 (- z) -> toInt64 (fopp x) = Some (- z).
Proof.
  intros Hx Hz. destruct x as [s|[]| |s m e]; try done; [by injection Hx as <-|]. unfold toInt64 in *. cbn [fopp SFopp].
  set (w := if 0 <=? e then _ else _) in *. case_decide; [|done]. injection Hx as <-.
  rewrite decide_True; [|]; destruct s; cbn [negb]; replace (-1 * w) with (- w) in * by lia; rewrite ?Z.mul_1_l, ?Z.opp_involutive in *; done.
Qed.

(** A number between zero and a number with an integer part is truncated below that. *)
Lemma toInt64_below m e x : isWeight x -> valid (S754_finite false m e) -> 2 ^ 52 <= Z.pos m < 2 ^ 53 -> -1000 <= e < 0 ->
  fle x (S754_finite false m e) = true -> exists z, toInt64 x = Some z /\ 0 <= z <= Z.pos m / 2 ^ (- e).
Proof.
  intros [Hvx Hx] Hv Hm He Hle. destruct x as [s|[]| |[] mx ex]; try done; [exists 0; split; [done|]; split; [done|]; by apply Z.div_pos; [|apply Z.pow_pos_nonneg]; lia|].
  apply fle_finite_pos in Hle. unfold toInt64. rewrite Z.mul_1_l. destruct (Z.leb_spec 0 ex) as [|Hex]; [lia|].
  assert (Hmx : Z.pos mx < 2 ^ 53).
  { apply Zdigits2_le; [lia..|]. pose proof (canonical_digits _ _ _ Hvx). unfold fexp, emin in *. lia. }
  assert (Hz : 0 <= Z.pos mx / 2 ^ (- ex) <= Z.pos m / 2 ^ (- e)).
  { split; [apply Z.div_pos; [lia|apply Z.pow_pos_nonneg; lia]|]. destruct Hle as [Hlt|[-> Hle]]; [|apply Z.div_le_mono; [apply Z.pow_pos_nonneg|]; lia].
    apply Z.div_le_lower_bound; [apply Z.pow_pos_nonneg; lia|].
    assert (Hq : 2 ^ (- e) * (Z.pos mx / 2 ^ (- ex)) <= Z.pos mx / 2).
    { apply Z.div_le_lower_bound; [lia|]. assert (Hpow : 2 ^ (- ex) = 2 * 2 ^ (- e) * 2 ^ (e - ex - 1)).
      { rewrite <- (Z.pow_succ_r 2 (- e)) by lia. rewrite <- Z.pow_add_r by lia. f_equal. lia. }
      assert (Hp : 0 < 2 ^ (e - ex - 1)) by (apply Z.pow_pos_nonneg; lia). assert (Hp' : 0 < 2 ^ (- e)) by (apply Z.pow_pos_nonneg; lia).
      pose proof (Z.mul_div_le (Z.pos mx) (2 ^ (- ex)) ltac:(rewrite Hpow; nia)) as Hdiv. set (q := Z.pos mx / 2 ^ (- ex)) in *.
      assert (0 <= q) by (apply Z.div_pos; [lia|rewrite Hpow; nia]). rewrite Hpow in Hdiv. nia. }
    assert (Z.pos mx / 2 < 2 ^ 52) by (apply Z.div_lt_upper_bound; lia). lia. }
  assert (Z.pos m / 2 ^ (- e) <= Z.pos m) by (apply Z.div_le_upper_bound; [apply Z.pow_pos_nonneg; lia|]; pose proof (Z.pow_pos_nonneg 2 (- e)); nia).
  rewrite decide_True by (unfold in_int64, min_int64, max_int64; lia). eauto.
Qed.

Definition fhalf : float64 := S754_finite false (2 ^ 52) (-53).

(** The product of an integer with a number below one half. *)
Lemma below_half_product g z : isWeight g -> flt g fhalf = true -> exactInt z ->
  exists y, toInt64 (fmul g (ofInt z)) = Some y /\ 2 * Z.abs y <= Z.abs z.
Proof.
  intros Hg Hlt Hz. assert (Hpos : forall p, Z.pos p < 2 ^ 53 -> exists y, toInt64 (fmul g (ofInt (Z.pos p))) = Some y /\ 0 <= 2 * y <= Z.pos p /\
    toInt64 (fmul g (ofInt (Z.neg p))) = Some (- y)).
  { intros p Hp. destruct (ofInt_normal p Hp) as (m&e&E&Hv&He&Hm&Hmb). change (Z.neg p) with (- Z.pos p). rewrite ofInt_opp, E by done.
    destruct g as [[]|[]| |[] mg eg]; try done; try (by exists 0); try (by destruct Hg).
    assert (Hopp : fmul (S754_finite false mg eg) (fopp (S754_finite false m e)) = fopp (fmul (S754_finite false mg eg) (S754_finite false m e))) by apply round_opp.
    rewrite Hopp. set (y := fmul _ _). assert (Hy : isWeight y) by (apply fmul_weight; [done|split; [done|reflexivity]|by apply fmul_finite_num]).
    rewrite flt_negb_fle in Hlt by done. apply negb_true_iff, not_true_iff_false in Hlt. unfold fhalf in Hlt. rewrite fle_finite_pos in Hlt.
    assert (Hdg : fexp 53 1024 (Zdigits2 (Z.pos mg) + eg) = eg) by (by eapply canonical_digits, (proj1 Hg)).
    assert (Hmg : Z.pos mg < 2 ^ 53) by (apply Zdigits2_le; [lia..|unfold fexp, emin in *; lia]).
    assert (Hv' : valid (S754_finite false m (e - 1))).
    { pose proof (canonical_digits _ _ _ Hv) as Hd. unfold valid, valid_binary, bounded, canonical_mantissa. apply andb_true_intro.
      split; [apply Z.eqb_eq|apply Z.leb_le; lia]. change (Z.pos (digits2_pos m)) with (Zdigits2 (Z.pos m)). unfold fexp, emin in *. lia. }
    assert (Hle : fle y (S754_finite false m (e - 1)) = true).
    { unfold y, fmul, SFmul. cbn [xorb]. assert (Heg : eg <= -53) by lia. apply round_le; [done|lia|lia| |].
      - rewrite Pos2Z.inj_mul. replace (e - 1 - (eg + e)) with (- 1 - eg) by lia.
        rewrite (Z.mul_comm (Z.pos mg)). apply Z.mul_lt_mono_pos_l; [lia|].
        destruct (decide (eg = -53)) as [->|]; [change (Z.pos (2 ^ 52)) with (2 ^ 52) in Hlt; lia|].
        assert (2 ^ 53 <= 2 ^ (- 1 - eg)) by (apply Z.pow_le_mono_r; lia). lia.
      - pose proof (Zdigits2_mul_ge mg m). pose proof (canonical_digits _ _ _ Hv) as Hd. unfold fexp, emin in *. cbn [Zdigits2] in *. lia. }
    destruct (toInt64_below m (e - 1) y Hy Hv' Hmb ltac:(lia) Hle) as (w&Ew&Hw).
    assert (Hwp : Z.pos m / 2 ^ (- (e - 1)) = Z.pos p / 2).
    { rewrite Hm. replace (- (e - 1)) with (1 + - e) by lia. rewrite Z.pow_add_r by lia.
      rewrite Z.div_mul_cancel_r; [done|lia|]. pose proof (Z.pow_pos_nonneg 2 (- e)). lia. }
    rewrite Hwp in Hw. pose proof (Z.mul_div_le (Z.pos p) 2 ltac:(lia)). exists w. split_and!; [done|lia|lia|].
    apply toInt64_opp; [done|]. unfold in_int64, min_int64, max_int64. lia. }
  destruct z as [|p|p].
  - destruct g as [[]|[]| |[] mg eg]; try done; try (by exists 0); by destruct Hg.
  - destruct (Hpos p) as (y&Ey&Hy&_); [unfold exactInt in Hz; lia|]. exists y. split; [done|lia].
  - destruct (Hpos p) as (y&_&Hy&Ey); [unfold exactInt in Hz; lia|]. exists (- y). split; [done|lia].
Qed.

(** ** Conversion and order *)
Lemma toInt64_ofInt z : exactInt z -> toInt64 (ofInt z) = Some z.
Proof.
  assert (Hpos : forall p, Z.pos p < 2 ^ 53 -> toInt64 (ofInt (Z.pos p)) = Some (Z.pos p)).
  { intros p Hp. destruct (ofInt_normal p Hp) as (m&e&->&_&He&Hm&_). unfold toInt64. rewrite Z.mul_1_l.
    assert (Hv : (if 0 <=? e then Z.pos m * 2 ^ e else Z.pos m / 2 ^ (- e)) = Z.pos p).
    { destruct (Z.leb_spec 0 e).
      - assert (e = 0) as -> by lia. rewrite Hm. change (2 ^ (- 0)) with 1. change (2 ^ 0) with 1. lia.
      - rewrite Hm, Z.div_mul; [done|]. pose proof (Z.pow_pos_nonneg 2 (- e)). lia. }
    rewrite Hv. rewrite decide_True; [done|]. unfold in_int64, min_int64, max_int64. lia. }
  unfold exactInt. destruct z as [|p|p]; intros Hz; [done|apply Hpos; lia|]. change (Z.neg p) with (- Z.pos p). rewrite ofInt_opp by done.
  apply toInt64_opp; [apply Hpos; lia|]. unfold in_int64, min_int64, max_int64. lia.
Qed.

Lemma fle_opp x y : isNum x -> isNum y -> fle (fopp x) (fopp y) = fle y x.
Proof.
  intros Hx Hy. unfold fle, SFleb. destruct x as [[]|[]| |[] m1 e1], y as [[]|[]| |[] m2 e2]; try done; cbn;
    change (Pos.compare_cont Eq) with Pos.compare; rewrite (Z.compare_antisym e1 e2); destruct (e1 ?= e2)%Z; cbn; try done;
    rewrite (Pos.compare_antisym m1 m2); by destruct (m1 ?= m2)%positive.
Qed.

(** Of two numbers whose mantissas have 53 bits the one with the smaller exponent is smaller. *)
Lemma normal_smaller p q e e' : 2 ^ 52 <= q * 2 ^ (- e') -> p * 2 ^ (- e) < 2 ^ 53 -> e < e' <= 0 -> 0 < p -> p < q.
Proof.
  intros Hq Hp He H0. assert (E : 2 ^ (- e) = 2 * 2 ^ (- e') * 2 ^ (e' - e - 1)).
  { rewrite <- (Z.pow_succ_r 2 (- e')) by lia. rewrite <- Z.pow_add_r by lia. f_equal. lia. }
  pose proof (Z.pow_pos_nonneg 2 (- e') ltac:(lia) ltac:(lia)). pose proof (Z.pow_pos_nonneg 2 (e' - e - 1) ltac:(lia) ltac:(lia)).
  apply Z.nle_gt. intros Hle. assert (Hm : p * (2 * 2 ^ (- e')) <= p * 2 ^ (- e)) by (apply Z.mul_le_mono_nonneg_l; [lia|rewrite E; nia]).
  assert (q * 2 ^ (- e') <= p * 2 ^ (- e')) by (apply Z.mul_le_mono_nonneg_r; lia). lia.
Qed.

Lemma fle_ofInt_pos p q : Z.pos p < 2 ^ 53 -> Z.pos q < 2 ^ 53 -> fle (ofInt (Z.pos p)) (ofInt (Z.pos q)) = (Z.pos p <=? Z.pos q).
Proof.
  intros Hp Hq. destruct (ofInt_normal p Hp) as (m&e&->&_&He&Hm&Hmb), (ofInt_normal q Hq) as (m'&e'&->&_&He'&Hm'&Hmb').
  apply Bool.eq_true_iff_eq. rewrite fle_finite_pos, Z.leb_le. rewrite Hm in Hmb. rewrite Hm' in Hmb'.
  destruct (Z.lt_trichotomy e e') as [Hlt|[<-|Hlt]].
  - pose proof (normal_smaller (Z.pos p) (Z.pos q) e e'). lia.
  - pose proof (Z.pow_pos_nonneg 2 (- e) ltac:(lia) ltac:(lia)). pose proof (Z.mul_le_mono_pos_r (Z.pos p) (Z.pos q) (2 ^ (- e)) ltac:(done)). lia.
  - pose proof (normal_smaller (Z.pos q) (Z.pos p) e' e). lia.
Qed.

Lemma fle_ofInt a b : exactInt a -> exactInt b -> fle (ofInt a) (ofInt b) = (a <=? b).
Proof.
  unfold exactInt. intros Ha Hb.
  assert (Hfin : forall p, Z.pos p < 2 ^ 53 -> exists m e, ofInt (Z.pos p) = S754_finite false m e).
  { intros p Hp. destruct (ofInt_normal p Hp) as (m&e&E&_). eauto. }
  destruct a as [|p|p], b as [|q|q]; try reflexivity.
  - by destruct (Hfin q ltac:(lia)) as (m&e&->).
  - change (Z.neg q) with (- Z.pos q). rewrite ofInt_opp by done. by destruct (Hfin q ltac:(lia)) as (m&e&->).
  - by destruct (Hfin p ltac:(lia)) as (m&e&->).
  - apply fle_ofInt_pos; lia.
  - change (Z.neg q) with (- Z.pos q). rewrite ofInt_opp by done.
    by destruct (Hfin p ltac:(lia)) as (m&e&->), (Hfin q ltac:(lia)) as (m'&e'&->).
  - change (Z.neg p) with (- Z.pos p). rewrite ofInt_opp by done. by destruct (Hfin p ltac:(lia)) as (m&e&->).
  - change (Z.neg p) with (- Z.pos p). rewrite ofInt_opp by done.
    by destruct (Hfin p ltac:(lia)) as (m&e&->), (Hfin q ltac:(lia)) as (m'&e'&->).
  - change (Z.neg p) with (- Z.pos p). change (Z.neg q) with (- Z.pos q). rewrite !ofInt_opp, fle_opp by (done || apply ofInt_num).
    rewrite fle_ofInt_pos by lia. apply Bool.eq_true_iff_eq. rewrite !Z.leb_le. lia.
Qed.

Lemma fmax_ofInt a b : exactInt a -> exactInt b -> fmax (ofInt a) (ofInt b) = ofInt (Z.max a b).
Proof.
  intros Ha Hb. assert (Hcmp : (if flt (ofInt b) (ofInt a) then ofInt a else ofInt b) = ofInt (Z.max a b)).
  { rewrite flt_negb_fle, fle_ofInt by (done || apply ofInt_num). destruct (Z.leb_spec a b); cbn; f_equal; lia. }
  assert (Hfin : forall z, exactInt z -> finiteFloat (ofInt z)).
  { intros [|p|p] Hz; [done| |change (Z.neg p) with (- Z.pos p); rewrite ofInt_opp by done];
      destruct (ofInt_normal p) as (m&e&->&_); unfold exactInt in Hz; done || lia. }
  pose proof (Hfin a Ha) as Fa. pose proof (Hfin b Hb) as Fb. rewrite <- Hcmp.
  assert (Hzero : forall z s, exactInt z -> ofInt z = S754_zero s -> s = false).
  { intros [|p|p] s Hz; [by intros [= <-]| |change (Z.neg p) with (- Z.pos p); rewrite ofInt_opp by done];
      destruct (ofInt_normal p) as (m&e&->&_); unfold exactInt in Hz; done || lia. }
  destruct (ofInt a) as [s|[]| |s m e] eqn:Ea, (ofInt b) as [s'|[]| |s' m' e'] eqn:Eb; try done.
  rewrite (Hzero a s Ha Ea), (Hzero b s' Hb Eb). done.
Qed.

(** ** Normalising to ten thousand

    The quotient of ten thousand and a number [y] times a number up to [y] is, rounded twice,
    at most ten thousand and four units in the last place, and for [y] itself as close from below. *)
Definition tenThousand (d : Z) : float64 := S754_finite false (Z.to_pos (10000 * 2 ^ 39 + d)) (-39).

Lemma normal_mantissa m e : valid (S754_finite false m e) -> -1000 <= e -> 2 ^ 52 <= Z.pos m < 2 ^ 53 /\ e <= 971.
Proof.
  intros Hv He. pose proof (canonical_digits _ _ _ Hv) as Hd. unfold fexp, emin in Hd. cbn [Zdigits2] in Hd. rewrite digits_log2 in Hd.
  unfold valid, valid_binary, bounded in Hv. apply andb_prop in Hv as [_ Hmax%Z.leb_le]. split; [|exact Hmax].
  replace 52 with (Z.log2 (Z.pos m)) by lia. replace 53 with (Z.succ (Z.log2 (Z.pos m))) by lia. by apply Z.log2_spec.
Qed.

Lemma valid_mantissa m e : valid (S754_finite false m e) -> Z.pos m < 2 ^ 53.
Proof. intros Hv. pose proof (canonical_digits _ _ _ Hv). apply Zdigits2_le; [lia..|unfold fexp, emin in *; lia]. Qed.

(** The quotient, whose mantissa is within three units of the exact one. *)
Lemma tenThousand_over my ey : valid (S754_finite false my ey) -> -1000 <= ey ->
  exists mq d, fdiv (ofInt 10000) (S754_finite false my ey) = S754_finite false mq (d - 92 - ey) /\
    valid (S754_finite false mq (d - 92 - ey)) /\ 0 <= d <= 2 /\ 2 ^ 52 <= Z.pos mq /\
    (10000 * 2 ^ 39 - 3) * 2 ^ 53 <= Z.pos my * Z.pos mq * 2 ^ d <= (10000 * 2 ^ 39 + 3) * 2 ^ 53.
Proof.
  intros Hv Hey. destruct (normal_mantissa my ey Hv Hey) as [Hmy Hmax].
  change (ofInt 10000) with (S754_finite false (10000 * 2 ^ 39) (-39)).
  assert (Hvq : valid (fdiv (S754_finite false (10000 * 2 ^ 39) (-39)) (S754_finite false my ey))) by (by apply fdiv_valid).
  destruct (fdiv_spec false (10000 * 2 ^ 39) (-39) false my ey) as (e&l&Eq&He). rewrite Eq in *. cbn [xorb] in *.
  pose proof (canonical_digits _ _ _ Hv) as Hdy. change (Zdigits2 (Z.pos (10000 * 2 ^ 39))) with 53 in He.
  assert (Hdy' : Zdigits2 (Z.pos my) = 53) by (unfold fexp, emin in Hdy; lia). rewrite Hdy' in He.
  assert (Ee : e = -92 - ey) by (unfold fexp, emin in He; lia). clear He. subst e.
  replace (-39 - ey - (-92 - ey)) with 53 in * by lia. change (Z.pos (10000 * 2 ^ 39)) with (10000 * 2 ^ 39) in *.
  set (m := 10000 * 2 ^ 39 * 2 ^ 53 / Z.pos my) in *.
  pose proof (Z.mul_div_le (10000 * 2 ^ 39 * 2 ^ 53) (Z.pos my) ltac:(lia)) as Hlo. pose proof (Z.mul_succ_div_gt (10000 * 2 ^ 39 * 2 ^ 53) (Z.pos my) ltac:(lia)) as Hhi.
  fold m in Hlo, Hhi.
  assert (Hm : 10000 * 2 ^ 39 <= m <= 2 * (10000 * 2 ^ 39)).
  { split; [apply Z.div_le_lower_bound; lia|apply Z.div_le_upper_bound; lia]. }
  assert (Hd1 : 53 <= Zdigits2 m).
  { apply Z.nlt_ge. intros Hlt. assert (Hs : Zdigits2 m <= 52) by lia. apply Zdigits2_le in Hs; lia. }
  assert (Hd2 : Zdigits2 m <= 54) by (apply Zdigits2_le; lia).
  assert (El : lastBit m (-92 - ey) = -92 - ey + (Zdigits2 m - 53)) by (unfold lastBit, fexp, emin; lia).
  destruct (round_result false m (-92 - ey) l ltac:(lia)) as (q&Hq&Hor). rewrite El in *.
  replace (-92 - ey + (Zdigits2 m - 53) - (-92 - ey)) with (Zdigits2 m - 53) in Hq by lia.
  set (c := Zdigits2 m - 53) in *. assert (Hc : c = 0 \/ c = 1 /\ 2 ^ 53 <= m).
  { destruct (decide (Zdigits2 m <= 53)) as [Hlt|Hgt]; [left; unfold c; lia|right]. split; [unfold c; lia|].
    apply Z.nlt_ge. intros Hlt. apply Hgt, Zdigits2_le; lia. }
  assert (Hq' : Z.abs (q * 2 ^ c - m) <= 2 /\ 2 ^ 52 <= q).
  { destruct Hc as [->|[-> H53]]; [change (2 ^ 0) with 1 in *; rewrite Z.div_1_r in Hq; lia|]. change (2 ^ 1) with 2 in *.
    pose proof (Z.mul_div_le m 2 ltac:(lia)). pose proof (Z.mul_succ_div_gt m 2 ltac:(lia)). lia. }
  assert (Herr : (10000 * 2 ^ 39 - 3) * 2 ^ 53 <= Z.pos my * (q * 2 ^ c) <= (10000 * 2 ^ 39 + 3) * 2 ^ 53).
  { destruct Hq' as [Habs _]. assert (m - 2 <= q * 2 ^ c <= m + 2) by lia. split; nia. }
  destruct Hor as [[Hlt E]|[Eq2 E]]; rewrite E in *.
  - destruct q as [|q|q]; [lia| |lia]. exists q, c. unfold pack in *. destruct (Z.leb_spec (-92 - ey + c) 971); [|lia].
    replace (c - 92 - ey) with (-92 - ey + c) by lia. split_and!; try done; lia.
  - exists (2 ^ 52)%positive, (c + 1). change (pack false (2 ^ 52) (-92 - ey + c + 1)) with
      (if -92 - ey + c + 1 <=? 971 then S754_finite false (2 ^ 52) (-92 - ey + c + 1) else S754_infinity false) in *.
    destruct (Z.leb_spec (-92 - ey + c + 1) 971); [|lia].
    replace (c + 1 - 92 - ey) with (-92 - ey + c + 1) by lia. rewrite Z.pow_add_r by lia. change (Z.pos (2 ^ 52)) with (2 ^ 52).
    subst q. split_and!; try done; lia.
Qed.

Lemma tenThousand_valid d : Z.abs d < 2 ^ 40 -> valid (tenThousand d).
Proof.
  intros Hd. unfold tenThousand, valid, valid_binary, bounded, canonical_mantissa. apply andb_true_intro. split; [|done].
  apply Z.eqb_eq. change (Z.pos (digits2_pos ?p)) with (Zdigits2 (Z.pos p)). set (m := Z.to_pos _).
  assert (Hm : 2 ^ 52 <= Z.pos m < 2 ^ 53) by (unfold m; rewrite Z2Pos.id by lia; lia).
  assert (Zdigits2 (Z.pos m) = 53); [|unfold fexp, emin; lia].
  assert (Zdigits2 (Z.pos m) <= 53) by (apply Zdigits2_le; lia). assert (~ Zdigits2 (Z.pos m) <= 52) by (rewrite Zdigits2_le; lia). lia.
Qed.

Lemma share_of_ten_thousand my ey x : valid (S754_finite false my ey) -> -1000 <= ey -> isWeight x -> finiteFloat x ->
  fle x (S754_finite false my ey) = true ->
  let p := fmul x (fdiv (ofInt 10000) (S754_finite false my ey)) in
  isWeight p /\ fle p (tenThousand 4) = true /\ (x = S754_finite false my ey -> fle (tenThousand (-4)) p = true).
Proof.
  intros Hv Hey Hx Hfin Hle. destruct (tenThousand_over my ey Hv Hey) as (mq&d&E&Hvq&Hd&Hq&Hprod). rewrite E. cbv zeta.
  destruct (normal_mantissa my ey Hv Hey) as [Hmy Hmax].
  assert (Hw : isWeight (fmul x (S754_finite false mq (d - 92 - ey)))).
  { apply fmul_weight; [done|by split|]. by apply fmul_num, weight_num. }
  split; [done|]. destruct x as [s|s| |[] mx ex]; try done; [by destruct Hx|]. unfold fmul, SFmul. cbn [xorb].
  pose proof (valid_mantissa mx ex (proj1 Hx)) as Hmx. apply fle_finite_pos in Hle.
  assert (Hexy : Z.pos mx <= Z.pos my * 2 ^ (ey - ex)).
  { destruct Hle as [Hlt|[-> Hle]]; [|rewrite Z.sub_diag; lia].
    assert (2 ^ 1 <= 2 ^ (ey - ex)) by (apply Z.pow_le_mono_r; lia). nia. }
  assert (Hp2 : 0 < 2 ^ d) by (apply Z.pow_pos_nonneg; lia). assert (H53 : 2 ^ (53 - d) * 2 ^ d = 2 ^ 53) by (rewrite <- Z.pow_add_r by lia; f_equal; lia).
  unfold tenThousand. split.
  - apply round_le; [by apply (tenThousand_valid 4)|lia|lia| |].
    + rewrite Z2Pos.id, Pos2Z.inj_mul by lia. replace (-39 - (ex + (d - 92 - ey))) with ((53 - d) + (ey - ex)) by lia.
      rewrite Z.pow_add_r by lia. assert (Hpe : 0 < 2 ^ (ey - ex)) by (apply Z.pow_pos_nonneg; lia).
      apply Z.le_lt_trans with (Z.pos my * Z.pos mq * 2 ^ (ey - ex)); [nia|]. rewrite Z.mul_assoc. apply Z.mul_lt_mono_pos_r; [done|].
      apply (Z.mul_lt_mono_pos_r (2 ^ d)); [done|]. rewrite <- (Z.mul_assoc _ (2 ^ (53 - d))), H53. lia.
    + pose proof (Zdigits2_mul_ge mx mq). pose proof (canonical_digits _ _ _ (proj1 Hx)). pose proof (canonical_digits _ _ _ Hvq).
      unfold fexp, emin in *. assert (0 < Zdigits2 (Z.pos mx) /\ 0 < Zdigits2 (Z.pos mq)) by (cbn; lia). lia.
  - intros [= -> ->]. apply round_ge; [by apply (tenThousand_valid (-4))|lia|].
    rewrite Z2Pos.id, Pos2Z.inj_mul by lia. replace (-39 - (ey + (d - 92 - ey))) with (53 - d) by lia.
    apply (Z.mul_le_mono_pos_r _ _ (2 ^ d)); [done|]. rewrite <- Z.mul_assoc, H53. lia.
Qed.

(** Half a unit more than such a number has the integer part ten thousand or less, or just that. *)
Lemma half_more p : isWeight p -> fle p (tenThousand 4) = true -> exists z, toInt64 (fadd p fhalf) = Some z /\
  0 <= z <= 10000 /\ (fle (tenThousand (-4)) p = true -> z = 10000).
Proof.
  intros Hp Hle. assert (Hw : isWeight (fadd p fhalf)) by (apply fadd_weight; [done|by split]).
  assert (Hup : fle (fadd p fhalf) (tenThousand (2 ^ 38 + 5)) = true).
  { destruct p as [[]|[]| |[] mp ep]; try done; try (by destruct Hp). apply fle_finite_pos in Hle.
    destruct (fadd_finite_nonneg mp ep (2 ^ 52) (-53)) as (m&E&Hm). unfold fhalf. rewrite E. apply normalize_le; [by apply tenThousand_valid|lia|].
    pose proof (valid_mantissa mp ep (proj1 Hp)). set (c := Z.min ep (-53)) in *. rewrite Hm.
    rewrite Z2Pos.id by lia. assert (Hc : 0 < 2 ^ (-53 - c)) by (apply Z.pow_pos_nonneg; lia).
    replace (-39 - c) with (14 + (-53 - c)) by lia. rewrite Z.pow_add_r by lia.
    assert (Hmp : Z.pos mp * 2 ^ (ep - c) <= (10000 * 2 ^ 39 + 4) * (2 ^ 14 * 2 ^ (-53 - c))).
    { destruct Hle as [Hlt|[-> Hlt]].
      - assert (Hpow : 2 ^ (ep - c) <= 2 ^ (-53 - c + 13)) by (apply Z.pow_le_mono_r; lia). rewrite Z.pow_add_r in Hpow by lia. nia.
      - replace (-39 - c) with (14 + (-53 - c)) by lia. rewrite Z.pow_add_r by lia. apply Z.mul_le_mono_nonneg_r; [lia|].
        apply Pos2Z.pos_le_pos in Hlt. by rewrite Z2Pos.id in Hlt by lia. }
    change (Z.pos (2 ^ 52)) with (2 ^ 52). nia. }
  assert (Hlow : fle (tenThousand (-4)) p = true -> fle (tenThousand 0) (fadd p fhalf) = true).
  { intros Hge. destruct p as [[]|[]| |[] mp ep]; try done. apply fle_finite_pos in Hge, Hle.
    destruct (fadd_finite_nonneg mp ep (2 ^ 52) (-53)) as (m&E&Hm). unfold fhalf. rewrite E.
    assert (ep = -39) as -> by lia. change ((-39) `min` (-53)) with (-53) in *. apply normalize_ge; [by apply tenThousand_valid|lia|].
    rewrite Hm. destruct Hge as [?|[_ Hge]]; [lia|]. apply Pos2Z.pos_le_pos in Hge. rewrite Z2Pos.id in * by lia.
    change (Z.pos (2 ^ 52)) with (2 ^ 52). change (-39 - (-53)) with 14. change (-53 - (-53)) with 0. change (10000 * 2 ^ 39 + -4) with (10000 * 2 ^ 39 - 4) in Hge. lia. }
  destruct (toInt64_below _ _ _ Hw (tenThousand_valid (2 ^ 38 + 5) ltac:(lia)) ltac:(rewrite Z2Pos.id by lia; lia) ltac:(lia) Hup) as (z&Hz&Hb).
  rewrite Z2Pos.id in Hb by lia. change ((10000 * 2 ^ 39 + (2 ^ 38 + 5)) / 2 ^ (- (-39))) with 10000 in Hb.
  exists z. split_and!; [done|lia|lia|]. intros Hge. apply Hlow in Hge. destruct (fadd p fhalf) as [|[]| |[] m e]; try done.
  apply fle_finite_pos in Hge, Hup. assert (e = -39) as -> by lia. destruct Hge as [?|[_ Hge]]; [lia|]. apply Pos2Z.pos_le_pos in Hge.
  rewrite Z2Pos.id in Hge by lia. unfold toInt64 in Hz. cbn [Z.leb Z.compare] in Hz. rewrite Z.mul_1_l in Hz. case_decide; [|done]. injection Hz as <-.
  assert (10000 <= Z.pos m / 2 ^ (- (-39))); [|lia]. apply Z.div_le_lower_bound; [done|]. change (2 ^ (- (-39))) with (2 ^ 39). lia.
Qed.

Lemma toInt64_ffloor x z : isWeight x -> exactInt z -> toInt64 x = Some z -> toInt64 (ffloor x) = Some z.
Proof.
  intros [_ Hx] Hz E. destruct x as [|[]| |[] m e]; try done. unfold ffloor. unfold toInt64 in E |- *. destruct (0 <=? e) eqn:He; [by rewrite He|].
  rewrite Z.mul_1_l in E. case_decide; [|done]. injection E as ->. by apply toInt64_ofInt.
Qed.

(** ** Rounded quotients

    The quotient of two integers, rounded to the nearest integer, is that of the exact quotient: it is
    too far from the middle of two integers, or just there, for the float64 to be on the other side. *)
Lemma nearest_bounds a b : 0 <= a -> 0 < b -> let k := (2 * a + b) / (2 * b) in
  0 <= k /\ (2 * k - 1) * b <= 2 * a /\ 2 * a + 1 <= (2 * k + 1) * b.
Proof.
  intros Ha Hb k. pose proof (Z.mul_div_le (2 * a + b) (2 * b) ltac:(lia)). pose proof (Z.mul_succ_div_gt (2 * a + b) (2 * b) ltac:(lia)).
  fold k in H, H0. assert (0 <= k) by (apply Z.div_pos; lia). lia.
Qed.

(** [fround] of a number between [k - 1/2] and [k + 1/2]. *)
Lemma fround_between q E k : 0 <= q <= 2 ^ 53 -> 46 <= E <= 1074 -> 0 <= k <= 100 -> (2 * k - 1) * 2 ^ (E - 1) <= q -> 2 * q < (2 * k + 1) * 2 ^ E ->
  forall x, (q < 2 ^ 53 /\ x = pack false q (- E)) \/ (q = 2 ^ 53 /\ x = pack false (2 ^ 52) (- E + 1)) -> toInt64 (fround x) = Some k.
Proof.
  intros Hq HE Hk Hlo Hhi x Hx.
  assert (Hdiv : forall p F, 45 <= F -> 0 < p -> (2 * k - 1) * 2 ^ (F - 1) <= p -> 2 * p < (2 * k + 1) * 2 ^ F -> pack false p (- F) = x ->
    toInt64 (fround x) = Some k).
  { intros p F HF Hp Hl Hh <-. destruct p as [|p|p]; [lia| |lia]. unfold pack. destruct (Z.leb_spec (- F) 971); [|lia]. unfold fround.
    destruct (Z.leb_spec 0 (- F)); [lia|]. rewrite Z.mul_1_l. replace (- - F - 1) with (F - 1) by lia. replace (- - F) with F by lia.
    assert (Hpow : 2 ^ F = 2 * 2 ^ (F - 1)) by (rewrite <- Z.pow_succ_r by lia; f_equal; lia).
    assert (Hpos : 0 < 2 ^ (F - 1)) by (apply Z.pow_pos_nonneg; lia).
    assert (Ek : (Z.pos p + 2 ^ (F - 1)) / 2 ^ F = k).
    { symmetry. apply (Z.div_unique_pos _ _ k (Z.pos p + 2 ^ (F - 1) - k * 2 ^ F)); nia. }
    rewrite Ek. apply toInt64_ofInt. unfold exactInt. lia. }
  destruct Hx as [[Hlt ->]|[-> ->]].
  - destruct (decide (q = 0)) as [->|Hne].
    + assert (Hpow : 0 < 2 ^ (E - 1)) by (apply Z.pow_pos_nonneg; lia). assert (k = 0) as -> by nia. done.
    + by apply (Hdiv q E); [lia..| | |].
  - apply (Hdiv (2 ^ 52) (E - 1)); [lia|done| | |f_equal; lia].
    + assert (H2 : 2 ^ (E - 1) = 2 * 2 ^ (E - 1 - 1)) by (rewrite <- Z.pow_succ_r by lia; f_equal; lia). lia.
    + assert (H2 : 2 ^ E = 2 * 2 ^ (E - 1)) by (rewrite <- Z.pow_succ_r by lia; f_equal; lia). lia.
Qed.

Lemma round_quotient a b : 0 <= a <= 100 * b -> 0 < b < 2 ^ 45 ->
  toInt64 (fround (fdiv (ofInt a) (ofInt b))) = Some ((2 * a + b) / (2 * b)).
Proof.
  intros Ha Hb. destruct (nearest_bounds a b ltac:(lia) ltac:(lia)) as (Hk0&Hlo&Hhi). set (k := (2 * a + b) / (2 * b)) in *.
  assert (Hk : k <= 100) by nia.
  destruct b as [|b|b]; [lia| |lia]. destruct (ofInt_exact b) as (mb&eb&->&Hvb&Heb&Hmb); [lia|].
  destruct a as [|a|a]; [|destruct (ofInt_exact a) as (ma&ea&->&Hva&Hea&Hma); [lia|]|lia].
  { assert (k = 0) as -> by (apply Z.div_small; lia). done. }
  destruct (fdiv_spec false ma ea false mb eb) as (e&l&->&He). cbn [xorb].
  assert (Hda : Zdigits2 (Z.pos ma) + ea = Zdigits2 (Z.pos a)) by (rewrite Hma, Zdigits2_mul_pow by lia; lia).
  assert (Hdb : Zdigits2 (Z.pos mb) + eb = Zdigits2 (Z.pos b)) by (rewrite Hmb, Zdigits2_mul_pow by lia; lia).
  rewrite Hda, Hdb in He. assert (Hdab : Zdigits2 (Z.pos a) <= Zdigits2 (Z.pos b) + 7).
  { rewrite <- Zdigits2_mul_pow by lia. apply Zdigits2_mono. change (2 ^ 7) with 128. lia. }
  assert (Hbd : 1 <= Zdigits2 (Z.pos a) /\ Zdigits2 (Z.pos b) <= 45) by (split; [cbn; lia|apply Zdigits2_le; lia]).
  assert (HE : -1000 <= e <= -46) by (unfold fexp, emin in He; lia). set (s := ea - eb - e) in *. assert (Hs : 0 <= s) by lia.
  set (m := Z.pos ma * 2 ^ s / Z.pos mb). assert (Hm0 : 0 <= m) by (apply Z.div_pos; [apply Z.mul_nonneg_nonneg; [lia|apply Z.pow_nonneg; lia]|lia]).
  assert (Hpb : 0 < 2 ^ (- eb)) by (apply Z.pow_pos_nonneg; lia).
  assert (Hnum : Z.pos ma * 2 ^ s = Z.pos a * 2 ^ (- e) * 2 ^ (- eb)).
  { rewrite Hma, <- !Z.mul_assoc, <- !Z.pow_add_r by lia. do 2 f_equal. unfold s. lia. }
  assert (Hmq : m = Z.pos a * 2 ^ (- e) / Z.pos b) by (unfold m; rewrite Hnum, Hmb; apply Z.div_mul_cancel_r; lia).
  pose proof (Z.mul_div_le (Z.pos a * 2 ^ (- e)) (Z.pos b) ltac:(lia)) as H1. pose proof (Z.mul_succ_div_gt (Z.pos a * 2 ^ (- e)) (Z.pos b) ltac:(lia)) as H2.
  rewrite <- Hmq in H1, H2. clear Hmq Hnum. assert (Hpe : 0 < 2 ^ (- e)) by (apply Z.pow_pos_nonneg; lia).
  assert (Hdm : Zdigits2 m <= 7 - e).
  { apply Zdigits2_le; [done|lia|]. replace (7 - e) with (7 + - e) by lia. rewrite Z.pow_add_r by lia. change (2 ^ 7) with 128. nia. }
  destruct (round_result false m e l Hm0) as (q&Hq&Hor). set (e' := lastBit m e) in *.
  assert (He' : e <= e' <= -46 /\ -1074 <= e') by (unfold e', lastBit, fexp, emin; lia).
  pose proof (lastBit_bounds m e Hm0) as (_&_&Hqb). fold e' in Hqb.
  assert (Hpd : 0 < 2 ^ (e' - e)) by (apply Z.pow_pos_nonneg; lia).
  assert (HEE : 2 ^ (- e) = 2 ^ (- e') * 2 ^ (e' - e)) by (rewrite <- Z.pow_add_r by lia; f_equal; lia).
  assert (Hpe' : 2 ^ 46 <= 2 ^ (- e')) by (apply Z.pow_le_mono_r; lia).
  apply (fround_between q (- e') k) with (x := binary_round_aux 53 1024 false m e l); [lia|lia|lia| | |].
  - assert (Hhalf : 2 ^ (- e) = 2 * (2 ^ (- e' - 1) * 2 ^ (e' - e))).
    { rewrite <- Z.pow_add_r, <- Z.pow_succ_r by lia. f_equal. lia. }
    apply Z.le_trans with (m / 2 ^ (e' - e)); [|lia]. apply Z.div_le_lower_bound; [done|].
    assert (Hlt : (2 * k - 1) * 2 ^ (- e) * Z.pos b < 2 * (m + 1) * Z.pos b) by nia.
    apply Z.mul_lt_mono_pos_r in Hlt; [|lia]. rewrite Hhalf in Hlt. nia.
  - assert (Hqm : (q - 1) * 2 ^ (e' - e) <= m).
    { pose proof (Z.mul_div_le m (2 ^ (e' - e)) Hpd). nia. }
    assert (Hqa : (q - 1) * Z.pos b <= Z.pos a * 2 ^ (- e')).
    { apply (Z.mul_le_mono_pos_r _ _ (2 ^ (e' - e))); [done|]. rewrite <- (Z.mul_assoc (Z.pos a)), <- HEE. nia. }
    apply (Z.mul_lt_mono_pos_r (Z.pos b)); [lia|]. nia.
  - rewrite Z.opp_involutive. exact Hor.
Qed.
