(* ===== verification/PluginData.v ===== *)
(** * The data that the in-tree plugins keep in a cycle state

    Every plugin stores a value of a type of its own; reading one of another type is
    an error of the plugin.  A method [Clone] that copies the maps of its value deeply,
    or that returns the value itself because nothing changes it, is the identity here. *)
From S2P Require Import Prelude Api NodeInfo Framework Float64.

(** A label of a node with its value. *)
Abbreviation topologyPair := (string * string)%type.

(** ** PodTopologySpread (plugins/podtopologyspread/common.go, filtering.go) *)
Record topologySpreadConstraint := {
  sc_MaxSkew : Z;
  sc_TopologyKey : string;
  sc_Selector : Selector
}.

Record criticalPath := { TopologyValue : string; MatchNum : Z }.
#[export] Instance criticalPath_eq : EqDecision criticalPath.
Proof. solve_decision. Defined.

(** An array of two. *)
Record criticalPaths := { path0 : criticalPath; path1 : criticalPath }.
#[export] Instance criticalPaths_eq : EqDecision criticalPaths.
Proof. solve_decision. Defined.

(** The pointers of the two maps are all different: the maps hold the values. *)
Record spreadState := {
  Constraints : list topologySpreadConstraint;
  TpKeyToCriticalPaths : gmap string criticalPaths;
  TpPairToMatchNum : gmap topologyPair Z
}.

(** For the scores (scoring.go). *)
Record spreadScoreState := {
  ScoredConstraints : list topologySpreadConstraint;
  IgnoredNodes : gset string;
  TopologyPairToPodCounts : gmap topologyPair Z;
  TopologyNormalizingWeight : list float64
}.

(** ** InterPodAffinity (plugins/interpodaffinity/filtering.go) *)
Abbreviation topologyToMatchedTermCount := (gmap topologyPair Z).

Record affinityState := {
  topologyToMatchedExistingAntiAffinityTerms : topologyToMatchedTermCount;
  topologyToMatchedAffinityTerms : topologyToMatchedTermCount;
  topologyToMatchedAntiAffinityTerms : topologyToMatchedTermCount;
  as_podInfo : PodInfo
}.

(** For the scores (scoring.go): per topology key, the score of every value. *)
Abbreviation scoreMap := (gmap string (gmap string Z)).

Record affinityScoreState := { topologyScore : scoreMap; ps_podInfo : PodInfo }.

(** ** ServiceAffinity (plugins/serviceaffinity): the services are their selectors *)
Record serviceState := { matchingPodList : list Pod; matchingPodServices : list (option LabelSet) }.

Inductive pluginData :=
  | FitData (request : Resource)
  | PortsData (ports : list ContainerPort)
  | TolerationData (tolerationsPreferNoSchedule : list Toleration)
  | SpreadData (state : spreadState)
  | AffinityData (state : affinityState)
  | SpreadScoreData (state : spreadScoreState)
  | AffinityScoreData (state : affinityScoreState)
  | SelectorData (selector : Selector)
  | ServiceData (state : serviceState).

#[export] Instance pluginStateData : StateData :=
  {| dataOf := pluginData; CloneData d := d |}.

Lemma CloneState_id (c : CycleState) : CloneState c = c.
Proof. exact (map_fold_insert_id c). Qed.

(** The text of the error for a key that is not there. *)
Definition notRead (key : string) : string :=
  String.concat "" ["error reading "; quoted key; " from cycleState: not found"].
