(* ===== verification/NodeResources.v ===== *)
(** * The resource plugins (scheduler/framework/plugins/noderesources)

    [Fit], which filters the nodes without sufficient resources, and the scores of
    the resource allocation: least and most allocated, balanced allocation and requested
    to capacity ratio. *)
From Stdlib Require Import Ascii.
From stdpp Require Import pretty.
From S2P Require Import Prelude Api NodeInfo Framework Float64 PluginData.
Local Open Scope Z_scope.
Local Open Scope go_scope.

(** ** Fit *)
Definition FitName : string := "NodeResourcesFit".
Definition fitStateKey : string := "PreFilterNodeResourcesFit".

Definition computePodResourceRequest (pod : Pod) : Resource :=
  let result := foldl (fun r c => Resource_Add r (c_Requests c)) emptyResource (Containers (pod_Spec pod)) in
  let result := foldl (fun r c => SetMaxResource r (c_Requests c)) result (InitContainers (pod_Spec pod)) in
  match Overhead (pod_Spec pod) with None => result | Some oh => Resource_Add result oh end.

Record InsufficientResource := {
  ResourceName : string;
  Reason : string;
  ir_Requested : Z;
  ir_Used : Z;
  ir_Capacity : Z
}.

(** [strings.Split(s, "/")[0]] *)
Fixpoint beforeSlash (s : string) : string :=
  match s with
  | EmptyString => EmptyString
  | String c s => if Ascii.eqb c "/"%char then EmptyString else String c (beforeSlash s)
  end.

(** [scalarOrder] is the order in which Go iterates over the scalar resources. *)
Section Fit.
Context (scalarOrder : gmap string Z -> list (string * Z)).

Definition shortOf (name reason : string) (requested used capacity : Z) : list InsufficientResource :=
  if capacity <? requested +₆₄ used then
    [{| ResourceName := name; Reason := reason; ir_Requested := requested; ir_Used := used;
        ir_Capacity := capacity |}]
  else [].

Definition ignoredScalar (ignoredExtendedResources ignoredResourceGroups : gset string) (rName : string) : bool :=
  let rNamePrefix := if decide (0 < size ignoredResourceGroups)%nat then beforeSlash rName else "" in
  bool_decide (rName ∈ ignoredExtendedResources) || bool_decide (rNamePrefix ∈ ignoredResourceGroups).

Definition shortOfScalar (nodeInfo : NodeInfo) (ignoredExtendedResources ignoredResourceGroups : gset string)
    (e : string * Z) : list InsufficientResource :=
  if ignoredScalar ignoredExtendedResources ignoredResourceGroups e.1 then []
  else shortOf e.1 (String.append "Insufficient " e.1) e.2
         (scalarOf (ScalarResources (Requested nodeInfo)) e.1)
         (scalarOf (ScalarResources (Allocatable nodeInfo)) e.1).

Definition fitsRequest (podRequest : Resource) (nodeInfo : NodeInfo)
    (ignoredExtendedResources ignoredResourceGroups : gset string) : list InsufficientResource :=
  let allowedPodNumber := AllowedPodNumber (Allocatable nodeInfo) in
  let used := Z.of_nat (length (Pods nodeInfo)) in
  let tooMany :=
    if allowedPodNumber <? used + 1 then
      [{| ResourceName := ResourcePods; Reason := "Too many pods"; ir_Requested := 1; ir_Used := used;
          ir_Capacity := allowedPodNumber |}]
    else [] in
  let scalars := default ∅ (ScalarResources podRequest) in
  if (MilliCPU podRequest =? 0) && (Memory podRequest =? 0) && (EphemeralStorage podRequest =? 0) &&
     bool_decide (size scalars = 0%nat)
  then tooMany
  else
    tooMany ++
    shortOf ResourceCPU "Insufficient cpu" (MilliCPU podRequest) (MilliCPU (Requested nodeInfo))
      (MilliCPU (Allocatable nodeInfo)) ++
    shortOf ResourceMemory "Insufficient memory" (Memory podRequest) (Memory (Requested nodeInfo))
      (Memory (Allocatable nodeInfo)) ++
    shortOf ResourceEphemeralStorage "Insufficient ephemeral-storage" (EphemeralStorage podRequest)
      (EphemeralStorage (Requested nodeInfo)) (EphemeralStorage (Allocatable nodeInfo)) ++
    (scalarOrder scalars ≫= shortOfScalar nodeInfo ignoredExtendedResources ignoredResourceGroups).

Definition Fits (pod : Pod) (nodeInfo : NodeInfo) : list InsufficientResource :=
  fitsRequest (computePodResourceRequest pod) nodeInfo ∅ ∅.

(** The plugin. *)
Definition FitPreFilter : PreFilterPlugin :=
  {| prefilter_Name := FitName;
     PreFilter cycleState pod :=
       (None, Write cycleState fitStateKey (FitData (computePodResourceRequest pod)));
     Extensions := None |}.

Definition getFitState (cycleState : CycleState) : string + Resource :=
  match Read cycleState fitStateKey with
  | None => inl (notRead fitStateKey)
  | Some (FitData s) => inr s
  | Some _ => inl "convert to NodeResourcesFit.preFilterState error"
  end.

Definition FitFilter (ignoredResources ignoredResourceGroups : gset string) : FilterPlugin :=
  {| filter_Name := FitName;
     Filter cycleState pod nodeInfo :=
       match getFitState cycleState with
       | inl err => NewStatus Error [err]
       | inr s =>
           match fitsRequest s nodeInfo ignoredResources ignoredResourceGroups with
           | [] => None
           | insufficientResources => NewStatus Unschedulable (Reason <$> insufficientResources)
           end
       end |}.
End Fit.

(** ** Scores of the resource allocation *)
Abbreviation resourceToValueMap := (gmap string Z).

Definition calculatePodResourceRequest (pod : Pod) (resource : string) : Z :=
  let podRequest := foldl (fun r c => r +₆₄ GetNonzeroRequestForResource resource (c_Requests c)) 0
                      (Containers (pod_Spec pod)) in
  let podRequest := foldl (fun r c =>
        let value := GetNonzeroRequestForResource resource (c_Requests c) in
        if r <? value then value else r) podRequest (InitContainers (pod_Spec pod)) in
  match Overhead (pod_Spec pod) ≫= fun oh => oh !! resource with
  | None => podRequest
  | Some quantity => podRequest +₆₄ Value quantity
  end.

Definition calculateResourceAllocatableRequest (nodeInfo : NodeInfo) (pod : Pod) (resource : string) : Z * Z :=
  let podRequest := calculatePodResourceRequest pod resource in
  if decide (resource = ResourceCPU) then
    (MilliCPU (Allocatable nodeInfo), MilliCPU (NonZeroRequested nodeInfo) +₆₄ podRequest)
  else if decide (resource = ResourceMemory) then
    (Memory (Allocatable nodeInfo), Memory (NonZeroRequested nodeInfo) +₆₄ podRequest)
  else if decide (resource = ResourceEphemeralStorage) then
    (EphemeralStorage (Allocatable nodeInfo), EphemeralStorage (Requested nodeInfo) +₆₄ podRequest)
  else
    (scalarOf (ScalarResources (Allocatable nodeInfo)) resource,
     scalarOf (ScalarResources (Requested nodeInfo)) resource +₆₄ podRequest).

(** A scorer returns [None] when it divides by zero (or converts a float that has no [int64]). *)
Abbreviation scorer := (resourceToValueMap -> resourceToValueMap -> bool -> Z -> Z -> option Z).

(** [resourceAllocationScorer.score]; [weights] is the map of resource weights or nil.  The
    transient information of a node info is never nil. *)
Definition score (r : scorer) (weights : option resourceToValueMap) (pod : Pod) (nodeInfo : NodeInfo)
    : option (Z * Status) :=
  match NodeOf nodeInfo, weights with
  | None, _ => Some (0, NewStatus Error ["node not found"])
  | _, None => Some (0, NewStatus Error ["resources not found"])
  | Some _, Some weights =>
      let values := map_imap (fun resource _ => Some (calculateResourceAllocatableRequest nodeInfo pod resource)) weights in
      let allocatable := fst <$> values in
      let requested := snd <$> values in
      let t := TransientInfo nodeInfo in
      s ← r requested allocatable true (RequestedVolumes t) (AllocatableVolumesCount t);
      Some (s, None)
  end.

Definition valueOf (m : resourceToValueMap) (resource : string) : Z := default 0 (m !! resource).

(** [a / b] of [int64] values; a division by zero panics. *)
Definition div64 (a b : Z) : option Z := if decide (b = 0) then None else Some (wrap64 (Z.quot a b)).

Definition leastRequestedScore (requested capacity : Z) : Z :=
  if capacity =? 0 then 0
  else if capacity <? requested then 0
  else wrap64 (Z.quot ((capacity -₆₄ requested) *₆₄ MaxNodeScore) capacity).

Definition mostRequestedScore (requested capacity : Z) : Z :=
  if capacity =? 0 then 0
  else if capacity <? requested then 0
  else wrap64 (Z.quot (requested *₆₄ MaxNodeScore) capacity).

(** The common loop of the two scorers below. *)
Definition weightedScore (resourceScorer : Z -> Z -> Z) (resToWeightMap requested allocable : resourceToValueMap)
    : option Z :=
  let '(nodeScore, weightSum) :=
    map_fold (fun resource weight '(nodeScore, weightSum) =>
      (nodeScore +₆₄ (resourceScorer (valueOf requested resource) (valueOf allocable resource) *₆₄ weight),
       weightSum +₆₄ weight)) (0, 0) resToWeightMap in
  div64 nodeScore weightSum.

Definition leastResourceScorer (resToWeightMap : resourceToValueMap) : scorer :=
  fun requested allocable _ _ _ => weightedScore leastRequestedScore resToWeightMap requested allocable.
Definition mostResourceScorer (resToWeightMap : resourceToValueMap) : scorer :=
  fun requested allocable _ _ _ => weightedScore mostRequestedScore resToWeightMap requested allocable.

(** *** Balanced allocation *)
Definition fractionOfCapacity (requested capacity : Z) : float64 :=
  if capacity =? 0 then fone else fdiv (ofInt requested) (ofInt capacity).

Definition balancedResourceScorer : scorer := fun requested allocable includeVolumes requestedVolumes allocatableVolumes =>
  let cpuFraction := fractionOfCapacity (valueOf requested ResourceCPU) (valueOf allocable ResourceCPU) in
  let memoryFraction := fractionOfCapacity (valueOf requested ResourceMemory) (valueOf allocable ResourceMemory) in
  if fle fone cpuFraction || fle fone memoryFraction then Some 0
  else if includeVolumes && (0 <? allocatableVolumes) then
    let volumeFraction := fdiv (ofInt requestedVolumes) (ofInt allocatableVolumes) in
    if fle fone volumeFraction then Some 0
    else
      let mean := fdiv (fadd (fadd cpuFraction memoryFraction) volumeFraction) (ofInt 3) in
      let square x := fmul (fsub x mean) (fsub x mean) in
      let variance := fdiv (fadd (fadd (square cpuFraction) (square memoryFraction)) (square volumeFraction)) (ofInt 3) in
      toInt64 (fmul (fsub fone variance) (ofInt MaxNodeScore))
  else
    let diff := fabs (fsub cpuFraction memoryFraction) in
    toInt64 (fmul (fsub fone diff) (ofInt MaxNodeScore)).

(** The resources of the balanced allocation. *)
Definition defaultRequestedRatioResources : resourceToValueMap := {[ResourceMemory := 1; ResourceCPU := 1]}.

(** *** Requested to capacity ratio *)
Definition maxUtilization : Z := 100.
Record functionShapePoint := { utilization : Z; point_score : Z }.

(** The loop of [buildBrokenLinearFunction]; [previous] is the point before the rest of the shape. *)
Fixpoint brokenLinearLoop (previous : option functionShapePoint) (shape : list functionShapePoint) (p : Z) : option Z :=
  match shape with
  | [] => point_score <$> previous
  | s :: shape =>
      if p <=? utilization s then
        match previous with
        | None => Some (point_score s)
        | Some s0 =>
            d ← div64 ((point_score s -₆₄ point_score s0) *₆₄ (p -₆₄ utilization s0)) (utilization s -₆₄ utilization s0);
            Some (point_score s0 +₆₄ d)
        end
      else brokenLinearLoop (Some s) shape p
  end.
Definition buildBrokenLinearFunction (shape : list functionShapePoint) (p : Z) : option Z :=
  brokenLinearLoop None shape p.

Definition resourceScoringFunction (shape : list functionShapePoint) (requested capacity : Z) : option Z :=
  if (capacity =? 0) || (capacity <? requested) then buildBrokenLinearFunction shape maxUtilization
  else
    free ← div64 ((capacity -₆₄ requested) *₆₄ maxUtilization) capacity;
    buildBrokenLinearFunction shape (maxUtilization -₆₄ free).

Definition requestedToCapacityRatioScorer (shape : list functionShapePoint) (resToWeightMap : resourceToValueMap)
    : scorer := fun requested allocable _ _ _ =>
  '(nodeScore, weightSum) ← map_fold (fun resource weight acc =>
      '(nodeScore, weightSum) ← acc;
      resourceScore ← resourceScoringFunction shape (valueOf requested resource) (valueOf allocable resource);
      Some (if 0 <? resourceScore
            then (nodeScore +₆₄ (resourceScore *₆₄ weight), weightSum +₆₄ weight)
            else (nodeScore, weightSum))) (Some (0, 0)) resToWeightMap;
  if weightSum =? 0 then Some 0
  else toInt64 (fround (fdiv (ofInt nodeScore) (ofInt weightSum))).

(** [Score] of the four plugins: they read the node info from the snapshot.  [handle] is
    [SnapshotSharedLister().NodeInfos().Get]. *)
Definition ScoreFrom (r : scorer) (weights : option resourceToValueMap) (handle : string -> string + NodeInfo)
    (pod : Pod) (nodeName : string) : option (Z * Status) :=
  match handle nodeName with
  | inl err => Some (0, NewStatus Error [String.concat "" ["getting node "; quoted nodeName; " from Snapshot: "; err]])
  | inr nodeInfo => score r weights pod nodeInfo
  end.

(** Most allocated mentions in its error whether the node is nil. *)
Definition MostAllocatedScore (r : scorer) (weights : option resourceToValueMap) (handle : string -> string + NodeInfo)
    (pod : Pod) (nodeName : string) : option (Z * Status) :=
  let failed err := Some (0, NewStatus Error [String.concat "" ["getting node "; quoted nodeName;
                      " from Snapshot: "; err; ", node is nil: true"]]) in
  match handle nodeName with
  | inl err => failed err
  | inr nodeInfo =>
      match NodeOf nodeInfo with
      | None => failed "<nil>"
      | Some _ => score r weights pod nodeInfo
      end
  end.

(** ** The arguments of the plugins and their validation
    (scheduler/apis/config/validation) *)
Definition MaxCustomPriorityScore : Z := 10.

Record ResourceSpec := { rs_Name : string; rs_Weight : Z }.
Record UtilizationShapePoint := { up_Utilization : Z; up_Score : Z }.

(** The error, if any. *)
Fixpoint validateResources (resources : list ResourceSpec) : option string :=
  match resources with
  | [] => None
  | resource :: resources =>
      if rs_Weight resource <=? 0 then
        Some (String.concat "" ["resource Weight of "; rs_Name resource; " should be a positive value, got ";
                pretty (rs_Weight resource)])
      else if 100 <? rs_Weight resource then
        Some (String.concat "" ["resource Weight of "; rs_Name resource; " should be less than 100, got ";
                pretty (rs_Weight resource)])
      else validateResources resources
  end.

Fixpoint validateResourcesNoMax (resources : list ResourceSpec) : option string :=
  match resources with
  | [] => None
  | r :: resources =>
      if rs_Weight r <? 1 then
        Some (String.concat "" ["resource "; rs_Name r; " weight "; pretty (rs_Weight r); " must not be less than 1"])
      else validateResourcesNoMax resources
  end.

(** [x[i]==v] of the messages. *)
Definition indexed (x : string) (i : nat) (v : Z) : string :=
  String.concat "" [x; "["; pretty i; "]=="; pretty v].

(** The first loop, from the neighbours [i-1] and [i]. *)
Fixpoint unsortedAt (i : nat) (shape : list UtilizationShapePoint) : option string :=
  match shape with
  | a :: ((b :: _) as rest) =>
      if up_Utilization b <=? up_Utilization a then
        Some (String.concat "" ["utilization values must be sorted. ";
                indexed "Utilization" (i - 1) (up_Utilization a); " >= ";
                indexed "Utilization" i (up_Utilization b)])
      else unsortedAt (S i) rest
  | _ => None
  end.

Fixpoint pointOutOfRange (i : nat) (shape : list UtilizationShapePoint) : option string :=
  match shape with
  | [] => None
  | point :: shape =>
      if up_Utilization point <? 0 then
        Some (String.append "utilization values must not be less than 0. " (indexed "Utilization" i (up_Utilization point)))
      else if maxUtilization <? up_Utilization point then
        Some (String.append "utilization values must not be greater than 100. " (indexed "Utilization" i (up_Utilization point)))
      else if up_Score point <? 0 then
        Some (String.append "score values must not be less than 0. " (indexed "Score" i (up_Score point)))
      else if MaxCustomPriorityScore <? up_Score point then
        Some (String.append "score values must not be greater than 10. " (indexed "Score" i (up_Score point)))
      else pointOutOfRange (S i) shape
  end.

Definition validateFunctionShape (shape : list UtilizationShapePoint) : option string :=
  match shape with
  | [] => Some "at least one point must be specified"
  | _ =>
      match unsortedAt 1 shape with
      | Some err => Some err
      | None => pointOutOfRange 0 shape
      end
  end.

Definition weightMap (weightOf : Z -> Z) (resources : list ResourceSpec) : resourceToValueMap :=
  foldl (fun m r => <[rs_Name r := weightOf (rs_Weight r)]> m) ∅ resources.

(** The scorers with their weights, or the error of the validation. *)
Definition NewLeastAllocated (resources : list ResourceSpec) : string + (scorer * resourceToValueMap) :=
  match validateResources resources with
  | Some err => inl err
  | None => let m := weightMap id resources in inr (leastResourceScorer m, m)
  end.
Definition NewMostAllocated (resources : list ResourceSpec) : string + (scorer * resourceToValueMap) :=
  match validateResources resources with
  | Some err => inl err
  | None => let m := weightMap id resources in inr (mostResourceScorer m, m)
  end.

Definition scaleShape (shape : list UtilizationShapePoint) : list functionShapePoint :=
  (fun point => {| utilization := up_Utilization point;
                   point_score := up_Score point *₆₄ Z.quot MaxNodeScore MaxCustomPriorityScore |}) <$> shape.

Definition NewRequestedToCapacityRatio (shape : list UtilizationShapePoint) (resources : list ResourceSpec)
    : string + (scorer * resourceToValueMap) :=
  match validateFunctionShape shape with
  | Some err => inl err
  | None =>
      match validateResourcesNoMax resources with
      | Some err => inl err
      | None =>
          let m := weightMap (fun w => if w =? 0 then 1 else w) resources in
          inr (requestedToCapacityRatioScorer (scaleShape shape) m, m)
      end
  end.
