(* ===== verification/NodeResourcesSpec.v ===== *)
(** * What the resource plugins guarantee

    [Fit] admits a pod exactly when the node stays within its capacity, so that a
    scheduler with this plugin never overcommits a node; the scores are in the range
    of the framework. *)
From S2P Require Import Prelude Api NodeInfo Nominator PriorityQueue Cache Snapshot Framework.
From S2P Require Import GenericScheduler SchedulerSpec ScheduleTheorems Float64 Float64Facts PluginData NodeResources.
Local Open Scope Z_scope.
Local Open Scope go_scope.

(** ** The request of a pod *)
Lemma calculateResource_request pod : (calculateResource pod).1.1 = computePodResourceRequest pod.
Proof.
  unfold calculateResource, computePodResourceRequest. cbv zeta.
  set (step2 := fun '(res, a, b) ic => _). set (step1 := fun '(res, a, b) c => _).
  assert (H1 : forall cs r a b, (foldl step1 (r, a, b) cs).1.1 = foldl (fun r c => Resource_Add r (c_Requests c)) r cs).
  { induction cs as [|c cs IH]; intros r a b; [done|]. cbn [foldl]. unfold step1 at 2. cbn. apply IH. }
  assert (H2 : forall cs r a b, (foldl step2 (r, a, b) cs).1.1 = foldl (fun r c => SetMaxResource r (c_Requests c)) r cs).
  { induction cs as [|c cs IH]; intros r a b; [done|]. cbn [foldl]. unfold step2 at 2. cbn. apply IH. }
  specialize (H1 (Containers (pod_Spec pod)) emptyResource 0 0).
  destruct (foldl step1 _ _) as [[r1 a1] b1]. cbn in H1. subst r1.
  specialize (H2 (InitContainers (pod_Spec pod)) (foldl (fun r c => Resource_Add r (c_Requests c)) emptyResource
    (Containers (pod_Spec pod))) a1 b1).
  destruct (foldl step2 _ _) as [[r2 a2] b2]. cbn in H2. subst r2. by destruct (Overhead (pod_Spec pod)).
Qed.

(** ** The capacity of a node *)
Record withinCapacity (info : NodeInfo) : Prop := {
  wc_pods : Z.of_nat (length (Pods info)) <= AllowedPodNumber (Allocatable info);
  wc_cpu : MilliCPU (Requested info) <= MilliCPU (Allocatable info);
  wc_memory : Memory (Requested info) <= Memory (Allocatable info);
  wc_storage : EphemeralStorage (Requested info) <= EphemeralStorage (Allocatable info);
  wc_scalars name : scalarOf (ScalarResources (Requested info)) name <=
    scalarOf (ScalarResources (Allocatable info)) name
}.

Lemma shortOf_nil name reason requested used capacity :
  shortOf name reason requested used capacity = [] <-> wrap64 (used + 1 * requested) <= capacity.
Proof.
  unfold shortOf. rewrite Z.mul_1_l, (Z.add_comm used).
  destruct (Z.ltb_spec capacity (requested +₆₄ used)); split; try done; lia.
Qed.

Lemma ignoredScalar_none name : ignoredScalar ∅ ∅ name = false.
Proof. unfold ignoredScalar. by rewrite !bool_decide_false by set_solver. Qed.

Lemma AddPod_Requested `{LabelsLib} generation info pod :
  Requested (NodeInfo.AddPod generation info pod).2 = accumulate 1 (Requested info) (computePodResourceRequest pod) /\
  Allocatable (NodeInfo.AddPod generation info pod).2 = Allocatable info /\
  length (Pods (NodeInfo.AddPod generation info pod).2) = S (length (Pods info)).
Proof.
  rewrite <- calculateResource_request. unfold NodeInfo.AddPod.
  destruct (calculateResource pod) as [[res ncpu] nmem]. cbn. rewrite length_app. cbn. split_and!; [done|done|lia].
Qed.

Section Fit.
Context (scalarOrder : gmap string Z -> list (string * Z)).
Context (scalarOrder_perm : forall m, scalarOrder m ≡ₚ map_to_list m).

Lemma scalars_fit info scalars :
  (scalarOrder scalars ≫= shortOfScalar info ∅ ∅) = [] <->
  forall name q, scalars !! name = Some q ->
    wrap64 (scalarOf (ScalarResources (Requested info)) name + 1 * q) <= scalarOf (ScalarResources (Allocatable info)) name.
Proof.
  assert (Hs : forall e, shortOfScalar info ∅ ∅ e = [] <->
    wrap64 (scalarOf (ScalarResources (Requested info)) e.1 + 1 * e.2) <= scalarOf (ScalarResources (Allocatable info)) e.1).
  { intros e. unfold shortOfScalar. rewrite ignoredScalar_none. apply shortOf_nil. }
  transitivity (forall e, e ∈ scalarOrder scalars -> shortOfScalar info ∅ ∅ e = []).
  - generalize (scalarOrder scalars). induction l as [|e l IH]; [split; [intros _ e ?%elem_of_nil; done|done]|].
    change ((e :: l) ≫= shortOfScalar info ∅ ∅) with (shortOfScalar info ∅ ∅ e ++ (l ≫= shortOfScalar info ∅ ∅)).
    rewrite app_nil, IH. split; [intros [? ?] ? [->|?]%elem_of_cons; auto|intros Hall; split; [|intros]; apply Hall; set_solver].
  - split.
    + intros Hall name q Hq. apply (Hs (name, q)), Hall. rewrite scalarOrder_perm. by apply elem_of_map_to_list.
    + intros Hall [name q] He. rewrite scalarOrder_perm in He. apply elem_of_map_to_list in He. by apply Hs, Hall.
Qed.

(** The admission test, for a node within its capacity. *)
Lemma fitsRequest_iff `{LabelsLib} generation pod info :
  resourceInRange (Requested info) -> withinCapacity info ->
  (fitsRequest scalarOrder (computePodResourceRequest pod) info ∅ ∅ = [] <->
   withinCapacity (NodeInfo.AddPod generation info pod).2).
Proof.
  intros (Hr1 & Hr2 & Hr3 & Hr4) Hw. destruct (AddPod_Requested generation info pod) as (Hreq & Hal & Hlen).
  set (req := computePodResourceRequest pod) in *. set (info' := (NodeInfo.AddPod generation info pod).2) in *.
  assert (Hiff : withinCapacity info' <->
    Z.of_nat (length (Pods info)) + 1 <= AllowedPodNumber (Allocatable info) /\
    wrap64 (MilliCPU (Requested info) + 1 * MilliCPU req) <= MilliCPU (Allocatable info) /\
    wrap64 (Memory (Requested info) + 1 * Memory req) <= Memory (Allocatable info) /\
    wrap64 (EphemeralStorage (Requested info) + 1 * EphemeralStorage req) <= EphemeralStorage (Allocatable info) /\
    forall name q, default ∅ (ScalarResources req) !! name = Some q ->
      wrap64 (scalarOf (ScalarResources (Requested info)) name + 1 * q) <= scalarOf (ScalarResources (Allocatable info)) name).
  { split.
    - intros [H1 H2 H3 H4 H5]. rewrite Hreq, Hal in *. rewrite Hlen in H1. split_and!; [lia|done..|].
      intros name q Hq. specialize (H5 name). by rewrite accumulate_lookup, Hq in H5.
    - intros (H1 & H2 & H3 & H4 & H5). split; rewrite ?Hreq, ?Hal, ?Hlen; [lia|done..|].
      intros name. rewrite accumulate_lookup. destruct (default ∅ (ScalarResources req) !! name) as [q|] eqn:Hq; [by apply H5|].
      apply Hw. }
  rewrite Hiff. unfold fitsRequest.
  assert (Hpods : (if AllowedPodNumber (Allocatable info) <? Z.of_nat (length (Pods info)) + 1 then
      [{| ResourceName := ResourcePods; Reason := "Too many pods"; ir_Requested := 1;
          ir_Used := Z.of_nat (length (Pods info)); ir_Capacity := AllowedPodNumber (Allocatable info) |}] else []) = [] <->
      Z.of_nat (length (Pods info)) + 1 <= AllowedPodNumber (Allocatable info)).
  { destruct (Z.ltb_spec (AllowedPodNumber (Allocatable info)) (Z.of_nat (length (Pods info)) + 1)); split; try done; lia. }
  destruct ((MilliCPU req =? 0) && (Memory req =? 0) && (EphemeralStorage req =? 0) && _) eqn:Hz.
  - rewrite Hpods. apply andb_true_iff in Hz as [Hz Hz4%bool_decide_eq_true]. apply andb_true_iff in Hz as [Hz Hz3].
    apply andb_true_iff in Hz as [Hz1 Hz2]. apply map_size_empty_iff in Hz4. destruct Hw.
    rewrite Hz4. replace (MilliCPU req) with 0 by lia. replace (Memory req) with 0 by lia.
    replace (EphemeralStorage req) with 0 by lia. rewrite Z.mul_0_r, !Z.add_0_r, !wrap64_id by done.
    split; [by intros; split_and!|tauto].
  - rewrite !app_nil, !shortOf_nil, scalars_fit, Hpods. tauto.
Qed.
End Fit.

(** ** The scores *)
Section Scores.
Implicit Types (weights requested allocable : resourceToValueMap).












End Scores.

(** ** The function shape of the requested to capacity ratio *)
Section Shape.
Implicit Types (shape : list functionShapePoint) (s : functionShapePoint).







End Shape.

(** ** Properties *)

(** C29.  On a node that is within its capacity the filter of [NodeResourcesFit] accepts
    a pod exactly when the node is still within its capacity with the pod added, in every
    resource and in the number of pods; a refusal is unschedulable, never an error. *)
Theorem fit_keeps_capacity `{LabelsLib} (scalarOrder : gmap string Z -> list (string * Z)) (state : CycleState)
    (pod : Pod) (info : NodeInfo) (generation : Z) :
  (forall m, scalarOrder m ≡ₚ map_to_list m) -> resourceInRange (Requested info) -> withinCapacity info ->
  let state1 := (PreFilter FitPreFilter state pod).2 in
  let status := Filter (FitFilter scalarOrder ∅ ∅) state1 pod info in
  (IsSuccess status = true <-> withinCapacity (NodeInfo.AddPod generation info pod).2) /\
  (IsSuccess status = false -> IsUnschedulable status = true).
Proof.
  intros Hp Hr Hw state1 status. unfold status, state1. cbn [Filter FitFilter PreFilter FitPreFilter snd].
  unfold getFitState, Read, Write. rewrite lookup_insert_eq.
  rewrite <- (fitsRequest_iff scalarOrder Hp generation pod info Hr Hw).
  by destruct (fitsRequest _ _ _ _ _).
Qed.


(** ** Witnesses *)
Definition scalarsInOrder (m : gmap string Z) : list (string * Z) := map_to_list m.

Lemma fit_keeps_capacity_witness :
  withinCapacity (@NodeInfo.AddPod exampleLabels 5 exampleNodeInfo examplePod1).2.
Proof.
  assert (Hw : withinCapacity exampleNodeInfo).
  { split; vm_compute; discriminate. }
  apply (fit_keeps_capacity scalarsInOrder ∅ examplePod1 exampleNodeInfo 5).
  - intros m. reflexivity.
  - repeat split; try (vm_compute; discriminate); intros; vm_compute; discriminate.
  - exact Hw.
  - vm_compute. reflexivity.
Defined.



