(* ===== verification/Goroutine.v ===== *)
(** * Goroutines

    A goroutine is a tree of calls: it makes a call, receives the answer and goes on, or
    starts another goroutine.  The calls of a program are a type family [call X] of the
    calls that answer an [X]; the state that goroutines share changes only by a call,
    each of which is atomic.  This is what the scheduler (Scheduler.v) is written in. *)
From S2P Require Import Prelude.

Universe answer.

Inductive go (call : Type -> Type) (A : Type@{answer}) : Type :=
  | Return (a : A)
  | Call (X : Type) (c : call X) (k : X -> go call A)
  | Fork (child : go call unit) (k : go call A)
  | Crash.
Arguments Return {call A} a.
Arguments Call {call A X} c k.
Arguments Fork {call A} child k.
Arguments Crash {call A}.

Section Go.
Context {call : Type -> Type}.

#[export] Instance go_ret : MRet (go call) := fun A => Return.
#[export] Instance go_bind : MBind (go call) := fun A B f =>
  fix bind (t : go call A) : go call B :=
    match t with
    | Return a => f a
    | Call c k => Call c (fun x => bind (k x))
    | Fork child k => Fork child (bind k)
    | Crash => Crash
    end.

(** One call, as a goroutine. *)
Definition invoke {X} (c : call X) : go call X := Call c Return.

(** ** The runs of a goroutine on its own

    [observe c x] is what is noted of a call with its answer.  The answers are
    arbitrary; the goroutines that it starts run after it. *)
Section Observe.
Context {O : Type} (observe : forall X, call X -> X -> list O).

Fixpoint logs {A : Type@{answer}} (t : go call A) (a : A) (log : list O) : Prop :=
  match t with
  | Return b => a = b /\ log = []
  | Call c k => exists x rest, log = observe _ c x ++ rest /\ logs (k x) a rest
  | Fork child k => exists l1 l2, log = l1 ++ l2 /\ logs k a l1 /\ logs child tt l2
  | Crash => False
  end.
End Observe.

(** ** Interleavings *)
Section Threads.
Context {S : Type} (performs : forall X, call X -> S -> X -> S -> Prop).

Record config := { shared : S; mainThread : go call unit; others : list (go call unit) }.

(** One step of a goroutine: what is left of it, the state and the new goroutines. *)
Definition threadStep (t : go call unit) (s : S) (t' : go call unit) (s' : S) (new : list (go call unit)) : Prop :=
  match t with
  | Call c k => exists x, performs _ c s x s' /\ t' = k x /\ new = []
  | Fork child k => s' = s /\ t' = k /\ new = [child]
  | Return _ | Crash => False
  end.

(** A crash of one goroutine ends the process. *)
Definition alive (cfg : config) : Prop := Forall (fun t => t <> Crash) (mainThread cfg :: others cfg).

(** The main goroutine runs [body] again and again.  Handlers are started by the world
    outside, which also changes the state by [external] steps. *)
Context (body : go call unit) (handler : go call unit -> Prop) (external : S -> S -> Prop).

Inductive step (cfg : config) : config -> Prop :=
  | StepMain t s new : alive cfg -> threadStep (mainThread cfg) (shared cfg) t s new ->
      step cfg {| shared := s; mainThread := t; others := others cfg ++ new |}
  | StepLoop : alive cfg -> mainThread cfg = Return tt ->
      step cfg {| shared := shared cfg; mainThread := body; others := others cfg |}
  | StepOther i t0 t s new : alive cfg -> others cfg !! i = Some t0 -> threadStep t0 (shared cfg) t s new ->
      step cfg {| shared := s; mainThread := mainThread cfg; others := <[i := t]> (others cfg) ++ new |}
  | StepHandler h : alive cfg -> handler h ->
      step cfg {| shared := shared cfg; mainThread := mainThread cfg; others := others cfg ++ [h] |}
  | StepExternal s : alive cfg -> external (shared cfg) s ->
      step cfg {| shared := s; mainThread := mainThread cfg; others := others cfg |}.

Definition initial (s : S) : config := {| shared := s; mainThread := Return tt; others := [] |}.
Definition reachable (s : S) : config -> Prop := rtc step (initial s).

Definition threads (cfg : config) : list (go call unit) := mainThread cfg :: others cfg.
End Threads.
End Go.
Arguments config : clear implicits.

Lemma bind_go_call {call A B X} (c : call X) (k : X -> go call A) (f : A -> go call B) :
  (Call c k ≫= f) = Call c (fun x => k x ≫= f).
Proof. reflexivity. Qed.

Lemma bind_go_ret {call A B} (a : A) (f : A -> go call B) : (Return a ≫= f) = f a.
Proof. reflexivity. Qed.

Lemma bind_invoke {call X B} (c : call X) (f : X -> go call B) : (invoke c ≫= f) = Call c f.
Proof. reflexivity. Qed.

(** The log of a sequence is that of its parts, when the first starts no goroutine. *)
Fixpoint forkFree {call} {A : Type@{answer}} (t : go call A) : Prop :=
  match t with
  | Return _ | Crash => True
  | Call c k => forall x, forkFree (k x)
  | Fork _ _ => False
  end.

Lemma logs_bind {call O A B} (observe : forall X, call X -> X -> list O) (t : go call A) (f : A -> go call B) b log :
  forkFree t -> logs observe (t ≫= f) b log ->
  exists a l1 l2, log = l1 ++ l2 /\ logs observe t a l1 /\ logs observe (f a) b l2.
Proof.
  revert log. induction t as [A a|A X c k IH|A child _ k _|A]; intros log Hf Hl; try done.
  - by exists a, [], log.
  - destruct Hl as (x&rest&->&Hl). destruct (IH x f rest (Hf x) Hl) as (a&l1&l2&->&H1&H2).
    exists a, (observe X c x ++ l1), l2. split_and!; [by rewrite app_assoc| |done]. by exists x, l1.
Qed.

Lemma forkFree_bind {call A B} (t : go call A) (f : A -> go call B) :
  forkFree t -> (forall a, forkFree (f a)) -> forkFree (t ≫= f).
Proof.
  induction t as [A a|A X c k IH|A child _ k _|A]; intros Ht Hf; try done; [apply Hf|].
  intros x. apply IH; [apply Ht|done].
Qed.

Create HintDb forkfree.
#[export] Hint Extern 1 (forkFree (mret _)) => exact I : forkfree.
#[export] Hint Extern 1 (forkFree (Return _)) => exact I : forkfree.
#[export] Hint Extern 1 (forkFree Crash) => exact I : forkfree.
#[export] Hint Extern 1 (forkFree (invoke _)) => intro; exact I : forkfree.

(** Goes through a goroutine that starts no other. *)
Ltac fork_free :=
  repeat (intros; cbv beta zeta; match goal with
  | |- forkFree (mbind _ _) => apply forkFree_bind
  | |- forkFree (match ?x with _ => _ end) => destruct x eqn:?
  | |- forkFree _ => solve [eauto 2 with forkfree]
  end).
