(* ===== verification/WaitingPods.v ===== *)
(** * Pods that wait on permit (scheduler/framework/runtime/waiting_pods_map.go)

    A pod that permit plugins asked to wait has a timer for each of them and a channel
    of capacity one, on which its binding goroutine waits.  Methods hold the lock of the
    waiting pod and are atomic; a timer that has expired calls [Reject] at a later
    moment, when it can no longer be stopped. *)
From S2P Require Import Prelude Api Framework.
Local Open Scope go_scope.

(** A [*time.Timer] made by [AfterFunc]: it is running, it has expired but its function
    has not run yet, or it is over. *)
Inductive timer := Running | Expired | Over.
#[export] Instance timer_eq : EqDecision timer.
Proof. solve_decision. Defined.

(** [timers] has the timers of all plugins asked to wait, with their wait times. *)
Record waitingPod := {
  wp_pod : Pod;
  pendingPlugins : gset string;
  timers : gmap string (timer * Z);
  wp_s : option Status
}.

(** [time.Duration]'s [String]. *)
Class DurationText : Type := durationText : Z -> string.

Definition newWaitingPod (pod : Pod) (pluginsMaxWaitTime : gmap string Z) : waitingPod :=
  {| wp_pod := pod; pendingPlugins := dom pluginsMaxWaitTime;
     timers := (fun waitTime => (Running, waitTime)) <$> pluginsMaxWaitTime; wp_s := None |}.

Definition GetWaitingPodPod (w : waitingPod) : Pod := wp_pod w.
Definition GetPendingPlugins (w : waitingPod) : gset string := pendingPlugins w.

(** [timer.Stop()] *)
Definition stopTimer (t : timer * Z) : timer * Z :=
  match t.1 with Running => (Over, t.2) | _ => t end.

(** The non-blocking send. *)
Definition send (st : Status) (w : waitingPod) : waitingPod :=
  {| wp_pod := wp_pod w; pendingPlugins := pendingPlugins w; timers := timers w;
     wp_s := match wp_s w with None => Some st | s => s end |}.

Definition Allow (pluginName : string) (w : waitingPod) : waitingPod :=
  let w := if decide (pluginName ∈ pendingPlugins w) then
      {| wp_pod := wp_pod w; pendingPlugins := pendingPlugins w ∖ {[pluginName]};
         timers := alter stopTimer pluginName (timers w); wp_s := wp_s w |}
    else w in
  if decide (pendingPlugins w = ∅) then send (NewStatus Success [""]) w else w.

(** It stops the timers of the pending plugins. *)
Definition Reject (msg : string) (w : waitingPod) : waitingPod :=
  send (NewStatus Unschedulable [msg])
    {| wp_pod := wp_pod w; pendingPlugins := pendingPlugins w;
       timers := map_imap (fun k t => Some (if decide (k ∈ pendingPlugins w) then stopTimer t else t)) (timers w);
       wp_s := wp_s w |}.

Section Timers.
Context `{DurationText}.

(** The time of a timer runs out. *)
Definition expire (plugin : string) (w : waitingPod) : waitingPod :=
  {| wp_pod := wp_pod w; pendingPlugins := pendingPlugins w;
     timers := alter (fun t => match t.1 with Running => (Expired, t.2) | _ => t end) plugin (timers w);
     wp_s := wp_s w |}.

(** The function of an expired timer. *)
Definition timedOut (plugin : string) (w : waitingPod) : waitingPod :=
  match timers w !! plugin with
  | Some (Expired, waitTime) =>
      Reject (String.concat "" ["rejected due to timeout after waiting "; durationText waitTime; " at plugin "; plugin])
        {| wp_pod := wp_pod w; pendingPlugins := pendingPlugins w;
           timers := <[plugin := (Over, waitTime)]> (timers w); wp_s := wp_s w |}
  | _ => w
  end.

(** What can happen to a waiting pod before its goroutine receives. *)
Inductive waitingEvent :=
  | EvAllow (plugin : string)
  | EvReject (msg : string)
  | EvExpire (plugin : string)
  | EvTimedOut (plugin : string).

Definition waitingStep (w : waitingPod) (e : waitingEvent) : waitingPod :=
  match e with
  | EvAllow plugin => Allow plugin w
  | EvReject msg => Reject msg w
  | EvExpire plugin => expire plugin w
  | EvTimedOut plugin => timedOut plugin w
  end.
Definition waitingRun : waitingPod -> list waitingEvent -> waitingPod := foldl waitingStep.
End Timers.

(** ** The map of waiting pods

    It holds pointers; [heap] has the waiting pods made so far. *)
Record waitingPodsMap := { wpm_pods : gmap string nat; wpm_heap : list waitingPod }.

Definition newWaitingPodsMap : waitingPodsMap := {| wpm_pods := ∅; wpm_heap := [] |}.

Definition wpmAdd (wp : waitingPod) (m : waitingPodsMap) : waitingPodsMap :=
  {| wpm_pods := <[pod_UID (GetWaitingPodPod wp) := length (wpm_heap m)]> (wpm_pods m);
     wpm_heap := wpm_heap m ++ [wp] |}.
Definition wpmRemove (uid : string) (m : waitingPodsMap) : waitingPodsMap :=
  {| wpm_pods := delete uid (wpm_pods m); wpm_heap := wpm_heap m |}.
Definition wpmGet (uid : string) (m : waitingPodsMap) : option nat := wpm_pods m !! uid.
Definition wpmUpdate (f : waitingPod -> waitingPod) (l : nat) (m : waitingPodsMap) : waitingPodsMap :=
  {| wpm_pods := wpm_pods m; wpm_heap := alter f l (wpm_heap m) |}.

(** [RejectWaitingPod] of the framework. *)
Definition RejectWaitingPod (uid : string) (m : waitingPodsMap) : waitingPodsMap :=
  match wpmGet uid m with Some l => wpmUpdate (Reject "removed") l m | None => m end.

(** [<-waitingPod.s]: blocks ([None]) while the channel is empty. *)
Definition receive (l : nat) (m : waitingPodsMap) : option (Status * waitingPodsMap) :=
  w ← wpm_heap m !! l;
  st ← wp_s w;
  Some (st, wpmUpdate (fun w => {| wp_pod := wp_pod w; pendingPlugins := pendingPlugins w;
                                   timers := timers w; wp_s := None |}) l m).

(** ** No pod waits for ever *)

(** A timer that may still reject the pod. *)
Definition live (w : waitingPod) (plugin : string) : Prop :=
  exists t, timers w !! plugin = Some t /\ t.1 <> Over.

Record waitingOk (plugins : gset string) (w : waitingPod) : Prop := {
  wo_pending : pendingPlugins w ⊆ plugins;
  wo_live plugin : wp_s w = None -> plugin ∈ pendingPlugins w -> live w plugin;
  wo_some : pendingPlugins w = ∅ -> wp_s w <> None
}.

Section Waiting.
Context `{DurationText}.

Lemma send_signals st w : wp_s (send st w) <> None.
Proof. unfold send. cbn. by destruct (wp_s w). Qed.

Lemma send_ok plugins st w : pendingPlugins w ⊆ plugins -> waitingOk plugins (send st w).
Proof. intros Hp. pose proof (send_signals st w). by split. Qed.

Lemma waitingStep_ok plugins w e : waitingOk plugins w -> waitingOk plugins (waitingStep w e).
Proof.
  intros Hw. pose proof (wo_pending _ _ Hw) as Hp. destruct e as [n|msg|n|n]; cbn [waitingStep].
  - unfold Allow. set (w' := if decide (n ∈ _) then _ else w).
    assert (Hp' : pendingPlugins w' ⊆ plugins) by (unfold w'; case_decide; cbn; set_solver).
    case_decide as He; [by apply send_ok|]. split; [done| |done].
    intros k. unfold w'. case_decide; [|by apply Hw]. cbn. intros Hs Hk.
    destruct (wo_live _ _ Hw k Hs) as (t&Ht&Hl); [set_solver|].
    exists t. split; [|done]. cbn. rewrite lookup_alter_ne; [done|set_solver].
  - by apply send_ok.
  - split; [done| |apply (wo_some _ _ Hw)].
    intros k Hs Hk. destruct (wo_live _ _ Hw k Hs Hk) as (t&Ht&Hl). unfold live, expire. cbn.
    destruct (decide (n = k)) as [->|]; [|by rewrite lookup_alter_ne by done; eexists].
    rewrite lookup_alter_eq, Ht. cbn. eexists. split; [done|]. by destruct t as [[]].
  - unfold timedOut. destruct (timers w !! n) as [[[] ?]|] eqn:Hn; try done. by apply send_ok.
Qed.

Lemma waitingRun_ok plugins es : forall w, waitingOk plugins w -> waitingOk plugins (waitingRun w es).
Proof. induction es; intros w Hw; [done|]. by apply IHes, waitingStep_ok. Qed.

Lemma newWaitingPod_ok pod times : times <> ∅ -> waitingOk (dom times) (newWaitingPod pod times).
Proof.
  intros Hne. split; [done| |].
  - intros k _ Hk. unfold live. cbn in *. apply elem_of_dom in Hk as [d Hd]. rewrite lookup_fmap, Hd.
    by eexists.
  - intros Hd. exfalso. by apply Hne, dom_empty_iff_L.
Qed.

(** What was sent first stays in the channel. *)
Lemma waitingStep_first w e st : wp_s w = Some st -> wp_s (waitingStep w e) = Some st.
Proof.
  intros Hs. destruct e as [n|msg|n|n]; cbn [waitingStep]; unfold Allow, Reject, send, expire, timedOut.
  - repeat case_decide; cbn; by rewrite ?Hs.
  - cbn. by rewrite Hs.
  - done.
  - destruct (timers w !! n) as [[[] ?]|]; try done. cbn. by rewrite Hs.
Qed.

(** A success is sent only when no plugin is pending. *)
Lemma waitingStep_success w e : wp_s w = None ->
  wp_s (waitingStep w e) = Some (NewStatus Success [""]) -> pendingPlugins (waitingStep w e) = ∅.
Proof.
  intros Hs. destruct e as [n|msg|n|n]; cbn [waitingStep]; unfold Allow, Reject, expire, timedOut, send.
  - repeat case_decide; cbn in *; congruence.
  - cbn. by rewrite Hs.
  - cbn. by rewrite Hs.
  - destruct (timers w !! n) as [[[] ?]|]; cbn; by rewrite Hs.
Qed.

Definition isReject (e : waitingEvent) : Prop :=
  match e with EvReject _ | EvTimedOut _ => True | _ => False end.

(** A status other than success comes from a rejection. *)
Lemma waitingStep_rejects w e st : wp_s w = None -> wp_s (waitingStep w e) = Some st ->
  st = NewStatus Success [""] \/ isReject e /\ IsUnschedulable st = true.
Proof.
  intros Hs. destruct e as [n|msg|n|n]; cbn [waitingStep]; unfold Allow, Reject, expire, timedOut, send.
  - repeat case_decide; cbn; rewrite ?Hs; intros [= <-]; by left.
  - cbn. rewrite Hs. intros [= <-]. by right.
  - cbn. by rewrite Hs.
  - destruct (timers w !! n) as [[[] ?]|]; cbn; rewrite Hs; try done. intros [= <-]. by right.
Qed.

Lemma waitingStep_pending w e plugin : plugin ∈ pendingPlugins w -> plugin ∉ pendingPlugins (waitingStep w e) ->
  e = EvAllow plugin.
Proof.
  destruct e as [n|msg|n|n]; cbn [waitingStep]; unfold Allow, Reject, expire, timedOut, send.
  - destruct (decide (n = plugin)) as [->|Hne]; [done|].
    repeat case_decide; cbn; intros Hin Hout; [..|done]; exfalso; set_solver.
  - done.
  - done.
  - by destruct (timers w !! n) as [[[] ?]|].
Qed.

Lemma waitingRun_pending es : forall w plugin, plugin ∈ pendingPlugins w ->
  plugin ∉ pendingPlugins (waitingRun w es) -> EvAllow plugin ∈ es.
Proof.
  induction es as [|e es IH]; intros w plugin Hin Hout; [done|]. apply elem_of_cons.
  destruct (decide (plugin ∈ pendingPlugins (waitingStep w e))) as [Hk|Hk].
  - right. by eapply IH.
  - left. symmetry. by eapply waitingStep_pending.
Qed.

Lemma waitingRun_first es : forall w st, wp_s w = Some st -> wp_s (waitingRun w es) = Some st.
Proof. induction es as [|e es IH]; intros w st Hs; [done|]. by apply IH, waitingStep_first. Qed.

Lemma waitingRun_signal es : forall w st, wp_s w = None -> wp_s (waitingRun w es) = Some st ->
  (st = NewStatus Success [""] /\ forall plugin, plugin ∈ pendingPlugins w -> EvAllow plugin ∈ es) \/
  (IsUnschedulable st = true /\ exists e, e ∈ es /\ isReject e).
Proof.
  induction es as [|e es IH]; intros w st Hs Hr; [cbn in *; congruence|].
  destruct (wp_s (waitingStep w e)) as [st'|] eqn:He.
  - assert (st' = st) as -> by (cbn in Hr; rewrite (waitingRun_first es _ _ He) in Hr; congruence).
    destruct (waitingStep_rejects w e st Hs He) as [->|[Hrej Hu]].
    + left. split; [done|]. intros plugin Hin. apply elem_of_cons. left. symmetry.
      eapply waitingStep_pending; [done|]. by rewrite (waitingStep_success w e Hs He).
    + right. split; [done|]. exists e. split; [left|done].
  - destruct (IH _ _ He Hr) as [[-> Hall]|(Hu&e'&Hin&Hrej)].
    + left. split; [done|]. intros plugin Hin. apply elem_of_cons.
      destruct (decide (plugin ∈ pendingPlugins (waitingStep w e))) as [Hk|Hk]; [right; by apply Hall|].
      left. symmetry. by eapply waitingStep_pending.
    + right. split; [done|]. exists e'. split; [by right|done].
Qed.
End Waiting.

(** C31: Whatever calls and timers meet a pod that waits for at least one plugin, the
    first signal is the one its goroutine receives: a success only after every plugin
    asked to wait has allowed the pod, a rejection only after a [Reject] or a timeout.  And
    no pod waits for ever: once no timer can run out any more, a signal is there. *)
Theorem waiting_pod_is_released `{DurationText} (pod : Pod) (times : gmap string Z) (es later : list waitingEvent) :
  times <> ∅ ->
  let w := waitingRun (newWaitingPod pod times) es in
  (forall st, wp_s w = Some st ->
     wp_s (waitingRun w later) = Some st /\
     ((st = NewStatus Success [""] /\ forall plugin, plugin ∈ dom times -> EvAllow plugin ∈ es) \/
      (IsUnschedulable st = true /\ exists e, e ∈ es /\ isReject e))) /\
  ((forall plugin t, timers w !! plugin = Some t -> t.1 = Over) -> exists st, wp_s w = Some st).
Proof.
  intros Hne w. pose proof (waitingRun_ok _ es _ (newWaitingPod_ok pod times Hne)) as Hok. fold w in Hok. split.
  - intros st Hs. split; [by apply waitingRun_first|]. by apply (waitingRun_signal es (newWaitingPod pod times)).
  - intros Hover. destruct (wp_s w) as [st|] eqn:Hs; [by eexists|]. exfalso.
    destruct (set_choose_L (pendingPlugins w)) as [k Hk].
    { intros He. by apply (wo_some _ _ Hok). }
    destruct (wo_live _ _ Hok k Hs Hk) as (t&Ht&Hl). by apply Hl, (Hover k).
Qed.

(** ** Concrete instances *)
Definition exampleTimes : gmap string Z := {["quota" := 10; "gang" := 20]}%Z.
Definition exampleText : DurationText := fun _ => "10s".
Definition exampleWaiting : list waitingEvent := [EvAllow "gang"; EvExpire "quota"; EvTimedOut "quota"].

Example gang_waits : wp_s (@waitingRun exampleText (newWaitingPod (simplePod "p" "ns" "u" "n" []) exampleTimes)
  [EvAllow "gang"]) = None.
Proof. vm_compute. reflexivity. Qed.

Lemma waiting_pod_is_released_witness :
  (exists st, wp_s (@waitingRun exampleText (newWaitingPod (simplePod "p" "ns" "u" "n" []) exampleTimes) exampleWaiting)
     = Some st /\ IsUnschedulable st = true) /\
  wp_s (@waitingRun exampleText (newWaitingPod (simplePod "p" "ns" "u" "n" []) exampleTimes)
    [EvAllow "gang"; EvAllow "quota"; EvReject "late"]) = Some (NewStatus Success [""]).
Proof.
  pose proof (@waiting_pod_is_released exampleText (simplePod "p" "ns" "u" "n" []) exampleTimes exampleWaiting
    [] ltac:(vm_compute; discriminate)) as [_ Hlive].
  split.
  - destruct Hlive as [st Hs].
    + apply (bool_decide_eq_true_1 (map_Forall (fun _ t => t.1 = Over) _)). vm_compute. reflexivity.
    + exists st. split; [exact Hs|]. vm_compute in Hs. by inversion Hs.
  - vm_compute. reflexivity.
Defined.
