(* ===== verification/Binding.v ===== *)
(** * Reserving, permitting and binding (framework/runtime/framework.go)

    The extension points after a node has been selected, as goroutines.  What a plugin
    answers is not known: calling one is a call to the outside, by the name of the
    plugin, and the cycle state that it shares with the other plugins is left out. *)
From S2P Require Import Prelude Api NodeInfo Framework Goroutine Nominator PriorityQueue Cache CacheSpec Snapshot.
From S2P Require Import GenericScheduler WaitingPods.
Local Open Scope go_scope.

Section Binding.
Context `{StateData}.

(** A profile with its framework; the plugins of the extension points below are names. *)
Record profile := {
  prof_Name : string;
  prof_Framework : frameworkImpl;
  postFilterPlugins : list string;
  reservePlugins : list string;
  permitPlugins : list string;
  preBindPlugins : list string;
  bindPlugins : list string;
  postBindPlugins : list string
}.

(** ** The calls of the scheduler

    The first group changes or reads the state that the goroutines share; the second
    goes to plugins, extenders, the clock, the informers and the API server. *)
Inductive call : Type -> Type :=
  | CacheCall (e : cacheEvent) : call (result cacheError unit)
  | IsAssumedCall (pod : Pod) : call (result cacheError bool)
  | GetPodCall (pod : Pod) : call (result cacheError Pod)
  | QueueCall (X : Type) (m : Q X) : call (result queueError X)
  | NextPodCall : call (result queueError (option QueuedPodInfo))
  | ScheduleCall (prof : profile) (pod : Pod) : call (result scheduleError ScheduleResult)
  | ExtendersCall : call (list Extender)
  | AddWaiting (prof : string) (wp : waitingPod) : call unit
  | GetWaiting (prof uid : string) : call (option nat)
  | ReceiveSignal (prof : string) (l : nat) : call Status
  | RemoveWaiting (prof uid : string) : call unit
  | RejectWaiting (prof uid : string) : call unit
  | PostFilterCall (pl : string) (pod : Pod) (statuses : gmap string Status) : call (option string * Status)
  | ReserveCall (pl : string) (pod : Pod) (nodeName : string) : call Status
  | UnreserveCall (pl : string) (pod : Pod) (nodeName : string) : call unit
  | PermitCall (pl : string) (pod : Pod) (nodeName : string) : call (Status * Z)
  | PreBindCall (pl : string) (pod : Pod) (nodeName : string) : call Status
  | BindCall (pl : string) (pod : Pod) (nodeName : string) : call Status
  | PostBindCall (pl : string) (pod : Pod) (nodeName : string) : call unit
  | ExtenderBind (i : nat) (pod : Pod) (nodeName : string) : call (option string)
  | TimeNow : call Z
  | ListerGet (namespace name : string) : call (option Pod)
  | NodeIsGone (name : string) : call bool
  | PatchPod (old new : Pod) : call (option string).

Abbreviation Go := (go call).

(** An error is returned as a value; a panic ends the process. *)
Definition cacheCall (e : cacheEvent) : Go (option cacheError) :=
  r ← invoke (CacheCall e);
  match r with Ok _ => mret None | Err err => mret (Some err) | Panic => Crash end.

(** A method of the queue whose error is returned or logged. *)
Definition queueCall {X} (m : Q X) : Go (option X) :=
  r ← invoke (QueueCall X m);
  match r with Ok x => mret (Some x) | Err _ => mret None | Panic => Crash end.

Definition text (l : list string) : string := String.concat "" l.

(** ** PostFilter

    [statusOrder] is the order in which Go iterates over a map of statuses. *)
Section PostFilter.
Context (statusOrder : gmap string Status -> list Status).

Fixpoint postFilterLoop (pls : list string) (pod : Pod) (filteredNodeStatusMap : gmap string Status)
    (statuses : gmap string Status) : Go (option string * Status) :=
  match pls with
  | [] => match Merge (statusOrder statuses) with Some s => mret (None, s) | None => Crash end
  | pl :: pls =>
      '(r, s) ← invoke (PostFilterCall pl pod filteredNodeStatusMap);
      if IsSuccess s then mret (r, s)
      else if negb (IsUnschedulable s) then mret (None, NewStatus Error [Message s])
      else postFilterLoop pls pod filteredNodeStatusMap (<[pl := s]> statuses)
  end.

Definition RunPostFilterPlugins (f : profile) (pod : Pod) (filteredNodeStatusMap : gmap string Status)
    : Go (option string * Status) :=
  postFilterLoop (postFilterPlugins f) pod filteredNodeStatusMap ∅.
Definition HasPostFilterPlugins (f : profile) : bool := 0 <? length (postFilterPlugins f).
End PostFilter.

(** ** Reserve *)
Fixpoint reserveLoop (pls : list string) (pod : Pod) (nodeName : string) : Go Status :=
  match pls with
  | [] => mret None
  | pl :: pls =>
      status ← invoke (ReserveCall pl pod nodeName);
      if IsSuccess status then reserveLoop pls pod nodeName
      else mret (NewStatus Error [text ["error while running Reserve in "; quoted pl; " reserve plugin for pod ";
                   quoted (pod_Name pod); ": "; Message status]])
  end.
Definition RunReservePluginsReserve (f : profile) : Pod -> string -> Go Status := reserveLoop (reservePlugins f).

Fixpoint unreserveLoop (pls : list string) (pod : Pod) (nodeName : string) : Go unit :=
  match pls with
  | [] => mret tt
  | pl :: pls => _ ← invoke (UnreserveCall pl pod nodeName); unreserveLoop pls pod nodeName
  end.
(** In the reverse order of [Reserve]. *)
Definition RunReservePluginsUnreserve (f : profile) : Pod -> string -> Go unit :=
  unreserveLoop (reverse (reservePlugins f)).

(** ** Permit *)
Definition maxTimeout : Z := (15 * 60 * 1000000000)%Z.

Fixpoint permitLoop (prof : string) (pls : list string) (pod : Pod) (nodeName : string)
    (pluginsWaitTime : gmap string Z) (statusCode : Code) : Go Status :=
  match pls with
  | [] =>
      if decide (statusCode = Wait) then
        _ ← invoke (AddWaiting prof (newWaitingPod pod pluginsWaitTime));
        mret (NewStatus Wait [text ["one or more plugins asked to wait and no plugin rejected pod ";
                quoted (pod_Name pod)]])
      else mret None
  | pl :: pls =>
      '(status, timeout) ← invoke (PermitCall pl pod nodeName);
      if IsSuccess status then permitLoop prof pls pod nodeName pluginsWaitTime statusCode
      else if IsUnschedulable status then
        mret (NewStatus (StatusCode status) [text ["rejected pod "; quoted (pod_Name pod); " by permit plugin ";
                quoted pl; ": "; Message status]])
      else if decide (StatusCode status = Wait) then
        let timeout := if (maxTimeout <? timeout)%Z then maxTimeout else timeout in
        permitLoop prof pls pod nodeName (<[pl := timeout]> pluginsWaitTime) Wait
      else
        mret (NewStatus Error [text ["error while running "; quoted pl; " permit plugin for pod ";
                quoted (pod_Name pod); ": "; Message status]])
  end.
Definition RunPermitPlugins (f : profile) (pod : Pod) (nodeName : string) : Go Status :=
  permitLoop (prof_Name f) (permitPlugins f) pod nodeName ∅ Success.

Definition WaitOnPermit (f : profile) (pod : Pod) : Go Status :=
  waitingPod ← invoke (GetWaiting (prof_Name f) (pod_UID pod));
  match waitingPod with
  | None => mret None
  | Some l =>
      s ← invoke (ReceiveSignal (prof_Name f) l);
      _ ← invoke (RemoveWaiting (prof_Name f) (pod_UID pod));
      if IsSuccess s then mret None
      else if IsUnschedulable s then
        mret (NewStatus (StatusCode s) [text ["pod "; quoted (pod_Name pod);
                " rejected while waiting on permit: "; Message s]])
      else
        mret (NewStatus Error [text ["error received while waiting on permit for pod "; quoted (pod_Name pod); ": ";
                Message s]])
  end.

(** ** Binding *)
Fixpoint preBindLoop (pls : list string) (pod : Pod) (nodeName : string) : Go Status :=
  match pls with
  | [] => mret None
  | pl :: pls =>
      status ← invoke (PreBindCall pl pod nodeName);
      if IsSuccess status then preBindLoop pls pod nodeName
      else mret (NewStatus Error [text ["error while running "; quoted pl; " prebind plugin for pod ";
                   quoted (pod_Name pod); ": "; Message status]])
  end.
Definition RunPreBindPlugins (f : profile) : Pod -> string -> Go Status := preBindLoop (preBindPlugins f).

(** [status] is the answer of the last plugin, which skipped. *)
Fixpoint bindLoop (pls : list string) (pod : Pod) (nodeName : string) (status : Status) : Go Status :=
  match pls with
  | [] => mret status
  | bp :: pls =>
      status ← invoke (BindCall bp pod nodeName);
      if decide (StatusCode status = Skip) then bindLoop pls pod nodeName status
      else if IsSuccess status then mret status
      else mret (NewStatus Error [text ["plugin "; quoted bp; " failed to bind pod ";
                   quoted (text [pod_Namespace pod; "/"; pod_Name pod]); ": "; Message status]])
  end.
Definition RunBindPlugins (f : profile) (pod : Pod) (nodeName : string) : Go Status :=
  match bindPlugins f with
  | [] => mret (NewStatus Skip [""])
  | pls => bindLoop pls pod nodeName None
  end.

Fixpoint postBindLoop (pls : list string) (pod : Pod) (nodeName : string) : Go unit :=
  match pls with
  | [] => mret tt
  | pl :: pls => _ ← invoke (PostBindCall pl pod nodeName); postBindLoop pls pod nodeName
  end.
Definition RunPostBindPlugins (f : profile) : Pod -> string -> Go unit := postBindLoop (postBindPlugins f).
End Binding.
Abbreviation Go := (go call).
