(* ===== verification/Scheduler.v ===== *)
(** * The scheduler (scheduler.go, factory.go, eventhandlers.go)

    [scheduleOne] takes a pod from the queue, runs the scheduling algorithm, assumes the
    pod on the node that was selected and starts a goroutine that binds it; the event
    handlers of the informers keep the cache and the queue current.  All of them are
    goroutines on one state: the cache with the algorithm, the queue and the waiting
    pods.  Log messages and metrics are left out. *)
From S2P Require Import Prelude Api NodeInfo Framework Goroutine Nominator PriorityQueue Cache CacheSpec Snapshot.
From S2P Require Import GenericScheduler WaitingPods Binding.
Local Open Scope go_scope.

Definition PodReasonUnschedulable : string := "Unschedulable".
Definition SchedulerError : string := "SchedulerError".

(** What can be wrong with a pod. *)
Inductive schedError :=
  | FromAlgorithm (err : scheduleError)
  | FromCache (err : cacheError)
  | FromText (err : string).

(** Third-party code on errors and conditions: the text of an error, the node that an
    error of the API server says was not found, and [podutil.UpdatePodCondition]. *)
Class ClientLib : Type := {
  errorText : schedError -> string;
  notFoundNode : schedError -> option string;
  UpdatePodCondition : PodStatus -> PodCondition -> bool * PodStatus
}.

Definition specOnNode (spec : PodSpec) (host : string) : PodSpec :=
  {| NodeName := host; SchedulerName := SchedulerName spec; Containers := Containers spec;
     InitContainers := InitContainers spec; Overhead := Overhead spec; PodAffinitySpec := PodAffinitySpec spec;
     NodeSelector := NodeSelector spec; Tolerations := Tolerations spec; Volumes := Volumes spec;
     TopologySpreadConstraints := TopologySpreadConstraints spec; PreemptionPolicy := PreemptionPolicy spec;
     pod_Rest := pod_Rest spec |}.

Definition withNodeName (pod : Pod) (host : string) : Pod :=
  {| pod_Name := pod_Name pod; pod_Namespace := pod_Namespace pod; pod_UID := pod_UID pod;
     pod_Labels := pod_Labels pod; pod_Annotations := pod_Annotations pod; ManagedFields := ManagedFields pod;
     Finalizers := Finalizers pod; DeletionTimestamp := DeletionTimestamp pod;
     pod_ResourceVersion := pod_ResourceVersion pod; pod_Generation := pod_Generation pod;
     pod_Spec := specOnNode (pod_Spec pod) host; pod_Status := pod_Status pod |}.

Definition withStatus (pod : Pod) (status : PodStatus) : Pod :=
  {| pod_Name := pod_Name pod; pod_Namespace := pod_Namespace pod; pod_UID := pod_UID pod;
     pod_Labels := pod_Labels pod; pod_Annotations := pod_Annotations pod; ManagedFields := ManagedFields pod;
     Finalizers := Finalizers pod; DeletionTimestamp := DeletionTimestamp pod;
     pod_ResourceVersion := pod_ResourceVersion pod; pod_Generation := pod_Generation pod;
     pod_Spec := pod_Spec pod; pod_Status := status |}.

(** The function [f] of [skipPodUpdate]: the fields whose updates are ignored. *)
Definition ignoreFields (pod : Pod) : Pod :=
  let p := withNodeName pod "" in
  {| pod_Name := pod_Name p; pod_Namespace := pod_Namespace p; pod_UID := pod_UID p;
     pod_Labels := pod_Labels p; pod_Annotations := ∅; ManagedFields := ""; Finalizers := [];
     DeletionTimestamp := DeletionTimestamp p; pod_ResourceVersion := ""; pod_Generation := pod_Generation p;
     pod_Spec := pod_Spec p;
     pod_Status := {| NominatedNodeName_field := NominatedNodeName_field (pod_Status p); Conditions := [];
                      StartTime := StartTime (pod_Status p); status_Rest := status_Rest (pod_Status p) |} |}.

Section Scheduler.
Context `{LabelsLib, StateData, KeyLib, Environment, ClientLib}.
Context (lessFn : QueuedPodInfo -> QueuedPodInfo -> bool) (initialBackoff maxBackoff : Z)
  (statusOrder : gmap string Status -> list Status) (Profiles : gmap string profile).

(** ** Helpers *)
Definition profileForPod (pod : Pod) : option profile := Profiles !! SchedulerName (pod_Spec pod).

Definition skipPodUpdate (pod : Pod) : Go bool :=
  isAssumed ← invoke (IsAssumedCall pod);
  match isAssumed with
  | Ok true =>
      assumedPod ← invoke (GetPodCall pod);
      match assumedPod with
      | Ok assumedPod => mret (bool_decide (ignoreFields assumedPod = ignoreFields pod))
      | Err _ => mret false
      | Panic => Crash
      end
  | Ok false | Err _ => mret false
  | Panic => Crash
  end.

Definition skipPodSchedule (pod : Pod) : Go bool :=
  match DeletionTimestamp pod with
  | Some _ => mret true
  | None => skipPodUpdate pod
  end.

(** ** Failures *)

(** [MakeDefaultErrorFunc]; the result is what it leaves in [podInfo]. *)
Definition ErrorFunc (podInfo : QueuedPodInfo) (err : schedError) : Go QueuedPodInfo :=
  let pod := qp_Pod podInfo in
  _ ← (match err with
       | FromAlgorithm ErrNoNodesAvailable | FromAlgorithm (FitError _ _) => mret tt
       | _ =>
           match notFoundNode err with
           | None => mret tt
           | Some nodeName =>
               gone ← invoke (NodeIsGone nodeName);
               if gone : bool then
                 _ ← cacheCall (EvRemoveNode {| node_Name := nodeName; node_Labels := ∅; node_Unschedulable := false;
                       node_Taints := []; node_Allocatable := ∅; node_Images := []; node_Conditions := [] |});
                 mret tt
               else mret tt
           end
       end);
  cachedPod ← invoke (ListerGet (pod_Namespace pod) (pod_Name pod));
  match cachedPod with
  | None => mret podInfo
  | Some cachedPod =>
      let podInfo := PriorityQueue.updatePod podInfo cachedPod in
      cycle ← queueCall SchedulingCycle;
      match cycle with
      | None => mret podInfo
      | Some cycle =>
          r ← queueCall (AddUnschedulableIfNotPresent initialBackoff maxBackoff podInfo cycle);
          match r with Some (podInfo, _) => mret podInfo | None => mret podInfo end
      end
  end.

(** [updatePod]: the error of the patch, if any. *)
Definition updatePodStatus (pod : Pod) (condition : PodCondition) (nominatedNode : string) : Go (option string) :=
  let '(updated, status) := UpdatePodCondition (pod_Status pod) condition in
  if negb updated &&
     ((nominatedNode =? "")%string || (NominatedNodeName_field (pod_Status pod) =? nominatedNode)%string)
  then mret None
  else
    let status :=
      if (nominatedNode =? "")%string then status
      else {| NominatedNodeName_field := nominatedNode; Conditions := Conditions status;
              StartTime := StartTime status; status_Rest := status_Rest status |} in
    invoke (PatchPod pod (withStatus pod status)).

Definition recordSchedulingFailure (podInfo : QueuedPodInfo) (err : schedError) (reason nominatedNode : string)
    : Go unit :=
  podInfo ← ErrorFunc podInfo err;
  let pod := qp_Pod podInfo in
  _ ← queueCall (onNominator (fun npm => AddNominatedPod npm pod nominatedNode));
  _ ← updatePodStatus pod {| pc_Type := "PodScheduled"; pc_Status := "False"; pc_Reason := reason;
        pc_Message := errorText err |} nominatedNode;
  mret tt.

(** ** Assuming and binding *)

(** The pod with its node and the error, if any. *)
Definition assume (assumed : Pod) (host : string) : Go (Pod * option cacheError) :=
  let assumed := withNodeName assumed host in
  err ← cacheCall (EvAssume assumed);
  match err with
  | Some err => mret (assumed, Some err)
  | None =>
      _ ← queueCall (onNominator (fun npm => DeleteNominatedPodIfExists npm assumed));
      mret (assumed, None)
  end.

Definition finishBinding (assumed : Pod) : Go unit :=
  now ← invoke TimeNow;
  _ ← cacheCall (EvFinish assumed now);
  mret tt.

(** The first extender that binds the pod: whether there is one, and its error. *)
Fixpoint extendersLoop (i : nat) (extenders : list Extender) (pod : Pod) (node : string)
    : Go (bool * option string) :=
  match extenders with
  | [] => mret (false, None)
  | extender :: extenders =>
      if negb (IsBinder extender) || negb (IsInterested extender pod) then extendersLoop (S i) extenders pod node
      else err ← invoke (ExtenderBind i pod node); mret (true, err)
  end.
Definition extendersBinding (pod : Pod) (node : string) : Go (bool * option string) :=
  extenders ← invoke ExtendersCall; extendersLoop 0 extenders pod node.

Definition bind (prof : profile) (assumed : Pod) (targetNode : string) : Go (option string) :=
  '(bound, err) ← extendersBinding assumed targetNode;
  err ← (if bound : bool then mret err
         else
           bindStatus ← RunBindPlugins prof assumed targetNode;
           if IsSuccess bindStatus then mret None
           else if decide (StatusCode bindStatus = Error) then mret (AsError bindStatus)
           else mret (Some (text ["bind status: "; CodeString (StatusCode bindStatus); ", "; Message bindStatus])));
  _ ← finishBinding assumed;
  mret err.

(** The clean-up after a failure on a pod that was assumed. *)
Definition undo (prof : profile) (assumedPodInfo : QueuedPodInfo) (host : string) (err : schedError)
    (reason : string) : Go unit :=
  let assumedPod := qp_Pod assumedPodInfo in
  _ ← RunReservePluginsUnreserve prof assumedPod host;
  _ ← cacheCall (EvForget assumedPod);
  recordSchedulingFailure assumedPodInfo err reason "".

Definition statusError (s : Status) : schedError := FromText (default "" (AsError s)).
Definition reasonOf (s : Status) : string :=
  if IsUnschedulable s then PodReasonUnschedulable else SchedulerError.

(** The goroutine that [scheduleOne] starts. *)
Definition bindingCycle (prof : profile) (assumedPodInfo : QueuedPodInfo) (host : string) : Go unit :=
  let assumedPod := qp_Pod assumedPodInfo in
  waitOnPermitStatus ← WaitOnPermit prof assumedPod;
  if negb (IsSuccess waitOnPermitStatus) then
    undo prof assumedPodInfo host (statusError waitOnPermitStatus) (reasonOf waitOnPermitStatus)
  else
    preBindStatus ← RunPreBindPlugins prof assumedPod host;
    if negb (IsSuccess preBindStatus) then
      undo prof assumedPodInfo host (statusError preBindStatus) SchedulerError
    else
      err ← bind prof assumedPod host;
      match err with
      | Some err => undo prof assumedPodInfo host (FromText (text ["Binding rejected: "; err])) SchedulerError
      | None => RunPostBindPlugins prof assumedPod host
      end.

(** ** One pod *)

(** [scheduleOne] after the algorithm has selected a node. *)
Definition assumeAndBind (prof : profile) (podInfo : QueuedPodInfo) (host : string) : Go unit :=
  '(assumedPod, err) ← assume (qp_Pod podInfo) host;
  let assumedPodInfo := PriorityQueue.updatePod podInfo assumedPod in
  match err with
  | Some err => recordSchedulingFailure assumedPodInfo (FromCache err) SchedulerError ""
  | None =>
      sts ← RunReservePluginsReserve prof assumedPod host;
      if negb (IsSuccess sts) then undo prof assumedPodInfo host (statusError sts) SchedulerError
      else
        runPermitStatus ← RunPermitPlugins prof assumedPod host;
        if bool_decide (StatusCode runPermitStatus <> Wait) && negb (IsSuccess runPermitStatus) then
          undo prof assumedPodInfo host (statusError runPermitStatus) (reasonOf runPermitStatus)
        else Fork (bindingCycle prof assumedPodInfo host) (mret tt)
  end.

(** [scheduleOne] after the algorithm has failed. *)
Definition scheduleFailed (prof : profile) (podInfo : QueuedPodInfo) (err : scheduleError) : Go unit :=
  nominatedNode ←
    (match err with
     | FitError _ statuses =>
         if HasPostFilterPlugins prof then
           '(result, status) ← RunPostFilterPlugins statusOrder prof (qp_Pod podInfo) statuses;
           mret (if IsSuccess status then default "" result else "")
         else mret ""
     | _ => mret ""
     end);
  recordSchedulingFailure podInfo (FromAlgorithm err) PodReasonUnschedulable nominatedNode.

Definition scheduleOne : Go unit :=
  next ← invoke NextPodCall;
  match next with
  | Ok (Some podInfo) =>
      let pod := qp_Pod podInfo in
      match profileForPod pod with
      | None => mret tt
      | Some prof =>
          skip ← skipPodSchedule pod;
          if skip : bool then mret tt
          else
            scheduleResult ← invoke (ScheduleCall prof pod);
            match scheduleResult with
            | Ok r => assumeAndBind prof podInfo (SuggestedHost r)
            | Err err => scheduleFailed prof podInfo err
            | Panic => Crash
            end
      end
  | Ok None | Err _ => mret tt
  | Panic => Crash
  end.
End Scheduler.
