(* ===== verification/EventHandlers.v ===== *)
(** * The event handlers (eventhandlers.go)

    What the informers call: pods that are assigned to a node go to the cache, the
    others to the queue, nodes to the cache; what may make a pending pod schedulable
    moves the unschedulable pods of the queue. *)
From S2P Require Import Prelude Api NodeInfo Framework Goroutine Nominator PriorityQueue Cache CacheSpec Snapshot.
From S2P Require Import GenericScheduler WaitingPods Binding Scheduler.
Local Open Scope go_scope.

(** What an informer hands to a handler. *)
Inductive object :=
  | PodObject (pod : Pod)
  | NodeObject (nd : Node)
  | StorageClassObject (VolumeBindingMode : option string)
  | DeletedFinalStateUnknown (obj : object)
  | OtherObject.

(** ** What has changed in a node *)
Definition nodeSpecUnschedulableChanged (newNode oldNode : Node) : bool :=
  negb (Bool.eqb (node_Unschedulable newNode) (node_Unschedulable oldNode)) && negb (node_Unschedulable newNode).
Definition nodeAllocatableChanged (newNode oldNode : Node) : bool :=
  bool_decide (node_Allocatable oldNode <> node_Allocatable newNode).
Definition nodeLabelsChanged (newNode oldNode : Node) : bool :=
  bool_decide (node_Labels oldNode <> node_Labels newNode).
Definition nodeTaintsChanged (newNode oldNode : Node) : bool :=
  bool_decide (node_Taints newNode <> node_Taints oldNode).
(** The statuses by type; a later condition of the same type wins. *)
Definition stripConditions (conditions : list (string * string)) : gmap string string :=
  foldl (fun m c => <[c.1 := c.2]> m) ∅ conditions.
Definition nodeConditionsChanged (newNode oldNode : Node) : bool :=
  bool_decide (stripConditions (node_Conditions oldNode) <> stripConditions (node_Conditions newNode)).

Definition nodeSchedulingPropertiesChange (newNode oldNode : Node) : string :=
  if nodeSpecUnschedulableChanged newNode oldNode then "NodeSpecUnschedulableChange"
  else if nodeAllocatableChanged newNode oldNode then "NodeAllocatableChange"
  else if nodeLabelsChanged newNode oldNode then "NodeLabelChange"
  else if nodeTaintsChanged newNode oldNode then "NodeTaintChange"
  else if nodeConditionsChanged newNode oldNode then "NodeConditionChange"
  else "".

Section Handlers.
Context `{LabelsLib, StateData, KeyLib, Environment, ClientLib}.
Context (lessFn : QueuedPodInfo -> QueuedPodInfo -> bool) (initialBackoff maxBackoff : Z)
  (Profiles : gmap string profile).

(** A queue method whose error is only logged. *)
Definition queueDo {X} (m : Q X) : Go unit := _ ← queueCall m; mret tt.
Definition cacheDo (e : cacheEvent) : Go unit := _ ← cacheCall e; mret tt.
Definition moveAll (event : string) : Go unit :=
  queueDo (MoveAllToActiveOrBackoffQueue lessFn initialBackoff maxBackoff event).

(** ** Volumes, services and CSI nodes *)
Definition onPvAdd : Go unit := moveAll "PvAdd".
Definition onPvUpdate : Go unit := moveAll "PvUpdate".
Definition onPvcAdd : Go unit := moveAll "PvcAdd".
Definition onPvcUpdate : Go unit := moveAll "PvcUpdate".
Definition onStorageClassAdd (obj : object) : Go unit :=
  match obj with
  | StorageClassObject (Some mode) =>
      if (mode =? "WaitForFirstConsumer")%string then moveAll "StorageClassAdd" else mret tt
  | _ => mret tt
  end.
Definition onServiceAdd : Go unit := moveAll "ServiceAdd".
Definition onServiceUpdate : Go unit := moveAll "ServiceUpdate".
Definition onServiceDelete : Go unit := moveAll "ServiceDelete".
Definition onCSINodeAdd : Go unit := moveAll "CSINodeAdd".
Definition onCSINodeUpdate : Go unit := moveAll "CSINodeUpdate".

(** ** Nodes *)
Definition addNodeToCache (obj : object) : Go unit :=
  match obj with
  | NodeObject nd => _ ← cacheDo (EvAddNode nd); moveAll "NodeAdd"
  | _ => mret tt
  end.

Definition updateNodeInCache (oldObj newObj : object) : Go unit :=
  match oldObj, newObj with
  | NodeObject oldNode, NodeObject newNode =>
      _ ← cacheDo (EvUpdateNode (Some oldNode) newNode);
      n ← queueCall NumUnschedulablePods;
      if decide (n = Some 0) then moveAll "Unknown"
      else
        let event := nodeSchedulingPropertiesChange newNode oldNode in
        if (event =? "")%string then mret tt else moveAll event
  | _, _ => mret tt
  end.

Definition nodeOfObject (obj : object) : option Node :=
  match obj with
  | NodeObject nd | DeletedFinalStateUnknown (NodeObject nd) => Some nd
  | _ => None
  end.
Definition deleteNodeFromCache (obj : object) : Go unit :=
  match nodeOfObject obj with Some nd => cacheDo (EvRemoveNode nd) | None => mret tt end.

(** ** Pods to schedule *)

(** A failed type assertion panics. *)
Definition addPodToSchedulingQueue (obj : object) : Go unit :=
  match obj with
  | PodObject pod => queueDo (PriorityQueue.Add lessFn initialBackoff maxBackoff pod)
  | _ => Crash
  end.

Definition updatePodInSchedulingQueue (oldObj newObj : object) : Go unit :=
  match newObj with
  | PodObject pod =>
      skip ← skipPodUpdate pod;
      if skip : bool then mret tt
      else match oldObj with
           | PodObject old => queueDo (PriorityQueue.Update lessFn initialBackoff maxBackoff (Some old) pod)
           | _ => Crash
           end
  | _ => Crash
  end.

Definition podOfObject (obj : object) : option Pod :=
  match obj with
  | PodObject pod | DeletedFinalStateUnknown (PodObject pod) => Some pod
  | _ => None
  end.

Definition deletePodFromSchedulingQueue (obj : object) : Go unit :=
  match podOfObject obj with
  | None => mret tt
  | Some pod =>
      _ ← queueDo (PriorityQueue.Delete lessFn initialBackoff maxBackoff pod);
      match profileForPod Profiles pod with
      | None => mret tt
      | Some prof => invoke (RejectWaiting (prof_Name prof) (pod_UID pod))
      end
  end.

(** ** Pods on nodes *)
Definition addPodToCache (obj : object) : Go unit :=
  match obj with
  | PodObject pod =>
      _ ← cacheDo (EvAdd pod);
      queueDo (AssignedPodAdded lessFn initialBackoff maxBackoff pod)
  | _ => mret tt
  end.

Definition deletePodFromCache (obj : object) : Go unit :=
  match podOfObject obj with
  | None => mret tt
  | Some pod => _ ← cacheDo (EvRemove pod); moveAll "AssignedPodDelete"
  end.

Definition updatePodInCache (oldObj newObj : object) : Go unit :=
  match oldObj, newObj with
  | PodObject oldPod, PodObject newPod =>
      if decide (pod_UID oldPod <> pod_UID newPod) then
        _ ← deletePodFromCache oldObj; addPodToCache newObj
      else
        _ ← cacheDo (EvUpdate oldPod newPod);
        queueDo (AssignedPodUpdated lessFn initialBackoff maxBackoff newPod)
  | _, _ => mret tt
  end.

(** ** The filters of the pod informer (addAllEventHandlers) *)
Definition assignedPod (pod : Pod) : bool := negb (NodeName (pod_Spec pod) =? "")%string.
Definition responsibleForPod (pod : Pod) : bool := bool_decide (is_Some (Profiles !! SchedulerName (pod_Spec pod))).

Definition scheduledPodFilter (obj : object) : bool :=
  match podOfObject obj with Some pod => assignedPod pod | None => false end.
Definition unscheduledPodFilter (obj : object) : bool :=
  match podOfObject obj with Some pod => negb (assignedPod pod) && responsibleForPod pod | None => false end.

(** [addAllEventHandlers]: the handlers that the informers may start. *)
Inductive informerCall : Go unit -> Prop :=
  | CallAddPodToCache obj : scheduledPodFilter obj = true -> informerCall (addPodToCache obj)
  | CallUpdatePodInCache old new : scheduledPodFilter old = true -> scheduledPodFilter new = true ->
      informerCall (updatePodInCache old new)
  | CallDeletePodFromCache obj : scheduledPodFilter obj = true -> informerCall (deletePodFromCache obj)
  | CallAddPodToQueue obj : unscheduledPodFilter obj = true -> informerCall (addPodToSchedulingQueue obj)
  | CallUpdatePodInQueue old new : unscheduledPodFilter old = true -> unscheduledPodFilter new = true ->
      informerCall (updatePodInSchedulingQueue old new)
  | CallDeletePodFromQueue obj : unscheduledPodFilter obj = true -> informerCall (deletePodFromSchedulingQueue obj)
  | CallAddNode obj : informerCall (addNodeToCache obj)
  | CallUpdateNode old new : informerCall (updateNodeInCache old new)
  | CallDeleteNode obj : informerCall (deleteNodeFromCache obj)
  | CallCSINodeAdd : informerCall onCSINodeAdd
  | CallCSINodeUpdate : informerCall onCSINodeUpdate
  | CallPvAdd : informerCall onPvAdd
  | CallPvUpdate : informerCall onPvUpdate
  | CallPvcAdd : informerCall onPvcAdd
  | CallPvcUpdate : informerCall onPvcUpdate
  | CallServiceAdd : informerCall onServiceAdd
  | CallServiceUpdate : informerCall onServiceUpdate
  | CallServiceDelete : informerCall onServiceDelete
  | CallStorageClassAdd obj : informerCall (onStorageClassAdd obj).
End Handlers.

(** ** The whole program *)
Section System.
Context `{LabelsLib, StateData, PodPriority, KeyLib, Environment, ClientLib, DurationText}.
Context (lessFn : QueuedPodInfo -> QueuedPodInfo -> bool) (initialBackoff maxBackoff : Z)
  (statusOrder : gmap string Status -> list Status) (nameOrder : list string -> list string)
  (MaxExtenderPriority : Z) (pvcLister : string -> string -> string + Claim)
  (IsControlledBy : Claim -> Pod -> bool) (Profiles : gmap string profile).

(** The state of the goroutines; [cacheLog] records the calls of the cache. *)
Record system := {
  generic : genericScheduler;
  SchedulingQueue : PriorityQueue;
  waitingPods : gmap string waitingPodsMap;
  cacheLog : list cacheEvent
}.

Definition cacheOf (s : system) : schedulerCache := scheduler_cache (generic s).
Definition withGeneric (s : system) (g : genericScheduler) : system :=
  {| generic := g; SchedulingQueue := SchedulingQueue s; waitingPods := waitingPods s; cacheLog := cacheLog s |}.
Definition withCache (s : system) (c : schedulerCache) (log : list cacheEvent) : system :=
  let g := generic s in
  {| generic := {| scheduler_cache := c; nodeInfoSnapshot := nodeInfoSnapshot g;
       scheduler_extenders := scheduler_extenders g; percentageOfNodesToScore := percentageOfNodesToScore g;
       nextStartNodeIndex := nextStartNodeIndex g |};
     SchedulingQueue := SchedulingQueue s; waitingPods := waitingPods s; cacheLog := log |}.
Definition withQueue (s : system) (q : PriorityQueue) : system :=
  {| generic := generic s; SchedulingQueue := q; waitingPods := waitingPods s; cacheLog := cacheLog s |}.
Definition onWaiting (s : system) (prof : string) (f : waitingPodsMap -> waitingPodsMap) : system :=
  {| generic := generic s; SchedulingQueue := SchedulingQueue s;
     waitingPods := <[prof := f (default newWaitingPodsMap (waitingPods s !! prof))]> (waitingPods s);
     cacheLog := cacheLog s |}.
Definition waitingOf (s : system) (prof : string) : waitingPodsMap := default newWaitingPodsMap (waitingPods s !! prof).

(** What a call does to the state and what it may answer. *)
Definition performs (X : Type) (c : call X) (s : system) : X -> system -> Prop :=
  match c in call X return X -> system -> Prop with
  | CacheCall e => fun x s' =>
      x = (cacheStep e (cacheOf s)).1 /\ s' = withCache s (cacheStep e (cacheOf s)).2 (cacheLog s ++ [e])
  | IsAssumedCall pod => fun x s' => x = (IsAssumedPod pod (cacheOf s)).1 /\ s' = s
  | GetPodCall pod => fun x s' => x = (GetPod pod (cacheOf s)).1 /\ s' = s
  | QueueCall X m => fun x s' => x = (m (SchedulingQueue s)).1 /\ s' = withQueue s (m (SchedulingQueue s)).2
  | NextPodCall => fun x s' => exists r q', NextPod lessFn (SchedulingQueue s) = (r, q') /\ s' = withQueue s q' /\
      match r with
      | Ok (Some (Popped pInfo)) => x = Ok (Some pInfo)
      | Ok (Some Waiting) => False
      | Ok None => x = Ok None
      | Err e => x = Err e
      | Panic => x = Panic
      end
  | ScheduleCall prof pod => fun x s' => exists run g st,
      Schedule statusOrder nameOrder MaxExtenderPriority pvcLister IsControlledBy (prof_Framework prof)
        (nominator (SchedulingQueue s)) run NewCycleState pod (generic s) = Some (x, g, st) /\ s' = withGeneric s g
  | ExtendersCall => fun x s' => x = scheduler_extenders (generic s) /\ s' = s
  | AddWaiting prof wp => fun _ s' => s' = onWaiting s prof (wpmAdd wp)
  | GetWaiting prof uid => fun x s' => x = wpmGet uid (waitingOf s prof) /\ s' = s
  | ReceiveSignal prof l => fun x s' => exists m, receive l (waitingOf s prof) = Some (x, m) /\
      s' = onWaiting s prof (fun _ => m)
  | RemoveWaiting prof uid => fun _ s' => s' = onWaiting s prof (wpmRemove uid)
  | RejectWaiting prof uid => fun _ s' => s' = onWaiting s prof (RejectWaitingPod uid)
  | _ => fun _ s' => s' = s
  end.

(** The steps of the world outside and of the goroutines of the cache and the queue: the
    events of a waiting pod, the cleanup of the cache and the two flushes of the queue. *)
Inductive external (s : system) : system -> Prop :=
  | ExtWaiting prof l e : external s (onWaiting s prof (wpmUpdate (fun w => waitingStep w e) l))
  | ExtCleanup now keys : external s (withCache s (cacheStep (EvCleanup now keys) (cacheOf s)).2
      (cacheLog s ++ [EvCleanup now keys]))
  | ExtFlushBackoff : external s (withQueue s (flushBackoffQCompleted lessFn initialBackoff maxBackoff (SchedulingQueue s)).2)
  | ExtFlushUnschedulable :
      external s (withQueue s (flushUnschedulableQLeftover lessFn initialBackoff maxBackoff (SchedulingQueue s)).2).

Definition systemStep : config call system -> config call system -> Prop :=
  step performs (scheduleOne initialBackoff maxBackoff statusOrder Profiles)
    (informerCall lessFn initialBackoff maxBackoff Profiles) external.

(** The scheduler as it is started, on an empty cache. *)
Definition newSystem (ttl g0 : Z) (extenders : list Extender) (percentage : Z) : system :=
  {| generic := {| scheduler_cache := newSchedulerCache ttl g0; nodeInfoSnapshot := NewEmptySnapshot;
       scheduler_extenders := extenders; percentageOfNodesToScore := percentage; nextStartNodeIndex := 0 |};
     SchedulingQueue := NewPriorityQueue None; waitingPods := ∅; cacheLog := [] |}.
End System.
