(* ===== verification/Simulator.v ===== *)
(** * Running the program

    The steps of the program (EventHandlers.v) as a function of a list of choices: which
    goroutine goes on, which handler starts.  Calls of plugins and of the API server are
    answered by [outside]; the schedule of every scheduling cycle is given.  What the
    simulator computes is reachable. *)
From S2P Require Import Prelude Api NodeInfo Framework Goroutine Nominator PriorityQueue Cache CacheSpec Snapshot.
From S2P Require Import GenericScheduler WaitingPods Binding Scheduler EventHandlers QueueTheorems.

Section Simulator.
Context `{LabelsLib, StateData, PodPriority, KeyLib, Environment, ClientLib, DurationText}.
Context (lessFn : QueuedPodInfo -> QueuedPodInfo -> bool) (initialBackoff maxBackoff : Z)
  (statusOrder : gmap string Status -> list Status) (nameOrder : list string -> list string)
  (MaxExtenderPriority : Z) (pvcLister : string -> string -> string + Claim)
  (IsControlledBy : Claim -> Pod -> bool) (Profiles : gmap string profile)
  (run : schedule) (outside : forall X, call X -> option X).

Definition perform (X : Type) (c : call X) (s : system) : option (X * system) :=
  match c in call X return option X -> option (X * system) with
  | CacheCall e => fun _ =>
      Some ((cacheStep e (cacheOf s)).1, withCache s (cacheStep e (cacheOf s)).2 (cacheLog s ++ [e]))
  | IsAssumedCall pod => fun _ => Some ((IsAssumedPod pod (cacheOf s)).1, s)
  | GetPodCall pod => fun _ => Some ((GetPod pod (cacheOf s)).1, s)
  | QueueCall X m => fun _ => Some ((m (SchedulingQueue s)).1, withQueue s (m (SchedulingQueue s)).2)
  | NextPodCall => fun _ =>
      match NextPod lessFn (SchedulingQueue s) with
      | (Ok (Some (Popped pInfo)), q) => Some (Ok (Some pInfo), withQueue s q)
      | (Ok (Some Waiting), _) => None
      | (Ok None, q) => Some (Ok None, withQueue s q)
      | (Err e, q) => Some (Err e, withQueue s q)
      | (Panic, q) => Some (Panic, withQueue s q)
      end
  | ScheduleCall prof pod => fun _ =>
      match Schedule statusOrder nameOrder MaxExtenderPriority pvcLister IsControlledBy (prof_Framework prof)
        (nominator (SchedulingQueue s)) run NewCycleState pod (generic s) with
      | Some (x, g, _) => Some (x, withGeneric s g)
      | None => None
      end
  | ExtendersCall => fun _ => Some (scheduler_extenders (generic s), s)
  | AddWaiting prof wp => fun _ => Some (tt, onWaiting s prof (wpmAdd wp))
  | GetWaiting prof uid => fun _ => Some (wpmGet uid (waitingOf s prof), s)
  | ReceiveSignal prof l => fun _ =>
      match receive l (waitingOf s prof) with
      | Some (x, m) => Some (x, onWaiting s prof (fun _ => m))
      | None => None
      end
  | RemoveWaiting prof uid => fun _ => Some (tt, onWaiting s prof (wpmRemove uid))
  | RejectWaiting prof uid => fun _ => Some (tt, onWaiting s prof (RejectWaitingPod uid))
  | _ => fun answer => match answer with Some x => Some (x, s) | None => None end
  end (outside X c).

Lemma perform_sound X (c : call X) s x s' : perform X c s = Some (x, s') ->
  performs lessFn statusOrder nameOrder MaxExtenderPriority pvcLister IsControlledBy X c s x s'.
Proof.
  unfold perform. destruct c; cbn.
  all: try (destruct (outside _ _); intros Hx; simplify_eq; done).
  all: try (intros Hx; simplify_eq; done).
  - destruct (NextPod lessFn (SchedulingQueue s)) as [[[[]|]| |] q] eqn:Hn; intros Hx; simplify_eq.
    all: by eexists _, _.
  - destruct (Schedule _ _ _ _ _ _ _ _ _ _) as [[[y g] st]|] eqn:Hs; intros Hx; simplify_eq.
    by exists run, g, st.
  - destruct (receive _ _) as [[y m]|] eqn:Hr; intros Hx; simplify_eq. by exists m.
Qed.

Inductive choice :=
  | RunMain
  | RunOther (i : nat)
  | AddNodeEvent (nd : Node)
  | AddPodEvent (pod : Pod).

Definition isCrash {A} (t : Go A) : bool := match t with Crash => true | _ => false end.

Definition runThread (t : Go unit) (s : system) : option (Go unit * system * list (Go unit)) :=
  match t with
  | Call c k => match perform _ c s with Some (x, s') => Some (k x, s', []) | None => None end
  | Fork child k => Some (k, s, [child])
  | Return _ | Crash => None
  end.

Definition choose (ch : choice) (cfg : config call system) : option (config call system) :=
  if existsb isCrash (threads cfg) then None
  else match ch with
  | RunMain =>
      match mainThread cfg with
      | Return _ => Some {| shared := shared cfg;
          mainThread := scheduleOne initialBackoff maxBackoff statusOrder Profiles; others := others cfg |}
      | t => match runThread t (shared cfg) with
             | Some (t, s, new) => Some {| shared := s; mainThread := t; others := others cfg ++ new |}
             | None => None
             end
      end
  | RunOther i =>
      match others cfg !! i with
      | Some t => match runThread t (shared cfg) with
                  | Some (t, s, new) => Some {| shared := s; mainThread := mainThread cfg;
                                                others := <[i := t]> (others cfg) ++ new |}
                  | None => None
                  end
      | None => None
      end
  | AddNodeEvent nd => Some {| shared := shared cfg; mainThread := mainThread cfg;
      others := others cfg ++ [addNodeToCache lessFn initialBackoff maxBackoff (NodeObject nd)] |}
  | AddPodEvent pod =>
      if unscheduledPodFilter Profiles (PodObject pod) then
        Some {| shared := shared cfg; mainThread := mainThread cfg;
                others := others cfg ++ [addPodToSchedulingQueue lessFn initialBackoff maxBackoff (PodObject pod)] |}
      else None
  end.

Fixpoint simulate (chs : list choice) (cfg : config call system) : option (config call system) :=
  match chs with
  | [] => Some cfg
  | ch :: chs => match choose ch cfg with Some cfg => simulate chs cfg | None => None end
  end.

Abbreviation systemStep' := (systemStep lessFn initialBackoff maxBackoff statusOrder nameOrder MaxExtenderPriority
  pvcLister IsControlledBy Profiles).

Lemma runThread_sound t s t' s' new : runThread t s = Some (t', s', new) ->
  threadStep (performs lessFn statusOrder nameOrder MaxExtenderPriority pvcLister IsControlledBy) t s t' s' new.
Proof.
  destruct t as [a|X c k|child k|]; cbn; try done.
  - destruct (perform X c s) as [[x s1]|] eqn:Hp; intros Hx; simplify_eq. exists x.
    split; [by apply perform_sound|done].
  - by intros [= <- <- <-].
Qed.

Lemma not_crash (cfg : config call system) : existsb isCrash (threads cfg) = false -> alive cfg.
Proof.
  intros Hc. apply list.Forall_forall. intros t Ht ->.
  assert (existsb isCrash (threads cfg) = true); [|congruence].
  apply existsb_exists. exists Crash. split; [|done]. by apply list_elem_of_In.
Qed.

Lemma choose_sound ch cfg cfg' : choose ch cfg = Some cfg' -> systemStep' cfg cfg'.
Proof.
  unfold choose. destruct (existsb isCrash (threads cfg)) eqn:Hc; [done|]. apply not_crash in Hc.
  destruct ch as [|i|nd|pod].
  - destruct (mainThread cfg) as [[]|X c k|child k|] eqn:Hm; [by intros [= <-]; apply StepLoop|..].
    all: match goal with |- context [runThread ?t _] => destruct (runThread t (shared cfg)) as [[[t' s] new]|] eqn:Hr end;
      [|done].
    all: intros [= <-]; apply StepMain; [done|rewrite Hm; by apply runThread_sound].
  - destruct (others cfg !! i) as [t0|] eqn:Hi; [|done].
    destruct (runThread t0 (shared cfg)) as [[[t s] new]|] eqn:Hr; [|done].
    intros [= <-]. eapply StepOther; [done..|by apply runThread_sound].
  - intros [= <-]. apply StepHandler; [done|apply (CallAddNode lessFn initialBackoff maxBackoff Profiles (NodeObject nd))].
  - destruct (unscheduledPodFilter Profiles (PodObject pod)) eqn:Hf; [|done].
    intros [= <-]. apply StepHandler; [done|by apply (CallAddPodToQueue lessFn initialBackoff maxBackoff Profiles (PodObject pod))].
Qed.

Lemma simulate_sound chs : forall cfg cfg', simulate chs cfg = Some cfg' -> rtc systemStep' cfg cfg'.
Proof.
  induction chs as [|ch chs IH]; intros cfg cfg'; cbn; [by intros [= <-]|].
  destruct (choose ch cfg) as [cfg1|] eqn:Hc; [|done]. intros Hs. eapply rtc_l; [by eapply choose_sound|]. by apply IH.
Qed.
End Simulator.

(** ** An example: one node and one pod that is scheduled to it *)
Definition noClient : ClientLib :=
  {| errorText _ := "error"; notFoundNode _ := None; UpdatePodCondition st _ := (false, st) |}.
Definition exampleProfile : profile :=
  {| prof_Name := "default-scheduler"; prof_Framework := exampleFramework; postFilterPlugins := [];
     reservePlugins := ["volumes"; "devices"]; permitPlugins := []; preBindPlugins := ["volumes"];
     bindPlugins := ["DefaultBinder"]; postBindPlugins := ["audit"] |}.
Definition exampleProfiles : gmap string (@profile exampleData) := {["default-scheduler" := exampleProfile]}.

(** Every plugin and the API server answer with success. *)
Definition allSucceed (X : Type) (c : @call exampleData X) : option X :=
  match c in call X return option X with
  | PostFilterCall _ _ _ => Some (None, None)
  | ReserveCall _ _ _ => Some None
  | UnreserveCall _ _ _ => Some tt
  | PermitCall _ _ _ => Some (None, 0%Z)
  | PreBindCall _ _ _ => Some None
  | BindCall _ _ _ => Some None
  | PostBindCall _ _ _ => Some tt
  | ExtenderBind _ _ _ => Some None
  | TimeNow => Some 5%Z
  | ListerGet _ _ => Some None
  | NodeIsGone _ => Some false
  | PatchPod _ _ => Some None
  | _ => None
  end.

Definition examplePod : Pod := simplePod "p2" "ns" "u2" "" [simpleContainer 500 100].
Definition oneNodeSchedule : schedule :=
  {| searchEvents := [StartPiece 0; FinishPiece 0]; scoreOrders := ([], [], []); extenderOrder := []; randoms := [] |}.
Definition exampleLess : QueuedPodInfo -> QueuedPodInfo -> bool := @PrioritySort_Less codePodPriority.

#[local] Existing Instance exampleLabels.
#[local] Existing Instance exampleData.
#[local] Existing Instance codePodPriority.
#[local] Existing Instance exampleKeys.
#[local] Existing Instance exampleEnvironment.
#[local] Existing Instance noClient.
#[local] Existing Instance exampleText.

Definition exampleSimulation (chs : list choice) : option (config call system) :=
  simulate exampleLess 1 10 (fun m => (map_to_list m).*2) id 10 (fun _ _ => inl "no claims") (fun _ _ => false)
    exampleProfiles oneNodeSchedule allSucceed chs (initial (newSystem 30 0 [] 0)).

(** The node and the pod arrive, and the loop runs until the pod is assumed. *)
Definition untilAssumed : list choice :=
  [AddNodeEvent (simpleNode "n1" 4000 8000 10); RunOther 0; RunOther 0; AddPodEvent examplePod; RunOther 1;
   RunMain; RunMain; RunMain; RunMain; RunMain].
(** The rest of the scheduling cycle and the binding cycle. *)
Definition untilBound : list choice :=
  untilAssumed ++ [RunMain; RunMain; RunMain; RunMain] ++ repeat (RunOther 2) 7.

(** The calls of the cache, by name. *)
Definition eventName (e : cacheEvent) : string :=
  match e with
  | EvAddNode nd => "add node " +:+ node_Name nd
  | EvAssume p => "assume " +:+ pod_Name p +:+ " on " +:+ nodeOfPod p
  | EvFinish p _ => "finish " +:+ pod_Name p
  | EvForget p => "forget " +:+ pod_Name p
  | _ => "other"
  end.
Definition eventNames (cfg : config call system) : list string := eventName <$> cacheLog (shared cfg).

Example assumed_log : eventNames <$> exampleSimulation untilAssumed = Some ["add node n1"; "assume p2 on n1"].
Proof. vm_compute. reflexivity. Qed.
Example bound_log : eventNames <$> exampleSimulation untilBound =
  Some ["add node n1"; "assume p2 on n1"; "finish p2"].
Proof. vm_compute. reflexivity. Qed.
