(* ===== verification/SchedulerSafety.v ===== *)
(** * What the scheduler promises about the pods it assumes

    A goroutine owes a pod when whatever is answered to its calls it will forget the pod
    or finish its binding.  Every assumed pod of the cache is owed by a goroutine until
    its binding has finished, however the goroutines, the informers and the timers
    interleave; and a pod is either bound or everything done for it is undone. *)
From S2P Require Import Prelude Api NodeInfo NodeTree Framework Goroutine Nominator PriorityQueue Cache CacheSpec Snapshot.
From S2P Require Import GenericScheduler WaitingPods Binding Scheduler EventHandlers QueueTheorems Simulator.
Local Open Scope Z_scope.

(** ** Goroutines that owe a pod *)
Section Owes.
Context `{StateData}.

(** The calls after which a pod [q] is no assumed pod with an unfinished binding. *)
Definition settles (q : Pod) {X} (c : call X) : Prop :=
  match c with
  | CacheCall (EvForget p) | CacheCall (EvFinish p _) => p = q
  | _ => False
  end.

Fixpoint owes {A : Type@{answer}} (q : Pod) (t : Go A) : Prop :=
  match t with
  | Return _ => False
  | Call c k => settles q c \/ forall x, owes q (k x)
  | Fork child k => owes q child \/ owes q k
  | Crash => True
  end.

(** A goroutine that assumes a pod owes it from then on. *)
Definition afterAssume {X} (c : call X) (owesAfter : Pod -> X -> Prop) : Prop :=
  match c in call X return (Pod -> X -> Prop) -> Prop with
  | CacheCall (EvAssume p) => fun f => f p (Ok tt)
  | _ => fun _ => True
  end owesAfter.

Fixpoint disciplined {A : Type@{answer}} (t : Go A) : Prop :=
  match t with
  | Return _ | Crash => True
  | Call c k => afterAssume c (fun p x => owes p (k x)) /\ forall x, disciplined (k x)
  | Fork child k => disciplined child /\ disciplined k
  end.

Lemma owes_bind {A B} q (t : Go A) (f : A -> Go B) :
  owes q t \/ (forall a, owes q (f a)) -> owes q (t ≫= f).
Proof.
  induction t as [A a|A X c k IH|A child _ k IHk|A]; intros [Ht|Hf]; try done.
  - apply Hf.
  - destruct Ht as [Hs|Hk]; [by left|]. right. intros x. apply IH. by left.
  - right. intros x. apply IH. by right.
  - destruct Ht as [Hc|Hk]; [by left|]. right. apply IHk. by left.
  - right. apply IHk. by right.
Qed.

Lemma owes_later {A B} q (t : Go A) (f : A -> Go B) : (forall a, owes q (f a)) -> owes q (t ≫= f).
Proof. intros Hf. apply owes_bind. by right. Qed.

(** A goroutine in which no pod is assumed. *)
Fixpoint assumesNothing {A : Type@{answer}} (t : Go A) : Prop :=
  match t with
  | Return _ | Crash => True
  | Call c k => afterAssume c (fun _ _ => False) /\ forall x, assumesNothing (k x)
  | Fork child k => assumesNothing child /\ assumesNothing k
  end.

Lemma assumesNothing_disciplined {A} (t : Go A) : assumesNothing t -> disciplined t.
Proof.
  induction t as [A a|A X c k IH|A child IHc k IHk|A]; intros Ht; try done.
  - destruct Ht as [Hc Hk]. split; [|auto]. destruct c; try done. by destruct e.
  - destruct Ht as [Hc Hk]. split; auto.
Qed.

Lemma assumesNothing_bind {A B} (t : Go A) (f : A -> Go B) :
  assumesNothing t -> (forall a, assumesNothing (f a)) -> assumesNothing (t ≫= f).
Proof.
  induction t as [A a|A X c k IH|A child _ k IHk|A]; intros Ht Hf; try done; [apply Hf|..].
  - destruct Ht as [Hc Hk]. split; [done|]. intros x. apply IH; [apply Hk|done].
  - destruct Ht as [Hc Hk]. split; [done|]. by apply IHk.
Qed.

Lemma disciplined_bind {A B} (t : Go A) (f : A -> Go B) :
  assumesNothing t -> (forall a, disciplined (f a)) -> disciplined (t ≫= f).
Proof.
  induction t as [A a|A X c k IH|A child _ k IHk|A]; intros Ht Hf; try done; [apply Hf|..].
  - destruct Ht as [Hc Hk]. split; [|intros x; apply IH; [apply Hk|done]].
    destruct c; try done. by destruct e.
  - destruct Ht as [Hc Hk]. split; [by apply assumesNothing_disciplined|]. by apply IHk.
Qed.

(** Calls that assume nothing. *)
Lemma assumesNothing_invoke {X} (c : call X) : afterAssume c (fun _ _ => False) -> assumesNothing (invoke c).
Proof. by split. Qed.

Lemma assumesNothing_cacheCall e : (forall p, e <> EvAssume p) -> assumesNothing (cacheCall e).
Proof. intros He. split; [destruct e; try done; by destruct (He p)|]. by intros []. Qed.

Lemma assumesNothing_queueCall {X} (m : Q X) : assumesNothing (queueCall m).
Proof. split; [done|]. by intros []. Qed.
End Owes.

Create HintDb nothing.
#[export] Hint Resolve assumesNothing_queueCall : nothing.
#[export] Hint Extern 1 (assumesNothing (invoke _)) => apply assumesNothing_invoke; exact I : nothing.
#[export] Hint Extern 1 (assumesNothing (cacheCall _)) => apply assumesNothing_cacheCall; discriminate : nothing.
#[export] Hint Extern 1 (assumesNothing (mret _)) => exact I : nothing.
#[export] Hint Extern 1 (assumesNothing (Return _)) => exact I : nothing.
#[export] Hint Extern 1 (assumesNothing Crash) => exact I : nothing.

(** Goes through a goroutine that assumes nothing. *)
Ltac nothing :=
  repeat (intros; cbv beta zeta; match goal with
  | |- assumesNothing (mbind _ _) => apply assumesNothing_bind
  | |- assumesNothing (match ?x with _ => _ end) => destruct x eqn:?
  | |- assumesNothing _ => solve [eauto 2 with nothing]
  end).

Section Programs.
Context `{LabelsLib, StateData, KeyLib, Environment, ClientLib}.
Context (lessFn : QueuedPodInfo -> QueuedPodInfo -> bool) (initialBackoff maxBackoff : Z)
  (statusOrder : gmap string Status -> list Status) (Profiles : gmap string profile).

Lemma postFilterLoop_nothing pls pod m : forall statuses, assumesNothing (postFilterLoop statusOrder pls pod m statuses).
Proof. induction pls; intros; cbn [postFilterLoop]; nothing.  Qed.
Lemma reserveLoop_nothing pls pod node : assumesNothing (reserveLoop pls pod node).
Proof. induction pls; cbn [reserveLoop]; nothing. Qed.
Lemma unreserveLoop_nothing pls pod node : assumesNothing (unreserveLoop pls pod node).
Proof. induction pls; cbn [unreserveLoop]; nothing. Qed.
Lemma permitLoop_nothing prof pls pod node : forall m c, assumesNothing (permitLoop prof pls pod node m c).
Proof. induction pls; intros; cbn [permitLoop]; nothing.  Qed.
Lemma preBindLoop_nothing pls pod node : assumesNothing (preBindLoop pls pod node).
Proof. induction pls; cbn [preBindLoop]; nothing. Qed.
Lemma bindLoop_nothing pls pod node : forall st, assumesNothing (bindLoop pls pod node st).
Proof. induction pls; intros; cbn [bindLoop]; nothing.  Qed.
Lemma postBindLoop_nothing pls pod node : assumesNothing (postBindLoop pls pod node).
Proof. induction pls; cbn [postBindLoop]; nothing. Qed.
Lemma extendersLoop_nothing extenders pod node : forall i, assumesNothing (extendersLoop i extenders pod node).
Proof. induction extenders; intros; cbn [extendersLoop]; nothing.  Qed.

#[local] Hint Resolve postFilterLoop_nothing reserveLoop_nothing unreserveLoop_nothing permitLoop_nothing
  preBindLoop_nothing bindLoop_nothing postBindLoop_nothing extendersLoop_nothing : nothing.

Lemma unreserve_nothing prof pod host : assumesNothing (RunReservePluginsUnreserve prof pod host).
Proof. apply unreserveLoop_nothing. Qed.
Lemma skipPodUpdate_nothing pod : assumesNothing (skipPodUpdate pod).
Proof. unfold skipPodUpdate. nothing. Qed.
Lemma skipPodSchedule_nothing pod : assumesNothing (skipPodSchedule pod).
Proof. unfold skipPodSchedule. destruct (DeletionTimestamp pod); [done|apply skipPodUpdate_nothing]. Qed.
Lemma errorFunc_nothing podInfo err : assumesNothing (ErrorFunc initialBackoff maxBackoff podInfo err).
Proof. unfold ErrorFunc. nothing. Qed.
Lemma updatePodStatus_nothing pod cond node : assumesNothing (updatePodStatus pod cond node).
Proof. unfold updatePodStatus. nothing. Qed.
#[local] Hint Resolve unreserve_nothing skipPodUpdate_nothing skipPodSchedule_nothing errorFunc_nothing
  updatePodStatus_nothing : nothing.

Lemma recordSchedulingFailure_nothing podInfo err reason node :
  assumesNothing (recordSchedulingFailure initialBackoff maxBackoff podInfo err reason node).
Proof. unfold recordSchedulingFailure. nothing. Qed.
Lemma finishBinding_nothing pod : assumesNothing (finishBinding pod).
Proof. unfold finishBinding. nothing. Qed.
Lemma waitOnPermit_nothing prof pod : assumesNothing (WaitOnPermit prof pod).
Proof. unfold WaitOnPermit. nothing. Qed.
Lemma runBindPlugins_nothing prof pod node : assumesNothing (RunBindPlugins prof pod node).
Proof. unfold RunBindPlugins. nothing. Qed.
Lemma extendersBinding_nothing pod node : assumesNothing (extendersBinding pod node).
Proof. unfold extendersBinding. nothing. Qed.
#[local] Hint Resolve recordSchedulingFailure_nothing finishBinding_nothing waitOnPermit_nothing
  runBindPlugins_nothing extendersBinding_nothing : nothing.

Lemma bind_nothing prof pod node : assumesNothing (bind prof pod node).
Proof. unfold bind. nothing. Qed.
Lemma undo_nothing prof podInfo host err reason :
  assumesNothing (undo initialBackoff maxBackoff prof podInfo host err reason).
Proof. unfold undo. nothing. Qed.
#[local] Hint Resolve bind_nothing undo_nothing : nothing.

Lemma bindingCycle_nothing prof podInfo host :
  assumesNothing (bindingCycle initialBackoff maxBackoff prof podInfo host).
Proof. unfold bindingCycle, RunPreBindPlugins, RunPostBindPlugins. nothing. Qed.
Lemma scheduleFailed_nothing prof podInfo err :
  assumesNothing (scheduleFailed initialBackoff maxBackoff statusOrder prof podInfo err).
Proof. unfold scheduleFailed, RunPostFilterPlugins. nothing. Qed.

(** *** Who owes the pod *)
Lemma finishBinding_owes pod : owes pod (finishBinding pod).
Proof. right. intros now. by left. Qed.

Lemma undo_owes prof podInfo host err reason :
  owes (qp_Pod podInfo) (undo initialBackoff maxBackoff prof podInfo host err reason).
Proof. unfold undo. apply owes_later. intros _. by left. Qed.

Lemma bind_owes prof pod node : owes pod (bind prof pod node).
Proof.
  unfold bind. apply owes_later. intros [bound err]. apply owes_later. intros err'.
  apply owes_bind. left. apply finishBinding_owes.
Qed.

Lemma bindingCycle_owes prof podInfo host :
  owes (qp_Pod podInfo) (bindingCycle initialBackoff maxBackoff prof podInfo host).
Proof.
  unfold bindingCycle. apply owes_later. intros st. destruct (negb (IsSuccess st)); [apply undo_owes|].
  apply owes_later. intros st'. destruct (negb (IsSuccess st')); [apply undo_owes|].
  apply owes_bind. left. apply bind_owes.
Qed.

(** After [AssumePod] the goroutine owes the pod. *)
Lemma assume_disciplined {B} pod host (f : Pod * option cacheError -> Go B) :
  owes (withNodeName pod host) (f (withNodeName pod host, None)) -> (forall a, disciplined (f a)) ->
  disciplined (assume pod host ≫= f).
Proof.
  intros Ho Hf. split.
  - right. intros [x|e|]; [exact Ho|exact Ho|exact I].
  - intros [[]|e|]; [|apply Hf|exact I]. split; [exact I|]. intros [x|e|]; [apply Hf|apply Hf|exact I].
Qed.

Lemma assumeAndBind_disciplined prof podInfo host :
  disciplined (assumeAndBind initialBackoff maxBackoff prof podInfo host).
Proof.
  unfold assumeAndBind. apply assume_disciplined.
  - apply owes_later. intros sts. destruct (negb (IsSuccess sts)).
    { apply (undo_owes prof (PriorityQueue.updatePod podInfo _)). }
    apply owes_later. intros st. destruct (_ && _).
    { apply (undo_owes prof (PriorityQueue.updatePod podInfo _)). }
    left. apply (bindingCycle_owes prof (PriorityQueue.updatePod podInfo _)).
  - intros [pod err]. apply assumesNothing_disciplined. destruct err; [apply recordSchedulingFailure_nothing|].
    apply assumesNothing_bind; [apply reserveLoop_nothing|]. intros sts.
    destruct (negb (IsSuccess sts)); [apply undo_nothing|].
    apply assumesNothing_bind; [apply permitLoop_nothing|]. intros st.
    destruct (_ && _); [apply undo_nothing|]. split; [apply bindingCycle_nothing|exact I].
Qed.

Lemma scheduleOne_disciplined : disciplined (scheduleOne initialBackoff maxBackoff statusOrder Profiles).
Proof.
  unfold scheduleOne. apply disciplined_bind; [by apply assumesNothing_invoke|].
  intros [[podInfo|]| |]; try exact I. destruct (profileForPod Profiles (qp_Pod podInfo)) as [prof|]; [|exact I].
  apply disciplined_bind; [apply skipPodSchedule_nothing|]. intros []; [exact I|].
  apply disciplined_bind; [by apply assumesNothing_invoke|].
  intros [r|err|]; [apply assumeAndBind_disciplined| |exact I].
  apply assumesNothing_disciplined, scheduleFailed_nothing.
Qed.

Lemma informerCall_nothing h : informerCall lessFn initialBackoff maxBackoff Profiles h -> assumesNothing h.
Proof.
  intros []; unfold addPodToCache, updatePodInCache, deletePodFromCache, addPodToSchedulingQueue,
    updatePodInSchedulingQueue, deletePodFromSchedulingQueue, addNodeToCache, updateNodeInCache,
    deleteNodeFromCache, onCSINodeAdd, onCSINodeUpdate, onPvAdd, onPvUpdate, onPvcAdd, onPvcUpdate, onServiceAdd,
    onServiceUpdate, onServiceDelete, onStorageClassAdd, moveAll, queueDo, cacheDo; nothing.
  all: unfold deletePodFromCache, addPodToCache, moveAll, queueDo, cacheDo; nothing.
Qed.
End Programs.

(** ** The cache in the system *)

(** The spec of a pod, up to its node, is known from its UID. *)
Definition specOf (spec : string -> PodSpec) (p : Pod) : Prop :=
  pod_Spec p = specOnNode (spec (pod_UID p)) (nodeOfPod p).

(** What is assumed of the events of the cache: the pods that the scheduler assumes and
    forgets and those that informers add have the spec of their UID, and the other events
    of the informers are valid. *)
Definition informedEvent (spec : string -> PodSpec) (a : absCache) (e : cacheEvent) : Prop :=
  match e with
  | EvAssume p | EvForget p | EvAdd p => specOf spec p
  | _ => validEvent a e
  end.

Fixpoint informed (spec : string -> PodSpec) (ttl : Z) (log : list cacheEvent) (a : absCache) : Prop :=
  match log with
  | [] => True
  | e :: log => informedEvent spec a e /\ informed spec ttl log (absStep ttl e a).2
  end.

Definition absOf (ttl : Z) (log : list cacheEvent) (a : absCache) : absCache :=
  foldl (fun a e => (absStep ttl e a).2) a log.

Lemma informed_app spec ttl l1 l2 : forall a,
  informed spec ttl (l1 ++ l2) a <-> informed spec ttl l1 a /\ informed spec ttl l2 (absOf ttl l1 a).
Proof. induction l1 as [|e l1 IH]; intros a; cbn [app informed]; [tauto|]. rewrite IH. unfold absOf. cbn. tauto. Qed.

Lemma absOf_snoc ttl l e a : absOf ttl (l ++ [e]) a = (absStep ttl e (absOf ttl l a)).2.
Proof. unfold absOf. by rewrite foldl_app. Qed.

Lemma runCost_snoc l e : runCost (l ++ [e]) = runCost l + cost e.
Proof.
  unfold runCost. induction l as [|x l IH]; cbn [app sumOver foldr] in *; [unfold sumOver; cbn; lia|].
  unfold sumOver in *. cbn [app foldr]. lia.
Qed.

(** Keys are UIDs, and assumed pods have the spec of their UID. *)
Definition keyed (a : absCache) : Prop := forall k ph p, absPods a !! k = Some (ph, p) -> pod_UID p = k /\ k <> "".
Definition assumedSpecs (spec : string -> PodSpec) (a : absCache) : Prop :=
  forall k d q, absPods a !! k = Some (Assumed d, q) -> specOf spec q.

Lemma informed_valid spec a e : keyed a -> assumedSpecs spec a -> informedEvent spec a e -> validEvent a e.
Proof.
  intros Hk Hs. destruct e as [p|p now|p|p|old new|p|now keys|nd|old nd|nd]; try done; cbn.
  all: intros Hp d q Hq Hn; rewrite Hp, (Hs _ _ _ Hq), (proj1 (Hk _ _ _ Hq)); by rewrite Hn.
Qed.

(** The only event that makes an assumed pod with an unfinished binding is its assumption;
    an event that settles it ends it. *)
Lemma absStep_unfinished `{StateData} ttl e a k q : keyed a ->
  absPods (absStep ttl e a).2 !! k = Some (Assumed None, q) ->
  (absPods a !! k = Some (Assumed None, q) /\ ~ settles q (CacheCall e)) \/
  (e = EvAssume q /\ (absStep ttl e a).1 = Ok tt).
Proof.
  intros Hkey. pose proof (fun Hq => Hkey k (Assumed None) q Hq) as Hq.
  destruct e as [p|p now|p|p|old new|p|now keys|nd|old nd|nd]; cbn [absStep settles];
    try destruct (decide (pod_UID _ = "")) as [He|He]; cbn [snd fst].
  - tauto.
  - destruct (absPods a !! pod_UID p) eqn:Hp; cbn; [tauto|].
    intros [[_ [= <-]]|[_ ?]]%lookup_insert_Some; tauto.
  - intros Hk. left. split; [done|]. intros ->. by destruct (Hq Hk) as [<- ?].
  - destruct (absPods a !! pod_UID p) as [[[d|] x]|] eqn:Hp; cbn.
    + intros [[_ ?]|[Hn Hk]]%lookup_insert_Some; [done|]. left. split; [done|]. intros ->.
      by destruct (Hq Hk) as [<- ?].
    + intros Hk. left. split; [done|]. intros ->. destruct (Hq Hk) as [<- _]. congruence.
    + intros Hk. left. split; [done|]. intros ->. destruct (Hq Hk) as [<- _]. congruence.
  - intros Hk. left. split; [done|]. intros ->. by destruct (Hq Hk) as [<- ?].
  - destruct (absPods a !! pod_UID p) as [[ph x]|] eqn:Hp; cbn.
    + case_decide as Hn; cbn; [|destruct ph as [d|]; cbn].
      * intros Hk. left. split; [done|]. intros ->. destruct (Hq Hk) as [<- _]. congruence.
      * intros [Hn' Hk]%lookup_delete_Some. left. split; [done|]. intros ->. by destruct (Hq Hk) as [<- ?].
      * intros Hk. left. split; [done|]. intros ->. destruct (Hq Hk) as [<- _]. congruence.
    + intros Hk. left. split; [done|]. intros ->. destruct (Hq Hk) as [<- _]. congruence.
  - tauto.
  - destruct (absPods a !! pod_UID p) as [[[d|] x]|]; cbn; try tauto;
      intros [[_ ?]|[_ ?]]%lookup_insert_Some; try done; tauto.
  - tauto.
  - destruct (absPods a !! pod_UID old) as [[[d|] x]|]; cbn; try tauto. case_decide; cbn; [tauto|].
    intros [[_ ?]|[_ ?]]%lookup_insert_Some; try done; tauto.
  - tauto.
  - destruct (absPods a !! pod_UID p) as [[[d|] x]|]; cbn; try tauto. case_decide; cbn; [tauto|].
    intros [_ ?]%lookup_delete_Some; tauto.
  - intros [Hk _]%map_lookup_filter_Some. tauto.
  - tauto.
  - tauto.
  - destruct (absNodes a !! node_Name nd); cbn; tauto.
Qed.

Lemma absStep_assumedSpecs spec ttl e a : keyed a -> assumedSpecs spec a -> informedEvent spec a e ->
  assumedSpecs spec (absStep ttl e a).2.
Proof.
  intros Hkey Hs Hi k d q.
  destruct e as [p|p now|p|p|old new|p|now keys|nd|old nd|nd]; cbn [absStep];
    try destruct (decide (pod_UID _ = "")) as [He|He]; cbn [snd fst]; try apply Hs.
  - destruct (absPods a !! pod_UID p) eqn:Hp; cbn; [apply Hs|].
    intros [[_ [= <- <-]]|[_ ?]]%lookup_insert_Some; [done|by eapply Hs].
  - destruct (absPods a !! pod_UID p) as [[[d'|] x]|] eqn:Hp; cbn; try apply Hs.
    intros [[_ [= <- <-]]|[_ ?]]%lookup_insert_Some; by eapply Hs.
  - destruct (absPods a !! pod_UID p) as [[ph x]|]; cbn; [|apply Hs].
    case_decide; [apply Hs|]. destruct ph; cbn; [|apply Hs]. intros [_ ?]%lookup_delete_Some. by eapply Hs.
  - destruct (absPods a !! pod_UID p) as [[[d'|] x]|]; cbn; try apply Hs;
      intros [[_ ?]|[_ ?]]%lookup_insert_Some; try done; by eapply Hs.
  - destruct (absPods a !! pod_UID old) as [[[d'|] x]|]; cbn; try apply Hs. case_decide; cbn; [apply Hs|].
    intros [[_ ?]|[_ ?]]%lookup_insert_Some; try done; by eapply Hs.
  - destruct (absPods a !! pod_UID p) as [[[d'|] x]|]; cbn; try apply Hs. case_decide; cbn; [apply Hs|].
    intros [_ ?]%lookup_delete_Some; by eapply Hs.
  - intros [Hk _]%map_lookup_filter_Some. by eapply Hs.
  - destruct (absNodes a !! node_Name nd); cbn; apply Hs.
Qed.

(** *** A snapshot does not touch what the cache stands for *)
Lemma listNodes_shape n s : forall nt all have nt' all' have',
  treeInv nt -> listNodes n nt s all have = Some (nt', all', have') -> sameShape nt nt'.
Proof.
  induction n as [|n IH]; intros nt all have nt' all' have' Hi; cbn [listNodes].
  { by intros [= <- _ _]. }
  destruct (next_total nt Hi) as (x&nt1&->&Hs). intros Hl. etrans; [exact Hs|].
  pose proof (sameShape_inv _ _ Hs Hi) as Hi1.
  destruct (nodeInfoMap s !! x); by eapply IH.
Qed.

(** The caches that differ at most in the iterator of the tree. *)
Definition sameCache (c c' : schedulerCache) : Prop :=
  exists nt, c' = withTree c nt /\ (treeInv (cacheTree c) -> sameShape (cacheTree c) nt).

Lemma sameCache_refl c : sameCache c c.
Proof. exists (cacheTree c). split; [by destruct c|done]. Qed.

Lemma sameCache_trans c1 c2 c3 : sameCache c1 c2 -> sameCache c2 c3 -> sameCache c1 c3.
Proof.
  intros (nt&->&Hs) (nt'&->&Hs'). exists nt'. split; [done|]. intros Hi. etrans; [by apply Hs|].
  apply Hs'. cbn. by eapply sameShape_inv; [apply Hs|].
Qed.

Lemma updateList_same c s all c' s' : updateNodeInfoSnapshotList c s all = Some (c', s') -> sameCache c c'.
Proof.
  unfold updateNodeInfoSnapshotList. destruct all; [|intros [= <- _]; apply sameCache_refl].
  destruct (listNodes _ _ _ _ _) as [[[nt ls] have]|] eqn:Hl; [|done]. bind_simpl. intros [= <- _].
  exists nt. split; [done|]. intros Hi. etrans; [apply sameShape_reset|].
  eapply listNodes_shape, Hl. by eapply sameShape_inv; [apply sameShape_reset|].
Qed.

Lemma updateSnapshot_same nameOrder c s r c' s' : UpdateSnapshot nameOrder c s = Some (r, (c', s')) -> sameCache c c'.
Proof.
  unfold UpdateSnapshot. destruct (updateEntries _ _ _ _ _) as [[[s1 all] aff]|]; [|done]. bind_simpl.
  set (deleted := _ <? _). set (s3 := if deleted then removeDeletedNodesFromSnapshot _ _ _ else _).
  set (all' := if deleted then true else all).
  assert (H4 : forall c4 s4, (if all' || aff then updateNodeInfoSnapshotList c s3 all' else Some (c, s3)) = Some (c4, s4) ->
    sameCache c c4).
  { intros c4 s4. destruct (all' || aff); [apply updateList_same|]. intros [= <- _]. apply sameCache_refl. }
  destruct (if all' || aff then _ else _) as [[c4 s4]|]; [|done]. bind_simpl.
  specialize (H4 _ _ eq_refl). case_decide; [by intros [= _ <- _]|].
  destruct (updateNodeInfoSnapshotList c4 s4 true) as [[c5 s5]|] eqn:E5; [|done]. bind_simpl.
  intros [= _ <- _]. eapply sameCache_trans; [exact H4|]. by eapply updateList_same.
Qed.

(** ** The invariant of the program *)
Section Invariant.
Context `{LabelsLib, StateData, PodPriority, KeyLib, Environment, ClientLib, DurationText}.
Context (lessFn : QueuedPodInfo -> QueuedPodInfo -> bool) (initialBackoff maxBackoff : Z)
  (statusOrder : gmap string Status -> list Status) (nameOrder : list string -> list string)
  (MaxExtenderPriority : Z) (pvcLister : string -> string -> string + Claim)
  (IsControlledBy : Claim -> Pod -> bool) (Profiles : gmap string profile).

Abbreviation performs' :=
  (performs lessFn statusOrder nameOrder MaxExtenderPriority pvcLister IsControlledBy).

Lemma schedule_same f npm run state pod g x g' st :
  Schedule statusOrder nameOrder MaxExtenderPriority pvcLister IsControlledBy f npm run state pod g = Some (x, g', st) ->
  sameCache (scheduler_cache g) (scheduler_cache g').
Proof.
  unfold Schedule. destruct (podPassesBasicChecks _ _ _); [intros [= _ <- _]; apply sameCache_refl|].
  destruct (UpdateSnapshot _ _ _) as [[updated [c s]]|] eqn:Hu; bind_simpl; [|done].
  apply updateSnapshot_same in Hu. destruct updated as [?|?|]; [|by intros [= _ <- _]..].
  destruct (_ =? 0); [by intros [= _ <- _]|]. destruct (snapshotNodes s); bind_simpl; [|done].
  destruct (findNodesThatFitPod _ _ _ _ _ _ _ _ _ _ _) as [[[found next] s1]|]; bind_simpl; [|done].
  destruct found as [[[|nd nodes] sts]|e|]; try by intros [= _ <- _].
  destruct (selectNode _ _ _ _ _ _ _ _) as [res s2]. by intros [= _ <- _].
Qed.

(** What a step does to the cache: one event, or nothing that matters. *)
Definition cacheEffect (s : system) (o : option cacheEvent) (s' : system) : Prop :=
  match o with
  | Some e => s' = withCache s (cacheStep e (cacheOf s)).2 (cacheLog s ++ [e])
  | None => cacheLog s' = cacheLog s /\ sameCache (cacheOf s) (cacheOf s')
  end.

Definition eventOf {X} (c : call X) : option cacheEvent := match c with CacheCall e => Some e | _ => None end.

Lemma performs_effect X (c : call X) s x s' : performs' X c s x s' -> cacheEffect s (eventOf c) s'.
Proof.
  destruct c; cbn; try (intros ->; split; [done|apply sameCache_refl]); try (intros [_ ->]).
  - done.
  - split; [done|apply sameCache_refl].
  - split; [done|apply sameCache_refl].
  - split; [done|apply sameCache_refl].
  - intros (r&q&_&->&_). split; [done|apply sameCache_refl].
  - intros (run&g&st&Hs&->). split; [done|]. by eapply schedule_same.
  - split; [done|apply sameCache_refl].
  - split; [done|apply sameCache_refl].
  - intros (m&_&->). split; [done|apply sameCache_refl].
Qed.

Lemma external_effect s s' : external lessFn initialBackoff maxBackoff s s' ->
  exists o, cacheEffect s o s' /\ forall p, o <> Some (EvAssume p).
Proof.
  intros [].
  - exists None. split; [|done]. split; [done|apply sameCache_refl].
  - by exists (Some (EvCleanup now keys)).
  - exists None. split; [|done]. split; [done|apply sameCache_refl].
  - exists None. split; [|done]. split; [done|apply sameCache_refl].
Qed.

(** What a step of a goroutine does to what is owed. *)
Lemma threadStep_spec (t : Go unit) s t' s' new : disciplined t -> threadStep performs' t s t' s' new ->
  exists o, cacheEffect s o s' /\ Forall disciplined (t' :: new) /\
    (forall q, owes q t -> (exists e, o = Some e /\ settles q (CacheCall e)) \/ Exists (owes q) (t' :: new)) /\
    (forall p, o = Some (EvAssume p) -> (cacheStep (EvAssume p) (cacheOf s)).1 = Ok tt -> owes p t').
Proof.
  intros Hd. destruct t as [a|X c k|child k|]; try done.
  - intros (x&Hx&->&->). pose proof (performs_effect _ _ _ _ _ Hx) as He. destruct Hd as [Ha Hk].
    exists (eventOf c). split_and!; [done|by constructor| |].
    + intros q [Hs|Ho]; [|right; by left]. left. destruct c; try done. by exists e.
    + intros p. destruct c; try done. intros [= ->] Hr. cbn in Hx, Ha. destruct Hx as [-> _].
      cbn in Hr. rewrite Hr. exact Ha.
  - intros (->&->&->). exists None. destruct Hd as [Hc Hk]. split_and!; [|by repeat constructor| |done].
    + split; [done|apply sameCache_refl].
    + intros q [Ho|Ho]; right; [right; by left|by left].
Qed.

Context (spec : string -> PodSpec) (ttl0 g0 : Z).

(** The assumptions on the events so far. *)
Definition goodLog (log : list cacheEvent) : Prop :=
  informed spec ttl0 log emptyAbs /\ g0 + runCost log <= max_int64.

Abbreviation absNow s := (absOf ttl0 (cacheLog s) emptyAbs).

Record cacheInv (s : system) : Prop := {
  ci_refines : refines (cacheOf s) (absNow s);
  ci_ttl : ttl (cacheOf s) = ttl0;
  ci_generation : generation (cacheOf s) <= g0 + runCost (cacheLog s);
  ci_specs : assumedSpecs spec (absNow s)
}.

Lemma refines_keyed c a : refines c a -> keyed a.
Proof. intros Hr k ph p Hk. by eapply pl_key; [apply (rf_placed _ _ Hr)|]. Qed.

Lemma goodLog_prefix l1 l2 : goodLog (l1 ++ l2) -> goodLog l1.
Proof.
  intros [Hi Hc]. apply informed_app in Hi as [Hi _]. split; [done|].
  assert (runCost (l1 ++ l2) = runCost l1 + runCost l2) as Hs.
  { clear. unfold runCost. induction l1 as [|x l1 IH]; cbn; [done|]. unfold sumOver in *. cbn. lia. }
  pose proof (runCost_nonneg l2). lia.
Qed.

Lemma cacheEffect_log s o s' : cacheEffect s o s' -> exists l, cacheLog s' = cacheLog s ++ l.
Proof. destruct o as [e|]; [intros ->; by exists [e]|]. intros [-> _]. exists []. by rewrite app_nil_r. Qed.

Lemma cacheOf_withCache s c l : cacheOf (withCache s c l) = c.
Proof. done. Qed.
Lemma cacheLog_withCache s c l : cacheLog (withCache s c l) = l.
Proof. done. Qed.

Lemma cacheEffect_inv s o s' : cacheEffect s o s' -> goodLog (cacheLog s') -> cacheInv s -> cacheInv s'.
Proof.
  intros He Hgood [Hr Ht Hg Hs]. pose proof (refines_keyed _ _ Hr) as Hk. destruct o as [e|].
  - cbn in He. subst s'. destruct Hgood as [Hi Hc]. cbn in Hi, Hc. apply informed_app in Hi as (Hi&He&_).
    rewrite runCost_snoc in Hc.
    destruct (step_refines e (cacheOf s) (absNow s) Hr (informed_valid _ _ _ Hk Hs He) ltac:(lia))
      as (_&Hr'&_&Ht'&Hg'). rewrite Ht in Hr'.
    split; rewrite ?cacheOf_withCache, ?cacheLog_withCache, ?absOf_snoc, ?runCost_snoc; [done|congruence|lia|].
    by apply absStep_assumedSpecs.
  - destruct He as [Hl (nt&Hc&Hsh)]. split; rewrite ?Hl, ?Hc; [|done..].
    apply refines_withTree; [done|]. apply Hsh, (rf_tree _ _ Hr).
Qed.

(** Every assumed pod with an unfinished binding is owed by a goroutine. *)
Definition allOwed (s : system) (ts : list (Go unit)) : Prop :=
  forall k q, absPods (absNow s) !! k = Some (Assumed None, q) -> Exists (owes q) ts.

Record programInv (cfg : config call system) : Prop := {
  pi_cache : cacheInv (shared cfg);
  pi_disciplined : Forall disciplined (threads cfg);
  pi_owed : allOwed (shared cfg) (threads cfg)
}.

(** An effect on the cache keeps the pods owed, if the goroutines that are left owe them
    unless they have been settled. *)
Lemma owed_step s o s' (ts ts' : list (Go unit)) :
  cacheInv s -> goodLog (cacheLog s') -> cacheEffect s o s' ->
  allOwed s ts ->
  (forall q, Exists (owes q) ts -> (exists e, o = Some e /\ settles q (CacheCall e)) \/ Exists (owes q) ts') ->
  (forall p, o = Some (EvAssume p) -> (cacheStep (EvAssume p) (cacheOf s)).1 = Ok tt -> Exists (owes p) ts') ->
  allOwed s' ts'.
Proof.
  intros [Hr Ht Hg _] [_ Hcost] He Hts Hkeep Hnew k q. destruct o as [e|].
  - cbn in He. subst s'. rewrite cacheLog_withCache in *. rewrite absOf_snoc. rewrite runCost_snoc in Hcost.
    cbn [cost] in Hcost. intros Hq.
    destruct (absStep_unfinished ttl0 e (absNow s) k q (refines_keyed _ _ Hr) Hq) as [[Hold Hns]|[-> Hok]].
    + destruct (Hkeep q (Hts k q Hold)) as [(e'&[= <-]&Hs)|Ho]; [by destruct Hns|exact Ho].
    + apply Hnew; [done|].
      destruct (step_refines (EvAssume q) (cacheOf s) (absNow s) Hr I ltac:(lia)) as [-> _]. by rewrite Ht.
  - destruct He as [Hl _]. rewrite Hl. intros Hq.
    by destruct (Hkeep q (Hts k q Hq)) as [(?&?&_)|Ho].
Qed.

Abbreviation body := (scheduleOne initialBackoff maxBackoff statusOrder Profiles).
Abbreviation systemStep' := (systemStep lessFn initialBackoff maxBackoff statusOrder nameOrder MaxExtenderPriority
  pvcLister IsControlledBy Profiles).

Lemma programInv_step cfg cfg' : systemStep' cfg cfg' -> goodLog (cacheLog (shared cfg')) -> programInv cfg -> programInv cfg'.
Proof.
  intros Hstep Hgood [Hc Hd Ho]. destruct cfg as [s main ts]. unfold threads in *. cbn in *.
  apply Forall_cons in Hd as [Hdm Hdt].
  inversion Hstep as [t s' new _ Ht|_ Hm|i t0 t s' new _ Hi Ht|h _ Hh|s' _ He]; subst; clear Hstep; cbn in *.
  - destruct (threadStep_spec _ _ _ _ _ Hdm Ht) as (o&He&Hds&Hkeep&Hnew).
    apply Forall_cons in Hds as [Hdt' Hdn].
    assert (Hex : forall q, Exists (owes q) (t :: new) -> Exists (owes q) (t :: ts ++ new)).
    { intros q. rewrite !Exists_cons, Exists_app. tauto. }
    split; cbn; [by eapply cacheEffect_inv| |].
    + constructor; [done|]. by apply Forall_app.
    + apply (owed_step s o s' (main :: ts) (t :: ts ++ new)); try done.
      * intros q [Hq|Hq]%Exists_cons; [destruct (Hkeep q Hq); [by left|right; by apply Hex]|].
        right. rewrite Exists_cons, Exists_app. tauto.
      * intros p Hp Hr. left. by apply Hnew.
  - subst main. split; cbn; [done| |].
    + constructor; [apply scheduleOne_disciplined|done].
    + intros k q Hq. specialize (Ho k q Hq). apply Exists_cons in Ho as [[]|Ho]. by right.
  - destruct (threadStep_spec t0 _ _ _ _ ltac:(by eapply Forall_lookup) Ht) as (o&He&Hds&Hkeep&Hnew).
    apply Forall_cons in Hds as [Hdt' Hdn].
    assert (Hex : forall q, Exists (owes q) (t :: new) -> Exists (owes q) (main :: <[i:=t]> ts ++ new)).
    { intros q [Hq|Hq]%Exists_cons; rewrite Exists_cons, Exists_app; [|tauto]. right. left.
      apply list.Exists_exists. exists t. split; [|done]. eapply list_elem_of_lookup_2, list_lookup_insert_eq.
      by eapply lookup_lt_Some. }
    split; cbn; [by eapply cacheEffect_inv| |].
    + constructor; [done|]. apply Forall_app. split; [|done]. by apply Forall_insert.
    + apply (owed_step s o s' (main :: ts) (main :: <[i:=t]> ts ++ new)); try done.
      * intros q [Hq|Hq]%Exists_cons; [right; by left|].
        apply list.Exists_exists in Hq as (u&[j Hj]%list_elem_of_lookup&Hu).
        destruct (decide (j = i)) as [->|Hne].
        -- rewrite Hi in Hj. injection Hj as <-. destruct (Hkeep q Hu); [by left|right; by apply Hex].
        -- right. right. apply Exists_app. left. apply list.Exists_exists. exists u. split; [|done].
           eapply list_elem_of_lookup_2. by rewrite list_lookup_insert_ne.
      * intros p Hp Hr. apply Hex. left. by apply Hnew.
  - split; cbn; [done| |].
    + constructor; [done|]. apply Forall_app. split; [done|]. constructor; [|done].
      eapply assumesNothing_disciplined, informerCall_nothing, Hh.
    + intros k q Hq. specialize (Ho k q Hq). change (Exists (owes q) (main :: ts ++ [h])).
      rewrite Exists_cons, Exists_app. apply Exists_cons in Ho. tauto.
  - destruct (external_effect _ _ He) as (o&Heff&Hno).
    split; cbn; [by eapply cacheEffect_inv|by constructor|].
    apply (owed_step s o s' (main :: ts) (main :: ts)); try done.
    + intros q Hq. by right.
    + intros p Hp. by apply Hno in Hp.
Qed.

Lemma cacheInv_new extenders percentage : 0 <= g0 -> cacheInv (newSystem ttl0 g0 extenders percentage).
Proof.
  intros Hg. split; [by apply refines_empty|done| |].
  - cbn. unfold runCost, sumOver. cbn. lia.
  - intros k d q. cbn. by rewrite lookup_empty.
Qed.

Lemma threadStep_log (t : Go unit) s t' s' new : threadStep performs' t s t' s' new ->
  exists l, cacheLog s' = cacheLog s ++ l.
Proof.
  destruct t as [a|X c k|child k|]; try done.
  - intros (x&Hx&_). eapply cacheEffect_log, performs_effect, Hx.
  - intros (->&_). exists []. by rewrite app_nil_r.
Qed.

Lemma step_log cfg cfg' : systemStep' cfg cfg' -> exists l, cacheLog (shared cfg') = cacheLog (shared cfg) ++ l.
Proof.
  intros Hstep. destruct cfg as [s main ts].
  inversion Hstep as [t s' new _ Ht|_ Hm|i t0 t s' new _ Hi Ht|h _ Hh|s' _ He]; subst; cbn in *;
    try by (exists []; rewrite app_nil_r).
  - by eapply threadStep_log.
  - by eapply threadStep_log.
  - destruct (external_effect _ _ He) as (o&Heff&Hno). by eapply cacheEffect_log.
Qed.

Lemma programInv_reachable extenders percentage cfg : 0 <= g0 ->
  rtc systemStep' (initial (newSystem ttl0 g0 extenders percentage)) cfg ->
  goodLog (cacheLog (shared cfg)) -> programInv cfg.
Proof.
  intros Hg Hrtc.
  refine (rtc_ind_r (fun cfg => goodLog (cacheLog (shared cfg)) -> programInv cfg) _ _ _ _ Hrtc);
    clear cfg Hrtc.
  - intros _. split; [by apply cacheInv_new|by repeat constructor|]. intros k q. cbn. by rewrite lookup_empty.
  - intros y z _ Hstep IH Hgood. destruct (step_log _ _ Hstep) as [l Hl]. eapply programInv_step; [done..|].
    apply IH. rewrite Hl in Hgood. by eapply goodLog_prefix.
Qed.

(** What the invariant says of the tables of the cache. *)
Lemma unfinished_is_owed cfg k ps : programInv cfg ->
  podStates (cacheOf (shared cfg)) !! k = Some ps -> isAssumed (cacheOf (shared cfg)) k = true ->
  bindingFinished ps = false ->
  absPods (absNow (shared cfg)) !! k = Some (Assumed None, ps_pod ps) /\ Exists (owes (ps_pod ps)) (threads cfg).
Proof.
  intros [[Hr _ _ _] _ Ho] Hk Ha Hb. pose proof (rf_table _ _ Hr k) as Ht. unfold isAssumed in Ha.
  rewrite Hk in Ht. unfold entryOk in Ht. destruct (absPods (absNow (shared cfg)) !! k) as [[[d|] q]|] eqn:Hq.
  - destruct Ht as [_ [= ->]]. cbn in *. destruct d; [done|]. split; [done|]. by eapply Ho.
  - destruct Ht as [Hn _]. by rewrite Hn in Ha.
  - by destruct Ht.
Qed.
End Invariant.

(** C32: However the scheduling loop, the binding goroutines, the handlers of the informers,
    the timers and the background work of the cache and the queue interleave, an assumed
    pod of the cache whose binding has not finished is owed by a running goroutine: whatever
    its calls are answered, it will forget that pod or finish its binding.  So no capacity
    is lost for ever: when no goroutine runs, every assumed pod has a deadline. *)
Theorem no_assumed_pod_is_lost `{LabelsLib, StateData, PodPriority, KeyLib, Environment, ClientLib, DurationText}
    (lessFn : QueuedPodInfo -> QueuedPodInfo -> bool) (initialBackoff maxBackoff : Z)
    (statusOrder : gmap string Status -> list Status) (nameOrder : list string -> list string)
    (MaxExtenderPriority : Z) (pvcLister : string -> string -> string + Claim)
    (IsControlledBy : Claim -> Pod -> bool) (Profiles : gmap string profile)
    (spec : string -> PodSpec) (ttl0 g0 : Z) (extenders : list Extender) (percentage : Z)
    (cfg : config call system) :
  0 <= g0 ->
  rtc (systemStep lessFn initialBackoff maxBackoff statusOrder nameOrder MaxExtenderPriority pvcLister
    IsControlledBy Profiles) (initial (newSystem ttl0 g0 extenders percentage)) cfg ->
  informed spec ttl0 (cacheLog (shared cfg)) emptyAbs ->
  g0 + runCost (cacheLog (shared cfg)) <= max_int64 ->
  let c := cacheOf (shared cfg) in
  (forall k ps, podStates c !! k = Some ps -> isAssumed c k = true -> bindingFinished ps = false ->
     exists t, t ∈ threads cfg /\ owes (ps_pod ps) t) /\
  (mainThread cfg = Return tt -> others cfg = [] ->
     forall k ps, podStates c !! k = Some ps -> isAssumed c k = true -> exists dl, deadline ps = Some dl).
Proof.
  intros Hg Hrtc Hi Hcost c.
  assert (Hinv : programInv spec ttl0 g0 cfg) by (by eapply programInv_reachable).
  assert (Howed : forall k ps, podStates c !! k = Some ps -> isAssumed c k = true -> bindingFinished ps = false ->
     exists t, t ∈ threads cfg /\ owes (ps_pod ps) t).
  { intros k ps Hk Ha Hb. destruct (unfinished_is_owed _ _ _ _ _ _ Hinv Hk Ha Hb) as [_ Ho].
    by apply list.Exists_exists in Ho. }
  split; [exact Howed|]. intros Hm Hts k ps Hk Ha. pose proof (rf_table _ _ (ci_refines _ _ _ _ (pi_cache _ _ _ _ Hinv)) k) as Ht.
  fold c in Ht. rewrite Hk in Ht. destruct (bindingFinished ps) eqn:Hb.
  - unfold isAssumed in Ha. unfold entryOk in Ht.
    destruct (absPods _ !! k) as [[[d|] q]|]; [|destruct Ht as [Hn _]; by rewrite Hn in Ha|by destruct Ht].
    destruct Ht as [_ [= ->]]. cbn in *. destruct d as [dl|]; [by exists dl|done].
  - destruct (Howed k ps Hk Ha Hb) as (t&Hin&Ho). unfold threads in Hin. rewrite Hm, Hts in Hin.
    apply list_elem_of_singleton in Hin as ->. done.
Qed.

(** ** Witnesses *)
#[local] Existing Instance exampleLabels.
#[local] Existing Instance exampleData.
#[local] Existing Instance codePodPriority.
#[local] Existing Instance exampleKeys.
#[local] Existing Instance exampleEnvironment.
#[local] Existing Instance noClient.
#[local] Existing Instance exampleText.

Definition exampleSpec (uid : string) : PodSpec := pod_Spec examplePod.

(** The log of the example up to the assumption of its pod. *)
Definition assumedLog (log : list cacheEvent) : bool :=
  match log with
  | [EvAddNode _; EvAssume p] => bool_decide (pod_Spec p = specOnNode (pod_Spec examplePod) (nodeOfPod p))
  | _ => false
  end.

Lemma assumedLog_good log : assumedLog log = true ->
  informed exampleSpec 30 log emptyAbs /\ 0 + runCost log <= max_int64.
Proof.
  destruct log as [|[] [|[] [|]]]; try discriminate. cbn [assumedLog]. intros Hp%bool_decide_eq_true_1.
  split; [|vm_compute; discriminate]. split; [exact I|]. split; [exact Hp|exact I].
Qed.

(** The state of the pod in the cache of the example. *)
Definition unfinishedPod (cfg : config call system) : bool :=
  match podStates (cacheOf (shared cfg)) !! "u2" with
  | Some ps => isAssumed (cacheOf (shared cfg)) "u2" && negb (bindingFinished ps) &&
               bool_decide (nodeOfPod (ps_pod ps) = "n1")
  | None => false
  end.

Lemma no_assumed_pod_is_lost_witness :
  exists cfg ps t, exampleSimulation untilAssumed = Some cfg /\
    podStates (cacheOf (shared cfg)) !! "u2" = Some ps /\ nodeOfPod (ps_pod ps) = "n1" /\
    t ∈ threads cfg /\ owes (ps_pod ps) t.
Proof.
  assert (Hlog : (fun cfg => assumedLog (cacheLog (shared cfg)) && unfinishedPod cfg) <$> exampleSimulation untilAssumed
    = Some true) by (vm_compute; reflexivity).
  pose proof (fun cfg => no_assumed_pod_is_lost exampleLess 1 10 (fun m => (map_to_list m).*2) id 10
    (fun _ _ => inl "no claims") (fun _ _ => false) exampleProfiles exampleSpec 30 0 [] 0 cfg ltac:(reflexivity)) as Hthm.
  unfold exampleSimulation in *. destruct (simulate _ _ _ _ _ _ _ _ _ _ _ untilAssumed _) as [cfg|] eqn:E; [|discriminate].
  injection Hlog as Hlog. apply andb_prop in Hlog as [Hlog Hpod]. destruct (assumedLog_good _ Hlog) as [Hi Hc].
  specialize (Hthm cfg (simulate_sound _ _ _ _ _ _ _ _ _ _ _ _ _ _ E) Hi Hc). cbv zeta in Hthm.
  destruct Hthm as [Howed _]. unfold unfinishedPod in Hpod.
  destruct (podStates (cacheOf (shared cfg)) !! "u2") as [ps|] eqn:Hps; [|discriminate].
  apply andb_prop in Hpod as [Hpod Hn]. apply andb_prop in Hpod as [Ha Hb].
  apply negb_true_iff in Hb. destruct (Howed "u2" ps Hps Ha Hb) as (t&Hin&Ho).
  exists cfg, ps, t. split; [reflexivity|]. split; [exact Hps|].
  split; [exact (bool_decide_eq_true_1 _ Hn)|]. split; [exact Hin|exact Ho].
Defined.
