(* ===== verification/CycleTheorems.v ===== *)
(** * A pod is bound or everything done for it is undone

    The calls that one turn of the scheduling loop makes, with the goroutine that it
    starts, for all answers of the plugins, of the API server and of the shared state. *)
From S2P Require Import Prelude Api NodeInfo Framework Goroutine Nominator PriorityQueue Cache CacheSpec Snapshot.
From S2P Require Import GenericScheduler WaitingPods Binding Scheduler EventHandlers QueueTheorems Simulator.

(** ** What is noted of the calls

    A call of the queue is noted with the method itself and its answer. *)
Inductive note :=
  | NPopped (podInfo : QueuedPodInfo)
  | NIsAssumed (pod : Pod) (x : result cacheError bool)
  | NAssumedPod (pod : Pod) (x : result cacheError Pod)
  | NSelected (pod : Pod) (host : string)
  | NNoNode (pod : Pod) (err : scheduleError)
  | NAssume (p : Pod) (ok : bool)
  | NReserve (p : Pod) (host pl : string) (c : Code)
  | NPermit (p : Pod) (host pl : string) (c : Code)
  | NWaiting (prof uid : string) (l : option nat)
  | NSignal (l : nat) (c : Code)
  | NReleased (prof uid : string)
  | NPreBind (p : Pod) (host pl : string) (c : Code)
  | NExtenders (extenders : list Extender)
  | NExtenderBind (p : Pod) (host : string) (i : nat) (ok : bool)
  | NBind (p : Pod) (host pl : string) (c : Code)
  | NFinish (p : Pod)
  | NPostBind (p : Pod) (host pl : string)
  | NUnreserve (p : Pod) (host pl : string)
  | NForget (p : Pod)
  | NLooked (namespace name : string) (cached : option Pod)
  | NQueue (X : Type) (m : Q X) (x : result queueError X).

Create HintDb silent.

Section Cycle.
Context `{LabelsLib, StateData, KeyLib, Environment, ClientLib}.
Context (initialBackoff maxBackoff : Z)
  (statusOrder : gmap string Status -> list Status) (Profiles : gmap string profile).

Definition observe (X : Type) (c : call X) : X -> list note :=
  match c in call X return X -> list note with
  | NextPodCall => fun x => match x with Ok (Some podInfo) => [NPopped podInfo] | _ => [] end
  | IsAssumedCall pod => fun x => [NIsAssumed pod x]
  | GetPodCall pod => fun x => [NAssumedPod pod x]
  | ScheduleCall _ pod => fun x => match x with Ok r => [NSelected pod (SuggestedHost r)] | Err err => [NNoNode pod err] | Panic => [] end
  | CacheCall (EvAssume p) => fun x => [NAssume p (match x with Ok _ => true | _ => false end)]
  | CacheCall (EvForget p) => fun _ => [NForget p]
  | CacheCall (EvFinish p _) => fun _ => [NFinish p]
  | QueueCall X m => fun x => [NQueue X m x]
  | ReserveCall pl p host => fun st => [NReserve p host pl (StatusCode st)]
  | UnreserveCall pl p host => fun _ => [NUnreserve p host pl]
  | PermitCall pl p host => fun x => [NPermit p host pl (StatusCode x.1)]
  | GetWaiting prof uid => fun l => [NWaiting prof uid l]
  | ReceiveSignal _ l => fun st => [NSignal l (StatusCode st)]
  | RemoveWaiting prof uid => fun _ => [NReleased prof uid]
  | PreBindCall pl p host => fun st => [NPreBind p host pl (StatusCode st)]
  | ExtendersCall => fun extenders => [NExtenders extenders]
  | ExtenderBind i p host => fun err => [NExtenderBind p host i (bool_decide (err = None))]
  | BindCall pl p host => fun st => [NBind p host pl (StatusCode st)]
  | PostBindCall pl p host => fun _ => [NPostBind p host pl]
  | ListerGet namespace name => fun cached => [NLooked namespace name cached]
  | _ => fun _ => []
  end.

(** The plugins are called in order up to the first bad answer. *)
Inductive tried (mk : string -> Code -> note) (good : Code -> Prop) : list string -> list note -> bool -> Prop :=
  | TriedAll : tried mk good [] [] true
  | TriedGood pl pls c l ok : good c -> tried mk good pls l ok -> tried mk good (pl :: pls) (mk pl c :: l) ok
  | TriedBad pl pls c : ~ good c -> tried mk good (pl :: pls) [mk pl c] false.

Definition succeeds (c : Code) : Prop := c = Success.
Definition permits (c : Code) : Prop := c = Success \/ c = Wait.

Section Stages.
Context (f : profile) (p : Pod) (host : string).

Definition reserves : list note -> bool -> Prop := tried (NReserve p host) succeeds (reservePlugins f).
Definition allows : list note -> bool -> Prop := tried (NPermit p host) permits (permitPlugins f).
Definition preBinds : list note -> bool -> Prop := tried (NPreBind p host) succeeds (preBindPlugins f).

(** The framework looks for a waiting pod, and if there is one waits for its signal. *)
Inductive signals : list note -> bool -> Prop :=
  | NotWaiting : signals [NWaiting (prof_Name f) (pod_UID p) None] true
  | Signalled l c ok : c = Success <-> ok = true ->
      signals [NWaiting (prof_Name f) (pod_UID p) (Some l); NSignal l c; NReleased (prof_Name f) (pod_UID p)] ok.

(** The bind plugins are called in order while they skip; the first that does not decides. *)
Inductive bindsWith : list string -> list note -> bool -> Prop :=
  | NoneBinds : bindsWith [] [] false
  | Skips pl pls l ok : bindsWith pls l ok -> bindsWith (pl :: pls) (NBind p host pl Skip :: l) ok
  | Binds pl pls c ok : c <> Skip -> c = Success <-> ok = true -> bindsWith (pl :: pls) [NBind p host pl c] ok.

Definition bindsPod (extender : Extender) : bool := IsBinder extender && IsInterested extender p.

(** The first extender that binds pods and is interested in this one decides, or else the bind plugins. *)
Inductive binds : list note -> bool -> Prop :=
  | BoundByExtender before extender after ok : Forall (fun e => bindsPod e = false) before -> bindsPod extender = true ->
      binds [NExtenders (before ++ extender :: after); NExtenderBind p host (length before) ok] ok
  | BoundByPlugins extenders l ok : Forall (fun e => bindsPod e = false) extenders -> bindsWith (bindPlugins f) l ok ->
      binds (NExtenders extenders :: l) ok.

(** The stages of a pod [p] that has been assumed, up to the one that fails, or all. *)
Inductive stages : list note -> bool -> Prop :=
  | ReserveFails l : reserves l false -> stages l false
  | PermitFails l1 l2 : reserves l1 true -> allows l2 false -> stages (l1 ++ l2) false
  | SignalFails l1 l2 l3 : reserves l1 true -> allows l2 true -> signals l3 false -> stages (l1 ++ l2 ++ l3) false
  | PreBindFails l1 l2 l3 l4 : reserves l1 true -> allows l2 true -> signals l3 true -> preBinds l4 false ->
      stages (l1 ++ l2 ++ l3 ++ l4) false
  | BindEnds l1 l2 l3 l4 l5 ok : reserves l1 true -> allows l2 true -> signals l3 true -> preBinds l4 true ->
      binds l5 ok -> stages (l1 ++ l2 ++ l3 ++ l4 ++ l5 ++ [NFinish p]) ok.
End Stages.

(** A pod has failed: it is looked up, and unless it is gone it goes back to the queue as it is now, with the scheduling
    cycle that is read before; then it is nominated for [node], if that is not empty. *)
Definition nominates (pod : Pod) (node : string) (x : result queueError unit) : note :=
  NQueue unit (onNominator (fun npm => AddNominatedPod npm pod node)) x.
Definition requeues (podInfo : QueuedPodInfo) (cycle : Z) (x : result queueError (QueuedPodInfo * option queueError)) : note :=
  NQueue _ (AddUnschedulableIfNotPresent initialBackoff maxBackoff podInfo cycle) x.

Inductive failed (podInfo : QueuedPodInfo) (node : string) : list note -> Prop :=
  | FailedGone x : failed podInfo node
      [NLooked (pod_Namespace (qp_Pod podInfo)) (pod_Name (qp_Pod podInfo)) None; nominates (qp_Pod podInfo) node x]
  | FailedRequeued cached cycle r x : let podInfo' := PriorityQueue.updatePod podInfo cached in failed podInfo node
      [NLooked (pod_Namespace (qp_Pod podInfo)) (pod_Name (qp_Pod podInfo)) (Some cached); NQueue Z SchedulingCycle (Ok cycle);
       requeues podInfo' cycle r; nominates (qp_Pod (match r with Ok (info, _) => info | _ => podInfo' end)) node x]
  | FailedNoCycle cached e x : failed podInfo node
      [NLooked (pod_Namespace (qp_Pod podInfo)) (pod_Name (qp_Pod podInfo)) (Some cached); NQueue Z SchedulingCycle (Err e);
       nominates cached node x].

(** The nomination of a pod ends when it is assumed. *)
Definition denominates (p : Pod) (x : result queueError unit) : note :=
  NQueue unit (onNominator (fun npm => DeleteNominatedPodIfExists npm p)) x.

(** Whether a pod is skipped: it is being deleted, or it is assumed already and differs from the assumed pod only in fields
    that do not matter. *)
Inductive skips (pod : Pod) : list note -> bool -> Prop :=
  | SkipsDeleted t : DeletionTimestamp pod = Some t -> skips pod [] true
  | KeepsNew x : DeletionTimestamp pod = None -> x <> Ok true -> skips pod [NIsAssumed pod x] false
  | LooksAssumed y : DeletionTimestamp pod = None -> skips pod [NIsAssumed pod (Ok true); NAssumedPod pod y]
      (match y with Ok assumed => bool_decide (ignoreFields assumed = ignoreFields pod) | _ => false end).

(** What happens to a pod that is tried. *)
Inductive attempt : QueuedPodInfo -> profile -> list note -> Prop :=
  | Refused podInfo f err node l : match err with FitError _ _ => True | _ => node = "" end -> failed podInfo node l ->
      attempt podInfo f (NNoNode (qp_Pod podInfo) err :: l)
  | NotAssumed podInfo f host l : let p := withNodeName (qp_Pod podInfo) host in
      failed (PriorityQueue.updatePod podInfo p) "" l -> attempt podInfo f ([NSelected (qp_Pod podInfo) host; NAssume p false] ++ l)
  | Undone podInfo f host x l l' : let p := withNodeName (qp_Pod podInfo) host in
      stages f p host l false -> failed (PriorityQueue.updatePod podInfo p) "" l' ->
      attempt podInfo f ([NSelected (qp_Pod podInfo) host; NAssume p true; denominates p x] ++ l ++
               (NUnreserve p host <$> reverse (reservePlugins f)) ++ [NForget p] ++ l')
  | Bound podInfo f host x l : let p := withNodeName (qp_Pod podInfo) host in
      stages f p host l true ->
      attempt podInfo f ([NSelected (qp_Pod podInfo) host; NAssume p true; denominates p x] ++ l ++ (NPostBind p host <$> postBindPlugins f)).

(** What happens to a pod. *)
Inductive outcome : list note -> Prop :=
  | NoPod : outcome []
  | NoProfile podInfo : Profiles !! SchedulerName (pod_Spec (qp_Pod podInfo)) = None -> outcome [NPopped podInfo]
  | Skipped podInfo f l : Profiles !! SchedulerName (pod_Spec (qp_Pod podInfo)) = Some f -> skips (qp_Pod podInfo) l true ->
      outcome (NPopped podInfo :: l)
  | Tried podInfo f l l' : Profiles !! SchedulerName (pod_Spec (qp_Pod podInfo)) = Some f -> skips (qp_Pod podInfo) l false ->
      attempt podInfo f l' -> outcome (NPopped podInfo :: l ++ l').

(** ** Programs of which nothing is noted *)
Fixpoint silent {A : Type@{answer}} (t : Go A) : Prop :=
  match t with
  | Return _ | Crash => True
  | Call c k => (forall x, observe _ c x = []) /\ forall x, silent (k x)
  | Fork _ _ => False
  end.

Abbreviation logs' t a l := (logs observe t a l).

Lemma silent_forkFree {A} (t : Go A) : silent t -> forkFree t.
Proof. induction t as [A a|A X c k IH|A ch _ k _|A]; try done. intros [_ Hk] x. apply IH, Hk. Qed.

Lemma silent_logs {A} (t : Go A) a l : silent t -> logs' t a l -> l = [].
Proof.
  revert a l. induction t as [A b|A X c k IH|A ch _ k _|A]; intros a l Hs Hl; try done; [by destruct Hl|].
  destruct Hl as (x&rest&->&Hr). destruct Hs as [Hc Hk]. by rewrite (Hc x), (IH x _ _ (Hk x) Hr).
Qed.

Lemma silent_bind {A B} (t : Go A) (f : A -> Go B) : silent t -> (forall a, silent (f a)) -> silent (t ≫= f).
Proof.
  induction t as [A a|A X c k IH|A ch _ k _|A]; intros Ht Hf; try done; [apply Hf|].
  destruct Ht as [Hc Hk]. split; [done|]. intros x. apply IH; [apply Hk|done].
Qed.

(** A sequence whose first part is silent. *)
Lemma logs_after {A B} (t : Go A) (f : A -> Go B) b l : silent t -> logs' (t ≫= f) b l -> exists a, logs' (f a) b l.
Proof.
  intros Hs Hl. destruct (logs_bind _ t f b l (silent_forkFree _ Hs) Hl) as (a&l1&l2&->&Hl1&Hl2).
  exists a. by rewrite (silent_logs _ _ _ Hs Hl1).
Qed.

Lemma silent_invoke {X} (c : call X) : (forall x, observe _ c x = []) -> silent (invoke c).
Proof. by split. Qed.
Lemma silent_cacheCall e : (forall x, observe _ (CacheCall e) x = []) -> silent (cacheCall e).
Proof. split; [done|]. by intros []. Qed.

(** *** Silent parts *)
#[local] Hint Extern 1 (silent (invoke _)) => apply silent_invoke; reflexivity : silent.
#[local] Hint Extern 1 (silent (cacheCall _)) => apply silent_cacheCall; reflexivity : silent.
#[local] Hint Extern 1 (silent (mret _)) => exact I : silent.
#[local] Hint Extern 1 (silent (Return _)) => exact I : silent.
#[local] Hint Extern 1 (silent Crash) => exact I : silent.

Ltac silent :=
  repeat (intros; cbv beta zeta; match goal with
  | |- silent (mbind _ _) => apply silent_bind
  | |- silent (match ?x with _ => _ end) => destruct x eqn:?
  | |- silent _ => solve [eauto 2 with silent]
  end).

Lemma updatePodStatus_silent pod cond node : silent (updatePodStatus pod cond node).
Proof. unfold updatePodStatus. silent. Qed.
Lemma postFilterLoop_silent pls pod m : forall sts, silent (postFilterLoop statusOrder pls pod m sts).
Proof. induction pls; intros; cbn [postFilterLoop]; silent. Qed.
#[local] Hint Resolve updatePodStatus_silent postFilterLoop_silent : silent.

(** *** What the other parts log *)
Lemma logs_call {X B} (c : call X) (f : X -> Go B) b l : logs' (invoke c ≫= f) b l ->
  exists x rest, l = observe _ c x ++ rest /\ logs' (f x) b rest.
Proof. done. Qed.

(** A cache call as a part. *)
Lemma logs_cacheCall {B} e (f : option cacheError -> Go B) b l : logs' (cacheCall e ≫= f) b l ->
  exists x err rest, l = observe _ (CacheCall e) x ++ rest /\ (err = None <-> x = Ok tt) /\ logs' (f err) b rest.
Proof.
  intros (x&rest&->&Hl). destruct x as [[]|e'|]; [|..].
  - by exists (Ok tt), None, rest.
  - by exists (Err e'), (Some e'), rest.
  - done.
Qed.

Lemma queueCall_forkFree {X} (m : Q X) : forkFree (queueCall m).
Proof. by intros []. Qed.
Lemma cacheCall_forkFree e : forkFree (cacheCall e).
Proof. by intros []. Qed.
#[local] Hint Resolve queueCall_forkFree cacheCall_forkFree : forkfree.

(** A call of the queue as a part. *)
Lemma logs_queueCall {X B} (m : Q X) (f : option X -> Go B) b l : logs' (queueCall m ≫= f) b l ->
  exists x rest, l = NQueue X m x :: rest /\ x <> Panic /\ logs' (f (match x with Ok y => Some y | _ => None end)) b rest.
Proof. intros (x&rest&->&Hl). exists x, rest. by destruct x. Qed.

Lemma ErrorFunc_logs podInfo err info l : logs' (ErrorFunc initialBackoff maxBackoff podInfo err) info l ->
  forall node x, failed podInfo node (l ++ [nominates (qp_Pod info) node x]).
Proof.
  intros Hl node x. unfold ErrorFunc in Hl. apply logs_after in Hl as (_&Hl); [|silent].
  apply logs_call in Hl as (cached&rest&->&Hl). cbn [observe app]. destruct cached as [cached|]; [|destruct Hl as [-> ->]; constructor].
  apply logs_queueCall in Hl as (cycle&rest1&->&Hp&Hl). destruct cycle as [cycle|e|]; [|destruct Hl as [-> ->]; apply (FailedNoCycle podInfo node)|done].
  apply logs_queueCall in Hl as (r&rest2&->&Hp2&Hl). cbn [app].
  assert (E : qp_Pod info = qp_Pod (match r with Ok (info, _) => info | _ => PriorityQueue.updatePod podInfo cached end) /\ rest2 = []).
  { destruct r as [[info' ?]|e|]; by destruct Hl as [-> ->]. }
  destruct E as [-> ->]. apply (FailedRequeued podInfo node).
Qed.

Lemma recordFailure_logs podInfo err reason node u l :
  logs' (recordSchedulingFailure initialBackoff maxBackoff podInfo err reason node) u l -> failed podInfo node l.
Proof.
  intros Hl. apply logs_bind in Hl as (info&l1&l2&->&Hl1&Hl2); [|unfold ErrorFunc; fork_free].
  apply logs_queueCall in Hl2 as (x&rest&->&_&Hl2). apply silent_logs in Hl2 as ->.
  - by apply (ErrorFunc_logs _ _ _ _ Hl1).
  - apply silent_bind; [apply updatePodStatus_silent|]. done.
Qed.

(** Loops over plugins. *)
Lemma unreserveLoop_logs pls pod node u l : logs' (unreserveLoop pls pod node) u l -> l = NUnreserve pod node <$> pls.
Proof.
  revert l. induction pls as [|pl pls IH]; intros l Hl; cbn [unreserveLoop] in Hl; [by destruct Hl|].
  apply logs_call in Hl as (x&rest&->&Hl). cbn. f_equal. by apply IH.
Qed.
Lemma postBindLoop_logs pls pod node u l : logs' (postBindLoop pls pod node) u l -> l = NPostBind pod node <$> pls.
Proof.
  revert l. induction pls as [|pl pls IH]; intros l Hl; cbn [postBindLoop] in Hl; [by destruct Hl|].
  apply logs_call in Hl as (x&rest&->&Hl). cbn. f_equal. by apply IH.
Qed.

Lemma success_code st : IsSuccess st = true <-> succeeds (StatusCode st).
Proof. apply bool_decide_eq_true. Qed.

Lemma reserveLoop_logs pls pod node st l : logs' (reserveLoop pls pod node) st l ->
  tried (NReserve pod node) succeeds pls l (IsSuccess st).
Proof.
  revert l. induction pls as [|pl pls IH]; intros l Hl; cbn [reserveLoop] in Hl; [destruct Hl as [-> ->]; constructor|].
  apply logs_call in Hl as (x&rest&->&Hl). destruct (IsSuccess x) eqn:Hx.
  - apply TriedGood; [by apply success_code|by apply IH].
  - destruct Hl as [-> ->]. apply TriedBad. intros Hc. apply success_code in Hc. congruence.
Qed.
Lemma preBindLoop_logs pls pod node st l : logs' (preBindLoop pls pod node) st l ->
  tried (NPreBind pod node) succeeds pls l (IsSuccess st).
Proof.
  revert l. induction pls as [|pl pls IH]; intros l Hl; cbn [preBindLoop] in Hl; [destruct Hl as [-> ->]; constructor|].
  apply logs_call in Hl as (x&rest&->&Hl). destruct (IsSuccess x) eqn:Hx.
  - apply TriedGood; [by apply success_code|by apply IH].
  - destruct Hl as [-> ->]. apply TriedBad. intros Hc. apply success_code in Hc. congruence.
Qed.

(** The test of [scheduleOne] on the status of the permit plugins. *)
Definition permitted (st : Status) : bool := negb (bool_decide (StatusCode st <> Wait) && negb (IsSuccess st)).

Lemma permitted_code st : permitted st = true <-> permits (StatusCode st).
Proof.
  unfold permitted, permits, IsSuccess. rewrite negb_true_iff, andb_false_iff, negb_false_iff.
  rewrite bool_decide_eq_false, bool_decide_eq_true. destruct (StatusCode st); naive_solver.
Qed.

Lemma permitLoop_logs prof pls pod node : forall m c st l, permits c ->
  logs' (permitLoop prof pls pod node m c) st l -> tried (NPermit pod node) permits pls l (permitted st).
Proof.
  induction pls as [|pl pls IH]; intros m c st l Hc Hl; cbn [permitLoop] in Hl.
  - destruct (decide (c = Wait)); [apply logs_call in Hl as (x&rest&->&Hl)|]; destruct Hl as [-> ->]; apply TriedAll.
  - apply logs_call in Hl as ([x timeout]&rest&->&Hl). cbn [observe fst app].
    destruct (IsSuccess x) eqn:Hx.
    { apply TriedGood; [left; by apply success_code|by eapply IH]. }
    assert (Hns : StatusCode x <> Success) by (intros Hs; apply success_code in Hs; congruence).
    destruct (IsUnschedulable x) eqn:Hu.
    { destruct Hl as [-> ->]. apply bool_decide_eq_true in Hu.
      replace (permitted _) with false; [apply TriedBad; intros [?|?]; destruct Hu; congruence|].
      symmetry. apply not_true_iff_false. rewrite permitted_code. cbn. intros [?|?]; destruct Hu; congruence. }
    destruct (decide (StatusCode x = Wait)).
    { apply TriedGood; [by right|]. eapply (IH _ Wait); [by right|exact Hl]. }
    destruct Hl as [-> ->]. apply TriedBad. intros [?|?]; congruence.
Qed.

Lemma waitOnPermit_logs prof pod st l : logs' (WaitOnPermit prof pod) st l -> signals prof pod l (IsSuccess st).
Proof.
  intros Hl. apply logs_call in Hl as ([w|]&rest&->&Hl); [|destruct Hl as [-> ->]; apply NotWaiting].
  apply logs_call in Hl as (s&rest'&->&Hl). apply logs_call in Hl as (u&rest''&->&Hl).
  assert (E : rest'' = [] /\ IsSuccess st = IsSuccess s).
  { destruct (IsSuccess s) eqn:Hs; [by destruct Hl as [-> ->]|]. destruct (IsUnschedulable s) eqn:Hu; destruct Hl as [-> ->]; (split; [done|]); [|done].
    apply bool_decide_eq_false. cbn. intros Hc. apply success_code in Hc. by rewrite Hc in Hs. }
  destruct E as [-> ->]. cbn. apply Signalled. symmetry. apply success_code.
Qed.

Lemma bindLoop_logs pls pod node : forall st0 st l, logs' (bindLoop pls pod node st0) st l ->
  (pls = [] -> IsSuccess st0 = false) -> bindsWith pod node pls l (IsSuccess st).
Proof.
  induction pls as [|pl pls IH]; intros st0 st l Hl Hnil; cbn [bindLoop] in Hl; [destruct Hl as [-> ->]; rewrite Hnil by done; constructor|].
  apply logs_call in Hl as (s&rest&->&Hl). cbn [observe app]. destruct (decide (StatusCode s = Skip)) as [Hs|Hs].
  - rewrite Hs. apply Skips. apply (IH s); [done|]. intros _. apply bool_decide_eq_false. by rewrite Hs.
  - assert (E : rest = [] /\ IsSuccess st = IsSuccess s) by (destruct (IsSuccess s) eqn:Hc; by destruct Hl as [-> ->]).
    destruct E as [-> ->]. apply Binds; [done|]. symmetry. apply success_code.
Qed.

Lemma runBindPlugins_logs prof pod node st l : logs' (RunBindPlugins prof pod node) st l -> bindsWith pod node (bindPlugins prof) l (IsSuccess st).
Proof.
  unfold RunBindPlugins. destruct (bindPlugins prof) as [|pl pls]; [intros [-> ->]; constructor|]. intros Hl. by apply (bindLoop_logs _ _ _ None).
Qed.

Lemma extendersLoop_logs extenders pod node : forall i bound err l, logs' (extendersLoop i extenders pod node) (bound, err) l ->
  (bound = false /\ l = [] /\ Forall (fun e => bindsPod pod e = false) extenders) \/
  (bound = true /\ exists before extender after, extenders = before ++ extender :: after /\ Forall (fun e => bindsPod pod e = false) before /\
     bindsPod pod extender = true /\ l = [NExtenderBind pod node (i + length before) (bool_decide (err = None))]).
Proof.
  induction extenders as [|e extenders IH]; intros i bound err l Hl; cbn [extendersLoop] in Hl; [destruct Hl as [[= -> ->] ->]; by left|].
  rewrite <- negb_andb in Hl. fold (bindsPod pod e) in Hl. destruct (bindsPod pod e) eqn:He; cbn [negb] in Hl.
  - apply logs_call in Hl as (x&rest&->&[= -> ->]&->). right. split; [done|]. exists [], e, extenders. cbn. by rewrite Nat.add_0_r.
  - destruct (IH _ _ _ _ Hl) as [(->&->&Hall)|(->&before&x&after&->&Hb&Hx&->)]; [left; split_and!; [done..|by constructor]|].
    right. split; [done|]. exists (e :: before), x, after. split_and!; [done|by constructor|done|]. cbn [length]. by rewrite Nat.add_succ_r.
Qed.

Lemma extendersLoop_forkFree extenders pod node : forall i, forkFree (extendersLoop i extenders pod node).
Proof. induction extenders; intros i; cbn [extendersLoop]; fork_free. Qed.
Lemma bindLoop_forkFree pls pod node : forall st, forkFree (bindLoop pls pod node st).
Proof. induction pls; intros st; cbn [bindLoop]; fork_free. Qed.
Lemma runBindPlugins_forkFree prof pod node : forkFree (RunBindPlugins prof pod node).
Proof. unfold RunBindPlugins. destruct (bindPlugins prof); [done|apply bindLoop_forkFree]. Qed.
Lemma extendersBinding_forkFree pod node : forkFree (extendersBinding pod node).
Proof. apply forkFree_bind; [intro; exact I|]. intros extenders. apply extendersLoop_forkFree. Qed.
#[local] Hint Resolve runBindPlugins_forkFree extendersBinding_forkFree : forkfree.

(** Whether the pod has been bound is what the error says. *)
Lemma bind_logs prof pod node err l : logs' (bind prof pod node) err l ->
  exists l', l = l' ++ [NFinish pod] /\ binds prof pod node l' (bool_decide (err = None)).
Proof.
  intros Hl. unfold bind in Hl. apply logs_bind in Hl as ([bound e]&l1&l2&->&Hl1&Hl); [|fork_free].
  apply logs_bind in Hl as (e'&l3&l4&->&Hl3&Hl); [|fork_free].
  apply logs_bind in Hl as (u&l5&l6&->&Hl5&[-> ->]); [|unfold finishBinding; fork_free].
  apply logs_call in Hl5 as (now&rest&->&Hl). apply logs_cacheCall in Hl as (x&e2&rest2&->&_&[_ ->]). cbn [observe app].
  exists (l1 ++ l3). split; [by rewrite <- app_assoc|].
  apply logs_call in Hl1 as (extenders&rest&->&Hl1). cbn [observe app].
  destruct (extendersLoop_logs _ _ _ _ _ _ _ Hl1) as [(->&->&Hall)|(->&before&x'&after&->&Hb&Hx&->)].
  - cbn [app]. apply BoundByPlugins; [done|]. apply logs_bind in Hl3 as (st&l5&l6&->&Hst&Hl3); [|fork_free].
    apply runBindPlugins_logs in Hst. assert (E : l6 = [] /\ bool_decide (e' = None) = IsSuccess st).
    { unfold AsError in Hl3. destruct (IsSuccess st); [by destruct Hl3 as [-> ->]|]. case_decide; by destruct Hl3 as [-> ->]. }
    destruct E as [-> ->]. by rewrite app_nil_r.
  - destruct Hl3 as [-> ->]. cbn. by apply BoundByExtender.
Qed.

Lemma bind_forkFree prof pod node : forkFree (bind prof pod node).
Proof. unfold bind, finishBinding. fork_free. Qed.

Lemma undo_logs prof podInfo host err reason u l :
  logs' (undo initialBackoff maxBackoff prof podInfo host err reason) u l ->
  exists l', failed podInfo "" l' /\
    l = (NUnreserve (qp_Pod podInfo) host <$> reverse (reservePlugins prof)) ++ [NForget (qp_Pod podInfo)] ++ l'.
Proof.
  intros Hl. apply logs_bind in Hl as (u1&l1&l2&->&Hl1&Hl2); cycle 1.
  { unfold RunReservePluginsUnreserve. generalize (reverse (reservePlugins prof)). intros pls.
    induction pls; cbn [unreserveLoop]; fork_free. }
  apply unreserveLoop_logs in Hl1 as ->.
  apply logs_cacheCall in Hl2 as (x&e&rest&->&_&Hl2). exists rest. split; [by apply recordFailure_logs in Hl2|done].
Qed.

(** The goroutine that binds, after the stages before it. *)
Lemma bindingCycle_logs prof podInfo host u l l1 l2 :
  let p := qp_Pod podInfo in
  reserves prof p host l1 true -> allows prof p host l2 true ->
  logs' (bindingCycle initialBackoff maxBackoff prof podInfo host) u l ->
  (exists st l', stages prof p host (l1 ++ l2 ++ st) false /\ failed podInfo "" l' /\
     l = st ++ (NUnreserve p host <$> reverse (reservePlugins prof)) ++ [NForget p] ++ l') \/
  (exists st, stages prof p host (l1 ++ l2 ++ st) true /\ l = st ++ (NPostBind p host <$> postBindPlugins prof)).
Proof.
  intros p Hr Ha Hl. unfold bindingCycle in Hl.
  apply logs_bind in Hl as (wait&l3&lr&->&Hw&Hl); [|unfold WaitOnPermit; fork_free].
  apply waitOnPermit_logs in Hw. destruct (IsSuccess wait); cbn [negb] in Hl; cycle 1.
  { apply undo_logs in Hl as (l'&Hf&->). left. exists l3, l'. split; [by apply SignalFails|done]. }
  apply logs_bind in Hl as (pre&l4&lr2&->&Hp&Hl); cycle 1.
  { unfold RunPreBindPlugins. induction (preBindPlugins prof); cbn [preBindLoop]; fork_free. }
  apply preBindLoop_logs in Hp. destruct (IsSuccess pre); cbn [negb] in Hl; cycle 1.
  { apply undo_logs in Hl as (l'&Hf&->). left. exists (l3 ++ l4), l'. rewrite <- app_assoc. split; [by apply PreBindFails|done]. }
  apply logs_bind in Hl as (err&l5&lr3&->&Hb&Hl); [|apply bind_forkFree].
  apply bind_logs in Hb as (l5'&->&Hb).
  assert (Hst : stages prof p host (l1 ++ l2 ++ l3 ++ l4 ++ l5' ++ [NFinish p]) (bool_decide (err = None))) by by apply BindEnds.
  destruct err as [err|].
  - apply undo_logs in Hl as (l'&Hf&->). left. exists (l3 ++ l4 ++ l5' ++ [NFinish p]), l'. split; [done|]. by rewrite <- !app_assoc.
  - apply postBindLoop_logs in Hl as ->. right. exists (l3 ++ l4 ++ l5' ++ [NFinish p]). split; [done|]. by rewrite <- !app_assoc.
Qed.

(** The stages of the scheduling loop, then the goroutine. *)
Lemma afterAssume_logs prof podInfo host u l : let p := qp_Pod podInfo in
  logs' (RunReservePluginsReserve prof p host ≫= fun sts =>
      if negb (IsSuccess sts) then undo initialBackoff maxBackoff prof podInfo host (statusError sts) SchedulerError
      else RunPermitPlugins prof p host ≫= fun st =>
        if bool_decide (StatusCode st <> Wait) && negb (IsSuccess st) then
          undo initialBackoff maxBackoff prof podInfo host (statusError st) (reasonOf st)
        else Fork (bindingCycle initialBackoff maxBackoff prof podInfo host) (mret tt)) u l ->
  (exists st l', stages prof p host st false /\ failed podInfo "" l' /\
     l = st ++ (NUnreserve p host <$> reverse (reservePlugins prof)) ++ [NForget p] ++ l') \/
  (exists st, stages prof p host st true /\ l = st ++ (NPostBind p host <$> postBindPlugins prof)).
Proof.
  intros p Hl. apply logs_bind in Hl as (sts&l1&lr&->&Hr&Hl); cycle 1.
  { unfold RunReservePluginsReserve. induction (reservePlugins prof); cbn [reserveLoop]; fork_free. }
  apply reserveLoop_logs in Hr. destruct (IsSuccess sts); cbn [negb] in Hl; cycle 1.
  { apply undo_logs in Hl as (l'&Hf&->). left. exists l1, l'. split; [by apply ReserveFails|done]. }
  apply logs_bind in Hl as (st&l2&lr2&->&Hp&Hl); cycle 1.
  { unfold RunPermitPlugins. generalize (permitPlugins prof), (∅ : gmap string Z), Success. intros pls.
    induction pls; intros; cbn [permitLoop]; fork_free. }
  apply permitLoop_logs in Hp; [|by left]. unfold permitted in Hp. destruct (_ && _); cbn [negb] in Hp.
  { apply undo_logs in Hl as (l'&Hf&->). left. exists (l1 ++ l2), l'. split_and!; [by apply PermitFails|done|]. by rewrite <- app_assoc. }
  destruct Hl as (l3&l4&->&[_ ->]&Hl). cbn [app].
  destruct (bindingCycle_logs prof podInfo host _ _ l1 l2 Hr Hp Hl) as [(s&l'&Hs&Hf&->)|(s&Hs&->)].
  - left. exists (l1 ++ l2 ++ s), l'. split_and!; [done..|]. by rewrite <- !app_assoc.
  - right. exists (l1 ++ l2 ++ s). split; [done|]. by rewrite <- !app_assoc.
Qed.

Lemma assumeAndBind_logs prof podInfo host u l :
  logs' (assumeAndBind initialBackoff maxBackoff prof podInfo host) u l ->
  attempt podInfo prof (NSelected (qp_Pod podInfo) host :: l).
Proof.
  intros Hl. set (p := withNodeName (qp_Pod podInfo) host). unfold assumeAndBind, assume in Hl. fold p in Hl.
  destruct Hl as (x&rest&->&Hl). destruct x as [[]|err|]; [|apply recordFailure_logs in Hl; by apply (NotAssumed podInfo prof host)|done].
  destruct Hl as (x&rest'&->&Hl).
  assert (Hafter : (exists st l', stages prof p host st false /\ failed (PriorityQueue.updatePod podInfo p) "" l' /\
       rest' = st ++ (NUnreserve p host <$> reverse (reservePlugins prof)) ++ [NForget p] ++ l') \/
    (exists st, stages prof p host st true /\ rest' = st ++ (NPostBind p host <$> postBindPlugins prof))).
  { apply (afterAssume_logs prof (PriorityQueue.updatePod podInfo p) host u). by destruct x. }
  destruct Hafter as [(st&l'&Hs&Hf&->)|(st&Hs&->)]; [by apply (Undone podInfo prof host x st l')|by apply (Bound podInfo prof host x st)].
Qed.

Lemma skipPodSchedule_logs pod b l : logs' (skipPodSchedule pod) b l -> skips pod l b.
Proof.
  unfold skipPodSchedule. destruct (DeletionTimestamp pod) as [d|] eqn:Hd; [intros [-> ->]; by eapply SkipsDeleted|]. intros Hl.
  apply logs_call in Hl as (x&rest&->&Hl). cbn [observe app]. destruct x as [[]|e|]; [|destruct Hl as [-> ->]; by apply KeepsNew..|done].
  apply logs_call in Hl as (y&rest1&->&Hl). cbn [observe app]. pose proof (LooksAssumed pod y Hd) as Hs.
  destruct y as [assumed|e|]; [destruct Hl as [-> ->]; exact Hs..|done].
Qed.

Lemma skipPodSchedule_forkFree pod : forkFree (skipPodSchedule pod).
Proof. unfold skipPodSchedule, skipPodUpdate. fork_free. Qed.

Lemma scheduleFailed_logs prof podInfo err u l :
  logs' (scheduleFailed initialBackoff maxBackoff statusOrder prof podInfo err) u l -> attempt podInfo prof (NNoNode (qp_Pod podInfo) err :: l).
Proof.
  unfold scheduleFailed. intros Hl.
  assert (Hs : silent (match err with
     | FitError _ statuses =>
         if HasPostFilterPlugins prof then
           '(result, status) ← RunPostFilterPlugins statusOrder prof (qp_Pod podInfo) statuses;
           mret (if IsSuccess status then default "" result else "")
         else mret ""
     | _ => mret "" : Go string
     end)).
  { destruct err; try done. destruct (HasPostFilterPlugins prof); [|done].
    apply silent_bind; [apply postFilterLoop_silent|]. by intros []. }
  apply logs_bind in Hl as (node&l1&l2&->&Hl1&Hl2); [|by apply silent_forkFree].
  rewrite (silent_logs _ _ _ Hs Hl1). apply recordFailure_logs in Hl2. cbn [app]. apply Refused with (node := node); [|done].
  destruct err; try done; by destruct Hl1.
Qed.
End Cycle.

(** C33: Whatever the plugins, extenders, the API server and the shared state answer, one turn
    of the scheduling loop with its binding goroutine does one of these. It takes no pod; or one without a profile; or it
    skips the pod, as it is being deleted or assumed already; or the algorithm finds no node, and the pod fails; or the cache refuses to assume it, and it fails;
    or it assumes the pod on the selected node and takes its nomination back.
    Then come the stages, in order and each on the assumed pod and that node: every reserve plugin, every permit
    plugin, the signal if the pod waits, every prebind plugin, and the binding - by the first extender that binds pods and is interested in this
    one, or else by the first bind plugin that does not skip. If all succeed, the postbind
    plugins run; only then does the pod count as bound. The first stage that fails is followed by [Unreserve] of all reserve
    plugins in reverse order, [ForgetPod] of the very pod that was assumed, and the failure: the pod is looked up and,
    unless it is gone, added to the queue of unschedulable pods as it is now. *)
Theorem pod_is_bound_or_undone `{LabelsLib, StateData, KeyLib, Environment, ClientLib}
    (initialBackoff maxBackoff : Z) (statusOrder : gmap string Status -> list Status)
    (Profiles : gmap string profile) (log : list note) :
  logs observe (scheduleOne initialBackoff maxBackoff statusOrder Profiles) tt log -> outcome initialBackoff maxBackoff Profiles log.
Proof.
  unfold scheduleOne. intros Hl. apply logs_call in Hl as (next&rest&->&Hl).
  destruct next as [[podInfo|]|e|]; [|destruct Hl as [_ ->]; constructor..|done].
  destruct (profileForPod Profiles (qp_Pod podInfo)) as [prof|] eqn:Hprof; [|destruct Hl as [_ ->]; by constructor].
  apply logs_bind in Hl as (skip&l1&l2&->&Hskip&Hl); [|apply skipPodSchedule_forkFree]. apply skipPodSchedule_logs in Hskip.
  destruct skip; [destruct Hl as [_ ->]; rewrite app_nil_r; by apply (Skipped _ _ _ podInfo prof)|]. apply (Tried _ _ _ podInfo prof l1 l2 Hprof Hskip).
  apply logs_call in Hl as (r&rest'&->&Hl). destruct r as [r|err|]; [by eapply assumeAndBind_logs|by apply scheduleFailed_logs in Hl|done].
Qed.

(** ** Witness: the second reserve plugin fails *)
#[local] Existing Instance exampleLabels.
#[local] Existing Instance exampleData.
#[local] Existing Instance exampleKeys.
#[local] Existing Instance exampleEnvironment.
#[local] Existing Instance noClient.

Definition assumedExample : Pod := withNodeName examplePod "n1".
Definition exampleInfo : QueuedPodInfo := {| qp_Pod := examplePod; Timestamp := 0; Attempts := 1; InitialAttemptTimestamp := 0 |}.
Definition assumedInfo : QueuedPodInfo := PriorityQueue.updatePod exampleInfo assumedExample.
Definition undoneLog : list note :=
  [NPopped exampleInfo; NIsAssumed examplePod (Ok false); NSelected examplePod "n1"; NAssume assumedExample true; denominates assumedExample (Ok tt);
   NReserve assumedExample "n1" "volumes" Success; NReserve assumedExample "n1" "devices" Error;
   NUnreserve assumedExample "n1" "devices"; NUnreserve assumedExample "n1" "volumes"; NForget assumedExample;
   NLooked "ns" "p2" (Some examplePod); NQueue Z SchedulingCycle (Ok 7%Z);
   requeues 1 10 (PriorityQueue.updatePod assumedInfo examplePod) 7 (Ok (exampleInfo, None)); nominates examplePod "" (Ok tt)].

(** Answers the next call. *)
Ltac answer x := refine (ex_intro _ x (ex_intro _ _ (conj eq_refl _))).

Lemma pod_is_bound_or_undone_witness :
  logs observe (scheduleOne 1 10 (fun m => (map_to_list m).*2) exampleProfiles) tt undoneLog /\
  outcome 1 10 exampleProfiles undoneLog.
Proof.
  assert (Hl : logs observe (scheduleOne 1 10 (fun m => (map_to_list m).*2) exampleProfiles) tt undoneLog).
  { answer (Ok (E := queueError) (Some exampleInfo)).
    answer (Ok (E := cacheError) false).
    answer (Ok (E := scheduleError) {| SuggestedHost := "n1"; EvaluatedNodes := 1; FeasibleNodes := 1 |}).
    answer (Ok (E := cacheError) tt).
    answer (Ok (E := queueError) tt).
    answer (None : Status).
    answer (NewStatus Error ["no device"]).
    answer tt. answer tt.
    answer (Ok (E := cacheError) tt).
    answer (Some examplePod).
    answer (Ok (E := queueError) 7%Z).
    answer (Ok (E := queueError) (exampleInfo, None : option queueError)).
    answer (Ok (E := queueError) tt).
    split; reflexivity. }
  split; [exact Hl|]. exact (pod_is_bound_or_undone 1 10 _ exampleProfiles undoneLog Hl).
Defined.
