(* ===== verification/AdmissionTheorems.v ===== *)
(** * A scheduled pod never overcommits its node

    The composition of the cache, its snapshot, one scheduling cycle with the plugin
    [NodeResourcesFit] and the assumption of the pod: the node that is selected has room
    for the pod, and the cache still has it within its capacity with the pod added. *)
From S2P Require Import Prelude Api NodeInfo NodeTree Nominator PriorityQueue CacheList Cache CacheSpec Snapshot.
From S2P Require Import Framework GenericScheduler SchedulerSpec ScheduleTheorems Float64 PluginData NodeResources.
From S2P Require Import NodeResourcesSpec Goroutine WaitingPods Binding Scheduler.
Local Open Scope Z_scope.

(** ** The plugin in a framework *)
Section FitInFramework.
Context (scalarOrder : gmap string Z -> list (string * Z)).

(** The framework has the plugin, and no other plugin writes under its key. *)
Record usesFit (f : frameworkImpl) : Prop := {
  uf_prefilter : FitPreFilter ∈ preFilterPlugins f;
  uf_filter : FitFilter scalarOrder ∅ ∅ ∈ filterPlugins f;
  uf_key pl state pod : pl ∈ preFilterPlugins f ->
    pl = FitPreFilter \/ (PreFilter pl state pod).2 !! fitStateKey = state !! fitStateKey
}.

Lemma preFilterLoop_fit pls pod : forall state,
  (forall pl state, pl ∈ pls -> pl = FitPreFilter \/ (PreFilter pl state pod).2 !! fitStateKey = state !! fitStateKey) ->
  IsSuccess (preFilterLoop pls state pod).1 = true ->
  FitPreFilter ∈ pls \/ state !! fitStateKey = Some (FitData (computePodResourceRequest pod)) ->
  (preFilterLoop pls state pod).2 !! fitStateKey = Some (FitData (computePodResourceRequest pod)).
Proof.
  induction pls as [|pl pls IH]; intros state Hkey Hok Hin.
  { destruct Hin as [[]%not_elem_of_nil|Hs]; done. }
  assert (Hwrite : forall st s, (PreFilter FitPreFilter s pod) = st -> st.2 !! fitStateKey = Some (FitData (computePodResourceRequest pod))).
  { intros st s <-. apply lookup_insert_eq. }
  cbn [preFilterLoop] in *. pose proof (Hkey pl state ltac:(left)) as Hpl.
  destruct (PreFilter pl state pod) as [st s1] eqn:Hp. cbn [snd] in Hpl. destruct (IsSuccess st) eqn:Hst.
  - apply IH; [intros pl' s' Hin'; apply Hkey; by right|done|]. destruct Hpl as [->|Hs].
    + right. exact (Hwrite _ _ Hp).
    + destruct Hin as [[<-|Hin]%elem_of_cons|Hin]; [right; exact (Hwrite _ _ Hp)|by left|right; exact (eq_trans Hs Hin)].
  - exfalso. destruct (IsUnschedulable st); cbn in Hok; rewrite ?Hst in Hok; done.
Qed.

(** A pod that passes the filters with the nominated pods also passes without them. *)
Lemma addNominatedLoop_none `{LabelsLib, PodPriority} f pods pod : forall g state info added state' info',
  addNominatedLoop f pods pod g state info added = inr (false, state', info') -> state' = state /\ info' = info.
Proof.
  assert (Htrue : forall ps g state info state' info',
    addNominatedLoop f ps pod g state info true <> inr (false, state', info')).
  { induction ps as [|p ps IH]; intros; cbn [addNominatedLoop]; [done|].
    destruct (_ && _); [|apply IH]. destruct (NodeInfo.AddPod g info p). destruct (RunPreFilterExtensionAddPod _ _ _ _ _) as [st s].
    destruct (IsSuccess st); [apply IH|done]. }
  induction pods as [|p pods IH]; intros g state info added state' info'; cbn [addNominatedLoop]; [by intros [= _ <- <-]|].
  destruct (_ && _); [|apply IH]. destruct (NodeInfo.AddPod g info p). destruct (RunPreFilterExtensionAddPod _ _ _ _ _) as [st s].
  destruct (IsSuccess st); [|done]. intros Hl. by apply Htrue in Hl.
Qed.

Lemma passes_accepts `{LabelsLib, PodPriority} f npm g state pod info :
  passes f npm g state pod info -> accepts f state pod info.
Proof.
  intros (added&state'&info'&Hadd&Hacc&Hwithout). destruct added; [by apply Hwithout|].
  unfold addNominatedPods in Hadd. destruct (NodeOf info) as [nd|]; [|by injection Hadd as <- <-].
  destruct (NominatedPodsForNode npm (node_Name nd)) as [|p ps]; [by injection Hadd as <- <-|].
  apply addNominatedLoop_none in Hadd as [-> ->]. by rewrite CloneState_id, Clone_id in Hacc.
Qed.
End FitInFramework.

(** ** Assuming the pod *)
Section Assume.
Context `{LabelsLib}.

Lemma withNodeName_request pod host : computePodResourceRequest (withNodeName pod host) = computePodResourceRequest pod.
Proof. done. Qed.

(** [AssumePod] of a pod that the cache does not have adds it to the node info of its node. *)
Lemma assume_adds c p i : cOk c -> generation c + 2 <= max_int64 -> pod_UID p <> "" ->
  podStates c !! pod_UID p = None -> cInfo c !! nodeOfPod p = Some i ->
  exists c' g, AssumePod p c = (Ok tt, c') /\ cInfo c' !! nodeOfPod p = Some (NodeInfo.AddPod g i p).2 /\
    forall name, name <> nodeOfPod p -> cInfo c' !! name = cInfo c !! name.
Proof.
  intros Hok Hmax Hu Hs Hi. destruct (addPod_spec p c Hok Hmax) as (g&nl&Hadd&_&_&Hm).
  eexists _, g. split.
  - unfold AssumePod. erewrite bind_Ok by by apply podKey_Ok. erewrite bind_Ok by done. rewrite Hs.
    by erewrite bind_Ok by done.
  - fold (nodeOfPod p) in Hm. cbn [withPods withList]. split; unfold cInfo; cbn [nodeInfos].
    + cbn. rewrite Hm, lookup_insert_eq, Hi. done.
    + intros name Hne. cbn. by rewrite Hm, lookup_insert_ne.
Qed.
End Assume.

(** C34: Take any cache that valid events and snapshots have led to, with no removed node that
    still held pods when a snapshot was taken.  When a scheduling cycle of a framework with
    [NodeResourcesFit], no resource ignored, and with extenders that only filter answers a
    node for a pod that the cache does not have, assuming the pod on that node succeeds, adds
    it to that node and to no other, and a node that was within its capacity still is,
    whatever the other plugins, the nominated pods and the random choices. Extenders only
    filter when they answer with nodes among those that they got, which an HTTP extender
    that answers with whole nodes need not do; the generation of the cache does not overflow. *)
Theorem scheduled_pod_never_overcommits `{LabelsLib, PodPriority} (scalarOrder : gmap string Z -> list (string * Z))
    (statusOrder : gmap string Status -> list Status) (mapOrder : list string -> list string)
    (MaxExtenderPriority : Z) (pvcLister : string -> string -> string + Claim)
    (IsControlledBy : Claim -> Pod -> bool) (f : frameworkImpl) (npm : nominatedPodMap) (run : schedule)
    (state' : CycleState) (pod : Pod) (g g' : genericScheduler) (res : ScheduleResult)
    (ttl0 g0 : Z) (es : list cycleEvent) :
  (forall m, scalarOrder m ≡ₚ map_to_list m) -> (forall m, statusOrder m ≡ₚ (map_to_list m).*2) ->
  (forall l, mapOrder l ≡ₚ l) -> usesFit scalarOrder f -> extendersFilter (scheduler_extenders g) ->
  0 <= g0 -> g0 + sumOver cycleCost es <= max_int64 - 3 ->
  validCycles ttl0 es emptyAbs -> noGhostAbs (foldl (absCycle ttl0) emptyAbs es) ->
  runCycles mapOrder es (newSchedulerCache ttl0 g0) NewEmptySnapshot = Some (scheduler_cache g, nodeInfoSnapshot g) ->
  pod_UID pod <> "" -> podStates (scheduler_cache g) !! pod_UID pod = None ->
  Schedule statusOrder mapOrder MaxExtenderPriority pvcLister IsControlledBy f npm run NewCycleState pod g =
    Some (Ok res, g', state') ->
  let host := SuggestedHost res in
  exists info c' info',
    infoOf (nodeInfos (scheduler_cache g)) host = Some info /\
    AssumePod (withNodeName pod host) (scheduler_cache g') = (Ok tt, c') /\
    infoOf (nodeInfos c') host = Some info' /\ length (Pods info') = S (length (Pods info)) /\
    (forall name, name <> host -> infoOf (nodeInfos c') name = infoOf (nodeInfos (scheduler_cache g)) name) /\
    (withinCapacity info -> withinCapacity info').
Proof.
  intros Hsc Hst Hmo Hfit Hext Hg0 Hmax Hv Hng Hrun Hu Habsent Hsched host.
  destruct (runCycles_ok mapOrder Hmo es (newSchedulerCache ttl0 g0) emptyAbs NewEmptySnapshot)
    as (c&s&Hrun'&Hr&Hs&Hgen); [by apply refines_empty|by apply snapOk_empty|done|cbn; lia|].
  rewrite Hrun in Hrun'. injection Hrun' as <- <-. pose proof (noGhost_abs _ _ Hr Hng) as Hngc.
  destruct (update_spec mapOrder Hmo _ _ _ Hr Hngc Hs) as (nt&s'&Hup&Hr'&Hs'&Hf&_).
  destruct (snapshotNodes_faithful _ _ _ Hs' Hf Hngc) as (allNodes&Hall&Hlive).
  destruct (Schedule_spec _ _ _ _ _ _ _ _ _ _ _ _ _ _ Hst Hext Hsched) as (Hpre&Hup'&nodes1&nodes&Hall'&Hok&(nd&Hnd&Hhost)&_).
  rewrite Hup in Hup'. injection Hup' as Hc' Hs''. rewrite <- Hs'', Hall in Hall'. injection Hall' as <-.
  destruct (Hok nd Hnd) as (info&Hin&Hnode&Hfeas). apply Hlive in Hin as (name&nd'&Hinfo&Hnode').
  rewrite Hnode in Hnode'. injection Hnode' as <-.
  assert (Hhasfilter : HasFilterPlugins f = true).
  { pose proof (uf_filter _ _ Hfit) as Hin. unfold HasFilterPlugins. destruct (filterPlugins f); [by apply elem_of_nil in Hin|done]. }
  pose proof (passes_accepts _ _ _ _ _ _ (Hfeas Hhasfilter) _ (uf_filter _ _ Hfit)) as Hacc.
  assert (Hname : name = host).
  { rewrite infoOf_infoMap in Hinfo. fold (cInfo (scheduler_cache g)) in Hinfo.
    pose proof (pl_live _ _ _ (rf_placed _ _ Hr) name) as Hl. rewrite Hinfo in Hl. cbn in Hl.
    unfold NodeOf in Hnode. rewrite Hnode in Hl. symmetry in Hl. apply (rf_named _ _ Hr) in Hl. unfold host. by rewrite <- Hl. }
  subst name. rewrite infoOf_infoMap in Hinfo. fold (cInfo (scheduler_cache g)) in Hinfo.
  set (p := withNodeName pod host).
  destruct (assume_adds (scheduler_cache g') p info) as (c'&gen&Hassume&Hat&Hother).
  { rewrite <- Hc'. apply (rf_ok _ _ Hr'). }
  { rewrite <- Hc'. cbn in *. lia. }
  { done. }
  { by rewrite <- Hc'. }
  { by rewrite <- Hc'. }
  exists info, c', (NodeInfo.AddPod gen info p).2. rewrite !infoOf_infoMap. split_and!; [done|done|done| | |].
  - apply AddPod_Requested.
  - intros name Hne. rewrite !infoOf_infoMap. specialize (Hother name Hne). rewrite <- Hc' in Hother. exact Hother.
  - intros Hw. apply (fitsRequest_iff scalarOrder Hsc); [|done|].
    + by eapply accounted_range, pl_acc; [apply Hr|].
    + pose proof (preFilterLoop_fit (preFilterPlugins f) pod NewCycleState
        (fun pl state => uf_key _ _ Hfit pl state pod) Hpre (or_introl (uf_prefilter _ _ Hfit))) as Hkey.
      cbn [Filter FitFilter] in Hacc. unfold getFitState, Read, RunPreFilterPlugins in Hacc. cbn in Hacc, Hkey. rewrite Hkey in Hacc.
      unfold p. rewrite withNodeName_request. by destruct (fitsRequest _ _ _ _ _).
Qed.

(** ** A witness *)
#[local] Existing Instance exampleLabels.
#[local] Existing Instance codePodPriority.

Definition fitFramework : frameworkImpl :=
  {| preFilterPlugins := [FitPreFilter]; filterPlugins := [FitFilter scalarsInOrder ∅ ∅];
     preScorePlugins := []; scorePlugins := []; pluginNameToWeightMap := ∅; runAllFilters := false |}.
(** The pod asks for half of the memory of the first node and all of the second. *)
Definition admittedPod : Pod := simplePod "p9" "ns" "uid9" "" [simpleContainer 3000 4000].
Definition runAdmission := Schedule anyOrder id 10 (fun _ _ => inl "no claims") (fun _ _ => false)
  fitFramework NewPodNominator exampleSchedule NewCycleState admittedPod exampleScheduler.

Lemma scheduled_pod_never_overcommits_witness :
  exists res g' state', runAdmission = Some (Ok res, g', state') /\
    exists info c' info', infoOf (nodeInfos (scheduler_cache exampleScheduler)) (SuggestedHost res) = Some info /\
      AssumePod (withNodeName admittedPod (SuggestedHost res)) (scheduler_cache g') = (Ok tt, c') /\
      infoOf (nodeInfos c') (SuggestedHost res) = Some info' /\ (withinCapacity info -> withinCapacity info').
Proof.
  pose proof (fun res g' state' => scheduled_pod_never_overcommits scalarsInOrder anyOrder id 10
    (fun _ _ => inl "no claims") (fun _ _ => false) fitFramework NewPodNominator exampleSchedule state' admittedPod
    exampleScheduler g' res 30 0 exampleSetup) as Hs.
  destruct runAdmission as [[[[res|e|] g'] state']|] eqn:E; [|vm_compute in E; discriminate..].
  exists res, g', state'. split; [reflexivity|].
  destruct (Hs res g' state') as (info&c'&info'&Hi&Ha&Hi'&_&_&Hw); [..|exact E|exists info, c', info'; split_and!; assumption].
  - intros m. reflexivity.
  - intros m. reflexivity.
  - intros l. reflexivity.
  - split; [left|left|]. intros pl state pod Hin%list_elem_of_singleton. left. exact Hin.
  - apply Forall_nil. exact I.
  - lia.
  - vm_compute. discriminate.
  - unfold exampleSetup. cbn [validCycles validEvent].
    split_and!; lazymatch goal with |- True => exact I | _ => vm_compute; discriminate end.
  - intros k ph p Hk. vm_compute in Hk. discriminate.
  - vm_compute. reflexivity.
  - vm_compute. discriminate.
  - vm_compute. reflexivity.
Defined.
