(* ===== verification/PodChanges.v ===== *)
(** * Pods that come and go on one node

    The dry runs of the scheduler - a node with the pods nominated to it, a node without
    the victims of a preemption - change the node info of one node and tell the prefilter
    plugins of every pod by [AddPod] and [RemovePod].  A plugin promises that its state
    stays the one it would compute from scratch; this file states the promise as a class
    and draws the conclusion for any sequence of changes. *)
From S2P Require Import Prelude Api NodeInfo.
Local Open Scope Z_scope.

Inductive podChange := PodAdded (p : Pod) | PodRemoved (p : Pod).

Definition changedPod (ch : podChange) : Pod := match ch with PodAdded p | PodRemoved p => p end.
Definition changeDelta (ch : podChange) : Z := match ch with PodAdded _ => 1 | PodRemoved _ => -1 end.

Section Changes.
Context `{LabelsLib}.

Definition validChange (n : NodeInfo) (ch : podChange) : Prop :=
  match ch with
  | PodAdded p => pod_UID p <> "" /\ pod_UID p ∉ podUIDs n
  | PodRemoved p => p ∈ pi_Pod <$> Pods n
  end.

(** The node info after the change, with the next generation. *)
Definition changeNode (r : Z * NodeInfo) (ch : podChange) : Z * NodeInfo :=
  match ch with
  | PodAdded p => NodeInfo.AddPod r.1 r.2 p
  | PodRemoved p => (NodeInfo.RemovePod r.1 r.2 p).2
  end.

(** The pods of the node before and after, as collections. *)
Definition changesPods (ch : podChange) (before after : list PodInfo) : Prop :=
  match ch with
  | PodAdded p => after ≡ₚ NewPodInfo p :: before
  | PodRemoved p => exists x, pi_Pod x = p /\ x ∈ before /\ before ≡ₚ x :: after
  end.

Lemma changeNode_spec r ch :
  accounted r.2 -> validChange r.2 ch ->
  accounted (changeNode r ch).2 /\ node (changeNode r ch).2 = node r.2 /\
  changesPods ch (Pods r.2) (Pods (changeNode r ch).2).
Proof.
  intros Ha Hv. destruct r as [g n], ch as [p|p]; cbn in *.
  - destruct Hv as [Hne Hnew]. pose proof (AddPod_accounted g n p Ha Hne Hnew).
    unfold NodeInfo.AddPod in *. destruct (calculateResource p) as [[? ?] ?]. split_and!; [done..|].
    cbn. apply (Permutation_app_comm (Pods n) [_]).
  - apply list_elem_of_fmap in Hv as (x&->&Hx). destruct (RemovePod_accounted g n x Ha Hx) as (n'&->&?&?&?&?).
    cbn. split_and!; [done..|]. by exists x.
Qed.

(** ** The promise of a plugin *)
Class TracksPods (St : Type) : Type := {
  (** What a pod that is added to or removed from a node does to the state; [None] is a panic. *)
  tracks_update : St -> Pod -> option Node -> Z -> option St;
  (** The state is that of the nodes, as far as changes to the node at the index matter. *)
  tracks : list NodeInfo -> nat -> St -> Prop;
  (** The changes that the plugin can follow. *)
  tracks_valid : list NodeInfo -> nat -> podChange -> Prop;
  tracks_step (nodes : list NodeInfo) (i : nat) (s : St) (n n' : NodeInfo) (ch : podChange) :
    tracks nodes i s -> nodes !! i = Some n -> tracks_valid nodes i ch -> node n' = node n ->
    accounted n -> accounted n' -> changesPods ch (Pods n) (Pods n') ->
    exists s', tracks_update s (changedPod ch) (NodeOf n') (changeDelta ch) = Some s' /\ tracks (<[i := n']> nodes) i s'
}.

Section Replay.
Context {St : Type} `{TracksPods St}.

(** A dry run: the node info and the state after the changes. *)
Fixpoint replay (chs : list podChange) (r : Z * NodeInfo) (s : St) : option ((Z * NodeInfo) * St) :=
  match chs with
  | [] => Some (r, s)
  | ch :: chs =>
      let r := changeNode r ch in
      s ← tracks_update s (changedPod ch) (NodeOf r.2) (changeDelta ch); replay chs r s
  end.

Fixpoint validChanges (chs : list podChange) (nodes : list NodeInfo) (i : nat) (r : Z * NodeInfo) : Prop :=
  match chs with
  | [] => True
  | ch :: chs => validChange r.2 ch /\ tracks_valid nodes i ch /\
      validChanges chs (<[i := (changeNode r ch).2]> nodes) i (changeNode r ch)
  end.

(** The state after any changes is one of the changed nodes. *)
Lemma replay_tracks chs : forall nodes i r s,
  tracks nodes i s -> nodes !! i = Some r.2 -> accounted r.2 -> validChanges chs nodes i r ->
  exists r' s', replay chs r s = Some (r', s') /\ tracks (<[i := r'.2]> nodes) i s' /\ node r'.2 = node r.2.
Proof.
  induction chs as [|ch chs IH]; intros nodes i r s Ht Hi Ha Hv; cbn [replay].
  - exists r, s. by rewrite list_insert_id.
  - destruct Hv as (Hv&Htv&Hvs). destruct (changeNode_spec r ch Ha Hv) as (Ha'&Hn&Hp).
    destruct (tracks_step nodes i s r.2 (changeNode r ch).2 ch) as (s'&->&Ht'); [done..|]. cbn.
    destruct (IH (<[i := (changeNode r ch).2]> nodes) i (changeNode r ch) s') as (r'&s''&->&Ht''&Hn'); [done| |done..|].
    { apply list_lookup_insert_eq. by eapply lookup_lt_Some. }
    exists r', s''. rewrite list_insert_insert_eq in Ht''. by rewrite Hn', Hn.
Qed.
End Replay.
End Changes.

(** ** Objects for examples *)
Definition podWith (uid node : string) (labels : LabelSet) (deletion : option Z) (affinity : option Affinity) (nodeSelector : LabelSet)
    (constraints : list TopologySpreadConstraint) : Pod :=
  {| pod_Name := uid; pod_Namespace := "ns"; pod_UID := uid; pod_Labels := labels;
     pod_Annotations := ∅; ManagedFields := ""; Finalizers := []; DeletionTimestamp := deletion;
     pod_ResourceVersion := ""; pod_Generation := 0;
     pod_Spec := {| NodeName := node; SchedulerName := "default-scheduler"; Containers := [];
       InitContainers := []; Overhead := None; PodAffinitySpec := affinity; NodeSelector := nodeSelector;
       Tolerations := []; Volumes := []; TopologySpreadConstraints := constraints;
       PreemptionPolicy := None; pod_Rest := "" |};
     pod_Status := noStatus |}.
Definition zoneNode (name zone : string) : Node :=
  {| node_Name := name; node_Labels := {[ "zone" := zone; "name" := name ]}; node_Unschedulable := false; node_Taints := [];
     node_Allocatable := ∅; node_Images := []; node_Conditions := [] |}.
Definition infoWith `{LabelsLib} (nd : Node) (pods : list Pod) : NodeInfo :=
  foldl (fun n p => (NodeInfo.AddPod 1 n p).2) (SetNode 1 (NewNodeInfo 0 []).2 nd).2 pods.

Lemma accounted_SetNode `{LabelsLib} n g nd : accounted n -> accounted (SetNode g n nd).2.
Proof. intros []. by split. Qed.
