(* ===== verification/PodTopologySpread.v ===== *)
(** * The plugin PodTopologySpread (plugins/podtopologyspread, helper/spread.go)

    The filter part of the plugin: the counts of the matching pods per topology, the two
    critical paths per topology key, and their updates for pods that are added to or
    removed from a node.  A nil dereference is [Panic] or [None]. *)
From S2P Require Import Prelude Api NodeInfo Framework PluginData.
Local Open Scope Z_scope.

(** ** Third-party code: selectors, their requirements and the listers of client-go *)
Class SelectorLib : Type := {
  SelectorFromSet : LabelSet -> Selector;
  SelectorFromValidatedSet : LabelSet -> Selector;
  NewSelector : Selector;
  (** [selector.Add(other.Requirements()...)]; [None] when [other] has no requirements to give. *)
  AddRequirementsOf : Selector -> Selector -> option Selector;
  MergeLabels : LabelSet -> LabelSet -> LabelSet;
  LabelSelectorError : option LabelSelector -> string
}.

(** The objects that select a pod; [None] is an error of the lister. *)
Record spreadListers := {
  ServicesOf : string -> option (list (option LabelSet));
  GetPodControllers : Pod -> option (list LabelSet);
  GetPodReplicaSets : Pod -> option (list (option LabelSelector));
  GetPodStatefulSets : Pod -> option (list (option LabelSelector))
}.

(** ** Node selectors (helper/node_affinity.go) *)
Section Helpers.
Context `{LabelsLib, SelectorLib}.

Definition nodeMatchesNodeSelectorTerms (node : Node) (nodeSelectorTerms : list string) : bool := false.

Definition PodMatchesNodeSelectorAndAffinityTerms (pod : Pod) (node : Node) : bool :=
  if bool_decide (NodeSelector (pod_Spec pod) <> ∅) &&
     negb (Matches (SelectorFromSet (NodeSelector (pod_Spec pod))) (node_Labels node)) then false
  else
    match PodAffinitySpec (pod_Spec pod) ≫= af_NodeAffinity with
    | Some nodeAffinity =>
        match na_Required nodeAffinity with
        | None => true
        | Some terms => true && nodeMatchesNodeSelectorTerms node terms
        end
    | None => true
    end.

(** ** Default selectors (helper/spread.go) *)
Definition GetPodServices (sl : spreadListers) (pod : Pod) : option (list (option LabelSet)) :=
  allServices ← ServicesOf sl (pod_Namespace pod);
  Some (filter (fun selector =>
    from_option (fun set => Matches (SelectorFromValidatedSet set) (pod_Labels pod)) false selector = true) allServices).

(** The loops over the replica sets and the stateful sets. *)
Definition addSelectors (selector : Selector) (selectors : option (list (option LabelSelector))) : Selector :=
  foldl (fun selector ls =>
    match LabelSelectorAsSelector ls with
    | Some other => default selector (AddRequirementsOf selector other)
    | None => selector
    end) selector (default [] selectors).

Definition DefaultSelector (pod : Pod) (sl : spreadListers) : Selector :=
  let labelSet := foldl (fun set service => MergeLabels set (default ∅ service)) ∅ (default [] (GetPodServices sl pod)) in
  let labelSet := foldl MergeLabels labelSet (default [] (GetPodControllers sl pod)) in
  let selector := if decide (labelSet = ∅) then NewSelector else SelectorFromSet labelSet in
  addSelectors (addSelectors selector (GetPodReplicaSets sl pod)) (GetPodStatefulSets sl pod).
End Helpers.

(** ** Constraints (common.go) *)
Definition DoNotSchedule : string := "DoNotSchedule".
Definition ScheduleAnyway : string := "ScheduleAnyway".

Section Spread.
Context `{LabelsLib, SelectorLib}.

(** An error is that of the first selector that does not convert. *)
Fixpoint filterTopologySpreadConstraints (constraints : list TopologySpreadConstraint) (action : string)
    : string + list topologySpreadConstraint :=
  match constraints with
  | [] => inr []
  | c :: constraints =>
      if decide (tsc_WhenUnsatisfiable c = action) then
        match LabelSelectorAsSelector (tsc_LabelSelector c) with
        | None => inl (LabelSelectorError (tsc_LabelSelector c))
        | Some selector =>
            match filterTopologySpreadConstraints constraints action with
            | inl err => inl err
            | inr rest =>
                inr ({| sc_MaxSkew := tsc_MaxSkew c; sc_TopologyKey := tsc_TopologyKey c; sc_Selector := selector |} :: rest)
            end
        end
      else filterTopologySpreadConstraints constraints action
  end.

(** The plugin: [.DefaultConstraints] of its arguments and its listers. *)
Record PodTopologySpread := { DefaultConstraints : list TopologySpreadConstraint; listers : spreadListers }.

Definition defaultConstraints (pl : PodTopologySpread) (p : Pod) (action : string)
    : string + list topologySpreadConstraint :=
  match filterTopologySpreadConstraints (DefaultConstraints pl) action with
  | inl err => inl err
  | inr [] => inr []
  | inr constraints =>
      let selector := DefaultSelector p (listers pl) in
      if SelectorEmpty selector then inr []
      else inr ((fun c => {| sc_MaxSkew := sc_MaxSkew c; sc_TopologyKey := sc_TopologyKey c; sc_Selector := selector |})
                  <$> constraints)
  end.

Definition nodeLabelsMatchSpreadConstraints (nodeLabels : LabelSet) (constraints : list topologySpreadConstraint) : bool :=
  forallb (fun c => bool_decide (is_Some (nodeLabels !! sc_TopologyKey c))) constraints.

Definition countsForSelector (selector : Selector) (ns : string) (pod : Pod) : bool :=
  match DeletionTimestamp pod with
  | Some _ => false
  | None => bool_decide (pod_Namespace pod = ns) && Matches selector (pod_Labels pod)
  end.
Definition countPodsMatchSelector (podInfos : list PodInfo) (selector : Selector) (ns : string) : Z :=
  Z.of_nat (length (filter (fun p => countsForSelector selector ns (pi_Pod p) = true) podInfos)).

(** ** Critical paths (filtering.go) *)
Definition MaxInt32 : Z := 2 ^ 31 - 1.
Definition newCriticalPaths : criticalPaths :=
  let p := {| TopologyValue := ""; MatchNum := MaxInt32 |} in {| path0 := p; path1 := p |}.

Definition swapPaths (p : criticalPaths) : criticalPaths :=
  if MatchNum (path1 p) <? MatchNum (path0 p) then {| path0 := path1 p; path1 := path0 p |} else p.

Definition updatePaths (p : criticalPaths) (tpVal : string) (num : Z) : criticalPaths :=
  let this := {| TopologyValue := tpVal; MatchNum := num |} in
  if decide (tpVal = TopologyValue (path0 p)) then swapPaths {| path0 := this; path1 := path1 p |}
  else if decide (tpVal = TopologyValue (path1 p)) then swapPaths {| path0 := path0 p; path1 := this |}
  else if num <? MatchNum (path0 p) then {| path0 := this; path1 := path0 p |}
  else if num <? MatchNum (path1 p) then {| path0 := path0 p; path1 := this |}
  else p.

(** ** The state *)

(** The pair of a node for a constraint; a label that is not there reads as the empty string. *)
Definition pairOf (node : Node) (c : topologySpreadConstraint) : topologyPair :=
  (sc_TopologyKey c, default "" (node_Labels node !! sc_TopologyKey c)).

Definition initialCounts (pod : Pod) (constraints : list topologySpreadConstraint) (allNodes : list NodeInfo)
    : gmap topologyPair Z :=
  foldl (fun counts n =>
    match NodeOf n with
    | None => counts
    | Some node =>
        if PodMatchesNodeSelectorAndAffinityTerms pod node && nodeLabelsMatchSpreadConstraints (node_Labels node) constraints
        then foldl (fun counts c => <[pairOf node c := 0]> counts) counts constraints
        else counts
    end) ∅ allNodes.

(** What the pieces of work of one node add, each an atomic addition; [None] is a panic. *)
Definition constraintAdds (pod : Pod) (counts : gmap topologyPair Z) (n : NodeInfo) (node : Node)
    (c : topologySpreadConstraint) : list (topologyPair * Z) :=
  match counts !! pairOf node c with
  | None => []
  | Some _ => [(pairOf node c, wrap32 (countPodsMatchSelector (Pods n) (sc_Selector c) (pod_Namespace pod)))]
  end.
Definition processNode (pod : Pod) (constraints : list topologySpreadConstraint) (counts : gmap topologyPair Z)
    (n : NodeInfo) : option (list (topologyPair * Z)) :=
  node ← NodeOf n;
  Some (constraints ≫= constraintAdds pod counts n node).

Definition atomicAdd (counts : gmap topologyPair Z) (add : topologyPair * Z) : gmap topologyPair Z :=
  alter (fun count => wrap32 (count + add.2)) add.1 counts.

(** The order of the atomic additions and the order in which a map is traversed. *)
Context (addOrder : list (topologyPair * Z) -> list (topologyPair * Z))
  (pairOrder : gmap topologyPair Z -> list (topologyPair * Z)).

Definition minPaths (constraints : list topologySpreadConstraint) (counts : gmap topologyPair Z)
    : gmap string criticalPaths :=
  let paths := foldl (fun paths c => <[sc_TopologyKey c := newCriticalPaths]> paths) ∅ constraints in
  foldl (fun paths '((key, value), num) => alter (fun p => updatePaths p value num) key paths) paths (pairOrder counts).

(** The constraints of the pod, or those of the plugin for the pods without any. *)
Definition hardConstraints (pl : PodTopologySpread) (pod : Pod) : string + list topologySpreadConstraint :=
  match TopologySpreadConstraints (pod_Spec pod) with
  | [] =>
      match defaultConstraints pl pod DoNotSchedule with
      | inl err => inl (String.append "setting default hard topology spread constraints: " err)
      | inr cs => inr cs
      end
  | podConstraints =>
      match filterTopologySpreadConstraints podConstraints DoNotSchedule with
      | inl err => inl (String.append "obtaining pod's hard topology spread constraints: " err)
      | inr cs => inr cs
      end
  end.

Definition calPreFilterState (pl : PodTopologySpread) (pod : Pod) (allNodes : list NodeInfo) : result string spreadState :=
  match hardConstraints pl pod with
  | inl err => Err err
  | inr [] => Ok {| Constraints := []; TpKeyToCriticalPaths := ∅; TpPairToMatchNum := ∅ |}
  | inr constraints =>
      let zeros := initialCounts pod constraints allNodes in
      match mapM (processNode pod constraints zeros) allNodes with
      | None => Panic
      | Some adds =>
          let counts := foldl atomicAdd zeros (addOrder (concat adds)) in
          Ok {| Constraints := constraints; TpKeyToCriticalPaths := minPaths constraints counts;
                TpPairToMatchNum := counts |}
      end
  end.

(** The loop of [updateWithPod]; [None] is the dereference of a nil counter or path. *)
Fixpoint updateLoop (constraints : list topologySpreadConstraint) (labels : LabelSet) (node : Node) (delta : Z)
    (s : spreadState) : option spreadState :=
  match constraints with
  | [] => Some s
  | c :: constraints =>
      if negb (Matches (sc_Selector c) labels) then updateLoop constraints labels node delta s
      else
        let '(k, v) := pairOf node c in
        num ← TpPairToMatchNum s !! (k, v);
        let num := wrap32 (num + delta) in
        paths ← TpKeyToCriticalPaths s !! k;
        updateLoop constraints labels node delta
          {| Constraints := Constraints s;
             TpKeyToCriticalPaths := <[k := updatePaths paths v num]> (TpKeyToCriticalPaths s);
             TpPairToMatchNum := <[(k, v) := num]> (TpPairToMatchNum s) |}
  end.

Definition updateWithPod (s : spreadState) (updatedPod preemptorPod : Pod) (node : option Node) (delta : Z)
    : option spreadState :=
  match node with
  | None => Some s
  | Some node =>
      if bool_decide (pod_Namespace updatedPod <> pod_Namespace preemptorPod) then Some s
      else if negb (nodeLabelsMatchSpreadConstraints (node_Labels node) (Constraints s)) then Some s
      else updateLoop (Constraints s) (pod_Labels updatedPod) node delta s
  end.

(** ** The plugin *)
Definition spreadStateKey : string := "PreFilterPodTopologySpread".
Definition ErrReasonConstraintsNotMatch : string := "node(s) didn't match pod topology spread constraints".
Definition ErrReasonNodeLabelNotMatch : string :=
  String.append ErrReasonConstraintsNotMatch " (missing required label)".

(** [None] is a panic. *)
Definition SpreadPreFilter (pl : PodTopologySpread) (allNodes : list NodeInfo) (cycleState : CycleState) (pod : Pod)
    : option (Status * CycleState) :=
  match calPreFilterState pl pod allNodes with
  | Ok s => Some (None, Write cycleState spreadStateKey (SpreadData s))
  | Err err => Some (NewStatus Error [err], cycleState)
  | Panic => None
  end.

Definition getSpreadState (cycleState : CycleState) : string + spreadState :=
  match Read cycleState spreadStateKey with
  | None => inl (notRead spreadStateKey)
  | Some (SpreadData s) => inr s
  | Some _ => inl "convert to podtopologyspread.preFilterState error"
  end.

(** [AddPod] and [RemovePod], with the number that they add. *)
Definition spreadExtension (delta : Z) (cycleState : CycleState) (podToSchedule other : Pod) (nodeInfo : NodeInfo)
    : option (Status * CycleState) :=
  match getSpreadState cycleState with
  | inl err => Some (NewStatus Error [err], cycleState)
  | inr s =>
      s ← updateWithPod s other podToSchedule (NodeOf nodeInfo) delta;
      Some (None, Write cycleState spreadStateKey (SpreadData s))
  end.
Definition SpreadAddPod : CycleState -> Pod -> Pod -> NodeInfo -> option (Status * CycleState) := spreadExtension 1.
Definition SpreadRemovePod : CycleState -> Pod -> Pod -> NodeInfo -> option (Status * CycleState) := spreadExtension (-1).

(** The verdict on one constraint: the reason of the refusal, if any. *)
Definition violates (s : spreadState) (pod : Pod) (node : Node) (c : topologySpreadConstraint) : Status :=
  match node_Labels node !! sc_TopologyKey c with
  | None => NewStatus UnschedulableAndUnresolvable [ErrReasonNodeLabelNotMatch]
  | Some tpVal =>
      match TpKeyToCriticalPaths s !! sc_TopologyKey c with
      | None => None
      | Some paths =>
          let selfMatchNum := if Matches (sc_Selector c) (pod_Labels pod) then 1 else 0 in
          let minMatchNum := MatchNum (path0 paths) in
          let matchNum := default 0 (TpPairToMatchNum s !! (sc_TopologyKey c, tpVal)) in
          let skew := wrap32 (wrap32 (matchNum + selfMatchNum) - minMatchNum) in
          if sc_MaxSkew c <? skew then NewStatus Unschedulable [ErrReasonConstraintsNotMatch] else None
      end
  end.
Fixpoint spreadLoop (s : spreadState) (pod : Pod) (node : Node) (constraints : list topologySpreadConstraint) : Status :=
  match constraints with
  | [] => None
  | c :: constraints =>
      match violates s pod node c with
      | None => spreadLoop s pod node constraints
      | st => st
      end
  end.

Definition SpreadFilter : FilterPlugin :=
  {| filter_Name := "PodTopologySpread";
     Filter cycleState pod nodeInfo :=
       match NodeOf nodeInfo with
       | None => NewStatus Error ["node not found"]
       | Some node =>
           match getSpreadState cycleState with
           | inl err => NewStatus Error [err]
           | inr s =>
               if decide (TpPairToMatchNum s = ∅) then None
               else spreadLoop s pod node (Constraints s)
           end
       end |}.
End Spread.
