(* ===== verification/TopologySpreadSpec.v ===== *)
(** * What PodTopologySpread promises

    The counts of the plugin are those of the pods of the cluster, the first critical path
    has the least of them, and both stay so while pods come and go on one node; the filter
    admits a node exactly when the skew of every constraint stays within its bound. *)
From S2P Require Import Prelude Api NodeInfo Framework PluginData PodChanges PodTopologySpread.
Local Open Scope Z_scope.

(** ** Critical paths

    [cnt] gives the count of every value of a topology key. *)
Section Critical.
Implicit Types (cnt : string -> option Z) (p : criticalPaths) (v w : string).

Definition emptyPath : criticalPath := {| TopologyValue := ""; MatchNum := MaxInt32 |}.

(** Nothing counted; one value; or two values.  In the last case no other value
    has less than the second path, unless one path is that of [v], the value whose count
    may change: then no other value has less than the other path. *)
Inductive critical cnt v : criticalPaths -> Prop :=
  | NoValue : (forall w, cnt w = None) -> critical cnt v newCriticalPaths
  | OneValue a na : cnt a = Some na -> (forall w z, cnt w = Some z -> w = a) -> na <= MaxInt32 ->
      critical cnt v {| path0 := {| TopologyValue := a; MatchNum := na |}; path1 := emptyPath |}
  | TwoValues a b na nb : cnt a = Some na -> cnt b = Some nb -> a <> b -> na <= nb ->
      (forall w z, cnt w = Some z -> w <> a -> w <> b -> na <= z /\ (v <> b -> nb <= z)) ->
      critical cnt v {| path0 := {| TopologyValue := a; MatchNum := na |};
                        path1 := {| TopologyValue := b; MatchNum := nb |} |}.

(** No value has less than the second path: the state after the first pass. *)
Definition settled cnt p : Prop := forall v, critical cnt v p.

Lemma critical_least cnt v p w z : critical cnt v p -> cnt w = Some z ->
  exists a, cnt a = Some (MatchNum (path0 p)) /\ MatchNum (path0 p) <= z.
Proof.
  intros [Hn|a na Ha Ho ?|a b na nb Ha Hb Hab Hle Ho] Hw; cbn.
  - congruence.
  - exists a. split; [done|]. rewrite (Ho w z Hw) in Hw. rewrite Hw in Ha. by injection Ha as ->.
  - exists a. split; [done|]. destruct (decide (w = a)) as [->|Hwa]; [rewrite Hw in Ha; by injection Ha as ->|].
    destruct (decide (w = b)) as [->|Hwb]; [rewrite Hw in Hb; by injection Hb as ->|]. by apply (Ho w z).
Qed.

Definition setCount cnt v num : string -> option Z := fun w => if decide (w = v) then Some num else cnt w.

Lemma critical_ext cnt cnt' v p : (forall w, cnt w = cnt' w) -> critical cnt v p -> critical cnt' v p.
Proof.
  intros Hext Hp. destruct Hp as [Hn|a na Ha Ho Hmax|a b na nb Ha Hb Hab Hle Ho].
  - apply NoValue. intros w. by rewrite <- Hext.
  - apply OneValue; [by rewrite <- Hext| |done]. intros w z. rewrite <- Hext. apply Ho.
  - apply TwoValues; rewrite <- ?Hext; try done. intros w z. rewrite <- Hext. apply Ho.
Qed.

(** Changing the count of [v]. *)
Lemma updatePaths_change cnt v p num :
  critical cnt v p -> is_Some (cnt v) -> num <= MaxInt32 -> critical (setCount cnt v num) v (updatePaths p v num).
Proof.
  intros Hp [old Hv] Hnum. destruct Hp as [Hn|a na Ha Ho Hmax|a b na nb Ha Hb Hab Hle Ho]; [congruence| |].
  - assert (v = a) as -> by (by eapply Ho). unfold updatePaths. cbn. rewrite decide_True by done. unfold swapPaths. cbn.
    destruct (Z.ltb_spec MaxInt32 num); [lia|]. apply OneValue; [by unfold setCount; rewrite decide_True| |done].
    intros w z. unfold setCount. destruct (decide (w = a)); [done|]. apply Ho.
  - assert (Hset : forall w z, w <> v -> setCount cnt v num w = Some z -> cnt w = Some z).
    { intros w z Hw. unfold setCount. by rewrite decide_False. }
    assert (Hother : forall w, w <> v -> setCount cnt v num w = cnt w).
    { intros w Hw. unfold setCount. by rewrite decide_False. }
    assert (Hself : setCount cnt v num v = Some num) by (unfold setCount; by rewrite decide_True).
    unfold updatePaths, swapPaths. cbn. destruct (decide (v = a)) as [->|Hva]; cbn.
    + destruct (Z.ltb_spec nb num); cbn; apply TwoValues; rewrite ?Hother by done; try done; try lia; try congruence;
        intros w z Hw H1 H2; assert (Hw' : cnt w = Some z) by (apply Hset; [congruence|done]);
        destruct (Ho w z Hw' ltac:(congruence) ltac:(congruence)) as [? Hb2]; specialize (Hb2 ltac:(congruence)); (split; [lia|first [congruence|lia]]).
    + destruct (decide (v = b)) as [->|Hvb]; cbn.
      * destruct (Z.ltb_spec num na); cbn; apply TwoValues; rewrite ?Hother by done; try done; try lia; try congruence;
          intros w z Hw H1 H2; assert (Hw' : cnt w = Some z) by (apply Hset; [congruence|done]);
          destruct (Ho w z Hw' ltac:(congruence) ltac:(congruence)) as [? _]; (split; [lia|first [congruence|lia]]).
      * assert (Hrest : forall w z, setCount cnt v num w = Some z -> w <> a -> w <> v -> na <= z /\ (w = b \/ nb <= z)).
        { intros w z Hw H1 H2. apply Hset in Hw; [|done]. destruct (decide (w = b)) as [->|Hwb].
          - rewrite Hw in Hb. injection Hb as ->. split; [lia|by left].
          - destruct (Ho w z Hw H1 Hwb) as [? Hb2]. split; [done|right]. by apply Hb2. }
        destruct (Z.ltb_spec num na); [|destruct (Z.ltb_spec num nb)]; apply TwoValues; rewrite ?Hother by done; try done; try lia; try congruence.
        -- intros w z Hw H1 H2. destruct (Hrest w z Hw H2 H1). split; [lia|done].
        -- intros w z Hw H1 H2. destruct (Hrest w z Hw H1 H2). split; [lia|congruence].
        -- intros w z Hw H1 H2. destruct (decide (w = v)) as [->|Hwv].
           ++ rewrite Hself in Hw. injection Hw as <-. split; lia.
           ++ destruct (Hrest w z Hw H1 Hwv) as [? [->|?]]; [done|]. by split.
Qed.

(** Adding a value that was not counted. *)
Lemma updatePaths_new cnt v p num :
  settled cnt p -> cnt v = None -> num < MaxInt32 -> settled (setCount cnt v num) (updatePaths p v num).
Proof.
  intros Hp Hv Hnum u. specialize (Hp "") as Hp0.
  assert (Hother : forall w, w <> v -> setCount cnt v num w = cnt w).
  { intros w Hw. unfold setCount. by rewrite decide_False. }
  assert (Hself : setCount cnt v num v = Some num) by (unfold setCount; by rewrite decide_True).
  destruct Hp0 as [Hn|a na Ha Ho Hmax|a b na nb Ha Hb Hab Hle Ho].
  - assert (Hone : critical (setCount cnt v num) u {| path0 := {| TopologyValue := v; MatchNum := num |}; path1 := emptyPath |}).
    { apply OneValue; [done| |lia]. intros w z Hw. destruct (decide (w = v)) as [|Hne]; [done|].
      rewrite Hother in Hw by done. by rewrite Hn in Hw. }
    unfold updatePaths, newCriticalPaths, swapPaths. cbn. destruct (decide (v = "")) as [->|]; cbn.
    + destruct (Z.ltb_spec MaxInt32 num); [lia|done].
    + destruct (Z.ltb_spec num MaxInt32); [done|lia].
  - assert (Hva : v <> a) by congruence.
    assert (Htwo : forall z w, w <> a -> w <> v -> setCount cnt v num w <> Some z).
    { intros z w H1 H2 Hw. rewrite Hother in Hw by done. by apply Ho in Hw. }
    unfold updatePaths, swapPaths, emptyPath. cbn. rewrite decide_False by done.
    destruct (decide (v = "")) as [->|]; cbn; destruct (Z.ltb_spec num na); try destruct (Z.ltb_spec num MaxInt32); try lia;
      (apply TwoValues; rewrite ?Hother by done; try done; try lia; try congruence; intros w z Hw H1 H2; exfalso; by eapply Htwo).
  - assert (Hva : v <> a) by congruence. assert (Hvb : v <> b) by congruence.
    assert (Hall : forall w z, cnt w = Some z -> w <> a -> w <> b -> nb <= z).
    { intros w z Hw H1 H2. pose proof (Hp a) as Hpa. inversion Hpa; subst; try congruence; try (by exfalso; eauto).
      match goal with Hr : forall w z, _ -> _ -> _ -> _ /\ (?x <> _ -> _), Hx : w <> ?x |- _ => by apply (Hr w z) end. }
    unfold updatePaths, swapPaths. cbn. rewrite !decide_False by done.
    destruct (Z.ltb_spec num na); [|destruct (Z.ltb_spec num nb)]; apply TwoValues; rewrite ?Hother by done; try done; try lia.
    + intros w z Hw H1 H2. rewrite Hother in Hw by done. destruct (decide (w = b)) as [->|Hwb].
      * rewrite Hb in Hw. injection Hw as <-. split; lia.
      * specialize (Hall w z Hw H2 Hwb). split; lia.
    + intros w z Hw H1 H2. rewrite Hother in Hw by done. destruct (decide (w = b)) as [->|Hwb].
      * rewrite Hb in Hw. injection Hw as <-. split; lia.
      * specialize (Hall w z Hw H1 Hwb). split; lia.
    + intros w z Hw H1 H2. destruct (decide (w = v)) as [->|Hwv].
      * rewrite Hself in Hw. injection Hw as <-. split; lia.
      * rewrite Hother in Hw by done. specialize (Hall w z Hw H1 H2). split; lia.
Qed.

(** The first pass over all pairs, in any order. *)
Lemma buildPaths k (l : list (topologyPair * Z)) : forall (paths : gmap string criticalPaths) cnt p,
  paths !! k = Some p -> settled cnt p -> NoDup (l.*1) ->
  (forall v n, ((k, v), n) ∈ l -> cnt v = None /\ n < MaxInt32) ->
  exists p', foldl (fun paths '((key, value), num) => alter (fun p => updatePaths p value num) key paths) paths l !! k = Some p' /\
    settled (fun w => match (list_to_map l : gmap topologyPair Z) !! (k, w) with Some z => Some z | None => cnt w end) p'.
Proof.
  induction l as [|[[k' v'] n] l IH]; intros paths cnt p Hp Hs Hnd Hnew.
  { exists p. split; [done|]. intros v. eapply critical_ext; [|apply Hs]. intros w. cbn. by rewrite lookup_empty. }
  cbn [fmap list_fmap fst] in Hnd. apply NoDup_cons in Hnd as [Hout Hnd]. cbn [foldl].
  assert (Hnone : (list_to_map l : gmap topologyPair Z) !! (k', v') = None) by by apply not_elem_of_list_to_map_1.
  destruct (decide (k' = k)) as [->|Hk].
  - destruct (Hnew v' n) as [Hcv Hlt]; [left|].
    destruct (IH (alter (fun p => updatePaths p v' n) k paths) (setCount cnt v' n) (updatePaths p v' n)) as (p'&Hl&Hs').
    + by rewrite lookup_alter_eq, Hp.
    + by apply updatePaths_new.
    + done.
    + intros v z Hin. destruct (Hnew v z) as [? ?]; [by right|]. split; [|done]. unfold setCount.
      destruct (decide (v = v')) as [->|]; [|done]. destruct Hout. apply list_elem_of_fmap. by exists ((k, v'), z).
    + exists p'. split; [done|]. intros v. eapply critical_ext; [|apply Hs']. intros w. cbn.
      destruct (decide (w = v')) as [->|Hw].
      * rewrite Hnone, lookup_insert_eq. unfold setCount. by rewrite decide_True.
      * rewrite lookup_insert_ne by congruence. destruct (list_to_map l !! _); [done|]. unfold setCount. by rewrite decide_False.
  - destruct (IH (alter (fun p => updatePaths p v' n) k' paths) cnt p) as (p'&Hl&Hs'); [by rewrite lookup_alter_ne|done..| |].
    + intros v z Hin. apply Hnew. by right.
    + exists p'. split; [done|]. intros v. eapply critical_ext; [|apply Hs']. intros w. cbn.
      by rewrite lookup_insert_ne by congruence.
Qed.
End Critical.

(** ** The counts of a cluster *)
Lemma calPreFilterState_eq `{LabelsLib, SelectorLib} addOrder pairOrder pl pod constraints allNodes :
  hardConstraints pl pod = inr constraints -> constraints <> [] ->
  calPreFilterState addOrder pairOrder pl pod allNodes =
    match mapM (processNode pod constraints (initialCounts pod constraints allNodes)) allNodes with
    | None => Panic
    | Some adds =>
        let counts := foldl atomicAdd (initialCounts pod constraints allNodes) (addOrder (concat adds)) in
        Ok {| Constraints := constraints; TpKeyToCriticalPaths := minPaths pairOrder constraints counts;
              TpPairToMatchNum := counts |}
    end.
Proof. unfold calPreFilterState. intros -> Hne. by destruct constraints. Qed.

Section Counts.
Context `{LabelsLib, SelectorLib} (pod : Pod) (cs : list topologySpreadConstraint).
Context (cs_keys : NoDup (sc_TopologyKey <$> cs)).
Implicit Types (c : topologySpreadConstraint) (v : string) (n : NodeInfo) (allNodes : list NodeInfo).

Definition valueOn (nd : Node) c : string := default "" (node_Labels nd !! sc_TopologyKey c).

(** The nodes over whose labels the pod is spread, and the pairs of their labels. *)
Definition eligible (nd : Node) : bool :=
  PodMatchesNodeSelectorAndAffinityTerms pod nd && nodeLabelsMatchSpreadConstraints (node_Labels nd) cs.
Definition isPairOf (pr : topologyPair) n : bool :=
  match NodeOf n with
  | Some nd => eligible nd && existsb (fun c => bool_decide (pairOf nd c = pr)) cs
  | None => false
  end.
Definition isPair allNodes (pr : topologyPair) : bool := existsb (isPairOf pr) allNodes.

(** The pods on the nodes with the value [v] that the selector of [c] matches. *)
Definition matchingOn c v n : Z :=
  match NodeOf n with
  | Some nd => if decide (valueOn nd c = v) then countPodsMatchSelector (Pods n) (sc_Selector c) (pod_Namespace pod) else 0
  | None => 0
  end.
Definition matching allNodes c v : Z := sumOver (matchingOn c v) allNodes.

Definition podTotal allNodes : Z := sumOver (fun n => Z.of_nat (length (Pods n))) allNodes.

Lemma countPods_range l selector ns : 0 <= countPodsMatchSelector l selector ns <= Z.of_nat (length l).
Proof. unfold countPodsMatchSelector. pose proof (length_filter (fun p => countsForSelector selector ns (pi_Pod p) = true) l). lia. Qed.

Lemma matchingOn_range c v n : 0 <= matchingOn c v n <= Z.of_nat (length (Pods n)).
Proof.
  unfold matchingOn. destruct (NodeOf n); [|lia]. destruct (decide _); [apply countPods_range|lia].
Qed.

Lemma matching_range allNodes c v : 0 <= matching allNodes c v <= podTotal allNodes.
Proof.
  split; [apply sumOver_nonneg, list.Forall_forall; intros; apply matchingOn_range|].
  apply sumOver_le. intros n _. apply matchingOn_range.
Qed.

(** *** The first pass *)
Lemma insertPairs_lookup (nd : Node) l pr : forall counts : gmap topologyPair Z,
  foldl (fun counts c => <[pairOf nd c := 0]> counts) counts l !! pr =
    if existsb (fun c => bool_decide (pairOf nd c = pr)) l then Some 0 else counts !! pr.
Proof.
  induction l as [|c l IH]; intros counts; cbn; [done|]. rewrite IH.
  destruct (existsb _ l); [by rewrite orb_true_r|]. rewrite orb_false_r.
  case_bool_decide as Hp; [subst; by rewrite lookup_insert_eq|by rewrite lookup_insert_ne].
Qed.

Lemma initialCounts_lookup allNodes pr :
  initialCounts pod cs allNodes !! pr = if isPair allNodes pr then Some 0 else None.
Proof.
  unfold initialCounts, isPair. rewrite <- (lookup_empty (M := gmap topologyPair) (A := Z) pr).
  generalize (∅ : gmap topologyPair Z). induction allNodes as [|n l IH]; intros counts; cbn; [done|]. rewrite IH.
  destruct (existsb _ l); [by rewrite orb_true_r|]. rewrite orb_false_r. unfold isPairOf at 1.
  destruct (NodeOf n) as [nd|]; [|done]. fold (eligible nd). destruct (eligible nd); [apply insertPairs_lookup|done].
Qed.

(** *** The atomic additions *)
Definition addedTo (pr : topologyPair) (a : topologyPair * Z) : Z := if decide (a.1 = pr) then a.2 else 0.

Lemma addedTo_ne pr a : a.1 <> pr -> addedTo pr a = 0.
Proof. intros. unfold addedTo. by rewrite decide_False. Qed.
Lemma addedTo_eq a : addedTo a.1 a = a.2.
Proof. unfold addedTo. by rewrite decide_True. Qed.
Lemma atomicAdds_lookup adds pr : forall counts,
  Forall (fun a => 0 <= a.2) adds ->
  (counts !! pr = None -> foldl atomicAdd counts adds !! pr = None) /\
  (forall z, counts !! pr = Some z -> 0 <= z -> z + sumOver (addedTo pr) adds <= MaxInt32 ->
     foldl atomicAdd counts adds !! pr = Some (z + sumOver (addedTo pr) adds)).
Proof.
  induction adds as [|a adds IH]; intros counts Hnn; cbn [foldl].
  { split; [done|]. intros z Hz _ _. rewrite Hz. f_equal. cbn. lia. }
  apply Forall_cons in Hnn as [Ha Hnn]. destruct (IH (atomicAdd counts a) Hnn) as [IHn IHs].
  assert (Hs : 0 <= sumOver (addedTo pr) adds).
  { apply sumOver_nonneg. eapply Forall_impl; [done|]. cbn. intros b Hb. unfold addedTo. by destruct (decide _). }
  unfold atomicAdd in *. split.
  - intros Hc. apply IHn. destruct (decide (a.1 = pr)) as [<-|Hne]; [|by rewrite lookup_alter_ne].
    by rewrite lookup_alter_eq, Hc.
  - intros z Hz Hz0 Hmax. change (sumOver (addedTo pr) (a :: adds)) with (addedTo pr a + sumOver (addedTo pr) adds) in *.
    destruct (decide (a.1 = pr)) as [<-|Hne].
    + rewrite addedTo_eq in *.
      rewrite Z.add_assoc. unfold MaxInt32 in *. apply IHs; [|lia|lia].
      rewrite lookup_alter_eq, Hz. cbn. f_equal. apply wrap32_id. lia.
    + rewrite addedTo_ne in * by done.
      apply IHs; [by rewrite lookup_alter_ne|done|lia].
Qed.

(** What one node adds to the pair of a constraint. *)
Lemma constraintAdds_sum zeros n (nd : Node) c' c v : sc_TopologyKey c' <> sc_TopologyKey c ->
  sumOver (addedTo (sc_TopologyKey c, v)) (constraintAdds pod zeros n nd c') = 0.
Proof.
  intros Hne. unfold constraintAdds. destruct (zeros !! _); [|done]. rewrite sumOver_single.
  apply addedTo_ne. unfold pairOf. cbn. congruence.
Qed.

Lemma nodeAdds_sum (nd : Node) n c v zeros l : NoDup (sc_TopologyKey <$> l) -> c ∈ l ->
  is_Some (zeros !! (sc_TopologyKey c, v)) -> NodeOf n = Some nd -> Z.of_nat (length (Pods n)) <= MaxInt32 ->
  sumOver (addedTo (sc_TopologyKey c, v)) (l ≫= constraintAdds pod zeros n nd) = matchingOn c v n.
Proof.
  intros Hnd Hc [z Hz] Hn Hlen.
  assert (Hcons : forall k c', (c' :: k) ≫= constraintAdds pod zeros n nd =
    constraintAdds pod zeros n nd c' ++ (k ≫= constraintAdds pod zeros n nd)) by done.
  assert (Habsent : forall k, sc_TopologyKey c ∉ (sc_TopologyKey <$> k) ->
    sumOver (addedTo (sc_TopologyKey c, v)) (k ≫= constraintAdds pod zeros n nd) = 0).
  { induction k as [|c' k IH]; intros Hk; [done|]. cbn in Hk. apply not_elem_of_cons in Hk as [Hne Hk].
    rewrite Hcons, sumOver_app, IH, constraintAdds_sum by done. done. }
  induction l as [|c' l IH]; [by apply elem_of_nil in Hc|]. cbn in Hnd. apply NoDup_cons in Hnd as [Hnew Hnd].
  rewrite Hcons, sumOver_app. apply elem_of_cons in Hc as [<-|Hc].
  - rewrite Habsent by done. unfold matchingOn. rewrite Hn. unfold constraintAdds, pairOf. fold (valueOn nd c).
    destruct (decide (valueOn nd c = v)) as [->|Hv].
    + rewrite Hz. cbv iota. rewrite sumOver_single. change (sc_TopologyKey c, v) with (sc_TopologyKey c, v, wrap32 (countPodsMatchSelector (Pods n) (sc_Selector c) (pod_Namespace pod))).1 at 1.
      rewrite addedTo_eq. cbn. pose proof (countPods_range (Pods n) (sc_Selector c) (pod_Namespace pod)).
      unfold MaxInt32 in Hlen. rewrite wrap32_id; lia.
    + destruct (zeros !! (sc_TopologyKey c, valueOn nd c)); [|done]. rewrite sumOver_single, addedTo_ne; [done|]. cbn. congruence.
  - rewrite IH, constraintAdds_sum by (done || intros He; apply Hnew; rewrite He; by apply list_elem_of_fmap_2). done.
Qed.

Lemma adds_sum allNodes (zeros : gmap topologyPair Z) adds c v : c ∈ cs -> is_Some (zeros !! (sc_TopologyKey c, v)) -> podTotal allNodes <= MaxInt32 ->
  mapM (processNode pod cs zeros) allNodes = Some adds ->
  sumOver (addedTo (sc_TopologyKey c, v)) (concat adds) = matching allNodes c v.
Proof.
  intros Hc Hz. revert adds. induction allNodes as [|n l IH]; intros adds Hmax Hadds; cbn in Hadds.
  { by injection Hadds as <-. }
  change (podTotal (n :: l)) with (Z.of_nat (length (Pods n)) + podTotal l) in Hmax.
  assert (Hl : 0 <= podTotal l) by (apply sumOver_nonneg, list.Forall_forall; lia).
  destruct (processNode pod cs zeros n) as [add|] eqn:Hp; cbn in Hadds; [|done].
  destruct (mapM _ l) as [rest|] eqn:Hrest; cbn in Hadds; [|done]. injection Hadds as <-.
  unfold processNode in Hp. destruct (NodeOf n) as [nd|] eqn:Hn; cbn in Hp; [|done]. injection Hp as <-.
  cbn [concat]. rewrite sumOver_app.
  rewrite (nodeAdds_sum nd n c v zeros cs) by (done || lia). by rewrite IH by (done || lia).
Qed.

Lemma constraintAdds_nonneg zeros n (nd : Node) c : Z.of_nat (length (Pods n)) <= MaxInt32 ->
  Forall (fun a => 0 <= a.2) (constraintAdds pod zeros n nd c).
Proof.
  intros Hlen. unfold constraintAdds. destruct (zeros !! _); [|by constructor]. constructor; [|by constructor]. cbn.
  pose proof (countPods_range (Pods n) (sc_Selector c) (pod_Namespace pod)). unfold MaxInt32 in Hlen. rewrite wrap32_id; lia.
Qed.

Lemma podTotal_in allNodes n : n ∈ allNodes -> Z.of_nat (length (Pods n)) <= podTotal allNodes.
Proof.
  intros Hn. assert (Hl : forall l, 0 <= podTotal l) by (intros; apply sumOver_nonneg, list.Forall_forall; lia).
  assert (Hcons : forall m l, podTotal (m :: l) = Z.of_nat (length (Pods m)) + podTotal l) by done.
  induction Hn as [m l|m k l Hm IH]; rewrite Hcons; [specialize (Hl l)|]; lia.
Qed.

Lemma adds_nonneg allNodes zeros adds : podTotal allNodes <= MaxInt32 ->
  mapM (processNode pod cs zeros) allNodes = Some adds -> Forall (fun a => 0 <= a.2) (concat adds).
Proof.
  intros Hmax Hadds%mapM_Some. apply list.Forall_forall. intros a Ha. apply list_elem_of_In, in_concat in Ha as (add&Hadd&Ha).
  apply list_elem_of_In in Hadd, Ha. apply list_elem_of_lookup in Hadd as [i Hi].
  destruct (Forall2_lookup_r _ _ _ _ _ Hadds Hi) as (n&Hn&Hp). apply list_elem_of_lookup_2 in Hn.
  unfold processNode in Hp. destruct (NodeOf n) as [nd|]; cbn in Hp; [|done]. injection Hp as <-.
  apply list_elem_of_bind in Ha as (c&Ha&Hc). pose proof (podTotal_in _ _ Hn).
  pose proof (constraintAdds_nonneg zeros n nd c ltac:(lia)) as Hf. by apply (proj1 (list.Forall_forall _ _) Hf a).
Qed.

(** The counts that the first pass leaves. *)
Lemma counts_lookup allNodes adds adds' : podTotal allNodes <= MaxInt32 -> adds' ≡ₚ concat adds ->
  mapM (processNode pod cs (initialCounts pod cs allNodes)) allNodes = Some adds ->
  let counts := foldl atomicAdd (initialCounts pod cs allNodes) adds' in
  (forall pr, isPair allNodes pr = false -> counts !! pr = None) /\
  (forall c v, c ∈ cs -> isPair allNodes (sc_TopologyKey c, v) = true ->
     counts !! (sc_TopologyKey c, v) = Some (matching allNodes c v)).
Proof.
  intros Hmax Hperm Hadds counts. pose proof (adds_nonneg _ _ _ Hmax Hadds) as Hnn. rewrite <- Hperm in Hnn. split.
  - intros pr Hpr. apply atomicAdds_lookup; [done|]. by rewrite initialCounts_lookup, Hpr.
  - intros c v Hc Hpr. assert (Hz : initialCounts pod cs allNodes !! (sc_TopologyKey c, v) = Some 0) by by rewrite initialCounts_lookup, Hpr.
    pose proof (adds_sum allNodes _ adds c v Hc (ltac:(by eexists)) Hmax Hadds) as Hsum. rewrite <- Hperm in Hsum.
    pose proof (matching_range allNodes c v). unfold counts.
    rewrite (proj2 (atomicAdds_lookup adds' (sc_TopologyKey c, v) _ Hnn) 0 Hz); [f_equal; lia|lia|lia].
Qed.

(** *** The paths after the first pass *)
Lemma zeroPaths_lookup l k : forall paths : gmap string criticalPaths,
  (k ∈ (sc_TopologyKey <$> l) \/ paths !! k = Some newCriticalPaths) ->
  foldl (fun paths c => <[sc_TopologyKey c := newCriticalPaths]> paths) paths l !! k = Some newCriticalPaths.
Proof.
  induction l as [|c l IH]; intros paths Hk; cbn; [destruct Hk as [Hk|Hk]; [by apply elem_of_nil in Hk|done]|].
  apply IH. destruct (decide (sc_TopologyKey c = k)) as [->|Hne]; [right; by rewrite lookup_insert_eq|].
  destruct Hk as [Hk|Hk]; [left|right; by rewrite lookup_insert_ne]. cbn in Hk. apply elem_of_cons in Hk as [->|Hk]; done.
Qed.

Lemma minPaths_settled (pairOrder : gmap topologyPair Z -> list (topologyPair * Z)) (counts : gmap topologyPair Z) c :
  (forall m, pairOrder m ≡ₚ map_to_list m) -> c ∈ cs -> (forall w z, counts !! (sc_TopologyKey c, w) = Some z -> z < MaxInt32) ->
  exists p, minPaths pairOrder cs counts !! sc_TopologyKey c = Some p /\ settled (fun w => counts !! (sc_TopologyKey c, w)) p.
Proof.
  intros Hord Hc Hlt. unfold minPaths. assert (Hnd : NoDup ((pairOrder counts).*1)).
  { rewrite Hord. apply NoDup_fst_map_to_list. }
  destruct (buildPaths (sc_TopologyKey c) (pairOrder counts)
    (foldl (fun paths c => <[sc_TopologyKey c := newCriticalPaths]> paths) ∅ cs) (fun _ => None) newCriticalPaths) as (p&Hp&Hs).
  - apply zeroPaths_lookup. left. by apply list_elem_of_fmap_2.
  - intros v. by apply NoValue.
  - done.
  - intros v n Hin. split; [done|]. rewrite Hord in Hin. apply elem_of_map_to_list in Hin. by eapply Hlt.
  - exists p. split; [done|]. intros v. eapply critical_ext; [|apply Hs]. intros w. cbn.
    rewrite (list_to_map_proper _ (map_to_list counts)) by done. rewrite list_to_map_to_list. by destruct (counts !! _).
Qed.

(** ** The state of a cluster

    [v] is the value whose counts may change, for every constraint. *)
Record represents allNodes (value : topologySpreadConstraint -> string) (s : spreadState) : Prop := {
  rs_constraints : Constraints s = cs;
  rs_absent pr : isPair allNodes pr = false -> TpPairToMatchNum s !! pr = None;
  rs_counts c v : c ∈ cs -> isPair allNodes (sc_TopologyKey c, v) = true ->
    TpPairToMatchNum s !! (sc_TopologyKey c, v) = Some (matching allNodes c v);
  rs_paths c : c ∈ cs -> exists p : criticalPaths, TpKeyToCriticalPaths s !! sc_TopologyKey c = Some p /\ critical (fun w : string => TpPairToMatchNum s !! (sc_TopologyKey c, w)) (value c) p;
  rs_total : podTotal allNodes < MaxInt32
}.

Lemma isPair_some allNodes pr : isPair allNodes pr = true ->
  exists n nd c, n ∈ allNodes /\ NodeOf n = Some nd /\ eligible nd = true /\ c ∈ cs /\ pairOf nd c = pr.
Proof.
  intros (n&Hn&Hp)%existsb_exists. unfold isPairOf in Hp. destruct (NodeOf n) as [nd|] eqn:Hnd; [|done].
  apply andb_true_iff in Hp as [He (c&Hc&Hp%bool_decide_eq_true)%existsb_exists].
  apply list_elem_of_In in Hn, Hc. by exists n, nd, c.
Qed.

(** What the first pass computes. *)
Lemma calPreFilterState_represents (addOrder : list (topologyPair * Z) -> list (topologyPair * Z))
    (pairOrder : gmap topologyPair Z -> list (topologyPair * Z)) pl allNodes value :
  (forall l, addOrder l ≡ₚ l) -> (forall m, pairOrder m ≡ₚ map_to_list m) -> hardConstraints pl pod = inr cs -> cs <> [] ->
  podTotal allNodes < MaxInt32 -> (forall n, n ∈ allNodes -> is_Some (NodeOf n)) ->
  exists s, calPreFilterState addOrder pairOrder pl pod allNodes = Ok s /\ represents allNodes value s.
Proof.
  intros Hadd Hpair Hcs Hne Hmax Hnodes. rewrite (calPreFilterState_eq _ _ _ _ cs) by done.
  destruct (mapM (processNode pod cs (initialCounts pod cs allNodes)) allNodes) as [adds|] eqn:Hadds; cycle 1.
  { exfalso. apply mapM_None, list.Exists_exists in Hadds as (n&Hn&Hp). destruct (Hnodes n Hn) as [nd Hnd].
    unfold processNode in Hp. by rewrite Hnd in Hp. }
  destruct (counts_lookup allNodes adds (addOrder (concat adds)) ltac:(lia) (Hadd _) Hadds) as [Hout Hin].
  eexists. split; [done|]. split; cbn [Constraints TpKeyToCriticalPaths TpPairToMatchNum]; [done|exact Hout|exact Hin| |done].
  intros c Hc. destruct (minPaths_settled pairOrder
    (foldl atomicAdd (initialCounts pod cs allNodes) (addOrder (concat adds))) c Hpair Hc) as (p&Hp&Hs).
  - intros w z Hz. destruct (isPair allNodes (sc_TopologyKey c, w)) eqn:Hpr; [|by rewrite Hout in Hz].
    rewrite Hin in Hz by done. injection Hz as <-. pose proof (matching_range allNodes c w). lia.
  - exists p. split; [done|apply Hs].
Qed.

(** ** Updates *)

(** What the loop leaves of one constraint. *)
Definition updatedFor (labels : LabelSet) (nd : Node) (delta : Z) (s s' : spreadState) c : Prop :=
  let cnt s := fun w : string => TpPairToMatchNum s !! (sc_TopologyKey c, w) in
  exists z p, cnt s (valueOn nd c) = Some z /\ TpKeyToCriticalPaths s !! sc_TopologyKey c = Some p /\
    if Matches (sc_Selector c) labels then
      (forall w, cnt s' w = setCount (cnt s) (valueOn nd c) (wrap32 (z + delta)) w) /\
      TpKeyToCriticalPaths s' !! sc_TopologyKey c = Some (updatePaths p (valueOn nd c) (wrap32 (z + delta)))
    else (forall w, cnt s' w = cnt s w) /\ TpKeyToCriticalPaths s' !! sc_TopologyKey c = Some p.

Lemma updateLoop_spec labels (nd : Node) delta l : forall s, NoDup (sc_TopologyKey <$> l) ->
  (forall c, c ∈ l -> is_Some (TpPairToMatchNum s !! (sc_TopologyKey c, valueOn nd c)) /\
     is_Some (TpKeyToCriticalPaths s !! sc_TopologyKey c)) ->
  exists s', updateLoop l labels nd delta s = Some s' /\ Constraints s' = Constraints s /\
    (forall k, k ∉ (sc_TopologyKey <$> l) -> TpKeyToCriticalPaths s' !! k = TpKeyToCriticalPaths s !! k /\
       forall w, TpPairToMatchNum s' !! (k, w) = TpPairToMatchNum s !! (k, w)) /\
    (forall pr, TpPairToMatchNum s !! pr = None -> TpPairToMatchNum s' !! pr = None) /\
    (forall c, c ∈ l -> updatedFor labels nd delta s s' c).
Proof.
  induction l as [|c l IH]; intros s Hnd Hl; cbn [updateLoop].
  { exists s. split_and!; [done..|]. intros c Hc. by apply elem_of_nil in Hc. }
  cbn in Hnd. apply NoDup_cons in Hnd as [Hnew Hnd]. destruct (Hl c ltac:(left)) as [[z Hz] [p Hp]].
  assert (Hne : forall c', c' ∈ l -> sc_TopologyKey c <> sc_TopologyKey c').
  { intros c' Hc' He. apply Hnew. rewrite He. by apply list_elem_of_fmap_2. }
  destruct (Matches (sc_Selector c) labels) eqn:Hm; cbn [negb].
  - unfold pairOf. fold (valueOn nd c). rewrite Hz. bind_simpl. rewrite Hp. bind_simpl.
    set (num := wrap32 (z + delta)). set (s1 := {| Constraints := _ |}).
    assert (Hs1 : forall k w, k <> sc_TopologyKey c -> TpPairToMatchNum s1 !! (k, w) = TpPairToMatchNum s !! (k, w)).
    { intros k w Hk. cbn. by rewrite lookup_insert_ne by congruence. }
    assert (Hs2 : forall k, k <> sc_TopologyKey c -> TpKeyToCriticalPaths s1 !! k = TpKeyToCriticalPaths s !! k).
    { intros k Hk. cbn. by rewrite lookup_insert_ne. }
    destruct (IH s1 Hnd) as (s'&->&Hc'&Hk'&Hn'&Hu').
    { intros c' Hc'. rewrite Hs1, Hs2 by (by apply not_eq_sym, Hne). apply Hl. by right. }
    exists s'. split_and!; [done|done| | |].
    + intros k Hk. cbn in Hk. apply not_elem_of_cons in Hk as [Hkc Hk]. destruct (Hk' k Hk) as [-> Hw].
      split; [by apply Hs2|]. intros w. by rewrite Hw, Hs1.
    + intros pr Hpr. apply Hn'. cbn. rewrite lookup_insert_ne; [done|]. intros <-. by rewrite Hz in Hpr.
    + intros c' Hin. apply elem_of_cons in Hin as [->|Hin].
      * exists z, p. split_and!; [done..|]. rewrite Hm. destruct (Hk' (sc_TopologyKey c) Hnew) as [-> Hw]. split.
        -- intros w. rewrite Hw. unfold setCount. cbn. destruct (decide (w = valueOn nd c)) as [->|Hwv].
           ++ by rewrite lookup_insert_eq.
           ++ by rewrite lookup_insert_ne by congruence.
        -- cbn. by rewrite lookup_insert_eq.
      * destruct (Hu' c' Hin) as (z'&p'&Hz'&Hp'&Hrest). specialize (Hne c' Hin).
        rewrite Hs1 in Hz' by done. rewrite Hs2 in Hp' by done. exists z', p'. split_and!; [done..|].
        destruct (Matches (sc_Selector c') labels); destruct Hrest as [Hw Hq]; (split; [|done]); intros w; rewrite Hw;
          unfold setCount; by rewrite ?Hs1.
  - destruct (IH s Hnd) as (s'&->&Hc'&Hk'&Hn'&Hu'). { intros c' Hc'. apply Hl. by right. }
    exists s'. split_and!; [done|done| |done|].
    + intros k Hk. apply Hk'. cbn in Hk. by apply not_elem_of_cons in Hk as [_ Hk].
    + intros c' Hin. apply elem_of_cons in Hin as [->|Hin]; [|by apply Hu'].
      exists z, p. split_and!; [done..|]. rewrite Hm. destruct (Hk' (sc_TopologyKey c) Hnew) as [-> Hw]. by split.
Qed.

(** *** Pods on one node of the list *)
Lemma isPair_insert allNodes i n n' pr : allNodes !! i = Some n -> NodeOf n' = NodeOf n ->
  isPair (<[i := n']> allNodes) pr = isPair allNodes pr.
Proof.
  intros Hi Hn. unfold isPair. rewrite insert_take_drop by (by eapply lookup_lt_Some).
  rewrite <- (take_drop_middle allNodes i n Hi) at 3. rewrite !existsb_app. cbn [existsb]. unfold isPairOf. by rewrite Hn.
Qed.

Definition valueAt allNodes (i : nat) c : string :=
  default "" (nd ← (n ← allNodes !! i; NodeOf n); node_Labels nd !! sc_TopologyKey c).

Lemma valueAt_node allNodes i n nd c : allNodes !! i = Some n -> NodeOf n = Some nd -> valueAt allNodes i c = valueOn nd c.
Proof. intros Hi Hn. unfold valueAt. rewrite Hi. cbn. by rewrite Hn. Qed.

Lemma countPods_perm l l' selector ns : l ≡ₚ l' -> countPodsMatchSelector l selector ns = countPodsMatchSelector l' selector ns.
Proof. intros Hl. unfold countPodsMatchSelector. by rewrite Hl. Qed.

Lemma countPods_cons x l selector ns : countPodsMatchSelector (x :: l) selector ns =
  (if countsForSelector selector ns (pi_Pod x) then 1 else 0) + countPodsMatchSelector l selector ns.
Proof.
  unfold countPodsMatchSelector. rewrite filter_cons. destruct (countsForSelector selector ns (pi_Pod x)); cbn;
    case_decide; try done; cbn; lia.
Qed.

Lemma countPods_change ch before after selector ns : changesPods ch before after ->
  countPodsMatchSelector after selector ns = countPodsMatchSelector before selector ns +
    (if countsForSelector selector ns (changedPod ch) then changeDelta ch else 0).
Proof.
  destruct ch as [p|p]; cbn.
  - intros ->%(countPods_perm _ _ selector ns). rewrite countPods_cons. cbn. destruct (countsForSelector _ _ _); lia.
  - intros (x&<-&_&->%(countPods_perm _ _ selector ns)). rewrite countPods_cons. destruct (countsForSelector _ _ _); lia.
Qed.

Definition canFollow allNodes (i : nat) (ch : podChange) : Prop :=
  podTotal allNodes + 1 < MaxInt32 /\ DeletionTimestamp (changedPod ch) = None /\
  exists n nd, allNodes !! i = Some n /\ NodeOf n = Some nd /\ eligible nd = true.

Lemma matchingOn_change c v n n' nd ch : NodeOf n = Some nd -> node n' = node n -> changesPods ch (Pods n) (Pods n') ->
  matchingOn c v n' = matchingOn c v n +
    (if decide (valueOn nd c = v) then
       if countsForSelector (sc_Selector c) (pod_Namespace pod) (changedPod ch) then changeDelta ch else 0
     else 0).
Proof.
  intros Hn Hn' Hch. unfold matchingOn. unfold NodeOf in *. rewrite Hn', Hn.
  destruct (decide _); [by apply countPods_change|done].
Qed.

Lemma podTotal_change allNodes i n n' ch : allNodes !! i = Some n -> changesPods ch (Pods n) (Pods n') ->
  podTotal (<[i := n']> allNodes) <= podTotal allNodes + 1.
Proof.
  intros Hi Hch. unfold podTotal. rewrite (sumOver_insert _ _ _ _ _ Hi). destruct ch as [p|p]; cbn in Hch.
  - rewrite Hch. cbn. lia.
  - destruct Hch as (x&_&_&Hp). rewrite Hp. cbn. lia.
Qed.

Lemma eligible_pair allNodes i n nd c : allNodes !! i = Some n -> NodeOf n = Some nd -> eligible nd = true -> c ∈ cs ->
  isPair allNodes (sc_TopologyKey c, valueOn nd c) = true.
Proof.
  intros Hi Hn He Hc. apply existsb_exists. exists n. split; [apply list_elem_of_In; by eapply list_elem_of_lookup_2|].
  unfold isPairOf. rewrite Hn, He. apply existsb_exists. exists c. split; [by apply list_elem_of_In|].
  by apply bool_decide_eq_true.
Qed.

(** The counts that one change leaves, for the pairs of one constraint. *)
Lemma change_counts allNodes i n n' nd ch c v s : represents allNodes (valueAt allNodes i) s -> allNodes !! i = Some n ->
  canFollow allNodes i ch -> NodeOf n = Some nd -> node n' = node n -> changesPods ch (Pods n) (Pods n') -> c ∈ cs ->
  pod_Namespace (changedPod ch) = pod_Namespace pod ->
  isPair allNodes (sc_TopologyKey c, v) = true ->
  Some (matching (<[i := n']> allNodes) c v) =
    (if Matches (sc_Selector c) (pod_Labels (changedPod ch)) then
       setCount (fun w => TpPairToMatchNum s !! (sc_TopologyKey c, w)) (valueOn nd c)
         (wrap32 (matching allNodes c (valueOn nd c) + changeDelta ch)) v
     else TpPairToMatchNum s !! (sc_TopologyKey c, v)).
Proof.
  intros Hs Hi (Hmax&Hdel&_) Hn Hn' Hch Hc Hns Hpr.
  pose proof (matching_range (<[i := n']> allNodes) c v) as Hr. pose proof (podTotal_change allNodes i n n' ch Hi Hch) as Ht.
  assert (Hm : matching (<[i := n']> allNodes) c v = matching allNodes c v + (matchingOn c v n' - matchingOn c v n)).
  { unfold matching. rewrite (sumOver_insert _ _ _ _ _ Hi). lia. }
  rewrite (matchingOn_change c v n n' nd ch Hn Hn' Hch) in Hm. unfold countsForSelector in Hm. rewrite Hdel in Hm.
  rewrite (bool_decide_true (pod_Namespace (changedPod ch) = _)) in Hm by done. cbn [andb] in Hm.
  destruct (Matches (sc_Selector c) (pod_Labels (changedPod ch))); unfold setCount.
  - destruct (decide (valueOn nd c = v)) as [<-|Hv].
    + rewrite decide_True by done. f_equal. rewrite wrap32_id; [lia|].
      unfold MaxInt32 in *. lia.
    + rewrite decide_False by congruence. rewrite (rs_counts _ _ _ Hs c v Hc Hpr). f_equal. lia.
  - rewrite (rs_counts _ _ _ Hs c v Hc Hpr). f_equal. destruct (decide _); lia.
Qed.

Lemma spread_step allNodes i s n n' ch :
  represents allNodes (valueAt allNodes i) s -> allNodes !! i = Some n -> canFollow allNodes i ch -> node n' = node n ->
  accounted n -> accounted n' -> changesPods ch (Pods n) (Pods n') ->
  exists s', updateWithPod s (changedPod ch) pod (NodeOf n') (changeDelta ch) = Some s' /\
    represents (<[i := n']> allNodes) (valueAt (<[i := n']> allNodes) i) s'.
Proof.
  intros Hs Hi Hcan Hn' _ _ Hch. pose proof Hcan as (Hmax&Hdel&n0&nd&Hi0&Hn&He). rewrite Hi in Hi0. injection Hi0 as <-.
  assert (Hnode : NodeOf n' = NodeOf n) by (unfold NodeOf; done).
  assert (Hpairs : forall pr, isPair (<[i := n']> allNodes) pr = isPair allNodes pr) by (intros; by eapply isPair_insert).
  assert (Hi' : <[i := n']> allNodes !! i = Some n') by (apply list_lookup_insert_eq; by eapply lookup_lt_Some).
  assert (Hval : forall c, valueAt (<[i := n']> allNodes) i c = valueOn nd c) by (intros; eapply valueAt_node; [done|congruence]).
  assert (Hval0 : forall c, valueAt allNodes i c = valueOn nd c) by (intros; by eapply valueAt_node).
  pose proof (podTotal_change allNodes i n n' ch Hi Hch) as Ht.
  unfold updateWithPod. rewrite Hnode, Hn. case_bool_decide as Hns.
  - exists s. split; [done|]. destruct Hs as [Hc Ha Hcnt Hp _]. split; [done| | | |lia].
    + intros pr. rewrite Hpairs. apply Ha.
    + intros c v Hin. rewrite Hpairs. intros Hpr. rewrite (Hcnt c v Hin Hpr). f_equal.
      unfold matching. rewrite (sumOver_insert _ _ _ _ _ Hi), (matchingOn_change c v n n' nd ch Hn Hn' Hch).
      unfold countsForSelector. rewrite Hdel, bool_decide_false by done. cbn. destruct (decide _); lia.
    + intros c Hin. rewrite Hval, <- Hval0. by apply Hp.
  - rewrite (rs_constraints _ _ _ Hs). pose proof He as [_ Hlab]%andb_true_iff. rewrite Hlab. cbn [negb].
    destruct (updateLoop_spec (pod_Labels (changedPod ch)) nd (changeDelta ch) cs s cs_keys) as (s'&Hup&Hcons&_&Hnone&Hu).
    { intros c Hc. split; [eexists; apply (rs_counts _ _ _ Hs c _ Hc); by eapply eligible_pair|].
      destruct (rs_paths _ _ _ Hs c Hc) as (p&Hp&_). by eexists. }
    exists s'. split; [done|]. split; [by rewrite Hcons, (rs_constraints _ _ _ Hs)| | | |lia].
    + intros pr. rewrite Hpairs. intros Hpr. by apply Hnone, (rs_absent _ _ _ Hs).
    + intros c v Hc. rewrite Hpairs. intros Hpr.
      rewrite (change_counts allNodes i n n' nd ch c v s Hs Hi Hcan Hn Hn' Hch Hc Hns Hpr).
      destruct (Hu c Hc) as (z&p&Hz&_&Hrest). cbn in Hz.
      rewrite (rs_counts _ _ _ Hs c (valueOn nd c) Hc) in Hz by (by eapply eligible_pair). injection Hz as <-.
      destruct (Matches (sc_Selector c) _); destruct Hrest as [Hw _]; apply Hw.
    + intros c Hc. rewrite Hval. destruct (rs_paths _ _ _ Hs c Hc) as (p&Hp&Hcrit). rewrite Hval0 in Hcrit.
      destruct (Hu c Hc) as (z&p'&Hz&Hp'&Hrest). cbn in Hz. rewrite Hp in Hp'. injection Hp' as <-.
      destruct (Matches (sc_Selector c) _) eqn:Hm; destruct Hrest as [Hw Hp'].
      * eexists. split; [done|]. eapply critical_ext; [intros w; symmetry; apply Hw|].
        apply updatePaths_change; [done|by eexists|].
        unfold MaxInt32. pose proof (matching_range allNodes c (valueOn nd c)).
        rewrite (rs_counts _ _ _ Hs c (valueOn nd c) Hc) in Hz by (by eapply eligible_pair). injection Hz as <-.
        unfold wrap32. pose proof (Z.mod_pos_bound (matching allNodes c (valueOn nd c) + changeDelta ch + 2 ^ 31) (2 ^ 32)). lia.
      * exists p. split; [done|]. eapply critical_ext; [intros w; symmetry; apply Hw|done].
Qed.

#[local] Instance spreadTracks : TracksPods spreadState :=
  {| tracks_update s p nd delta := updateWithPod s p pod nd delta;
     tracks allNodes i s := represents allNodes (valueAt allNodes i) s;
     tracks_valid := canFollow;
     tracks_step := fun nodes i s n n' ch => spread_step nodes i s n n' ch |}.

(** ** The filter *)

(** The skew of every constraint stays within its bound on the node, counted with the pod
    itself and against every other value; without an eligible node nothing is refused. *)
Definition selfMatch c : Z := if Matches (sc_Selector c) (pod_Labels pod) then 1 else 0.
Definition spreadOk allNodes (nd : Node) : Prop :=
  (exists n nd', n ∈ allNodes /\ NodeOf n = Some nd' /\ eligible nd' = true) ->
  forall c, c ∈ cs -> exists v, node_Labels nd !! sc_TopologyKey c = Some v /\
    forall w, isPair allNodes (sc_TopologyKey c, w) = true ->
      (if isPair allNodes (sc_TopologyKey c, v) then matching allNodes c v else 0) + selfMatch c - matching allNodes c w
        <= sc_MaxSkew c.

Lemma violates_None allNodes value s (nd : Node) c : represents allNodes value s -> c ∈ cs ->
  (exists w, isPair allNodes (sc_TopologyKey c, w) = true) ->
  IsSuccess (violates s pod nd c) = true <->
  exists v, node_Labels nd !! sc_TopologyKey c = Some v /\ forall w, isPair allNodes (sc_TopologyKey c, w) = true ->
    (if isPair allNodes (sc_TopologyKey c, v) then matching allNodes c v else 0) + selfMatch c - matching allNodes c w
      <= sc_MaxSkew c.
Proof.
  intros Hs Hc [w0 Hw0]. unfold violates. destruct (node_Labels nd !! sc_TopologyKey c) as [v|]; [|split; [done|by intros (?&?&?)]].
  destruct (rs_paths _ _ _ Hs c Hc) as (p&->&Hp). fold (selfMatch c).
  pose proof (critical_least _ _ p w0 _ Hp (rs_counts _ _ _ Hs c w0 Hc Hw0)) as (a&Ha&_).
  assert (Hleast : forall w, isPair allNodes (sc_TopologyKey c, w) = true -> MatchNum (path0 p) <= matching allNodes c w).
  { intros w Hw. by destruct (critical_least _ _ p w _ Hp (rs_counts _ _ _ Hs c w Hc Hw)) as (?&_&?). }
  destruct (isPair allNodes (sc_TopologyKey c, a)) eqn:Hpa; cycle 1.
  { pose proof (rs_absent _ _ _ Hs _ Hpa). congruence. }
  rewrite (rs_counts _ _ _ Hs c a Hc Hpa) in Ha. injection Ha as Ha.
  set (m := if isPair allNodes (sc_TopologyKey c, v) then matching allNodes c v else 0).
  replace (default 0 (TpPairToMatchNum s !! (sc_TopologyKey c, v))) with m; cycle 1.
  { unfold m. destruct (isPair allNodes (sc_TopologyKey c, v)) eqn:Hv.
    - by rewrite (rs_counts _ _ _ Hs c v Hc Hv).
    - by rewrite (rs_absent _ _ _ Hs _ Hv). }
  assert (Hm : 0 <= m < MaxInt32).
  { pose proof (rs_total _ _ _ Hs) as Ht. pose proof (matching_range allNodes c v). subst m. unfold MaxInt32 in *.
    destruct (isPair allNodes (sc_TopologyKey c, v)); lia. }
  assert (Hself : 0 <= selfMatch c <= 1) by (unfold selfMatch; destruct (Matches _ _); lia).
  pose proof (rs_total _ _ _ Hs). pose proof (matching_range allNodes c a). unfold MaxInt32 in *.
  rewrite (wrap32_id (m + selfMatch c)), wrap32_id by lia.
  destruct (Z.ltb_spec (sc_MaxSkew c) (m + selfMatch c - MatchNum (path0 p))) as [Hlt|Hle]; split; try done.
  - intros (v'&[= <-]&Hall). specialize (Hall a Hpa). fold m in Hall. lia.
  - intros _. exists v. split; [done|]. intros w Hw. fold m. specialize (Hleast w Hw). lia.
Qed.

Lemma spreadLoop_iff s (nd : Node) l :
  IsSuccess (spreadLoop s pod nd l) = true <-> forall c, c ∈ l -> IsSuccess (violates s pod nd c) = true.
Proof.
  induction l as [|c l IH]; cbn; [split; [intros _ c Hc; by apply elem_of_nil in Hc|done]|].
  destruct (violates s pod nd c) as [st|] eqn:Hv.
  - split; [intros Hs c' [->|Hin]%elem_of_cons|intros Hall; rewrite <- Hv; apply Hall; by left].
    + by rewrite Hv.
    + exfalso. revert Hs Hv. unfold violates. destruct (node_Labels nd !! _); [|intros Hs [= <-]; done].
      destruct (TpKeyToCriticalPaths s !! _); [|done]. destruct (_ <? _); [|done]. intros Hs [= <-]. done.
  - rewrite IH. split; [intros Hall c' [->|Hin]%elem_of_cons; [by rewrite Hv|by apply Hall]|intros Hall c' Hin; apply Hall; by right].
Qed.

Lemma SpreadFilter_iff allNodes value s cycleState nodeInfo (nd : Node) : cs <> [] -> represents allNodes value s ->
  getSpreadState cycleState = inr s -> NodeOf nodeInfo = Some nd ->
  IsSuccess (Filter SpreadFilter cycleState pod nodeInfo) = true <-> spreadOk allNodes nd.
Proof.
  intros Hne Hs Hget Hnd. cbn. rewrite Hnd, Hget.
  assert (Hpair : forall c n nd', c ∈ cs -> n ∈ allNodes -> NodeOf n = Some nd' -> eligible nd' = true ->
    isPair allNodes (sc_TopologyKey c, valueOn nd' c) = true).
  { intros c n nd' Hc [i Hi]%list_elem_of_lookup Hn He. by eapply eligible_pair. }
  destruct (decide (TpPairToMatchNum s = ∅)) as [He|He].
  - split; [|done]. intros _ (n&nd'&Hn&Hnd'&Hel) c Hc. pose proof (Hpair c n nd' Hc Hn Hnd' Hel) as Hp.
    pose proof (rs_counts _ _ _ Hs c _ Hc Hp) as Hcount. rewrite He, lookup_empty in Hcount. done.
  - rewrite (rs_constraints _ _ _ Hs), spreadLoop_iff. split.
    + intros Hall (n&nd'&Hn&Hnd'&Hel) c Hc. apply (violates_None allNodes value s); [done..| |by apply Hall].
      eexists. by eapply Hpair.
    + intros Hok. apply map_choose in He as (pr&z&Hz).
      destruct (isPair allNodes pr) eqn:Hpr; [|by rewrite (rs_absent _ _ _ Hs _ Hpr) in Hz].
      apply isPair_some in Hpr as (n&nd'&c0&Hn&Hnd'&Hel&_&_). intros c Hc.
      apply (violates_None allNodes value s nd c Hs Hc); [eexists; by eapply Hpair|]. apply Hok; [|done]. by exists n, nd'.
Qed.
End Counts.

(** ** Properties *)

(** C35: the prefilter computes, in every order of its parallel additions and of its maps, a
    state that stays true to the cluster while pods come and go on one node, as long as the pods are
    not terminating, the node is one that the prefilter counts and the pods are fewer than 2^31 - 1 (without that it may panic, or
    miscount: [ineligible_node_panics], [terminating_pod_removed_twice]): no such sequence
    panics, and after it the filter admits a node exactly when the node has the label of
    every constraint and the pods that match there, with the pod itself, exceed those of no
    other value by more than [MaxSkew], as counted from scratch on the changed cluster. *)
Theorem spread_filter_tracks_cluster `{LabelsLib, SelectorLib} (addOrder : list (topologyPair * Z) -> list (topologyPair * Z))
    (pairOrder : gmap topologyPair Z -> list (topologyPair * Z)) (pl : PodTopologySpread) (pod : Pod)
    (cs : list topologySpreadConstraint) (allNodes : list NodeInfo) (Hkeys : NoDup (sc_TopologyKey <$> cs)) :
  (forall l, addOrder l ≡ₚ l) -> (forall m, pairOrder m ≡ₚ map_to_list m) ->
  hardConstraints pl pod = inr cs -> cs <> [] -> podTotal allNodes < MaxInt32 ->
  (forall n, n ∈ allNodes -> is_Some (NodeOf n)) ->
  exists s, calPreFilterState addOrder pairOrder pl pod allNodes = Ok s /\
  forall i g n chs, allNodes !! i = Some n -> accounted n ->
    @validChanges _ _ (spreadTracks pod cs Hkeys) chs allNodes i (g, n) ->
    exists g' n' s', @replay _ _ (spreadTracks pod cs Hkeys) chs (g, n) s = Some ((g', n'), s') /\
      forall cycleState nodeInfo nd, getSpreadState cycleState = inr s' -> NodeOf nodeInfo = Some nd ->
        (IsSuccess (Filter SpreadFilter cycleState pod nodeInfo) = true <-> spreadOk pod cs (<[i := n']> allNodes) nd).
Proof.
  intros Hadd Hpair Hcs Hne Hmax Hnodes.
  destruct (calPreFilterState_represents pod cs Hkeys addOrder pairOrder pl allNodes (fun _ => "") Hadd Hpair Hcs Hne Hmax Hnodes)
    as (s&Hs&_).
  exists s. split; [done|]. intros i g n chs Hi Ha Hv.
  destruct (calPreFilterState_represents pod cs Hkeys addOrder pairOrder pl allNodes (valueAt allNodes i) Hadd Hpair Hcs Hne Hmax Hnodes)
    as (s0&Hs0&Hrep). rewrite Hs in Hs0. injection Hs0 as <-.
  destruct (@replay_tracks _ _ (spreadTracks pod cs Hkeys) chs allNodes i (g, n) s Hrep Hi Ha Hv) as ([g' n']&s'&Hr&Ht&_).
  exists g', n', s'. split; [done|]. intros cycleState nodeInfo nd Hget Hnd. exact (SpreadFilter_iff pod cs _ _ s' cycleState nodeInfo nd Hne Ht Hget Hnd).
Qed.

(** ** Concrete instances *)
#[local] Existing Instance exampleLabels.

Definition exampleSelectors : SelectorLib :=
  let ofSet set := {| Matches := fun l => bool_decide (map_Forall (fun k v => l !! k = Some v) set);
                      SelectorEmpty := bool_decide (set = ∅) |} in
  {| SelectorFromSet := ofSet; SelectorFromValidatedSet := ofSet; NewSelector := ofSet ∅;
     AddRequirementsOf := fun _ _ => None; MergeLabels := fun l1 l2 => l2 ∪ l1;
     LabelSelectorError := fun _ => "not a selector" |}.
#[local] Existing Instance exampleSelectors.

Definition webPod (uid node : string) : Pod := podWith uid node {[ "app" := "web" ]} None None ∅ [].
Definition spreadOverZones : list TopologySpreadConstraint :=
  [{| tsc_MaxSkew := 1; tsc_TopologyKey := "zone"; tsc_WhenUnsatisfiable := DoNotSchedule;
      tsc_LabelSelector := Some {| MatchLabels := {[ "app" := "web" ]}; MatchExpressions := [] |} |}].
Definition spreadPod : Pod := podWith "new" "" {[ "app" := "web" ]} None None ∅ spreadOverZones.
Definition noListers : spreadListers :=
  {| ServicesOf := fun _ => None; GetPodControllers := fun _ => None; GetPodReplicaSets := fun _ => None;
     GetPodStatefulSets := fun _ => None |}.
Definition spreadPlugin : PodTopologySpread := {| DefaultConstraints := []; listers := noListers |}.
Definition zoneNodes : list NodeInfo :=
  [infoWith (zoneNode "n1" "a") [webPod "u1" "n1"; webPod "u2" "n1"]; infoWith (zoneNode "n2" "b") []].
Definition zoneConstraints : list topologySpreadConstraint :=
  match hardConstraints spreadPlugin spreadPod with inr cs => cs | inl _ => [] end.
Definition twoArrivals : list podChange :=
  [PodAdded (webPod "u3" "n2"); PodAdded (webPod "u4" "n2"); PodRemoved (webPod "u3" "n2")].

Definition stateAfter (pod : Pod) (nodes : list NodeInfo) (nd : Node) (chs : list podChange) : option spreadState :=
  match calPreFilterState id map_to_list spreadPlugin pod nodes with
  | Ok s => foldl (fun s ch => s ≫= fun s => updateWithPod s (changedPod ch) pod (Some nd) (changeDelta ch)) (Some s) chs
  | _ => None
  end.
Definition verdictAfter (pod : Pod) (nodes : list NodeInfo) (nd : Node) (chs : list podChange) (target : NodeInfo) : option Status :=
  s ← stateAfter pod nodes nd chs; Some (Filter SpreadFilter (Write ∅ spreadStateKey (SpreadData s)) pod target).

Example zones_one_arrival :
  (fun n => verdictAfter spreadPod zoneNodes (zoneNode "n2" "b") twoArrivals n) <$> zoneNodes =
    [Some (NewStatus Unschedulable [ErrReasonConstraintsNotMatch]); Some None].
Proof. vm_compute. reflexivity. Qed.

(** A pod that comes to a node outside the node selector of the pod to schedule, in a zone
    of its own, has no counter to add to: the plugin dereferences a nil pointer. *)
Example ineligible_node_panics :
  stateAfter (podWith "new" "" {[ "app" := "web" ]} None None {[ "name" := "n1" ]} spreadOverZones) zoneNodes
    (zoneNode "n2" "b") [PodAdded (webPod "u3" "n2")] = None.
Proof. vm_compute. reflexivity. Qed.

(** A terminating pod is not counted, but its removal is: the count falls below zero. *)
Definition leavingPod : Pod := podWith "u5" "n2" {[ "app" := "web" ]} (Some 0) None ∅ [].
Example terminating_pod_removed_twice :
  (fun s => TpPairToMatchNum s !! ("zone", "b")) <$>
    stateAfter spreadPod [infoWith (zoneNode "n1" "a") []; infoWith (zoneNode "n2" "b") [leavingPod]] (zoneNode "n2" "b")
      [PodRemoved leavingPod] = Some (Some (-1)).
Proof. vm_compute. reflexivity. Qed.

Lemma spread_filter_tracks_cluster_witness :
  exists s, calPreFilterState id map_to_list spreadPlugin spreadPod zoneNodes = Ok s /\
    exists g' n' s' (Hkeys : NoDup (sc_TopologyKey <$> zoneConstraints)),
      @replay _ _ (spreadTracks spreadPod zoneConstraints Hkeys) twoArrivals (1, infoWith (zoneNode "n2" "b") []) s =
        Some ((g', n'), s') /\
      (IsSuccess (Filter SpreadFilter (Write ∅ spreadStateKey (SpreadData s')) spreadPod (infoWith (zoneNode "n2" "b") [])) = true <->
       spreadOk spreadPod zoneConstraints (<[1%nat := n']> zoneNodes) (zoneNode "n2" "b")).
Proof.
  assert (Hkeys : NoDup (sc_TopologyKey <$> zoneConstraints)) by (apply (bool_decide_unpack _); vm_compute; exact I).
  destruct (spread_filter_tracks_cluster id map_to_list spreadPlugin spreadPod zoneConstraints zoneNodes Hkeys) as (s&Hs&Hrest).
  - intros l. reflexivity.
  - intros m. reflexivity.
  - reflexivity.
  - discriminate.
  - vm_compute. reflexivity.
  - intros n Hn. apply elem_of_cons in Hn as [->|Hn]; [eexists; reflexivity|].
    apply list_elem_of_singleton in Hn as ->. eexists. reflexivity.
  - exists s. split; [exact Hs|].
    destruct (Hrest 1%nat 1 (infoWith (zoneNode "n2" "b") []) twoArrivals) as (g'&n'&s'&Hr&Hf).
    + reflexivity.
    + apply accounted_SetNode, accounted_NewNodeInfo.
    + assert (He : eligible spreadPod zoneConstraints (zoneNode "n2" "b") = true) by (vm_compute; reflexivity).
      cbn [validChanges validChange twoArrivals tracks_valid spreadTracks]. unfold canFollow.
      repeat match goal with |- _ /\ _ => split end; try exact I;
        try (eexists _, (zoneNode "n2" "b"); split; [vm_compute; reflexivity|split; [vm_compute; reflexivity|exact He]]);
        solve [vm_compute; reflexivity | apply (bool_decide_unpack _); vm_compute; exact I].
    + exists g', n', s', Hkeys. split; [exact Hr|]. apply Hf; [|reflexivity]. vm_compute. reflexivity.
Defined.
