(* ===== verification/InterPodAffinity.v ===== *)
(** * The plugin InterPodAffinity (plugins/interpodaffinity/filtering.go)

    The filter part of the plugin: three maps from pairs of a topology key and value to
    the number of matched terms, their updates for pods that are added to or removed from
    a node, and the verdict on a node.  Counters are [int64] and wrap. *)
From S2P Require Import Prelude Api NodeInfo Framework PluginData.
Local Open Scope Z_scope.
Local Open Scope go_scope.

(** ** Counters of matched terms *)

(** [m[pair] += value], without an entry for zero. *)
Definition bump (m : topologyToMatchedTermCount) (pair : topologyPair) (value : Z) : topologyToMatchedTermCount :=
  let count := default 0 (m !! pair) +₆₄ value in
  if count =? 0 then delete pair m else <[pair := count]> m.

(** The entry of a node for a term, when the node has the label. *)
Definition bumpTerm (node : Node) (value : Z) (m : topologyToMatchedTermCount) (t : AffinityTerm)
    : topologyToMatchedTermCount :=
  match node_Labels node !! TopologyKey t with
  | Some topologyValue => bump m (TopologyKey t, topologyValue) value
  | None => m
  end.

Definition append (m toAppend : topologyToMatchedTermCount) : topologyToMatchedTermCount :=
  union_with (fun a b => Some (a +₆₄ b)) m toAppend.

Definition matchesTerm (pod : Pod) (t : AffinityTerm) : bool :=
  PodMatchesTermsNamespaceAndSelector pod (Namespaces t) (TermSelector t).

Definition podMatchesAllAffinityTerms (pod : Pod) (terms : list AffinityTerm) : bool :=
  match terms with
  | [] => false
  | _ => forallb (matchesTerm pod) terms
  end.

Definition updateWithAffinityTerms (m : topologyToMatchedTermCount) (targetPod : Pod) (targetPodNode : Node)
    (affinityTerms : list AffinityTerm) (value : Z) : topologyToMatchedTermCount :=
  if podMatchesAllAffinityTerms targetPod affinityTerms then foldl (bumpTerm targetPodNode value) m affinityTerms else m.

Definition updateWithAntiAffinityTerms (m : topologyToMatchedTermCount) (targetPod : Pod) (targetPodNode : Node)
    (antiAffinityTerms : list AffinityTerm) (value : Z) : topologyToMatchedTermCount :=
  foldl (fun m a => if matchesTerm targetPod a then bumpTerm targetPodNode value m a else m) m antiAffinityTerms.

Section Plugin.
Context `{LabelsLib}.

(** ** Updates of the state

    The labels of a nil node are only read for a term that matches: [None] is a panic. *)
Definition readsNode (s : affinityState) (updatedPodInfo : PodInfo) : bool :=
  existsb (matchesTerm (pi_Pod (as_podInfo s))) (RequiredAntiAffinityTerms updatedPodInfo) ||
  podMatchesAllAffinityTerms (pi_Pod updatedPodInfo) (RequiredAffinityTerms (as_podInfo s)) ||
  existsb (matchesTerm (pi_Pod updatedPodInfo)) (RequiredAntiAffinityTerms (as_podInfo s)).

Definition updateWithPod (s : affinityState) (updatedPod : Pod) (node : option Node) (multiplier : Z)
    : option affinityState :=
  let updatedPodInfo := NewPodInfo updatedPod in
  match node with
  | None => if readsNode s updatedPodInfo then None else Some s
  | Some node =>
      Some {| topologyToMatchedExistingAntiAffinityTerms :=
                updateWithAntiAffinityTerms (topologyToMatchedExistingAntiAffinityTerms s) (pi_Pod (as_podInfo s)) node
                  (RequiredAntiAffinityTerms updatedPodInfo) multiplier;
              topologyToMatchedAffinityTerms :=
                updateWithAffinityTerms (topologyToMatchedAffinityTerms s) updatedPod node
                  (RequiredAffinityTerms (as_podInfo s)) multiplier;
              topologyToMatchedAntiAffinityTerms :=
                updateWithAntiAffinityTerms (topologyToMatchedAntiAffinityTerms s) updatedPod node
                  (RequiredAntiAffinityTerms (as_podInfo s)) multiplier;
              as_podInfo := as_podInfo s |}
  end.

(** ** The prefilter

    Every node is one piece of parallel work; the pieces append their maps to an array in
    the order in which they finish. *)
Context (finishOrder : forall A, list A -> list A).

Definition existingOfNode (pod : Pod) (nodeInfo : NodeInfo) : topologyToMatchedTermCount :=
  match NodeOf nodeInfo with
  | None => ∅
  | Some node =>
      foldl (fun topoMap existingPod =>
        updateWithAntiAffinityTerms topoMap pod node (RequiredAntiAffinityTerms existingPod) 1) ∅ (PodsWithAffinity nodeInfo)
  end.
Definition getTPMapMatchingExistingAntiAffinity (pod : Pod) (allNodes : list NodeInfo) : topologyToMatchedTermCount :=
  foldl append ∅ (finishOrder _ (filter (fun m => m <> ∅) (existingOfNode pod <$> allNodes))).

Definition incomingOfNode (podInfo : PodInfo) (nodeInfo : NodeInfo) : topologyToMatchedTermCount * topologyToMatchedTermCount :=
  match NodeOf nodeInfo with
  | None => (∅, ∅)
  | Some node =>
      foldl (fun '(affinity, antiAffinity) existingPod =>
        (updateWithAffinityTerms affinity (pi_Pod existingPod) node (RequiredAffinityTerms podInfo) 1,
         updateWithAntiAffinityTerms antiAffinity (pi_Pod existingPod) node (RequiredAntiAffinityTerms podInfo) 1))
        (∅, ∅) (Pods nodeInfo)
  end.
Definition getTPMapMatchingIncomingAffinityAntiAffinity (podInfo : PodInfo) (allNodes : list NodeInfo)
    : topologyToMatchedTermCount * topologyToMatchedTermCount :=
  match RequiredAffinityTerms podInfo, RequiredAntiAffinityTerms podInfo with
  | [], [] => (∅, ∅)
  | _, _ =>
      foldl (fun '(affinity, antiAffinity) m => (append affinity m.1, append antiAffinity m.2)) (∅, ∅)
        (finishOrder _ (filter (fun m => m.1 <> ∅ \/ m.2 <> ∅) (incomingOfNode podInfo <$> allNodes)))
  end.

Definition affinityStateKey : string := "PreFilterInterPodAffinity".

(** The text of the error that [ParseError] holds. *)
Context (parseErrorText : Pod -> ParseErrorKind -> string).

Definition calAffinityState (podInfo : PodInfo) (allNodes havePodsWithAffinityNodes : list NodeInfo) : affinityState :=
  let '(incomingPodAffinityMap, incomingPodAntiAffinityMap) :=
    getTPMapMatchingIncomingAffinityAntiAffinity podInfo allNodes in
  {| topologyToMatchedExistingAntiAffinityTerms :=
       getTPMapMatchingExistingAntiAffinity (pi_Pod podInfo) havePodsWithAffinityNodes;
     topologyToMatchedAffinityTerms := incomingPodAffinityMap;
     topologyToMatchedAntiAffinityTerms := incomingPodAntiAffinityMap;
     as_podInfo := podInfo |}.

Definition AffinityPreFilter (allNodes havePodsWithAffinityNodes : list NodeInfo) (cycleState : CycleState) (pod : Pod)
    : Status * CycleState :=
  let podInfo := NewPodInfo pod in
  match ParseError podInfo with
  | Some err =>
      (NewStatus UnschedulableAndUnresolvable [String.append "parsing pod: " (parseErrorText pod err)], cycleState)
  | None =>
      (None, Write cycleState affinityStateKey (AffinityData (calAffinityState podInfo allNodes havePodsWithAffinityNodes)))
  end.

Definition getAffinityState (cycleState : CycleState) : string + affinityState :=
  match Read cycleState affinityStateKey with
  | None => inl (notRead affinityStateKey)
  | Some (AffinityData s) => inr s
  | Some _ => inl "convert to interpodaffinity.state error"
  end.

(** [AddPod] and [RemovePod], with the number that they add; [None] is a panic. *)
Definition affinityExtension (multiplier : Z) (cycleState : CycleState) (podToSchedule other : Pod) (nodeInfo : NodeInfo)
    : option (Status * CycleState) :=
  match getAffinityState cycleState with
  | inl err => Some (NewStatus Error [err], cycleState)
  | inr s =>
      s ← updateWithPod s other (NodeOf nodeInfo) multiplier;
      Some (None, Write cycleState affinityStateKey (AffinityData s))
  end.
Definition AffinityAddPod : CycleState -> Pod -> Pod -> NodeInfo -> option (Status * CycleState) := affinityExtension 1.
Definition AffinityRemovePod : CycleState -> Pod -> Pod -> NodeInfo -> option (Status * CycleState) := affinityExtension (-1).
End Plugin.

(** ** The filter *)
Definition countAt (m : topologyToMatchedTermCount) (pair : topologyPair) : Z := default 0 (m !! pair).

Definition satisfyExistingPodsAntiAffinity (state : affinityState) (node : Node) : bool :=
  if decide (topologyToMatchedExistingAntiAffinityTerms state = ∅) then true
  else bool_decide (map_Forall (fun topologyKey topologyValue =>
         ~ 0 < countAt (topologyToMatchedExistingAntiAffinityTerms state) (topologyKey, topologyValue)) (node_Labels node)).

Definition satisfyPodAntiAffinity (state : affinityState) (node : Node) : bool :=
  forallb (fun term =>
    match node_Labels node !! TopologyKey term with
    | Some topologyValue => negb (0 <? countAt (topologyToMatchedAntiAffinityTerms state) (TopologyKey term, topologyValue))
    | None => true
    end) (RequiredAntiAffinityTerms (as_podInfo state)).

(** The loop of [satisfyPodAffinity]: [None] when a label is missing, else [podsExist]. *)
Fixpoint podsExistLoop (state : affinityState) (node : Node) (terms : list AffinityTerm) (podsExist : bool) : option bool :=
  match terms with
  | [] => Some podsExist
  | term :: terms =>
      match node_Labels node !! TopologyKey term with
      | Some topologyValue =>
          podsExistLoop state node terms
            (if countAt (topologyToMatchedAffinityTerms state) (TopologyKey term, topologyValue) <=? 0 then false else podsExist)
      | None => None
      end
  end.

Definition satisfyPodAffinity (state : affinityState) (node : Node) : bool :=
  let podInfo := as_podInfo state in
  match podsExistLoop state node (RequiredAffinityTerms podInfo) true with
  | None => false
  | Some true => true
  | Some false =>
      bool_decide (topologyToMatchedAffinityTerms state = ∅) &&
      podMatchesAllAffinityTerms (pi_Pod podInfo) (RequiredAffinityTerms podInfo)
  end.

Definition ErrReasonExistingAntiAffinityRulesNotMatch : string :=
  "node(s) didn't satisfy existing pods anti-affinity rules".
Definition ErrReasonAffinityNotMatch : string := "node(s) didn't match pod affinity/anti-affinity".
Definition ErrReasonAffinityRulesNotMatch : string := "node(s) didn't match pod affinity rules".
Definition ErrReasonAntiAffinityRulesNotMatch : string := "node(s) didn't match pod anti-affinity rules".

Definition AffinityFilter : FilterPlugin :=
  {| filter_Name := "InterPodAffinity";
     Filter cycleState pod nodeInfo :=
       match NodeOf nodeInfo with
       | None => NewStatus Error ["node not found"]
       | Some node =>
           match getAffinityState cycleState with
           | inl err => NewStatus Error [err]
           | inr state =>
               if negb (satisfyPodAffinity state node) then
                 NewStatus UnschedulableAndUnresolvable [ErrReasonAffinityNotMatch; ErrReasonAffinityRulesNotMatch]
               else if negb (satisfyPodAntiAffinity state node) then
                 NewStatus Unschedulable [ErrReasonAffinityNotMatch; ErrReasonAntiAffinityRulesNotMatch]
               else if negb (satisfyExistingPodsAntiAffinity state node) then
                 NewStatus Unschedulable [ErrReasonAffinityNotMatch; ErrReasonExistingAntiAffinityRulesNotMatch]
               else None
           end
       end |}.
