(* ===== verification/InterPodAffinitySpec.v ===== *)
(** * What InterPodAffinity promises

    The three maps of the plugin count the matched terms of the pods of the cluster, also
    while pods come and go on a node, and the filter admits a node exactly when placing the
    pod there breaks no required affinity or anti-affinity rule of any pod. *)
From S2P Require Import Prelude Api NodeInfo Framework PluginData PodChanges InterPodAffinity.
Local Open Scope Z_scope.

(** ** Maps of counters *)
Definition occurrences (pr : topologyPair) (l : list topologyPair) : Z :=
  sumOver (fun p => if decide (p = pr) then 1 else 0) l.

Lemma occurrences_cons pr p l : occurrences pr (p :: l) = (if decide (p = pr) then 1 else 0) + occurrences pr l.
Proof. done. Qed.

Lemma occurrences_range pr l : 0 <= occurrences pr l <= Z.of_nat (length l).
Proof.
  induction l as [|p l IH]; [done|]. rewrite occurrences_cons. cbn [length]. destruct (decide _); lia.
Qed.

Lemma occurrences_pos pr l : 0 < occurrences pr l <-> pr ∈ l.
Proof.
  induction l as [|p l IH]; [split; [done|by intros ?%elem_of_nil]|]. rewrite occurrences_cons, elem_of_cons, <- IH.
  pose proof (occurrences_range pr l). destruct (decide (p = pr)) as [->|]; split; try lia; try tauto.
  intros [->|?]; [done|lia].
Qed.

(** The map has the counts [f], and no entry for zero. *)
Definition counted (m : topologyToMatchedTermCount) (f : topologyPair -> Z) : Prop :=
  forall pr, m !! pr = if decide (f pr = 0) then None else Some (f pr).

Lemma counted_countAt m f pr : counted m f -> countAt m pr = f pr.
Proof. intros Hm. unfold countAt. rewrite Hm. by destruct (decide _) as [->|]. Qed.

Lemma counted_ext m f g : (forall pr, f pr = g pr) -> counted m f -> counted m g.
Proof. intros Hfg Hm pr. by rewrite Hm, Hfg. Qed.

Lemma counted_empty m f : counted m f -> m = ∅ <-> forall pr, f pr = 0.
Proof.
  intros Hm. split.
  - intros -> pr. specialize (Hm pr). rewrite lookup_empty in Hm. by destruct (decide _).
  - intros Hf. apply map_eq. intros pr. rewrite Hm, Hf, lookup_empty. done.
Qed.

Definition bumpAll (v : Z) : topologyToMatchedTermCount -> list topologyPair -> topologyToMatchedTermCount :=
  foldl (fun m p => bump m p v).

Lemma bump_counted m f p v : counted m f -> in_int64 (f p + v) ->
  counted (bump m p v) (fun pr => f pr + v * (if decide (p = pr) then 1 else 0)).
Proof.
  intros Hm Hr pr. unfold bump. fold (countAt m p). rewrite (counted_countAt m f p Hm), wrap64_id by done.
  destruct (decide (p = pr)) as [<-|Hne].
  - rewrite Z.mul_1_r. destruct (Z.eqb_spec (f p + v) 0) as [He|He].
    + rewrite lookup_delete_eq. by rewrite decide_True.
    + rewrite lookup_insert_eq. by rewrite decide_False.
  - rewrite Z.mul_0_r, Z.add_0_r, <- Hm. destruct (_ =? 0); [by rewrite lookup_delete_ne|by rewrite lookup_insert_ne].
Qed.

Lemma bumpAll_counted v l : v = 1 \/ v = -1 -> forall m f, counted m f ->
  (forall pr, Z.abs (f pr) + Z.of_nat (length l) <= max_int64) ->
  counted (bumpAll v m l) (fun pr => f pr + v * occurrences pr l).
Proof.
  intros Hv. induction l as [|p l IH]; intros m f Hm Hr.
  - eapply counted_ext; [|done]. intros pr. cbn. lia.
  - cbn [bumpAll foldl]. eapply counted_ext; [|apply IH; [apply (bump_counted m f p v Hm)|]].
    + intros pr. cbv beta. rewrite occurrences_cons. lia.
    + specialize (Hr p). cbn [length] in Hr. unfold in_int64, min_int64, max_int64 in *. lia.
    + intros pr. specialize (Hr pr). cbn [length] in Hr. destruct Hv as [-> | ->]; destruct (decide _); lia.
Qed.

Lemma counted_none : counted ∅ (fun _ => 0).
Proof. intros pr. by rewrite lookup_empty. Qed.

Lemma append_counted m1 m2 f g : counted m1 f -> counted m2 g -> (forall pr, 0 <= f pr /\ 0 <= g pr /\ f pr + g pr <= max_int64) ->
  counted (append m1 m2) (fun pr => f pr + g pr).
Proof.
  intros H1 H2 Hr pr. unfold append. rewrite lookup_union_with, H1, H2. specialize (Hr pr).
  destruct (decide (f pr = 0)) as [Hf|Hf], (decide (g pr = 0)) as [Hg|Hg]; cbn.
  - rewrite decide_True by lia. done.
  - rewrite decide_False by lia. f_equal. lia.
  - rewrite decide_False by lia. f_equal. lia.
  - rewrite decide_False by lia. f_equal. apply wrap64_id. unfold in_int64, min_int64, max_int64 in *. lia.
Qed.

(** The maps of the nodes, appended. *)
Lemma appendAll_counted ms : forall m f, counted m f -> (forall pr, 0 <= f pr) ->
  Forall (fun m => counted m (countAt m) /\ forall pr, 0 <= countAt m pr) ms ->
  (forall pr, f pr + sumOver (fun m => countAt m pr) ms <= max_int64) ->
  counted (foldl append m ms) (fun pr => f pr + sumOver (fun m => countAt m pr) ms).
Proof.
  assert (Hcons : forall pr a k, sumOver (fun m => countAt m pr) (a :: k) = countAt a pr + sumOver (fun m => countAt m pr) k) by done.
  induction ms as [|m1 ms IH]; intros m f Hm Hf Hms Hr.
  - eapply counted_ext; [|done]. intros pr. cbn. lia.
  - apply Forall_cons in Hms as [[Hc1 Hp1] Hms]. cbn [foldl].
    assert (Hnn : forall pr, 0 <= sumOver (fun m => countAt m pr) ms).
    { intros pr. apply sumOver_nonneg. eapply Forall_impl; [done|]. cbn. intros ? [_ ?]. done. }
    eapply counted_ext; [|apply (IH (append m m1) (fun pr => f pr + countAt m1 pr))].
    + intros pr. cbv beta. rewrite Hcons. lia.
    + apply append_counted; [done..|]. intros pr. specialize (Hr pr). rewrite Hcons in Hr. specialize (Hf pr). specialize (Hp1 pr).
      specialize (Hnn pr). lia.
    + intros pr. specialize (Hf pr). specialize (Hp1 pr). lia.
    + done.
    + intros pr. specialize (Hr pr). rewrite Hcons in Hr. lia.
Qed.

(** ** The counts of a cluster

    [h node x] lists the pairs that the pod [x] on the node adds to one of the maps. *)
Section Cluster.
Context (h : Node -> PodInfo -> list topologyPair).
Implicit Types (n : NodeInfo) (nodes : list NodeInfo) (pr : topologyPair).

Definition onNode n pr : Z :=
  match NodeOf n with Some nd => sumOver (fun x => occurrences pr (h nd x)) (Pods n) | None => 0 end.
Definition clusterCount nodes pr : Z := sumOver (fun n => onNode n pr) nodes.

Definition loadOnNode n : Z :=
  match NodeOf n with Some nd => sumOver (fun x => Z.of_nat (length (h nd x))) (Pods n) | None => 0 end.
Definition clusterLoad nodes : Z := sumOver loadOnNode nodes.

Lemma onNode_range n pr : 0 <= onNode n pr <= loadOnNode n.
Proof.
  unfold onNode, loadOnNode. destruct (NodeOf n) as [nd|]; [|lia]. split.
  - apply sumOver_nonneg, list.Forall_forall. intros x _. apply occurrences_range.
  - induction (Pods n) as [|x l IH]; cbn; [lia|]. pose proof (occurrences_range pr (h nd x)). unfold sumOver in IH. lia.
Qed.

Lemma clusterCount_range nodes pr : 0 <= clusterCount nodes pr <= clusterLoad nodes.
Proof.
  unfold clusterCount, clusterLoad. induction nodes as [|n l IH]; cbn; [lia|]. pose proof (onNode_range n pr).
  unfold sumOver in IH. lia.
Qed.

Lemma clusterCount_pos nodes pr : 0 < clusterCount nodes pr <->
  exists n nd x, n ∈ nodes /\ NodeOf n = Some nd /\ x ∈ Pods n /\ pr ∈ h nd x.
Proof.
  unfold clusterCount. rewrite sumOver_pos by (intros; apply onNode_range). split.
  - intros (n&Hn&Hpos). unfold onNode in Hpos. destruct (NodeOf n) as [nd|] eqn:Hnd; [|done].
    apply sumOver_pos in Hpos as (x&Hx&Hpos); [|intros; apply occurrences_range]. apply occurrences_pos in Hpos. by exists n, nd, x.
  - intros (n&nd&x&Hn&Hnd&Hx&Hpr). exists n. split; [done|]. unfold onNode. rewrite Hnd.
    apply sumOver_pos; [intros; apply occurrences_range|]. exists x. split; [done|]. by apply occurrences_pos.
Qed.

End Cluster.

Section ClusterChange.
Context `{LabelsLib} (h : Node -> PodInfo -> list topologyPair).

Definition fromPod (n : NodeInfo) : Prop := forall x, x ∈ Pods n -> x = NewPodInfo (pi_Pod x).

Lemma fromPod_change ch n n' : fromPod n -> changesPods ch (Pods n) (Pods n') -> fromPod n'.
Proof.
  intros Hn Hch x Hx. destruct ch as [p|p]; cbn in Hch.
  - rewrite Hch in Hx. by apply elem_of_cons in Hx as [->|Hx]; [|apply Hn].
  - destruct Hch as (y&_&_&Hp). apply Hn. rewrite Hp. by right.
Qed.

Lemma sum_change (f : PodInfo -> Z) ch n n' : fromPod n -> changesPods ch (Pods n) (Pods n') ->
  sumOver f (Pods n') = sumOver f (Pods n) + changeDelta ch * f (NewPodInfo (changedPod ch)).
Proof.
  assert (Hcons : forall a k, sumOver f (a :: k) = f a + sumOver f k) by done.
  intros Hn Hch. destruct ch as [p|p]; cbn [changedPod changeDelta]; cbn in Hch.
  - rewrite Hch, Hcons. lia.
  - destruct Hch as (x&<-&Hx&Hp). rewrite <- (Hn x Hx), Hp, Hcons. lia.
Qed.

Lemma clusterCount_change nodes i n n' nd ch pr : nodes !! i = Some n -> NodeOf n = Some nd -> node n' = node n ->
  fromPod n -> changesPods ch (Pods n) (Pods n') ->
  clusterCount h (<[i := n']> nodes) pr = clusterCount h nodes pr + changeDelta ch * occurrences pr (h nd (NewPodInfo (changedPod ch))).
Proof.
  intros Hi Hn Hn' Hf Hch. unfold clusterCount. rewrite (sumOver_insert _ _ _ _ _ Hi).
  assert (Hon : onNode h n' pr = onNode h n pr + changeDelta ch * occurrences pr (h nd (NewPodInfo (changedPod ch)))); [|lia].
  unfold onNode. unfold NodeOf in *. rewrite Hn', Hn. exact (sum_change (fun x => occurrences pr (h nd x)) ch n n' Hf Hch).
Qed.

Lemma clusterLoad_change nodes i n n' nd ch : nodes !! i = Some n -> NodeOf n = Some nd -> node n' = node n ->
  fromPod n -> changesPods ch (Pods n) (Pods n') ->
  clusterLoad h (<[i := n']> nodes) = clusterLoad h nodes + changeDelta ch * Z.of_nat (length (h nd (NewPodInfo (changedPod ch)))).
Proof.
  intros Hi Hn Hn' Hf Hch. unfold clusterLoad. rewrite (sumOver_insert _ _ _ _ _ Hi).
  assert (Hon : loadOnNode h n' = loadOnNode h n + changeDelta ch * Z.of_nat (length (h nd (NewPodInfo (changedPod ch))))); [|lia].
  unfold loadOnNode. unfold NodeOf in *. rewrite Hn', Hn. exact (sum_change (fun x => Z.of_nat (length (h nd x))) ch n n' Hf Hch).
Qed.

(** A map that counts the cluster still does after one change and the update for it. *)
Lemma counted_change nodes i n n' nd ch m : nodes !! i = Some n -> NodeOf n = Some nd -> node n' = node n ->
  fromPod n -> changesPods ch (Pods n) (Pods n') -> counted m (clusterCount h nodes) ->
  clusterLoad h nodes + Z.of_nat (length (h nd (NewPodInfo (changedPod ch)))) <= max_int64 ->
  counted (bumpAll (changeDelta ch) m (h nd (NewPodInfo (changedPod ch)))) (clusterCount h (<[i := n']> nodes)).
Proof.
  intros Hi Hn Hn' Hf Hch Hm Hmax. eapply counted_ext; [|apply bumpAll_counted; [destruct ch; [by left|by right]|done|]].
  - intros pr. symmetry. by eapply clusterCount_change.
  - intros pr. pose proof (clusterCount_range h nodes pr). lia.
Qed.

(** The map of a node, and the maps of all nodes appended in any order. *)
Definition nodeMap (pods : NodeInfo -> list PodInfo) (n : NodeInfo) : topologyToMatchedTermCount :=
  match NodeOf n with Some nd => bumpAll 1 ∅ (pods n ≫= h nd) | None => ∅ end.

Lemma nodeMap_counted (pods : NodeInfo -> list PodInfo) n :
  (forall nd pr, NodeOf n = Some nd -> sumOver (fun x => occurrences pr (h nd x)) (pods n) = sumOver (fun x => occurrences pr (h nd x)) (Pods n)) ->
  (forall nd, NodeOf n = Some nd -> Z.of_nat (length (pods n ≫= h nd)) <= max_int64) ->
  counted (nodeMap pods n) (onNode h n).
Proof.
  intros Hp Hmax. unfold nodeMap, onNode. destruct (NodeOf n) as [nd|] eqn:Hn; [|apply counted_none].
  eapply counted_ext; [|apply bumpAll_counted; [by left|apply counted_none|]].
  - intros pr. cbv beta. unfold occurrences at 1. rewrite sumOver_bind. fold (occurrences pr). specialize (Hp nd pr eq_refl).
    unfold occurrences in *. lia.
  - intros pr. cbn. by apply Hmax.
Qed.

(** The maps are those of the nodes, except for empty ones. *)
Definition mapsOf (maps : list topologyToMatchedTermCount) (pods : NodeInfo -> list PodInfo) (nodes : list NodeInfo) : Prop :=
  (forall f : topologyToMatchedTermCount -> Z, f ∅ = 0 -> sumOver f maps = sumOver (fun n => f (nodeMap pods n)) nodes) /\
  (forall m, m ∈ maps -> exists n, n ∈ nodes /\ m = nodeMap pods n).

Lemma nodeMaps_counted (pods : NodeInfo -> list PodInfo) nodes maps :
  (forall n, n ∈ nodes -> counted (nodeMap pods n) (onNode h n)) -> mapsOf maps pods nodes -> clusterLoad h nodes <= max_int64 ->
  counted (foldl append ∅ maps) (clusterCount h nodes).
Proof.
  intros Hn [Hs Hin] Hmax.
  assert (Hsum : forall pr, sumOver (fun m => countAt m pr) maps = clusterCount h nodes pr).
  { intros pr. rewrite Hs by done. apply sumOver_ext. intros n Hi. by apply counted_countAt, Hn. }
  eapply counted_ext; [|apply (appendAll_counted maps ∅ (fun _ => 0) counted_none)].
  - intros pr. cbv beta. rewrite Hsum. lia.
  - done.
  - apply list.Forall_forall. intros m (n&Hi&->)%Hin. pose proof (Hn n Hi) as Hc. split.
    + eapply counted_ext; [|done]. intros pr. symmetry. by apply counted_countAt.
    + intros pr. rewrite (counted_countAt _ _ _ Hc). apply onNode_range.
  - intros pr. rewrite Hsum. pose proof (clusterCount_range h nodes pr). lia.
Qed.

(** A field of the maps of the nodes, without those nodes that have nothing in it. *)
Lemma mapsOf_filter {B} (g : B -> topologyToMatchedTermCount) (P : B -> Prop) `{forall b, Decision (P b)} (f : NodeInfo -> B) pods nodes bs :
  (forall n, g (f n) = nodeMap pods n) -> (forall b, ~ P b -> g b = ∅) -> bs ≡ₚ filter P (f <$> nodes) ->
  mapsOf (g <$> bs) pods nodes.
Proof.
  intros Hg HP Hbs. split.
  - intros k Hk. rewrite sumOver_fmap, Hbs, sumOver_filter by (intros b _ Hb; cbn; by rewrite HP).
    rewrite sumOver_fmap. apply sumOver_ext. intros n _. cbn. by rewrite Hg.
  - intros m (b&->&Hb)%list_elem_of_fmap. rewrite Hbs in Hb. apply list_elem_of_filter in Hb as [_ (n&->&Hn)%list_elem_of_fmap].
    exists n. by rewrite Hg.
Qed.
End ClusterChange.

(** ** The three maps *)
Definition entryOf (nd : Node) (t : AffinityTerm) : option topologyPair :=
  (fun v => (TopologyKey t, v)) <$> node_Labels nd !! TopologyKey t.
Definition antiPairs (targetPod : Pod) (nd : Node) (terms : list AffinityTerm) : list topologyPair :=
  omap (entryOf nd) (filter (fun t => matchesTerm targetPod t = true) terms).
Definition affinityPairs (targetPod : Pod) (nd : Node) (terms : list AffinityTerm) : list topologyPair :=
  if podMatchesAllAffinityTerms targetPod terms then omap (entryOf nd) terms else [].

Lemma bumpTerms_all nd v terms : forall m, foldl (bumpTerm nd v) m terms = bumpAll v m (omap (entryOf nd) terms).
Proof.
  induction terms as [|t terms IH]; intros m; cbn; [done|]. rewrite IH. unfold bumpTerm, entryOf. by destruct (_ !! _).
Qed.

Lemma updateWithAffinityTerms_all m p nd terms v : updateWithAffinityTerms m p nd terms v = bumpAll v m (affinityPairs p nd terms).
Proof. unfold updateWithAffinityTerms, affinityPairs. destruct (podMatchesAllAffinityTerms _ _); [apply bumpTerms_all|done]. Qed.

Lemma updateWithAntiAffinityTerms_all m p nd terms v : updateWithAntiAffinityTerms m p nd terms v = bumpAll v m (antiPairs p nd terms).
Proof.
  unfold updateWithAntiAffinityTerms, antiPairs. rewrite <- bumpTerms_all. revert m.
  induction terms as [|t terms IH]; intros m; cbn [foldl]; [done|]. rewrite IH, filter_cons.
  destruct (matchesTerm p t); [by rewrite decide_True|by rewrite decide_False].
Qed.

Lemma bumpAll_bind {A} v (g : A -> list topologyPair) (l : list A) : forall m,
  foldl (fun m x => bumpAll v m (g x)) m l = bumpAll v m (l ≫= g).
Proof.
  induction l as [|x l IH]; intros m; [done|]. change ((x :: l) ≫= g) with (g x ++ (l ≫= g)).
  cbn [foldl]. rewrite IH. unfold bumpAll. by rewrite foldl_app.
Qed.

Lemma foldl_pair {A B C} (f : A -> C -> A) (g : B -> C -> B) (l : list C) : forall a b,
  foldl (fun '(a, b) c => (f a c, g b c)) (a, b) l = (foldl f a l, foldl g b l).
Proof. induction l as [|c l IH]; intros a b; cbn; [done|apply IH]. Qed.

Lemma foldl_ext' {A B} (f g : A -> B -> A) (l : list B) : (forall a b, f a b = g a b) -> forall a, foldl f a l = foldl g a l.
Proof. intros Hfg. induction l as [|b l IH]; intros a; cbn; [done|]. by rewrite Hfg, IH. Qed.

Definition existingPairs (pod : Pod) (nd : Node) (x : PodInfo) : list topologyPair :=
  antiPairs pod nd (RequiredAntiAffinityTerms x).
Definition wantedPairs (terms : list AffinityTerm) (nd : Node) (x : PodInfo) : list topologyPair :=
  affinityPairs (pi_Pod x) nd terms.
Definition unwantedPairs (terms : list AffinityTerm) (nd : Node) (x : PodInfo) : list topologyPair :=
  antiPairs (pi_Pod x) nd terms.

Lemma existingOfNode_map pod n : existingOfNode pod n = nodeMap (existingPairs pod) PodsWithAffinity n.
Proof.
  unfold existingOfNode, nodeMap. destruct (NodeOf n) as [nd|]; [|done]. rewrite <- bumpAll_bind.
  apply foldl_ext'. intros m x. apply updateWithAntiAffinityTerms_all.
Qed.

Lemma incomingOfNode_maps podInfo n : incomingOfNode podInfo n =
  (nodeMap (wantedPairs (RequiredAffinityTerms podInfo)) Pods n, nodeMap (unwantedPairs (RequiredAntiAffinityTerms podInfo)) Pods n).
Proof.
  unfold incomingOfNode, nodeMap. destruct (NodeOf n) as [nd|]; [|done].
  rewrite (foldl_pair (fun affinity x => updateWithAffinityTerms affinity (pi_Pod x) nd (RequiredAffinityTerms podInfo) 1)
    (fun antiAffinity x => updateWithAntiAffinityTerms antiAffinity (pi_Pod x) nd (RequiredAntiAffinityTerms podInfo) 1)).
  rewrite <- !bumpAll_bind. f_equal; apply foldl_ext'; intros m x;
    [apply updateWithAffinityTerms_all|apply updateWithAntiAffinityTerms_all].
Qed.

(** ** The state of a cluster *)
Section State.
Context `{LabelsLib} (pod : Pod).
Implicit Types (n : NodeInfo) (nodes : list NodeInfo) (pr : topologyPair).

Definition incoming : PodInfo := NewPodInfo pod.
Definition wanted : list AffinityTerm := RequiredAffinityTerms incoming.
Definition unwanted : list AffinityTerm := RequiredAntiAffinityTerms incoming.

(** All counters stay within [int64], also with the terms of one more pod. *)
Definition room (extra : (Node -> PodInfo -> list topologyPair) -> Z) nodes : Prop :=
  clusterLoad (existingPairs pod) nodes + extra (existingPairs pod) <= max_int64 /\
  clusterLoad (wantedPairs wanted) nodes + extra (wantedPairs wanted) <= max_int64 /\
  clusterLoad (unwantedPairs unwanted) nodes + extra (unwantedPairs unwanted) <= max_int64.

Record affinityRepresents nodes (s : affinityState) : Prop := {
  ar_pod : as_podInfo s = incoming;
  ar_existing : counted (topologyToMatchedExistingAntiAffinityTerms s) (clusterCount (existingPairs pod) nodes);
  ar_wanted : counted (topologyToMatchedAffinityTerms s) (clusterCount (wantedPairs wanted) nodes);
  ar_unwanted : counted (topologyToMatchedAntiAffinityTerms s) (clusterCount (unwantedPairs unwanted) nodes);
  ar_pods n : n ∈ nodes -> fromPod n
}.

(** *** The prefilter *)
Definition nodesWithAffinity nodes : list NodeInfo := filter (fun n => (0 <? length (PodsWithAffinity n))%nat = true) nodes.

Lemma noAffinity_noTerms p : hasPodAffinity p = false -> RequiredAntiAffinityTerms (NewPodInfo p) = [].
Proof.
  unfold hasPodAffinity. cbn. unfold GetPodAntiAffinityTerms. destruct (PodAffinitySpec (pod_Spec p)) as [a|]; [|done].
  destruct (af_PodAffinity a), (af_PodAntiAffinity a); try done.
Qed.

(** The pods without affinity have no terms, so the shorter list is enough. *)
Lemma withAffinity_sum n nd (f : list topologyPair -> Z) : accounted n -> fromPod n -> f [] = 0 ->
  sumOver (fun x => f (existingPairs pod nd x)) (PodsWithAffinity n) = sumOver (fun x => f (existingPairs pod nd x)) (Pods n).
Proof.
  intros Ha Hn Hf. rewrite (acc_affinity _ Ha). apply sumOver_filter. intros x Hx Hp.
  apply not_true_is_false, noAffinity_noTerms in Hp. rewrite <- (Hn x Hx) in Hp. unfold existingPairs. by rewrite Hp.
Qed.

Lemma loadOnNode_le h nodes n : n ∈ nodes -> loadOnNode h n <= clusterLoad h nodes.
Proof.
  assert (Hnn : forall m, 0 <= loadOnNode h m) by (intros m; pose proof (onNode_range h m ("", "")); lia).
  assert (Hl : forall l, 0 <= clusterLoad h l) by (intros l; by apply sumOver_nonneg, list.Forall_forall).
  assert (Hcons : forall m l, clusterLoad h (m :: l) = loadOnNode h m + clusterLoad h l) by done.
  intros Hn. induction Hn as [m l|m k l Hm IH]; rewrite Hcons; [specialize (Hl l)|specialize (Hnn k)]; lia.
Qed.

Lemma length_bind {A B} (g : A -> list B) (l : list A) : Z.of_nat (length (l ≫= g)) = sumOver (fun a => Z.of_nat (length (g a))) l.
Proof.
  induction l as [|a l IH]; [done|]. change ((a :: l) ≫= g) with (g a ++ (l ≫= g)).
  rewrite length_app, Nat2Z.inj_add, IH. done.
Qed.

Lemma load_pods h n nd : NodeOf n = Some nd -> Z.of_nat (length (Pods n ≫= h nd)) = loadOnNode h n.
Proof. intros Hn. unfold loadOnNode. rewrite Hn. apply length_bind. Qed.

Context (finishOrder : forall A, list A -> list A) (finishOrder_perm : forall A (l : list A), finishOrder A l ≡ₚ l).

Lemma existing_counted nodes : (forall n, n ∈ nodes -> accounted n /\ fromPod n) -> clusterLoad (existingPairs pod) nodes <= max_int64 ->
  counted (getTPMapMatchingExistingAntiAffinity finishOrder pod (nodesWithAffinity nodes)) (clusterCount (existingPairs pod) nodes).
Proof.
  intros Hn Hmax. unfold getTPMapMatchingExistingAntiAffinity.
  apply (nodeMaps_counted _ PodsWithAffinity).
  - intros n Hin. destruct (Hn n Hin) as [Ha Hf]. apply nodeMap_counted.
    + intros nd pr Hnd. by apply (withAffinity_sum n nd (occurrences pr)).
    + intros nd Hnd. rewrite length_bind. rewrite (withAffinity_sum n nd (fun l => Z.of_nat (length l))) by done.
      rewrite <- length_bind, (load_pods _ _ _ Hnd). etransitivity; [by apply loadOnNode_le|done].
  - set (maps := finishOrder _ _). assert (Hmaps : maps ≡ₚ filter (fun m => m <> ∅) (existingOfNode pod <$> nodesWithAffinity nodes)) by apply finishOrder_perm.
    split.
    + intros f Hf. rewrite Hmaps, sumOver_filter by (intros m _ Hm; by apply dec_stable in Hm as ->).
      rewrite sumOver_fmap. unfold nodesWithAffinity. rewrite sumOver_filter.
      * apply sumOver_ext. intros n _. cbn. by rewrite existingOfNode_map.
      * intros n _ Hp. cbn. rewrite existingOfNode_map. unfold nodeMap. destruct (PodsWithAffinity n); [|done].
        by destruct (NodeOf n).
    + intros m Hm. rewrite Hmaps in Hm. apply list_elem_of_filter in Hm as [_ (n&->&Hin)%list_elem_of_fmap].
      apply list_elem_of_filter in Hin as [_ Hin]. exists n. by rewrite existingOfNode_map.
  - done.
Qed.

Lemma podMap_counted h n : loadOnNode h n <= max_int64 -> counted (nodeMap h Pods n) (onNode h n).
Proof. intros Hmax. apply nodeMap_counted; [done|]. intros nd Hnd. by rewrite (load_pods _ _ _ Hnd). Qed.

Lemma noTerms_count h nodes pr : (forall nd x, h nd x = []) -> clusterCount h nodes pr = 0.
Proof.
  intros Hh. pose proof (clusterCount_range h nodes pr). destruct (Z.eq_dec (clusterCount h nodes pr) 0) as [|Hne]; [done|].
  assert (Hpos : 0 < clusterCount h nodes pr) by lia. apply clusterCount_pos in Hpos as (n&nd&x&_&_&_&Hpr).
  rewrite Hh in Hpr. by apply elem_of_nil in Hpr.
Qed.

Lemma incoming_counted nodes :
  clusterLoad (wantedPairs wanted) nodes <= max_int64 -> clusterLoad (unwantedPairs unwanted) nodes <= max_int64 ->
  let maps := getTPMapMatchingIncomingAffinityAntiAffinity finishOrder incoming nodes in
  counted maps.1 (clusterCount (wantedPairs wanted) nodes) /\ counted maps.2 (clusterCount (unwantedPairs unwanted) nodes).
Proof.
  intros Hw Hu maps. unfold maps, getTPMapMatchingIncomingAffinityAntiAffinity. fold wanted unwanted.
  set (appended := foldl _ _ _). assert (Happ : counted appended.1 (clusterCount (wantedPairs wanted) nodes) /\
    counted appended.2 (clusterCount (unwantedPairs unwanted) nodes)).
  { unfold appended. set (ms := finishOrder _ _).
    assert (Hms : ms ≡ₚ filter (fun m => m.1 <> ∅ \/ m.2 <> ∅) (incomingOfNode incoming <$> nodes)) by apply finishOrder_perm.
    assert (Hfold : forall (l : list (topologyToMatchedTermCount * topologyToMatchedTermCount)) a b,
      foldl (fun '(affinity, antiAffinity) m => (append affinity m.1, append antiAffinity m.2)) (a, b) l =
        (foldl append a (fst <$> l), foldl append b (snd <$> l))).
    { induction l as [|m l IH]; intros a b; cbn; [done|apply IH]. }
    rewrite Hfold. cbn [fst snd]. split.
    - apply (nodeMaps_counted _ Pods); [|apply (mapsOf_filter _ fst (fun m => m.1 <> ∅ \/ m.2 <> ∅) (incomingOfNode incoming))|done].
      + intros n Hin. apply podMap_counted. etransitivity; [by apply loadOnNode_le|done].
      + intros n. rewrite incomingOfNode_maps. done.
      + intros [a b] Hn. cbn in *. destruct (decide (a = ∅)) as [->|]; [done|tauto].
      + exact Hms.
    - apply (nodeMaps_counted _ Pods); [|apply (mapsOf_filter _ snd (fun m => m.1 <> ∅ \/ m.2 <> ∅) (incomingOfNode incoming))|done].
      + intros n Hin. apply podMap_counted. etransitivity; [by apply loadOnNode_le|done].
      + intros n. rewrite incomingOfNode_maps. done.
      + intros [a b] Hn. cbn in *. destruct (decide (b = ∅)) as [->|]; [done|tauto].
      + exact Hms. }
  destruct wanted as [|t ts] eqn:Hwt; [destruct unwanted as [|u us] eqn:Hut|]; [|done..].
  split; eapply counted_ext; [|apply counted_none| |apply counted_none]; intros pr; symmetry; by apply noTerms_count.
Qed.

Lemma calAffinityState_represents nodes : (forall n, n ∈ nodes -> accounted n /\ fromPod n) -> room (fun _ => 0) nodes ->
  affinityRepresents nodes (calAffinityState finishOrder incoming nodes (nodesWithAffinity nodes)).
Proof.
  intros Hn (H1&H2&H3). rewrite !Z.add_0_r in *. unfold calAffinityState.
  destruct (incoming_counted nodes H2 H3) as [Hw Hu]. destruct (getTPMapMatchingIncomingAffinityAntiAffinity _ _ _) as [mw mu].
  split; cbn in *; [done|by apply existing_counted|done|done|]. intros n Hin. by apply Hn.
Qed.

(** *** Updates *)
Definition canFollowPod nodes (i : nat) (ch : podChange) : Prop :=
  exists n nd, nodes !! i = Some n /\ NodeOf n = Some nd /\
    room (fun h => Z.of_nat (length (h nd (NewPodInfo (changedPod ch))))) nodes.

Lemma affinity_step nodes (i : nat) s n n' ch :
  affinityRepresents nodes s -> nodes !! i = Some n -> canFollowPod nodes i ch -> node n' = node n ->
  accounted n -> accounted n' -> changesPods ch (Pods n) (Pods n') ->
  exists s', updateWithPod s (changedPod ch) (NodeOf n') (changeDelta ch) = Some s' /\ affinityRepresents (<[i := n']> nodes) s'.
Proof.
  intros [Hp He Hw Hu Hf] Hi (n0&nd&Hi0&Hn&H1&H2&H3) Hn' _ _ Hch. rewrite Hi in Hi0. injection Hi0 as <-.
  assert (Hnode : NodeOf n' = Some nd) by (unfold NodeOf in *; congruence).
  assert (Hfn : fromPod n) by (apply Hf; by eapply list_elem_of_lookup_2).
  eexists. split; [unfold updateWithPod; by rewrite Hnode|].
  split; cbn [as_podInfo topologyToMatchedExistingAntiAffinityTerms topologyToMatchedAffinityTerms topologyToMatchedAntiAffinityTerms].
  - done.
  - rewrite updateWithAntiAffinityTerms_all, Hp. exact (counted_change _ nodes i n n' nd ch _ Hi Hn Hn' Hfn Hch He H1).
  - rewrite updateWithAffinityTerms_all, Hp. exact (counted_change _ nodes i n n' nd ch _ Hi Hn Hn' Hfn Hch Hw H2).
  - rewrite updateWithAntiAffinityTerms_all, Hp. exact (counted_change _ nodes i n n' nd ch _ Hi Hn Hn' Hfn Hch Hu H3).
  - intros m [j Hj]%list_elem_of_lookup. destruct (decide (j = i)) as [->|Hne].
    + rewrite list_lookup_insert_eq in Hj by (by eapply lookup_lt_Some). injection Hj as <-. by eapply fromPod_change.
    + rewrite list_lookup_insert_ne in Hj by done. apply Hf. by eapply list_elem_of_lookup_2.
Qed.

#[local] Instance affinityTracks : TracksPods affinityState :=
  {| tracks_update s p nd delta := updateWithPod s p nd delta;
     tracks nodes i s := affinityRepresents nodes s;
     tracks_valid := canFollowPod;
     tracks_step := fun nodes i s n n' ch => affinity_step nodes i s n n' ch |}.

(** *** The filter *)

(** The two nodes have the same value of the key. *)
Definition shareTopology (nd1 nd2 : Node) (key : string) : Prop :=
  exists v, node_Labels nd1 !! key = Some v /\ node_Labels nd2 !! key = Some v.

(** A pod of the cluster with its node. *)
Definition placedOn nodes (nd : Node) (x : PodInfo) : Prop := exists n, n ∈ nodes /\ NodeOf n = Some nd /\ x ∈ Pods n.

(** No pod of the cluster has an anti-affinity term against the pod that holds there. *)
Definition existingOk nodes (nd : Node) : Prop :=
  ~ exists nd' x t, placedOn nodes nd' x /\ t ∈ RequiredAntiAffinityTerms x /\ matchesTerm pod t = true /\
      shareTopology nd' nd (TopologyKey t).
(** The pod has no anti-affinity term against a pod of the cluster that holds there. *)
Definition unwantedOk nodes (nd : Node) : Prop :=
  ~ exists nd' x t, placedOn nodes nd' x /\ t ∈ unwanted /\ matchesTerm (pi_Pod x) t = true /\ shareTopology nd' nd (TopologyKey t).
(** The node has every topology key, and for each there is a pod in the same topology that all
    affinity terms match; or no pod of the cluster counts and the pod matches its own terms. *)
Definition wantedOk nodes (nd : Node) : Prop :=
  (forall t, t ∈ wanted -> is_Some (node_Labels nd !! TopologyKey t)) /\
  ((forall t, t ∈ wanted -> exists nd' x, placedOn nodes nd' x /\ podMatchesAllAffinityTerms (pi_Pod x) wanted = true /\
      shareTopology nd' nd (TopologyKey t)) \/
   ((~ exists nd' x t, placedOn nodes nd' x /\ podMatchesAllAffinityTerms (pi_Pod x) wanted = true /\ t ∈ wanted /\
       is_Some (node_Labels nd' !! TopologyKey t)) /\ podMatchesAllAffinityTerms pod wanted = true)).

Lemma elem_of_entries (nd : Node) (terms : list AffinityTerm) k v :
  (k, v) ∈ omap (entryOf nd) terms <-> exists t, t ∈ terms /\ TopologyKey t = k /\ node_Labels nd !! k = Some v.
Proof.
  rewrite list_elem_of_omap. split.
  - intros (t&Ht&He). unfold entryOf in He. destruct (node_Labels nd !! TopologyKey t) as [w|] eqn:Hw; cbn in He; [|done].
    injection He as <- <-. by exists t.
  - intros (t&Ht&<-&Hv). exists t. split; [done|]. unfold entryOf. by rewrite Hv.
Qed.

Lemma elem_of_antiPairs p (nd : Node) (terms : list AffinityTerm) k v : (k, v) ∈ antiPairs p nd terms <->
  exists t, t ∈ terms /\ matchesTerm p t = true /\ TopologyKey t = k /\ node_Labels nd !! k = Some v.
Proof.
  unfold antiPairs. rewrite elem_of_entries. split.
  - intros (t&[Hm Ht]%list_elem_of_filter&Hk). by exists t.
  - intros (t&Ht&Hm&Hk). exists t. split; [by apply list_elem_of_filter|done].
Qed.

Lemma elem_of_affinityPairs p (nd : Node) (terms : list AffinityTerm) k v : (k, v) ∈ affinityPairs p nd terms <->
  podMatchesAllAffinityTerms p terms = true /\ exists t, t ∈ terms /\ TopologyKey t = k /\ node_Labels nd !! k = Some v.
Proof.
  unfold affinityPairs. rewrite <- elem_of_entries. destruct (podMatchesAllAffinityTerms _ _); [by split; [|intros [_ ?]]|].
  split; [by intros ?%elem_of_nil|by intros [? _]].
Qed.

Lemma counted_pos h m nodes pr : counted m (clusterCount h nodes) ->
  0 < countAt m pr <-> exists nd x, placedOn nodes nd x /\ pr ∈ h nd x.
Proof.
  intros Hm. rewrite (counted_countAt _ _ pr Hm), clusterCount_pos. split.
  - intros (n&nd&x&Hn&Hnd&Hx&Hpr). exists nd, x. split; [by exists n|done].
  - intros (nd&x&(n&Hn&Hnd&Hx)&Hpr). by exists n, nd, x.
Qed.

Lemma satisfyExisting_iff nodes s (nd : Node) : affinityRepresents nodes s ->
  satisfyExistingPodsAntiAffinity s nd = true <-> existingOk nodes nd.
Proof.
  intros Hs. pose proof (fun pr => counted_pos _ _ nodes pr (ar_existing _ _ Hs)) as Hpos.
  assert (Hiff : satisfyExistingPodsAntiAffinity s nd = true <->
    forall k v, node_Labels nd !! k = Some v -> ~ 0 < countAt (topologyToMatchedExistingAntiAffinityTerms s) (k, v)).
  { unfold satisfyExistingPodsAntiAffinity. destruct (decide _) as [He|He].
    - split; [|done]. intros _ k v _. by rewrite He.
    - rewrite bool_decide_eq_true. done. }
  rewrite Hiff. unfold existingOk. split.
  - intros Hall (nd'&x&t&Hx&Ht&Hm&v&Hv'&Hv). apply (Hall _ v Hv), Hpos.
    exists nd', x. split; [done|]. apply elem_of_antiPairs. by exists t.
  - intros Hnot k v Hv (nd'&x&Hx&(t&Ht&Hm&<-&Hv')%elem_of_antiPairs)%Hpos.
    apply Hnot. exists nd', x, t. split_and!; [done..|]. by exists v.
Qed.

Lemma satisfyAnti_iff nodes s (nd : Node) : affinityRepresents nodes s -> satisfyPodAntiAffinity s nd = true <-> unwantedOk nodes nd.
Proof.
  intros Hs. unfold satisfyPodAntiAffinity. rewrite (ar_pod _ _ Hs). fold unwanted. rewrite forallb_forall. unfold unwantedOk. split.
  - intros Hall (nd'&x&t&Hx&Ht&Hm&v&Hv'&Hv). specialize (Hall t ltac:(by apply list_elem_of_In)). rewrite Hv in Hall.
    apply negb_true_iff, Z.ltb_ge in Hall. assert (0 < countAt (topologyToMatchedAntiAffinityTerms s) (TopologyKey t, v)); [|lia].
    apply (counted_pos _ _ nodes _ (ar_unwanted _ _ Hs)). exists nd', x. split; [done|]. apply elem_of_antiPairs. by exists t.
  - intros Hnot t Ht%list_elem_of_In. destruct (node_Labels nd !! TopologyKey t) as [v|] eqn:Hv; [|done].
    apply negb_true_iff, Z.ltb_ge. apply Z.le_ngt.
    intros (nd'&x&Hx&(t'&Ht'&Hm&Hk&Hv')%elem_of_antiPairs)%(counted_pos _ _ nodes _ (ar_unwanted _ _ Hs)).
    apply Hnot. exists nd', x, t'. split_and!; [done..|]. exists v. by rewrite Hk.
Qed.

Lemma podsExistLoop_spec s (nd : Node) terms : forall b,
  podsExistLoop s nd terms b =
    if forallb (fun t => bool_decide (is_Some (node_Labels nd !! TopologyKey t))) terms then
      Some (b && forallb (fun t => negb (countAt (topologyToMatchedAffinityTerms s)
        (TopologyKey t, default "" (node_Labels nd !! TopologyKey t)) <=? 0)) terms)
    else None.
Proof.
  induction terms as [|t terms IH]; intros b; cbn; [by rewrite andb_true_r|].
  destruct (node_Labels nd !! TopologyKey t) as [v|]; cbn; [|done]. rewrite IH. destruct (forallb _ terms); [|done].
  destruct (countAt _ _ <=? 0); cbn; [by rewrite andb_false_r|done].
Qed.

Lemma satisfyAffinity_iff nodes s (nd : Node) : affinityRepresents nodes s -> satisfyPodAffinity s nd = true <-> wantedOk nodes nd.
Proof.
  intros Hs. unfold satisfyPodAffinity. rewrite podsExistLoop_spec, (ar_pod _ _ Hs). fold wanted. cbn [andb].
  set (labelled := forallb _ wanted). assert (Hlab : labelled = true <-> forall t, t ∈ wanted -> is_Some (node_Labels nd !! TopologyKey t)).
  { unfold labelled. rewrite forallb_forall. split; intros Hall t Ht.
    - apply (bool_decide_eq_true_1 _). by apply Hall, list_elem_of_In.
    - apply (bool_decide_eq_true_2 _). by apply Hall, list_elem_of_In. }
  destruct labelled; cycle 1.
  { split; [done|]. intros [Hall _]. by apply Hlab in Hall. }
  specialize (proj1 Hlab eq_refl) as Hall. set (exist := forallb _ wanted).
  assert (Hexist : exist = true <-> forall t, t ∈ wanted -> exists nd' x, placedOn nodes nd' x /\
      podMatchesAllAffinityTerms (pi_Pod x) wanted = true /\ shareTopology nd' nd (TopologyKey t)).
  { unfold exist. rewrite forallb_forall.
    assert (Hone : forall t, t ∈ wanted -> negb (countAt (topologyToMatchedAffinityTerms s)
        (TopologyKey t, default "" (node_Labels nd !! TopologyKey t)) <=? 0) = true <->
      exists nd' x, placedOn nodes nd' x /\ podMatchesAllAffinityTerms (pi_Pod x) wanted = true /\ shareTopology nd' nd (TopologyKey t)).
    { intros t Ht. destruct (Hall t Ht) as [v Hv]. rewrite Hv. cbn. rewrite negb_true_iff, Z.leb_gt.
      rewrite (counted_pos _ _ nodes _ (ar_wanted _ _ Hs)). split.
      - intros (nd'&x&Hx&[Hm (t'&Ht'&Hk&Hv')]%elem_of_affinityPairs). exists nd', x. split_and!; [done..|]. by exists v.
      - intros (nd'&x&Hx&Hm&v'&Hv'&Hv2). exists nd', x. split; [done|]. apply elem_of_affinityPairs. split; [done|].
        exists t. split_and!; [done..|]. congruence. }
    split; intros Hh t Ht; apply (Hone t); try done; try (by apply Hh, list_elem_of_In); try (by apply list_elem_of_In). }
  unfold wantedOk. destruct exist.
  - split; [intros _; split; [done|left; by apply Hexist]|done].
  - rewrite andb_true_iff, bool_decide_eq_true, (counted_empty _ _ (ar_wanted _ _ Hs)).
    assert (Hnone : (forall pr, clusterCount (wantedPairs wanted) nodes pr = 0) <->
      ~ exists nd' x t, placedOn nodes nd' x /\ podMatchesAllAffinityTerms (pi_Pod x) wanted = true /\ t ∈ wanted /\
          is_Some (node_Labels nd' !! TopologyKey t)).
    { split.
      - intros Hz (nd'&x&t&(n&Hn&Hnd&Hx)&Hm&Ht&v&Hv). specialize (Hz (TopologyKey t, v)).
        assert (0 < clusterCount (wantedPairs wanted) nodes (TopologyKey t, v)); [|lia]. apply clusterCount_pos.
        exists n, nd', x. split_and!; [done..|]. apply elem_of_affinityPairs. split; [done|]. by exists t.
      - intros Hnot [k v]. pose proof (clusterCount_range (wantedPairs wanted) nodes (k, v)).
        destruct (Z.eq_dec (clusterCount (wantedPairs wanted) nodes (k, v)) 0) as [|Hne]; [done|]. exfalso.
        assert (Hpos : 0 < clusterCount (wantedPairs wanted) nodes (k, v)) by lia.
        apply clusterCount_pos in Hpos as (n&nd'&x&Hn&Hnd&Hx&[Hm (t&Ht&<-&Hv)]%elem_of_affinityPairs).
        apply Hnot. exists nd', x, t. split_and!; [by exists n|done..|by exists v]. }
    rewrite Hnone. split; [intros [Hn Hm]; split; [done|by right]|].
    intros [_ [Hex|[Hn Hm]]]; [by apply Hexist in Hex|done].
Qed.

Lemma AffinityFilter_iff nodes s cycleState nodeInfo (nd : Node) : affinityRepresents nodes s ->
  getAffinityState cycleState = inr s -> NodeOf nodeInfo = Some nd ->
  let status := Filter AffinityFilter cycleState pod nodeInfo in
  (IsSuccess status = true <-> wantedOk nodes nd /\ unwantedOk nodes nd /\ existingOk nodes nd) /\
  (StatusCode status = UnschedulableAndUnresolvable <-> ~ wantedOk nodes nd).
Proof.
  intros Hs Hget Hnd status. unfold status. cbn. rewrite Hnd, Hget.
  rewrite <- (satisfyAffinity_iff nodes s nd Hs), <- (satisfyAnti_iff nodes s nd Hs), <- (satisfyExisting_iff nodes s nd Hs).
  destruct (satisfyPodAffinity s nd), (satisfyPodAntiAffinity s nd), (satisfyExistingPodsAntiAffinity s nd); cbn;
    (split; split; [tauto || (intros; done)..]); try (by intros (?&?&?)); try (by intros []); done.
Qed.
End State.

(** ** Properties *)

(** C36: the prefilter computes, in whatever order its parallel pieces finish, a state
    that stays true to the cluster while pods come and go on a node: no such sequence panics,
    and after it the filter admits a node exactly when it satisfies the affinity terms of the
    pod (or the pod is the first of its group), its anti-affinity terms, and those of every
    pod of the changed cluster.  Only a broken affinity rule is final for the node. *)
Theorem affinity_filter_tracks_cluster `{LabelsLib} (finishOrder : forall A, list A -> list A) (pod : Pod) (nodes : list NodeInfo) :
  (forall A (l : list A), finishOrder A l ≡ₚ l) ->
  (forall n, n ∈ nodes -> accounted n /\ fromPod n) -> room pod (fun _ => 0) nodes ->
  let s := calAffinityState finishOrder (NewPodInfo pod) nodes (nodesWithAffinity nodes) in
  forall i g n chs, nodes !! i = Some n -> @validChanges _ _ (affinityTracks pod) chs nodes i (g, n) ->
    exists g' n' s', @replay _ _ (affinityTracks pod) chs (g, n) s = Some ((g', n'), s') /\
      forall cycleState nodeInfo nd, getAffinityState cycleState = inr s' -> NodeOf nodeInfo = Some nd ->
        let nodes' := <[i := n']> nodes in
        let status := Filter AffinityFilter cycleState pod nodeInfo in
        (IsSuccess status = true <-> wantedOk pod nodes' nd /\ unwantedOk pod nodes' nd /\ existingOk pod nodes' nd) /\
        (StatusCode status = UnschedulableAndUnresolvable <-> ~ wantedOk pod nodes' nd).
Proof.
  intros Hord Hn Hroom s i g n chs Hi Hv.
  pose proof (calAffinityState_represents pod finishOrder Hord nodes Hn Hroom) as Hs.
  destruct (Hn n ltac:(by eapply list_elem_of_lookup_2)) as [Ha _].
  destruct (@replay_tracks _ _ (affinityTracks pod) chs nodes i (g, n) s Hs Hi Ha Hv) as ([g' n']&s'&Hr&Ht&_).
  exists g', n', s'. split; [done|]. intros cycleState nodeInfo nd Hget Hnd. exact (AffinityFilter_iff pod _ s' cycleState nodeInfo nd Ht Hget Hnd).
Qed.

(** ** Concrete instances *)
#[local] Existing Instance exampleLabels.

Definition termFor (app key : string) : PodAffinityTerm :=
  {| term_LabelSelector := Some {| MatchLabels := {[ "app" := app ]}; MatchExpressions := [] |};
     term_Namespaces := []; term_TopologyKey := key |}.
(** A pod that runs in the zone of a database and on a node without noisy pods. *)
Definition clientPod : Pod := podWith "client" "" {[ "app" := "client" ]} None
  (Some {| af_NodeAffinity := None;
           af_PodAffinity := Some {| aff_Required := [termFor "db" "zone"]; aff_Preferred := [] |};
           af_PodAntiAffinity := Some {| aff_Required := [termFor "noisy" "name"]; aff_Preferred := [] |} |}) ∅ [].
Definition appPod (uid node app : string) : Pod := podWith uid node {[ "app" := app ]} None None ∅ [].
Definition appNodes : list NodeInfo :=
  [infoWith (zoneNode "n1" "a") [appPod "u1" "n1" "db"]; infoWith (zoneNode "n2" "a") []; infoWith (zoneNode "n3" "b") []].
Definition noisyThenQuiet : list podChange := [PodAdded (appPod "u2" "n2" "noisy"); PodRemoved (appPod "u2" "n2" "noisy")].

Definition affinityVerdicts (chs : list podChange) : list Status :=
  let s := calAffinityState (fun _ l => l) (NewPodInfo clientPod) appNodes (nodesWithAffinity appNodes) in
  match foldl (fun s ch => s ≫= fun s => updateWithPod s (changedPod ch) (Some (zoneNode "n2" "a")) (changeDelta ch)) (Some s) chs with
  | Some s => (fun n => Filter AffinityFilter (Write ∅ affinityStateKey (AffinityData s)) clientPod n) <$> appNodes
  | None => []
  end.
Example noisy_pod_arrives : StatusCode <$> affinityVerdicts (take 1 noisyThenQuiet) = [Success; Unschedulable; UnschedulableAndUnresolvable].
Proof. vm_compute. reflexivity. Qed.
Example noisy_pod_leaves : StatusCode <$> affinityVerdicts noisyThenQuiet = [Success; Success; UnschedulableAndUnresolvable].
Proof. vm_compute. reflexivity. Qed.

Lemma affinity_filter_tracks_cluster_witness :
  exists g' n' s',
    @replay _ _ (affinityTracks clientPod) noisyThenQuiet (1, infoWith (zoneNode "n2" "a") [])
      (calAffinityState (fun _ l => l) (NewPodInfo clientPod) appNodes (nodesWithAffinity appNodes)) = Some ((g', n'), s') /\
    let nodes' := <[1%nat := n']> appNodes in
    wantedOk clientPod nodes' (zoneNode "n2" "a") /\ unwantedOk clientPod nodes' (zoneNode "n2" "a") /\
    existingOk clientPod nodes' (zoneNode "n2" "a").
Proof.
  assert (Hpods : forall n, n ∈ appNodes -> accounted n /\ fromPod n).
  { assert (Hempty : forall name zone, accounted (infoWith (zoneNode name zone) []) /\ fromPod (infoWith (zoneNode name zone) [])).
    { intros name zone. split; [apply accounted_SetNode, accounted_NewNodeInfo|intros x Hx; apply elem_of_nil in Hx as []]. }
    intros n Hn. apply elem_of_cons in Hn as [->|Hn]; [split|apply elem_of_cons in Hn as [->|Hn]; [apply Hempty|
      apply list_elem_of_singleton in Hn as ->; apply Hempty]].
    - apply AddPod_accounted; [apply Hempty|discriminate|apply (bool_decide_unpack _); vm_compute; exact I].
    - intros x Hx. apply list_elem_of_singleton in Hx as ->. reflexivity. }
  destruct (affinity_filter_tracks_cluster (fun _ l => l) clientPod appNodes ltac:(intros; reflexivity) Hpods
    ltac:(vm_compute; repeat split; discriminate) 1%nat 1 (infoWith (zoneNode "n2" "a") []) noisyThenQuiet eq_refl) as (g'&n'&s'&Hr&Hf).
  - cbn [validChanges validChange noisyThenQuiet tracks_valid affinityTracks]. unfold canFollowPod.
    repeat match goal with |- _ /\ _ => split end; try exact I;
      try (eexists _, (zoneNode "n2" "a"); split; [vm_compute; reflexivity|split; [vm_compute; reflexivity|vm_compute; repeat split; discriminate]]);
      solve [apply (bool_decide_unpack _); vm_compute; exact I].
  - exists g', n', s'. split; [exact Hr|]. cbv zeta.
    apply (Hf (@Write pluginStateData ∅ affinityStateKey (AffinityData s')) (infoWith (zoneNode "n2" "a") [])); [vm_compute; reflexivity|reflexivity|].
    pose (verdict := fun r : option ((Z * NodeInfo) * affinityState) => match r with
      | Some (_, s) => IsSuccess (Filter AffinityFilter (@Write pluginStateData ∅ affinityStateKey (AffinityData s)) clientPod (infoWith (zoneNode "n2" "a") []))
      | None => false end).
    change (verdict (Some ((g', n'), s')) = true). rewrite <- Hr. vm_compute. reflexivity.
Defined.
