(* ===== verification/NodePlugins.v ===== *)
(** * The plugins that look at one node

    NodeName, NodeUnschedulable, NodePorts, TaintToleration, NodeLabel, NodeAffinity,
    ImageLocality, VolumeRestrictions and VolumeZone of scheduler/framework/plugins, with the
    normalization of scores that they share (plugins/helper/normalize_score.go). *)
From Stdlib Require Import Ascii.
From stdpp Require Import pretty.
From S2P Require Import Prelude Api NodeInfo Framework Float64 PluginData NodeResources PodTopologySpread.
Local Open Scope Z_scope.
Local Open Scope go_scope.

(** [SnapshotSharedLister().NodeInfos().Get]: the text of its error or a node info. *)
Abbreviation NodeInfoLister := (string -> string + NodeInfo).

(** The methods of a score plugin of the tree; [None] is a panic. *)
Record ScoreMethods := {
  sm_Name : string;
  sm_Score : CycleState -> Pod -> string -> option (Z * Status);
  sm_NormalizeScore : option (CycleState -> Pod -> NodeScoreList -> option (Status * NodeScoreList))
}.

Definition gettingNode (nodeName err more : string) : Status :=
  NewStatus Error [String.concat "" ["getting node "; quoted nodeName; " from Snapshot: "; err; more]].

(** ** Normalization (helper/normalize_score.go) *)
Definition setScore (ns : NodeScore) (s : Z) : NodeScore := {| score_Name := score_Name ns; Score := s |}.

Definition maxScoreOf (scores : NodeScoreList) : Z :=
  foldl (fun maxCount ns => if maxCount <? Score ns then Score ns else maxCount) 0 scores.

Definition DefaultNormalizeScore (maxPriority : Z) (reverse : bool) (scores : NodeScoreList) : Status * NodeScoreList :=
  let maxCount := maxScoreOf scores in
  if maxCount =? 0 then (None, if reverse then (fun ns => setScore ns maxPriority) <$> scores else scores)
  else
    (None, (fun ns =>
      let score := wrap64 (Z.quot (maxPriority *₆₄ Score ns) maxCount) in
      setScore ns (if reverse then maxPriority -₆₄ score else score)) <$> scores).

(** ** The resource plugins (NodeResources.v) as score plugins *)
Definition LeastAllocatedName : string := "NodeResourcesLeastAllocated".
Definition MostAllocatedName : string := "NodeResourcesMostAllocated".
Definition BalancedAllocationName : string := "NodeResourcesBalancedAllocation".
Definition RequestedToCapacityRatioName : string := "RequestedToCapacityRatio".

Definition AllocationScore (name : string) (r : scorer) (weights : resourceToValueMap) (handle : NodeInfoLister) : ScoreMethods :=
  {| sm_Name := name;
     sm_Score _ pod nodeName := ScoreFrom r (Some weights) handle pod nodeName;
     sm_NormalizeScore := None |}.
Definition MostAllocatedMethods (r : scorer) (weights : resourceToValueMap) (handle : NodeInfoLister) : ScoreMethods :=
  {| sm_Name := MostAllocatedName;
     sm_Score _ pod nodeName := MostAllocatedScore r (Some weights) handle pod nodeName;
     sm_NormalizeScore := None |}.

(** ** NodeName (nodename/node_name.go) *)
Definition NodeNameFits (pod : Pod) (node : Node) : bool :=
  bool_decide (NodeName (pod_Spec pod) = "") || bool_decide (NodeName (pod_Spec pod) = node_Name node).

Definition NodeNameFilter : FilterPlugin :=
  {| filter_Name := "NodeName";
     Filter _ pod nodeInfo :=
       match NodeOf nodeInfo with
       | None => NewStatus Error ["node not found"]
       | Some node =>
           if negb (NodeNameFits pod node)
           then NewStatus UnschedulableAndUnresolvable ["node(s) didn't match the requested hostname"]
           else None
       end |}.

(** ** NodeUnschedulable (nodeunschedulable/node_unschedulable.go) *)
Definition NodeUnschedulableFilter : FilterPlugin :=
  {| filter_Name := "NodeUnschedulable";
     Filter _ pod nodeInfo :=
       match NodeOf nodeInfo with
       | None => NewStatus UnschedulableAndUnresolvable ["node(s) had unknown conditions"]
       | Some node =>
           let podToleratesUnschedulable := false in
           if node_Unschedulable node && negb podToleratesUnschedulable
           then NewStatus UnschedulableAndUnresolvable ["node(s) were unschedulable"]
           else None
       end |}.

(** ** NodePorts (nodeports/node_ports.go) *)
Definition getContainerPorts (pods : list Pod) : list ContainerPort :=
  pods ≫= fun pod => Containers (pod_Spec pod) ≫= c_Ports.

Definition portsStateKey : string := "PreFilterNodePorts".

Definition PortsPreFilter : PreFilterPlugin :=
  {| prefilter_Name := "NodePorts";
     PreFilter cycleState pod := (None, Write cycleState portsStateKey (PortsData (getContainerPorts [pod])));
     Extensions := None |}.

Definition getPortsState (cycleState : CycleState) : string + list ContainerPort :=
  match Read cycleState portsStateKey with
  | None => inl (notRead portsStateKey)
  | Some (PortsData s) => inr s
  | Some _ => inl "convert to nodeports.preFilterState error"
  end.

Definition fitsPorts (wantPorts : list ContainerPort) (nodeInfo : NodeInfo) : bool :=
  forallb (fun cp => negb (CheckConflict (UsedPorts nodeInfo) (cp_HostIP cp) (cp_Protocol cp) (cp_HostPort cp))) wantPorts.

Definition PortsFilter : FilterPlugin :=
  {| filter_Name := "NodePorts";
     Filter cycleState pod nodeInfo :=
       match getPortsState cycleState with
       | inl err => NewStatus Error [err]
       | inr wantPorts =>
           if negb (fitsPorts wantPorts nodeInfo)
           then NewStatus Unschedulable ["node(s) didn't have free ports for the requested pod ports"]
           else None
       end |}.

Definition PortsFits (pod : Pod) (nodeInfo : NodeInfo) : bool := fitsPorts (getContainerPorts [pod]) nodeInfo.

(** ** TaintToleration (tainttoleration/taint_toleration.go) *)
Definition filterPredicate (t : Taint) : bool :=
  bool_decide (taint_Effect t = "NoSchedule") || bool_decide (taint_Effect t = "NoExecute").

(** The taint that is tested is a new one. *)
Definition TaintFilter : FilterPlugin :=
  {| filter_Name := "TaintToleration";
     Filter _ pod nodeInfo :=
       match NodeOf nodeInfo with
       | None => NewStatus Error ["invalid nodeInfo"]
       | Some _ =>
           let taint := {| taint_Key := ""; taint_Value := ""; taint_Effect := "" |} in
           let isUntolerated := filterPredicate taint in
           if negb isUntolerated then None
           else NewStatus UnschedulableAndUnresolvable
                  [String.concat "" ["node(s) had taint {"; taint_Key taint; ", "; taint_Value taint;
                                     "}, that the pod didn't tolerate"]]
       end |}.

Definition PreferNoSchedule : string := "PreferNoSchedule".
Definition getAllTolerationPreferNoSchedule (tolerations : list Toleration) : list Toleration :=
  filter (fun toleration => tol_Effect toleration = "" \/ tol_Effect toleration = PreferNoSchedule) tolerations.

Definition taintStateKey : string := "PreScoreTaintToleration".

Definition TaintPreScore : PreScorePlugin :=
  {| prescore_Name := "TaintToleration";
     PreScore cycleState pod nodes :=
       match nodes with
       | [] => (None, cycleState)
       | _ => (None, Write cycleState taintStateKey
                       (TolerationData (getAllTolerationPreferNoSchedule (Tolerations (pod_Spec pod)))))
       end |}.

Definition getTaintState (cycleState : CycleState) : string + list Toleration :=
  match Read cycleState taintStateKey with
  | None => inl (String.concat "" ["Error reading "; quoted taintStateKey; " from cycleState: not found"])
  | Some (TolerationData s) => inr s
  | Some _ => inl "convert to tainttoleration.preScoreState error"
  end.

(** The tolerations are not looked at. *)
Definition countIntolerableTaintsPreferNoSchedule (taints : list Taint) (tolerations : list Toleration) : Z :=
  foldl (fun intolerableTaints taint =>
    if decide (taint_Effect taint <> PreferNoSchedule) then intolerableTaints else intolerableTaints +₆₄ 1) 0 taints.

Definition TaintScore (handle : NodeInfoLister) : ScoreMethods :=
  {| sm_Name := "TaintToleration";
     sm_Score cycleState pod nodeName :=
       match handle nodeName with
       | inl err => Some (0, gettingNode nodeName err "")
       | inr nodeInfo =>
           match NodeOf nodeInfo with
           | None => Some (0, gettingNode nodeName "<nil>" "")
           | Some node =>
               match getTaintState cycleState with
               | inl err => Some (0, NewStatus Error [err])
               | inr s => Some (countIntolerableTaintsPreferNoSchedule (node_Taints node) s, None)
               end
           end
       end;
     sm_NormalizeScore := Some (fun _ _ scores => Some (DefaultNormalizeScore MaxNodeScore true scores)) |}.

(** ** NodeLabel (nodelabel/node_label.go, the validation of its arguments) *)
Record NodeLabelArgs := {
  PresentLabels : list string;
  AbsentLabels : list string;
  PresentLabelsPreference : list string;
  AbsentLabelsPreference : list string
}.

(** The label in conflict of the message. *)
Definition validateNoConflict (presentLabels absentLabels : list string) : option string :=
  let m : gset string := list_to_set presentLabels in
  list_find (fun l => l ∈ m) absentLabels ≫= fun '(_, l) => Some l.

Definition ValidateNodeLabelArgs (args : NodeLabelArgs) : option string :=
  match validateNoConflict (PresentLabels args) (AbsentLabels args) with
  | Some err => Some err
  | None => validateNoConflict (PresentLabelsPreference args) (AbsentLabelsPreference args)
  end.

Definition hasLabel (nodeLabels : LabelSet) (label : string) : bool := bool_decide (is_Some (nodeLabels !! label)).

Definition checkLabels (nodeLabels : LabelSet) (labels : list string) (presence : bool) : bool :=
  forallb (fun label =>
    let exist := hasLabel nodeLabels label in
    negb ((exist && negb presence) || (negb exist && presence))) labels.

Definition LabelFilter (args : NodeLabelArgs) : FilterPlugin :=
  {| filter_Name := "NodeLabel";
     Filter _ pod nodeInfo :=
       match NodeOf nodeInfo with
       | None => NewStatus Error ["node not found"]
       | Some node =>
           if checkLabels (node_Labels node) (PresentLabels args) true &&
              checkLabels (node_Labels node) (AbsentLabels args) false
           then None
           else NewStatus UnschedulableAndUnresolvable ["node(s) didn't have the requested labels"]
       end |}.

Definition addPreferences (holds : string -> bool) (score : Z) (labels : list string) : Z :=
  foldl (fun score label => if holds label then score +₆₄ MaxNodeScore else score) score labels.

Definition LabelScore (args : NodeLabelArgs) (handle : NodeInfoLister) : ScoreMethods :=
  {| sm_Name := "NodeLabel";
     sm_Score cycleState pod nodeName :=
       match handle nodeName with
       | inl err => Some (0, gettingNode nodeName err ", node is nil: true")
       | inr nodeInfo =>
           match NodeOf nodeInfo with
           | None => Some (0, gettingNode nodeName "<nil>" ", node is nil: true")
           | Some node =>
               let score := addPreferences (hasLabel (node_Labels node)) 0 (PresentLabelsPreference args) in
               let score := addPreferences (negb ∘ hasLabel (node_Labels node)) score (AbsentLabelsPreference args) in
               score ← div64 score (Z.of_nat (length (PresentLabelsPreference args) + length (AbsentLabelsPreference args)));
               Some (score, None)
           end
       end;
     sm_NormalizeScore := None |}.

(** ** NodeAffinity (nodeaffinity/node_affinity.go) *)
Section Affinity.
Context `{LabelsLib, SelectorLib}.
Definition NodeAffinityFilter : FilterPlugin :=
  {| filter_Name := "NodeAffinity";
     Filter _ pod nodeInfo :=
       match NodeOf nodeInfo with
       | None => NewStatus Error ["node not found"]
       | Some node =>
           if negb (PodMatchesNodeSelectorAndAffinityTerms pod node)
           then NewStatus UnschedulableAndUnresolvable ["node(s) didn't match node selector"]
           else None
       end |}.
End Affinity.

(** A weight is added for every node: the preference is not looked at. *)
Definition preferenceCount (affinity : option Affinity) : Z :=
  match affinity ≫= af_NodeAffinity with
  | Some nodeAffinity =>
      foldl (fun count preferredSchedulingTerm =>
        if pst_Weight preferredSchedulingTerm =? 0 then count
        else count +₆₄ pst_Weight preferredSchedulingTerm) 0 (na_Preferred nodeAffinity)
  | None => 0
  end.

Definition NodeAffinityScore (handle : NodeInfoLister) : ScoreMethods :=
  {| sm_Name := "NodeAffinity";
     sm_Score cycleState pod nodeName :=
       match handle nodeName with
       | inl err => Some (0, gettingNode nodeName err "")
       | inr nodeInfo =>
           match NodeOf nodeInfo with
           | None => Some (0, gettingNode nodeName "<nil>" "")
           | Some _ => Some (preferenceCount (PodAffinitySpec (pod_Spec pod)), None)
           end
       end;
     sm_NormalizeScore := Some (fun _ _ scores => Some (DefaultNormalizeScore MaxNodeScore false scores)) |}.

(** ** ImageLocality (imagelocality/image_locality.go) *)
Definition mb : Z := 1024 * 1024.
Definition minThreshold : Z := 23 * mb.
Definition maxContainerThreshold : Z := 1000 * mb.

(** [strings.LastIndex] of a string of one character. *)
Fixpoint lastIndexFrom (i : Z) (last : Z) (c : ascii) (s : string) : Z :=
  match s with
  | EmptyString => last
  | String d s => lastIndexFrom (i + 1) (if Ascii.eqb c d then i else last) c s
  end.
Definition LastIndex (s : string) (c : ascii) : Z := lastIndexFrom 0 (-1) c s.

Definition normalizedImageName (name : string) : string :=
  if LastIndex name ":" <=? LastIndex name "/" then String.append name ":latest" else name.

Section Images.
Context `{MathLib}.

Definition scaledImageScore (imageState : ImageStateSummary) (totalNumNodes : Z) : Z :=
  let spread := fdiv (ofInt (NumNodes imageState)) (ofInt totalNumNodes) in
  toInt (fmul (ofInt (Size imageState)) spread).

Definition sumImageScores (nodeInfo : NodeInfo) (containers : list Container) (totalNumNodes : Z) : Z :=
  foldl (fun sum container =>
    match ImageStates nodeInfo !! normalizedImageName (c_Image container) with
    | Some state => sum +₆₄ scaledImageScore state totalNumNodes
    | None => sum
    end) 0 containers.

Definition calculatePriority (sumScores numContainers : Z) : option Z :=
  let maxThreshold := maxContainerThreshold *₆₄ numContainers in
  let sumScores := if sumScores <? minThreshold then minThreshold
                   else if maxThreshold <? sumScores then maxThreshold else sumScores in
  div64 (MaxNodeScore *₆₄ (sumScores -₆₄ minThreshold)) (maxThreshold -₆₄ minThreshold).

(** [NodeInfos().List()] of the same lister. *)
Definition ImageScore (handle : NodeInfoLister) (allNodes : string + list NodeInfo) : ScoreMethods :=
  {| sm_Name := "ImageLocality";
     sm_Score cycleState pod nodeName :=
       match handle nodeName with
       | inl err => Some (0, gettingNode nodeName err "")
       | inr nodeInfo =>
           match allNodes with
           | inl err => Some (0, NewStatus Error [err])
           | inr nodeInfos =>
               let totalNumNodes := Z.of_nat (length nodeInfos) in
               let containers := Containers (pod_Spec pod) in
               score ← calculatePriority (sumImageScores nodeInfo containers totalNumNodes) (Z.of_nat (length containers));
               Some (score, None)
           end
       end;
     sm_NormalizeScore := None |}.
End Images.

(** ** VolumeRestrictions (volumerestrictions/volume_restrictions.go) *)
Definition haveOverlap (a1 a2 : list string) : bool :=
  let '(a1, a2) := if (length a2 <? length a1)%nat then (a2, a1) else (a1, a2) in
  let m : gset string := list_to_set a1 in
  existsb (fun val => bool_decide (val ∈ m)) a2.

(** One iteration of the loop of [isVolumeConflict]. *)
Definition conflictsWith (volume existingVolume : Volume) : bool :=
  match GCEPersistentDisk volume, GCEPersistentDisk existingVolume with
  | Some disk, Some existingDisk =>
      bool_decide (PDName disk = PDName existingDisk) && negb (gce_ReadOnly disk && gce_ReadOnly existingDisk)
  | _, _ => false
  end ||
  match AWSElasticBlockStore volume, AWSElasticBlockStore existingVolume with
  | Some volumeID, Some existingID => bool_decide (volumeID = existingID)
  | _, _ => false
  end ||
  match ISCSI volume, ISCSI existingVolume with
  | Some disk, Some existingDisk =>
      bool_decide (IQN disk = IQN existingDisk) && negb (iscsi_ReadOnly disk && iscsi_ReadOnly existingDisk)
  | _, _ => false
  end ||
  match RBD volume, RBD existingVolume with
  | Some disk, Some existingDisk =>
      haveOverlap (CephMonitors disk) (CephMonitors existingDisk) && bool_decide (RBDPool disk = RBDPool existingDisk) &&
      bool_decide (RBDImage disk = RBDImage existingDisk) && negb (rbd_ReadOnly disk && rbd_ReadOnly existingDisk)
  | _, _ => false
  end.

Definition isVolumeConflict (volume : Volume) (pod : Pod) : bool :=
  existsb (conflictsWith volume) (Volumes (pod_Spec pod)).

Definition noDisk (v : Volume) : bool :=
  bool_decide (GCEPersistentDisk v = None) && bool_decide (AWSElasticBlockStore v = None) &&
  bool_decide (RBD v = None) && bool_decide (ISCSI v = None).

Definition VolumeRestrictionsFilter : FilterPlugin :=
  {| filter_Name := "VolumeRestrictions";
     Filter _ pod nodeInfo :=
       if existsb (fun v => negb (noDisk v) && existsb (fun ev => isVolumeConflict v (pi_Pod ev)) (Pods nodeInfo))
            (Volumes (pod_Spec pod))
       then NewStatus Unschedulable ["node(s) had no available disk"]
       else None |}.

(** ** VolumeZone (volumezone/volume_zone.go) *)
Definition volumeZoneLabels : gset string :=
  {["failure-domain.beta.kubernetes.io/zone"; "failure-domain.beta.kubernetes.io/region";
    "topology.kubernetes.io/zone"; "topology.kubernetes.io/region"]}.

(** Whatever the zone labels of the node are, it is admitted. *)
Definition VolumeZoneFilter : FilterPlugin :=
  {| filter_Name := "VolumeZone";
     Filter _ pod nodeInfo :=
       match Volumes (pod_Spec pod), NodeOf nodeInfo with
       | [], _ => None
       | _, None => NewStatus Error ["node not found"]
       | _, Some node =>
           let nodeConstraints := filter (fun e => e.1 ∈ volumeZoneLabels) (node_Labels node) in
           if decide (nodeConstraints = ∅) then None else None
       end |}.

(** ** Finite examples *)
Example image_with_registry_port : normalizedImageName "host:5000/image" = "host:5000/image:latest".
Proof. reflexivity. Qed.
Example image_with_tag : normalizedImageName "host:5000/image:v1" = "host:5000/image:v1".
Proof. reflexivity. Qed.
Example image_priority : calculatePriority (minThreshold + (maxContainerThreshold - minThreshold) / 2) 1 = Some 50.
Proof. reflexivity. Qed.
