(* ===== verification/SelectorSpread.v ===== *)
(** * The plugins that spread pods by the services and controllers that select them

    SelectorSpread (plugins/selectorspread) scores a node by the pods that the services,
    replication controllers, replica sets and stateful sets of a pod select; ServiceAffinity
    (plugins/serviceaffinity) filters and scores by the labels of the nodes that hold pods
    of the same service. *)
From S2P Require Import Prelude Api NodeInfo NodeTree Framework Float64 PluginData PodTopologySpread NodePlugins.
Local Open Scope Z_scope.
Local Open Scope go_scope.

Section SelectorSpread.
Context `{LabelsLib, SelectorLib, ZoneKey, MathLib}.

(** ** SelectorSpread *)
Definition selectorStateKey : string := "PreScoreSelectorSpread".
Definition zoneWeighting : float64 := fdiv (ofInt 2) (ofInt 3).

Definition skipSelectorSpread (pod : Pod) : bool :=
  negb (bool_decide (length (TopologySpreadConstraints (pod_Spec pod)) = 0%nat)).

Definition countMatchingPods (namespace : string) (selector : Selector) (nodeInfo : NodeInfo) : Z :=
  if bool_decide (length (Pods nodeInfo) = 0%nat) || SelectorEmpty selector then 0
  else Z.of_nat (length (filter (fun p =>
         namespace = pod_Namespace (pi_Pod p) /\ DeletionTimestamp (pi_Pod p) = None /\
         Matches selector (pod_Labels (pi_Pod p)) = true) (Pods nodeInfo))).

Definition SelectorPreScore (pl : spreadListers) : PreScorePlugin :=
  {| prescore_Name := "SelectorSpread";
     PreScore cycleState pod nodes :=
       if skipSelectorSpread pod then (None, cycleState)
       else (None, Write cycleState selectorStateKey (SelectorData (DefaultSelector pod pl))) |}.

Definition selectorScoreOf (handle : NodeInfoLister) (state : CycleState) (pod : Pod) (nodeName : string) : Z * Status :=
  if skipSelectorSpread pod then (0, None)
  else
    match Read state selectorStateKey with
    | None =>
        (0, NewStatus Error [String.concat "" ["Error reading "; quoted selectorStateKey; " from cycleState: not found"]])
    | Some (SelectorData selector) =>
        match handle nodeName with
        | inl err => (0, gettingNode nodeName err "")
        | inr nodeInfo => (countMatchingPods (pod_Namespace pod) selector nodeInfo, None)
        end
    | Some _ => (0, NewStatus Error ["convert to tainttoleration.preScoreState error"])
    end.

(** The first loop of [NormalizeScore]: the counts by zone, and the greatest count of a node. *)
Fixpoint countZones (handle : NodeInfoLister) (scores : NodeScoreList) (countsByZone : gmap string Z)
    (maxCountByNodeName : Z) : Status + gmap string Z * Z :=
  match scores with
  | [] => inr (countsByZone, maxCountByNodeName)
  | ns :: scores =>
      let maxCountByNodeName := if maxCountByNodeName <? Score ns then Score ns else maxCountByNodeName in
      match handle (score_Name ns) with
      | inl err => inl (gettingNode (score_Name ns) err "")
      | inr nodeInfo =>
          let zoneID := GetZoneKey (NodeOf nodeInfo) in
          if decide (zoneID = "") then countZones handle scores countsByZone maxCountByNodeName
          else countZones handle scores
                 (<[zoneID := default 0 (countsByZone !! zoneID) +₆₄ Score ns]> countsByZone) maxCountByNodeName
      end
  end.

Definition maxOverZones (countsByZone : gmap string Z) : Z :=
  map_fold (fun _ count maxCountByZone => if maxCountByZone <? count then count else maxCountByZone) 0 countsByZone.

(** [MaxNodeScoreFloat64 * (float64(max - count) / float64(max))], or the maximum when [max] is 0. *)
Definition shareOfMax (max count : Z) : float64 :=
  if 0 <? max then fmul (ofInt MaxNodeScore) (fdiv (ofInt (max -₆₄ count)) (ofInt max)) else ofInt MaxNodeScore.

(** The second loop, which writes the scores one by one. *)
Fixpoint spreadScores (handle : NodeInfoLister) (countsByZone : gmap string Z) (maxCountByNodeName maxCountByZone : Z)
    (scores : NodeScoreList) : Status * NodeScoreList :=
  match scores with
  | [] => (None, [])
  | ns :: rest =>
      let fScore := shareOfMax maxCountByNodeName (Score ns) in
      let continue fScore :=
        let '(status, rest) := spreadScores handle countsByZone maxCountByNodeName maxCountByZone rest in
        (status, setScore ns (toInt fScore) :: rest) in
      if decide (countsByZone = ∅) then continue fScore
      else
        match handle (score_Name ns) with
        | inl err => (gettingNode (score_Name ns) err "", scores)
        | inr nodeInfo =>
            let zoneID := GetZoneKey (NodeOf nodeInfo) in
            if decide (zoneID = "") then continue fScore
            else
              let zoneScore := shareOfMax maxCountByZone (default 0 (countsByZone !! zoneID)) in
              continue (fadd (fmul fScore (fsub fone zoneWeighting)) (fmul zoneWeighting zoneScore))
        end
  end.

Definition selectorNormalize (handle : NodeInfoLister) (pod : Pod) (scores : NodeScoreList) : Status * NodeScoreList :=
  if skipSelectorSpread pod then (None, scores)
  else
    match countZones handle scores ∅ 0 with
    | inl status => (status, scores)
    | inr (countsByZone, maxCountByNodeName) =>
        spreadScores handle countsByZone maxCountByNodeName (maxOverZones countsByZone) scores
    end.

Definition SelectorScore (handle : NodeInfoLister) : ScoreMethods :=
  {| sm_Name := "SelectorSpread";
     sm_Score state pod nodeName := Some (selectorScoreOf handle state pod nodeName);
     sm_NormalizeScore := Some (fun _ pod scores => Some (selectorNormalize handle pod scores)) |}.
End SelectorSpread.

(** ** ServiceAffinity *)
Section ServiceAffinity.
Context `{LabelsLib, SelectorLib, MathLib}.
(** [labels.Everything()] *)
Context (Everything : Selector).

Record ServiceAffinity := {
  AffinityLabels : list string;
  AntiAffinityLabelsPreference : list string;
  serviceLister : spreadListers
}.

Definition serviceStateKey : string := "PreFilterServiceAffinity".

Definition createSelectorFromLabels (aL : LabelSet) : Selector :=
  if decide (aL = ∅) then Everything else SelectorFromSet aL.

Definition filterPods (nodeInfos : list NodeInfo) (selector : Selector) (ns : string) : list Pod :=
  nodeInfos ≫= fun n =>
    filter (fun p => pod_Namespace p = ns /\ Matches selector (pod_Labels p) = true) (pi_Pod <$> Pods n).

Definition findLabelsInSet (labelsToKeep : list string) (selector : LabelSet) : LabelSet :=
  foldl (fun aL l => match selector !! l with Some v => <[l := v]> aL | None => aL end) ∅ labelsToKeep.

Definition addUnsetLabelsToMap (aL : LabelSet) (labelsToAdd : list string) (labelSet : LabelSet) : LabelSet :=
  foldl (fun aL l =>
    match aL !! l with
    | Some _ => aL
    | None => match labelSet !! l with Some v => <[l := v]> aL | None => aL end
    end) aL labelsToAdd.

(** The error of the service lister has no text here. *)
Definition createPreFilterState (pl : ServiceAffinity) (allNodes : string + list NodeInfo) (pod : Pod)
    : string + serviceState :=
  match GetPodServices (serviceLister pl) pod with
  | None => inl "listing pod services"
  | Some services =>
      let selector := createSelectorFromLabels (pod_Labels pod) in
      match allNodes with
      | inl err => inl (String.append "listing nodeInfos: " err)
      | inr nodeInfos =>
          inr {| matchingPodList := filterPods nodeInfos selector (pod_Namespace pod); matchingPodServices := services |}
      end
  end.

Definition ServicePreFilter (pl : ServiceAffinity) (allNodes : string + list NodeInfo) (cycleState : CycleState) (pod : Pod)
    : Status * CycleState :=
  match AffinityLabels pl with
  | [] => (None, cycleState)
  | _ =>
      match createPreFilterState pl allNodes pod with
      | inl err => (NewStatus Error [String.append "could not create preFilterState: " err], cycleState)
      | inr s => (None, Write cycleState serviceStateKey (ServiceData s))
      end
  end.

Definition getServiceState (cycleState : CycleState) : string + serviceState :=
  match Read cycleState serviceStateKey with
  | None => inl (notRead serviceStateKey)
  | Some (ServiceData s) => inr s
  | Some _ => inl "convert to interpodaffinity.state error"
  end.

Definition ServiceAddPod (cycleState : CycleState) (podToSchedule podToAdd : Pod) (nodeInfo : NodeInfo)
    : Status * CycleState :=
  match getServiceState cycleState with
  | inl err => (NewStatus Error [err], cycleState)
  | inr s =>
      if decide (pod_Namespace podToAdd <> pod_Namespace podToSchedule) then (None, cycleState)
      else if Matches (createSelectorFromLabels (pod_Labels podToSchedule)) (pod_Labels podToAdd) then
        (None, Write cycleState serviceStateKey
                 (ServiceData {| matchingPodList := matchingPodList s ++ [podToAdd];
                                 matchingPodServices := matchingPodServices s |}))
      else (None, cycleState)
  end.

(** The loop of [RemovePod]: the first pod of the name goes. *)
Fixpoint removeNamed (name ns : string) (pods : list Pod) : list Pod :=
  match pods with
  | [] => []
  | p :: pods => if decide (pod_Name p = name /\ pod_Namespace p = ns) then pods else p :: removeNamed name ns pods
  end.

Definition ServiceRemovePod (cycleState : CycleState) (podToSchedule podToRemove : Pod) (nodeInfo : NodeInfo)
    : Status * CycleState :=
  match getServiceState cycleState with
  | inl err => (NewStatus Error [err], cycleState)
  | inr s =>
      match matchingPodList s with
      | [] => (None, cycleState)
      | first :: _ =>
          if decide (pod_Namespace podToRemove <> pod_Namespace first) then (None, cycleState)
          else (None, Write cycleState serviceStateKey
                        (ServiceData {| matchingPodList := removeNamed (pod_Name podToRemove) (pod_Namespace podToRemove)
                                                             (matchingPodList s);
                                        matchingPodServices := matchingPodServices s |}))
      end
  end.

Definition ServicePlugin (pl : ServiceAffinity) (allNodes : string + list NodeInfo) : PreFilterPlugin :=
  {| prefilter_Name := "ServiceAffinity";
     PreFilter := ServicePreFilter pl allNodes;
     Extensions := match AffinityLabels pl with
                   | [] => None
                   | _ => Some {| ext_AddPod := ServiceAddPod; ext_RemovePod := ServiceRemovePod |}
                   end |}.

(** The labels of step 1 of [Filter]: those of the node selector, completed by those of the
    node of a matching pod; [Panic] for a node that is nil. *)
Definition affinityLabelsFor (pl : ServiceAffinity) (handle : NodeInfoLister) (s : serviceState) (pod : Pod)
    (nodeInfo : NodeInfo) : result string LabelSet :=
  let filteredPods := FilterOutPods nodeInfo (matchingPodList s) in
  let affinityLabels := findLabelsInSet (AffinityLabels pl) (NodeSelector (pod_Spec pod)) in
  if (size affinityLabels <? length (AffinityLabels pl))%nat && (0 <? length (matchingPodServices s))%nat then
    match filteredPods with
    | [] => Ok affinityLabels
    | p :: _ =>
        match handle (NodeName (pod_Spec p)) with
        | inl _ => Err "node not found"
        | inr nodeWithAffinityLabels =>
            match NodeOf nodeWithAffinityLabels with
            | None => Panic
            | Some nd => Ok (addUnsetLabelsToMap affinityLabels (AffinityLabels pl) (node_Labels nd))
            end
        end
    end
  else Ok affinityLabels.

(** [None] is a panic. *)
Definition ServiceFilter (pl : ServiceAffinity) (handle : NodeInfoLister) (cycleState : CycleState) (pod : Pod)
    (nodeInfo : NodeInfo) : option Status :=
  match AffinityLabels pl with
  | [] => Some None
  | _ =>
      match NodeOf nodeInfo with
      | None => Some (NewStatus Error ["node not found"])
      | Some node =>
          match getServiceState cycleState with
          | inl err => Some (NewStatus Error [err])
          | inr s =>
              match affinityLabelsFor pl handle s pod nodeInfo with
              | Panic => None
              | Err err => Some (NewStatus Error [err])
              | Ok affinityLabels =>
                  if Matches (createSelectorFromLabels affinityLabels) (node_Labels node) then Some None
                  else Some (NewStatus Unschedulable ["node(s) didn't match service affinity"])
              end
          end
      end
  end.

(** *** The scores *)
Definition serviceSelector (pl : ServiceAffinity) (pod : Pod) : Selector :=
  match GetPodServices (serviceLister pl) pod with
  | Some (service :: _) => SelectorFromSet (default ∅ service)
  | _ => NewSelector
  end.

Definition serviceScoreOf (pl : ServiceAffinity) (handle : NodeInfoLister) (pod : Pod) (nodeName : string) : Z * Status :=
  match handle nodeName with
  | inl err => (0, gettingNode nodeName err "")
  | inr nodeInfo =>
      match NodeOf nodeInfo with
      | None => (0, NewStatus Error ["node not found"])
      | Some _ => (countMatchingPods (pod_Namespace pod) (serviceSelector pl pod) nodeInfo, None)
      end
  end.

(** The first loop of [updateNodeScoresForLabel]. *)
Fixpoint countLabelValues (handle : NodeInfoLister) (label : string) (mapResult : NodeScoreList) (numServicePods : Z)
    (labelNodesStatus : gmap string string) (podCounts : gmap string Z)
    : result string (Z * gmap string string * gmap string Z) :=
  match mapResult with
  | [] => Ok (numServicePods, labelNodesStatus, podCounts)
  | ns :: mapResult =>
      let numServicePods := numServicePods +₆₄ Score ns in
      match handle (score_Name ns) with
      | inl err => Err err
      | inr nodeInfo =>
          match NodeOf nodeInfo with
          | None => Panic
          | Some node =>
              match node_Labels node !! label with
              | None => countLabelValues handle label mapResult numServicePods labelNodesStatus podCounts
              | Some labelValue =>
                  countLabelValues handle label mapResult numServicePods
                    (<[score_Name ns := labelValue]> labelNodesStatus)
                    (<[labelValue := default 0 (podCounts !! labelValue) +₆₄ Score ns]> podCounts)
              end
          end
      end
  end.

Definition updateNodeScoresForLabel (pl : ServiceAffinity) (handle : NodeInfoLister) (mapResult : NodeScoreList)
    (reduceResult : list float64) (label : string) : result string (list float64) :=
  match countLabelValues handle label mapResult 0 ∅ ∅ with
  | Ok (numServicePods, labelNodesStatus, podCounts) =>
      Ok (zip_with (fun ns r =>
            match labelNodesStatus !! score_Name ns with
            | None => r
            | Some labelValue =>
                let fScore := shareOfMax numServicePods (default 0 (podCounts !! labelValue)) in
                fadd r (fdiv fScore (ofInt (Z.of_nat (length (AntiAffinityLabelsPreference pl)))))
            end) mapResult reduceResult)
  | Err err => Err err
  | Panic => Panic
  end.

Fixpoint updateForLabels (pl : ServiceAffinity) (handle : NodeInfoLister) (mapResult : NodeScoreList)
    (reduceResult : list float64) (labels : list string) : result string (list float64) :=
  match labels with
  | [] => Ok reduceResult
  | label :: labels =>
      match updateNodeScoresForLabel pl handle mapResult reduceResult label with
      | Ok reduceResult => updateForLabels pl handle mapResult reduceResult labels
      | failed => failed
      end
  end.

Definition serviceNormalize (pl : ServiceAffinity) (handle : NodeInfoLister) (scores : NodeScoreList)
    : option (Status * NodeScoreList) :=
  match updateForLabels pl handle scores (replicate (length scores) fzero) (AntiAffinityLabelsPreference pl) with
  | Ok reduceResult => Some (None, zip_with (fun ns r => setScore ns (toInt r)) scores reduceResult)
  | Err err => Some (NewStatus Error [err], scores)
  | Panic => None
  end.

Definition ServiceScore (pl : ServiceAffinity) (handle : NodeInfoLister) : ScoreMethods :=
  {| sm_Name := "ServiceAffinity";
     sm_Score _ pod nodeName := Some (serviceScoreOf pl handle pod nodeName);
     sm_NormalizeScore := Some (fun _ _ scores => serviceNormalize pl handle scores) |}.
End ServiceAffinity.
