(* ===== verification/TopologySpreadScore.v ===== *)
(** * The scores of PodTopologySpread (plugins/podtopologyspread/scoring.go, plugin.go)

    The soft constraints of a pod: the pods that match them are counted per value of a
    topology key, the counts weighted by the number of values, and the sums turned
    round so that the least gets the best score. *)
From S2P Require Import Prelude Api NodeInfo Framework Float64 PluginData PodTopologySpread NodePlugins.
Local Open Scope Z_scope.
Local Open Scope go_scope.

Definition LabelHostname : string := "kubernetes.io/hostname".

Section Score.
Context `{LabelsLib, SelectorLib, MathLib}.

(** ** The state *)
Definition softConstraints (pl : PodTopologySpread) (pod : Pod) : string + list topologySpreadConstraint :=
  match TopologySpreadConstraints (pod_Spec pod) with
  | [] =>
      match defaultConstraints pl pod ScheduleAnyway with
      | inl err => inl (String.append "setting default soft topology spread constraints: " err)
      | inr cs => inr cs
      end
  | podConstraints =>
      match filterTopologySpreadConstraints podConstraints ScheduleAnyway with
      | inl err => inl (String.append "obtaining pod's soft topology spread constraints: " err)
      | inr cs => inr cs
      end
  end.

Definition topologyNormalizingWeight (size : Z) : float64 := math_Log (ofInt (size +₆₄ 2)).

(** What the loop over the nodes fills: the counters with their number per constraint. *)
Record topologies := { tp_ignored : gset string; tp_counts : gmap topologyPair Z; topoSize : list Z }.

Definition addTopology (node : Node) (t : topologies) (ic : nat * topologySpreadConstraint) : topologies :=
  let '(i, constraint) := ic in
  if decide (sc_TopologyKey constraint = LabelHostname) then t
  else
    let pair := pairOf node constraint in
    match tp_counts t !! pair with
    | Some _ => t
    | None => {| tp_ignored := tp_ignored t; tp_counts := <[pair := 0]> (tp_counts t);
                 topoSize := alter (fun n => n +₆₄ 1) i (topoSize t) |}
    end.

Definition addNodeTopologies (constraints : list topologySpreadConstraint) (t : topologies) (node : Node) : topologies :=
  if negb (nodeLabelsMatchSpreadConstraints (node_Labels node) constraints)
  then {| tp_ignored := {[node_Name node]} ∪ tp_ignored t; tp_counts := tp_counts t; topoSize := topoSize t |}
  else foldl (addTopology node) t (imap (fun i c => (i, c)) constraints).

Definition findTopologies (constraints : list topologySpreadConstraint) (filteredNodes : list Node) : topologies :=
  foldl (addNodeTopologies constraints)
    {| tp_ignored := ∅; tp_counts := ∅; topoSize := replicate (length constraints) 0 |} filteredNodes.

Definition initPreScoreState (pl : PodTopologySpread) (pod : Pod) (filteredNodes : list Node) : string + spreadScoreState :=
  match softConstraints pl pod with
  | inl err => inl err
  | inr [] =>
      inr {| ScoredConstraints := []; IgnoredNodes := ∅; TopologyPairToPodCounts := ∅; TopologyNormalizingWeight := [] |}
  | inr constraints =>
      let t := findTopologies constraints filteredNodes in
      let hosts := Z.of_nat (length filteredNodes) - Z.of_nat (size (tp_ignored t)) in
      inr {| ScoredConstraints := constraints; IgnoredNodes := tp_ignored t; TopologyPairToPodCounts := tp_counts t;
             TopologyNormalizingWeight :=
               zip_with (fun c sz =>
                 topologyNormalizingWeight (if decide (sc_TopologyKey c = LabelHostname) then hosts else sz))
                 constraints (topoSize t) |}
  end.

(** ** The prescore: every node is a piece of parallel work that adds atomically *)
Definition scoreAdds (pod : Pod) (s : spreadScoreState) (nodeInfo : NodeInfo) : list (topologyPair * Z) :=
  match NodeOf nodeInfo with
  | None => []
  | Some node =>
      if negb (PodMatchesNodeSelectorAndAffinityTerms pod node) ||
         negb (nodeLabelsMatchSpreadConstraints (node_Labels node) (ScoredConstraints s)) then []
      else
        ScoredConstraints s ≫= fun c =>
          match TopologyPairToPodCounts s !! pairOf node c with
          | None => []
          | Some _ => [(pairOf node c, countPodsMatchSelector (Pods nodeInfo) (sc_Selector c) (pod_Namespace pod))]
          end
  end.

Definition atomicAdd64 (counts : gmap topologyPair Z) (add : topologyPair * Z) : gmap topologyPair Z :=
  alter (fun count => count +₆₄ add.2) add.1 counts.

(** The order of the atomic additions. *)
Context (addOrder : list (topologyPair * Z) -> list (topologyPair * Z)).

Definition countScores (pod : Pod) (allNodes : list NodeInfo) (s : spreadScoreState) : spreadScoreState :=
  {| ScoredConstraints := ScoredConstraints s; IgnoredNodes := IgnoredNodes s;
     TopologyPairToPodCounts := foldl atomicAdd64 (TopologyPairToPodCounts s) (addOrder (allNodes ≫= scoreAdds pod s));
     TopologyNormalizingWeight := TopologyNormalizingWeight s |}.

Definition spreadScoreKey : string := "PreScorePodTopologySpread".

Definition SpreadPreScore (pl : PodTopologySpread) (allNodes : string + list NodeInfo) : PreScorePlugin :=
  {| prescore_Name := "PodTopologySpread";
     PreScore cycleState pod filteredNodes :=
       match allNodes with
       | inl err => (NewStatus Error [String.append "error when getting all nodes: " err], cycleState)
       | inr allNodes =>
           if bool_decide (length filteredNodes = 0%nat) || bool_decide (length allNodes = 0%nat) then (None, cycleState)
           else
             match initPreScoreState pl pod filteredNodes with
             | inl err => (NewStatus Error [String.append "error when calculating preScoreState: " err], cycleState)
             | inr state =>
                 match ScoredConstraints state with
                 | [] => (None, Write cycleState spreadScoreKey (SpreadScoreData state))
                 | _ => (None, Write cycleState spreadScoreKey (SpreadScoreData (countScores pod allNodes state)))
                 end
             end
       end |}.

(** ** The score of a node *)
Definition getSpreadScoreState (cycleState : CycleState) : string + spreadScoreState :=
  match Read cycleState spreadScoreKey with
  | None => inl (notRead spreadScoreKey)
  | Some (SpreadScoreData s) => inr s
  | Some _ => inl "convert to podtopologyspread.preScoreState error"
  end.

Definition scoreForCount (cnt maxSkew : Z) (tpWeight : float64) : float64 :=
  fadd (fmul (ofInt cnt) tpWeight) (ofInt (wrap32 (maxSkew - 1))).

(** The loop over the constraints; [None] is the dereference of a nil counter, or an index
    out of range. *)
Fixpoint sumConstraints (s : spreadScoreState) (pod : Pod) (nodeInfo : NodeInfo) (node : Node)
    (constraints : list topologySpreadConstraint) (weights : list float64) (score : float64) : option float64 :=
  match constraints with
  | [] => Some score
  | c :: constraints =>
      match node_Labels node !! sc_TopologyKey c with
      | None => sumConstraints s pod nodeInfo node constraints (tail weights) score
      | Some tpVal =>
          cnt ← (if decide (sc_TopologyKey c = LabelHostname)
                 then Some (countPodsMatchSelector (Pods nodeInfo) (sc_Selector c) (pod_Namespace pod))
                 else TopologyPairToPodCounts s !! (sc_TopologyKey c, tpVal));
          w ← head weights;
          sumConstraints s pod nodeInfo node constraints (tail weights) (fadd score (scoreForCount cnt (sc_MaxSkew c) w))
      end
  end.

Definition spreadScoreOf (handle : NodeInfoLister) (cycleState : CycleState) (pod : Pod) (nodeName : string)
    : option (Z * Status) :=
  match handle nodeName with
  | inl err => Some (0, gettingNode nodeName err ", node is nil: true")
  | inr nodeInfo =>
      match NodeOf nodeInfo with
      | None => Some (0, gettingNode nodeName "<nil>" ", node is nil: true")
      | Some node =>
          match getSpreadScoreState cycleState with
          | inl err => Some (0, NewStatus Error [err])
          | inr s =>
              if decide (node_Name node ∈ IgnoredNodes s) then Some (0, None)
              else
                score ← sumConstraints s pod nodeInfo node (ScoredConstraints s) (TopologyNormalizingWeight s) fzero;
                Some (toInt score, None)
          end
      end
  end.

(** ** Normalization *)
Definition minScoreOf (ignored : gset string) (scores : NodeScoreList) : Z :=
  foldl (fun minScore ns => if decide (score_Name ns ∈ ignored) then minScore
                            else if Score ns <? minScore then Score ns else minScore) max_int64 scores.
Definition maxScoreWithout (ignored : gset string) (scores : NodeScoreList) : Z :=
  foldl (fun maxScore ns => if decide (score_Name ns ∈ ignored) then maxScore
                            else if maxScore <? Score ns then Score ns else maxScore) 0 scores.

(** [MaxNodeScore * (maxScore + minScore - s) / maxScore] *)
Definition turnedRound (minScore maxScore s : Z) : Z :=
  wrap64 (Z.quot (MaxNodeScore *₆₄ ((maxScore +₆₄ minScore) -₆₄ s)) maxScore).

(** The second loop, which writes the scores one by one; a nil node is a panic. *)
Fixpoint turnScores (handle : NodeInfoLister) (ignored : gset string) (minScore maxScore : Z) (scores : NodeScoreList)
    : option (Status * NodeScoreList) :=
  match scores with
  | [] => Some (None, [])
  | ns :: rest =>
      match handle (score_Name ns) with
      | inl err => Some (NewStatus Error [err], scores)
      | inr nodeInfo =>
          node ← NodeOf nodeInfo;
          let s := if decide (node_Name node ∈ ignored) then 0
                   else if maxScore =? 0 then MaxNodeScore
                   else turnedRound minScore maxScore (Score ns) in
          '(status, rest) ← turnScores handle ignored minScore maxScore rest;
          Some (status, setScore ns s :: rest)
      end
  end.

Definition spreadNormalize (handle : NodeInfoLister) (cycleState : CycleState) (scores : NodeScoreList)
    : option (Status * NodeScoreList) :=
  match getSpreadScoreState cycleState with
  | inl err => Some (NewStatus Error [err], scores)
  | inr s =>
      turnScores handle (IgnoredNodes s) (minScoreOf (IgnoredNodes s) scores) (maxScoreWithout (IgnoredNodes s) scores) scores
  end.

Definition SpreadScore (handle : NodeInfoLister) : ScoreMethods :=
  {| sm_Name := "PodTopologySpread";
     sm_Score := spreadScoreOf handle;
     sm_NormalizeScore := Some (fun cycleState _ scores => spreadNormalize handle cycleState scores) |}.
End Score.

(** ** The validation of the arguments (apis/config/validation) *)

(** The errors of one constraint of the defaults, those of [DefaultConstraints] before it being [earlier]. *)
Definition constraintErrors (earlier : list TopologySpreadConstraint) (c : TopologySpreadConstraint) : list string :=
  (if tsc_MaxSkew c <=? 0 then ["maxSkew: must be greater than zero"] else []) ++
  (if decide (tsc_TopologyKey c = "") then ["topologyKey: can not be empty"] else []) ++
  (if decide (tsc_WhenUnsatisfiable c = "") then ["whenUnsatisfiable: can not be empty"]
   else if decide (tsc_WhenUnsatisfiable c ∈ [DoNotSchedule; ScheduleAnyway]) then []
   else ["whenUnsatisfiable: not supported"]) ++
  (if decide (tsc_LabelSelector c = None) then []
   else ["labelSelector: constraint must not define a selector, as they deduced for each pod"]) ++
  (if existsb (fun other => bool_decide (tsc_TopologyKey c = tsc_TopologyKey other) &&
                            bool_decide (tsc_WhenUnsatisfiable c = tsc_WhenUnsatisfiable other)) earlier
   then ["duplicate"] else []).

Fixpoint constraintsErrors (earlier constraints : list TopologySpreadConstraint) : list string :=
  match constraints with
  | [] => []
  | c :: constraints => constraintErrors earlier c ++ constraintsErrors (earlier ++ [c]) constraints
  end.
Definition ValidatePodTopologySpreadArgs (defaults : list TopologySpreadConstraint) : list string :=
  constraintsErrors [] defaults.

(** [New], with the listers of the informers; the snapshot lister and the informers are there. *)
Definition NewPodTopologySpread (defaults : list TopologySpreadConstraint) (informers : spreadListers)
    : list string + PodTopologySpread :=
  match ValidatePodTopologySpreadArgs defaults with
  | [] => inr {| DefaultConstraints := defaults; listers := informers |}
  | errs => inl errs
  end.
