(* ===== verification/InterPodAffinityScore.v ===== *)
(** * The scores of InterPodAffinity (plugins/interpodaffinity/scoring.go, plugin.go)

    The preferred terms of the pod and of the pods of the cluster add or subtract their
    weights per topology key and value; a node scores the sum over its labels. *)
From S2P Require Import Prelude Api NodeInfo Framework Float64 PluginData InterPodAffinity NodePlugins.
Local Open Scope Z_scope.
Local Open Scope go_scope.

(** ** The score maps *)
Definition addScore (m : scoreMap) (topologyKey tpValue : string) (v : Z) : scoreMap :=
  let scores := default ∅ (m !! topologyKey) in
  <[topologyKey := <[tpValue := default 0 (scores !! tpValue) +₆₄ v]> scores]> m.

Definition processTerm (m : scoreMap) (term : WeightedAffinityTerm) (podToCheck : Pod) (fixedNode : Node) (multiplier : Z)
    : scoreMap :=
  if decide (node_Labels fixedNode = ∅) then m
  else
    let match_ := PodMatchesTermsNamespaceAndSelector podToCheck (Namespaces (WTerm term)) (TermSelector (WTerm term)) in
    match node_Labels fixedNode !! TopologyKey (WTerm term) with
    | Some tpValue =>
        if match_ then addScore m (TopologyKey (WTerm term)) tpValue (wrap32 (Weight term * multiplier)) else m
    | None => m
    end.

Definition processTerms (m : scoreMap) (terms : list WeightedAffinityTerm) (podToCheck : Pod) (fixedNode : Node)
    (multiplier : Z) : scoreMap :=
  foldl (fun m term => processTerm m term podToCheck fixedNode multiplier) m terms.

Definition appendScores (m other : scoreMap) : scoreMap :=
  union_with (fun scores oScores => Some (union_with (fun a b => Some (a +₆₄ b)) scores oScores)) m other.

Section Score.
Context `{LabelsLib, MathLib}.

(** The plugin, by its argument. *)
Context (HardPodAffinityWeight : Z).

Definition processExistingPod (podInfo : PodInfo) (existingPod : PodInfo) (existingPodNode : Node) (incomingPod : Pod)
    (topoScore : scoreMap) : scoreMap :=
  let topoScore := processTerms topoScore (PreferredAffinityTerms podInfo) (pi_Pod existingPod) existingPodNode 1 in
  let topoScore := processTerms topoScore (PreferredAntiAffinityTerms podInfo) (pi_Pod existingPod) existingPodNode (-1) in
  let topoScore :=
    if 0 <? HardPodAffinityWeight then
      foldl (fun m term => processTerm m {| WTerm := term; Weight := HardPodAffinityWeight |} incomingPod existingPodNode 1)
        topoScore (RequiredAffinityTerms existingPod)
    else topoScore in
  let topoScore := processTerms topoScore (PreferredAffinityTerms existingPod) incomingPod existingPodNode 1 in
  processTerms topoScore (PreferredAntiAffinityTerms existingPod) incomingPod existingPodNode (-1).

(** ** The prescore: every node is a piece of parallel work, whose maps are appended in the
    order in which the pieces finish *)
Context (finishOrder : list scoreMap -> list scoreMap).

Definition hasConstraints (pod : Pod) : bool :=
  match PodAffinitySpec (pod_Spec pod) with
  | Some affinity => bool_decide (is_Some (af_PodAffinity affinity)) || bool_decide (is_Some (af_PodAntiAffinity affinity))
  | None => false
  end.

Definition scoresOfNode (podInfo : PodInfo) (nodeInfo : NodeInfo) : scoreMap :=
  match NodeOf nodeInfo with
  | None => ∅
  | Some node =>
      let podsToProcess := if hasConstraints (pi_Pod podInfo) then Pods nodeInfo else PodsWithAffinity nodeInfo in
      foldl (fun topoScore existingPod => processExistingPod podInfo existingPod node (pi_Pod podInfo) topoScore)
        ∅ podsToProcess
  end.

(** The nodes that are looked at; an error of the lister is not returned. *)
Definition nodesToScore (pod : Pod) (allNodes havePodsWithAffinityNodes : string + list NodeInfo) : list NodeInfo :=
  match (if hasConstraints pod then allNodes else havePodsWithAffinityNodes) with
  | inl _ => []
  | inr nodes => nodes
  end.

Definition affinityScores (podInfo : PodInfo) (nodes : list NodeInfo) : scoreMap :=
  foldl appendScores ∅ (finishOrder (filter (fun m => m <> ∅) (scoresOfNode podInfo <$> nodes))).

Definition affinityScoreKey : string := "PreScoreInterPodAffinity".

(** The text of the error that [ParseError] holds. *)
Context (parseErrorText : Pod -> ParseErrorKind -> string).

Definition AffinityPreScore (allNodes havePodsWithAffinityNodes : string + list NodeInfo) : PreScorePlugin :=
  {| prescore_Name := "InterPodAffinity";
     PreScore cycleState pod nodes :=
       match nodes with
       | [] => (None, cycleState)
       | _ =>
           let podInfo := NewPodInfo pod in
           match ParseError podInfo with
           | Some err => (NewStatus Error [String.append "parsing pod: " (parseErrorText pod err)], cycleState)
           | None =>
               (None, Write cycleState affinityScoreKey
                        (AffinityScoreData {| topologyScore := affinityScores podInfo
                                                (nodesToScore pod allNodes havePodsWithAffinityNodes);
                                              ps_podInfo := podInfo |}))
           end
       end |}.

(** ** The score of a node *)
Definition getAffinityScoreState (cycleState : CycleState) : string + affinityScoreState :=
  match Read cycleState affinityScoreKey with
  | None => inl (String.concat "" ["Error reading "; quoted affinityScoreKey; " from cycleState: not found"])
  | Some (AffinityScoreData s) => inr s
  | Some _ => inl "convert to interpodaffinity.preScoreState error"
  end.

Definition scoreOfLabels (topologyScores : scoreMap) (nodeLabels : LabelSet) : Z :=
  map_fold (fun tpKey tpValues score =>
    match nodeLabels !! tpKey with
    | Some v => score +₆₄ default 0 (tpValues !! v)
    | None => score
    end) 0 topologyScores.

Definition affinityScoreOf (handle : NodeInfoLister) (cycleState : CycleState) (pod : Pod) (nodeName : string) : Z * Status :=
  match handle nodeName with
  | inl err => (0, gettingNode nodeName err ", node is nil: true")
  | inr nodeInfo =>
      match NodeOf nodeInfo with
      | None => (0, gettingNode nodeName "<nil>" ", node is nil: true")
      | Some node =>
          match getAffinityScoreState cycleState with
          | inl err => (0, NewStatus Error [err])
          | inr s => (scoreOfLabels (topologyScore s) (node_Labels node), None)
          end
      end
  end.

(** ** Normalization *)
Definition minCountOf (scores : NodeScoreList) : Z :=
  foldl (fun minCount ns => if Score ns <? minCount then Score ns else minCount) 0 scores.

Definition spreadBetween (minCount maxCount s : Z) : Z :=
  let maxMinDiff := maxCount -₆₄ minCount in
  toInt (if 0 <? maxMinDiff
         then fmul (ofInt MaxNodeScore) (fdiv (ofInt (s -₆₄ minCount)) (ofInt maxMinDiff))
         else fzero).

Definition affinityNormalize (cycleState : CycleState) (scores : NodeScoreList) : Status * NodeScoreList :=
  match getAffinityScoreState cycleState with
  | inl err => (NewStatus Error [err], scores)
  | inr s =>
      if decide (topologyScore s = ∅) then (None, scores)
      else (None, (fun ns => setScore ns (spreadBetween (minCountOf scores) (maxScoreOf scores) (Score ns))) <$> scores)
  end.

Definition AffinityScore (handle : NodeInfoLister) : ScoreMethods :=
  {| sm_Name := "InterPodAffinity";
     sm_Score cycleState pod nodeName := Some (affinityScoreOf handle cycleState pod nodeName);
     sm_NormalizeScore := Some (fun cycleState _ scores => Some (affinityNormalize cycleState scores)) |}.
End Score.

(** ** The validation of the argument (apis/config/validation) *)
Definition ValidateHardPodAffinityWeight (w : Z) : option string :=
  if (w <? 0) || (100 <? w) then Some "hardPodAffinityWeight: not in valid range [0-100]" else None.
