(* ===== verification/InterPodAffinityScoreSpec.v ===== *)
(** * What the scores of InterPodAffinity count

    The score of a node is the sum of the weights of the preferred terms, of the pod and of
    the pods of the cluster, that placing the pod there satisfies; for every order in which the
    parallel pieces finish. *)
From S2P Require Import Prelude Api NodeInfo Framework Float64 PluginData PodChanges InterPodAffinity InterPodAffinitySpec NodePlugins InterPodAffinityScore.
Local Open Scope Z_scope.

(** ** The score of a set of labels *)
Section Labels.
Context (labels : LabelSet).
Implicit Types (m : scoreMap) (scores : gmap string Z) (c : topologyPair * Z).

(** What an entry of a score map is worth to a node with the labels. *)
Definition worth (e : string * gmap string Z) : Z :=
  match labels !! e.1 with Some v => default 0 (e.2 !! v) | None => 0 end.
Definition worthOf m : Z := sumOver worth (map_to_list m).

Lemma scoreOfLabels_worth m : scoreOfLabels m labels = wrap64 (worthOf m).
Proof.
  unfold scoreOfLabels, worthOf. rewrite map_fold_foldr. induction (map_to_list m) as [|[k scores] l IH]; [done|].
  cbn [foldr uncurry]. rewrite IH, sumOver_cons. generalize (sumOver worth l). intros w. unfold worth. cbn [fst snd]. destruct (labels !! k) as [v|]; cbn beta iota.
  - rewrite wrap64_add_l. f_equal. apply Z.add_comm.
  - done.
Qed.

Lemma worthOf_insert m k scores : eq64 (worthOf (<[k := scores]> m)) (worthOf (delete k m) + worth (k, scores)).
Proof.
  unfold worthOf. rewrite <- insert_delete_eq, map_to_list_insert by apply lookup_delete_eq.
  rewrite sumOver_cons, Z.add_comm. done.
Qed.

Lemma worthOf_delete m k : worthOf m = worthOf (delete k m) + worth (k, default ∅ (m !! k)).
Proof.
  unfold worthOf. destruct (m !! k) as [scores|] eqn:E.
  - rewrite <- (map_to_list_delete m k scores E), sumOver_cons. cbn. lia.
  - rewrite delete_id by done. unfold worth. cbn. destruct (labels !! k); [rewrite lookup_empty|]; cbn; lia.
Qed.

(** What a pair and its weight are worth. *)
Definition gain c : Z := if decide (labels !! c.1.1 = Some c.1.2) then c.2 else 0.

Lemma addScore_worth m k v w : eq64 (worthOf (addScore m k v w)) (worthOf m + gain (k, v, w)).
Proof.
  unfold addScore. rewrite worthOf_insert, (worthOf_delete m k). set (scores := default ∅ (m !! k)).
  unfold worth, gain. cbn [fst snd]. rewrite <- Z.add_assoc. apply eq64_add; [done|].
  destruct (labels !! k) as [v'|]; [|by rewrite decide_False]. destruct (decide (Some v' = Some v)) as [[= ->]|Hne].
  - rewrite lookup_insert_eq. cbn. apply wrap64_eq64.
  - rewrite lookup_insert_ne by congruence. by rewrite Z.add_0_r.
Qed.

Lemma addScores_worth (cs : list (topologyPair * Z)) : forall m,
  eq64 (worthOf (foldl (fun m c => addScore m c.1.1 c.1.2 c.2) m cs)) (worthOf m + sumOver gain cs).
Proof.
  induction cs as [|[[k v] w] cs IH]; intros m; cbn [foldl fst snd].
  - by rewrite Z.add_0_r.
  - rewrite IH, addScore_worth, sumOver_cons. by rewrite Z.add_assoc.
Qed.

Lemma merged_worth k scores oScores :
  eq64 (worth (k, union_with (fun a b => Some (wrap64 (a + b))) scores oScores)) (worth (k, scores) + worth (k, oScores)).
Proof.
  unfold worth. cbn [fst snd]. destruct (labels !! k) as [v|]; [|done]. rewrite lookup_union_with.
  destruct (scores !! v) as [a|], (oScores !! v) as [b|]; cbn; [apply wrap64_eq64|by rewrite Z.add_0_r|done|done].
Qed.

Lemma appendScores_worth m other : eq64 (worthOf (appendScores m other)) (worthOf m + worthOf other).
Proof.
  revert m. induction other as [|k oScores other Hk IH] using map_ind; intros m.
  - unfold appendScores. rewrite (right_id_L ∅ (union_with _)). change (worthOf ∅) with 0. by rewrite Z.add_0_r.
  - assert (Eins : appendScores m (<[k := oScores]> other) =
      <[k := match m !! k with Some scores => union_with (fun a b => Some (wrap64 (a + b))) scores oScores | None => oScores end]>
        (appendScores m other)).
    { apply map_eq. intros j. unfold appendScores. rewrite lookup_union_with. destruct (decide (j = k)) as [->|Hne].
      - rewrite !lookup_insert_eq. by destruct (m !! k).
      - rewrite !lookup_insert_ne by done. by rewrite lookup_union_with. }
    assert (Edel : worthOf (delete k (appendScores m other)) + worth (k, default ∅ (m !! k)) = worthOf (appendScores m other)).
    { rewrite (worthOf_delete (appendScores m other) k). unfold appendScores at 3. rewrite lookup_union_with, Hk.
      by destruct (m !! k). }
    rewrite Eins, worthOf_insert.
    assert (Ew : eq64 (worth (k, match m !! k with Some scores => union_with (fun a b => Some (wrap64 (a + b))) scores oScores | None => oScores end))
      (worth (k, default ∅ (m !! k)) + worth (k, oScores))).
    { destruct (m !! k) as [scores|]; [apply merged_worth|]. unfold worth. cbn. destruct (labels !! k); [rewrite lookup_empty|]; done. }
    rewrite Ew, Z.add_assoc, Edel, IH, (worthOf_delete (<[k := oScores]> other) k), delete_insert_id, lookup_insert_eq by done.
    by rewrite Z.add_assoc.
Qed.

Lemma appendAll_worth (ms : list scoreMap) : forall m,
  eq64 (worthOf (foldl appendScores m ms)) (worthOf m + sumOver worthOf ms).
Proof.
  induction ms as [|m1 ms IH]; intros m; cbn [foldl]; [by rewrite Z.add_0_r|].
  rewrite IH, appendScores_worth, sumOver_cons. by rewrite Z.add_assoc.
Qed.
End Labels.

(** ** What a pod of the cluster adds to the score of a node *)
Definition sameDomain (a b : Node) (key : string) : bool :=
  match node_Labels a !! key, node_Labels b !! key with
  | Some v, Some w => bool_decide (v = w)
  | _, _ => false
  end.

(** A term about [p], which is on [nd] or is to be placed on [node]. *)
Definition share (node nd : Node) (p : Pod) (t : AffinityTerm) (w : Z) : Z :=
  if matchesTerm p t && sameDomain nd node (TopologyKey t) then w else 0.
Definition shares (node nd : Node) (p : Pod) (terms : list WeightedAffinityTerm) : Z :=
  sumOver (fun t => share node nd p (WTerm t) (Weight t)) terms.

(** The weights that the API admits, from 1 to 100, and every other one whose negation is an
    [int32] too. *)
Definition weightsFit (x : PodInfo) : Prop :=
  Forall (fun t => - 2 ^ 31 < Weight t < 2 ^ 31) (PreferredAffinityTerms x ++ PreferredAntiAffinityTerms x).

Section PairScore.
Context `{LabelsLib} (hard : Z) (podInfo : PodInfo).
Implicit Types (node nd : Node) (x : PodInfo) (n : NodeInfo) (nodes : list NodeInfo).

Definition pairScore node nd x : Z :=
  shares node nd (pi_Pod x) (PreferredAffinityTerms podInfo) -
  shares node nd (pi_Pod x) (PreferredAntiAffinityTerms podInfo) +
  (if 0 <? hard then sumOver (fun t => share node nd (pi_Pod podInfo) t hard) (RequiredAffinityTerms x) else 0) +
  shares node nd (pi_Pod podInfo) (PreferredAffinityTerms x) -
  shares node nd (pi_Pod podInfo) (PreferredAntiAffinityTerms x).

Definition clusterScore nodes node : Z :=
  sumOver (fun n => match NodeOf n with
                    | Some nd => sumOver (pairScore node nd) (Pods n)
                    | None => 0
                    end) nodes.

(** *** One pod *)
Definition entry nd (p : Pod) (multiplier : Z) (t : WeightedAffinityTerm) : list (topologyPair * Z) :=
  match node_Labels nd !! TopologyKey (WTerm t) with
  | Some v => if matchesTerm p (WTerm t) then [((TopologyKey (WTerm t), v), wrap32 (Weight t * multiplier))] else []
  | None => []
  end.

Definition addAll (m : scoreMap) (cs : list (topologyPair * Z)) : scoreMap :=
  foldl (fun m c => addScore m c.1.1 c.1.2 c.2) m cs.

Lemma addAll_app m cs ds : addAll m (cs ++ ds) = addAll (addAll m cs) ds.
Proof. apply foldl_app. Qed.

Lemma addAll_bind {A} (g : A -> list (topologyPair * Z)) (l : list A) : forall m,
  foldl (fun m a => addAll m (g a)) m l = addAll m (l ≫= g).
Proof.
  induction l as [|a l IH]; intros m; [done|]. change ((a :: l) ≫= g) with (g a ++ (l ≫= g)).
  cbn [foldl]. by rewrite IH, addAll_app.
Qed.

Lemma processTerm_entry m t p nd multiplier : processTerm m t p nd multiplier = addAll m (entry nd p multiplier t).
Proof.
  unfold processTerm, entry, matchesTerm. destruct (decide (node_Labels nd = ∅)) as [->|_]; [by rewrite lookup_empty|].
  destruct (node_Labels nd !! _); [|done]. by destruct (PodMatchesTermsNamespaceAndSelector _ _ _).
Qed.

Lemma processTerms_entries m ts p nd multiplier : processTerms m ts p nd multiplier = addAll m (ts ≫= entry nd p multiplier).
Proof. unfold processTerms. rewrite <- addAll_bind. apply foldl_ext'. intros. apply processTerm_entry. Qed.

Definition hardTerms x : list WeightedAffinityTerm :=
  if 0 <? hard then (fun t => {| WTerm := t; Weight := hard |}) <$> RequiredAffinityTerms x else [].

Definition entries nd x : list (topologyPair * Z) :=
  (PreferredAffinityTerms podInfo ≫= entry nd (pi_Pod x) 1) ++ (PreferredAntiAffinityTerms podInfo ≫= entry nd (pi_Pod x) (-1)) ++
  (hardTerms x ≫= entry nd (pi_Pod podInfo) 1) ++
  (PreferredAffinityTerms x ≫= entry nd (pi_Pod podInfo) 1) ++ (PreferredAntiAffinityTerms x ≫= entry nd (pi_Pod podInfo) (-1)).

Lemma hardTerms_entries p nd ts : forall m,
  foldl (fun m term => processTerm m {| WTerm := term; Weight := hard |} p nd 1) m ts =
  addAll m (((fun t => {| WTerm := t; Weight := hard |}) <$> ts) ≫= entry nd p 1).
Proof.
  induction ts as [|t ts IH]; intros m; [done|]. cbn [foldl]. rewrite IH, processTerm_entry, <- addAll_app. done.
Qed.

Lemma processExistingPod_entries x nd m :
  processExistingPod hard podInfo x nd (pi_Pod podInfo) m = addAll m (entries nd x).
Proof.
  unfold processExistingPod, entries, hardTerms. rewrite !processTerms_entries, !addAll_app. do 2 f_equal.
  destruct (0 <? hard); [apply hardTerms_entries|done].
Qed.

Lemma gain_entry node nd p sign t : (sign = 1 \/ sign = -1) -> - 2 ^ 31 < Weight t < 2 ^ 31 ->
  sumOver (gain (node_Labels node)) (entry nd p sign t) = sign * share node nd p (WTerm t) (Weight t).
Proof.
  intros Hs Hw. unfold entry, share, sameDomain. destruct (node_Labels nd !! _) as [v|] eqn:Hv.
  - destruct (matchesTerm p (WTerm t)); [|cbn; lia]. rewrite sumOver_single. unfold gain. cbn [fst snd andb].
    rewrite wrap32_id by (destruct Hs as [-> | ->]; lia). destruct (node_Labels node !! _) as [w|]; [|rewrite decide_False by done; lia].
    case_bool_decide as E; [subst w; rewrite decide_True by done; lia|rewrite decide_False by congruence; lia].
  - rewrite andb_false_r. cbn. lia.
Qed.

Lemma gain_entries node nd p sign ts : (sign = 1 \/ sign = -1) -> Forall (fun t => - 2 ^ 31 < Weight t < 2 ^ 31) ts ->
  sumOver (gain (node_Labels node)) (ts ≫= entry nd p sign) = sign * shares node nd p ts.
Proof.
  intros Hs Hts. rewrite sumOver_bind. unfold shares. rewrite Z.mul_comm, <- sumOver_scale. apply sumOver_ext. intros t Ht.
  rewrite Z.mul_comm. apply gain_entry; [done|]. by eapply list.Forall_forall in Hts.
Qed.
End PairScore.

(** ** The pods of the cluster *)
Section Cluster.
Context `{LabelsLib} (hard : Z) (pod : Pod).
Implicit Types (node nd : Node) (x : PodInfo) (n : NodeInfo) (nodes : list NodeInfo).

Abbreviation incomingPod := (NewPodInfo pod).

Lemma entries_gain node nd x : weightsFit incomingPod -> weightsFit x -> 0 <= hard <= 100 ->
  sumOver (gain (node_Labels node)) (entries hard incomingPod nd x) = pairScore hard incomingPod node nd x.
Proof.
  intros Hi Hx Hh. apply Forall_app in Hi as [Hi1 Hi2]. apply Forall_app in Hx as [Hx1 Hx2].
  unfold entries, pairScore. rewrite !sumOver_app, !gain_entries; try done; try (by left); try (by right).
  - unfold hardTerms. destruct (0 <? hard); [|cbn; lia]. unfold shares at 3. rewrite sumOver_fmap. unfold compose. cbn [WTerm Weight]. lia.
  - unfold hardTerms. destruct (0 <? hard); [|done]. apply Forall_fmap, list.Forall_forall. intros t _. cbn. lia.
Qed.

Lemma hasConstraints_affinity p : hasConstraints p = hasPodAffinity p.
Proof.
  unfold hasConstraints, hasPodAffinity. destruct (PodAffinitySpec (pod_Spec p)) as [a|]; [|done].
  by destruct (af_PodAffinity a), (af_PodAntiAffinity a).
Qed.

Lemma noAffinity_noPreferences p : hasPodAffinity p = false ->
  PreferredAffinityTerms (NewPodInfo p) = [] /\ PreferredAntiAffinityTerms (NewPodInfo p) = [] /\
  RequiredAffinityTerms (NewPodInfo p) = [].
Proof.
  unfold hasPodAffinity. cbn. unfold GetPodAffinityTerms. destruct (PodAffinitySpec (pod_Spec p)) as [a|]; [|done].
  destruct (af_PodAffinity a) eqn:E1, (af_PodAntiAffinity a) eqn:E2; try done. intros _. cbn. by rewrite E1, E2.
Qed.

Lemma pairScore_none node nd x : hasPodAffinity pod = false -> hasPodAffinity (pi_Pod x) = false -> x = NewPodInfo (pi_Pod x) ->
  pairScore hard incomingPod node nd x = 0.
Proof.
  intros (Hi1&Hi2&_)%noAffinity_noPreferences (Hx1&Hx2&Hx3)%noAffinity_noPreferences Hx. rewrite <- Hx in Hx1, Hx2, Hx3.
  unfold pairScore. rewrite Hi1, Hi2, Hx1, Hx2, Hx3. cbn. by destruct (0 <? hard).
Qed.

Definition nodeScore node n : Z :=
  match NodeOf n with Some nd => sumOver (pairScore hard incomingPod node nd) (Pods n) | None => 0 end.

Record scorable n : Prop := {
  sc_accounted : accounted n;
  sc_fromPod : fromPod n;
  sc_weights x : x ∈ Pods n -> weightsFit x
}.

Lemma sumOver_eq64 {A} (f g : A -> Z) (l : list A) : (forall a, a ∈ l -> eq64 (f a) (g a)) -> eq64 (sumOver f l) (sumOver g l).
Proof.
  induction l as [|a l IH]; intros Hfg; [done|]. rewrite !sumOver_cons. apply eq64_add; [apply Hfg; left|].
  apply IH. intros b Hb. apply Hfg. by right.
Qed.

Lemma scoresOfNode_worth node n : scorable n -> weightsFit incomingPod -> 0 <= hard <= 100 ->
  eq64 (worthOf (node_Labels node) (scoresOfNode hard incomingPod n)) (nodeScore node n).
Proof.
  intros Hn Hi Hh. unfold scoresOfNode, nodeScore. destruct (NodeOf n) as [nd|]; [|done].
  set (pods := if _ : bool then _ else _).
  rewrite (foldl_ext' _ (fun m x => addAll m (entries hard incomingPod nd x))) by (intros; apply processExistingPod_entries).
  rewrite addAll_bind. unfold addAll. rewrite addScores_worth, sumOver_bind. change (worthOf _ ∅) with 0. rewrite Z.add_0_l.
  assert (Hsub : forall x, x ∈ pods -> x ∈ Pods n).
  { intros x. unfold pods. destruct (hasConstraints _); [done|]. rewrite (acc_affinity _ (sc_accounted _ Hn)).
    by intros [_ ?]%list_elem_of_filter. }
  rewrite (sumOver_ext _ (pairScore hard incomingPod node nd)).
  2: { intros x Hx. apply entries_gain; [done| |done]. by apply (sc_weights _ Hn), Hsub. }
  unfold pods. rewrite hasConstraints_affinity. change (pi_Pod incomingPod) with pod. destruct (hasPodAffinity pod) eqn:Hp; [done|].
  rewrite (acc_affinity _ (sc_accounted _ Hn)), sumOver_filter; [done|]. intros x Hx Hf. apply not_true_is_false in Hf.
  apply pairScore_none; [done..|]. by apply (sc_fromPod _ Hn).
Qed.

Context (finishOrder : list scoreMap -> list scoreMap) (finishOrder_perm : forall l, finishOrder l ≡ₚ l).

Lemma affinityScores_worth node nodes : (forall n, n ∈ nodes -> scorable n) -> weightsFit incomingPod -> 0 <= hard <= 100 ->
  eq64 (worthOf (node_Labels node)
         (affinityScores hard finishOrder incomingPod (nodesToScore pod (inr nodes) (inr (nodesWithAffinity nodes)))))
       (clusterScore hard incomingPod nodes node).
Proof.
  intros Hn Hi Hh. unfold affinityScores. rewrite appendAll_worth. change (worthOf _ ∅) with 0. rewrite Z.add_0_l, finishOrder_perm.
  rewrite sumOver_filter by (intros m _ ->%dec_stable; done). rewrite sumOver_fmap.
  assert (Hall : sumOver (worthOf (node_Labels node) ∘ scoresOfNode hard incomingPod) (nodesToScore pod (inr nodes) (inr (nodesWithAffinity nodes)))
    = sumOver (worthOf (node_Labels node) ∘ scoresOfNode hard incomingPod) nodes).
  { unfold nodesToScore. destruct (hasConstraints pod) eqn:Hc; [done|]. unfold nodesWithAffinity. apply sumOver_filter.
    intros n _ Hf. unfold compose, scoresOfNode. change (pi_Pod incomingPod) with pod. rewrite Hc.
    destruct (PodsWithAffinity n); [by destruct (NodeOf n)|done]. }
  rewrite Hall. apply sumOver_eq64. intros n Hin. unfold compose. apply scoresOfNode_worth; [by apply Hn|done|done].
Qed.
End Cluster.

(** ** The theorem *)

(** C37: The score that InterPodAffinity gives to a node is the sum, over all pods of the
    cluster, of the weights of the preferred terms that placing the pod on the node
    satisfies: affinity terms of either pod count for it, anti-affinity terms against it, and the
    required affinity terms of the running pods with the configured weight.  It does not depend on
    the order in which the parallel pieces finish, and looking only at nodes and pods with
    affinity when the pod has none loses nothing. *)
Theorem affinity_score_counts_terms `{LabelsLib} hard pod finishOrder parseErrorText nodes filtered cycleState cycleState' handle name n nd :
  (forall l : list scoreMap, finishOrder l ≡ₚ l) ->
  (forall m, m ∈ nodes -> scorable m) -> weightsFit (NewPodInfo pod) -> ValidateHardPodAffinityWeight hard = None ->
  filtered <> [] ->
  PreScore (AffinityPreScore hard finishOrder parseErrorText (inr nodes) (inr (nodesWithAffinity nodes))) cycleState pod filtered
    = (None, cycleState') ->
  handle name = inr n -> NodeOf n = Some nd ->
  affinityScoreOf handle cycleState' pod name = (wrap64 (clusterScore hard (NewPodInfo pod) nodes nd), None).
Proof.
  intros Hperm Hn Hw Hh Hne Hpre Hname Hnd.
  assert (Hhard : 0 <= hard <= 100).
  { unfold ValidateHardPodAffinityWeight in Hh. destruct (Z.ltb_spec hard 0), (Z.ltb_spec 100 hard); done || lia. }
  cbn in Hpre. destruct filtered as [|n0 filtered]; [done|].
  set (err := match getWeightedAffinityTerms _ _ with None => Some preferredAntiAffinityTermsError | _ => _ end) in Hpre.
  destruct err; [done|]. injection Hpre as <-.
  unfold affinityScoreOf. rewrite Hname, Hnd. unfold getAffinityScoreState, Read, Write. rewrite lookup_insert_eq. cbn [topologyScore].
  rewrite scoreOfLabels_worth. f_equal. apply wrap64_proper. by apply affinityScores_worth.
Qed.

(** ** A concrete instance *)
#[local] Existing Instance exampleLabels.
#[local] Existing Instance exampleMath.

Definition preferring (weight : Z) (app key : string) : WeightedPodAffinityTerm :=
  {| wterm_Weight := weight; wterm_Term := termFor app key |}.
(** A pod that would like to be in the zone of a database, and one that would like to be in
    the zone of no web server. *)
Definition webPod : Pod := podWith "web" "" {[ "app" := "web" ]} None
  (Some {| af_NodeAffinity := None;
           af_PodAffinity := Some {| aff_Required := []; aff_Preferred := [preferring 10 "db" "zone"] |};
           af_PodAntiAffinity := None |}) ∅ [].
Definition quietPod : Pod := podWith "quiet" "n3" {[ "app" := "quiet" ]} None
  (Some {| af_NodeAffinity := None; af_PodAffinity := None;
           af_PodAntiAffinity := Some {| aff_Required := []; aff_Preferred := [preferring 5 "web" "zone"] |} |}) ∅ [].
Definition preferenceNodes : list NodeInfo :=
  [infoWith (zoneNode "n1" "a") [appPod "u1" "n1" "db"]; infoWith (zoneNode "n2" "a") []; infoWith (zoneNode "n3" "b") [quietPod]].

Definition webScores : list (Z * Status) :=
  let '(_, state) := PreScore (AffinityPreScore 1 (fun l => l) (fun _ _ => "") (inr preferenceNodes) (inr (nodesWithAffinity preferenceNodes)))
    ∅ webPod [zoneNode "n1" "a"] in
  (fun n => affinityScoreOf (fun _ => inr n) state webPod "") <$> preferenceNodes.
Example web_scores : webScores = [(10, None); (10, None); (-5, None)].
Proof. vm_compute. reflexivity. Qed.

Lemma infoWith_scorable name zone p : pod_UID p <> "" -> weightsFit (NewPodInfo p) -> scorable (infoWith (zoneNode name zone) [p]).
Proof.
  intros Hu Hw. assert (Hp : forall x, x ∈ Pods (infoWith (zoneNode name zone) [p]) -> x = NewPodInfo p).
  { intros x Hx. cbn [infoWith foldl] in Hx. unfold AddPod in Hx. destruct (calculateResource p) as [[]]. cbn in Hx. by apply list_elem_of_singleton in Hx. }
  split.
  - apply AddPod_accounted; [apply accounted_SetNode, accounted_NewNodeInfo|done|apply not_elem_of_nil].
  - by intros x ->%Hp.
  - by intros x ->%Hp.
Qed.

Lemma affinity_score_counts_terms_witness :
  exists state,
    PreScore (AffinityPreScore 1 (fun l => l) (fun _ _ => "") (inr preferenceNodes) (inr (nodesWithAffinity preferenceNodes)))
      ∅ webPod [zoneNode "n1" "a"] = (None, state) /\
    affinityScoreOf (fun _ => inr (infoWith (zoneNode "n3" "b") [quietPod])) state webPod "n3" =
      (wrap64 (clusterScore 1 (NewPodInfo webPod) preferenceNodes (zoneNode "n3" "b")), None) /\
    clusterScore 1 (NewPodInfo webPod) preferenceNodes (zoneNode "n3" "b") = -5.
Proof.
  eexists. split; [reflexivity|]. split; [|vm_compute; reflexivity].
  apply (affinity_score_counts_terms 1 webPod (fun l => l) (fun _ _ => "") preferenceNodes [zoneNode "n1" "a"] ∅ _
    (fun _ => inr (infoWith (zoneNode "n3" "b") [quietPod])) "n3" (infoWith (zoneNode "n3" "b") [quietPod])).
  - reflexivity.
  - intros m Hm. unfold preferenceNodes in Hm. repeat (apply elem_of_cons in Hm as [->|Hm]); [| | |by apply elem_of_nil in Hm].
    + apply infoWith_scorable; [discriminate|apply Forall_nil_2].
    + split; [apply accounted_SetNode, accounted_NewNodeInfo|intros x Hx; by apply elem_of_nil in Hx..].
    + apply infoWith_scorable; [discriminate|]. repeat constructor; vm_compute; reflexivity.
  - repeat constructor; vm_compute; reflexivity.
  - reflexivity.
  - discriminate.
  - reflexivity.
  - reflexivity.
  - reflexivity.
Defined.
