(* ===== verification/ScoreContracts.v ===== *)
(** * What the score plugins promise to the framework

    The framework refuses a score that is not between 0 and 100 after the normalization, and
    a plugin that panics takes the scheduler with it.  [ValidScores] is the promise
    that neither happens, with what each plugin of the tree needs for it. *)
From Stdlib Require Import SpecFloat.
From S2P Require Import Prelude Api NodeInfo NodeTree Framework Float64 Float64Facts PluginData NodeResources NodeResourcesSpec PodTopologySpread NodePlugins SelectorSpread TopologySpreadScore InterPodAffinityScore.
Local Open Scope Z_scope.

(** ** The promise *)
Definition inRange (ns : NodeScore) : Prop := MinNodeScore <= Score ns <= MaxNodeScore.

(** The scores that a plugin alone gives to nodes: [None] for a panic or an error. *)
Definition rawScores (m : ScoreMethods) (state : CycleState) (pod : Pod) (nodes : list Node) : option NodeScoreList :=
  mapM (fun nd => '(s, status) ← sm_Score m state pod (node_Name nd);
                  if IsSuccess status then Some {| score_Name := node_Name nd; Score := s |} else None) nodes.
Definition finalScores (m : ScoreMethods) (state : CycleState) (pod : Pod) (nodes : list Node) : option NodeScoreList :=
  raw ← rawScores m state pod nodes;
  match sm_NormalizeScore m with
  | None => Some raw
  | Some normalize => '(status, l) ← normalize state pod raw; if IsSuccess status then Some l else None
  end.

(** [needs]: what the plugin needs of the state, the pod and the nodes. *)
Class ValidScores (m : ScoreMethods) (needs : CycleState -> Pod -> list Node -> Prop) : Prop :=
  valid_scores state pod nodes : needs state pod nodes ->
    exists l, finalScores m state pod nodes = Some l /\ Forall inRange l.

(** The lister of the snapshot knows the nodes that are scored. *)
Definition known (handle : NodeInfoLister) (nodes : list Node) : Prop :=
  forall nd, nd ∈ nodes -> exists n, handle (node_Name nd) = inr n /\ NodeOf n = Some nd.

(** ** Raw scores *)
Lemma rawScores_spec m state pod nodes (P : Node -> Z -> Prop) :
  (forall nd, nd ∈ nodes -> exists s, sm_Score m state pod (node_Name nd) = Some (s, None) /\ P nd s) ->
  exists raw, rawScores m state pod nodes = Some raw /\
    Forall2 (fun nd ns => score_Name ns = node_Name nd /\ P nd (Score ns)) nodes raw.
Proof.
  unfold rawScores. induction nodes as [|nd nodes IH]; intros Hn; [by exists []|].
  destruct (Hn nd) as (s&Hs&HP); [left|]. destruct IH as (raw&Hraw&Hf); [intros; apply Hn; by right|].
  eexists. cbn [mapM]. rewrite Hs. cbn. rewrite Hraw. cbn. split; [done|]. by constructor.
Qed.

Abbreviation rawOf P nodes raw := (Forall2 (fun nd ns => score_Name ns = node_Name nd /\ P nd (Score ns)) nodes raw).

Lemma raw_Forall (P : Node -> Z -> Prop) (Q : NodeScore -> Prop) nodes raw :
  (forall nd ns, nd ∈ nodes -> score_Name ns = node_Name nd -> P nd (Score ns) -> Q ns) -> rawOf P nodes raw -> Forall Q raw.
Proof.
  intros HQ Hf. induction Hf as [|nd ns nodes raw [Hn HP] Hf IH]; constructor.
  - apply (HQ nd); [left|done|done].
  - apply IH. intros nd' ns' Hin. apply HQ. by right.
Qed.

(** A plugin without normalization. *)
Lemma valid_without m state pod nodes : sm_NormalizeScore m = None ->
  (forall nd, nd ∈ nodes -> exists s, sm_Score m state pod (node_Name nd) = Some (s, None) /\ 0 <= s <= MaxNodeScore) ->
  exists l, finalScores m state pod nodes = Some l /\ Forall inRange l.
Proof.
  intros Hm Hn. destruct (rawScores_spec m state pod nodes (fun _ s => 0 <= s <= MaxNodeScore) Hn) as (raw&Hraw&Hf).
  unfold finalScores. rewrite Hraw, Hm. exists raw. split; [done|]. apply (raw_Forall (fun _ s => 0 <= s <= MaxNodeScore) _ nodes); [|done]. by intros.
Qed.

(** A plugin with one, which is total on the raw scores. *)
Lemma valid_normalized m normalize state pod nodes (P : Node -> Z -> Prop) : sm_NormalizeScore m = Some normalize ->
  (forall nd, nd ∈ nodes -> exists s, sm_Score m state pod (node_Name nd) = Some (s, None) /\ P nd s) ->
  (forall raw, rawOf P nodes raw ->
    exists l, normalize state pod raw = Some (None, l) /\ Forall inRange l) ->
  exists l, finalScores m state pod nodes = Some l /\ Forall inRange l.
Proof.
  intros Hm Hn Hnorm. destruct (rawScores_spec m state pod nodes P Hn) as (raw&Hraw&Hf).
  destruct (Hnorm raw Hf) as (l&Hl&Hr). exists l. unfold finalScores. rewrite Hraw, Hm. cbn. by rewrite Hl.
Qed.

(** ** The default normalization *)
Lemma maxScoreOf_spec l : Forall (fun ns => 0 <= Score ns < 2 ^ 53) l ->
  0 <= maxScoreOf l < 2 ^ 53 /\ Forall (fun ns => Score ns <= maxScoreOf l) l.
Proof.
  unfold maxScoreOf. intros Hl. cut (forall m, 0 <= m < 2 ^ 53 ->
    let M := foldl (fun maxCount ns => if maxCount <? Score ns then Score ns else maxCount) m l in
    m <= M < 2 ^ 53 /\ Forall (fun ns => Score ns <= M) l).
  { intros Hc. destruct (Hc 0) as [? ?]; [lia|]. split; [lia|done]. }
  induction Hl as [|ns l Hns Hl IH]; intros m Hm; cbn [foldl]; [by split; [lia|]|].
  destruct (IH (if m <? Score ns then Score ns else m)) as [HM Hf]; [destruct (Z.ltb_spec m (Score ns)); lia|].
  split; [destruct (Z.ltb_spec m (Score ns)); lia|]. constructor; [|done]. destruct (Z.ltb_spec m (Score ns)); lia.
Qed.

Lemma DefaultNormalizeScore_range reverse raw : Forall (fun ns => 0 <= Score ns < 2 ^ 53) raw ->
  exists l, DefaultNormalizeScore MaxNodeScore reverse raw = (None, l) /\ Forall inRange l.
Proof.
  intros Hraw. destruct (maxScoreOf_spec raw Hraw) as [HM Hle]. unfold DefaultNormalizeScore. cbv zeta.
  unfold MaxNodeScore in *. destruct (Z.eqb_spec (maxScoreOf raw) 0) as [Hz|Hnz].
  - eexists. split; [done|]. destruct reverse.
    + apply Forall_fmap, list.Forall_forall. intros ns _. unfold inRange, MinNodeScore, MaxNodeScore. cbn. lia.
    + rewrite Hz in Hle. eapply Forall_impl; [exact (proj2 (Forall_and _ _) (conj Hraw Hle))|]. cbn. intros ns [? ?].
      unfold inRange, MinNodeScore, MaxNodeScore. lia.
  - eexists. split; [done|]. apply Forall_fmap, list.Forall_forall. intros ns Hns.
    apply (proj1 (list.Forall_forall _ _) Hraw) in Hns as Hr. apply (proj1 (list.Forall_forall _ _) Hle) in Hns as Hm. cbn in Hr, Hm.
    unfold inRange, MinNodeScore, MaxNodeScore, compose. cbn [setScore Score].
    rewrite (wrap64_id (100 * _)) by (unfold in_int64, min_int64, max_int64; lia).
    rewrite Z.quot_div_nonneg by lia.
    assert (Hq : 0 <= 100 * Score ns / maxScoreOf raw <= 100) by (split; [apply Z.div_pos|apply Z.div_le_upper_bound]; lia).
    rewrite (wrap64_id (_ / _)) by (unfold in_int64, min_int64, max_int64; lia).
    destruct reverse; [rewrite wrap64_id by (unfold in_int64, min_int64, max_int64; lia)|]; lia.
Qed.

(** ** TaintToleration and NodeAffinity *)
Lemma countIntolerable_range taints ts : Z.of_nat (length taints) < 2 ^ 53 ->
  0 <= countIntolerableTaintsPreferNoSchedule taints ts < 2 ^ 53.
Proof.
  intros Hlen. unfold countIntolerableTaintsPreferNoSchedule.
  cut (forall c, 0 <= c -> c + Z.of_nat (length taints) < 2 ^ 53 ->
    c <= foldl (fun intolerableTaints taint => if decide (taint_Effect taint <> PreferNoSchedule) then intolerableTaints
      else wrap64 (intolerableTaints + 1)) c taints <= c + Z.of_nat (length taints)); [intros Hc; specialize (Hc 0); lia|].
  clear Hlen. induction taints as [|t taints IH]; intros c Hc Hlen; cbn [foldl length] in *; [lia|].
  rewrite wrap64_id by (unfold in_int64, min_int64, max_int64; lia). case_decide.
  - specialize (IH c). lia.
  - specialize (IH (c + 1)). lia.
Qed.

#[export] Instance TaintScore_valid handle : ValidScores (TaintScore handle) (fun state pod nodes =>
  known handle nodes /\ (exists ts, getTaintState state = inr ts) /\
  forall nd, nd ∈ nodes -> Z.of_nat (length (node_Taints nd)) < 2 ^ 53).
Proof.
  intros state pod nodes (Hk&[ts Hts]&Hlen). eapply (valid_normalized _ _ _ _ _ (fun _ s => 0 <= s < 2 ^ 53)); [reflexivity| |].
  - intros nd Hnd. destruct (Hk nd Hnd) as (n&Hn&Hnode). cbn. rewrite Hn, Hnode, Hts. eexists. split; [done|].
    by apply countIntolerable_range, Hlen.
  - intros raw Hraw. destruct (DefaultNormalizeScore_range true raw) as (l&->&Hl); [|by exists l].
    apply (raw_Forall (fun _ s => 0 <= s < 2 ^ 53) _ nodes); [|done]. by intros.
Qed.

(** Weights of the API are between 1 and 100. *)
Definition preferencesFit (pod : Pod) : Prop :=
  forall a, PodAffinitySpec (pod_Spec pod) ≫= af_NodeAffinity = Some a ->
    Forall (fun t => 0 <= pst_Weight t <= 100) (na_Preferred a) /\ Z.of_nat (length (na_Preferred a)) < 2 ^ 46.

Lemma preferenceCount_range pod : preferencesFit pod -> 0 <= preferenceCount (PodAffinitySpec (pod_Spec pod)) < 2 ^ 53.
Proof.
  intros Hp. unfold preferenceCount. destruct (_ ≫= af_NodeAffinity) as [a|] eqn:Ea; [|lia]. destruct (Hp a Ea) as [Hw Hlen].
  cut (forall c, 0 <= c -> c + 100 * Z.of_nat (length (na_Preferred a)) < 2 ^ 53 ->
    c <= foldl (fun count t => if pst_Weight t =? 0 then count else wrap64 (count + pst_Weight t)) c (na_Preferred a) <=
      c + 100 * Z.of_nat (length (na_Preferred a))); [intros Hc; specialize (Hc 0); lia|].
  clear Ea Hlen Hp. induction Hw as [|t ts Ht Hw IH]; intros c Hc Hlen; cbn [foldl length] in *; [lia|].
  rewrite wrap64_id by (unfold in_int64, min_int64, max_int64; lia). destruct (Z.eqb_spec (pst_Weight t) 0).
  - specialize (IH c). lia.
  - specialize (IH (c + pst_Weight t)). lia.
Qed.

#[export] Instance NodeAffinityScore_valid handle : ValidScores (NodeAffinityScore handle) (fun state pod nodes =>
  known handle nodes /\ preferencesFit pod).
Proof.
  intros state pod nodes (Hk&Hp). eapply (valid_normalized _ _ _ _ _ (fun _ s => 0 <= s < 2 ^ 53)); [reflexivity| |].
  - intros nd Hnd. destruct (Hk nd Hnd) as (n&Hn&Hnode). cbn. rewrite Hn, Hnode. eexists. split; [done|].
    by apply preferenceCount_range.
  - intros raw Hraw. destruct (DefaultNormalizeScore_range false raw) as (l&->&Hl); [|by exists l].
    apply (raw_Forall (fun _ s => 0 <= s < 2 ^ 53) _ nodes); [|done]. by intros.
Qed.
