(* ===== verification/Configuration.v ===== *)
(** * The configuration of the scheduler (apis/config, algorithmprovider, plugins/legacy_registry.go)

    Which plugins run at which extension point with which weight and arguments: from a
    profile on top of the plugins of an algorithm provider, or from a policy whose
    predicates and priorities are translated by a registry of producers.  A slice or
    pointer whose nil value means something is an [option]; a call of [klog.Fatalf] or a
    nil dereference is [None]. *)
From stdpp Require Import pretty.
From S2P Require Import Prelude Api Framework NodeResources NodePlugins.
Local Open Scope Z_scope.

(** ** Sets of plugins (apis/config/types.go) *)
Record Plugin := { cfg_Name : string; cfg_Weight : Z }.
#[export] Instance Plugin_eq : EqDecision Plugin.
Proof. solve_decision. Defined.

Record PluginSet := { Enabled : list Plugin; Disabled : list Plugin }.
#[export] Instance PluginSet_eq : EqDecision PluginSet.
Proof. solve_decision. Defined.

Definition noPlugins : PluginSet := {| Enabled := []; Disabled := [] |}.

(** The sets of plugins by extension point. *)
Record Plugins := {
  at_QueueSort : option PluginSet;
  at_PreFilter : option PluginSet;
  at_Filter : option PluginSet;
  at_PostFilter : option PluginSet;
  at_PreScore : option PluginSet;
  at_Score : option PluginSet;
  at_Reserve : option PluginSet;
  at_Permit : option PluginSet;
  at_PreBind : option PluginSet;
  at_Bind : option PluginSet;
  at_PostBind : option PluginSet
}.

Definition emptyPlugins : Plugins :=
  {| at_QueueSort := None; at_PreFilter := None; at_Filter := None; at_PostFilter := None; at_PreScore := None;
     at_Score := None; at_Reserve := None; at_Permit := None; at_PreBind := None; at_Bind := None; at_PostBind := None |}.

Definition appendPluginSet (dst src : option PluginSet) : option PluginSet :=
  let dst := default noPlugins dst in
  match src with
  | None => Some dst
  | Some src => Some {| Enabled := Enabled dst ++ Enabled src; Disabled := Disabled dst ++ Disabled src |}
  end.

Definition mergePluginSets (defaultPluginSet customPluginSet : option PluginSet) : option PluginSet :=
  let customPluginSet := default noPlugins customPluginSet in
  let defaultPluginSet := default noPlugins defaultPluginSet in
  let disabledPlugins : gset string := list_to_set (cfg_Name <$> Disabled customPluginSet) in
  let enabledPlugins :=
    if decide ("*" ∈ disabledPlugins) then []
    else filter (fun p => cfg_Name p ∉ disabledPlugins) (Enabled defaultPluginSet) in
  Some {| Enabled := enabledPlugins ++ Enabled customPluginSet; Disabled := [] |}.

(** Both methods treat every extension point alike. *)
Definition pointwise (f : option PluginSet -> option PluginSet -> option PluginSet) (p q : Plugins) : Plugins :=
  {| at_QueueSort := f (at_QueueSort p) (at_QueueSort q);
     at_PreFilter := f (at_PreFilter p) (at_PreFilter q);
     at_Filter := f (at_Filter p) (at_Filter q);
     at_PostFilter := f (at_PostFilter p) (at_PostFilter q);
     at_PreScore := f (at_PreScore p) (at_PreScore q);
     at_Score := f (at_Score p) (at_Score q);
     at_Reserve := f (at_Reserve p) (at_Reserve q);
     at_Permit := f (at_Permit p) (at_Permit q);
     at_PreBind := f (at_PreBind p) (at_PreBind q);
     at_Bind := f (at_Bind p) (at_Bind q);
     at_PostBind := f (at_PostBind p) (at_PostBind q) |}.

Definition Append (p : Plugins) (src : option Plugins) : Plugins :=
  match src with None => p | Some src => pointwise appendPluginSet p src end.
Definition Apply (p : Plugins) (customPlugins : option Plugins) : Plugins :=
  match customPlugins with None => p | Some custom => pointwise mergePluginSets p custom end.

(** ** Arguments of plugins (apis/config/types_pluginargs.go) *)
#[export] Instance ResourceSpec_eq : EqDecision ResourceSpec.
Proof. solve_decision. Defined.
#[export] Instance UtilizationShapePoint_eq : EqDecision UtilizationShapePoint.
Proof. solve_decision. Defined.
#[export] Instance NodeLabelArgs_eq : EqDecision NodeLabelArgs.
Proof. solve_decision. Defined.

Record NodeResourcesFitArgs := { IgnoredResources : list string; IgnoredResourceGroups : list string }.
#[export] Instance NodeResourcesFitArgs_eq : EqDecision NodeResourcesFitArgs.
Proof. solve_decision. Defined.

Record RequestedToCapacityRatioArgs := { Shape : list UtilizationShapePoint; RatioResources : list ResourceSpec }.
#[export] Instance RequestedToCapacityRatioArgs_eq : EqDecision RequestedToCapacityRatioArgs.
Proof. solve_decision. Defined.

Record ServiceAffinityArgs := { saa_AffinityLabels : list string; saa_AntiAffinityLabelsPreference : list string }.
#[export] Instance ServiceAffinityArgs_eq : EqDecision ServiceAffinityArgs.
Proof. solve_decision. Defined.

(** A [runtime.Object]: arguments of a plugin of the tree, or an object of another type. *)
Inductive Object :=
  | InterPodAffinityArgs (HardPodAffinityWeight : Z)
  | NodeLabelObject (args : NodeLabelArgs)
  | NodeResourcesFitObject (args : NodeResourcesFitArgs)
  | PodTopologySpreadArgs (DefaultConstraints : list TopologySpreadConstraint)
  | RequestedToCapacityRatioObject (args : RequestedToCapacityRatioArgs)
  | NodeResourcesLeastAllocatedArgs (Resources : list ResourceSpec)
  | NodeResourcesMostAllocatedArgs (Resources : list ResourceSpec)
  | ServiceAffinityObject (args : ServiceAffinityArgs)
  | OtherObject (name : string).
#[export] Instance Object_eq : EqDecision Object.
Proof. solve_decision. Defined.

Record PluginConfig := { pc_Name : string; pc_Args : option Object }.

(** ** Extenders and profiles (apis/config/types.go) *)
Record ExtenderManagedResource := { mr_Name : string; IgnoredByScheduler : bool }.

Record ExtenderTLSConfig := {
  Insecure : bool; ServerName : string; CertFile : string; KeyFile : string; CAFile : string;
  CertData : list Byte.byte; KeyData : list Byte.byte; CAData : list Byte.byte
}.

Record ExtenderConfig := {
  URLPrefix : string;
  FilterVerb : string;
  PreemptVerb : string;
  PrioritizeVerb : string;
  xc_Weight : Z;
  BindVerb : string;
  EnableHTTPS : bool;
  TLSConfig : option ExtenderTLSConfig;
  HTTPTimeout : Z;
  NodeCacheCapable : bool;
  ManagedResources : list ExtenderManagedResource;
  Ignorable : bool
}.

Record KubeSchedulerProfile := {
  profile_SchedulerName : string;
  profile_Plugins : option Plugins;
  profile_PluginConfig : list PluginConfig
}.

(** ** Policies (apis/config/legacy_types.go) *)
Record LabelsPresence := { lp_Labels : list string; lp_Presence : bool }.
Record LabelPreference := { pref_Label : string; pref_Presence : bool }.

(** The labels of a [ServiceAffinity]; the label of a [ServiceAntiAffinity]. *)
Record PredicateArgument := { arg_ServiceAffinity : option (list string); arg_LabelsPresence : option LabelsPresence }.
Record PriorityArgument := {
  arg_ServiceAntiAffinity : option string;
  arg_LabelPreference : option LabelPreference;
  arg_RequestedToCapacityRatio : option RequestedToCapacityRatioArgs
}.

Record PredicatePolicy := { predicate_Name : string; predicate_Argument : option PredicateArgument }.
Record PriorityPolicy := { priority_Name : string; priority_Weight : Z; priority_Argument : option PriorityArgument }.

Record Policy := {
  Predicates : option (list PredicatePolicy);
  Priorities : option (list PriorityPolicy);
  policy_Extenders : list ExtenderConfig;
  HardPodAffinitySymmetricWeight : Z;
  AlwaysCheckAllPredicates : bool
}.

(** ** Validation of a policy (apis/config/validation/validation.go) *)
Definition MaxWeight : Z := Z.quot MaxTotalScore MaxCustomPriorityScore.

(** A map from the types of custom priorities to the priority that declares them, and the error. *)
Definition verifyRedeclaration (priority : PriorityPolicy) (priorityType : string) (priorities : gmap string PriorityPolicy)
    : option string * gmap string PriorityPolicy :=
  match priorities !! priorityType with
  | Some existing =>
      (Some (String.concat "" ["Priority "; quoted (priority_Name priority); " redeclares custom priority ";
               quoted priorityType; ", from:"; quoted (priority_Name existing)]), priorities)
  | None => (None, <[priorityType := priority]> priorities)
  end.

Definition verifyDifferentWeights (priority : PriorityPolicy) (priorityType : string)
    (priorities : gmap string PriorityPolicy) : option string * gmap string PriorityPolicy :=
  match priorities !! priorityType with
  | Some existing =>
      if decide (priority_Weight existing <> priority_Weight priority) then
        (Some (String.concat "" [priorityType; "  priority "; quoted (priority_Name priority);
                 " has a different weight with "; quoted (priority_Name existing)]), priorities)
      else (None, <[priorityType := priority]> priorities)
  | None => (None, <[priorityType := priority]> priorities)
  end.

Definition validateCustomPriorities (priorities : gmap string PriorityPolicy) (priority : PriorityPolicy)
    : option string * gmap string PriorityPolicy :=
  match priority_Argument priority with
  | None => (None, priorities)
  | Some argument =>
      if arg_LabelPreference argument is Some _ then verifyDifferentWeights priority "LabelPreference" priorities
      else if arg_ServiceAntiAffinity argument is Some _ then verifyDifferentWeights priority "ServiceAntiAffinity" priorities
      else if arg_RequestedToCapacityRatio argument is Some _ then
        verifyRedeclaration priority "RequestedToCapacityRatio" priorities
      else (Some (String.append "No priority arguments set for priority " (priority_Name priority)), priorities)
  end.

(** The errors of one priority after those of the earlier ones. *)
Definition validatePriority (s : list string * gmap string PriorityPolicy) (priority : PriorityPolicy)
    : list string * gmap string PriorityPolicy :=
  let '(errs, priorities) := s in
  let errs :=
    if (priority_Weight priority <=? 0) || (MaxWeight <=? priority_Weight priority) then
      errs ++ [String.concat "" ["Priority "; priority_Name priority;
                 " should have a positive weight applied to it or it has overflown"]]
    else errs in
  let '(err, priorities) := validateCustomPriorities priorities priority in
  (errs ++ option_list err, priorities).

Section Validation.
(** [validation.IsQualifiedName] of k8s.io/apimachinery: the messages of what is wrong. *)
Context (IsQualifiedName : string -> list string).

Definition validateExtendedResourceName (name : string) : list string := IsQualifiedName name.

Definition validateManagedResource (s : list string * gset string) (resource : ExtenderManagedResource)
    : list string * gset string :=
  let '(errs, seen) := s in
  (errs ++ validateExtendedResourceName (mr_Name resource) ++
   (if decide (mr_Name resource ∈ seen) then ["duplicate extender managed resource name"] else []),
   {[mr_Name resource]} ∪ seen).

Definition validateExtender (s : list string * nat * gset string) (extender : ExtenderConfig)
    : list string * nat * gset string :=
  let '(errs, binders, seen) := s in
  let errs :=
    if bool_decide (PrioritizeVerb extender <> "") && (xc_Weight extender <=? 0) then
      errs ++ ["must have a positive weight applied to it"]
    else errs in
  let binders := if decide (BindVerb extender <> "") then S binders else binders in
  let '(errs, seen) := foldl validateManagedResource (errs, seen) (ManagedResources extender) in
  (errs, binders, seen).

Definition validateExtenders (extenders : list ExtenderConfig) : list string :=
  let '(allErrs, binders, _) := foldl validateExtender ([], 0%nat, ∅) extenders in
  if (1 <? binders)%nat then allErrs ++ ["only one extender can implement bind"] else allErrs.

(** The errors; none is the nil of [NewAggregate]. *)
Definition ValidatePolicy (policy : Policy) : list string :=
  let '(errs, _) := foldl validatePriority ([], ∅) (default [] (Priorities policy)) in
  let errs := errs ++ validateExtenders (policy_Extenders policy) in
  if (HardPodAffinitySymmetricWeight policy <? 0) || (100 <? HardPodAffinitySymmetricWeight policy)
  then errs ++ ["not in valid range [0-100]"] else errs.
End Validation.
