(* ===== verification/LegacyRegistry.v ===== *)
(** * From policies and providers to plugins (plugins/legacy_registry.go, algorithmprovider/registry.go)

    The legacy registry maps predicates and priorities of a policy to producers of
    plugins; the algorithm providers are two fixed sets of plugins. *)
From S2P Require Import Prelude Api Framework NodeResources NodePlugins Configuration.
Local Open Scope Z_scope.

(** ** The names of the plugins of the tree *)
Definition selectorspread_Name : string := "SelectorSpread".
Definition imagelocality_Name : string := "ImageLocality".
Definition tainttoleration_Name : string := "TaintToleration".
Definition nodename_Name : string := "NodeName".
Definition nodeports_Name : string := "NodePorts".
Definition nodeaffinity_Name : string := "NodeAffinity".
Definition podtopologyspread_Name : string := "PodTopologySpread".
Definition nodeunschedulable_Name : string := "NodeUnschedulable".
Definition volumerestrictions_Name : string := "VolumeRestrictions".
Definition volumezone_Name : string := "VolumeZone".
Definition interpodaffinity_Name : string := "InterPodAffinity".
Definition nodelabel_Name : string := "NodeLabel".
Definition serviceaffinity_Name : string := "ServiceAffinity".
Definition queuesort_Name : string := "PrioritySort".
Definition defaultbinder_Name : string := "DefaultBinder".
Definition defaultpreemption_Name : string := "DefaultPreemption".

(** ** Sets of plugins *)
Definition appendToPluginSet (set : option PluginSet) (name : string) (weight : option Z) : option PluginSet :=
  let set := default noPlugins set in
  Some {| Enabled := Enabled set ++ [{| cfg_Name := name; cfg_Weight := default 0 weight |}]; Disabled := Disabled set |}.

(** The plugins with other sets at the extension points that the producers use. *)
Definition withSets (preFilter filter preScore score : option PluginSet) (plugins : Plugins) : Plugins :=
  {| at_QueueSort := at_QueueSort plugins; at_PreFilter := preFilter; at_Filter := filter;
     at_PostFilter := at_PostFilter plugins; at_PreScore := preScore; at_Score := score;
     at_Reserve := at_Reserve plugins; at_Permit := at_Permit plugins; at_PreBind := at_PreBind plugins;
     at_Bind := at_Bind plugins; at_PostBind := at_PostBind plugins |}.

(** [plugins.Filter = appendToPluginSet(plugins.Filter, name, nil)] and the like. *)
Definition addPreFilter (name : string) (p : Plugins) : Plugins :=
  withSets (appendToPluginSet (at_PreFilter p) name None) (at_Filter p) (at_PreScore p) (at_Score p) p.
Definition addFilter (name : string) (p : Plugins) : Plugins :=
  withSets (at_PreFilter p) (appendToPluginSet (at_Filter p) name None) (at_PreScore p) (at_Score p) p.
Definition addPreScore (name : string) (p : Plugins) : Plugins :=
  withSets (at_PreFilter p) (at_Filter p) (appendToPluginSet (at_PreScore p) name None) (at_Score p) p.
Definition addScoreOf (weight : Z) (name : string) (p : Plugins) : Plugins :=
  withSets (at_PreFilter p) (at_Filter p) (at_PreScore p) (appendToPluginSet (at_Score p) name (Some weight)) p.

(** ** Producers *)
Record ConfigProducerArgs := {
  producer_Weight : Z;
  producer_NodeLabelArgs : option NodeLabelArgs;
  producer_RequestedToCapacityRatioArgs : option RequestedToCapacityRatioArgs;
  producer_ServiceAffinityArgs : option ServiceAffinityArgs;
  producer_NodeResourcesFitArgs : option NodeResourcesFitArgs;
  producer_InterPodAffinityArgs : option Z
}.

Definition noProducerArgs : ConfigProducerArgs :=
  {| producer_Weight := 0; producer_NodeLabelArgs := None; producer_RequestedToCapacityRatioArgs := None;
     producer_ServiceAffinityArgs := None; producer_NodeResourcesFitArgs := None; producer_InterPodAffinityArgs := None |}.

(** The plugins and their arguments; [None] is a nil dereference. *)
Abbreviation ConfigProducer := (ConfigProducerArgs -> option (Plugins * list PluginConfig)).

(** A configuration for a plugin with arguments that are not nil. *)
Definition configOf {A} (name : string) (object : A -> Object) (args : option A) : list PluginConfig :=
  match args with None => [] | Some args => [{| pc_Name := name; pc_Args := Some (object args) |}] end.

Definition fitConfig (args : ConfigProducerArgs) : list PluginConfig :=
  configOf FitName NodeResourcesFitObject (producer_NodeResourcesFitArgs args).

(** A producer of plugins without arguments. *)
Definition only (f : Plugins -> Plugins) : ConfigProducer := fun _ => Some (f emptyPlugins, []).
Definition scored (name : string) : ConfigProducer := fun args =>
  Some (addScoreOf (producer_Weight args) name emptyPlugins, []).

Definition fitProducer : ConfigProducer := fun args =>
  Some (addPreFilter FitName (addFilter FitName emptyPlugins), fitConfig args).

(** A combination of predicates. *)
Definition generalProducer : ConfigProducer := fun args =>
  let plugins := addPreFilter FitName (addFilter FitName emptyPlugins) in
  let plugins := addFilter nodename_Name plugins in
  let plugins := addPreFilter nodeports_Name (addFilter nodeports_Name plugins) in
  Some (addFilter nodeaffinity_Name plugins, fitConfig args).

Definition nodeLabelPredicate : ConfigProducer := fun args =>
  Some (addFilter nodelabel_Name emptyPlugins, configOf nodelabel_Name NodeLabelObject (producer_NodeLabelArgs args)).

Definition serviceAffinityPredicate : ConfigProducer := fun args =>
  Some (addPreFilter serviceaffinity_Name (addFilter serviceaffinity_Name emptyPlugins),
        configOf serviceaffinity_Name ServiceAffinityObject (producer_ServiceAffinityArgs args)).

Definition prescored (name : string) : ConfigProducer := fun args =>
  Some (addScoreOf (producer_Weight args) name (addPreScore name emptyPlugins), []).

Definition interPodAffinityPriority : ConfigProducer := fun args =>
  Some (addScoreOf (producer_Weight args) interpodaffinity_Name (addPreScore interpodaffinity_Name emptyPlugins),
        configOf interpodaffinity_Name InterPodAffinityArgs (producer_InterPodAffinityArgs args)).

Definition requestedToCapacityRatioPriority : ConfigProducer := fun args =>
  Some (addScoreOf (producer_Weight args) RequestedToCapacityRatioName emptyPlugins,
        configOf RequestedToCapacityRatioName RequestedToCapacityRatioObject (producer_RequestedToCapacityRatioArgs args)).

(** The weight is multiplied by the number of labels, of arguments that are dereferenced
    before they are compared with nil. *)
Definition nodeLabelPriority : ConfigProducer := fun args =>
  nodeLabelArgs ← producer_NodeLabelArgs args;
  let labels := (length (PresentLabelsPreference nodeLabelArgs) + length (AbsentLabelsPreference nodeLabelArgs))%nat in
  let weight := wrap32 (producer_Weight args * wrap32 (Z.of_nat labels)) in
  Some (addScoreOf weight nodelabel_Name emptyPlugins,
        configOf nodelabel_Name NodeLabelObject (producer_NodeLabelArgs args)).

Definition serviceAffinityPriority : ConfigProducer := fun args =>
  serviceAffinityArgs ← producer_ServiceAffinityArgs args;
  let weight := wrap32 (producer_Weight args *
                  wrap32 (Z.of_nat (length (saa_AntiAffinityLabelsPreference serviceAffinityArgs)))) in
  Some (addScoreOf weight serviceaffinity_Name emptyPlugins,
        configOf serviceaffinity_Name ServiceAffinityObject (producer_ServiceAffinityArgs args)).

(** ** The registry *)
Record LegacyRegistry := {
  PredicateToConfigProducer : gmap string ConfigProducer;
  PriorityToConfigProducer : gmap string ConfigProducer;
  MandatoryPredicates : gset string;
  DefaultPredicates : gset string;
  DefaultPriorities : gmap string Z
}.

Definition registerPredicateConfigProducer (lr : option LegacyRegistry) (e : string * ConfigProducer) : option LegacyRegistry :=
  lr ← lr;
  match PredicateToConfigProducer lr !! e.1 with
  | Some _ => None
  | None => Some {| PredicateToConfigProducer := <[e.1 := e.2]> (PredicateToConfigProducer lr);
                    PriorityToConfigProducer := PriorityToConfigProducer lr;
                    MandatoryPredicates := MandatoryPredicates lr; DefaultPredicates := DefaultPredicates lr;
                    DefaultPriorities := DefaultPriorities lr |}
  end.

Definition registerPriorityConfigProducer (lr : option LegacyRegistry) (e : string * ConfigProducer) : option LegacyRegistry :=
  lr ← lr;
  match PriorityToConfigProducer lr !! e.1 with
  | Some _ => None
  | None => Some {| PredicateToConfigProducer := PredicateToConfigProducer lr;
                    PriorityToConfigProducer := <[e.1 := e.2]> (PriorityToConfigProducer lr);
                    MandatoryPredicates := MandatoryPredicates lr; DefaultPredicates := DefaultPredicates lr;
                    DefaultPriorities := DefaultPriorities lr |}
  end.

Definition predicateProducers : list (string * ConfigProducer) := [
  ("GeneralPredicates", generalProducer);
  ("PodToleratesNodeTaints", only (addFilter tainttoleration_Name));
  ("PodFitsResources", fitProducer);
  ("HostName", only (addFilter nodename_Name));
  ("PodFitsHostPorts", only (fun p => addPreFilter nodeports_Name (addFilter nodeports_Name p)));
  ("MatchNodeSelector", only (addFilter nodeaffinity_Name));
  ("CheckNodeUnschedulable", only (addFilter nodeunschedulable_Name));
  ("CheckVolumeBinding", only id);
  ("NoDiskConflict", only (addFilter volumerestrictions_Name));
  ("NoVolumeZoneConflict", only (addFilter volumezone_Name));
  ("MaxCSIVolumeCountPred", only id);
  ("MaxEBSVolumeCount", only id);
  ("MaxGCEPDVolumeCount", only id);
  ("MaxAzureDiskVolumeCount", only id);
  ("MaxCinderVolumeCount", only id);
  ("MatchInterPodAffinity", only (fun p => addPreFilter interpodaffinity_Name (addFilter interpodaffinity_Name p)));
  ("CheckNodeLabelPresence", nodeLabelPredicate);
  ("CheckServiceAffinity", serviceAffinityPredicate);
  ("EvenPodsSpread", only (fun p => addFilter podtopologyspread_Name (addPreFilter podtopologyspread_Name p)))
]%string.

Definition priorityProducers : list (string * ConfigProducer) := [
  ("SelectorSpreadPriority", prescored selectorspread_Name);
  ("TaintTolerationPriority", prescored tainttoleration_Name);
  ("NodeAffinityPriority", scored nodeaffinity_Name);
  ("ImageLocalityPriority", scored imagelocality_Name);
  ("InterPodAffinityPriority", interPodAffinityPriority);
  ("NodePreferAvoidPodsPriority", only id);
  ("MostRequestedPriority", scored MostAllocatedName);
  ("BalancedResourceAllocation", scored BalancedAllocationName);
  ("LeastRequestedPriority", scored LeastAllocatedName);
  (RequestedToCapacityRatioName, requestedToCapacityRatioPriority);
  (nodelabel_Name, nodeLabelPriority);
  (serviceaffinity_Name, serviceAffinityPriority);
  ("EvenPodsSpreadPriority", prescored podtopologyspread_Name)
]%string.

Definition NewLegacyRegistry : option LegacyRegistry :=
  foldl registerPriorityConfigProducer
    (foldl registerPredicateConfigProducer
      (Some {| PredicateToConfigProducer := ∅; PriorityToConfigProducer := ∅;
               MandatoryPredicates := {["PodToleratesNodeTaints"; "CheckNodeUnschedulable"]};
               DefaultPredicates := {["NoVolumeZoneConflict"; "MaxEBSVolumeCount"; "MaxGCEPDVolumeCount";
                 "MaxAzureDiskVolumeCount"; "MaxCSIVolumeCountPred"; "MatchInterPodAffinity"; "NoDiskConflict";
                 "GeneralPredicates"; "PodToleratesNodeTaints"; "CheckVolumeBinding"; "CheckNodeUnschedulable";
                 "EvenPodsSpread"]};
               DefaultPriorities := {["SelectorSpreadPriority" := 1; "InterPodAffinityPriority" := 1;
                 "LeastRequestedPriority" := 1; "BalancedResourceAllocation" := 1;
                 "NodePreferAvoidPodsPriority" := 10000; "NodeAffinityPriority" := 1;
                 "TaintTolerationPriority" := 1; "ImageLocalityPriority" := 1; "EvenPodsSpreadPriority" := 2]} |})
      predicateProducers)
    priorityProducers.

Definition PredicateOrdering : list string := [
  "CheckNodeUnschedulable"; "GeneralPredicates"; "HostName"; "PodFitsHostPorts"; "MatchNodeSelector";
  "PodFitsResources"; "NoDiskConflict"; "PodToleratesNodeTaints"; "CheckNodeLabelPresence"; "CheckServiceAffinity";
  "MaxEBSVolumeCount"; "MaxGCEPDVolumeCount"; "MaxCSIVolumeCountPred"; "MaxAzureDiskVolumeCount";
  "MaxCinderVolumeCount"; "CheckVolumeBinding"; "NoVolumeZoneConflict"; "EvenPodsSpread"; "MatchInterPodAffinity"].

(** ** The entries of a policy

    The name of the producer for an entry, with the arguments that it adds; [None] ends
    the process. *)
Definition validatePredicateOrDie (predicate : PredicatePolicy) : bool :=
  match predicate_Argument predicate with
  | None => true
  | Some argument =>
      let numArgs := (length (option_list (arg_ServiceAffinity argument)) + length (option_list (arg_LabelsPresence argument)))%nat in
      (numArgs =? 1)%nat
  end.

Definition validatePriorityOrDie (priority : PriorityPolicy) : bool :=
  match priority_Argument priority with
  | None => true
  | Some argument =>
      let numArgs := (length (option_list (arg_ServiceAntiAffinity argument)) +
                      length (option_list (arg_LabelPreference argument)) +
                      length (option_list (arg_RequestedToCapacityRatio argument)))%nat in
      (numArgs =? 1)%nat
  end.

Definition withServiceAffinityArgs (args : ServiceAffinityArgs) (a : ConfigProducerArgs) : ConfigProducerArgs :=
  {| producer_Weight := producer_Weight a; producer_NodeLabelArgs := producer_NodeLabelArgs a;
     producer_RequestedToCapacityRatioArgs := producer_RequestedToCapacityRatioArgs a;
     producer_ServiceAffinityArgs := Some args; producer_NodeResourcesFitArgs := producer_NodeResourcesFitArgs a;
     producer_InterPodAffinityArgs := producer_InterPodAffinityArgs a |}.
Definition withNodeLabelArgs (args : NodeLabelArgs) (a : ConfigProducerArgs) : ConfigProducerArgs :=
  {| producer_Weight := producer_Weight a; producer_NodeLabelArgs := Some args;
     producer_RequestedToCapacityRatioArgs := producer_RequestedToCapacityRatioArgs a;
     producer_ServiceAffinityArgs := producer_ServiceAffinityArgs a;
     producer_NodeResourcesFitArgs := producer_NodeResourcesFitArgs a;
     producer_InterPodAffinityArgs := producer_InterPodAffinityArgs a |}.
Definition withRatioArgs (args : RequestedToCapacityRatioArgs) (a : ConfigProducerArgs) : ConfigProducerArgs :=
  {| producer_Weight := producer_Weight a; producer_NodeLabelArgs := producer_NodeLabelArgs a;
     producer_RequestedToCapacityRatioArgs := Some args;
     producer_ServiceAffinityArgs := producer_ServiceAffinityArgs a;
     producer_NodeResourcesFitArgs := producer_NodeResourcesFitArgs a;
     producer_InterPodAffinityArgs := producer_InterPodAffinityArgs a |}.
Definition withWeight (weight : Z) (a : ConfigProducerArgs) : ConfigProducerArgs :=
  {| producer_Weight := weight; producer_NodeLabelArgs := producer_NodeLabelArgs a;
     producer_RequestedToCapacityRatioArgs := producer_RequestedToCapacityRatioArgs a;
     producer_ServiceAffinityArgs := producer_ServiceAffinityArgs a;
     producer_NodeResourcesFitArgs := producer_NodeResourcesFitArgs a;
     producer_InterPodAffinityArgs := producer_InterPodAffinityArgs a |}.
Definition withHardPodAffinityWeight (weight : Z) (a : ConfigProducerArgs) : ConfigProducerArgs :=
  {| producer_Weight := producer_Weight a; producer_NodeLabelArgs := producer_NodeLabelArgs a;
     producer_RequestedToCapacityRatioArgs := producer_RequestedToCapacityRatioArgs a;
     producer_ServiceAffinityArgs := producer_ServiceAffinityArgs a;
     producer_NodeResourcesFitArgs := producer_NodeResourcesFitArgs a; producer_InterPodAffinityArgs := Some weight |}.

Definition noServiceAffinity : ServiceAffinityArgs :=
  {| saa_AffinityLabels := []; saa_AntiAffinityLabelsPreference := [] |}.
Definition noNodeLabels : NodeLabelArgs :=
  {| PresentLabels := []; AbsentLabels := []; PresentLabelsPreference := []; AbsentLabelsPreference := [] |}.

Definition addAffinityLabels (labels : list string) (a : ConfigProducerArgs) : ConfigProducerArgs :=
  let args := default noServiceAffinity (producer_ServiceAffinityArgs a) in
  withServiceAffinityArgs {| saa_AffinityLabels := saa_AffinityLabels args ++ labels;
    saa_AntiAffinityLabelsPreference := saa_AntiAffinityLabelsPreference args |} a.

Definition addAntiAffinityLabel (label : string) (a : ConfigProducerArgs) : ConfigProducerArgs :=
  let args := default noServiceAffinity (producer_ServiceAffinityArgs a) in
  withServiceAffinityArgs {| saa_AffinityLabels := saa_AffinityLabels args;
    saa_AntiAffinityLabelsPreference := saa_AntiAffinityLabelsPreference args ++ [label] |} a.

Definition addLabelsPresence (p : LabelsPresence) (a : ConfigProducerArgs) : ConfigProducerArgs :=
  let args := default noNodeLabels (producer_NodeLabelArgs a) in
  withNodeLabelArgs
    {| PresentLabels := if lp_Presence p then PresentLabels args ++ lp_Labels p else PresentLabels args;
       AbsentLabels := if lp_Presence p then AbsentLabels args else AbsentLabels args ++ lp_Labels p;
       PresentLabelsPreference := PresentLabelsPreference args;
       AbsentLabelsPreference := AbsentLabelsPreference args |} a.

Definition addLabelPreference (p : LabelPreference) (a : ConfigProducerArgs) : ConfigProducerArgs :=
  let args := default noNodeLabels (producer_NodeLabelArgs a) in
  withNodeLabelArgs
    {| PresentLabels := PresentLabels args; AbsentLabels := AbsentLabels args;
       PresentLabelsPreference :=
         if pref_Presence p then PresentLabelsPreference args ++ [pref_Label p] else PresentLabelsPreference args;
       AbsentLabelsPreference :=
         if pref_Presence p then AbsentLabelsPreference args else AbsentLabelsPreference args ++ [pref_Label p] |} a.

Definition ProcessPredicatePolicy (lr : LegacyRegistry) (policy : PredicatePolicy) (pluginArgs : ConfigProducerArgs)
    : option (string * ConfigProducerArgs) :=
  if negb (validatePredicateOrDie policy) then None
  else
    let predicateName :=
      if decide (predicate_Name policy = "PodFitsPorts") then "PodFitsHostPorts" else predicate_Name policy in
    match PredicateToConfigProducer lr !! predicateName with
    | Some _ => Some (predicateName, pluginArgs)
    | None =>
        argument ← predicate_Argument policy;
        match arg_ServiceAffinity argument, arg_LabelsPresence argument with
        | None, None => None
        | affinity, presence =>
            let '(predicateName, pluginArgs) :=
              match affinity with
              | Some labels => ("CheckServiceAffinity", addAffinityLabels labels pluginArgs)
              | None => (predicateName, pluginArgs)
              end in
            Some (match presence with
                  | Some p => ("CheckNodeLabelPresence", addLabelsPresence p pluginArgs)
                  | None => (predicateName, pluginArgs)
                  end)
        end
    end.

Definition ProcessPriorityPolicy (lr : LegacyRegistry) (policy : PriorityPolicy) (configProducerArgs : ConfigProducerArgs)
    : option (string * ConfigProducerArgs) :=
  if negb (validatePriorityOrDie policy) then None
  else
    let priorityName :=
      if decide (priority_Name policy = "ServiceSpreadingPriority") then "SelectorSpreadPriority"
      else priority_Name policy in
    match PriorityToConfigProducer lr !! priorityName with
    | Some _ => Some (priorityName, configProducerArgs)
    | None =>
        argument ← priority_Argument policy;
        match arg_ServiceAntiAffinity argument, arg_RequestedToCapacityRatio argument, arg_LabelPreference argument with
        | None, None, None => None
        | antiAffinity, ratio, preference =>
            let '(priorityName, args) :=
              match antiAffinity with
              | Some label => (serviceaffinity_Name, addAntiAffinityLabel label configProducerArgs)
              | None => (priorityName, configProducerArgs)
              end in
            let '(priorityName, args) :=
              match preference with
              | Some p => (nodelabel_Name, addLabelPreference p args)
              | None => (priorityName, args)
              end in
            Some (match ratio with
                  | Some policyArgs => (RequestedToCapacityRatioName, withRatioArgs policyArgs args)
                  | None => (priorityName, args)
                  end)
        end
    end.

(** ** The algorithm providers (algorithmprovider/registry.go) *)
Definition unweighted (names : list string) : option PluginSet :=
  Some {| Enabled := (fun name => {| cfg_Name := name; cfg_Weight := 0 |}) <$> names; Disabled := [] |}.

Definition defaultScores (allocation : string) : list Plugin :=
  (fun '(name, weight) => {| cfg_Name := name; cfg_Weight := weight |}) <$>
  [(BalancedAllocationName, 1); (imagelocality_Name, 1); (interpodaffinity_Name, 1); (allocation, 1);
   (nodeaffinity_Name, 1); (podtopologyspread_Name, 2); (tainttoleration_Name, 1)].

Definition getDefaultConfig : Plugins :=
  {| at_QueueSort := unweighted [queuesort_Name];
     at_PreFilter := unweighted [FitName; nodeports_Name; podtopologyspread_Name; interpodaffinity_Name];
     at_Filter := unweighted [nodeunschedulable_Name; FitName; nodename_Name; nodeports_Name; nodeaffinity_Name;
                              volumerestrictions_Name; tainttoleration_Name; volumezone_Name;
                              podtopologyspread_Name; interpodaffinity_Name];
     at_PostFilter := unweighted [defaultpreemption_Name];
     at_PreScore := unweighted [interpodaffinity_Name; podtopologyspread_Name; tainttoleration_Name];
     at_Score := Some {| Enabled := defaultScores LeastAllocatedName; Disabled := [] |};
     at_Reserve := unweighted [];
     at_Permit := None;
     at_PreBind := unweighted [];
     at_Bind := unweighted [defaultbinder_Name];
     at_PostBind := None |}.

Definition replaceLeastAllocated (p : Plugin) : Plugin :=
  if decide (cfg_Name p = LeastAllocatedName)
  then {| cfg_Name := MostAllocatedName; cfg_Weight := cfg_Weight p |} else p.

Definition getClusterAutoscalerConfig : Plugins :=
  let caConfig := getDefaultConfig in
  withSets (at_PreFilter caConfig) (at_Filter caConfig) (at_PreScore caConfig)
    ((fun s => {| Enabled := replaceLeastAllocated <$> Enabled s; Disabled := Disabled s |}) <$> at_Score caConfig)
    caConfig.

Definition applyFeatureGates (config : Plugins) : Plugins :=
  addScoreOf 1 selectorspread_Name (addPreScore selectorspread_Name config).

Definition SchedulerDefaultProviderName : string := "DefaultProvider".
Definition ClusterAutoscalerProvider : string := "ClusterAutoscalerProvider".

Definition NewAlgorithmRegistry : gmap string Plugins :=
  {[SchedulerDefaultProviderName := applyFeatureGates getDefaultConfig;
    ClusterAutoscalerProvider := applyFeatureGates getClusterAutoscalerConfig]}.
