(* ===== verification/Setup.v ===== *)
(** * Building a framework (framework/runtime/framework.go, registry.go, profile/profile.go)

    A registry maps the names of plugins to factories.  [NewFramework] builds the plugins
    that the configuration needs, gives them their weights and puts them into the lists
    of their extension points; a profile is a framework with a name. *)
From S2P Require Import Prelude Api Framework PriorityQueue Binding Configuration.
Local Open Scope Z_scope.
Local Open Scope go_scope.

#[export] Instance result_ret {E} : MRet (result E) := fun A a => Ok a.
#[export] Instance result_bind {E} : MBind (result E) := fun A B k m =>
  match m with Ok a => k a | Err e => Err e | Panic => Panic end.

Section Setup.
Context `{StateData}.

Abbreviation LessFunc := (QueuedPodInfo -> QueuedPodInfo -> bool).

(** ** Plugins and their factories

    A plugin is known by the interfaces that its type implements: by its methods where
    they are functions of a cycle state, and otherwise by whether it implements them
    (Binding.v calls such plugins by their name). *)
Record QueueSortPlugin := { sortplugin_Name : string; Less : LessFunc }.

Record plugin := {
  plugin_Name : string;
  asQueueSort : option QueueSortPlugin;
  asPreFilter : option PreFilterPlugin;
  asFilter : option FilterPlugin;
  isPostFilter : bool;
  asPreScore : option PreScorePlugin;
  asScore : option ScorePlugin;
  isReserve : bool;
  isPermit : bool;
  isPreBind : bool;
  isBind : bool;
  isPostBind : bool
}.

Definition named (implements : plugin -> bool) (pl : plugin) : option string :=
  if implements pl then Some (plugin_Name pl) else None.

(** The handle is the framework under construction, which factories only keep. *)
Abbreviation PluginFactory := (option Object -> result string plugin).
Abbreviation Registry := (gmap string PluginFactory).

Definition Register (r : Registry) (name : string) (factory : PluginFactory) : result string Registry :=
  match r !! name with
  | Some _ => Err (String.concat "" ["a plugin named "; name; " already exists"])
  | None => Ok (<[name := factory]> r)
  end.

Definition Unregister (r : Registry) (name : string) : result string Registry :=
  match r !! name with
  | None => Err (String.concat "" ["no plugin named "; name; " exists"])
  | Some _ => Ok (delete name r)
  end.

Fixpoint registerAll (r : Registry) (factories : list (string * PluginFactory)) : result string Registry :=
  match factories with
  | [] => Ok r
  | (name, factory) :: factories => r ← Register r name factory; registerAll r factories
  end.
(** The order of the map matters for the name in the error only. *)
Definition MergeRegistry (r into : Registry) : result string Registry := registerAll r (map_to_list into).

(** ** NewFramework *)
Record framework := { fw_profile : profile; queueSortPlugins : list QueueSortPlugin }.

(** The sets of plugins in the order of the extension points. *)
Definition getExtensionPoints (plugins : Plugins) : list (option PluginSet) :=
  [at_PreFilter plugins; at_Filter plugins; at_PostFilter plugins; at_Reserve plugins; at_PreScore plugins;
   at_Score plugins; at_PreBind plugins; at_Bind plugins; at_PostBind plugins; at_Permit plugins; at_QueueSort plugins].

Definition enabledAt (set : option PluginSet) : list Plugin := Enabled (default noPlugins set).

(** Of a plugin at several extension points the last entry stays. *)
Definition pluginsNeeded (plugins : Plugins) : gmap string Plugin :=
  foldl (fun pgMap pg => <[cfg_Name pg := pg]> pgMap) ∅ (getExtensionPoints plugins ≫= enabledAt).

Fixpoint collectConfig (pluginConfig : gmap string (option Object)) (args : list PluginConfig)
    : result string (gmap string (option Object)) :=
  match args with
  | [] => Ok pluginConfig
  | arg :: args =>
      match pluginConfig !! pc_Name arg with
      | Some _ => Err (String.append "repeated config for plugin " (pc_Name arg))
      | None => collectConfig (<[pc_Name arg := pc_Args arg]> pluginConfig) args
      end
  end.

(** [configDecoder.Decode] for the default arguments of a plugin by the scheme; a kind that is not
    registered has none. *)
Context (decodeDefault : string -> result string (option Object)).

Definition getPluginArgsOrDefault (pluginConfig : gmap string (option Object)) (name : string)
    : result string (option Object) :=
  match pluginConfig !! name with
  | Some res => Ok res
  | None => decodeDefault (String.append name "Args")
  end.

(** The plugins that were built, their weights and the total of the weights. *)
Record initialized := {
  pluginsMap : gmap string plugin;
  weights : gmap string Z;
  totalPriority : Z
}.

Definition initPlugin (pg : gmap string Plugin) (pluginConfig : gmap string (option Object)) (s : initialized)
    (name : string) (factory : PluginFactory) : result string initialized :=
  match pg !! name with
  | None => Ok s
  | Some configured =>
      args ← match getPluginArgsOrDefault pluginConfig name with
             | Err err => Err (String.concat "" ["getting args for Plugin "; quoted name; ": "; err])
             | r => r
             end;
      p ← match factory args with
          | Err err => Err (String.concat "" ["error initializing plugin "; quoted name; ": "; err])
          | r => r
          end;
      let weight := if decide (cfg_Weight configured = 0) then 1 else cfg_Weight configured in
      if MaxTotalScore -₆₄ totalPriority s <? weight *₆₄ MaxNodeScore then
        Err "total score of Score plugins could overflow"
      else Ok {| pluginsMap := <[name := p]> (pluginsMap s); weights := <[name := weight]> (weights s);
                 totalPriority := totalPriority s +₆₄ (weight *₆₄ MaxNodeScore) |}
  end.

Fixpoint initPlugins (pg : gmap string Plugin) (pluginConfig : gmap string (option Object)) (s : initialized)
    (factories : list (string * PluginFactory)) : result string initialized :=
  match factories with
  | [] => Ok s
  | (name, factory) :: factories => s ← initPlugin pg pluginConfig s name factory; initPlugins pg pluginConfig s factories
  end.

Fixpoint updateLoop {A} (pluginType : string) (implements : plugin -> option A) (pluginsMap : gmap string plugin)
    (seen : gset string) (enabled : list Plugin) : result string (list A) :=
  match enabled with
  | [] => Ok []
  | ep :: enabled =>
      match pluginsMap !! cfg_Name ep with
      | None => Err (String.concat "" [pluginType; " "; quoted (cfg_Name ep); " does not exist"])
      | Some pg =>
          match implements pg with
          | None => Err (String.concat "" ["plugin "; quoted (cfg_Name ep); " does not extend "; pluginType; " plugin"])
          | Some pl =>
              if decide (cfg_Name ep ∈ seen) then
                Err (String.concat "" ["plugin "; quoted (cfg_Name ep); " already registered as "; quoted pluginType])
              else
                plugins ← updateLoop pluginType implements pluginsMap ({[cfg_Name ep]} ∪ seen) enabled;
                mret (pl :: plugins)
          end
      end
  end.
Definition updatePluginList {A} (pluginType : string) (implements : plugin -> option A) (pluginSet : option PluginSet)
    (pluginsMap : gmap string plugin) : result string (list A) :=
  updateLoop pluginType implements pluginsMap ∅ (enabledAt pluginSet).

(** The lists of all extension points. *)
Definition updatePluginLists (plugins : Plugins) (profileName : string) (all : bool) (s : initialized)
    : result string framework :=
  let pm := pluginsMap s in
  preFilter ← updatePluginList "PreFilterPlugin" asPreFilter (at_PreFilter plugins) pm;
  filter ← updatePluginList "FilterPlugin" asFilter (at_Filter plugins) pm;
  postFilter ← updatePluginList "PostFilterPlugin" (named isPostFilter) (at_PostFilter plugins) pm;
  reserve ← updatePluginList "ReservePlugin" (named isReserve) (at_Reserve plugins) pm;
  preScore ← updatePluginList "PreScorePlugin" asPreScore (at_PreScore plugins) pm;
  score ← updatePluginList "ScorePlugin" asScore (at_Score plugins) pm;
  preBind ← updatePluginList "PreBindPlugin" (named isPreBind) (at_PreBind plugins) pm;
  bind ← updatePluginList "BindPlugin" (named isBind) (at_Bind plugins) pm;
  postBind ← updatePluginList "PostBindPlugin" (named isPostBind) (at_PostBind plugins) pm;
  permit ← updatePluginList "PermitPlugin" (named isPermit) (at_Permit plugins) pm;
  queueSort ← updatePluginList "QueueSortPlugin" asQueueSort (at_QueueSort plugins) pm;
  mret {| fw_profile :=
            {| prof_Name := profileName;
               prof_Framework := {| preFilterPlugins := preFilter; filterPlugins := filter; preScorePlugins := preScore;
                                    scorePlugins := score; pluginNameToWeightMap := weights s; runAllFilters := all |};
               postFilterPlugins := postFilter; reservePlugins := reserve; permitPlugins := permit;
               preBindPlugins := preBind; bindPlugins := bind; postBindPlugins := postBind |};
          queueSortPlugins := queueSort |}.

(** The name of a score plugin without a weight. *)
Definition unweightedScore (f : framework) : option string :=
  let impl := prof_Framework (fw_profile f) in
  scoreplugin_Name <$>
    find (fun pl => default 0 (pluginNameToWeightMap impl !! scoreplugin_Name pl) =? 0) (scorePlugins impl).

Definition checkFramework (f : framework) : result string framework :=
  match unweightedScore f with
  | Some name => Err (String.concat "" ["score plugin "; quoted name; " is not configured with weight"])
  | None =>
      match queueSortPlugins f with
      | [] => Err "no queue sort plugin is enabled"
      | _ :: _ :: _ => Err "only one queue sort plugin can be enabled"
      | [_] =>
          match bindPlugins (fw_profile f) with
          | [] => Err "at least one bind plugin is needed"
          | _ => Ok f
          end
      end
  end.

Definition emptyFramework (profileName : string) (all : bool) : framework :=
  {| fw_profile := {| prof_Name := profileName;
       prof_Framework := {| preFilterPlugins := []; filterPlugins := []; preScorePlugins := []; scorePlugins := [];
                            pluginNameToWeightMap := ∅; runAllFilters := all |};
       postFilterPlugins := []; reservePlugins := []; permitPlugins := []; preBindPlugins := []; bindPlugins := [];
       postBindPlugins := [] |};
     queueSortPlugins := [] |}.

(** The order in which Go iterates over a registry. *)
Context (registryOrder : Registry -> list (string * PluginFactory)).

Definition NewFramework (r : Registry) (plugins : option Plugins) (args : list PluginConfig) (profileName : string)
    (all : bool) : result string framework :=
  match plugins with
  | None => Ok (emptyFramework profileName all)
  | Some plugins =>
      let pg := pluginsNeeded plugins in
      pluginConfig ← collectConfig ∅ args;
      s ← initPlugins pg pluginConfig {| pluginsMap := ∅; weights := ∅; totalPriority := 0 |} (registryOrder r);
      f ← updatePluginLists plugins profileName all s;
      checkFramework f
  end.

(** The plugin that sorts the queue; a panic if there is none. *)
Definition QueueSortFunc (f : framework) : result string LessFunc :=
  match queueSortPlugins f with [] => Panic | pl :: _ => Ok (Less pl) end.

(** ** Profiles (profile/profile.go) *)
Abbreviation FrameworkFactory := (KubeSchedulerProfile -> string -> result string framework).

Definition NewProfile (cfg : KubeSchedulerProfile) (frameworkFact : FrameworkFactory) : result string framework :=
  frameworkFact cfg (profile_SchedulerName cfg).

(** The queue sort plugin of the first profile with its arguments; the name is empty before. *)
Record cfgValidator := { v_queueSort : string; v_queueSortArgs : option Object }.

Definition argsFor (name : string) (config : list PluginConfig) : option Object :=
  foldl (fun args plCfg => if decide (pc_Name plCfg = name) then pc_Args plCfg else args) None config.

Definition validateProfile {P} (m : gmap string P) (v : cfgValidator) (cfg : KubeSchedulerProfile)
    : result string cfgValidator :=
  let name := profile_SchedulerName cfg in
  if decide (name = "") then Err "scheduler name is needed"
  else
    match profile_Plugins cfg with
    | None => Err (String.append "plugins required for profile with scheduler name " (quoted name))
    | Some plugins =>
        if m !! name is Some _ then Err (String.append "duplicate profile with scheduler name " (quoted name))
        else
          match enabledAt (at_QueueSort plugins) with
          | [queueSort] =>
              let queueSort := cfg_Name queueSort in
              let queueSortArgs := argsFor queueSort (profile_PluginConfig cfg) in
              if decide (v_queueSort v = "") then Ok {| v_queueSort := queueSort; v_queueSortArgs := queueSortArgs |}
              else if decide (v_queueSort v <> queueSort) then
                Err (String.concat "" ["different queue sort plugins for profile "; quoted name; ": ";
                       quoted queueSort; ", first: "; quoted (v_queueSort v)])
              else if decide (v_queueSortArgs v <> queueSortArgs) then
                Err (String.append "different queue sort plugin args for profile " (quoted name))
              else Ok v
          | _ => Err (String.append "one queue sort plugin required for profile with scheduler name " (quoted name))
          end
    end.

Fixpoint newMapLoop (frameworkFact : FrameworkFactory) (m : gmap string framework) (v : cfgValidator)
    (cfgs : list KubeSchedulerProfile) : result string (gmap string framework) :=
  match cfgs with
  | [] => Ok m
  | cfg :: cfgs =>
      v ← validateProfile m v cfg;
      p ← match NewProfile cfg frameworkFact with
          | Err err => Err (String.concat "" ["creating profile for scheduler name "; profile_SchedulerName cfg; ": "; err])
          | r => r
          end;
      newMapLoop frameworkFact (<[profile_SchedulerName cfg := p]> m) v cfgs
  end.

Definition NewMap (cfgs : list KubeSchedulerProfile) (frameworkFact : FrameworkFactory) : result string (gmap string framework) :=
  newMapLoop frameworkFact ∅ {| v_queueSort := ""; v_queueSortArgs := None |} cfgs.

Definition HandlesSchedulerName {P} (m : gmap string P) (name : string) : bool := bool_decide (is_Some (m !! name)).

(** ** What a framework is made of *)
Definition ListPlugins (f : framework) : gmap string (list Plugin) :=
  let p := fw_profile f in
  let impl := prof_Framework p in
  let unweighted names := (fun name => {| cfg_Name := name; cfg_Weight := 0 |}) <$> names in
  let weightOf name := wrap32 (default 0 (pluginNameToWeightMap impl !! name)) in
  filter (fun e => e.2 <> []) (list_to_map (M := gmap string (list Plugin)) [
    ("PreFilterPlugin", unweighted (prefilter_Name <$> preFilterPlugins impl));
    ("FilterPlugin", unweighted (filter_Name <$> filterPlugins impl));
    ("PostFilterPlugin", unweighted (postFilterPlugins p));
    ("ReservePlugin", unweighted (reservePlugins p));
    ("PreScorePlugin", unweighted (prescore_Name <$> preScorePlugins impl));
    ("ScorePlugin", (fun name => {| cfg_Name := name; cfg_Weight := weightOf name |}) <$>
                      (scoreplugin_Name <$> scorePlugins impl));
    ("PreBindPlugin", unweighted (preBindPlugins p));
    ("BindPlugin", unweighted (bindPlugins p));
    ("PostBindPlugin", unweighted (postBindPlugins p));
    ("PermitPlugin", unweighted (permitPlugins p));
    ("QueueSortPlugin", unweighted (sortplugin_Name <$> queueSortPlugins f))]).
End Setup.
#[global] Arguments pluginsNeeded : simpl never.
