(* ===== verification/InTree.v ===== *)
(** * The plugins of the tree and their factories (plugins/registry.go and the New of every plugin)

    The registry maps the names of the plugins to their factories, which check the type
    of the arguments and validate them.  A plugin reads the snapshot through its handle:
    the registry is built over the contents of one snapshot. *)
From S2P Require Import Prelude Api NodeInfo NodeTree Framework PriorityQueue Float64 PluginData NodeResources NodePlugins.
From S2P Require Import SelectorSpread PodTopologySpread TopologySpreadScore InterPodAffinity InterPodAffinityScore.
From S2P Require Import Goroutine Binding Configuration LegacyRegistry Setup.
Local Open Scope Z_scope.

Section InTree.
Context `{LabelsLib, SelectorLib, MathLib, ZoneKey, PodPriority}.

(** The snapshot: [Get], [List] and [HavePodsWithAffinityList], of which the last two never fail. *)
Context (nodeInfos : NodeInfoLister) (allNodes havePodsWithAffinityNodes : list NodeInfo).
(** The informers. *)
Context (listers : spreadListers).
(** Orders of maps and of parallel work; the selector [labels.Everything()]; the text of a parse error. *)
Context (scalarOrder : gmap string Z -> list (string * Z))
  (addOrder : list (topologyPair * Z) -> list (topologyPair * Z))
  (pairOrder : topologyToMatchedTermCount -> list (topologyPair * Z))
  (finishOrder : forall A, list A -> list A)
  (Everything : Selector) (parseErrorText : Pod -> ParseErrorKind -> string).
(** What a method returns that panics: nothing sees it, and nothing is known about it. *)
Context (crashed : Status).

(** ** Methods that may panic as methods of a plugin *)
Definition orCrash {A} (rest : A) (r : option (Status * A)) : Status * A := default (crashed, rest) r.

Definition scorePluginOf (m : ScoreMethods) : ScorePlugin :=
  {| scoreplugin_Name := sm_Name m;
     ScoreNode state pod nodeName := default (0, crashed) (sm_Score m state pod nodeName);
     NormalizeScore := (fun normalize state pod scores => orCrash scores (normalize state pod scores)) <$> sm_NormalizeScore m |}.

Definition SpreadPreFilterPlugin (pl : PodTopologySpread) : PreFilterPlugin :=
  {| prefilter_Name := podtopologyspread_Name;
     PreFilter state pod := orCrash state (SpreadPreFilter addOrder pairOrder pl allNodes state pod);
     Extensions := Some {| ext_AddPod state pod other nodeInfo := orCrash state (SpreadAddPod state pod other nodeInfo);
                           ext_RemovePod state pod other nodeInfo := orCrash state (SpreadRemovePod state pod other nodeInfo) |} |}.

Definition AffinityPreFilterPlugin : PreFilterPlugin :=
  {| prefilter_Name := interpodaffinity_Name;
     PreFilter := AffinityPreFilter finishOrder parseErrorText allNodes havePodsWithAffinityNodes;
     Extensions := Some {| ext_AddPod state pod other nodeInfo := orCrash state (AffinityAddPod state pod other nodeInfo);
                           ext_RemovePod state pod other nodeInfo := orCrash state (AffinityRemovePod state pod other nodeInfo) |} |}.

Definition ServiceFilterPlugin (pl : ServiceAffinity) : FilterPlugin :=
  {| filter_Name := serviceaffinity_Name;
     Filter state pod nodeInfo := default crashed (ServiceFilter Everything pl nodeInfos state pod nodeInfo) |}.

(** ** Plugins by the interfaces of their types *)
Definition plainPlugin (name : string) : plugin :=
  {| plugin_Name := name; asQueueSort := None; asPreFilter := None; asFilter := None; isPostFilter := false;
     asPreScore := None; asScore := None; isReserve := false; isPermit := false; isPreBind := false; isBind := false;
     isPostBind := false |}.

Definition nodePlugin (name : string) (preFilter : option PreFilterPlugin) (filter : option FilterPlugin)
    (preScore : option PreScorePlugin) (score : option ScoreMethods) : plugin :=
  {| plugin_Name := name; asQueueSort := None; asPreFilter := preFilter; asFilter := filter; isPostFilter := false;
     asPreScore := preScore; asScore := scorePluginOf <$> score; isReserve := false; isPermit := false;
     isPreBind := false; isBind := false; isPostBind := false |}.

Definition prioritySort : plugin :=
  {| plugin_Name := queuesort_Name;
     asQueueSort := Some {| sortplugin_Name := queuesort_Name; Less := PrioritySort_Less |};
     asPreFilter := None; asFilter := None; isPostFilter := false; asPreScore := None; asScore := None;
     isReserve := false; isPermit := false; isPreBind := false; isBind := false; isPostBind := false |}.

Definition defaultPreemption : plugin :=
  {| plugin_Name := defaultpreemption_Name; asQueueSort := None; asPreFilter := None; asFilter := None;
     isPostFilter := true; asPreScore := None; asScore := None; isReserve := false; isPermit := false;
     isPreBind := false; isBind := false; isPostBind := false |}.

Definition defaultBinder : plugin :=
  {| plugin_Name := defaultbinder_Name; asQueueSort := None; asPreFilter := None; asFilter := None;
     isPostFilter := false; asPreScore := None; asScore := None; isReserve := false; isPermit := false;
     isPreBind := false; isBind := true; isPostBind := false |}.

(** ** Factories *)
(** [%T] of the arguments. *)
Definition typeName (obj : option Object) : string :=
  match obj with
  | None => "<nil>"
  | Some (InterPodAffinityArgs _) => "*config.InterPodAffinityArgs"
  | Some (NodeLabelObject _) => "*config.NodeLabelArgs"
  | Some (NodeResourcesFitObject _) => "*config.NodeResourcesFitArgs"
  | Some (PodTopologySpreadArgs _) => "*config.PodTopologySpreadArgs"
  | Some (RequestedToCapacityRatioObject _) => "*config.RequestedToCapacityRatioArgs"
  | Some (NodeResourcesLeastAllocatedArgs _) => "*config.NodeResourcesLeastAllocatedArgs"
  | Some (NodeResourcesMostAllocatedArgs _) => "*config.NodeResourcesMostAllocatedArgs"
  | Some (ServiceAffinityObject _) => "*config.ServiceAffinityArgs"
  | Some (OtherObject name) => name
  end.

Definition wantArgs {A} (type : string) (obj : option Object) : result string A :=
  Err (String.concat "" ["want args to be of type "; type; ", got "; typeName obj]).

Definition constant (pl : plugin) (_ : option Object) : result string plugin := Ok pl.

Definition NewSelectorSpread : option Object -> result string plugin :=
  constant (nodePlugin selectorspread_Name None None (Some (SelectorPreScore listers)) (Some (SelectorScore nodeInfos))).
Definition NewImageLocality : option Object -> result string plugin :=
  constant (nodePlugin imagelocality_Name None None None (Some (ImageScore nodeInfos (inr allNodes)))).
Definition NewTaintToleration : option Object -> result string plugin :=
  constant (nodePlugin tainttoleration_Name None (Some TaintFilter) (Some TaintPreScore) (Some (TaintScore nodeInfos))).
Definition NewNodeName : option Object -> result string plugin :=
  constant (nodePlugin nodename_Name None (Some NodeNameFilter) None None).
Definition NewNodePorts : option Object -> result string plugin :=
  constant (nodePlugin nodeports_Name (Some PortsPreFilter) (Some PortsFilter) None None).
Definition NewNodeAffinity : option Object -> result string plugin :=
  constant (nodePlugin nodeaffinity_Name None (Some NodeAffinityFilter) None (Some (NodeAffinityScore nodeInfos))).
Definition NewNodeUnschedulable : option Object -> result string plugin :=
  constant (nodePlugin nodeunschedulable_Name None (Some NodeUnschedulableFilter) None None).
Definition NewVolumeRestrictions : option Object -> result string plugin :=
  constant (nodePlugin volumerestrictions_Name None (Some VolumeRestrictionsFilter) None None).
Definition NewVolumeZone : option Object -> result string plugin :=
  constant (nodePlugin volumezone_Name None (Some VolumeZoneFilter) None None).
Definition NewBalancedAllocation : option Object -> result string plugin :=
  constant (nodePlugin BalancedAllocationName None None None
    (Some (AllocationScore BalancedAllocationName balancedResourceScorer defaultRequestedRatioResources nodeInfos))).

Definition NewPodTopologySpreadPlugin (obj : option Object) : result string plugin :=
  match obj with
  | Some (PodTopologySpreadArgs defaults) =>
      match NewPodTopologySpread defaults listers with
      | inl errs => Err (String.concat ", " errs)
      | inr pl =>
          Ok (nodePlugin podtopologyspread_Name (Some (SpreadPreFilterPlugin pl)) (Some SpreadFilter)
                (Some (SpreadPreScore addOrder pl (inr allNodes))) (Some (SpreadScore nodeInfos)))
      end
  | _ => wantArgs "PodTopologySpreadArgs" obj
  end.

(** The plugin InterPodAffinity with its argument. *)
Definition NewInterPodAffinity (obj : option Object) : result string plugin :=
  match obj with
  | Some (InterPodAffinityArgs hardPodAffinityWeight) =>
      match ValidateHardPodAffinityWeight hardPodAffinityWeight with
      | Some err => Err err
      | None =>
          Ok (nodePlugin interpodaffinity_Name (Some AffinityPreFilterPlugin) (Some AffinityFilter)
                (Some (AffinityPreScore hardPodAffinityWeight (finishOrder scoreMap) parseErrorText
                         (inr allNodes) (inr havePodsWithAffinityNodes)))
                (Some (AffinityScore nodeInfos)))
      end
  | _ => wantArgs "InterPodAffinityArgs" obj
  end.

(** The groups that hold a slash. *)
Definition validateFitArgs (args : NodeResourcesFitArgs) : list string :=
  filter (fun group => beforeSlash group <> group) (IgnoredResourceGroups args).

Definition NewFit (obj : option Object) : result string plugin :=
  match obj with
  | Some (NodeResourcesFitObject args) =>
      match validateFitArgs args with
      | _ :: _ => Err "resource group name can't contain '/'"
      | [] =>
          Ok (nodePlugin FitName (Some FitPreFilter)
                (Some (FitFilter scalarOrder (list_to_set (IgnoredResources args))
                         (list_to_set (IgnoredResourceGroups args))))
                None None)
      end
  | _ => wantArgs "NodeResourcesFitArgs" obj
  end.

Definition allocationPlugin (score : ScoreMethods) : plugin := nodePlugin (sm_Name score) None None None (Some score).

Definition NewLeastAllocatedPlugin (obj : option Object) : result string plugin :=
  match obj with
  | Some (NodeResourcesLeastAllocatedArgs resources) =>
      match NewLeastAllocated resources with
      | inl err => Err err
      | inr (r, weights) => Ok (allocationPlugin (AllocationScore LeastAllocatedName r weights nodeInfos))
      end
  | _ => wantArgs "NodeResourcesLeastAllocatedArgs" obj
  end.

(** The error prints the type of the variable that the assertion left nil. *)
Definition NewMostAllocatedPlugin (obj : option Object) : result string plugin :=
  match obj with
  | Some (NodeResourcesMostAllocatedArgs resources) =>
      match NewMostAllocated resources with
      | inl err => Err err
      | inr (r, weights) => Ok (allocationPlugin (MostAllocatedMethods r weights nodeInfos))
      end
  | _ => wantArgs "NodeResourcesMostAllocatedArgs" (Some (NodeResourcesMostAllocatedArgs []))
  end.

Definition NewRequestedToCapacityRatioPlugin (obj : option Object) : result string plugin :=
  match obj with
  | Some (RequestedToCapacityRatioObject args) =>
      match NewRequestedToCapacityRatio (Shape args) (RatioResources args) with
      | inl err => Err err
      | inr (r, weights) => Ok (allocationPlugin (AllocationScore RequestedToCapacityRatioName r weights nodeInfos))
      end
  | _ => wantArgs "RequestedToCapacityRatioArgs" obj
  end.

Definition NewNodeLabel (obj : option Object) : result string plugin :=
  match obj with
  | Some (NodeLabelObject args) =>
      match ValidateNodeLabelArgs args with
      | Some err => Err err
      | None => Ok (nodePlugin nodelabel_Name None (Some (LabelFilter args)) None (Some (LabelScore args nodeInfos)))
      end
  | _ => wantArgs "NodeLabelArgs" obj
  end.

Definition NewServiceAffinity (obj : option Object) : result string plugin :=
  match obj with
  | Some (ServiceAffinityObject args) =>
      let pl := {| AffinityLabels := saa_AffinityLabels args;
                   AntiAffinityLabelsPreference := saa_AntiAffinityLabelsPreference args; serviceLister := listers |} in
      Ok (nodePlugin serviceaffinity_Name (Some (ServicePlugin Everything pl (inr allNodes)))
            (Some (ServiceFilterPlugin pl)) None (Some (ServiceScore pl nodeInfos)))
  | _ => wantArgs "ServiceAffinityArgs" obj
  end.

(** ** The registry *)
Definition inTreeFactories : list (string * (option Object -> result string plugin)) := [
  (selectorspread_Name, NewSelectorSpread);
  (imagelocality_Name, NewImageLocality);
  (tainttoleration_Name, NewTaintToleration);
  (nodename_Name, NewNodeName);
  (nodeports_Name, NewNodePorts);
  (nodeaffinity_Name, NewNodeAffinity);
  (podtopologyspread_Name, NewPodTopologySpreadPlugin);
  (nodeunschedulable_Name, NewNodeUnschedulable);
  (FitName, NewFit);
  (BalancedAllocationName, NewBalancedAllocation);
  (MostAllocatedName, NewMostAllocatedPlugin);
  (LeastAllocatedName, NewLeastAllocatedPlugin);
  (RequestedToCapacityRatioName, NewRequestedToCapacityRatioPlugin);
  (volumerestrictions_Name, NewVolumeRestrictions);
  (volumezone_Name, NewVolumeZone);
  (interpodaffinity_Name, NewInterPodAffinity);
  (nodelabel_Name, NewNodeLabel);
  (serviceaffinity_Name, NewServiceAffinity);
  (queuesort_Name, constant prioritySort);
  (defaultbinder_Name, constant defaultBinder);
  (defaultpreemption_Name, constant defaultPreemption)].

Definition NewInTreeRegistry : gmap string (option Object -> result string plugin) := list_to_map inTreeFactories.
End InTree.

(** ** The default binder (defaultbinder/default_binder.go)

    It binds a pod by one call of the API server, which is a function here. *)
(** [v1.Binding] *)
Record BindingObject := {
  binding_Namespace : string;
  binding_Name : string;
  binding_UID : string;
  Target_Kind : string;
  Target_Name : string
}.

Section DefaultBinder.
Context `{StateData}.

(** [Pods(namespace).Bind]: the text of the error, if any. *)
Context (PodsBind : string -> BindingObject -> option string).

Definition bindingOf (p : Pod) (nodeName : string) : BindingObject :=
  {| binding_Namespace := pod_Namespace p; binding_Name := pod_Name p; binding_UID := pod_UID p;
     Target_Kind := "Node"; Target_Name := nodeName |}.

Definition Bind (p : Pod) (nodeName : string) : Status :=
  let binding := bindingOf p nodeName in
  match PodsBind (binding_Namespace binding) binding with
  | Some err => NewStatus Error [err]
  | None => None
  end.

(** ** In the loop over the bind plugins *)

(** The runs in which every call of the default binder answers what [Bind] answers. *)
Fixpoint bindRuns {A} (t : go call A) (a : A) : Prop :=
  match t with
  | Return b => a = b
  | Call c k => exists x, bindRuns (k x) a /\
      match c in call X return X -> Prop with
      | BindCall pl pod nodeName => fun status => pl = defaultbinder_Name -> status = Bind pod nodeName
      | _ => fun _ => True
      end x
  | Fork child k => bindRuns k a
  | Crash => False
  end.

(** With the default binder as the only bind plugin, a pod is bound exactly when the API server
    reports no error; otherwise the status is an error that has the text of the API server in it. *)
Theorem default_binder_binds_or_fails f pod nodeName status : bindPlugins f = [defaultbinder_Name] ->
  bindRuns (RunBindPlugins f pod nodeName) status <->
  status = match PodsBind (pod_Namespace pod) (bindingOf pod nodeName) with
           | None => None
           | Some err => NewStatus Error [text ["plugin "; quoted defaultbinder_Name; " failed to bind pod ";
                           quoted (text [pod_Namespace pod; "/"; pod_Name pod]); ": "; err]]
           end.
Proof.
  intros Hf. unfold RunBindPlugins. rewrite Hf. cbn [bindLoop]. unfold invoke. cbn [mbind go_bind bindRuns].
  assert (Hbind : Bind pod nodeName = match PodsBind (pod_Namespace pod) (bindingOf pod nodeName) with
    | None => None | Some err => NewStatus Error [err] end) by reflexivity.
  destruct (PodsBind _ _) as [err|]; split.
  - intros (x&Hrun&Hx). rewrite (Hx eq_refl), Hbind in Hrun. exact Hrun.
  - intros ->. exists (Bind pod nodeName). split; [by rewrite Hbind|done].
  - intros (x&Hrun&Hx). rewrite (Hx eq_refl), Hbind in Hrun. exact Hrun.
  - intros ->. exists (Bind pod nodeName). split; [by rewrite Hbind|done].
Qed.
End DefaultBinder.
