(* ===== verification/Factory.v ===== *)
(** * Creating a scheduler from its configuration (factory.go, scheduler.go New)

    From an algorithm provider or a policy to the extenders, the profiles with their
    frameworks and the initial state of the scheduler. *)
From S2P Require Import Prelude Api NodeInfo Framework Nominator PriorityQueue Cache Snapshot GenericScheduler WaitingPods.
From S2P Require Import Binding Scheduler EventHandlers NodeResources Configuration LegacyRegistry Setup.
Local Open Scope Z_scope.
Local Open Scope go_scope.

Section Factory.
Context `{StateData}.

(** ** The configurator *)
Abbreviation PluginFactory := (option Object -> result string plugin).
Abbreviation Registry := (gmap string PluginFactory).

Record Configurator := {
  alwaysCheckAllPredicates : bool;
  c_percentageOfNodesToScore : Z;
  podInitialBackoffSeconds : Z;
  podMaxBackoffSeconds : Z;
  c_profiles : list KubeSchedulerProfile;
  c_registry : Registry;
  c_extenders : list ExtenderConfig
}.

Definition withProfiles (profiles : list KubeSchedulerProfile) (c : Configurator) : Configurator :=
  {| alwaysCheckAllPredicates := alwaysCheckAllPredicates c; c_percentageOfNodesToScore := c_percentageOfNodesToScore c;
     podInitialBackoffSeconds := podInitialBackoffSeconds c; podMaxBackoffSeconds := podMaxBackoffSeconds c;
     c_profiles := profiles; c_registry := c_registry c; c_extenders := c_extenders c |}.
Definition withAllPredicates (all : bool) (c : Configurator) : Configurator :=
  {| alwaysCheckAllPredicates := all; c_percentageOfNodesToScore := c_percentageOfNodesToScore c;
     podInitialBackoffSeconds := podInitialBackoffSeconds c; podMaxBackoffSeconds := podMaxBackoffSeconds c;
     c_profiles := c_profiles c; c_registry := c_registry c; c_extenders := c_extenders c |}.

(** A scheduler: the arguments of its loop and its initial state. *)
Record created := {
  created_Profiles : gmap string framework;
  lessFn : QueuedPodInfo -> QueuedPodInfo -> bool;
  initialBackoff : Z;
  maxBackoff : Z;
  created_extenders : list Extender;
  created_percentage : Z
}.

(** The default arguments of the scheme, the order of a registry, and the construction of an
    extender. *)
Context (decodeDefault : string -> result string (option Object))
  (registryOrder : Registry -> list (string * PluginFactory))
  (NewHTTPExtender : ExtenderConfig -> result string Extender).

Definition buildFramework (c : Configurator) (p : KubeSchedulerProfile) (profileName : string) : result string framework :=
  NewFramework decodeDefault registryOrder (c_registry c) (profile_Plugins p) (profile_PluginConfig p) profileName
    (alwaysCheckAllPredicates c).

(** The extenders that are not ignorable, the others, and the resources that the scheduler ignores. *)
Fixpoint newExtenders (configs : list ExtenderConfig) : result string (list Extender * list Extender * list string) :=
  match configs with
  | [] => Ok ([], [], [])
  | config :: configs =>
      extender ← NewHTTPExtender config;
      '(extenders, ignorableExtenders, ignored) ← newExtenders configs;
      let ignoredHere := mr_Name <$> filter (fun r => IgnoredByScheduler r = true) (ManagedResources config) in
      mret (if IsIgnorable extender then (extenders, extender :: ignorableExtenders, ignoredHere ++ ignored)
            else (extender :: extenders, ignorableExtenders, ignoredHere ++ ignored))
  end.

Definition addIgnoredResources (ignored : list string) (prof : KubeSchedulerProfile) : KubeSchedulerProfile :=
  {| profile_SchedulerName := profile_SchedulerName prof; profile_Plugins := profile_Plugins prof;
     profile_PluginConfig := profile_PluginConfig prof ++
       [{| pc_Name := FitName;
           pc_Args := Some (NodeResourcesFitObject {| IgnoredResources := ignored; IgnoredResourceGroups := [] |}) |}] |}.

Definition second : Z := 1000000000.

(** [create]; the first profile is looked up by its name, which it has when the map is not empty. *)
Definition create (c : Configurator) : result string created :=
  '(extenders, ignorableExtenders, ignored) ← newExtenders (c_extenders c);
  let profiles := match ignored with [] => c_profiles c | _ => addIgnoredResources ignored <$> c_profiles c end in
  m ← match NewMap profiles (buildFramework c) with
      | Err err => Err (String.append "initializing profiles: " err)
      | r => r
      end;
  match profiles with
  | [] => Err "at least one profile is required"
  | first :: _ =>
      match m !! profile_SchedulerName first with
      | None => Panic
      | Some f =>
          less ← QueueSortFunc f;
          mret {| created_Profiles := m; lessFn := less;
                  initialBackoff := podInitialBackoffSeconds c *₆₄ second;
                  maxBackoff := podMaxBackoffSeconds c *₆₄ second;
                  created_extenders := extenders ++ ignorableExtenders;
                  created_percentage := c_percentageOfNodesToScore c |}
      end
  end.

(** The initial state of the goroutines; [ttl] and the generation are those of the cache. *)
Definition startedSystem (ttl g0 : Z) (s : created) : system := newSystem ttl g0 (created_extenders s) (created_percentage s).

(** ** From an algorithm provider *)
Definition applyProvider (defaultPlugins : Plugins) (prof : KubeSchedulerProfile) : KubeSchedulerProfile :=
  {| profile_SchedulerName := profile_SchedulerName prof;
     profile_Plugins := Some (Apply (Append emptyPlugins (Some defaultPlugins)) (profile_Plugins prof));
     profile_PluginConfig := profile_PluginConfig prof |}.

Definition createFromProvider (c : Configurator) (providerName : string) : result string created :=
  match NewAlgorithmRegistry !! providerName with
  | None => Err (String.concat "" ["algorithm provider "; quoted providerName; " is not registered"])
  | Some defaultPlugins => create (withProfiles (applyProvider defaultPlugins <$> c_profiles c) c)
  end.

(** ** From a policy *)

(** The plugins of the producers of [keys], in their order. *)
Fixpoint produceAll (producers : gmap string ConfigProducer) (missing : string -> string)
    (keys : list (string * ConfigProducerArgs)) (s : Plugins * list PluginConfig)
    : result string (Plugins * list PluginConfig) :=
  match keys with
  | [] => Ok s
  | (key, args) :: keys =>
      match producers !! key with
      | None => Err (missing key)
      | Some producer =>
          match producer args with
          | None => Panic
          | Some (pl, plc) => produceAll producers missing keys (Append s.1 (Some pl), s.2 ++ plc)
          end
      end
  end.

(** The order in which Go iterates over the predicates that are not in [PredicateOrdering]. *)
Context (restOrder : gset string -> list string).

Definition getPredicateConfigs (keys : gset string) (lr : LegacyRegistry) (args : ConfigProducerArgs)
    : result string (Plugins * list PluginConfig) :=
  let allPredicates := keys ∪ MandatoryPredicates lr in
  let ordered := filter (fun k => k ∈ allPredicates) PredicateOrdering in
  let rest := restOrder (allPredicates ∖ list_to_set PredicateOrdering) in
  produceAll (PredicateToConfigProducer lr)
    (fun key => String.append "no framework config producer registered for " (quoted key))
    ((fun key => (key, args)) <$> ordered ++ rest) (emptyPlugins, []).

(** [sort.Strings] of the keys of a map. *)
Context (sortStrings : list string -> list string).

Definition getPriorityConfigs (keys : gmap string Z) (lr : LegacyRegistry) (args : ConfigProducerArgs)
    : result string (Plugins * list PluginConfig) :=
  produceAll (PriorityToConfigProducer lr)
    (fun key => String.append "no config producer registered for " (quoted key))
    ((fun priority => (priority, withWeight (wrap32 (default 0 (keys !! priority))) args)) <$>
       sortStrings (map_to_list keys).*1)
    (emptyPlugins, []).

Fixpoint mergeArgs (args : gmap string (option Object)) (pc2 : list PluginConfig)
    : result string (gmap string (option Object)) :=
  match pc2 with
  | [] => Ok args
  | c :: pc2 =>
      match args !! pc_Name c with
      | Some v =>
          if decide (v <> pc_Args c) then Err (String.append "inconsistent configuration produced for plugin " (pc_Name c))
          else mergeArgs (<[pc_Name c := pc_Args c]> args) pc2
      | None => mergeArgs (<[pc_Name c := pc_Args c]> args) pc2
      end
  end.

(** The order in which Go iterates over the arguments. *)
Context (argsOrder : gmap string (option Object) -> list (string * option Object)).

Definition mergePluginConfigsFromPolicy (pc1 pc2 : list PluginConfig) : result string (list PluginConfig) :=
  let args := foldl (fun args c => <[pc_Name c := pc_Args c]> args) ∅ pc1 in
  args ← mergeArgs args pc2;
  mret ((fun e => {| pc_Name := e.1; pc_Args := e.2 |}) <$> argsOrder args).

Fixpoint predicateKeysLoop (lr : LegacyRegistry) (policies : list PredicatePolicy) (keys : gset string)
    (args : ConfigProducerArgs) : option (gset string * ConfigProducerArgs) :=
  match policies with
  | [] => Some (keys, args)
  | policy :: policies =>
      '(key, args) ← ProcessPredicatePolicy lr policy args;
      predicateKeysLoop lr policies ({[key]} ∪ keys) args
  end.

Fixpoint priorityKeysLoop (lr : LegacyRegistry) (policies : list PriorityPolicy) (keys : gmap string Z)
    (args : ConfigProducerArgs) : option (gmap string Z * ConfigProducerArgs) :=
  match policies with
  | [] => Some (keys, args)
  | policy :: policies =>
      if decide (priority_Name policy = "EqualPriority") then priorityKeysLoop lr policies keys args
      else
        '(key, args) ← ProcessPriorityPolicy lr policy args;
        priorityKeysLoop lr policies (<[key := priority_Weight policy]> keys) args
  end.

(** A [klog.Fatalf] ends the process. *)
Definition orDie {A} (x : option A) : result string A := match x with Some a => Ok a | None => Panic end.

(** Neither predicates nor priorities. *)
Definition sortAndBind : Plugins :=
  {| at_QueueSort := unweighted [queuesort_Name]; at_PreFilter := None; at_Filter := None; at_PostFilter := None;
     at_PreScore := None; at_Score := None; at_Reserve := None; at_Permit := None; at_PreBind := None;
     at_Bind := unweighted [defaultbinder_Name]; at_PostBind := None |}.

(** The plugins and their arguments that a policy stands for. *)
Definition policyPlugins (policy : Policy) : result string (Plugins * list PluginConfig) :=
  lr ← orDie NewLegacyRegistry;
  '(predicateKeys, args) ← orDie match Predicates policy with
                                 | None => Some (DefaultPredicates lr, noProducerArgs)
                                 | Some policies => predicateKeysLoop lr policies ∅ noProducerArgs
                                 end;
  '(priorityKeys, args) ← orDie match Priorities policy with
                                | None => Some (DefaultPriorities lr, args)
                                | Some policies => priorityKeysLoop lr policies ∅ args
                                end;
  let args := if decide (HardPodAffinitySymmetricWeight policy <> 0)
              then withHardPodAffinityWeight (HardPodAffinitySymmetricWeight policy) args else args in
  '(pluginsForPredicates, configForPredicates) ← getPredicateConfigs predicateKeys lr args;
  '(pluginsForPriorities, configForPriorities) ← getPriorityConfigs priorityKeys lr args;
  let defPlugins := Append emptyPlugins (Some sortAndBind) in
  let defPlugins := Append defPlugins (Some pluginsForPredicates) in
  let defPlugins := Append defPlugins (Some pluginsForPriorities) in
  defPluginConfig ← mergePluginConfigsFromPolicy configForPredicates configForPriorities;
  mret (defPlugins, defPluginConfig).

Context (IsQualifiedName : string -> list string).

Definition createFromConfig (c : Configurator) (policy : Policy) : result string created :=
  match ValidatePolicy IsQualifiedName policy with
  | _ :: _ as errs => Err (String.concat ", " errs)
  | [] =>
      '(defPlugins, defPluginConfig) ← policyPlugins policy;
      let c := if AlwaysCheckAllPredicates policy then withAllPredicates true c else c in
      create (withProfiles ((fun prof => {| profile_SchedulerName := profile_SchedulerName prof;
                                            profile_Plugins := Some (Append emptyPlugins (Some defPlugins));
                                            profile_PluginConfig := defPluginConfig |}) <$> c_profiles c) c)
  end.

(** ** New (scheduler.go) *)
Record SchedulerPolicySource := { policy_File : option string; policy_ConfigMap : option (string * string) }.
Record SchedulerAlgorithmSource := { source_Policy : option SchedulerPolicySource; source_Provider : option string }.

Record schedulerOptions := {
  schedulerAlgorithmSource : SchedulerAlgorithmSource;
  o_percentageOfNodesToScore : Z;
  o_podInitialBackoffSeconds : Z;
  o_podMaxBackoffSeconds : Z;
  frameworkOutOfTreeRegistry : Registry;
  o_profiles : list KubeSchedulerProfile;
  o_extenders : list ExtenderConfig
}.

Definition defaultSchedulerOptions : schedulerOptions :=
  {| schedulerAlgorithmSource := {| source_Policy := None; source_Provider := Some SchedulerDefaultProviderName |}; o_percentageOfNodesToScore := 0;
     o_podInitialBackoffSeconds := 1; o_podMaxBackoffSeconds := 10; frameworkOutOfTreeRegistry := ∅;
     o_profiles := [{| profile_SchedulerName := "default-scheduler"; profile_Plugins := None; profile_PluginConfig := [] |}];
     o_extenders := [] |}.

Definition emptyPolicy : Policy :=
  {| Predicates := None; Priorities := None; policy_Extenders := []; HardPodAffinitySymmetricWeight := 0;
     AlwaysCheckAllPredicates := false |}.

(** Reading and decoding a policy. *)
Context (initPolicyFromFile : string -> result string Policy)
  (initPolicyFromConfigMap : string * string -> result string Policy).

Definition policyOf (source : SchedulerPolicySource) : result string Policy :=
  match policy_File source, policy_ConfigMap source with
  | Some path, _ => initPolicyFromFile path
  | None, Some ref => initPolicyFromConfigMap ref
  | None, None => Ok emptyPolicy
  end.

(** The registry of the tree is an argument. *)
Definition New (inTree : Registry) (options : schedulerOptions) : result string created :=
  registry ← MergeRegistry inTree (frameworkOutOfTreeRegistry options);
  let configurator :=
    {| alwaysCheckAllPredicates := false; c_percentageOfNodesToScore := o_percentageOfNodesToScore options;
       podInitialBackoffSeconds := o_podInitialBackoffSeconds options;
       podMaxBackoffSeconds := o_podMaxBackoffSeconds options; c_profiles := o_profiles options;
       c_registry := registry; c_extenders := o_extenders options |} in
  match source_Provider (schedulerAlgorithmSource options), source_Policy (schedulerAlgorithmSource options) with
  | Some name, _ =>
      match createFromProvider configurator name with
      | Err err => Err (String.concat "" ["couldn't create scheduler using provider "; quoted name; ": "; err])
      | r => r
      end
  | None, Some source =>
      policy ← policyOf source;
      let configurator :=
        {| alwaysCheckAllPredicates := false; c_percentageOfNodesToScore := o_percentageOfNodesToScore options;
           podInitialBackoffSeconds := o_podInitialBackoffSeconds options;
           podMaxBackoffSeconds := o_podMaxBackoffSeconds options; c_profiles := o_profiles options;
           c_registry := registry; c_extenders := policy_Extenders policy |} in
      match createFromConfig configurator policy with
      | Err err => Err (String.append "couldn't create scheduler from policy: " err)
      | r => r
      end
  | None, None => Err "unsupported algorithm source"
  end.
End Factory.
