(* ===== verification/SetupSpec.v ===== *)
(** * What NewFramework builds

    The plugins of a framework that is built are those that are enabled, each made by its
    factory from its own arguments; its weights are those that the totals of the scores
    need.  The order in which Go iterates over the registry does not matter. *)
From S2P Require Import Prelude Api Framework PriorityQueue Binding ScheduleTheorems Configuration Setup.
Local Open Scope Z_scope.

(** ** The sets of plugins by extension point *)
Definition setsOf (plugins : Plugins) : list (option PluginSet) := getExtensionPoints plugins.

Lemma foldl_insert_None {A V} (key : A -> string) (value : A -> V) l : forall (m : gmap string V) k,
  k ∉ (key <$> l) -> foldl (fun m a => <[key a := value a]> m) m l !! k = m !! k.
Proof.
  induction l as [|a l IH]; intros m k Hk; [done|]. rewrite fmap_cons, not_elem_of_cons in Hk. cbn [foldl].
  rewrite IH by tauto. apply lookup_insert_ne. naive_solver.
Qed.

Lemma foldl_insert_Some {A V} (key : A -> string) (value : A -> V) l : forall (m : gmap string V) k,
  k ∈ (key <$> l) -> exists a, a ∈ l /\ key a = k /\ foldl (fun m a => <[key a := value a]> m) m l !! k = Some (value a).
Proof.
  induction l as [|a l IH]; intros m k Hk; [by apply elem_of_nil in Hk|]. cbn [foldl].
  destruct (decide (k ∈ (key <$> l))) as [Hin|Hout].
  - destruct (IH (<[key a := value a]> m) k Hin) as (b&Hb&Hkb&Hl). exists b. set_solver.
  - rewrite fmap_cons, list.elem_of_cons in Hk. destruct Hk as [->|?]; [|done].
    exists a. rewrite foldl_insert_None by done. rewrite lookup_insert_eq. set_solver.
Qed.

Lemma pluginsNeeded_None plugins n :
  pluginsNeeded plugins !! n = None <-> n ∉ (cfg_Name <$> (getExtensionPoints plugins ≫= enabledAt)).
Proof.
  unfold pluginsNeeded. split.
  - intros Hn Hin. destruct (foldl_insert_Some cfg_Name id _ ∅ n Hin) as (a&_&_&Ha). unfold id in Ha. congruence.
  - intros Hn. rewrite (foldl_insert_None cfg_Name id) by done. apply lookup_empty.
Qed.

Lemma pluginsNeeded_Some plugins n c :
  pluginsNeeded plugins !! n = Some c -> c ∈ (getExtensionPoints plugins ≫= enabledAt) /\ cfg_Name c = n.
Proof.
  intros Hn. destruct (decide (n ∈ (cfg_Name <$> (getExtensionPoints plugins ≫= enabledAt)))) as [Hin|Hout].
  - destruct (foldl_insert_Some cfg_Name id _ ∅ n Hin) as (a&Ha&Hk&Hl). unfold pluginsNeeded, id in *.
    rewrite Hl in Hn. injection Hn as ->. done.
  - apply pluginsNeeded_None in Hout. congruence.
Qed.

Lemma enabled_needed plugins set ep :
  set ∈ getExtensionPoints plugins -> ep ∈ enabledAt set -> is_Some (pluginsNeeded plugins !! cfg_Name ep).
Proof.
  intros Hs He. destruct (pluginsNeeded plugins !! cfg_Name ep) eqn:Hn; [done|].
  apply pluginsNeeded_None in Hn. destruct Hn. apply list_elem_of_fmap_2.
  apply list_elem_of_bind. eauto.
Qed.

(** ** The list of an extension point *)
Section Lists.
Context `{StateData}.
Definition fills {A} (implements : plugin -> option A) (pm : gmap string plugin) (enabled : list Plugin) (l : list A) : Prop :=
  NoDup (cfg_Name <$> enabled) /\
  Forall2 (fun ep x => exists pl, pm !! cfg_Name ep = Some pl /\ implements pl = Some x) enabled l.

Lemma fillLoop_spec {A} type (implements : plugin -> option A) pm enabled : forall seen l,
  updateLoop type implements pm seen enabled = Ok l <->
  fills implements pm enabled l /\ Forall (fun ep => cfg_Name ep ∉ seen) enabled.
Proof.
  induction enabled as [|ep enabled IH]; intros seen l.
  - cbn. split.
    + intros [= <-]. split; [split; [apply NoDup_nil_2|]|]; constructor.
    + intros [[_ Hf] _]. by inversion Hf.
  - cbn [updateLoop]. unfold fills. rewrite fmap_cons, NoDup_cons, Forall_cons. split.
    + intros Hu. destruct (pm !! cfg_Name ep) as [pl|] eqn:Hpl; [|done].
      destruct (implements pl) as [x|] eqn:Hx; [|done]. case_decide as Hseen; [done|].
      destruct (updateLoop _ _ _ _ _) as [l'| |] eqn:Hrec; [|done..]. cbn in Hu. injection Hu as <-.
      apply IH in Hrec as [[Hnd Hf] Hs]. rewrite list.Forall_forall in Hs. split_and!; [|done| |done|].
      * intros (ep'&Heq&Hin)%list_elem_of_fmap. specialize (Hs ep' Hin). set_solver.
      * constructor; [by exists pl|done].
      * apply list.Forall_forall. intros ep' Hin. specialize (Hs ep' Hin). set_solver.
    + intros [[[Hn Hnd] Hf] [Hseen Hs]]. inversion Hf as [|? x ? l' (pl&Hpl&Hx) Hf']; subst.
      rewrite Hpl, Hx. case_decide; [done|].
      assert (Hrec : updateLoop type implements pm ({[cfg_Name ep]} ∪ seen) enabled = Ok l').
      { apply IH. split; [done|]. apply list.Forall_forall. intros ep' Hin.
        rewrite list.Forall_forall in Hs. specialize (Hs ep' Hin).
        assert (cfg_Name ep' <> cfg_Name ep); [|set_solver]. intros Heq. apply Hn. rewrite <- Heq.
        by apply list_elem_of_fmap_2. }
      by rewrite Hrec.
Qed.

Lemma updatePluginList_spec {A} type (implements : plugin -> option A) set pm l :
  updatePluginList type implements set pm = Ok l <-> fills implements pm (enabledAt set) l.
Proof.
  unfold updatePluginList. rewrite fillLoop_spec. split; [tauto|]. intros Hf. split; [done|].
  apply list.Forall_forall. intros. apply not_elem_of_empty.
Qed.
End Lists.

(** ** The loop over the registry *)
Section Init.
Context `{StateData} (decodeDefault : string -> result string (option Object)).
Abbreviation PluginFactory := (option Object -> result string plugin).

Context (pg : gmap string Plugin) (pluginConfig : gmap string (option Object)).

(** A factory that makes the plugin of its name. *)
Definition makes (name : string) (factory : PluginFactory) (p : plugin) : Prop :=
  exists args, getPluginArgsOrDefault decodeDefault pluginConfig name = Ok args /\ factory args = Ok p.

Definition configuredWeights (factories : list (string * PluginFactory)) : list (string * Z) :=
  omap (fun e => (fun c => (e.1, cfg_Weight c)) <$> pg !! e.1) factories.

(** The weight check of [NewFramework] is that of Framework.v. *)
Lemma initPlugins_spec factories : forall s s', NoDup factories.*1 ->
  initPlugins decodeDefault pg pluginConfig s factories = Ok s' ->
  configureWeights (configuredWeights factories) (totalPriority s) (weights s) = Some (weights s') /\
  (forall n factory, (n, factory) ∈ factories -> is_Some (pg !! n) ->
     exists p, makes n factory p /\ pluginsMap s' !! n = Some p) /\
  (forall n, n ∉ factories.*1 \/ pg !! n = None -> pluginsMap s' !! n = pluginsMap s !! n).
Proof.
  induction factories as [|[name factory] factories IH]; intros s s' Hnd Hs.
  { injection Hs as <-. split_and!; [done| |done]. intros ? ? Hin. by apply elem_of_nil in Hin. }
  rewrite fmap_cons in Hnd. apply NoDup_cons in Hnd as [Hname Hnd]. cbn [initPlugins] in Hs.
  unfold initPlugin in Hs. unfold configuredWeights. cbn [omap list_omap fst].
  destruct (pg !! name) as [c|] eqn:Hpg.
  - destruct (getPluginArgsOrDefault _ _ _) as [args| |] eqn:Ha; [|done..]. cbn in Hs.
    destruct (factory args) as [p| |] eqn:Hf; [|done..]. cbn in Hs.
    cbn [fmap option_fmap option_map configureWeights].
    set (w := if decide (cfg_Weight c = 0) then 1 else cfg_Weight c) in *.
    destruct (MaxTotalScore -₆₄ totalPriority s <? w *₆₄ MaxNodeScore)%go; [done|].
    destruct (IH _ _ Hnd Hs) as (Hw&Hin&Hout). cbn [totalPriority weights pluginsMap] in *. split_and!.
    + exact Hw.
    + intros n fac Hin' Hn. apply list.elem_of_cons in Hin' as [[= -> ->]|Hin']; [|by apply Hin].
      exists p. split; [by exists args|]. rewrite Hout by tauto. apply lookup_insert_eq.
    + intros n Hn. rewrite Hout by set_solver. apply lookup_insert_ne. intros <-. set_solver.
  - destruct (IH _ _ Hnd Hs) as (Hw&Hin&Hout). split_and!; [done| |].
    + intros n fac Hin' Hn. apply list.elem_of_cons in Hin' as [[= -> ->]|Hin']; [|by apply Hin].
      rewrite Hpg in Hn. by destruct Hn.
    + intros n Hn. apply Hout. set_solver.
Qed.

(** It succeeds when the factories do and the weights fit. *)
Lemma initPlugins_total factories : forall s w,
  (forall n factory, (n, factory) ∈ factories -> is_Some (pg !! n) -> exists p, makes n factory p) ->
  configureWeights (configuredWeights factories) (totalPriority s) (weights s) = Some w ->
  exists s', initPlugins decodeDefault pg pluginConfig s factories = Ok s'.
Proof.
  induction factories as [|[name factory] factories IH]; intros s w Hm Hc; [by eexists|].
  cbn [initPlugins]. unfold initPlugin. unfold configuredWeights in Hc. cbn [omap list_omap fst] in Hc.
  destruct (pg !! name) as [c|] eqn:Hpg.
  - destruct (Hm name factory) as (p&args&->&Hf); [set_solver|by rewrite Hpg|]. cbn. rewrite Hf. cbn.
    cbn [fmap option_fmap option_map configureWeights] in Hc.
    destruct (MaxTotalScore -₆₄ totalPriority s <? _)%go; [done|].
    apply (IH {| pluginsMap := _; weights := _; totalPriority := _ |} w); [|exact Hc].
    intros n fac Hin. apply Hm. set_solver.
  - apply (IH s w); [|exact Hc]. intros n fac Hin. apply Hm. set_solver.
Qed.

(** It fails when a factory does; nothing panics. *)
Lemma initPlugins_fails factories : forall s,
  (forall n factory, (n, factory) ∈ factories ->
     getPluginArgsOrDefault decodeDefault pluginConfig n <> Panic /\ forall args, factory args <> Panic) ->
  (exists n factory, (n, factory) ∈ factories /\ is_Some (pg !! n) /\ ~ exists p, makes n factory p) ->
  exists err, initPlugins decodeDefault pg pluginConfig s factories = Err err.
Proof.
  induction factories as [|[name factory] factories IH]; intros s Hp (n&fac&Hin&Hn&Hno); [by apply elem_of_nil in Hin|].
  destruct (Hp name factory) as [Ha Hf]; [set_solver|]. cbn [initPlugins]. unfold initPlugin.
  destruct (pg !! name) as [c|] eqn:Hpg.
  - destruct (getPluginArgsOrDefault _ _ _) as [args|err|] eqn:Hargs; [|by eexists|done]. cbn.
    destruct (factory args) as [p|err|] eqn:Hfac; [|by eexists|by destruct (Hf args)]. cbn.
    destruct (_ <? _); [by eexists|].
    apply IH; [intros ? ? ?; apply Hp; set_solver|]. exists n, fac. split_and!; [|done..].
    apply list.elem_of_cons in Hin as [[= -> ->]|?]; [|done]. destruct Hno. by exists p, args.
  - apply IH; [intros ? ? ?; apply Hp; set_solver|]. exists n, fac. split_and!; [|done..].
    apply list.elem_of_cons in Hin as [[= -> ->]|?]; [|done]. rewrite Hpg in Hn. by destruct Hn.
Qed.

End Init.

(** ** Frameworks *)
Section Framework.
Context `{StateData} (decodeDefault : string -> result string (option Object)).
Abbreviation PluginFactory := (option Object -> result string plugin).
Abbreviation Registry := (gmap string PluginFactory).
Context (registryOrder : Registry -> list (string * PluginFactory)).
Context (registryOrder_perm : forall r, registryOrder r ≡ₚ map_to_list r).

Lemma registryOrder_NoDup r : NoDup (registryOrder r).*1.
Proof. rewrite registryOrder_perm. apply NoDup_fst_map_to_list. Qed.

Lemma elem_of_registryOrder r n factory : (n, factory) ∈ registryOrder r <-> r !! n = Some factory.
Proof. by rewrite registryOrder_perm, elem_of_map_to_list. Qed.

(** The plugins of every extension point are the enabled ones, in their order and none
    twice; exactly one sorts the queue and at least one binds. *)
Record realizes (plugins : Plugins) (built : gmap string plugin) (f : framework) : Prop := {
  rz_preFilter : fills asPreFilter built (enabledAt (at_PreFilter plugins)) (preFilterPlugins (prof_Framework (fw_profile f)));
  rz_filter : fills asFilter built (enabledAt (at_Filter plugins)) (filterPlugins (prof_Framework (fw_profile f)));
  rz_postFilter : fills (named isPostFilter) built (enabledAt (at_PostFilter plugins)) (postFilterPlugins (fw_profile f));
  rz_reserve : fills (named isReserve) built (enabledAt (at_Reserve plugins)) (reservePlugins (fw_profile f));
  rz_preScore : fills asPreScore built (enabledAt (at_PreScore plugins)) (preScorePlugins (prof_Framework (fw_profile f)));
  rz_score : fills asScore built (enabledAt (at_Score plugins)) (scorePlugins (prof_Framework (fw_profile f)));
  rz_preBind : fills (named isPreBind) built (enabledAt (at_PreBind plugins)) (preBindPlugins (fw_profile f));
  rz_bind : fills (named isBind) built (enabledAt (at_Bind plugins)) (bindPlugins (fw_profile f));
  rz_postBind : fills (named isPostBind) built (enabledAt (at_PostBind plugins)) (postBindPlugins (fw_profile f));
  rz_permit : fills (named isPermit) built (enabledAt (at_Permit plugins)) (permitPlugins (fw_profile f));
  rz_queueSort : fills asQueueSort built (enabledAt (at_QueueSort plugins)) (queueSortPlugins f);
  rz_oneSort : length (queueSortPlugins f) = 1%nat;
  rz_someBind : bindPlugins (fw_profile f) <> []
}.

(** Every plugin of the map is made by the factory of its name from its own arguments. *)
Definition builtFrom (r : Registry) (plugins : Plugins) (pluginConfig : gmap string (option Object))
    (built : gmap string plugin) : Prop :=
  forall n p, built !! n = Some p <->
    is_Some (pluginsNeeded plugins !! n) /\ exists factory, r !! n = Some factory /\
      makes decodeDefault pluginConfig n factory p.

Lemma checkFramework_Ok f f' : checkFramework f = Ok f' ->
  f' = f /\ unweightedScore f = None /\ length (queueSortPlugins f) = 1%nat /\ bindPlugins (fw_profile f) <> [].
Proof.
  unfold checkFramework. intros Hc. destruct (unweightedScore f) eqn:Hw; [done|].
  destruct (queueSortPlugins f) as [|q [|]] eqn:Hq; [done| |done].
  destruct (bindPlugins (fw_profile f)) eqn:Hb; [done|]. injection Hc as <-. rewrite ?Hq, ?Hb. by split_and!.
Qed.

Lemma updatePluginLists_Ok plugins name all s f : updatePluginLists plugins name all s = Ok f ->
  length (queueSortPlugins f) = 1%nat -> bindPlugins (fw_profile f) <> [] ->
  realizes plugins (pluginsMap s) f /\ prof_Name (fw_profile f) = name /\
  runAllFilters (prof_Framework (fw_profile f)) = all /\
  pluginNameToWeightMap (prof_Framework (fw_profile f)) = weights s.
Proof.
  unfold updatePluginLists. intros Hu Hone Hbind.
  repeat match type of Hu with
  | mbind ?k (updatePluginList ?t ?i ?set ?pm) = _ =>
      destruct (updatePluginList t i set pm) as [?l| |] eqn:?Hl; [|discriminate Hu..]; cbn [mbind result_bind] in Hu
  end.
  injection Hu as <-. cbn [queueSortPlugins fw_profile bindPlugins] in Hone, Hbind.
  split; [|repeat split]. constructor; cbn [fw_profile prof_Framework preFilterPlugins filterPlugins postFilterPlugins
    reservePlugins preScorePlugins scorePlugins preBindPlugins bindPlugins postBindPlugins permitPlugins queueSortPlugins];
    first [eapply updatePluginList_spec; eassumption|assumption].
Qed.

Lemma collectConfig_keeps args n : forall m m', collectConfig m args = Ok m' -> is_Some (m !! n) ->
  (n ∉ pc_Name <$> args) /\ m' !! n = m !! n.
Proof.
  induction args as [|c args IH]; intros m m' Hc Hn; [injection Hc as <-; split; [apply not_elem_of_nil|done]|].
  cbn [collectConfig] in Hc. destruct (m !! pc_Name c) eqn:Hm; [done|].
  assert (Hne : pc_Name c <> n) by (intros Heq; rewrite <- Heq, Hm in Hn; by destruct Hn).
  destruct (IH _ _ Hc) as [Hout Hl]; [by rewrite lookup_insert_ne|].
  rewrite fmap_cons, not_elem_of_cons, Hl, lookup_insert_ne by done. done.
Qed.

Lemma collectConfig_spec args : forall m m', collectConfig m args = Ok m' ->
  NoDup (pc_Name <$> args) /\ (forall c, c ∈ args -> m' !! pc_Name c = Some (pc_Args c)) /\
  forall n, n ∉ (pc_Name <$> args) -> m' !! n = m !! n.
Proof.
  induction args as [|c args IH]; intros m m' Hc.
  { injection Hc as <-. split_and!; [apply NoDup_nil_2| |done]. intros c Hin. by apply elem_of_nil in Hin. }
  cbn [collectConfig] in Hc. destruct (m !! pc_Name c) eqn:Hn; [done|].
  destruct (IH _ _ Hc) as (Hnd&Hin&Hout).
  destruct (collectConfig_keeps args (pc_Name c) _ _ Hc) as [Hc' Hl]; [by rewrite lookup_insert_eq|].
  rewrite lookup_insert_eq in Hl. rewrite fmap_cons. split_and!.
  - by apply NoDup_cons.
  - intros c0 [->|?]%list.elem_of_cons; [done|by apply Hin].
  - intros n [Hne Hn']%not_elem_of_cons. rewrite Hout by done. apply lookup_insert_ne. congruence.
Qed.

(** The steps of a call that succeeds. *)
Lemma NewFramework_Ok r plugins args name all f :
  NewFramework decodeDefault registryOrder r (Some plugins) args name all = Ok f ->
  exists pluginConfig built,
    collectConfig ∅ args = Ok pluginConfig /\ builtFrom r plugins pluginConfig built /\ realizes plugins built f /\
    prof_Name (fw_profile f) = name /\ runAllFilters (prof_Framework (fw_profile f)) = all /\
    unweightedScore f = None /\
    configureWeights (configuredWeights (pluginsNeeded plugins) (registryOrder r)) 0 ∅ =
      Some (pluginNameToWeightMap (prof_Framework (fw_profile f))).
Proof.
  unfold NewFramework. intros Hf.
  destruct (collectConfig ∅ args) as [pluginConfig| |] eqn:Hc; [|done..]. cbn [mbind result_bind] in Hf.
  destruct (initPlugins _ _ _ _ _) as [s| |] eqn:Hs; [|done..]. cbn [mbind result_bind] in Hf.
  destruct (updatePluginLists plugins name all s) as [f0| |] eqn:Hu; [|done..]. cbn [mbind result_bind] in Hf.
  apply checkFramework_Ok in Hf as (->&Hw&Hone&Hbind).
  destruct (updatePluginLists_Ok _ _ _ _ _ Hu Hone Hbind) as (Hr&Hname&Hall&Hweights).
  destruct (initPlugins_spec _ _ _ _ _ _ (registryOrder_NoDup r) Hs) as (Hcw&Hin&Hout). cbn [totalPriority weights pluginsMap] in *.
  exists pluginConfig, (pluginsMap s). split_and!; [done| |done..|by rewrite Hweights].
  intros n p. split.
  - intros Hp. destruct (pluginsNeeded plugins !! n) eqn:Hn; [|rewrite Hout, lookup_empty in Hp by auto; done].
    destruct (r !! n) as [factory|] eqn:Hr'.
    + split; [done|]. exists factory. split; [done|]. apply elem_of_registryOrder in Hr'.
      destruct (Hin n factory Hr') as (p'&Hm&Hp'); [by rewrite Hn|]. congruence.
    + rewrite Hout, lookup_empty in Hp; [done|]. left. rewrite list_elem_of_fmap. intros ([n' fac]&->&Hin').
      apply elem_of_registryOrder in Hin'. cbn in Hr'. congruence.
  - intros (Hn&factory&Hr'&args'&Ha&Hfac). apply elem_of_registryOrder in Hr'.
    destruct (Hin n factory Hr' Hn) as (p'&(args''&Ha'&Hfac')&Hp'). congruence.
Qed.

Lemma NewFramework_makes r plugins args name all f :
  NewFramework decodeDefault registryOrder r (Some plugins) args name all = Ok f ->
  forall n factory, r !! n = Some factory -> is_Some (pluginsNeeded plugins !! n) ->
  exists pluginConfig p, collectConfig ∅ args = Ok pluginConfig /\ makes decodeDefault pluginConfig n factory p.
Proof.
  unfold NewFramework. intros Hf n factory Hr Hn.
  destruct (collectConfig ∅ args) as [pluginConfig| |]; [|done..]. cbn [mbind result_bind] in Hf.
  destruct (initPlugins _ _ _ _ _) as [s| |] eqn:Hs; [|done..].
  destruct (initPlugins_spec _ _ _ _ _ _ (registryOrder_NoDup r) Hs) as (_&Hin&_). apply elem_of_registryOrder in Hr.
  destruct (Hin n factory Hr Hn) as (p&Hp&_). eauto.
Qed.

(** Everything that is needed for success. *)
Lemma NewFramework_total r plugins args name all f pluginConfig built w :
  collectConfig ∅ args = Ok pluginConfig ->
  (forall n factory, (n, factory) ∈ registryOrder r -> is_Some (pluginsNeeded plugins !! n) ->
     exists p, makes decodeDefault pluginConfig n factory p) ->
  configureWeights (configuredWeights (pluginsNeeded plugins) (registryOrder r)) 0 ∅ = Some w ->
  builtFrom r plugins pluginConfig built -> realizes plugins built f ->
  prof_Name (fw_profile f) = name -> runAllFilters (prof_Framework (fw_profile f)) = all ->
  pluginNameToWeightMap (prof_Framework (fw_profile f)) = w -> unweightedScore f = None ->
  NewFramework decodeDefault registryOrder r (Some plugins) args name all = Ok f.
Proof.
  intros Hc Hmake Hw Hb Hr Hname Hall Hweights Hu. unfold NewFramework. rewrite Hc. cbn [mbind result_bind].
  destruct (initPlugins_total decodeDefault (pluginsNeeded plugins) pluginConfig (registryOrder r)
    {| pluginsMap := ∅; weights := ∅; totalPriority := 0 |} w Hmake Hw) as [s Hs]. rewrite Hs. cbn [mbind result_bind].
  destruct (initPlugins_spec _ _ _ _ _ _ (registryOrder_NoDup r) Hs) as (Hcw&Hin&Hout).
  cbn [totalPriority weights pluginsMap] in Hcw, Hin, Hout.
  assert (Hmap : pluginsMap s = built).
  { apply map_eq. intros n. destruct (built !! n) as [p|] eqn:Hp.
    - apply Hb in Hp as (Hn&factory&Hfac&Hm). apply elem_of_registryOrder in Hfac.
      destruct (Hin n factory Hfac Hn) as (p'&Hm'&->). destruct Hm as (a&Ha&Hfa), Hm' as (a'&Ha'&Hfa'). congruence.
    - destruct (pluginsMap s !! n) as [p|] eqn:Hs'; [|done]. exfalso.
      destruct (pluginsNeeded plugins !! n) eqn:Hn; [|rewrite Hout, lookup_empty in Hs' by auto; done].
      destruct (r !! n) as [factory|] eqn:Hfac.
      + pose proof Hfac as Hfac'. apply elem_of_registryOrder in Hfac'.
        destruct (Hin n factory Hfac') as (p'&Hm'&Hp'); [by rewrite Hn|].
        assert (built !! n = Some p'); [|congruence]. apply Hb. rewrite Hn. eauto.
      + rewrite Hout, lookup_empty in Hs'; [done|]. left. rewrite list_elem_of_fmap. intros ([n' fac]&->&Hin').
        apply elem_of_registryOrder in Hin'. cbn in Hfac. congruence. }
  assert (Hws : weights s = w) by congruence.
  assert (Hlists : updatePluginLists plugins name all s = Ok f).
  { destruct Hr. unfold updatePluginLists. rewrite Hmap. cbv zeta.
    repeat match goal with
    | Hfills : fills ?i ?pm (enabledAt ?set) ?l |- context [updatePluginList ?t ?i ?set ?pm] =>
        rewrite (proj2 (updatePluginList_spec t i set pm l) Hfills); cbn [mbind result_bind]; clear Hfills
    end.
    destruct f as [[? []] ?]. cbn in Hname, Hall, Hweights |- *. subst. reflexivity. }
  rewrite Hlists. cbn [mbind result_bind]. unfold checkFramework. rewrite Hu.
  pose proof (rz_oneSort _ _ _ Hr) as Hone. pose proof (rz_someBind _ _ _ Hr) as Hbind.
  destruct (queueSortPlugins f) as [|q [|]]; [done| |done]. by destruct (bindPlugins (fw_profile f)).
Qed.
End Framework.
