(* ===== verification/ConfigurationTheorems.v ===== *)
(** * Theorems on the configuration of the scheduler

    A framework runs exactly the plugins that its configuration enables, with the weights
    that it gives them; what a policy cannot switch off; what the default scheduler needs. *)
From S2P Require Import Prelude Api NodeInfo Framework PriorityQueue GenericScheduler Binding SchedulerSpec ScheduleTheorems.
From S2P Require Import NodeResources Configuration LegacyRegistry Setup Factory SetupSpec.
Local Open Scope Z_scope.

(** ** Weights *)
Definition effectiveWeight (c : Plugin) : Z := if decide (cfg_Weight c = 0) then 1 else cfg_Weight c.

Lemma configureWeights_ok plugins : forall total weights,
  Forall (fun e => 0 <= e.2 < 2 ^ 31) plugins -> 0 <= total ->
  total + Z.of_nat (length plugins) * (2 ^ 31 * MaxNodeScore) <= max_int64 ->
  configureWeights plugins total weights =
    Some (foldl (fun m e => <[e.1 := if decide (e.2 = 0) then 1 else e.2]> m) weights plugins).
Proof.
  induction plugins as [|[name w] plugins IH]; intros total weights Hw Ht Hle; [done|].
  apply Forall_cons in Hw as [Hw Hws]. cbn [fst snd length] in *.
  rewrite Nat2Z.inj_succ in Hle. unfold MaxNodeScore in *.
  assert (Hw' : 1 <= (if decide (w = 0) then 1 else w) <= 2 ^ 31) by (case_decide; lia).
  cbn [configureWeights foldl fst snd]. revert Hw'. generalize (if decide (w = 0) then 1 else w). intros w' Hw'.
  unfold MaxTotalScore, MaxNodeScore.
  rewrite (wrap64_id (w' * 100)) by (unfold in_int64, min_int64, max_int64; lia).
  rewrite (wrap64_id (max_int64 - total)) by (unfold in_int64, min_int64, max_int64 in *; lia).
  destruct (Z.ltb_spec (max_int64 - total) (w' * 100)); [lia|].
  rewrite wrap64_id by (unfold in_int64, min_int64, max_int64 in *; lia).
  apply IH; [done|lia|lia].
Qed.

Section Framework.
Context `{StateData} (decodeDefault : string -> result string (option Object)).
Abbreviation PluginFactory := (option Object -> result string plugin).
Abbreviation Registry := (gmap string PluginFactory).
Context (registryOrder : Registry -> list (string * PluginFactory)).

(** The weights of the plugins that are needed and registered. *)
Definition weightsOf (r : Registry) (plugins : Plugins) : gmap string Z :=
  map_imap (fun n c => match r !! n with Some _ => Some (effectiveWeight c) | None => None end) (pluginsNeeded plugins).

(** Weights are not negative, and there are not too many plugins for their sum. *)
Definition smallWeights (r : Registry) (plugins : Plugins) : Prop :=
  (forall n c, pluginsNeeded plugins !! n = Some c -> 0 <= cfg_Weight c < 2 ^ 31) /\ Z.of_nat (size r) <= 2 ^ 24.

Lemma length_configuredWeights pg factories : (length (configuredWeights pg factories) <= length factories)%nat.
Proof.
  unfold configuredWeights. induction factories as [|e factories IH]; [done|]. cbn.
  destruct (pg !! e.1); cbn; lia.
Qed.

Lemma elem_of_configuredWeights pg (factories : list (string * PluginFactory)) e :
  e ∈ configuredWeights pg factories <->
  exists factory c, (e.1, factory) ∈ factories /\ pg !! e.1 = Some c /\ e.2 = cfg_Weight c.
Proof.
  unfold configuredWeights. rewrite list_elem_of_omap. split.
  - intros ([n fac]&Hin&Hx). cbn in Hx. destruct (pg !! n) eqn:Hn; [|done]. injection Hx as <-. eauto.
  - intros (fac&c&Hin&Hn&Hw). exists (e.1, fac). split; [done|]. cbn. rewrite Hn. destruct e. cbn in *. by rewrite Hw.
Qed.

Context (registryOrder_perm : forall r, registryOrder r ≡ₚ map_to_list r).

Lemma configureWeights_weightsOf r plugins : smallWeights r plugins ->
  configureWeights (configuredWeights (pluginsNeeded plugins) (registryOrder r)) 0 ∅ = Some (weightsOf r plugins).
Proof using registryOrder_perm.
  intros [Hw Hsize]. rewrite configureWeights_ok.
  - f_equal. apply map_eq. intros n. unfold weightsOf. rewrite map_lookup_imap.
    set (l := configuredWeights _ _).
    assert (Hin : forall n w, (n, w) ∈ l <-> exists c, is_Some (r !! n) /\ pluginsNeeded plugins !! n = Some c /\ w = cfg_Weight c).
    { intros n' w. unfold l. rewrite elem_of_configuredWeights. cbn. split.
      - intros (fac&c&Hf&Hn&->). exists c. split_and!; [|done..]. apply (elem_of_registryOrder registryOrder) in Hf; [|done]. eauto.
      - intros (c&[fac Hf]&Hn&->). exists fac, c. split_and!; [|done..]. by apply (elem_of_registryOrder registryOrder). }
    destruct (decide (n ∈ (fst <$> l))) as [Hn|Hn].
    + destruct (foldl_insert_Some fst (fun e => if decide (e.2 = 0) then 1 else e.2) l ∅ n Hn) as ([n' w]&Hl&Hk&->).
      cbn in Hk. subst n'. apply Hin in Hl as (c&[fac Hf]&Hc&->). rewrite Hc. cbn. by rewrite Hf.
    + rewrite (foldl_insert_None fst (fun e => if decide (e.2 = 0) then 1 else e.2)), lookup_empty by done.
      destruct (pluginsNeeded plugins !! n) as [c|] eqn:Hc; [|done]. cbn. destruct (r !! n) eqn:Hr; [|done].
      destruct Hn. apply list_elem_of_fmap. exists (n, cfg_Weight c). split; [done|]. apply Hin. eauto.
  - apply list.Forall_forall. intros e He. apply elem_of_configuredWeights in He as (fac&c&_&Hc&->). by apply (Hw _ c Hc).
  - lia.
  - pose proof (length_configuredWeights (pluginsNeeded plugins) (registryOrder r)) as Hl.
    rewrite (Permutation_length (registryOrder_perm r)) in Hl. unfold MaxNodeScore, max_int64.
    rewrite length_map_to_list in Hl. lia.
Qed.

(** C23: [NewFramework] succeeds exactly when the arguments of no plugin are given twice, every
    plugin that is enabled somewhere and registered can be made by its factory from its
    own or the default arguments, and every extension point can be filled with the
    plugins that are enabled there, in their order and none twice, with exactly one plugin
    that sorts the queue, at least one that binds, and a weight for every score plugin;
    the framework is then made of exactly these plugins, with the configured weights.
    The order of the registry plays no part. *)
Theorem framework_runs_the_enabled_plugins r plugins args name all f :
  smallWeights r plugins ->
  NewFramework decodeDefault registryOrder r (Some plugins) args name all = Ok f <->
  exists pluginConfig built,
    collectConfig ∅ args = Ok pluginConfig /\
    (forall n factory, r !! n = Some factory -> is_Some (pluginsNeeded plugins !! n) ->
       exists p, makes decodeDefault pluginConfig n factory p) /\
    builtFrom decodeDefault r plugins pluginConfig built /\ realizes plugins built f /\
    prof_Name (fw_profile f) = name /\ runAllFilters (prof_Framework (fw_profile f)) = all /\
    pluginNameToWeightMap (prof_Framework (fw_profile f)) = weightsOf r plugins /\
    unweightedScore f = None.
Proof using registryOrder_perm.
  intros Hsmall. pose proof (configureWeights_weightsOf r plugins Hsmall) as Hcw. split.
  - intros Hf. destruct (NewFramework_Ok _ _ registryOrder_perm _ _ _ _ _ _ Hf) as (pc&built&Hc&Hb&Hr&Hn&Ha&Hu&Hw).
    exists pc, built. split_and!; [done| |done..|congruence|done].
    intros n factory Hfac Hneed. destruct (NewFramework_makes _ _ registryOrder_perm _ _ _ _ _ _ Hf n factory Hfac Hneed)
      as (pc'&p&Hc'&Hp). exists p. congruence.
  - intros (pc&built&Hc&Hmake&Hb&Hr&Hn&Ha&Hw&Hu).
    eapply NewFramework_total; [done|exact Hc| |exact Hcw|exact Hb|exact Hr|exact Hn|exact Ha|congruence|exact Hu].
    intros n factory Hin. apply Hmake. by apply (elem_of_registryOrder registryOrder).
Qed.

(** The plugins that are needed and registered, as their factories make them. *)
Definition builtMap (r : Registry) (plugins : Plugins) (pluginConfig : gmap string (option Object)) : gmap string plugin :=
  map_imap (fun n factory =>
    match pluginsNeeded plugins !! n, getPluginArgsOrDefault decodeDefault pluginConfig n with
    | Some _, Ok args => match factory args with Ok p => Some p | _ => None end
    | _, _ => None
    end) r.

Lemma builtMap_from r plugins pluginConfig : builtFrom decodeDefault r plugins pluginConfig (builtMap r plugins pluginConfig).
Proof.
  intros n p. unfold builtMap, makes. rewrite map_lookup_imap. destruct (r !! n) as [factory|] eqn:Hr; cbn [mbind option_bind].
  - destruct (pluginsNeeded plugins !! n) eqn:Hn; [|split; [done|by intros [[] _]]].
    destruct (getPluginArgsOrDefault decodeDefault pluginConfig n) as [args| |] eqn:Ha.
    2,3: split; [done|intros (_&fac&_&args&Hargs&_); congruence].
    destruct (factory args) as [p'| |] eqn:Hp; split; intros Hx; try done.
    + injection Hx as <-. split; [done|]. exists factory. split; [done|]. by exists args.
    + destruct Hx as (_&fac&[= <-]&args'&Hargs&Hp'). congruence.
    + destruct Hx as (_&fac&[= <-]&args'&Hargs&Hp'). congruence.
    + destruct Hx as (_&fac&[= <-]&args'&Hargs&Hp'). congruence.
  - split; [done|]. intros (_&fac&Hfac&_). done.
Qed.

(** When every factory succeeds, the result does not depend on the order of the registry. *)
Lemma NewFramework_eval r plugins args name all pluginConfig :
  smallWeights r plugins -> collectConfig ∅ args = Ok pluginConfig ->
  (forall n factory, r !! n = Some factory -> is_Some (pluginsNeeded plugins !! n) ->
     exists p, makes decodeDefault pluginConfig n factory p) ->
  NewFramework decodeDefault registryOrder r (Some plugins) args name all =
    (f ← updatePluginLists plugins name all {| pluginsMap := builtMap r plugins pluginConfig;
                                                weights := weightsOf r plugins; totalPriority := 0 |};
     checkFramework f).
Proof using registryOrder_perm.
  intros Hsmall Hc Hmake. unfold NewFramework. rewrite Hc. cbn [mbind result_bind].
  pose proof (configureWeights_weightsOf r plugins Hsmall) as Hcw.
  destruct (initPlugins_total decodeDefault (pluginsNeeded plugins) pluginConfig (registryOrder r)
    {| pluginsMap := ∅; weights := ∅; totalPriority := 0 |} (weightsOf r plugins)) as [s Hs]; [|exact Hcw|].
  { intros n factory Hin. apply Hmake. by apply (elem_of_registryOrder registryOrder). }
  rewrite Hs. cbn [mbind result_bind].
  destruct (initPlugins_spec _ _ _ _ _ _ (registryOrder_NoDup registryOrder registryOrder_perm r) Hs) as (Hw&Hin&Hout).
  cbn [totalPriority weights pluginsMap] in Hw, Hin, Hout.
  assert (Hmap : pluginsMap s = builtMap r plugins pluginConfig).
  { apply map_eq. intros n. unfold builtMap. rewrite map_lookup_imap. destruct (r !! n) as [factory|] eqn:Hr; cbn.
    - destruct (pluginsNeeded plugins !! n) eqn:Hn; [|rewrite Hout by auto; apply lookup_empty].
      destruct (Hin n factory) as (p0&(a&->&->)&Hp); [by apply (elem_of_registryOrder registryOrder)|by rewrite Hn|exact Hp].
    - rewrite Hout; [apply lookup_empty|]. left. rewrite list_elem_of_fmap. intros ([n' fac]&->&Hin').
      apply (elem_of_registryOrder registryOrder) in Hin'; [|done]. cbn in Hr. congruence. }
  unfold updatePluginLists. cbn [pluginsMap weights]. rewrite Hmap.
  replace (weights s) with (weightsOf r plugins) by congruence. reflexivity.
Qed.

(** ** The names and the weights of the score plugins *)
Definition weightAt (plugins : Plugins) (c : Plugin) : Z :=
  default 0 (effectiveWeight <$> pluginsNeeded plugins !! cfg_Name c).

(** A factory makes score plugins of the name under which it is registered. *)
Definition keepsNames (r : Registry) : Prop :=
  forall n factory obj p pl, r !! n = Some factory -> factory obj = Ok p -> asScore p = Some pl -> scoreplugin_Name pl = n.

Lemma fills_names r plugins pluginConfig built l : keepsNames r -> builtFrom decodeDefault r plugins pluginConfig built ->
  fills asScore built (enabledAt (at_Score plugins)) l -> scoreplugin_Name <$> l = cfg_Name <$> enabledAt (at_Score plugins).
Proof.
  intros Hk Hb [_ Hf]. induction Hf as [|c pl cs pls (p&Hp&Hpl) _ IH]; [done|]. rewrite !fmap_cons. f_equal; [|done].
  apply Hb in Hp as (_&factory&Hfac&args&_&Hp). by eapply Hk.
Qed.

Lemma configuredWeights_names r plugins : NoDup (configuredWeights (pluginsNeeded plugins) (registryOrder r)).*1.
Proof using registryOrder_perm.
  pose proof (registryOrder_NoDup registryOrder registryOrder_perm r) as Hnd. revert Hnd.
  generalize (registryOrder r) (pluginsNeeded plugins). intros l pg. unfold configuredWeights.
  induction l as [|e l IH]; [intros; apply NoDup_nil_2|].
  rewrite fmap_cons, NoDup_cons. intros [He Hnd]. cbn. destruct (pg !! e.1) eqn:Hn; cbn; [|by apply IH].
  apply NoDup_cons. split; [|by apply IH]. rewrite list_elem_of_fmap. intros ([n w]&Heq&Hin). cbn in Heq. subst n.
  apply list_elem_of_omap in Hin as ([n fac]&Hin&Hx). cbn in Hx. destruct (pg !! n); [|done].
  injection Hx as Hn' _. apply He. rewrite <- Hn'. apply list_elem_of_fmap. by exists (n, fac).
Qed.

Lemma registered_score r plugins pluginConfig built c : builtFrom decodeDefault r plugins pluginConfig built ->
  is_Some (built !! cfg_Name c) ->
  cfg_Name c ∈ (configuredWeights (pluginsNeeded plugins) (registryOrder r)).*1 /\
  weightsOf r plugins !! cfg_Name c = Some (weightAt plugins c).
Proof using registryOrder_perm.
  intros Hb [p Hp]. apply Hb in Hp as ([c' Hc']&factory&Hfac&_). unfold weightsOf, weightAt. split.
  - apply list_elem_of_fmap. exists (cfg_Name c, cfg_Weight c'). split; [done|]. apply elem_of_configuredWeights.
    exists factory, c'. split_and!; [|done..]. by apply (elem_of_registryOrder registryOrder).
  - rewrite map_lookup_imap, Hc'. cbn. by rewrite Hfac.
Qed.

Lemma sumOver_zip {A B} (f : B -> Z) (g : A * B -> Z) l l' :
  Forall2 (fun a b => f b = g (a, b)) l l' -> sumOver f l' = sumOver g (zip l l').
Proof. induction 1 as [|a b l l' Hab _ IH]; [done|].
  change (zip (a :: l) (b :: l')) with ((a, b) :: zip l l'). by rewrite !sumOver_cons, Hab, IH.
Qed.

(** C24: In a framework that [NewFramework] returns for weights that are not negative and below 2^31, from a
    registry of at most 2^24 plugins whose factories keep the names, and without extenders, the total of every feasible node is exactly the sum
    over the enabled score plugins of their weight times their normalized score: no
    product and no sum overflows.  The weight is the one configured (1 for 0), of the last
    entry when the plugin is enabled at several extension points. *)
Theorem totals_are_weighted_as_configured r plugins args name all f MaxExtenderPriority order1 order2 order3 orderExtenders
    state state' pod nodes l :
  smallWeights r plugins -> keepsNames r ->
  NewFramework decodeDefault registryOrder r (Some plugins) args name all = Ok f ->
  let impl := prof_Framework (fw_profile f) in
  order1 ≡ₚ seq 0 (length nodes) -> order2 ≡ₚ seq 0 (length (scorePlugins impl)) ->
  order3 ≡ₚ seq 0 (length (scorePlugins impl)) -> HasScorePlugins impl = true ->
  prioritizeNodes MaxExtenderPriority impl [] order1 order2 order3 orderExtenders state pod nodes = (Ok l, state') ->
  score_Name <$> l = node_Name <$> nodes /\
  forall i ns, l !! i = Some ns ->
    Score ns = sumOver (fun e => weightAt plugins e.1 * normalizedScore e.2 state' pod nodes i)
                 (zip (enabledAt (at_Score plugins)) (scorePlugins impl)) /\
    0 <= Score ns <= max_int64.
Proof using registryOrder_perm.
  intros Hsmall Hk Hf impl H1 H2 H3 Hhas Hp.
  pose proof (configureWeights_weightsOf r plugins Hsmall) as Hcw.
  destruct (NewFramework_Ok _ _ registryOrder_perm _ _ _ _ _ _ Hf) as (pc&built&_&Hb&Hr&_&_&_&Hw).
  pose proof (rz_score _ _ _ Hr) as Hfill. fold impl in Hfill, Hw.
  pose proof (fills_names _ _ _ _ _ Hk Hb Hfill) as Hnames. destruct Hfill as [Hnd Hfill].
  assert (Hweights : pluginNameToWeightMap impl = weightsOf r plugins) by congruence.
  edestruct (prioritize_adds_weighted_scores MaxExtenderPriority impl) as [Hl Hs]; [exact Hw|..|exact Hp|].
  - apply list.Forall_forall. intros e He. apply elem_of_configuredWeights in He as (fac&c&_&Hc&->). by apply (proj1 Hsmall _ c Hc).
  - apply configuredWeights_names.
  - by rewrite Hnames.
  - intros pl Hpl. apply (list_elem_of_fmap_2 scoreplugin_Name) in Hpl. rewrite Hnames in Hpl.
    apply list_elem_of_fmap in Hpl as (c&->&Hc). eapply registered_score; [exact Hb|].
    apply list_elem_of_lookup in Hc as [i Hi]. destruct (Forall2_lookup_l _ _ _ _ _ Hfill Hi) as (x&_&p&Hp'&_). by rewrite Hp'.
  - done.
  - done.
  - done.
  - done.
  - split; [done|]. intros i ns Hi. destruct (Hs i ns Hi) as [-> Hrange]. split; [|done]. unfold totalScore.
    apply sumOver_zip. eapply Forall2_impl; [exact Hfill|].
    intros c pl (p&Hp'&Hpl). cbn [fst snd]. f_equal. unfold weightOf.
    assert (Hname : scoreplugin_Name pl = cfg_Name c).
    { apply Hb in Hp' as (_&factory&Hfac&args'&_&Hp'). by eapply Hk. }
    rewrite Hname, Hweights. destruct (registered_score r plugins pc built c Hb) as [_ ->]; [by rewrite Hp'|done].
Qed.
End Framework.

(** ** The plugins of a policy *)

(** A plugin is enabled as a filter. *)
Definition filters (plugins : Plugins) (name : string) : Prop := name ∈ (cfg_Name <$> enabledAt (at_Filter plugins)).

Lemma enabledAt_append dst src : enabledAt (appendPluginSet dst src) = enabledAt dst ++ enabledAt src.
Proof. unfold enabledAt, appendPluginSet. destruct src; cbn; [done|by rewrite app_nil_r]. Qed.

Lemma filters_Append p q name : filters (Append p (Some q)) name <-> filters p name \/ filters q name.
Proof.
  unfold filters, Append, pointwise. cbn [at_Filter]. rewrite enabledAt_append, fmap_app. apply elem_of_app.
Qed.

Lemma produceAll_filters producers missing keys name : forall s s',
  produceAll producers missing keys s = Ok s' ->
  (filters s.1 name \/ exists key args producer pl plc, (key, args) ∈ keys /\ producers !! key = Some producer /\
     producer args = Some (pl, plc) /\ filters pl name) ->
  filters s'.1 name.
Proof.
  induction keys as [|[key args] keys IH]; intros s s' Hp Hf.
  - injection Hp as <-. destruct Hf as [?|(?&?&?&?&?&Hin&_)]; [done|by apply elem_of_nil in Hin].
  - cbn [produceAll] in Hp. destruct (producers !! key) as [producer|] eqn:Hkey; [|done].
    destruct (producer args) as [[pl plc]|] eqn:Hprod; [|done]. apply (IH _ _ Hp). cbn [fst].
    destruct Hf as [Hf|(key'&args'&producer'&pl'&plc'&[[= -> ->]|Hin]%list.elem_of_cons&Hk&Hpr&Hf)].
    + left. apply filters_Append. by left.
    + left. apply filters_Append. right. congruence.
    + right. by exists key', args', producer', pl', plc'.
Qed.

(** The predicates that no policy can leave out, with their plugins. *)
Definition mandatoryFilters : list (string * string) :=
  [("PodToleratesNodeTaints", tainttoleration_Name); ("CheckNodeUnschedulable", nodeunschedulable_Name)].

Lemma legacy_mandatory lr predicate name : NewLegacyRegistry = Some lr -> (predicate, name) ∈ mandatoryFilters ->
  predicate ∈ MandatoryPredicates lr /\ predicate ∈ PredicateOrdering /\
  exists producer, PredicateToConfigProducer lr !! predicate = Some producer /\
    forall args, producer args = Some (addFilter name emptyPlugins, []).
Proof.
  intros Hlr Hin. unfold mandatoryFilters in Hin.
  assert (Hlook : forall p, (PredicateToConfigProducer <$> NewLegacyRegistry) ≫= (fun m => m !! p) =
    PredicateToConfigProducer lr !! p) by (intros; by rewrite Hlr).
  assert (Hman : (MandatoryPredicates <$> NewLegacyRegistry) = Some (MandatoryPredicates lr)) by by rewrite Hlr.
  assert (Hset : MandatoryPredicates lr = {["PodToleratesNodeTaints"; "CheckNodeUnschedulable"]}).
  { apply (inj Some). rewrite <- Hman. vm_compute. reflexivity. }
  rewrite !list.elem_of_cons, elem_of_nil in Hin. destruct Hin as [[= -> ->]|[[= -> ->]|[]]].
  - split_and!; [rewrite Hset| |]; [by apply (bool_decide_unpack _); vm_compute..|].
    exists (only (addFilter tainttoleration_Name)). split; [|done]. rewrite <- Hlook. vm_compute. reflexivity.
  - split_and!; [rewrite Hset| |]; [by apply (bool_decide_unpack _); vm_compute..|].
    exists (only (addFilter nodeunschedulable_Name)). split; [|done]. rewrite <- Hlook. vm_compute. reflexivity.
Qed.

Lemma policyPlugins_filters restOrder sortStrings argsOrder policy plugins config predicate name :
  policyPlugins restOrder sortStrings argsOrder policy = Ok (plugins, config) ->
  (predicate, name) ∈ mandatoryFilters -> filters plugins name.
Proof.
  unfold policyPlugins. intros Hp Hin. destruct NewLegacyRegistry as [lr|] eqn:Hlr; [|done]. cbn [orDie mbind result_bind] in Hp.
  destruct (orDie match Predicates policy with Some _ => _ | None => _ end) as [[keys args]| |]; [|done..]. cbn [mbind result_bind] in Hp.
  destruct (orDie _) as [[priorities args']| |]; [|done..]. cbn [mbind result_bind] in Hp.
  revert Hp. generalize (if decide (HardPodAffinitySymmetricWeight policy <> 0)
    then withHardPodAffinityWeight (HardPodAffinitySymmetricWeight policy) args' else args'). intros args'' Hp.
  destruct (getPredicateConfigs _ _ _ _) as [[forPredicates config1]| |] eqn:Hpred; [|done..]. cbn [mbind result_bind] in Hp.
  destruct (getPriorityConfigs _ _ _ _) as [[forPriorities config2]| |]; [|done..]. cbn [mbind result_bind] in Hp.
  destruct (mergePluginConfigsFromPolicy _ _ _); [|done..]. cbn [mbind result_bind] in Hp. 
  assert (Heq : plugins = Append (Append (Append emptyPlugins (Some sortAndBind)) (Some forPredicates)) (Some forPriorities))
    by (unfold mret, result_ret in Hp; congruence).
  rewrite Heq, !filters_Append. left. right.
  destruct (legacy_mandatory lr predicate name Hlr Hin) as (Hm&Ho&producer&Hprod&Hpl).
  unfold getPredicateConfigs in Hpred. apply (produceAll_filters _ _ _ name) in Hpred; [done|]. right.
  exists predicate, args'', producer, (addFilter name emptyPlugins), []. split_and!; [|done|by apply Hpl|].
  - apply list_elem_of_fmap. exists predicate. split; [done|]. apply elem_of_app. left. apply list_elem_of_filter.
    split; [by apply elem_of_union_r|done].
  - apply list.elem_of_cons. by left.
Qed.

(** ** Creating a scheduler *)
Section Create.
Context `{StateData}.
Abbreviation PluginFactory := (option Object -> result string plugin).
Abbreviation Registry := (gmap string PluginFactory).
Context (decodeDefault : string -> result string (option Object))
  (registryOrder : Registry -> list (string * PluginFactory)) (NewHTTPExtender : ExtenderConfig -> result string Extender).

Lemma newMapLoop_spec factory cfgs : forall m v m', newMapLoop factory m v cfgs = Ok m' ->
  NoDup (profile_SchedulerName <$> cfgs) /\
  (forall cfg, cfg ∈ cfgs -> m !! profile_SchedulerName cfg = None /\ exists f,
     m' !! profile_SchedulerName cfg = Some f /\ factory cfg (profile_SchedulerName cfg) = Ok f) /\
  forall name, name ∉ (profile_SchedulerName <$> cfgs) -> m' !! name = m !! name.
Proof.
  induction cfgs as [|cfg cfgs IH]; intros m v m' Hm.
  { injection Hm as <-. split_and!; [apply NoDup_nil_2| |done]. intros cfg Hin. by apply elem_of_nil in Hin. }
  cbn [newMapLoop] in Hm. destruct (validateProfile m v cfg) as [v'| |] eqn:Hv; [|done..]. cbn [mbind result_bind] in Hm.
  unfold NewProfile in Hm. destruct (factory cfg _) as [f| |] eqn:Hf; [|done..]. cbn [mbind result_bind] in Hm.
  assert (Hfresh : m !! profile_SchedulerName cfg = None).
  { unfold validateProfile in Hv. case_decide; [done|]. destruct (profile_Plugins cfg); [|done].
    by destruct (m !! profile_SchedulerName cfg). }
  destruct (IH _ _ _ Hm) as (Hnd&Hin&Hout).
  assert (Hname : profile_SchedulerName cfg ∉ (profile_SchedulerName <$> cfgs)).
  { intros (cfg'&Heq&Hc)%list_elem_of_fmap. destruct (Hin cfg' Hc) as [Hn _]. rewrite <- Heq, lookup_insert_eq in Hn. done. }
  rewrite fmap_cons, NoDup_cons. split_and!; [done..| |].
  - intros cfg' [->|Hc]%list.elem_of_cons.
    + split; [done|]. exists f. split; [|done]. by rewrite Hout, lookup_insert_eq.
    + destruct (Hin cfg' Hc) as [Hn Hex]. split; [|done]. rewrite lookup_insert_ne in Hn; [done|].
      intros Heq. apply Hname. rewrite Heq. by apply list_elem_of_fmap_2.
  - intros name [Hne Hn]%not_elem_of_cons. rewrite Hout by done. apply lookup_insert_ne. congruence.
Qed.

(** What [create] makes: a framework for every profile, from its plugins and its
    arguments, which an ignored resource of an extender extends. *)
Lemma create_spec c s : create decodeDefault registryOrder NewHTTPExtender c = Ok s ->
  NoDup (profile_SchedulerName <$> c_profiles c) /\
  (forall cfg, cfg ∈ c_profiles c -> is_Some (created_Profiles s !! profile_SchedulerName cfg)) /\
  forall name f, created_Profiles s !! name = Some f ->
    exists cfg args, cfg ∈ c_profiles c /\ profile_SchedulerName cfg = name /\
      NewFramework decodeDefault registryOrder (c_registry c) (profile_Plugins cfg) (profile_PluginConfig cfg ++ args) name
        (alwaysCheckAllPredicates c) = Ok f.
Proof.
  unfold create. intros Hc. destruct (newExtenders _ _) as [[[extenders ignorable] ignored]| |]; [|done..].
  cbn [mbind result_bind] in Hc.
  set (extra := match ignored with [] => [] | _ =>
    [{| pc_Name := FitName; pc_Args := Some (NodeResourcesFitObject
          {| IgnoredResources := ignored; IgnoredResourceGroups := [] |}) |}] end).
  set (profiles := match ignored with [] => c_profiles c | _ => addIgnoredResources ignored <$> c_profiles c end) in Hc.
  assert (Hprof : profiles = (fun p => {| profile_SchedulerName := profile_SchedulerName p;
      profile_Plugins := profile_Plugins p; profile_PluginConfig := profile_PluginConfig p ++ extra |}) <$> c_profiles c).
  { unfold profiles, extra. destruct ignored; [|done]. rewrite <- (list_fmap_id (c_profiles c)) at 1.
    apply list_fmap_ext. intros _ [] _. cbn. by rewrite app_nil_r. }
  destruct (NewMap profiles _) as [m| |] eqn:Hm; [|done..]. cbn [mbind result_bind] in Hc.
  assert (Hs : created_Profiles s = m).
  { destruct profiles as [|first profiles']; [done|]. destruct (m !! profile_SchedulerName first) as [f|]; [|done].
    destruct (QueueSortFunc f); [|done..]. cbn in Hc. by injection Hc as <-. }
  rewrite Hs. clear Hc Hs. unfold NewMap in Hm. destruct (newMapLoop_spec _ _ _ _ _ Hm) as (Hnd&Hin&Hout).
  split; [|split].
  - rewrite Hprof, <- list_fmap_compose in Hnd. exact Hnd.
  - intros cfg Hcfg. apply (list_elem_of_fmap_2 profile_SchedulerName) in Hcfg.
    assert (Hnames : profile_SchedulerName cfg ∈ (profile_SchedulerName <$> profiles)) by (by rewrite Hprof, <- list_fmap_compose).
    apply list_elem_of_fmap in Hnames as (cfg'&->&Hcfg'). destruct (Hin cfg' Hcfg') as (_&f&Hf&_). by exists f.
  - intros name f Hf. destruct (decide (name ∈ (profile_SchedulerName <$> profiles))) as [Hn|Hn].
    + apply list_elem_of_fmap in Hn as (cfg&->&Hcfg). destruct (Hin cfg Hcfg) as (_&f'&Hf'&Hb).
      rewrite Hprof in Hcfg. apply list_elem_of_fmap in Hcfg as (cfg'&->&Hcfg). cbn [profile_SchedulerName] in *.
      exists cfg', extra. split_and!; [done..|]. assert (f' = f) as <- by congruence. exact Hb.
    + rewrite Hout, lookup_empty in Hf; done.
Qed.

Context (registryOrder_perm : forall r, registryOrder r ≡ₚ map_to_list r).

(** C25: Whatever predicates and priorities a policy lists, and in whatever order Go goes through
    its maps, a scheduler that is created from it has a framework for every profile, and
    every one of them runs the filters of the two mandatory predicates, the taints of the node
    and its unschedulable flag, as their factories make them. *)
Theorem policies_keep_the_mandatory_filters restOrder sortStrings argsOrder IsQualifiedName c policy s :
  createFromConfig decodeDefault registryOrder NewHTTPExtender restOrder sortStrings argsOrder IsQualifiedName c policy = Ok s ->
  (forall cfg, cfg ∈ c_profiles c -> is_Some (created_Profiles s !! profile_SchedulerName cfg)) /\
  forall name f predicate filterName, created_Profiles s !! name = Some f -> (predicate, filterName) ∈ mandatoryFilters ->
    exists factory args p filter, c_registry c !! filterName = Some factory /\ factory args = Ok p /\
      asFilter p = Some filter /\ filter ∈ filterPlugins (prof_Framework (fw_profile f)).
Proof using registryOrder_perm.
  unfold createFromConfig. intros Hc. destruct (ValidatePolicy IsQualifiedName policy); [|done].
  destruct (policyPlugins _ _ _ policy) as [[plugins config]| |] eqn:Hp; [|done..]. cbn [mbind result_bind] in Hc.
  set (c' := if AlwaysCheckAllPredicates policy then withAllPredicates true c else c) in Hc.
  assert (Hc' : c_profiles c' = c_profiles c /\ c_registry c' = c_registry c)
    by (unfold c'; destruct (AlwaysCheckAllPredicates policy); split; reflexivity).
  destruct Hc' as [Hprofiles Hregistry]. apply create_spec in Hc as (_&Hall&Hfw). cbn [c_profiles c_registry withProfiles] in *.
  rewrite Hprofiles in Hall, Hfw. rewrite Hregistry in Hfw. split.
  - intros cfg Hcfg. apply (Hall {| profile_SchedulerName := profile_SchedulerName cfg;
      profile_Plugins := Some (Append emptyPlugins (Some plugins)); profile_PluginConfig := config |}).
    apply list_elem_of_fmap. exists cfg. split; [reflexivity|exact Hcfg].
  - intros name f predicate filterName Hf Hm.
    destruct (Hfw name f Hf) as (cfg&extra&Hcfg&_&Hnew). apply list_elem_of_fmap in Hcfg as (cfg'&->&_).
    cbn [profile_Plugins profile_PluginConfig] in Hnew.
    destruct (NewFramework_Ok _ _ registryOrder_perm _ _ _ _ _ _ Hnew) as (pc&built&_&Hb&Hr&_).
    assert (Hfilter : filters (Append emptyPlugins (Some plugins)) filterName).
    { apply filters_Append. right. by eapply policyPlugins_filters. }
    apply list_elem_of_fmap in Hfilter as (ep&->&Hep). destruct (rz_filter _ _ _ Hr) as [_ Hfill].
    apply list_elem_of_lookup in Hep as [i Hi].
    destruct (Forall2_lookup_l _ _ _ _ _ Hfill Hi) as (x&Hx&p&Hpl&Hfil).
    apply Hb in Hpl as (_&factory&Hfac&args&_&Hmake). exists factory, args, p, x.
    split; [exact Hfac|]. split; [exact Hmake|]. split; [exact Hfil|]. exact (list_elem_of_lookup_2 _ _ _ Hx).
Qed.
End Create.

(** ** Witnesses *)
#[local] Existing Instance exampleData.
#[local] Existing Instance codePodPriority.

(** A plugin of the example. *)
Definition examplePlugin (name : string) (queueSort : option QueueSortPlugin) (filter : option FilterPlugin)
    (score : option ScorePlugin) (binds : bool) : plugin :=
  {| plugin_Name := name; asQueueSort := queueSort; asPreFilter := None; asFilter := filter; isPostFilter := false;
     asPreScore := None; asScore := score; isReserve := false; isPermit := false; isPreBind := false; isBind := binds;
     isPostBind := false |}.
Definition allowAll (name : string) : FilterPlugin := {| filter_Name := name; Filter _ _ _ := None |}.

(** A registry with the plugins that a policy always uses and the scores of [exampleFramework]. *)
Definition exampleRegistry : gmap string (option Object -> result string plugin) :=
  list_to_map ((fun p => (plugin_Name p, fun _ => Ok p)) <$>
    ([examplePlugin queuesort_Name (Some {| sortplugin_Name := queuesort_Name; Less := PrioritySort_Less |}) None None false;
      examplePlugin defaultbinder_Name None None None true;
      examplePlugin tainttoleration_Name None (Some (allowAll tainttoleration_Name)) None false;
      examplePlugin nodeunschedulable_Name None (Some (allowAll nodeunschedulable_Name)) None false] ++
     ((fun pl => examplePlugin (scoreplugin_Name pl) None None (Some pl) false) <$> scorePlugins exampleFramework))).

(** "length" has no weight of its own, "fifty" has weight 2. *)
Definition examplePlugins : Plugins :=
  Append sortAndBind (Some
    {| at_QueueSort := None; at_PreFilter := None; at_Filter := unweighted [tainttoleration_Name]; at_PostFilter := None;
       at_PreScore := None;
       at_Score := Some {| Enabled := [{| cfg_Name := "length"; cfg_Weight := 0 |}; {| cfg_Name := "fifty"; cfg_Weight := 2 |}];
                           Disabled := [] |};
       at_Reserve := None; at_Permit := None; at_PreBind := None; at_Bind := None; at_PostBind := None |}).

Lemma example_smallWeights : smallWeights exampleRegistry examplePlugins.
Proof.
  split; [|vm_compute; discriminate]. apply map_Forall_lookup. apply (bool_decide_unpack _). vm_compute. exact I.
Qed.

Lemma exampleRegistry_makes n factory obj p : exampleRegistry !! n = Some factory -> factory obj = Ok p ->
  plugin_Name p = n /\ forall pl, asScore p = Some pl -> scoreplugin_Name pl = n.
Proof.
  intros Hf. apply elem_of_list_to_map_2 in Hf. cbn in Hf.
  repeat (apply list.elem_of_cons in Hf as [[= -> ->]|Hf]); [..|by apply elem_of_nil in Hf].
  all: intros [= <-]; split; [reflexivity|]; intros pl; cbn; try discriminate; intros [= <-]; reflexivity.
Qed.

Definition exampleBuilt : result string framework :=
  NewFramework (fun _ => Ok None) map_to_list exampleRegistry (Some examplePlugins) [] "default-scheduler" false.

Lemma framework_runs_the_enabled_plugins_witness :
  exists f built, exampleBuilt = Ok f /\ realizes examplePlugins built f /\
    filter_Name <$> filterPlugins (prof_Framework (fw_profile f)) = [tainttoleration_Name] /\
    map_to_list (pluginNameToWeightMap (prof_Framework (fw_profile f))) ≡ₚ map_to_list (weightsOf exampleRegistry examplePlugins).
Proof.
  destruct exampleBuilt as [f| |] eqn:Hf; [|vm_compute in Hf; discriminate..].
  pose proof (framework_runs_the_enabled_plugins (fun _ => Ok None) map_to_list (fun _ => reflexivity _) exampleRegistry
    examplePlugins [] "default-scheduler" false f example_smallWeights) as Hiff.
  destruct (proj1 Hiff Hf) as (pc&built&_&_&_&Hr&_&_&Hw&_).
  exists f, built. split; [reflexivity|]. split; [exact Hr|]. split; [|rewrite Hw; reflexivity].
  vm_compute in Hf. injection Hf as <-. reflexivity.
Defined.

Lemma totals_are_weighted_as_configured_witness :
  exists f l, exampleBuilt = Ok f /\
    prioritizeNodes 10 (prof_Framework (fw_profile f)) [] [1; 0]%nat [0; 1]%nat [1; 0]%nat [] ∅ examplePod1 exampleNodes = (Ok l, ∅) /\
    Score <$> l = [102; 105].
Proof.
  destruct exampleBuilt as [f| |] eqn:Hf; [|vm_compute in Hf; discriminate..].
  destruct (prioritizeNodes 10 (prof_Framework (fw_profile f)) [] [1; 0]%nat [0; 1]%nat [1; 0]%nat [] ∅ examplePod1 exampleNodes)
    as [[l| |] st] eqn:E; [|vm_compute in Hf; injection Hf as <-; vm_compute in E; discriminate..].
  exists f, l.
  destruct (totals_are_weighted_as_configured (fun _ => Ok None) map_to_list (fun _ => reflexivity _) exampleRegistry
    examplePlugins [] "default-scheduler" false f 10 [1; 0]%nat [0; 1]%nat [1; 0]%nat [] ∅ st examplePod1 exampleNodes l)
    as [_ Hl].
  - exact example_smallWeights.
  - intros n factory obj p pl Hn Hp Hs. by eapply exampleRegistry_makes.
  - exact Hf.
  - apply Permutation_swap.
  - vm_compute in Hf. injection Hf as <-. reflexivity.
  - vm_compute in Hf. injection Hf as <-. apply Permutation_swap.
  - vm_compute in Hf. injection Hf as <-. reflexivity.
  - exact E.
  - vm_compute in Hf. injection Hf as <-. vm_compute in E. injection E as <- <-.
    split; [reflexivity|]. split; [reflexivity|]. destruct (Hl 0%nat _ eq_refl) as [H0 _]. destruct (Hl 1%nat _ eq_refl) as [H1 _].
    cbn in H0, H1. reflexivity.
Defined.

(** A policy that asks for nothing. *)
Definition nothingPolicy : Policy :=
  {| Predicates := Some []; Priorities := Some []; policy_Extenders := []; HardPodAffinitySymmetricWeight := 0;
     AlwaysCheckAllPredicates := true |}.
Definition exampleConfigurator : Configurator :=
  {| alwaysCheckAllPredicates := false; c_percentageOfNodesToScore := 0; podInitialBackoffSeconds := 1;
     podMaxBackoffSeconds := 10; c_profiles := o_profiles defaultSchedulerOptions; c_registry := exampleRegistry; c_extenders := [] |}.

Lemma policies_keep_the_mandatory_filters_witness :
  exists s f, createFromConfig (fun _ => Ok None) map_to_list (fun _ => Err "no extender") elements id map_to_list (fun _ => [])
      exampleConfigurator nothingPolicy = Ok s /\
    created_Profiles s !! "default-scheduler" = Some f /\ runAllFilters (prof_Framework (fw_profile f)) = true /\
    exists filter, filter ∈ filterPlugins (prof_Framework (fw_profile f)) /\ filter_Name filter = tainttoleration_Name.
Proof.
  destruct (createFromConfig (fun _ => Ok None) map_to_list (fun _ => Err "no extender") elements id map_to_list (fun _ => [])
      exampleConfigurator nothingPolicy) as [s| |] eqn:Hs; [|vm_compute in Hs; discriminate..].
  destruct (policies_keep_the_mandatory_filters (fun _ => Ok None) map_to_list (fun _ => Err "no extender")
    (fun _ => reflexivity _) elements id map_to_list (fun _ => []) exampleConfigurator nothingPolicy s Hs) as [Hall Hm].
  destruct (created_Profiles s !! "default-scheduler") as [f|] eqn:Hf; [|vm_compute in Hs; injection Hs as <-; vm_compute in Hf; discriminate].
  exists s, f. split; [reflexivity|]. split; [exact Hf|].
  destruct (Hm "default-scheduler" f "PodToleratesNodeTaints" tainttoleration_Name Hf) as (factory&args&p&fl&Hfac&Hp&Hfl&Hin).
  { apply list.elem_of_cons. left. reflexivity. }
  split; [vm_compute in Hs; injection Hs as <-; vm_compute in Hf; injection Hf as <-; reflexivity|].
  exists fl. split; [exact Hin|]. vm_compute in Hfac. injection Hfac as <-. injection Hp as <-. injection Hfl as <-. reflexivity.
Defined.
