(* ===== verification/DefaultScheduler.v ===== *)
(** * The scheduler of the default provider with the plugins of the tree

    What [New] makes of its default options, and of a profile that gives the plugins their
    arguments. *)
From S2P Require Import Prelude Api NodeInfo NodeTree Framework PriorityQueue Float64 PluginData NodeResources NodePlugins.
From S2P Require Import SelectorSpread PodTopologySpread TopologySpreadSpec TopologySpreadScore InterPodAffinity InterPodAffinityScore.
From S2P Require Import GenericScheduler Binding Configuration LegacyRegistry Setup InTree Factory SetupSpec ConfigurationTheorems.
Local Open Scope Z_scope.

Section Default.
Context `{LabelsLib, SelectorLib, MathLib, ZoneKey, PodPriority}.
Context (nodeInfos : NodeInfoLister) (allNodes havePodsWithAffinityNodes : list NodeInfo) (informers : spreadListers)
  (scalarOrder : gmap string Z -> list (string * Z))
  (addOrder : list (topologyPair * Z) -> list (topologyPair * Z))
  (pairOrder : topologyToMatchedTermCount -> list (topologyPair * Z))
  (finishOrder : forall A, list A -> list A)
  (Everything : Selector) (parseErrorText : Pod -> ParseErrorKind -> string) (crashed : Status).
Abbreviation PluginFactory := (option Object -> result string plugin).
Context (registryOrder : gmap string PluginFactory -> list (string * PluginFactory))
  (registryOrder_perm : forall r, registryOrder r ≡ₚ map_to_list r)
  (NewHTTPExtender : ExtenderConfig -> result string Extender)
  (restOrder : gset string -> list string) (sortStrings : list string -> list string)
  (argsOrder : gmap string (option Object) -> list (string * option Object)) (IsQualifiedName : string -> list string)
  (initPolicyFromFile : string -> result string Policy) (initPolicyFromConfigMap : string * string -> result string Policy).

(** The registry of the tree over these surroundings. *)
Definition inTree : gmap string PluginFactory :=
  NewInTreeRegistry nodeInfos allNodes havePodsWithAffinityNodes informers scalarOrder addOrder pairOrder finishOrder
    Everything parseErrorText crashed.

(** The scheme of the repository registers no kind, so that no plugin has default arguments. *)
Definition emptyScheme : string -> result string (option Object) := fun _ => Ok None.

Definition defaultPlugins : Plugins := Apply (Append emptyPlugins (Some (applyFeatureGates getDefaultConfig))) None.

Lemma default_needed : is_Some (pluginsNeeded defaultPlugins !! FitName).
Proof. vm_compute. eauto. Qed.

Lemma default_smallWeights : smallWeights inTree defaultPlugins.
Proof.
  split.
  - intros n c Hn. apply pluginsNeeded_Some in Hn as [Hc _].
    assert (Hall : Forall (fun c => 0 <= cfg_Weight c < 2 ^ 31) (getExtensionPoints defaultPlugins ≫= enabledAt)).
    { apply (bool_decide_unpack _). vm_compute. exact I. }
    rewrite list.Forall_forall in Hall. by apply Hall.
  - unfold inTree, NewInTreeRegistry.
    match goal with |- Z.of_nat (size (list_to_map ?l)) <= _ => assert (Hle : (size (list_to_map l : gmap string PluginFactory) <= length l)%nat) end.
    { rewrite <- length_map_to_list. etransitivity; [|reflexivity].
      rewrite map_to_list_to_map; [done|]. apply (bool_decide_unpack _). vm_compute. exact I. }
    apply Nat2Z.inj_le in Hle. etransitivity; [exact Hle|]. vm_compute. discriminate.
Qed.

(** The factories of the tree return an error or a plugin. *)
Lemma inTree_returns n factory args : inTree !! n = Some factory -> factory args <> Panic.
Proof.
  intros Hf. apply elem_of_list_to_map_2 in Hf. unfold inTreeFactories in Hf.
  repeat (apply list.elem_of_cons in Hf as [[= -> ->]|Hf]); [..|by apply elem_of_nil in Hf]; try discriminate.
  all: destruct args as [[]|]; try discriminate; cbn; repeat case_match; discriminate.
Qed.

(** ** Without arguments *)
Lemma NewFramework_fails r plugins args name all pluginConfig :
  collectConfig ∅ args = Ok pluginConfig ->
  (forall n factory obj, r !! n = Some factory -> factory obj <> Panic) ->
  (exists n factory, r !! n = Some factory /\ is_Some (pluginsNeeded plugins !! n) /\
     ~ exists p, makes emptyScheme pluginConfig n factory p) ->
  exists err, NewFramework emptyScheme registryOrder r (Some plugins) args name all = Err err.
Proof using registryOrder_perm.
  intros Hc Hp (n&factory&Hr&Hn&Hno). unfold NewFramework. rewrite Hc. cbn [mbind result_bind].
  destruct (initPlugins_fails emptyScheme (pluginsNeeded plugins) pluginConfig (registryOrder r)
    {| pluginsMap := ∅; weights := ∅; totalPriority := 0 |}) as [err ->].
  - intros n' fac Hin. apply (elem_of_registryOrder registryOrder registryOrder_perm) in Hin. split; [|intros a; by eapply Hp].
    unfold getPluginArgsOrDefault. by destruct (pluginConfig !! n').
  - exists n, factory. split; [by apply (elem_of_registryOrder registryOrder registryOrder_perm)|]. done.
  - by eexists.
Qed.

Definition newScheduler : schedulerOptions -> result string created :=
  New emptyScheme registryOrder NewHTTPExtender restOrder sortStrings argsOrder IsQualifiedName
    initPolicyFromFile initPolicyFromConfigMap inTree.

(** The default options with arguments for some plugins. *)
Definition withConfig (config : list PluginConfig) : schedulerOptions :=
  {| schedulerAlgorithmSource := schedulerAlgorithmSource defaultSchedulerOptions;
     o_percentageOfNodesToScore := 0; o_podInitialBackoffSeconds := 1; o_podMaxBackoffSeconds := 10;
     frameworkOutOfTreeRegistry := ∅;
     o_profiles := [{| profile_SchedulerName := "default-scheduler"; profile_Plugins := None;
                       profile_PluginConfig := config |}];
     o_extenders := [] |}.

(** Arguments for the four plugins that want some. *)
Definition fourArguments (hardPodAffinityWeight : Z) : list PluginConfig := [
  {| pc_Name := FitName; pc_Args := Some (NodeResourcesFitObject {| IgnoredResources := []; IgnoredResourceGroups := [] |}) |};
  {| pc_Name := podtopologyspread_Name; pc_Args := Some (PodTopologySpreadArgs []) |};
  {| pc_Name := interpodaffinity_Name; pc_Args := Some (InterPodAffinityArgs hardPodAffinityWeight) |};
  {| pc_Name := LeastAllocatedName;
     pc_Args := Some (NodeResourcesLeastAllocatedArgs [{| rs_Name := ResourceCPU; rs_Weight := 1 |};
                                                       {| rs_Name := ResourceMemory; rs_Weight := 1 |}]) |}].

Definition frameworkOf (config : list PluginConfig) : result string framework :=
  NewFramework emptyScheme registryOrder inTree (Some defaultPlugins) config "default-scheduler" false.

Lemma newScheduler_withConfig config :
  match frameworkOf config with
  | Ok f => newScheduler (withConfig config) =
      (less ← QueueSortFunc f;
       Ok {| created_Profiles := {["default-scheduler" := f]}; lessFn := less; initialBackoff := 1000000000;
             maxBackoff := 10000000000; created_extenders := []; created_percentage := 0 |})
  | Err _ => exists err, newScheduler (withConfig config) = Err err
  | Panic => newScheduler (withConfig config) = Panic
  end.
Proof.
  unfold newScheduler, New, MergeRegistry. cbn [frameworkOutOfTreeRegistry withConfig]. rewrite map_to_list_empty.
  cbn [registerAll mbind result_bind schedulerAlgorithmSource withConfig defaultSchedulerOptions source_Provider source_Policy
    o_percentageOfNodesToScore o_podInitialBackoffSeconds o_podMaxBackoffSeconds o_profiles o_extenders].
  unfold createFromProvider.
  replace (NewAlgorithmRegistry !! SchedulerDefaultProviderName) with (Some (applyFeatureGates getDefaultConfig))
    by (vm_compute; reflexivity).
  cbn [c_profiles withProfiles fmap list_fmap]. unfold create. cbn [c_extenders withProfiles newExtenders mbind result_bind c_profiles].
  unfold NewMap. cbn [newMapLoop]. unfold buildFramework, NewProfile.
  cbn [c_registry withProfiles alwaysCheckAllPredicates profile_Plugins profile_PluginConfig applyProvider profile_SchedulerName].
  fold defaultPlugins. fold (frameworkOf config).
  match goal with |- context [validateProfile ?m ?v ?cfg] =>
    replace (validateProfile m v cfg) with
      (Ok (E := string) {| v_queueSort := queuesort_Name; v_queueSortArgs := argsFor queuesort_Name config |})
      by (vm_compute; reflexivity) end.
  cbn [mbind result_bind]. destruct (frameworkOf config) as [f|err|]; cbn [mbind result_bind]; [|eexists; reflexivity|reflexivity].
  rewrite insert_empty, lookup_singleton_eq. unfold QueueSortFunc. by destruct (queueSortPlugins f).
Qed.

(** ** With arguments *)
Abbreviation score := (scorePluginOf crashed).

(** PodTopologySpread without default constraints. *)
Definition spreadPlugin : PodTopologySpread := {| DefaultConstraints := []; listers := informers |}.
Definition cpuAndMemory : resourceToValueMap := weightMap id
  [{| rs_Name := ResourceCPU; rs_Weight := 1 |}; {| rs_Name := ResourceMemory; rs_Weight := 1 |}].

(** The framework of the default scheduler. *)
Definition defaultFramework (hardPodAffinityWeight : Z) : framework :=
  {| fw_profile :=
       {| prof_Name := "default-scheduler";
          prof_Framework :=
            {| preFilterPlugins := [FitPreFilter; PortsPreFilter;
                 SpreadPreFilterPlugin allNodes addOrder pairOrder crashed spreadPlugin;
                 AffinityPreFilterPlugin allNodes havePodsWithAffinityNodes finishOrder parseErrorText crashed];
               filterPlugins := [NodeUnschedulableFilter; FitFilter scalarOrder ∅ ∅; NodeNameFilter; PortsFilter;
                 NodeAffinityFilter; VolumeRestrictionsFilter; TaintFilter; VolumeZoneFilter; SpreadFilter; AffinityFilter];
               preScorePlugins := [
                 AffinityPreScore hardPodAffinityWeight (finishOrder scoreMap) parseErrorText (inr allNodes)
                   (inr havePodsWithAffinityNodes);
                 SpreadPreScore addOrder spreadPlugin (inr allNodes); TaintPreScore; SelectorPreScore informers];
               scorePlugins := [
                 score (AllocationScore BalancedAllocationName balancedResourceScorer defaultRequestedRatioResources nodeInfos);
                 score (ImageScore nodeInfos (inr allNodes)); score (AffinityScore nodeInfos);
                 score (AllocationScore LeastAllocatedName (leastResourceScorer cpuAndMemory) cpuAndMemory nodeInfos);
                 score (NodeAffinityScore nodeInfos); score (SpreadScore nodeInfos); score (TaintScore nodeInfos);
                 score (SelectorScore nodeInfos)];
               pluginNameToWeightMap := weightsOf inTree defaultPlugins;
               runAllFilters := false |};
          postFilterPlugins := [defaultpreemption_Name]; reservePlugins := []; permitPlugins := []; preBindPlugins := [];
          bindPlugins := [defaultbinder_Name]; postBindPlugins := [] |};
     queueSortPlugins := [{| sortplugin_Name := queuesort_Name; Less := PrioritySort_Less |}] |}.

(** The arguments by plugin. *)
Definition fourConfig (hardPodAffinityWeight : Z) : gmap string (option Object) :=
  list_to_map ((fun c => (pc_Name c, pc_Args c)) <$> fourArguments hardPodAffinityWeight).

Lemma default_makes hard n factory : 0 <= hard <= 100 ->
  inTree !! n = Some factory -> is_Some (pluginsNeeded defaultPlugins !! n) ->
  exists p, makes emptyScheme (fourConfig hard) n factory p.
Proof.
  intros Hhard Hf Hn. apply elem_of_list_to_map_2 in Hf. unfold inTreeFactories in Hf.
  assert (Hv : ValidateHardPodAffinityWeight hard = None).
  { unfold ValidateHardPodAffinityWeight. by destruct (Z.ltb_spec hard 0), (Z.ltb_spec 100 hard); [lia..|]. }
  repeat (apply list.elem_of_cons in Hf as [[= -> ->]|Hf]); [..|by apply elem_of_nil in Hf].
  all: try (eexists; eexists; split; [vm_compute; reflexivity|reflexivity]).
  all: try (exfalso; revert Hn; vm_compute; by intros []).
  eexists. eexists. split; [vm_compute; reflexivity|]. cbn [NewInterPodAffinity]. rewrite Hv. reflexivity.
Qed.
(** A plugin of the default framework. *)
Ltac built Hv :=
  apply builtMap_from; split; [vm_compute; eauto|]; eexists; split; [reflexivity|]; eexists;
  split; [vm_compute; reflexivity|]; try (cbn [snd NewInterPodAffinity]; rewrite Hv); reflexivity.
Ltac filled Hv :=
  split; [apply (bool_decide_unpack _); vm_compute; exact I|];
  repeat (apply Forall2_cons; split; [eexists; split; [built Hv|reflexivity]|]); apply Forall2_nil_2.

Lemma default_realized hard : 0 <= hard <= 100 ->
  realizes defaultPlugins (builtMap emptyScheme inTree defaultPlugins (fourConfig hard)) (defaultFramework hard).
Proof.
  intros Hhard.
  assert (Hv : ValidateHardPodAffinityWeight hard = None).
  { unfold ValidateHardPodAffinityWeight. by destruct (Z.ltb_spec hard 0), (Z.ltb_spec 100 hard); [lia..|]. }
  constructor; [filled Hv..|reflexivity|discriminate].
Qed.

Lemma default_fails : exists err, newScheduler defaultSchedulerOptions = Err err.
Proof using registryOrder_perm.
  destruct (NewFramework_fails inTree defaultPlugins [] "default-scheduler" false ∅) as [err Herr].
  - reflexivity.
  - intros n factory obj. apply inTree_returns.
  - exists FitName, (NewFit scalarOrder crashed). split; [reflexivity|]. split; [exact default_needed|].
    intros (p&args&[= <-]&Hp). discriminate Hp.
  - pose proof (newScheduler_withConfig []) as Hnew. unfold frameworkOf in Hnew. by rewrite Herr in Hnew.
Qed.

Lemma default_framework hard : 0 <= hard <= 100 -> frameworkOf (fourArguments hard) = Ok (defaultFramework hard).
Proof using registryOrder_perm.
  intros Hhard. unfold frameworkOf.
  eapply (NewFramework_total emptyScheme registryOrder registryOrder_perm inTree defaultPlugins (fourArguments hard)
    "default-scheduler" false (defaultFramework hard) (fourConfig hard)).
  - reflexivity.
  - intros n factory Hin. apply (elem_of_registryOrder registryOrder registryOrder_perm) in Hin. by apply default_makes.
  - apply (configureWeights_weightsOf registryOrder registryOrder_perm). exact default_smallWeights.
  - apply builtMap_from.
  - by apply default_realized.
  - reflexivity.
  - reflexivity.
  - reflexivity.
  - vm_compute. reflexivity.
Qed.

(** C26: With the scheme as the repository leaves it, without a registered kind and so without
    default arguments, the default options make no scheduler: [New] returns an error. With a profile
    that gives the four plugins their arguments, and a hard pod affinity weight from 0
    to 100, [New] returns a scheduler for "default-scheduler", with back-offs of 1 and 10 seconds in
    nanoseconds, the order of [PrioritySort], and the framework of the default provider:
    its plugins at every extension point, in the order of the provider. *)
Theorem default_scheduler_needs_arguments hard : 0 <= hard <= 100 ->
  (exists err, newScheduler defaultSchedulerOptions = Err err) /\
  newScheduler (withConfig (fourArguments hard)) =
    Ok {| created_Profiles := {["default-scheduler" := defaultFramework hard]}; lessFn := PrioritySort_Less;
          initialBackoff := 1000000000; maxBackoff := 10000000000; created_extenders := []; created_percentage := 0 |}.
Proof using registryOrder_perm.
  intros Hhard. split; [exact default_fails|].
  pose proof (newScheduler_withConfig (fourArguments hard)) as Hnew. rewrite default_framework in Hnew by done.
  rewrite Hnew. reflexivity.
Qed.
End Default.

#[local] Existing Instance codePodPriority.
#[local] Existing Instance exampleLabels.
#[local] Existing Instance exampleSelectors.
#[local] Existing Instance exampleMath.

(** The plugins of a created scheduler that filter, score and bind. *)
Definition namesOf (s : created) : list (list string) :=
  match created_Profiles s !! "default-scheduler" with
  | Some f =>
      [filter_Name <$> filterPlugins (prof_Framework (fw_profile f));
       scoreplugin_Name <$> scorePlugins (prof_Framework (fw_profile f)); bindPlugins (fw_profile f)]
  | None => []
  end.

(** Listers of a cluster without services and controllers. *)
Definition noListers : spreadListers :=
  {| ServicesOf := fun _ => None; GetPodControllers := fun _ => None; GetPodReplicaSets := fun _ => None;
     GetPodStatefulSets := fun _ => None |}.

Lemma default_scheduler_needs_arguments_witness :
  exists s, newScheduler (fun _ => inl "no node") [] [] noListers map_to_list id map_to_list (fun _ => id) NewSelector
      (fun _ _ => "") (NewStatus Error ["crashed"]) map_to_list (fun _ => Err "no extender") elements id map_to_list (fun _ => [])
      (fun _ => Err "no file") (fun _ => Err "no map") (withConfig (fourArguments 1)) = Ok s /\
    namesOf s = [[nodeunschedulable_Name; FitName; nodename_Name; nodeports_Name; nodeaffinity_Name; volumerestrictions_Name;
                  tainttoleration_Name; volumezone_Name; podtopologyspread_Name; interpodaffinity_Name];
                 [BalancedAllocationName; imagelocality_Name; interpodaffinity_Name; LeastAllocatedName; nodeaffinity_Name;
                  podtopologyspread_Name; tainttoleration_Name; selectorspread_Name]; [defaultbinder_Name]].
Proof.
  eexists. split.
  - apply (default_scheduler_needs_arguments (fun _ => inl "no node") [] []); [reflexivity|lia].
  - reflexivity.
Defined.
