(* ===== verification/Preemption.v ===== *)
(** * The plugin DefaultPreemption (plugins/defaultpreemption, util/utils.go)

    A pod that fits on no node may evict pods of lower priority: the plugin looks on every
    node for victims in a dry run, selects a node, deletes its victims and answers the name
    of the node.  The dry run works on a copy of the node info and of the cycle state; the
    generations that it draws start at an argument and are forgotten with the copy.  One
    call reads the clock once.  The context is never cancelled. *)
From S2P Require Import Prelude Api NodeInfo Framework Goroutine Nominator PriorityQueue Cache Snapshot.
From S2P Require Import GenericScheduler WaitingPods Scheduler.
Local Open Scope Z_scope.

(** ** Objects of the API and of the extender protocol *)
Record PodDisruptionBudget := {
  pdb_Namespace : string;
  pdb_Selector : option LabelSelector;
  DisruptionsAllowed : Z;
  DisruptedPods : gset string
}.

Record Victims := { victim_Pods : list Pod; NumPDBViolations : Z }.

(** The two methods of an extender that only preemption calls; its victims are not nil. *)
Record PreemptionExtender := {
  extender : Extender;
  SupportsPreemption : bool;
  ProcessPreemption : Pod -> gmap string Victims -> string + gmap string Victims
}.

(** An entry of a map from the names of nodes. *)
Abbreviation nodeVictims := (string * Victims)%type.

(** A [candidate] behind the interface [Candidate]. *)
Record candidate := { c_Victims : Victims; c_Name : string }.

(** [sort.Slice]: not stable, and a sort when [less] is a strict weak order. *)
Class SortSlice : Type := sortSlice : forall A, (A -> A -> bool) -> list A -> list A.
Arguments sortSlice {_ A} less l.

Section Preemption.
Context `{LabelsLib, StateData, PodPriority, SortSlice}.
Context (statusOrder : gmap string Status -> list Status) (now : Z).

(** ** Importance of pods (util/utils.go) *)
Definition GetPodStartTime (pod : Pod) : Z := default now (StartTime (pod_Status pod)).

Definition MoreImportantPod (pod1 pod2 : Pod) : bool :=
  let p1 := GetPodPriority pod1 in
  let p2 := GetPodPriority pod2 in
  if negb (p1 =? p2) then p2 <? p1 else GetPodStartTime pod1 <? GetPodStartTime pod2.

Fixpoint earliestLoop (pods : list Pod) (earliestPodStartTime maxPriority : Z) : Z :=
  match pods with
  | [] => earliestPodStartTime
  | pod :: pods =>
      if GetPodPriority pod =? maxPriority then
        earliestLoop pods (if GetPodStartTime pod <? earliestPodStartTime then GetPodStartTime pod else earliestPodStartTime) maxPriority
      else if maxPriority <? GetPodPriority pod then earliestLoop pods (GetPodStartTime pod) (GetPodPriority pod)
      else earliestLoop pods earliestPodStartTime maxPriority
  end.

Definition GetEarliestPodStartTime (victims : Victims) : option Z :=
  match victim_Pods victims with
  | [] => None
  | pod :: _ => Some (earliestLoop (victim_Pods victims) (GetPodStartTime pod) (GetPodPriority pod))
  end.

(** ** Disruption budgets *)
Definition budgetMatches (pod : Pod) (pdb : PodDisruptionBudget) : bool :=
  if bool_decide (pdb_Namespace pdb <> pod_Namespace pod) then false
  else
    match LabelSelectorAsSelector (pdb_Selector pdb) with
    | None => false
    | Some selector =>
        if SelectorEmpty selector || negb (Matches selector (pod_Labels pod)) then false
        else negb (bool_decide (pod_Name pod ∈ DisruptedPods pdb))
    end.

(** The loop over the budgets for one pod: is one violated, and what is left of them. *)
Fixpoint chargeBudgets (pod : Pod) (pdbs : list PodDisruptionBudget) (pdbsAllowed : list Z) : bool * list Z :=
  match pdbs, pdbsAllowed with
  | pdb :: pdbs, allowed :: pdbsAllowed =>
      let '(violated, rest) := chargeBudgets pod pdbs pdbsAllowed in
      if budgetMatches pod pdb then
        let allowed := wrap32 (allowed - 1) in ((allowed <? 0) || violated, allowed :: rest)
      else (violated, allowed :: rest)
  | _, _ => (false, pdbsAllowed)
  end.

Fixpoint splitByBudgets (pods : list Pod) (pdbs : list PodDisruptionBudget) (pdbsAllowed : list Z)
    : list Pod * list Pod :=
  match pods with
  | [] => ([], [])
  | pod :: pods =>
      let '(pdbForPodIsViolated, pdbsAllowed) :=
        if decide (pod_Labels pod = ∅) then (false, pdbsAllowed) else chargeBudgets pod pdbs pdbsAllowed in
      let '(violatingPods, nonViolatingPods) := splitByBudgets pods pdbs pdbsAllowed in
      if pdbForPodIsViolated then (pod :: violatingPods, nonViolatingPods) else (violatingPods, pod :: nonViolatingPods)
  end.

Definition filterPodsWithPDBViolation (pods : list Pod) (pdbs : list PodDisruptionBudget) : list Pod * list Pod :=
  splitByBudgets pods pdbs (DisruptionsAllowed <$> pdbs).

(** ** The dry run on one node *)
Record dryRun := { dr_generation : Z; dr_nodeInfo : NodeInfo; dr_state : CycleState }.

Inductive dryRunError := FromNodeInfo (err : nodeInfoError) | FromExtension (msg : string).

Abbreviation DryRun := (stateM dryRun dryRunError).

Definition setInfo (g : Z) (n : NodeInfo) (d : dryRun) : dryRun :=
  {| dr_generation := g; dr_nodeInfo := n; dr_state := dr_state d |}.

(** The end of [removePod] and [addPod]: the call of the extensions. *)
Definition extend (call : CycleState -> NodeInfo -> Status * CycleState) : DryRun unit := fun d =>
  let '(status, state) := call (dr_state d) (dr_nodeInfo d) in
  let d := {| dr_generation := dr_generation d; dr_nodeInfo := dr_nodeInfo d; dr_state := state |} in
  match AsError status with
  | None => (Ok tt, d)
  | Some err => (Err (FromExtension err), d)
  end.

Section DryRun.
Context (f : frameworkImpl) (npm : nominatedPodMap) (pod : Pod).

Definition removePod (rp : Pod) : DryRun unit := fun d =>
  match NodeInfo.RemovePod (dr_generation d) (dr_nodeInfo d) rp with
  | (Ok _, (g, n)) => extend (fun state => RunPreFilterExtensionRemovePod f state pod rp) (setInfo g n d)
  | (Err err, (g, n)) => (Err (FromNodeInfo err), setInfo g n d)
  | (Panic, (g, n)) => (Panic, setInfo g n d)
  end.

Definition addPod (ap : Pod) : DryRun unit := fun d =>
  let '(g, n) := NodeInfo.AddPod (dr_generation d) (dr_nodeInfo d) ap in
  extend (fun state => RunPreFilterExtensionAddPod f state pod ap) (setInfo g n d).

(** [PodPassesFiltersOnNode], with its error as a value. *)
Definition passes : DryRun (string + bool) := fun d =>
  match PodPassesFiltersOnNode statusOrder f npm (dr_generation d) (dr_state d) pod (dr_nodeInfo d) with
  | Ok (fits, _) => (Ok (inr fits), d)
  | Err err => (Ok (inl err), d)
  | Panic => (Panic, d)
  end.

(** A log message reads the name of the node. *)
Definition nodeName : DryRun string := d ← get;
  match NodeOf (dr_nodeInfo d) with Some nd => mret (node_Name nd) | None => panic end.

(** The loop that removes the pods of lower priority.  It ranges over the slice that
    [nodeInfo.Pods] was at first; [backing] is its array, in which [RemovePod] moves
    elements.  [n] elements are left, from index [i] on. *)
Fixpoint removeLoop (n i : nat) (backing : list PodInfo) (potentialVictims : list Pod) : DryRun (list Pod) :=
  match n with
  | O => mret potentialVictims
  | S n =>
      match backing !! i with
      | None => mret potentialVictims
      | Some p =>
          if GetPodPriority (pi_Pod p) <? GetPodPriority pod then
            _ ← removePod (pi_Pod p);
            d ← get;
            let pods := Pods (dr_nodeInfo d) in
            removeLoop n (S i) (pods ++ drop (length pods) backing) (potentialVictims ++ [pi_Pod p])
          else removeLoop n (S i) backing potentialVictims
      end
  end.

Definition reprievePod (p : Pod) (victims : list Pod) : DryRun (bool * list Pod) :=
  _ ← addPod p;
  r ← passes;
  match r with
  | inr true => mret (true, victims)
  | _ =>
      _ ← removePod p;
      _ ← nodeName;
      mret (false, victims ++ [p])
  end.

(** The victims and the number of pods that were not reprieved. *)
Fixpoint reprieveLoop (pods : list Pod) (victims : list Pod) (numVictims : Z) : DryRun (list Pod * Z) :=
  match pods with
  | [] => mret (victims, numVictims)
  | p :: pods =>
      '(fits, victims) ← reprievePod p victims;
      reprieveLoop pods victims (if fits : bool then numVictims else numVictims + 1)
  end.

(** The body of [selectVictimsOnNode]; [None] are its early returns. *)
Definition selectVictims (pdbs : list PodDisruptionBudget) : DryRun (option Victims) :=
  d ← get;
  let pods := Pods (dr_nodeInfo d) in
  potentialVictims ← removeLoop (length pods) 0 pods [];
  match potentialVictims with
  | [] => mret None
  | _ =>
      r ← passes;
      match r with
      | inr true =>
          let '(violatingVictims, nonViolatingVictims) :=
            filterPodsWithPDBViolation (sortSlice MoreImportantPod potentialVictims) pdbs in
          '(victims, numViolatingVictim) ← reprieveLoop violatingVictims [] 0;
          '(victims, _) ← reprieveLoop nonViolatingVictims victims 0;
          mret (Some {| victim_Pods := victims; NumPDBViolations := numViolatingVictim |})
      | inr false => mret None
      | inl _ => _ ← nodeName; mret None
      end
  end.

(** [None] is a panic; the inner [None] is [false], with no victims. *)
Definition selectVictimsOnNode (generation : Z) (state : CycleState) (nodeInfo : NodeInfo)
    (pdbs : list PodDisruptionBudget) : option (option Victims) :=
  match (selectVictims pdbs {| dr_generation := generation; dr_nodeInfo := nodeInfo; dr_state := state |}).1 with
  | Ok r => Some r
  | Err _ => Some None
  | Panic => None
  end.

(** The piece of work on one node; a nil node panics. *)
Definition checkVictims (generation : Z) (state : CycleState) (pdbs : list PodDisruptionBudget) (nodeInfo : NodeInfo)
    : option (option candidate) :=
  let nodeInfoCopy := Clone nodeInfo in
  r ← selectVictimsOnNode generation (CloneState state) nodeInfoCopy pdbs;
  match r with
  | None => Some None
  | Some victims => nd ← NodeOf nodeInfoCopy; Some (Some {| c_Victims := victims; c_Name := node_Name nd |})
  end.

(** [order] is the order in which the pieces finish. *)
Definition dryRunPreemption (order : list NodeInfo -> list NodeInfo) (generation : Z) (state : CycleState)
    (potentialNodes : list NodeInfo) (pdbs : list PodDisruptionBudget) : option (list candidate) :=
  rs ← mapM (checkVictims generation state pdbs) (order potentialNodes);
  Some (omap id rs).
End DryRun.

(** ** The selection of a node *)
Definition MaxInt32 : Z := 2 ^ 31 - 1.

(** One pass over the nodes that are left: those with the least [key], if it is at most [start]. *)
Fixpoint minimaLoop {A} (key : A -> Z) (l : list A) (least : Z) (minima : list A) : list A :=
  match l with
  | [] => minima
  | a :: l =>
      let '(least, minima) := if key a <? least then (key a, []) else (least, minima) in
      minimaLoop key l least (if key a =? least then minima ++ [a] else minima)
  end.
Definition minima {A} (start : Z) (key : A -> Z) (l : list A) : list A := minimaLoop key l start [].



Definition sumPriorities (n : nodeVictims) : Z :=
  foldl (fun sum pod => wrap64 (sum + (GetPodPriority pod + (MaxInt32 + 1)))) 0 (victim_Pods n.2).

Fixpoint latestLoop (l : list nodeVictims) (latestStartTime : Z) (nodeToReturn : string) : string :=
  match l with
  | [] => nodeToReturn
  | n :: l =>
      match GetEarliestPodStartTime n.2 with
      | None => latestLoop l latestStartTime nodeToReturn
      | Some t => if latestStartTime <? t then latestLoop l t n.1 else latestLoop l latestStartTime nodeToReturn
      end
  end.
Definition latestOf (l : list nodeVictims) : option string :=
  match l with
  | [] => None
  | n :: l =>
      match GetEarliestPodStartTime n.2 with
      | None => Some n.1
      | Some t => Some (latestLoop l t n.1)
      end
  end.

(** [if lenNodes == 1 { return minNodes[0] }] *)
Definition onlyOne (l : list nodeVictims) (rest : option string) : option string :=
  match l with [n] => Some n.1 | _ => rest end.

(** [nodesToVictims] is the list of the entries of the map in the order in which Go
    iterates over it; [None] is an index out of range.  A list has less than [2 ^ 31] pods. *)
Definition pickOneNodeForPreemption (nodesToVictims : list nodeVictims) : option string :=
  match nodesToVictims with
  | [] => Some ""
  | _ =>
      let minNodes1 := minima MaxInt32 (fun n => NumPDBViolations n.2) nodesToVictims in
      onlyOne minNodes1 (
        highest ← mapM (fun n => p ← list.head (victim_Pods n.2); Some (GetPodPriority p, n)) minNodes1;
        let minNodes2 := snd <$> minima MaxInt32 fst highest in
        onlyOne minNodes2 (
          let minNodes1 := minima max_int64 sumPriorities minNodes2 in
          onlyOne minNodes1 (
            let minNodes2 := minima MaxInt32 (fun n => Z.of_nat (length (victim_Pods n.2))) minNodes1 in
            onlyOne minNodes2 (latestOf minNodes2))))
  end.

Definition candidatesToVictimsMap (candidates : list candidate) : gmap string Victims :=
  foldl (fun m c => <[c_Name c := c_Victims c]> m) ∅ candidates.

(** The order in which Go iterates over a map of victims. *)
Context (victimsOrder : gmap string Victims -> list nodeVictims).

(** [None] is a panic; the inner [None] is nil. *)
Definition SelectCandidate (candidates : list candidate) : option (option candidate) :=
  match candidates with
  | [] => Some None
  | [c] => Some (Some c)
  | first :: _ =>
      candidateNode ← pickOneNodeForPreemption (victimsOrder (candidatesToVictimsMap candidates));
      Some (Some (default first (snd <$> list_find (fun c => candidateNode = c_Name c) candidates)))
  end.

Fixpoint callExtendersLoop (extenders : list PreemptionExtender) (pod : Pod) (victimsMap : gmap string Victims)
    : string + gmap string Victims :=
  match extenders with
  | [] => inr victimsMap
  | e :: extenders =>
      if negb (SupportsPreemption e) || negb (IsInterested (extender e) pod) then callExtendersLoop extenders pod victimsMap
      else
        match ProcessPreemption e pod victimsMap with
        | inl err => if IsIgnorable (extender e) then callExtendersLoop extenders pod victimsMap else inl err
        | inr nodeNameToVictims =>
            if decide (nodeNameToVictims = ∅) then inr nodeNameToVictims
            else callExtendersLoop extenders pod nodeNameToVictims
        end
  end.

Definition CallExtenders (extenders : list PreemptionExtender) (pod : Pod) (candidates : list candidate)
    : string + list candidate :=
  match extenders with
  | [] => inr candidates
  | _ =>
      let victimsMap := candidatesToVictimsMap candidates in
      if decide (victimsMap = ∅) then inr candidates
      else
        match callExtendersLoop extenders pod victimsMap with
        | inl err => inl err
        | inr victimsMap => inr ((fun '(name, victims) => {| c_Victims := victims; c_Name := name |}) <$> victimsOrder victimsMap)
        end
  end.

(** ** The nodes that are considered *)

(** [nodeInfos.Get]: nil when there is no such node. *)
Definition PodEligibleToPreemptOthers (pod : Pod) (nodeInfos : string -> option NodeInfo) (nominatedNodeStatus : Status) : bool :=
  if decide (PreemptionPolicy (pod_Spec pod) = Some "Never") then false
  else
    let nomNodeName := NominatedNodeName_field (pod_Status pod) in
    if decide (nomNodeName = "") then true
    else if bool_decide (StatusCode nominatedNodeStatus = UnschedulableAndUnresolvable) then true
    else
      match nodeInfos nomNodeName with
      | None => true
      | Some nodeInfo =>
          negb (existsb (fun p => bool_decide (is_Some (DeletionTimestamp (pi_Pod p))) &&
                                  (GetPodPriority (pi_Pod p) <? GetPodPriority pod)) (Pods nodeInfo))
      end.

(** [None] is a panic. *)
Fixpoint nodesWherePreemptionMightHelp (nodes : list NodeInfo) (m : gmap string Status) : option (list NodeInfo) :=
  match nodes with
  | [] => Some []
  | node :: nodes =>
      nd ← NodeOf node;
      rest ← nodesWherePreemptionMightHelp nodes m;
      Some (if bool_decide (StatusCode (default None (m !! node_Name nd)) = UnschedulableAndUnresolvable) then rest
            else node :: rest)
  end.
End Preemption.

(** ** The calls to the API server, the waiting pods and the nominator *)
Inductive preemptCall : Type -> Type :=
  | GetUpdatedPod (pod : Pod) : preemptCall (string + Pod)
  | DeletePod (pod : Pod) : preemptCall (option string)
  | PatchPodStatus (old new : Pod) : preemptCall (option string)
  | GetWaitingPod (uid : string) : preemptCall (option nat)
  | RejectPod (l : nat) (msg : string) : preemptCall unit
  | NominatedPods (nodeName : string) : preemptCall (list Pod).

Abbreviation Preempt := (go preemptCall).

(** What cannot be computed panics. *)
Definition orCrash {A} (x : option A) : Preempt A := match x with Some a => mret a | None => Crash end.

Definition withoutNomination (p : Pod) : Pod :=
  withStatus p {| NominatedNodeName_field := ""; Conditions := Conditions (pod_Status p);
                  StartTime := StartTime (pod_Status p); status_Rest := status_Rest (pod_Status p) |}.

(** The errors of the patches. *)
Fixpoint ClearNominatedNodeName (pods : list Pod) : Preempt (list string) :=
  match pods with
  | [] => mret []
  | p :: pods =>
      if decide (NominatedNodeName_field (pod_Status p) = "") then ClearNominatedNodeName pods
      else
        err ← invoke (PatchPodStatus p (withoutNomination p));
        errs ← ClearNominatedNodeName pods;
        mret (match err with Some e => e :: errs | None => errs end)
  end.

Section Preempt.
Context `{LabelsLib, StateData, PodPriority, SortSlice}.
Context (statusOrder : gmap string Status -> list Status) (now : Z)
  (order : list NodeInfo -> list NodeInfo) (victimsOrder : gmap string Victims -> list (string * Victims))
  (noNodesAvailable : string).

(** [getPDBLister] makes no lister, so the plugin that [New] makes knows no budgets. *)
Definition getPDBLister : option (string + list PodDisruptionBudget) := None.
Definition getPodDisruptionBudgets (pdbLister : option (string + list PodDisruptionBudget)) : string + list PodDisruptionBudget :=
  match pdbLister with Some answer => answer | None => inr [] end.

(** The plugin with what its handle gives: the framework, the nominator at the time of the
    dry run, the extenders, the node infos of the snapshot and the lister of budgets. *)
Record DefaultPreemption := {
  fh : frameworkImpl;
  nominator : nominatedPodMap;
  Extenders : list PreemptionExtender;
  allNodes : list NodeInfo;
  nodeByName : string -> option NodeInfo;
  pdbLister : option (string + list PodDisruptionBudget)
}.

Definition FindCandidates (pl : DefaultPreemption) (generation : Z) (state : CycleState) (pod : Pod)
    (m : gmap string Status) : Preempt (string + list candidate) :=
  match allNodes pl with
  | [] => mret (inl noNodesAvailable)
  | _ =>
      potentialNodes ← orCrash (nodesWherePreemptionMightHelp (allNodes pl) m);
      match potentialNodes with
      | [] => _ ← ClearNominatedNodeName [pod]; mret (inr [])
      | _ =>
          match getPodDisruptionBudgets (pdbLister pl) with
          | inl err => mret (inl err)
          | inr pdbs =>
              candidates ← orCrash (dryRunPreemption statusOrder now (fh pl) (nominator pl) pod order generation state potentialNodes pdbs);
              mret (inr candidates)
          end
      end
  end.

Definition getLowerPriorityNominatedPods (pod : Pod) (nodeName : string) : Preempt (list Pod) :=
  pods ← invoke (NominatedPods nodeName);
  mret (filter (fun p => GetPodPriority p < GetPodPriority pod) pods).

Fixpoint evictLoop (victims : list Pod) : Preempt (option string) :=
  match victims with
  | [] => mret None
  | victim :: victims =>
      err ← invoke (DeletePod victim);
      match err with
      | Some err => mret (Some err)
      | None =>
          waitingPod ← invoke (GetWaitingPod (pod_UID victim));
          _ ← (match waitingPod with Some l => invoke (RejectPod l "preempted") | None => mret tt end);
          evictLoop victims
      end
  end.

Definition PrepareCandidate (c : candidate) (pod : Pod) : Preempt (option string) :=
  err ← evictLoop (victim_Pods (c_Victims c));
  match err with
  | Some err => mret (Some err)
  | None =>
      nominatedPods ← getLowerPriorityNominatedPods pod (c_Name c);
      _ ← ClearNominatedNodeName nominatedPods;
      mret None
  end.

(** [preempt] from the eligibility of the updated pod on. *)
Definition preemptUpdated (pl : DefaultPreemption) (generation : Z) (state : CycleState) (m : gmap string Status) (pod : Pod)
    : Preempt (string + string) :=
  if negb (PodEligibleToPreemptOthers pod (nodeByName pl) (default None (m !! NominatedNodeName_field (pod_Status pod))))
  then mret (inr "")
  else
    candidates ← FindCandidates pl generation state pod m;
    match candidates with
    | inl err => mret (inl err)
    | inr [] => mret (inr "")
    | inr candidates =>
        match CallExtenders victimsOrder (Extenders pl) pod candidates with
        | inl err => mret (inl err)
        | inr candidates =>
            bestCandidate ← orCrash (SelectCandidate now victimsOrder candidates);
            match bestCandidate with
            | None => mret (inr "")
            | Some best =>
                if decide (c_Name best = "") then mret (inr "")
                else
                  err ← PrepareCandidate best pod;
                  mret (match err with Some err => inl err | None => inr (c_Name best) end)
            end
        end
    end.

Definition preempt (pl : DefaultPreemption) (generation : Z) (state : CycleState) (pod : Pod) (m : gmap string Status)
    : Preempt (string + string) :=
  updated ← invoke (GetUpdatedPod pod);
  match updated with
  | inl err => mret (inl err)
  | inr pod => preemptUpdated pl generation state m pod
  end.

(** The name of the nominated node and the status. *)
Definition PostFilter (pl : DefaultPreemption) (generation : Z) (state : CycleState) (pod : Pod) (m : gmap string Status)
    : Preempt (option string * Status) :=
  r ← preempt pl generation state pod m;
  mret (match r with
        | inl err => (None, NewStatus Error [err])
        | inr nnn => if decide (nnn = "") then (None, NewStatus Unschedulable []) else (Some nnn, NewStatus Success [])
        end).
End Preempt.
