(* ===== verification/PreemptionSpec.v ===== *)
(** * What a preemption promises

    The victims on a node, by a refinement: a framework whose plugins keep to a contract -
    their verdict depends on the pods of the node only, also while pods are added to and
    removed from it - selects the victims of a greedy algorithm on lists of pods, and these
    are the best possible when the filters admit less the more pods there are. *)
From S2P Require Import Prelude Api GoHeap NodeInfo Framework Goroutine Nominator PriorityQueue Cache Snapshot.
From S2P Require Import GenericScheduler WaitingPods Scheduler PodChanges Preemption.
Local Open Scope Z_scope.

(** ** The greedy algorithm *)
Section Greedy.
Context {A : Type} (admits : list A -> bool).

(** What cannot be added to what is kept is a victim. *)
Fixpoint greedyVictims (kept order : list A) : list A :=
  match order with
  | [] => []
  | a :: order => if admits (a :: kept) then greedyVictims (a :: kept) order else a :: greedyVictims kept order
  end.
Fixpoint greedyKept (kept order : list A) : list A :=
  match order with
  | [] => kept
  | a :: order => if admits (a :: kept) then greedyKept (a :: kept) order else greedyKept kept order
  end.

Lemma greedyVictims_app l1 l2 : forall kept,
  greedyVictims kept (l1 ++ l2) = greedyVictims kept l1 ++ greedyVictims (greedyKept kept l1) l2.
Proof. induction l1 as [|a l1 IH]; intros kept; cbn; [done|]. destruct (admits _); [apply IH|cbn; by rewrite IH]. Qed.

Lemma greedy_admits order : forall kept, admits kept = true -> admits (greedyKept kept order) = true.
Proof. induction order as [|a l IH]; intros kept Hk; cbn; [done|]. destruct (admits (a :: kept)) eqn:E; by apply IH. Qed.

Lemma greedy_split order : forall kept, greedyKept kept order ++ greedyVictims kept order ≡ₚ kept ++ order.
Proof.
  induction order as [|a l IH]; intros kept; cbn; [done|]. destruct (admits (a :: kept)).
  - rewrite IH. cbn. apply Permutation_middle.
  - rewrite <- !Permutation_middle. by f_equiv.
Qed.

Lemma greedyVictims_sublist order : forall kept, greedyVictims kept order `sublist_of` order.
Proof. induction order as [|a l IH]; intros kept; cbn; [done|]. destruct (admits _); [by constructor|by constructor]. Qed.

Context {Hperm : Proper ((≡ₚ) ==> (=)) admits}.

(** Fewer are admitted with more. *)
Definition antitone : Prop := forall l k, l ⊆+ k -> admits k = true -> admits l = true.

(** Sparing others instead is not better: at the first element on which the two choices
    differ, the greedy algorithm is the one that spares it. *)
Lemma greedy_first order : forall kept pre a post spared, antitone ->
  order = pre ++ a :: post -> NoDup order -> spared ⊆+ order ->
  (forall b, b ∈ pre -> b ∈ spared <-> b ∉ greedyVictims kept order) ->
  a ∈ greedyVictims kept order -> admits (kept ++ spared) = true -> a ∉ spared.
Proof.
  induction order as [|b order IH]; intros kept pre a post spared Hanti Horder Hnd Hsub Hpre Ha Hadm Hin.
  { by destruct pre. }
  apply NoDup_cons in Hnd as [Hb Hnd].
  assert (Hnot : forall kept, b ∉ greedyVictims kept order).
  { intros k Hk. apply Hb. eapply sublist_subseteq; [apply greedyVictims_sublist|done]. }
  assert (Htake : forall rest, spared ≡ₚ b :: rest -> rest ⊆+ order /\ admits ((b :: kept) ++ rest) = true).
  { intros rest Hrest. split; [apply (submseteq_app_inv_l _ _ [b]); by rewrite <- Hrest|].
    rewrite <- Hadm. apply Hperm. rewrite Hrest. cbn. by rewrite <- Permutation_middle. }
  destruct pre as [|b' pre]; cbn in Horder.
  - injection Horder as <- <-. cbn in Ha. destruct (admits (b :: kept)) eqn:E; [by eapply Hnot|].
    apply elem_of_Permutation in Hin as [rest Hrest]. destruct (Htake rest Hrest) as [_ Hadm'].
    enough (admits (b :: kept) = true) by congruence. eapply Hanti; [|exact Hadm'].
    apply submseteq_inserts_r. reflexivity.
  - injection Horder as <- ->. assert (Hab : a <> b) by (intros ->; apply Hb, elem_of_app; right; left).
    cbn in Hpre, Ha. destruct (admits (b :: kept)) eqn:E.
    + assert (Hbs : b ∈ spared) by (apply Hpre; [left|apply Hnot]).
      apply elem_of_Permutation in Hbs as [rest Hrest]. destruct (Htake rest Hrest) as [Hsub' Hadm'].
      assert (Hiff : forall c, c <> b -> c ∈ spared <-> c ∈ rest) by (intros c Hc; rewrite Hrest, elem_of_cons; tauto).
      apply (IH (b :: kept) pre a post rest); try done; [|by apply Hiff].
      intros c Hc. rewrite <- (Hpre c ltac:(by right)). symmetry. apply Hiff. intros ->. apply Hb, elem_of_app. by left.
    + assert (Hbs : b ∉ spared) by (rewrite (Hpre b ltac:(left)); intros Hno; apply Hno; left).
      apply elem_of_cons in Ha as [->|Ha]; [done|].
      apply (IH kept pre a post spared); try done.
      * apply submseteq_cons_r in Hsub as [|(rest&Hrest&_)]; [done|]. destruct Hbs. rewrite Hrest. left.
      * intros c Hc. rewrite (Hpre c ltac:(by right)), elem_of_cons.
        assert (c <> b) by (intros ->; apply Hb, elem_of_app; by left). tauto.
Qed.
End Greedy.

(** ** Removing from the slice that a loop ranges over *)
Lemma swapRemove_lookup_gt {A} (l : list A) j k : (j < k)%nat -> (k < length l - 1)%nat -> swapRemove l j !! k = l !! k.
Proof.
  intros Hj Hk. unfold swapRemove. destruct (l !! (length l - 1)%nat) as [x|] eqn:E; [|done].
  rewrite lookup_take_lt by lia. by rewrite list_lookup_insert_ne by lia.
Qed.

Lemma length_swapRemove {A} (l : list A) j : l <> [] -> length (swapRemove l j) = (length l - 1)%nat.
Proof.
  intros Hl. unfold swapRemove. destruct (lookup_lt_is_Some_2 l (length l - 1)%nat) as [x ->].
  - destruct l; [done|cbn; lia].
  - rewrite length_take, length_insert. lia.
Qed.

(** What is left of the range is not changed by a removal at or before its next element. *)
Lemma drop_backing {A} (l backing : list A) i j :
  (length l <= length backing)%nat -> l = take (length l) backing -> (j <= i)%nat -> l <> [] ->
  drop (S i) (swapRemove l j ++ drop (length (swapRemove l j)) backing) = drop (S i) backing.
Proof.
  intros Hlen Hl Hj Hne. rewrite (length_swapRemove l j Hne). apply list_eq. intros k. rewrite !lookup_drop.
  destruct (decide (S i + k < length l - 1)%nat) as [Hk|Hk].
  - rewrite lookup_app_l by (rewrite length_swapRemove; [lia|done]). rewrite swapRemove_lookup_gt by lia.
    rewrite Hl. rewrite lookup_take_lt by lia. done.
  - rewrite lookup_app_r by (rewrite length_swapRemove by done; lia). rewrite lookup_drop, length_swapRemove by done.
    f_equal. lia.
Qed.

Lemma length_backing {A} (l backing : list A) : (length l <= length backing)%nat ->
  length (l ++ drop (length l) backing) = length backing.
Proof. rewrite length_app, length_drop. lia. Qed.

(** [RemovePod] takes out the first pod with the key. *)
Lemma RemovePod_index `{LabelsLib} g n p g' n' : NodeInfo.RemovePod g n p = (Ok tt, (g', n')) ->
  exists j, findPodKey (pod_UID p) (Pods n) = Some j /\ Pods n' = swapRemove (Pods n) j.
Proof.
  unfold NodeInfo.RemovePod, GetPodKey. destruct (decide _); [done|]. destruct (findPodKey _ _) as [j|].
  - rewrite calculateResource_eta. intros [= <- <-]. by exists j.
  - by destruct (node n).
Qed.

Lemma findPodKey_le k l i x : l !! i = Some x -> GetPodKey (pi_Pod x) = Ok k ->
  exists j, findPodKey k l = Some j /\ (j <= i)%nat.
Proof.
  intros Hi Hk. unfold findPodKey. destruct (list_find _ l) as [[j y]|] eqn:Hf.
  - exists j. split; [done|]. apply list_find_Some in Hf as (_&_&Hmin).
    destruct (decide (j <= i)%nat) as [|Hlt]; [done|]. exfalso. by apply (Hmin i x Hi ltac:(lia)).
  - apply list_find_None in Hf. rewrite list.Forall_forall in Hf. exfalso. eapply Hf; [by eapply list_elem_of_lookup_2|done].
Qed.

Lemma NoDup_of_submseteq {A} (l k : list A) : l ⊆+ k -> NoDup k -> NoDup l.
Proof. intros Hsub Hnd. apply submseteq_Permutation in Hsub as [r Hr]. rewrite Hr in Hnd. by apply NoDup_app in Hnd as (?&_&_). Qed.

Lemma Permutation_filter_out {A} `{EqDecision A} (kept out l : list A) : NoDup l -> kept ++ out ≡ₚ l ->
  kept ≡ₚ filter (fun a => a ∉ out) l.
Proof.
  intros Hnd Hp. rewrite <- Hp in Hnd |- *. apply NoDup_app in Hnd as (_&Hdis&_).
  rewrite filter_app, filter_keeps_all by (intros a Ha; by apply Hdis).
  rewrite (filter_drops_all _ out) by tauto. by rewrite app_nil_r.
Qed.

(** ** Sorting and splitting the potential victims *)
Class SortLaws `{SortSlice} : Prop := {
  sort_perm {A} (less : A -> A -> bool) l : sortSlice less l ≡ₚ l;
  sort_sorted {A} (less : A -> A -> bool) l : StrictWeak less -> StronglySorted (le less) (sortSlice less l)
}.

Lemma MoreImportantPod_iff `{PodPriority} now p q : MoreImportantPod now p q = true <->
  GetPodPriority q < GetPodPriority p \/
  GetPodPriority p = GetPodPriority q /\ GetPodStartTime now p < GetPodStartTime now q.
Proof.
  unfold MoreImportantPod. destruct (Z.eqb_spec (GetPodPriority p) (GetPodPriority q)); cbn [negb];
    rewrite Z.ltb_lt; lia.
Qed.

#[export] Instance MoreImportantPod_StrictWeak `{PodPriority} now : StrictWeak (MoreImportantPod now).
Proof.
  split; unfold le; intros *; rewrite <- ?not_true_iff_false, ?MoreImportantPod_iff; lia.
Qed.

Section Split.
Context `{LabelsLib}.

Lemma splitByBudgets_spec pods pdbs : forall allowed,
  let r := splitByBudgets pods pdbs allowed in
  r.1 ++ r.2 ≡ₚ pods /\ r.1 `sublist_of` pods /\ r.2 `sublist_of` pods.
Proof.
  induction pods as [|p pods IH]; intros allowed; cbn; [done|].
  destruct (if decide (pod_Labels p = ∅) then _ else _) as [violated allowed'].
  destruct (IH allowed') as (Hp&H1&H2). destruct (splitByBudgets pods pdbs allowed') as [v nv]. cbn in Hp, H1, H2.
  destruct violated; cbn; (split; [|by split; constructor]); [by f_equiv|].
  rewrite <- Permutation_middle. by f_equiv.
Qed.
End Split.

Lemma sorted_sublist {A} (R : A -> A -> Prop) l k : l `sublist_of` k -> StronglySorted R k -> StronglySorted R l.
Proof.
  induction 1 as [|x l k Hs IH|x l k Hs IH]; intros Hk; [done| |]; apply StronglySorted_inv in Hk as [Hk Hx].
  - constructor; [by apply IH|]. rewrite list.Forall_forall in Hx |- *. intros y Hy. apply Hx. by eapply sublist_subseteq.
  - by apply IH.
Qed.

(** ** What the plugins of a framework promise *)
Section Contract.
Context `{LabelsLib, StateData, PodPriority} (statusOrder : gmap string Status -> list Status)
  (f : frameworkImpl) (npm : nominatedPodMap) (pod : Pod) (nd : Node) (all : list Pod).

Definition podsOf (n : NodeInfo) : list Pod := pi_Pod <$> Pods n.

Definition extensionCall (ch : podChange) : CycleState -> Pod -> Pod -> NodeInfo -> Status * CycleState :=
  match ch with PodAdded _ => RunPreFilterExtensionAddPod f | PodRemoved _ => RunPreFilterExtensionRemovePod f end.

(** While the node has pods of [all], the extensions keep the cycle state that of its
    node info, and the filters admit the pod when [admits] the pods of the node. *)
Class DryRunContract (admits : list Pod -> bool) : Type := {
  represents : NodeInfo -> CycleState -> Prop;
  contract_change (ch : podChange) (n n' : NodeInfo) (s : CycleState) :
    represents n s -> accounted n -> accounted n' -> node n = Some nd -> node n' = Some nd ->
    podsOf n ⊆+ all -> podsOf n' ⊆+ all -> changesPods ch (Pods n) (Pods n') ->
    IsSuccess (extensionCall ch s pod (changedPod ch) n').1 = true /\
    represents n' (extensionCall ch s pod (changedPod ch) n').2;
  contract_passes (g : Z) (n : NodeInfo) (s : CycleState) :
    represents n s -> accounted n -> node n = Some nd -> podsOf n ⊆+ all ->
    exists status, PodPassesFiltersOnNode statusOrder f npm g s pod n = Ok (admits (podsOf n), status);
  contract_perm : Proper ((≡ₚ) ==> (=)) admits
}.

Context (admits : list Pod -> bool) `{!DryRunContract admits}.
Hypothesis all_uids : NoDup (pod_UID <$> all).
Hypothesis all_nonempty : "" ∉ pod_UID <$> all.

(** The dry run is on the node with the pods [kept]. *)
Record onPods (kept : list Pod) (d : dryRun) : Prop := {
  op_accounted : accounted (dr_nodeInfo d);
  op_node : node (dr_nodeInfo d) = Some nd;
  op_represents : represents (dr_nodeInfo d) (dr_state d);
  op_pods : podsOf (dr_nodeInfo d) ≡ₚ kept;
  op_all : kept ⊆+ all
}.

Lemma onPods_perm kept kept' d : kept ≡ₚ kept' -> onPods kept d -> onPods kept' d.
Proof. intros Hp []. split; try done; by rewrite <- Hp. Qed.

Lemma extend_runs ch g n (d : dryRun) kept :
  onPods kept d -> accounted n -> node n = Some nd -> changesPods ch (Pods (dr_nodeInfo d)) (Pods n) ->
  podsOf n ⊆+ all ->
  runs (extend (fun s => extensionCall ch s pod (changedPod ch))) (setInfo g n d)
    (fun _ d' => onPods (podsOf n) d' /\ dr_nodeInfo d' = n).
Proof.
  intros [Ha Hn Hr Hp Hall] Ha' Hn' Hch Hsub. unfold extend, runs. cbn [setInfo dr_state dr_nodeInfo dr_generation].
  rewrite <- Hp in Hall.
  destruct (contract_change ch _ n _ Hr Ha Ha' Hn Hn' Hall Hsub Hch) as [Hok Hrep].
  destruct (extensionCall ch (dr_state d) pod (changedPod ch) n) as [status st]. cbn in Hok, Hrep.
  unfold AsError. rewrite Hok. eexists tt, _. split; [done|]. by split.
Qed.

Lemma removePod_runs p kept d : onPods (p :: kept) d ->
  runs (removePod f pod p) d (fun _ d' => onPods kept d' /\ exists j,
    findPodKey (pod_UID p) (Pods (dr_nodeInfo d)) = Some j /\
    Pods (dr_nodeInfo d') = swapRemove (Pods (dr_nodeInfo d)) j).
Proof.
  intros Hd. pose proof Hd as [Ha Hn Hr Hp Hall].
  assert (Hin : p ∈ podsOf (dr_nodeInfo d)) by (rewrite Hp; left).
  apply list_elem_of_fmap in Hin as (x&->&Hx).
  destruct (RemovePod_accounted (dr_generation d) _ x Ha Hx) as (n'&Hrem&Ha'&Hpods&Hnode&_).
  assert (Hkept : podsOf n' ≡ₚ kept).
  { apply (Permutation_cons_inv (a := pi_Pod x)). rewrite <- Hp. unfold podsOf. by rewrite Hpods. }
  destruct (RemovePod_index _ _ _ _ _ Hrem) as (j&Hj&Hswap).
  unfold removePod, runs. rewrite Hrem.
  assert (Hsub : podsOf n' ⊆+ all) by (rewrite Hkept; etrans; [|exact Hall]; by apply submseteq_cons).
  destruct (extend_runs (PodRemoved (pi_Pod x)) (nextGeneration (dr_generation d)) n' d _ Hd Ha' ltac:(by rewrite Hnode))
    as (u&d'&He&Hd'&Hi); [by exists x|done|].
  exists u, d'. split; [exact He|]. split; [by eapply onPods_perm|]. exists j. by rewrite Hi.
Qed.

Lemma addPod_runs p kept d : onPods kept d -> p :: kept ⊆+ all ->
  runs (addPod f pod p) d (fun _ d' => onPods (p :: kept) d').
Proof.
  intros Hd Hsub. pose proof Hd as [Ha Hn Hr Hp Hall].
  assert (Huids : pod_UID <$> p :: kept ⊆+ pod_UID <$> all) by by apply fmap_submseteq.
  assert (Hnd : NoDup (pod_UID <$> p :: kept)) by by eapply NoDup_of_submseteq.
  assert (Hpu : podUIDs (dr_nodeInfo d) ≡ₚ pod_UID <$> kept) by (rewrite <- Hp; unfold podUIDs, podsOf; by rewrite <- list_fmap_compose).
  destruct (changeNode_spec (dr_generation d, dr_nodeInfo d) (PodAdded p) Ha) as (Ha'&Hn'&Hch).
  { split; [|].
    - intros He. apply all_nonempty. rewrite <- He. eapply elem_of_submseteq; [|exact Huids]. left.
    - rewrite Hpu. cbn in Hnd. by apply NoDup_cons in Hnd as [? _]. }
  cbn [changeNode fst snd] in *. unfold addPod, runs.
  destruct (NodeInfo.AddPod (dr_generation d) (dr_nodeInfo d) p) as [g n] eqn:E. cbn [snd] in *.
  assert (Hkept : podsOf n ≡ₚ p :: kept) by (unfold podsOf in *; cbn in Hch; rewrite Hch, <- Hp; done).
  destruct (extend_runs (PodAdded p) g n d _ Hd Ha' ltac:(by rewrite Hn') Hch) as (u&d'&He&Hd'&Hi); [by rewrite Hkept|].
  exists u, d'. split; [exact He|]. by eapply onPods_perm.
Qed.

Lemma passes_runs kept d : onPods kept d ->
  runs (passes statusOrder f npm pod) d (fun r d' => r = inr (admits kept) /\ onPods kept d').
Proof.
  intros Hd. pose proof Hd as [Ha Hn Hr Hp Hall]. unfold passes, runs.
  destruct (contract_passes (dr_generation d) _ _ Hr Ha Hn ltac:(by rewrite Hp)) as [status ->].
  eexists _, d. split; [done|]. split; [|done]. f_equal. apply contract_perm. by rewrite Hp.
Qed.

Lemma nodeName_runs kept d : onPods kept d -> runs nodeName d (fun _ d' => onPods kept d').
Proof. intros Hd. unfold nodeName. run_step. run_step. unfold NodeOf. rewrite (op_node _ _ Hd). by run_step. Qed.

(** *** The loops *)
Definition lower (p : Pod) : Prop := GetPodPriority p < GetPodPriority pod.
#[export] Instance lower_dec p : Decision (lower p).
Proof. unfold lower. apply _. Defined.

Lemma removal_index (l backing : list PodInfo) i j x k : l = take (length l) backing -> backing !! i = Some x ->
  GetPodKey (pi_Pod x) = Ok k -> findPodKey k l = Some j -> (j <= i)%nat.
Proof.
  intros Hl Hx Hk Hj. destruct (decide (i < length l)%nat) as [Hi|Hi].
  - assert (Hlx : l !! i = Some x) by (rewrite Hl; rewrite lookup_take_lt by lia; done).
    destruct (findPodKey_le k l i x Hlx Hk) as (j'&Hj'&?). congruence.
  - unfold findPodKey in Hj. destruct (list_find _ l) as [[j' y]|] eqn:Hf; [|done]. injection Hj as <-.
    apply list_find_Some in Hf as (Hy&_). apply lookup_lt_Some in Hy. cbn. lia.
Qed.

Lemma removeLoop_runs L : forall n i backing potential d,
  length backing = length L -> (i + n)%nat = length L -> drop i backing = drop i L ->
  Pods (dr_nodeInfo d) = take (length (Pods (dr_nodeInfo d))) backing ->
  onPods (filter (fun p => ~ lower p) (pi_Pod <$> take i L) ++ (pi_Pod <$> drop i L)) d ->
  runs (removeLoop f pod n i backing potential) d (fun r d' =>
    r = potential ++ filter lower (pi_Pod <$> drop i L) /\ onPods (filter (fun p => ~ lower p) (pi_Pod <$> L)) d').
Proof.
  induction n as [|n IH]; intros i backing potential d Hlen Hi Hdrop Hpre Hd; cbn [removeLoop].
  - rewrite drop_ge, take_ge in Hd by lia. rewrite drop_ge by lia. run_step. split; [by rewrite app_nil_r|].
    eapply onPods_perm; [|exact Hd]. by rewrite app_nil_r.
  - destruct (lookup_lt_is_Some_2 L i) as [x Hx]; [lia|].
    assert (Hb : backing !! i = Some x).
    { rewrite <- (Nat.add_0_r i), <- lookup_drop, Hdrop, lookup_drop, Nat.add_0_r. done. }
    rewrite Hb. rewrite (drop_S L x i Hx) in Hd |- *. cbn [fmap list_fmap] in Hd |- *.
    assert (Htake : take (S i) L = take i L ++ [x]) by by apply take_S_r.
    assert (Hdrop' : drop (S i) backing = drop (S i) L).
    { change (S i) with (1 + i)%nat. rewrite Nat.add_comm, <- !drop_drop, Hdrop. done. }
    rewrite filter_cons. destruct (GetPodPriority (pi_Pod x) <? GetPodPriority pod) eqn:E.
    + apply Z.ltb_lt in E. rewrite decide_True by done. run_step.
      assert (Hd1 : onPods (pi_Pod x :: filter (fun p => ~ lower p) (pi_Pod <$> take i L) ++ (pi_Pod <$> drop (S i) L)) d).
      { eapply onPods_perm; [|exact Hd]. symmetry. apply Permutation_middle. }
      assert (Hkey : GetPodKey (pi_Pod x) = Ok (pod_UID (pi_Pod x))).
      { unfold GetPodKey. rewrite decide_False; [done|]. intros He. apply all_nonempty. rewrite <- He.
        apply list_elem_of_fmap_2. eapply elem_of_submseteq; [|apply (op_all _ _ Hd1)]. left. }
      eapply runs_mono; [by apply removePod_runs|]. intros _ d' (Hd'&j&Hj&Hswap). run_step. run_step.
      pose proof (removal_index _ _ _ _ _ _ Hpre Hb Hkey Hj) as Hji.
      assert (Hne : Pods (dr_nodeInfo d) <> []) by (intros He; rewrite He in Hj; done).
      assert (Hle : (length (Pods (dr_nodeInfo d)) <= length backing)%nat) by (rewrite Hpre, length_take; lia).
      assert (Hlen' : (length (Pods (dr_nodeInfo d')) <= length backing)%nat).
      { rewrite Hswap, length_swapRemove by done. lia. }
      assert (Hgoal : drop (S i) (Pods (dr_nodeInfo d') ++ drop (length (Pods (dr_nodeInfo d'))) backing) = drop (S i) L).
      { rewrite Hswap, <- Hdrop'. by apply drop_backing. }
      eapply runs_mono; [apply (IH (S i))|].
      * by rewrite length_backing.
      * lia.
      * exact Hgoal.
      * by rewrite take_app_length.
      * rewrite Htake, fmap_app, filter_app. change (pi_Pod <$> [x]) with [pi_Pod x]. rewrite filter_cons_False by tauto. by rewrite app_nil_r.
      * intros r d'' [-> Hd'']. split; [by rewrite <- app_assoc|done].
    + apply Z.ltb_ge in E. rewrite decide_False by (unfold lower; lia).
      apply (IH (S i)); [done|lia|done|done|].
      eapply onPods_perm; [|exact Hd]. rewrite Htake, fmap_app, filter_app. change (pi_Pod <$> [x]) with [pi_Pod x].
      rewrite filter_cons_True by (unfold lower; lia). by rewrite <- app_assoc.
Qed.

Lemma reprievePod_runs p kept victims d : onPods kept d -> p :: kept ⊆+ all ->
  runs (reprievePod statusOrder f npm pod p victims) d (fun r d' =>
    if admits (p :: kept) then r = (true, victims) /\ onPods (p :: kept) d'
    else r = (false, victims ++ [p]) /\ onPods kept d').
Proof.
  intros Hd Hsub. unfold reprievePod. run_step. eapply runs_mono; [by apply (addPod_runs p kept)|]. intros [] d1 Hd1.
  run_step. eapply runs_mono; [by apply (passes_runs (p :: kept))|]. intros r d2 [-> Hd2].
  destruct (admits (p :: kept)); [by run_step|].
  run_step. eapply runs_mono; [by apply (removePod_runs p kept)|]. intros _ d3 [Hd3 _].
  run_step. eapply runs_mono; [by apply (nodeName_runs kept)|]. intros ? d4 Hd4. by run_step.
Qed.

Lemma reprieveLoop_runs pods : forall kept victims num d, onPods kept d -> pods ++ kept ⊆+ all ->
  runs (reprieveLoop statusOrder f npm pod pods victims num) d (fun r d' =>
    r = (victims ++ greedyVictims admits kept pods, num + Z.of_nat (length (greedyVictims admits kept pods))) /\
    onPods (greedyKept admits kept pods) d').
Proof.
  induction pods as [|p pods IH]; intros kept victims num d Hd Hsub; cbn [reprieveLoop greedyVictims greedyKept].
  - run_step. cbn. split; [|done]. by rewrite app_nil_r, Z.add_0_r.
  - run_step. eapply runs_mono; [apply (reprievePod_runs p kept); [done|]|].
    { etrans; [|exact Hsub]. cbn. apply submseteq_skip, submseteq_inserts_l. done. }
    intros r d'. destruct (admits (p :: kept)); intros [-> Hd'].
    + apply IH; [done|]. by rewrite <- Permutation_middle.
    + eapply runs_mono; [apply (IH kept); [done|]|].
      { etrans; [|exact Hsub]. cbn. by apply submseteq_cons. }
      intros r d'' [-> Hd'']. split; [|done]. f_equal; [by rewrite <- app_assoc|cbn [length]; lia].
Qed.

(** *** The selection *)
Context `{SortSlice} (now : Z).

Definition keptPods (pods : list Pod) : list Pod := filter (fun p => ~ lower p) pods.

(** The selection of victims on lists of pods. *)
Definition bestVictims (pods : list Pod) (pdbs : list PodDisruptionBudget) : option Victims :=
  let potential := filter lower pods in
  if decide (potential = []) then None
  else if admits (keptPods pods) then
    let '(violating, nonViolating) := filterPodsWithPDBViolation (sortSlice (MoreImportantPod now) potential) pdbs in
    Some {| victim_Pods := greedyVictims admits (keptPods pods) (violating ++ nonViolating);
            NumPDBViolations := Z.of_nat (length (greedyVictims admits (keptPods pods) violating)) |}
  else None.

Lemma selectVictims_refines `{!SortLaws} g s n pdbs :
  all = podsOf n -> accounted n -> node n = Some nd -> represents n s ->
  selectVictimsOnNode statusOrder now f npm pod g s n pdbs = Some (bestVictims all pdbs).
Proof.
  intros Hall Ha Hn Hr. unfold selectVictimsOnNode.
  set (d := {| dr_generation := g; dr_nodeInfo := n; dr_state := s |}).
  assert (Hd : onPods all d) by (split; try done; change (podsOf n ≡ₚ all); by rewrite <- Hall).
  enough (Hruns : runs (selectVictims statusOrder now f npm pod pdbs) d (fun r _ => r = bestVictims all pdbs)).
  { destruct Hruns as (r&d'&->&->). done. }
  unfold selectVictims. run_step. run_step. run_step.
  eapply runs_mono; [apply (removeLoop_runs (Pods n)); try done|].
  { cbn. by rewrite take_ge by lia. }
  { change (onPods (pi_Pod <$> drop 0 (Pods n)) d). rewrite drop_0. change (onPods (podsOf n) d). by rewrite <- Hall. }
  intros r d1 [-> Hd1]. change (drop 0 (Pods n)) with (Pods n) in *. change (pi_Pod <$> Pods n) with (podsOf n) in *. rewrite <- Hall in Hd1 |- *.
  cbn [app]. unfold bestVictims. fold (keptPods all) in Hd1.
  destruct (filter lower all) as [|p ps] eqn:Hlower; [by run_step|]. rewrite decide_False by done.
  run_step. eapply runs_mono; [by apply passes_runs|]. intros r d2 [-> Hd2].
  destruct (admits (keptPods all)); [|by run_step].
  destruct (splitByBudgets_spec (sortSlice (MoreImportantPod now) (p :: ps)) pdbs (DisruptionsAllowed <$> pdbs)) as (Hsplit&_&_).
  fold (filterPodsWithPDBViolation (sortSlice (MoreImportantPod now) (p :: ps)) pdbs) in Hsplit.
  destruct (filterPodsWithPDBViolation _ _) as [v nv]. cbn [fst snd] in Hsplit. rewrite sort_perm in Hsplit.
  assert (Hsub : (v ++ nv) ++ keptPods all ⊆+ all).
  { rewrite Hsplit, <- Hlower. unfold keptPods. by rewrite filter_app_complement. }
  run_step. eapply runs_mono; [apply (reprieveLoop_runs v (keptPods all)); [done|]|].
  { etrans; [|exact Hsub]. rewrite <- app_assoc. apply submseteq_app; [done|]. by apply submseteq_inserts_l. }
  intros r d3 [-> Hd3]. cbn [app].
  run_step. eapply runs_mono; [apply (reprieveLoop_runs nv); [exact Hd3|]|].
  { etrans; [|exact Hsub]. rewrite (Permutation_app_comm v nv), <- app_assoc. apply submseteq_app; [done|].
    rewrite (Permutation_app_comm v), <- (greedy_split admits v (keptPods all)). by apply submseteq_inserts_r. }
  intros r d4 [-> Hd4]. run_step. by rewrite greedyVictims_app.
Qed.
End Contract.
Arguments represents {_ _ _ statusOrder f npm pod nd all admits _} n s : rename.

(** ** The victims on a node *)

(** What is promised of the answer [r] for a node with the pods [pods]. *)
Definition victimsSpec `{LabelsLib, PodPriority, SortSlice} (now : Z) (pod : Pod) (admits : list Pod -> bool)
    (pods : list Pod) (pdbs : list PodDisruptionBudget) (r : option Victims) : Prop :=
  let rest := filter (fun p => ~ lower pod p) pods in
  match r with
  | None => (forall p, p ∈ pods -> ~ lower pod p) \/ admits rest = false
  | Some victims => exists violating nonViolating,
      filterPodsWithPDBViolation (sortSlice (MoreImportantPod now) (filter (lower pod) pods)) pdbs = (violating, nonViolating) /\
      violating ++ nonViolating ≡ₚ filter (lower pod) pods /\
      StronglySorted (le (MoreImportantPod now)) violating /\
      StronglySorted (le (MoreImportantPod now)) nonViolating /\
      victim_Pods victims `sublist_of` violating ++ nonViolating /\
      admits (filter (fun p => p ∉ victim_Pods victims) pods) = true /\
      NumPDBViolations victims = Z.of_nat (length (filter (fun p => p ∈ violating) (victim_Pods victims))) /\
      (antitone admits -> forall pre p post spared,
         violating ++ nonViolating = pre ++ p :: post -> spared ⊆+ violating ++ nonViolating ->
         admits (rest ++ spared) = true ->
         (forall q, q ∈ pre -> q ∈ spared <-> q ∉ victim_Pods victims) ->
         p ∈ victim_Pods victims -> p ∉ spared)
  end.

Lemma bestVictims_spec `{LabelsLib, PodPriority, SortSlice, !SortLaws} now pod admits (pods : list Pod) pdbs :
  Proper ((≡ₚ) ==> (=)) admits -> NoDup pods ->
  victimsSpec now pod admits pods pdbs (bestVictims pod admits now pods pdbs).
Proof.
  intros Hperm Hnd. unfold bestVictims, victimsSpec. fold (keptPods pod pods).
  case_decide as Hlower.
  { left. intros p Hp Hl. apply (not_elem_of_nil p). rewrite <- Hlower. by apply list_elem_of_filter. }
  destruct (admits (keptPods pod pods)) eqn:Hadm; [|by right].
  destruct (splitByBudgets_spec (sortSlice (MoreImportantPod now) (filter (lower pod) pods)) pdbs (DisruptionsAllowed <$> pdbs))
    as (Hsplit&Hs1&Hs2).
  fold (filterPodsWithPDBViolation (sortSlice (MoreImportantPod now) (filter (lower pod) pods)) pdbs) in *.
  destruct (filterPodsWithPDBViolation _ _) as [v nv]. cbn [fst snd] in *. rewrite sort_perm in Hsplit.
  pose proof (sort_sorted (MoreImportantPod now) (filter (lower pod) pods) _) as Hsorted.
  assert (Hnd' : NoDup (v ++ nv)) by (rewrite Hsplit; by apply NoDup_filter).
  assert (Hall : keptPods pod pods ++ (v ++ nv) ≡ₚ pods).
  { rewrite Hsplit, Permutation_app_comm. apply filter_app_complement. }
  exists v, nv. cbn [victim_Pods NumPDBViolations]. split_and!; [done|done| | | | | |].
  - by eapply sorted_sublist.
  - by eapply sorted_sublist.
  - apply greedyVictims_sublist.
  - rewrite <- (greedy_admits admits (v ++ nv) _ Hadm). apply Hperm. symmetry.
    apply Permutation_filter_out; [done|]. by rewrite greedy_split.
  - rewrite greedyVictims_app, filter_app, filter_keeps_all, filter_drops_all, app_nil_r; [done| |].
    + intros p Hp Hv. apply NoDup_app in Hnd' as (_&Hdis&_). apply (Hdis p Hv).
      eapply sublist_subseteq; [apply greedyVictims_sublist|done].
    + intros p Hp. eapply sublist_subseteq; [apply greedyVictims_sublist|done].
  - intros Hanti pre p post spared Horder Hsub Hspared Hpre Hp.
    by eapply (greedy_first admits (v ++ nv) (keptPods pod pods)).
Qed.

(** C38: let the plugins of a framework keep to the contract that [admits] is their verdict on the
    pods of a node.  Then [selectVictimsOnNode] returns: with no victims only when the node has
    no pod of lower priority or when the pod would not even fit without them; else with pods
    of lower priority without which the pod fits, in the order in which the algorithm gives
    them up - those whose disruption budget would be violated first, the more important ones
    first -, and the number of those that violate a budget.  When more pods are never better
    for the filters, no other choice spares a victim without giving up one that comes earlier. *)
Theorem victims_are_best_possible `{LabelsLib, StateData, PodPriority, SortSlice, !SortLaws}
    (statusOrder : gmap string Status -> list Status) (now : Z) (f : frameworkImpl) (npm : nominatedPodMap)
    (pod : Pod) (nd : Node) (n : NodeInfo) (admits : list Pod -> bool)
    `{!DryRunContract statusOrder f npm pod nd (podsOf n) admits} (g : Z) (s : CycleState)
    (pdbs : list PodDisruptionBudget) :
  accounted n -> node n = Some nd -> represents n s ->
  exists r, selectVictimsOnNode statusOrder now f npm pod g s n pdbs = Some r /\
    victimsSpec now pod admits (podsOf n) pdbs r.
Proof.
  intros Ha Hn Hr. pose proof (acc_uids _ Ha) as Huids. pose proof (acc_nonempty _ Ha) as Hne.
  unfold podUIDs in *. rewrite list_fmap_compose in Huids, Hne. fold (podsOf n) in *.
  eexists. split; [by apply (selectVictims_refines _ _ _ _ nd (podsOf n) admits)|].
  apply bestVictims_spec; [apply (contract_perm statusOrder f npm pod nd (podsOf n))|]. by eapply NoDup_fmap_1.
Qed.

(** ** Concrete instances *)

(** A sort. *)
Fixpoint insertSorted {A} (less : A -> A -> bool) (a : A) (l : list A) : list A :=
  match l with
  | [] => [a]
  | b :: l => if less b a then b :: insertSorted less a l else a :: b :: l
  end.
#[local] Instance insertionSort : SortSlice := fun A less => foldr (insertSorted less) [].

Lemma insertSorted_perm {A} (less : A -> A -> bool) a l : insertSorted less a l ≡ₚ a :: l.
Proof. induction l as [|b l IH]; cbn; [done|]. destruct (less b a); [|done]. rewrite IH. apply perm_swap. Qed.

Lemma insertSorted_sorted {A} (less : A -> A -> bool) `{!StrictWeak less} a l :
  StronglySorted (le less) l -> StronglySorted (le less) (insertSorted less a l).
Proof.
  induction 1 as [|b l Hl IH Hb]; cbn; [by repeat constructor|].
  rewrite list.Forall_forall in Hb. destruct (less b a) eqn:E; constructor; try done; [| |apply list.Forall_forall].
  - apply list.Forall_forall. intros c Hc. rewrite insertSorted_perm in Hc.
    apply elem_of_cons in Hc as [->|Hc]; [by apply lt_le|by apply Hb].
  - by constructor; [|apply list.Forall_forall].
  - intros c [->|Hc]%elem_of_cons; [done|]. eapply le_trans; [exact E|by apply Hb].
Qed.

#[local] Instance insertionSort_laws : SortLaws.
Proof.
  split; unfold sortSlice, insertionSort; intros A less l.
  - induction l as [|a l IH]; cbn; [done|]. by rewrite insertSorted_perm, IH.
  - intros Hless. induction l as [|a l IH]; cbn; [constructor|]. by apply insertSorted_sorted.
Qed.

(** A plugin that admits at most [k] pods. *)
Definition atMost `{StateData} (k : nat) : FilterPlugin :=
  {| filter_Name := "AtMost";
     Filter _ _ n := if (length (Pods n) <? k)%nat then None else NewStatus Unschedulable ["Too many pods"] |}.
Definition countingFramework `{StateData} (k : nat) : frameworkImpl :=
  {| preFilterPlugins := []; filterPlugins := [atMost k]; preScorePlugins := []; scorePlugins := [];
     pluginNameToWeightMap := ∅; runAllFilters := false |}.
#[local] Instance unitState : StateData := {| dataOf := unit; CloneData := id |}.
#[local] Existing Instance exampleLabels.
(** Pods of the class "low" yield to the others. *)
#[local] Instance classPriority : PodPriority := fun p =>
  match pod_Labels p !! "class" with Some "low" => 1 | Some "lowest" => 0 | _ => 10 end.
Definition valuesOf (m : gmap string Status) : list Status := (map_to_list m).*2.

#[local] Instance counting_contract k pod nd all :
  DryRunContract valuesOf (countingFramework k) NewPodNominator pod nd all (fun pods => (length pods <? k)%nat).
Proof.
  refine {| represents _ _ := True |}.
  - intros [p|p]; done.
  - intros g n s _ _ Hn _. unfold PodPassesFiltersOnNode, addNominatedPods. unfold NodeOf. rewrite Hn.
    assert (Hnone : NominatedPodsForNode NewPodNominator (node_Name nd) = []) by done. rewrite Hnone. unfold podsOf. rewrite length_fmap. unfold runFilters, RunFilterPlugins. cbn [countingFramework filterPlugins filterLoop runAllFilters atMost Filter].
    destruct (length (Pods n) <? k)%nat; cbn; eexists; reflexivity.
  - intros l l' Hl. by rewrite Hl.
Defined.

Definition classPod (uid class : string) : Pod := podWith uid "n1" {[ "class" := class ]} None None ∅ [].
Definition busyNode : NodeInfo := infoWith (zoneNode "n1" "a") [classPod "a" "low"; classPod "b" "high"; classPod "c" "lowest"; classPod "d" "low"].
Definition urgentPod : Pod := classPod "urgent" "high".

Lemma victims_are_best_possible_witness :
  selectVictimsOnNode valuesOf 0 (countingFramework 4) NewPodNominator urgentPod 9 ∅ busyNode [] =
    Some (Some {| victim_Pods := [classPod "c" "lowest"]; NumPDBViolations := 0 |}) /\
  victimsSpec 0 urgentPod (fun pods => (length pods <? 4)%nat) (podsOf busyNode) []
    (Some {| victim_Pods := [classPod "c" "lowest"]; NumPDBViolations := 0 |}).
Proof.
  assert (Hsel : selectVictimsOnNode valuesOf 0 (countingFramework 4) NewPodNominator urgentPod 9 ∅ busyNode [] =
    Some (Some {| victim_Pods := [classPod "c" "lowest"]; NumPDBViolations := 0 |})) by (vm_compute; reflexivity).
  split; [exact Hsel|].
  destruct (victims_are_best_possible valuesOf 0 (countingFramework 4) NewPodNominator urgentPod (zoneNode "n1" "a") busyNode
    (fun pods => (length pods <? 4)%nat) 9 ∅ []) as (r&Hr&Hspec).
  - unfold busyNode, infoWith. cbn [foldl].
    repeat (apply AddPod_accounted; [|discriminate|apply (bool_decide_unpack _); vm_compute; exact I]).
    apply accounted_SetNode, accounted_NewNodeInfo.
  - reflexivity.
  - exact I.
  - rewrite Hsel in Hr. injection Hr as <-. exact Hspec.
Defined.
