(* ===== verification/PreemptionChoice.v ===== *)
(** * Disruption budgets and the choice of a node for a preemption

    Which pods violate a disruption budget, and that the node that is picked is the least
    in the order of the documented criteria, for every order in which Go iterates over the
    map of candidates. *)
From S2P Require Import Prelude Api GoHeap NodeInfo Framework Goroutine Nominator PriorityQueue Cache Snapshot.
From S2P Require Import GenericScheduler WaitingPods Scheduler PodChanges Preemption.
Local Open Scope Z_scope.

(** ** Disruption budgets *)
Section Budgets.
Context `{LabelsLib}.

(** The pod counts against the budget. *)
Definition charges (b : PodDisruptionBudget) (p : Pod) : Prop := pod_Labels p <> ∅ /\ budgetMatches p b = true.
#[export] Instance charges_dec b p : Decision (charges b p).
Proof. unfold charges. apply _. Defined.

Definition charged (b : PodDisruptionBudget) (pods : list Pod) : Z := Z.of_nat (length (filter (charges b) pods)).

Lemma charged_app b l k : charged b (l ++ k) = charged b l + charged b k.
Proof. unfold charged. rewrite filter_app, length_app. lia. Qed.
Lemma charged_one b p : charged b [p] = if decide (charges b p) then 1 else 0.
Proof. unfold charged. rewrite filter_cons, filter_nil. by case_decide. Qed.
Lemma charged_le b l : charged b l <= Z.of_nat (length l).
Proof. unfold charged. pose proof (length_filter (charges b) l). lia. Qed.

(** What is left of the budgets after [seen]. *)
Definition leftOf (seen : list Pod) (b : PodDisruptionBudget) : Z := DisruptionsAllowed b - charged b seen.

Definition roomFor (total : Z) (pdbs : list PodDisruptionBudget) : Prop :=
  Forall (fun b => - 2 ^ 31 + total <= DisruptionsAllowed b < 2 ^ 31) pdbs.

Lemma chargeBudgets_spec p seen (pdbs : list PodDisruptionBudget) : pod_Labels p <> ∅ -> roomFor (Z.of_nat (length seen) + 1) pdbs ->
  chargeBudgets p pdbs (leftOf seen <$> pdbs) =
    (existsb (fun b => budgetMatches p b && (DisruptionsAllowed b <? charged b (seen ++ [p]))) pdbs,
     leftOf (seen ++ [p]) <$> pdbs).
Proof.
  intros Hl. induction pdbs as [|b pdbs IH]; intros Hroom; [done|]. apply Forall_cons in Hroom as [Hb Hroom].
  cbn [fmap list_fmap chargeBudgets existsb]. rewrite (IH Hroom).
  pose proof (charged_le b seen). assert (0 <= charged b seen) by (unfold charged; lia).
  assert (Hc : charged b (seen ++ [p]) = charged b seen + (if budgetMatches p b then 1 else 0)).
  { rewrite charged_app, charged_one. destruct (decide (charges b p)) as [[_ ->]|Hn]; [done|].
    destruct (budgetMatches p b) eqn:Hm; [by destruct Hn|done]. }
  unfold leftOf in *. rewrite Hc. destruct (budgetMatches p b); cbn [andb orb].
  - rewrite wrap32_id by lia. f_equal; [f_equal|f_equal; lia].
    apply eq_bool_prop_intro. rewrite !Is_true_true, !Z.ltb_lt. lia.
  - do 2 f_equal. lia.
Qed.

Lemma leftOf_unlabelled p seen (pdbs : list PodDisruptionBudget) : pod_Labels p = ∅ -> leftOf (seen ++ [p]) <$> pdbs = leftOf seen <$> pdbs.
Proof.
  intros Hl. apply list_fmap_ext. intros _ b _. unfold leftOf. rewrite charged_app, charged_one.
  rewrite decide_False by (by intros []). lia.
Qed.

(** The pod comes after [seen] and exceeds a budget. *)
Definition exceeds (pdbs : list PodDisruptionBudget) (seen : list Pod) (p : Pod) : bool :=
  existsb (fun b => bool_decide (charges b p) && (DisruptionsAllowed b <? charged b (seen ++ [p]))) pdbs.

Lemma exceeds_violated pdbs seen p : roomFor (Z.of_nat (length seen) + 1) pdbs ->
  (if decide (pod_Labels p = ∅) then (false, leftOf seen <$> pdbs) else chargeBudgets p pdbs (leftOf seen <$> pdbs)) =
    (exceeds pdbs seen p, leftOf (seen ++ [p]) <$> pdbs).
Proof.
  intros Hroom. unfold exceeds. case_decide as Hl.
  - rewrite leftOf_unlabelled by done. f_equal. symmetry. apply not_true_is_false. intros Hex.
    apply existsb_exists in Hex as (b&_&Hb). apply andb_true_iff in Hb as [Hc _]. by apply bool_decide_eq_true in Hc as [].
  - rewrite chargeBudgets_spec by done. f_equal. induction pdbs as [|b pdbs IH]; [done|]. cbn.
    apply Forall_cons in Hroom as [_ Hroom]. rewrite (IH Hroom). f_equal. f_equal.
    apply eq_bool_prop_intro. rewrite !Is_true_true, bool_decide_eq_true. unfold charges. tauto.
Qed.

(** The pods of [pods], which come after [seen], that exceed a budget, and the others. *)
Fixpoint splitAfter (pdbs : list PodDisruptionBudget) (seen pods : list Pod) : list Pod * list Pod :=
  match pods with
  | [] => ([], [])
  | p :: pods =>
      let '(v, nv) := splitAfter pdbs (seen ++ [p]) pods in
      if exceeds pdbs seen p then (p :: v, nv) else (v, p :: nv)
  end.

Lemma splitByBudgets_after pdbs pods : forall seen, roomFor (Z.of_nat (length seen + length pods)) pdbs ->
  splitByBudgets pods pdbs (leftOf seen <$> pdbs) = splitAfter pdbs seen pods.
Proof.
  induction pods as [|p pods IH]; intros seen Hroom; [done|]. cbn [splitByBudgets splitAfter].
  rewrite exceeds_violated by (eapply Forall_impl; [exact Hroom|]; cbn; intros; lia).
  rewrite IH; [done|]. eapply Forall_impl; [exact Hroom|]. rewrite length_app. cbn. intros. lia.
Qed.

Lemma splitAfter_spec pdbs pods : forall seen,
  let r := splitAfter pdbs seen pods in
  r.1 ++ r.2 ≡ₚ pods /\ r.1 `sublist_of` pods /\ r.2 `sublist_of` pods /\
  forall pre p post, NoDup pods -> pods = pre ++ p :: post -> p ∈ r.1 <-> exceeds pdbs (seen ++ pre) p = true.
Proof.
  induction pods as [|q pods IH]; intros seen; cbn [splitAfter].
  { split_and!; [done..|]. by intros []. }
  destruct (IH (seen ++ [q])) as (Hp&Hs1&Hs2&Hin). destruct (splitAfter pdbs (seen ++ [q]) pods) as [v nv]. cbn [fst snd] in *.
  assert (Hqv : q ∉ pods -> q ∉ v) by (intros Hq Hv; apply Hq; rewrite <- Hp; apply elem_of_app; by left).
  destruct (exceeds pdbs seen q) eqn:Hex; cbn [fst snd app].
  all: split; [by f_equiv || (rewrite <- Permutation_middle; by f_equiv)|].
  all: do 2 (split; [by constructor|]).
  all: intros [|q' pre] p post Hnd Hsplit; cbn in Hsplit; injection Hsplit as -> Hsplit; apply NoDup_cons in Hnd as [Hq Hnd].
  - rewrite app_nil_r, Hex. split; [done|]. by left.
  - rewrite elem_of_cons, (Hin pre p post Hnd Hsplit), <- app_assoc. cbn. split; [intros [->|]; [|done]|tauto].
    destruct Hq. rewrite Hsplit. apply elem_of_app. right. left.
  - rewrite app_nil_r, Hex. split; [by intros ?%Hqv|done].
  - by rewrite (Hin pre p post Hnd Hsplit), <- app_assoc.
Qed.
End Budgets.

(** The pods that are preempted only last are those of [filterPodsWithPDBViolation] that
    violate a budget: a labelled pod with a budget of its namespace that selects it, in which
    it is not yet disrupted, and which allows fewer disruptions than the number of such pods
    up to this one.  Both groups keep the order of the pods, and together they are the pods. *)
Theorem budgets_are_charged_in_order `{LabelsLib} (pods : list Pod) (pdbs : list PodDisruptionBudget) :
  NoDup pods -> roomFor (Z.of_nat (length pods)) pdbs ->
  let '(violatingPods, nonViolatingPods) := filterPodsWithPDBViolation pods pdbs in
  violatingPods ++ nonViolatingPods ≡ₚ pods /\
  violatingPods `sublist_of` pods /\ nonViolatingPods `sublist_of` pods /\
  forall pre p post, pods = pre ++ p :: post ->
    (p ∈ violatingPods <-> exists b, b ∈ pdbs /\ charges b p /\ DisruptionsAllowed b < charged b (pre ++ [p])).
Proof.
  intros Hnd Hroom. unfold filterPodsWithPDBViolation.
  assert (Hleft : DisruptionsAllowed <$> pdbs = leftOf [] <$> pdbs).
  { apply list_fmap_ext. intros _ b _. unfold leftOf, charged. cbn. lia. }
  rewrite Hleft, splitByBudgets_after by done. destruct (splitAfter_spec pdbs pods []) as (Hp&Hs1&Hs2&Hin).
  destruct (splitAfter pdbs [] pods) as [v nv]. cbn [fst snd app] in *. split_and!; [done..|].
  intros pre p post Hsplit. rewrite (Hin pre p post Hnd Hsplit). unfold exceeds. rewrite existsb_exists.
  setoid_rewrite andb_true_iff. setoid_rewrite bool_decide_eq_true. setoid_rewrite Z.ltb_lt.
  by setoid_rewrite list_elem_of_In.
Qed.

(** ** The least elements of a list *)
Section Minima.
Context {A : Type}.

Definition least (key : A -> Z) (start : Z) (l : list A) : Z := foldl (fun m a => Z.min m (key a)) start l.

Lemma least_le key l : forall start, least key start l <= start /\ forall a, a ∈ l -> least key start l <= key a.
Proof.
  induction l as [|b l IH]; intros start; cbn.
  - split; [lia|]. intros a Ha. by apply elem_of_nil in Ha.
  - fold (least key (Z.min start (key b)) l). destruct (IH (Z.min start (key b))) as [H1 H2]. split; [lia|].
    intros a [->|Ha]%elem_of_cons; [lia|by apply H2].
Qed.

Lemma least_attained key l : forall start, least key start l = start \/ exists a, a ∈ l /\ least key start l = key a.
Proof.
  induction l as [|b l IH]; intros start; cbn; [by left|]. fold (least key (Z.min start (key b)) l).
  destruct (IH (Z.min start (key b))) as [H1|(a&Ha&H1)].
  - rewrite H1. destruct (Z.min_spec start (key b)) as [[_ ->]|[_ ->]]; [by left|right; exists b; split; [left|done]].
  - right. exists a. split; [by right|done].
Qed.

Lemma minimaLoop_spec key l : forall start acc,
  minimaLoop key l start acc =
    (if least key start l =? start then acc else []) ++ filter (fun a => key a = least key start l) l.
Proof.
  induction l as [|b l IH]; intros start acc; cbn [minimaLoop].
  - cbn. by rewrite Z.eqb_refl, app_nil_r.
  - change (least key start (b :: l)) with (least key (Z.min start (key b)) l). rewrite filter_cons.
    destruct (least_le key l (Z.min start (key b))) as [Hmin _].
    destruct (Z.ltb_spec (key b) start) as [Hb|Hb].
    + rewrite Z.eqb_refl. cbn [app]. rewrite IH. replace (Z.min start (key b)) with (key b) in * by lia.
      rewrite (proj2 (Z.eqb_neq _ start)) by lia. case_decide as E.
      * by rewrite (proj2 (Z.eqb_eq _ (key b))) by done.
      * by rewrite (proj2 (Z.eqb_neq _ (key b))) by congruence.
    + replace (Z.min start (key b)) with start in * by lia. rewrite IH. case_decide as E.
      * replace (key b =? start) with true by (symmetry; apply Z.eqb_eq; lia).
        rewrite (proj2 (Z.eqb_eq _ start)) by lia. by rewrite <- app_assoc.
      * destruct (Z.eqb_spec (key b) start) as [E2|]; [|done].
        by rewrite (proj2 (Z.eqb_neq (least key start l) start)) by congruence.
Qed.

Lemma minima_iff start key (l : list A) a : (forall b, b ∈ l -> key b <= start) ->
  a ∈ minima start key l <-> a ∈ l /\ forall b, b ∈ l -> key a <= key b.
Proof.
  intros Hstart. unfold minima. rewrite minimaLoop_spec.
  replace (if _ =? _ then [] else []) with (@nil A) by (by destruct (_ =? _)). cbn [app].
  rewrite list_elem_of_filter. destruct (least_le key l start) as [Hs Hl]. split.
  - intros [Ha Hin]. split; [done|]. intros b Hb. rewrite Ha. by apply Hl.
  - intros [Hin Ha]. split; [|done]. specialize (Hl a Hin). specialize (Hstart a Hin).
    destruct (least_attained key l start) as [E|(b&Hb&E)]; [lia|]. specialize (Ha b Hb). lia.
Qed.

Lemma minima_nonempty start key (l : list A) : (forall b, b ∈ l -> key b <= start) -> l <> [] -> minima start key l <> [].
Proof.
  intros Hstart Hl. enough (exists a, a ∈ minima start key l) as [a Ha] by (intros He; rewrite He in Ha; by apply elem_of_nil in Ha).
  destruct (least_attained key l start) as [E|(a&Ha&E)].
  - destruct l as [|b l]; [done|]. exists b. apply minima_iff; [done|]. split; [left|]. intros c Hc.
    destruct (least_le key (b :: l) start) as [_ Hle]. specialize (Hle c Hc). specialize (Hstart b ltac:(left)). lia.
  - exists a. apply minima_iff; [done|]. split; [done|]. intros b Hb. rewrite <- E. by apply least_le.
Qed.
End Minima.

Lemma minimaLoop_fmap {A B} (h : A -> B) key (l : list A) : forall start acc,
  minimaLoop key (h <$> l) start (h <$> acc) = h <$> minimaLoop (fun a => key (h a)) l start acc.
Proof.
  induction l as [|a l IH]; intros start acc; cbn; [done|].
  destruct (key (h a) <? start); [rewrite Z.eqb_refl; apply (IH _ [a])|].
  destruct (key (h a) =? start); [|apply IH]. rewrite <- IH, fmap_app. done.
Qed.

Lemma minima_ext {A} start (key key' : A -> Z) (l : list A) : (forall a, a ∈ l -> key a = key' a) ->
  minima start key l = minima start key' l.
Proof.
  unfold minima. generalize (@nil A) as acc. revert start. induction l as [|a l IH]; intros start acc Hkey; [done|].
  cbn. rewrite (Hkey a ltac:(left)). destruct (key' a <? start); apply IH; intros b Hb; apply Hkey; by right.
Qed.

(** ** Lexicographic selection *)
Fixpoint lexLe (l k : list Z) : Prop :=
  match l, k with
  | x :: l, y :: k => x < y \/ x = y /\ lexLe l k
  | _, _ => True
  end.

Section Select.
Context {A : Type}.

(** The elements that are least by one key after the other. *)
Fixpoint selected (keys : list (A -> Z)) (l : list A) (a : A) : Prop :=
  match keys with
  | [] => a ∈ l
  | key :: keys => exists l', (forall b, b ∈ l' <-> b ∈ l /\ forall c, c ∈ l -> key b <= key c) /\ selected keys l' a
  end.

Lemma selected_lexLe keys : forall l a, selected keys l a ->
  a ∈ l /\ forall b, b ∈ l -> lexLe ((fun k => k a) <$> keys) ((fun k => k b) <$> keys).
Proof.
  induction keys as [|key keys IH]; intros l a; cbn [selected]; [done|]. intros (l'&Hl'&Hs).
  destruct (IH l' a Hs) as [Ha Hle]. apply Hl' in Ha as [Ha Hmin]. split; [done|]. intros b Hb. cbn.
  destruct (decide (key a = key b)) as [E|E]; [right|left; specialize (Hmin b Hb); lia].
  split; [done|]. apply Hle, Hl'. split; [done|]. intros c Hc. rewrite <- E. by apply Hmin.
Qed.

Lemma selected_singleton keys a : selected keys [a] a.
Proof.
  induction keys as [|key keys IH]; cbn; [left|]. exists [a]. split; [|done].
  intros b. rewrite list_elem_of_singleton. split; [intros ->|by intros []]. split; [done|].
  by intros c ->%list_elem_of_singleton.
Qed.
End Select.

(** ** The node that is picked *)
Section Pick.
Context `{PodPriority} (now : Z).

Definition topPods (pods : list Pod) : list Pod :=
  filter (fun p => Forall (fun q => GetPodPriority q <= GetPodPriority p) pods) pods.

Definition isEarliest (pods : list Pod) (t : Z) : Prop :=
  exists p, p ∈ pods /\ t = GetPodStartTime now p /\ forall q, q ∈ pods -> t <= GetPodStartTime now q.

Lemma isEarliest_unique pods t t' : isEarliest pods t -> isEarliest pods t' -> t = t'.
Proof. intros (p&Hp&->&Hle) (p'&Hp'&->&Hle'). specialize (Hle _ Hp'). specialize (Hle' _ Hp). lia. Qed.

(** The earliest start of the pods of the highest priority; the list is not empty. *)
Definition earliestTop (pods : list Pod) : Z :=
  match GetPodStartTime now <$> topPods pods with
  | [] => 0
  | t :: ts => foldl Z.min t ts
  end.

Lemma foldl_min_spec l : forall t, (foldl Z.min t l = t \/ foldl Z.min t l ∈ l) /\
  foldl Z.min t l <= t /\ forall x, x ∈ l -> foldl Z.min t l <= x.
Proof.
  induction l as [|y l IH]; intros t; cbn.
  - split_and!; [by left|lia|]. intros x Hx. by apply elem_of_nil in Hx.
  - destruct (IH (Z.min t y)) as (H1&H2&H3). split_and!; [|lia|].
    + destruct H1 as [->|]; [|right; by right]. destruct (Z.min_spec t y) as [[_ ->]|[_ ->]]; [by left|right; left].
    + intros x [->|Hx]%elem_of_cons; [lia|by apply H3].
Qed.

Lemma earliestTop_spec pods : topPods pods <> [] -> isEarliest (topPods pods) (earliestTop pods).
Proof.
  intros Hne. unfold earliestTop. destruct (topPods pods) as [|p l]; [done|]. cbn.
  destruct (foldl_min_spec (GetPodStartTime now <$> l) (GetPodStartTime now p)) as (H1&H2&H3).
  assert (Hall : forall q, q ∈ p :: l -> foldl Z.min (GetPodStartTime now p) (GetPodStartTime now <$> l) <= GetPodStartTime now q).
  { intros q [->|Hq]%elem_of_cons; [done|]. by apply H3, list_elem_of_fmap_2. }
  destruct H1 as [E|(q&E&Hq)%list_elem_of_fmap]; [exists p|exists q]; (split; [set_solver|by split]).
Qed.

(** The loop keeps the earliest start of the pods of the highest priority so far. *)
Lemma earliestLoop_spec pods : forall seen t m,
  isEarliest (filter (fun p => GetPodPriority p = m) seen) t -> (forall q, q ∈ seen -> GetPodPriority q <= m) ->
  exists m', isEarliest (filter (fun p => GetPodPriority p = m') (seen ++ pods)) (earliestLoop now pods t m) /\
    forall q, q ∈ seen ++ pods -> GetPodPriority q <= m'.
Proof.
  induction pods as [|p pods IH]; intros seen t m Ht Hm; cbn [earliestLoop].
  { rewrite app_nil_r. by exists m. }
  assert (Hsnoc : forall m', m <= m' -> GetPodPriority p <= m' -> forall q, q ∈ seen ++ [p] -> GetPodPriority q <= m').
  { intros m' ? ? q [Hq| ->%list_elem_of_singleton]%elem_of_app; [specialize (Hm q Hq)|]; lia. }
  rewrite (cons_middle p), app_assoc.
  destruct (Z.eqb_spec (GetPodPriority p) m) as [E|E]; [|destruct (Z.ltb_spec m (GetPodPriority p))].
  - apply IH; [|apply Hsnoc; lia]. rewrite filter_app, filter_cons_True, filter_nil by done.
    destruct Ht as (p0&Hp0&->&Hle). destruct (Z.ltb_spec (GetPodStartTime now p) (GetPodStartTime now p0)).
    + exists p. split_and!; [set_solver|done|]. intros q [Hq| ->%list_elem_of_singleton]%elem_of_app; [specialize (Hle q Hq)|]; lia.
    + exists p0. split_and!; [set_solver|done|]. intros q [Hq| ->%list_elem_of_singleton]%elem_of_app; [by apply Hle|lia].
  - apply IH; [|apply Hsnoc; lia]. rewrite filter_app, filter_cons_True, filter_nil by done.
    rewrite filter_drops_all by (intros q Hq; specialize (Hm q Hq); lia). cbn.
    exists p. split_and!; [left|done|]. intros q ->%list_elem_of_singleton. lia.
  - apply IH; [|apply Hsnoc; lia]. rewrite filter_app, filter_cons_False, filter_nil, app_nil_r by done. done.
Qed.

Lemma GetEarliestPodStartTime_spec v : victim_Pods v <> [] ->
  GetEarliestPodStartTime now v = Some (earliestTop (victim_Pods v)).
Proof.
  intros Hne. unfold GetEarliestPodStartTime. destruct (victim_Pods v) as [|p pods] eqn:E; [done|]. f_equal.
  cbn [earliestLoop]. rewrite Z.eqb_refl, Z.ltb_irrefl.
  destruct (earliestLoop_spec pods [p] (GetPodStartTime now p) (GetPodPriority p)) as (m&He&Hm).
  { exists p. rewrite filter_cons_True, filter_nil by done. split_and!; [left|done|]. intros q ->%list_elem_of_singleton. lia. }
  { intros q ->%list_elem_of_singleton. lia. }
  cbn [app] in *. assert (Htop : filter (fun q => GetPodPriority q = m) (p :: pods) = topPods (p :: pods)).
  { unfold topPods. apply filter_ext_elem. intros q Hq. rewrite list.Forall_forall. split; [by intros ->|].
    intros Hle. destruct He as (p0&[Hp0 Hin]%list_elem_of_filter&_). specialize (Hle p0 Hin). specialize (Hm q Hq). lia. }
  rewrite Htop in He. eapply isEarliest_unique; [exact He|]. apply earliestTop_spec.
  destruct He as (q&Hq&_). intros Hnil. rewrite Hnil in Hq. by apply elem_of_nil in Hq.
Qed.

(** *** The criteria in their order; the least comes first *)
Definition highestPriority (n : nodeVictims) : Z :=
  match victim_Pods n.2 with [] => 0 | p :: _ => GetPodPriority p end.
Definition priorityWeight (n : nodeVictims) : Z := sumOver (fun p => GetPodPriority p + 2 ^ 31) (victim_Pods n.2).
Definition numPods (n : nodeVictims) : Z := Z.of_nat (length (victim_Pods n.2)).

Definition criteria : list (nodeVictims -> Z) :=
  [fun n => NumPDBViolations n.2; highestPriority; priorityWeight; numPods; fun n => - earliestTop (victim_Pods n.2)].
Definition rank (n : nodeVictims) : list Z := (fun k => k n) <$> criteria.

(** Victims as a node and an extender give them. *)
Record pickable (n : nodeVictims) : Prop := {
  pk_some : victim_Pods n.2 <> [];
  pk_violations : NumPDBViolations n.2 <= MaxInt32;
  pk_priority p : p ∈ victim_Pods n.2 -> - 2 ^ 31 <= GetPodPriority p < 2 ^ 31;
  pk_pods : numPods n <= MaxInt32
}.

Lemma sumPriorities_weight n : pickable n -> sumPriorities n = priorityWeight n /\ priorityWeight n <= max_int64.
Proof.
  intros [_ _ Hprio Hlen]. unfold sumPriorities, priorityWeight, numPods, MaxInt32, max_int64 in *.
  enough (Hgen : forall l acc, (forall p, p ∈ l -> - 2 ^ 31 <= GetPodPriority p < 2 ^ 31) ->
    0 <= acc -> acc + Z.of_nat (length l) * 2 ^ 32 <= 2 ^ 63 - 1 ->
    foldl (fun sum pod => wrap64 (sum + (GetPodPriority pod + (2 ^ 31 - 1 + 1)))) acc l =
      acc + sumOver (fun p => GetPodPriority p + 2 ^ 31) l /\
    acc + sumOver (fun p => GetPodPriority p + 2 ^ 31) l <= 2 ^ 63 - 1).
  { destruct (Hgen (victim_Pods n.2) 0 Hprio ltac:(lia) ltac:(lia)) as [-> ?]. by rewrite Z.add_0_l in *. }
  clear. induction l as [|p l IH]; intros acc Hp Hacc Hmax; [cbn; lia|]. cbn [foldl length] in *. rewrite sumOver_cons.
  specialize (Hp p ltac:(left)) as Hpp. rewrite wrap64_id by (unfold in_int64, min_int64, max_int64; lia).
  destruct (IH (acc + (GetPodPriority p + (2 ^ 31 - 1 + 1)))) as [-> ?]; [|lia|lia|lia].
  intros q Hq. apply Hp. by right.
Qed.

(** One criterion: the node is decided when it is the only one left, else [rest] goes on. *)
Lemma criterion_step start key keys (l : list nodeVictims) (rest : list nodeVictims -> option string) :
  l <> [] -> (forall b, b ∈ l -> key b <= start) ->
  (forall l', l' <> [] -> (forall n, n ∈ l' -> n ∈ l) -> exists n, rest l' = Some n.1 /\ selected keys l' n) ->
  exists n, onlyOne (minima start key l) (rest (minima start key l)) = Some n.1 /\ selected (key :: keys) l n.
Proof.
  intros Hl Hstart Hrest. pose proof (minima_nonempty start key l Hstart Hl) as Hne.
  assert (Hmin : forall b, b ∈ minima start key l <-> b ∈ l /\ forall c, c ∈ l -> key b <= key c) by (intros; by apply minima_iff).
  destruct (Hrest (minima start key l) Hne) as (n&Hn&Hs); [intros n Hn; by apply Hmin|].
  destruct (minima start key l) as [|a [|a' l']] eqn:E; [done| |].
  - exists a. split; [done|]. exists [a]. split; [done|]. apply selected_singleton.
  - exists n. split; [done|]. exists (a :: a' :: l'). by split.
Qed.

Lemma latestLoop_spec l : forall t a seen,
  (forall n, n ∈ l -> victim_Pods n.2 <> []) -> t = earliestTop (victim_Pods a.2) -> a ∈ seen ->
  (forall b, b ∈ seen -> earliestTop (victim_Pods b.2) <= t) ->
  exists n, latestLoop now l t a.1 = n.1 /\ n ∈ seen ++ l /\
    forall b, b ∈ seen ++ l -> earliestTop (victim_Pods b.2) <= earliestTop (victim_Pods n.2).
Proof.
  induction l as [|b l IH]; intros t a seen Hne Ht Ha Hle; cbn [latestLoop].
  { exists a. rewrite app_nil_r. by rewrite <- Ht. }
  rewrite GetEarliestPodStartTime_spec by (apply Hne; left). rewrite (cons_middle b), app_assoc.
  destruct (Z.ltb_spec t (earliestTop (victim_Pods b.2))); apply IH; try done; try (intros c Hc; apply Hne; by right).
  - set_solver.
  - intros c [Hc| ->%list_elem_of_singleton]%elem_of_app; [specialize (Hle c Hc)|]; lia.
  - set_solver.
  - intros c [Hc| ->%list_elem_of_singleton]%elem_of_app; [specialize (Hle c Hc)|]; lia.
Qed.

Lemma latestOf_selected l : l <> [] -> (forall n, n ∈ l -> victim_Pods n.2 <> []) ->
  exists n, latestOf now l = Some n.1 /\ selected [fun n => - earliestTop (victim_Pods n.2)] l n.
Proof.
  intros Hl Hne. destruct l as [|a l]; [done|]. cbn [latestOf].
  rewrite GetEarliestPodStartTime_spec by (apply Hne; left).
  destruct (latestLoop_spec l _ a [a] ltac:(intros n Hn; apply Hne; by right) eq_refl ltac:(left)) as (n&->&Hn&Hle).
  { by intros b ->%list_elem_of_singleton. }
  exists n. split; [done|]. cbn [app] in *.
  exists (filter (fun b => Forall (fun c => - earliestTop (victim_Pods b.2) <= - earliestTop (victim_Pods c.2)) (a :: l)) (a :: l)).
  split; [intros b; rewrite list_elem_of_filter, list.Forall_forall; tauto|].
  cbn [selected]. apply list_elem_of_filter. split; [|done]. apply list.Forall_forall. intros b Hb. specialize (Hle b Hb). lia.
Qed.

Lemma mapM_highest l : (forall n, n ∈ l -> victim_Pods n.2 <> []) ->
  mapM (fun n : nodeVictims => p ← list.head (victim_Pods n.2); Some (GetPodPriority p, n)) l =
    Some ((fun n => (highestPriority n, n)) <$> l).
Proof.
  induction l as [|n l IH]; intros Hne; [done|]. cbn [mapM fmap list_fmap].
  rewrite IH by (intros m Hm; apply Hne; by right). unfold highestPriority at 2.
  specialize (Hne n ltac:(left)). by destruct (victim_Pods n.2).
Qed.
End Pick.

(** C40: When every node has a victim, with violations and victims that fit in 32 bits and
    priorities of 32 bits, [pickOneNodeForPreemption] picks, in whatever order Go iterates over the map, a node of the map
    that is lexicographically least by: the number of budget violations, then the
    priority of the first victim (its comment says of the highest one, which the first need not have), the sum of the priorities (each made positive), the number
    of victims, and the latest start of the earliest victim of the highest priority. *)
Theorem picked_node_is_least `{PodPriority} (now : Z) (nodesToVictims : gmap string Victims) (order : list (string * Victims)) :
  order ≡ₚ map_to_list nodesToVictims -> nodesToVictims <> ∅ ->
  (forall name victims, nodesToVictims !! name = Some victims -> pickable (name, victims)) ->
  exists name victims, pickOneNodeForPreemption now order = Some name /\ nodesToVictims !! name = Some victims /\
    forall name' victims', nodesToVictims !! name' = Some victims' ->
      lexLe (rank now (name, victims)) (rank now (name', victims')).
Proof.
  intros Horder Hne Hpick.
  assert (Hin : forall n, n ∈ order <-> nodesToVictims !! n.1 = Some n.2).
  { intros [name victims]. by rewrite Horder, elem_of_map_to_list. }
  assert (Hok : forall n, n ∈ order -> pickable n) by (intros [name v] Hn; by apply Hpick, (Hin (name, v))).
  enough (exists n, pickOneNodeForPreemption now order = Some n.1 /\ selected (criteria now) order n) as (n&Hn&Hs).
  { apply selected_lexLe in Hs as [Hn' Hle]. exists n.1, n.2. split_and!; [done|by apply Hin|].
    intros name' v' Hv'. rewrite <- surjective_pairing. apply Hle. by apply Hin. }
  assert (Ho : order <> []).
  { intros ->. apply Hne. symmetry in Horder. apply Permutation_nil_r, map_to_list_empty_iff in Horder. done. }
  clear Horder Hin Hne Hpick. unfold pickOneNodeForPreemption. destruct order as [|a l]; [done|]. set (order := a :: l) in *.
  set (byPods := fun l => onlyOne (minima MaxInt32 numPods l) (latestOf now (minima MaxInt32 numPods l))).
  set (bySum := fun l => onlyOne (minima max_int64 sumPriorities l) (byPods (minima max_int64 sumPriorities l))).
  set (byPriority := fun l => highest ← mapM (fun n : nodeVictims => p ← list.head (victim_Pods n.2); Some (GetPodPriority p, n)) l;
    onlyOne (snd <$> minima MaxInt32 fst highest) (bySum (snd <$> minima MaxInt32 fst highest))).
  apply (criterion_step MaxInt32 (fun n => NumPDBViolations n.2) _ order byPriority); [done| |].
  { intros n Hn. by apply pk_violations, Hok. }
  intros l1 Hl1 Hsub1. unfold byPriority. rewrite mapM_highest by (intros n Hn; by apply pk_some, Hok, Hsub1). bind_simpl.
  pose proof (minimaLoop_fmap (fun n => (highestPriority n, n)) fst l1 MaxInt32 []) as Hmap. cbn [fmap list_fmap fst] in Hmap.
  unfold minima at 1 2. rewrite Hmap, <- list_fmap_compose, list_fmap_id.
  apply (criterion_step MaxInt32 highestPriority _ l1 bySum); [done| |].
  { intros n Hn. pose proof (Hok n (Hsub1 n Hn)) as Hp. pose proof (pk_some _ Hp) as Hsome. unfold highestPriority, MaxInt32.
    destruct (victim_Pods n.2) as [|p ps] eqn:E; [done|]. pose proof (pk_priority _ Hp p). rewrite E in *.
    specialize (H0 ltac:(left)). lia. }
  intros l2 Hl2 Hsub2. assert (Hok2 : forall n, n ∈ l2 -> pickable n) by (intros n Hn; by apply Hok, Hsub1, Hsub2).
  assert (Hsum : minima max_int64 sumPriorities l2 = minima max_int64 priorityWeight l2).
  { apply minima_ext. intros n Hn. by apply sumPriorities_weight, Hok2. }
  unfold bySum. rewrite Hsum. apply (criterion_step max_int64 priorityWeight _ l2 byPods); [done| |].
  { intros n Hn. by apply sumPriorities_weight, Hok2. }
  intros l3 Hl3 Hsub3. apply (criterion_step MaxInt32 numPods _ l3 (latestOf now)); [done| |].
  { intros n Hn. by apply pk_pods, Hok2, Hsub3. }
  intros l4 Hl4 Hsub4. apply latestOf_selected; [done|]. intros n Hn. by apply pk_some, Hok2, Hsub3, Hsub4.
Qed.

(** ** Concrete instances *)
#[local] Existing Instance exampleLabels.
#[local] Instance classPriority' : PodPriority := fun p =>
  match pod_Labels p !! "class" with Some "low" => 1 | Some "lowest" => 0 | _ => 10 end.
Definition victimPod (uid class : string) : Pod := podWith uid "n1" {[ "class" := class ]} None None ∅ [].

(** A budget of one disruption for three pods, one of which is disrupted already. *)
Definition lowBudget : PodDisruptionBudget :=
  {| pdb_Namespace := "ns"; pdb_Selector := Some {| MatchLabels := {[ "class" := "low" ]}; MatchExpressions := [] |};
     DisruptionsAllowed := 1; DisruptedPods := {[ "b" ]} |}.
Definition budgetPods : list Pod := [victimPod "a" "low"; victimPod "b" "low"; victimPod "x" "high"; victimPod "c" "low"].

Example third_pod_violates : filterPodsWithPDBViolation budgetPods [lowBudget] =
  ([victimPod "c" "low"], [victimPod "a" "low"; victimPod "b" "low"; victimPod "x" "high"]).
Proof. vm_compute. reflexivity. Qed.

Lemma budgets_are_charged_in_order_witness :
  exists b, b ∈ [lowBudget] /\ charges b (victimPod "c" "low") /\
    DisruptionsAllowed b < charged b (take 3 budgetPods ++ [victimPod "c" "low"]).
Proof.
  assert (Hroom : roomFor (Z.of_nat (length budgetPods)) [lowBudget]).
  { constructor; [|constructor]. cbn. lia. }
  assert (Hnd : NoDup budgetPods) by (apply (bool_decide_unpack _); vm_compute; exact I).
  pose proof (budgets_are_charged_in_order budgetPods [lowBudget] Hnd Hroom) as Hspec.
  assert (Hsplit : filterPodsWithPDBViolation budgetPods [lowBudget] =
    ([victimPod "c" "low"], [victimPod "a" "low"; victimPod "b" "low"; victimPod "x" "high"])) by (vm_compute; reflexivity).
  rewrite Hsplit in Hspec. destruct Hspec as (_&_&_&Hin).
  apply (Hin (take 3 budgetPods) (victimPod "c" "low") []); [reflexivity|]. left.
Defined.

(** Two nodes with a victim of the same priority: the one with fewer victims is picked. *)
Definition victimsByNode : gmap string Victims :=
  {[ "n1" := {| victim_Pods := [victimPod "a" "low"; victimPod "b" "lowest"]; NumPDBViolations := 0 |};
     "n2" := {| victim_Pods := [victimPod "c" "low"]; NumPDBViolations := 0 |};
     "n3" := {| victim_Pods := [victimPod "d" "lowest"]; NumPDBViolations := 1 |} ]}.

Lemma picked_node_is_least_witness :
  pickOneNodeForPreemption 0 (map_to_list victimsByNode) = Some "n2" /\
  exists victims, victimsByNode !! "n2" = Some victims /\
    forall name' victims', victimsByNode !! name' = Some victims' -> lexLe (rank 0 ("n2", victims)) (rank 0 (name', victims')).
Proof.
  assert (Hpick : pickOneNodeForPreemption 0 (map_to_list victimsByNode) = Some "n2") by (vm_compute; reflexivity).
  split; [exact Hpick|].
  destruct (picked_node_is_least 0 victimsByNode (map_to_list victimsByNode)) as (name&victims&Hname&Hv&Hle).
  - reflexivity.
  - intros He. apply (f_equal (lookup "n2")) in He. vm_compute in He. discriminate.
  - intros name victims Hv. apply elem_of_map_to_list in Hv.
    assert (Hlist : map_to_list victimsByNode ≡ₚ [("n1", {| victim_Pods := [victimPod "a" "low"; victimPod "b" "lowest"]; NumPDBViolations := 0 |});
      ("n2", {| victim_Pods := [victimPod "c" "low"]; NumPDBViolations := 0 |});
      ("n3", {| victim_Pods := [victimPod "d" "lowest"]; NumPDBViolations := 1 |})]).
    { unfold victimsByNode. rewrite !map_to_list_insert by done. rewrite map_to_list_singleton. done. }
    rewrite Hlist in Hv. clear Hlist Hpick. revert Hv. generalize (name, victims). apply list.Forall_forall.
    repeat (apply list.Forall_cons; split; [split; [discriminate|vm_compute; discriminate| |vm_compute; discriminate];
      apply list.Forall_forall, (bool_decide_unpack _); vm_compute; exact I|]).
    apply list.Forall_nil_2.
  - rewrite Hpick in Hname. injection Hname as <-. exists victims. split; [exact Hv|exact Hle].
Defined.

(** The dry run may return a node without victims, when all of them are reprieved; a node
    that only an extender refuses is one.  Then the choice between two nodes panics. *)
Example node_without_victims_panics :
  pickOneNodeForPreemption 0 [("n1", {| victim_Pods := []; NumPDBViolations := 0 |}); ("n2", {| victim_Pods := []; NumPDBViolations := 0 |})] = None.
Proof. reflexivity. Qed.
