(* ===== verification/PreemptionSafety.v ===== *)
(** * Whom a preemption evicts

    Every run of [preempt], whatever the plugins of the framework, the API server, the
    waiting pods and the nominator answer: the pods that it deletes, and the node that it
    answers. *)
From S2P Require Import Prelude Api GoHeap NodeInfo Framework Goroutine Nominator PriorityQueue Cache Snapshot.
From S2P Require Import GenericScheduler WaitingPods Scheduler PodChanges Preemption PreemptionSpec.
Local Open Scope Z_scope.

(** ** What a method of the dry run ensures when it returns *)
Definition ensures {S E A} (m : stateM S E A) (s : S) (Φ : A -> S -> Prop) : Prop :=
  forall a s', m s = (Ok a, s') -> Φ a s'.

Lemma ensures_ret {S E A} (a : A) (s : S) (Φ : A -> S -> Prop) : Φ a s -> ensures (E := E) (mret a) s Φ.
Proof. by intros HΦ b s' [= <- <-]. Qed.
Lemma ensures_get {S E} (s : S) (Φ : S -> S -> Prop) : Φ s s -> ensures (E := E) get s Φ.
Proof. by intros HΦ b s' [= <- <-]. Qed.
Lemma ensures_bind {S E A B} (m : stateM S E A) (k : A -> stateM S E B) (s : S) Φ :
  ensures m s (fun a s' => ensures (k a) s' Φ) -> ensures (m ≫= k) s Φ.
Proof.
  intros Hm b s'' Hk. unfold mbind, stateM_bind in Hk. destruct (m s) as [[a|e|] s'] eqn:E1; try done.
  exact (Hm a s' E1 b s'' Hk).
Qed.
Lemma ensures_mono {S E A} (m : stateM S E A) (s : S) (Φ Ψ : A -> S -> Prop) :
  ensures m s Φ -> (forall a s', Φ a s' -> Ψ a s') -> ensures m s Ψ.
Proof. intros Hm HΦ a s' Ha. by apply HΦ, Hm. Qed.
Lemma ensures_any {S E A} (m : stateM S E A) (s : S) (Φ : A -> S -> Prop) : (forall a s', Φ a s') -> ensures m s Φ.
Proof. intros HΦ a s' _. apply HΦ. Qed.

Section Victims.
Context `{LabelsLib, StateData, PodPriority, SortSlice, !SortLaws}.
Context (statusOrder : gmap string Status -> list Status) (now : Z) (f : frameworkImpl) (npm : nominatedPodMap) (pod : Pod).

Lemma swapRemove_subseteq {A} (l : list A) j : swapRemove l j ⊆ l.
Proof.
  unfold swapRemove. destruct (l !! (length l - 1)%nat) as [x|] eqn:E; [|done].
  intros y Hy. apply subseteq_take in Hy.
  apply list_elem_of_lookup in Hy as [i Hi]. apply list_lookup_insert_Some in Hi as [(_&->&_)|[_ Hi]];
    by eapply list_elem_of_lookup_2.
Qed.

Lemma removePod_shrinks rp (d : dryRun) :
  ensures (removePod f pod rp) d (fun _ d' => Pods (dr_nodeInfo d') ⊆ Pods (dr_nodeInfo d)).
Proof.
  intros u d' Hrem. unfold removePod in Hrem.
  destruct (NodeInfo.RemovePod _ _ rp) as [[[]|e|] [g n]] eqn:Hr; [|done..].
  destruct (RemovePod_index _ _ _ _ _ Hr) as (j&_&Hswap).
  unfold extend in Hrem. destruct (RunPreFilterExtensionRemovePod _ _ _ _ _) as [status st].
  destruct (AsError status); [done|]. injection Hrem as _ <-. cbn. rewrite Hswap. apply swapRemove_subseteq.
Qed.

(** The potential victims are pods of the node of lower priority. *)
Lemma removeLoop_lower (L : list PodInfo) n : forall i backing potential (d : dryRun),
  backing ⊆ L -> Pods (dr_nodeInfo d) ⊆ L ->
  (forall p, p ∈ potential -> p ∈ pi_Pod <$> L /\ lower pod p) ->
  ensures (removeLoop f pod n i backing potential) d (fun r _ => forall p, p ∈ r -> p ∈ pi_Pod <$> L /\ lower pod p).
Proof.
  induction n as [|n IH]; intros i backing potential d Hb Hd Hp; cbn [removeLoop]; [by apply ensures_ret|].
  destruct (backing !! i) as [x|] eqn:Hx; [|by apply ensures_ret].
  destruct (Z.ltb_spec (GetPodPriority (pi_Pod x)) (GetPodPriority pod)); [|by apply IH].
  apply ensures_bind. eapply ensures_mono; [apply removePod_shrinks|]. intros [] d' Hd'.
  apply ensures_bind, ensures_get, IH.
  - intros y Hy. apply elem_of_app in Hy as [Hy|Hy]; [by apply Hd, Hd'|]. apply Hb. by eapply subseteq_drop.
  - by etrans.
  - intros p [Hin| ->%list_elem_of_singleton]%elem_of_app; [by apply Hp|]. split; [|done].
    apply list_elem_of_fmap_2, Hb. by eapply list_elem_of_lookup_2.
Qed.

Lemma reprievePod_victims p victims (d : dryRun) :
  ensures (reprievePod statusOrder f npm pod p victims) d (fun r _ => forall q, q ∈ r.2 -> q ∈ victims \/ q = p).
Proof.
  unfold reprievePod. apply ensures_bind, ensures_any. intros _ d1. apply ensures_bind, ensures_any. intros [err|[]] d2.
  2: apply ensures_ret; cbn; tauto.
  all: apply ensures_bind, ensures_any; intros _ d3; apply ensures_bind, ensures_any; intros _ d4; apply ensures_ret.
  all: intros q; cbn [snd]; rewrite elem_of_app, list_elem_of_singleton; tauto.
Qed.

Lemma reprieveLoop_victims pods : forall victims num (d : dryRun),
  ensures (reprieveLoop statusOrder f npm pod pods victims num) d (fun r _ => forall q, q ∈ r.1 -> q ∈ victims \/ q ∈ pods).
Proof.
  induction pods as [|p pods IH]; intros victims num d; cbn [reprieveLoop]; [apply ensures_ret; cbn; tauto|].
  apply ensures_bind. eapply ensures_mono; [apply reprievePod_victims|]. intros [fits victims'] d' Hv. cbn in Hv.
  eapply ensures_mono; [apply IH|]. intros r d'' Hr q Hq. rewrite elem_of_cons.
  destruct (Hr q Hq) as [Hq'|]; [|tauto]. destruct (Hv q Hq'); tauto.
Qed.

(** Victims are pods of the node of lower priority, and there is one that could be taken. *)
Lemma selectVictims_lower pdbs (d : dryRun) : ensures (selectVictims statusOrder now f npm pod pdbs) d (fun r _ =>
  forall v, r = Some v -> (forall p, p ∈ victim_Pods v -> p ∈ podsOf (dr_nodeInfo d) /\ lower pod p) /\
    exists p, p ∈ podsOf (dr_nodeInfo d) /\ lower pod p).
Proof.
  unfold selectVictims. apply ensures_bind, ensures_get, ensures_bind.
  eapply ensures_mono; [apply (removeLoop_lower (Pods (dr_nodeInfo d))); [done|done|by intros p ?%elem_of_nil]|].
  intros potential d1 Hpot. destruct potential as [|p0 ps]; [by apply ensures_ret|].
  apply ensures_bind, ensures_any. intros [err|[]] d2.
  { apply ensures_bind, ensures_any. intros _ d3. by apply ensures_ret. }
  2: by apply ensures_ret.
  destruct (splitByBudgets_spec (sortSlice (MoreImportantPod now) (p0 :: ps)) pdbs (DisruptionsAllowed <$> pdbs)) as (Hsplit&_&_).
  fold (filterPodsWithPDBViolation (sortSlice (MoreImportantPod now) (p0 :: ps)) pdbs) in Hsplit.
  destruct (filterPodsWithPDBViolation _ _) as [v nv]. cbn [fst snd] in Hsplit. rewrite sort_perm in Hsplit.
  apply ensures_bind. eapply ensures_mono; [apply reprieveLoop_victims|]. intros [vs1 n1] d3 H1'.
  apply ensures_bind. eapply ensures_mono; [apply reprieveLoop_victims|]. intros [vs2 n2] d4 H2'.
  apply ensures_ret. intros w [= <-]. cbn [victim_Pods]. split; [|exists p0; apply Hpot; left].
  intros p Hp. apply Hpot. rewrite <- Hsplit. apply elem_of_app. cbn in H1', H2'.
  destruct (H2' p Hp) as [Hp'|]; [|by right]. destruct (H1' p Hp') as [[]%elem_of_nil|]. by left.
Qed.

Lemma selectVictimsOnNode_lower g s n pdbs v :
  selectVictimsOnNode statusOrder now f npm pod g s n pdbs = Some (Some v) ->
  (forall p, p ∈ victim_Pods v -> p ∈ podsOf n /\ lower pod p) /\ exists p, p ∈ podsOf n /\ lower pod p.
Proof.
  unfold selectVictimsOnNode. intros Hsel. set (d := {| dr_generation := g; dr_nodeInfo := n; dr_state := s |}) in *.
  pose proof (selectVictims_lower pdbs d) as Hs. unfold ensures in Hs.
  destruct (selectVictims statusOrder now f npm pod pdbs d) as [[r|e|] d']; cbn in Hsel; [|done..].
  injection Hsel as ->. by apply (Hs (Some v) d').
Qed.
End Victims.

(** ** The log of a preemption *)
Inductive evictionEvent := Updated (p : Pod) | Deleted (p : Pod) (err : option string).

(** Noted are the version of the pod that preempts and the deletions. *)
Definition evictions (X : Type) (c : preemptCall X) : X -> list evictionEvent :=
  match c in preemptCall X return X -> list evictionEvent with
  | GetUpdatedPod _ => fun r => match r with inr p => [Updated p] | inl _ => [] end
  | DeletePod p => fun err => [Deleted p err]
  | PatchPodStatus _ _ => fun _ => []
  | GetWaitingPod _ => fun _ => []
  | RejectPod _ _ => fun _ => []
  | NominatedPods _ => fun _ => []
  end.

Abbreviation evicts t a l := (logs evictions t a l).

Lemma evicts_call {X B} (c : preemptCall X) (k : X -> Preempt B) b l : evicts (invoke c ≫= k) b l ->
  exists x rest, l = evictions _ c x ++ rest /\ evicts (k x) b rest.
Proof. done. Qed.
Lemma evicts_bind {A B} (t : Preempt A) (k : A -> Preempt B) b l : forkFree t -> evicts (t ≫= k) b l ->
  exists a l1 l2, l = l1 ++ l2 /\ evicts t a l1 /\ evicts (k a) b l2.
Proof. apply logs_bind. Qed.

Lemma ClearNominatedNodeName_forkFree pods : forkFree (ClearNominatedNodeName pods).
Proof.
  induction pods as [|q pods IH]; cbn [ClearNominatedNodeName]; [done|]. case_decide; [done|].
  intros e. by apply forkFree_bind.
Qed.

Lemma ClearNominatedNodeName_logs pods errs l : evicts (ClearNominatedNodeName pods) errs l -> l = [].
Proof.
  revert errs l. induction pods as [|p pods IH]; intros errs l; cbn [ClearNominatedNodeName]; [by intros [_ ->]|].
  case_decide; [apply IH|]. intros Hl. apply evicts_call in Hl as (err&rest&->&Hl).
  apply evicts_bind in Hl as (es&l1&l2&->&Hl1&[_ ->]); [|apply ClearNominatedNodeName_forkFree].
  by rewrite (IH _ _ Hl1).
Qed.

Lemma orCrash_logs {A} (x : option A) a l : evicts (orCrash x) a l -> x = Some a /\ l = [].
Proof. by destruct x; [intros [-> ->]|]. Qed.
Lemma orCrash_forkFree {A} (x : option A) : forkFree (orCrash x).
Proof. by destruct x. Qed.
#[local] Hint Resolve ClearNominatedNodeName_forkFree orCrash_forkFree : forkfree.

(** The loop that deletes the victims stops at the first error. *)
Definition deletes (victims : list Pod) (err : option string) (l : list evictionEvent) : Prop :=
  match err with
  | None => l = (fun p => Deleted p None) <$> victims
  | Some e => exists pre p post, victims = pre ++ p :: post /\ l = ((fun p => Deleted p None) <$> pre) ++ [Deleted p (Some e)]
  end.

Lemma evictLoop_logs victims err l : evicts (evictLoop victims) err l -> deletes victims err l.
Proof.
  revert l. induction victims as [|p ps IH]; intros l; cbn [evictLoop]; [by intros [-> ->]|].
  intros ([e|]&rest&->&Hl); cbn [evictions app].
  - destruct Hl as [-> ->]. by exists [], p, ps.
  - destruct Hl as (w&rest'&->&Hl). cbn [evictions app].
    assert (Hrest : exists rest'', rest' = rest'' /\ evicts (evictLoop ps) err rest'').
    { destruct w as [w|]; [destruct Hl as (u&rest''&->&Hl)|]; eauto. }
    destruct Hrest as (rest''&->&Hrest). specialize (IH _ Hrest). destruct err as [e|]; cbn in *; [|by rewrite IH].
    destruct IH as (pre&q&post&->&->). by exists (p :: pre), q, post.
Qed.

Lemma evictLoop_forkFree victims : forkFree (evictLoop victims).
Proof. induction victims as [|p ps IH]; cbn [evictLoop]; [done|]. intros [e|]; [done|]. intros [w|]; [|exact IH]. by intros []. Qed.
#[local] Hint Resolve evictLoop_forkFree : forkfree.

Section Log.
Context `{LabelsLib, StateData, PodPriority, SortSlice, !SortLaws}.
Context (statusOrder : gmap string Status -> list Status) (now : Z)
  (order : list NodeInfo -> list NodeInfo) (victimsOrder : gmap string Victims -> list (string * Victims))
  (noNodesAvailable : string).
Hypothesis order_perm : forall l, order l ≡ₚ l.
Hypothesis victimsOrder_perm : forall m, victimsOrder m ≡ₚ map_to_list m.

(** An extender that supports preemption answers some of the nodes that it gets, with some of
    their victims. *)
Definition trims (e : PreemptionExtender) : Prop := forall pod victimsMap victimsMap',
  ProcessPreemption e pod victimsMap = inr victimsMap' ->
  forall name v', victimsMap' !! name = Some v' ->
    exists v, victimsMap !! name = Some v /\ victim_Pods v' ⊆ victim_Pods v.

Context (pl : DefaultPreemption) (generation : Z) (state : CycleState) (m : gmap string Status).

(** The candidate is a node of the snapshot on which preemption may help, with the victims that
    the dry run selects there, or with some of them. *)
Definition dryRunWith (R : list Pod -> list Pod -> Prop) (pod : Pod) (c : candidate) : Prop := exists n nd pdbs v,
  n ∈ allNodes pl /\ NodeOf n = Some nd /\ c_Name c = node_Name nd /\
  StatusCode (default None (m !! node_Name nd)) <> UnschedulableAndUnresolvable /\
  getPodDisruptionBudgets (pdbLister pl) = inr pdbs /\
  selectVictimsOnNode statusOrder now (fh pl) (nominator pl) pod generation (CloneState state) (Clone n) pdbs = Some (Some v) /\
  R (victim_Pods (c_Victims c)) (victim_Pods v).
Definition fromDryRun : Pod -> candidate -> Prop := dryRunWith (⊆).

Lemma dryRunWith_all pod c : dryRunWith (=) pod c -> fromDryRun pod c.
Proof. intros (n&nd&pdbs&v&?&?&?&?&?&?&E). exists n, nd, pdbs, v. by rewrite E. Qed.

(** The candidates of the dry run on the nodes where preemption may help. *)
Definition dryRunCandidates (pod : Pod) (cs : list candidate) : Prop := exists nodes pdbs,
  nodesWherePreemptionMightHelp (allNodes pl) m = Some nodes /\ getPodDisruptionBudgets (pdbLister pl) = inr pdbs /\
  dryRunPreemption statusOrder now (fh pl) (nominator pl) pod order generation state nodes pdbs = Some cs.

Lemma nodesWherePreemptionMightHelp_spec nodes l : nodesWherePreemptionMightHelp nodes m = Some l ->
  forall n, n ∈ l -> n ∈ nodes /\ exists nd, NodeOf n = Some nd /\
    StatusCode (default None (m !! node_Name nd)) <> UnschedulableAndUnresolvable.
Proof.
  revert l. induction nodes as [|n0 nodes IH]; intros l; cbn [nodesWherePreemptionMightHelp].
  { intros [= <-] n ?%elem_of_nil. done. }
  destruct (NodeOf n0) as [nd|] eqn:Hn; [|done]. bind_simpl.
  destruct (nodesWherePreemptionMightHelp nodes m) as [rest|] eqn:Hr; [|done]. bind_simpl. intros [= <-] n Hin.
  case_bool_decide as Hc; [|apply elem_of_cons in Hin as [->|Hin]].
  2: { split; [left|]. by exists nd. }
  all: destruct (IH rest eq_refl n Hin) as [? ?]; split; [by right|done].
Qed.

Lemma dryRun_candidates pod cs : dryRunCandidates pod cs -> Forall (dryRunWith (=) pod) cs.
Proof.
  intros (nodes&pdbs&Hnodes&Hpdbs&Hrun). revert Hrun. unfold dryRunPreemption. destruct (mapM _ _) as [rs|] eqn:Hm; [|done]. bind_simpl. intros [= <-].
  apply mapM_Some in Hm. apply list.Forall_forall. intros c Hc. apply list_elem_of_omap in Hc as (r&Hr&Hrc).
  apply list_elem_of_lookup in Hr as [i Hi]. destruct (Forall2_lookup_r _ _ _ _ _ Hm Hi) as (n&Hn&Hcheck).
  apply list_elem_of_lookup_2 in Hn. rewrite order_perm in Hn.
  destruct (nodesWherePreemptionMightHelp_spec _ _ Hnodes n Hn) as (Hin&nd&Hnd&Hst).
  cbn in Hrc. subst r. unfold checkVictims in Hcheck. destruct (selectVictimsOnNode _ _ _ _ _ _ _ _ _) as [[v|]|] eqn:Hsel; [|done..].
  revert Hcheck. bind_simpl. unfold NodeOf, Clone. cbn [node]. unfold NodeOf in Hnd. rewrite Hnd. bind_simpl.
  intros [= <-]. by exists n, nd, pdbs, v.
Qed.

Lemma candidatesToVictimsMap_spec cs : forall (acc : gmap string Victims) name v,
  foldl (fun m c => <[c_Name c := c_Victims c]> m) acc cs !! name = Some v ->
  acc !! name = Some v \/ exists c, c ∈ cs /\ c_Name c = name /\ c_Victims c = v.
Proof.
  induction cs as [|c cs IH]; intros acc name v; cbn; [by left|]. intros Hl.
  destruct (IH _ _ _ Hl) as [Ha|(c'&?&?&?)]; [|right; exists c'; split; [by right|done]].
  apply lookup_insert_Some in Ha as [[<- <-]|[_ ?]]; [|by left]. right. exists c. split; [left|done].
Qed.

(** A map of victims all of which come from the dry run. *)
Definition mapFromDryRun (pod : Pod) (vm : gmap string Victims) : Prop :=
  map_Forall (fun name v => fromDryRun pod {| c_Victims := v; c_Name := name |}) vm.

Lemma callExtendersLoop_candidates es pod : Forall trims es -> forall vm vm',
  mapFromDryRun pod vm -> callExtendersLoop es pod vm = inr vm' -> mapFromDryRun pod vm'.
Proof.
  induction 1 as [|e es He _ IH]; intros vm vm' Hvm; cbn [callExtendersLoop]; [by intros [= <-]|].
  destruct (_ || _); [by apply IH|]. destruct (ProcessPreemption e pod vm) as [err|vm1] eqn:Hp.
  { destruct (IsIgnorable _); [by apply IH|done]. }
  assert (Hvm1 : mapFromDryRun pod vm1).
  { intros name v' Hv'. destruct (He _ _ _ Hp name v' Hv') as (v&Hv&Hsub).
    destruct (Hvm name v Hv) as (n&nd&pdbs&w&?&?&?&?&?&?&Hw). exists n, nd, pdbs, w. split_and!; try done. by etrans. }
  case_decide; [by intros [= <-]|by apply IH].
Qed.

Lemma CallExtenders_candidates pod cs cs' : Forall trims (Extenders pl) -> Forall (fromDryRun pod) cs ->
  CallExtenders victimsOrder (Extenders pl) pod cs = inr cs' -> Forall (fromDryRun pod) cs'.
Proof.
  intros Htrim Hcs. unfold CallExtenders. destruct (Extenders pl) as [|e es]; [by intros [= <-]|].
  case_decide; [by intros [= <-]|]. destruct (callExtendersLoop _ _ _) as [err|vm] eqn:Hl; [done|]. intros [= <-].
  assert (Hvm : mapFromDryRun pod vm).
  { eapply callExtendersLoop_candidates; [exact Htrim| |exact Hl]. intros name v Hv.
    destruct (candidatesToVictimsMap_spec _ _ _ _ Hv) as [Ha|(c&Hc&<-&<-)]; [by apply lookup_empty_Some in Ha|].
    destruct c. by eapply list.Forall_forall in Hcs. }
  apply list.Forall_forall. intros c Hc. apply list_elem_of_fmap in Hc as ([name v]&->&Hin).
  rewrite victimsOrder_perm in Hin. apply elem_of_map_to_list in Hin. by apply Hvm.
Qed.

Lemma default_find_elem {A} (P : A -> Prop) `{forall a, Decision (P a)} (a : A) l :
  a ∈ l -> default a (snd <$> list_find P l) ∈ l.
Proof.
  intros Ha. destruct (list_find P l) as [[i b]|] eqn:Hf; [|done].
  apply list_find_Some in Hf as (Hi&_). by eapply list_elem_of_lookup_2.
Qed.

Lemma SelectCandidate_elem cs c : SelectCandidate now victimsOrder cs = Some (Some c) -> c ∈ cs.
Proof.
  unfold SelectCandidate. destruct cs as [|c1 [|c2 cs]]; [done|intros [= <-]; left|].
  destruct (pickOneNodeForPreemption _ _) as [name|]; [|done]. bind_simpl. intros Hc.
  assert (Heq : c = default c1 (snd <$> list_find (fun c => name = c_Name c) (c1 :: c2 :: cs))) by congruence.
  rewrite Heq. apply default_find_elem. left.
Qed.

(** What a run of [preempt] that got the version [pod] may do: it evicts nobody, or all the
    victims of the candidate that is selected, up to the first error. *)
Definition evictsOneNode (pod : Pod) (r : string + string) (l : list evictionEvent) : Prop :=
  exists cs cs' best err,
    dryRunCandidates pod cs /\ CallExtenders victimsOrder (Extenders pl) pod cs = inr cs' /\
    SelectCandidate now victimsOrder cs' = Some (Some best) /\ best ∈ cs' /\
    deletes (victim_Pods (c_Victims best)) err l /\ r = match err with Some e => inl e | None => inr (c_Name best) end /\
    exists n nd pdbs v,
      n ∈ allNodes pl /\ NodeOf n = Some nd /\ node_Name nd = c_Name best /\ c_Name best <> "" /\
      StatusCode (default None (m !! node_Name nd)) <> UnschedulableAndUnresolvable /\
      getPodDisruptionBudgets (pdbLister pl) = inr pdbs /\
      selectVictimsOnNode statusOrder now (fh pl) (nominator pl) pod generation (CloneState state) (Clone n) pdbs = Some (Some v) /\
      victim_Pods (c_Victims best) ⊆ victim_Pods v /\ (Extenders pl = [] -> victim_Pods (c_Victims best) = victim_Pods v) /\
      forall p, p ∈ victim_Pods v -> p ∈ podsOf n /\ lower pod p.

Lemma FindCandidates_logs pod r l :
  evicts (FindCandidates statusOrder now order noNodesAvailable pl generation state pod m) r l ->
  l = [] /\ forall cs, r = inr cs -> cs = [] \/ dryRunCandidates pod cs.
Proof.
  unfold FindCandidates. destruct (allNodes pl) as [|n0 ns] eqn:Hnodes; [by intros [-> ->]|]. rewrite <- Hnodes.
  intros Hl. apply evicts_bind in Hl as (nodes&l1&l2&->&Hl1&Hl2); [|apply orCrash_forkFree].
  apply orCrash_logs in Hl1 as [Hhelp ->]. cbn [app]. destruct nodes as [|n1 ns1] eqn:Hn1.
  { apply evicts_bind in Hl2 as (u&l3&l4&->&Hl3&[-> ->]); [|apply ClearNominatedNodeName_forkFree].
    apply ClearNominatedNodeName_logs in Hl3 as ->. split; [done|]. intros cs [= <-]. by left. }
  rewrite <- Hn1 in *. destruct (getPodDisruptionBudgets (pdbLister pl)) as [err|pdbs] eqn:Hpdbs; [by destruct Hl2 as [-> ->]|].
  apply evicts_bind in Hl2 as (cs&l3&l4&->&Hl3&[-> ->]); [|apply orCrash_forkFree].
  apply orCrash_logs in Hl3 as [Hdry ->]. split; [done|]. intros cs' [= <-]. right. by exists nodes, pdbs.
Qed.

Lemma FindCandidates_forkFree pod : forkFree (FindCandidates statusOrder now order noNodesAvailable pl generation state pod m).
Proof. unfold FindCandidates. fork_free. Qed.

Lemma PrepareCandidate_logs c pod err l : evicts (PrepareCandidate c pod) err l -> deletes (victim_Pods (c_Victims c)) err l.
Proof.
  unfold PrepareCandidate. intros Hl. apply evicts_bind in Hl as (e&l1&l2&->&Hl1&Hl2); [|apply evictLoop_forkFree].
  apply evictLoop_logs in Hl1. destruct e as [e|]; [by destruct Hl2 as [-> ->]; rewrite app_nil_r|].
  apply evicts_call in Hl2 as (pods&rest&->&Hl2). cbn [evictions app].
  apply evicts_bind in Hl2 as (u&l3&l4&->&Hl3&[-> ->]); [|apply ClearNominatedNodeName_forkFree].
  apply ClearNominatedNodeName_logs in Hl3 as ->. by rewrite !app_nil_r.
Qed.

Lemma PrepareCandidate_forkFree c pod : forkFree (PrepareCandidate c pod).
Proof. unfold PrepareCandidate, getLowerPriorityNominatedPods. fork_free. Qed.

(** The node and the victims behind a candidate that the extenders leave. *)
Lemma candidate_node pod cs cs' c : Forall (dryRunWith (=) pod) cs -> Forall (fromDryRun pod) cs' ->
  CallExtenders victimsOrder (Extenders pl) pod cs = inr cs' -> c ∈ cs' -> c_Name c <> "" -> exists n nd pdbs v,
    n ∈ allNodes pl /\ NodeOf n = Some nd /\ node_Name nd = c_Name c /\ c_Name c <> "" /\
    StatusCode (default None (m !! node_Name nd)) <> UnschedulableAndUnresolvable /\
    getPodDisruptionBudgets (pdbLister pl) = inr pdbs /\
    selectVictimsOnNode statusOrder now (fh pl) (nominator pl) pod generation (CloneState state) (Clone n) pdbs = Some (Some v) /\
    victim_Pods (c_Victims c) ⊆ victim_Pods v /\ (Extenders pl = [] -> victim_Pods (c_Victims c) = victim_Pods v) /\
    forall p, p ∈ victim_Pods v -> p ∈ podsOf n /\ lower pod p.
Proof.
  rewrite !list.Forall_forall. intros Hcs Hcs' Hext Hin Hname.
  assert (Hboth : exists R : list Pod -> list Pod -> Prop, dryRunWith R pod c /\ forall l l', R l l' -> l ⊆ l' /\ (Extenders pl = [] -> l = l')).
  { unfold CallExtenders in Hext. destruct (Extenders pl) as [|e es] eqn:He.
    - injection Hext as <-. exists (=). split; [by apply Hcs|]. by intros l l' ->.
    - exists (⊆). split; [by apply Hcs'|]. done. }
  destruct Hboth as (R&(n&nd&pdbs&v&Hn&Hnd&Hc&Hst&Hp&Hv&HR)&Himp). apply Himp in HR as [Hsub Hall].
  exists n, nd, pdbs, v. split_and!; try done.
  intros p Hpv. destruct (selectVictimsOnNode_lower _ _ _ _ _ _ _ _ _ _ Hv) as [Hlow _]. by apply Hlow.
Qed.

Lemma preempt_logs pod r l : Forall trims (Extenders pl) ->
  evicts (preempt statusOrder now order victimsOrder noNodesAvailable pl generation state pod m) r l ->
  (exists err, r = inl err /\ l = []) \/
  exists pod' rest, l = Updated pod' :: rest /\
    (rest = [] /\ (r = inr "" \/ exists err, r = inl err) \/ evictsOneNode pod' r rest).
Proof.
  intros Htrim Hl. unfold preempt in Hl. apply evicts_call in Hl as ([err|pod']&rest&->&Hl); cbn [evictions app].
  { destruct Hl as [-> ->]. left. by exists err. }
  right. exists pod', rest. split; [done|]. unfold preemptUpdated in Hl. destruct (negb _); [destruct Hl as [-> ->]; tauto|].
  apply evicts_bind in Hl as (found&l1&l2&->&Hl1&Hl2); [|apply FindCandidates_forkFree].
  apply FindCandidates_logs in Hl1 as [-> Hcs]. cbn [app]. destruct found as [err|[|c0 cs0]].
  { destruct Hl2 as [-> ->]. left. eauto. }
  { destruct Hl2 as [-> ->]. tauto. }
  destruct (Hcs _ eq_refl) as [|Hdry]; [done|]. pose proof (dryRun_candidates _ _ Hdry) as Hexact.
  destruct (CallExtenders _ _ _ _) as [err|cs] eqn:Hext.
  { destruct Hl2 as [-> ->]. left. eauto. }
  assert (Hcs' : Forall (fromDryRun pod') cs).
  { eapply CallExtenders_candidates; [exact Htrim| |exact Hext]. eapply Forall_impl; [exact Hexact|]. intros c. apply dryRunWith_all. }
  apply evicts_bind in Hl2 as (best&l3&l4&->&Hl3&Hl4); [|apply orCrash_forkFree].
  apply orCrash_logs in Hl3 as [Hsel ->]. cbn [app]. destruct best as [c|]; [|destruct Hl4 as [-> ->]; tauto].
  pose proof (SelectCandidate_elem _ _ Hsel) as Hin. case_decide as Hempty; [destruct Hl4 as [-> ->]; tauto|].
  apply evicts_bind in Hl4 as (err&l5&l6&->&Hl5&[-> ->]); [|apply PrepareCandidate_forkFree].
  apply PrepareCandidate_logs in Hl5. rewrite app_nil_r. right.
  exists (c0 :: cs0), cs, c, err. do 4 (split; [done|]). split; [done|]. split; [done|]. by apply (candidate_node pod' (c0 :: cs0) cs).
Qed.
End Log.

(** ** Properties *)

(** C39: whatever the plugins, the API server and the nominator do, with extenders that only
    take nodes and victims away a run of [preempt] evicts nobody, or it deletes the victims of one candidate:
    all of them, in order and up to the first error, and nobody else. It is the candidate that
    [SelectCandidate] picks from what the extenders leave of the candidates of the dry run. Its node is one of the
    snapshot that was not refused for good, and its victims are, without extenders, all those that the dry
    run selected there, and with extenders some of them: pods of this node of lower priority than the
    current version of the pod. The name of this node is the answer exactly when all were deleted. *)
Theorem preemption_evicts_one_node `{LabelsLib, StateData, PodPriority, SortSlice, !SortLaws}
    (statusOrder : gmap string Status -> list Status) (now : Z) (order : list NodeInfo -> list NodeInfo)
    (victimsOrder : gmap string Victims -> list (string * Victims)) (noNodesAvailable : string)
    (pl : DefaultPreemption) (generation : Z) (state : CycleState) (pod : Pod) (m : gmap string Status)
    (r : string + string) (l : list evictionEvent) :
  (forall ns, order ns ≡ₚ ns) -> (forall vm, victimsOrder vm ≡ₚ map_to_list vm) -> Forall trims (Extenders pl) ->
  logs evictions (preempt statusOrder now order victimsOrder noNodesAvailable pl generation state pod m) r l ->
  (exists err, r = inl err /\ l = []) \/
  exists pod' rest, l = Updated pod' :: rest /\
    (rest = [] /\ (r = inr "" \/ exists err, r = inl err) \/
     evictsOneNode statusOrder now order victimsOrder pl generation state m pod' r rest).
Proof. intros Horder Hvictims Htrim Hl. by eapply preempt_logs. Qed.

(** With the [GetPodPriority] of this repository, which is 0 for every pod, [PostFilter]
    never deletes a pod and never nominates a node. *)
Theorem constant_priority_never_preempts `{LabelsLib, StateData, SortSlice, !SortLaws}
    (statusOrder : gmap string Status -> list Status) (now : Z) (order : list NodeInfo -> list NodeInfo)
    (victimsOrder : gmap string Victims -> list (string * Victims)) (noNodesAvailable : string)
    (pl : DefaultPreemption) (generation : Z) (state : CycleState) (pod : Pod) (m : gmap string Status)
    (nominated : option string) (st : Status) (l : list evictionEvent) :
  (forall ns, order ns ≡ₚ ns) -> (forall vm, victimsOrder vm ≡ₚ map_to_list vm) -> Forall trims (Extenders pl) ->
  logs evictions (@PostFilter _ _ codePodPriority _ statusOrder now order victimsOrder noNodesAvailable pl generation state pod m)
    (nominated, st) l ->
  nominated = None /\ IsSuccess st = false /\ forall p err, Deleted p err ∉ l.
Proof.
  intros Horder Hvictims Htrim Hl. apply evicts_bind in Hl as (r&l1&l2&->&Hl1&[Hr ->]).
  2: { unfold preempt, preemptUpdated. pose proof (@FindCandidates_forkFree). pose proof (@PrepareCandidate_forkFree). fork_free. }
  rewrite app_nil_r.
  assert (Hcases : (forall p err, Deleted p err ∉ l1) /\ (r = inr "" \/ exists err, r = inl err)).
  { eapply preempt_logs in Hl1 as [(err&->&->)|(pod'&rest&->&[[-> Hr']|Hev])]; [| | |exact Horder|exact Hvictims|exact Htrim].
    - split; [|eauto]. by intros p e ?%elem_of_nil.
    - split; [|done]. intros p e [|?%elem_of_nil]%elem_of_cons; done.
    - destruct Hev as (cs&cs'&best&err&_&_&_&_&_&_&n&nd&pdbs&v&_&_&_&_&_&_&Hv&_).
      destruct (@selectVictimsOnNode_lower _ _ codePodPriority _ _ _ _ _ _ _ _ _ _ _ _ Hv) as [_ (p&_&Hlow)].
      by apply Z.lt_irrefl in Hlow. }
  destruct Hcases as [Hdel [->|[err ->]]]; cbn in Hr; injection Hr as -> ->; done.
Qed.

(** ** A witness *)
#[local] Existing Instance exampleLabels.
#[local] Existing Instances insertionSort insertionSort_laws unitState classPriority.

Definition examplePreemption : DefaultPreemption :=
  {| fh := countingFramework 4; nominator := NewPodNominator; Extenders := []; allNodes := [busyNode];
     nodeByName := fun _ => None; pdbLister := getPDBLister |}.

(** The lowest pod is deleted and its node is the answer. *)
Lemma examplePreemption_run :
  logs evictions (preempt valuesOf 0 id map_to_list "no nodes" examplePreemption 9 ∅ urgentPod ∅) (inr "n1")
    [Updated urgentPod; Deleted (classPod "c" "lowest") None].
Proof.
  exists (inr urgentPod), [Deleted (classPod "c" "lowest") None]. split; [reflexivity|].
  assert (Helig : PodEligibleToPreemptOthers urgentPod (nodeByName examplePreemption)
    (default None ((∅ : gmap string Status) !! NominatedNodeName_field (pod_Status urgentPod))) = true) by (vm_compute; reflexivity).
  assert (Hfind : FindCandidates valuesOf 0 id "no nodes" examplePreemption 9 ∅ urgentPod ∅ =
    Return (inr [{| c_Victims := {| victim_Pods := [classPod "c" "lowest"]; NumPDBViolations := 0 |}; c_Name := "n1" |}])).
  { transitivity (cs ← orCrash (dryRunPreemption valuesOf 0 (countingFramework 4) NewPodNominator urgentPod id 9 ∅ [busyNode] []);
      mret (M := Preempt) (inr (A := string) cs)); [reflexivity|].
    assert (Hdry : dryRunPreemption valuesOf 0 (countingFramework 4) NewPodNominator urgentPod id 9 ∅ [busyNode] [] =
      Some [{| c_Victims := {| victim_Pods := [classPod "c" "lowest"]; NumPDBViolations := 0 |}; c_Name := "n1" |}]) by (vm_compute; reflexivity).
    rewrite Hdry. reflexivity. }
  change (evicts (preemptUpdated valuesOf 0 id map_to_list "no nodes" examplePreemption 9 ∅ ∅ urgentPod) (inr "n1")
    [Deleted (classPod "c" "lowest") None]).
  unfold preemptUpdated. rewrite Helig, Hfind. exists None, []. split; [reflexivity|].
  exists None, []. split; [reflexivity|]. exists [], []. split; [reflexivity|]. split; reflexivity.
Qed.

Lemma preemption_evicts_one_node_witness :
  evictsOneNode valuesOf 0 id map_to_list examplePreemption 9 ∅ ∅ urgentPod (inr "n1") [Deleted (classPod "c" "lowest") None].
Proof.
  destruct (preemption_evicts_one_node valuesOf 0 id map_to_list "no nodes" examplePreemption 9 ∅ urgentPod ∅ _ _
    ltac:(intros; reflexivity) ltac:(intros; reflexivity) ltac:(constructor) examplePreemption_run)
    as [(err&He&_)|(pod'&rest&Hl&[[Hrest _]|Hev])]; [discriminate| |].
  - rewrite Hrest in Hl. discriminate.
  - injection Hl as <- <-. exact Hev.
Defined.

Lemma constant_priority_never_preempts_witness :
  exists l : list evictionEvent, (forall p err, Deleted p err ∉ l) /\ logs evictions (@PostFilter _ _ codePodPriority _ valuesOf 0 id map_to_list "no nodes" examplePreemption 9 ∅ urgentPod ∅)
      (None, NewStatus Unschedulable []) l.
Proof.
  exists [Updated urgentPod].
  assert (Hrun : logs evictions (@PostFilter _ _ codePodPriority _ valuesOf 0 id map_to_list "no nodes" examplePreemption 9 ∅ urgentPod ∅)
    (None, NewStatus Unschedulable []) [Updated urgentPod]).
  { exists (inr urgentPod), []. split; [reflexivity|].
    assert (Helig : @PodEligibleToPreemptOthers codePodPriority urgentPod (nodeByName examplePreemption)
      (default None ((∅ : gmap string Status) !! NominatedNodeName_field (pod_Status urgentPod))) = true) by (vm_compute; reflexivity).
    assert (Hdry : @dryRunPreemption _ _ codePodPriority _ valuesOf 0 (countingFramework 4) NewPodNominator urgentPod id 9 ∅ [busyNode] [] = Some [])
      by (vm_compute; reflexivity).
    assert (Hfind : @FindCandidates _ _ codePodPriority _ valuesOf 0 id "no nodes" examplePreemption 9 ∅ urgentPod ∅ = Return (inr [])).
    { transitivity (cs ← orCrash (@dryRunPreemption _ _ codePodPriority _ valuesOf 0 (countingFramework 4) NewPodNominator urgentPod id 9 ∅ [busyNode] []);
        mret (M := Preempt) (inr (A := string) cs)); [reflexivity|]. rewrite Hdry. reflexivity. }
    assert (Hupd : @preemptUpdated _ _ codePodPriority _ valuesOf 0 id map_to_list "no nodes" examplePreemption 9 ∅ ∅ urgentPod = Return (inr ""))
      by (unfold preemptUpdated; rewrite Helig, Hfind; reflexivity).
    change (evicts (r ← @preemptUpdated _ _ codePodPriority _ valuesOf 0 id map_to_list "no nodes" examplePreemption 9 ∅ ∅ urgentPod;
      mret (match r with
        | inl err => (None, NewStatus Error [err])
        | inr nnn => if decide (nnn = "") then (None, NewStatus Unschedulable []) else (Some nnn, NewStatus Success [])
        end)) (None, NewStatus Unschedulable []) []).
    rewrite Hupd. split; reflexivity. }
  split; [|exact Hrun].
  apply (constant_priority_never_preempts valuesOf 0 id map_to_list "no nodes" examplePreemption 9 ∅ urgentPod ∅ None (NewStatus Unschedulable []));
    [intros; reflexivity|intros; reflexivity|constructor|exact Hrun].
Defined.
