(* ===== verification/HTTPExtender.v ===== *)
(** * Extenders over HTTP (core/extender.go)

    An extender is a service that filters and scores nodes, binds pods and revises the
    victims of a preemption.  JSON is a class of functions to and from bytes, without laws;
    the network is a function of the request, the same for one call of the scheduler. *)
From Stdlib Require Import Ascii.
From stdpp Require Import pretty.
From S2P Require Import Prelude Api NodeInfo Framework Goroutine NodePlugins GenericScheduler ScheduleTheorems Preemption.
From S2P Require Import Configuration Setup SetupSpec Factory.
Local Open Scope Z_scope.

(** ** The messages of k8s.io/kube-scheduler/extender/v1, with the fields that the code uses *)
Record MetaVictims := { meta_Pods : list (option string); meta_NumPDBViolations : Z }.

Record ExtenderArgs := { ea_Pod : Pod; ea_Nodes : option (list Node); ea_NodeNames : option (list string) }.
Record ExtenderFilterResult := {
  fr_Nodes : option (list Node);
  fr_NodeNames : option (list string);
  fr_FailedNodes : gmap string string;
  fr_Error : string
}.
Record ExtenderPreemptionArgs := {
  pa_Pod : Pod;
  pa_NodeNameToVictims : option (gmap string Victims);
  pa_NodeNameToMetaVictims : option (gmap string (option MetaVictims))
}.
Record ExtenderBindingArgs := { ba_PodName : string; ba_PodNamespace : string; ba_PodUID : string; ba_Node : string }.

Inductive message :=
  | NodesMessage (args : ExtenderArgs)
  | PreemptionMessage (args : ExtenderPreemptionArgs)
  | BindingMessage (args : ExtenderBindingArgs).

Abbreviation bytes := (list Byte.byte).
Abbreviation HostPriorityList := (list (string * Z)).

(** [json.Marshal], and [Decode] into a result of each type; the result of a preemption is its map of
    victims by UID, that of a binding its error. *)
Class ExtenderJSON : Type := {
  Marshal : message -> string + bytes;
  DecodeFilterResult : bytes -> string + ExtenderFilterResult;
  DecodeHostPriorityList : bytes -> string + HostPriorityList;
  DecodePreemptionResult : bytes -> string + gmap string (option MetaVictims);
  DecodeBindingResult : bytes -> string + string
}.

(** [v1.Binding]. *)
Record Binding := { binding_Namespace : string; binding_Name : string; binding_UID : string; Target_Name : string }.

Record HTTPRequest := { req_Method : string; req_URL : string; req_Header : gmap string string; req_Body : bytes }.

(** [strings.TrimRight(s, "/")]. *)
Fixpoint TrimRight (s : string) : string :=
  match s with
  | EmptyString => EmptyString
  | String c s =>
      match TrimRight s with
      | EmptyString => if decide (c = "/"%char) then EmptyString else String c EmptyString
      | s => String c s
      end
  end.

Section HTTPExtender.
Context `{ExtenderJSON}.

(** ** The extender and its client *)

(** [restclient.TLSConfigFor]; [utilnet.SetTransportDefaults] of a transport with or without a configuration. *)
Context {TLS Transport : Type} (TLSConfigFor : ExtenderTLSConfig -> string + option TLS)
  (SetTransportDefaults : option TLS -> Transport).

Record Client := { client_Transport : Transport; client_Timeout : Z }.

Record HTTPExtender := {
  extenderURL : string;
  preemptVerb : string;
  filterVerb : string;
  prioritizeVerb : string;
  bindVerb : string;
  weight : Z;
  client : Client;
  nodeCacheCapable : bool;
  managedResources : gset string;
  ignorable : bool
}.

Definition DefaultExtenderTimeout : Z := 5000000000.

Definition noTLS : ExtenderTLSConfig :=
  {| Insecure := false; ServerName := ""; CertFile := ""; KeyFile := ""; CAFile := ""; CertData := []; KeyData := [];
     CAData := [] |}.

Definition insecure (cfg : ExtenderTLSConfig) : ExtenderTLSConfig :=
  {| Insecure := true; ServerName := ServerName cfg; CertFile := CertFile cfg; KeyFile := KeyFile cfg; CAFile := CAFile cfg;
     CertData := CertData cfg; KeyData := KeyData cfg; CAData := CAData cfg |}.

Definition makeTransport (config : ExtenderConfig) : string + Transport :=
  let cfg := default noTLS (TLSConfig config) in
  let cfg :=
    if EnableHTTPS config then
      let hasCA := bool_decide (CAFile cfg <> "") || bool_decide (CAData cfg <> []) in
      if hasCA then cfg else insecure cfg
    else cfg in
  match TLSConfigFor cfg with
  | inl err => inl err
  | inr tlsConfig => inr (SetTransportDefaults tlsConfig)
  end.

Definition NewHTTPExtender (config : ExtenderConfig) : string + HTTPExtender :=
  let timeout := if decide (HTTPTimeout config = 0) then DefaultExtenderTimeout else HTTPTimeout config in
  match makeTransport config with
  | inl err => inl err
  | inr transport =>
      inr {| extenderURL := URLPrefix config; preemptVerb := PreemptVerb config; filterVerb := FilterVerb config;
             prioritizeVerb := PrioritizeVerb config; bindVerb := BindVerb config; weight := xc_Weight config;
             client := {| client_Transport := transport; client_Timeout := timeout |};
             nodeCacheCapable := NodeCacheCapable config;
             managedResources := list_to_set (mr_Name <$> ManagedResources config); ignorable := Ignorable config |}
  end.

(** The verb of the filter is not compared. *)
Definition Equal (e1 e2 : HTTPExtender) : bool :=
  bool_decide (extenderURL e1 = extenderURL e2) && bool_decide (preemptVerb e1 = preemptVerb e2) &&
  bool_decide (prioritizeVerb e1 = prioritizeVerb e2) && bool_decide (bindVerb e1 = bindVerb e2) &&
  bool_decide (weight e1 = weight e2) && bool_decide (nodeCacheCapable e1 = nodeCacheCapable e2) &&
  bool_decide (managedResources e1 = managedResources e2) && bool_decide (ignorable e1 = ignorable e2).

Definition extender_Name (h : HTTPExtender) : string := extenderURL h.
Definition extender_IsIgnorable (h : HTTPExtender) : bool := ignorable h.
Definition extender_SupportsPreemption (h : HTTPExtender) : bool := bool_decide (preemptVerb h <> "").
Definition extender_IsBinder (h : HTTPExtender) : bool := bool_decide (bindVerb h <> "").

(** ** Requests *)

(** What [http.NewRequest] finds wrong with a URL; [Do] of a client: an error, or the status code and the body. *)
Context (badURL : string -> option string) (Do : Client -> HTTPRequest -> string + (Z * bytes)).

Definition NewRequest (method url : string) (body : bytes) : string + HTTPRequest :=
  match badURL url with
  | Some err => inl err
  | None => inr {| req_Method := method; req_URL := url; req_Header := ∅; req_Body := body |}
  end.
Definition setHeader (key value : string) (req : HTTPRequest) : HTTPRequest :=
  {| req_Method := req_Method req; req_URL := req_URL req; req_Header := <[key := value]> (req_Header req);
     req_Body := req_Body req |}.

Definition send {A} (h : HTTPExtender) (action : string) (args : message) (decode : bytes -> string + A) : string + A :=
  match Marshal args with
  | inl err => inl err
  | inr out =>
      let url := String.concat "" [TrimRight (extenderURL h); "/"; action] in
      match NewRequest "POST" url out with
      | inl err => inl err
      | inr req =>
          match Do (client h) (setHeader "Content-Type" "application/json" req) with
          | inl err => inl err
          | inr (StatusCode, body) =>
              if decide (StatusCode <> 200) then
                inl (String.concat "" ["Failed "; action; " with extender at URL "; url; ", code "; pretty StatusCode])
              else decode body
          end
      end
  end.

(** The nodes by their names for an extender that caches nodes, or in full. *)
Definition nodeArgs (h : HTTPExtender) (pod : Pod) (nodes : list Node) : ExtenderArgs :=
  if nodeCacheCapable h then {| ea_Pod := pod; ea_Nodes := None; ea_NodeNames := Some (node_Name <$> nodes) |}
  else {| ea_Pod := pod; ea_Nodes := Some nodes; ea_NodeNames := None |}.

(** ** Filter, Prioritize and Bind *)
Fixpoint nodesOfNames (h : HTTPExtender) (fromNodeName : gmap string Node) (names : list string) : string + list Node :=
  match names with
  | [] => inr []
  | nodeName :: names =>
      match fromNodeName !! nodeName with
      | None => inl (String.concat "" ["extender "; quoted (extenderURL h); " claims a filtered node "; quoted nodeName;
                       " which is not found in the input node list"])
      | Some n =>
          match nodesOfNames h fromNodeName names with
          | inl err => inl err
          | inr nodes => inr (n :: nodes)
          end
      end
  end.

Definition extender_Filter (h : HTTPExtender) (pod : Pod) (nodes : list Node) : string + (list Node * gmap string string) :=
  let fromNodeName := foldl (fun m n => <[node_Name n := n]> m) ∅ nodes in
  if decide (filterVerb h = "") then inr (nodes, ∅)
  else
    match send h (filterVerb h) (NodesMessage (nodeArgs h pod nodes)) DecodeFilterResult with
    | inl err => inl err
    | inr result =>
        if decide (fr_Error result <> "") then inl (fr_Error result)
        else
          match (if nodeCacheCapable h then fr_NodeNames result else None), fr_Nodes result with
          | Some names, _ =>
              match nodesOfNames h fromNodeName names with
              | inl err => inl err
              | inr nodeResult => inr (nodeResult, fr_FailedNodes result)
              end
          | None, Some items => inr (items, fr_FailedNodes result)
          | None, None => inr ([], fr_FailedNodes result)
          end
    end.

Definition extender_Prioritize (h : HTTPExtender) (pod : Pod) (nodes : list Node) : string + (HostPriorityList * Z) :=
  if decide (prioritizeVerb h = "") then inr ((fun node => (node_Name node, 0)) <$> nodes, 0)
  else
    match send h (prioritizeVerb h) (NodesMessage (nodeArgs h pod nodes)) DecodeHostPriorityList with
    | inl err => inl err
    | inr result => inr (result, weight h)
    end.

(** The error of a binding, if any. *)
Definition extender_Bind (h : HTTPExtender) (binding : Binding) : option string :=
  if negb (extender_IsBinder h) then Some "Unexpected empty bindVerb in extender"
  else
    let req := {| ba_PodName := binding_Name binding; ba_PodNamespace := binding_Namespace binding;
                  ba_PodUID := binding_UID binding; ba_Node := Target_Name binding |} in
    match send h (bindVerb h) (BindingMessage req) DecodeBindingResult with
    | inl err => Some err
    | inr err => if decide (err <> "") then Some err else None
    end.

(** ** Interest in a pod *)
Definition hasManagedResources (h : HTTPExtender) (containers : list Container) : bool :=
  existsb (fun container =>
    existsb (fun e => bool_decide (e.1 ∈ managedResources h)) (map_to_list (c_Requests container)) ||
    existsb (fun e => bool_decide (e.1 ∈ managedResources h)) (map_to_list (c_Limits container))) containers.

Definition extender_IsInterested (h : HTTPExtender) (pod : Pod) : bool :=
  bool_decide (managedResources h = ∅) || hasManagedResources h (Containers (pod_Spec pod)) ||
  hasManagedResources h (InitContainers (pod_Spec pod)).

(** ** Preemption *)
Definition convertToNodeNameToMetaVictims (nodeNameToVictims : gmap string Victims) : gmap string (option MetaVictims) :=
  (fun victims => Some {| meta_Pods := (fun pod => Some (pod_UID pod)) <$> victim_Pods victims; meta_NumPDBViolations := 0 |}) <$>
    nodeNameToVictims.

(** The pod with the UID among the pods of a node, if any; a nil pod panics at the first comparison. *)
Fixpoint findUID (pods : list PodInfo) (metaPod : option string) : result string (option Pod) :=
  match pods with
  | [] => Ok None
  | p :: pods =>
      match metaPod with
      | None => Panic
      | Some uid => if decide (pod_UID (pi_Pod p) = uid) then Ok (Some (pi_Pod p)) else findUID pods metaPod
      end
  end.

Definition convertPodUIDToPod (h : HTTPExtender) (metaPod : option string) (nodeInfo : NodeInfo) : result string Pod :=
  found ← findUID (Pods nodeInfo) metaPod;
  match found, NodeOf nodeInfo with
  | Some p, _ => Ok p
  | None, Some n => Err (String.concat "" ["extender: "; extenderURL h; " claims to preempt pod (UID: "; default "<nil>" metaPod;
                           ") on node: "; node_Name n; ", but the pod is not found on that node"])
  | None, None => Panic
  end.

Fixpoint podsOfUIDs (h : HTTPExtender) (metaPods : list (option string)) (nodeInfo : NodeInfo) : result string (list Pod) :=
  match metaPods with
  | [] => Ok []
  | metaPod :: metaPods =>
      pod ← convertPodUIDToPod h metaPod nodeInfo;
      pods ← podsOfUIDs h metaPods nodeInfo;
      mret (pod :: pods)
  end.

Fixpoint convertLoop (h : HTTPExtender) (nodeInfos : NodeInfoLister) (metaVictims : list (string * option MetaVictims))
    (nodeNameToVictims : gmap string Victims) : result string (gmap string Victims) :=
  match metaVictims with
  | [] => Ok nodeNameToVictims
  | (nodeName, metaVictims) :: rest =>
      nodeInfo ← match nodeInfos nodeName with inl err => Err err | inr nodeInfo => Ok nodeInfo end;
      metaVictims ← match metaVictims with None => Panic | Some metaVictims => Ok metaVictims end;
      pods ← podsOfUIDs h (meta_Pods metaVictims) nodeInfo;
      convertLoop h nodeInfos rest (<[nodeName := {| victim_Pods := pods; NumPDBViolations := 0 |}]> nodeNameToVictims)
  end.

(** The order in which Go iterates over the answer. *)
Context (metaOrder : gmap string (option MetaVictims) -> list (string * option MetaVictims)).

Definition convertToNodeNameToVictims (h : HTTPExtender) (nodeNameToMetaVictims : gmap string (option MetaVictims))
    (nodeInfos : NodeInfoLister) : result string (gmap string Victims) :=
  convertLoop h nodeInfos (metaOrder nodeNameToMetaVictims) ∅.

Definition preemptionArgs (h : HTTPExtender) (pod : Pod) (nodeNameToVictims : gmap string Victims) : ExtenderPreemptionArgs :=
  if nodeCacheCapable h then
    {| pa_Pod := pod; pa_NodeNameToVictims := None;
       pa_NodeNameToMetaVictims := Some (convertToNodeNameToMetaVictims nodeNameToVictims) |}
  else {| pa_Pod := pod; pa_NodeNameToVictims := Some nodeNameToVictims; pa_NodeNameToMetaVictims := None |}.

Definition extender_ProcessPreemption (h : HTTPExtender) (pod : Pod) (nodeNameToVictims : gmap string Victims)
    (nodeInfos : NodeInfoLister) : result string (gmap string Victims) :=
  if negb (extender_SupportsPreemption h) then
    Err (String.concat "" ["preempt verb is not defined for extender "; extenderURL h; " but run into ProcessPreemption"])
  else
    match send h (preemptVerb h) (PreemptionMessage (preemptionArgs h pod nodeNameToVictims)) DecodePreemptionResult with
    | inl err => Err err
    | inr result => convertToNodeNameToVictims h result nodeInfos
    end.

(** ** As the interfaces of the scheduler *)
Definition asExtender (h : HTTPExtender) : Extender :=
  {| IsInterested := extender_IsInterested h; ExtenderFilter := extender_Filter h; Prioritize := extender_Prioritize h;
     IsIgnorable := extender_IsIgnorable h; IsBinder := extender_IsBinder h |}.

(** What the configurator calls. *)
Definition makeExtender (config : ExtenderConfig) : result string Extender :=
  match NewHTTPExtender config with inl err => Err err | inr h => Ok (asExtender h) end.

(** ** Names and nodes *)
Lemma fromNodeName_lookup (nodes : list Node) name n :
  foldl (fun m n => <[node_Name n := n]> m) (∅ : gmap string Node) nodes !! name = Some n -> n ∈ nodes /\ node_Name n = name.
Proof.
  intros Hn. destruct (decide (name ∈ (node_Name <$> nodes))) as [Hin|Hout].
  - destruct (foldl_insert_Some node_Name (fun n : Node => n) nodes (∅ : gmap string Node) name Hin) as (n'&Hn'&Hname&Hl).
    rewrite Hl in Hn. by injection Hn as <-.
  - rewrite (foldl_insert_None node_Name (fun n : Node => n)), lookup_empty in Hn by done. done.
Qed.

Lemma nodesOfNames_Ok h m names : forall l, nodesOfNames h m names = inr l -> Forall2 (fun name n => m !! name = Some n) names l.
Proof.
  induction names as [|name names IH]; intros l; cbn [nodesOfNames]; [intros [= <-]; constructor|].
  destruct (m !! name) as [n|] eqn:Hn; [|done]. destruct (nodesOfNames h m names) as [err|nodes]; [done|].
  intros [= <-]. constructor; [done|by apply IH].
Qed.

(** The service answers with names, or with no nodes at all. *)
Definition answersByName (h : HTTPExtender) : Prop := forall args result,
  send h (filterVerb h) args DecodeFilterResult = inr result -> is_Some (fr_NodeNames result) \/ fr_Nodes result = None.

Lemma Filter_removes h pod nodes nodes' failed : nodeCacheCapable h = true -> answersByName h ->
  extender_Filter h pod nodes = inr (nodes', failed) -> nodes' ⊆ nodes.
Proof.
  intros Hcap Hans. unfold extender_Filter. rewrite Hcap. case_decide; [by intros [= <- <-]|].
  destruct (send _ _ _ _) as [err|result] eqn:Hsend; [done|]. case_decide; [done|].
  destruct (fr_NodeNames result) as [names|] eqn:Hnames.
  - destruct (nodesOfNames _ _ _) as [err|l] eqn:Hl; [done|]. intros [= <- <-] n Hn.
    apply nodesOfNames_Ok in Hl. apply list_elem_of_lookup in Hn as [i Hi].
    destruct (Forall2_lookup_r _ _ _ _ _ Hl Hi) as (name&_&Hm). by apply fromNodeName_lookup in Hm as [? _].
  - destruct (Hans _ _ Hsend) as [[? Hx]|Hnone]; [congruence|]. rewrite Hnone. intros [= <- <-] n Hn. by apply elem_of_nil in Hn.
Qed.

(** ** The extenders of a configuration *)
Lemma NewHTTPExtender_fields config h : NewHTTPExtender config = inr h ->
  ignorable h = Ignorable config /\ nodeCacheCapable h = NodeCacheCapable config /\ bindVerb h = BindVerb config.
Proof. unfold NewHTTPExtender. destruct (makeTransport config); [done|]. by intros [= <-]. Qed.

Lemma newExtenders_spec configs : forall es ign ignored, newExtenders makeExtender configs = Ok (es, ign, ignored) ->
  exists hs, Forall2 (fun config h => NewHTTPExtender config = inr h) configs hs /\
    es = asExtender <$> filter (fun h => ignorable h = false) hs /\
    ign = asExtender <$> filter (fun h => ignorable h = true) hs /\
    ignored = configs ≫= (fun config => mr_Name <$> filter (fun r => IgnoredByScheduler r = true) (ManagedResources config)).
Proof.
  induction configs as [|config configs IH]; intros es ign ignored; cbn [newExtenders].
  { intros [= <- <- <-]. exists []. by repeat split. }
  assert (Hm : makeExtender config = match NewHTTPExtender config with inl err => Err err | inr h => Ok (asExtender h) end)
    by reflexivity.
  rewrite Hm. clear Hm. intros Heq. destruct (NewHTTPExtender config) as [err|h] eqn:Hh; [discriminate Heq|].
  cbn [mbind result_bind] in Heq.
  destruct (newExtenders makeExtender configs) as [[[es' ign'] ignored']| |]; [|discriminate Heq..].
  cbn [mbind result_bind] in Heq. destruct (IH es' ign' ignored' eq_refl) as (hs&Hhs&->&->&->).
  exists (h :: hs). split; [by constructor|]. rewrite !filter_cons, bind_cons.
  unfold mret, result_ret in Heq. change (IsIgnorable (asExtender h)) with (ignorable h) in Heq.
  destruct (ignorable h); injection Heq as <- <- <-; by repeat split.
Qed.

Lemma length_filter_filter {A} (P Q : A -> bool) l :
  (length (filter (fun x => P x = true) (filter (fun x => Q x = false) l)) +
   length (filter (fun x => P x = true) (filter (fun x => Q x = true) l)) = length (filter (fun x => P x = true) l))%nat.
Proof.
  induction l as [|x l IH]; [done|]. repeat (rewrite ?filter_cons; case_decide); cbn [length]; first [congruence|lia|idtac].
  by destruct (Q x).
Qed.

Lemma length_filter_Forall2 {A B} (P : A -> Prop) `{forall x, Decision (P x)} (Q : B -> bool) l k :
  Forall2 (fun x y => P x <-> Q y = true) l k -> length (filter P l) = length (filter (fun y => Q y = true) k).
Proof.
  induction 1 as [|x y l k Hxy _ IH]; [done|]. rewrite !filter_cons.
  destruct (decide (P x)) as [HP|HP], (decide (Q y = true)) as [HQ|HQ]; cbn; tauto || lia.
Qed.

Lemma length_filter_fmap {A B} (f : A -> B) (Q : B -> bool) l :
  length (filter (fun y => Q y = true) (f <$> l)) = length (filter (fun x => Q (f x) = true) l).
Proof. induction l as [|x l IH]; [done|]. rewrite fmap_cons, !filter_cons. case_decide; cbn; by rewrite IH. Qed.

(** ** What the validation of the extenders ensures *)
Section Validated.
Context (IsQualifiedName : string -> list string).

Lemma validateManagedResources_errs rs : forall errs seen, exists more,
  (foldl (validateManagedResource IsQualifiedName) (errs, seen) rs).1 = errs ++ more.
Proof.
  induction rs as [|r rs IH]; intros errs seen; [exists []; by rewrite app_nil_r|]. cbn [foldl validateManagedResource].
  match goal with |- context [foldl _ (?e, ?s) rs] => destruct (IH e s) as [more ->] end.
  eexists. by rewrite <- app_assoc.
Qed.

(** The extenders have as many binders as there are verbs, and positive weights where they score. *)
Lemma validateExtender_loop configs : forall errs binders seen,
  let '(errs', binders', _) := foldl (validateExtender IsQualifiedName) (errs, binders, seen) configs in
  binders' = (binders + length (filter (fun c => BindVerb c <> "") configs))%nat /\
  (errs' = [] -> errs = [] /\ Forall (fun c => PrioritizeVerb c = "" \/ 0 < xc_Weight c) configs).
Proof.
  induction configs as [|config configs IH]; intros errs binders seen; [cbn; split; [lia|by intros ->]|].
  cbn [foldl validateExtender].
  set (errs1 := if bool_decide (PrioritizeVerb config <> "") && (xc_Weight config <=? 0) then _ else errs).
  destruct (validateManagedResources_errs (ManagedResources config) errs1 seen) as [more Hmore].
  destruct (foldl (validateManagedResource _) (errs1, seen) _) as [errs2 seen']. cbn [fst] in Hmore.
  specialize (IH errs2 (if decide (BindVerb config <> "") then S binders else binders) seen').
  destruct (foldl (validateExtender _) _ configs) as [[errs' binders'] seen'']. destruct IH as [-> Herrs]. split.
  - rewrite filter_cons. case_decide; cbn; lia.
  - intros Hnil. destruct (Herrs Hnil) as [-> Hall]. symmetry in Hmore. apply app_nil in Hmore as [Hmore _].
    unfold errs1 in Hmore. rewrite Forall_cons.
    case_bool_decide as Hverb; cbn [andb] in Hmore; [|split_and!; [done|left; by destruct (decide (PrioritizeVerb config = ""))|done]].
    destruct (Z.leb_spec (xc_Weight config) 0); [by apply app_nil in Hmore as [_ ?]|]. auto.
Qed.

Lemma validateExtenders_ok configs : validateExtenders IsQualifiedName configs = [] ->
  (length (filter (fun c => BindVerb c <> "") configs) <= 1)%nat /\
  Forall (fun c => PrioritizeVerb c = "" \/ 0 < xc_Weight c) configs.
Proof.
  unfold validateExtenders. pose proof (validateExtender_loop configs [] 0 ∅) as Hloop.
  destruct (foldl _ _ configs) as [[errs binders] seen]. destruct Hloop as [-> Herrs]. cbn [Nat.add].
  destruct (Nat.ltb_spec 1 (length (filter (fun c => BindVerb c <> "") configs))); intros Hnil.
  - by apply app_nil in Hnil as [_ ?].
  - split; [done|]. by apply Herrs.
Qed.
End Validated.

Lemma Prioritize_weight config h pod nodes priorities w : NewHTTPExtender config = inr h ->
  PrioritizeVerb config = "" \/ 0 < xc_Weight config ->
  extender_Prioritize h pod nodes = inr (priorities, w) -> 0 <= w.
Proof.
  unfold NewHTTPExtender. destruct (makeTransport config); [done|]. intros [= <-] Hw. unfold extender_Prioritize.
  cbn [prioritizeVerb weight]. case_decide; [by intros [= _ <-]|]. destruct (send _ _ _ _); [done|].
  intros [= _ <-]. destruct Hw; [done|lia].
Qed.

(** C27: The extenders of a configuration that passes its validation keep the contract that the
    scheduler relies on, if their services cache the nodes and answer with names: Filter
    returns only nodes that it was given; those that may be ignored come last; at most one binds
    pods, so that the first one that does is the only one; the weight of a score is never negative. *)
Theorem http_extenders_keep_their_contract IsQualifiedName configs es ign ignored :
  newExtenders makeExtender configs = Ok (es, ign, ignored) ->
  validateExtenders IsQualifiedName configs = [] ->
  (forall config h, config ∈ configs -> NewHTTPExtender config = inr h -> NodeCacheCapable config = true /\ answersByName h) ->
  extendersFilter (es ++ ign) /\
  Forall (fun e => IsIgnorable e = false) es /\ Forall (fun e => IsIgnorable e = true) ign /\
  (length (filter (fun e => IsBinder e = true) (es ++ ign)) <= 1)%nat /\
  (forall e pod nodes priorities w, e ∈ es ++ ign -> Prioritize e pod nodes = inr (priorities, w) -> 0 <= w).
Proof.
  intros Hnew Hvalid Hservice. destruct (newExtenders_spec _ _ _ _ Hnew) as (hs&Hhs&->&->&_).
  apply validateExtenders_ok in Hvalid as [Hbind Hweight].
  assert (Hfrom : forall e, e ∈ (asExtender <$> filter (fun h => ignorable h = false) hs) ++
      (asExtender <$> filter (fun h => ignorable h = true) hs) ->
      exists h config, e = asExtender h /\ config ∈ configs /\ NewHTTPExtender config = inr h).
  { intros e He. rewrite elem_of_app, !list_elem_of_fmap in He.
    assert (Hh : exists h, e = asExtender h /\ h ∈ hs)
      by (destruct He as [(h&->&Hh)|(h&->&Hh)]; apply list_elem_of_filter in Hh as [_ Hh]; eauto).
    destruct Hh as (h&->&Hh). apply list_elem_of_lookup in Hh as [i Hi].
    destruct (Forall2_lookup_r _ _ _ _ _ Hhs Hi) as (config&Hc&Hn). exists h, config. eauto using list_elem_of_lookup_2. }
  split_and!.
  - apply list.Forall_forall. intros e He pod nodes nodes' failed. destruct (Hfrom e He) as (h&config&->&Hc&Hn).
    destruct (Hservice _ _ Hc Hn) as [Hcap Hans]. apply Filter_removes; [|done].
    apply NewHTTPExtender_fields in Hn as (_&->&_). done.
  - apply Forall_fmap, list.Forall_forall. intros h Hh. by apply list_elem_of_filter in Hh as [? _].
  - apply Forall_fmap, list.Forall_forall. intros h Hh. by apply list_elem_of_filter in Hh as [? _].
  - rewrite filter_app, length_app, !length_filter_fmap, length_filter_filter.
    erewrite <- length_filter_Forall2; [exact Hbind|]. eapply Forall2_impl; [exact Hhs|].
    intros config h Hn. apply NewHTTPExtender_fields in Hn as (_&_&Hb). cbn [asExtender IsBinder].
    unfold extender_IsBinder. rewrite Hb. by rewrite bool_decide_eq_true.
  - intros e pod nodes priorities w He. destruct (Hfrom e He) as (h&config&->&Hc&Hn).
    rewrite list.Forall_forall in Hweight. cbn [asExtender Prioritize]. eapply Prioritize_weight; [exact Hn|by apply Hweight].
Qed.

(** ** Victims by UID *)
Lemma findUID_Ok pods metaPod : forall p, findUID pods metaPod = Ok (Some p) ->
  metaPod = Some (pod_UID p) /\ p ∈ (pi_Pod <$> pods).
Proof.
  induction pods as [|q pods IH]; intros p; cbn [findUID]; [done|]. destruct metaPod as [uid|]; [|done]. rewrite fmap_cons.
  case_decide as Huid.
  - intros [= <-]. split; [by rewrite Huid|]. apply list.elem_of_cons. by left.
  - intros Hp. apply IH in Hp as [? ?]. split; [done|]. apply list.elem_of_cons. by right.
Qed.

Lemma findUID_here pods p : (forall q, q ∈ (pi_Pod <$> pods) -> pod_UID q = pod_UID p -> q = p) -> p ∈ (pi_Pod <$> pods) ->
  findUID pods (Some (pod_UID p)) = Ok (Some p).
Proof.
  induction pods as [|q pods IH]; intros Huniq Hp; [by apply elem_of_nil in Hp|]. rewrite fmap_cons in *. cbn [findUID].
  case_decide as Huid; [do 2 f_equal; apply Huniq; [apply list.elem_of_cons; by left|done]|].
  apply list.elem_of_cons in Hp as [->|Hp]; [done|]. apply IH; [|done]. intros q' Hq'. apply Huniq. apply list.elem_of_cons. by right.
Qed.

Lemma podsOfUIDs_Ok h info metaPods : forall pods, podsOfUIDs h metaPods info = Ok pods ->
  metaPods = Some ∘ pod_UID <$> pods /\ pods ⊆ (pi_Pod <$> Pods info).
Proof.
  induction metaPods as [|metaPod metaPods IH]; intros pods; cbn [podsOfUIDs].
  { intros [= <-]. split; [done|]. intros p Hp. by apply elem_of_nil in Hp. }
  unfold convertPodUIDToPod. destruct (findUID (Pods info) metaPod) as [[p|]| |] eqn:Hp; cbn [mbind result_bind]; [| |discriminate..].
  - destruct (podsOfUIDs h metaPods info) as [pods'| |]; cbn [mbind result_bind]; [|discriminate..].
    intros [= <-]. apply findUID_Ok in Hp as [-> Hp]. destruct (IH _ eq_refl) as [-> Hin]. split; [done|].
    intros q [->|Hq]%list.elem_of_cons; [done|by apply Hin].
  - destruct (NodeOf info); cbn [mbind result_bind]; discriminate.
Qed.

(** No two pods of a node share a UID. *)
Definition uniqueUIDs (info : NodeInfo) : Prop :=
  forall p q, p ∈ (pi_Pod <$> Pods info) -> q ∈ (pi_Pod <$> Pods info) -> pod_UID p = pod_UID q -> p = q.

Lemma podsOfUIDs_restores h info pods : uniqueUIDs info -> pods ⊆ (pi_Pod <$> Pods info) ->
  podsOfUIDs h (Some ∘ pod_UID <$> pods) info = Ok pods.
Proof.
  intros Huniq. induction pods as [|p pods IH]; intros Hin; [done|]. rewrite fmap_cons. cbn [podsOfUIDs compose].
  assert (Hp : p ∈ (pi_Pod <$> Pods info)) by (apply Hin, list.elem_of_cons; by left).
  unfold convertPodUIDToPod. rewrite findUID_here; [|intros q Hq; by apply Huniq|done]. cbn [mbind result_bind].
  rewrite IH; [done|]. intros q Hq. apply Hin, list.elem_of_cons. by right.
Qed.

(** What an entry of an answer stands for. *)
Definition restored (h : HTTPExtender) (nodeInfos : NodeInfoLister) (e : string * option MetaVictims) (v : Victims) : Prop :=
  exists info mv, nodeInfos e.1 = inr info /\ e.2 = Some mv /\ podsOfUIDs h (meta_Pods mv) info = Ok (victim_Pods v) /\
    NumPDBViolations v = 0.

Lemma convertLoop_Ok h nodeInfos l : forall m m', NoDup l.*1 -> convertLoop h nodeInfos l m = Ok m' ->
  (forall e, e ∈ l -> exists v, m' !! e.1 = Some v /\ restored h nodeInfos e v) /\
  forall name, name ∉ l.*1 -> m' !! name = m !! name.
Proof.
  induction l as [|[name mv] l IH]; intros m m' Hnd; cbn [convertLoop].
  { intros [= <-]. split; [intros e He; by apply elem_of_nil in He|done]. }
  rewrite fmap_cons, NoDup_cons in Hnd. destruct Hnd as [Hname Hnd].
  destruct (nodeInfos name) as [err|info] eqn:Hinfo; cbn [mbind result_bind]; [discriminate|].
  destruct mv as [mv|]; cbn [mbind result_bind]; [|discriminate].
  destruct (podsOfUIDs h (meta_Pods mv) info) as [pods| |] eqn:Hpods; cbn [mbind result_bind]; [|discriminate..].
  intros Hl. destruct (IH _ _ Hnd Hl) as [Hin Hout]. split.
  - intros e [->|He]%list.elem_of_cons; [|by apply Hin]. eexists. split; [rewrite Hout by done; apply lookup_insert_eq|].
    exists info, mv. by repeat split.
  - intros n [Hne Hn]%not_elem_of_cons. rewrite Hout by done. apply lookup_insert_ne. intros ->. by apply Hne.
Qed.

Lemma convertLoop_total h nodeInfos l : (forall e, e ∈ l -> exists v, restored h nodeInfos e v) ->
  forall m, exists m', convertLoop h nodeInfos l m = Ok m'.
Proof.
  induction l as [|[name mv] l IH]; intros Hl m; cbn [convertLoop]; [by eexists|].
  destruct (Hl (name, mv)) as (v&info&mv'&Hi&Hmv&Hp&_); [apply list.elem_of_cons; by left|]. cbn [fst snd] in *. subst mv.
  rewrite Hi. cbn [mbind result_bind]. rewrite Hp. cbn [mbind result_bind]. apply IH.
  intros e He. apply Hl, list.elem_of_cons. by right.
Qed.

Hypothesis metaOrder_perm : forall m, metaOrder m ≡ₚ map_to_list m.

Lemma metaOrder_NoDup m : NoDup (metaOrder m).*1.
Proof using metaOrder_perm. rewrite metaOrder_perm. apply NoDup_fst_map_to_list. Qed.

Lemma elem_of_metaOrder m e : e ∈ metaOrder m <-> m !! e.1 = Some e.2.
Proof using metaOrder_perm. rewrite metaOrder_perm. destruct e. apply elem_of_map_to_list. Qed.

(** C28: The UIDs that are sent for the victims of a preemption stand for these victims: what
    an extender sends back unchanged is restored, in every order of the map, to the victims
    that it was asked about, if they are pods of their nodes and no two pods of a node
    share a UID; their number of budget violations is lost. Whatever an extender sends back,
    the victims that are restored are the pods with these UIDs on the node that it names,
    and every node is one of the lister. *)
Theorem victims_survive_the_extender h nodeInfos :
  (forall victims,
    (forall name v, victims !! name = Some v ->
       exists info, nodeInfos name = inr info /\ uniqueUIDs info /\ victim_Pods v ⊆ (pi_Pod <$> Pods info)) ->
    convertToNodeNameToVictims h (convertToNodeNameToMetaVictims victims) nodeInfos =
      Ok ((fun v => {| victim_Pods := victim_Pods v; NumPDBViolations := 0 |}) <$> victims)) /\
  forall pod victims answer, extender_ProcessPreemption h pod victims nodeInfos = Ok answer ->
    forall name v, answer !! name = Some v ->
      exists info, nodeInfos name = inr info /\ victim_Pods v ⊆ (pi_Pod <$> Pods info) /\ NumPDBViolations v = 0.
Proof using metaOrder_perm.
  split.
  - intros victims Hv. unfold convertToNodeNameToVictims.
    assert (Hrestored : forall e, e ∈ metaOrder (convertToNodeNameToMetaVictims victims) -> exists v,
        victims !! e.1 = Some v /\ restored h nodeInfos e {| victim_Pods := victim_Pods v; NumPDBViolations := 0 |}).
    { intros [name mv] He. apply elem_of_metaOrder in He. cbn [fst snd] in He. unfold convertToNodeNameToMetaVictims in He.
      rewrite lookup_fmap in He. destruct (victims !! name) as [v|] eqn:Hl; [|done]. injection He as <-.
      destruct (Hv _ _ Hl) as (info&Hi&Huniq&Hin). exists v. split; [done|]. exists info. eexists. split_and!; [done..| |done].
      cbn [meta_Pods victim_Pods]. by apply podsOfUIDs_restores. }
    destruct (convertLoop_total h nodeInfos (metaOrder (convertToNodeNameToMetaVictims victims))) with (m := ∅ : gmap string Victims)
      as [m' Hm']; [intros e He; destruct (Hrestored e He) as (v&_&Hr); by eexists|].
    rewrite Hm'. f_equal. destruct (convertLoop_Ok _ _ _ _ _ (metaOrder_NoDup _) Hm') as [Hin Hout].
    apply map_eq. intros name. rewrite lookup_fmap. destruct (victims !! name) as [v|] eqn:Hl; cbn [fmap option_fmap option_map].
    + destruct (Hin (name, Some {| meta_Pods := Some ∘ pod_UID <$> victim_Pods v; meta_NumPDBViolations := 0 |}))
        as (v'&Hv'&info&mv&Hi&[= <-]&Hp&Hn).
      { apply elem_of_metaOrder. unfold convertToNodeNameToMetaVictims. cbn [fst snd]. by rewrite lookup_fmap, Hl. }
      cbn [fst] in *. rewrite Hv'. destruct (Hv _ _ Hl) as (info'&Hi'&Huniq&Hsub). assert (info' = info) as -> by congruence.
      cbn [meta_Pods] in Hp. rewrite podsOfUIDs_restores in Hp by done. injection Hp as Hp. destruct v'. cbn in *. by subst.
    + rewrite Hout; [apply lookup_empty|]. intros ([name' mv]&->&He)%list_elem_of_fmap.
      destruct (Hrestored _ He) as (v&Hv'&_). cbn [fst] in *. congruence.
  - intros pod victims answer. unfold extender_ProcessPreemption. destruct (negb _); [done|].
    destruct (send _ _ _ _) as [err|result]; [done|]. unfold convertToNodeNameToVictims. intros Hl name v Hn.
    destruct (convertLoop_Ok _ _ _ _ _ (metaOrder_NoDup _) Hl) as [Hin Hout].
    destruct (decide (name ∈ (metaOrder result).*1)) as [He|He]; [|rewrite Hout, lookup_empty in Hn by done; done].
    apply list_elem_of_fmap in He as (e&->&He). destruct (Hin e He) as (v'&Hv'&info&mv&Hi&_&Hp&Hz).
    assert (v' = v) as -> by congruence. exists info. split; [done|]. by apply podsOfUIDs_Ok in Hp as [_ Hp].
Qed.
End HTTPExtender.

(** ** Witnesses *)

(** A service on two nodes that keeps the first and scores it. *)
Definition exampleJSON : ExtenderJSON :=
  {| Marshal _ := inr [];
     DecodeFilterResult _ := inr {| fr_Nodes := None; fr_NodeNames := Some ["n1"]; fr_FailedNodes := {[ "n2" := "no license" ]};
                                    fr_Error := "" |};
     DecodeHostPriorityList _ := inr [("n1", 7)];
     DecodePreemptionResult _ := inr {[ "n1" := Some {| meta_Pods := [Some "uid1"]; meta_NumPDBViolations := 3 |} ]};
     DecodeBindingResult _ := inr "" |}.
#[local] Existing Instance exampleJSON.

Definition exampleService : Client (Transport := unit) -> HTTPRequest -> string + (Z * list Byte.byte) :=
  fun _ req => if decide (req_URL req = "http://license/filter") then inr (200, []) else inr (404, []).

Definition exampleExtenders : list ExtenderConfig :=
  [{| URLPrefix := "http://license/"; FilterVerb := "filter"; PreemptVerb := "preempt"; PrioritizeVerb := "prioritize"; xc_Weight := 2;
      BindVerb := ""; EnableHTTPS := false; TLSConfig := None; HTTPTimeout := 0; NodeCacheCapable := true;
      ManagedResources := [{| mr_Name := "example.com/license"; IgnoredByScheduler := true |}]; Ignorable := true |};
   {| URLPrefix := "http://binder"; FilterVerb := ""; PreemptVerb := ""; PrioritizeVerb := ""; xc_Weight := 0; BindVerb := "bind";
      EnableHTTPS := false; TLSConfig := None; HTTPTimeout := 0; NodeCacheCapable := true; ManagedResources := [];
      Ignorable := false |}].

Lemma http_extenders_keep_their_contract_witness :
  exists es ign, newExtenders (makeExtender (TLS := unit) (fun _ => inr None) (fun _ => tt) (fun _ => None) exampleService)
      exampleExtenders = Ok (es, ign, ["example.com/license"]) /\
    extendersFilter (es ++ ign) /\
    (fun e => ExtenderFilter e examplePod1 [simpleNode "n1" 4 8 10; simpleNode "n2" 4 8 10]) <$> ign =
      [inr ([simpleNode "n1" 4 8 10], {[ "n2" := "no license" ]})].
Proof.
  eexists _, _. split; [reflexivity|]. split; [|vm_compute; reflexivity].
  eapply (http_extenders_keep_their_contract (TLS := unit) (fun _ => inr None) (fun _ => tt) (fun _ => None) exampleService
    (fun _ => []) exampleExtenders); [reflexivity|reflexivity|].
  intros config h Hin Hh. split.
  - revert Hin. unfold exampleExtenders. rewrite !list.elem_of_cons, elem_of_nil. intros [->|[->|[]]]; reflexivity.
  - intros args result. unfold send. cbn [Marshal exampleJSON NewRequest]. unfold exampleService.
    case_decide; cbn [DecodeFilterResult exampleJSON].
    + rewrite decide_False by (intros []; reflexivity). intros [= <-]. left. eexists. reflexivity.
    + rewrite decide_True by discriminate. discriminate.
Defined.

Definition oneBusyNode : NodeInfoLister := fun name =>
  if decide (name = "n1") then inr (@AddPod exampleLabels 1 exampleInfo examplePod1).2 else inl "not found".

Lemma victims_survive_the_extender_witness :
  let h := {| extenderURL := "http://license"; preemptVerb := "preempt"; filterVerb := ""; prioritizeVerb := ""; bindVerb := "";
              weight := 1; client := {| client_Transport := tt; client_Timeout := DefaultExtenderTimeout |};
              nodeCacheCapable := true; managedResources := ∅; ignorable := false |} in
  convertToNodeNameToVictims map_to_list h (convertToNodeNameToMetaVictims
      {[ "n1" := {| victim_Pods := [examplePod1]; NumPDBViolations := 3 |} ]}) oneBusyNode =
    Ok {[ "n1" := {| victim_Pods := [examplePod1]; NumPDBViolations := 0 |} ]}.
Proof.
  intros h. destruct (victims_survive_the_extender (fun _ => None) exampleService map_to_list (fun m => reflexivity _) h oneBusyNode)
    as [Hback _].
  rewrite Hback; [rewrite map_fmap_singleton; reflexivity|].
  intros name v Hv. apply lookup_singleton_Some in Hv as [<- <-]. eexists. split; [reflexivity|]. split.
  - unfold uniqueUIDs. change (pi_Pod <$> _) with [examplePod1].
    intros p q Hp%list_elem_of_singleton Hq%list_elem_of_singleton _. by rewrite Hp, Hq.
  - intros p Hp. exact Hp.
Defined.
