(* ===== verification/Histogram.v ===== *)
(** * Histograms (recommender/util/histogram.go, histogram_options.go, decaying_histogram.go)

    The distributions of the resource usage that the recommender aggregates: weights of
    type [float64] per bucket, the decaying variant that weighs a sample by its age, and
    the checkpoints they are saved to.  A method that changes its receiver is a [stateM]
    of it; a Go panic (explicit, or an index out of range) is [Panic]. *)
From Stdlib Require Import SpecFloat.
From S2P Require Import Prelude Float64.
Local Open Scope Z_scope.

(** Times are nanoseconds since the zero [time.Time] (year 1), durations nanoseconds. *)
Abbreviation Time := Z.
Abbreviation Duration := Z.

(** [t.Sub(u)]: a difference that does not fit in a Duration is clamped. *)
Definition timeSub (t u : Time) : Duration := Z.max min_int64 (Z.min max_int64 (t - u)).

(** [t.Round(d)]: the nearest multiple of [d] since the zero time, halfway values up. *)
Definition timeRound (t : Time) (d : Duration) : Time :=
  if d <=? 0 then t
  else let r := t mod d in if r + r <? d then t - r else t + (d - r).

(** ** Options: the bucketing scheme

    The methods of the interface [HistogramOptions] on its two implementations.  A
    histogram compares the options by pointer: [loc] is the address. *)
Record linearHistogramOptions := { lin_numBuckets : Z; bucketSize : float64; lin_epsilon : float64 }.
Record exponentialHistogramOptions := {
  exp_numBuckets : Z;
  firstBucketSize : float64;
  ratio : float64;
  exp_epsilon : float64
}.

Inductive optionsKind :=
  | Linear (o : linearHistogramOptions)
  | Exponential (o : exponentialHistogramOptions).

Record HistogramOptions := { loc : nat; kind : optionsKind }.

Section Options.
Context `{MathLib}.

(** [log(base, x)] *)
Definition log (base x : float64) : float64 := fdiv (math_Log x) (math_Log base).

Definition NewLinearHistogramOptions (maxValue bucketSize epsilon : float64) : option linearHistogramOptions :=
  if fle maxValue fzero || fle bucketSize fzero || fle epsilon fzero then None
  else Some {| lin_numBuckets := wrap64 (toInt (fceil (fdiv maxValue bucketSize)) + 1);
               bucketSize := bucketSize; lin_epsilon := epsilon |}.

Definition NewExponentialHistogramOptions (maxValue firstBucketSize ratio epsilon : float64)
    : option exponentialHistogramOptions :=
  if fle maxValue fzero || fle firstBucketSize fzero || fle ratio fone || fle epsilon fzero then None
  else
    let x := fadd (fdiv (fmul maxValue (fsub ratio fone)) firstBucketSize) fone in
    Some {| exp_numBuckets := wrap64 (toInt (fceil (log ratio x)) + 1);
            firstBucketSize := firstBucketSize; ratio := ratio; exp_epsilon := epsilon |}.

Definition NumBuckets (o : HistogramOptions) : Z :=
  match kind o with Linear o => lin_numBuckets o | Exponential o => exp_numBuckets o end.

Definition linearFindBucket (o : linearHistogramOptions) (value : float64) : Z :=
  let bucket := toInt (fdiv value (bucketSize o)) in
  if bucket <? 0 then 0 else if lin_numBuckets o <=? bucket then lin_numBuckets o - 1 else bucket.

Definition exponentialFindBucket (o : exponentialHistogramOptions) (value : float64) : Z :=
  if flt value (firstBucketSize o) then 0
  else
    let x := fadd (fdiv (fmul value (fsub (ratio o) fone)) (firstBucketSize o)) fone in
    let bucket := toInt (log (ratio o) x) in
    if exp_numBuckets o <=? bucket then exp_numBuckets o - 1 else bucket.

Definition FindBucket (o : HistogramOptions) (value : float64) : Z :=
  match kind o with
  | Linear o => linearFindBucket o value
  | Exponential o => exponentialFindBucket o value
  end.

(** [None]: the index is out of range, a panic. *)
Definition linearGetBucketStart (o : linearHistogramOptions) (bucket : Z) : option float64 :=
  if (bucket <? 0) || (lin_numBuckets o <=? bucket) then None
  else Some (fmul (ofInt bucket) (bucketSize o)).

Definition exponentialGetBucketStart (o : exponentialHistogramOptions) (bucket : Z) : option float64 :=
  if (bucket <? 0) || (exp_numBuckets o <=? bucket) then None
  else if bucket =? 0 then Some fzero
  else Some (fdiv (fmul (firstBucketSize o) (fsub (math_Pow (ratio o) (ofInt bucket)) fone)) (fsub (ratio o) fone)).

Definition GetBucketStart (o : HistogramOptions) (bucket : Z) : option float64 :=
  match kind o with
  | Linear o => linearGetBucketStart o bucket
  | Exponential o => exponentialGetBucketStart o bucket
  end.

Definition Epsilon (o : HistogramOptions) : float64 :=
  match kind o with Linear o => lin_epsilon o | Exponential o => exp_epsilon o end.
End Options.

(** ** The histogram *)
Record histogram := mkHistogram {
  options : HistogramOptions;
  bucketWeight : list float64;
  totalWeight : float64;
  minBucket : Z;
  maxBucket : Z
}.

Definition setWeights w h := mkHistogram (options h) w (totalWeight h) (minBucket h) (maxBucket h).
Definition setTotal t h := mkHistogram (options h) (bucketWeight h) t (minBucket h) (maxBucket h).
Definition setMin b h := mkHistogram (options h) (bucketWeight h) (totalWeight h) b (maxBucket h).
Definition setMax b h := mkHistogram (options h) (bucketWeight h) (totalWeight h) (minBucket h) b.

Definition NewHistogram (o : HistogramOptions) : histogram := {|
  options := o;
  bucketWeight := replicate (Z.to_nat (NumBuckets o)) fzero;
  totalWeight := fzero;
  minBucket := NumBuckets o - 1;
  maxBucket := 0
|}.

(** [h.bucketWeight[b]]; [None] is the panic of an index out of range. *)
Definition weight (h : histogram) (b : Z) : option float64 :=
  if 0 <=? b then bucketWeight h !! Z.to_nat b else None.

(** The errors of [LoadFromCheckpoint]. *)
Inductive checkpointError :=
  | EmptyCheckpoint
  | NegativeTotalWeight
  | BucketExceeds (bucket : Z)
  | NegativeBucket (bucket : Z).

Abbreviation method := (stateM histogram checkpointError).

(** Reading a bucket. *)
Definition readWeight (b : Z) : method float64 := fun h =>
  match weight h b with Some w => (Ok w, h) | None => (Panic, h) end.

(** [h.bucketWeight[b] = f(h.bucketWeight[b])] *)
Definition updateWeight (b : Z) (f : float64 -> float64) : method unit :=
  w ← readWeight b;
  modify (fun h => setWeights (<[Z.to_nat b := f w]> (bucketWeight h)) h).

(** [for bucket := lo; bucket <= hi; bucket++ { body }], the bounds read once. *)
Definition forBuckets {S E} (lo hi : Z) (body : Z -> stateM S E unit) : stateM S E unit :=
  foldr (fun b k => body b ≫= fun _ => k) (mret tt) (seqZ lo (hi + 1 - lo)).

Section Methods.
Context `{MathLib}.

Definition histAddSample (value w : float64) : method unit :=
  if flt w fzero then panic
  else
    h ← get;
    let bucket := FindBucket (options h) value in
    updateWeight bucket (fun x => fadd x w);;
    modify (fun h => setTotal (fadd (totalWeight h) w) h);;
    h ← get;
    now ← readWeight bucket;
    (if (bucket <? minBucket h) && fle (Epsilon (options h)) now then modify (setMin bucket) else mret tt);;
    (if (maxBucket h <? bucket) && fle (Epsilon (options h)) now then modify (setMax bucket) else mret tt).

Definition safeSubtract (value sub epsilon : float64) : float64 :=
  let value := fsub value sub in
  if flt value epsilon then fzero else value.

(** The two loops of [updateMinAndMaxBucket]; there are [NumBuckets] buckets to step over. *)
Fixpoint raiseMin (fuel : nat) : method unit :=
  match fuel with
  | O => mret tt
  | S n =>
      h ← get;
      w ← readWeight (minBucket h);
      if flt w (Epsilon (options h)) && (minBucket h <? NumBuckets (options h) - 1)
      then modify (setMin (minBucket h + 1));; raiseMin n
      else mret tt
  end.

Fixpoint lowerMax (fuel : nat) : method unit :=
  match fuel with
  | O => mret tt
  | S n =>
      h ← get;
      w ← readWeight (maxBucket h);
      if flt w (Epsilon (options h)) && (0 <? maxBucket h)
      then modify (setMax (maxBucket h - 1));; lowerMax n
      else mret tt
  end.

Definition updateMinAndMaxBucket : method unit :=
  h ← get;
  raiseMin (length (bucketWeight h));;
  lowerMax (length (bucketWeight h)).

Definition histSubtractSample (value w : float64) : method unit :=
  if flt w fzero then panic
  else
    h ← get;
    let bucket := FindBucket (options h) value in
    let epsilon := Epsilon (options h) in
    modify (fun h => setTotal (safeSubtract (totalWeight h) w epsilon) h);;
    updateWeight bucket (fun x => safeSubtract x w epsilon);;
    updateMinAndMaxBucket.

(** [h.Merge(o)] of two histograms that are not the same object. *)
Definition histMerge (o : histogram) : method unit :=
  h ← get;
  if decide (loc (options h) <> loc (options o)) then panic
  else
    forBuckets (minBucket o) (maxBucket o) (fun b =>
      match weight o b with
      | Some w => updateWeight b (fun x => fadd x w)
      | None => panic
      end);;
    modify (fun h => setTotal (fadd (totalWeight h) (totalWeight o)) h);;
    modify (fun h => if minBucket o <? minBucket h then setMin (minBucket o) h else h);;
    modify (fun h => if maxBucket h <? maxBucket o then setMax (maxBucket o) h else h).

Definition scale (factor : float64) : method unit :=
  if flt factor fzero then panic
  else
    h ← get;
    forBuckets (minBucket h) (maxBucket h) (fun b => updateWeight b (fun x => fmul x factor));;
    modify (fun h => setTotal (fmul (totalWeight h) factor) h);;
    updateMinAndMaxBucket.

(** The methods that only read: [None] is a panic. *)
Definition IsEmpty (h : histogram) : option bool :=
  w ← weight h (minBucket h);
  Some (flt w (Epsilon (options h))).

(** The loop of [Percentile] from [bucket] on: the first bucket up to [maxBucket - 1] at
    which the partial sum reaches the threshold, or [maxBucket]. *)
Fixpoint reachBucket (h : histogram) (threshold partialSum : float64) (bucket : Z) (fuel : nat) : option Z :=
  match fuel with
  | O => Some bucket
  | S n =>
      if bucket <? maxBucket h then
        w ← weight h bucket;
        let partialSum := fadd partialSum w in
        if fle threshold partialSum then Some bucket
        else reachBucket h threshold partialSum (bucket + 1) n
      else Some bucket
  end.

Definition histPercentile (h : histogram) (percentile : float64) : option float64 :=
  empty ← IsEmpty h;
  if (empty : bool) then Some fzero
  else
    let threshold := fmul percentile (totalWeight h) in
    bucket ← reachBucket h threshold fzero (minBucket h) (length (bucketWeight h));
    if bucket <? NumBuckets (options h) - 1
    then GetBucketStart (options h) (bucket + 1)
    else GetBucketStart (options h) bucket.

(** [1e-15] *)
Definition tolerance : float64 := fdiv fone (ofInt (10 ^ 15)).

Definition histEquals (h h2 : histogram) : option bool :=
  if bool_decide (loc (options h) <> loc (options h2)) || negb (minBucket h =? minBucket h2)
     || negb (maxBucket h =? maxBucket h2)
  then Some false
  else foldr (fun b k =>
         w ← weight h b;
         w2 ← weight h2 b;
         let diff := fsub w w2 in
         if flt tolerance diff || flt diff (fopp tolerance) then Some false else k)
       (Some true) (seqZ (minBucket h) (maxBucket h + 1 - minBucket h)).

(** ** Checkpoints *)
Definition MaxCheckpointWeight : Z := 10000.

Record HistogramCheckpoint := {
  ReferenceTimestamp : Time;
  BucketWeights : gmap Z Z;
  TotalWeight : float64
}.

(** [round(x)] of decaying_histogram.go *)
Definition round (x : float64) : Z := toInt (ffloor (fadd x (fdiv fone (ofInt 2)))).

(** [uint32(z)] *)
Definition uint32 (z : Z) : Z := z mod 2 ^ 32.

(** The heaviest of the buckets that are saved. *)
Definition maxWeight (h : histogram) (buckets : list Z) : option float64 :=
  foldl (fun acc b => m ← acc; w ← weight h b; Some (if flt m w then w else m)) (Some fzero) buckets.

Definition newWeight (rat w : float64) : Z := uint32 (round (fmul w rat)).

Definition saveWeights (h : histogram) (rat : float64) (buckets : list Z) : option (gmap Z Z) :=
  foldl (fun acc b =>
    m ← acc; w ← weight h b;
    Some (if 0 <? newWeight rat w then <[b := newWeight rat w]> m else m)) (Some ∅) buckets.

Definition histSaveToCheckpoint (h : histogram) : option HistogramCheckpoint :=
  let buckets := seqZ (minBucket h) (maxBucket h + 1 - minBucket h) in
  heaviest ← maxWeight h buckets;
  let rat := fdiv (ofInt MaxCheckpointWeight) heaviest in
  weights ← saveWeights h rat buckets;
  Some {| ReferenceTimestamp := 0; BucketWeights := weights; TotalWeight := totalWeight h |}.

(** The validation loop of [LoadFromCheckpoint], with the sum of the weights.  The order
    of the buckets is that of the map's iteration: which of several bad buckets the error
    names depends on it. *)
Fixpoint checkBuckets (n : Z) (l : list (Z * Z)) (sum : Z) : result checkpointError Z :=
  match l with
  | [] => Ok sum
  | (bucket, w) :: l =>
      let sum := wrap64 (sum + w) in
      if n <=? bucket then Err (BucketExceeds bucket)
      else if bucket <? 0 then Err (NegativeBucket bucket)
      else checkBuckets n l sum
  end.

Definition loadBucket (rat : float64) (kv : Z * Z) : method unit :=
  let '(bucket, w) := kv in
  modify (fun h => if bucket <? minBucket h then setMin bucket h else h);;
  modify (fun h => if maxBucket h <? bucket then setMax bucket h else h);;
  updateWeight bucket (fun x => fadd x (fmul (ofInt w) rat)).

Definition loadBuckets (rat : float64) (l : list (Z * Z)) : method unit :=
  foldr (fun kv k => loadBucket rat kv ≫= fun _ => k) (mret tt) l.

Definition histLoadFromCheckpoint (checkpoint : option HistogramCheckpoint) : method unit :=
  match checkpoint with
  | None => fail EmptyCheckpoint
  | Some c =>
      if flt (TotalWeight c) fzero then fail NegativeTotalWeight
      else
        h ← get;
        sum ← ofResult (checkBuckets (NumBuckets (options h)) (map_to_list (BucketWeights c)) 0);
        if sum =? 0 then mret tt
        else
          let rat := fdiv (TotalWeight c) (ofInt sum) in
          loadBuckets rat (map_to_list (BucketWeights c));;
          modify (fun h => setTotal (fadd (totalWeight h) (TotalWeight c)) h)
  end.
End Methods.

(** ** The decaying histogram *)
Record decayingHistogram := mkDecaying {
  hist : histogram;
  halfLife : Duration;
  referenceTimestamp : Time
}.

Definition NewDecayingHistogram (o : HistogramOptions) (halfLife : Duration) : decayingHistogram := {|
  hist := NewHistogram o;
  halfLife := halfLife;
  referenceTimestamp := 0
|}.

Abbreviation decayingMethod := (stateM decayingHistogram checkpointError).

(** A call of a method of the embedded histogram. *)
Definition onHist {A} (m : method A) : decayingMethod A := fun d =>
  let '(r, h) := m (hist d) in (r, mkDecaying h (halfLife d) (referenceTimestamp d)).

Definition setReference (t : Time) : decayingMethod unit :=
  modify (fun d => mkDecaying (hist d) (halfLife d) t).

Definition maxDecayExponent : Z := 100.

Section DecayingMethods.
Context `{MathLib}.

Definition shiftReferenceTimestamp (newreferenceTimestamp : Time) : decayingMethod unit :=
  d ← get;
  let newref := timeRound newreferenceTimestamp (halfLife d) in
  let exponent := round (fdiv (ofInt (timeSub (referenceTimestamp d) newref)) (ofInt (halfLife d))) in
  onHist (scale (Ldexp fone exponent));;
  setReference newref.

(** The greatest timestamp before the exponent grows too large. *)
Definition maxAllowedTimestamp (d : decayingHistogram) : Time :=
  referenceTimestamp d + wrap64 (halfLife d * maxDecayExponent).

Definition decayFactor (timestamp : Time) : decayingMethod float64 :=
  d ← get;
  (if maxAllowedTimestamp d <? timestamp then shiftReferenceTimestamp timestamp else mret tt);;
  d ← get;
  mret (math_Exp2 (fdiv (ofInt (timeSub timestamp (referenceTimestamp d))) (ofInt (halfLife d)))).

Definition AddSample (value w : float64) (time : Time) : decayingMethod unit :=
  factor ← decayFactor time;
  onHist (histAddSample value (fmul w factor)).

Definition SubtractSample (value w : float64) (time : Time) : decayingMethod unit :=
  factor ← decayFactor time;
  onHist (histSubtractSample value (fmul w factor)).

(** [h.Merge(o)] of two different histograms: [o]'s reference may be shifted too. *)
Definition Merge : stateM (decayingHistogram * decayingHistogram) checkpointError unit := fun '(d, o) =>
  if negb (halfLife d =? halfLife o) then (Panic, (d, o))
  else
    let '(r, d, o) :=
      if referenceTimestamp d <? referenceTimestamp o then
        let '(r, d) := shiftReferenceTimestamp (referenceTimestamp o) d in (r, d, o)
      else if referenceTimestamp o <? referenceTimestamp d then
        let '(r, o) := shiftReferenceTimestamp (referenceTimestamp d) o in (r, d, o)
      else (Ok tt, d, o) in
    match r with
    | Ok _ => let '(r, d) := onHist (histMerge (hist o)) d in (r, (d, o))
    | _ => (r, (d, o))
    end.

Definition Percentile (d : decayingHistogram) (percentile : float64) : option float64 :=
  histPercentile (hist d) percentile.

Definition Equals (d d2 : decayingHistogram) : option bool :=
  if (halfLife d =? halfLife d2) && (referenceTimestamp d =? referenceTimestamp d2)
  then histEquals (hist d) (hist d2)
  else Some false.

Definition decayingIsEmpty (d : decayingHistogram) : option bool := IsEmpty (hist d).

Definition SaveToCheckpoint (d : decayingHistogram) : option HistogramCheckpoint :=
  c ← histSaveToCheckpoint (hist d);
  Some {| ReferenceTimestamp := referenceTimestamp d; BucketWeights := BucketWeights c; TotalWeight := TotalWeight c |}.

(** [histLoadFromCheckpoint] has refused a nil checkpoint. *)
Definition LoadFromCheckpoint (checkpoint : option HistogramCheckpoint) : decayingMethod unit :=
  onHist (histLoadFromCheckpoint checkpoint);;
  match checkpoint with
  | Some c => setReference (ReferenceTimestamp c)
  | None => panic
  end.
End DecayingMethods.

(** ** Finite examples *)
Section Examples.

#[local] Existing Instance exampleMath.

Let opts : HistogramOptions :=
  {| loc := 0; kind := Linear {| lin_numBuckets := 5; bucketSize := ofInt 10; lin_epsilon := fdiv fone (ofInt 1000) |} |}.

Let filled : histogram :=
  snd ((histAddSample (ofInt 35) (ofInt 1) ≫= fun _ => histAddSample (ofInt 12) (ofInt 3)) (NewHistogram opts)).

Example filled_buckets : (minBucket filled, maxBucket filled, toInt (totalWeight filled)) = (1, 3, 4).
Proof. vm_compute. reflexivity. Qed.
Example filled_median : toInt <$> histPercentile filled (fdiv fone (ofInt 2)) = Some 20.
Proof. vm_compute. reflexivity. Qed.
Example filled_top : toInt <$> histPercentile filled fone = Some 40.
Proof. vm_compute. reflexivity. Qed.
Example filled_saved : BucketWeights <$> histSaveToCheckpoint filled = Some {[ 1 := 10000; 3 := 3333 ]}.
Proof. vm_compute. reflexivity. Qed.
Example emptied : IsEmpty (snd (histSubtractSample (ofInt 35) (ofInt 1) (snd (histSubtractSample (ofInt 12) (ofInt 3) filled)))) = Some true.
Proof. vm_compute. reflexivity. Qed.
End Examples.
