(* ===== verification/HistogramSpec.v ===== *)
(** * What the histograms promise

    The invariant that the comments of histogram.go state (the first and the last
    non-empty bucket), the functional behaviour of the percentile, and the checkpoints. *)
From Stdlib Require Import SpecFloat.
From S2P Require Import Prelude Float64 Float64Facts Histogram.
Local Open Scope Z_scope.

(** ** The invariant *)
Definition positiveFloat (x : float64) : Prop := valid x /\ flt fzero x = true.

(** The interface a bucketing scheme has to offer to the histogram. *)
Record optionsOk (o : HistogramOptions) : Prop := {
  oo_buckets : 0 < NumBuckets o;
  oo_epsilon : positiveFloat (Epsilon o)
}.

Definition placed `{MathLib} (o : HistogramOptions) (value : float64) : Prop :=
  0 <= FindBucket o value < NumBuckets o.

Section Invariant.

(** "A bucket is considered empty if its weight is smaller than options.Epsilon()." *)
Definition emptyWeight (h : histogram) (w : float64) : Prop := flt w (Epsilon (options h)) = true.
#[export] Instance emptyWeight_dec h w : Decision (emptyWeight h w).
Proof. unfold emptyWeight. apply _. Defined.

Record InBounds (h : histogram) : Prop := {
  ib_options : optionsOk (options h);
  ib_length : length (bucketWeight h) = Z.to_nat (NumBuckets (options h));
  ib_min : 0 <= minBucket h < NumBuckets (options h);
  ib_max : 0 <= maxBucket h < NumBuckets (options h);
  ib_weights : forall b w, weight h b = Some w -> isWeight w
}.

(** [minBucket]: "Index of the first non-empty bucket if there's any. Otherwise index of
    the last bucket."  [maxBucket]: "Index of the last non-empty bucket if there's any.
    Otherwise 0." *)
Definition Below (h : histogram) : Prop := forall b w, b < minBucket h -> weight h b = Some w -> emptyWeight h w.
Definition Above (h : histogram) : Prop := forall b w, maxBucket h < b -> weight h b = Some w -> emptyWeight h w.
Definition MinOk (h : histogram) : Prop := forall w, weight h (minBucket h) = Some w ->
  ~ emptyWeight h w \/ minBucket h = NumBuckets (options h) - 1.
Definition MaxOk (h : histogram) : Prop := forall w, weight h (maxBucket h) = Some w ->
  ~ emptyWeight h w \/ maxBucket h = 0.

Record Tight (h : histogram) : Prop := { ti_below : Below h; ti_above : Above h; ti_min : MinOk h; ti_max : MaxOk h }.

Definition wf (h : histogram) : Prop := InBounds h /\ Tight h.

(** ** Buckets *)
Lemma weight_Some h b : InBounds h -> 0 <= b < NumBuckets (options h) -> exists w, weight h b = Some w /\ isWeight w.
Proof.
  intros Hib Hb. unfold weight. rewrite (proj2 (Z.leb_le 0 b)) by lia.
  destruct (lookup_lt_is_Some_2 (bucketWeight h) (Z.to_nat b)) as [w Hw]; [rewrite (ib_length _ Hib); lia|].
  exists w. split; [done|]. apply (ib_weights _ Hib b). unfold weight. by rewrite (proj2 (Z.leb_le 0 b)) by lia.
Qed.

Lemma weight_range h b w : InBounds h -> weight h b = Some w -> 0 <= b < NumBuckets (options h).
Proof.
  intros Hib. unfold weight. destruct (Z.leb_spec 0 b); [|done]. intros Hw%lookup_lt_Some.
  rewrite (ib_length _ Hib) in Hw. lia.
Qed.

(** The histogram with [f] applied to the bucket [b]. *)
Definition withWeight (h : histogram) (b : Z) (w : float64) : histogram :=
  setWeights (<[Z.to_nat b := w]> (bucketWeight h)) h.

Definition sized (h : histogram) : Prop := length (bucketWeight h) = Z.to_nat (NumBuckets (options h)).

Lemma sized_weight h b : sized h -> 0 <= b < NumBuckets (options h) <-> is_Some (weight h b).
Proof.
  intros Hs. unfold weight. destruct (Z.leb_spec 0 b); [|split; [lia|by intros []]].
  rewrite lookup_lt_is_Some, Hs. lia.
Qed.

Lemma sized_with h b w b' : sized h -> 0 <= b < NumBuckets (options h) ->
  weight (withWeight h b w) b' = if decide (b' = b) then Some w else weight h b'.
Proof.
  intros Hs Hb. unfold weight, withWeight. simpl. case_decide as E; [subst b'|].
  - rewrite (proj2 (Z.leb_le 0 b)) by lia. apply list_lookup_insert_eq. rewrite Hs. lia.
  - destruct (Z.leb_spec 0 b'); [|done]. apply list_lookup_insert_ne. lia.
Qed.

Lemma weight_with h b w b' : InBounds h -> 0 <= b < NumBuckets (options h) ->
  weight (withWeight h b w) b' = if decide (b' = b) then Some w else weight h b'.
Proof. intros Hib. apply sized_with, Hib. Qed.

Lemma inBounds_with h b w : InBounds h -> 0 <= b < NumBuckets (options h) -> isWeight w -> InBounds (withWeight h b w).
Proof.
  intros Hib Hb Hw. constructor; try apply Hib.
  - simpl. rewrite length_insert. apply Hib.
  - intros b' w'. rewrite weight_with by done. case_decide; [by intros [= <-]|]. apply Hib.
Qed.

Lemma inBounds_setMin h b : InBounds h -> 0 <= b < NumBuckets (options h) -> InBounds (setMin b h).
Proof. intros Hib Hb. by constructor; try apply Hib. Qed.
Lemma inBounds_setMax h b : InBounds h -> 0 <= b < NumBuckets (options h) -> InBounds (setMax b h).
Proof. intros Hib Hb. by constructor; try apply Hib. Qed.
Lemma inBounds_setTotal h t : InBounds h -> InBounds (setTotal t h).
Proof. intros Hib. by constructor; try apply Hib. Qed.
End Invariant.

(** ** Rules for the steps of a method *)
Lemma runs_readWeight h b Φ w : weight h b = Some w -> Φ w h -> runs (readWeight b) h Φ.
Proof. intros Hw HΦ. exists w, h. unfold readWeight. by rewrite Hw. Qed.

Lemma runs_updateWeight h b f w Φ :
  weight h b = Some w -> Φ tt (withWeight h b (f w)) -> runs (updateWeight b f) h Φ.
Proof.
  intros Hw HΦ. unfold updateWeight. run_step. apply (runs_readWeight _ _ _ w Hw). by run_step.
Qed.

(** A conditional assignment. *)
Lemma runs_when {S E} (c : bool) (f : S -> S) (s : S) (Φ : unit -> S -> Prop) :
  Φ tt (if c then f s else s) -> runs (E := E) (if c then modify f else mret tt) s Φ.
Proof. intros HΦ. destruct c; [by apply runs_modify|by apply runs_ret]. Qed.

(** A loop over buckets: an invariant indexed by the next bucket. *)
Lemma runs_forBuckets {S E} lo hi (body : Z -> stateM S E unit) (I : Z -> S -> Prop) s (Φ : unit -> S -> Prop) :
  I lo s ->
  (forall b s', lo <= b <= hi -> I b s' -> runs (body b) s' (fun _ => I (b + 1))) ->
  (forall s', I (Z.max lo (hi + 1)) s' -> Φ tt s') ->
  runs (forBuckets lo hi body) s Φ.
Proof.
  intros HI Hbody HΦ. unfold forBuckets.
  remember (Z.to_nat (hi + 1 - lo)) as n eqn:En. revert lo s HI Hbody HΦ En.
  induction n as [|n IH]; intros lo s HI Hbody HΦ En.
  - rewrite seqZ_nil by lia. apply runs_ret, HΦ. by replace (Z.max lo (hi + 1)) with lo by lia.
  - rewrite seqZ_cons by lia. cbn [foldr]. run_step. eapply runs_mono; [apply Hbody; [lia|done]|].
    intros [] s' HI'. replace (Z.pred (hi + 1 - lo)) with (hi + 1 - Z.succ lo) by lia.
    apply (IH (Z.succ lo)); [by replace (Z.succ lo) with (lo + 1) by lia| | |lia].
    + intros b s'' Hb. apply Hbody. lia.
    + intros s'' Hs. apply HΦ. by replace (Z.max lo (hi + 1)) with (Z.max (Z.succ lo) (hi + 1)) by lia.
Qed.

Section Operations.
Context `{MathLib}.

(** ** [AddSample] *)
Lemma numeric_cmp x y : isNum x -> isNum y -> flt x y = true \/ fle y x = true.
Proof. intros Hx Hy. rewrite flt_negb_fle by done. destruct (fle y x); auto. Qed.

Lemma not_empty_le h w : InBounds h -> isWeight w -> ~ emptyWeight h w <-> fle (Epsilon (options h)) w = true.
Proof.
  intros Hib Hw. unfold emptyWeight. rewrite flt_negb_fle.
  - destruct (fle (Epsilon (options h)) w); simpl; naive_solver.
  - by apply weight_num.
  - intros E. pose proof (oo_epsilon _ (ib_options _ Hib)) as [_ He]. by rewrite E in He.
Qed.

(** The assignments at the end of [AddSample], for a bucket that weighs [now]. *)
Definition noteBucket (b : Z) (now : float64) (h : histogram) : histogram :=
  let h' := if (b <? minBucket h) && fle (Epsilon (options h)) now then setMin b h else h in
  if (maxBucket h <? b) && fle (Epsilon (options h)) now then setMax b h' else h'.

Lemma noteBucket_full h b w : fle (Epsilon (options h)) w = true ->
  noteBucket b w h = setMax (Z.max b (maxBucket h)) (setMin (Z.min b (minBucket h)) h).
Proof.
  intros Hle. unfold noteBucket. rewrite Hle, !andb_true_r. destruct h as [o ws t mn mx]. cbn in *.
  destruct (Z.ltb_spec b mn), (Z.ltb_spec mx b); unfold setMin, setMax; cbn; f_equal; lia.
Qed.

Lemma noteBucket_empty h b w : fle (Epsilon (options h)) w = false -> noteBucket b w h = h.
Proof. intros Hle. unfold noteBucket. by rewrite Hle, !andb_false_r. Qed.

Lemma noteBucket_frame h b w : options (noteBucket b w h) = options h /\
  totalWeight (noteBucket b w h) = totalWeight h /\ bucketWeight (noteBucket b w h) = bucketWeight h.
Proof. unfold noteBucket. by repeat case_match. Qed.

(** A bucket whose weight changes to [w], seen from the buckets. *)
Lemma with_cases h b w b' w' : InBounds h -> 0 <= b < NumBuckets (options h) ->
  weight (withWeight h b w) b' = Some w' -> (b' = b /\ w' = w) \/ (b' <> b /\ weight h b' = Some w').
Proof. intros Hib Hb. rewrite weight_with by done. case_decide; [intros [= <-]; by left|by right]. Qed.

(** The bucket is not empty: it is inside the bounds after [noteBucket]. *)
Lemma wf_with_full h b w : wf h -> 0 <= b < NumBuckets (options h) -> isWeight w -> ~ emptyWeight h w ->
  wf (setMax (Z.max b (maxBucket h)) (setMin (Z.min b (minBucket h)) (withWeight h b w))).
Proof.
  intros [Hib Hti] Hb Hw Hne. pose proof (ib_min _ Hib). pose proof (ib_max _ Hib). split.
  { apply inBounds_setMax; [apply inBounds_setMin; [by apply inBounds_with|cbn; lia]|cbn; lia]. }
  constructor; unfold Below, Above, MinOk, MaxOk; cbn.
  - intros b' w' Hlt [[-> _]|[_ Hw']]%with_cases; [lia| |done..]. apply (ti_below _ Hti b'); [lia|done].
  - intros b' w' Hlt [[-> _]|[_ Hw']]%with_cases; [lia| |done..]. apply (ti_above _ Hti b'); [lia|done].
  - intros w' [[_ ->]|[Hd Hw']]%with_cases; [by left| |done..]. cbn in *.
    replace (b `min` minBucket h) with (minBucket h) in * by lia. by apply (ti_min _ Hti).
  - intros w' [[_ ->]|[Hd Hw']]%with_cases; [by left| |done..]. cbn in *.
    replace (b `max` maxBucket h) with (maxBucket h) in * by lia. by apply (ti_max _ Hti).
Qed.

(** The bucket was empty and stays so. *)
Lemma wf_with_empty h b w0 w : wf h -> 0 <= b < NumBuckets (options h) -> isWeight w ->
  weight h b = Some w0 -> emptyWeight h w0 -> emptyWeight h w -> wf (withWeight h b w).
Proof.
  intros [Hib Hti] Hb Hw Hw0 He0 He. split; [by apply inBounds_with|]. constructor.
  - intros b' w' Hlt [[_ ->]|[_ Hw']]%with_cases; [done| |done..]. by apply (ti_below _ Hti b').
  - intros b' w' Hlt [[_ ->]|[_ Hw']]%with_cases; [done| |done..]. by apply (ti_above _ Hti b').
  - intros w' [[E ->]|[_ Hw']]%with_cases; [|by apply (ti_min _ Hti)|done..]. cbn in E.
    destruct (ti_min _ Hti w0); [by rewrite E|done|by right].
  - intros w' [[E ->]|[_ Hw']]%with_cases; [|by apply (ti_max _ Hti)|done..]. cbn in E.
    destruct (ti_max _ Hti w0); [by rewrite E|done|by right].
Qed.

(** A bucket whose weight grows from [w0] to [w]. *)
Lemma noteBucket_wf h b w0 w : wf h -> 0 <= b < NumBuckets (options h) ->
  weight h b = Some w0 -> isWeight w -> fle w0 w = true -> wf (noteBucket b w (withWeight h b w)).
Proof.
  intros Hwf Hb Hw0 Hw Hle. pose proof (proj1 Hwf) as Hib.
  destruct (fle (Epsilon (options h)) w) eqn:Eb.
  - rewrite noteBucket_full by done. apply (wf_with_full h b w); [done..|]. by apply (not_empty_le h).
  - rewrite noteBucket_empty by done.
    assert (Hnot : forall x, isWeight x -> fle (Epsilon (options h)) x = false -> emptyWeight h x).
    { intros x Hx Hf. destruct (decide (flt x (Epsilon (options h)) = true)) as [|Hn]; [done|].
      apply (not_empty_le h) in Hn; [congruence|done..]. }
    apply (wf_with_empty _ _ w0); [done..| |by apply Hnot].
    apply Hnot; [by apply (ib_weights _ Hib b)|]. destruct (fle (Epsilon (options h)) w0) eqn:E0; [|done].
    by rewrite (fle_trans _ w0 w) in Eb.
Qed.

Lemma wf_setTotal h t : wf h -> wf (setTotal t h).
Proof. intros [Hib Hti]. split; [by apply inBounds_setTotal|]. constructor; apply Hti. Qed.

Lemma add_wf h value w : wf h -> placed (options h) value -> isWeight w ->
  runs (histAddSample value w) h (fun _ h' => wf h' /\ options h' = options h /\
    totalWeight h' = fadd (totalWeight h) w /\
    exists w0, weight h (FindBucket (options h) value) = Some w0 /\
      forall b, weight h' b = weight (withWeight h (FindBucket (options h) value) (fadd w0 w)) b).
Proof.
  intros Hwf Hpl Hw. destruct (weight_Some h (FindBucket (options h) value) (proj1 Hwf) Hpl) as (w0&Hw0&Hww0).
  set (b := FindBucket (options h) value) in *. unfold histAddSample.
  replace (flt w fzero) with false by (rewrite flt_negb_fle by (done || by apply weight_num); by rewrite (proj2 Hw)).
  run_step. run_step. run_step. apply (runs_updateWeight _ _ _ w0); [done|]. do 4 run_step.
  assert (Hwb : weight (setTotal (fadd (totalWeight h) w) (withWeight h b (fadd w0 w))) b = Some (fadd w0 w)).
  { change (weight (withWeight h b (fadd w0 w)) b = Some (fadd w0 w)). rewrite weight_with by (done || apply Hwf). by rewrite decide_True. }
  run_step. apply (runs_readWeight _ _ _ (fadd w0 w)); [done|]. run_step. apply runs_when. apply runs_when.
  set (h1 := setTotal _ _) in *. change (options h1) with (options h) in *. fold b.
  change (wf (noteBucket b (fadd w0 w) h1) /\ options (noteBucket b (fadd w0 w) h1) = options h /\
    totalWeight (noteBucket b (fadd w0 w) h1) = totalWeight h1 /\
    exists w1, weight h b = Some w1 /\ forall b', weight (noteBucket b (fadd w0 w) h1) b' = weight (withWeight h b (fadd w1 w)) b').
  destruct (noteBucket_frame h1 b (fadd w0 w)) as (Ho&Ht&Hb). split_and!; [|done..|].
  - apply (noteBucket_wf (setTotal (fadd (totalWeight h) w) h) b w0); [by apply wf_setTotal|done..|by apply fadd_weight|by apply fadd_ge_l].
  - exists w0. split; [done|]. intros b'. unfold weight at 1. by rewrite Hb.
Qed.

(** ** [updateMinAndMaxBucket] *)
Lemma raiseMin_runs fuel : forall h, InBounds h -> Below h -> NumBuckets (options h) - 1 - minBucket h < Z.of_nat fuel ->
  runs (raiseMin fuel) h (fun _ h' => InBounds h' /\ Below h' /\ MinOk h' /\ exists b, h' = setMin b h).
Proof.
  induction fuel as [|n IH]; intros h Hib Hb Hn; [pose proof (ib_min _ Hib); lia|].
  destruct (weight_Some h (minBucket h) Hib (ib_min _ Hib)) as (w&Hw&_).
  cbn [raiseMin]. do 2 run_step. run_step. apply (runs_readWeight _ _ _ w Hw).
  pose proof (ib_min _ Hib) as Hm.
  destruct (flt w (Epsilon (options h))) eqn:He; [destruct (Z.ltb_spec (minBucket h) (NumBuckets (options h) - 1))|]; cbn [andb].
  - do 2 run_step. eapply runs_mono; [apply IH| ].
    + apply inBounds_setMin; [done|lia].
    + intros b w' Hlt Hw'. cbn in Hlt. destruct (decide (b = minBucket h)) as [->|]; [|by apply (Hb b); [lia|]].
      change (weight h (minBucket h) = Some w') in Hw'. by replace w' with w by congruence.
    + cbn. lia.
    + intros [] h' (?&?&?&b&->). split_and!; [done..|]. by exists b.
  - run_step. split_and!; [done..| |by exists (minBucket h); destruct h]. intros w' Hw'. right. lia.
  - run_step. split_and!; [done..| |by exists (minBucket h); destruct h]. intros w' Hw'. left. unfold emptyWeight. by replace w' with w by congruence; rewrite He.
Qed.

Lemma lowerMax_runs fuel : forall h, InBounds h -> Above h -> maxBucket h < Z.of_nat fuel ->
  runs (lowerMax fuel) h (fun _ h' => InBounds h' /\ Above h' /\ MaxOk h' /\ exists b, h' = setMax b h).
Proof.
  induction fuel as [|n IH]; intros h Hib Hb Hn; [pose proof (ib_max _ Hib); lia|].
  destruct (weight_Some h (maxBucket h) Hib (ib_max _ Hib)) as (w&Hw&_).
  cbn [lowerMax]. do 2 run_step. run_step. apply (runs_readWeight _ _ _ w Hw).
  pose proof (ib_max _ Hib) as Hm.
  destruct (flt w (Epsilon (options h))) eqn:He; [destruct (Z.ltb_spec 0 (maxBucket h))|]; cbn [andb].
  - do 2 run_step. eapply runs_mono; [apply IH| ].
    + apply inBounds_setMax; [done|lia].
    + intros b w' Hlt Hw'. cbn in Hlt. destruct (decide (b = maxBucket h)) as [->|]; [|by apply (Hb b); [lia|]].
      change (weight h (maxBucket h) = Some w') in Hw'. by replace w' with w by congruence.
    + cbn. lia.
    + intros [] h' (?&?&?&b&->). split_and!; [done..|]. by exists b.
  - run_step. split_and!; [done..| |by exists (maxBucket h); destruct h]. intros w' Hw'. right. lia.
  - run_step. split_and!; [done..| |by exists (maxBucket h); destruct h]. intros w' Hw'. left. unfold emptyWeight. by replace w' with w by congruence; rewrite He.
Qed.

(** After the adjustment the invariant holds, the weights as they were. *)
Lemma update_runs h : InBounds h -> Below h -> Above h ->
  runs updateMinAndMaxBucket h (fun _ h' => wf h' /\ options h' = options h /\
    bucketWeight h' = bucketWeight h /\ totalWeight h' = totalWeight h).
Proof.
  intros Hib Hbe Hab. pose proof (ib_min _ Hib). pose proof (ib_max _ Hib). pose proof (ib_length _ Hib).
  unfold updateMinAndMaxBucket. do 2 run_step. run_step. eapply runs_mono; [apply raiseMin_runs; [done..|lia]|].
  intros [] h1 (Hib1&Hbe1&Hmin1&b1&->).
  eapply runs_mono; [apply lowerMax_runs; [done|exact Hab|cbn; lia]|].
  intros [] h2 (Hib2&Hab2&Hmax2&b2&->). split; [|done]. split; [done|]. by constructor.
Qed.

(** ** [SubtractSample] and [scale] *)
Lemma safeSubtract_weight x y e : isWeight x -> isWeight y -> finiteFloat y -> positiveFloat e -> isWeight (safeSubtract x y e).
Proof.
  intros Hx Hy Hf [Hve He]. unfold safeSubtract. destruct (flt (fsub x y) e) eqn:E; [done|].
  rewrite flt_negb_fle in E; [|apply fsub_num; [by apply weight_num|done]|by intros ->].
  apply negb_false_iff in E. split; [apply fsub_valid; [apply Hx|apply Hy]|].
  apply (fle_trans _ e); [|done]. rewrite flt_negb_fle in He by (done || by intros ->). by destruct e as [[]|[]| |[]].
Qed.

Lemma flt_of_fle x y z : isNum x -> isNum y -> isNum z -> fle x y = true -> flt y z = true -> flt x z = true.
Proof.
  intros Hx Hy Hz Hxy Hyz. rewrite flt_negb_fle in * by done. apply negb_true_iff. apply negb_true_iff in Hyz.
  destruct (fle z x) eqn:E; [|done]. by rewrite (fle_trans z x y) in Hyz.
Qed.

(** An empty bucket stays empty. *)
Lemma safeSubtract_empty x y e : isWeight x -> isWeight y -> finiteFloat y -> positiveFloat e ->
  flt x e = true -> flt (safeSubtract x y e) e = true.
Proof.
  intros Hx Hy Hf [_ He] Hlt. unfold safeSubtract.
  replace (flt (fsub x y) e) with true; [done|]. symmetry. apply (flt_of_fle _ x).
  - apply fsub_num; [by apply weight_num|done].
  - by apply weight_num.
  - by intros ->.
  - by apply fsub_le.
  - done.
Qed.

(** A bucket that becomes lighter, before the bounds are adjusted. *)
Lemma with_lighter h b w0 w : InBounds h -> Below h -> Above h -> 0 <= b < NumBuckets (options h) -> isWeight w ->
  weight h b = Some w0 -> (emptyWeight h w0 -> emptyWeight h w) ->
  InBounds (withWeight h b w) /\ Below (withWeight h b w) /\ Above (withWeight h b w).
Proof.
  intros Hib Hbe Hab Hb Hw Hw0 He. split_and!; [by apply inBounds_with| |].
  - intros b' w' Hlt [[-> ->]|[_ Hw']]%with_cases; [| |done..]; [apply He; by apply (Hbe b)|by apply (Hbe b')].
  - intros b' w' Hlt [[-> ->]|[_ Hw']]%with_cases; [| |done..]; [apply He; by apply (Hab b)|by apply (Hab b')].
Qed.

Lemma subtract_wf h value w : wf h -> placed (options h) value -> isWeight w -> finiteFloat w ->
  runs (histSubtractSample value w) h (fun _ h' => wf h' /\ options h' = options h /\
    totalWeight h' = safeSubtract (totalWeight h) w (Epsilon (options h)) /\
    exists w0, weight h (FindBucket (options h) value) = Some w0 /\
      bucketWeight h' = bucketWeight (withWeight h (FindBucket (options h) value) (safeSubtract w0 w (Epsilon (options h))))).
Proof.
  intros [Hib Hti] Hpl Hw Hf. destruct (weight_Some h (FindBucket (options h) value) Hib Hpl) as (w0&Hw0&Hww0).
  set (b := FindBucket (options h) value) in *. unfold histSubtractSample.
  replace (flt w fzero) with false by (rewrite flt_negb_fle by (done || by apply weight_num); by rewrite (proj2 Hw)).
  do 2 run_step. run_step. run_step. run_step. apply (runs_updateWeight _ _ _ w0); [done|].
  set (t := safeSubtract _ _ _). set (w1 := safeSubtract w0 _ _).
  destruct (with_lighter h b w0 w1) as (Hib1&Hbe1&Hab1); try done.
  { apply Hti. } { apply Hti. } { apply safeSubtract_weight; try done. apply (oo_epsilon _ (ib_options _ Hib)). }
  { apply safeSubtract_empty; done || apply (oo_epsilon _ (ib_options _ Hib)). }
  eapply runs_mono; [apply (update_runs (setTotal t (withWeight h b w1))); [by apply inBounds_setTotal|done..]|].
  intros [] h' (Hwf&Ho&Hb&Ht). split_and!; [done..|]. exists w0. split; [done|]. by rewrite Hb.
Qed.
(** *** Loops that update a range of buckets *)
Lemma forBuckets_ext {S E} lo hi (f g : Z -> stateM S E unit) :
  (forall b, lo <= b <= hi -> f b = g b) -> forBuckets lo hi f = forBuckets lo hi g.
Proof.
  intros Hfg. unfold forBuckets. assert (Hin : forall b, b ∈ seqZ lo (hi + 1 - lo) -> f b = g b).
  { intros b Hb%elem_of_seqZ. apply Hfg. lia. }
  induction (seqZ lo (hi + 1 - lo)) as [|b l IH]; [done|]. cbn [foldr]. rewrite (Hin b) by left. rewrite IH; [done|].
  intros b' Hb'. apply Hin. by right.
Qed.

(** What a loop over the buckets [lo .. hi] leaves, up to the bucket [b]. *)
Record updatedTo (h : histogram) (lo b : Z) (g : Z -> float64 -> float64) (h' : histogram) : Prop := {
  ut_bounds : InBounds h';
  ut_options : options h' = options h;
  ut_total : totalWeight h' = totalWeight h;
  ut_min : minBucket h' = minBucket h;
  ut_max : maxBucket h' = maxBucket h;
  ut_weights : forall c, weight h' c = if decide (lo <= c < b) then g c <$> weight h c else weight h c
}.

Lemma forUpdate_runs h lo hi g Φ : InBounds h -> 0 <= lo -> hi < NumBuckets (options h) ->
  (forall b w, lo <= b <= hi -> weight h b = Some w -> isWeight (g b w)) ->
  (forall h', updatedTo h lo (hi + 1) g h' -> Φ tt h') ->
  runs (forBuckets lo hi (fun b => updateWeight b (g b))) h Φ.
Proof.
  intros Hib Hlo Hhi Hg HΦ. apply (runs_forBuckets _ _ _ (fun b => updatedTo h lo b g)).
  - constructor; try done. intros c. by rewrite decide_False by lia.
  - intros b h1 Hb [Hib1 Ho Ht Hmn Hmx Hw1].
    destruct (weight_Some h b Hib ltac:(lia)) as (w&Hw&_).
    assert (Hwb : weight h1 b = Some w) by (rewrite Hw1; by rewrite decide_False by lia).
    apply (runs_updateWeight _ _ _ w); [done|]. constructor; try done.
    + apply inBounds_with; [done|rewrite Ho; lia|]. by apply (Hg b).
    + intros c. rewrite weight_with, Hw1 by (done || rewrite Ho; lia). destruct (decide (c = b)) as [->|Hne].
      * rewrite decide_True by lia. by rewrite Hw.
      * destruct (decide (lo <= c < b)), (decide (lo <= c < b + 1)); done || lia.
  - intros h' [Hib1 Ho Ht Hmn Hmx Hw1]. apply HΦ. constructor; try done. intros c. rewrite Hw1.
    destruct (decide (lo ≤ c < lo `max` (hi + 1))), (decide (lo <= c < hi + 1)); done || lia.
Qed.

Lemma scale_wf h factor : wf h -> isWeight factor ->
  (forall b w, weight h b = Some w -> isNum (fmul w factor)) ->
  runs (scale factor) h (fun _ h' => wf h' /\ options h' = options h /\
    totalWeight h' = fmul (totalWeight h) factor /\
    forall b, weight h' b = if decide (minBucket h <= b <= maxBucket h) then (fun w => fmul w factor) <$> weight h b else weight h b).
Proof.
  intros [Hib Hti] Hf Hnum. pose proof (ib_min _ Hib). pose proof (ib_max _ Hib). unfold scale.
  replace (flt factor fzero) with false by (rewrite flt_negb_fle by (done || by apply weight_num); by rewrite (proj2 Hf)).
  do 2 run_step. run_step. apply (forUpdate_runs h); [done|lia..| |].
  { intros b w _ Hw. apply fmul_weight; [by apply (ib_weights _ Hib b)|done|by apply (Hnum b)]. }
  intros h1 [Hib1 Ho Ht Hmn Hmx Hw1]. do 2 run_step. rewrite Ht.
  assert (Hout : forall b, ~ (minBucket h <= b <= maxBucket h) -> weight h1 b = weight h b).
  { intros b Hb. rewrite Hw1. by rewrite decide_False by lia. }
  eapply runs_mono; [apply update_runs; [by apply inBounds_setTotal| |]|].
  - intros b w Hb Hw. cbn in Hb. rewrite Hmn in Hb. change (weight h1 b = Some w) in Hw. rewrite Hout in Hw by lia.
    unfold emptyWeight. cbn. rewrite Ho. by apply (ti_below _ Hti b).
  - intros b w Hb Hw. cbn in Hb. rewrite Hmx in Hb. change (weight h1 b = Some w) in Hw. rewrite Hout in Hw by lia.
    unfold emptyWeight. cbn. rewrite Ho. by apply (ti_above _ Hti b).
  - intros [] h' (Hwf&Ho'&Hb'&Ht'). split_and!; [done|by rewrite Ho'|done|]. intros b. unfold weight at 1. rewrite Hb'.
    change (weight h1 b = if decide (minBucket h <= b <= maxBucket h) then (fun w => fmul w factor) <$> weight h b else weight h b).
    rewrite Hw1. destruct (decide (minBucket h <= b < maxBucket h + 1)), (decide (minBucket h <= b <= maxBucket h)); done || lia.
Qed.

(** ** [Merge] *)
Definition mergedWeight (h o : histogram) (b : Z) (x : float64) : float64 := fadd x (default fzero (weight o b)).

Lemma merge_runs h o Φ : InBounds h -> InBounds o -> options h = options o ->
  (forall h', updatedTo h (minBucket o) (maxBucket o + 1) (mergedWeight h o) h' ->
    let h1 := setTotal (fadd (totalWeight h) (totalWeight o)) h' in
    Φ tt (setMax (Z.max (maxBucket h) (maxBucket o)) (setMin (Z.min (minBucket h) (minBucket o)) h1))) ->
  runs (histMerge o) h Φ.
Proof.
  intros Hib Hio Ho HΦ. pose proof (ib_min _ Hio). pose proof (ib_max _ Hio). unfold histMerge. do 2 run_step.
  rewrite decide_False by (rewrite Ho; tauto). run_step.
  rewrite (forBuckets_ext _ _ _ (fun b => updateWeight b (mergedWeight h o b))).
  2:{ intros b Hb. destruct (weight_Some o b Hio ltac:(lia)) as (w&Hw&_). unfold mergedWeight. by rewrite Hw. }
  apply (forUpdate_runs h); [done|lia|rewrite Ho; lia| |].
  { intros b w Hb Hw. destruct (weight_Some o b Hio ltac:(lia)) as (w'&Hw'&?). unfold mergedWeight. rewrite Hw'.
    apply fadd_weight; [by apply (ib_weights _ Hib b)|done]. }
  intros h' Hut. do 5 run_step. specialize (HΦ h' Hut). cbn in HΦ. destruct Hut as [Hib1 Ho1 Ht1 Hmn1 Hmx1 Hw1].
  rewrite Ht1.
  match goal with |- Φ tt ?x => match type of HΦ with Φ tt ?y => replace x with y; [done|] end end.
  destruct h' as [o' ws t mn mx]. cbn in *. subst mn mx.
  destruct (Z.ltb_spec (minBucket o) (minBucket h)); cbn; destruct (Z.ltb_spec (maxBucket h) (maxBucket o)); cbn;
    unfold setMin, setMax, setTotal; cbn; f_equal; lia.
Qed.

Lemma merge_wf h o : wf h -> wf o -> options h = options o ->
  runs (histMerge o) h (fun _ h' => wf h' /\ options h' = options h).
Proof.
  intros [Hib Hti] [Hio Hto] Ho. pose proof (ib_min _ Hib). pose proof (ib_max _ Hib). pose proof (ib_min _ Hio). pose proof (ib_max _ Hio).
  apply merge_runs; [done..|]. intros h1 [Hib1 Ho1 Ht1 Hmn1 Hmx1 Hw1] h2. subst h2.
  assert (Hn : NumBuckets (options h) = NumBuckets (options o)) by by rewrite Ho.
  assert (He : forall w, emptyWeight h1 w <-> emptyWeight h w) by (intros; unfold emptyWeight; by rewrite Ho1).
  assert (Heo : forall w, emptyWeight o w <-> emptyWeight h w) by (intros; unfold emptyWeight; by rewrite Ho).
  assert (Hout : forall b, ~ (minBucket o <= b <= maxBucket o) -> weight h1 b = weight h b).
  { intros b Hb. rewrite Hw1. by rewrite decide_False by lia. }
  assert (Hkeep : forall w0 w, isWeight w0 -> isWeight w -> fle w0 w = true -> ~ emptyWeight h w0 -> ~ emptyWeight h w).
  { intros w0 w ?? Hle. rewrite !(not_empty_le h) by done. intros. by eapply fle_trans. }
  assert (Hsum : forall b w0 w, weight h b = Some w0 -> weight h1 b = Some w -> w = w0 \/
    exists wo, weight o b = Some wo /\ isWeight wo /\ w = fadd w0 wo).
  { intros b w0 w Hw0 Hw. rewrite Hw1, Hw0 in Hw. case_decide as Hb; simplify_eq/=; [right|by left].
    destruct (weight_Some o b Hio ltac:(lia)) as (wo&Hwo&?). exists wo. unfold mergedWeight. by rewrite Hwo. }
  assert (Hgrow : forall b w0 w, weight h b = Some w0 -> weight h1 b = Some w -> ~ emptyWeight h w0 -> ~ emptyWeight h w).
  { intros b w0 w Hw0 Hw. apply Hkeep; [by apply (ib_weights _ Hib b)|by apply (ib_weights _ Hib1 b)|].
    pose proof (ib_weights _ Hib b w0 Hw0). destruct (Hsum b w0 w) as [->|(wo&_&?&->)]; try done; [by apply fle_refl, weight_num|by apply fadd_ge_l]. }
  assert (Hgrowo : forall b w0 w, minBucket o <= b <= maxBucket o -> weight o b = Some w0 -> weight h1 b = Some w -> ~ emptyWeight h w0 -> ~ emptyWeight h w).
  { intros b w0 w Hb Hw0 Hw. apply Hkeep; [by apply (ib_weights _ Hio b)|by apply (ib_weights _ Hib1 b)|].
    destruct (weight_Some h b Hib ltac:(lia)) as (wh&Hwh&?). rewrite Hw1, Hwh, decide_True in Hw by lia. simplify_eq/=.
    unfold mergedWeight. rewrite Hw0. apply fadd_ge_r; [done|]. by apply (ib_weights _ Hio b). }
  split; [|done]. split.
  { apply inBounds_setMax; [apply inBounds_setMin; [by apply inBounds_setTotal|cbn; rewrite Ho1; lia]|cbn; rewrite Ho1; lia]. }
  constructor; unfold Below, Above, MinOk, MaxOk; cbn.
  - intros b w Hb Hw. apply He. change (weight h1 b = Some w) in Hw. rewrite Hout in Hw by lia. apply (ti_below _ Hti b); [lia|done].
  - intros b w Hb Hw. apply He. change (weight h1 b = Some w) in Hw. rewrite Hout in Hw by lia. apply (ti_above _ Hti b); [lia|done].
  - intros w Hw. change (weight h1 (minBucket h `min` minBucket o) = Some w) in Hw.
    change (~ emptyWeight h1 w \/ minBucket h `min` minBucket o = NumBuckets (options h1) - 1). rewrite He, Ho1.
    destruct (decide (minBucket h <= minBucket o)) as [Hle|Hgt].
    + rewrite Z.min_l in * by lia. destruct (weight_Some h (minBucket h) Hib ltac:(lia)) as (w0&Hw0&_).
      destruct (ti_min _ Hti w0 Hw0) as [Hne|]; [left; by apply (Hgrow (minBucket h) w0)|by right].
    + rewrite Z.min_r in * by lia. destruct (weight_Some o (minBucket o) Hio ltac:(lia)) as (w0&Hw0&_).
      destruct (ti_min _ Hto w0 Hw0) as [Hne|]; [left|lia]. apply (Hgrowo (minBucket o) w0); try done; [|by rewrite <- Heo].
      split; [done|]. destruct (decide (minBucket o <= maxBucket o)); [done|]. destruct Hne. apply (ti_above _ Hto (minBucket o)); [lia|done].
  - intros w Hw. change (weight h1 (maxBucket h `max` maxBucket o) = Some w) in Hw.
    change (~ emptyWeight h1 w \/ maxBucket h `max` maxBucket o = 0). rewrite He.
    destruct (decide (maxBucket o <= maxBucket h)) as [Hle|Hgt].
    + rewrite Z.max_l in * by lia. destruct (weight_Some h (maxBucket h) Hib ltac:(lia)) as (w0&Hw0&_).
      destruct (ti_max _ Hti w0 Hw0) as [Hne|]; [left; by apply (Hgrow (maxBucket h) w0)|by right].
    + rewrite Z.max_r in * by lia. destruct (weight_Some o (maxBucket o) Hio ltac:(lia)) as (w0&Hw0&_).
      destruct (ti_max _ Hto w0 Hw0) as [Hne|]; [left|lia]. apply (Hgrowo (maxBucket o) w0); try done; [|by rewrite <- Heo].
      split; [|done]. destruct (decide (minBucket o <= maxBucket o)); [done|]. destruct Hne. apply (ti_below _ Hto (maxBucket o)); [lia|done].
Qed.
(** ** The histograms that the methods build *)
Lemma new_wf o : optionsOk o -> wf (NewHistogram o).
Proof.
  intros Ho. pose proof (oo_buckets _ Ho).
  assert (Hw : forall b w, weight (NewHistogram o) b = Some w -> w = fzero).
  { intros b w. unfold weight. destruct (0 <=? b); [|done]. cbn. intros [? _]%lookup_replicate. congruence. }
  split.
  - constructor; [done|apply length_replicate|cbn; lia|cbn; lia|]. intros b w ->%Hw. apply fzero_weight.
  - constructor; [intros b w _ ->%Hw; apply (oo_epsilon _ Ho)..|by right|by right].
Qed.

Inductive histOp :=
  | OpAdd (value w : float64)
  | OpSubtract (value w : float64)
  | OpScale (factor : float64)
  | OpMerge (o : histogram).

Definition runOp (op : histOp) : method unit :=
  match op with
  | OpAdd v w => histAddSample v w
  | OpSubtract v w => histSubtractSample v w
  | OpScale f => scale f
  | OpMerge o => histMerge o
  end.

(** What the callers have to respect: the options place the value, weights are not
    negative, and nothing computes infinity minus infinity or zero times infinity. *)
Definition legal (h : histogram) (op : histOp) : Prop :=
  match op with
  | OpAdd v w => placed (options h) v /\ isWeight w
  | OpSubtract v w => placed (options h) v /\ isWeight w /\ finiteFloat w
  | OpScale f => isWeight f /\ forall b w, weight h b = Some w -> isNum (fmul w f)
  | OpMerge o => options o = options h
  end.

Inductive reachable (o : HistogramOptions) : histogram -> Prop :=
  | reach_new : reachable o (NewHistogram o)
  | reach_step h op : reachable o h -> legal h op -> (forall h2, op = OpMerge h2 -> reachable o h2) ->
      reachable o (snd (runOp op h)).

Lemma runOp_wf h op : wf h -> legal h op -> (forall h2, op = OpMerge h2 -> wf h2) ->
  runs (runOp op) h (fun _ h' => wf h' /\ options h' = options h).
Proof.
  intros Hwf Hl Hm. destruct op as [v w|v w|f|o]; cbn in *.
  - eapply runs_mono; [by apply add_wf; tauto|]. naive_solver.
  - eapply runs_mono; [by apply subtract_wf; tauto|]. naive_solver.
  - eapply runs_mono; [by apply scale_wf; tauto|]. naive_solver.
  - apply merge_wf; [done|by apply Hm|done].
Qed.

Lemma runs_snd {S E A} (m : stateM S E A) s Φ : runs m s Φ -> exists a, Φ a (snd (m s)) /\ fst (m s) = Ok a.
Proof. intros (a&s'&->&HΦ). by exists a. Qed.

Lemma reachable_wf o h : optionsOk o -> reachable o h -> wf h /\ options h = o.
Proof.
  intros Ho Hr. induction Hr as [|h op Hr [IH IHo] Hl Hm IHm] using reachable_ind; [by split; [apply new_wf|]|].
  destruct (runs_snd _ _ _ (runOp_wf h op IH Hl (fun h2 E => proj1 (IHm h2 E)))) as (a&[Hwf Ho']&_).
  split; [done|]. by rewrite Ho'.
Qed.

Lemma isEmpty_exact h : wf h ->
  exists e, IsEmpty h = Some e /\ (e = true <-> forall b w, weight h b = Some w -> emptyWeight h w).
Proof.
  intros [Hib Hti]. destruct (weight_Some h (minBucket h) Hib (ib_min _ Hib)) as (w&Hw&_).
  exists (flt w (Epsilon (options h))). unfold IsEmpty. rewrite Hw. split; [done|]. split.
  - intros He b w' Hw'. destruct (ti_min _ Hti w Hw) as [Hne|Hlast]; [done|].
    pose proof (weight_range _ _ _ Hib Hw'). destruct (decide (b = minBucket h)) as [->|]; [by replace w' with w by congruence|].
    apply (ti_below _ Hti b); [lia|done].
  - intros Hall. by apply (Hall (minBucket h)).
Qed.
(** ** Percentiles *)
Definition partialSum (h : histogram) (b : Z) : float64 :=
  foldl fadd fzero (omap (weight h) (seqZ (minBucket h) (b + 1 - minBucket h))).

Lemma partialSum_step h b w : minBucket h <= b -> weight h b = Some w ->
  partialSum h b = fadd (partialSum h (b - 1)) w.
Proof.
  intros Hb Hw. unfold partialSum. set (n := Z.to_nat (b - minBucket h)).
  replace (b + 1 - minBucket h) with (Z.of_nat (S n)) by lia. replace (b - 1 + 1 - minBucket h) with (Z.of_nat n) by lia.
  rewrite seqZ_S, omap_app, foldl_app. replace (minBucket h + Z.of_nat n) with b by lia. simpl. by rewrite Hw.
Qed.

(** The bucket at which the cumulative weight reaches the threshold. *)
Record reachesAt (h : histogram) (threshold : float64) (k : Z) : Prop := {
  ra_range : minBucket h <= k <= maxBucket h;
  ra_before : forall b, minBucket h <= b < k -> fle threshold (partialSum h b) = false;
  ra_there : k < maxBucket h -> fle threshold (partialSum h k) = true
}.

Lemma reachBucket_spec h threshold : InBounds h -> forall fuel b,
  minBucket h <= b <= maxBucket h -> maxBucket h - b <= Z.of_nat fuel ->
  (forall b', minBucket h <= b' < b -> fle threshold (partialSum h b') = false) ->
  exists k, reachBucket h threshold (partialSum h (b - 1)) b fuel = Some k /\ reachesAt h threshold k.
Proof.
  intros Hib. pose proof (ib_max _ Hib). pose proof (ib_min _ Hib).
  induction fuel as [|n IH]; intros b Hb Hn Hbefore; cbn [reachBucket].
  - exists b. split; [done|]. constructor; [done..|lia].
  - destruct (Z.ltb_spec b (maxBucket h)); [|exists b; split; [done|]; constructor; [done..|lia]].
    destruct (weight_Some h b Hib ltac:(lia)) as (w&Hw&_). rewrite Hw. bind_simpl.
    rewrite <- (partialSum_step h b w) by (done || lia).
    destruct (fle threshold (partialSum h b)) eqn:E; [exists b; split; [done|]; by constructor|].
    replace (partialSum h b) with (partialSum h (b + 1 - 1)) by (f_equal; lia). apply IH; [lia..|].
    intros b' Hb'. destruct (decide (b' = b)) as [->|]; [done|]. apply Hbefore. lia.
Qed.

Lemma GetBucketStart_Some o b : 0 <= b < NumBuckets o -> is_Some (GetBucketStart o b).
Proof.
  unfold NumBuckets, GetBucketStart, linearGetBucketStart, exponentialGetBucketStart. intros Hb. destruct (kind o).
  all: destruct (Z.ltb_spec b 0); [lia|]; destruct (Z.leb_spec (NumBuckets o) b); unfold NumBuckets in *.
  all: repeat case_match; try lia; simplify_eq/=; try (eexists; reflexivity).
  all: lia.
Qed.

Lemma nonempty_order h w : wf h -> weight h (minBucket h) = Some w -> ~ emptyWeight h w -> minBucket h <= maxBucket h.
Proof.
  intros [Hib Hti] Hw Hne. destruct (decide (minBucket h <= maxBucket h)); [done|]. destruct Hne. apply (ti_above _ Hti (minBucket h)); [lia|done].
Qed.

Lemma percentile_spec h p : wf h -> IsEmpty h = Some false ->
  exists k v, reachesAt h (fmul p (totalWeight h)) k /\ histPercentile h p = Some v /\
    GetBucketStart (options h) (Z.min (k + 1) (NumBuckets (options h) - 1)) = Some v.
Proof.
  intros Hwf He. pose proof (proj1 Hwf) as Hib. pose proof (ib_max _ Hib). pose proof (ib_min _ Hib). pose proof (ib_length _ Hib).
  destruct (weight_Some h (minBucket h) Hib (ib_min _ Hib)) as (w&Hw&_).
  assert (Hne : ~ emptyWeight h w) by (unfold IsEmpty in He; rewrite Hw in He; unfold emptyWeight; simplify_eq/=; congruence).
  pose proof (nonempty_order h w Hwf Hw Hne) as Hle.
  destruct (reachBucket_spec h (fmul p (totalWeight h)) Hib (length (bucketWeight h)) (minBucket h)) as (k&Hk&Hra); [lia..|].
  assert (E0 : partialSum h (minBucket h - 1) = fzero) by (unfold partialSum; by rewrite seqZ_nil by lia).
  rewrite E0 in Hk. pose proof (ra_range _ _ _ Hra).
  destruct (GetBucketStart_Some (options h) (Z.min (k + 1) (NumBuckets (options h) - 1))) as [v Hv]; [lia|].
  exists k, v. split_and!; [done| |done]. unfold histPercentile. rewrite He. bind_simpl. rewrite Hk. bind_simpl. rewrite <- Hv.
  destruct (Z.ltb_spec k (NumBuckets (options h) - 1)); f_equal; lia.
Qed.
(** ** Checkpoints *)

(** *** [LoadFromCheckpoint] validates before it changes anything *)
Lemma checkBuckets_good n l : (forall kv, kv ∈ l -> 0 <= kv.1 < n) -> forall sum,
  exists sum', checkBuckets n l sum = Ok sum' /\ sum' = foldl (fun s kv => wrap64 (s + kv.2)) sum l.
Proof.
  induction l as [|[b w] l IH]; intros Hl sum; cbn; [by exists sum|].
  pose proof (Hl (b, w) ltac:(left)) as Hb. cbn in Hb.
  destruct (Z.leb_spec n b); [lia|]. destruct (Z.ltb_spec b 0); [lia|]. apply IH. intros kv Hkv. apply Hl. by right.
Qed.

Lemma checkBuckets_bad n l : (exists kv, kv ∈ l /\ ~ 0 <= kv.1 < n) -> forall sum,
  exists b w, (b, w) ∈ l /\ ((n <= b /\ checkBuckets n l sum = Err (BucketExceeds b)) \/
    (b < 0 /\ checkBuckets n l sum = Err (NegativeBucket b))).
Proof.
  induction l as [|[b w] l IH]; intros (kv&Hkv&Hbad) sum; [by apply elem_of_nil in Hkv|]. cbn.
  destruct (Z.leb_spec n b); [exists b, w; split; [left|by left]|].
  destruct (Z.ltb_spec b 0); [exists b, w; split; [left|by right]|].
  apply elem_of_cons in Hkv as [->|Hkv]; [cbn in Hbad; lia|].
  destruct (IH (ex_intro _ kv (conj Hkv Hbad)) (wrap64 (sum + w))) as (b'&w'&Hin&Hor). exists b', w'. split; [by right|done].
Qed.

(** What the checkpoint has to satisfy. *)
Definition goodCheckpoint (n : Z) (c : HistogramCheckpoint) : Prop :=
  flt (TotalWeight c) fzero = false /\ forall b w, BucketWeights c !! b = Some w -> 0 <= b < n.

(** The sum of the weights, as the loop computes it. *)
Definition checkpointSum (c : HistogramCheckpoint) : Z :=
  foldl (fun s (kv : Z * Z) => wrap64 (s + kv.2)) 0 (map_to_list (BucketWeights c)).

(** *** The loop that adds the buckets *)
Definition loaded (rat : float64) (h : histogram) (l : list (Z * Z)) (h' : histogram) : Prop :=
  options h' = options h /\ sized h' /\ totalWeight h' = totalWeight h /\
  minBucket h' = foldr (fun kv m => Z.min m kv.1) (minBucket h) l /\
  maxBucket h' = foldr (fun kv m => Z.max m kv.1) (maxBucket h) l /\
  forall b, weight h' b = match list_to_map (M := gmap Z Z) l !! b with
                          | Some u => (fun x => fadd x (fmul (ofInt u) rat)) <$> weight h b
                          | None => weight h b
                          end.

Lemma foldr_min_shift (l : list (Z * Z)) m x : foldr (fun kv m => Z.min m kv.1) (Z.min m x) l = Z.min (foldr (fun kv m => Z.min m kv.1) m l) x.
Proof. induction l; cbn; lia. Qed.
Lemma foldr_max_shift (l : list (Z * Z)) m x : foldr (fun kv m => Z.max m kv.1) (Z.max m x) l = Z.max (foldr (fun kv m => Z.max m kv.1) m l) x.
Proof. induction l; cbn; lia. Qed.

Lemma loadBuckets_runs rat l : forall h Φ, sized h -> NoDup l.*1 -> (forall kv, kv ∈ l -> 0 <= kv.1 < NumBuckets (options h)) ->
  (forall h', loaded rat h l h' -> Φ tt h') -> runs (loadBuckets rat l) h Φ.
Proof.
  induction l as [|[b u] l IH]; intros h Φ Hs Hnd Hl HΦ; cbn [loadBuckets foldr].
  - run_step. apply HΦ. by split_and!.
  - apply NoDup_cons in Hnd as [Hb Hnd]. pose proof (Hl (b, u) ltac:(left)) as Hbr. cbn in Hbr.
    destruct (proj1 (sized_weight h b Hs) Hbr) as [w Hw]. unfold loadBucket. do 5 run_step.
    set (h1 := if b <? minBucket h then setMin b h else h). set (h2 := if maxBucket h1 <? b then setMax b h1 else h1).
    assert (E2 : h2 = setMax (Z.max (maxBucket h) b) (setMin (Z.min (minBucket h) b) h)).
    { unfold h2, h1. destruct h as [o ws t mn mx]. cbn. destruct (Z.ltb_spec b mn); cbn; destruct (Z.ltb_spec mx b); unfold setMin, setMax; cbn; f_equal; lia. }
    rewrite E2. apply (runs_updateWeight _ _ _ w); [done|]. apply IH.
    { unfold sized. cbn. by rewrite length_insert. } { done. } { intros kv Hkv. apply Hl. by right. }
    intros h' (Ho&Hs'&Ht&Hmn&Hmx&Hwt). apply HΦ. split_and!; [done..| | |].
    + rewrite Hmn. cbn. by rewrite foldr_min_shift.
    + rewrite Hmx. cbn. by rewrite foldr_max_shift.
    + intros b'. rewrite Hwt. cbn [list_to_map]. rewrite (sized_with _ b) by done.
      destruct (decide (b' = b)) as [->|Hne].
      * rewrite not_elem_of_list_to_map_1 by done. cbn. by rewrite lookup_insert_eq, Hw.
      * cbn. by rewrite lookup_insert_ne by done.
Qed.
Lemma load_refuses h c : (c = None \/ exists c', c = Some c' /\ ~ goodCheckpoint (NumBuckets (options h)) c') ->
  exists e, histLoadFromCheckpoint c h = (Err e, h) /\
    match e with
    | EmptyCheckpoint => c = None
    | NegativeTotalWeight => exists c', c = Some c' /\ flt (TotalWeight c') fzero = true
    | BucketExceeds b => exists c', c = Some c' /\ is_Some (BucketWeights c' !! b) /\ NumBuckets (options h) <= b
    | NegativeBucket b => exists c', c = Some c' /\ is_Some (BucketWeights c' !! b) /\ b < 0
    end.
Proof.
  intros [->|(c'&->&Hbad)]; [by exists EmptyCheckpoint|]. unfold histLoadFromCheckpoint.
  destruct (flt (TotalWeight c') fzero) eqn:En; [exists NegativeTotalWeight; eauto|].
  assert (Hex : exists kv, kv ∈ map_to_list (BucketWeights c') /\ ~ 0 <= kv.1 < NumBuckets (options h)).
  { destruct (decide (map_Forall (fun b (_ : Z) => 0 <= b < NumBuckets (options h)) (BucketWeights c'))) as [Hall|Hnot].
    - exfalso. apply Hbad. split; [done|]. intros b w Hbw. by apply (Hall b w).
    - apply map_not_Forall in Hnot as (b&w&Hbw&Hn); [|apply _]. exists (b, w). split; [by apply elem_of_map_to_list|done]. }
  destruct (checkBuckets_bad _ _ Hex 0) as (b&w&Hin&Hor). apply elem_of_map_to_list in Hin.
  destruct Hor as [[Hb E]|[Hb E]]; [exists (BucketExceeds b)|exists (NegativeBucket b)].
  all: split; [unfold mbind, stateM_bind, get, ofResult; by rewrite E|exists c'; split; [done|split; [by exists w|done]]].
Qed.

Lemma load_runs h c Φ : sized h -> goodCheckpoint (NumBuckets (options h)) c ->
  (checkpointSum c = 0 -> Φ tt h) ->
  (checkpointSum c <> 0 -> forall h', loaded (fdiv (TotalWeight c) (ofInt (checkpointSum c))) h (map_to_list (BucketWeights c)) h' ->
    Φ tt (setTotal (fadd (totalWeight h') (TotalWeight c)) h')) ->
  runs (histLoadFromCheckpoint (Some c)) h Φ.
Proof.
  intros Hs [Hneg Hgood] H0 Hne. unfold histLoadFromCheckpoint. rewrite Hneg. do 2 run_step.
  assert (Hall : forall kv, kv ∈ map_to_list (BucketWeights c) -> 0 <= kv.1 < NumBuckets (options h)).
  { intros [b w] Hin%elem_of_map_to_list. by apply (Hgood b w). }
  destruct (checkBuckets_good (NumBuckets (options h)) _ Hall 0) as (sum&E&Esum). fold (checkpointSum c) in Esum. subst sum.
  run_step. unfold ofResult. rewrite E. exists (checkpointSum c), h. split; [done|].
  destruct (Z.eqb_spec (checkpointSum c) 0) as [Ez|Ez]; [run_step; auto|].
  run_step. apply loadBuckets_runs; [done|apply NoDup_fst_map_to_list|done|]. intros h' Hl. run_step. by apply Hne.
Qed.

(** *** What is saved *)
(** [heaviest] is the greatest weight of the buckets, or [m] if that is greater. *)
Definition greatest (h : histogram) (l : list Z) (m heaviest : float64) : Prop :=
  fle m heaviest = true /\ (forall b w, b ∈ l -> weight h b = Some w -> fle w heaviest = true) /\
  (heaviest = m \/ exists b, b ∈ l /\ weight h b = Some heaviest).

Lemma maxWeight_greatest h l : (forall b, b ∈ l -> exists w, weight h b = Some w /\ isNum w) -> forall m, isNum m ->
  exists m', foldl (fun acc b => m ← acc; w ← weight h b; Some (if flt m w then w else m)) (Some m) l = Some m' /\ greatest h l m m'.
Proof.
  induction l as [|b l IH]; intros Hl m Hm.
  { exists m. split; [done|]. split_and!; [by apply fle_refl|intros ? ? []%elem_of_nil|by left]. }
  destruct (Hl b ltac:(left)) as (w&Hw&Hnw). cbn [foldl]. bind_simpl. rewrite Hw. bind_simpl.
  set (m1 := if flt m w then w else m). assert (Hm1 : isNum m1 /\ fle m m1 = true /\ fle w m1 = true /\ (m1 = m \/ m1 = w)).
  { unfold m1. rewrite flt_negb_fle by done. destruct (fle w m) eqn:E; cbn [negb]; [split_and!; [done|by apply fle_refl|done|by left]|].
    split_and!; [done| |by apply fle_refl|by right]. destruct (flt m w) eqn:Elt; [|rewrite flt_negb_fle, E in Elt by done; done].
    unfold flt, SFltb in Elt. unfold fle, SFleb. destruct (SFcompare m w) as [[]|]; done. }
  destruct Hm1 as (Hn1&Hle&Hle'&Hor). destruct (IH (fun b' Hb' => Hl b' ltac:(by right)) m1 Hn1) as (m'&E&Hg&Hall&Hex).
  exists m'. split; [done|]. split_and!; [by apply (fle_trans _ m1)| |].
  - intros b' w' [->|Hb']%elem_of_cons Hw'; [simplify_eq; by apply (fle_trans _ m1)|by apply (Hall b')].
  - destruct Hex as [->|(b'&Hb'&Hw')]; [|right; exists b'; split; [by right|done]].
    destruct Hor as [->| ->]; [by left|right; exists b; split; [by left|done]].
Qed.

Lemma saveWeights_spec h rat l : (forall b, b ∈ l -> is_Some (weight h b)) -> forall m0 : gmap Z Z,
  exists m : gmap Z Z, foldl (fun (acc : option (gmap Z Z)) b => m ← acc; w ← weight h b; Some (if 0 <? newWeight rat w then <[b := newWeight rat w]> m else m)) (Some m0) l = Some m /\
    forall b u, m !! b = Some u <-> (b ∈ l /\ exists w, weight h b = Some w /\ u = newWeight rat w /\ 0 < u) \/
      (m0 !! b = Some u /\ ~ (b ∈ l /\ exists w, weight h b = Some w /\ 0 < newWeight rat w)).
Proof.
  induction l as [|b l IH]; intros Hl m0; [exists m0; split; [done|]; set_solver|].
  destruct (Hl b ltac:(left)) as [w Hw]. cbn [foldl]. bind_simpl. rewrite Hw. bind_simpl.
  destruct (IH (fun b' Hb' => Hl b' ltac:(by right)) (if 0 <? newWeight rat w then <[b := newWeight rat w]> m0 else m0)) as (m&Hm&Hlook).
  exists m. split; [done|]. intros b' u. rewrite Hlook. clear Hlook Hm IH.
  setoid_rewrite elem_of_cons. destruct (Z.ltb_spec 0 (newWeight rat w)).
  - destruct (decide (b' = b)) as [->|Hne]; [rewrite lookup_insert_eq|rewrite lookup_insert_ne by done].
    + split; [|].
      * intros [?|[[= <-] ?]]; [naive_solver|]. left. split; [by left|]. exists w. naive_solver.
      * intros [(_&w'&Hw'&->&?)|[_ []]]; [|split; [by left|eauto]]. simplify_eq. destruct (decide (b ∈ l)); [left|right]; naive_solver.
    + naive_solver.
  - destruct (decide (b' = b)) as [->|Hne]; [|naive_solver]. split.
    + intros [?|[? Hn]]; [naive_solver|]. right. split; [done|]. intros [_ (w'&?&?)]. simplify_eq. lia.
    + intros [([_|?]&w'&?&->&?)|[? Hn]]; [simplify_eq; lia|left; eauto|right]. naive_solver.
Qed.

(** The buckets that a checkpoint of [h] keeps, with the weights it gives them. *)
Definition savedAs (h : histogram) (rat : float64) (c : HistogramCheckpoint) : Prop :=
  TotalWeight c = totalWeight h /\
  forall b u, BucketWeights c !! b = Some u <->
    (minBucket h <= b <= maxBucket h /\ exists w, weight h b = Some w /\ u = newWeight rat w /\ 0 < u).

Lemma save_spec h : InBounds h -> exists c heaviest, histSaveToCheckpoint h = Some c /\
  greatest h (seqZ (minBucket h) (maxBucket h + 1 - minBucket h)) fzero heaviest /\
  savedAs h (fdiv (ofInt MaxCheckpointWeight) heaviest) c.
Proof.
  intros Hib. pose proof (ib_min _ Hib). pose proof (ib_max _ Hib). unfold histSaveToCheckpoint. set (l := seqZ _ _).
  assert (Hl : forall b, b ∈ l <-> minBucket h <= b <= maxBucket h) by (intros; unfold l; rewrite elem_of_seqZ; lia).
  assert (Hw : forall b, b ∈ l -> exists w, weight h b = Some w /\ isNum w).
  { intros b Hb%Hl. destruct (weight_Some h b Hib ltac:(lia)) as (w&?&?%weight_num). by exists w. }
  destruct (maxWeight_greatest h l Hw fzero ltac:(done)) as (heaviest&Hmax&Hg). unfold maxWeight. rewrite Hmax. bind_simpl.
  assert (Hs : forall b, b ∈ l -> is_Some (weight h b)) by (intros b Hb; destruct (Hw b Hb) as (w&->&_); by exists w).
  destruct (saveWeights_spec h (fdiv (ofInt MaxCheckpointWeight) heaviest) l Hs ∅) as (m&Hm&Hlook). unfold saveWeights. rewrite Hm. bind_simpl.
  eexists _, heaviest. split; [done|]. split; [done|]. split; [done|]. intros b u. cbn. rewrite Hlook, Hl, lookup_empty. naive_solver.
Qed.

(** The weights of a checkpoint, when the greatest weight is neither infinite nor tiny. *)
Lemma newWeight_share my ey w : valid (S754_finite false my ey) -> -1000 <= ey -> isWeight w -> finiteFloat w ->
  fle w (S754_finite false my ey) = true ->
  0 <= newWeight (fdiv (ofInt MaxCheckpointWeight) (S754_finite false my ey)) w <= MaxCheckpointWeight /\
  (w = S754_finite false my ey -> newWeight (fdiv (ofInt MaxCheckpointWeight) (S754_finite false my ey)) w = MaxCheckpointWeight).
Proof.
  intros Hv Hey Hw Hfin Hle. destruct (share_of_ten_thousand my ey w Hv Hey Hw Hfin Hle) as (Hp&Hup&Hlow). fold MaxCheckpointWeight in *.
  destruct (half_more _ Hp Hup) as (z&Hz&Hzb&Hz0). unfold newWeight, round, toInt.
  change (fdiv fone (ofInt 2)) with fhalf. change 10000 with MaxCheckpointWeight in *.
  rewrite (toInt64_ffloor _ z); [|by apply fadd_weight|unfold exactInt; change MaxCheckpointWeight with 10000 in *; lia|done].
  unfold uint32. rewrite Z.mod_small by (change MaxCheckpointWeight with 10000 in *; lia). auto.
Qed.

(** The sum of a checkpoint whose weights are small does not overflow. *)
Lemma checkpointSum_small n c : n < 2 ^ 40 -> (forall b u, BucketWeights c !! b = Some u -> 0 <= b < n /\ 0 < u <= MaxCheckpointWeight) ->
  checkpointSum c = sumOver snd (map_to_list (BucketWeights c)) /\ (BucketWeights c <> ∅ -> 0 < checkpointSum c).
Proof.
  intros Hn Hc. assert (Hsize : Z.of_nat (length (map_to_list (BucketWeights c))) <= 2 ^ 40).
  { rewrite length_map_to_list, <- size_dom. pose proof (subseteq_size (C := gset Z) (dom (BucketWeights c)) (list_to_set (seqZ 0 n))) as Hs.
    rewrite size_list_to_set, length_seqZ in Hs by apply NoDup_seqZ. enough (dom (BucketWeights c) ⊆ list_to_set (seqZ 0 n)) by (specialize (Hs ltac:(done)); lia).
    intros b [u Hb]%elem_of_dom. destruct (Hc b u Hb). apply elem_of_list_to_set, elem_of_seqZ. lia. }
  assert (Hall : Forall (fun kv => 0 < kv.2 <= MaxCheckpointWeight) (map_to_list (BucketWeights c))).
  { apply list.Forall_forall. intros [b u] Hin%elem_of_map_to_list. by apply (Hc b u). }
  assert (Hsum : forall l s, Forall (fun kv : Z * Z => 0 < kv.2 <= MaxCheckpointWeight) l -> 0 <= s -> s + MaxCheckpointWeight * Z.of_nat (length l) < 2 ^ 60 ->
    foldl (fun s kv => wrap64 (s + kv.2)) s l = s + sumOver snd l /\ Z.of_nat (length l) <= sumOver snd l).
  { induction l as [|[b u] l IH]; intros s Hl Hs Hb; [cbn; lia|]. apply Forall_cons in Hl as [Hu Hl]. cbn [foldl length sumOver foldr snd] in *. fold (@sumOver (Z * Z)) in *.
    change MaxCheckpointWeight with 10000 in *. rewrite wrap64_id by (unfold in_int64, min_int64, max_int64; lia).
    destruct (IH (s + u)) as [-> ?]; [done|lia|lia|]. change (foldr (fun a acc => a.2 + acc) 0 l) with (sumOver snd l). lia. }
  destruct (Hsum (map_to_list (BucketWeights c)) 0 Hall) as [E Hle]; [done|change MaxCheckpointWeight with 10000; lia|]. unfold checkpointSum. rewrite E.
  split; [lia|]. intros Hne.
  destruct (map_to_list (BucketWeights c)) as [|kv l] eqn:El; [by apply map_to_list_empty_iff in El|]. cbn [length] in Hle. lia.
Qed.
End Operations.
