(* ===== verification/HistogramTheorems.v ===== *)
(** * Theorems on the histograms of the recommender

    The invariant of the bucket bounds over every sequence of operations, the percentile,
    the checkpoints, and the reference time of the decaying histogram. *)
From Stdlib Require Import SpecFloat.
From S2P Require Import Prelude Float64 Float64Facts Histogram HistogramSpec.
Local Open Scope Z_scope.

Section Theorems.
Context `{MathLib}.

(** C12: Whatever samples are added, subtracted, scaled and merged, every bucket has a weight
    that is a number of the format and not negative, [minBucket] is the
    first bucket that is not empty and [maxBucket] the last one (histogram.go says so of
    the fields), the two stay inside the histogram, [IsEmpty] is right, and no further
    legal call panics. *)
Theorem reachable_histogram_is_tight o h : optionsOk o -> reachable o h ->
  0 <= minBucket h < NumBuckets o /\ 0 <= maxBucket h < NumBuckets o /\
  (forall b, 0 <= b < NumBuckets o -> exists w, weight h b = Some w /\ valid w /\ isNum w /\ fle fzero w = true) /\
  (forall b w, weight h b = Some w -> ~ emptyWeight h w -> minBucket h <= b <= maxBucket h) /\
  (exists e, IsEmpty h = Some e /\ (e = true <-> forall b w, weight h b = Some w -> emptyWeight h w)) /\
  (IsEmpty h = Some false -> forall b w, weight h b = Some w -> b = minBucket h \/ b = maxBucket h -> ~ emptyWeight h w) /\
  (forall op, legal h op -> (forall h2, op = OpMerge h2 -> reachable o h2) -> fst (runOp op h) = Ok tt).
Proof.
  intros Ho Hr. destruct (reachable_wf o h Ho Hr) as [Hwf <-]. pose proof Hwf as [Hib Hti]. split_and!.
  1-4: apply (ib_min _ Hib) || apply (ib_max _ Hib).
  - intros b Hb. destruct (weight_Some h b Hib Hb) as (w&Hw&Hiw). exists w. split_and!; [done|apply Hiw|by apply weight_num|apply Hiw].
  - intros b w Hw Hne. split; apply Z.nlt_ge; intros Hlt; apply Hne; [by apply (ti_below _ Hti b)|by apply (ti_above _ Hti b)].
  - by apply isEmpty_exact.
  - intros He b w Hw Hb. destruct (isEmpty_exact h Hwf) as (e&He'&Hiff). simplify_eq.
    assert (Hsome : ~ forall b w, weight h b = Some w -> emptyWeight h w) by (intros Hall; by apply Hiff in Hall).
    intros Hew. apply Hsome. intros b' w' Hw'. destruct (decide (emptyWeight h w')) as [|Hne']; [done|exfalso].
    pose proof (weight_range _ _ _ Hib Hw'). destruct Hb as [->| ->].
    + destruct (ti_min _ Hti w Hw) as [|Hlast]; [done|]. apply Hne', (ti_below _ Hti b'); [|done].
      destruct (decide (b' = minBucket h)) as [->|]; [|lia]. simplify_eq. done.
    + destruct (ti_max _ Hti w Hw) as [|Hfirst]; [done|]. apply Hne', (ti_above _ Hti b'); [|done].
      destruct (decide (b' = maxBucket h)) as [->|]; [|lia]. simplify_eq. done.
  - intros op Hl Hm. destruct (runs_snd _ _ _ (runOp_wf h op Hwf Hl (fun h2 E => proj1 (reachable_wf _ h2 Ho (Hm h2 E))))) as ([]&_&E).
    done.
Qed.

(** C13: The percentile [p] of a histogram that is not empty is the end of the first
    bucket at which the cumulative weight reaches [p] times the total weight, the last
    bucket that is not empty if none does, and its start for the last bucket of all. *)
Theorem percentile_is_end_of_first_bucket o h p : optionsOk o -> reachable o h -> IsEmpty h = Some false ->
  exists k v, minBucket h <= k <= maxBucket h /\
    (forall b, minBucket h <= b < k -> fle (fmul p (totalWeight h)) (partialSum h b) = false) /\
    (k < maxBucket h -> fle (fmul p (totalWeight h)) (partialSum h k) = true) /\
    histPercentile h p = Some v /\ GetBucketStart o (Z.min (k + 1) (NumBuckets o - 1)) = Some v.
Proof.
  intros Ho Hr He. destruct (reachable_wf o h Ho Hr) as [Hwf Eo].
  destruct (percentile_spec h p Hwf He) as (k&v&[Hra Hbefore Hthere]&Hp&Hv). rewrite Eo in Hv.
  exists k, v. split; [done|]. split; [done|]. split; [done|]. done.
Qed.

(** ** Checkpoints *)

Definition allKeys (c : HistogramCheckpoint) (P : Z -> Prop) : Prop := forall b u, BucketWeights c !! b = Some u -> P b.

Lemma min_of_keys (l : list (Z * Z)) m : foldr (fun kv m => Z.min m kv.1) m l <= m /\
  (forall kv, kv ∈ l -> foldr (fun kv m => Z.min m kv.1) m l <= kv.1) /\
  (forall x, x <= m -> (forall kv, kv ∈ l -> x <= kv.1) -> x <= foldr (fun kv m => Z.min m kv.1) m l).
Proof.
  induction l as [|kv l (IH1&IH2&IH3)]; cbn; [split_and!; [lia|intros ? []%elem_of_nil|intros; lia]|]. split_and!; [lia| |].
  - intros kv' [->|Hkv]%elem_of_cons; [lia|]. specialize (IH2 _ Hkv). lia.
  - intros x Hx Hl. apply Z.min_glb; [apply IH3; [done|]; intros; apply Hl; by right|apply Hl; by left].
Qed.

Lemma max_of_keys (l : list (Z * Z)) m : m <= foldr (fun kv m => Z.max m kv.1) m l /\
  (forall kv, kv ∈ l -> kv.1 <= foldr (fun kv m => Z.max m kv.1) m l) /\
  (forall x, m <= x -> (forall kv, kv ∈ l -> kv.1 <= x) -> foldr (fun kv m => Z.max m kv.1) m l <= x).
Proof.
  induction l as [|kv l (IH1&IH2&IH3)]; cbn; [split_and!; [lia|intros ? []%elem_of_nil|intros; lia]|]. split_and!; [lia| |].
  - intros kv' [->|Hkv]%elem_of_cons; [lia|]. specialize (IH2 _ Hkv). lia.
  - intros x Hx Hl. apply Z.max_lub; [apply IH3; [done|]; intros; apply Hl; by right|apply Hl; by left].
Qed.

Lemma fadd_zero_l x : flt fzero x = true -> fadd fzero x = x.
Proof. by destruct x as [[]|[]| |[]]. Qed.

(** The first and the last key are keys. *)
Lemma min_key_attained (l : list (Z * Z)) m : l <> [] -> (forall kv, kv ∈ l -> kv.1 <= m) ->
  exists kv, kv ∈ l /\ kv.1 = foldr (fun kv m => Z.min m kv.1) m l.
Proof.
  induction l as [|kv l IH]; intros Hne Hl; [done|]. cbn [foldr]. pose proof (Hl kv ltac:(left)).
  destruct l as [|kv' l]; [exists kv; split; [left|cbn; lia]|].
  destruct (IH ltac:(done) (fun x Hx => Hl x ltac:(by right))) as (x&Hx&Ex). rewrite <- Ex.
  destruct (Z.min_spec x.1 kv.1) as [[_ ->]|[_ ->]]; [exists x; split; [by right|done]|exists kv; split; [left|done]].
Qed.

Lemma max_key_attained (l : list (Z * Z)) m : l <> [] -> (forall kv, kv ∈ l -> m <= kv.1) ->
  exists kv, kv ∈ l /\ kv.1 = foldr (fun kv m => Z.max m kv.1) m l.
Proof.
  induction l as [|kv l IH]; intros Hne Hl; [done|]. cbn [foldr]. pose proof (Hl kv ltac:(left)).
  destruct l as [|kv' l]; [exists kv; split; [left|cbn; lia]|].
  destruct (IH ltac:(done) (fun x Hx => Hl x ltac:(by right))) as (x&Hx&Ex). rewrite <- Ex.
  destruct (Z.max_spec x.1 kv.1) as [[_ ->]|[_ ->]]; [exists kv; split; [left|done]|exists x; split; [by right|done]].
Qed.

(** What a new histogram is after it has loaded a checkpoint that is not empty. *)
Record restored (o : HistogramOptions) (c : HistogramCheckpoint) (sum : Z) (h' : histogram) : Prop := {
  rs_total : totalWeight h' = TotalWeight c;
  rs_min : is_Some (BucketWeights c !! minBucket h');
  rs_max : is_Some (BucketWeights c !! maxBucket h');
  rs_between : allKeys c (fun b => minBucket h' <= b <= maxBucket h');
  rs_weights : forall b, 0 <= b < NumBuckets o -> weight h' b =
    Some (match BucketWeights c !! b with
          | Some u => fadd fzero (fmul (ofInt u) (fdiv (TotalWeight c) (ofInt sum)))
          | None => fzero
          end)
}.

Lemma load_restores o c : goodCheckpoint (NumBuckets o) c -> flt fzero (TotalWeight c) = true ->
  BucketWeights c <> ∅ -> checkpointSum c <> 0 ->
  runs (histLoadFromCheckpoint (Some c)) (NewHistogram o) (fun _ h' => restored o c (checkpointSum c) h').
Proof.
  intros Hgood Ht Hne Hsum. set (new := NewHistogram o).
  assert (Hs : sized new) by (unfold sized, new; cbn; apply length_replicate).
  apply load_runs; [done..|]. intros _ h1 (Ho1&Hs1&Ht1&Hmn&Hmx&Hw).
  assert (Hnil : map_to_list (BucketWeights c) <> []) by (by rewrite map_to_list_empty_iff).
  assert (Hkeys : forall kv, kv ∈ map_to_list (BucketWeights c) -> 0 <= kv.1 < NumBuckets o).
  { intros [b u] Hin%elem_of_map_to_list. by apply (proj2 Hgood b u). }
  constructor; cbn [totalWeight minBucket maxBucket setTotal].
  - rewrite Ht1. by apply fadd_zero_l.
  - rewrite Hmn. destruct (min_key_attained (map_to_list (BucketWeights c)) (minBucket new)) as ([b u]&Hin&<-); [done| |].
    + intros kv Hkv%Hkeys. unfold new. cbn. lia.
    + exists u. by apply elem_of_map_to_list.
  - rewrite Hmx. destruct (max_key_attained (map_to_list (BucketWeights c)) (maxBucket new)) as ([b u]&Hin&<-); [done| |].
    + intros kv Hkv%Hkeys. unfold new. cbn. lia.
    + exists u. by apply elem_of_map_to_list.
  - intros b u Hb%elem_of_map_to_list. rewrite Hmn, Hmx.
    split; [by apply (proj1 (proj2 (min_of_keys _ _)) (b, u))|by apply (proj1 (proj2 (max_of_keys _ _)) (b, u))].
  - intros b Hb. change (weight (setTotal _ h1) b) with (weight h1 b). rewrite Hw, list_to_map_to_list.
    assert (Hz : weight new b = Some fzero).
    { unfold weight, new. rewrite (proj2 (Z.leb_le 0 b)) by lia. cbn. apply lookup_replicate. split; [done|lia]. }
    rewrite Hz. by destruct (BucketWeights c !! b).
Qed.

(** The heaviest bucket of a histogram that is not empty, when epsilon is not tiny and no weight is infinite. *)
Lemma heaviest_normal h heaviest : wf h -> IsEmpty h = Some false ->
  fle (Ldexp fone (-900)) (Epsilon (options h)) = true -> (forall b w, weight h b = Some w -> finiteFloat w) ->
  greatest h (seqZ (minBucket h) (maxBucket h + 1 - minBucket h)) fzero heaviest ->
  (exists m e, heaviest = S754_finite false m e /\ valid (S754_finite false m e) /\ -1000 <= e) /\
  (exists b, minBucket h <= b <= maxBucket h /\ weight h b = Some heaviest) /\
  (forall b w, weight h b = Some w -> fle w heaviest = true).
Proof.
  intros Hwf He Heps Hfin (_&Hall&Hex). pose proof Hwf as [Hib Hti].
  destruct (weight_Some h (minBucket h) Hib (ib_min _ Hib)) as (w0&Hw0&Hiw0).
  assert (Hnum : isNum (Epsilon (options h))) by (intros E; rewrite E in Heps; done).
  assert (Hne : ~ emptyWeight h w0) by (unfold IsEmpty in He; rewrite Hw0 in He; unfold emptyWeight; simplify_eq/=; congruence).
  pose proof (nonempty_order h w0 Hwf Hw0 Hne) as Hle.
  assert (Hw0e : fle (Epsilon (options h)) w0 = true).
  { unfold emptyWeight in Hne. rewrite flt_negb_fle in Hne by (done || by apply weight_num). by destruct (fle _ w0). }
  assert (Hge : fle w0 heaviest = true) by (apply (Hall (minBucket h)); [rewrite elem_of_seqZ; lia|done]).
  assert (Hbig : fle (S754_finite false (2 ^ 52) (-952)) heaviest = true) by (by apply (fle_trans _ (Epsilon (options h))); [|apply (fle_trans _ w0)]).
  destruct Hex as [->|(b&Hb%elem_of_seqZ&Hwb)]; [done|]. split_and!.
  - pose proof (ib_weights _ Hib b heaviest Hwb) as [Hv Hn]. pose proof (Hfin b heaviest Hwb). destruct heaviest as [| | |[] m e]; try done.
    apply fle_finite_pos in Hbig. exists m, e. split_and!; [done..|lia].
  - exists b. split; [lia|done].
  - intros b' w' Hw'. destruct (decide (minBucket h <= b' <= maxBucket h)) as [Hin|Hout]; [apply (Hall b'); [rewrite elem_of_seqZ; lia|done]|].
    assert (Hemp : emptyWeight h w') by (destruct (decide (b' < minBucket h)); [by apply (ti_below _ Hti b')|apply (ti_above _ Hti b'); [lia|done]]).
    unfold emptyWeight in Hemp. pose proof (ib_weights _ Hib b' w' Hw') as Hiw. rewrite flt_negb_fle in Hemp by (done || by apply weight_num).
    apply (fle_trans _ (Epsilon (options h))); [|by apply (fle_trans _ w0)].
    destruct (fle w' (Epsilon (options h))) eqn:E; [done|]. exfalso. apply negb_true_iff in Hemp.
    assert (Hlt : flt (Epsilon (options h)) w' = true) by (rewrite flt_negb_fle, E by (done || by apply weight_num); done).
    clear - Hlt Hemp. unfold flt, SFltb in Hlt. unfold fle, SFleb in Hemp. by destruct (SFcompare _ w') as [[]|].
Qed.

(** C14: A decaying histogram that is not empty, saved and loaded into a new one. The
    checkpoint keeps of each bucket between the bounds its weight relative to that of the
    heaviest bucket, in [MaxCheckpointWeight]-ths: [MaxCheckpointWeight] for the heaviest,
    never more, and nothing for a bucket whose share rounds to zero. The new histogram has
    the same reference time, half life and total weight, its bounds are the first and the
    last bucket of the checkpoint, and it divides the total weight over the buckets in the
    proportion of the checkpoint. The bounds: epsilon is at least 2^-900, there are fewer than
    2^40 buckets, and no weight has overflowed to infinity. *)
Theorem checkpoint_roundtrip o h hl t : optionsOk o -> reachable o h -> flt fzero (totalWeight h) = true ->
  IsEmpty h = Some false -> fle (Ldexp fone (-900)) (Epsilon o) = true -> NumBuckets o < 2 ^ 40 ->
  (forall b w, weight h b = Some w -> finiteFloat w) ->
  exists c d' heaviest, SaveToCheckpoint (mkDecaying h hl t) = Some c /\
    LoadFromCheckpoint (Some c) (NewDecayingHistogram o hl) = (Ok tt, d') /\
    referenceTimestamp d' = t /\ halfLife d' = hl /\
    (exists b, minBucket h <= b <= maxBucket h /\ weight h b = Some heaviest) /\
    (forall b w, weight h b = Some w -> fle w heaviest = true) /\
    (forall b u, BucketWeights c !! b = Some u <-> minBucket h <= b <= maxBucket h /\ exists w,
      weight h b = Some w /\ u = newWeight (fdiv (ofInt MaxCheckpointWeight) heaviest) w /\ 0 < u) /\
    (forall b u, BucketWeights c !! b = Some u -> u <= MaxCheckpointWeight) /\
    (forall b, minBucket h <= b <= maxBucket h -> weight h b = Some heaviest -> BucketWeights c !! b = Some MaxCheckpointWeight) /\
    TotalWeight c = totalWeight h /\
    restored o c (sumOver snd (map_to_list (BucketWeights c))) (hist d').
Proof.
  intros Ho Hr Ht Hne Heps Hn Hfin. destruct (reachable_wf o h Ho Hr) as [Hwf <-]. pose proof Hwf as [Hib Hti].
  destruct (save_spec h Hib) as (c&heaviest&Hsave&Hg&Htot&Hkeys). pose proof (ib_min _ Hib). pose proof (ib_max _ Hib).
  destruct (heaviest_normal h heaviest Hwf Hne Heps Hfin Hg) as ((mh&eh&->&Hvh&Heh)&Hex&Hall).
  assert (Hshare : forall b w, weight h b = Some w -> _) by (intros b w Hw;
    exact (newWeight_share mh eh w Hvh Heh (ib_weights _ Hib b w Hw) (Hfin b w Hw) (Hall b w Hw))).
  assert (Hsmall : forall b u, BucketWeights c !! b = Some u -> 0 <= b < NumBuckets (options h) /\ 0 < u <= MaxCheckpointWeight).
  { intros b u (Hb&w&Hw&->&Hu)%Hkeys. split; [lia|]. split; [done|]. by apply (Hshare b w). }
  assert (Hheavy : forall b, minBucket h <= b <= maxBucket h -> weight h b = Some (S754_finite false mh eh) ->
    BucketWeights c !! b = Some MaxCheckpointWeight).
  { intros b Hb Hw. apply Hkeys. split; [done|]. exists (S754_finite false mh eh). split_and!; [done| |done]. symmetry. by apply (Hshare b _ Hw). }
  assert (Hnonempty : BucketWeights c <> ∅).
  { destruct Hex as (b&Hb&Hw). intros E. specialize (Hheavy b Hb Hw). by rewrite E, lookup_empty in Hheavy. }
  destruct (checkpointSum_small _ c Hn Hsmall) as [Hsum Hpos]. specialize (Hpos Hnonempty).
  assert (Hgood : goodCheckpoint (NumBuckets (options h)) c).
  { split; [|intros b u Hb; by apply (Hsmall b u)].
    rewrite Htot. rewrite flt_negb_fle by (done || by intros E; rewrite E in Ht). by destruct (totalWeight h) as [[]|[]| |[]]. }
  destruct (load_restores (options h) c Hgood) as ([]&h'&Hl&Hrest); [by rewrite Htot|done|lia|].
  exists {| ReferenceTimestamp := t; BucketWeights := BucketWeights c; TotalWeight := TotalWeight c |}, (mkDecaying h' hl t), (S754_finite false mh eh).
  split_and!; try done.
  - unfold SaveToCheckpoint. cbn [hist]. rewrite Hsave. done.
  - unfold LoadFromCheckpoint, onHist, mbind, stateM_bind. cbn [hist NewDecayingHistogram].
    replace (histLoadFromCheckpoint _ (NewHistogram _)) with (histLoadFromCheckpoint (Some c) (NewHistogram (options h))) by (by destruct c). by rewrite Hl.
  - intros b u Hb. by apply (Hsmall b u).
  - cbn [BucketWeights hist]. rewrite <- Hsum. by destruct Hrest.
Qed.

(** ** A checkpoint can lose the first bucket *)
Definition tinyOptions : HistogramOptions :=
  {| loc := 0; kind := Linear {| lin_numBuckets := 10; bucketSize := ofInt 10; lin_epsilon := fdiv fone (ofInt 10000) |} |}.

Definition tinyHistogram : histogram :=
  snd (histAddSample (ofInt 55) (fdiv (ofInt 7) (ofInt 10))
    (snd (histAddSample (ofInt 5) (fdiv fone (ofInt 10000)) (NewHistogram tinyOptions)))).

Lemma tiny_reachable : reachable tinyOptions tinyHistogram.
Proof.
  assert (Hl1 : legal (NewHistogram tinyOptions) (OpAdd (ofInt 5) (fdiv fone (ofInt 10000)))) by (by vm_compute).
  pose proof (reach_step tinyOptions _ _ (reach_new _) Hl1 ltac:(done)) as Hr.
  refine (reach_step tinyOptions _ (OpAdd (ofInt 55) (fdiv (ofInt 7) (ofInt 10))) Hr _ _); [by vm_compute|done].
Qed.

(** A histogram that is not empty and whose percentiles are not zero can come back
    from its checkpoint looking empty, with all percentiles zero: a first bucket just
    above epsilon is saved rounded down, restored below epsilon, and [IsEmpty] looks at
    it alone. *)
Theorem restored_histogram_can_look_empty :
  exists o h c h', optionsOk o /\ reachable o h /\ IsEmpty h = Some false /\
    histPercentile h (fdiv (ofInt 9) (ofInt 10)) = Some (ofInt 60) /\
    histSaveToCheckpoint h = Some c /\
    histLoadFromCheckpoint (Some c) (NewHistogram o) = (Ok tt, h') /\
    IsEmpty h' = Some true /\ (forall p, histPercentile h' p = Some fzero) /\
    exists w, weight h' 5 = Some w /\ ~ emptyWeight h' w.
Proof.
  exists tinyOptions, tinyHistogram.
  destruct (histSaveToCheckpoint tinyHistogram) as [c|] eqn:Ec; [|by vm_compute in Ec].
  exists c. destruct (histLoadFromCheckpoint (Some c) (NewHistogram tinyOptions)) as [r h'] eqn:El. exists h'.
  vm_compute in Ec. injection Ec as <-. vm_compute in El. injection El as <- <-.
  split_and!; [by vm_compute|apply tiny_reachable|by vm_compute..| |].
  - intros p. unfold histPercentile. replace (IsEmpty _) with (Some true) by (by vm_compute). done.
  - eexists. split; [by vm_compute|]. by vm_compute.
Qed.
(** ** The reference time of a decaying histogram *)

(** "It is always an integer multiple of halfLife." *)
Definition aligned (d : decayingHistogram) : Prop := referenceTimestamp d mod halfLife d = 0.

(** The exponent by which [shiftReferenceTimestamp] scales the weights. *)
Definition shiftExponent (d : decayingHistogram) (newref : Time) : Z :=
  round (fdiv (ofInt (timeSub (referenceTimestamp d) newref)) (ofInt (halfLife d))).

(** What shifting to the time [t] needs: the weights and the factor are finite. *)
Record shiftable (d : decayingHistogram) (t : Time) : Prop := {
  sh_wf : wf (hist d);
  sh_halfLife : 0 < halfLife d;
  sh_finite : forall b w, weight (hist d) b = Some w -> finiteFloat w;
  sh_exponent : shiftExponent d (timeRound t (halfLife d)) < 1024
}.

Lemma timeRound_aligned t d : 0 < d -> timeRound t d mod d = 0 /\ 2 * Z.abs (t - timeRound t d) <= d.
Proof.
  intros Hd. unfold timeRound. rewrite (proj2 (Z.leb_gt d 0)) by lia. pose proof (Z.mod_pos_bound t d Hd) as Hm.
  pose proof (Z.div_mod t d ltac:(lia)) as Ht. destruct (Z.ltb_spec (t mod d + t mod d) d).
  - split; [|lia]. replace (t - t mod d) with ((t / d) * d) by lia. apply Z.mod_mul. lia.
  - split; [|lia]. replace (t + (d - t mod d)) with ((t / d + 1) * d) by lia. apply Z.mod_mul. lia.
Qed.

Lemma timeRound_id t d : 0 < d -> t mod d = 0 -> timeRound t d = t.
Proof. intros Hd Ht. unfold timeRound. rewrite (proj2 (Z.leb_gt d 0)), Ht by lia. destruct (Z.ltb_spec (0 + 0) d); lia. Qed.

(** Shifting a histogram that can be shifted. *)
Lemma shift_runs d t : shiftable d t ->
  runs (shiftReferenceTimestamp t) d (fun _ d' => wf (hist d') /\ halfLife d' = halfLife d /\
    options (hist d') = options (hist d) /\ referenceTimestamp d' = timeRound t (halfLife d)).
Proof.
  intros [Hwf Hhl Hfin Hexp]. unfold shiftReferenceTimestamp. do 2 run_step. fold (shiftExponent d (timeRound t (halfLife d))).
  destruct (Ldexp_one_spec _ Hexp) as [Hw Hf]. set (f := Ldexp fone _) in *. run_step.
  destruct (scale_wf (hist d) f Hwf Hw) as ([]&h'&Hs&Hwf'&Ho&_).
  { intros b w Hb. apply fmul_finite_num; [by apply (Hfin b)|done]. }
  exists tt, (mkDecaying h' (halfLife d) (referenceTimestamp d)). split; [unfold onHist; by rewrite Hs|].
  unfold setReference. run_step. split; [exact Hwf'|]. split; [reflexivity|]. split; [exact Ho|reflexivity].
Qed.

(** The decay factor of a sample is two to the power of its age in half lives, and
    the exponent is at most [maxDecayExponent]: for a sample further in the future the
    reference time moves first, to within half a half life of the sample.  The reference
    time remains a multiple of the half life. *)
Theorem decay_exponent_is_bounded d t : shiftable d t -> aligned d ->
  in_int64 (halfLife d * maxDecayExponent) ->
  runs (decayFactor t) d (fun f d' =>
    f = math_Exp2 (fdiv (ofInt (timeSub t (referenceTimestamp d'))) (ofInt (halfLife d))) /\
    timeSub t (referenceTimestamp d') <= halfLife d * maxDecayExponent /\
    aligned d' /\ halfLife d' = halfLife d /\ wf (hist d') /\
    (t <= referenceTimestamp d + halfLife d * maxDecayExponent -> d' = d) /\
    (referenceTimestamp d + halfLife d * maxDecayExponent < t -> 2 * Z.abs (t - referenceTimestamp d') <= halfLife d)).
Proof.
  intros Hsh Hal Hin. pose proof (sh_halfLife _ _ Hsh) as Hhl. unfold decayFactor. do 2 run_step. run_step.
  unfold maxAllowedTimestamp. rewrite wrap64_id by done. unfold in_int64, min_int64, max_int64, maxDecayExponent in *.
  destruct (Z.ltb_spec (referenceTimestamp d + halfLife d * 100) t).
  - eapply runs_mono; [by apply shift_runs|]. intros [] d' (Hwf&Hhl'&_&Href). do 3 run_step. rewrite Hhl'.
    destruct (timeRound_aligned t (halfLife d) Hhl) as [Hr Hd]. rewrite <- Href in Hr, Hd.
    split_and!; try done; [|unfold aligned; by rewrite Hhl'|lia]. unfold timeSub, min_int64, max_int64. lia.
  - do 4 run_step. split_and!; try done; [|apply Hsh|lia]. unfold timeSub, min_int64, max_int64. lia.
Qed.

(** Merging two decaying histograms brings both to the later of their reference
    times before any weight is added. *)
Theorem merge_aligns_references d o : shiftable d (referenceTimestamp o) -> shiftable o (referenceTimestamp d) ->
  aligned d -> aligned o -> halfLife d = halfLife o -> options (hist d) = options (hist o) ->
  runs Merge (d, o) (fun _ '(d', o') =>
    referenceTimestamp d' = Z.max (referenceTimestamp d) (referenceTimestamp o) /\
    referenceTimestamp o' = Z.max (referenceTimestamp d) (referenceTimestamp o) /\
    wf (hist d') /\ wf (hist o') /\ options (hist d') = options (hist d) /\ halfLife d' = halfLife d).
Proof.
  intros Hd Ho Had Hao Ehl Eo. pose proof (sh_halfLife _ _ Hd) as Hhl. unfold Merge, runs. cbv beta iota.
  rewrite (proj2 (Z.eqb_eq _ _) Ehl). cbn [negb].
  (* the addition, once both have the same reference *)
  assert (Hadd : forall d1 o1, wf (hist d1) -> wf (hist o1) -> options (hist d1) = options (hist o1) ->
    exists h', onHist (histMerge (hist o1)) d1 = (Ok tt, mkDecaying h' (halfLife d1) (referenceTimestamp d1)) /\ wf h' /\ options h' = options (hist d1)).
  { intros d1 o1 H1 H2 H3. destruct (merge_wf _ _ H1 H2 H3) as ([]&h'&Hm&Hwf&Hopt). exists h'. unfold onHist. by rewrite Hm. }
  unfold aligned in *. destruct (Z.ltb_spec (referenceTimestamp d) (referenceTimestamp o)); [|destruct (Z.ltb_spec (referenceTimestamp o) (referenceTimestamp d))].
  - destruct (shift_runs d _ Hd) as ([]&d1&Hs&Hwf&Hhl1&Ho1&Href). rewrite Hs.
    rewrite timeRound_id in Href by (done || by rewrite Ehl). destruct (Hadd d1 o) as (h'&Hm&Hwf'&Ho'); [done|apply Ho|congruence|].
    rewrite Hm. exists tt, (mkDecaying h' (halfLife d1) (referenceTimestamp d1), o). split; [reflexivity|]. cbn.
    rewrite Href, Z.max_r by lia. split_and!; try reflexivity; [exact Hwf'|apply Ho|congruence|congruence].
  - destruct (shift_runs o _ Ho) as ([]&o1&Hs&Hwf&Hhl1&Ho1&Href). rewrite Hs.
    rewrite timeRound_id in Href by (lia || by rewrite <- Ehl). destruct (Hadd d o1) as (h'&Hm&Hwf'&Ho'); [apply Hd|done|congruence|].
    rewrite Hm. exists tt, (mkDecaying h' (halfLife d) (referenceTimestamp d), o1). split; [reflexivity|]. cbn.
    rewrite Href, Z.max_l by lia. split_and!; try reflexivity; [exact Hwf'|exact Hwf|congruence].
  - destruct (Hadd d o) as (h'&Hm&Hwf'&Ho'); [apply Hd|apply Ho|done|].
    rewrite Hm. exists tt, (mkDecaying h' (halfLife d) (referenceTimestamp d), o). split; [reflexivity|]. cbn.
    split_and!; [lia|lia|exact Hwf'|apply Ho|congruence|reflexivity].
Qed.
End Theorems.

(** ** Witnesses *)
Section Witnesses.
#[local] Existing Instance exampleMath.

Lemma tinyOptions_ok : optionsOk tinyOptions.
Proof. by split; vm_compute. Qed.

Lemma reachable_histogram_is_tight_witness : 0 <= minBucket tinyHistogram < NumBuckets tinyOptions.
Proof. exact (proj1 (reachable_histogram_is_tight tinyOptions tinyHistogram tinyOptions_ok tiny_reachable)). Defined.

Lemma percentile_is_end_of_first_bucket_witness :
  exists k v, minBucket tinyHistogram <= k <= maxBucket tinyHistogram /\ histPercentile tinyHistogram fone = Some v.
Proof.
  destruct (percentile_is_end_of_first_bucket tinyOptions tinyHistogram fone tinyOptions_ok tiny_reachable ltac:(vm_compute; reflexivity))
    as (k&v&Hk&_&_&Hv&_). exists k, v. split; [exact Hk|exact Hv].
Defined.

Lemma tiny_finite b w : weight tinyHistogram b = Some w -> finiteFloat w.
Proof.
  unfold weight. destruct (0 <=? b); [|done]. intros Hw%list_elem_of_lookup_2. revert w Hw.
  apply list.Forall_forall. vm_compute. repeat constructor.
Qed.

Lemma checkpoint_roundtrip_witness : exists c d',
  SaveToCheckpoint (mkDecaying tinyHistogram 7 21) = Some c /\
  LoadFromCheckpoint (Some c) (NewDecayingHistogram tinyOptions 7) = (Ok tt, d') /\ referenceTimestamp d' = 21.
Proof.
  destruct (checkpoint_roundtrip tinyOptions tinyHistogram 7 21 tinyOptions_ok tiny_reachable ltac:(vm_compute; reflexivity)
      ltac:(vm_compute; reflexivity) ltac:(vm_compute; reflexivity) ltac:(vm_compute; reflexivity) tiny_finite)
    as (c&d'&heaviest&Hs&Hl&Hr&_). exists c, d'. split; [exact Hs|]. split; [exact Hl|exact Hr].
Defined.

Lemma tiny_shiftable t : shiftExponent (mkDecaying tinyHistogram 7 21) (timeRound t 7) < 1024 ->
  shiftable (mkDecaying tinyHistogram 7 21) t.
Proof.
  intros He. split; [|reflexivity| |exact He].
  - apply (reachable_wf tinyOptions); [apply tinyOptions_ok|apply tiny_reachable].
  - apply tiny_finite.
Qed.

Lemma decay_exponent_is_bounded_witness :
  runs (decayFactor 800) (mkDecaying tinyHistogram 7 21) (fun _ d' => 2 * Z.abs (800 - referenceTimestamp d') <= 7).
Proof.
  eapply runs_mono.
  - apply (decay_exponent_is_bounded (mkDecaying tinyHistogram 7 21) 800); [apply tiny_shiftable; by vm_compute|reflexivity|by vm_compute].
  - intros f d' (_&_&_&_&_&_&Hd). apply Hd. by vm_compute.
Defined.

Lemma merge_aligns_references_witness :
  runs Merge (mkDecaying tinyHistogram 7 21, mkDecaying tinyHistogram 7 21) (fun _ '(d', o') =>
    referenceTimestamp d' = referenceTimestamp o').
Proof.
  eapply runs_mono.
  - apply (merge_aligns_references (mkDecaying tinyHistogram 7 21) (mkDecaying tinyHistogram 7 21)); [apply tiny_shiftable; by vm_compute..|reflexivity| | |]; reflexivity.
  - intros _ [d' o'] (Hd&Ho&_). by rewrite Hd, Ho.
Defined.
End Witnesses.

