(* ===== verification/ContainerUsage.v ===== *)
(** * The usage samples of a container (recommender/model/types.go, container.go)

    Amounts of resources, the samples of their usage, and the state of one container: it
    passes the samples on to an aggregator, the memory samples reduced to one peak per
    aggregation interval.  The aggregator is an interface of the code, a class here. *)
From S2P Require Import Prelude Api Float64 Histogram.
Local Open Scope Z_scope.

(** A Go pointer to a value that nothing changes: compared by its address. *)
Record ptr (A : Type) := { addr : nat; deref : A }.
Arguments addr {A} p.
Arguments deref {A} p.

(** ** Amounts *)
Abbreviation ResourceName := string.
Abbreviation ResourceAmount := Z.
Abbreviation Resources := (gmap ResourceName ResourceAmount).

Definition MaxResourceAmount : ResourceAmount := 10 ^ 14.

Section Amounts.
Context `{MathLib}.

Definition resourceAmountFromFloat (amount : float64) : ResourceAmount :=
  if flt amount fzero then 0
  else if flt (ofInt MaxResourceAmount) amount then MaxResourceAmount
  else toInt amount.

Definition CPUAmountFromCores (cores : float64) : ResourceAmount :=
  resourceAmountFromFloat (fmul cores (ofInt 1000)).

Definition CoresFromCPUAmount (cpuAmount : ResourceAmount) : float64 := fdiv (ofInt cpuAmount) (ofInt 1000).

Definition MemoryAmountFromBytes (bytes : float64) : ResourceAmount := resourceAmountFromFloat bytes.

Definition BytesFromMemoryAmount (memoryAmount : ResourceAmount) : float64 := ofInt memoryAmount.

Definition ScaleResource (amount : ResourceAmount) (factor : float64) : ResourceAmount :=
  resourceAmountFromFloat (fmul (ofInt amount) factor).
End Amounts.

(** A [resource.Quantity] of so many milli-units, or of so many units, of an amount in range. *)
Definition QuantityFromCPUAmount (cpuAmount : ResourceAmount) : Quantity :=
  {| MilliValue := cpuAmount; Value := - (- cpuAmount / 1000) |}.
Definition QuantityFromMemoryAmount (memoryAmount : ResourceAmount) : Quantity :=
  {| MilliValue := memoryAmount * 1000; Value := memoryAmount |}.

(** Names that are not known are logged and left out. *)
Definition ResourcesAsResourceList (resources : Resources) : ResourceList :=
  map_fold (fun key amount result =>
    if decide (key = ResourceCPU) then <[ResourceCPU := QuantityFromCPUAmount amount]> result
    else if decide (key = ResourceMemory) then <[ResourceMemory := QuantityFromMemoryAmount amount]> result
    else result) ∅ resources.

Definition ResourceNamesApiToModel (resources : list string) : list ResourceName :=
  filter (fun r => r = ResourceCPU \/ r = ResourceMemory) resources.

(** [int64(amount) % int64(unit)] rounds toward zero; [None] is the division by zero. *)
Definition RoundResourceAmount (amount unit : ResourceAmount) : option ResourceAmount :=
  if decide (unit = 0) then None else Some (amount - Z.rem amount unit).

Definition ResourceAmountMax (amount1 amount2 : ResourceAmount) : ResourceAmount :=
  if amount2 <? amount1 then amount1 else amount2.

(** ** Identifiers *)
Abbreviation PodID := (string * string)%type.
Abbreviation ContainerID := (PodID * string)%type.
Abbreviation VpaID := (string * string)%type.

(** The errors of the recommender's model. *)
Inductive modelError :=
  | PodKeyError (key : PodID)
  | ContainerKeyError (key : ContainerID)
  | ContainerNameKeyError (key : string)
  | VpaKeyError (key : VpaID)
  | SampleDiscarded
  | OOMTooOld (timestamp : Time)
  | OOMSampleFailed
  | RecordingOOM (containerID : ContainerID) (reason : modelError)
  | RecommendationMissing (vpa : VpaID)
  | CheckpointRefused (reason : checkpointError)
  | CheckpointForMissingVpa (vpa : VpaID)
  | CheckpointNotLoaded (vpa : VpaID) (reason : modelError).

(** ** Samples *)
Record ContainerUsageSample := {
  MeasureStart : Time;
  Usage : ResourceAmount;
  Request : ResourceAmount;
  Resource_field : ResourceName
}.
#[export] Instance ContainerUsageSample_eq : EqDecision ContainerUsageSample.
Proof. solve_decision. Defined.

Definition isValid (sample : ContainerUsageSample) (expectedResource : ResourceName) : bool :=
  (0 <=? Usage sample) && bool_decide (Resource_field sample = expectedResource).

(** [vpa_types.UpdateMode], a string. *)
Definition UpdateModeOff : string := "Off".
Definition UpdateModeAuto : string := "Auto".

(** [ContainerStateAggregator]: [W] is the world that the methods change. *)
Class ContainerStateAggregator (W A : Type) := {
  agg_AddSample : A -> ContainerUsageSample -> stateM W modelError unit;
  agg_SubtractSample : A -> ContainerUsageSample -> stateM W modelError unit;
  agg_GetLastRecommendation : A -> stateM W modelError (option ResourceList);
  agg_NeedsRecommendation : A -> stateM W modelError bool;
  agg_GetUpdateMode : A -> stateM W modelError (option (ptr string))
}.

(** ** Aggregation settings (aggregations_config.go) *)
Record AggregationsConfig := {
  MemoryAggregationInterval : Duration;
  MemoryAggregationIntervalCount : Z;
  CPUHistogramOptions : HistogramOptions;
  MemoryHistogramOptions : HistogramOptions;
  HistogramBucketSizeGrowth : float64;
  MemoryHistogramDecayHalfLife : Duration;
  CPUHistogramDecayHalfLife : Duration
}.

Section Config.
Context `{MathLib}.

(** 0.1 and 0.001 * 0.1, which the compiler computes exactly. *)
Definition minSampleWeight : float64 := fdiv fone (ofInt 10).
Definition epsilon : float64 := fdiv fone (ofInt 10000).

Definition hour : Duration := 3600 * 10 ^ 9.
Definition DefaultMemoryAggregationIntervalCount : Z := 8.
Definition DefaultMemoryAggregationInterval : Duration := 48 * hour.
Definition DefaultHistogramBucketSizeGrowth : float64 := fdiv fone (ofInt 20).
Definition DefaultMemoryHistogramDecayHalfLife : Duration := 24 * hour.
Definition DefaultCPUHistogramDecayHalfLife : Duration := 24 * hour.

Definition GetMemoryAggregationWindowLength (a : AggregationsConfig) : Duration :=
  wrap64 (MemoryAggregationInterval a * MemoryAggregationIntervalCount a).

(** [None] is the panic for options that are not valid. *)
Definition cpuHistogramOptions (growth : float64) : option HistogramOptions :=
  o ← NewExponentialHistogramOptions (ofInt 1000) (fdiv fone (ofInt 100)) (fadd fone growth) epsilon;
  Some {| loc := 1; kind := Exponential o |}.

Definition memoryHistogramOptions (growth : float64) : option HistogramOptions :=
  o ← NewExponentialHistogramOptions (ofInt (10 ^ 12)) (ofInt (10 ^ 7)) (fadd fone growth) epsilon;
  Some {| loc := 2; kind := Exponential o |}.

Definition NewAggregationsConfig (memoryAggregationInterval : Duration) (memoryAggregationIntervalCount : Z)
    (memoryHistogramDecayHalfLife cpuHistogramDecayHalfLife : Duration) : option AggregationsConfig :=
  cpu ← cpuHistogramOptions DefaultHistogramBucketSizeGrowth;
  memory ← memoryHistogramOptions DefaultHistogramBucketSizeGrowth;
  Some {| MemoryAggregationInterval := memoryAggregationInterval;
          MemoryAggregationIntervalCount := memoryAggregationIntervalCount;
          CPUHistogramOptions := cpu;
          MemoryHistogramOptions := memory;
          HistogramBucketSizeGrowth := DefaultHistogramBucketSizeGrowth;
          MemoryHistogramDecayHalfLife := memoryHistogramDecayHalfLife;
          CPUHistogramDecayHalfLife := cpuHistogramDecayHalfLife |}.

(** The package variable, which is set on the first use. *)
Definition GetAggregationsConfig (aggregationsConfig : option AggregationsConfig) : option AggregationsConfig :=
  match aggregationsConfig with
  | Some a => Some a
  | None => NewAggregationsConfig DefaultMemoryAggregationInterval DefaultMemoryAggregationIntervalCount
      DefaultMemoryHistogramDecayHalfLife DefaultCPUHistogramDecayHalfLife
  end.
End Config.

(** The settings in use, one for the whole program. *)
Class Config := config : AggregationsConfig.

(** ** The container *)
Record ContainerState (A : Type) := mkContainer {
  cs_Request : Resources;
  LastCPUSampleStart : Time;
  memoryPeak : ResourceAmount;
  oomPeak : ResourceAmount;
  WindowEnd : Time;
  lastMemorySampleStart : Time;
  aggregator : A
}.
Arguments mkContainer {A} _ _ _ _ _ _ _.
Arguments cs_Request {A} c.
Arguments LastCPUSampleStart {A} c.
Arguments memoryPeak {A} c.
Arguments oomPeak {A} c.
Arguments WindowEnd {A} c.
Arguments lastMemorySampleStart {A} c.
Arguments aggregator {A} c.

Section Setters.
Context {A : Type}.

Definition setRequest r (c : ContainerState A) := mkContainer r (LastCPUSampleStart c) (memoryPeak c) (oomPeak c) (WindowEnd c) (lastMemorySampleStart c) (aggregator c).
Definition setLastCPU t (c : ContainerState A) := mkContainer (cs_Request c) t (memoryPeak c) (oomPeak c) (WindowEnd c) (lastMemorySampleStart c) (aggregator c).
Definition setMemoryPeak p (c : ContainerState A) := mkContainer (cs_Request c) (LastCPUSampleStart c) p (oomPeak c) (WindowEnd c) (lastMemorySampleStart c) (aggregator c).
Definition setOomPeak p (c : ContainerState A) := mkContainer (cs_Request c) (LastCPUSampleStart c) (memoryPeak c) p (WindowEnd c) (lastMemorySampleStart c) (aggregator c).
Definition setWindowEnd t (c : ContainerState A) := mkContainer (cs_Request c) (LastCPUSampleStart c) (memoryPeak c) (oomPeak c) t (lastMemorySampleStart c) (aggregator c).
Definition setLastMemory t (c : ContainerState A) := mkContainer (cs_Request c) (LastCPUSampleStart c) (memoryPeak c) (oomPeak c) (WindowEnd c) t (aggregator c).
Definition setAggregator (a : A) (c : ContainerState A) := mkContainer (cs_Request c) (LastCPUSampleStart c) (memoryPeak c) (oomPeak c) (WindowEnd c) (lastMemorySampleStart c) a.

Definition NewContainerState (request : Resources) (a : A) : ContainerState A := mkContainer request 0 0 0 0 0 a.

Definition GetMaxMemoryPeak (c : ContainerState A) : ResourceAmount := ResourceAmountMax (memoryPeak c) (oomPeak c).
End Setters.

(** [truncate(d, m)]: toward zero, to a multiple of [m]. *)
Definition truncate (d m : Duration) : Duration := if m <=? 0 then d else d - Z.rem d m.

Section Container.
Context `{MathLib} {W A : Type} `{ContainerStateAggregator W A} `{Config}.

(** A method of a container, which also changes the world through its aggregator. *)
Abbreviation container := (stateM (ContainerState A * W) modelError).

Definition onWorld {X} (m : A -> stateM W modelError X) : container X := fun '(c, w) =>
  let '(r, w') := m (aggregator c) w in (r, (c, w')).

Definition getC : container (ContainerState A) := fun s => (Ok (fst s), s).
Definition modifyC (f : ContainerState A -> ContainerState A) : container unit := modify (fun '(c, w) => (f c, w)).

Definition observeQualityMetrics (usage : ResourceAmount) (resource : string) : container unit :=
  needs ← onWorld agg_NeedsRecommendation;
  if (needs : bool) then
    updateMode ← onWorld agg_GetUpdateMode;
    let usageValue := if decide (resource = ResourceCPU) then CoresFromCPUAmount usage
      else if decide (resource = ResourceMemory) then BytesFromMemoryAmount usage else fzero in
    last ← onWorld agg_GetLastRecommendation;
    match last with
    | None => mret tt
    | Some _ =>
        last ← onWorld agg_GetLastRecommendation;
        let recommendation := default zeroQuantity (default ∅ last !! resource) in
        if (MilliValue recommendation =? 0) && (Value recommendation =? 0) then mret tt
        else if decide (resource = ResourceCPU \/ resource = ResourceMemory) then
          let recommendationValue := if decide (resource = ResourceCPU)
            then fdiv (ofInt (MilliValue recommendation)) (ofInt 1000) else ofInt (Value recommendation) in
          if flt fzero usageValue || flt fzero recommendationValue then mret tt
          else match updateMode with Some _ => mret tt | None => panic end
        else mret tt
    end
  else mret tt.

Definition addCPUSample (sample : ContainerUsageSample) : container bool :=
  c ← getC;
  if negb (isValid sample ResourceCPU) || negb (LastCPUSampleStart c <? MeasureStart sample) then mret false
  else
    observeQualityMetrics (Usage sample) ResourceCPU;;
    onWorld (fun a => agg_AddSample a sample);;
    modifyC (setLastCPU (MeasureStart sample));;
    mret true.

(** A peak of the current interval, as a sample. *)
Definition peakSample (c : ContainerState A) (usage request : ResourceAmount) : ContainerUsageSample :=
  {| MeasureStart := WindowEnd c; Usage := usage; Request := request; Resource_field := ResourceMemory |}.

Definition addMemorySample (sample : ContainerUsageSample) (isOOM : bool) : container bool :=
  let ts := MeasureStart sample in
  c ← getC;
  if negb (isValid sample ResourceMemory) || (negb isOOM && (ts <? lastMemorySampleStart c)) then mret false
  else
    modifyC (setLastMemory ts);;
    modifyC (fun c => if WindowEnd c =? 0 then setWindowEnd ts c else c);;
    c ← getC;
    addNewPeak ← (
      if ts <? WindowEnd c then
        let oldMaxMem := GetMaxMemoryPeak c in
        if negb (oldMaxMem =? 0) && (oldMaxMem <? Usage sample) then
          onWorld (fun a => agg_SubtractSample a (peakSample c oldMaxMem (Request sample)));;
          mret true
        else mret false
      else
        let interval := MemoryAggregationInterval config in
        let shift := wrap64 (truncate (timeSub ts (WindowEnd c)) interval + interval) in
        modifyC (fun c => setOomPeak 0 (setMemoryPeak 0 (setWindowEnd (WindowEnd c + shift) c)));;
        mret true);
    observeQualityMetrics (Usage sample) ResourceMemory;;
    (if (addNewPeak : bool) then
      c ← getC;
      onWorld (fun a => agg_AddSample a (peakSample c (Usage sample) (Request sample)));;
      modifyC (if isOOM then setOomPeak (Usage sample) else setMemoryPeak (Usage sample))
    else mret tt);;
    mret true.

(** 1.2 and 100 MB *)
Definition OOMBumpUpRatio : float64 := fdiv (ofInt 12) (ofInt 10).
Definition OOMMinBumpUp : float64 := ofInt (100 * 1024 * 1024).

(** The memory that a container needs that ran out of it. *)
Definition memoryAfterOOM (memoryUsed : ResourceAmount) : ResourceAmount :=
  ResourceAmountMax (wrap64 (memoryUsed + MemoryAmountFromBytes OOMMinBumpUp)) (ScaleResource memoryUsed OOMBumpUpRatio).

Definition ContainerRecordOOM (timestamp : Time) (requestedMemory : ResourceAmount) : container unit :=
  c ← getC;
  if timestamp <? WindowEnd c + wrap64 (-1 * MemoryAggregationInterval config) then fail (OOMTooOld timestamp)
  else
    let memoryUsed := ResourceAmountMax requestedMemory (memoryPeak c) in
    added ← addMemorySample {| MeasureStart := timestamp; Usage := memoryAfterOOM memoryUsed; Request := 0;
                               Resource_field := ResourceMemory |} true;
    if (added : bool) then mret tt else fail OOMSampleFailed.

Definition ContainerAddSample (sample : ContainerUsageSample) : container bool :=
  if decide (Resource_field sample = ResourceCPU) then addCPUSample sample
  else if decide (Resource_field sample = ResourceMemory) then addMemorySample sample false
  else mret false.
End Container.
