(* ===== verification/ContainerSpec.v ===== *)
(** * One memory peak per interval

    "Each container aggregates one peak per aggregation interval" (container.go): an
    abstract machine that keeps the intervals and their maxima, and the theorem that the
    calls a container makes to its aggregator leave there exactly the peaks of the
    machine. *)
From S2P Require Import Prelude Api Float64 Histogram ContainerUsage.
Local Open Scope Z_scope.

(** ** An aggregator that notes the calls *)
Inductive aggregatorCall :=
  | Added (sample : ContainerUsageSample)
  | Subtracted (sample : ContainerUsageSample).

(** What the aggregator answers; any answers, as long as the update mode is set. *)
Record answers := {
  ans_last : list aggregatorCall -> option ResourceList;
  ans_needs : list aggregatorCall -> bool;
  ans_mode : list aggregatorCall -> ptr string
}.

#[export] Instance noteCalls : ContainerStateAggregator (list aggregatorCall) answers := {|
  agg_AddSample _ s := modify (fun log => log ++ [Added s]);
  agg_SubtractSample _ s := modify (fun log => log ++ [Subtracted s]);
  agg_GetLastRecommendation a := fun log => (Ok (ans_last a log), log);
  agg_NeedsRecommendation a := fun log => (Ok (ans_needs a log), log);
  agg_GetUpdateMode a := fun log => (Ok (Some (ans_mode a log)), log)
|}.

(** The memory peaks in the aggregator after some calls, with the time each was added
    at; [None] if a peak is subtracted that is not there. *)
Abbreviation peak := (ResourceAmount * Time)%type.

Fixpoint removeOne (p : peak) (l : list peak) : option (list peak) :=
  match l with
  | [] => None
  | q :: l => if decide (p = q) then Some l else l' ← removeOne p l; Some (q :: l')
  end.

Definition noteCall (live : list peak) (c : aggregatorCall) : option (list peak) :=
  match c with
  | Added s => if decide (Resource_field s = ResourceMemory) then Some ((Usage s, MeasureStart s) :: live) else Some live
  | Subtracted s => removeOne (Usage s, MeasureStart s) live
  end.

Definition peaksOf (log : list aggregatorCall) : option (list peak) :=
  foldl (fun acc c => live ← acc; noteCall live c) (Some []) log.

Lemma peaksOf_app log c : peaksOf (log ++ [c]) = (live ← peaksOf log; noteCall live c).
Proof. unfold peaksOf. by rewrite foldl_app. Qed.

(** ** The events of a container *)
Inductive usageEvent :=
  | Sampled (sample : ContainerUsageSample)
  | OutOfMemory (timestamp : Time) (requestedMemory : ResourceAmount).

(** A memory sample as it reaches the machine: the time, the usage, whether it stands for
    running out of memory. *)
Record offer := { of_time : Time; of_usage : ResourceAmount; of_oom : bool }.

(** ** The machine *)
Record peakMachine := {
  pm_last : Time;              (* of the latest sample *)
  pm_end : Time;               (* of the current interval; 0 before the first sample *)
  pm_peak : ResourceAmount;    (* the maximum of the current interval *)
  pm_closed : list peak        (* the maxima of the intervals before, with their ends *)
}.

Definition newMachine : peakMachine := {| pm_last := 0; pm_end := 0; pm_peak := 0; pm_closed := [] |}.

Section Machine.
Context `{MathLib} `{Config}.

Abbreviation interval := (MemoryAggregationInterval config).

(** The first end of an interval after the time [t]; intervals follow one another from
    the end [e] on. *)
Definition nextEnd (e t : Time) : Time := e + ((t - e) / interval + 1) * interval.

Definition machineStep (m : peakMachine) (o : offer) : peakMachine :=
  let t := of_time o in
  if negb (of_oom o) && (t <? pm_last m) then m
  else if pm_end m =? 0 then
    {| pm_last := t; pm_end := t + interval; pm_peak := of_usage o; pm_closed := pm_closed m |}
  else if t <? pm_end m then
    {| pm_last := t; pm_end := pm_end m; pm_peak := Z.max (pm_peak m) (of_usage o); pm_closed := pm_closed m |}
  else
    {| pm_last := t; pm_end := nextEnd (pm_end m) t; pm_peak := of_usage o;
       pm_closed := (pm_peak m, pm_end m) :: pm_closed m |}.

(** The peaks that the machine promises to be in the aggregator. *)
Definition machinePeaks (m : peakMachine) : list peak :=
  if pm_end m =? 0 then pm_closed m else (pm_peak m, pm_end m) :: pm_closed m.

(** ** Running a container *)
Abbreviation state := (ContainerState answers * list aggregatorCall)%type.

Definition runEvent (e : usageEvent) : stateM state modelError unit :=
  match e with
  | Sampled s => ContainerAddSample s;; mret tt
  | OutOfMemory t r => logged (ContainerRecordOOM t r)
  end.

Definition runEvents (es : list usageEvent) : stateM state modelError unit :=
  foldr (fun e k => runEvent e ≫= fun _ => k) (mret tt) es.

(** The memory sample, if any, that an event offers to a container. *)
Definition offerOf (c : ContainerState answers) (e : usageEvent) : option offer :=
  match e with
  | Sampled s =>
      if decide (Resource_field s = ResourceMemory /\ 0 <= Usage s)
      then Some {| of_time := MeasureStart s; of_usage := Usage s; of_oom := false |} else None
  | OutOfMemory t r =>
      let usage := memoryAfterOOM (ResourceAmountMax r (memoryPeak c)) in
      if decide (WindowEnd c - interval <= t /\ 0 <= usage)
      then Some {| of_time := t; of_usage := usage; of_oom := true |} else None
  end.

Fixpoint offers (es : list usageEvent) (s : state) : list offer :=
  match es with
  | [] => []
  | e :: es => option_list (offerOf (fst s) e) ++ offers es (snd (runEvent e s))
  end.

(** Times within 73 years of [epoch], and a usage that is not zero. *)
Definition plausible (epoch : Time) (o : offer) : Prop := epoch < of_time o < epoch + 2 ^ 61 /\ 0 < of_usage o.
End Machine.

(** ** The simulation *)
Section Simulation.
Context `{MathLib} `{Config}.
Abbreviation interval := (MemoryAggregationInterval config).
Context (epoch : Time) (epoch_pos : 0 <= epoch) (interval_range : 0 < interval < 2 ^ 61).

Record tracks (m : peakMachine) (s : ContainerState answers * list aggregatorCall) : Prop := {
  tr_last : pm_last m = lastMemorySampleStart (fst s);
  tr_end : pm_end m = WindowEnd (fst s);
  tr_range : pm_end m = 0 \/ epoch < pm_end m;
  tr_peak : pm_end m <> 0 -> pm_peak m = GetMaxMemoryPeak (fst s) /\ 0 < pm_peak m;
  tr_nonneg : 0 <= memoryPeak (fst s) /\ 0 <= oomPeak (fst s);
  tr_live : exists live, peaksOf (snd s) = Some live /\ live ≡ₚ machinePeaks m
}.

Lemma removeOne_spec p l : p ∈ l -> exists l', removeOne p l = Some l' /\ l ≡ₚ p :: l'.
Proof.
  induction l as [|q l IH]; intros Hp; [by apply elem_of_nil in Hp|]. cbn. case_decide as E; [subst q; by exists l|].
  apply elem_of_cons in Hp as [|Hp]; [done|]. destruct (IH Hp) as (l'&->&Hl'). exists (q :: l'). split; [done|].
  rewrite Hl'. apply Permutation_swap.
Qed.

(** The observation of the metrics has no effect. *)
Lemma observe_runs usage resource s Φ : Φ tt s -> runs (observeQualityMetrics usage resource) s Φ.
Proof.
  intros HΦ. destruct s as [c log]. exists tt, (c, log). split; [|done].
  unfold observeQualityMetrics, onWorld, mbind, stateM_bind, mret, stateM_ret. cbn.
  destruct (ans_needs (aggregator c) log); [|done]. destruct (ans_last (aggregator c) log); [|done].
  by repeat case_match.
Qed.

Lemma runs_getC (s : ContainerState answers * list aggregatorCall) Φ : Φ (fst s) s -> runs getC s Φ.
Proof. intros HΦ. by exists (fst s), s. Qed.

Lemma runs_modifyC f (s : ContainerState answers * list aggregatorCall) Φ : Φ tt (f (fst s), snd s) -> runs (modifyC f) s Φ.
Proof. intros HΦ. destruct s as [c log]. by exists tt, (f c, log). Qed.

Lemma runs_add sample (s : ContainerState answers * list aggregatorCall) Φ :
  Φ tt (fst s, snd s ++ [Added sample]) -> runs (onWorld (fun a => agg_AddSample a sample)) s Φ.
Proof. intros HΦ. destruct s as [c log]. by exists tt, (c, log ++ [Added sample]). Qed.

Lemma runs_subtract sample (s : ContainerState answers * list aggregatorCall) Φ :
  Φ tt (fst s, snd s ++ [Subtracted sample]) -> runs (onWorld (fun a => agg_SubtractSample a sample)) s Φ.
Proof. intros HΦ. destruct s as [c log]. by exists tt, (c, log ++ [Subtracted sample]). Qed.

Ltac c_step := first [ apply runs_getC | apply runs_modifyC | apply runs_add | apply runs_subtract
                     | apply observe_runs | run_step ]; cbn [fst snd].

Lemma max_max a b : ResourceAmountMax a b = Z.max a b.
Proof. unfold ResourceAmountMax. destruct (Z.ltb_spec b a); lia. Qed.

Lemma peaks_added log live smp : peaksOf log = Some live -> Resource_field smp = ResourceMemory ->
  peaksOf (log ++ [Added smp]) = Some ((Usage smp, MeasureStart smp) :: live).
Proof. intros Hl Hr. rewrite peaksOf_app, Hl. bind_simpl. cbn. by rewrite decide_True. Qed.

(** A sample that opens an interval. *)
Lemma window_shift e t : 0 <= e -> epoch < t < epoch + 2 ^ 61 -> e = t \/ epoch < e -> e <= t ->
  wrap64 (truncate (timeSub t e) interval + interval) = ((t - e) / interval + 1) * interval.
Proof.
  intros He Ht Her Hle. assert (Hd : 0 <= t - e < 2 ^ 61) by lia. unfold timeSub, min_int64, max_int64.
  rewrite Z.min_r, Z.max_r by lia.
  unfold truncate. rewrite (proj2 (Z.leb_gt interval 0)) by lia. rewrite Z.rem_mod_nonneg by lia.
  pose proof (Z.mod_pos_bound (t - e) interval (proj1 interval_range)).
  assert (Hne : interval <> 0) by lia. pose proof (Z.div_mod (t - e) interval Hne).
  rewrite wrap64_id; [lia|]. unfold in_int64, min_int64, max_int64. lia.
Qed.

(** The container after a sample that opens an interval, and after one that becomes the
    peak of the interval. *)
Definition opened (c : ContainerState answers) (e : Time) (u : ResourceAmount) (oom : bool) : ContainerState answers :=
  (if oom then setOomPeak u else setMemoryPeak u) (setOomPeak 0 (setMemoryPeak 0 (setWindowEnd e c))).

Lemma tracks_opened m (s : ContainerState answers * list aggregatorCall) e u (oom : bool) t smp : tracks m s -> epoch < e -> 0 < u ->
  Usage smp = u -> MeasureStart smp = e -> Resource_field smp = ResourceMemory ->
  tracks {| pm_last := t; pm_end := e; pm_peak := u; pm_closed := machinePeaks m |}
    (opened (setLastMemory t (fst s)) e u oom, snd s ++ [Added smp]).
Proof.
  intros [Hlast Hend Hrange Hpeak [Hm Ho] (live&Hlive&Hperm)] Hepoch Hu Eu Es Er.
  constructor; cbn [fst snd pm_last pm_end pm_peak pm_closed].
  - by destruct oom.
  - by destruct oom.
  - by right.
  - intros _. split; [|done]. unfold GetMaxMemoryPeak. rewrite max_max. destruct oom; cbn; lia.
  - destruct oom; cbn; lia.
  - exists ((u, e) :: live). split.
    + rewrite (peaks_added _ live); [by rewrite Eu, Es|done|done].
    + unfold machinePeaks at 1. cbn [pm_end pm_peak pm_closed]. rewrite (proj2 (Z.eqb_neq e 0)) by lia. by rewrite Hperm.
Qed.

Lemma tracks_raised m (s : ContainerState answers * list aggregatorCall) u (oom : bool) t request : tracks m s -> pm_end m <> 0 -> pm_peak m < u ->
  let c := (if oom then setOomPeak u else setMemoryPeak u) (setLastMemory t (fst s)) in
  tracks {| pm_last := t; pm_end := pm_end m; pm_peak := u; pm_closed := pm_closed m |}
    (c, (snd s ++ [Subtracted (peakSample (setLastMemory t (fst s)) (GetMaxMemoryPeak (setLastMemory t (fst s))) request)])
          ++ [Added (peakSample (setLastMemory t (fst s)) u request)]).
Proof.
  intros [Hlast Hend Hrange Hpeak [Hm Ho] (live&Hlive&Hperm)] Hne Hu c. destruct (Hpeak Hne) as [Epeak Hpos].
  unfold GetMaxMemoryPeak in *. rewrite max_max in *.
  constructor; cbn [fst snd pm_last pm_end pm_peak pm_closed].
  - by destruct oom.
  - by destruct oom.
  - done.
  - intros _. split; [|lia]. unfold GetMaxMemoryPeak. rewrite max_max. destruct oom; cbn; lia.
  - destruct oom; cbn; lia.
  - unfold machinePeaks in *. cbn [pm_end pm_peak pm_closed] in *. rewrite (proj2 (Z.eqb_neq (pm_end m) 0)) in * by done.
    destruct (removeOne_spec (pm_peak m, pm_end m) live) as (live'&Hrem&Hlive'); [rewrite Hperm; by left|].
    exists ((u, pm_end m) :: live'). split; [|rewrite Hlive' in Hperm; by apply Permutation_cons_inv in Hperm as ->].
    rewrite (peaks_added _ live'); [by rewrite Hend|rewrite peaksOf_app, Hlive; bind_simpl|done].
    change (removeOne (Z.max (memoryPeak (fst s)) (oomPeak (fst s)), WindowEnd (fst s)) live = Some live').
    by rewrite <- Epeak, <- Hend.
Qed.

Lemma tracks_seen m (s : ContainerState answers * list aggregatorCall) t : tracks m s ->
  tracks {| pm_last := t; pm_end := pm_end m; pm_peak := pm_peak m; pm_closed := pm_closed m |} (setLastMemory t (fst s), snd s).
Proof. intros [Hlast Hend Hrange Hpeak Hnn Hlive]. by constructor. Qed.

Lemma addMemory_tracks m s o request : tracks m s -> plausible epoch o ->
  runs (addMemorySample {| MeasureStart := of_time o; Usage := of_usage o; Request := request; Resource_field := ResourceMemory |} (of_oom o)) s
    (fun added s' => tracks (machineStep m o) s' /\ (of_oom o = true -> added = true)).
Proof.
  intros Htr [Ht Hu]. pose proof Htr as [Hlast Hend Hrange Hpeak _ _]. destruct s as [c log], o as [t u oom].
  unfold addMemorySample, machineStep. cbn [fst snd of_time of_usage of_oom MeasureStart Usage] in *.
  do 2 c_step. replace (isValid _ _) with true by (unfold isValid; cbn; by rewrite (proj2 (Z.leb_le 0 u)) by lia).
  cbn [negb orb]. rewrite <- Hlast. destruct (negb oom && (t <? pm_last m)) eqn:Eold.
  { c_step. split; [done|]. by intros ->. }
  do 4 c_step. do 2 c_step. cbn [setLastMemory WindowEnd]. rewrite <- Hend.
  destruct (Z.eqb_spec (pm_end m) 0) as [E0|Hne]; [|destruct (Z.ltb_spec t (pm_end m)) as [Hlt|Hge]].
  - cbn [setWindowEnd WindowEnd]. rewrite Z.ltb_irrefl. repeat c_step. split; [|done].
    cbn [setWindowEnd WindowEnd]. rewrite (window_shift t t), Z.sub_diag, Z.div_0_l, Z.mul_1_l by lia.
    replace (pm_closed m) with (machinePeaks m) by (unfold machinePeaks; by rewrite E0).
    apply (tracks_opened m (c, log)); done || lia.
  - assert (Hlt' : (t <? WindowEnd c) = true) by (rewrite <- Hend; by apply Z.ltb_lt).
    cbn [setLastMemory WindowEnd]. rewrite Hlt'.
    destruct (Hpeak Hne) as [Epeak Hpos]. change (GetMaxMemoryPeak (setLastMemory t c)) with (GetMaxMemoryPeak c). rewrite <- Epeak.
    rewrite (proj2 (Z.eqb_neq (pm_peak m) 0)) by lia. cbn [negb andb].
    destruct (Z.ltb_spec (pm_peak m) u) as [Hgt|Hle].
    + repeat c_step. split; [|done]. rewrite Z.max_r by lia. rewrite Epeak.
      apply (tracks_raised m (c, log)); done || lia.
    + repeat c_step. split; [|done]. rewrite Z.max_l by lia. by apply (tracks_seen m (c, log)).
  - assert (Hge' : (t <? WindowEnd c) = false) by (rewrite <- Hend; by apply Z.ltb_ge).
    cbn [setLastMemory WindowEnd]. rewrite Hge'. repeat c_step. split; [|done].
    cbn [setLastMemory WindowEnd]. destruct Hrange as [|Hrange]; [done|]. rewrite <- Hend, window_shift by (lia || by right).
    replace ((pm_peak m, pm_end m) :: pm_closed m) with (machinePeaks m) by (unfold machinePeaks; by rewrite (proj2 (Z.eqb_neq _ _) Hne)).
    apply (tracks_opened m (c, log)); try done. unfold nextEnd.
    assert (0 <= (t - pm_end m) / interval) by (apply Z.div_pos; lia). nia.
Qed.

(** ** Whole runs *)
Lemma addCPU_tracks m s smp : tracks m s -> Resource_field smp = ResourceCPU -> runs (addCPUSample smp) s (fun _ s' => tracks m s').
Proof.
  intros Htr Hcpu. unfold addCPUSample. do 2 c_step. destruct (_ || _); [by c_step|]. repeat c_step.
  destruct Htr as [Hlast Hend Hrange Hpeak Hnn (live&Hlive&Hperm)]. constructor; try done.
  exists live. split; [|done]. cbn [snd]. rewrite peaksOf_app, Hlive. bind_simpl. cbn. by rewrite decide_False by (by rewrite Hcpu).
Qed.

Lemma addMemory_invalid s smp oom Φ : Usage smp < 0 -> Φ false s -> runs (addMemorySample smp oom) s Φ.
Proof.
  intros Hneg HΦ. unfold addMemorySample. do 2 c_step. unfold isValid. rewrite (proj2 (Z.leb_gt 0 (Usage smp))) by done. by c_step.
Qed.

Lemma runs_logged {S E} (m : stateM S E unit) s Φ : runs m s Φ -> runs (logged m) s Φ.
Proof. intros ([]&s'&Hm&HΦ). exists tt, s'. unfold logged. by rewrite Hm. Qed.

Lemma runs_logged_err {S E} (m : stateM S E unit) e s s' Φ : m s = (Err e, s') -> Φ tt s' -> runs (logged m) s Φ.
Proof. intros Hm HΦ. exists tt, s'. split; [|done]. unfold logged. by rewrite Hm. Qed.

Lemma runEvent_tracks m s e : tracks m s ->
  (forall o, offerOf (fst s) e = Some o -> plausible epoch o) ->
  runs (runEvent e) s (fun _ s' => tracks (foldl machineStep m (option_list (offerOf (fst s) e))) s').
Proof.
  intros Htr Hpl. destruct e as [[ts u rq res]|t r]; cbn [runEvent offerOf Resource_field Usage MeasureStart] in *.
  - unfold ContainerAddSample. cbn [Resource_field]. c_step. destruct (decide (res = ResourceCPU)) as [->|Hcpu].
    { rewrite decide_False by (by intros [? _]). eapply runs_mono; [by apply addCPU_tracks|]. intros b s' Hs'. by c_step. }
    destruct (decide (res = ResourceMemory)) as [->|Hmem].
    2:{ rewrite decide_False by (by intros [? _]). by repeat c_step. }
    destruct (decide (0 <= u)) as [Hu|Hu].
    + rewrite decide_True in Hpl |- * by done. eapply runs_mono; [apply (addMemory_tracks m s {| of_time := ts; of_usage := u; of_oom := false |} rq Htr); by apply Hpl|].
      intros b s' [Hs' _]. by c_step.
    + rewrite decide_False by tauto. apply addMemory_invalid; [cbn; lia|]. by c_step.
  - set (usage := memoryAfterOOM _) in *. unfold ContainerRecordOOM. fold usage.
    assert (Hneg : wrap64 (-1 * interval) = - interval) by (rewrite wrap64_id; [lia|unfold in_int64, min_int64, max_int64; lia]).
    rewrite Hneg. destruct (Z.ltb_spec t (WindowEnd (fst s) + - interval)) as [Hold|Hin].
    { rewrite decide_False by lia. apply (runs_logged_err _ (OOMTooOld t) _ s); [|done].
      unfold mbind, stateM_bind, getC. by rewrite (proj2 (Z.ltb_lt _ _)) by done. }
    destruct (decide (0 <= usage)) as [Hu|Hu].
    + rewrite decide_True in Hpl |- * by lia. apply runs_logged. do 2 c_step.
      rewrite (proj2 (Z.ltb_ge _ _)) by done. fold usage. run_step.
      eapply runs_mono; [apply (addMemory_tracks m s {| of_time := t; of_usage := usage; of_oom := true |} 0 Htr); by apply Hpl|].
      intros b s' [Hs' Hb]. rewrite Hb by done. by c_step.
    + rewrite decide_False by lia.
      destruct (addMemory_invalid s {| MeasureStart := t; Usage := usage; Request := 0; Resource_field := ResourceMemory |} true
        (fun b s' => b = false /\ s' = s)) as (b&s'&Hadd&->&->); [cbn; lia|done|].
      apply (runs_logged_err _ OOMSampleFailed _ s); [|done]. unfold mbind, stateM_bind, getC.
      rewrite (proj2 (Z.ltb_ge _ _)) by done. fold usage. by rewrite Hadd.
Qed.

Lemma runEvents_tracks es : forall m s, tracks m s -> Forall (plausible epoch) (offers es s) ->
  runs (runEvents es) s (fun _ s' => tracks (foldl machineStep m (offers es s)) s').
Proof.
  induction es as [|e es IH]; intros m s Htr Hpl; [by apply runs_ret|]. cbn [runEvents foldr offers] in *.
  apply Forall_app in Hpl as [Hpl Hpls]. run_step.
  destruct (runEvent_tracks m s e Htr) as ([]&s'&He&Htr').
  { intros o Ho. rewrite Ho in Hpl. by apply Forall_inv in Hpl. }
  rewrite He in Hpls |- *. cbn [snd] in *. exists tt, s'. split; [done|]. rewrite foldl_app. by apply IH.
Qed.

(** C15: Whatever samples and out-of-memory events a container gets, as long as the usage that it is
    offered is positive, and the times are within 2^61 nanoseconds (73 years) after the epoch and the
    interval is shorter, it hands to its
    aggregator, net of what it takes back, one peak per aggregation interval: the
    machine's, which is the maximum of the usage in the interval.  A peak is taken back
    only when it is there, with the time it was added at.  (With a usage of zero this fails:
    [zero_usage_hides_the_peak].) *)
Theorem memory_peaks_refine_the_machine request a log0 es :
  peaksOf log0 = Some [] ->
  Forall (plausible epoch) (offers es (NewContainerState request a, log0)) ->
  runs (runEvents es) (NewContainerState request a, log0) (fun _ '(c, log) =>
    exists live, peaksOf log = Some live /\
      live ≡ₚ machinePeaks (foldl machineStep newMachine (offers es (NewContainerState request a, log0)))).
Proof.
  intros Hlog Hpl. eapply runs_mono; [apply (runEvents_tracks es newMachine); [|done]|].
  - constructor; try done; [by left|]. by exists [].
  - intros [] [c log] Htr. apply Htr.
Qed.
(** The first sample of a container opens an interval, whatever its usage. *)
Lemma first_sample_runs request a t u rq Φ : epoch < t < epoch + 2 ^ 61 -> 0 <= u ->
  Φ true (mkContainer request 0 u 0 (t + interval) t a,
          [Added {| MeasureStart := t + interval; Usage := u; Request := rq; Resource_field := ResourceMemory |}]) ->
  runs (addMemorySample {| MeasureStart := t; Usage := u; Request := rq; Resource_field := ResourceMemory |} false)
    (NewContainerState request a, []) Φ.
Proof.
  intros Ht Hu HΦ. unfold addMemorySample. cbn [Usage MeasureStart Request]. do 2 c_step.
  replace (isValid _ _) with true by (unfold isValid; cbn; by rewrite (proj2 (Z.leb_le 0 u)) by lia).
  replace (t <? _) with false by (symmetry; apply Z.ltb_ge; cbn; lia). cbn [negb orb andb]. repeat c_step.
  change (WindowEnd (setLastMemory t (NewContainerState request a)) =? 0) with true. cbn [setWindowEnd WindowEnd].
  rewrite Z.ltb_irrefl. repeat c_step. cbn [setWindowEnd WindowEnd].
  rewrite (window_shift t t), Z.sub_diag, Z.div_0_l, Z.mul_1_l by lia. done.
Qed.

(** A later sample of an interval whose peak is zero changes nothing but the time. *)
Lemma hidden_sample_runs (s : ContainerState answers * list aggregatorCall) t u rq Φ : 0 <= u ->
  lastMemorySampleStart (fst s) <= t < WindowEnd (fst s) -> WindowEnd (fst s) <> 0 -> GetMaxMemoryPeak (fst s) = 0 ->
  Φ true (setLastMemory t (fst s), snd s) ->
  runs (addMemorySample {| MeasureStart := t; Usage := u; Request := rq; Resource_field := ResourceMemory |} false) s Φ.
Proof.
  intros Hu Ht Hne Hmax HΦ. destruct s as [c log]. cbn [fst snd] in *. unfold addMemorySample. cbn [Usage MeasureStart Request]. do 2 c_step.
  replace (isValid _ _) with true by (unfold isValid; cbn; by rewrite (proj2 (Z.leb_le 0 u)) by lia).
  rewrite (proj2 (Z.ltb_ge t _)) by lia. cbn [negb orb andb]. repeat c_step.
  change (WindowEnd (setLastMemory t c)) with (WindowEnd c). rewrite (proj2 (Z.eqb_neq (WindowEnd c) 0)) by done.
  change (WindowEnd (setLastMemory t c)) with (WindowEnd c). rewrite (proj2 (Z.ltb_lt t (WindowEnd c))) by lia.
  change (GetMaxMemoryPeak (setLastMemory t c)) with (GetMaxMemoryPeak c). rewrite Hmax. cbn [negb Z.eqb andb]. by repeat c_step.
Qed.

(** An interval that opens with a usage of zero never gets another peak: a later
    sample of the interval is accepted, but whatever its usage the aggregator keeps the
    peak of zero, because "no peak yet" is recognised by the peak being zero. *)
Theorem zero_usage_hides_the_peak request a t t' u rq :
  epoch < t < epoch + 2 ^ 61 -> t <= t' < t + interval -> 0 < u ->
  let first := {| MeasureStart := t; Usage := 0; Request := rq; Resource_field := ResourceMemory |} in
  let second := {| MeasureStart := t'; Usage := u; Request := rq; Resource_field := ResourceMemory |} in
  runs (ContainerAddSample first ≫= fun added => ContainerAddSample second ≫= fun added' => mret (added && added'))
    (NewContainerState request a, [])
    (fun accepted '(c, log) => accepted = true /\ peaksOf log = Some [(0, t + interval)] /\
      GetMaxMemoryPeak c = 0 /\ WindowEnd c = t + interval).
Proof.
  intros Ht Ht' Hu first second. change (ContainerAddSample first) with (addMemorySample (W := list aggregatorCall) (A := answers) first false).
  change (ContainerAddSample second) with (addMemorySample (W := list aggregatorCall) (A := answers) second false).
  run_step. apply first_sample_runs; [done|done|]. run_step.
  apply hidden_sample_runs; cbn [fst snd WindowEnd lastMemorySampleStart]; [lia..|done|]. by run_step.
Qed.
End Simulation.

(** ** Witnesses *)
Section Witnesses.
#[local] Existing Instance exampleMath.

Definition exampleOptions : HistogramOptions :=
  {| loc := 0; kind := Linear {| lin_numBuckets := 10; bucketSize := ofInt 100; lin_epsilon := fdiv fone (ofInt 1000) |} |}.

Definition exampleConfig : Config := {|
  MemoryAggregationInterval := 100; MemoryAggregationIntervalCount := 8;
  CPUHistogramOptions := exampleOptions; MemoryHistogramOptions := exampleOptions;
  HistogramBucketSizeGrowth := fone; MemoryHistogramDecayHalfLife := 50; CPUHistogramDecayHalfLife := 50 |}.
#[local] Existing Instance exampleConfig.

Definition silent : answers :=
  {| ans_last _ := None; ans_needs _ := false; ans_mode _ := {| addr := 0; deref := UpdateModeAuto |} |}.

Definition memoryAt (t u : Z) : usageEvent :=
  Sampled {| MeasureStart := t; Usage := u; Request := 0; Resource_field := ResourceMemory |}.

Definition exampleEvents : list usageEvent := [memoryAt 1000 5; memoryAt 1050 9; OutOfMemory 1060 7; memoryAt 1070 8; memoryAt 1150 3].

Lemma memory_peaks_refine_the_machine_witness :
  runs (runEvents exampleEvents) (NewContainerState ∅ silent, []) (fun _ '(c, log) =>
    exists live, peaksOf log = Some live /\ live ≡ₚ [(3, 1200); (104857609, 1100)]).
Proof.
  apply (memory_peaks_refine_the_machine 0 ltac:(done) ltac:(done) ∅ silent [] exampleEvents eq_refl).
  apply (bool_decide_unpack _). vm_compute. exact I.
Defined.

Lemma zero_usage_hides_the_peak_witness :
  let first := {| MeasureStart := 1000; Usage := 0; Request := 0; Resource_field := ResourceMemory |} in
  let second := {| MeasureStart := 1001; Usage := 5000; Request := 0; Resource_field := ResourceMemory |} in
  runs (ContainerAddSample first ≫= fun added => ContainerAddSample second ≫= fun added' => mret (added && added'))
    (NewContainerState ∅ silent, [])
    (fun accepted '(c, log) => accepted = true /\ peaksOf log = Some [(0, 1100)] /\ GetMaxMemoryPeak c = 0 /\ WindowEnd c = 1100).
Proof. apply (zero_usage_hides_the_peak 0 ltac:(done) ltac:(done) ∅ silent 1000 1001 5000 0); done. Defined.
End Witnesses.
