(* ===== verification/AggregateState.v ===== *)
(** * The aggregated state of containers (recommender/model/aggregate_container_state.go)

    The distributions of the usage of a set of containers, with what the VPA object that
    controls them says.  The methods are [stateM]s of the state; [now] is [time.Now()]. *)
From S2P Require Import Prelude Api Float64 Histogram ContainerUsage.
Local Open Scope Z_scope.

(** ** Parts of a state *)
Definition zoom {S T E E' A} (get : T -> S) (set : S -> T -> T) (err : E -> E') (m : stateM S E A) : stateM T E' A :=
  fun t => let '(r, s) := m (get t) in
    (match r with Ok a => Ok a | Err e => Err (err e) | Panic => Panic end, set s t).

(** ** Policies of a VPA object (recommender/types/vpa.go) *)
Definition ContainerScalingModeAuto : string := "Auto".
Definition ContainerScalingModeOff : string := "Off".

Record ContainerResourcePolicy := {
  crp_ContainerName : string;
  crp_Mode : option string;
  crp_ControlledResources : option (list string)
}.
Record PodResourcePolicy := { ContainerPolicies : list ContainerResourcePolicy }.
Record PodUpdatePolicy := { pup_UpdateMode : option (ptr string) }.

Record AggregateContainerState := mkAggregate {
  AggregateCPUUsage : decayingHistogram;
  AggregateMemoryPeaks : decayingHistogram;
  FirstSampleStart : Time;
  LastSampleStart : Time;
  TotalSamplesCount : Z;
  CreationTime : Time;
  LastRecommendation : option ResourceList;
  IsUnderVPA : bool;
  UpdateMode : option (ptr string);
  ScalingMode : option string;
  ControlledResources : option (list ResourceName)
}.

Definition setSamples first last count a := mkAggregate (AggregateCPUUsage a) (AggregateMemoryPeaks a) first last count
  (CreationTime a) (LastRecommendation a) (IsUnderVPA a) (UpdateMode a) (ScalingMode a) (ControlledResources a).
Definition setCPUUsage h a := mkAggregate h (AggregateMemoryPeaks a) (FirstSampleStart a) (LastSampleStart a) (TotalSamplesCount a)
  (CreationTime a) (LastRecommendation a) (IsUnderVPA a) (UpdateMode a) (ScalingMode a) (ControlledResources a).
Definition setMemoryPeaks h a := mkAggregate (AggregateCPUUsage a) h (FirstSampleStart a) (LastSampleStart a) (TotalSamplesCount a)
  (CreationTime a) (LastRecommendation a) (IsUnderVPA a) (UpdateMode a) (ScalingMode a) (ControlledResources a).
Definition setControl last under mode scaling controlled a := mkAggregate (AggregateCPUUsage a) (AggregateMemoryPeaks a)
  (FirstSampleStart a) (LastSampleStart a) (TotalSamplesCount a) (CreationTime a) last under mode scaling controlled.

Definition DefaultControlledResources : list ResourceName := [ResourceCPU; ResourceMemory].

Definition NeedsRecommendation (a : AggregateContainerState) : bool :=
  IsUnderVPA a && match ScalingMode a with Some m => negb (bool_decide (m = ContainerScalingModeOff)) | None => false end.

Definition GetControlledResources (a : AggregateContainerState) : list ResourceName :=
  default DefaultControlledResources (ControlledResources a).

Definition MarkNotAutoscaled (a : AggregateContainerState) : AggregateContainerState :=
  setControl None false None None None a.

(** The state's [UpdateMode], and with [IsUnderVPA] what [UseAggregationIfMatching] sets. *)
Definition setUpdateMode m a := setControl (LastRecommendation a) (IsUnderVPA a) m (ScalingMode a) (ControlledResources a) a.
Definition setUnderVPA m a := setControl (LastRecommendation a) true m (ScalingMode a) (ControlledResources a) a.
Definition setLastRecommendation r a := setControl r (IsUnderVPA a) (UpdateMode a) (ScalingMode a) (ControlledResources a) a.

Definition UpdateFromPolicy (resourcePolicy : option ContainerResourcePolicy) (a : AggregateContainerState) : AggregateContainerState :=
  let scaling := default ContainerScalingModeAuto (resourcePolicy ≫= crp_Mode) in
  let controlled := match resourcePolicy ≫= crp_ControlledResources with
                    | Some rs => ResourceNamesApiToModel rs
                    | None => DefaultControlledResources
                    end in
  setControl (LastRecommendation a) (IsUnderVPA a) (UpdateMode a) (Some scaling) (Some controlled) a.

Record CheckpointStatus := {
  vc_FirstSampleStart : Time;
  vc_LastSampleStart : Time;
  vc_TotalSamplesCount : Z;
  MemoryHistogram : HistogramCheckpoint;
  CPUHistogram : HistogramCheckpoint
}.

Section Aggregate.
Context `{MathLib} `{Config}.

Definition NewAggregateContainerState (now : Time) : AggregateContainerState := {|
  AggregateCPUUsage := NewDecayingHistogram (CPUHistogramOptions config) (CPUHistogramDecayHalfLife config);
  AggregateMemoryPeaks := NewDecayingHistogram (MemoryHistogramOptions config) (MemoryHistogramDecayHalfLife config);
  FirstSampleStart := 0; LastSampleStart := 0; TotalSamplesCount := 0; CreationTime := now;
  LastRecommendation := None; IsUnderVPA := false; UpdateMode := None; ScalingMode := None; ControlledResources := None
|}.

Abbreviation aggregate := (stateM AggregateContainerState modelError).

Definition onCPU {A} (m : decayingMethod A) : aggregate A := zoom AggregateCPUUsage setCPUUsage CheckpointRefused m.
Definition onMemory {A} (m : decayingMethod A) : aggregate A := zoom AggregateMemoryPeaks setMemoryPeaks CheckpointRefused m.

Definition aggAddCPUSample (sample : ContainerUsageSample) : aggregate unit :=
  let cpuUsageCores := CoresFromCPUAmount (Usage sample) in
  let cpuRequestCores := CoresFromCPUAmount (Request sample) in
  onCPU (AddSample cpuUsageCores (fmax cpuRequestCores minSampleWeight) (MeasureStart sample));;
  modify (fun a => setSamples
    (if (FirstSampleStart a =? 0) || (MeasureStart sample <? FirstSampleStart a) then MeasureStart sample else FirstSampleStart a)
    (if LastSampleStart a <? MeasureStart sample then MeasureStart sample else LastSampleStart a)
    (wrap64 (TotalSamplesCount a + 1)) a).

Definition aggAddSample (sample : ContainerUsageSample) : aggregate unit :=
  if decide (Resource_field sample = ResourceCPU) then aggAddCPUSample sample
  else if decide (Resource_field sample = ResourceMemory)
  then onMemory (AddSample (BytesFromMemoryAmount (Usage sample)) fone (MeasureStart sample))
  else panic.

Definition aggSubtractSample (sample : ContainerUsageSample) : aggregate unit :=
  if decide (Resource_field sample = ResourceMemory)
  then onMemory (SubtractSample (BytesFromMemoryAmount (Usage sample)) fone (MeasureStart sample))
  else panic.

(** Merging two different states; the histograms of [other] may be shifted. *)
Definition MergeContainerState : stateM (AggregateContainerState * AggregateContainerState) modelError unit :=
  zoom (fun '(a, o) => (AggregateCPUUsage a, AggregateCPUUsage o)) (fun '(h, h2) '(a, o) => (setCPUUsage h a, setCPUUsage h2 o))
    CheckpointRefused Merge;;
  zoom (fun '(a, o) => (AggregateMemoryPeaks a, AggregateMemoryPeaks o)) (fun '(h, h2) '(a, o) => (setMemoryPeaks h a, setMemoryPeaks h2 o))
    CheckpointRefused Merge;;
  modify (fun '(a, other) => (setSamples
    (if (FirstSampleStart a =? 0) || (negb (FirstSampleStart other =? 0) && (FirstSampleStart other <? FirstSampleStart a))
     then FirstSampleStart other else FirstSampleStart a)
    (if LastSampleStart a <? LastSampleStart other then LastSampleStart other else LastSampleStart a)
    (wrap64 (TotalSamplesCount a + TotalSamplesCount other)) a, other)).

(** [None] is a panic; the histograms return no error. *)
Definition aggSaveToCheckpoint (a : AggregateContainerState) : option CheckpointStatus :=
  memory ← SaveToCheckpoint (AggregateMemoryPeaks a);
  cpu ← SaveToCheckpoint (AggregateCPUUsage a);
  Some {| vc_FirstSampleStart := FirstSampleStart a; vc_LastSampleStart := LastSampleStart a;
          vc_TotalSamplesCount := TotalSamplesCount a; MemoryHistogram := memory; CPUHistogram := cpu |}.

Definition aggLoadFromCheckpoint (checkpoint : CheckpointStatus) : aggregate unit :=
  modify (setSamples (vc_FirstSampleStart checkpoint) (vc_LastSampleStart checkpoint) (vc_TotalSamplesCount checkpoint));;
  onMemory (LoadFromCheckpoint (Some (MemoryHistogram checkpoint)));;
  onCPU (LoadFromCheckpoint (Some (CPUHistogram checkpoint))).

Definition isEmptyAggregate (a : AggregateContainerState) : bool := TotalSamplesCount a =? 0.

Definition isExpired (a : AggregateContainerState) (now : Time) : bool :=
  if isEmptyAggregate a then GetMemoryAggregationWindowLength config <=? timeSub now (CreationTime a)
  else GetMemoryAggregationWindowLength config <=? timeSub now (LastSampleStart a).
End Aggregate.
