(* ===== verification/ClusterState.v ===== *)
(** * The recommender's model of the cluster (recommender/model/vpa.go, cluster.go)

    Pods with their containers, VPA objects, and the aggregated states of containers.
    An aggregated state is shared: the cluster, the VPA objects and, after a change of
    labels, containers hold pointers to it.  The states live in a store and the pointers
    are their locations.  Where the code ranges over a Go map, the order is that of
    [map_to_list], one of those Go may choose; [now] is [time.Now()]. *)
From S2P Require Import Prelude Api Float64 Histogram ContainerUsage AggregateState.
Local Open Scope Z_scope.

(** ** Keys and labels *)
Record AggregateStateKey := { key_namespace : string; key_containerName : string; key_labelSetKey : string }.
#[export] Instance AggregateStateKey_eq : EqDecision AggregateStateKey.
Proof. solve_decision. Defined.
#[export] Instance AggregateStateKey_countable : Countable AggregateStateKey.
Proof.
  refine (inj_countable' (fun k => (key_namespace k, key_containerName k, key_labelSetKey k))
    (fun '(n, c, l) => {| key_namespace := n; key_containerName := c; key_labelSetKey := l |}) _). by intros [].
Defined.

(** [labels.Set.String()] of k8s.io/apimachinery, and [String()] of a selector. *)
Class LabelsString := labelSetString : LabelSet -> string.

(** What that package documents: each label as key=value, in some fixed order, with commas between them. *)
Definition labelItem (kv : string * string) : string := String.append (fst kv) (String.append "=" (snd kv)).
Class LabelsText `{LabelsString} := labels_text (s : LabelSet) :
  exists items, items ≡ₚ labelItem <$> map_to_list s /\ labelSetString s = String.concat "," items.

(** The syntax of the labels of Kubernetes: neither separator is in a key or in a value. *)
Definition equalsChar : Ascii.ascii := Ascii.ascii_of_nat 61.
Definition commaChar : Ascii.ascii := Ascii.ascii_of_nat 44.
Definition plainText (t : string) : Prop := lacks equalsChar t /\ lacks commaChar t.
Definition plainLabels (s : LabelSet) : Prop := map_Forall (fun key value => plainText key /\ plainText value) s.
Record podSelector := { ps_Selector : Selector; ps_String : string }.

(** The labels of a key, through the map of label sets. *)
Abbreviation labelSetMap := (gmap string LabelSet).
Definition keyLabels (m : labelSetMap) (k : AggregateStateKey) : LabelSet := default ∅ (m !! key_labelSetKey k).

(** [PodLabelsMatchVPA] (recommender/util/vpa_api_util.go); [None]: a nil selector is called. *)
Definition PodLabelsMatchVPA (podNamespace : string) (labels : LabelSet) (vpaNamespace : string)
    (vpaSelector : option podSelector) : option bool :=
  if decide (podNamespace = vpaNamespace) then s ← vpaSelector; Some (Matches (ps_Selector s) labels) else Some false.

(** [GetContainerResourcePolicy], of the same file, finds no policy. *)
Definition GetContainerResourcePolicy (containerName : string) (policy : option (ptr PodResourcePolicy))
    : option ContainerResourcePolicy := None.

(** ** VPA objects *)
Definition RecommendationProvided : string := "RecommendationProvided".
Definition NoPodsMatched : string := "NoPodsMatched".
Definition FetchingHistory : string := "FetchingHistory".

Record Condition := {
  cond_Type : string;
  cond_Status : bool;
  cond_LastTransitionTime : Time;
  cond_Reason : string;
  cond_Message : string
}.
Abbreviation conditionsMap := (gmap string Condition).

Record RecommendedContainerResources := {
  rec_ContainerName : string;
  rec_Target : ResourceList;
  rec_LowerBound : ResourceList;
  rec_UpperBound : ResourceList;
  rec_UncappedTarget : ResourceList
}.
Abbreviation RecommendedPodResources := (list RecommendedContainerResources).

(** The object of the API. *)
Record VerticalPodAutoscaler := {
  api_Namespace : string;
  api_Name : string;
  api_UpdatePolicy : option PodUpdatePolicy;
  api_ResourcePolicy : option (ptr PodResourcePolicy);
  api_Conditions : list Condition;
  api_Recommendation : option RecommendedPodResources
}.

Definition conditionsSet (now : Time) (conditionType : string) (status : bool) (reason message : string)
    (m : conditionsMap) : conditionsMap :=
  let since := match m !! conditionType with
    | Some old => if bool_decide (cond_Status old = status) then cond_LastTransitionTime old else now
    | None => now
    end in
  <[conditionType := {| cond_Type := conditionType; cond_Status := status; cond_LastTransitionTime := since;
                        cond_Reason := reason; cond_Message := message |}]> m.

Definition ConditionActive (m : conditionsMap) (conditionType : string) : bool :=
  match m !! conditionType with Some c => cond_Status c | None => false end.

(** [AsList], sorted by type: the types are the keys of the map. *)
Definition conditionLe (a b : Condition) : Prop := String.leb (cond_Type a) (cond_Type b) = true.
#[export] Instance conditionLe_dec : RelDecision conditionLe.
Proof. intros a b. unfold conditionLe. apply _. Defined.
Definition conditionsAsList (m : conditionsMap) : list Condition := merge_sort conditionLe ((map_to_list m).*2).

Record Vpa := mkVpa {
  vpa_ID : VpaID;
  PodSelector : option podSelector;
  vpa_Conditions : conditionsMap;
  vpa_Recommendation : option RecommendedPodResources;
  aggregateContainerStates : gmap AggregateStateKey nat;
  vpa_ResourcePolicy : option (ptr PodResourcePolicy);
  ContainersInitialAggregateState : gmap string AggregateContainerState;
  vpa_UpdateMode : option (ptr string);
  vpa_Created : Time;
  CheckpointWritten : Time;
  PodCount : Z
}.

Definition setAggregations s v := mkVpa (vpa_ID v) (PodSelector v) (vpa_Conditions v) (vpa_Recommendation v) s
  (vpa_ResourcePolicy v) (ContainersInitialAggregateState v) (vpa_UpdateMode v) (vpa_Created v) (CheckpointWritten v) (PodCount v).
Definition setPodCount n v := mkVpa (vpa_ID v) (PodSelector v) (vpa_Conditions v) (vpa_Recommendation v) (aggregateContainerStates v)
  (vpa_ResourcePolicy v) (ContainersInitialAggregateState v) (vpa_UpdateMode v) (vpa_Created v) (CheckpointWritten v) n.
Definition setConditions c v := mkVpa (vpa_ID v) (PodSelector v) c (vpa_Recommendation v) (aggregateContainerStates v)
  (vpa_ResourcePolicy v) (ContainersInitialAggregateState v) (vpa_UpdateMode v) (vpa_Created v) (CheckpointWritten v) (PodCount v).
Definition setRecommendation r v := mkVpa (vpa_ID v) (PodSelector v) (vpa_Conditions v) r (aggregateContainerStates v)
  (vpa_ResourcePolicy v) (ContainersInitialAggregateState v) (vpa_UpdateMode v) (vpa_Created v) (CheckpointWritten v) (PodCount v).
Definition setVpaPolicy p v := mkVpa (vpa_ID v) (PodSelector v) (vpa_Conditions v) (vpa_Recommendation v) (aggregateContainerStates v)
  p (ContainersInitialAggregateState v) (vpa_UpdateMode v) (vpa_Created v) (CheckpointWritten v) (PodCount v).
Definition setVpaMode m v := mkVpa (vpa_ID v) (PodSelector v) (vpa_Conditions v) (vpa_Recommendation v) (aggregateContainerStates v)
  (vpa_ResourcePolicy v) (ContainersInitialAggregateState v) m (vpa_Created v) (CheckpointWritten v) (PodCount v).
Definition setInitialStates s v := mkVpa (vpa_ID v) (PodSelector v) (vpa_Conditions v) (vpa_Recommendation v) (aggregateContainerStates v)
  (vpa_ResourcePolicy v) s (vpa_UpdateMode v) (vpa_Created v) (CheckpointWritten v) (PodCount v).
Definition setCheckpointWritten t v := mkVpa (vpa_ID v) (PodSelector v) (vpa_Conditions v) (vpa_Recommendation v) (aggregateContainerStates v)
  (vpa_ResourcePolicy v) (ContainersInitialAggregateState v) (vpa_UpdateMode v) (vpa_Created v) t (PodCount v).

Definition NewVpa (id : VpaID) (selector : option podSelector) (created : Time) : Vpa :=
  mkVpa id selector ∅ None ∅ None ∅ None created 0 0.

Definition UsesAggregation (v : Vpa) (key : AggregateStateKey) : bool := bool_decide (is_Some (aggregateContainerStates v !! key)).

Definition matchesAggregation (m : labelSetMap) (v : Vpa) (key : AggregateStateKey) : bool :=
  if decide (fst (vpa_ID v) = key_namespace key)
  then match PodSelector v with Some s => Matches (ps_Selector s) (keyLabels m key) | None => false end
  else false.

(** [vpa.UseAggregationIfMatching(key, aggregation)], the aggregation at [l]. *)
Definition UseAggregationIfMatching (m : labelSetMap) (key : AggregateStateKey) (l : nat)
    (va : Vpa * AggregateContainerState) : Vpa * AggregateContainerState :=
  let '(v, a) := va in
  if UsesAggregation v key then (v, a)
  else if matchesAggregation m v key then
    (setAggregations (<[key := l]> (aggregateContainerStates v)) v,
     UpdateFromPolicy (GetContainerResourcePolicy (key_containerName key) (vpa_ResourcePolicy v)) (setUnderVPA (vpa_UpdateMode v) a))
  else (v, a).

Definition HasRecommendation (v : Vpa) : bool :=
  match vpa_Recommendation v with Some (_ :: _) => true | _ => false end.

Definition UpdateConditions (now : Time) (podsMatched : bool) (v : Vpa) : Vpa :=
  let reason := if podsMatched then "" else "NoPodsMatched" in
  let msg := if podsMatched then "" else "No pods match this VPA object" in
  let c := if podsMatched then delete NoPodsMatched (vpa_Conditions v)
           else conditionsSet now NoPodsMatched true reason msg (vpa_Conditions v) in
  let c := if HasRecommendation v then conditionsSet now RecommendationProvided true "" "" c
           else conditionsSet now RecommendationProvided false reason msg c in
  setConditions c v.

Definition AsStatus (v : Vpa) : list Condition * option RecommendedPodResources :=
  (conditionsAsList (vpa_Conditions v), vpa_Recommendation v).

Definition HasMatchedPods (v : Vpa) : bool := negb (ConditionActive (vpa_Conditions v) NoPodsMatched).

(** ** The cluster *)
Definition PodSucceeded : string := "Succeeded".
Definition PodFailed : string := "Failed".

(** What a container aggregates to: a state, or the state its key leads to when used. *)
Inductive aggregatorRef :=
  | Direct (l : nat)
  | ContainerStateAggregatorProxy (containerID : ContainerID).

Record PodState := mkPod {
  pod_labelSetKey : string;
  pod_Containers : gmap string (ContainerState aggregatorRef);
  pod_Phase : string
}.
Definition newPod : PodState := mkPod "" ∅ "".

Record ClusterState := mkCluster {
  Pods : gmap PodID PodState;
  Vpas : gmap VpaID Vpa;
  EmptyVPAs : gmap VpaID Time;
  aggregateStateMap : gmap AggregateStateKey nat;
  labelSets : labelSetMap;
  states : gmap nat AggregateContainerState;
  nextState : nat;
  ObservedVpas : list VerticalPodAutoscaler
}.

Definition setPods p c := mkCluster p (Vpas c) (EmptyVPAs c) (aggregateStateMap c) (labelSets c) (states c) (nextState c) (ObservedVpas c).
Definition setVpas v c := mkCluster (Pods c) v (EmptyVPAs c) (aggregateStateMap c) (labelSets c) (states c) (nextState c) (ObservedVpas c).
Definition setEmptyVPAs e c := mkCluster (Pods c) (Vpas c) e (aggregateStateMap c) (labelSets c) (states c) (nextState c) (ObservedVpas c).
Definition setLabelSets m c := mkCluster (Pods c) (Vpas c) (EmptyVPAs c) (aggregateStateMap c) m (states c) (nextState c) (ObservedVpas c).
Definition setAggregateMap m c := mkCluster (Pods c) (Vpas c) (EmptyVPAs c) m (labelSets c) (states c) (nextState c) (ObservedVpas c).
Definition setStates s c := mkCluster (Pods c) (Vpas c) (EmptyVPAs c) (aggregateStateMap c) (labelSets c) s (nextState c) (ObservedVpas c).

Definition setObserved l c := mkCluster (Pods c) (Vpas c) (EmptyVPAs c) (aggregateStateMap c) (labelSets c) (states c) (nextState c) l.

Definition NewClusterState : ClusterState := mkCluster ∅ ∅ ∅ ∅ ∅ ∅ 0 [].

Definition StateMapSize (c : ClusterState) : nat := size (aggregateStateMap c).

Definition MakeAggregateStateKey (podID : PodID) (pod : PodState) (containerName : string) : AggregateStateKey :=
  {| key_namespace := fst podID; key_containerName := containerName; key_labelSetKey := pod_labelSetKey pod |}.

(** The methods of a VPA object that change the states it uses. *)
Abbreviation vpaMethod := (Vpa * gmap nat AggregateContainerState -> Vpa * gmap nat AggregateContainerState).

Section Cluster.
Context `{MathLib} `{Config} `{LabelsString} (now : Time).

Abbreviation cluster := (stateM ClusterState modelError).

(** *** Aggregations *)

(** [aggregateStateKeyForContainerID]: the pod must be there. *)
Definition aggregateStateKeyForContainerID (containerID : ContainerID) : cluster AggregateStateKey := fun c =>
  match Pods c !! fst containerID with
  | None => (Panic, c)
  | Some pod => (Ok (MakeAggregateStateKey (fst containerID) pod (snd containerID)), c)
  end.

(** The loop that links a new aggregation, at [l], to the VPA objects. *)
Definition linkVpas (m : labelSetMap) (key : AggregateStateKey) (l : nat) (vpas : gmap VpaID Vpa)
    (a : AggregateContainerState) : gmap VpaID Vpa * AggregateContainerState :=
  map_fold (fun id v '(vs, a) => let '(v', a') := UseAggregationIfMatching m key l (v, a) in (<[id := v']> vs, a')) (vpas, a) vpas.

Definition findOrCreateAggregateContainerState (containerID : ContainerID) : cluster nat :=
  key ← aggregateStateKeyForContainerID containerID;
  c ← get;
  match aggregateStateMap c !! key with
  | Some l => mret l
  | None =>
      let l := nextState c in
      let '(vpas, a) := linkVpas (labelSets c) key l (Vpas c) (NewAggregateContainerState now) in
      modify (fun c => mkCluster (Pods c) vpas (EmptyVPAs c) (<[key := l]> (aggregateStateMap c)) (labelSets c)
        (<[l := a]> (states c)) (S l) (ObservedVpas c));;
      mret l
  end.

(** A method of the aggregated state at [l]. *)
Definition onState {A} (l : nat) (m : stateM AggregateContainerState modelError A) : cluster A := fun c =>
  match states c !! l with
  | None => (Panic, c)
  | Some a => let '(r, a') := m a in (r, setStates (<[l := a']> (states c)) c)
  end.

Definition resolve (r : aggregatorRef) : cluster nat :=
  match r with
  | Direct l => mret l
  | ContainerStateAggregatorProxy containerID => findOrCreateAggregateContainerState containerID
  end.

(** Every method of the proxy finds the state first. *)
#[export] Instance clusterAggregator : ContainerStateAggregator ClusterState aggregatorRef := {|
  agg_AddSample r s := l ← resolve r; onState l (aggAddSample s);
  agg_SubtractSample r s := l ← resolve r; onState l (aggSubtractSample s);
  agg_GetLastRecommendation r := l ← resolve r; onState l (a ← get; mret (LastRecommendation a));
  agg_NeedsRecommendation r := l ← resolve r; onState l (a ← get; mret (NeedsRecommendation a));
  agg_GetUpdateMode r := l ← resolve r; onState l (a ← get; mret (UpdateMode a))
|}.

(** *** Pods *)
Definition podLabels (c : ClusterState) (pod : PodState) : LabelSet := default ∅ (labelSets c !! pod_labelSetKey pod).

(** The loops of [addPodToItsVpa] and [removePodFromItsVpa]: [d] to the count of every VPA
    object that the pod matches. *)
Definition countPod (podID : PodID) (pod : PodState) (d : Z) : cluster unit := fun c =>
  let matches (v : Vpa) := PodLabelsMatchVPA (fst podID) (podLabels c pod) (fst (vpa_ID v)) (PodSelector v) in
  if bool_decide (map_Forall (fun _ v => is_Some (matches v)) (Vpas c))
  then (Ok tt, setVpas ((fun v => if default false (matches v) then setPodCount (wrap64 (PodCount v + d)) v else v) <$> Vpas c) c)
  else (Panic, c).

Definition addPodToItsVpa (podID : PodID) (pod : PodState) : cluster unit := countPod podID pod 1.
Definition removePodFromItsVpa (podID : PodID) (pod : PodState) : cluster unit := countPod podID pod (-1).

Definition getLabelSetKey (labelSet : LabelSet) : cluster string :=
  let key := labelSetString labelSet in
  modify (fun c => setLabelSets (<[key := labelSet]> (labelSets c)) c);;
  mret key.

Definition putPod (podID : PodID) (pod : PodState) : cluster unit := modify (fun c => setPods (<[podID := pod]> (Pods c)) c).

(** The loop that links the containers of a pod to the aggregations of its labels. *)
Fixpoint relinkContainers (podID : PodID) (names : list string) : cluster unit :=
  match names with
  | [] => mret tt
  | name :: names =>
      l ← findOrCreateAggregateContainerState (podID, name);
      modify (fun c => setPods (alter (fun pod =>
        mkPod (pod_labelSetKey pod) (alter (setAggregator (Direct l)) name (pod_Containers pod)) (pod_Phase pod)) podID (Pods c)) c);;
      relinkContainers podID names
  end.

Definition AddOrUpdatePod (podID : PodID) (newLabels : LabelSet) (phase : string) : cluster unit :=
  c ← get;
  let podExists := bool_decide (is_Some (Pods c !! podID)) in
  let pod := default newPod (Pods c !! podID) in
  putPod podID pod;;
  newlabelSetKey ← getLabelSetKey newLabels;
  let changed := bool_decide (pod_labelSetKey pod <> newlabelSetKey) in
  (if podExists && changed then removePodFromItsVpa podID pod else mret tt);;
  (if negb podExists || changed then
    let pod := mkPod newlabelSetKey (pod_Containers pod) (pod_Phase pod) in
    putPod podID pod;;
    relinkContainers podID (map_to_list (pod_Containers pod)).*1;;
    addPodToItsVpa podID pod
  else mret tt);;
  modify (fun c => setPods (alter (fun pod => mkPod (pod_labelSetKey pod) (pod_Containers pod) phase) podID (Pods c)) c).

Definition GetContainer (c : ClusterState) (containerID : ContainerID) : option (ContainerState aggregatorRef) :=
  pod ← Pods c !! fst containerID;
  pod_Containers pod !! snd containerID.

Definition DeletePod (podID : PodID) : cluster unit :=
  c ← get;
  match Pods c !! podID with Some pod => removePodFromItsVpa podID pod | None => mret tt end;;
  modify (fun c => setPods (delete podID (Pods c)) c).

Definition putContainer (containerID : ContainerID) (container : ContainerState aggregatorRef) : cluster unit :=
  modify (fun c => setPods (alter (fun pod =>
    mkPod (pod_labelSetKey pod) (<[snd containerID := container]> (pod_Containers pod)) (pod_Phase pod)) (fst containerID) (Pods c)) c).

Definition AddOrUpdateContainer (containerID : ContainerID) (request : Resources) : cluster unit :=
  c ← get;
  match Pods c !! fst containerID with
  | None => fail (PodKeyError (fst containerID))
  | Some pod =>
      match pod_Containers pod !! snd containerID with
      | None =>
          findOrCreateAggregateContainerState containerID;;
          putContainer containerID (NewContainerState request (ContainerStateAggregatorProxy containerID))
      | Some container => putContainer containerID (setRequest request container)
      end
  end.

(** A method of a container of the cluster. *)
Definition onContainer {A} (containerID : ContainerID) (container : ContainerState aggregatorRef)
    (m : stateM (ContainerState aggregatorRef * ClusterState) modelError A) : cluster A := fun c =>
  let '(r, (container', c')) := m (container, c) in
  (r, snd (putContainer containerID container' c')).

Definition ClusterAddSample (containerID : ContainerID) (sample : ContainerUsageSample) : cluster unit :=
  c ← get;
  match Pods c !! fst containerID with
  | None => fail (PodKeyError (fst containerID))
  | Some pod =>
      match pod_Containers pod !! snd containerID with
      | None => fail (ContainerKeyError containerID)
      | Some container =>
          added ← onContainer containerID container (ContainerAddSample sample);
          if (added : bool) then mret tt else fail SampleDiscarded
      end
  end.

Definition ClusterRecordOOM (containerID : ContainerID) (timestamp : Time) (requestedMemory : ResourceAmount) : cluster unit :=
  c ← get;
  match Pods c !! fst containerID with
  | None => fail (PodKeyError (fst containerID))
  | Some pod =>
      match pod_Containers pod !! snd containerID with
      | None => fail (ContainerNameKeyError (snd containerID))
      | Some container =>
          err ← caught (onContainer containerID container (ContainerRecordOOM timestamp requestedMemory));
          match err with Some e => fail (RecordingOOM containerID e) | None => mret tt end
      end
  end.

(** *** VPA objects *)

(** A change of every state that a VPA object uses. *)
Definition updateStates (v : Vpa) (f : AggregateStateKey -> AggregateContainerState -> AggregateContainerState)
    (s : gmap nat AggregateContainerState) : gmap nat AggregateContainerState :=
  map_fold (fun key l s => alter (f key) l s) s (aggregateContainerStates v).

Definition ptrEq {A} (p q : option (ptr A)) : bool :=
  match p, q with
  | None, None => true
  | Some p, Some q => bool_decide (addr p = addr q)
  | _, _ => false
  end.

Definition SetResourcePolicy (resourcePolicy : option (ptr PodResourcePolicy)) : vpaMethod := fun '(v, s) =>
  if ptrEq resourcePolicy (vpa_ResourcePolicy v) then (v, s)
  else
    let v := setVpaPolicy resourcePolicy v in
    (v, updateStates v (fun key => UpdateFromPolicy (GetContainerResourcePolicy (key_containerName key) (vpa_ResourcePolicy v))) s).

Definition SetUpdateMode (updatePolicy : option PodUpdatePolicy) : vpaMethod := fun '(v, s) =>
  match updatePolicy with
  | None => let v := setVpaMode None v in (v, updateStates v (fun _ => setUpdateMode None) s)
  | Some p =>
      if ptrEq (pup_UpdateMode p) (vpa_UpdateMode v) then (v, s)
      else let v := setVpaMode (pup_UpdateMode p) v in (v, updateStates v (fun _ => setUpdateMode (pup_UpdateMode p)) s)
  end.

Definition UpdateRecommendation (recommendation : RecommendedPodResources) : vpaMethod := fun '(v, s) =>
  let s := foldl (fun s r =>
    updateStates v (fun key a => if decide (key_containerName key = rec_ContainerName r)
      then setLastRecommendation (Some (rec_UncappedTarget r)) a else a) s) s recommendation in
  (setRecommendation (Some recommendation) v, s).

Definition DeleteAggregation (key : AggregateStateKey) : vpaMethod := fun '(v, s) =>
  match aggregateContainerStates v !! key with
  | None => (v, s)
  | Some l => (setAggregations (delete key (aggregateContainerStates v)) v, alter MarkNotAutoscaled l s)
  end.

(** The pods that match a VPA object; [None] is the panic of a nil selector. *)
Definition GetMatchingPods (c : ClusterState) (v : Vpa) : option (list PodID) :=
  foldr (fun '(podID, pod) acc =>
    m ← PodLabelsMatchVPA (fst podID) (podLabels c pod) (fst (vpa_ID v)) (PodSelector v);
    l ← acc; Some (if (m : bool) then podID :: l else l)) (Some []) (map_to_list (Pods c)).

Definition DeleteVpa (vpaID : VpaID) : cluster unit :=
  c ← get;
  match Vpas c !! vpaID with
  | None => fail (VpaKeyError vpaID)
  | Some v =>
      modify (fun c => setStates (updateStates v (fun _ => MarkNotAutoscaled) (states c)) c);;
      modify (fun c => setEmptyVPAs (delete vpaID (EmptyVPAs c)) (setVpas (delete vpaID (Vpas c)) c))
  end.

(** The loop over the aggregations for a new VPA object. *)
Definition linkAggregations (m : labelSetMap) (v : Vpa) (aggregations : gmap AggregateStateKey nat)
    (s : gmap nat AggregateContainerState) : Vpa * gmap nat AggregateContainerState :=
  map_fold (fun key l '(v, s) =>
    match s !! l with
    | None => (v, s)
    | Some a => let '(v', a') := UseAggregationIfMatching m key l (v, a) in (v', <[l := a']> s)
    end) (v, s) aggregations.

Definition createVpa (vpaID : VpaID) (selector : option podSelector) : cluster unit :=
  c ← get;
  let '(v, s) := linkAggregations (labelSets c) (NewVpa vpaID selector now) (aggregateStateMap c) (states c) in
  modify (setStates s);;
  match GetMatchingPods c v with
  | None => panic
  | Some pods => modify (fun c => setVpas (<[vpaID := setPodCount (wrap64 (Z.of_nat (length pods))) v]> (Vpas c)) c)
  end.

Definition AddOrUpdateVpa (apiObject : VerticalPodAutoscaler) (selector : option podSelector) : cluster unit :=
  let vpaID := (api_Namespace apiObject, api_Name apiObject) in
  let conditions := foldl (fun m c => <[cond_Type c := c]> m) ∅ (api_Conditions apiObject) in
  let currentRecommendation := if ConditionActive conditions RecommendationProvided then api_Recommendation apiObject else None in
  c ← get;
  vpaExists ← (match Vpas c !! vpaID with
               | None => mret false
               | Some v =>
                   match PodSelector v, selector with
                   | Some s, Some s' =>
                       if decide (ps_String s <> ps_String s') then DeleteVpa vpaID;; mret false else mret true
                   | _, _ => panic
                   end
               end);
  (if (vpaExists : bool) then mret tt else createVpa vpaID selector);;
  modify (fun c =>
    match Vpas c !! vpaID with
    | None => c
    | Some v =>
        let v := setRecommendation currentRecommendation (setConditions conditions v) in
        let '(v, s) := SetResourcePolicy (api_ResourcePolicy apiObject) (SetUpdateMode (api_UpdatePolicy apiObject) (v, states c)) in
        setVpas (<[vpaID := v]> (Vpas c)) (setStates s c)
    end).
(** *** Garbage collection *)
Definition isActivePod (pod : PodState) : bool := negb (bool_decide (pod_Phase pod = PodSucceeded \/ pod_Phase pod = PodFailed)).

Definition getActiveAggregateStateKeys (c : ClusterState) : gset AggregateStateKey :=
  map_fold (fun podID pod keys =>
    if isActivePod pod
    then set_map (fun name => MakeAggregateStateKey podID pod name) (dom (pod_Containers pod)) ∪ keys
    else keys) ∅ (Pods c).

(** Whether the state under a key is obsolete. *)
Definition isObsolete (c : ClusterState) (time : Time) (key : AggregateStateKey) (l : nat) : bool :=
  match states c !! l with
  | None => false
  | Some a => (bool_decide (key ∉ getActiveAggregateStateKeys c) && isEmptyAggregate a) || isExpired a time
  end.

(** One key: out of the cluster, and out of every VPA object. *)
Definition deleteKey (key : AggregateStateKey) (c : ClusterState) : ClusterState :=
  let '(vpas, s) := map_fold (fun id v '(vs, s) =>
      let '(v', s') := DeleteAggregation key (v, s) in (<[id := v']> vs, s')) (Vpas c, states c) (Vpas c) in
  setAggregateMap (delete key (aggregateStateMap c)) (setVpas vpas (setStates s c)).

Definition keysToDelete (c : ClusterState) (time : Time) : list AggregateStateKey :=
  (filter (fun kl => isObsolete c time kl.1 kl.2 = true) (map_to_list (aggregateStateMap c))).*1.

Definition GarbageCollectAggregateCollectionStates (time : Time) : cluster unit :=
  modify (fun c => foldl (fun c key => deleteKey key c) c (keysToDelete c time)).

(** *** Recommendations *)
Definition RecommendationMissingMaxDuration : Duration := 30 * 60 * 10 ^ 9.

Definition RecordRecommendation (v : Vpa) (time : Time) : cluster unit :=
  if HasRecommendation v then modify (fun c => setEmptyVPAs (delete (vpa_ID v) (EmptyVPAs c)) c)
  else
    c ← get;
    match EmptyVPAs c !! vpa_ID v with
    | None => modify (fun c => setEmptyVPAs (<[vpa_ID v := time]> (EmptyVPAs c)) c)
    | Some lastLogged =>
        if lastLogged + RecommendationMissingMaxDuration <? time then
          modify (fun c => setEmptyVPAs (<[vpa_ID v := time]> (EmptyVPAs c)) c);;
          fail (RecommendationMissing (vpa_ID v))
        else mret tt
    end.

(** *** The states of a VPA object by container name *)
Abbreviation ContainerNameToAggregateStateMap := (gmap string AggregateContainerState).

(** Merging a state into that of a name, which is created if it is missing: the map, and
    what the histograms of the merged state have become. *)
Definition mergeInto (name : string) (other : AggregateContainerState) :
    stateM ContainerNameToAggregateStateMap modelError AggregateContainerState := fun m =>
  let a := default (NewAggregateContainerState now) (m !! name) in
  let '(r, (a', other')) := MergeContainerState (a, other) in
  (match r with Ok _ => Ok other' | Err e => Err e | Panic => Panic end, <[name := a']> m).

(** [AggregateStateByContainerName], over the states that a VPA object uses. *)
Fixpoint mergeStates (aggregations : list (AggregateStateKey * nat)) :
    stateM (ContainerNameToAggregateStateMap * gmap nat AggregateContainerState) modelError unit :=
  match aggregations with
  | [] => mret tt
  | (key, l) :: aggregations => fun '(m, s) =>
      match s !! l with
      | None => (Panic, (m, s))
      | Some other =>
          match mergeInto (key_containerName key) other m with
          | (Ok other', m') => mergeStates aggregations (m', <[l := other']> s)
          | (Err e, m') => (Err e, (m', s))
          | (Panic, m') => (Panic, (m', s))
          end
      end
  end.

(** [MergeCheckpointedState] *)
Fixpoint mergeCheckpointed (initial : list (string * AggregateContainerState)) :
    stateM (ContainerNameToAggregateStateMap * ContainerNameToAggregateStateMap) modelError unit :=
  match initial with
  | [] => mret tt
  | (name, other) :: initial => fun '(m, kept) =>
      match mergeInto name other m with
      | (Ok other', m') => mergeCheckpointed initial (m', <[name := other']> kept)
      | (Err e, m') => (Err e, (m', kept))
      | (Panic, m') => (Panic, (m', kept))
      end
  end.

(** [vpa.AggregateStateByContainerName()], for the VPA object [vpaID] of the cluster. *)
Definition AggregateStateByContainerName (vpaID : VpaID) : cluster ContainerNameToAggregateStateMap := fun c =>
  match Vpas c !! vpaID with
  | None => (Panic, c)
  | Some v =>
      let '(r, (m, s)) := mergeStates (map_to_list (aggregateContainerStates v)) (∅, states c) in
      let c := setStates s c in
      match r with
      | Ok _ =>
          let '(r, (m, kept)) := mergeCheckpointed (map_to_list (ContainersInitialAggregateState v)) (m, ContainersInitialAggregateState v) in
          let c := setVpas (<[vpaID := setInitialStates kept v]> (Vpas c)) c in
          (match r with Ok _ => Ok m | Err e => Err e | Panic => Panic end, c)
      | Err e => (Err e, c)
      | Panic => (Panic, c)
      end
  end.
End Cluster.
