(* ===== verification/ClusterSpec.v ===== *)
(** * The links of the recommender's cluster model

    The invariant that ties the VPA objects, the aggregated states and the pods together:
    a VPA object uses exactly the aggregations of the cluster that it matches, the same
    states under the same keys, and counts exactly the pods that it matches. *)
From S2P Require Import Prelude Api Float64 Histogram ContainerUsage AggregateState ClusterState.
Local Open Scope Z_scope.

(** ** Methods that keep a relation between the state before and after, unless they panic *)
Definition keeps {S E A} (R : S -> S -> Prop) (m : stateM S E A) : Prop := forall s, fst (m s) <> Panic -> R s (snd (m s)).

Section Keeps.
Context {S E : Type} (R : S -> S -> Prop) `{!PreOrder R}.

Lemma keeps_ret {A} (a : A) : keeps (E := E) R (mret a).
Proof. intros s _. reflexivity. Qed.

Lemma keeps_fail {A} (e : E) : keeps (A := A) R (fail e).
Proof. intros s _. reflexivity. Qed.

Lemma keeps_panic {A} : keeps (E := E) (A := A) R panic.
Proof. intros s []. done. Qed.

Lemma keeps_get : keeps (E := E) R get.
Proof. intros s _. reflexivity. Qed.

Lemma keeps_bind {A B} (m : stateM S E A) (k : A -> stateM S E B) :
  keeps R m -> (forall a, keeps R (k a)) -> keeps R (m ≫= k).
Proof.
  intros Hm Hk s. unfold mbind, stateM_bind. specialize (Hm s). destruct (m s) as [[a|e|] s']; cbn in *.
  - intros Hp. transitivity s'; [by apply Hm|]. by apply Hk.
  - intros _. by apply Hm.
  - done.
Qed.

Lemma keeps_caught (m : stateM S E unit) : keeps R m -> keeps R (caught m).
Proof. intros Hm s. specialize (Hm s). unfold caught. destruct (m s) as [[]]; cbn in *; try done; intros _; by apply Hm. Qed.
End Keeps.

(** ** Matching *)
Section Matching.
Context `{!LabelsString}.

(** Two plain sets of labels with the same text are equal. *)
Lemma plain_items s : plainLabels s -> Forall (fun t => t <> ""%string /\ lacks commaChar t) (labelItem <$> map_to_list s).
Proof.
  intros Hs. apply Forall_fmap, list.Forall_forall. intros [k v] Hin%elem_of_map_to_list. destruct (Hs k v Hin) as [[_ Hk] [_ Hv]].
  unfold labelItem. cbn. split; [by destruct k|]. apply lacks_append; [done|]. revert Hv. unfold lacks. cbn. set_solver.
Qed.

Lemma plain_included s s' : plainLabels s -> plainLabels s' ->
  labelItem <$> map_to_list s ≡ₚ labelItem <$> map_to_list s' -> s ⊆ s'.
Proof.
  intros Hs Hs' HP. apply map_subseteq_spec. intros k v Hk.
  assert (Hin : labelItem (k, v) ∈ labelItem <$> map_to_list s').
  { rewrite <- HP. apply list_elem_of_fmap. exists (k, v). split; [done|]. by apply elem_of_map_to_list. }
  apply list_elem_of_fmap in Hin as ([k' v']&E&Hk'%elem_of_map_to_list).
  apply (join_inj equalsChar) in E as [E1 E2]; cbn in *; [by subst|by apply (Hs k v)|by apply (Hs' k' v')].
Qed.

Lemma labelSetString_inj `{!LabelsText} s s' : plainLabels s -> plainLabels s' -> labelSetString s = labelSetString s' -> s = s'.
Proof.
  intros Hs Hs' E. destruct (labels_text s) as (l&Hl&El), (labels_text s') as (l'&Hl'&El'). rewrite El, El' in E.
  apply (concat_inj commaChar) in E; [|rewrite Hl; by apply plain_items|rewrite Hl'; by apply plain_items]. subst l'. rewrite Hl in Hl'.
  apply (anti_symm (⊆)); by apply plain_included.
Qed.

(** Whether a pod with the label set key [k] matches a VPA object. *)
Definition keyMatches (m : labelSetMap) (v : Vpa) (idk : PodID * string) : bool :=
  default false (PodLabelsMatchVPA (fst (fst idk)) (default ∅ (m !! snd idk)) (fst (vpa_ID v)) (PodSelector v)).

(** The number of pods that match. *)
Definition matchCount (m : labelSetMap) (v : Vpa) (pods : gmap PodID string) : Z :=
  sumOver (fun idk => if keyMatches m v idk then 1 else 0) (map_to_list pods).

Definition labelKeys (c : ClusterState) : gmap PodID string := pod_labelSetKey <$> Pods c.

(** ** The invariant *)
Record linksOk (c : ClusterState) : Prop := {
  lk_labels : forall k s, labelSets c !! k = Some s -> labelSetString s = k /\ plainLabels s;
  lk_pods : forall id k, labelKeys c !! id = Some k -> is_Some (labelSets c !! k);
  lk_keys : forall key l, aggregateStateMap c !! key = Some l -> is_Some (labelSets c !! key_labelSetKey key) /\ is_Some (states c !! l);
  lk_next : forall l, is_Some (states c !! l) -> (l < nextState c)%nat;
  lk_inj : forall k1 k2 l, aggregateStateMap c !! k1 = Some l -> aggregateStateMap c !! k2 = Some l -> k1 = k2;
  lk_ids : forall id v, Vpas c !! id = Some v -> vpa_ID v = id;
  lk_links : forall id v key l, Vpas c !! id = Some v ->
    aggregateContainerStates v !! key = Some l <->
    aggregateStateMap c !! key = Some l /\ matchesAggregation (labelSets c) v key = true
}.

(** Containers aggregate to states that exist, or by their own key. *)
Definition refsOk (c : ClusterState) : Prop := forall id pod name ctr,
  Pods c !! id = Some pod -> pod_Containers pod !! name = Some ctr ->
  match aggregator ctr with
  | Direct l => is_Some (states c !! l)
  | ContainerStateAggregatorProxy cid => cid = (id, name)
  end.

Definition countsOk (c : ClusterState) : Prop := forall id v, Vpas c !! id = Some v ->
  PodCount v = wrap64 (matchCount (labelSets c) v (labelKeys c)).

Record clusterOk (c : ClusterState) : Prop := { ok_links : linksOk c; ok_refs : refsOk c; ok_counts : countsOk c }.

(** What a VPA object is besides the states that it uses. *)
Definition vpaShape (v : Vpa) : VpaID * option podSelector * Z := (vpa_ID v, PodSelector v, PodCount v).

(** What the use of an aggregator changes: states, and new aggregations with their links. *)
Record grows (c c' : ClusterState) : Prop := {
  gr_pods : Pods c' = Pods c;
  gr_labels : labelSets c' = labelSets c;
  gr_shapes : forall id, vpaShape <$> Vpas c' !! id = vpaShape <$> Vpas c !! id;
  gr_states : forall l, is_Some (states c !! l) -> is_Some (states c' !! l);
  gr_links : linksOk c -> linksOk c'
}.

#[export] Instance grows_preorder : PreOrder grows.
Proof.
  split; [by constructor|]. intros c1 c2 c3 [P1 L1 S1 T1 K1] [P2 L2 S2 T2 K2]. constructor; try congruence; auto.
Qed.

(** From a state with good links. *)
Definition growsOk (c c' : ClusterState) : Prop := linksOk c -> grows c c'.
#[export] Instance growsOk_preorder : PreOrder growsOk.
Proof.
  split; [by intros c _|]. intros c1 c2 c3 H1 H2 Hok. pose proof (H1 Hok) as G1. etransitivity; [exact G1|]. by apply H2, (gr_links _ _ G1).
Qed.

Lemma shape_inv v v' : vpaShape v' = vpaShape v -> vpa_ID v' = vpa_ID v /\ PodSelector v' = PodSelector v /\ PodCount v' = PodCount v.
Proof. unfold vpaShape. intros E. by simplify_eq. Qed.

Lemma matchCount_shape m v v' pods : vpaShape v' = vpaShape v -> matchCount m v' pods = matchCount m v pods.
Proof. intros (E1&E2&_)%shape_inv. unfold matchCount, keyMatches. by rewrite E1, E2. Qed.

Lemma grows_clusterOk c c' : grows c c' -> clusterOk c -> clusterOk c'.
Proof.
  intros [HP HL HS HT HK] [Hl Hr Hc]. constructor; [by apply HK| |].
  - intros id pod name ctr. rewrite HP. intros Hp Hctr. specialize (Hr id pod name ctr Hp Hctr). destruct (aggregator ctr); auto.
  - intros id v Hv. specialize (HS id). rewrite Hv in HS. destruct (Vpas c !! id) as [v0|] eqn:E; [|done].
    apply (inj Some) in HS. pose proof (shape_inv _ _ HS) as (_&_&Epc). rewrite Epc, (Hc id v0 E), HL.
    unfold labelKeys. rewrite HP. by rewrite (matchCount_shape _ _ _ _ HS).
Qed.
End Matching.

(** ** Linking a new aggregation *)
Section Linking.

(** What [UseAggregationIfMatching] does to the VPA object does not depend on the state. *)
Definition linked (m : labelSetMap) (key : AggregateStateKey) (l : nat) (v : Vpa) : Vpa :=
  if UsesAggregation v key then v
  else if matchesAggregation m v key then setAggregations (<[key := l]> (aggregateContainerStates v)) v else v.

Lemma use_fst m key l v a : fst (UseAggregationIfMatching m key l (v, a)) = linked m key l v.
Proof. unfold UseAggregationIfMatching, linked. by repeat case_match. Qed.

Lemma linked_shape m key l v : vpaShape (linked m key l v) = vpaShape v.
Proof. unfold linked. by repeat case_match. Qed.

Lemma linkVpas_fst m key l vpas a : fst (linkVpas m key l vpas a) = linked m key l <$> vpas.
Proof.
  unfold linkVpas.
  cut (forall vs0 : gmap VpaID Vpa, (forall id, is_Some (vpas !! id) -> is_Some (vs0 !! id)) ->
    forall id, fst (map_fold (fun id v '(vs, a) => let '(v', a') := UseAggregationIfMatching m key l (v, a) in (<[id := v']> vs, a')) (vs0, a) vpas) !! id =
    match vpas !! id with Some v => Some (linked m key l v) | None => vs0 !! id end).
  { intros Hcut. apply map_eq. intros id. rewrite Hcut by done. rewrite lookup_fmap. by destruct (vpas !! id). }
  intros vs0 _. apply (map_fold_weak_ind (fun r vpas => forall id, fst r !! id = match vpas !! id with Some v => Some (linked m key l v) | None => vs0 !! id end)).
  - intros id. by rewrite lookup_empty.
  - intros i v vpas' [vs a'] Hi IH id. pose proof (use_fst m key l v a') as Hu.
    destruct (UseAggregationIfMatching m key l (v, a')) as [v' a'']. cbn in *. subst v'.
    destruct (decide (id = i)) as [->|Hne]; [by rewrite !lookup_insert_eq|]. rewrite !lookup_insert_ne by done. apply IH.
Qed.
End Linking.

Lemma matches_shape m v v' key : vpaShape v' = vpaShape v -> matchesAggregation m v' key = matchesAggregation m v key.
Proof. intros (E1&E2&_)%shape_inv. unfold matchesAggregation. by rewrite E1, E2. Qed.

Lemma linked_lookup m key l v key' l' : aggregateContainerStates v !! key = None ->
  aggregateContainerStates (linked m key l v) !! key' = Some l' <->
  aggregateContainerStates v !! key' = Some l' \/ (key' = key /\ l' = l /\ matchesAggregation m v key = true).
Proof.
  intros Hk. unfold linked, UsesAggregation. rewrite bool_decide_false by (rewrite Hk; by intros []).
  destruct (matchesAggregation m v key); cbn.
  - destruct (decide (key' = key)) as [->|Hne]; [rewrite lookup_insert_eq, Hk|rewrite lookup_insert_ne by done]; naive_solver.
  - naive_solver.
Qed.

Section Cluster.
Context `{MathLib} `{Config} `{!LabelsString} (now : Time).

(** *** The aggregations *)
Lemma findOrCreate_found c id name k l :
  labelKeys c !! id = Some k ->
  aggregateStateMap c !! {| key_namespace := fst id; key_containerName := name; key_labelSetKey := k |} = Some l ->
  findOrCreateAggregateContainerState now (id, name) c = (Ok l, c).
Proof.
  intros Hk Hl. unfold labelKeys in Hk. rewrite lookup_fmap in Hk. destruct (Pods c !! id) as [pod|] eqn:Ep; [|done].
  cbn in Hk. simplify_eq. unfold findOrCreateAggregateContainerState, aggregateStateKeyForContainerID, mbind, stateM_bind, get, MakeAggregateStateKey.
  cbn [fst snd]. rewrite Ep. by rewrite Hl.
Qed.

(** The cluster with a new aggregation under [key]. *)
Definition withNew (c : ClusterState) (key : AggregateStateKey) : ClusterState :=
  let va := linkVpas (labelSets c) key (nextState c) (Vpas c) (NewAggregateContainerState now) in
  mkCluster (Pods c) (fst va) (EmptyVPAs c) (<[key := nextState c]> (aggregateStateMap c)) (labelSets c)
    (<[nextState c := snd va]> (states c)) (S (nextState c)) (ObservedVpas c).

Lemma findOrCreate_new c id name k :
  labelKeys c !! id = Some k ->
  let key := {| key_namespace := fst id; key_containerName := name; key_labelSetKey := k |} in
  aggregateStateMap c !! key = None ->
  findOrCreateAggregateContainerState now (id, name) c = (Ok (nextState c), withNew c key).
Proof.
  intros Hk key Hl. unfold labelKeys in Hk. rewrite lookup_fmap in Hk. destruct (Pods c !! id) as [pod|] eqn:Ep; [|done].
  cbn in Hk. simplify_eq. subst key. unfold findOrCreateAggregateContainerState, aggregateStateKeyForContainerID, mbind, stateM_bind, get, modify, MakeAggregateStateKey, withNew.
  cbn [fst snd]. rewrite Ep. rewrite Hl. by destruct (linkVpas _ _ _ _ _).
Qed.

Lemma withNew_grows c key : is_Some (labelSets c !! key_labelSetKey key) -> aggregateStateMap c !! key = None -> grows c (withNew c key).
Proof.
  intros Hlab Hnone. constructor; try done; unfold withNew; cbn.
  - intros id. rewrite linkVpas_fst, lookup_fmap. destruct (Vpas c !! id) as [v|]; cbn; [|done]. by rewrite linked_shape.
  - intros l Hl. destruct (decide (l = nextState c)) as [->|]; [rewrite lookup_insert_eq|rewrite lookup_insert_ne by done]; eauto.
  - intros [K1 K2 K3 K4 K5 K6 K7]. assert (Hfresh : states c !! nextState c = None).
    { destruct (states c !! nextState c) eqn:E; [|done]. specialize (K4 (nextState c) ltac:(eauto)). lia. }
    constructor; cbn; try done.
    + intros key' l. rewrite lookup_insert_Some. intros [[<- <-]|[Hne Hl]]; [rewrite lookup_insert_eq; eauto|].
      destruct (K3 _ _ Hl) as [? Hs]. split; [done|]. rewrite lookup_insert_ne; [done|]. intros <-. rewrite Hfresh in Hs. by destruct Hs.
    + intros l Hs. destruct (decide (l = nextState c)) as [->|]; [lia|]. rewrite lookup_insert_ne in Hs by done. specialize (K4 l Hs). lia.
    + assert (Hno : forall k, aggregateStateMap c !! k <> Some (nextState c)).
      { intros k Hk. destruct (K3 _ _ Hk) as [_ Hs]. rewrite Hfresh in Hs. by destruct Hs. }
      intros k1 k2 l. rewrite !lookup_insert_Some. intros [[<- <-]|[? Hk1]] [[<- ?]|[? Hk2]]; try done; [by apply Hno in Hk2| |by apply (K5 k1 k2 l)].
      subst. by apply Hno in Hk1.
    + intros id v. rewrite linkVpas_fst, lookup_fmap. destruct (Vpas c !! id) as [v0|] eqn:E; cbn; [|done]. intros [= <-].
      pose proof (shape_inv _ _ (linked_shape (labelSets c) key (nextState c) v0)) as [-> _]. by apply K6.
    + intros id v key' l. rewrite linkVpas_fst, lookup_fmap. destruct (Vpas c !! id) as [v0|] eqn:E; cbn; [|done]. intros [= <-].
      assert (Hv0 : aggregateContainerStates v0 !! key = None).
      { destruct (aggregateContainerStates v0 !! key) eqn:Ek; [|done]. apply (K7 id v0) in Ek as [Ek _]; [|done]. congruence. }
      rewrite linked_lookup, (K7 id v0), lookup_insert_Some by done. rewrite (matches_shape _ v0 (linked (labelSets c) key (nextState c) v0)) by apply linked_shape.
      split; [|naive_solver]. intros [[Hl Hm]|(->&->&Hm)]; [|naive_solver]. split; [|done]. right. split; [congruence|done].
Qed.

Lemma findOrCreate_keeps cid : keeps growsOk (findOrCreateAggregateContainerState now cid).
Proof.
  destruct cid as [id name]. intros c Hp Hok. destruct (labelKeys c !! id) as [k|] eqn:Ek.
  - destruct (aggregateStateMap c !! {| key_namespace := fst id; key_containerName := name; key_labelSetKey := k |}) as [l|] eqn:El.
    + by rewrite (findOrCreate_found c id name k l).
    + rewrite (findOrCreate_new c id name k) by done. apply withNew_grows; [|done]. by apply (lk_pods _ Hok id).
  - exfalso. apply Hp. unfold labelKeys in Ek. rewrite lookup_fmap in Ek. destruct (Pods c !! id) eqn:E; [done|].
    unfold findOrCreateAggregateContainerState, aggregateStateKeyForContainerID, mbind, stateM_bind. cbn. by rewrite E.
Qed.
(** *** The methods of aggregators and containers *)
Lemma grows_states c s : (forall l, is_Some (s !! l) <-> is_Some (states c !! l)) -> grows c (setStates s c).
Proof.
  intros Hs. constructor; try done; [by intros; apply Hs|]. intros [K1 K2 K3 K4 K5 K6 K7]. constructor; try done.
  - intros key l Hk. destruct (K3 key l Hk) as [? ?]. split; [done|]. by apply Hs.
  - intros l Hl%Hs. by apply K4.
Qed.

Lemma onState_keeps {A} l (m : stateM AggregateContainerState modelError A) : keeps growsOk (onState l m).
Proof.
  intros c Hp _. unfold onState in *. destruct (states c !! l) as [a|] eqn:El; [|done]. destruct (m a) as [r a']. cbn.
  apply grows_states. intros l'. destruct (decide (l' = l)) as [->|]; [rewrite lookup_insert_eq, El; split; eauto|by rewrite lookup_insert_ne].
Qed.

Lemma resolve_keeps r : keeps growsOk (resolve now r).
Proof. destruct r; [apply keeps_ret; apply _|apply findOrCreate_keeps]. Qed.

(** A method of an aggregator: the state, and a method of the state. *)
Lemma aggregator_keeps {A} r (m : stateM AggregateContainerState modelError A) :
  keeps growsOk (l ← resolve now r; onState l m).
Proof. apply keeps_bind; [apply _|apply resolve_keeps|intros l; apply onState_keeps]. Qed.

#[local] Instance aggregatorNow : ContainerStateAggregator ClusterState aggregatorRef := clusterAggregator now.

(** What a method of a container changes: the container but for its aggregator, and of the
    cluster what the methods of the aggregator do. *)
Section ContainerMethods.
Context (G : aggregatorRef -> ClusterState -> ClusterState -> Prop) `{!forall a, PreOrder (G a)}.
Context (HG : forall a A (m : stateM AggregateContainerState modelError A), keeps (G a) (l ← resolve now a; onState l m)).

Definition containerGrowsBy (s s' : ContainerState aggregatorRef * ClusterState) : Prop :=
  aggregator (fst s') = aggregator (fst s) /\ G (aggregator (fst s)) (snd s) (snd s').
#[local] Instance containerGrowsBy_preorder : PreOrder containerGrowsBy.
Proof.
  split; [by intros [c w]; split|]. intros s1 s2 s3 [E1 G1] [E2 G2]. split; [congruence|]. etransitivity; [exact G1|]. by rewrite <- E1.
Qed.

Lemma onWorld_keeps {X} (f : aggregatorRef -> stateM ClusterState modelError X) : (forall a, keeps (G a) (f a)) -> keeps containerGrowsBy (onWorld f).
Proof.
  intros Hf [c w] Hp. unfold onWorld in *. unfold containerGrowsBy. specialize (Hf (aggregator c) w). destruct (f (aggregator c) w) as [r w']. cbn in *.
  split; [done|]. by apply Hf.
Qed.

Lemma getC_keeps : keeps containerGrowsBy getC.
Proof. intros s _. reflexivity. Qed.

Lemma modifyC_keeps f : (forall c, aggregator (f c) = aggregator c) -> keeps containerGrowsBy (modifyC f).
Proof. intros Hf [c w] _. split; [apply Hf|reflexivity]. Qed.

Ltac keep_step :=
  first [ apply keeps_bind; [apply _| |intros ?] | apply keeps_ret; apply _ | apply keeps_fail; apply _ | apply keeps_panic; apply _
        | apply keeps_get; apply _
        | apply getC_keeps | apply modifyC_keeps; intros ?; repeat case_match; done
        | apply onWorld_keeps; intros ?; apply HG ].

Lemma observe_keeps usage resource : keeps containerGrowsBy (observeQualityMetrics usage resource).
Proof. unfold observeQualityMetrics. repeat (keep_step || case_match). Qed.

Lemma addMemory_keeps sample isOOM : keeps containerGrowsBy (addMemorySample sample isOOM).
Proof. unfold addMemorySample. repeat (apply observe_keeps || keep_step || case_match). Qed.

Lemma ContainerAddSample_by sample : keeps containerGrowsBy (ContainerAddSample sample).
Proof.
  unfold ContainerAddSample, addCPUSample. repeat case_decide; [|apply addMemory_keeps|keep_step].
  repeat (apply observe_keeps || keep_step || case_match).
Qed.

Lemma ContainerRecordOOM_by t r : keeps containerGrowsBy (ContainerRecordOOM t r).
Proof. unfold ContainerRecordOOM. repeat (apply addMemory_keeps || keep_step || case_match). Qed.
End ContainerMethods.

(** With the links kept. *)
Definition containerGrows : ContainerState aggregatorRef * ClusterState -> ContainerState aggregatorRef * ClusterState -> Prop :=
  containerGrowsBy (fun _ => growsOk).

Lemma ContainerAddSample_keeps sample : keeps containerGrows (ContainerAddSample sample).
Proof. apply ContainerAddSample_by; [apply _|]. intros a A m. apply aggregator_keeps. Qed.

Lemma ContainerRecordOOM_keeps t r : keeps containerGrows (ContainerRecordOOM t r).
Proof. apply ContainerRecordOOM_by; [apply _|]. intros a A m. apply aggregator_keeps. Qed.

(** ** Pods *)
Definition countsFor (c : ClusterState) (pods : gmap PodID string) : Prop := forall id v, Vpas c !! id = Some v ->
  PodCount v = wrap64 (matchCount (labelSets c) v pods).

Lemma matchCount_insert m v pods id k : pods !! id = None ->
  matchCount m v (<[id := k]> pods) = (if keyMatches m v (id, k) then 1 else 0) + matchCount m v pods.
Proof. intros Hn. unfold matchCount. rewrite (map_to_list_insert pods id k Hn). done. Qed.

Lemma matchCount_delete m v pods id k : pods !! id = Some k ->
  matchCount m v pods = (if keyMatches m v (id, k) then 1 else 0) + matchCount m v (delete id pods).
Proof.
  intros Hk. rewrite <- matchCount_insert by apply lookup_delete_eq. by rewrite insert_delete_id.
Qed.

(** The counting loop, on the VPA objects of a state. *)
Lemma countPod_spec id pod d c : fst (countPod id pod d c) <> Panic ->
  exists vpas, countPod id pod d c = (Ok tt, setVpas vpas c) /\
    forall vid, vpas !! vid = (fun v => if keyMatches (labelSets c) v (id, pod_labelSetKey pod)
                                       then setPodCount (wrap64 (PodCount v + d)) v else v) <$> Vpas c !! vid.
Proof.
  unfold countPod. case_bool_decide as Hall; [|done]. intros _. eexists. split; [done|].
  intros vid. rewrite lookup_fmap. done.
Qed.

(** A change of the counts alone. *)
Lemma links_counts c vpas : (forall vid, (fun v => (vpa_ID v, PodSelector v, aggregateContainerStates v)) <$> vpas !! vid =
    (fun v => (vpa_ID v, PodSelector v, aggregateContainerStates v)) <$> Vpas c !! vid) ->
  linksOk c -> linksOk (setVpas vpas c).
Proof.
  intros Hv [K1 K2 K3 K4 K5 K6 K7]. constructor; try done; cbn.
  - intros id v Hid. specialize (Hv id). rewrite Hid in Hv. destruct (Vpas c !! id) as [v0|] eqn:E; [|done]. cbn in Hv. injection Hv as E1 E2 E3.
    rewrite E1. by apply K6.
  - intros id v key l Hid. specialize (Hv id). rewrite Hid in Hv. destruct (Vpas c !! id) as [v0|] eqn:E; [|done]. cbn in Hv. injection Hv as E1 E2 E3.
    unfold matchesAggregation. rewrite E1, E2, E3. by apply (K7 id v0).
Qed.

Lemma countPod_counts id pod d c K K' :
  fst (countPod id pod d c) <> Panic -> countsFor c K ->
  (forall v, matchCount (labelSets c) v K' = matchCount (labelSets c) v K + if keyMatches (labelSets c) v (id, pod_labelSetKey pod) then d else 0) ->
  exists vpas, countPod id pod d c = (Ok tt, setVpas vpas c) /\ countsFor (setVpas vpas c) K' /\
    (linksOk c -> linksOk (setVpas vpas c)).
Proof.
  intros Hp Hc HK. destruct (countPod_spec id pod d c Hp) as (vpas&E&Hv). exists vpas. split; [done|]. split.
  - intros vid v. cbn. rewrite Hv. destruct (Vpas c !! vid) as [v0|] eqn:E0; cbn; [|done]. intros [= <-].
    specialize (Hc vid v0 E0). specialize (HK v0).
    assert (Hsame : forall n, matchCount (labelSets c) (setPodCount n v0) K' = matchCount (labelSets c) v0 K') by done.
    destruct (keyMatches _ v0 _); cbn; rewrite ?Hsame, HK, Hc; [apply wrap64_add_l|by rewrite Z.add_0_r].
  - apply links_counts. intros vid. rewrite Hv. destruct (Vpas c !! vid) as [v0|]; [|done]. cbn. by destruct (keyMatches _ _ _).
Qed.

(** *** Label sets *)
Context `{!LabelsText}.

Lemma labels_extend (m : labelSetMap) s k : plainLabels s ->
  (forall k s, m !! k = Some s -> labelSetString s = k /\ plainLabels s) -> is_Some (m !! k) ->
  <[labelSetString s := s]> m !! k = m !! k.
Proof.
  intros Hs Hm [s' Hs']. destruct (decide (k = labelSetString s)) as [->|]; [|by rewrite lookup_insert_ne].
  rewrite lookup_insert_eq, Hs'. f_equal. destruct (Hm _ _ Hs'). by apply labelSetString_inj.
Qed.

Lemma matchCount_labels (m m' : labelSetMap) (v : Vpa) (pods : gmap PodID string) : (forall id k, pods !! id = Some k -> m' !! k = m !! k) -> matchCount m' v pods = matchCount m v pods.
Proof.
  intros Hm. apply sumOver_ext. intros [id k] Hin%elem_of_map_to_list. unfold keyMatches. cbn [fst snd]. by rewrite (Hm id k).
Qed.

Lemma setLabels_links c s : plainLabels s -> linksOk c -> linksOk (setLabelSets (<[labelSetString s := s]> (labelSets c)) c).
Proof.
  intros Hplain [K1 K2 K3 K4 K5 K6 K7]. assert (Hext : forall k, is_Some (labelSets c !! k) -> <[labelSetString s := s]> (labelSets c) !! k = labelSets c !! k).
  { intros k Hk. by apply labels_extend. }
  constructor; try done; cbn.
  - intros k s'. rewrite lookup_insert_Some. intros [[<- <-]|[_ ?]]; [done|by apply K1].
  - intros id k Hk. rewrite Hext; by apply (K2 id).
  - intros key l Hl. destruct (K3 key l Hl) as [Hs ?]. by rewrite Hext.
  - intros id v key l Hid. rewrite (K7 id v) by done. split; intros [Hl Hm]; (split; [done|]); revert Hm;
      unfold matchesAggregation, keyLabels; destruct (K3 key l Hl) as [Hs _]; by rewrite Hext.
Qed.

Lemma setLabels_counts c s K : plainLabels s -> linksOk c -> (forall id k, K !! id = Some k -> is_Some (labelSets c !! k)) ->
  countsFor c K -> countsFor (setLabelSets (<[labelSetString s := s]> (labelSets c)) c) K.
Proof.
  intros Hplain Hl HK Hc id v Hid. rewrite (Hc id v Hid). f_equal. symmetry. apply matchCount_labels. intros id' k Hk. cbn.
  apply labels_extend; [done|apply Hl|by apply (HK id')].
Qed.
(** *** The containers of a pod *)
Record relinks (c c' : ClusterState) : Prop := {
  rl_keys : labelKeys c' = labelKeys c;
  rl_labels : labelSets c' = labelSets c;
  rl_shapes : forall id, vpaShape <$> Vpas c' !! id = vpaShape <$> Vpas c !! id;
  rl_ok : linksOk c -> refsOk c -> linksOk c' /\ refsOk c'
}.
#[local] Instance relinks_preorder : PreOrder relinks.
Proof.
  split; [by constructor; [..|intros]|]. intros c1 c2 c3 [P1 L1 S1 K1] [P2 L2 S2 K2]. constructor; [congruence|congruence|by intros; rewrite S2|].
  intros Hl Hr. destruct (K1 Hl Hr). auto.
Qed.

Lemma refs_grows c c' : grows c c' -> refsOk c -> refsOk c'.
Proof.
  intros [HP _ _ HT _] Hr id pod name ctr. rewrite HP. intros Hp Hctr. specialize (Hr id pod name ctr Hp Hctr). destruct (aggregator ctr); auto.
Qed.

(** A change of the containers of the pods: the labels stay, and the containers are good. *)
Lemma setPods_links c p : pod_labelSetKey <$> p = labelKeys c -> linksOk c -> linksOk (setPods p c).
Proof. intros Hp [K1 K2 K3 K4 K5 K6 K7]. constructor; try done. intros id k. unfold labelKeys. cbn. rewrite Hp. apply K2. Qed.

Lemma alter_keys (p : gmap PodID PodState) id f : (forall pod, pod_labelSetKey (f pod) = pod_labelSetKey pod) ->
  pod_labelSetKey <$> alter f id p = pod_labelSetKey <$> p.
Proof.
  intros Hf. apply map_eq. intros i. rewrite !lookup_fmap. destruct (decide (i = id)) as [->|].
  - rewrite lookup_alter_eq. destruct (p !! id); cbn; [by rewrite Hf|done].
  - by rewrite lookup_alter_ne.
Qed.

Lemma findOrCreate_result cid c l c' : linksOk c -> findOrCreateAggregateContainerState now cid c = (Ok l, c') -> is_Some (states c' !! l).
Proof.
  intros Hok. destruct cid as [id name]. destruct (labelKeys c !! id) as [k|] eqn:Ek.
  - destruct (aggregateStateMap c !! {| key_namespace := fst id; key_containerName := name; key_labelSetKey := k |}) as [l'|] eqn:El.
    + rewrite (findOrCreate_found c id name k l') by done. intros [= <- <-]. by apply (lk_keys _ Hok _ _ El).
    + rewrite (findOrCreate_new c id name k) by done. intros [= <- <-]. unfold withNew. cbn. rewrite lookup_insert_eq. eauto.
  - unfold labelKeys in Ek. rewrite lookup_fmap in Ek. destruct (Pods c !! id) eqn:E; [done|].
    unfold findOrCreateAggregateContainerState, aggregateStateKeyForContainerID, mbind, stateM_bind. cbn. by rewrite E.
Qed.

Lemma relink_keeps id names : keeps (fun c c' => linksOk c -> relinks c c') (relinkContainers now id names).
Proof.
  induction names as [|name names IH]; [intros c _ _; reflexivity|]. intros c Hp Hok. cbn [relinkContainers] in *.
  unfold mbind, stateM_bind, modify in *. pose proof (findOrCreate_keeps (id, name) c) as Hg.
  pose proof (findOrCreate_result (id, name) c) as Hres.
  destruct (findOrCreateAggregateContainerState now (id, name) c) as [[l|e|] c1] eqn:E; cbn in *; [| |done].
  2:{ specialize (Hg ltac:(done) Hok). constructor; try apply Hg; [unfold labelKeys; by rewrite (gr_pods _ _ Hg)|].
      intros _ Hr. split; [by apply Hg|by eapply refs_grows]. }
  specialize (Hg ltac:(done) Hok). specialize (Hres l c1 Hok eq_refl).
  set (c2 := setPods _ c1) in *.
  assert (H12 : relinks c c2).
  { assert (Hk : labelKeys c2 = labelKeys c1) by (unfold labelKeys, c2; by apply alter_keys).
    constructor; [rewrite Hk; unfold labelKeys; by rewrite (gr_pods _ _ Hg)|apply Hg|apply Hg|].
    intros Hl Hr. split; [by apply setPods_links, Hg|]. apply (refs_grows _ _ Hg) in Hr. intros i pod n ctr. unfold c2. cbn.
    destruct (decide (i = id)) as [->|]; [rewrite lookup_alter_eq|rewrite lookup_alter_ne by done; apply Hr].
    destruct (Pods c1 !! id) as [pod0|] eqn:Epod; [|done]. cbn. intros [= <-]. cbn.
    destruct (decide (n = name)) as [->|]; [rewrite lookup_alter_eq|rewrite lookup_alter_ne by done; by apply (Hr id pod0)].
    destruct (pod_Containers pod0 !! name) as [ctr0|]; [|done]. cbn. intros [= <-]. done. }
  etransitivity; [exact H12|]. apply IH; [done|]. by apply setPods_links, Hg; [apply alter_keys|].
Qed.
Lemma findOrCreate_noerr cid c e : fst (findOrCreateAggregateContainerState now cid c) <> Err e.
Proof.
  unfold findOrCreateAggregateContainerState, aggregateStateKeyForContainerID, mbind, stateM_bind, get.
  destruct (Pods c !! fst cid); [|done]. destruct (aggregateStateMap c !! _); [done|]. by destruct (linkVpas _ _ _ _ _).
Qed.

Lemma relink_noerr id names : forall c e, fst (relinkContainers now id names c) <> Err e.
Proof.
  induction names as [|name names IH]; [done|]. intros c e. cbn [relinkContainers]. unfold mbind, stateM_bind, modify.
  pose proof (findOrCreate_noerr (id, name) c) as Hno. destruct (findOrCreateAggregateContainerState now (id, name) c) as [[l|e'|] c1]; cbn in *; [apply IH|by destruct (Hno e')|done].
Qed.

(** ** [AddOrUpdatePod] *)
Definition podRefsOk (c : ClusterState) (id : PodID) (pod : PodState) : Prop := forall name ctr,
  pod_Containers pod !! name = Some ctr ->
  match aggregator ctr with Direct l => is_Some (states c !! l) | ContainerStateAggregatorProxy cid => cid = (id, name) end.

Lemma putPod_ok c id pod : linksOk c -> refsOk c -> is_Some (labelSets c !! pod_labelSetKey pod) -> podRefsOk c id pod ->
  linksOk (setPods (<[id := pod]> (Pods c)) c) /\ refsOk (setPods (<[id := pod]> (Pods c)) c).
Proof.
  intros [K1 K2 K3 K4 K5 K6 K7] Hr Hlab Hpr. split.
  - constructor; try done. intros i k. unfold labelKeys. cbn. rewrite fmap_insert, lookup_insert_Some. intros [[_ <-]|[_ Hk]]; [done|by apply (K2 i)].
  - intros i p name ctr. cbn. rewrite lookup_insert_Some. intros [[<- <-]|[_ Hp]]; [apply Hpr|by apply Hr].
Qed.

(** The second half: the pod, which is counted nowhere, with its new labels. *)
Lemma placePod_ok c id pod : linksOk c -> refsOk c -> is_Some (labelSets c !! pod_labelSetKey pod) -> podRefsOk c id pod ->
  countsFor c (delete id (labelKeys c)) ->
  let m := putPod id pod;; relinkContainers now id (map_to_list (pod_Containers pod)).*1;; addPodToItsVpa id pod in
  fst (m c) <> Panic -> clusterOk (snd (m c)) /\ labelKeys (snd (m c)) = <[id := pod_labelSetKey pod]> (labelKeys c).
Proof.
  intros Hl Hr Hlab Hpr Hc. set (names := (map_to_list (pod_Containers pod)).*1).
  destruct (putPod_ok c id pod Hl Hr Hlab Hpr) as [Hl1 Hr1]. unfold mbind, stateM_bind, putPod, modify, addPodToItsVpa.
  set (c1 := setPods _ c) in *. pose proof (relink_keeps id names c1) as Hre. pose proof (relink_noerr id names c1) as Hnoerr.
  destruct (relinkContainers now id names c1) as [[[]|e|] c2]; cbn in *; [| |done].
  - intros Hp. specialize (Hre ltac:(done) Hl1). destruct Hre as [HK HL HS Hok2]. destruct (Hok2 Hl1 Hr1) as [Hl2 Hr2].
    assert (Hkeys1 : labelKeys c1 = <[id := pod_labelSetKey pod]> (labelKeys c)) by (unfold labelKeys, c1; cbn; apply fmap_insert).
    destruct (countPod_counts id pod 1 c2 (delete id (labelKeys c)) (<[id := pod_labelSetKey pod]> (labelKeys c))) as (vpas&E&Hc3&Hl3); [done| | |].
    + intros vid v Hv. specialize (HS vid). rewrite Hv in HS. destruct (Vpas c1 !! vid) as [v1|] eqn:E1; [|done]. apply (inj Some) in HS.
      rewrite (matchCount_shape _ _ _ _ HS). destruct (shape_inv _ _ HS) as (_&_&->). rewrite HL. by apply (Hc vid).
    + intros v. rewrite <- insert_delete_eq, matchCount_insert by apply lookup_delete_eq. lia.
    + rewrite E. cbn [snd fst]. split; [|unfold labelKeys in *; cbn; by rewrite HK, Hkeys1].
      constructor; [by apply Hl3|done|]. intros vid v Hv. unfold labelKeys in *. cbn. rewrite HK, Hkeys1. exact (Hc3 vid v Hv).
  - by destruct (Hnoerr e).
Qed.
Definition clusterR (c c' : ClusterState) : Prop := clusterOk c -> clusterOk c'.
#[export] Instance clusterR_preorder : PreOrder clusterR.
Proof. split; [intros c Hc; exact Hc|]. intros c1 c2 c3 R1 R2 Hc. by apply R2, R1. Qed.

(** Changing the phase of a pod, or anything else but its labels and aggregators. *)
Lemma alterPod_ok c id f : (forall pod, pod_labelSetKey (f pod) = pod_labelSetKey pod) ->
  (forall pod, podRefsOk c id pod -> podRefsOk c id (f pod)) -> clusterOk c -> clusterOk (setPods (alter f id (Pods c)) c).
Proof.
  intros Hf Hrf [Hl Hr Hc]. assert (Hk : labelKeys (setPods (alter f id (Pods c)) c) = labelKeys c) by by apply alter_keys.
  constructor.
  - by apply setPods_links.
  - intros i pod name ctr. cbn. destruct (decide (i = id)) as [->|]; [rewrite lookup_alter_eq|rewrite lookup_alter_ne by done; apply Hr].
    destruct (Pods c !! id) as [p|] eqn:E; [|done]. cbn. intros [= <-]. apply Hrf. intros n ct Hn. by apply (Hr id p).
  - intros vid v Hv. rewrite Hk. exact (Hc vid v Hv).
Qed.

Lemma setLabels_ok c s : plainLabels s -> clusterOk c -> clusterOk (setLabelSets (<[labelSetString s := s]> (labelSets c)) c).
Proof.
  intros Hs [Hl Hr Hc]. constructor; [by apply setLabels_links|done|]. apply (setLabels_counts c s (labelKeys c)); [done|done| |done].
  intros id k. by apply (lk_pods _ Hl id).
Qed.

(** The last step: the phase. *)
Lemma phase_ok c id phase : clusterOk c -> clusterOk (setPods (alter (fun pod => mkPod (pod_labelSetKey pod) (pod_Containers pod) phase) id (Pods c)) c).
Proof. by apply alterPod_ok. Qed.

(** What remains of [AddOrUpdatePod] after the label sets are known. *)
Definition placeRest (id : PodID) (pod : PodState) (nk phase : string) (podExists changed : bool) : stateM ClusterState modelError unit :=
  (if podExists && changed then removePodFromItsVpa id pod else mret tt);;
  (if negb podExists || changed then
    let pod := mkPod nk (pod_Containers pod) (pod_Phase pod) in
    putPod id pod;;
    relinkContainers now id (map_to_list (pod_Containers pod)).*1;;
    addPodToItsVpa id pod
  else mret tt);;
  modify (fun c => setPods (alter (fun pod => mkPod (pod_labelSetKey pod) (pod_Containers pod) phase) id (Pods c)) c).

Lemma AddOrUpdatePod_eq id newLabels phase c :
  let pod := default newPod (Pods c !! id) in let nk := labelSetString newLabels in
  AddOrUpdatePod now id newLabels phase c =
    placeRest id pod nk phase (bool_decide (is_Some (Pods c !! id))) (bool_decide (pod_labelSetKey pod <> nk))
      (setLabelSets (<[nk := newLabels]> (labelSets c)) (setPods (<[id := pod]> (Pods c)) c)).
Proof. reflexivity. Qed.

(** The phase is set after a part that ends well. *)
Lemma then_phase (m : stateM ClusterState modelError unit) id phase c :
  (fst (m c) <> Panic -> clusterOk (snd (m c))) ->
  let m' := m;; modify (fun c => setPods (alter (fun pod => mkPod (pod_labelSetKey pod) (pod_Containers pod) phase) id (Pods c)) c) in
  fst (m' c) <> Panic -> clusterOk (snd (m' c)).
Proof.
  intros Hm. unfold mbind, stateM_bind, modify. destruct (m c) as [[[]|e|] c']; cbn in *; intros Hp; [by apply phase_ok, Hm|by apply Hm|done].
Qed.

Lemma place_ok c id pod nk : linksOk c -> refsOk c -> is_Some (labelSets c !! nk) -> podRefsOk c id pod ->
  countsFor c (delete id (labelKeys c)) ->
  let m := let pod := mkPod nk (pod_Containers pod) (pod_Phase pod) in
    putPod id pod;; relinkContainers now id (map_to_list (pod_Containers pod)).*1;; addPodToItsVpa id pod in
  forall p, fst (m (setPods (<[id := p]> (Pods c)) c)) <> Panic -> clusterOk (snd (m (setPods (<[id := p]> (Pods c)) c))).
Proof.
  intros Hl Hr Hnk Hpr Hc m p.
  assert (E : m (setPods (<[id := p]> (Pods c)) c) = m c).
  { unfold m, mbind, stateM_bind, putPod, modify. cbn. unfold setPods. cbn. by rewrite insert_insert_eq. }
  rewrite E. intros Hp. by apply (placePod_ok c id (mkPod nk (pod_Containers pod) (pod_Phase pod))).
Qed.

Lemma AddOrUpdatePod_keeps id newLabels phase : plainLabels newLabels -> keeps clusterR (AddOrUpdatePod now id newLabels phase).
Proof.
  intros Hplain c Hp Hok. rewrite AddOrUpdatePod_eq in *. set (nk := labelSetString newLabels) in *.
  set (c0 := setLabelSets (<[nk := newLabels]> (labelSets c)) c). assert (Hok0 : clusterOk c0) by by apply setLabels_ok.
  assert (Hnk : is_Some (labelSets c0 !! nk)) by (unfold c0; cbn; rewrite lookup_insert_eq; eauto). pose proof Hok0 as [Hl0 Hr0 Hc0].
  destruct (Pods c !! id) as [pod|] eqn:Epod; cbn [default from_option] in *.
  - rewrite bool_decide_true in * by eauto. change (Datatypes.id pod) with pod in *.
    assert (E1 : setLabelSets (<[nk := newLabels]> (labelSets c)) (setPods (<[id := pod]> (Pods c)) c) = c0).
    { unfold c0. f_equal. rewrite insert_id by done. by destruct c. }
    assert (Hpr : podRefsOk c0 id pod) by (intros name ctr; by apply Hr0).
    rewrite E1 in *. unfold placeRest in *. cbn [negb andb orb] in *. case_bool_decide as Hch.
    + unfold mbind at 1, stateM_bind at 1 in Hp. unfold mbind at 1, stateM_bind at 1. unfold removePodFromItsVpa in *.
      assert (Hnp : fst (countPod id pod (-1) c0) <> Panic) by (intros E; destruct (countPod id pod (-1) c0) as [[| |] ?]; cbn in *; done).
      assert (Hk : labelKeys c0 !! id = Some (pod_labelSetKey pod)) by (unfold labelKeys, c0; cbn; by rewrite lookup_fmap, Epod).
      destruct (countPod_counts id pod (-1) c0 (labelKeys c0) (delete id (labelKeys c0))) as (vpas&E&Hc2&Hl2); [done|done| |].
      { intros v. rewrite (matchCount_delete _ v (labelKeys c0) id (pod_labelSetKey pod)) by done. destruct (keyMatches _ _ _); lia. }
      rewrite E in *. revert Hp. apply then_phase.
      assert (Ep : setPods (<[id := pod]> (Pods (setVpas vpas c0))) (setVpas vpas c0) = setVpas vpas c0).
      { unfold setPods, c0. cbn. by rewrite insert_id. }
      rewrite <- Ep. apply (place_ok (setVpas vpas c0) id pod nk); try done. by apply Hl2.
    + by apply phase_ok.
  - rewrite bool_decide_false in * by (by intros []). unfold placeRest in *. cbn [negb andb orb] in *.
    change (setLabelSets (<[nk := newLabels]> (labelSets c)) (setPods (<[id := newPod]> (Pods c)) c)) with (setPods (<[id := newPod]> (Pods c0)) c0) in *.
    revert Hp. apply then_phase. apply (place_ok c0 id newPod nk); try done.
    rewrite delete_id; [done|]. unfold labelKeys, c0. cbn. by rewrite lookup_fmap, Epod.
Qed.
(** ** The other operations on pods and containers *)
Lemma deletePod_ok c id : linksOk c -> refsOk c -> countsFor c (delete id (labelKeys c)) -> clusterOk (setPods (delete id (Pods c)) c).
Proof.
  intros [K1 K2 K3 K4 K5 K6 K7] Hr Hc.
  assert (Hk : labelKeys (setPods (delete id (Pods c)) c) = delete id (labelKeys c)) by (unfold labelKeys; cbn; apply fmap_delete).
  constructor.
  - constructor; try done. intros i k. rewrite Hk. intros [_ Hik]%lookup_delete_Some. by apply (K2 i).
  - intros i pod name ctr. cbn. intros [_ Hp]%lookup_delete_Some. by apply Hr.
  - intros vid v Hv. rewrite Hk. exact (Hc vid v Hv).
Qed.

Lemma DeletePod_keeps id : keeps clusterR (DeletePod id).
Proof.
  intros c Hp [Hl Hr Hc]. unfold DeletePod in *. unfold mbind at 1, stateM_bind at 1, get in Hp. unfold mbind at 1, stateM_bind at 1, get.
  destruct (Pods c !! id) as [pod|] eqn:Epod.
  - unfold removePodFromItsVpa, mbind, stateM_bind, modify in *.
    assert (Hnp : fst (countPod id pod (-1) c) <> Panic) by (intros E; destruct (countPod id pod (-1) c) as [[| |] ?]; cbn in *; done).
    assert (Hk : labelKeys c !! id = Some (pod_labelSetKey pod)) by (unfold labelKeys; by rewrite lookup_fmap, Epod).
    destruct (countPod_counts id pod (-1) c (labelKeys c) (delete id (labelKeys c))) as (vpas&E&Hc2&Hl2); [done|done| |].
    { intros v. rewrite (matchCount_delete _ v (labelKeys c) id (pod_labelSetKey pod)) by done. destruct (keyMatches _ _ _); lia. }
    rewrite E in *. cbn [snd]. apply (deletePod_ok (setVpas vpas c)); [by apply Hl2|done|done].
  - cbn. apply deletePod_ok; [done..|]. rewrite delete_id; [done|]. unfold labelKeys. by rewrite lookup_fmap, Epod.
Qed.

Lemma putContainer_ok cid ctr c : (match aggregator ctr with Direct l => is_Some (states c !! l) | ContainerStateAggregatorProxy cid' => cid' = cid end) ->
  clusterOk c -> clusterOk (snd (putContainer cid ctr c)).
Proof.
  intros Hctr. destruct cid as [id name]. unfold putContainer, modify. cbn [snd fst]. apply alterPod_ok; [done|].
  intros pod Hpr n ct. cbn. rewrite lookup_insert_Some. intros [[<- <-]|[_ Hn]]; [done|by apply Hpr].
Qed.

Lemma AddOrUpdateContainer_keeps cid request : keeps clusterR (AddOrUpdateContainer now cid request).
Proof.
  intros c Hp Hok. destruct cid as [id name]. unfold AddOrUpdateContainer in *.
  unfold mbind at 1, stateM_bind at 1, get in Hp. unfold mbind at 1, stateM_bind at 1, get. cbn [fst snd] in *.
  destruct (Pods c !! id) as [pod|] eqn:Epod; [|done]. destruct (pod_Containers pod !! name) as [ctr|] eqn:Ectr.
  - apply putContainer_ok; [|done]. cbn. by apply (ok_refs _ Hok id pod).
  - unfold mbind, stateM_bind in *. pose proof (findOrCreate_keeps (id, name) c) as Hg.
    destruct (findOrCreateAggregateContainerState now (id, name) c) as [[l|e|] c1] eqn:E; cbn [fst snd] in *; [| |done].
    + apply putContainer_ok; [done|]. apply (grows_clusterOk c); [|done]. apply Hg; [done|apply Hok].
    + apply (grows_clusterOk c); [|done]. apply Hg; [done|apply Hok].
Qed.

Lemma onContainer_keeps {A} id name pod ctr c (m : stateM (ContainerState aggregatorRef * ClusterState) modelError A) :
  Pods c !! id = Some pod -> pod_Containers pod !! name = Some ctr -> keeps containerGrows m -> clusterOk c ->
  fst (onContainer (id, name) ctr m c) <> Panic -> clusterOk (snd (onContainer (id, name) ctr m c)).
Proof.
  intros Hpod Hctr Hm Hok Hp. unfold onContainer in *. specialize (Hm (ctr, c)). destruct (m (ctr, c)) as [r [ctr' c']]. cbn [fst snd] in *.
  destruct (Hm Hp) as [Ha Hg]. cbn [fst snd] in *. specialize (Hg (ok_links _ Hok)). apply putContainer_ok; [|by apply (grows_clusterOk c)].
  rewrite Ha. pose proof (ok_refs _ Hok id pod name ctr Hpod Hctr) as Href. destruct (aggregator ctr); [|done]. by apply (gr_states _ _ Hg).
Qed.

Lemma ClusterAddSample_keeps cid sample : keeps clusterR (ClusterAddSample now cid sample).
Proof.
  intros c Hp Hok. destruct cid as [id name]. unfold ClusterAddSample in *.
  unfold mbind at 1, stateM_bind at 1, get in Hp. unfold mbind at 1, stateM_bind at 1, get. cbn [fst snd] in *.
  destruct (Pods c !! id) as [pod|] eqn:Epod; [|done]. destruct (pod_Containers pod !! name) as [ctr|] eqn:Ectr; [|done].
  pose proof (onContainer_keeps id name pod ctr c _ Epod Ectr (ContainerAddSample_keeps sample) Hok) as Hk.
  unfold mbind, stateM_bind in *. destruct (onContainer (id, name) ctr _ c) as [[b|e|] c1]; cbn [fst snd] in *; [|by apply Hk|done].
  specialize (Hk ltac:(done)). by destruct b.
Qed.

Lemma ClusterRecordOOM_keeps cid t r : keeps clusterR (ClusterRecordOOM now cid t r).
Proof.
  intros c Hp Hok. destruct cid as [id name]. unfold ClusterRecordOOM in *.
  unfold mbind at 1, stateM_bind at 1, get in Hp. unfold mbind at 1, stateM_bind at 1, get. cbn [fst snd] in *.
  destruct (Pods c !! id) as [pod|] eqn:Epod; [|done]. destruct (pod_Containers pod !! name) as [ctr|] eqn:Ectr; [|done].
  pose proof (onContainer_keeps id name pod ctr c _ Epod Ectr (ContainerRecordOOM_keeps t r) Hok) as Hk.
  unfold mbind, stateM_bind, caught in *. destruct (onContainer (id, name) ctr _ c) as [[[]|e|] c1]; cbn [fst snd] in *; [by apply Hk|by apply Hk|done].
Qed.
(** ** VPA objects *)

(** The states keep their locations. *)
Definition sameStates (s s' : gmap nat AggregateContainerState) : Prop := forall l, is_Some (s' !! l) <-> is_Some (s !! l).
#[local] Instance sameStates_preorder : PreOrder sameStates.
Proof. split; [by intros s l|]. intros s1 s2 s3 R1 R2 l. by rewrite (R2 l), (R1 l). Qed.

Lemma alter_sameStates f l s : sameStates s (alter f l s).
Proof.
  intros l'. destruct (decide (l' = l)) as [->|]; [rewrite lookup_alter_eq|by rewrite lookup_alter_ne].
  apply fmap_is_Some.
Qed.

Lemma insert_sameStates l a a' s : s !! l = Some a' -> sameStates s (<[l := a]> s).
Proof.
  intros Hl l'. destruct (decide (l' = l)) as [->|]; [rewrite lookup_insert_eq, Hl; split; eauto|by rewrite lookup_insert_ne].
Qed.

Lemma updateStates_same v f s : sameStates s (updateStates v f s).
Proof.
  unfold updateStates. apply (map_fold_weak_ind (fun s' _ => sameStates s s')); [reflexivity|].
  intros key l m s' _ IH. etransitivity; [exact IH|apply alter_sameStates].
Qed.

(** A method that only changes what a VPA object says, and states. *)
Definition keepsVpa (f : Vpa * gmap nat AggregateContainerState -> Vpa * gmap nat AggregateContainerState) : Prop := forall v s,
  vpaShape (fst (f (v, s))) = vpaShape v /\ aggregateContainerStates (fst (f (v, s))) = aggregateContainerStates v /\
  sameStates s (snd (f (v, s))).

Lemma SetResourcePolicy_vpa p : keepsVpa (SetResourcePolicy p).
Proof. intros v s. unfold SetResourcePolicy. destruct (ptrEq _ _); [by split_and!|]. split_and!; [done..|apply updateStates_same]. Qed.

Lemma SetUpdateMode_vpa p : keepsVpa (SetUpdateMode p).
Proof.
  intros v s. unfold SetUpdateMode. destruct p as [p|]; [destruct (ptrEq _ _); [by split_and!|]|]; split_and!; done || apply updateStates_same.
Qed.

Lemma replaceVpa_grows c id v v' s : Vpas c !! id = Some v -> vpaShape v' = vpaShape v ->
  aggregateContainerStates v' = aggregateContainerStates v -> sameStates (states c) s ->
  grows c (setVpas (<[id := v']> (Vpas c)) (setStates s c)).
Proof.
  intros Hv Hsh Ha Hs. transitivity (setStates s c); [by apply grows_states|]. constructor; try done.
  - intros i. cbn. destruct (decide (i = id)) as [->|]; [rewrite lookup_insert_eq, Hv; cbn; by rewrite Hsh|by rewrite lookup_insert_ne].
  - intros [K1 K2 K3 K4 K5 K6 K7]. constructor; try done; cbn.
    + intros i w. rewrite lookup_insert_Some. intros [[<- <-]|[_ Hw]]; [|by apply K6].
      destruct (shape_inv _ _ Hsh) as [-> _]. by apply (K6 id).
    + intros i w key l. rewrite lookup_insert_Some. intros [[<- <-]|[_ Hw]]; [|by apply (K7 i)].
      rewrite Ha, (matches_shape _ v v') by done. by apply (K7 id).
Qed.

(** *** Linking a new VPA object *)
Lemma linkAggregations_spec m v0 s0 aggs : aggregateContainerStates v0 = ∅ ->
  (forall key l, aggs !! key = Some l -> is_Some (s0 !! l)) ->
  let '(v, s) := linkAggregations m v0 aggs s0 in
  vpaShape v = vpaShape v0 /\ sameStates s0 s /\
  forall key l, aggregateContainerStates v !! key = Some l <-> aggs !! key = Some l /\ matchesAggregation m v0 key = true.
Proof.
  intros Hempty. unfold linkAggregations.
  apply (map_fold_weak_ind (fun (r : Vpa * gmap nat AggregateContainerState) aggs => (forall key l, aggs !! key = Some l -> is_Some (s0 !! l)) ->
    let '(v, s) := r in vpaShape v = vpaShape v0 /\ sameStates s0 s /\
    forall key l, aggregateContainerStates v !! key = Some l <-> aggs !! key = Some l /\ matchesAggregation m v0 key = true)).
  - intros _. split_and!; [done..|]. intros key l. rewrite Hempty, !lookup_empty. naive_solver.
  - intros key l aggs' [v s] Hk IH Hall. destruct IH as (Hsh&Hs&Hl).
    { intros key' l' Hl'. apply (Hall key'). rewrite lookup_insert_ne; [done|]. intros ->. congruence. }
    destruct (proj2 (Hs l)) as [a Ha]; [apply (Hall key l), lookup_insert_eq|]. rewrite Ha.
    pose proof (use_fst m key l v a) as Hu. destruct (UseAggregationIfMatching m key l (v, a)) as [v' a']. cbn in Hu. subst v'.
    split_and!; [by rewrite linked_shape|by etransitivity; [exact Hs|eapply insert_sameStates]|].
    intros key' l'. assert (Hnone : aggregateContainerStates v !! key = None).
    { destruct (aggregateContainerStates v !! key) eqn:E; [|done]. apply Hl in E as [E _]. congruence. }
    rewrite linked_lookup, Hl, lookup_insert_Some, (matches_shape m v0 v) by done. split; [|naive_solver].
    intros [[Hin Hm]|(->&->&Hm)]; [|naive_solver]. split; [|done]. right. split; [congruence|done].
Qed.

Lemma GetMatchingPods_count c v pods : GetMatchingPods c v = Some pods ->
  Z.of_nat (length pods) = matchCount (labelSets c) v (labelKeys c).
Proof.
  unfold GetMatchingPods, matchCount, labelKeys. rewrite map_to_list_fmap, sumOver_fmap. revert pods.
  induction (map_to_list (Pods c)) as [|[id pod] l IH]; intros pods; cbn [foldr]; [by intros [= <-]|].
  rewrite sumOver_cons. unfold compose at 1, keyMatches at 1. cbn [prod_map fst snd]. fold (podLabels c pod).
  destruct (PodLabelsMatchVPA _ _ _ _) as [b|]; [|done]. bind_simpl. destruct (foldr _ _ l) as [l'|]; [|done]. bind_simpl. intros [= <-].
  rewrite <- (IH l' eq_refl). destruct b; cbn [default from_option Datatypes.id length]; lia.
Qed.

(** A VPA object more, or another under the same name. *)
Lemma insertVpa_ok c id v s : clusterOk c -> vpa_ID v = id -> sameStates (states c) s ->
  (forall key l, aggregateContainerStates v !! key = Some l <-> aggregateStateMap c !! key = Some l /\ matchesAggregation (labelSets c) v key = true) ->
  PodCount v = wrap64 (matchCount (labelSets c) v (labelKeys c)) ->
  clusterOk (setVpas (<[id := v]> (Vpas c)) (setStates s c)).
Proof.
  intros Hok Hid Hs Hl Hcnt. apply (grows_clusterOk _ _ (grows_states c s Hs)) in Hok. destruct Hok as [[K1 K2 K3 K4 K5 K6 K7] Hr Hc].
  constructor; [constructor; try done; cbn| |].
  - intros i w. rewrite lookup_insert_Some. intros [[<- <-]|[_ Hw]]; [done|by apply K6].
  - intros i w key l. rewrite lookup_insert_Some. intros [[<- <-]|[_ Hw]]; [apply Hl|by apply (K7 i)].
  - exact Hr.
  - intros i w. cbn. rewrite lookup_insert_Some. intros [[<- <-]|[_ Hw]]; [exact Hcnt|exact (Hc i w Hw)].
Qed.

Lemma createVpa_keeps id selector : keeps clusterR (createVpa now id selector).
Proof.
  intros c Hp Hok. unfold createVpa in *. unfold mbind at 1, stateM_bind at 1, get in Hp. unfold mbind at 1, stateM_bind at 1, get.
  pose proof (linkAggregations_spec (labelSets c) (NewVpa id selector now) (states c) (aggregateStateMap c) eq_refl) as Hspec.
  destruct (linkAggregations _ _ _ _) as [v s]. destruct Hspec as (Hsh&Hs&Hl); [intros key l Hk; by apply (lk_keys _ (ok_links _ Hok) key)|].
  unfold mbind, stateM_bind, modify in *. destruct (GetMatchingPods c v) as [pods|] eqn:Epods; [|done]. cbn [snd].
  destruct (shape_inv _ _ Hsh) as (Eid&Esel&_).
  apply (insertVpa_ok c id (setPodCount (wrap64 (Z.of_nat (length pods))) v) s); [done|exact Eid|done| |].
  - intros key l. change (aggregateContainerStates (setPodCount _ v)) with (aggregateContainerStates v). rewrite Hl.
    unfold matchesAggregation. cbn. by rewrite Eid, Esel.
  - cbn. by rewrite (GetMatchingPods_count c v pods).
Qed.

(** *** Removal and update of a VPA object *)
Lemma removeVpa_ok c id s : sameStates (states c) s -> clusterOk c ->
  clusterOk (setEmptyVPAs (delete id (EmptyVPAs c)) (setVpas (delete id (Vpas c)) (setStates s c))).
Proof.
  intros Hs Hok. apply (grows_clusterOk _ _ (grows_states c s Hs)) in Hok. destruct Hok as [[K1 K2 K3 K4 K5 K6 K7] Hr Hc].
  constructor; [constructor; try done; cbn|exact Hr|].
  - intros i w [_ Hw]%lookup_delete_Some. by apply K6.
  - intros i w key l [_ Hw]%lookup_delete_Some. by apply (K7 i).
  - intros i w. cbn. intros [_ Hw]%lookup_delete_Some. exact (Hc i w Hw).
Qed.

Lemma DeleteVpa_keeps id : keeps clusterR (DeleteVpa id).
Proof.
  intros c _ Hok. unfold DeleteVpa. unfold mbind at 1, stateM_bind at 1, get. destruct (Vpas c !! id) as [v|]; [|done].
  exact (removeVpa_ok c id _ (updateStates_same v _ _) Hok).
Qed.

Lemma updateVpa_ok c id v v' s : Vpas c !! id = Some v -> vpaShape v' = vpaShape v ->
  aggregateContainerStates v' = aggregateContainerStates v -> sameStates (states c) s -> clusterOk c ->
  clusterOk (setVpas (<[id := v']> (Vpas c)) (setStates s c)).
Proof. intros. apply (grows_clusterOk c); [|done]. by apply (replaceVpa_grows c id v). Qed.

Lemma AddOrUpdateVpa_keeps apiObject selector : keeps clusterR (AddOrUpdateVpa now apiObject selector).
Proof.
  unfold AddOrUpdateVpa. cbv zeta. apply keeps_bind; [apply _|apply keeps_get; apply _|]. intros c0.
  apply keeps_bind; [apply _| |].
  { destruct (Vpas c0 !! _) as [v|]; [|apply keeps_ret; apply _].
    destruct (PodSelector v) as [s|], selector as [s'|]; try (apply keeps_panic; apply _).
    destruct (decide _); [|apply keeps_ret; apply _].
    apply keeps_bind; [apply _|apply DeleteVpa_keeps|intros []; apply keeps_ret; apply _]. }
  intros b. apply keeps_bind; [apply _|destruct b; [apply keeps_ret; apply _|apply createVpa_keeps]|]. intros [] c _ Hok.
  unfold modify. cbn [snd]. destruct (Vpas c !! _) as [v|] eqn:Ev; [|done].
  set (v1 := setRecommendation _ _). destruct (SetUpdateMode_vpa (api_UpdatePolicy apiObject) v1 (states c)) as (Sh1&A1&S1).
  destruct (SetUpdateMode _ (v1, states c)) as [v2 s2]. cbn [fst snd] in *.
  destruct (SetResourcePolicy_vpa (api_ResourcePolicy apiObject) v2 s2) as (Sh2&A2&S2).
  destruct (SetResourcePolicy _ (v2, s2)) as [v3 s3]. cbn [fst snd] in *.
  apply (updateVpa_ok c _ v); [done|by rewrite Sh2, Sh1|by rewrite A2, A1|by etransitivity|done].
Qed.

(** *** Garbage collection *)

(** What is left of the aggregations that a VPA object uses. *)
Definition unlinked (key : AggregateStateKey) (v : Vpa) : Vpa := setAggregations (delete key (aggregateContainerStates v)) v.

Lemma DeleteAggregation_fst key v s : fst (DeleteAggregation key (v, s)) = unlinked key v /\ sameStates s (snd (DeleteAggregation key (v, s))).
Proof.
  unfold DeleteAggregation, unlinked. destruct (aggregateContainerStates v !! key) eqn:E; cbn.
  - split; [done|apply alter_sameStates].
  - split; [|done]. rewrite delete_id by done. by destruct v.
Qed.

(** A fold over VPA objects that puts each back, and changes states. *)
Lemma vpasFold {B} (step : VpaID -> Vpa -> B -> Vpa * B) (f : Vpa -> Vpa) (R : B -> B -> Prop) `{!PreOrder R} (vpas : gmap VpaID Vpa) (b : B) :
  (forall id v b, fst (step id v b) = f v /\ R b (snd (step id v b))) ->
  let r := map_fold (fun id v '(vs, b) => let '(v', b') := step id v b in (<[id := v']> vs, b')) (vpas, b) vpas in
  fst r = f <$> vpas /\ R b (snd r).
Proof.
  intros Hstep. cbv zeta.
  cut (forall vs0 : gmap VpaID Vpa,
    let r := map_fold (fun id v '(vs, b) => let '(v', b') := step id v b in (<[id := v']> vs, b')) (vs0, b) vpas in
    (forall id, fst r !! id = match vpas !! id with Some v => Some (f v) | None => vs0 !! id end) /\ R b (snd r)).
  { intros Hcut. destruct (Hcut vpas) as [Hvs HR]. split; [|done]. apply map_eq. intros id. rewrite Hvs, lookup_fmap. by destruct (vpas !! id). }
  intros vs0. cbv zeta. apply (map_fold_weak_ind (fun r vpas =>
    (forall id, fst r !! id = match vpas !! id with Some v => Some (f v) | None => vs0 !! id end) /\ R b (snd r))).
  - split; [|reflexivity]. intros id. by rewrite lookup_empty.
  - intros i v vpas' [vs b'] Hi [IH HR]. destruct (Hstep i v b') as [E HR']. destruct (step i v b') as [v' b'']. cbn in *. subst v'. split; [|by etransitivity].
    intros id. destruct (decide (id = i)) as [->|Hne]; [by rewrite !lookup_insert_eq|]. rewrite !lookup_insert_ne by done. apply IH.
Qed.

(** What the removal of a key does. *)
Lemma deleteKey_spec key c : exists s, sameStates (states c) s /\
  deleteKey key c = setAggregateMap (delete key (aggregateStateMap c)) (setVpas (unlinked key <$> Vpas c) (setStates s c)).
Proof.
  unfold deleteKey.
  destruct (vpasFold (fun id v s => DeleteAggregation key (v, s)) (unlinked key) sameStates (Vpas c) (states c)) as [E Hs];
    [by intros; apply DeleteAggregation_fst|].
  destruct (map_fold _ _ _) as [vpas s]. cbn [fst snd] in *. subst vpas. by exists s.
Qed.

Lemma deleteKey_grows key c : grows c (deleteKey key c).
Proof.
  destruct (deleteKey_spec key c) as (s&Hs&->). constructor; try done.
  - intros id. cbn. rewrite lookup_fmap. by destruct (Vpas c !! id).
  - intros l Hl. by apply Hs.
  - intros [K1 K2 K3 K4 K5 K6 K7]. constructor; try done; cbn.
    + intros k l [_ Hk]%lookup_delete_Some. destruct (K3 k l Hk). split; [done|]. by apply Hs.
    + intros l Hl%Hs. by apply K4.
    + intros k1 k2 l [_ Hk1]%lookup_delete_Some [_ Hk2]%lookup_delete_Some. by apply (K5 k1 k2 l).
    + intros id w. rewrite lookup_fmap_Some. intros (v&<-&Hv). by apply (K6 id v).
    + intros id w k l. rewrite lookup_fmap_Some. intros (v&<-&Hv).
      change (matchesAggregation (labelSets c) (unlinked key v) k) with (matchesAggregation (labelSets c) v k).
      cbn. rewrite !lookup_delete_Some, (K7 id v) by done. tauto.
Qed.

Lemma deleteKeys_grows keys : forall c, grows c (foldl (fun c key => deleteKey key c) c keys).
Proof.
  induction keys as [|key keys IH]; intros c; cbn; [reflexivity|]. etransitivity; [apply deleteKey_grows|apply IH].
Qed.

Lemma GarbageCollect_keeps time : keeps clusterR (GarbageCollectAggregateCollectionStates time).
Proof. intros c _ Hok. apply (grows_clusterOk c); [apply deleteKeys_grows|done]. Qed.

(** The keys that are removed are gone, from the cluster and from its VPA objects, and the others are kept. *)
Lemma deleteKeys_lookup keys : forall c, let c' := foldl (fun c key => deleteKey key c) c keys in
  (forall k, aggregateStateMap c' !! k = if decide (k ∈ keys) then None else aggregateStateMap c !! k) /\
  (forall id, (fun v => (vpaShape v, aggregateContainerStates v)) <$> Vpas c' !! id =
    (fun v => (vpaShape v, filter (fun kl => kl.1 ∉ keys) (aggregateContainerStates v))) <$> Vpas c !! id).
Proof.
  induction keys as [|key keys IH]; intros c; cbn.
  - split; [done|]. intros id. destruct (Vpas c !! id) as [v|]; cbn; [|done]. repeat f_equal. symmetry. apply map_filter_id. intros ? ? _. apply not_elem_of_nil.
  - destruct (IH (deleteKey key c)) as [Hm Hv]. cbv zeta in Hm, Hv. destruct (deleteKey_spec key c) as (s&_&E). split.
    + intros k. rewrite Hm, E. cbn. rewrite (decide_ext (k ∈ key :: keys) (k = key \/ k ∈ keys)) by apply elem_of_cons. destruct (decide (k = key)) as [->|Hne].
      * rewrite lookup_delete_eq, (decide_True (P := _ \/ _)) by auto. by case_match.
      * rewrite lookup_delete_ne by done. destruct (decide (k ∈ keys)) as [Hk|Hk];
          [by rewrite decide_True by auto|by rewrite decide_False by (intros [|]; auto)].
    + intros id. rewrite Hv, E. cbn. rewrite lookup_fmap. destruct (Vpas c !! id) as [v|]; cbn; [|done]. repeat f_equal.
      apply map_eq. intros k. apply option_eq. intros l. rewrite !map_lookup_filter_Some, lookup_delete_Some. cbn.
      rewrite list.not_elem_of_cons. naive_solver.
Qed.

Lemma RecordRecommendation_keeps v time : keeps clusterR (RecordRecommendation v time).
Proof.
  assert (He : forall e c, clusterOk c -> clusterOk (setEmptyVPAs e c)) by (intros e c [[] ? ?]; constructor; [constructor|..]; assumption).
  intros c _ Hok. unfold RecordRecommendation. destruct (HasRecommendation v); [by apply He|].
  unfold mbind at 1, stateM_bind at 1, get. destruct (EmptyVPAs c !! vpa_ID v); [|by apply He].
  destruct (_ <? _); [by apply He|done].
Qed.
End Cluster.
