(* ===== verification/ClusterTheorems.v ===== *)
(** * Containers whose aggregation is gone (recommender/model/cluster.go)

    A change of the labels of a pod links its containers to the states of the new labels
    themselves, not by their keys; once garbage collection has dropped such a state, the
    container goes on to add samples to it. *)
From S2P Require Import Prelude Api Float64 Histogram ContainerUsage ContainerSpec AggregateState ClusterState ClusterSpec.
Local Open Scope Z_scope.

Section Orphans.
Context `{MathLib} `{Config} `{LabelsString} (now : Time).

(** A change of the state at [l] only. *)
Definition onlyAt (l : nat) (c c' : ClusterState) : Prop :=
  Vpas c' = Vpas c /\ aggregateStateMap c' = aggregateStateMap c /\ forall l', l' <> l -> states c' !! l' = states c !! l'.
#[export] Instance onlyAt_preorder l : PreOrder (onlyAt l).
Proof.
  split; [by intros c|]. intros c1 c2 c3 (V1&M1&S1) (V2&M2&S2). split_and!; [congruence|congruence|]. intros l' Hl. by rewrite S2, S1.
Qed.

Definition directAt (r : aggregatorRef) (c c' : ClusterState) : Prop :=
  match r with Direct l => onlyAt l c c' | ContainerStateAggregatorProxy _ => True end.
#[export] Instance directAt_preorder r : PreOrder (directAt r).
Proof. destruct r; cbn; [apply _|by split]. Qed.

Lemma direct_keeps {A} r (m : stateM AggregateContainerState modelError A) : keeps (directAt r) (l ← resolve now r; onState l m).
Proof.
  destruct r as [l|cid]; [|by intros c _]. intros c Hp. unfold resolve, mbind, stateM_bind, mret, stateM_ret, onState in *. cbn [directAt].
  destruct (states c !! l) as [a|]; [|done]. destruct (m a) as [res a']. split_and!; [done..|]. intros l2 Hl. exact (lookup_insert_ne _ _ _ _ (not_eq_sym Hl)).
Qed.
End Orphans.

(** A sample of a container that aggregates to a state which no key of the cluster
    leads to is accepted, and changes no state of the cluster's aggregations, nor what
    the VPA objects use: it is lost for the recommendations. *)
Theorem sample_of_an_orphan_is_lost `{MathLib, Config, LabelsString} now id name pod ctr l sample c :
  Pods c !! id = Some pod -> pod_Containers pod !! name = Some ctr -> aggregator ctr = Direct l ->
  (forall key, aggregateStateMap c !! key <> Some l) ->
  fst (ClusterAddSample now (id, name) sample c) <> Panic ->
  let c' := snd (ClusterAddSample now (id, name) sample c) in
  Vpas c' = Vpas c /\ aggregateStateMap c' = aggregateStateMap c /\
  forall key l', aggregateStateMap c !! key = Some l' -> states c' !! l' = states c !! l'.
Proof.
  intros Hpod Hctr Hagg Hno. assert (E : ClusterAddSample now (id, name) sample c =
    (added ← onContainer (id, name) ctr (ContainerAddSample (H0 := clusterAggregator now) sample); if (added : bool) then mret tt else fail SampleDiscarded) c).
  { unfold ClusterAddSample. unfold mbind at 1, stateM_bind at 1, get. cbn [fst snd]. by rewrite Hpod, Hctr. }
  rewrite E. cbv zeta. clear E.
  pose proof (ContainerAddSample_by now directAt (fun r A m => direct_keeps now r m) sample (ctr, c)) as Hk.
  unfold onContainer, mbind, stateM_bind. destruct (ContainerAddSample sample (ctr, c)) as [res [ctr' c1]]. cbn [fst snd] in Hk.
  intros Hp. assert (Hg : res <> Panic) by (intros ->; by apply Hp). destruct (Hk Hg) as [_ Hd]. cbn [fst snd] in Hd. rewrite Hagg in Hd. cbn in Hd.
  destruct Hd as (HV&HM&HS). assert (Hres : let c' := setPods (alter (fun pod => mkPod (pod_labelSetKey pod) (<[name := ctr']> (pod_Containers pod)) (pod_Phase pod)) id (Pods c1)) c1 in
    Vpas c' = Vpas c /\ aggregateStateMap c' = aggregateStateMap c /\ forall key l', aggregateStateMap c !! key = Some l' -> states c' !! l' = states c !! l').
  { cbn. split_and!; [done..|]. intros key l' Hl'. apply HS. intros ->. by apply (Hno key). }
  destruct res as [[]|e|]; [exact Hres..|done].
Qed.

(** *** An example: a pod is relabelled, and the state of its new labels expires *)
#[local] Existing Instance exampleMath.
#[local] Existing Instance exampleConfig.
#[local] Instance plainString : LabelsString := fun s => foldr (fun kv acc => fst kv +:+ "=" +:+ snd kv +:+ "," +:+ acc) "" (map_to_list s).

Definition relabelled : stateM ClusterState modelError unit :=
  AddOrUpdatePod 0 ("ns", "p") {["app" := "a"]} "Running";;
  AddOrUpdateContainer 0 (("ns", "p"), "main") ∅;;
  AddOrUpdatePod 0 ("ns", "p") {["app" := "b"]} "Running";;
  GarbageCollectAggregateCollectionStates 900.

Definition relabelledCluster : ClusterState := snd (relabelled NewClusterState).
Definition lateSample : ContainerUsageSample := {| MeasureStart := 910; Usage := 500; Request := 100; Resource_field := ResourceCPU |}.

Lemma sample_of_an_orphan_is_lost_witness :
  fst (relabelled NewClusterState) = Ok tt /\
  fst (ClusterAddSample 910 (("ns", "p"), "main") lateSample relabelledCluster) = Ok tt /\
  aggregateStateMap (snd (ClusterAddSample 910 (("ns", "p"), "main") lateSample relabelledCluster)) = ∅.
Proof.
  assert (Hok : fst (ClusterAddSample 910 (("ns", "p"), "main") lateSample relabelledCluster) = Ok tt) by (vm_compute; reflexivity).
  assert (Hempty : aggregateStateMap relabelledCluster = ∅) by (vm_compute; reflexivity).
  split; [vm_compute; reflexivity|]. split; [exact Hok|].
  assert (Hctr : match Pods relabelledCluster !! ("ns", "p") with
    | Some pod => match pod_Containers pod !! "main" with Some ctr => aggregator ctr = Direct 1 | None => False end
    | None => False end) by (vm_compute; reflexivity).
  destruct (Pods relabelledCluster !! ("ns", "p")) as [pod|] eqn:Epod; [|destruct Hctr].
  destruct (pod_Containers pod !! "main") as [ctr|] eqn:Ectr; [|destruct Hctr].
  destruct (sample_of_an_orphan_is_lost 910 ("ns", "p") "main" pod ctr 1 lateSample relabelledCluster Epod Ectr Hctr) as (_&HM&_).
  - intros key. rewrite Hempty, lookup_empty. discriminate.
  - rewrite Hok. discriminate.
  - exact (eq_trans HM Hempty).
Defined.
