(* ===== verification/Estimator.v ===== *)
(** * Estimation of the resources of a container (recommender/logic/estimator.go, recommender.go)

    The estimators are the constructors of a type, what they compute a recursive function
    of the aggregated state.  [None] is the panic of a histogram. *)
From S2P Require Import Prelude Api Float64 Histogram ContainerUsage AggregateState.
Local Open Scope Z_scope.

Inductive ResourceEstimator :=
  | constEstimator (resources : Resources)
  | percentileEstimator (cpuPercentile memoryPercentile : float64)
  | marginEstimator (marginFraction : float64) (baseEstimator : ResourceEstimator)
  | minResourcesEstimator (minResources : Resources) (baseEstimator : ResourceEstimator)
  | confidenceMultiplier (multiplier exponent : float64) (baseEstimator : ResourceEstimator).

Definition NewConstEstimator (resources : Resources) : ResourceEstimator := constEstimator resources.
Definition NewPercentileEstimator (cpuPercentile memoryPercentile : float64) : ResourceEstimator :=
  percentileEstimator cpuPercentile memoryPercentile.
Definition WithMargin (marginFraction : float64) (base : ResourceEstimator) : ResourceEstimator :=
  marginEstimator marginFraction base.
Definition WithMinResources (minResources : Resources) (base : ResourceEstimator) : ResourceEstimator :=
  minResourcesEstimator minResources base.
Definition WithConfidenceMultiplier (multiplier exponent : float64) (base : ResourceEstimator) : ResourceEstimator :=
  confidenceMultiplier multiplier exponent base.

(** The recommendation for a container; package types has another record of the same name. *)
Record ContainerResources := {
  Target : Resources;
  LowerBound : Resources;
  UpperBound : Resources
}.

Record podResourceRecommender := {
  targetEstimator : ResourceEstimator;
  lowerBoundEstimator : ResourceEstimator;
  upperBoundEstimator : ResourceEstimator
}.

Section Estimators.
Context `{MathLib} `{Config}.

Definition getConfidence (s : AggregateContainerState) : float64 :=
  let lifespanInDays := fdiv (ofInt (timeSub (LastSampleStart s) (FirstSampleStart s))) (ofInt (hour * 24)) in
  let samplesAmount := fdiv (ofInt (TotalSamplesCount s)) (ofInt (60 * 24)) in
  fmin lifespanInDays samplesAmount.

(** The five methods [GetResourceEstimation]. *)
Definition percentileEstimation (cpuPercentile memoryPercentile : float64) (s : AggregateContainerState) : option Resources :=
  cpu ← Percentile (AggregateCPUUsage s) cpuPercentile;
  memory ← Percentile (AggregateMemoryPeaks s) memoryPercentile;
  Some (<[ResourceCPU := CPUAmountFromCores cpu]> {[ResourceMemory := MemoryAmountFromBytes memory]}).

Definition withMargin (marginFraction : float64) (originalResources : Resources) : Resources :=
  (fun resourceAmount => wrap64 (resourceAmount + ScaleResource resourceAmount marginFraction)) <$> originalResources.

Definition atLeast (minResources originalResources : Resources) : Resources :=
  map_imap (fun resource resourceAmount =>
    let least := default 0 (minResources !! resource) in
    Some (if resourceAmount <? least then least else resourceAmount)) originalResources.

Definition withConfidence (multiplier exponent : float64) (s : AggregateContainerState) (originalResources : Resources) : Resources :=
  let confidence := getConfidence s in
  (fun resourceAmount => ScaleResource resourceAmount (math_Pow (fadd fone (fdiv multiplier confidence)) exponent)) <$> originalResources.

Fixpoint GetResourceEstimation (e : ResourceEstimator) (s : AggregateContainerState) : option Resources :=
  match e with
  | constEstimator resources => Some resources
  | percentileEstimator cpu memory => percentileEstimation cpu memory s
  | marginEstimator fraction base => withMargin fraction <$> GetResourceEstimation base s
  | minResourcesEstimator least base => atLeast least <$> GetResourceEstimation base s
  | confidenceMultiplier multiplier exponent base => withConfidence multiplier exponent s <$> GetResourceEstimation base s
  end.

(** ** The recommender of a pod's resources *)
Definition FilterControlledResources (estimation : Resources) (controlledResources : list ResourceName) : Resources :=
  foldl (fun result resource =>
    match estimation !! resource with Some value => <[resource := value]> result | None => result end) ∅ controlledResources.

Definition estimateContainerResources (r : podResourceRecommender) (s : AggregateContainerState) : option ContainerResources :=
  target ← GetResourceEstimation (targetEstimator r) s;
  lower ← GetResourceEstimation (lowerBoundEstimator r) s;
  upper ← GetResourceEstimation (upperBoundEstimator r) s;
  Some {| Target := FilterControlledResources target (GetControlledResources s);
          LowerBound := FilterControlledResources lower (GetControlledResources s);
          UpperBound := FilterControlledResources upper (GetControlledResources s) |}.

Definition podMinCPUMillicores : float64 := fzero.
Definition podMinMemoryMb : float64 := fzero.

(** The least resources of each of [n] containers. *)
Definition podMinResources (n : nat) : Resources :=
  let fraction := fdiv fone (ofInt (Z.of_nat n)) in
  <[ResourceCPU := ScaleResource (CPUAmountFromCores (fmul podMinCPUMillicores (fdiv fone (ofInt 1000)))) fraction]>
    {[ResourceMemory := ScaleResource (MemoryAmountFromBytes (fmul (fmul podMinMemoryMb (ofInt 1024)) (ofInt 1024))) fraction]}.

Definition GetRecommendedPodResources (r : podResourceRecommender) (states : gmap string AggregateContainerState)
    : option (gmap string ContainerResources) :=
  if bool_decide (states = ∅) then Some ∅
  else
    let minResources := podMinResources (size states) in
    let recommender := {| targetEstimator := WithMinResources minResources (targetEstimator r);
                          lowerBoundEstimator := WithMinResources minResources (lowerBoundEstimator r);
                          upperBoundEstimator := WithMinResources minResources (upperBoundEstimator r) |} in
    l ← mapM (fun '(containerName, s) => rec ← estimateContainerResources recommender s; Some (containerName, rec))
             (map_to_list states);
    Some (list_to_map l).

(** The recommender with the default flags: decimal fractions as correctly rounded quotients. *)
Definition decimal (n d : Z) : float64 := fdiv (ofInt n) (ofInt d).
Definition safetyMarginFraction : float64 := decimal 15 100.
Definition targetCpuPercentile : float64 := decimal 9 10.

Definition CreatePodResourceRecommender : podResourceRecommender := {|
  targetEstimator := WithMargin safetyMarginFraction (NewPercentileEstimator targetCpuPercentile (decimal 9 10));
  lowerBoundEstimator := WithConfidenceMultiplier (decimal 1 1000) (ofInt (-2))
    (WithMargin safetyMarginFraction (NewPercentileEstimator (decimal 5 10) (decimal 5 10)));
  upperBoundEstimator := WithConfidenceMultiplier fone fone
    (WithMargin safetyMarginFraction (NewPercentileEstimator (decimal 95 100) (decimal 95 100)))
|}.
End Estimators.
