(* ===== verification/EstimatorTheorems.v ===== *)
(** * Bounds of the recommended resources

    What a conversion of a float64 to an amount gives, and from it the range of every
    amount that the recommender of the flags can recommend. *)
From Stdlib Require Import SpecFloat.
From S2P Require Import Prelude Api Float64 Float64Facts Histogram ContainerUsage ContainerSpec AggregateState Estimator.
Local Open Scope Z_scope.

Section Bounds.
Context `{MathLib} `{Config}.

(** What is documented of the parameters: a power is a float64, and the conversion of a
    NaN to an integer, which Go leaves open, is not positive (the least integer on amd64,
    0 on arm64). *)
Context (pow_float : forall x y, valid (math_Pow x y)) (nan_amount : wrap64 (int_out_of_range fnan) <= 0).

(** ** Amounts *)
Lemma toInt_int64 f : in_int64 (toInt f).
Proof.
  unfold toInt. destruct (toInt64 f) as [z|] eqn:E; [|apply wrap64_range].
  destruct f as [s|s| |s m e]; try discriminate; cbn [toInt64] in E.
  - injection E as <-. unfold in_int64, min_int64, max_int64. lia.
  - cbv zeta in E. destruct (decide _) as [Hz|]; [injection E as <-; exact Hz|discriminate].
Qed.

Lemma amount_int64 f : in_int64 (resourceAmountFromFloat f).
Proof.
  unfold resourceAmountFromFloat. destruct (flt f fzero); [|destruct (flt _ f); [|apply toInt_int64]];
    unfold in_int64, min_int64, max_int64, MaxResourceAmount; lia.
Qed.

(** What is left of a positive number that is not cut off. *)
Lemma amount_finite m e : valid (S754_finite false m e) -> flt (ofInt MaxResourceAmount) (S754_finite false m e) = false ->
  exists z, toInt (S754_finite false m e) = z /\ 0 <= z <= MaxResourceAmount.
Proof.
  intros Hv Hlt. pose proof (canonical_digits _ _ _ Hv) as Hc. clear Hv.
  change (ofInt MaxResourceAmount) with (S754_finite false 6400000000000000 (-6)) in Hlt.
  rewrite flt_negb_fle in Hlt by discriminate. apply negb_false_iff, fle_finite_pos in Hlt.
  assert (Hb : e < -6 \/ e = -6 /\ Z.pos m <= 6400000000000000) by (destruct Hlt as [He|[He Hm]]; [left; exact He|right; split; [exact He|exact Hm]]).
  clear Hlt. assert (Hm : Z.pos m < 2 ^ 53).
  { clear -Hc. unfold fexp, emin in Hc. apply (proj1 (Zdigits2_le (Z.pos m) 53 ltac:(lia) ltac:(lia))). lia. }
  assert (Hz : 0 <= Z.pos m / 2 ^ (- e) <= MaxResourceAmount).
  { clear -Hb Hm. assert (0 < 2 ^ (- e)) by (apply Z.pow_pos_nonneg; lia). split; [apply Z.div_pos; lia|].
    apply Z.div_le_upper_bound; [lia|]. unfold MaxResourceAmount. destruct Hb as [He|[-> Hb]]; [|change (2 ^ (- -6)) with 64; lia].
    assert (2 ^ 7 <= 2 ^ (- e)) by (apply Z.pow_le_mono_r; lia). lia. }
  unfold toInt, toInt64. rewrite (proj2 (Z.leb_gt 0 e)) by (clear -Hb; lia). rewrite Z.mul_1_l, decide_True.
  - eexists. split; [reflexivity|exact Hz].
  - unfold in_int64, min_int64, max_int64, MaxResourceAmount in *. clear -Hz. lia.
Qed.

Lemma amount_le f : valid f -> resourceAmountFromFloat f <= MaxResourceAmount.
Proof.
  intros Hv. destruct f as [[]|[]| |[] m e]; [vm_compute; discriminate..| |vm_compute; discriminate|].
  { change (wrap64 (int_out_of_range fnan) <= MaxResourceAmount). etransitivity; [exact nan_amount|]. vm_compute. discriminate. }
  unfold resourceAmountFromFloat. change (flt (S754_finite false m e) fzero) with false. cbn [andb].
  destruct (flt _ _) eqn:Hlt; [apply Z.le_refl|]. destruct (amount_finite m e Hv Hlt) as (z&->&Hz). apply Hz.
Qed.

Lemma amount_nonneg f : valid f -> isNum f -> 0 <= resourceAmountFromFloat f.
Proof.
  intros Hv Hn. destruct f as [[]|[]| |[] m e]; [vm_compute; discriminate..|by destruct Hn|vm_compute; discriminate|].
  unfold resourceAmountFromFloat. change (flt (S754_finite false m e) fzero) with false. cbn [andb].
  destruct (flt _ _) eqn:Hlt; [vm_compute; discriminate|]. destruct (amount_finite m e Hv Hlt) as (z&->&Hz). apply Hz.
Qed.

(** ** The estimators *)

(** The options of a histogram are made of float64 values. *)
Definition optionsFloats (o : HistogramOptions) : Prop :=
  match kind o with
  | Linear o => valid (bucketSize o)
  | Exponential o => valid (firstBucketSize o) /\ valid (ratio o)
  end.

Definition stateFloats (a : AggregateContainerState) : Prop :=
  optionsFloats (options (hist (AggregateCPUUsage a))) /\ optionsFloats (options (hist (AggregateMemoryPeaks a))).

Lemma bucketStart_valid o b x : optionsFloats o -> GetBucketStart o b = Some x -> valid x.
Proof.
  unfold optionsFloats, GetBucketStart. destruct (kind o) as [l|l].
  - unfold linearGetBucketStart. intros Hs. case_match; [done|]. intros [= <-]. apply fmul_valid; [apply ofInt_valid|done].
  - unfold exponentialGetBucketStart. intros [Hf Hr]. repeat case_match; try done; intros [= <-]; [done|].
    apply fdiv_valid; [apply fmul_valid; [done|apply fsub_valid; done]|by apply fsub_valid].
Qed.

Lemma percentile_valid d p x : optionsFloats (options (hist d)) -> Percentile d p = Some x -> valid x.
Proof.
  intros Ho. unfold Percentile, histPercentile. destruct (IsEmpty (hist d)) as [[]|]; cbn; [by intros [= <-]| |done].
  destruct (reachBucket _ _ _ _ _) as [b|]; cbn; [|done]. case_match; by apply bucketStart_valid.
Qed.

(** An estimation below [bound]. *)
Definition below (bound : Z) (r : Resources) : Prop := forall res x, r !! res = Some x -> in_int64 x /\ x <= bound.

Lemma percentile_below p q s r : stateFloats s -> percentileEstimation p q s = Some r -> below MaxResourceAmount r.
Proof.
  intros [Hc Hm]. unfold percentileEstimation. destruct (Percentile (AggregateCPUUsage s) p) as [x|] eqn:Ex; cbn; [|done].
  destruct (Percentile (AggregateMemoryPeaks s) q) as [y|] eqn:Ey; cbn; [|done]. intros [= <-] res z.
  rewrite lookup_insert_Some. intros [[_ <-]|[_ [_ <-]%lookup_singleton_Some]]; (split; [apply amount_int64|]); apply amount_le.
  - apply fmul_valid; [exact (percentile_valid _ _ _ Hc Ex)|apply ofInt_valid].
  - exact (percentile_valid _ _ _ Hm Ey).
Qed.

Lemma margin_below r : below MaxResourceAmount r -> below (2 * MaxResourceAmount) (withMargin safetyMarginFraction r).
Proof.
  intros Hr res x. unfold withMargin. rewrite lookup_fmap_Some. intros (y&<-&Hy). destruct (Hr res y Hy) as [Hi Hb].
  assert (Hs : 0 <= ScaleResource y safetyMarginFraction <= MaxResourceAmount).
  { unfold ScaleResource. assert (Hv : valid (fmul (ofInt y) safetyMarginFraction)) by (apply fmul_valid; [apply ofInt_valid|done]).
    split; [apply amount_nonneg; [done|]|by apply amount_le].
    change safetyMarginFraction with (S754_finite false 5404319552844595 (-55)). apply fmul_num, ofInt_num. }
  unfold in_int64, min_int64, max_int64, MaxResourceAmount in *. rewrite wrap64_id by (unfold in_int64, min_int64, max_int64; lia).
  unfold in_int64, min_int64, max_int64. lia.
Qed.

Lemma confidence_below m e s r : below MaxResourceAmount (withConfidence m e s r).
Proof.
  intros res x. unfold withConfidence. rewrite lookup_fmap_Some. intros (y&<-&Hy). split; [apply amount_int64|].
  apply amount_le, fmul_valid; [apply ofInt_valid|apply pow_float].
Qed.

Lemma podMin_zero n res : (0 < n)%nat -> default 0 (podMinResources n !! res) = 0.
Proof.
  intros Hn. assert (Hf : finiteFloat (fdiv fone (ofInt (Z.of_nat n)))).
  { destruct (Z.of_nat n) as [|p|p] eqn:E; [lia| |lia]. destruct (ofInt_pos p) as [->|(m&e&->&He)]; [done|]. apply fdiv_one_finite. lia. }
  assert (Hz : ScaleResource 0 (fdiv fone (ofInt (Z.of_nat n))) = 0).
  { unfold ScaleResource. destruct (fdiv fone (ofInt (Z.of_nat n))) as [[]|[]| |[] m e]; done. }
  unfold podMinResources. change (CPUAmountFromCores _) with 0. change (MemoryAmountFromBytes _) with 0. rewrite Hz.
  destruct (decide (res = ResourceCPU)) as [->|]; [by rewrite lookup_insert_eq|]. rewrite lookup_insert_ne by done.
  destruct (decide (res = ResourceMemory)) as [->|]; [by rewrite lookup_singleton_eq|]. by rewrite lookup_singleton_ne.
Qed.

Lemma atLeast_bounds n bound r res x : (0 < n)%nat -> 0 <= bound -> below bound r ->
  atLeast (podMinResources n) r !! res = Some x -> 0 <= x <= bound.
Proof.
  intros Hn Hb Hr. unfold atLeast. rewrite map_lookup_imap. destruct (r !! res) as [y|] eqn:Ey; [|done].
  change (Some (if y <? default 0 (podMinResources n !! res) then default 0 (podMinResources n !! res) else y) = Some x -> 0 <= x <= bound).
  rewrite podMin_zero by done. destruct (Hr res y Ey) as [_ Hy]. destruct (Z.ltb_spec y 0); intros [= <-]; lia.
Qed.

Lemma Filter_spec estimation l res x : FilterControlledResources estimation l !! res = Some x -> res ∈ l /\ estimation !! res = Some x.
Proof.
  unfold FilterControlledResources.
  cut (forall (m : Resources), foldl (fun result resource => match estimation !! resource with Some value => <[resource := value]> result | None => result end) m l !! res = Some x ->
    m !! res = Some x \/ (res ∈ l /\ estimation !! res = Some x)).
  { intros Hcut Hx. destruct (Hcut ∅ Hx) as [He|]; [by rewrite lookup_empty in He|done]. }
  induction l as [|r l IH]; intros m Hx; cbn [foldl] in Hx; [by left|]. apply IH in Hx as [Hx|[Hin Hx]]; [|right; split; [set_solver|done]].
  destruct (estimation !! r) as [v|] eqn:Er; [|by left]. apply lookup_insert_Some in Hx as [[<- <-]|[_ Hx]]; [right; split; [set_solver|done]|by left].
Qed.

(** What the three estimators of the flags, with the minimum of [n] containers, leave. *)
Lemma estimate_bounds n a rec : (0 < n)%nat -> stateFloats a ->
  let least := podMinResources n in let r := CreatePodResourceRecommender in
  estimateContainerResources {| targetEstimator := WithMinResources least (targetEstimator r);
    lowerBoundEstimator := WithMinResources least (lowerBoundEstimator r);
    upperBoundEstimator := WithMinResources least (upperBoundEstimator r) |} a = Some rec ->
  forall res x,
    (Target rec !! res = Some x -> res ∈ GetControlledResources a /\ 0 <= x <= 2 * MaxResourceAmount) /\
    (LowerBound rec !! res = Some x -> res ∈ GetControlledResources a /\ 0 <= x <= MaxResourceAmount) /\
    (UpperBound rec !! res = Some x -> res ∈ GetControlledResources a /\ 0 <= x <= MaxResourceAmount).
Proof.
  intros Hn Ha least r. unfold estimateContainerResources, WithMinResources, r, CreatePodResourceRecommender, WithMargin, WithConfidenceMultiplier,
    NewPercentileEstimator. cbn [targetEstimator lowerBoundEstimator upperBoundEstimator GetResourceEstimation].
  destruct (percentileEstimation targetCpuPercentile _ a) as [t|] eqn:Et; [|done].
  destruct (percentileEstimation (decimal 5 10) _ a) as [l|] eqn:El; [|done].
  destruct (percentileEstimation (decimal 95 100) _ a) as [u|] eqn:Eu; [|done].
  pose proof (percentile_below _ _ _ _ Ha Et) as Ht. intros [= <-] res x. cbn [Target LowerBound UpperBound].
  split_and!; intros [Hc Hx]%Filter_spec; (split; [exact Hc|]).
  - refine (atLeast_bounds n _ _ res x Hn _ (margin_below t Ht) Hx). vm_compute. discriminate.
  - refine (atLeast_bounds n _ _ res x Hn _ (confidence_below _ _ _ _) Hx). vm_compute. discriminate.
  - refine (atLeast_bounds n _ _ res x Hn _ (confidence_below _ _ _ _) Hx). vm_compute. discriminate.
Qed.

End Bounds.

Lemma mapM_states (f : AggregateContainerState -> option ContainerResources) states l :
  mapM (fun '(containerName, s) => rec ← f s; Some ((containerName, rec) : string * ContainerResources)) states = Some l ->
  l.*1 = states.*1 /\ forall name rec, (name, rec) ∈ l -> exists a, (name, a) ∈ states /\ f a = Some rec.
Proof.
  revert l. induction states as [|[n a] states IH]; intros l; cbn.
  - intros [= <-]. split; [done|]. by intros ? ? ?%not_elem_of_nil.
  - destruct (f a) as [rec|] eqn:Ef; cbn; [|done]. destruct (mapM _ states) as [l'|] eqn:El; cbn; [|done]. intros [= <-].
    destruct (IH l' eq_refl) as [IH1 IH2]. split; [cbn; by rewrite IH1|].
    intros name r [[= -> ->]|Hin]%list.elem_of_cons; [exists a; split; [set_solver|done]|].
    destruct (IH2 name r Hin) as (a'&Hin'&E). exists a'. split; [set_solver|done].
Qed.


(** C16: The recommender of the flags recommends for exactly the containers that have a
    state, only resources that the container controls, and amounts between zero and the
    greatest amount - twice that for the target, to which the margin is added after the
    cut. *)
Theorem recommended_amounts_are_bounded `{MathLib, Config} states recs :
  (forall x y, valid (math_Pow x y)) -> wrap64 (int_out_of_range fnan) <= 0 ->
  (forall name a, states !! name = Some a -> stateFloats a) ->
  GetRecommendedPodResources CreatePodResourceRecommender states = Some recs ->
  dom recs = dom states /\
  forall name rec, recs !! name = Some rec -> exists a, states !! name = Some a /\ forall res x,
    (Target rec !! res = Some x -> res ∈ GetControlledResources a /\ 0 <= x <= 2 * MaxResourceAmount) /\
    (LowerBound rec !! res = Some x -> res ∈ GetControlledResources a /\ 0 <= x <= MaxResourceAmount) /\
    (UpperBound rec !! res = Some x -> res ∈ GetControlledResources a /\ 0 <= x <= MaxResourceAmount).
Proof.
  intros Hpow Hnan Hst. unfold GetRecommendedPodResources. case_bool_decide as He.
  { intros [= <-]. subst states. rewrite !dom_empty_L. split; [done|]. intros name rec. by rewrite lookup_empty. }
  cbv zeta. destruct (mapM _ _) as [l|] eqn:El; [|done]. intros [= <-]. apply mapM_states in El as [Hdom Hl].
  assert (Hnd : NoDup l.*1) by (rewrite Hdom; apply NoDup_fst_map_to_list). split.
  - rewrite dom_list_to_map_L, Hdom. apply set_eq. intros name. rewrite elem_of_list_to_set, list_elem_of_fmap, elem_of_dom. split.
    + intros ([n a]&->&Hin%elem_of_map_to_list). eauto.
    + intros [a Ha]. exists (name, a). split; [done|]. by apply elem_of_map_to_list.
  - intros name rec Hrec%elem_of_list_to_map_2. destruct (Hl name rec Hrec) as (a&Ha%elem_of_map_to_list&Ee). exists a. split; [done|].
    assert (Hn : (0 < size states)%nat) by (apply Nat.neq_0_lt_0; intros Hz%map_size_empty_inv; done).
    exact (estimate_bounds Hpow Hnan (size states) a rec Hn (Hst name a Ha) Ee).
Qed.

(** *** An example: one container with samples of its CPU usage *)
#[local] Existing Instance exampleMath.
#[local] Existing Instance exampleConfig.

Definition sampledState : AggregateContainerState :=
  snd (aggAddSample {| MeasureStart := 1010; Usage := 500; Request := 100; Resource_field := ResourceCPU |} (NewAggregateContainerState 1000)).

Lemma recommended_amounts_are_bounded_witness :
  exists recs rec, GetRecommendedPodResources CreatePodResourceRecommender {["main" := sampledState]} = Some recs /\
    recs !! "main" = Some rec /\ Target rec !! ResourceCPU = Some 115000 /\ 0 <= 115000 <= 2 * MaxResourceAmount.
Proof.
  assert (Hr : match GetRecommendedPodResources CreatePodResourceRecommender {["main" := sampledState]} with
    | Some recs => match recs !! "main" with Some rec => Target rec !! ResourceCPU | None => None end
    | None => None end = Some 115000) by (vm_compute; reflexivity).
  destruct (GetRecommendedPodResources CreatePodResourceRecommender {["main" := sampledState]}) as [recs|] eqn:Er; [|discriminate Hr].
  destruct (recs !! "main") as [rec|] eqn:Em; [|discriminate Hr].
  exists recs, rec. split; [reflexivity|]. split; [exact Em|]. split; [exact Hr|].
  assert (Hst : forall name a, ({["main" := sampledState]} : gmap string AggregateContainerState) !! name = Some a -> stateFloats a).
  { intros name a Ha. apply lookup_singleton_Some in Ha as [_ <-]. split; vm_compute; reflexivity. }
  assert (Hpow : forall x y, valid (math_Pow x y)) by (intros x y; reflexivity).
  assert (Hnan : wrap64 (int_out_of_range fnan) <= 0) by (vm_compute; discriminate).
  destruct (recommended_amounts_are_bounded {["main" := sampledState]} recs Hpow Hnan Hst Er) as [_ Hb].
  destruct (Hb "main" rec Em) as (a&_&Ha). destruct (Ha ResourceCPU 115000) as [Hx _]. destruct (Hx Hr) as [_ Hx']. exact Hx'.
Defined.
