(* ===== verification/ClusterFeeder.v ===== *)
(** * Feeding the cluster model (recommender/input/cluster_feeder.go)

    Every pass lists the VPA objects, the pods and the usage of containers, and brings the
    model of the cluster in line with them.  What the clients answer during a pass is an
    argument; where the code logs an error and goes on, so does the model.  Where the code
    ranges over a Go map, the order is that of [map_to_list]. *)
From S2P Require Import Prelude Api Float64 Histogram ContainerUsage AggregateState ClusterState.
Local Open Scope Z_scope.

Definition ConfigDeprecated : string := "ConfigDeprecated".
Definition ConfigUnsupported : string := "ConfigUnsupport".

(** ** What the clients answer *)
Record ControllerKeyWithAPIVersion := { ck_Namespace : string; ck_Kind : string; ck_Name : string; ck_ApiVersion : string }.
#[export] Instance ControllerKeyWithAPIVersion_eq : EqDecision ControllerKeyWithAPIVersion.
Proof. solve_decision. Defined.

(** The selector of a VPA object and the topmost controller of a key, either of which may
    be nil, with the text of the error; and [labels.Nothing()]. *)
Class Fetchers := {
  labels_Nothing : podSelector;
  Fetch : VerticalPodAutoscaler -> option podSelector * option string;
  FindTopMostWellKnownOrScalable : ControllerKeyWithAPIVersion -> option ControllerKeyWithAPIVersion * option string
}.

Record BasicContainerSpec := { bc_ID : ContainerID; bc_Image : string; bc_Request : Resources }.
Record BasicPodSpec := {
  bp_ID : PodID;
  bp_PodLabels : LabelSet;
  bp_Containers : list BasicContainerSpec;
  bp_Phase : string
}.

Record ContainerMetricsSnapshot := {
  cm_ID : ContainerID;
  cm_SnapshotTime : Time;
  cm_SnapshotWindow : Duration;
  cm_Usage : Resources
}.

Record OomInfo := { oom_Timestamp : Time; oom_Memory : ResourceAmount; oom_ContainerID : ContainerID }.

Record PodHistory := { LastLabels : LabelSet; Samples : gmap string (list ContainerUsageSample) }.

Record VerticalPodAutoscalerCheckpoint := {
  vc_Namespace : string;
  vc_Name : string;
  vc_VPAObjectName : string;
  vc_ContainerName : string;
  vc_Status : CheckpointStatus
}.

(** The client of the checkpoints, nil or the lists of the namespaces, which may be nil. *)
Abbreviation checkpointClient := (option (string -> option (list VerticalPodAutoscalerCheckpoint))).

Record condition := { cd_conditionType : string; cd_delete : bool; cd_message : string }.

Definition noCondition : condition := {| cd_conditionType := ""; cd_delete := false; cd_message := "" |}.

Section Feeder.
Context `{MathLib} `{Config} `{LabelsString} `{Fetchers} (now : Time).

Abbreviation cluster := (stateM ClusterState modelError).

(** Statements for every element of a list. *)
Definition forEach {A} (f : A -> cluster unit) (l : list A) : cluster unit := foldr (fun a k => f a;; k) (mret tt) l.

(** ** VPA objects *)
Definition validateTargetRef (vpa : VerticalPodAutoscaler) : bool * condition :=
  let k := {| ck_Namespace := api_Namespace vpa; ck_Kind := ""; ck_Name := ""; ck_ApiVersion := "" |} in
  let unsupported message := (false, {| cd_conditionType := ConfigUnsupported; cd_delete := false; cd_message := message |}) in
  match FindTopMostWellKnownOrScalable k with
  | (_, Some err) => unsupported ("Error checking if target is a topmost well-known or scalable controller: " +:+ err)%string
  | (None, None) => unsupported "Unknown error during checking if target is a topmost well-known or scalable controller: %!s(<nil>)"%string
  | (Some top, None) =>
      if decide (top <> k)
      then unsupported "The targetRef controller has a parent but it should point to a topmost well-known or scalable controller"%string
      else (true, noCondition)
  end.

Definition removed (conditionType : string) : condition :=
  {| cd_conditionType := conditionType; cd_delete := true; cd_message := "" |}.

Definition getSelector (vpa : VerticalPodAutoscaler) : podSelector * list condition :=
  match Fetch vpa with
  | (Some selector, _) =>
      let '(validTargetRef, unsupportedCondition) := validateTargetRef vpa in
      if (validTargetRef : bool)
      then (selector, [removed ConfigUnsupported; removed ConfigDeprecated])
      else (labels_Nothing, [unsupportedCondition; removed ConfigDeprecated])
  | (None, fetchErr) =>
      let msg := match fetchErr with
                 | Some e => ("Cannot read targetRef. Reason: " +:+ e)%string
                 | None => "Cannot read targetRef"%string
                 end in
      (labels_Nothing, [{| cd_conditionType := ConfigUnsupported; cd_delete := false; cd_message := msg |}; removed ConfigDeprecated])
  end.

Definition applyCondition (c : condition) (m : conditionsMap) : conditionsMap :=
  if cd_delete c then delete (cd_conditionType c) m else conditionsSet now (cd_conditionType c) true "" (cd_message c) m.

(** A change of the VPA object [vpaID], nil when there is none. *)
Definition onVpa (vpaID : VpaID) (f : Vpa -> Vpa) : cluster unit := fun c =>
  match Vpas c !! vpaID with
  | None => (Panic, c)
  | Some v => (Ok tt, setVpas (<[vpaID := f v]> (Vpas c)) c)
  end.

Definition applyConditions (vpaID : VpaID) (conditions : list condition) : cluster unit :=
  forEach (fun c => onVpa vpaID (fun v => setConditions (applyCondition c (vpa_Conditions v)) v)) conditions.

Definition crdID (vpa : VerticalPodAutoscaler) : VpaID := (api_Namespace vpa, api_Name vpa).

(** The first loop of [LoadVPAs]: the names of the VPA objects that were added. *)
Fixpoint addVpas (vpaCRDs : list VerticalPodAutoscaler) (vpaKeys : gset VpaID) : cluster (gset VpaID) :=
  match vpaCRDs with
  | [] => mret vpaKeys
  | vpaCRD :: vpaCRDs =>
      let '(selector, conditions) := getSelector vpaCRD in
      err ← caught (AddOrUpdateVpa now vpaCRD (Some selector));
      match err with
      | Some _ => addVpas vpaCRDs vpaKeys
      | None => applyConditions (crdID vpaCRD) conditions;; addVpas vpaCRDs ({[crdID vpaCRD]} ∪ vpaKeys)
      end
  end.

Definition LoadVPAs (listed : option (list VerticalPodAutoscaler)) : cluster unit :=
  match listed with
  | None => mret tt
  | Some vpaCRDs =>
      vpaKeys ← addVpas vpaCRDs ∅;
      c ← get;
      forEach (fun vpaID => if decide (vpaID ∈ vpaKeys) then mret tt else logged (DeleteVpa vpaID)) (map_to_list (Vpas c)).*1;;
      modify (setObserved vpaCRDs)
  end.

(** ** Pods *)
(** [None]: a nil selector is called. *)
Definition matchesVPA (c : ClusterState) (pod : BasicPodSpec) : option bool :=
  foldr (fun '(vpaKey, v) k =>
    if decide (fst vpaKey = fst (bp_ID pod))
    then s ← PodSelector v; if Matches (ps_Selector s) (bp_PodLabels pod) then Some true else k
    else k) (Some false) (map_to_list (Vpas c)).

Definition loadPod (memorySaveMode : bool) (pod : BasicPodSpec) : cluster unit :=
  c ← get;
  tracked ← (if memorySaveMode then match matchesVPA c pod with Some b => mret b | None => panic end else mret true);
  if (tracked : bool) then
    AddOrUpdatePod now (bp_ID pod) (bp_PodLabels pod) (bp_Phase pod);;
    forEach (fun container => logged (AddOrUpdateContainer now (bc_ID container) (bc_Request container))) (bp_Containers pod)
  else mret tt.

Definition podsByID (podSpecs : list BasicPodSpec) : gmap PodID BasicPodSpec :=
  foldl (fun pods spec => <[bp_ID spec := spec]> pods) ∅ podSpecs.

(** When the pods cannot be listed, [podSpecs] is empty. *)
Definition LoadPods (memorySaveMode : bool) (podSpecs : list BasicPodSpec) : cluster unit :=
  let pods := podsByID podSpecs in
  c ← get;
  forEach (fun key => if decide (is_Some (pods !! key)) then mret tt else DeletePod key) (map_to_list (Pods c)).*1;;
  forEach (loadPod memorySaveMode) (map_to_list pods).*2.

(** ** Usage *)
Definition newContainerUsageSamplesWithKey (metrics : ContainerMetricsSnapshot) : list (ContainerID * ContainerUsageSample) :=
  (fun '(metricName, resourceAmount) =>
    (cm_ID metrics, {| MeasureStart := cm_SnapshotTime metrics; Usage := resourceAmount; Request := 0; Resource_field := metricName |}))
  <$> map_to_list (cm_Usage metrics).

(** The metrics of the containers, then what the channel of the observer holds. *)
Definition LoadRealTimeMetrics (containersMetrics : list ContainerMetricsSnapshot) (ooms : list OomInfo) : cluster unit :=
  forEach (fun metrics => forEach (fun '(container, sample) => logged (ClusterAddSample now container sample))
    (newContainerUsageSamplesWithKey metrics)) containersMetrics;;
  forEach (fun oom => logged (ClusterRecordOOM now (oom_ContainerID oom) (oom_Timestamp oom) (oom_Memory oom))) ooms.

(** ** History and checkpoints *)
Definition PodUnknown : string := "Unknown".

Definition InitFromHistoryProvider (clusterHistory : gmap PodID PodHistory) : cluster unit :=
  forEach (fun '(podID, podHistory) =>
    AddOrUpdatePod now podID (LastLabels podHistory) PodUnknown;;
    forEach (fun '(containerName, sampleList) =>
      forEach (fun sample => logged (ClusterAddSample now (podID, containerName) sample)) sampleList)
      (map_to_list (Samples podHistory))) (map_to_list clusterHistory).

Definition setVpaCheckpoint (checkpoint : VerticalPodAutoscalerCheckpoint) : cluster unit := fun c =>
  let vpaID := (vc_Namespace checkpoint, vc_VPAObjectName checkpoint) in
  match Vpas c !! vpaID with
  | None => (Err (CheckpointForMissingVpa vpaID), c)
  | Some v =>
      match aggLoadFromCheckpoint (vc_Status checkpoint) (NewAggregateContainerState now) with
      | (Ok _, cs) => onVpa vpaID (setInitialStates (<[vc_ContainerName checkpoint := cs]> (ContainersInitialAggregateState v))) c
      | (Err e, _) => (Err (CheckpointNotLoaded vpaID e), c)
      | (Panic, _) => (Panic, c)
      end
  end.

(** The checkpoints of a namespace: no client, or no list, is a nil dereference. *)
Definition listCheckpoints (client : checkpointClient) (namespace : string) : cluster (list VerticalPodAutoscalerCheckpoint) :=
  match client with
  | Some list => match list namespace with Some items => mret items | None => panic end
  | None => panic
  end.

Definition InitFromCheckpoints (listed : option (list VerticalPodAutoscaler)) (client : checkpointClient) : cluster unit :=
  LoadVPAs listed;;
  c ← get;
  let namespaces : gset string := list_to_set ((fun '(_, v) => fst (vpa_ID v)) <$> map_to_list (Vpas c)) in
  forEach (fun namespace => items ← listCheckpoints client namespace; forEach (fun ckpt => logged (setVpaCheckpoint ckpt)) items)
    (elements namespaces).

(** The loop over the namespaces: the checkpoints that it asks to delete. *)
Fixpoint orphanedCheckpoints (client : checkpointClient) (namespaces : list string) : cluster (list (string * string)) :=
  match namespaces with
  | [] => mret []
  | namespace :: namespaces =>
      items ← listCheckpoints client namespace;
      c ← get;
      rest ← orphanedCheckpoints client namespaces;
      mret (((fun ckpt => (namespace, vc_Name ckpt)) <$>
        filter (fun ckpt => Vpas c !! (vc_Namespace ckpt, vc_VPAObjectName ckpt) = None) items) ++ rest)
  end.

(** [None]: the namespaces cannot be listed. *)
Definition GarbageCollectCheckpoints (listed : option (list VerticalPodAutoscaler)) (namespaceList : option (list string))
    (client : checkpointClient) : cluster (list (string * string)) :=
  LoadVPAs listed;;
  match namespaceList with
  | None => mret []
  | Some namespaces => orphanedCheckpoints client namespaces
  end.
End Feeder.
