(* ===== verification/ControllerFetcher.v ===== *)
(** * The topmost controller of a VPA target (recommender/input/controller_fetcher/controller_fetcher.go)

    A pod is owned by a controller, which may be owned by another one.  The fetcher follows
    the owners through the informers of the well-known kinds and, for other kinds, through
    the scale subresource, up to the topmost controller that is well known or can be scaled.
    The loop has no bound of its own; here it has fuel.  The informers, the mapper of
    resources and the client of the scales are functions: their answers do not change
    during one call. *)
From S2P Require Import Prelude Api Float64 Histogram ContainerUsage AggregateState ClusterState ClusterFeeder.

#[export] Instance ControllerKeyWithAPIVersion_countable : Countable ControllerKeyWithAPIVersion.
Proof.
  refine (inj_countable' (fun k => (ck_Namespace k, ck_Kind k, ck_Name k, ck_ApiVersion k))
    (fun '(ns, kind, name, api) => {| ck_Namespace := ns; ck_Kind := kind; ck_Name := name; ck_ApiVersion := api |}) _).
  by intros [].
Defined.

(** ** The API *)
Record OwnerReference := { owner_Controller : option bool; owner_Kind : string; owner_Name : string; owner_APIVersion : string }.

(** What an informer stores. *)
Inductive storedObject :=
  | DaemonSet (OwnerReferences : list OwnerReference)
  | Deployment (OwnerReferences : list OwnerReference)
  | StatefulSet (OwnerReferences : list OwnerReference)
  | ReplicaSet (OwnerReferences : list OwnerReference)
  | Job (OwnerReferences : list OwnerReference)
  | CronJob (OwnerReferences : list OwnerReference)
  | ReplicationController (OwnerReferences : list OwnerReference)
  | OtherStored.

(** [GetByKey] of a store: an error, or an object if it exists. *)
Abbreviation informer := (string -> string + option storedObject).

(** An error of the API server, and whether [apierrors.IsNotFound] holds of it. *)
Record apiError := { api_Error : string; IsNotFound : bool }.

Definition otherError (message : string) : apiError := {| api_Error := message; IsNotFound := false |}.

(** A group and a kind; a group and a resource. *)
Abbreviation GroupKind := (string * string)%type.
Abbreviation GroupResource := (string * string)%type.

Section Fetcher.
(** The group of [schema.ParseGroupVersion]. *)
Context (ParseGroupVersion : string -> string + string).

(** [RESTMappings] by group and resource; the owners of a scale, which is not nil without an error. *)
Record controllerFetcher := {
  informersMap : gmap string informer;
  RESTMappings : GroupKind -> apiError + list GroupResource;
  GetScale : string -> GroupResource -> string -> apiError + list OwnerReference
}.

Definition node_Kind : string := "Node".

Fixpoint getOwnerController (owners : list OwnerReference) (namespace : string) : option ControllerKeyWithAPIVersion :=
  match owners with
  | [] => None
  | owner :: owners =>
      match owner_Controller owner with
      | Some true => Some {| ck_Namespace := namespace; ck_Kind := owner_Kind owner; ck_Name := owner_Name owner;
                             ck_ApiVersion := owner_APIVersion owner |}
      | _ => getOwnerController owners namespace
      end
  end.

Definition getParentOfWellKnownController (GetByKey : informer) (controllerKey : ControllerKeyWithAPIVersion)
    : string + option ControllerKeyWithAPIVersion :=
  let namespace := ck_Namespace controllerKey in
  let name := ck_Name controllerKey in
  match GetByKey (String.concat "" [namespace; "/"; name]) with
  | inl err => inl err
  | inr None => inl (String.concat "" [ck_Kind controllerKey; " "; namespace; "/"; name; " does not exist"])
  | inr (Some (DaemonSet owners | Deployment owners | StatefulSet owners | ReplicaSet owners | Job owners | CronJob owners
               | ReplicationController owners)) => inr (getOwnerController owners namespace)
  | inr (Some OtherStored) => inl "Don't know how to read owner controller"
  end.

Definition groupKind (c : ControllerKeyWithAPIVersion) : string + GroupKind :=
  match ParseGroupVersion (ck_ApiVersion c) with
  | inl err => inl err
  | inr group => inr (group, ck_Kind c)
  end.

(** The first mapping whose scale can be read; the last error if there is none. *)
Fixpoint firstScale (f : controllerFetcher) (mappings : list GroupResource) (namespace name : string) (lastError : option apiError)
    : apiError + option ControllerKeyWithAPIVersion :=
  match mappings with
  | [] => match lastError with Some err => inl err | None => inr None end
  | groupResource :: mappings =>
      match GetScale f namespace groupResource name with
      | inr owners => inr (getOwnerController owners namespace)
      | inl err => firstScale f mappings namespace name (Some err)
      end
  end.

Definition getOwnerForScaleResource (f : controllerFetcher) (gk : GroupKind) (namespace name : string)
    : apiError + option ControllerKeyWithAPIVersion :=
  if decide (gk.2 = node_Kind) then inl (otherError "node is not a valid owner")
  else
    match RESTMappings f gk with
    | inl err => inl err
    | inr mappings => firstScale f mappings namespace name None
    end.

Definition getParentOfController (f : controllerFetcher) (controllerKey : ControllerKeyWithAPIVersion)
    : string + option ControllerKeyWithAPIVersion :=
  match informersMap f !! ck_Kind controllerKey with
  | Some informer => getParentOfWellKnownController informer controllerKey
  | None =>
      match groupKind controllerKey with
      | inl err => inl err
      | inr gk =>
          match getOwnerForScaleResource f gk (ck_Namespace controllerKey) (ck_Name controllerKey) with
          | inl err =>
              if IsNotFound err then inr None
              else inl (String.concat "" ["Unhandled targetRef "; ck_ApiVersion controllerKey; " / "; ck_Kind controllerKey; " / ";
                          ck_Name controllerKey; ", last error "; api_Error err])
          | inr owner => inr owner
          end
      end
  end.

Definition isWellKnown (f : controllerFetcher) (key : ControllerKeyWithAPIVersion) : bool :=
  bool_decide (is_Some (informersMap f !! ck_Kind key)).

(** The test for nodes asks for an error and for the kind of the result, which is then empty: it never holds. *)
Definition isWellKnownOrScalable (f : controllerFetcher) (key : ControllerKeyWithAPIVersion) : bool :=
  if isWellKnown f key then true
  else
    match groupKind key with
    | inl err => false
    | inr gk =>
        match RESTMappings f gk with
        | inl err => false
        | inr mappings =>
            existsb (fun groupResource => match GetScale f (ck_Namespace key) groupResource (ck_Name key) with inr _ => true | inl _ => false end)
              mappings
        end
    end.

Definition cycleDetected : string := "Cycle detected in ownership chain".

Fixpoint topMostLoop (fuel : nat) (f : controllerFetcher) (visited : gset ControllerKeyWithAPIVersion)
    (key : ControllerKeyWithAPIVersion) (topMost : option ControllerKeyWithAPIVersion)
    : option (string + option ControllerKeyWithAPIVersion) :=
  match fuel with
  | O => None
  | S fuel =>
      match getParentOfController f key with
      | inl err => Some (inl err)
      | inr None => Some (inr topMost)
      | inr (Some owner) =>
          let topMost := if isWellKnownOrScalable f owner then Some owner else topMost in
          if decide (owner ∈ visited) then Some (inl cycleDetected)
          else topMostLoop fuel f ({[key]} ∪ visited) owner topMost
      end
  end.

(** [FindTopMostWellKnownOrScalable], which ClusterFeeder.v has as a method of the class of fetchers. *)
Definition FindTopMost (fuel : nat) (f : controllerFetcher) (key : option ControllerKeyWithAPIVersion)
    : option (string + option ControllerKeyWithAPIVersion) :=
  match key with
  | None => Some (inr None)
  | Some key => topMostLoop fuel f {[key]} key (if isWellKnownOrScalable f key then Some key else None)
  end.

(** ** The chain of owners *)
Context (f : controllerFetcher).
Implicit Types (key owner : ControllerKeyWithAPIVersion) (keys : list ControllerKeyWithAPIVersion).

(** The controllers from a key up to the last one. *)
Inductive ownerChain : ControllerKeyWithAPIVersion -> list ControllerKeyWithAPIVersion -> ControllerKeyWithAPIVersion -> Prop :=
  | chain_end key : ownerChain key [key] key
  | chain_owner key owner keys top : getParentOfController f key = inr (Some owner) -> ownerChain owner keys top ->
      ownerChain key (key :: keys) top.

(** The last controller of a list that is well known or can be scaled. *)
Definition lastScalable (start : option ControllerKeyWithAPIVersion) keys : option ControllerKeyWithAPIVersion :=
  foldl (fun top key => if isWellKnownOrScalable f key then Some key else top) start keys.

Lemma ownerChain_head key keys top : ownerChain key keys top -> exists rest, keys = key :: rest.
Proof. destruct 1; by eexists. Qed.

(** A chain up to a controller without owner is the only one of its start. *)
Lemma ownerChain_unique key keys top : ownerChain key keys top -> getParentOfController f top = inr None ->
  forall keys' top', ownerChain key keys' top' -> getParentOfController f top' = inr None -> keys = keys'.
Proof.
  induction 1 as [key|key owner keys top Hp _ IH]; intros Hend keys' top' Hc Hend'.
  - destruct Hc; [done|congruence].
  - destruct Hc as [|? owner' ? ? Hp' Hc]; [congruence|]. assert (owner' = owner) as -> by congruence.
    f_equal. by eapply IH.
Qed.

Lemma ownerChain_suffix key keys top k : ownerChain key keys top -> k ∈ keys -> exists before after,
  keys = before ++ after /\ ownerChain k after top.
Proof.
  induction 1 as [key|key owner keys top Hp Hc IH]; intros Hk.
  - apply list_elem_of_singleton in Hk as ->. exists [], [key]. split; [done|constructor].
  - apply list.elem_of_cons in Hk as [->|Hk]; [exists [], (key :: keys); split; [done|by econstructor]|].
    destruct (IH Hk) as (before&after&->&Ha). by exists (key :: before), after.
Qed.

(** Such a chain does not come back. *)
Lemma ownerChain_NoDup key keys top : ownerChain key keys top -> getParentOfController f top = inr None -> NoDup keys.
Proof.
  induction 1 as [key|key owner keys top Hp Hc IH]; intros Hend; [apply NoDup_singleton|].
  apply NoDup_cons. split; [|by apply IH]. intros Hin.
  destruct (ownerChain_suffix _ _ _ _ Hc Hin) as (before&after&->&Ha).
  assert (Hfull : ownerChain key (key :: before ++ after) top) by by econstructor.
  pose proof (ownerChain_unique _ _ _ Hfull Hend _ _ Ha Hend) as Heq. apply (f_equal length) in Heq.
  cbn [length] in Heq. rewrite length_app in Heq. lia.
Qed.

(** ** The loop *)
Lemma topMostLoop_finds key keys top : ownerChain key keys top -> getParentOfController f top = inr None ->
  forall fuel visited topMost, (length keys <= fuel)%nat -> NoDup keys -> (forall k, k ∈ tail keys -> k ∉ visited) ->
  topMostLoop fuel f visited key topMost = Some (inr (lastScalable topMost (tail keys))).
Proof.
  induction 1 as [key|key owner keys top Hp Hc IH]; intros Hend fuel visited topMost Hfuel Hnd Hvisited;
    (destruct fuel as [|fuel]; [cbn in Hfuel; lia|]); cbn [topMostLoop tail length] in *.
  - by rewrite Hend.
  - rewrite Hp. destruct (ownerChain_head _ _ _ Hc) as [rest ->]. cbn [tail length] in *.
    rewrite decide_False by (apply Hvisited, list.elem_of_cons; by left). apply NoDup_cons in Hnd as [Hkey Hnd].
    rewrite (IH Hend); [done|lia|done|]. intros k Hk [->%elem_of_singleton|Hk']%elem_of_union.
    + apply Hkey, list.elem_of_cons. by right.
    + apply (Hvisited k); [apply list.elem_of_cons; by right|done].
Qed.

Lemma topMostLoop_result fuel : forall visited key topMost r, topMostLoop fuel f visited key topMost = Some r ->
  exists keys top, ownerChain key keys top /\
    match r with
    | inr result => getParentOfController f top = inr None /\ result = lastScalable topMost (tail keys)
    | inl err => getParentOfController f top = inl err \/
        (err = cycleDetected /\ exists owner, getParentOfController f top = inr (Some owner) /\ (owner ∈ visited \/ owner ∈ keys))
    end.
Proof.
  induction fuel as [|fuel IH]; intros visited key topMost r; cbn [topMostLoop]; [done|].
  destruct (getParentOfController f key) as [err|[owner|]] eqn:Hp.
  - intros [= <-]. exists [key], key. split; [constructor|]. by left.
  - case_decide as Hv.
    + intros [= <-]. exists [key], key. split; [constructor|]. right. split; [done|]. exists owner. auto.
    + intros Hl. destruct (IH _ _ _ _ Hl) as (keys&top&Hc&Hr). exists (key :: keys), top. split; [by econstructor|].
      destruct r as [err|result].
      * destruct Hr as [?|(->&o&Ho&Hin)]; [by left|]. right. split; [done|]. exists o. split; [done|].
        rewrite list.elem_of_cons. destruct Hin as [[->%elem_of_singleton|?]%elem_of_union|?]; auto.
      * destruct Hr as [? ->]. split; [done|]. by destruct (ownerChain_head _ _ _ Hc) as [rest ->].
  - intros [= <-]. exists [key], key. split; [constructor|]. done.
Qed.

Lemma size_without (X : gset ControllerKeyWithAPIVersion) k : k ∈ X -> size X = S (size (X ∖ {[k]})).
Proof.
  intros Hk. rewrite (union_difference_L {[k]} X) at 1 by set_solver. rewrite size_union by set_solver.
  by rewrite size_singleton.
Qed.

(** Every second round visits a controller that was not visited before. *)
Lemma topMostLoop_total (universe : gset ControllerKeyWithAPIVersion) :
  (forall k owner, k ∈ universe -> getParentOfController f k = inr (Some owner) -> owner ∈ universe) ->
  forall fuel visited key topMost, key ∈ universe ->
    (2 * size (universe ∖ visited) + (if decide (key ∈ visited) then 1 else 0) < fuel)%nat ->
    exists r, topMostLoop fuel f visited key topMost = Some r.
Proof.
  intros Hclosed. induction fuel as [|fuel IH]; intros visited key topMost Hkey Hfuel; [lia|]. cbn [topMostLoop].
  destruct (getParentOfController f key) as [err|[owner|]] eqn:Hp; [by eexists| |by eexists].
  destruct (decide (owner ∈ visited)) as [Hv|Hv]; [by eexists|]. apply IH; [by eapply Hclosed|].
  destruct (decide (key ∈ visited)) as [Hin|Hin].
  - replace ({[key]} ∪ visited) with visited by set_solver. rewrite decide_False by done. lia.
  - pose proof (size_without (universe ∖ visited) key ltac:(set_solver)) as Hsize.
    rewrite difference_difference_l_L, (union_comm_L visited) in Hsize. rewrite Hsize in Hfuel.
    case_decide; lia.
Qed.

Lemma ownerChain_in (universe : gset ControllerKeyWithAPIVersion) :
  (forall k owner, k ∈ universe -> getParentOfController f k = inr (Some owner) -> owner ∈ universe) ->
  forall key keys top, ownerChain key keys top -> key ∈ universe -> forall k, k ∈ keys -> k ∈ universe.
Proof.
  intros Hclosed. induction 1 as [key|key owner keys top Hp _ IH]; intros Hkey k Hk.
  - by apply list_elem_of_singleton in Hk as ->.
  - apply list.elem_of_cons in Hk as [->|Hk]; [done|]. apply IH; [by eapply Hclosed|done].
Qed.

(** C11: In a cluster whose owners are among finitely many controllers, the search for the topmost
    controller ends after at most twice as many rounds, also when controllers own each
    other. It answers a controller, or nil, exactly when the chain of owners of the key ends at a
    controller without owner, and the answer is then the last controller of the chain
    that is well known or can be scaled; otherwise it fails, because an owner
    cannot be read or because the chain comes back to a controller that is on it. *)
Theorem topmost_controller_is_found universe key fuel : key ∈ (universe : gset ControllerKeyWithAPIVersion) ->
  (forall k owner, k ∈ universe -> getParentOfController f k = inr (Some owner) -> owner ∈ universe) ->
  (2 * size universe <= fuel)%nat ->
  (exists r, FindTopMost fuel f (Some key) = Some r) /\
  (forall result, FindTopMost fuel f (Some key) = Some (inr result) <->
     exists keys top, ownerChain key keys top /\ getParentOfController f top = inr None /\ result = lastScalable None keys) /\
  forall err, FindTopMost fuel f (Some key) = Some (inl err) ->
    exists keys top, ownerChain key keys top /\
      (getParentOfController f top = inl err \/
       (err = cycleDetected /\ exists owner, getParentOfController f top = inr (Some owner) /\ owner ∈ keys)).
Proof.
  intros Hkey Hclosed Hfuel. unfold FindTopMost.
  assert (Htotal : exists r, topMostLoop fuel f {[key]} key (if isWellKnownOrScalable f key then Some key else None) = Some r).
  { apply (topMostLoop_total universe); [done|done|]. rewrite decide_True by set_solver.
    pose proof (size_without universe key Hkey).
    lia. }
  assert (Hstart : forall keys top, ownerChain key keys top ->
    lastScalable (if isWellKnownOrScalable f key then Some key else None) (tail keys) = lastScalable None keys)
    by (intros keys top Hc; by destruct (ownerChain_head _ _ _ Hc) as [rest ->]).
  split; [done|]. split.
  - intros result. split.
    + intros Hl. destruct (topMostLoop_result _ _ _ _ _ Hl) as (keys&top&Hc&Hend&->). exists keys, top.
      split_and!; [done..|by eapply Hstart].
    + intros (keys&top&Hc&Hend&->). pose proof (ownerChain_NoDup _ _ _ Hc Hend) as Hnd.
      rewrite (topMostLoop_finds _ _ _ Hc Hend).
      * by rewrite (Hstart _ _ Hc).
      * pose proof (ownerChain_in universe Hclosed _ _ _ Hc Hkey) as Hin.
        rewrite <- (size_list_to_set (C := gset ControllerKeyWithAPIVersion)) by done.
        etransitivity; [apply (subseteq_size _ universe); intros k Hk%elem_of_list_to_set; by apply Hin|lia].
      * done.
      * destruct (ownerChain_head _ _ _ Hc) as [rest ->]. apply NoDup_cons in Hnd as [Hnd _].
        intros k Hk ->%elem_of_singleton. done.
  - intros err Hl. destruct (topMostLoop_result _ _ _ _ _ Hl) as (keys&top&Hc&Hres). exists keys, top. split; [done|].
    destruct Hres as [?|(->&owner&Ho&Hin)]; [by left|]. right. split; [done|]. exists owner. split; [done|].
    destruct Hin as [->%elem_of_singleton|?]; [|done]. destruct (ownerChain_head _ _ _ Hc) as [rest ->].
    apply list.elem_of_cons. by left.
Qed.
End Fetcher.

(** ** Witness *)
Definition exampleKey (kind name : string) : ControllerKeyWithAPIVersion :=
  {| ck_Namespace := "ns"; ck_Kind := kind; ck_Name := name; ck_ApiVersion := "apps/v1" |}.
Definition exampleOwner (kind name : string) : list OwnerReference :=
  [{| owner_Controller := Some true; owner_Kind := kind; owner_Name := name; owner_APIVersion := "apps/v1" |}].

(** A replica set of a deployment. *)
Definition exampleFetcher : controllerFetcher :=
  {| informersMap := {[ "ReplicaSet" := fun _ => inr (Some (ReplicaSet (exampleOwner "Deployment" "web")));
                        "Deployment" := fun _ => inr (Some (Deployment [])) ]};
     RESTMappings := fun _ => inr []; GetScale := fun _ _ _ => inl (otherError "no scale") |}.

Lemma topmost_controller_is_found_witness :
  FindTopMost inr 4 exampleFetcher (Some (exampleKey "ReplicaSet" "web-1")) = Some (inr (Some (exampleKey "Deployment" "web"))).
Proof.
  destruct (topmost_controller_is_found inr exampleFetcher {[ exampleKey "ReplicaSet" "web-1"; exampleKey "Deployment" "web" ]}
    (exampleKey "ReplicaSet" "web-1") 4) as (_&Hiff&_).
  - apply elem_of_union_l, elem_of_singleton. reflexivity.
  - intros k owner Hk. rewrite elem_of_union, !elem_of_singleton in Hk. destruct Hk as [-> | ->]; vm_compute; [|discriminate].
    intros [= <-]. vm_compute. reflexivity.
  - vm_compute. lia.
  - apply Hiff. exists [exampleKey "ReplicaSet" "web-1"; exampleKey "Deployment" "web"], (exampleKey "Deployment" "web").
    split; [|split; vm_compute; reflexivity].
    apply (chain_owner _ _ _ (exampleKey "Deployment" "web")); [vm_compute; reflexivity|]. apply chain_end.
Defined.
