(* ===== verification/RecommenderInputs.v ===== *)
(** * The inputs of the recommender (recommender/input: spec, oom, metrics and history)

    What the clients make of the answers of the API server, of the events that informers
    report and of the time series of Prometheus; the answers themselves are arguments. *)
From S2P Require Import Prelude Api Float64 Framework Histogram ContainerUsage AggregateState ClusterState ClusterFeeder.
Local Open Scope Z_scope.

(** ** Pods and events, with the fields that the inputs read *)
Record InputContainer := { in_c_Name : string; in_c_Image : string; in_c_Requests : ResourceList }.

(** [LastTerminationState.Terminated], if set: the reason and the time. *)
Record ContainerStatus := { cs_Name : string; cs_RestartCount : Z; cs_Terminated : option (string * Time) }.

Record InputPod := {
  in_p_Namespace : string;
  in_p_Name : string;
  in_p_Labels : LabelSet;
  in_p_Containers : list InputContainer;
  in_p_Phase : string;
  in_p_ContainerStatuses : list ContainerStatus
}.

Record Event := {
  event_Reason : string;
  event_Annotations : gmap string string;
  event_CreationTimestamp : Time;
  Involved_Kind : string;
  Involved_Namespace : string;
  Involved_Name : string
}.

(** The zero quantity of a resource that is not requested. *)
Definition quantityOf (list : ResourceList) (name : string) : Quantity := default {| MilliValue := 0; Value := 0 |} (list !! name).

(** ** The specifications of the pods (spec/spec_client.go) *)
Definition calculateRequestedResources (container : InputContainer) : Resources :=
  {[ ResourceCPU := MilliValue (quantityOf (in_c_Requests container) ResourceCPU);
     ResourceMemory := Value (quantityOf (in_c_Requests container) ResourceMemory) ]}.

Definition newContainerSpec (podID : PodID) (container : InputContainer) : BasicContainerSpec :=
  {| bc_ID := (podID, in_c_Name container); bc_Image := in_c_Image container; bc_Request := calculateRequestedResources container |}.

Definition newContainerSpecs (podID : PodID) (pod : InputPod) : list BasicContainerSpec :=
  newContainerSpec podID <$> in_p_Containers pod.

Definition newBasicPodSpec (pod : InputPod) : BasicPodSpec :=
  let podId := (in_p_Namespace pod, in_p_Name pod) in
  {| bp_ID := podId; bp_PodLabels := in_p_Labels pod; bp_Containers := newContainerSpecs podId pod; bp_Phase := in_p_Phase pod |}.

(** The answer of the lister. *)
Definition GetPodSpecs (listed : string + list InputPod) : string + list BasicPodSpec :=
  match listed with
  | inl err => inl err
  | inr pods => inr (newBasicPodSpec <$> pods)
  end.

(** ** Metrics (metrics/metrics_client.go): the client has been emptied *)
Definition GetContainersMetrics : string + list ContainerMetricsSnapshot := inr [].

Definition calculateUsage (containerUsage : ResourceList) : Resources :=
  {[ ResourceCPU := MilliValue (quantityOf containerUsage ResourceCPU);
     ResourceMemory := Value (quantityOf containerUsage ResourceMemory) ]}.

(** ** OOM events (oom/observer.go) *)

(** [strings.Split(s, ",")]. *)
Fixpoint SplitComma (s : string) : list string :=
  match s with
  | EmptyString => [EmptyString]
  | String c s =>
      if decide (c = Ascii.ascii_of_nat 44) then EmptyString :: SplitComma s
      else match SplitComma s with
           | [] => [String c EmptyString]
           | part :: parts => String c part :: parts
           end
  end.

Section Observer.
(** The value of [resource.ParseQuantity]. *)
Context (ParseQuantity : string -> string + Z).

Definition extractArray (event : Event) (annotationsKey : string) : list string :=
  match event_Annotations event !! annotationsKey with None => [] | Some str => SplitComma str end.

Fixpoint evictedOoms (event : Event) (containers usages resources : list string) : list OomInfo :=
  match containers, usages, resources with
  | container :: containers, usage :: usages, resource :: resources =>
      let rest := evictedOoms event containers usages resources in
      if decide (resource <> "memory") then rest
      else
        match ParseQuantity usage with
        | inl err => rest
        | inr memory =>
            {| oom_Timestamp := event_CreationTimestamp event; oom_Memory := memory;
               oom_ContainerID := ((Involved_Namespace event, Involved_Name event), container) |} :: rest
        end
  | _, _, _ => []
  end.

Definition parseEvictionEvent (event : Event) : list OomInfo :=
  if bool_decide (event_Reason event <> "Evicted") || bool_decide (Involved_Kind event <> "Pod") then []
  else
    let offendingContainers := extractArray event "offending_containers" in
    let offendingContainersUsage := extractArray event "offending_containers_usage" in
    let starvedResource := extractArray event "starved_resource" in
    if bool_decide (length offendingContainers <> length offendingContainersUsage) ||
       bool_decide (length offendingContainers <> length starvedResource) then []
    else evictedOoms event offendingContainers offendingContainersUsage starvedResource.

Definition findStatus (name : string) (containerStatuses : list ContainerStatus) : option ContainerStatus :=
  find (fun containerStatus => bool_decide (cs_Name containerStatus = name)) containerStatuses.
Definition findSpec (name : string) (containers : list InputContainer) : option InputContainer :=
  find (fun containerSpec => bool_decide (in_c_Name containerSpec = name)) containers.

(** The event of one status of the new pod; nothing when the old pod is nil is a panic. *)
Definition oomOfStatus (oldPod : option InputPod) (newPod : InputPod) (containerStatus : ContainerStatus) : option (list OomInfo) :=
  match cs_Terminated containerStatus with
  | Some (reason, finishedAt) =>
      if (0 <? cs_RestartCount containerStatus) && bool_decide (reason = "OOMKilled") then
        match oldPod with
        | None => None
        | Some oldPod =>
            match findStatus (cs_Name containerStatus) (in_p_ContainerStatuses oldPod) with
            | Some oldStatus =>
                if cs_RestartCount oldStatus <? cs_RestartCount containerStatus then
                  match findSpec (cs_Name containerStatus) (in_p_Containers oldPod) with
                  | Some oldSpec =>
                      Some [{| oom_Timestamp := finishedAt; oom_Memory := Value (quantityOf (in_c_Requests oldSpec) ResourceMemory);
                               oom_ContainerID := ((in_p_Namespace newPod, in_p_Name newPod), cs_Name containerStatus) |}]
                  | None => Some []
                  end
                else Some []
            | None => Some []
            end
        end
      else Some []
  | None => Some []
  end.

Fixpoint oomsOfStatuses (oldPod : option InputPod) (newPod : InputPod) (statuses : list ContainerStatus) : option (list OomInfo) :=
  match statuses with
  | [] => Some []
  | containerStatus :: statuses =>
      ooms ← oomOfStatus oldPod newPod containerStatus;
      rest ← oomsOfStatuses oldPod newPod statuses;
      Some (ooms ++ rest)
  end.

(** The channel of the observer and what the goroutine of the informer waits to send: a send on a full
    channel blocks. *)
Record observer := { observedOomsChannel : list OomInfo; waitingOoms : list OomInfo }.

Definition channelSize : nat := 5000.
Definition NewObserver : observer := {| observedOomsChannel := []; waitingOoms := [] |}.

Definition refill (o : observer) : observer :=
  let all := observedOomsChannel o ++ waitingOoms o in
  {| observedOomsChannel := take channelSize all; waitingOoms := drop channelSize all |}.

Definition sendOoms (o : observer) (ooms : list OomInfo) : observer :=
  refill {| observedOomsChannel := observedOomsChannel o; waitingOoms := waitingOoms o ++ ooms |}.

Definition OnEvent (o : observer) (event : Event) : observer := sendOoms o (parseEvictionEvent event).

(** An event of a watch: its type and its object, if that is an event of the API. *)
Record watchEvent := { watch_Type : string; watch_Object : option Event }.

(** The events of a channel up to its end (cluster_feeder.go). *)
Fixpoint watchEvictionEvents (evictedEventChan : list watchEvent) (o : observer) : observer :=
  match evictedEventChan with
  | [] => o
  | evictedEvent :: evictedEventChan =>
      watchEvictionEvents evictedEventChan
        (if decide (watch_Type evictedEvent = "ADDED") then
           match watch_Object evictedEvent with Some event => OnEvent o event | None => o end
         else o)
  end.

(** The objects as pods: [None] for nil and for an object of another type. *)
Definition OnUpdate (o : observer) (oldObj newObj : option InputPod) : option observer :=
  newPod ← newObj;
  ooms ← oomsOfStatuses oldObj newPod (in_p_ContainerStatuses newPod);
  Some (sendOoms o ooms).
End Observer.

(** ** The history of the usage (history/history_provider.go) *)
Record PrometheusHistoryProviderConfig := {
  HistoryResolution : string;
  PodLabelPrefix : string;
  PodLabelsMetricName : string;
  PodNamespaceLabel : string;
  PodNameLabel : string;
  CtrNamespaceLabel : string;
  CtrPodNameLabel : string;
  CtrNameLabel : string;
  CadvisorMetricsJobName : string;
  config_Namespace : string
}.

Record history := { h_LastLabels : LabelSet; h_LastSeen : Time; h_Samples : gmap string (list ContainerUsageSample) }.

(** The zero value of [time.Time]. *)
Definition zeroInstant : Time := 0.
Definition newEmptyHistory : history := {| h_LastLabels := ∅; h_LastSeen := zeroInstant; h_Samples := ∅ |}.

(** A series of a matrix; a result of a query is a matrix or of another type, which has a name. *)
Abbreviation Metric := (gmap string string).
Record SamplePair := { sp_Timestamp : Time; sp_Value : float64 }.
Record SampleStream := { ss_Metric : Metric; ss_Values : list SamplePair }.
Inductive queryResult := Matrix (streams : list SampleStream) | OtherResult (type : string).

Section History.
Context `{MathLib} (p : PrometheusHistoryProviderConfig).

(** The client: a query over the range of the history, and one at this moment. *)
Context (QueryRange Query : string -> string + queryResult).
(** [sort.Slice] by the times of samples. *)
Context (sortSamples : list ContainerUsageSample -> list ContainerUsageSample).

Definition labelOf (metric : Metric) (label suffix : string) : string + string :=
  match metric !! label with
  | None => inl (String.concat "" ["no "; label; " label"; suffix])
  | Some value => inr value
  end.

Definition getContainerIDFromLabels (metric : Metric) : string + ContainerID :=
  match labelOf metric (CtrNamespaceLabel p) "" with
  | inl err => inl err
  | inr namespace =>
      match labelOf metric (CtrPodNameLabel p) "" with
      | inl err => inl err
      | inr podName =>
          match labelOf metric (CtrNameLabel p) " on container data" with
          | inl err => inl err
          | inr containerName => inr ((namespace, podName), containerName)
          end
      end
  end.

Definition getPodIDFromLabels (metric : Metric) : string + PodID :=
  match labelOf metric (PodNamespaceLabel p) "" with
  | inl err => inl err
  | inr namespace =>
      match labelOf metric (PodNameLabel p) "" with
      | inl err => inl err
      | inr podName => inr (namespace, podName)
      end
  end.

(** [strings.TrimPrefix]. *)
Fixpoint cutPrefix (s prefix : string) : option string :=
  match prefix, s with
  | EmptyString, _ => Some s
  | String c prefix, String d s => if decide (c = d) then cutPrefix s prefix else None
  | _, EmptyString => None
  end.
Definition TrimPrefix (s prefix : string) : string := default s (cutPrefix s prefix).

(** Labels with the prefix, without it; their order does not matter, as no two have one name. *)
Definition getPodLabelsMap (metric : Metric) : LabelSet :=
  list_to_map (omap (fun '(key, value) =>
    let podLabelKey := TrimPrefix key (PodLabelPrefix p) in
    if decide (podLabelKey <> key) then Some (podLabelKey, value) else None) (map_to_list metric)).

Definition resourceAmountFromValue (value : float64) (resource : ResourceName) : ResourceAmount :=
  if decide (resource = ResourceCPU) then CPUAmountFromCores value
  else if decide (resource = ResourceMemory) then MemoryAmountFromBytes value
  else 0.

Definition getContainerUsageSamplesFromSamples (samples : list SamplePair) (resource : ResourceName) : list ContainerUsageSample :=
  (fun sample => {| MeasureStart := sp_Timestamp sample; Usage := resourceAmountFromValue (sp_Value sample) resource;
                    Request := 0; Resource_field := resource |}) <$> samples.

Definition appendSamples (containerName : string) (newSamples : list ContainerUsageSample) (podHistory : history) : history :=
  {| h_LastLabels := h_LastLabels podHistory; h_LastSeen := h_LastSeen podHistory;
     h_Samples := <[containerName := default [] (h_Samples podHistory !! containerName) ++ newSamples]> (h_Samples podHistory) |}.

(** The error, if any, and the map, which changes up to the error. *)
Fixpoint readStreams (matrix : list SampleStream) (resource : ResourceName) (res : gmap PodID history)
    : option string * gmap PodID history :=
  match matrix with
  | [] => (None, res)
  | ts :: matrix =>
      match getContainerIDFromLabels (ss_Metric ts) with
      | inl err => (Some "cannot get container ID from labels", res)
      | inr (podID, containerName) =>
          let podHistory := default newEmptyHistory (res !! podID) in
          readStreams matrix resource
            (<[podID := appendSamples containerName (getContainerUsageSamplesFromSamples (ss_Values ts) resource) podHistory]> res)
      end
  end.

Definition readResourceHistory (res : gmap PodID history) (query : string) (resource : ResourceName)
    : option string * gmap PodID history :=
  match QueryRange query with
  | inl err => (Some (String.concat "" ["cannot get timeseries for "; resource; ": "; err]), res)
  | inr (OtherResult type) => (Some (String.append "expected query to return a matrix; got result type " type), res)
  | inr (Matrix matrix) => readStreams matrix resource res
  end.

(** The labels at the latest sample; a series without samples is a panic. *)
Fixpoint readLabelStreams (matrix : list SampleStream) (res : gmap PodID history) : option (option string * gmap PodID history) :=
  match matrix with
  | [] => Some (None, res)
  | ts :: matrix =>
      match getPodIDFromLabels (ss_Metric ts) with
      | inl err => Some (Some (String.append "cannot get container ID from labels: " err), res)
      | inr podID =>
          lastSample ← list.last (ss_Values ts);
          let podHistory := default newEmptyHistory (res !! podID) in
          let podHistory :=
            if h_LastSeen podHistory <? sp_Timestamp lastSample then
              {| h_LastLabels := getPodLabelsMap (ss_Metric ts); h_LastSeen := sp_Timestamp lastSample;
                 h_Samples := h_Samples podHistory |}
            else podHistory in
          readLabelStreams matrix (<[podID := podHistory]> res)
      end
  end.

Definition readLastLabels (res : gmap PodID history) (query : string) : option (option string * gmap PodID history) :=
  match Query query with
  | inl err => Some (Some (String.append "cannot get timeseries for labels: " err), res)
  | inr (OtherResult type) => Some (Some (String.append "expected query to return a matrix; got result type " type), res)
  | inr (Matrix matrix) => readLabelStreams matrix res
  end.

Definition podSelectorQuery : string :=
  let job := if decide (CadvisorMetricsJobName p <> "") then String.concat "" ["job="; quoted (CadvisorMetricsJobName p); ", "] else "" in
  let selector := String.concat "" [job; CtrPodNameLabel p; "=~"; quoted ".+"; ", "; CtrNameLabel p; "!="; quoted "POD"; ", ";
                                    CtrNameLabel p; "!="; quoted ""] in
  if decide (config_Namespace p <> "") then
    String.concat "" [selector; ", "; CtrNamespaceLabel p; "="; quoted (config_Namespace p)]
  else selector.

Definition historicalCpuQuery : string :=
  String.concat "" ["rate(container_cpu_usage_seconds_total{"; podSelectorQuery; "}["; HistoryResolution p; "])"].
Definition historicalMemoryQuery : string := String.concat "" ["container_memory_working_set_bytes{"; podSelectorQuery; "}"].

Definition sortHistory (podHistory : history) : history :=
  {| h_LastLabels := h_LastLabels podHistory; h_LastSeen := h_LastSeen podHistory;
     h_Samples := sortSamples <$> h_Samples podHistory |}.

(** The error of [readLastLabels] is dropped. *)
Definition GetClusterHistory : result string (gmap PodID history) :=
  match readResourceHistory ∅ historicalCpuQuery ResourceCPU with
  | (Some err, _) => Err (String.append "cannot get usage history: " err)
  | (None, res) =>
      match readResourceHistory res historicalMemoryQuery ResourceMemory with
      | (Some err, _) => Err (String.append "cannot get usage history: " err)
      | (None, res) =>
          match readLastLabels (sortHistory <$> res) (PodLabelsMetricName p) with
          | None => Panic
          | Some (_, res) => Ok res
          end
      end
  end.

(** What the feeder uses of it. *)
Definition toPodHistory (h : history) : PodHistory := {| LastLabels := h_LastLabels h; Samples := h_Samples h |}.

(** ** All samples are collected *)
Definition samplesOf (res : gmap PodID history) (id : ContainerID) : list ContainerUsageSample :=
  default [] (h ← res !! id.1; h_Samples h !! id.2).

(** The samples of the series whose labels name the container. *)
Definition streamSamples (matrix : list SampleStream) (resource : ResourceName) (id : ContainerID) : list ContainerUsageSample :=
  matrix ≫= (fun ts =>
    if decide (getContainerIDFromLabels (ss_Metric ts) = inr id)
    then getContainerUsageSamplesFromSamples (ss_Values ts) resource else []).

Lemma samplesOf_append res podID containerName samples id :
  samplesOf (<[podID := appendSamples containerName samples (default newEmptyHistory (res !! podID))]> res) id =
  samplesOf res id ++ (if decide ((podID, containerName) = id) then samples else []).
Proof.
  destruct id as [podID' c']. unfold samplesOf. cbn [fst snd].
  destruct (decide (podID' = podID)) as [->|Hne].
  - rewrite lookup_insert_eq. cbn [mbind option_bind appendSamples h_Samples].
    destruct (decide (c' = containerName)) as [->|Hc].
    + rewrite lookup_insert_eq, decide_True by done. cbn [default]. destruct (res !! podID); [done|]. cbn; by rewrite ?lookup_empty.
    + rewrite lookup_insert_ne, decide_False by congruence. rewrite app_nil_r.
      destruct (res !! podID); [done|]. cbn; by rewrite ?lookup_empty.
  - rewrite lookup_insert_ne, decide_False by congruence. by rewrite app_nil_r.
Qed.

Lemma readStreams_samples matrix resource : forall res res', readStreams matrix resource res = (None, res') ->
  forall id, samplesOf res' id = samplesOf res id ++ streamSamples matrix resource id.
Proof.
  induction matrix as [|ts matrix IH]; intros res res'; cbn [readStreams].
  { intros [= <-] id. by rewrite app_nil_r. }
  destruct (getContainerIDFromLabels (ss_Metric ts)) as [err|[podID containerName]] eqn:Hid; [done|].
  intros Hr id. rewrite (IH _ _ Hr), samplesOf_append, <- app_assoc. f_equal. unfold streamSamples. rewrite bind_cons. f_equal.
  rewrite Hid. destruct (decide ((podID, containerName) = id)) as [->|Hne]; [by rewrite decide_True|].
  rewrite decide_False; [done|]. congruence.
Qed.

Lemma readLabelStreams_samples matrix : forall res err res', readLabelStreams matrix res = Some (err, res') ->
  forall id, samplesOf res' id = samplesOf res id.
Proof.
  induction matrix as [|ts matrix IH]; intros res err res'; cbn [readLabelStreams]; [by intros [= _ <-]|].
  destruct (getPodIDFromLabels (ss_Metric ts)) as [e|podID]; [by intros [= _ <-]|].
  destruct (list.last (ss_Values ts)) as [s|]; cbn [mbind option_bind]; [|done].
  intros Hr [podID' c]. rewrite (IH _ _ _ Hr). unfold samplesOf. cbn [fst snd].
  destruct (decide (podID' = podID)) as [->|Hne]; [|by rewrite lookup_insert_ne].
  rewrite lookup_insert_eq. cbn [mbind option_bind]. destruct (h_LastSeen _ <? _); cbn [h_Samples];
    (destruct (res !! podID); [done|]); cbn; by rewrite ?lookup_empty.
Qed.

Hypothesis sortSamples_perm : forall l, sortSamples l ≡ₚ l.
Hypothesis sortSamples_sorted : forall l, Sorted (fun a b => MeasureStart a <= MeasureStart b) (sortSamples l).

Lemma samplesOf_sorted res id : samplesOf (sortHistory <$> res) id = sortSamples (samplesOf res id).
Proof using sortSamples_perm.
  unfold samplesOf. rewrite lookup_fmap.
  assert (Hnil : [] = sortSamples []) by (symmetry; apply Permutation_nil_r, sortSamples_perm).
  destruct (res !! id.1) as [h|]; cbn [fmap option_fmap option_map mbind option_bind]; [|exact Hnil].
  unfold sortHistory. cbn [h_Samples]. rewrite lookup_fmap. destruct (h_Samples h !! id.2); [done|exact Hnil].
Qed.

(** The history of the cluster holds for every container exactly the samples of the series of
    both queries whose labels name it, of CPU and of memory, in the order of their times;
    reading the labels of the pods, which may fail half-way, neither adds nor loses a sample. *)
Theorem history_collects_all_samples res : GetClusterHistory = Ok res ->
  exists cpu memory, QueryRange historicalCpuQuery = inr (Matrix cpu) /\ QueryRange historicalMemoryQuery = inr (Matrix memory) /\
    forall id, samplesOf res id ≡ₚ streamSamples cpu ResourceCPU id ++ streamSamples memory ResourceMemory id /\
      Sorted (fun a b => MeasureStart a <= MeasureStart b) (samplesOf res id).
Proof using sortSamples_perm sortSamples_sorted.
  unfold GetClusterHistory, readResourceHistory.
  destruct (QueryRange historicalCpuQuery) as [|[cpu|]]; [done| |done].
  destruct (readStreams cpu ResourceCPU ∅) as [[|] res1] eqn:H1; [done|].
  destruct (QueryRange historicalMemoryQuery) as [|[memory|]]; [done| |done].
  destruct (readStreams memory ResourceMemory res1) as [[|] res2] eqn:H2; [done|].
  destruct (readLastLabels _ _) as [[err res3]|] eqn:H3; [|done]. intros [= <-]. exists cpu, memory. split_and!; [done..|].
  intros id.
  assert (Hs : samplesOf res3 id = sortSamples (streamSamples cpu ResourceCPU id ++ streamSamples memory ResourceMemory id)).
  { assert (Hl : samplesOf res3 id = samplesOf (sortHistory <$> res2) id).
    { unfold readLastLabels in H3. destruct (Query (PodLabelsMetricName p)) as [|[m|]]; [by injection H3 as _ <-| |by injection H3 as _ <-].
      by eapply readLabelStreams_samples. }
    rewrite Hl, samplesOf_sorted, (readStreams_samples _ _ _ _ H2), (readStreams_samples _ _ _ _ H1).
    unfold samplesOf at 1. rewrite lookup_empty. done. }
  rewrite Hs. split; [apply sortSamples_perm|apply sortSamples_sorted].
Qed.
End History.
