(* ===== verification/Recommender.v ===== *)
(** * The recommender (recommender/routines/, checkpoint/checkpoint_writer.go, util/vpa_api_util.go)

    One pass feeds the cluster model, computes the recommendation of every VPA object, saves
    checkpoints and collects the aggregations that are obsolete.  [now] is [time.Now()], the
    same instant for the calls of one operation. *)
From S2P Require Import Prelude Api Float64 Histogram ContainerUsage AggregateState ClusterState Estimator ClusterFeeder.
Local Open Scope Z_scope.

(** ** Recommendations of a VPA object (routines/vpa.go, recommender.go) *)
Definition ApplyVPAPolicy (podRecommendation : option RecommendedPodResources) (policy : option (ptr PodResourcePolicy))
    : option RecommendedPodResources :=
  match podRecommendation, policy with
  | None, _ => None
  | Some r, None => Some r
  | Some _, Some _ => Some []
  end.

Definition recommendedResources (containerName : string) (res : ContainerResources) : RecommendedContainerResources := {|
  rec_ContainerName := containerName;
  rec_Target := ResourcesAsResourceList (Target res);
  rec_LowerBound := ResourcesAsResourceList (LowerBound res);
  rec_UpperBound := ResourcesAsResourceList (UpperBound res);
  rec_UncappedTarget := ResourcesAsResourceList (Target res)
|}.

(** [ApplyVPAPolicy] returns no error. *)
Definition getCappedRecommendation (resources : gmap string ContainerResources) (policy : option (ptr PodResourcePolicy))
    : option RecommendedPodResources :=
  ApplyVPAPolicy (Some ((fun '(name, res) => recommendedResources name res) <$> map_to_list resources)) policy.

Record recommender := mkRecommender {
  clusterState : ClusterState;
  memorySaveMode : bool;
  checkpointsGCInterval : Duration;
  lastCheckpointGC : Time;
  podRecommender : podResourceRecommender;
  useCheckpoints : bool;
  vpaCheckpointClient : checkpointClient;
  lastAggregateContainerStateGC : Time
}.

Definition setCluster c r := mkRecommender c (memorySaveMode r) (checkpointsGCInterval r) (lastCheckpointGC r) (podRecommender r)
  (useCheckpoints r) (vpaCheckpointClient r) (lastAggregateContainerStateGC r).
Definition setLastCheckpointGC t r := mkRecommender (clusterState r) (memorySaveMode r) (checkpointsGCInterval r) t (podRecommender r)
  (useCheckpoints r) (vpaCheckpointClient r) (lastAggregateContainerStateGC r).
Definition setLastStateGC t r := mkRecommender (clusterState r) (memorySaveMode r) (checkpointsGCInterval r) (lastCheckpointGC r)
  (podRecommender r) (useCheckpoints r) (vpaCheckpointClient r) t.

(** [sort.Slice] by the time of the last checkpoint: a stable sort is one of its results. *)
Definition writtenLe (a b : VpaID * Vpa) : Prop := CheckpointWritten (snd a) <= CheckpointWritten (snd b).
#[export] Instance writtenLe_dec : RelDecision writtenLe.
Proof. intros a b. unfold writtenLe. apply _. Defined.

Section Recommender.
Context `{MathLib} `{Config} `{LabelsString} `{Fetchers} (now : Time).

Abbreviation cluster := (stateM ClusterState modelError).
Abbreviation ContainerNameToAggregateStateMap := (gmap string AggregateContainerState).

Definition autoscalingDisabled (policy : option ContainerResourcePolicy) : bool :=
  match policy ≫= crp_Mode with Some mode => bool_decide (mode = ContainerScalingModeOff) | None => false end.

Definition GetContainerNameToAggregateStateMap (vpaID : VpaID) : cluster ContainerNameToAggregateStateMap :=
  states ← AggregateStateByContainerName now vpaID;
  c ← get;
  match Vpas c !! vpaID with
  | None => panic
  | Some v =>
      mret (map_imap (fun containerName a =>
        let policy := GetContainerResourcePolicy containerName (vpa_ResourcePolicy v) in
        if negb (autoscalingDisabled policy) && (0 <? TotalSamplesCount a) then Some (UpdateFromPolicy policy a) else None) states)
  end.

(** A method of a VPA object that also changes the states it uses. *)
Definition onVpaStates (vpaID : VpaID) (f : vpaMethod) : cluster unit := fun c =>
  match Vpas c !! vpaID with
  | None => (Panic, c)
  | Some v => let '(v', s) := f (v, states c) in (Ok tt, setVpas (<[vpaID := v']> (Vpas c)) (setStates s c))
  end.

(** The end of the loop's body: the recommendation is recorded, and when it is missing for
    long the pods are counted for the log.  [UpdateVpaStatusIfNeeded] does nothing. *)
Definition recordMissing (vpaID : VpaID) : cluster unit := fun c =>
  match Vpas c !! vpaID with
  | None => (Panic, c)
  | Some v =>
      match RecordRecommendation v now c with
      | (Err _, c') => match GetMatchingPods c' v with Some _ => (Ok tt, c') | None => (Panic, c') end
      | r => r
      end
  end.

(** The body of the loop of [UpdateVPAs]. *)
Definition updateVpa (r : podResourceRecommender) (observedVpa : VerticalPodAutoscaler) : cluster unit :=
  let key := crdID observedVpa in
  c ← get;
  match Vpas c !! key with
  | None => mret tt
  | Some _ =>
      states ← GetContainerNameToAggregateStateMap key;
      match GetRecommendedPodResources r states with
      | None => panic
      | Some resources =>
          match getCappedRecommendation resources (api_ResourcePolicy observedVpa) with
          | None => panic
          | Some recommendation =>
              onVpaStates key (UpdateRecommendation recommendation);;
              onVpa key (fun v => UpdateConditions now (0 <? PodCount v) v);;
              recordMissing key
          end
      end
  end.

Definition UpdateVPAs (r : podResourceRecommender) : cluster unit :=
  c ← get;
  forEach (updateVpa r) (ObservedVpas c).

(** ** The checkpoint writer *)
Definition isFetchingHistory (v : Vpa) : bool := ConditionActive (vpa_Conditions v) FetchingHistory.

Definition getVpasToCheckpoint (vpas : gmap VpaID Vpa) : list (VpaID * Vpa) :=
  merge_sort writtenLe (filter (fun iv => isFetchingHistory (snd iv) = false) (map_to_list vpas)).

Definition subtractCurrentContainerMemoryPeak (container : ContainerState aggregatorRef) : stateM AggregateContainerState modelError unit :=
  if now <? WindowEnd container
  then onMemory (SubtractSample (BytesFromMemoryAmount (GetMaxMemoryPeak container)) fone (WindowEnd container))
  else mret tt.

(** A method of the merged state of a name, if there is one. *)
Definition onMerged (containerName : string) (f : stateM AggregateContainerState modelError unit) :
    stateM ContainerNameToAggregateStateMap modelError unit := fun m =>
  match m !! containerName with
  | None => (Ok tt, m)
  | Some a => let '(r, a') := f a in (r, <[containerName := a']> m)
  end.

(** The peaks that the containers of the cluster have not finished, out of the merged states. *)
Definition subtractPeaks (v : Vpa) (containers : list (AggregateStateKey * ContainerState aggregatorRef)) :
    stateM ContainerNameToAggregateStateMap modelError unit :=
  foldr (fun '(aggregateKey, container) k =>
    (if UsesAggregation v aggregateKey
     then onMerged (key_containerName aggregateKey) (subtractCurrentContainerMemoryPeak container)
     else mret tt);; k) (mret tt) containers.

(** The containers of the pods with their keys. *)
Definition keyedContainers (c : ClusterState) : list (AggregateStateKey * ContainerState aggregatorRef) :=
  '(podID, pod) ← map_to_list (Pods c);
  '(containerName, container) ← map_to_list (pod_Containers pod);
  [(MakeAggregateStateKey podID pod containerName, container)].

Definition buildAggregateContainerStateMap (vpaID : VpaID) : cluster ContainerNameToAggregateStateMap :=
  states ← AggregateStateByContainerName now vpaID;
  c ← get;
  match Vpas c !! vpaID with
  | None => panic
  | Some v =>
      match subtractPeaks v (keyedContainers c) states with
      | (Ok _, states) => mret states
      | (Err e, _) => fail e
      | (Panic, _) => panic
      end
  end.

(** The body of the inner loop: the client is nil, or a checkpoint is created or updated,
    which [CreateOrUpdateVpaCheckpoint] does without an effect and without an error. *)
Definition storeCheckpoint (client : checkpointClient) (vpaID : VpaID) (a : AggregateContainerState) : cluster unit :=
  match aggSaveToCheckpoint a, client with
  | Some _, Some _ => onVpa vpaID (setCheckpointWritten now)
  | _, _ => panic
  end.

(** The loop over the VPA objects; [expired] answers [ctx.Err() != nil] for each of them.
    The result is the error of the context, or none. *)
Fixpoint storeVpas (client : checkpointClient) (vpas : list (VpaID * Vpa)) (expired : list bool) (minCheckpoints : Z) : cluster bool :=
  match vpas with
  | [] => mret false
  | (vpaID, _) :: vpas =>
      if default false (head expired) && (minCheckpoints <=? 0) then mret true
      else
        states ← buildAggregateContainerStateMap vpaID;
        forEach (fun na => storeCheckpoint client vpaID (snd na)) (map_to_list states);;
        storeVpas client vpas (tail expired) (wrap64 (minCheckpoints - Z.of_nat (size states)))
  end.

Definition StoreCheckpoints (client : checkpointClient) (expired : list bool) (minCheckpoints : Z) : cluster bool :=
  c ← get;
  storeVpas client (getVpasToCheckpoint (Vpas c)) expired minCheckpoints.
End Recommender.

(** ** The recommender's passes *)
Definition AggregateContainerStateGCInterval : Duration := hour.
Definition minCheckpointsPerRun : Z := 10.

(** What the world answers during one pass. *)
Record passInput := {
  in_Now : Time;
  in_Vpas : option (list VerticalPodAutoscaler);
  in_Pods : list BasicPodSpec;
  in_Metrics : list ContainerMetricsSnapshot;
  in_Ooms : list OomInfo;
  in_Expired : list bool;
  in_VpasAgain : option (list VerticalPodAutoscaler);
  in_Namespaces : option (list string)
}.

Section Passes.
Context `{MathLib} `{Config} `{LabelsString} `{Fetchers}.

Abbreviation routine := (stateM recommender modelError).

Definition onCluster {A} (m : stateM ClusterState modelError A) : routine A := zoom clusterState setCluster id m.

Definition MaintainCheckpoints (i : passInput) : routine unit :=
  r ← get;
  if useCheckpoints r then
    onCluster (StoreCheckpoints (in_Now i) (vpaCheckpointClient r) (in_Expired i) minCheckpointsPerRun);;
    if checkpointsGCInterval r <? timeSub (in_Now i) (lastCheckpointGC r)
    then modify (setLastCheckpointGC (in_Now i));;
         onCluster (GarbageCollectCheckpoints (in_Now i) (in_VpasAgain i) (in_Namespaces i) (vpaCheckpointClient r));; mret tt
    else mret tt
  else mret tt.

Definition GarbageCollect (i : passInput) : routine unit :=
  r ← get;
  if AggregateContainerStateGCInterval <? timeSub (in_Now i) (lastAggregateContainerStateGC r)
  then onCluster (GarbageCollectAggregateCollectionStates (in_Now i));; modify (setLastStateGC (in_Now i))
  else mret tt.

Definition RunOnce (i : passInput) : routine unit :=
  r ← get;
  onCluster (LoadVPAs (in_Now i) (in_Vpas i));;
  onCluster (LoadPods (in_Now i) (memorySaveMode r) (in_Pods i));;
  onCluster (LoadRealTimeMetrics (in_Now i) (in_Metrics i) (in_Ooms i));;
  onCluster (UpdateVPAs (in_Now i) (podRecommender r));;
  MaintainCheckpoints i;;
  GarbageCollect i.

(** [NewRecommender]: the recommender of the flags, with no client for checkpoints. *)
Definition NewRecommender (now : Time) (memorySaver : bool) (checkpointsGCInterval : Duration) (useCheckpoints : bool) : recommender := {|
  clusterState := NewClusterState;
  memorySaveMode := memorySaver;
  checkpointsGCInterval := checkpointsGCInterval;
  lastCheckpointGC := now;
  podRecommender := CreatePodResourceRecommender;
  useCheckpoints := useCheckpoints;
  vpaCheckpointClient := None;
  lastAggregateContainerStateGC := now
|}.
End Passes.
