(* ===== verification/FeederSpec.v ===== *)
(** * What the feeder makes of the cluster model

    The structure of the model, as two maps: the pods with their labels and phases, and the
    VPA objects with their selectors.  On these the operations of the model are insertions
    and deletions, and the feeder's passes bring the maps in line with what was listed. *)
From S2P Require Import Prelude Api Float64 Histogram ContainerUsage AggregateState ClusterState ClusterSpec ClusterFeeder.
Local Open Scope Z_scope.

Definition podView (c : ClusterState) : gmap PodID (string * string) := (fun p => (pod_labelSetKey p, pod_Phase p)) <$> Pods c.
Definition vpaSel (c : ClusterState) : gmap VpaID (option podSelector) := PodSelector <$> Vpas c.

(** No selector is nil. *)
Definition selectorsOk (m : gmap VpaID (option podSelector)) : Prop := forall id s, m !! id = Some s -> is_Some s.

Lemma shapes_sel c c' : (forall id, vpaShape <$> Vpas c' !! id = vpaShape <$> Vpas c !! id) -> vpaSel c' = vpaSel c.
Proof.
  intros Hs. apply map_eq. intros id. unfold vpaSel. rewrite !lookup_fmap. specialize (Hs id).
  destruct (Vpas c' !! id), (Vpas c !! id); try done. cbn in *. apply (inj Some), shape_inv in Hs as (_&->&_). done.
Qed.

(** [f] keeps the labels and the phase. *)
Lemma podView_alter c f id : (forall p, pod_labelSetKey (f p) = pod_labelSetKey p /\ pod_Phase (f p) = pod_Phase p) ->
  podView (setPods (alter f id (Pods c)) c) = podView c.
Proof.
  intros Hf. apply map_eq. intros i. unfold podView. cbn. rewrite !lookup_fmap. destruct (decide (i = id)) as [->|].
  - rewrite lookup_alter_eq. destruct (Pods c !! id) as [p|]; cbn; [|done]. by destruct (Hf p) as [-> ->].
  - by rewrite lookup_alter_ne.
Qed.

Lemma podView_insert c id p : podView (setPods (<[id := p]> (Pods c)) c) = <[id := (pod_labelSetKey p, pod_Phase p)]> (podView c).
Proof. unfold podView. cbn. by rewrite fmap_insert. Qed.

(** Whether [i] is among [id :: rest]. *)
Ltac in_cases i id rest :=
  pose proof (list.elem_of_cons rest i id); repeat case_decide; try done; exfalso; naive_solver.

Section Views.
Context `{MathLib} `{Config} `{LabelsString} `{Fetchers} (now : Time).

(** The same pods and selectors. *)
Definition sameView (c c' : ClusterState) : Prop := podView c' = podView c /\ vpaSel c' = vpaSel c.
#[export] Instance sameView_preorder : PreOrder sameView.
Proof. split; [by intros c|]. intros c1 c2 c3 [] []. split; congruence. Qed.

Lemma runs_forEach {A} (f : A -> stateM ClusterState modelError unit) l : forall (I : list A -> ClusterState -> Prop) c,
  I l c -> (forall a l c, I (a :: l) c -> runs (f a) c (fun _ c' => I l c')) -> runs (forEach f l) c (fun _ c' => I [] c').
Proof.
  induction l as [|a l IH]; intros I c Hc Hf; unfold forEach; cbn [foldr]; [by apply runs_ret|].
  apply runs_bind. eapply runs_mono; [by apply Hf|]. intros [] c' Hc'. by apply IH.
Qed.

(** *** Pods *)
Lemma findOrCreate_runs cid c : is_Some (Pods c !! fst cid) ->
  runs (findOrCreateAggregateContainerState now cid) c (fun _ c' => Pods c' = Pods c /\ vpaSel c' = vpaSel c).
Proof.
  intros [pod Hp]. unfold findOrCreateAggregateContainerState, aggregateStateKeyForContainerID. apply runs_bind.
  exists (MakeAggregateStateKey (fst cid) pod (snd cid)), c. rewrite Hp. split; [done|]. do 2 run_step.
  destruct (aggregateStateMap c !! _); [by apply runs_ret|].
  pose proof (linkVpas_fst (labelSets c) (MakeAggregateStateKey (fst cid) pod (snd cid)) (nextState c) (Vpas c) (NewAggregateContainerState now)) as Hl.
  destruct (linkVpas _ _ _ _ _) as [vs a]. cbn in Hl. subst vs. do 3 run_step. split; [done|]. apply shapes_sel. intros id. cbn.
  rewrite lookup_fmap. destruct (Vpas c !! id); cbn; [by rewrite linked_shape|done].
Qed.

Lemma relink_runs id names : forall c, is_Some (Pods c !! id) -> runs (relinkContainers now id names) c (fun _ c' => sameView c c').
Proof.
  induction names as [|name names IH]; intros c Hp; cbn [relinkContainers]; [by apply runs_ret|].
  apply runs_bind. eapply runs_mono; [by apply findOrCreate_runs|]. intros l c1 [HP HV]. do 2 run_step.
  eapply runs_mono; [apply IH|].
  - cbn. rewrite lookup_alter_eq, HP. by apply fmap_is_Some.
  - intros ? c' Hc'. etransitivity; [|exact Hc']. split; [rewrite podView_alter by done|done]. unfold podView. by rewrite HP.
Qed.

Lemma countPod_runs id pod d c : selectorsOk (vpaSel c) -> runs (countPod id pod d) c (fun _ c' => Pods c' = Pods c /\ vpaSel c' = vpaSel c).
Proof.
  intros Hs. unfold countPod, runs. rewrite bool_decide_true.
  - eexists tt, _. split; [done|]. split; [done|]. apply map_eq. intros i. unfold vpaSel. cbn. rewrite !lookup_fmap.
    destruct (Vpas c !! i); cbn; [|done]. by destruct (default _ _).
  - intros i v Hv. unfold PodLabelsMatchVPA. destruct (decide _); [|eauto].
    destruct (Hs i (PodSelector v)) as [s ->]; [unfold vpaSel; by rewrite lookup_fmap, Hv|]. cbn. eauto.
Qed.

Lemma AddOrUpdatePod_runs id labels phase c : selectorsOk (vpaSel c) ->
  runs (AddOrUpdatePod now id labels phase) c (fun _ c' => podView c' = <[id := (labelSetString labels, phase)]> (podView c) /\ vpaSel c' = vpaSel c).
Proof.
  intros Hs. unfold AddOrUpdatePod. do 2 run_step. unfold putPod, getLabelSetKey. repeat run_step.
  set (pod := default newPod (Pods c !! id)). set (nk := labelSetString labels). set (c1 := setLabelSets _ _).
  assert (HPv1 : podView c1 = <[id := (pod_labelSetKey pod, pod_Phase pod)]> (podView c)) by apply podView_insert.
  eapply (runs_mono _ _ (fun _ c2 => Pods c2 = Pods c1 /\ vpaSel c2 = vpaSel c)).
  { case_match; [|by apply runs_ret]. eapply runs_mono; [by apply countPod_runs|]. by intros ? c2 [? ?]. }
  intros ? c2 [HP2 HV2]. assert (HPv2 : podView c2 = podView c1) by (unfold podView; by rewrite HP2). run_step.
  eapply (runs_mono _ _ (fun _ c3 => (exists ph, podView c3 = <[id := (nk, ph)]> (podView c)) /\ vpaSel c3 = vpaSel c)).
  { case_match eqn:Hnew.
    - do 2 run_step. run_step. eapply runs_mono; [apply relink_runs; cbn; rewrite lookup_insert_eq; eauto|]. intros ? c3 [HP3 HV3].
      assert (Hs3 : vpaSel c3 = vpaSel c) by (rewrite HV3; exact HV2).
      eapply runs_mono; [apply countPod_runs; by rewrite Hs3|].
      intros ? c4 [HP4 HV4]. split; [|by rewrite HV4]. exists (pod_Phase pod). unfold podView at 1. rewrite HP4.
      change (podView c3 = <[id := (nk, pod_Phase pod)]> (podView c)). rewrite HP3, podView_insert, HPv2, HPv1. by rewrite insert_insert_eq.
    - apply runs_ret. split; [|done]. exists (pod_Phase pod). rewrite HPv2, HPv1. apply orb_false_iff in Hnew as [_ Hc].
      apply bool_decide_eq_false, dec_stable in Hc. by rewrite Hc. }
  intros ? c3 [[ph HPv3] HV3]. run_step. split; [|done]. apply map_eq. intros i. unfold podView in *. cbn. rewrite lookup_fmap.
  pose proof (f_equal (lookup i) HPv3) as E. rewrite lookup_fmap in E. destruct (decide (i = id)) as [->|].
  - rewrite lookup_alter_eq, lookup_insert_eq in *. destruct (Pods c3 !! id) as [p|]; [|done]. cbn in *. injection E as -> _. done.
  - by rewrite lookup_alter_ne, lookup_insert_ne in * by done.
Qed.

Lemma DeletePod_runs id c : selectorsOk (vpaSel c) ->
  runs (DeletePod id) c (fun _ c' => podView c' = delete id (podView c) /\ vpaSel c' = vpaSel c).
Proof.
  intros Hs. unfold DeletePod. do 3 run_step.
  eapply (runs_mono _ _ (fun _ c1 => Pods c1 = Pods c /\ vpaSel c1 = vpaSel c)); [destruct (Pods c !! id); [by apply countPod_runs|by apply runs_ret]|].
  intros ? c1 [HP HV]. run_step. split; [|done]. unfold podView. cbn. rewrite HP. apply fmap_delete.
Qed.

Lemma putContainer_view cid ctr c : sameView c (snd (putContainer cid ctr c)).
Proof. unfold putContainer, modify. cbn [snd]. split; [by apply podView_alter|done]. Qed.

Lemma AddOrUpdateContainer_runs cid request c : runs (logged (AddOrUpdateContainer now cid request)) c (fun _ c' => sameView c c').
Proof.
  unfold runs, logged, AddOrUpdateContainer. unfold mbind at 1, stateM_bind at 1, get. destruct (Pods c !! fst cid) as [pod|] eqn:Ep.
  - destruct (pod_Containers pod !! snd cid) as [ctr|]; [eexists tt, _; split; [done|apply putContainer_view]|].
    destruct (findOrCreate_runs cid c) as (l&c1&E&HP&HV); [by rewrite Ep; eauto|]. erewrite bind_Ok by exact E.
    eexists tt, _. split; [done|]. etransitivity; [|apply putContainer_view]. split; [unfold podView; by rewrite HP|done].
  - eexists tt, _. by split.
Qed.

(** *** VPA objects *)
Lemma linkAggregations_shape m v0 s0 aggs : vpaShape (fst (linkAggregations m v0 aggs s0)) = vpaShape v0.
Proof.
  unfold linkAggregations. apply (map_fold_weak_ind (fun (r : Vpa * gmap nat AggregateContainerState) _ => vpaShape (fst r) = vpaShape v0)); [done|].
  intros key l aggs' [v s] _ IH. cbn in IH. destruct (s !! l) as [a|]; [|done].
  pose proof (use_fst m key l v a) as Hu. destruct (UseAggregationIfMatching m key l (v, a)) as [v' a']. cbn in *. subst v'. by rewrite linked_shape.
Qed.

Lemma GetMatchingPods_some c v : is_Some (PodSelector v) -> is_Some (GetMatchingPods c v).
Proof.
  intros [s Hs]. unfold GetMatchingPods, PodLabelsMatchVPA. rewrite Hs. induction (map_to_list (Pods c)) as [|[id pod] l IH]; cbn [foldr]; [eauto|].
  destruct IH as [l' ->]. destruct (decide _); cbn; eauto.
Qed.

Lemma createVpa_runs id s c : runs (createVpa now id (Some s)) c (fun _ c' => podView c' = podView c /\ vpaSel c' = <[id := Some s]> (vpaSel c)).
Proof.
  unfold createVpa. do 2 run_step. pose proof (linkAggregations_shape (labelSets c) (NewVpa id (Some s) now) (states c) (aggregateStateMap c)) as Hsh.
  destruct (linkAggregations _ _ _ _) as [v st]. apply shape_inv in Hsh as (_&Hsel&_). cbn [fst] in Hsel. do 2 run_step.
  destruct (GetMatchingPods_some c v) as [pods ->]; [rewrite Hsel; eauto|]. run_step. split; [done|].
  unfold vpaSel. cbn. rewrite fmap_insert. cbn. by rewrite Hsel.
Qed.

Lemma DeleteVpa_runs id c : is_Some (Vpas c !! id) -> runs (DeleteVpa id) c (fun _ c' => podView c' = podView c /\ vpaSel c' = delete id (vpaSel c)).
Proof.
  intros [v Hv]. unfold DeleteVpa. do 2 run_step. rewrite Hv. do 3 run_step. split; [done|]. unfold vpaSel. cbn. apply fmap_delete.
Qed.

(** The methods of a VPA object keep its selector. *)
Lemma keepsVpa_sel f v s : keepsVpa f -> PodSelector (fst (f (v, s))) = PodSelector v.
Proof. intros Hf. destruct (Hf v s) as [Hsh _]. by apply shape_inv in Hsh as (_&->&_). Qed.

Lemma AddOrUpdateVpa_runs o s c : selectorsOk (vpaSel c) ->
  runs (AddOrUpdateVpa now o (Some s)) c (fun _ c' => podView c' = podView c /\
    exists s0, ps_String s0 = ps_String s /\ (s0 = s \/ vpaSel c !! (api_Namespace o, api_Name o) = Some (Some s0)) /\
      vpaSel c' = <[(api_Namespace o, api_Name o) := Some s0]> (vpaSel c)).
Proof.
  intros Hs. unfold AddOrUpdateVpa. cbv zeta. set (id := (api_Namespace o, api_Name o)). do 2 run_step. run_step.
  eapply (runs_mono _ _ (fun b c1 => podView c1 = podView c /\ exists s0, ps_String s0 = ps_String s /\ (s0 = s \/ vpaSel c !! id = Some (Some s0)) /\
    <[id := Some s0]> (vpaSel c1) = <[id := Some s0]> (vpaSel c) /\ ((b : bool) = true -> vpaSel c1 !! id = Some (Some s0)) /\ (b = false -> s0 = s))).
  { destruct (Vpas c !! id) as [v|] eqn:Ev; [|run_step; split; [done|]; exists s; naive_solver].
    assert (Hid : vpaSel c !! id = Some (PodSelector v)) by (unfold vpaSel; by rewrite lookup_fmap, Ev).
    destruct (Hs _ _ Hid) as [s1 Es1]. rewrite Es1 in *. destruct (decide _) as [Hne|Heq].
    - run_step. eapply runs_mono; [apply DeleteVpa_runs; eauto|]. intros ? c1 [HP HV]. run_step. split; [done|]. exists s. rewrite HV, insert_delete_eq. naive_solver.
    - apply dec_stable in Heq. run_step. split; [done|]. exists s1. naive_solver. }
  intros b c1 (HP1&s0&Es0&Hor&HV1&Ht&Hf). run_step.
  eapply (runs_mono _ _ (fun _ c2 => podView c2 = podView c /\ vpaSel c2 = <[id := Some s0]> (vpaSel c))).
  { destruct b.
    - run_step. split; [done|]. rewrite <- HV1. symmetry. apply insert_id. by apply Ht.
    - rewrite (Hf eq_refl) in *. eapply runs_mono; [apply createVpa_runs|]. intros ? c2 [HP2 HV2]. split; [by rewrite HP2|by rewrite HV2]. }
  intros ? c2 [HP2 HV2]. run_step. assert (Hin : vpaSel c2 !! id = Some (Some s0)) by (rewrite HV2; apply lookup_insert_eq).
  unfold vpaSel in Hin. rewrite lookup_fmap in Hin. destruct (Vpas c2 !! id) as [v|] eqn:Ev; [|done]. cbn in Hin.
  set (v1 := setRecommendation _ _). pose proof (keepsVpa_sel _ v1 (states c2) (SetUpdateMode_vpa (api_UpdatePolicy o))) as Hs1.
  destruct (SetUpdateMode _ (v1, states c2)) as [v2 st2]. cbn [fst] in Hs1.
  pose proof (keepsVpa_sel _ v2 st2 (SetResourcePolicy_vpa (api_ResourcePolicy o))) as Hs2.
  destruct (SetResourcePolicy _ (v2, st2)) as [v3 st3]. cbn [fst] in Hs2.
  split; [done|]. exists s0. do 2 (split; [done|]). rewrite <- HV2. unfold vpaSel. cbn. rewrite fmap_insert, Hs2, Hs1.
  apply insert_id. rewrite lookup_fmap, Ev. done.
Qed.

(** ** [LoadVPAs] *)

(** The texts of the selectors, by which the code compares them. *)
Definition vpaNames (c : ClusterState) : gmap VpaID (option string) := (fun s : option podSelector => ps_String <$> s) <$> vpaSel c.

(** The texts for a list of VPA objects, the last one of a name. *)
Definition listedNames (m : gmap VpaID (option string)) (l : list VerticalPodAutoscaler) : gmap VpaID (option string) :=
  foldl (fun m o => <[crdID o := Some (ps_String (getSelector o).1)]> m) m l.

Lemma listedNames_lookup l : forall m m' id, (id ∈ crdID <$> l -> listedNames m l !! id = listedNames m' l !! id) /\
  (id ∉ crdID <$> l -> listedNames m l !! id = m !! id).
Proof.
  induction l as [|o l IH]; intros m m' id; cbn [listedNames foldl fmap list_fmap]; [split; [by intros ?%not_elem_of_nil|done]|].
  fold (listedNames (<[crdID o := Some (ps_String (getSelector o).1)]> m) l). fold (listedNames (<[crdID o := Some (ps_String (getSelector o).1)]> m') l).
  rewrite list.not_elem_of_cons. split.
  - intros [->|Hin]%list.elem_of_cons; [|by apply IH]. destruct (decide (crdID o ∈ crdID <$> l)) as [Hi|Hi]; [by apply IH|].
    rewrite !(proj2 (IH _ m _) Hi). by rewrite !lookup_insert_eq.
  - intros [Hne Hni]. rewrite (proj2 (IH _ m _) Hni). by apply lookup_insert_ne.
Qed.

Lemma listedNames_dom l id : is_Some (listedNames ∅ l !! id) <-> exists o, o ∈ l /\ crdID o = id.
Proof.
  transitivity (id ∈ crdID <$> l); [|rewrite list_elem_of_fmap; naive_solver]. destruct (decide (id ∈ crdID <$> l)) as [Hin|Hni].
  - split; [done|]. intros _. rewrite (proj1 (listedNames_lookup l ∅ {[id := None]} id) Hin). revert Hin. clear.
    generalize ({[id := None]} : gmap VpaID (option string)). induction l as [|o l IH]; intros m; [by intros ?%not_elem_of_nil|].
    cbn [listedNames foldl fmap list_fmap]. fold (listedNames (<[crdID o := Some (ps_String (getSelector o).1)]> m) l). intros Hin.
    destruct (decide (id ∈ crdID <$> l)) as [Hi|Hi]; [by apply IH|]. rewrite (proj2 (listedNames_lookup l _ ∅ id) Hi).
    apply list.elem_of_cons in Hin as [->|]; [|done]. rewrite lookup_insert_eq. eauto.
  - rewrite (proj2 (listedNames_lookup l ∅ ∅ id) Hni), lookup_empty. split; [by intros []|done].
Qed.

Lemma listedNames_value l : forall (m : gmap VpaID (option string)) id x, listedNames m l !! id = Some x -> (forall y, m !! id <> Some y) ->
  exists o, o ∈ l /\ crdID o = id /\ x = Some (ps_String (getSelector o).1).
Proof.
  induction l as [|o l IH]; intros m id x; cbn [listedNames foldl]; [intros Hx Hm; by apply Hm in Hx|].
  fold (listedNames (<[crdID o := Some (ps_String (getSelector o).1)]> m) l). intros Hx Hm. destruct (decide (id ∈ crdID <$> l)) as [Hi|Hi].
  - rewrite (proj1 (listedNames_lookup l _ m id) Hi) in Hx. apply IH in Hx as (o'&Ho&Hr); [|done]. exists o'. split; [set_solver|done].
  - rewrite (proj2 (listedNames_lookup l _ ∅ id) Hi), lookup_insert_Some in Hx. destruct Hx as [[<- <-]|[_ Hx]]; [|by apply Hm in Hx].
    exists o. split_and!; [set_solver|done..].
Qed.

Lemma onVpa_runs id f c : (forall v, PodSelector (f v) = PodSelector v) -> is_Some (vpaSel c !! id) ->
  runs (onVpa id f) c (fun _ c' => podView c' = podView c /\ vpaSel c' = vpaSel c).
Proof.
  intros Hf [s Hs]. unfold vpaSel in Hs. rewrite lookup_fmap in Hs. destruct (Vpas c !! id) as [v|] eqn:Ev; [|done].
  unfold runs, onVpa. rewrite Ev. eexists tt, _. split; [done|]. split; [done|]. unfold vpaSel. cbn. rewrite fmap_insert, Hf.
  apply insert_id. by rewrite lookup_fmap, Ev.
Qed.

Lemma applyConditions_runs id conds c : is_Some (vpaSel c !! id) ->
  runs (applyConditions now id conds) c (fun _ c' => podView c' = podView c /\ vpaSel c' = vpaSel c).
Proof.
  intros Hid. apply (runs_forEach _ _ (fun _ c' => podView c' = podView c /\ vpaSel c' = vpaSel c)); [done|].
  intros cd _ c1 [HP1 HV1]. eapply runs_mono; [by apply onVpa_runs; [done|rewrite HV1]|]. intros ? c2 [HP2 HV2]. split; congruence.
Qed.

Lemma addVpas_runs l : forall keys c, selectorsOk (vpaSel c) ->
  runs (addVpas now l keys) c (fun keys' c' => keys' = list_to_set (crdID <$> l) ∪ keys /\ podView c' = podView c /\
    selectorsOk (vpaSel c') /\ vpaNames c' = listedNames (vpaNames c) l).
Proof.
  induction l as [|o l IH]; intros keys c Hs; cbn [addVpas].
  - apply runs_ret. split_and!; [set_solver|done..].
  - pose proof (getSelector o) as p. unfold listedNames. cbn [foldl]. destruct (getSelector o) as [sel conds]. cbn [fst]. run_step.
    apply runs_caught. eapply runs_mono; [by apply AddOrUpdateVpa_runs|]. intros ? c1 (HP1&s0&Es0&_&HV1).
    change (api_Namespace o, api_Name o) with (crdID o) in HV1. assert (Hs1 : selectorsOk (vpaSel c1)).
    { intros i x. rewrite HV1, lookup_insert_Some. intros [[_ <-]|[_ Hx]]; [eauto|by apply (Hs i)]. }
    run_step. eapply runs_mono; [apply applyConditions_runs; rewrite HV1, lookup_insert_eq; eauto|]. intros ? c2 [HP2 HV2].
    eapply runs_mono; [apply IH; by rewrite HV2|]. intros keys' c3 (->&HP3&Hs3&HN3). split_and!; [|congruence|done|].
    + cbn [fmap list_fmap list_to_set]. set_solver.
    + rewrite HN3. unfold listedNames. f_equal. unfold vpaNames. by rewrite HV2, HV1, fmap_insert, <- Es0.
Qed.

Lemma dom_vpaNames c id : is_Some (vpaNames c !! id) <-> is_Some (Vpas c !! id).
Proof. unfold vpaNames, vpaSel. by rewrite !lookup_fmap, !fmap_is_Some. Qed.

Lemma LoadVPAs_runs l c : selectorsOk (vpaSel c) ->
  runs (LoadVPAs now (Some l)) c (fun _ c' => podView c' = podView c /\ selectorsOk (vpaSel c') /\ vpaNames c' = listedNames ∅ l /\ ObservedVpas c' = l).
Proof.
  intros Hs. cbn [LoadVPAs]. run_step. eapply runs_mono; [by apply addVpas_runs|]. intros keys c1 (->&HP1&Hs1&HN1). do 2 run_step. run_step.
  set (keys := list_to_set (crdID <$> l) ∪ ∅). set (ids := (map_to_list (Vpas c1)).*1).
  eapply runs_mono.
  { apply (runs_forEach _ ids (fun rest c2 => NoDup rest /\ podView c2 = podView c /\ selectorsOk (vpaSel c2) /\
      forall id, vpaNames c2 !! id = if decide (id ∈ keys \/ id ∈ rest) then vpaNames c1 !! id else None)).
    - split_and!; [apply NoDup_fst_map_to_list|done|done|]. intros id. case_decide as Hd; [done|].
      apply eq_None_not_Some. rewrite dom_vpaNames. intros [v Hv]. apply Hd. right. unfold ids.
      apply list_elem_of_fmap. exists (id, v). split; [done|]. by apply elem_of_map_to_list.
    - intros id rest c2 (Hnd&HP2&Hs2&HN2). apply NoDup_cons in Hnd as [Hni Hnd]. destruct (decide (id ∈ keys)) as [Hk|Hk].
      + run_step. split_and!; [done..|]. intros i. rewrite HN2. in_cases i id rest.
      + assert (Hdel : runs (logged (DeleteVpa id)) c2 (fun _ c3 => podView c3 = podView c2 /\ vpaSel c3 = delete id (vpaSel c2))).
        { destruct (Vpas c2 !! id) as [v|] eqn:Ev.
          - destruct (DeleteVpa_runs id c2) as ([]&c3&E&HQ); [eauto|]. exists tt, c3. split; [|done]. unfold logged. by rewrite E.
          - exists tt, c2. split; [unfold logged, DeleteVpa, mbind, stateM_bind, get; by rewrite Ev|]. split; [done|]. symmetry. apply delete_id.
            unfold vpaSel. by rewrite lookup_fmap, Ev. }
        eapply runs_mono; [exact Hdel|]. intros ? c3 [HP3 HV3]. split_and!; [done|congruence| |].
        * intros i x. rewrite HV3, lookup_delete_Some. intros [_ Hx]. by apply (Hs2 i).
        * intros i. unfold vpaNames at 1. rewrite HV3, fmap_delete. fold (vpaNames c2). destruct (decide (i = id)) as [->|Hne].
          -- rewrite lookup_delete_eq, decide_False by tauto. done.
          -- rewrite lookup_delete_ne, HN2 by done. in_cases i id rest. }
  intros ? c2 (_&HP2&Hs2&HN2). cbn beta. run_step. change (vpaNames (setObserved l c2)) with (vpaNames c2).
  change (vpaSel (setObserved l c2)) with (vpaSel c2). split_and!; [done|done| |done]. apply map_eq. intros id. rewrite HN2.
  destruct (listedNames_lookup l (vpaNames c) ∅ id) as [Hin Hout]. rewrite HN1. unfold keys.
  case_decide as Hd; rewrite elem_of_union, elem_of_list_to_set in Hd.
  - apply Hin. destruct Hd as [[Hd|Hd]|Hd]; [done|set_solver|by apply not_elem_of_nil in Hd].
  - symmetry. rewrite (proj2 (listedNames_lookup l ∅ ∅ id)); [apply lookup_empty|tauto].
Qed.

(** ** [LoadPods] *)
Lemma matchesVPA_sel c c' pod : vpaSel c' = vpaSel c -> matchesVPA c' pod = matchesVPA c pod.
Proof.
  set (step := fun (x : VpaID * option podSelector) (k : option bool) =>
    if decide (fst (fst x) = fst (bp_ID pod)) then s ← snd x; if Matches (ps_Selector s) (bp_PodLabels pod) then Some true else k else k).
  assert (Heq : forall c, matchesVPA c pod = foldr step (Some false) (map_to_list (vpaSel c))); [|intros E; by rewrite !Heq, E].
  intros d. unfold matchesVPA, vpaSel. rewrite map_to_list_fmap. by induction (map_to_list (Vpas d)) as [|[id v] l IH]; cbn [foldr fmap list_fmap]; [|rewrite IH].
Qed.

Lemma matchesVPA_some c pod : selectorsOk (vpaSel c) -> is_Some (matchesVPA c pod).
Proof.
  intros Hs. unfold matchesVPA. assert (Hall : Forall (fun iv => is_Some (PodSelector (snd iv))) (map_to_list (Vpas c))).
  { apply list.Forall_forall. intros [id v] Hin%elem_of_map_to_list. apply (Hs id). unfold vpaSel. by rewrite lookup_fmap, Hin. }
  induction Hall as [|[id v] l [s Hv] _ IH]; cbn [foldr]; [eauto|]. cbn in Hv. rewrite Hv. destruct (decide _); cbn; [case_match; eauto|done].
Qed.

(** Whether the feeder tracks a pod. *)
Definition tracks (memorySaveMode : bool) (c : ClusterState) (pod : BasicPodSpec) : bool :=
  if memorySaveMode then default false (matchesVPA c pod) else true.

Lemma loadPod_runs b pod c : selectorsOk (vpaSel c) ->
  runs (loadPod now b pod) c (fun _ c' => vpaSel c' = vpaSel c /\
    podView c' = if tracks b c pod then <[bp_ID pod := (labelSetString (bp_PodLabels pod), bp_Phase pod)]> (podView c) else podView c).
Proof.
  intros Hs. unfold loadPod. do 2 run_step. run_step. eapply (runs_mono _ _ (fun t c1 => c1 = c /\ t = tracks b c pod)).
  { unfold tracks. destruct b; [|by apply runs_ret]. destruct (matchesVPA_some c pod Hs) as [t Et]. rewrite Et. by apply runs_ret. }
  intros t c1 [-> ->]. destruct (tracks b c pod); [|by apply runs_ret]. run_step. eapply runs_mono; [by apply AddOrUpdatePod_runs|].
  intros ? c1 [HP1 HV1]. eapply runs_mono.
  - apply (runs_forEach _ _ (fun _ c2 => sameView c1 c2)); [done|]. intros ct _ c2 Hc2.
    eapply runs_mono; [apply AddOrUpdateContainer_runs|]. intros ? c3 Hc3. by etransitivity.
  - intros ? c2 [HP2 HV2]. split; congruence.
Qed.

Lemma podsByID_id specs : forall (m : gmap PodID BasicPodSpec), (forall id s, m !! id = Some s -> bp_ID s = id) ->
  forall id s, foldl (fun pods spec => <[bp_ID spec := spec]> pods) m specs !! id = Some s -> bp_ID s = id.
Proof.
  induction specs as [|x specs IH]; intros m Hm; cbn [foldl]; [done|]. apply IH. intros id s.
  rewrite lookup_insert_Some. intros [[<- <-]|[_ Hs]]; [done|by apply Hm].
Qed.

Lemma LoadPods_runs b specs c : selectorsOk (vpaSel c) ->
  runs (LoadPods now b specs) c (fun _ c' => vpaSel c' = vpaSel c /\ forall id, podView c' !! id =
    spec ← podsByID specs !! id; if tracks b c spec then Some (labelSetString (bp_PodLabels spec), bp_Phase spec) else podView c !! id).
Proof.
  intros Hs. unfold LoadPods. cbv zeta. set (pods := podsByID specs). assert (Hids : forall id s, pods !! id = Some s -> bp_ID s = id) by by apply podsByID_id.
  do 2 run_step. run_step. set (ids := (map_to_list (Pods c)).*1). eapply runs_mono.
  { apply (runs_forEach _ ids (fun rest c1 => NoDup rest /\ vpaSel c1 = vpaSel c /\
      forall id, podView c1 !! id = if decide (is_Some (pods !! id) \/ id ∈ rest) then podView c !! id else None)).
    - split_and!; [apply NoDup_fst_map_to_list|done|]. intros id. case_decide as Hd; [done|]. apply eq_None_not_Some. intros Hid. apply Hd. right.
      unfold podView in Hid. rewrite lookup_fmap, fmap_is_Some in Hid. destruct Hid as [p Hp]. unfold ids.
      apply list_elem_of_fmap. exists (id, p). split; [done|]. by apply elem_of_map_to_list.
    - intros id rest c1 (Hnd&HV1&HP1). apply NoDup_cons in Hnd as [Hni Hnd]. destruct (decide (is_Some (pods !! id))) as [Hk|Hk].
      + run_step. split_and!; [done..|]. intros i. rewrite HP1. in_cases i id rest.
      + eapply runs_mono; [apply DeletePod_runs; by rewrite HV1|]. intros ? c2 [HP2 HV2]. split_and!; [done|congruence|].
        intros i. rewrite HP2. destruct (decide (i = id)) as [->|Hne]; [by rewrite lookup_delete_eq, decide_False by tauto|].
        rewrite lookup_delete_ne, HP1 by done. in_cases i id rest. }
  intros ? c1 (_&HV1&HP1). cbn beta. eapply runs_mono.
  { apply (runs_forEach _ (map_to_list pods).*2 (fun rest c2 => NoDup (bp_ID <$> rest) /\ (forall s, s ∈ rest -> pods !! bp_ID s = Some s) /\
      vpaSel c2 = vpaSel c /\ forall id, podView c2 !! id = if decide (id ∈ bp_ID <$> rest) then podView c !! id else
        spec ← pods !! id; if tracks b c spec then Some (labelSetString (bp_PodLabels spec), bp_Phase spec) else podView c !! id)).
    - assert (E : bp_ID <$> (map_to_list pods).*2 = (map_to_list pods).*1).
      { rewrite <- list_fmap_compose. apply list_fmap_ext. intros k [id s] Hk%list_elem_of_lookup_2%elem_of_map_to_list. cbn. by apply Hids. }
      rewrite E. split_and!; [apply NoDup_fst_map_to_list| |done|].
      + intros s ([id s']&->&Hin%elem_of_map_to_list)%list_elem_of_fmap. cbn. by rewrite (Hids id s').
      + intros id. rewrite HP1. destruct (pods !! id) as [s|] eqn:Ep.
        * rewrite !decide_True; [done| |left; eauto]. apply list_elem_of_fmap. exists (id, s). split; [done|]. by apply elem_of_map_to_list.
        * rewrite !decide_False; [done| |intros [[? ?]|Hin]; [done|by apply not_elem_of_nil in Hin]].
          intros ([i s]&->&Hin%elem_of_map_to_list)%list_elem_of_fmap. cbn in *. congruence.
    - intros spec rest c2 (Hnd&Hin&HV2&HP2). cbn [fmap list_fmap] in Hnd. apply NoDup_cons in Hnd as [Hni Hnd].
      eapply runs_mono; [apply loadPod_runs; by rewrite HV2|]. intros ? c3 [HV3 HP3]. split_and!; [done|intros s Hs'; apply Hin; set_solver|congruence|].
      assert (Et : tracks b c2 spec = tracks b c spec) by (unfold tracks; destruct b; [by rewrite (matchesVPA_sel c c2)|done]).
      assert (Hspec : pods !! bp_ID spec = Some spec) by (apply Hin; set_solver). rewrite Et in HP3. intros i. rewrite HP3.
      destruct (decide (i = bp_ID spec)) as [->|Hne].
      + rewrite decide_False, Hspec by done. cbn. destruct (tracks b c spec); [by rewrite lookup_insert_eq|].
        rewrite HP2, decide_True; [done|]. cbn [fmap list_fmap]. set_solver.
      + transitivity (podView c2 !! i); [destruct (tracks b c spec); [by rewrite lookup_insert_ne|done]|]. rewrite HP2. cbn [fmap list_fmap].
        in_cases i (bp_ID spec) (bp_ID <$> rest). }
  intros ? c2 (_&_&HV2&HP2). split; [done|]. intros id. rewrite HP2. case_decide as Hd; [by apply not_elem_of_nil in Hd|done].
Qed.
End Views.
