(* ===== verification/RecommenderSpec.v ===== *)
(** * What a pass of the recommender keeps

    Every operation of the feeder, of the loop over the VPA objects and of the checkpoint
    writer keeps the links of the cluster model, and that every selector was fetched for a VPA object. *)
From S2P Require Import Prelude Api Float64 Histogram ContainerUsage AggregateState ClusterState ClusterSpec Estimator ClusterFeeder FeederSpec Recommender.
Local Open Scope Z_scope.

Section KeepsMore.
Context {S E : Type} (R : S -> S -> Prop) `{!PreOrder R}.

Lemma keeps_logged (m : stateM S E unit) : keeps R m -> keeps R (logged m).
Proof. intros Hm s. specialize (Hm s). unfold logged. destruct (m s) as [[]]; cbn in *; try done; intros _; by apply Hm. Qed.

Lemma keeps_modify f : (forall s, R s (f s)) -> keeps (E := E) R (modify f).
Proof. intros Hf s _. apply Hf. Qed.

(** A method with a look at the state first. *)
Lemma keeps_get_bind {A} (k : S -> stateM S E A) : (forall s, keeps R (k s)) -> keeps R (get ≫= k).
Proof. intros Hk. apply keeps_bind; [done|by apply keeps_get|done]. Qed.
End KeepsMore.

Lemma keeps_forEach_in {A} (R : ClusterState -> ClusterState -> Prop) `{!PreOrder R} (f : A -> stateM ClusterState modelError unit) l :
  Forall (fun a => keeps R (f a)) l -> keeps R (forEach f l).
Proof.
  unfold forEach. induction 1 as [|a l Ha Hl IH]; cbn; [by apply keeps_ret|]. apply keeps_bind; [done|done|by intros []].
Qed.

Lemma keeps_forEach {A} (R : ClusterState -> ClusterState -> Prop) `{!PreOrder R} (f : A -> stateM ClusterState modelError unit) l :
  (forall a, keeps R (f a)) -> keeps R (forEach f l).
Proof. intros Hf. apply keeps_forEach_in; [done|]. by apply Forall_true. Qed.

(** Kept by a part: a relation of the parts. *)
Lemma keeps_zoom {S T E E' A} (R : S -> S -> Prop) (R' : T -> T -> Prop) (g : T -> S) (st : S -> T -> T) (err : E -> E') (m : stateM S E A) :
  (forall t s, R (g t) s -> R' t (st s t)) -> keeps R m -> keeps R' (zoom g st err m).
Proof.
  intros Hst Hm t. specialize (Hm (g t)). unfold zoom. destruct (m (g t)) as [[a|e|] s]; cbn in *; intros Hp; [by apply Hst, Hm|by apply Hst, Hm|done].
Qed.

Section Keeps.
Context `{MathLib} `{Config} `{!LabelsString} `{Fetchers} `{!LabelsText} (now : Time).

(** ** Good links and fetched selectors *)

(** The labels that come from the API server and from the history have their syntax. *)
Definition plainPods (specs : list BasicPodSpec) : Prop := Forall (fun spec => plainLabels (bp_PodLabels spec)) specs.
Definition plainHistory (h : gmap PodID PodHistory) : Prop := map_Forall (fun _ history => plainLabels (LastLabels history)) h.

Definition selectorsFetched (m : gmap VpaID (option podSelector)) : Prop :=
  forall id s, m !! id = Some s -> exists o, s = Some (fst (getSelector o)).

Lemma fetched_ok m : selectorsFetched m -> selectorsOk m.
Proof. intros Hm id s Hs. destruct (Hm id s Hs) as [o ->]. eauto. Qed.

Definition good (c : ClusterState) : Prop := clusterOk c /\ selectorsFetched (vpaSel c).
Definition goodR (c c' : ClusterState) : Prop := good c -> good c'.
#[export] Instance goodR_preorder : PreOrder goodR.
Proof. split; [intros c Hc; exact Hc|]. intros c1 c2 c3 R1 R2 Hc. by apply R2, R1. Qed.

(** A method that keeps the links, and whose selectors are known when it starts from a good state. *)
Lemma lift_keeps {A} (m : stateM ClusterState modelError A) : keeps clusterR m ->
  (forall c, good c -> fst (m c) <> Panic -> selectorsFetched (vpaSel (snd (m c)))) -> keeps goodR m.
Proof. intros Hk Hs c Hp Hg. split; [apply Hk; [done|apply Hg]|by apply Hs]. Qed.

Lemma runs_state {A} (m : stateM ClusterState modelError A) c (P : ClusterState -> Prop) : runs m c (fun _ => P) -> P (snd (m c)).
Proof. intros (a&c'&E&HP). by rewrite E. Qed.

Lemma AddOrUpdatePod_good id labels phase : plainLabels labels -> keeps goodR (AddOrUpdatePod now id labels phase).
Proof.
  intros Hplain. apply lift_keeps; [by apply AddOrUpdatePod_keeps|]. intros c [_ Hs] _. apply runs_state.
  eapply runs_mono; [by apply AddOrUpdatePod_runs, fetched_ok|]. by intros ? c' [_ ->].
Qed.

Lemma DeletePod_good id : keeps goodR (DeletePod id).
Proof.
  apply lift_keeps; [apply DeletePod_keeps|]. intros c [_ Hs] _. apply runs_state. eapply runs_mono; [by apply DeletePod_runs, fetched_ok|]. by intros ? c' [_ ->].
Qed.

Lemma AddOrUpdateContainer_good id request : keeps goodR (logged (AddOrUpdateContainer now id request)).
Proof.
  apply lift_keeps; [apply keeps_logged, AddOrUpdateContainer_keeps|]. intros c [_ Hs] _. apply runs_state.
  eapply runs_mono; [apply AddOrUpdateContainer_runs|]. by intros ? c' [_ ->].
Qed.

Lemma AddOrUpdateVpa_good o x : keeps goodR (AddOrUpdateVpa now o (Some (fst (getSelector x)))).
Proof.
  apply lift_keeps; [apply AddOrUpdateVpa_keeps|]. intros c [_ Hs] _. apply runs_state. eapply runs_mono; [by apply AddOrUpdateVpa_runs, fetched_ok|].
  intros ? c' (_&s0&_&Hs0&->) i s. rewrite lookup_insert_Some. intros [[_ <-]|[_ Hi]]; [|by apply (Hs i)].
  destruct Hs0 as [->|Hs0]; [by exists x|by apply Hs in Hs0].
Qed.

Lemma DeleteVpa_good id : keeps goodR (DeleteVpa id).
Proof.
  apply lift_keeps; [apply DeleteVpa_keeps|]. intros c [_ Hs] _. destruct (Vpas c !! id) as [v|] eqn:Ev.
  - apply runs_state. eapply runs_mono; [apply DeleteVpa_runs; eauto|]. intros ? c' [_ ->] i x [_ Hx]%lookup_delete_Some. by apply (Hs i).
  - unfold DeleteVpa, mbind, stateM_bind, get. by rewrite Ev.
Qed.

Lemma grows_good c c' : grows c c' -> goodR c c'.
Proof. intros Hg [Hok Hs]. split; [by apply (grows_clusterOk c)|]. by rewrite (shapes_sel c c' (gr_shapes _ _ Hg)). Qed.

(** Passing a sample or an OOM event to a container. *)
Lemma onContainer_sel {A} id name pod ctr c (m : stateM (ContainerState aggregatorRef * ClusterState) modelError A) :
  Pods c !! id = Some pod -> pod_Containers pod !! name = Some ctr -> keeps containerGrows m -> clusterOk c ->
  fst (onContainer (id, name) ctr m c) <> Panic -> vpaSel (snd (onContainer (id, name) ctr m c)) = vpaSel c.
Proof.
  intros Hpod Hctr Hm Hok Hp. unfold onContainer in *. specialize (Hm (ctr, c)). destruct (m (ctr, c)) as [r [ctr' c']]. cbn [fst snd] in *.
  destruct (Hm Hp) as [_ Hg]. cbn [fst snd] in *. exact (shapes_sel c c' (gr_shapes _ _ (Hg (ok_links _ Hok)))).
Qed.

Lemma ClusterAddSample_good cid sample : keeps goodR (ClusterAddSample now cid sample).
Proof.
  apply lift_keeps; [apply ClusterAddSample_keeps|]. intros c [Hok Hs] Hp. destruct cid as [id name]. unfold ClusterAddSample in *.
  unfold mbind at 1, stateM_bind at 1, get in Hp. unfold mbind at 1, stateM_bind at 1, get. cbn [fst snd] in *.
  destruct (Pods c !! id) as [pod|] eqn:Epod; [|done]. destruct (pod_Containers pod !! name) as [ctr|] eqn:Ectr; [|done].
  pose proof (onContainer_sel id name pod ctr c _ Epod Ectr (ContainerAddSample_keeps now sample) Hok) as Hk.
  unfold mbind, stateM_bind in *. destruct (onContainer (id, name) ctr _ c) as [[b|e|] c1]; cbn [fst snd] in *; [|by rewrite Hk|done].
  specialize (Hk ltac:(done)). destruct b; (change (selectorsFetched (vpaSel c1)); rewrite Hk; done).
Qed.

Lemma ClusterRecordOOM_good cid t r : keeps goodR (ClusterRecordOOM now cid t r).
Proof.
  apply lift_keeps; [apply ClusterRecordOOM_keeps|]. intros c [Hok Hs] Hp. destruct cid as [id name]. unfold ClusterRecordOOM in *.
  unfold mbind at 1, stateM_bind at 1, get in Hp. unfold mbind at 1, stateM_bind at 1, get. cbn [fst snd] in *.
  destruct (Pods c !! id) as [pod|] eqn:Epod; [|done]. destruct (pod_Containers pod !! name) as [ctr|] eqn:Ectr; [|done].
  pose proof (onContainer_sel id name pod ctr c _ Epod Ectr (ContainerRecordOOM_keeps now t r) Hok) as Hk.
  unfold mbind, stateM_bind, caught in *. destruct (onContainer (id, name) ctr _ c) as [[[]|e|] c1]; cbn [fst snd] in *; [| |done];
    (change (selectorsFetched (vpaSel c1)); rewrite Hk; done).
Qed.

Lemma updateVpa_good c id v v' s : Vpas c !! id = Some v -> vpaShape v' = vpaShape v ->
  aggregateContainerStates v' = aggregateContainerStates v -> sameStates (states c) s ->
  goodR c (setVpas (<[id := v']> (Vpas c)) (setStates s c)).
Proof. intros. apply grows_good. by apply (replaceVpa_grows c id v). Qed.

Lemma GarbageCollect_good time : keeps goodR (GarbageCollectAggregateCollectionStates time).
Proof. intros c _. apply grows_good, deleteKeys_grows. Qed.

Lemma RecordRecommendation_good v time : keeps goodR (RecordRecommendation v time).
Proof.
  apply lift_keeps; [apply RecordRecommendation_keeps|]. intros c [_ Hs] _. unfold RecordRecommendation. destruct (HasRecommendation v); [done|].
  unfold mbind at 1, stateM_bind at 1, get. destruct (EmptyVPAs c !! vpa_ID v); [|done]. by destruct (_ <? _).
Qed.

(** ** VPA objects *)
Lemma onVpa_keeps id f : (forall v, vpaShape (f v) = vpaShape v /\ aggregateContainerStates (f v) = aggregateContainerStates v) ->
  keeps goodR (onVpa id f).
Proof.
  intros Hf c Hp Hok. unfold onVpa in *. destruct (Vpas c !! id) as [v|] eqn:Ev; [|done]. cbn [snd].
  destruct (Hf v) as [Hsh Ha]. change (setVpas ?x c) with (setVpas x (setStates (states c) c)).
  replace (setVpas _ c) with (setVpas (<[id := f v]> (Vpas c)) (setStates (states c) c)) by (by destruct c).
  by apply (updateVpa_good c id v).
Qed.

Lemma UpdateRecommendation_vpa r : keepsVpa (UpdateRecommendation r).
Proof.
  intros v s. unfold UpdateRecommendation. split_and!; [done..|]. cbn [snd]. revert s.
  induction r as [|x r IH]; intros s; cbn [foldl]; [done|]. intros l. rewrite (IH _ l). apply updateStates_same.
Qed.

Lemma onVpaStates_keeps id f : keepsVpa f -> keeps goodR (onVpaStates id f).
Proof.
  intros Hf c Hp Hok. unfold onVpaStates in *. destruct (Vpas c !! id) as [v|] eqn:Ev; [|done].
  destruct (Hf v (states c)) as (Hsh&Ha&Hs). destruct (f (v, states c)) as [v' s]. by apply (updateVpa_good c id v).
Qed.

Lemma setObserved_keeps l c : goodR c (setObserved l c).
Proof. intros [[[] ? ?] ?]. split; [constructor; [constructor|..]; assumption|done]. Qed.

Lemma addVpas_keeps l : forall keys, keeps goodR (addVpas now l keys).
Proof.
  induction l as [|x l IH]; intros keys; cbn [addVpas]; [by apply keeps_ret; apply _|].
  pose proof (AddOrUpdateVpa_good x x) as Hadd. destruct (getSelector x) as [sel conds].
  apply keeps_bind; [apply _|apply keeps_caught, Hadd|]. intros [e|]; [apply IH|].
  apply keeps_bind; [apply _| |intros []; apply IH]. apply keeps_forEach; [apply _|]. intros c. by apply onVpa_keeps.
Qed.

Lemma LoadVPAs_keeps l : keeps goodR (LoadVPAs now l).
Proof.
  destruct l as [l|]; cbn [LoadVPAs]; [|apply keeps_ret; apply _]. apply keeps_bind; [apply _|apply addVpas_keeps|]. intros keys.
  apply keeps_get_bind; [apply _|]. intros c. apply keeps_bind; [apply _| |].
  - apply keeps_forEach; [apply _|]. intros id. destruct (decide _); [apply keeps_ret; apply _|apply keeps_logged, DeleteVpa_good; apply _].
  - intros []. apply keeps_modify; apply setObserved_keeps.
Qed.

(** ** Pods and usage *)
Lemma loadPod_keeps b pod : plainLabels (bp_PodLabels pod) -> keeps goodR (loadPod now b pod).
Proof.
  intros Hplain. unfold loadPod. apply keeps_get_bind; [apply _|]. intros c. apply keeps_bind; [apply _| |].
  { destruct b; [|apply keeps_ret; apply _]. destruct (matchesVPA c pod); [apply keeps_ret|apply keeps_panic]; apply _. }
  intros []; [|apply keeps_ret; apply _]. apply keeps_bind; [apply _|by apply AddOrUpdatePod_good|]. intros [].
  apply keeps_forEach; [apply _|]. intros ct. apply AddOrUpdateContainer_good.
Qed.

Lemma podsByID_Forall (P : BasicPodSpec -> Prop) specs : Forall P specs -> Forall P (map_to_list (podsByID specs)).*2.
Proof.
  intros Hs. enough (Hm : map_Forall (fun _ => P) (podsByID specs)).
  { apply Forall_fmap, list.Forall_forall. intros [i s] Hin%elem_of_map_to_list. exact (Hm i s Hin). }
  unfold podsByID. assert (He : map_Forall (fun _ => P) (∅ : gmap PodID BasicPodSpec)) by apply map_Forall_empty. revert He.
  generalize (∅ : gmap PodID BasicPodSpec). induction Hs as [|s specs Hs _ IH]; intros m Hm; cbn; [done|]. apply IH. by apply map_Forall_insert_2.
Qed.

Lemma LoadPods_keeps b specs : plainPods specs -> keeps goodR (LoadPods now b specs).
Proof.
  intros Hplain. unfold LoadPods. cbv zeta. apply keeps_get_bind; [apply _|]. intros c. apply keeps_bind; [apply _| |intros []].
  - apply keeps_forEach; [apply _|]. intros id. destruct (decide _); [apply keeps_ret; apply _|apply DeletePod_good].
  - apply keeps_forEach_in; [apply _|]. eapply Forall_impl; [by apply podsByID_Forall|]. intros pod. apply loadPod_keeps.
Qed.

Lemma LoadRealTimeMetrics_keeps ms ooms : keeps goodR (LoadRealTimeMetrics now ms ooms).
Proof.
  unfold LoadRealTimeMetrics. apply keeps_bind; [apply _| |intros []]; (apply keeps_forEach; [apply _|]).
  - intros m. apply keeps_forEach; [apply _|]. intros [id s]. apply keeps_logged, ClusterAddSample_good.
  - intros o. apply keeps_logged, ClusterRecordOOM_good.
Qed.

(** ** The states by container name *)
Lemma mergeStates_same l : forall m s, fst (mergeStates now l (m, s)) <> Panic -> sameStates s (snd (snd (mergeStates now l (m, s)))).
Proof.
  induction l as [|[key x] l IH]; intros m s Hp; cbn [mergeStates] in *; [done|]. destruct (s !! x) as [a|] eqn:Ex; [|done].
  destruct (mergeInto now (key_containerName key) a m) as [[o|e|] m']; cbn in *; [|done|done].
  specialize (IH m' (<[x := o]> s) Hp). intros l'. rewrite (IH l'). by eapply insert_sameStates.
Qed.

Lemma AggregateState_keeps id : keeps goodR (AggregateStateByContainerName now id).
Proof.
  intros c Hp Hok. unfold AggregateStateByContainerName in *. destruct (Vpas c !! id) as [v|] eqn:Ev; [|done].
  pose proof (mergeStates_same (map_to_list (aggregateContainerStates v)) ∅ (states c)) as Hs.
  destruct (mergeStates _ _ _) as [[u|e|] [m s]]; cbn [fst snd] in *; [|by apply (grows_good c); [apply grows_states, Hs|]|done].
  destruct (mergeCheckpointed _ _ _) as [r [m' kept]]. cbn [fst snd] in *. apply (updateVpa_good c id v); try done. by apply Hs.
Qed.

Lemma GetContainerName_keeps id : keeps goodR (GetContainerNameToAggregateStateMap now id).
Proof.
  unfold GetContainerNameToAggregateStateMap. apply keeps_bind; [apply _|apply AggregateState_keeps|]. intros states.
  apply keeps_get_bind; [apply _|]. intros c. destruct (Vpas c !! id); [apply keeps_ret|apply keeps_panic]; apply _.
Qed.

(** ** Recommendations *)
Lemma recordMissing_keeps id : keeps goodR (recordMissing now id).
Proof.
  intros c Hp Hok. unfold recordMissing in *. destruct (Vpas c !! id) as [v|]; [|done].
  pose proof (RecordRecommendation_good v now c) as Hk. destruct (RecordRecommendation v now c) as [[u|e|] c']; cbn [fst snd] in *; [by apply Hk| |done].
  specialize (Hk ltac:(done) Hok). by destruct (GetMatchingPods c' v).
Qed.

Lemma updateVpa_keeps r o : keeps goodR (updateVpa now r o).
Proof.
  unfold updateVpa. cbv zeta. apply keeps_get_bind; [apply _|]. intros c. destruct (Vpas c !! _); [|apply keeps_ret; apply _].
  apply keeps_bind; [apply _|apply GetContainerName_keeps|]. intros st. destruct (GetRecommendedPodResources r st); [|apply keeps_panic; apply _].
  destruct (getCappedRecommendation _ _) as [rec|]; [|apply keeps_panic; apply _].
  apply keeps_bind; [apply _|apply onVpaStates_keeps, UpdateRecommendation_vpa|]. intros [].
  apply keeps_bind; [apply _|by apply onVpa_keeps|]. intros []. apply recordMissing_keeps.
Qed.

Lemma UpdateVPAs_keeps r : keeps goodR (UpdateVPAs now r).
Proof. unfold UpdateVPAs. apply keeps_get_bind; [apply _|]. intros c. apply keeps_forEach; [apply _|]. intros o. apply updateVpa_keeps. Qed.

(** ** Checkpoints *)
Lemma buildAggregate_keeps id : keeps goodR (buildAggregateContainerStateMap now id).
Proof.
  unfold buildAggregateContainerStateMap. apply keeps_bind; [apply _|apply AggregateState_keeps|]. intros st.
  apply keeps_get_bind; [apply _|]. intros c. destruct (Vpas c !! id); [|apply keeps_panic; apply _].
  destruct (subtractPeaks _ _ _ _) as [[] ?]; [apply keeps_ret|apply keeps_fail|apply keeps_panic]; apply _.
Qed.

Lemma storeVpas_keeps client vpas : forall expired n, keeps goodR (storeVpas now client vpas expired n).
Proof.
  induction vpas as [|[id v] vpas IH]; intros expired n; cbn [storeVpas]; [apply keeps_ret; apply _|].
  destruct (_ && _); [apply keeps_ret; apply _|]. apply keeps_bind; [apply _|apply buildAggregate_keeps|]. intros st.
  apply keeps_bind; [apply _| |intros []; apply IH]. apply keeps_forEach; [apply _|]. intros [name a]. unfold storeCheckpoint. cbn [snd].
  destruct (aggSaveToCheckpoint a), client; try (apply keeps_panic; apply _). by apply onVpa_keeps.
Qed.

Lemma setVpaCheckpoint_keeps ckpt : keeps goodR (setVpaCheckpoint now ckpt).
Proof.
  intros c Hp Hok. unfold setVpaCheckpoint in *. destruct (Vpas c !! _) as [v|]; [|done].
  destruct (aggLoadFromCheckpoint _ _) as [[] ?]; [|done..]. revert Hp Hok. by apply onVpa_keeps.
Qed.

Lemma listCheckpoints_keeps client ns : keeps goodR (listCheckpoints client ns).
Proof. destruct client as [f|]; cbn; [destruct (f ns); [apply keeps_ret|apply keeps_panic]|apply keeps_panic]; apply _. Qed.

Lemma orphanedCheckpoints_keeps client nss : keeps goodR (orphanedCheckpoints client nss).
Proof.
  induction nss as [|ns nss IH]; cbn [orphanedCheckpoints]; [apply keeps_ret; apply _|].
  apply keeps_bind; [apply _|apply listCheckpoints_keeps|]. intros items. apply keeps_get_bind; [apply _|]. intros c.
  apply keeps_bind; [apply _|apply IH|]. intros rest. apply keeps_ret; apply _.
Qed.

Lemma GarbageCollectCheckpoints_keeps l nss client : keeps goodR (GarbageCollectCheckpoints now l nss client).
Proof.
  unfold GarbageCollectCheckpoints. apply keeps_bind; [apply _|apply LoadVPAs_keeps|]. intros [].
  destruct nss; [apply orphanedCheckpoints_keeps|apply keeps_ret; apply _].
Qed.

Lemma InitFromCheckpoints_keeps l client : keeps goodR (InitFromCheckpoints now l client).
Proof.
  unfold InitFromCheckpoints. apply keeps_bind; [apply _|apply LoadVPAs_keeps|]. intros []. apply keeps_get_bind; [apply _|]. intros c.
  cbv zeta. apply keeps_forEach; [apply _|]. intros ns. apply keeps_bind; [apply _|apply listCheckpoints_keeps|]. intros items.
  apply keeps_forEach; [apply _|]. intros ckpt. apply keeps_logged, setVpaCheckpoint_keeps.
Qed.

Lemma InitFromHistory_keeps h : plainHistory h -> keeps goodR (InitFromHistoryProvider now h).
Proof.
  intros Hplain. unfold InitFromHistoryProvider. apply keeps_forEach_in; [apply _|]. apply list.Forall_forall.
  intros [id ph] Hin%elem_of_map_to_list%Hplain. apply keeps_bind; [apply _|by apply AddOrUpdatePod_good|].
  intros []. apply keeps_forEach; [apply _|]. intros [name l]. apply keeps_forEach; [apply _|]. intros s. apply keeps_logged, ClusterAddSample_good.
Qed.
End Keeps.

(** ** Passes *)
Section Passes.
Context `{MathLib} `{Config} `{!LabelsString} `{Fetchers} `{!LabelsText}.

Definition recommenderR (r r' : recommender) : Prop := goodR (clusterState r) (clusterState r').
#[export] Instance recommenderR_preorder : PreOrder recommenderR.
Proof. split; [intros r; unfold recommenderR; reflexivity|]. intros r1 r2 r3. unfold recommenderR. by etransitivity. Qed.

Lemma onCluster_keeps {A} (m : stateM ClusterState modelError A) : keeps goodR m -> keeps recommenderR (onCluster m).
Proof. apply keeps_zoom. by intros r c. Qed.

Lemma MaintainCheckpoints_keeps i : keeps recommenderR (MaintainCheckpoints i).
Proof.
  unfold MaintainCheckpoints. apply keeps_get_bind; [apply _|]. intros r. destruct (useCheckpoints r); [|apply keeps_ret; apply _].
  apply keeps_bind; [apply _| |intros b].
  { apply onCluster_keeps. unfold StoreCheckpoints. apply keeps_get_bind; [apply _|]. intros c. apply storeVpas_keeps. }
  destruct (_ <? _); [|apply keeps_ret; apply _]. apply keeps_bind; [apply _|apply keeps_modify; intros s; unfold recommenderR; reflexivity|intros []].
  apply keeps_bind; [apply _|apply onCluster_keeps, GarbageCollectCheckpoints_keeps|]. intros del. apply keeps_ret; apply _.
Qed.

Lemma GarbageCollectR_keeps i : keeps recommenderR (GarbageCollect i).
Proof.
  unfold GarbageCollect. apply keeps_get_bind; [apply _|]. intros r. destruct (_ <? _); [|apply keeps_ret; apply _].
  apply keeps_bind; [apply _|apply onCluster_keeps, GarbageCollect_good|]. intros []. apply keeps_modify; intros s; unfold recommenderR; reflexivity.
Qed.

Lemma RunOnce_keeps i : plainPods (in_Pods i) -> keeps recommenderR (RunOnce i).
Proof.
  intros Hplain. unfold RunOnce. apply keeps_get_bind; [apply _|]. intros r.
  apply keeps_bind; [apply _|apply onCluster_keeps, LoadVPAs_keeps|intros []].
  apply keeps_bind; [apply _|by apply onCluster_keeps, LoadPods_keeps|intros []].
  apply keeps_bind; [apply _|apply onCluster_keeps, LoadRealTimeMetrics_keeps|intros []].
  apply keeps_bind; [apply _|apply onCluster_keeps, UpdateVPAs_keeps|intros []].
  apply keeps_bind; [apply _|apply MaintainCheckpoints_keeps|intros []]. apply GarbageCollectR_keeps.
Qed.
End Passes.
