(* ===== verification/RecommenderTheorems.v ===== *)
(** * Properties of the recommender's passes

    Of the cluster model at any point of the recommender's life, of the passes that load
    VPA objects and pods, of garbage collection, and of the recommendations. *)
From stdpp Require Import pretty.
From S2P Require Import Prelude Api Float64 Float64Facts Histogram ContainerUsage ContainerSpec AggregateState ClusterState ClusterSpec Estimator ClusterFeeder FeederSpec Recommender RecommenderSpec.
Local Open Scope Z_scope.

Section Reachable.
Context `{MathLib} `{Config} `{!LabelsString} `{Fetchers}.

(** The states of a recommender: a fresh one, started from history or checkpoints, after
    any number of passes, over pods and history whose labels have the syntax of Kubernetes.
    A panic ends the program. *)
Inductive reachable : recommender -> Prop :=
  | reach_new r : clusterState r = NewClusterState -> reachable r
  | reach_history r now h : reachable r -> plainHistory h -> fst (onCluster (InitFromHistoryProvider now h) r) <> Panic ->
      reachable (snd (onCluster (InitFromHistoryProvider now h) r))
  | reach_checkpoints r now l client : reachable r -> fst (onCluster (InitFromCheckpoints now l client) r) <> Panic ->
      reachable (snd (onCluster (InitFromCheckpoints now l client) r))
  | reach_run r i : reachable r -> plainPods (in_Pods i) -> fst (RunOnce i r) <> Panic -> reachable (snd (RunOnce i r)).

Lemma good_new : good NewClusterState.
Proof.
  split; [constructor; [constructor|..]|]; unfold NewClusterState, refsOk, countsOk, labelKeys, vpaSel, selectorsFetched; cbn;
    intros *; rewrite ?fmap_empty, ?lookup_empty; try done; intros *; rewrite ?lookup_empty; by (done || intros []).
Qed.

Lemma reachable_good `{!LabelsText} r : reachable r -> good (clusterState r).
Proof.
  induction 1 as [r ->|r now h _ IH Hh Hp|r now l client _ IH Hp|r i _ IH Hi Hp].
  - apply good_new.
  - by apply (onCluster_keeps _ (InitFromHistory_keeps now h Hh) r Hp).
  - exact (onCluster_keeps _ (InitFromCheckpoints_keeps now l client) r Hp IH).
  - exact (RunOnce_keeps i Hi r Hp IH).
Qed.
End Reachable.

(** ** An example: two VPA objects, of which one has a policy, and three pods *)
Definition textLe (t t' : string) : Prop := String.leb t t' = true.
#[local] Instance textLe_dec : RelDecision textLe.
Proof. intros t t'. unfold textLe. apply _. Defined.

Definition exampleString : LabelsString := fun s =>
  String.concat "," (merge_sort textLe (labelItem <$> map_to_list s)).
#[local] Existing Instance exampleString.
#[local] Existing Instance exampleMath.
#[local] Existing Instance exampleConfig.

#[local] Instance exampleString_text : LabelsText.
Proof. intros s. eexists. split; [|reflexivity]. apply (merge_sort_Permutation textLe). Qed.

Definition appSelector (app : string) : podSelector :=
  {| ps_Selector := {| Matches s := bool_decide (s !! "app" = Some app); SelectorEmpty := false |}; ps_String := "app=" +:+ app |}.

Definition exampleFetchers : Fetchers := {|
  labels_Nothing := {| ps_Selector := {| Matches _ := false; SelectorEmpty := false |}; ps_String := "" |};
  Fetch o := (if decide (api_Name o = "broken") then None else Some (appSelector (api_Name o)), None);
  FindTopMostWellKnownOrScalable k := (Some k, None)
|}.
#[local] Existing Instance exampleFetchers.

Definition exampleVpa (name : string) (policy : option (ptr PodResourcePolicy)) : VerticalPodAutoscaler := {|
  api_Namespace := "ns"; api_Name := name; api_UpdatePolicy := None; api_ResourcePolicy := policy;
  api_Conditions := []; api_Recommendation := None |}.

Definition examplePolicy : ptr PodResourcePolicy := {| addr := 7; deref := {| ContainerPolicies := [] |} |}.

Definition examplePodSpec (name app : string) : BasicPodSpec := {|
  bp_ID := ("ns", name); bp_PodLabels := {["app" := app]};
  bp_Containers := [{| bc_ID := (("ns", name), "main"); bc_Image := "img"; bc_Request := {[ResourceCPU := 100]} |}];
  bp_Phase := "Running" |}.

Definition examplePass (now : Time) (usage : Z) : passInput := {|
  in_Now := now;
  in_Vpas := Some [exampleVpa "web" None; exampleVpa "db" (Some examplePolicy); exampleVpa "broken" None];
  in_Pods := [examplePodSpec "p1" "web"; examplePodSpec "p2" "web"; examplePodSpec "p3" "db"];
  in_Metrics := [{| cm_ID := (("ns", "p1"), "main"); cm_SnapshotTime := now; cm_SnapshotWindow := 10;
                    cm_Usage := {[ResourceCPU := usage]} |}];
  in_Ooms := []; in_Expired := []; in_VpasAgain := None; in_Namespaces := None |}.

Lemma examplePass_plain now usage : plainPods (in_Pods (examplePass now usage)).
Proof. unfold plainPods, plainLabels, plainText. apply (bool_decide_unpack _). vm_compute. exact I. Qed.

Definition exampleStart : recommender := NewRecommender 1000 false 100 false.
Definition exampleRun : recommender := snd (RunOnce (examplePass 1010 500) exampleStart).
Example exampleRun_ok : fst (RunOnce (examplePass 1010 500) exampleStart) = Ok tt.
Proof. vm_compute. reflexivity. Qed.
Lemma exampleRun_reachable : reachable exampleRun.
Proof. apply reach_run; [by apply reach_new|apply examplePass_plain|by rewrite exampleRun_ok]. Qed.

(** ** The links of the model *)

(** C8: At every point of the life of a recommender that sees only labels in the syntax of Kubernetes
    (neither an equals sign nor a comma) a VPA object uses exactly the
    aggregations of the cluster in its namespace whose labels its selector matches, each
    at the state that the cluster has for the key, and no two keys share a state. *)
Theorem vpas_use_exactly_the_matching_aggregations `{MathLib, Config, !LabelsString, Fetchers, !LabelsText} r :
  reachable r ->
  let c := clusterState r in
  (forall id v key l, Vpas c !! id = Some v ->
    aggregateContainerStates v !! key = Some l <->
    aggregateStateMap c !! key = Some l /\ fst id = key_namespace key /\
      exists s, PodSelector v = Some s /\ Matches (ps_Selector s) (keyLabels (labelSets c) key) = true) /\
  (forall k1 k2 l, aggregateStateMap c !! k1 = Some l -> aggregateStateMap c !! k2 = Some l -> k1 = k2) /\
  (forall key l, aggregateStateMap c !! key = Some l -> is_Some (states c !! l)).
Proof.
  intros Hr c. destruct (reachable_good r Hr) as [[Hl _ _] _]. fold c in Hl. split_and!; [|apply Hl|intros key l Hk; by apply (lk_keys _ Hl key)].
  intros id v key l Hv. rewrite (lk_links _ Hl id v) by done. unfold matchesAggregation. rewrite (lk_ids _ Hl id v Hv).
  destruct (decide _); [|naive_solver]. destruct (PodSelector v); naive_solver.
Qed.

Lemma vpas_use_exactly_the_matching_aggregations_witness :
  reachable exampleRun /\ size (aggregateStateMap (clusterState exampleRun)) = 2%nat /\
  forall id v key l, Vpas (clusterState exampleRun) !! id = Some v ->
    aggregateContainerStates v !! key = Some l -> aggregateStateMap (clusterState exampleRun) !! key = Some l.
Proof.
  split; [exact exampleRun_reachable|]. split; [vm_compute; reflexivity|]. intros id v key l Hv Hl.
  destruct (vpas_use_exactly_the_matching_aggregations exampleRun exampleRun_reachable) as [Hlinks _].
  apply (Hlinks id v key l Hv) in Hl as [Hl _]. exact Hl.
Defined.

(** The pod count that a VPA object keeps as pods come, go and change their labels is
    that of the pods that match it now: the disagreement that [UpdateVPAs] logs never
    happens. *)
Theorem pod_counts_agree_with_the_pods `{MathLib, Config, !LabelsString, Fetchers, !LabelsText} r id v :
  reachable r -> Vpas (clusterState r) !! id = Some v ->
  exists pods, GetMatchingPods (clusterState r) v = Some pods /\ PodCount v = wrap64 (Z.of_nat (length pods)).
Proof.
  intros Hr Hv. destruct (reachable_good r Hr) as [[Hl _ Hc] Hs].
  destruct (GetMatchingPods_some (clusterState r) v) as [pods Hpods].
  { apply (fetched_ok _ Hs id). unfold vpaSel. by rewrite lookup_fmap, Hv. }
  exists pods. split; [done|]. by rewrite (Hc id v Hv), (GetMatchingPods_count _ _ _ Hpods).
Qed.

Lemma pod_counts_agree_with_the_pods_witness :
  (PodCount <$> Vpas (clusterState exampleRun) !! ("ns", "web")) = Some 2 /\
  exists v pods, Vpas (clusterState exampleRun) !! ("ns", "web") = Some v /\
    GetMatchingPods (clusterState exampleRun) v = Some pods /\ PodCount v = wrap64 (Z.of_nat (length pods)).
Proof.
  split; [vm_compute; reflexivity|]. destruct (Vpas (clusterState exampleRun) !! ("ns", "web")) as [v|] eqn:Ev; [|vm_compute in Ev; discriminate].
  destruct (pod_counts_agree_with_the_pods exampleRun ("ns", "web") v exampleRun_reachable Ev) as (pods&E1&E2).
  exists v, pods. split; [reflexivity|]. split; [exact E1|exact E2].
Defined.

(** ** Loading *)

(** Loading the VPA objects never panics, and leaves in the model exactly those that
    are listed, each with the selector that was fetched for it (nothing, when its target
    is not valid); the others are gone, the pods are as before. *)
Theorem load_vpas_mirrors_the_list `{MathLib, Config, !LabelsString, Fetchers, !LabelsText} r now l :
  reachable r ->
  exists c', LoadVPAs now (Some l) (clusterState r) = (Ok tt, c') /\ ObservedVpas c' = l /\ podView c' = podView (clusterState r) /\
    (forall id, is_Some (Vpas c' !! id) <-> exists o, o ∈ l /\ crdID o = id) /\
    (forall id v, Vpas c' !! id = Some v -> exists o s, o ∈ l /\ crdID o = id /\
      PodSelector v = Some s /\ ps_String s = ps_String (fst (getSelector o))).
Proof.
  intros Hr. destruct (reachable_good r Hr) as [_ Hs]. destruct (LoadVPAs_runs now l _ (fetched_ok _ Hs)) as ([]&c'&E&HP&_&HN&HO).
  exists c'. split_and!; [done..| |].
  - intros id. rewrite <- dom_vpaNames, HN. apply listedNames_dom.
  - intros id v Hv. assert (Hn : vpaNames c' !! id = Some (ps_String <$> PodSelector v)).
    { unfold vpaNames, vpaSel. by rewrite !lookup_fmap, Hv. }
    rewrite HN in Hn. apply listedNames_value in Hn as (o&Ho&Hid&En); [|intros y; by rewrite lookup_empty].
    destruct (PodSelector v) as [s|]; [|done]. exists o, s. cbn in En. naive_solver.
Qed.

Lemma load_vpas_mirrors_the_list_witness :
  exists c', LoadVPAs 1020 (Some [exampleVpa "db" None]) (clusterState exampleRun) = (Ok tt, c') /\
    dom (Vpas c') = {[("ns", "db")]} /\ ObservedVpas c' = [exampleVpa "db" None].
Proof.
  destruct (load_vpas_mirrors_the_list exampleRun 1020 [exampleVpa "db" None] exampleRun_reachable) as (c'&E&HO&_&Hd&_).
  exists c'. split; [exact E|]. split; [|exact HO]. apply set_eq. intros id. rewrite elem_of_dom, Hd, elem_of_singleton. split.
  - intros (o&Ho&Hid). apply list_elem_of_singleton in Ho. subst o. symmetry. exact Hid.
  - intros Hid. exists (exampleVpa "db" None). split; [apply list_elem_of_singleton; reflexivity|symmetry; exact Hid].
Defined.

(** Loading the pods never panics and makes the pods of the model those of the
    specifications, the last one of an identifier, with their labels and phases; in memory
    saver mode a pod that no VPA object matches is left as it was. *)
Theorem load_pods_mirrors_the_specs `{MathLib, Config, !LabelsString, Fetchers, !LabelsText} r now b specs :
  reachable r -> let c := clusterState r in
  exists c', LoadPods now b specs c = (Ok tt, c') /\ vpaSel c' = vpaSel c /\
    forall id, podView c' !! id =
      spec ← podsByID specs !! id;
      if b && negb (default false (matchesVPA c spec)) then podView c !! id
      else Some (labelSetString (bp_PodLabels spec), bp_Phase spec).
Proof.
  intros Hr c. destruct (reachable_good r Hr) as [_ Hs]. destruct (LoadPods_runs now b specs _ (fetched_ok _ Hs)) as ([]&c'&E&HV&HP).
  exists c'. split_and!; [done..|]. intros id. rewrite HP. destruct (podsByID specs !! id) as [spec|]; [|done]. cbn.
  unfold tracks. destruct b; [|done]. cbn. by destruct (default false _).
Qed.

Lemma load_pods_mirrors_the_specs_witness :
  exists c', LoadPods 1020 true [examplePodSpec "p3" "web"; examplePodSpec "p4" "queue"] (clusterState exampleRun) = (Ok tt, c') /\
    (forall id, podView c' !! id = if decide (id = ("ns", "p3")) then Some (labelSetString {["app" := "web"]}, "Running") else None).
Proof.
  destruct (load_pods_mirrors_the_specs exampleRun 1020 true [examplePodSpec "p3" "web"; examplePodSpec "p4" "queue"] exampleRun_reachable)
    as (c'&E&_&HP). exists c'. split; [exact E|]. intros id. rewrite HP.
  change (podsByID _) with (<[("ns", "p4") := examplePodSpec "p4" "queue"]> {[("ns", "p3") := examplePodSpec "p3" "web"]} : gmap PodID BasicPodSpec).
  destruct (decide (id = ("ns", "p4"))) as [->|H4].
  - rewrite lookup_insert_eq. vm_compute. reflexivity.
  - rewrite lookup_insert_ne by congruence. destruct (decide (id = ("ns", "p3"))) as [->|H3].
    + rewrite lookup_singleton_eq. vm_compute. reflexivity.
    + rewrite lookup_singleton_ne by congruence. reflexivity.
Defined.

(** ** Garbage collection *)

(** No active pod has a container under [key]. *)
Definition inactive (c : ClusterState) (key : AggregateStateKey) : Prop := forall podID pod name,
  Pods c !! podID = Some pod -> isActivePod pod = true -> is_Some (pod_Containers pod !! name) ->
  MakeAggregateStateKey podID pod name <> key.

Lemma activeKeys_spec c key : key ∈ getActiveAggregateStateKeys c <-> exists podID pod name,
  Pods c !! podID = Some pod /\ isActivePod pod = true /\ is_Some (pod_Containers pod !! name) /\ MakeAggregateStateKey podID pod name = key.
Proof.
  unfold getActiveAggregateStateKeys. apply (map_fold_weak_ind (fun keys pods => key ∈ keys <-> exists podID pod name,
    pods !! podID = Some pod /\ isActivePod pod = true /\ is_Some (pod_Containers pod !! name) /\ MakeAggregateStateKey podID pod name = key)).
  - split; [by intros ?%not_elem_of_empty|]. intros (id&pod&name&Hp&_). by rewrite lookup_empty in Hp.
  - intros id pod pods keys Hid IH. destruct (isActivePod pod) eqn:Ea.
    + rewrite elem_of_union, elem_of_map, IH. split.
      * intros [(name&->&Hn%elem_of_dom)|(i&p&name&Hp&Hrest)]; [exists id, pod, name; by rewrite lookup_insert_eq|].
        exists i, p, name. rewrite lookup_insert_ne by (intros ->; congruence). done.
      * intros (i&p&name&Hp&Hact&Hn&Hk). apply lookup_insert_Some in Hp as [[<- <-]|[_ Hp]]; [left; exists name; by rewrite elem_of_dom|].
        right. by exists i, p, name.
    + rewrite IH. split; intros (i&p&name&Hp&Hact&Hrest).
      * exists i, p, name. rewrite lookup_insert_ne by (intros ->; congruence). done.
      * apply lookup_insert_Some in Hp as [[<- <-]|[_ Hp]]; [congruence|]. by exists i, p, name.
Qed.

Lemma isObsolete_spec `{MathLib, Config} c time key l a : states c !! l = Some a ->
  isObsolete c time key l = true <-> (inactive c key /\ isEmptyAggregate a = true) \/ isExpired a time = true.
Proof.
  intros Ha. unfold isObsolete. rewrite Ha, orb_true_iff, andb_true_iff, bool_decide_eq_true, activeKeys_spec. unfold inactive. naive_solver.
Qed.

Lemma keysToDelete_spec `{MathLib, Config} c time key l : aggregateStateMap c !! key = Some l ->
  key ∈ keysToDelete c time <-> isObsolete c time key l = true.
Proof.
  intros Hk. unfold keysToDelete. rewrite list_elem_of_fmap. split.
  - intros ([k l']&->&[Ho Hin%elem_of_map_to_list]%list_elem_of_filter). cbn in *. congruence.
  - intros Ho. exists (key, l). split; [done|]. apply list_elem_of_filter. split; [done|]. by apply elem_of_map_to_list.
Qed.

(** C10: At every point of the life of a recommender that sees only labels in the syntax of Kubernetes,
    garbage collection removes an aggregation from the cluster, and from every VPA
    object that uses it, exactly when no active pod contributes to it and it has no
    samples, or when it has expired; it removes no VPA object and no pod. *)
Theorem garbage_collection_removes_exactly_the_obsolete `{MathLib, Config, !LabelsString, Fetchers, !LabelsText} r time :
  reachable r -> let c := clusterState r in
  let kept key l := exists a, states c !! l = Some a /\ ~ ((inactive c key /\ isEmptyAggregate a = true) \/ isExpired a time = true) in
  runs (GarbageCollectAggregateCollectionStates time) c (fun _ c' =>
    Pods c' = Pods c /\
    (forall key l, aggregateStateMap c' !! key = Some l <-> aggregateStateMap c !! key = Some l /\ kept key l) /\
    forall id v, Vpas c !! id = Some v -> exists v', Vpas c' !! id = Some v' /\
      forall key l, aggregateContainerStates v' !! key = Some l <-> aggregateContainerStates v !! key = Some l /\ kept key l).
Proof.
  intros Hr c kept. destruct (reachable_good r Hr) as [[Hl _ _] _]. fold c in Hl. unfold GarbageCollectAggregateCollectionStates. run_step.
  assert (Hkept : forall key l, aggregateStateMap c !! key = Some l -> key ∉ keysToDelete c time <-> kept key l).
  { intros key l Hk. destruct (lk_keys _ Hl key l Hk) as [_ [a Ha]]. rewrite (keysToDelete_spec c time key l Hk), (isObsolete_spec c time key l a Ha).
    unfold kept. rewrite Ha. naive_solver. }
  destruct (deleteKeys_lookup (keysToDelete c time) c) as [Hm Hv]. cbv zeta in Hm, Hv.
  set (c' := foldl _ c _) in *. split_and!.
  - apply (gr_pods _ _ (deleteKeys_grows _ c)).
  - intros key l. rewrite Hm. case_decide as Hd; [naive_solver|]. specialize (Hkept key l). naive_solver.
  - intros id v Hid. specialize (Hv id). rewrite Hid in Hv. destruct (Vpas c' !! id) as [v'|]; [|done]. apply (inj Some) in Hv.
    exists v'. split; [done|]. intros key l. assert (Ha : aggregateContainerStates v' = filter (fun kl => kl.1 ∉ keysToDelete c time) (aggregateContainerStates v)) by congruence.
    rewrite Ha, map_lookup_filter_Some. cbn. split; intros [Hk Hd]; (split; [done|]); apply (Hkept key l); try done; by apply (lk_links _ Hl id v) in Hk as [Hk _].
Qed.

Lemma garbage_collection_removes_exactly_the_obsolete_witness :
  exists c', GarbageCollectAggregateCollectionStates 1850 (clusterState exampleRun) = (Ok tt, c') /\
    Pods c' = Pods (clusterState exampleRun) /\
    forall key l, aggregateStateMap c' !! key = Some l -> aggregateStateMap (clusterState exampleRun) !! key = Some l.
Proof.
  destruct (garbage_collection_removes_exactly_the_obsolete exampleRun 1850 exampleRun_reachable) as ([]&c'&E&HP&Hm&_).
  exists c'. split; [exact E|]. split; [exact HP|]. intros key l Hk. apply Hm in Hk as [Hk _]. exact Hk.
Defined.

(** ** Recommendations *)

(** A VPA object with a resource policy, whatever the policy says, is left without a
    recommendation by every pass: the policy is applied by dropping the recommendations of
    all containers, and the condition says that none is provided. *)
Theorem policy_drops_every_recommendation `{MathLib, Config, !LabelsString, Fetchers} now rec o p v c c' :
  Vpas c !! crdID o = Some v -> api_ResourcePolicy o = Some p ->
  updateVpa now rec o c = (Ok tt, c') ->
  exists v', Vpas c' !! crdID o = Some v' /\ vpa_Recommendation v' = Some [] /\
    ConditionActive (vpa_Conditions v') RecommendationProvided = false.
Proof.
  intros Hv Hp. unfold updateVpa. cbv zeta. unfold mbind at 1, stateM_bind at 1, get. rewrite Hv, Hp.
  unfold mbind at 1, stateM_bind at 1. destruct (GetContainerNameToAggregateStateMap now (crdID o) c) as [[st|e|] c1]; [|done..].
  destruct (GetRecommendedPodResources rec st) as [res|]; [|done]. cbn [getCappedRecommendation ApplyVPAPolicy].
  unfold mbind, stateM_bind, onVpaStates. destruct (Vpas c1 !! crdID o) as [v1|]; [|done]. unfold UpdateRecommendation. cbn [foldl].
  unfold onVpa. cbn [Vpas setVpas setStates]. rewrite lookup_insert_eq. rewrite insert_insert_eq.
  set (v2 := UpdateConditions _ _ _). unfold recordMissing. cbn [Vpas setVpas setStates]. rewrite lookup_insert_eq.
  assert (Hv2 : vpa_Recommendation v2 = Some [] /\ ConditionActive (vpa_Conditions v2) RecommendationProvided = false).
  { split; [done|]. unfold v2, UpdateConditions, ConditionActive. cbn [HasRecommendation vpa_Recommendation setRecommendation vpa_Conditions setConditions].
    unfold conditionsSet. by rewrite lookup_insert_eq. }
  set (c2 := setVpas _ _). assert (Hc2 : Vpas c2 !! crdID o = Some v2) by (unfold c2; cbn; by rewrite lookup_insert_eq).
  assert (Hrec : Vpas (snd (RecordRecommendation v2 now c2)) = Vpas c2).
  { unfold RecordRecommendation. destruct (HasRecommendation v2); [done|]. unfold mbind, stateM_bind, get. destruct (EmptyVPAs c2 !! _); [|done]. destruct (_ + _ <? _); reflexivity. }
  destruct (RecordRecommendation v2 now c2) as [[[]|e|] c3]; cbn [snd] in Hrec; [intros [= <-]| |done].
  - exists v2. by rewrite Hrec.
  - destruct (GetMatchingPods c3 v2); [|done]. intros [= <-]. exists v2. by rewrite Hrec.
Qed.

Lemma policy_drops_every_recommendation_witness :
  exists v c', Vpas (clusterState exampleRun) !! ("ns", "web") = Some v /\ HasRecommendation v = true /\
    updateVpa 1020 CreatePodResourceRecommender (exampleVpa "web" (Some examplePolicy)) (clusterState exampleRun) = (Ok tt, c') /\
    exists v', Vpas c' !! ("ns", "web") = Some v' /\ vpa_Recommendation v' = Some [] /\
      ConditionActive (vpa_Conditions v') RecommendationProvided = false.
Proof.
  destruct (Vpas (clusterState exampleRun) !! ("ns", "web")) as [v|] eqn:Ev; [|vm_compute in Ev; discriminate].
  assert (Hhas : (HasRecommendation <$> Vpas (clusterState exampleRun) !! ("ns", "web")) = Some true) by (vm_compute; reflexivity).
  rewrite Ev in Hhas. injection Hhas as Hhas.
  assert (Hok : fst (updateVpa 1020 CreatePodResourceRecommender (exampleVpa "web" (Some examplePolicy)) (clusterState exampleRun)) = Ok tt)
    by (vm_compute; reflexivity).
  destruct (updateVpa 1020 CreatePodResourceRecommender (exampleVpa "web" (Some examplePolicy)) (clusterState exampleRun)) as [res c'] eqn:E.
  cbn [fst] in Hok. subst res. exists v, c'. split; [reflexivity|]. split; [exact Hhas|]. split; [reflexivity|].
  exact (policy_drops_every_recommendation 1020 _ (exampleVpa "web" (Some examplePolicy)) examplePolicy v _ c' Ev eq_refl E).
Defined.
