(* ===== verification/TargetTheorems.v ===== *)
(** * The targets of VPA objects: the feeder with the fetcher of controllers

    The feeder (ClusterFeeder.v) asks for the topmost controller of a target, which the
    fetcher (ControllerFetcher.v) finds.  Here the first runs on the second: the interface
    [Fetchers] is implemented by the search, and what follows for the recommender is shown
    by the properties of its passes. *)
From S2P Require Import Prelude Api Float64 Histogram ContainerUsage ContainerSpec AggregateState ClusterState ClusterSpec ClusterFeeder FeederSpec Recommender RecommenderSpec RecommenderTheorems ControllerFetcher.
Local Open Scope Z_scope.

Section Targets.
(** The group of an API version, the state of the cluster that the fetcher sees, the selectors of the VPA objects. *)
Context (ParseGroupVersion : string -> string + string) (f : controllerFetcher) (fuel : nat).
Context (nothing : podSelector) (fetch : VerticalPodAutoscaler -> option podSelector * option string).

(** The method of the fetcher with its two results; more rounds than [fuel] count as nil. *)
Definition topMostResults (key : ControllerKeyWithAPIVersion) : option ControllerKeyWithAPIVersion * option string :=
  match FindTopMost ParseGroupVersion fuel f (Some key) with
  | Some (inr top) => (top, None)
  | Some (inl err) => (None, Some err)
  | None => (None, None)
  end.

Definition fetchersOf : Fetchers :=
  {| labels_Nothing := nothing; Fetch := fetch; FindTopMostWellKnownOrScalable := topMostResults |}.
#[local] Existing Instance fetchersOf.

(** No informer has the empty kind, the API server has no resource of it, and the selector that
    [labels.Nothing] returns matches no labels. *)
Context (Hinformers : informersMap f !! "" = None).
Context (Hmappings : forall group, exists err, RESTMappings f (group, "") = inl err).
Context (Hnothing : forall labels, Matches (ps_Selector nothing) labels = false).

(** A key without a kind has no parent and cannot be scaled. *)
Lemma keyWithoutKind_not_found key : ck_Kind key = "" -> (0 < fuel)%nat ->
  fst (topMostResults key) = None.
Proof using Hinformers Hmappings.
  intros Hkind Hfuel. destruct fuel as [|n] eqn:Hn; [lia|]. unfold topMostResults, FindTopMost. rewrite Hn. cbn [topMostLoop].
  assert (Hscalable : isWellKnownOrScalable ParseGroupVersion f key = false).
  { unfold isWellKnownOrScalable, isWellKnown, groupKind. rewrite Hkind, Hinformers. cbn.
    destruct (ParseGroupVersion _) as [err|group]; [done|]. by destruct (Hmappings group) as [err ->]. }
  rewrite Hscalable. unfold getParentOfController, groupKind. rewrite Hkind, Hinformers.
  destruct (ParseGroupVersion _) as [err|group]; [done|]. unfold getOwnerForScaleResource. cbn [snd].
  rewrite decide_False by discriminate. destruct (Hmappings group) as [err ->]. by destruct (IsNotFound err).
Qed.

Lemma every_target_is_refused vpa : (0 < fuel)%nat -> fst (validateTargetRef vpa) = false /\ fst (getSelector vpa) = nothing.
Proof using Hinformers Hmappings.
  intros Hfuel. assert (Hvalid : fst (validateTargetRef vpa) = false).
  { unfold validateTargetRef. cbn [FindTopMostWellKnownOrScalable fetchersOf].
    set (key := {| ck_Namespace := _; ck_Kind := _; ck_Name := _; ck_ApiVersion := _ |}).
    pose proof (keyWithoutKind_not_found key eq_refl Hfuel) as Hnone. destruct (topMostResults key) as [top [err|]]; cbn [fst] in Hnone.
    - by rewrite Hnone.
    - by rewrite Hnone. }
  split; [done|]. unfold getSelector. destruct (Fetch vpa) as [[selector|] err]; [|done].
  destruct (validateTargetRef vpa) as [valid cond]. cbn [fst] in Hvalid. by rewrite Hvalid.
Qed.

Lemma nothing_matches `{LabelsString} c v : PodSelector v = Some nothing -> GetMatchingPods c v = Some [].
Proof using Hnothing.
  intros Hsel. unfold GetMatchingPods. rewrite Hsel.
  assert (Hno : forall ns labels ns', PodLabelsMatchVPA ns labels ns' (Some nothing) = Some false).
  { intros. unfold PodLabelsMatchVPA. case_decide; [|done]. cbn. by rewrite Hnothing. }
  induction (map_to_list (Pods c)) as [|[id pod] l IH]; cbn [foldr]; [done|]. rewrite Hno, IH. done.
Qed.

(** C9: The key that the feeder passes to the fetcher has the namespace of the VPA object, but
    neither the kind nor the name of its target. So the fetcher finds no topmost controller,
    whatever the cluster is, and no target is ever valid: at every point of the
    recommender's life (with labels in the syntax of Kubernetes, and without an empty kind among the informers and the resources of the API
    server), every VPA object has the selector that matches nothing, it has no
    pods and no aggregation is linked to it. *)
Theorem no_vpa_object_ever_selects_a_pod `{MathLib, Config, !LabelsString, !LabelsText} r id v :
  (0 < fuel)%nat -> reachable r -> Vpas (clusterState r) !! id = Some v ->
  PodSelector v = Some nothing /\ aggregateContainerStates v = ∅ /\ GetMatchingPods (clusterState r) v = Some [] /\ PodCount v = 0.
Proof using Hinformers Hmappings Hnothing.
  intros Hfuel Hr Hv. destruct (reachable_good r Hr) as [[Hl _ Hc] Hs].
  assert (Hsel : PodSelector v = Some nothing).
  { destruct (Hs id (PodSelector v)) as [o Ho]; [unfold vpaSel; by rewrite lookup_fmap, Hv|].
    by rewrite Ho, (proj2 (every_target_is_refused o Hfuel)). }
  assert (Hpods : GetMatchingPods (clusterState r) v = Some []) by (apply nothing_matches; exact Hsel).
  split_and!; [done| |done|by rewrite (Hc id v Hv), <- (GetMatchingPods_count _ _ _ Hpods)].
  apply map_empty. intros key. apply eq_None_not_Some. intros [l Hkey]. apply (lk_links _ Hl id v key l Hv) in Hkey as [_ Hm].
  unfold matchesAggregation in Hm. rewrite Hsel in Hm. case_decide; [|done]. by rewrite Hnothing in Hm.
Qed.
End Targets.

(** ** Witness: a pass with pods that the fetched selectors match *)
#[local] Existing Instance exampleString.
#[local] Existing Instance exampleMath.
#[local] Existing Instance exampleConfig.
#[local] Existing Instance exampleString_text.

Definition exampleNothing : podSelector :=
  {| ps_Selector := {| Matches _ := false; SelectorEmpty := false |}; ps_String := "" |}.
Definition kindlessFetcher : controllerFetcher :=
  {| informersMap := informersMap exampleFetcher; RESTMappings _ := inl (otherError "no matches for kind");
     GetScale _ _ _ := inl (otherError "no scale") |}.
Definition targetFetchers : Fetchers :=
  fetchersOf inr kindlessFetcher 1 exampleNothing (fun o => (Some (appSelector (api_Name o)), None)).
Definition targetRun : recommender := snd (RunOnce (H2 := targetFetchers) (examplePass 1010 500) exampleStart).

Lemma no_vpa_object_ever_selects_a_pod_witness :
  size (Pods (clusterState targetRun)) = 3%nat /\
  exists v, Vpas (clusterState targetRun) !! ("ns", "web") = Some v /\
    GetMatchingPods (clusterState targetRun) v = Some [] /\ PodCount v = 0.
Proof.
  split; [vm_compute; reflexivity|].
  destruct (Vpas (clusterState targetRun) !! ("ns", "web")) as [v|] eqn:Ev; [|vm_compute in Ev; discriminate].
  exists v. split; [reflexivity|].
  refine (proj2 (proj2 (no_vpa_object_ever_selects_a_pod inr kindlessFetcher 1 exampleNothing _ _ _ _ targetRun ("ns", "web") v _ _ Ev))).
  - reflexivity.
  - intros group. exists (otherError "no matches for kind"). reflexivity.
  - intros labels. reflexivity.
  - apply le_n.
  - apply (reach_run (H2 := targetFetchers)); [apply reach_new; reflexivity|apply examplePass_plain|vm_compute; discriminate].
Defined.
