(* ===== verification/Autopilot.v ===== *)
(** * Recommendations for a recorded usage (recommender/auto/autopilot.go)

    The usage of the CPU, read from a file, is fed to one aggregated state at a fixed interval; after
    every sample the recommended target is written.  The files are arguments and results. *)
From S2P Require Import Prelude Api Float64 Float64Facts Histogram ContainerUsage ContainerSpec AggregateState ClusterSpec RecommenderSpec Estimator EstimatorTheorems.
Local Open Scope Z_scope.

Section Autopilot.
Context `{MathLib} `{Config}.
(** What [strconv.ParseFloat] makes of a field without the white space around it. *)
Context (ParseField : string -> string + float64).
(** The clock, the instant of [time.Unix(0, 0)] and the flag of the interval in seconds. *)
Context (now epoch : Time) (sampleSecondInterval : Z).

(** The fields of a row at the given columns; [None] is a panic of an index. *)
Fixpoint rowToFloats (row : list string) (columns : list nat) : option (string + list float64) :=
  match columns with
  | [] => Some (inr [])
  | colIndex :: columns =>
      field ← row !! colIndex;
      match ParseField field with
      | inl err => Some (inl err)
      | inr value => rest ← rowToFloats row columns; Some (match rest with inl err => inl err | inr values => inr (value :: values) end)
      end
  end.

Fixpoint rowsToFloats (rows : list (list string)) (columns : list nat) : option (string + list (list float64)) :=
  match rows with
  | [] => Some (inr [])
  | row :: rows =>
      values ← rowToFloats row columns;
      match values with
      | inl err => Some (inl err)
      | inr values => rest ← rowsToFloats rows columns; Some (match rest with inl err => inl err | inr table => inr (values :: table) end)
      end
  end.

(** The number of columns is that of the first row. *)
Definition stringValuesToFloats (stringValues : list (list string)) : option (string + list (list float64)) :=
  first ← stringValues !! 0%nat;
  rowsToFloats stringValues (seq 0 (length first)).

Definition ReadFromCsv (read : string + list (list string)) : option (string + list (list float64)) :=
  match read with
  | inl err => Some (inl err)
  | inr stringValues => stringValuesToFloats stringValues
  end.

(** A line that is written: the target and the usage. *)
Abbreviation line := (Quantity * float64)%type.

Definition cpuOf (list : ResourceList) : Quantity := default {| MilliValue := 0; Value := 0 |} (list !! ResourceCPU).

Definition sampleOf (timestamp : Time) (d : float64) : ContainerUsageSample :=
  {| MeasureStart := timestamp; Usage := CPUAmountFromCores d; Request := CPUAmountFromCores fone; Resource_field := ResourceCPU |}.

(** One sample and the lines that are written after it. *)
Definition recommendAfter (element : string) (timestamp : Time) (d : float64) (s : AggregateContainerState)
    : option (AggregateContainerState * list line) :=
  match aggAddSample (sampleOf timestamp d) s with
  | (Ok _, s) =>
      resources ← GetRecommendedPodResources CreatePodResourceRecommender {[element := s]};
      Some (s, (fun '(containerName, res) => (cpuOf (ResourcesAsResourceList (Target res)), d)) <$> map_to_list resources)
  | _ => None
  end.

Fixpoint recommendRows (element : string) (data : list (list float64)) (timestamp : Time) (s : AggregateContainerState) : option (list line) :=
  match data with
  | [] => Some []
  | row :: data =>
      usage ← row !! 1%nat;
      let d := fdiv usage (ofInt 100) in
      '(s, lines) ← recommendAfter element timestamp d s;
      rest ← recommendRows element data (timestamp + wrap64 (sampleSecondInterval * 1000000000)) s;
      Some (lines ++ rest)
  end.

(** When the file cannot be read, the data is empty. *)
Definition RunOnce (element : string) (csvfile : string + list (list string)) : option (list line) :=
  data ← ReadFromCsv csvfile;
  recommendRows element (match data with inl err => [] | inr data => data end) epoch (NewAggregateContainerState now).
End Autopilot.

(** ** The options of the histograms *)
Definition sameOptions (h h' : histogram) : Prop := options h' = options h.
#[export] Instance sameOptions_preorder : PreOrder sameOptions.
Proof. split; [done|]. unfold sameOptions. congruence. Qed.

Section Options.
Context `{MathLib}.

Lemma modify_options f : (forall h, options (f h) = options h) -> keeps (E := checkpointError) sameOptions (modify f).
Proof. intros Hf. by apply keeps_modify. Qed.

Lemma updateWeight_options b f : keeps sameOptions (updateWeight b f).
Proof.
  unfold updateWeight. apply keeps_bind; [apply _| |intros w; by apply modify_options].
  intros h. unfold readWeight. by destruct (weight h b).
Qed.

Lemma readWeight_options b : keeps sameOptions (readWeight b).
Proof. intros h. unfold readWeight. by destruct (weight h b). Qed.

Lemma raiseMin_options n : keeps sameOptions (raiseMin n).
Proof.
  induction n as [|n IH]; cbn [raiseMin]; [by apply keeps_ret; apply _|]. apply keeps_get_bind; [apply _|]. intros h.
  apply keeps_bind; [apply _|apply readWeight_options|]. intros w. destruct (_ && _); [|apply keeps_ret; apply _].
  apply keeps_bind; [apply _|by apply modify_options|by intros []].
Qed.

Lemma lowerMax_options n : keeps sameOptions (lowerMax n).
Proof.
  induction n as [|n IH]; cbn [lowerMax]; [by apply keeps_ret; apply _|]. apply keeps_get_bind; [apply _|]. intros h.
  apply keeps_bind; [apply _|apply readWeight_options|]. intros w. destruct (_ && _); [|apply keeps_ret; apply _].
  apply keeps_bind; [apply _|by apply modify_options|by intros []].
Qed.

Lemma scale_options factor : keeps sameOptions (scale factor).
Proof.
  unfold scale. destruct (flt factor fzero); [apply keeps_panic; apply _|]. apply keeps_get_bind; [apply _|]. intros h.
  apply keeps_bind; [apply _| |intros _].
  - unfold forBuckets. induction (seqZ _ _) as [|b l IH]; cbn [foldr]; [apply keeps_ret; apply _|].
    apply keeps_bind; [apply _|apply updateWeight_options|by intros _].
  - apply keeps_bind; [apply _|by apply modify_options|intros _]. unfold updateMinAndMaxBucket. apply keeps_get_bind; [apply _|]. intros h'.
    apply keeps_bind; [apply _|apply raiseMin_options|intros _; apply lowerMax_options].
Qed.

Lemma histAddSample_options value w : keeps sameOptions (histAddSample value w).
Proof.
  unfold histAddSample. destruct (flt w fzero); [apply keeps_panic; apply _|]. apply keeps_get_bind; [apply _|]. intros h. cbv zeta.
  apply keeps_bind; [apply _|apply updateWeight_options|intros _]. apply keeps_bind; [apply _|by apply modify_options|intros _].
  apply keeps_get_bind; [apply _|]. intros h'. apply keeps_bind; [apply _|apply readWeight_options|intros now].
  apply keeps_bind; [apply _| |intros _]; (destruct (_ && _); [by apply modify_options|apply keeps_ret; apply _]).
Qed.

Definition sameDecaying (d d' : decayingHistogram) : Prop := sameOptions (hist d) (hist d').
#[export] Instance sameDecaying_preorder : PreOrder sameDecaying.
Proof. split; [done|]. unfold sameDecaying, sameOptions. congruence. Qed.

Lemma onHist_options {A} (m : method A) : keeps sameOptions m -> keeps sameDecaying (onHist m).
Proof. intros Hm d. specialize (Hm (hist d)). unfold onHist. by destruct (m (hist d)) as [r h]. Qed.

Lemma AddSample_options value w time : keeps sameDecaying (AddSample value w time).
Proof.
  unfold AddSample, decayFactor. apply keeps_bind; [apply _| |intros factor; apply onHist_options, histAddSample_options].
  apply keeps_get_bind; [apply _|]. intros d. apply keeps_bind; [apply _| |].
  - destruct (_ <? _); [|apply keeps_ret; apply _]. unfold shiftReferenceTimestamp. apply keeps_get_bind; [apply _|]. intros d'. cbv zeta.
    apply keeps_bind; [apply _|apply onHist_options, scale_options|intros _]. by intros d'' _.
  - intros _. apply keeps_get_bind; [apply _|]. intros d'. apply keeps_ret; apply _.
Qed.

Lemma aggAddSample_floats sample s s' : aggAddSample sample s = (Ok tt, s') -> stateFloats s -> stateFloats s'.
Proof.
  assert (Hkeep : keeps (fun a a' => stateFloats a -> stateFloats a') (aggAddSample sample)).
  { assert (HP : PreOrder (fun a a' => stateFloats a -> stateFloats a')) by (split; intros ?; auto).
    unfold aggAddSample, aggAddCPUSample, onCPU, onMemory. cbv zeta.
    destruct (decide (Resource_field sample = ResourceCPU)); [|destruct (decide (Resource_field sample = ResourceMemory)); [|by apply keeps_panic]].
    - apply keeps_bind; [done| |by intros _; apply keeps_modify].
      apply (keeps_zoom sameDecaying); [|apply AddSample_options]. intros a d Hd [H1 H2]. split; [|exact H2].
      unfold sameDecaying, sameOptions in Hd. cbn. by rewrite Hd.
    - apply (keeps_zoom sameDecaying); [|apply AddSample_options]. intros a d Hd [H1 H2]. split; [exact H1|].
      unfold sameDecaying, sameOptions in Hd. cbn. by rewrite Hd. }
  intros E. specialize (Hkeep s). rewrite E in Hkeep. by apply Hkeep.
Qed.
End Options.

(** ** The lines *)
Lemma asResourceList_cpu (r : Resources) : ResourcesAsResourceList r !! ResourceCPU = QuantityFromCPUAmount <$> r !! ResourceCPU.
Proof.
  unfold ResourcesAsResourceList. apply (map_fold_weak_ind (fun (l : ResourceList) (m : Resources) => l !! ResourceCPU = QuantityFromCPUAmount <$> m !! ResourceCPU)).
  - by rewrite !lookup_empty.
  - intros key amount m l Hm Hl. destruct (decide (key = ResourceCPU)) as [->|Hne]; [by rewrite !lookup_insert_eq|].
    rewrite (lookup_insert_ne m) by done. destruct (decide (key = ResourceMemory)); [|done]. by rewrite lookup_insert_ne.
Qed.

Lemma target_bounds `{MathLib} `{Config} element a recs : (forall x y, valid (math_Pow x y)) -> wrap64 (int_out_of_range fnan) <= 0 -> stateFloats a ->
  GetRecommendedPodResources CreatePodResourceRecommender {[element := a]} = Some recs ->
  exists rec, map_to_list recs = [(element, rec)] /\ 0 <= MilliValue (cpuOf (ResourcesAsResourceList (Target rec))) <= 2 * MaxResourceAmount.
Proof.
  intros Hpow Hnan Ha. unfold GetRecommendedPodResources. rewrite bool_decide_eq_false_2 by apply map_non_empty_singleton. cbv zeta.
  rewrite map_to_list_singleton, map_size_singleton. cbn [mapM].
  destruct (estimateContainerResources _ a) as [rec|] eqn:Erec; [|done]. cbn. intros [= <-]. exists rec.
  split; [by rewrite insert_empty, map_to_list_singleton|]. unfold cpuOf. rewrite asResourceList_cpu.
  destruct (Target rec !! ResourceCPU) as [x|] eqn:Ex; cbn; [|unfold MaxResourceAmount; lia].
  by apply (estimate_bounds Hpow Hnan 1 a rec ltac:(lia) Ha Erec ResourceCPU x).
Qed.

(** A run that does not panic writes one line for every row of the file, in which the
    target is a CPU amount between zero and twice the greatest amount, whatever the usage is. *)
Theorem autopilot_writes_a_bounded_target_per_row `{MathLib} `{Config} ParseField now epoch interval element csvfile lines :
  (forall x y, valid (math_Pow x y)) -> wrap64 (int_out_of_range fnan) <= 0 -> stateFloats (NewAggregateContainerState now) ->
  RunOnce ParseField now epoch interval element csvfile = Some lines ->
  length lines = match ReadFromCsv ParseField csvfile with Some (inr data) => length data | _ => 0%nat end /\
  Forall (fun '(target, d) => 0 <= MilliValue target <= 2 * MaxResourceAmount) lines.
Proof.
  intros Hpow Hnan Hfloats. unfold RunOnce. destruct (ReadFromCsv ParseField csvfile) as [data|]; [|done]. cbn [mbind option_bind].
  assert (Hrows : forall data timestamp s lines, stateFloats s -> recommendRows interval element data timestamp s = Some lines ->
    length lines = length data /\ Forall (fun '(target, d) => 0 <= MilliValue target <= 2 * MaxResourceAmount) lines).
  { clear lines. intros rows. induction rows as [|row rows IH]; intros timestamp s lines Hs; cbn [recommendRows]; [by intros [= <-]|].
    destruct (row !! 1%nat) as [usage|]; [|done]. cbn [mbind option_bind]. cbv zeta.
    destruct (recommendAfter element timestamp _ s) as [[s' ls]|] eqn:E; [|done]. cbn [mbind option_bind].
    destruct (recommendRows interval element rows _ s') as [rest|] eqn:Er; [|done]. cbn [mbind option_bind]. intros [= <-].
    unfold recommendAfter in E. destruct (aggAddSample _ s) as [[[]|e|] s1] eqn:Eadd; [|done..].
    pose proof (aggAddSample_floats _ _ _ Eadd Hs) as Hs1.
    destruct (GetRecommendedPodResources _ _) as [recs|] eqn:Erecs; [|done]. injection E as <- <-.
    destruct (target_bounds element s1 recs Hpow Hnan Hs1 Erecs) as (rec&->&Hb). destruct (IH _ _ _ Hs1 Er) as [Hlen Hall].
    cbn. split; [by rewrite Hlen|]. by constructor. }
  intros Hl. destruct data as [err|data]; [injection Hl as <-; split; [done|constructor]|]. by eapply Hrows.
Qed.
