(* ===== verification/QLearning.v ===== *)
(** * Scaling by Q-learning (learn/qlearning.go, profil/profil.go, app/ctl/mainQl.go)

    The agent keeps, for every state of an application that it has seen, a value of each of three
    actions: one instance more, none, one instance less.  One round of the control loop rewards the
    last action, classifies what the database reports and chooses the next action.  The random
    numbers and the answers of the database are arguments. *)
From stdpp Require Import pretty.
From S2P Require Import Prelude Float64.
Local Open Scope Z_scope.

Record State := { CPUH : bool; MemH : bool; RpsH : Z; RtimeH : bool; R5xxH : bool; Replicas : Z }.
Record Action := { Plus : Z; Stay : Z; Minus : Z }.

#[export] Instance State_eq : EqDecision State.
Proof. solve_decision. Defined.

Record QLearn := { Gamma : float64; Epsilon : float64; States : gmap string Action; CurrentState : State }.

Definition setStates (m : gmap string Action) (q : QLearn) : QLearn :=
  {| Gamma := Gamma q; Epsilon := Epsilon q; States := m; CurrentState := CurrentState q |}.
Definition setCurrent (c : State) (q : QLearn) : QLearn :=
  {| Gamma := Gamma q; Epsilon := Epsilon q; States := States q; CurrentState := c |}.

(** [fmt.Sprint] puts spaces between operands that are not strings. *)
Definition showBool (b : bool) : string := if b then "true" else "false".
Definition toKey (c : State) : string :=
  String.concat " " [showBool (CPUH c); showBool (MemH c); pretty (RpsH c); showBool (RtimeH c); showBool (R5xxH c); pretty (Replicas c)].

(** A map from the names of metrics to integers, nil or not; a missing metric is zero. *)
Abbreviation metricMap := (gmap string Z).
Definition metricOf (m : metricMap) (name : string) : Z := default 0 (m !! name).

Section QLearn.
Context `{MathLib}.

Definition noAction : Action := {| Plus := 0; Stay := 0; Minus := 0 |}.
Definition actionOf (q : QLearn) (state : State) : Action := default noAction (States q !! toKey state).

Definition greatest (action : Action) : float64 := fmax (ofInt (Plus action)) (fmax (ofInt (Stay action)) (ofInt (Minus action))).

(** [prob] is the answer of [Float64], [exploration] that of [Intn(3)]. *)
Definition ChooseAction (q : QLearn) (prob : float64) (exploration : Z) : Z :=
  if flt prob (Epsilon q) then exploration - 1
  else
    let action := actionOf q (CurrentState q) in
    let maxR := toInt (greatest action) in
    if decide (Stay action = maxR) then 0
    else if decide (Plus action = maxR) then 1
    else -1.

Definition MaximumOp (q : QLearn) (state : State) : Z := toInt (greatest (actionOf q state)).

(** ** Rewards *)
Definition goalReward (c : State) : Z :=
  if (0 <? RpsH c) && (1 <? Replicas c) then (if CPUH c then 0 else 30) + (if MemH c then 0 else 30) else 0.

Definition costOf (usage : Z) : Z := wrap64 (Z.quot usage 10 * 3).

(** What the current state is worth. *)
Definition stateReward (c : State) (nowStatus : metricMap) : Z :=
  let reward := goalReward c in
  let reward := if CPUH c then wrap64 (reward - costOf (metricOf nowStatus "cpu")) else reward in
  let reward := if MemH c then wrap64 (reward - costOf (metricOf nowStatus "mem")) else reward in
  let reward := wrap64 (reward + wrap64 (RpsH c * 15)) in
  let reward := wrap64 (if RtimeH c then reward - 5 else reward + 5) in
  wrap64 (reward - wrap64 (wrap64 (Replicas c - 1) * 15)).

Definition actionReward (state : State) (action reward : Z) : Z :=
  let reward :=
    if decide (action = 1) then wrap64 (reward - 2)
    else if decide (action = 0) then wrap64 (reward + 2)
    else if decide (action = -1) then wrap64 (reward + 3)
    else reward in
  if decide (action = -1 /\ Replicas state = 1) then wrap64 (reward - 100) else reward.

Definition withValue (action reward : Z) (qAction : Action) : Action :=
  if decide (action = 1) then {| Plus := reward; Stay := Stay qAction; Minus := Minus qAction |}
  else if decide (action = -1) then {| Plus := Plus qAction; Stay := Stay qAction; Minus := reward |}
  else {| Plus := Plus qAction; Stay := reward; Minus := Minus qAction |}.

Definition Reward (q : QLearn) (state : State) (action : Z) (nowStatus : metricMap) : Z * QLearn :=
  let reward := actionReward state action (stateReward (CurrentState q) nowStatus) in
  let reward := wrap64 (reward + toInt (fmul (Gamma q) (ofInt (MaximumOp q state)))) in
  (reward, setStates (<[toKey state := withValue action reward (actionOf q state)]> (States q)) q).

(** ** States *)
Definition Init (q : QLearn) : QLearn :=
  {| Gamma := Gamma q; Epsilon := Epsilon q; States := ∅;
     CurrentState := {| CPUH := false; MemH := false; RpsH := 0; RtimeH := false; R5xxH := false; Replicas := 1 |} |}.

Definition classify (cpu mem rps rtime r5xx replicas : Z) : State :=
  {| CPUH := 70 <? cpu; MemH := 70 <? mem; RpsH := Z.quot rps 100; RtimeH := 5 <? rtime; R5xxH := 10 <? r5xx; Replicas := replicas |}.

Definition SetCurrentState (q : QLearn) (cpu mem rps rtime r5xx replicas : Z) : QLearn :=
  let q := setCurrent (classify cpu mem rps rtime r5xx replicas) q in
  match States q !! toKey (CurrentState q) with
  | Some _ => q
  | None => setStates (<[toKey (CurrentState q) := noAction]> (States q)) q
  end.

(** [ReadFile] and [json.Unmarshal], which may change the agent also when it fails. *)
Definition Load (ReadFile : string -> string + string) (Unmarshal : string -> QLearn -> QLearn * option string) (path : string)
    (q : QLearn) : QLearn * option string :=
  match ReadFile path with
  | inl err => (q, Some err)
  | inr dat => Unmarshal dat q
  end.

(** ** What the database reports (profil/profil.go)

    The results of a query: for each the series with their columns and printed values. *)
Record series := { Columns : list string; Values : list (list string) }.

Section Profile.
Context (QueryDB : string -> string + list (list series)).
(** [strconv.ParseFloat(s, 32)], whose error is dropped. *)
Context (ParseFloat : string -> float64).

Definition selectLast (aggregate region instanceId timeLength : string) : string :=
  String.concat "" ["SELECT "; aggregate; " FROM "; region; " WHERE app =~ /"; instanceId; "/ AND time > now() - "; timeLength].

Definition lastAggregate : string :=
  "mean(cpu) as cpu,mean(memory) as memory,mean(rps) as rps,mean(rtime) as rtime,stddev(r2xx) as r2xx,stddev(r5xx) as r5xx,last(replicas) as replicas".

(** The columns from the second to the eighth with the values of the first row, as [convert] has them; [None] is a panic. *)
Definition firstRow {A} (convert : string -> A) (dbResult : list (list series)) : option (gmap string A) :=
  result ← dbResult !! 0%nat;
  serie ← result !! 0%nat;
  row ← Values serie !! 0%nat;
  foldl (fun res i => m ← res; value ← row !! i; column ← Columns serie !! i; Some (<[column := convert value]> m)) (Some ∅) (seq 1 7).

Definition GetProfilLast (region instanceId timeLength : string) : option metricMap :=
  match QueryDB (selectLast lastAggregate region instanceId timeLength) with
  | inl err => Some ∅
  | inr dbResult => firstRow (fun value => toInt (ParseFloat value)) dbResult
  end.
End Profile.

(** ** The control loop (app/ctl/mainQl.go) *)
Record controller := { agent : QLearn; firstRun : bool; lastState : State; lastAction : Z }.

(** What a round is given: the number of instances, the metrics and the random numbers. *)
Record observation := { obs_replicas : Z; obs_metrics : metricMap; obs_prob : float64; obs_exploration : Z }.

Definition zeroState : State := {| CPUH := false; MemH := false; RpsH := 0; RtimeH := false; R5xxH := false; Replicas := 0 |}.

(** The discount of the command. *)
Definition commandGamma : float64 := fdiv (ofInt 3) (ofInt 10).

(** The agent of the command: a new one, with what could be loaded and without exploration. *)
Definition startController (load : QLearn -> QLearn * option string) : controller :=
  let q := fst (load (Init {| Gamma := commandGamma; Epsilon := fzero; States := ∅; CurrentState := zeroState |})) in
  {| agent := {| Gamma := Gamma q; Epsilon := fzero; States := States q; CurrentState := CurrentState q |};
     firstRun := true; lastState := zeroState; lastAction := 0 |}.

Definition controlStep (c : controller) (o : observation) : controller :=
  let res := obs_metrics o in
  let q := if firstRun c then agent c else snd (Reward (agent c) (lastState c) (lastAction c) res) in
  let q := SetCurrentState q (metricOf res "cpu") (metricOf res "memory") (metricOf res "rps") (metricOf res "rtime")
             (metricOf res "r5xx") (obs_replicas o) in
  let action := ChooseAction q (obs_prob o) (obs_exploration o) in
  {| agent := q; firstRun := false; lastState := CurrentState q; lastAction := action |}.

(** The body of the loop for one instance: only one application is controlled. *)
Definition controlInstance (instanceId : string) (c : controller) (o : observation) : controller :=
  if decide (instanceId = "eight-puzzle") then controlStep c o else c.
End QLearn.
