(* ===== verification/QLearningTheorems.v ===== *)
(** * Properties of the agent that scales by Q-learning

    The table by the texts of the states is a table by the states; a greedy choice is a
    best one; and the values of a discounted agent stay bounded in every run. *)
From Stdlib Require Import Ascii.
From stdpp Require Import pretty.
From S2P Require Import Prelude Float64 Float64Facts QLearning.
Local Open Scope Z_scope.

(** ** The keys of states *)
Fixpoint spaceFree (s : string) : bool :=
  match s with
  | EmptyString => true
  | String c s => bool_decide (c <> " "%char) && spaceFree s
  end.

Lemma spaceFree_split s t u v : spaceFree s = true -> spaceFree t = true ->
  (s +:+ " " +:+ u = t +:+ " " +:+ v)%string -> s = t /\ u = v.
Proof.
  revert t. induction s as [|c s IH]; intros [|d t] Hs Ht; cbn in Hs, Ht; cbn [String.append]; intros [= E].
  - done.
  - subst d. done.
  - subst c. done.
  - apply andb_prop in Hs as [_ Hs], Ht as [_ Ht]. subst d. rename select (_ = _) into E. by destruct (IH t Hs Ht E) as [-> ->].
Qed.

Lemma spaceFree_app s t : spaceFree (s +:+ t)%string = spaceFree s && spaceFree t.
Proof. induction s as [|c s IH]; [done|]. cbn [spaceFree String.append]. by rewrite <- andb_assoc, <- IH. Qed.

Lemma pretty_N_go_spaceFree x : forall s, spaceFree s = true -> spaceFree (pretty_N_go x s) = true.
Proof.
  induction (N.lt_wf_0 x) as [x _ IH]; intros s Hs. destruct (decide (x = 0)%N) as [->|Hx]; [by rewrite pretty_N_go_0|].
  rewrite pretty_N_go_step by lia. apply IH; [by apply N.div_lt; lia|]. cbn. rewrite Hs, andb_true_r.
  unfold pretty_N_char. by repeat case_match.
Qed.

Lemma pretty_Z_spaceFree (z : Z) : spaceFree (pretty z) = true.
Proof.
  assert (HN : forall n : N, spaceFree (pretty n) = true).
  { intros n. unfold pretty, pretty_N. case_decide; [done|]. by apply pretty_N_go_spaceFree. }
  destruct z as [|p|p]; [done|apply (HN (N.pos p))|]. change (pretty (Z.neg p)) with ("-" +:+ pretty (N.pos p))%string.
  rewrite spaceFree_app, HN. done.
Qed.

Lemma showBool_spaceFree b : spaceFree (showBool b) = true.
Proof. by destruct b. Qed.

#[export] Instance showBool_inj : Inj (=) (=) showBool.
Proof. by intros [] []. Qed.

#[export] Instance toKey_inj : Inj (=) (=) toKey.
Proof.
  intros [c1 m1 r1 t1 x1 n1] [c2 m2 r2 t2 x2 n2]. unfold toKey. cbn [CPUH MemH RpsH RtimeH R5xxH Replicas String.concat]. intros E.
  apply spaceFree_split in E as [->%(inj showBool) E]; [|apply showBool_spaceFree..].
  apply spaceFree_split in E as [->%(inj showBool) E]; [|apply showBool_spaceFree..].
  apply spaceFree_split in E as [->%(inj pretty) E]; [|apply pretty_Z_spaceFree..].
  apply spaceFree_split in E as [->%(inj showBool) E]; [|apply showBool_spaceFree..].
  apply spaceFree_split in E as [->%(inj showBool) E]; [|apply showBool_spaceFree..].
  by apply (inj pretty) in E as ->.
Qed.

(** ** The table of values *)
Definition valueIn (a : Action) (action : Z) : Z :=
  if decide (action = 1) then Plus a else if decide (action = -1) then Minus a else Stay a.
Definition valueOf (q : QLearn) (state : State) : Z -> Z := valueIn (actionOf q state).

(** Every number but 1 and -1 stands for staying. *)
Definition slot (action : Z) : Z := if decide (action = 1 \/ action = -1) then action else 0.

Lemma valueIn_withValue action reward a action' :
  valueIn (withValue action reward a) action' = if decide (slot action' = slot action) then reward else valueIn a action'.
Proof.
  unfold valueIn, withValue, slot. destruct (decide (action = 1)), (decide (action = -1)), (decide (action' = 1)), (decide (action' = -1));
    subst; repeat case_decide; cbn; done || lia || (exfalso; naive_solver lia).
Qed.

Lemma Reward_values `{MathLib} q state action nowStatus state' action' :
  let '(reward, q') := Reward q state action nowStatus in
  valueOf q' state' action' = (if decide (state' = state /\ slot action' = slot action) then reward else valueOf q state' action') /\ Gamma q' = Gamma q.
Proof.
  unfold Reward. cbv zeta. split; [|done]. unfold valueOf, actionOf at 1. cbn [States setStates]. destruct (decide (state' = state)) as [->|Hne].
  - rewrite lookup_insert_eq. cbn [from_option id]. rewrite valueIn_withValue. unfold actionOf.
    destruct (decide (slot action' = slot action)); [rewrite decide_True by done|rewrite decide_False by naive_solver]; done.
  - rewrite lookup_insert_ne by (by intros E%(inj toKey)). rewrite decide_False by naive_solver. done.
Qed.

(** A reward changes the value of one action in one state, that of the last
    action in the state it was taken in, and nothing else: no two states share a key of the table.
    The load of the memory, which the database reports as "memory", does not enter into it. *)
Theorem reward_updates_one_value `{MathLib} q state action nowStatus usage :
  let '(reward, q') := Reward q state action nowStatus in
  (forall state' action', valueOf q' state' action' =
     if decide (state' = state /\ slot action' = slot action) then reward else valueOf q state' action') /\
  Gamma q' = Gamma q /\ Epsilon q' = Epsilon q /\ CurrentState q' = CurrentState q /\
  Reward q state action (<["memory" := usage]> nowStatus) = (reward, q').
Proof.
  cbn [Reward]. split_and!; try done.
  - intros state' action'. exact (proj1 (Reward_values q state action nowStatus state' action')).
  - unfold Reward, stateReward, metricOf. by rewrite !lookup_insert_ne by done.
Qed.

(** ** Choices *)
Definition best (a : Action) : Z := Z.max (Plus a) (Z.max (Stay a) (Minus a)).
Definition boundedAction (M : Z) (a : Action) : Prop := Z.abs (Plus a) <= M /\ Z.abs (Stay a) <= M /\ Z.abs (Minus a) <= M.

Lemma greatest_best `{MathLib} M a : boundedAction M a -> M < 2 ^ 53 -> toInt (greatest a) = best a.
Proof.
  intros (Hp&Hs&Hm) HM. unfold greatest. rewrite !fmax_ofInt by (unfold exactInt; lia).
  unfold toInt. by rewrite toInt64_ofInt by (unfold exactInt; lia).
Qed.

(** The agent always chooses one of its three actions. Unless it explores, no action has a
    greater value in the current state than the one it chooses, and among the best ones it stays
    rather than to add an instance, and adds one rather than to remove one. (The values are compared as
    floating-point numbers, which is exact up to 53 bits.) *)
Theorem agent_chooses_a_best_action `{MathLib} q prob exploration :
  let a := actionOf q (CurrentState q) in
  let action := ChooseAction q prob exploration in
  boundedAction (2 ^ 53 - 1) a -> 0 <= exploration < 3 ->
  (action = 1 \/ action = 0 \/ action = -1) /\
  (flt prob (Epsilon q) = false ->
    (forall other, valueIn a other <= valueIn a action) /\
    (forall other, valueIn a other = valueIn a action -> action = 0 \/ slot other = action \/ (action = 1 /\ slot other = -1))) /\
  MaximumOp q (CurrentState q) = best a.
Proof.
  intros a action Ha Hex. pose proof (greatest_best _ a Ha ltac:(lia)) as Hg. unfold action, ChooseAction, MaximumOp. fold a. rewrite Hg.
  split_and!; [|intros ->|done].
  - destruct (flt prob (Epsilon q)); [lia|]. repeat case_decide; auto.
  - unfold valueIn, slot, best in *.
    destruct (decide (Stay a = _)); [|destruct (decide (Plus a = _))]; cbn [decide]; split; intros other; repeat case_decide; lia.
Qed.

(** ** Bounds *)
Definition boundedTable (M : Z) (m : gmap string Action) : Prop := forall key a, m !! key = Some a -> boundedAction M a.

(** Metrics and numbers of instances up to a limit, and what they make of a state. *)
Definition boundedObservation (L : Z) (o : observation) : Prop :=
  (forall name, Z.abs (metricOf (obs_metrics o) name) <= L) /\ Z.abs (obs_replicas o) <= L /\ 0 <= obs_exploration o < 3.
Definition boundedState (L : Z) (c : State) : Prop := Z.abs (RpsH c) * 15 <= L /\ Z.abs (Replicas c) <= L.

(** A discount below one half. *)
Definition discounts (q : QLearn) : Prop := isWeight (Gamma q) /\ flt (Gamma q) fhalf = true.

Definition valueBound (L : Z) : Z := 36 * L + 400.

Lemma wrap_within x k : Z.abs x <= k -> k < 2 ^ 63 -> Z.abs (wrap64 x) <= k.
Proof. intros Hx Hk. rewrite wrap64_id; [done|]. unfold in_int64, min_int64, max_int64. lia. Qed.

Lemma costOf_bound usage L : Z.abs usage <= L -> L <= 2 ^ 40 -> Z.abs (costOf usage) <= L.
Proof.
  intros Hu HL. apply wrap_within; [|lia]. rewrite Z.abs_mul. change (Z.abs 3) with 3.
  assert (Z.abs (Z.quot usage 10) * 10 <= Z.abs usage); [|lia]. rewrite <- Z.quot_abs by lia. change (Z.abs 10) with 10.
  rewrite Z.quot_div_nonneg by lia. pose proof (Z.mul_div_le (Z.abs usage) 10). lia.
Qed.

Lemma stateReward_bound c nowStatus L : boundedState L c -> (forall name, Z.abs (metricOf nowStatus name) <= L) -> 0 <= L <= 2 ^ 40 ->
  Z.abs (stateReward c nowStatus) <= 18 * L + 80.
Proof.
  intros [Hr Hn] Hs HL. assert (Hcost : forall name, Z.abs (costOf (metricOf nowStatus name)) <= L) by (intros; by apply costOf_bound; [|lia]).
  unfold stateReward. cbv zeta. set (r0 := goalReward c).
  assert (H0 : Z.abs r0 <= 60) by (unfold r0, goalReward; destruct (_ && _), (CPUH c), (MemH c); lia).
  set (r1 := if CPUH c then _ else _). assert (H1 : Z.abs r1 <= 60 + L).
  { unfold r1. destruct (CPUH c); [|lia]. apply wrap_within; [|lia]. pose proof (Hcost "cpu"). lia. }
  set (r2 := if MemH c then _ else _). assert (H2 : Z.abs r2 <= 60 + 2 * L).
  { unfold r2. destruct (MemH c); [|lia]. apply wrap_within; [|lia]. pose proof (Hcost "mem"). lia. }
  pose proof (wrap_within (RpsH c * 15) L ltac:(lia) ltac:(lia)) as Hrps.
  pose proof (wrap_within (r2 + wrap64 (RpsH c * 15)) (60 + 3 * L) ltac:(lia) ltac:(lia)) as H3.
  set (r3 := wrap64 (r2 + _)) in *. set (r4 := wrap64 (if RtimeH c then _ else _)).
  assert (H4 : Z.abs r4 <= 65 + 3 * L) by (apply wrap_within; destruct (RtimeH c); lia).
  pose proof (wrap_within (Replicas c - 1) (L + 1) ltac:(lia) ltac:(lia)) as H5.
  pose proof (wrap_within (wrap64 (Replicas c - 1) * 15) (15 * L + 15) ltac:(lia) ltac:(lia)) as H6.
  apply wrap_within; lia.
Qed.

Lemma actionReward_bound state action reward k : Z.abs reward <= k -> k < 2 ^ 60 -> Z.abs (actionReward state action reward) <= k + 103.
Proof.
  intros Hr Hk. unfold actionReward. cbv zeta. set (r1 := if decide (action = 1) then _ else _).
  assert (H1 : Z.abs r1 <= k + 3).
  { unfold r1. destruct (decide (action = 1)); [|destruct (decide (action = 0)); [|destruct (decide (action = -1)); [|lia]]]; apply wrap_within; lia. }
  destruct (decide (action = -1 /\ Replicas state = 1)); [apply wrap_within; lia|lia].
Qed.

Lemma actionOf_bound q state M : boundedTable M (States q) -> 0 <= M -> boundedAction M (actionOf q state).
Proof. intros Ht HM. unfold actionOf. destruct (States q !! toKey state) as [a|] eqn:E; [by apply (Ht _ _ E)|]. repeat split; done. Qed.

Lemma Reward_bound `{MathLib} q state action nowStatus L : discounts q -> 0 <= L <= 2 ^ 40 -> boundedState L (CurrentState q) ->
  (forall name, Z.abs (metricOf nowStatus name) <= L) -> boundedTable (valueBound L) (States q) ->
  Z.abs (fst (Reward q state action nowStatus)) <= valueBound L /\ boundedTable (valueBound L) (States (snd (Reward q state action nowStatus))).
Proof.
  intros [Hg Hhalf] HL Hc Hs Ht. unfold Reward. cbv zeta. cbn [fst snd States setStates]. unfold valueBound in *.
  pose proof (actionOf_bound q state _ Ht ltac:(lia)) as Ha.
  assert (Hmax : exactInt (best (actionOf q state)) /\ Z.abs (best (actionOf q state)) <= 36 * L + 400).
  { unfold exactInt, best. destruct Ha as (?&?&?). lia. }
  destruct Hmax as [Hex Hmax]. destruct (below_half_product (Gamma q) _ Hg Hhalf Hex) as (y&Hy&Hyb).
  assert (Hm : MaximumOp q state = best (actionOf q state)) by (by eapply greatest_best; [exact Ha|lia]).
  unfold toInt. rewrite Hm, Hy. pose proof (stateReward_bound _ _ L Hc Hs HL) as Hr.
  pose proof (actionReward_bound state action _ _ Hr ltac:(lia)) as Hr'.
  set (reward := wrap64 _). assert (Hreward : Z.abs reward <= 36 * L + 400) by (apply wrap_within; lia). split; [done|].
  intros key a. rewrite lookup_insert_Some. intros [[_ <-]|[_ Hk]]; [|by apply (Ht key)].
  unfold withValue. destruct Ha as (?&?&?). repeat case_decide; repeat split; done.
Qed.

(** What holds between two rounds: after the first, the agent is still in the state in which it chose its last action. *)
Definition controlled (L : Z) (c : controller) : Prop :=
  discounts (agent c) /\ boundedTable (valueBound L) (States (agent c)) /\ boundedState L (CurrentState (agent c)) /\
  (firstRun c = false -> CurrentState (agent c) = lastState c /\ is_Some (States (agent c) !! toKey (lastState c)) /\
     (lastAction c = 1 \/ lastAction c = 0 \/ lastAction c = -1)).

Lemma classify_bound o L : 0 <= L -> boundedObservation L o -> let m := metricOf (obs_metrics o) in
  boundedState L (classify (m "cpu") (m "memory") (m "rps") (m "rtime") (m "r5xx") (obs_replicas o)).
Proof.
  intros HL (Hm&Hr&_) m. split; [|done]. cbn [RpsH classify]. specialize (Hm "rps"). fold m in Hm.
  assert (Z.abs (Z.quot (m "rps") 100) * 100 <= Z.abs (m "rps")); [|lia]. rewrite <- Z.quot_abs by lia. change (Z.abs 100) with 100.
  rewrite Z.quot_div_nonneg by lia. pose proof (Z.mul_div_le (Z.abs (m "rps")) 100). lia.
Qed.

Lemma controlStep_controlled `{MathLib} L c o : 0 <= L <= 2 ^ 40 -> boundedObservation L o -> controlled L c -> controlled L (controlStep c o).
Proof.
  intros HL Ho (Hd&Ht&Hs&_). unfold controlStep. cbv zeta. cbn [agent firstRun lastState lastAction].
  set (q := if firstRun c then agent c else _).
  assert (Hq : discounts q /\ boundedTable (valueBound L) (States q)).
  { unfold q. destruct (firstRun c); [done|]. split; [exact Hd|]. by apply Reward_bound; [..|apply Ho|]. }
  destruct Hq as [Hdq Htq]. pose proof (classify_bound o L ltac:(lia) Ho) as Hc. cbv zeta in Hc. unfold SetCurrentState. cbv zeta.
  set (st := classify _ _ _ _ _ _) in *. cbn [CurrentState setCurrent States].
  set (q' := match States q !! toKey st with Some _ => _ | None => _ end).
  assert (Hq' : discounts q' /\ boundedTable (valueBound L) (States q') /\ CurrentState q' = st /\ is_Some (States q' !! toKey st)).
  { unfold q'. destruct (States q !! toKey st) eqn:E; split_and!; try done; cbn [States setStates setCurrent]; [|by rewrite lookup_insert_eq].
    intros key a. rewrite lookup_insert_Some. intros [[_ <-]|[_ Hk]]; [|by apply (Htq key)].
    unfold valueBound. repeat split; cbn; lia. }
  destruct Hq' as (Hd'&Ht'&Hc'&Hin). unfold controlled. cbn [agent firstRun lastState lastAction]. rewrite Hc'. split_and!; [done..|].
  intros _. split_and!; [done..|]. destruct Ho as (_&_&Hex). unfold ChooseAction.
  destruct (flt _ _); [lia|]. cbv zeta. repeat case_decide; auto.
Qed.

(** The state that an observation is classified as. *)
Definition observedState (o : observation) : State :=
  let m := metricOf (obs_metrics o) in classify (m "cpu") (m "memory") (m "rps") (m "rtime") (m "r5xx") (obs_replicas o).

(** What the agent learns for [action], chosen in [state], when the metrics [m] come in: the reward of [state], not of
    the state that follows, and the discounted greatest value that [state] had. *)
Definition learned (q : QLearn) (state : State) (action : Z) (m : metricMap) `{MathLib} : Z :=
  wrap64 (actionReward state action (stateReward state m) + toInt (fmul (Gamma q) (ofInt (best (actionOf q state))))).

Lemma SetCurrentState_values q cpu mem rps rtime r5xx replicas state action :
  let q' := SetCurrentState q cpu mem rps rtime r5xx replicas in
  valueOf q' state action = valueOf q state action /\ Gamma q' = Gamma q /\ CurrentState q' = classify cpu mem rps rtime r5xx replicas.
Proof.
  unfold SetCurrentState. cbv zeta. cbn [CurrentState setCurrent States]. set (st := classify _ _ _ _ _ _).
  destruct (States q !! toKey st) eqn:E; [done|]. split_and!; try done. unfold valueOf, actionOf. cbn [States setStates setCurrent].
  destruct (decide (toKey state = toKey st)) as [->|]; [by rewrite lookup_insert_eq, E|by rewrite lookup_insert_ne].
Qed.

(** One round after the first. *)
Lemma controlStep_learns `{MathLib} L c o : 0 <= L <= 2 ^ 40 -> controlled L c -> firstRun c = false ->
  forall state action, valueOf (agent (controlStep c o)) state action =
    if decide (state = lastState c /\ slot action = slot (lastAction c))
    then learned (agent c) (lastState c) (lastAction c) (obs_metrics o) else valueOf (agent c) state action.
Proof.
  intros HL (_&Ht&_&Hl) Hf state action. destruct (Hl Hf) as (Hcur&_). unfold controlStep. cbv zeta. rewrite Hf. cbn [agent].
  rewrite (proj1 (SetCurrentState_values _ _ _ _ _ _ _ _ _)).
  pose proof (Reward_values (agent c) (lastState c) (lastAction c) (obs_metrics o) state action) as Hr.
  destruct (Reward (agent c) (lastState c) (lastAction c) (obs_metrics o)) as [reward q'] eqn:E. destruct Hr as [Hr _]. cbn [snd].
  rewrite Hr. unfold Reward in E. cbv zeta in E. injection E as <- _. unfold learned.
  assert (Hm : MaximumOp (agent c) (lastState c) = best (actionOf (agent c) (lastState c))).
  { eapply greatest_best; [apply actionOf_bound; [exact Ht|unfold valueBound; lia]|unfold valueBound; lia]. }
  by rewrite Hm, Hcur.
Qed.

Lemma controlStep_frame `{MathLib} c o : Gamma (agent (controlStep c o)) = Gamma (agent c) /\
  lastState (controlStep c o) = observedState o /\ firstRun (controlStep c o) = false.
Proof.
  unfold controlStep. cbv zeta. cbn [agent lastState firstRun]. set (q := if firstRun c then _ else _).
  destruct (SetCurrentState_values q (metricOf (obs_metrics o) "cpu") (metricOf (obs_metrics o) "memory") (metricOf (obs_metrics o) "rps")
    (metricOf (obs_metrics o) "rtime") (metricOf (obs_metrics o) "r5xx") (obs_replicas o) zeroState 0) as (_&-> & ->).
  split_and!; [|done..]. unfold q. by destruct (firstRun c).
Qed.

Lemma controlled_run `{MathLib} L c observations : 0 <= L <= 2 ^ 40 -> Forall (boundedObservation L) observations -> controlled L c ->
  controlled L (foldl controlStep c observations) /\ (observations <> [] -> firstRun (foldl controlStep c observations) = false) /\
  Gamma (agent (foldl controlStep c observations)) = Gamma (agent c).
Proof.
  intros HL Ho. revert c. induction Ho as [|o observations Ho _ IH]; intros c Hc; cbn [foldl]; [done|].
  destruct (IH _ (controlStep_controlled L c o HL Ho Hc)) as (H1&H2&H3). destruct (controlStep_frame c o) as (Hg&_&Hf).
  split_and!; [done| |by rewrite H3]. intros _. destruct observations; [done|by apply H2].
Qed.

(** C17: From a table whose values are within a bound that is linear in the limit of the metrics, every
    run of the control loop with a discount below one half keeps all values within this bound; so no sum overflows and
    the values stay exact as floating-point numbers. Every state that the agent gets into has its entry in the
    table. A round after the first changes one value only, that of the last action in the state in which it was chosen:
    it becomes the reward of that state, not of the one the action led to, and of the action, under the metrics
    of the new round, plus the discounted greatest value that the state had before. *)
Theorem values_stay_bounded `{MathLib} L c0 observations : 1 <= L <= 2 ^ 40 ->
  discounts (agent c0) -> boundedTable (valueBound L) (States (agent c0)) -> firstRun c0 = true -> boundedState L (CurrentState (agent c0)) ->
  Forall (boundedObservation L) observations ->
  let c := foldl controlStep c0 observations in
  boundedTable (valueBound L) (States (agent c)) /\ valueBound L < 2 ^ 53 /\
  (observations <> [] -> CurrentState (agent c) = lastState c /\ is_Some (States (agent c) !! toKey (lastState c)) /\
     (lastAction c = 1 \/ lastAction c = 0 \/ lastAction c = -1)) /\
  (forall before o o', observations = before ++ [o; o'] ->
     let c1 := foldl controlStep c0 (before ++ [o]) in
     Gamma (agent c1) = Gamma (agent c0) /\
     forall state action, valueOf (agent c) state action =
       if decide (state = observedState o /\ slot action = slot (lastAction c1))
       then learned (agent c1) (observedState o) (lastAction c1) (obs_metrics o') else valueOf (agent c1) state action).
Proof.
  intros HL Hd Ht Hf Hs Ho c. assert (Hc0 : controlled L c0) by (split_and!; [done..|congruence]).
  destruct (controlled_run L c0 observations ltac:(lia) Ho Hc0) as ((_&Hb&_&Hl)&Hrun&_). fold c in Hb, Hl, Hrun.
  split_and!; [done|unfold valueBound; lia|intros Hne; by apply Hl, Hrun|].
  intros before o o' -> c1. assert (Ho1 : Forall (boundedObservation L) (before ++ [o])).
  { change [o; o'] with ([o] ++ [o']) in Ho. rewrite (assoc_L (++)) in Ho. by apply Forall_app in Ho as [? _]. }
  destruct (controlled_run L c0 (before ++ [o]) ltac:(lia) Ho1 Hc0) as (Hc1&_&Hg1). fold c1 in Hc1, Hg1. split; [done|].
  assert (Hlast : lastState c1 = observedState o /\ firstRun c1 = false).
  { unfold c1. rewrite foldl_snoc. by destruct (controlStep_frame (foldl controlStep c0 before) o) as (_&?&?). }
  destruct Hlast as [Hls Hf1]. intros state action. rewrite <- Hls. unfold c. change [o; o'] with ([o] ++ [o']).
  rewrite (assoc_L (++)), foldl_snoc. fold c1. apply (controlStep_learns L); [lia|done..].
Qed.

(** ** Witnesses *)
#[local] Existing Instance exampleMath.

Definition exampleObservation (cpu replicas : Z) : observation :=
  {| obs_replicas := replicas; obs_metrics := {["cpu" := cpu; "memory" := 80; "rps" := 250; "rtime" := 3; "r5xx" := 0]};
     obs_prob := fone; obs_exploration := 0 |}.
Definition exampleStart : controller := startController (Load (fun _ => inl "no such file") (fun _ q => (q, None)) "ql.da").
Definition exampleRounds : list observation := [exampleObservation 90 2; exampleObservation 90 2; exampleObservation 40 3].
Definition exampleController : controller := foldl controlStep exampleStart exampleRounds.

Example two_rounds : States (agent (foldl controlStep exampleStart (take 2 exampleRounds))) =
  {[ "true true 2 false false 2" := {| Plus := 0; Stay := -5; Minus := 0 |} ]}.
Proof. vm_compute. reflexivity. Qed.

Lemma agent_chooses_a_best_action_witness :
  let q := agent exampleController in ChooseAction q fone 0 = 0 /\
  forall other, valueIn (actionOf q (CurrentState q)) other <= valueIn (actionOf q (CurrentState q)) (ChooseAction q fone 0).
Proof.
  intros q. split; [vm_compute; reflexivity|].
  destruct (agent_chooses_a_best_action q fone 0) as (_&Hbest&_).
  - vm_compute. repeat split; discriminate.
  - lia.
  - apply Hbest. vm_compute. reflexivity.
Defined.

Lemma metrics_within L (m : metricMap) : 0 <= L -> map_Forall (fun _ v => Z.abs v <= L) m -> forall name, Z.abs (metricOf m name) <= L.
Proof. intros HL Hm name. unfold metricOf. destruct (m !! name) as [v|] eqn:E; [by apply (Hm name)|done]. Qed.

Lemma values_stay_bounded_witness :
  let q := agent exampleController in boundedTable (valueBound 300) (States q) /\
  is_Some (States q !! toKey (lastState exampleController)) /\
  valueOf q (observedState (exampleObservation 90 2)) 1 =
    learned (agent (foldl controlStep exampleStart (take 2 exampleRounds))) (observedState (exampleObservation 90 2)) 1
      (obs_metrics (exampleObservation 40 3)).
Proof.
  intros q. destruct (values_stay_bounded 300 exampleStart exampleRounds) as (Hb&_&Hlast&Hlearn).
  - lia.
  - split; [|vm_compute; reflexivity]. apply (bool_decide_unpack _). vm_compute. exact I.
  - intros key a Ha. discriminate Ha.
  - reflexivity.
  - split; vm_compute; discriminate.
  - unfold exampleRounds. repeat apply list.Forall_cons_2; [..|apply list.Forall_nil_2]; (split; [|split; [cbn; lia|cbn; lia]]);
      (apply metrics_within; [lia|]; apply (bool_decide_unpack _); vm_compute; exact I).
  - split; [exact Hb|]. split; [exact (proj1 (proj2 (Hlast ltac:(discriminate))))|].
    destruct (Hlearn [exampleObservation 90 2] (exampleObservation 90 2) (exampleObservation 40 3) eq_refl) as [_ Hv]. unfold q, exampleController. rewrite Hv.
    rewrite decide_True by (split; [reflexivity|vm_compute; reflexivity]).
    replace (lastAction (foldl controlStep exampleStart ([exampleObservation 90 2] ++ [exampleObservation 90 2]))) with 1 by (vm_compute; reflexivity).
    reflexivity.
Defined.
