(* ===== verification/Neural.v ===== *)
(** * Scaling by a neural network (learn/neural.go, profil/profil.go, app/ctl/mainNeural.go)

    The network is a third-party library: its type, its numbers and its two methods are
    arguments.  The command labels what the database reports by thresholds, trains the network with
    the label and compares its prediction with it. *)
From Stdlib Require Import SpecFloat.
From S2P Require Import Prelude Float64 QLearning.
Local Open Scope Z_scope.

(** The numbers of the network, with their order, and the network. *)
Class Fann := {
  FannType : Type;
  fann_of : float64 -> FannType;
  fann_lt : FannType -> FannType -> bool;
  network : Type;
  ann_Run : network -> list FannType -> list FannType;
  ann_Train : network -> list FannType -> list FannType -> network
}.

Section Neural.
Context `{Fann} `{MathLib}.

Record Neural := { Ann : network; Avg : metricMap; StdDev : gmap string float64 }.

Definition ZScore (n : Neural) (field : string) (value : Z) : FannType :=
  let deviation := default fzero (StdDev n !! field) in
  if SFeqb deviation fzero then fann_of fzero
  else fann_of (fdiv (ofInt (wrap64 (value - metricOf (Avg n) field))) deviation).

Definition createInput (n : Neural) (metric : metricMap) : list FannType :=
  (fun field => ZScore n field (metricOf metric field)) <$> ["cpu"; "mem"; "rps"; "rtime"; "r5xx"; "replicas"].

(** The loop over the three outputs; [None] is a panic of an index. *)
Definition greatestIndex (predict : list FannType) : option nat :=
  foldl (fun res i =>
    actionIndex ← res; current ← predict !! actionIndex; output ← predict !! i;
    Some (if fann_lt current output then i else actionIndex)) (Some 0%nat) (seq 0 3).

Definition Run (n : Neural) (metric : metricMap) : option Z :=
  actionIndex ← greatestIndex (ann_Run (Ann n) (createInput n metric));
  Some (if decide (actionIndex = 0%nat) then 1 else if decide (actionIndex = 2%nat) then -1 else 0).

Definition targetOf (class : Z) : list FannType :=
  let one := fann_of fone in
  let zero := fann_of fzero in
  if decide (class = 1) then [one; zero; zero]
  else if decide (class = 0) then [zero; one; zero]
  else if decide (class = -1) then [zero; zero; one]
  else [zero; zero; zero].

Definition Train (n : Neural) (metric : metricMap) (class : Z) : Neural :=
  {| Ann := ann_Train (Ann n) (createInput n metric) (targetOf class); Avg := Avg n; StdDev := StdDev n |}.

(** ** The database (profil/profil.go) *)
Definition lastDeviations : string :=
  "STDDEV(cpu) as cpu,STDDEV(memory) as memory,STDDEV(rps) as rps,STDDEV(rtime) as rtime,STDDEV(r2xx) as r2xx,STDDEV(r5xx) as r5xx,last(replicas) as replicas".

Definition GetProfilStdLast (QueryDB : string -> string + list (list series)) (ParseFloat : string -> float64)
    (region instanceId timeLength : string) : option (gmap string float64) :=
  match QueryDB (selectLast lastDeviations region instanceId timeLength) with
  | inl err => Some ∅
  | inr dbResult => firstRow ParseFloat dbResult
  end.

(** The requests per instance that are written; [None] is the panic of a division by zero. *)
Definition requestsPerInstance (request replicas : Z) : option Z :=
  if decide (replicas = 0) then None else Some (wrap64 (Z.quot request replicas)).

(** ** The label of a round (app/ctl/mainNeural.go)

    [request] is missing when the metrics are nil; [write] is the error of the write of the
    requests per instance, [avgRPI] the answer of GetAvgRPI.  [None] is a panic. *)
Definition scaleLabel (replicas : Z) (cpu10Min : float64) (request : option Z) (write : Z -> option string) (avgRPI : string + float64)
    : option Z :=
  if flt (ofInt 70) cpu10Min then
    request ← request;
    rpi ← requestsPerInstance request replicas;
    match write rpi with
    | Some err => None
    | None => Some (if replicas <? 10 then 1 else 0)
    end
  else if 1 <? replicas then
    let rpiMax := match avgRPI with inl err => fopp fone | inr rpi => rpi end in
    if flt fzero rpiMax then
      request ← request;
      minReplicas ← requestsPerInstance request (toInt rpiMax);
      Some (if minReplicas <? replicas then -1 else 0)
    else Some 0
  else Some 0.

(** One round: the network after it, its prediction and whether it is counted as correct. *)
Definition neuralRound (n : Neural) (replicas : Z) (cpu10Min : float64) (request : option Z) (write : Z -> option string)
    (avgRPI : string + float64) (resUsage10min : metricMap) : option (Neural * Z * bool) :=
  action ← scaleLabel replicas cpu10Min request write avgRPI;
  let n := Train n resUsage10min action in
  predict ← Run n resUsage10min;
  Some (n, predict, bool_decide (predict = action)).

(** ** Properties *)

(** The prediction is the first of the greatest outputs, for outputs in a linear order. *)
Lemma greatestIndex_first a b c rest : (forall x y, fann_lt x y = true -> fann_lt y x = false) ->
  (forall x y z, fann_lt x z = true -> fann_lt x y = true \/ fann_lt y z = true) ->
  exists i best, greatestIndex (a :: b :: c :: rest) = Some i /\ [a; b; c] !! i = Some best /\
    (forall o, o ∈ [a; b; c] -> fann_lt best o = false) /\ (forall j o, (j < i)%nat -> [a; b; c] !! j = Some o -> fann_lt o best = true).
Proof.
  intros Hasym Hneg. assert (Hirr : forall x, fann_lt x x = false).
  { intros x. destruct (fann_lt x x) eqn:E; [|done]. by rewrite (Hasym _ _ E) in E. }
  assert (Hindex : greatestIndex (a :: b :: c :: rest) =
    Some (if fann_lt a b then (if fann_lt b c then 2%nat else 1%nat) else if fann_lt a c then 2%nat else 0%nat)).
  { unfold greatestIndex. cbn. rewrite Hirr. cbn. destruct (fann_lt a b) eqn:Eab; cbn; rewrite ?Eab; cbn.
    - by destruct (fann_lt b c).
    - by destruct (fann_lt a c). }
  rewrite Hindex. destruct (fann_lt a b) eqn:Eab; [destruct (fann_lt b c) eqn:Ebc|destruct (fann_lt a c) eqn:Eac].
  - exists 2%nat, c. split_and!; [done..| |].
    + intros o Ho. rewrite !list.elem_of_cons, elem_of_nil in Ho. destruct Ho as [->|[->|[->|[]]]]; [|by apply Hasym|by apply Hirr].
      destruct (fann_lt c a) eqn:E; [|done]. destruct (Hneg _ b _ E) as [E'|E']; [by rewrite (Hasym _ _ Ebc) in E'|by rewrite (Hasym _ _ Eab) in E'].
    + intros [|[|j]] o Hj; [intros [= <-]|intros [= <-]; done|lia]. destruct (Hneg _ c _ Eab) as [|E]; [done|]. by rewrite (Hasym _ _ Ebc) in E.
  - exists 1%nat, b. split_and!; [done..| |].
    + intros o Ho. rewrite !list.elem_of_cons, elem_of_nil in Ho. destruct Ho as [->|[->|[->|[]]]]; [by apply Hasym|by apply Hirr|done].
    + intros [|j] o Hj; [intros [= <-]; done|lia].
  - exists 2%nat, c. split_and!; [done..| |].
    + intros o Ho. rewrite !list.elem_of_cons, elem_of_nil in Ho. destruct Ho as [->|[->|[->|[]]]]; [by apply Hasym| |by apply Hirr].
      destruct (fann_lt c b) eqn:E; [|done]. destruct (Hneg _ a _ E) as [E'|E']; [by rewrite (Hasym _ _ Eac) in E'|congruence].
    + intros [|[|j]] o Hj; [intros [= <-]; done|intros [= <-]|lia]. destruct (Hneg _ b _ Eac) as [|E]; [congruence|done].
  - exists 0%nat, a. split_and!; [done..| |lia].
    intros o Ho. rewrite !list.elem_of_cons, elem_of_nil in Ho. destruct Ho as [->|[->|[->|[]]]]; [by apply Hirr|done..].
Qed.

(** The load of the memory, which the database reports as "memory", is no input of the network. *)
Lemma memory_is_no_input n metric usage : createInput n (<["memory" := usage]> metric) = createInput n metric.
Proof. unfold createInput, metricOf. cbn. by rewrite !lookup_insert_ne by done. Qed.

(** The label that follows a panic-free round: one more instance only under load and below ten
    instances, one less only when the load is not high and there is more than one. *)
Theorem label_respects_the_limits replicas cpu10Min request write avgRPI action :
  scaleLabel replicas cpu10Min request write avgRPI = Some action ->
  (action = 1 -> flt (ofInt 70) cpu10Min = true /\ replicas < 10) /\
  (action = -1 -> flt (ofInt 70) cpu10Min = false /\ 1 < replicas) /\ (action = 1 \/ action = 0 \/ action = -1).
Proof.
  unfold scaleLabel, requestsPerInstance. destruct (flt (ofInt 70) cpu10Min).
  - destruct request as [r|]; [|done]. cbn [mbind option_bind]. case_decide; [done|]. cbn [mbind option_bind]. destruct (write _); [done|].
    intros [= <-]. destruct (Z.ltb_spec replicas 10); lia.
  - destruct (Z.ltb_spec 1 replicas); [|intros [= <-]; lia]. cbv zeta. destruct (flt fzero _); [|intros [= <-]; lia].
    destruct request as [r|]; [|done]. cbn [mbind option_bind]. case_decide; [done|]. cbn [mbind option_bind]. intros [= <-].
    destruct (_ <? replicas); lia.
Qed.
End Neural.
